(* ===== verification/_CoqProject ===== *)
-Q . S2P
Prelude.v
CString.v
StrUtil.v
Endian.v
Sha2.v
Prng.v
Crc32.v
Partitions.v
StdVector.v
StdString.v
Futex.v
Pipe.v
Keyboard.v
Tty.v
PhysPageMap.v
Ext2Alloc.v
Ext2Inode.v
Ext2Write.v
PPageAlloc.v
VpAllocatorPage.v
VpAllocator.v
BitField.v
PageEntry.v
PageTree.v
PageWalk.v
ArmPageWalk.v
VPageAlloc.v
PageAlloc.v
RunSearch.v
SmallAlloc.v
BasicAlloc.v
Malloc.v
Spinlock.v
HwSpinlock.v
Task.v
Tasklist.v
SchedInv.v
SchedSwitch.v
SchedSteps.v
SchedTheorems.v
Mutex.v
SharedPtr.v
SharedPtrInv.v
SharedPtrTheorems.v
SharedPtrRace.v
Semaphore.v
MulSemaphore.v
Signals.v
ProcTables.v
ProcMem.v
ProcMemTheorems.v
Frames.v
ProcPages.v
ProcPagesTheorems.v
ProcVm.v
ProcFault.v
ProcVmInv.v
ProcVmExamples.v
ProcFaultInv.v
ProcFaultTheorems.v
ProcProtect.v
ProcFork.v
