(* ===== verification/Prelude.v ===== *)
(** * Verification of jeokernel

    jeokernel is a kernel for x86-64 and aarch64 in C++.  This library models
    its memory management, locks, scheduler, process memory, inter-process
    communication, the ext2 file system, the terminal and the C++ and C
    library routines they rest on, and proves them correct against what their
    clients rely on.

    ** The parts of the program and their models

    Physical memory.  [PhysPageMap] is the bitmap of physical pages
    (include/physpagemap.h, kernel/physpagemap.cpp): an array of 32-bit words,
    with single pages and page ranges claimed and released.  The abstract
    class physpagemap_managed is the typeclass [PhyspageMapManaged] with laws
    [PhyspageMapLaws]; both implementations discharge them.  [PPageAlloc] has
    ppagealloc, ppagealloc32 and ppagefree of kernel/pagealloc.cpp, proved
    against the laws.

    Address ranges.  [VpAllocatorPage] and [VpAllocator] are the sorted arrays
    of free ranges and the chain of them (include/vpallocator.h).

    Page tables.  [BitField] and [PageEntry] are the bit fields, segment
    descriptors and page table entries of include/pagetable.h.  [PageTree] is
    what a tree of tables in memory is; [PageWalk] and [ArmPageWalk] are the
    walks of the two architectures (include/pagetable_impl.h,
    kernel/pagetable.cpp, kernel/vmem.cpp).

    Kernel memory.  [VPageAlloc] is the search for virtual pages, whose state
    is two bits of the page table entries; [PageAlloc] joins virtual pages,
    physical pages and their mapping (kernel/pagealloc.cpp).  [SmallAlloc] is
    the table of small units, [BasicAlloc] the allocators built on it as
    implementations of one interface [MemoryAllocator], and [Malloc] the
    chain of them behind malloc, calloc and free (kernel/kmemory).
    [RunSearch] is the reference definition of the first-fit searches.

    Locks.  [Spinlock] and [HwSpinlock] are raw_spinlock, hw_spinlock and
    critical_section of kernel/arch, as interleavings of their atomic
    instructions.  [Mutex], [Semaphore] and [MulSemaphore] are std::mutex,
    raw_semaphore and mul_semaphore (kernel/concurrency, kernel/arch/x86_64),
    whose tasks sleep until an event of the scheduler.

    Tasks.  [Task] and [Tasklist] are class task and class tasklist
    (include/core/scheduler.h, kernel/tasks/tasklist.cpp) with the register
    frames of interrupt_frame.h.  [SchedInv] has the invariant and the
    delivery of events, [SchedSwitch] the choice of the next task,
    [SchedSteps] all operations as a step relation, [SchedTheorems] what
    follows for clients.

    Processes (kernel/exec/process.cpp).  [Signals] are the signal sets and
    the pending signals, [ProcTables] process numbers, children, descriptors
    and limits, [ProcMem] with [ProcMemTheorems] the memory map.  [Frames] is
    what a process needs of the physical allocator, a class
    ([FrameAllocatorLaws]) that the allocator of [PPageAlloc] discharges.
    [ProcPages] with [ProcPagesTheorems] are the page tables of a process,
    [ProcVm] the operations on its whole address space and [ProcFault] its
    page faults.  [ProcVmInv] is their invariant, [ProcFaultInv] that faults
    keep it; [ProcFaultTheorems], [ProcProtect] and [ProcFork] are what
    faults, mprotect and fork do; [ProcVmExamples] has the address spaces of
    the examples.  [Futex] and [Pipe] are kernel/exec/futex.cpp and pipe.cpp.

    Files.  [Partitions] reads partition tables and [Crc32] is their checksum
    (kernel/blockdevs).  [Ext2Alloc] is the allocation of inodes and blocks of
    the ext2 file system, [Ext2Inode] the reading of a file through its cache
    of pages, [Ext2Write] the way of dirty pages to the disk
    (kernel/blockdevs/filesystems, kernel/blockdevsystem).  Block devices are
    parameters, with the classes [HoldsDisk] and [WritesAll] for what is
    expected of them.

    Terminal.  [Keyboard] decodes the bytes of a keyboard
    (kernel/keyboard), and [Tty] edits and hands out lines
    (kernel/tty/tty.cpp).

    Library.  [CString] and [StrUtil] are the C functions on memory and
    strings (kernel/strings.cpp, kernel/strutil); [Endian], [Sha2] and [Prng]
    byte order, SHA-256 and random numbers; [StdVector], [StdString] and
    [SharedPtr] with [SharedPtrInv], [SharedPtrTheorems] and [SharedPtrRace]
    the vector, string and shared pointers of include/std.

    ** How the models correspond to the code

    A machine integer is a [Z]; every operation that can leave its width is
    followed by [wrap] ([u8], [u16], [u32], [u64]).  A function that can fail
    returns [outcome]: [Ret], [OutOfBounds] for an access outside an array or
    through a pointer to nothing, [Panicked] for wild_panic and for processor
    exceptions, [OutOfFuel] for a loop that did not end within its fuel.
    Memory of page tables is a map from addresses to arrays of 512 entries;
    objects with identity (tasks, handlers, range pages, containers) carry
    their address.  State is passed explicitly.  Code under a lock is one
    step; where several threads or CPUs meet ([Spinlock], [HwSpinlock],
    [Mutex], [Semaphore], [MulSemaphore], [Futex], [SharedPtrRace],
    [SchedSteps]) the steps interleave in any order.  page_fault and exception
    of the scheduler are two steps each, as they give up the lock in between.
    fork (Clone) and resolve_page, which gives up its lock while it reads a
    file, are one step; files, terminal, pipe and containers are used by one
    thread at a time.  An uninitialised variable is a parameter ([uninit] of
    [VPageAlloc], [None] for current_task in [Tasklist]).

    ** What the theorems show

    - Allocation: each allocator returns memory that was free, marks exactly
      this memory, fails only when there is none, and gives it back with the
      matching release: [ppagealloc_locked_correct], [vpagealloc_correct],
      [pagealloc_correct], [small_allocate_correct], [malloc_correct] and the
      round trips.  Optimised loops equal their references
      ([claim_range_is_claim_each], the searches by way of [RunSearch]).
    - Page tables: an update changes the entry of one page and no other
      translation ([update_pageentr_correct], [rwmap_correct],
      [arm_get_pageentr64_correct], [pageentry_correct]); bit fields behave
      like variables ([bitfield_laws]).
    - Locks: the ticket lock refines a queue and every waiting thread gets it
      ([raw_spinlock_refines_fifo], [raw_spinlock_liveness]); interrupts are
      off in hw_spinlock and come back as they were ([hw_spinlock_safe]); no
      wakeup of mutexes, semaphores and futexes is lost
      ([mutex_no_lost_wakeup], [semaphore_correct], [mul_semaphore_correct],
      [futex_no_lost_wakeup]).
    - Scheduler: every reachable state runs one task on each CPU
      ([sched_invariant]), the task chosen may run and has the highest
      priority ([switch_pick_correct]), events always return and everyone
      hears them ([event_delivery]), sleepers wake in time ([sleep_wakeup]).
    - Processes: faults, mprotect and fork keep the invariant that a page one
      may write to belongs to the process alone ([sync_resolve_correct],
      [resolve_write_correct], [protect_correct], [fork_correct]); pending
      signals are handed out ([signals_delivered]); pipes keep the order of
      bytes and reads ([pipe_fifo]).
    - Files: what is read is the file ([ReadBytes_correct]), what is flushed
      can be read back ([flush_correct]), inodes are given out once
      ([ext2_inodes_refine]); readers of partition tables stop and stay inside
      their arrays ([mbr_terminates], [gpt_safe]).
    - Terminal: key movements are decoded ([keyboard_decodes]) and lines
      arrive whole ([tty_lines], [typed_text_read]).
    - Library: hashes and copies equal their definitions ([sha256_correct],
      [generate_correct], [crc32_correct], [memmove_correct]), containers
      refine lists ([vector_refines], [string_refines]), and shared pointers
      delete an object exactly once ([shared_ptr_step], [weak_ptr_tracks],
      [shared_ptr_threads_safe]).
    - Where the code does not do what it means to, a theorem shows it:
      [TryFree_front_gap_loses_first_range], [MoreRoom_unsorted],
      [ppagealloc32_top_unclaimed], [vpagealloc_needs_storage],
      [try_lock_spec], [mutex_wrap_loses_wakeup], [weak_lock_race],
      [push_back_own_element], [substr_stores_through_null],
      [pipe_eof_strands_reader], [fork_loses_page], [fork_shares_read_only],
      [protect_opens_pages_behind], [setDirty_lost], [blocks_allocated_twice],
      [capslock_steals_release], [shift_types_zero] and others.

    ** What is supposed

    - The page allocator's variable starting_addr, which is declared anew
      without a value in each round, keeps its storage ([keeps_storage]) in
      theorems about blocks of more than one page, and so in [malloc_correct].
    - Frames for processes lie below 4 GiB; the code computes addresses of
      tables in 32 bits.  [resolve_write_correct] is for addresses below 2^44,
      above which page numbers are cut off.
    - [fork_safe]: a process that forks has all of its own pages present and
      writeable.  [protect_safe]: mprotect is not called with PROT_NONE for
      pages that fork shares, nor with PROT_READ and PROT_WRITE for pages of
      files that are not loaded.  The code goes wrong in these cases, and the
      invariant [vm_ok] excludes what the first of mprotect's leads to.
    - try_lock is not among the steps of the locks; it is modelled apart
      ([try_lock_spec]).
    - Files have no holes and are smaller than 4 GiB, and devices read and
      write without errors.

    ** Bounds and fuel

    Loops over tables and arrays have the length of the table as fuel.  Where
    fuel depends on an argument, theorems state how much is enough (more than
    the number of pages for the loops over a block, one unit for 32 bytes of
    random numbers, more than the number of blocks of a disk for chains of
    partitions) and that the result is then [Ret].  get_next_id has 2^32
    rounds, one for each id.  One round of [drain_events] suffices because
    only a timeout raises an event in response to one, and the event it raises
    is not a timer tick.  [mutex_no_lost_wakeup] is for fewer than 0xF8000000
    steps, below which no ticket reaches the range that the code treats as
    wrapped; [semaphore_correct] is for fewer than 2^31 and
    [mul_semaphore_correct] for fewer than 2^32 - 1 steps.  Strings are shorter
    than 2^55 characters, so that sizes do not overflow.

    ** Not modelled

    - Device drivers, interrupts and timers, the boot loaders, ACPI, the
      display and the shell: their work is access to hardware, or text.
    - System calls, which fetch arguments and call what is modelled, the
      loading of programs, file descriptors, and the file system layer with
      directories, mounting, writing to files in memory and the records of
      inodes on the disk.
    - kernel/libcxxrt and the ACPICA sources are third-party code; the rest of
      include/std is modelled where other parts use it (vectors as lists,
      optional as option).
    - Memory is sequentially consistent: the x86-64 locks use locked
      instructions for every access to shared words; the weaker order of
      aarch64 is outside the model.
    - The contents of kernel memory, cache and TLB maintenance, time spent,
      printing and statistics. *)

From Stdlib Require Export ZArith Lia.
From stdpp Require Export base tactics numbers list list_numbers fin_maps gmap.

#[export] Set Default Goal Selector "!".
#[global] Open Scope Z_scope.

(** ** Machine integers *)

(** An unsigned w-bit integer is a [Z]; [wrap w] is the conversion of the
    C++ language to a w-bit unsigned type. *)
Definition wrap (w x : Z) : Z := x mod 2 ^ w.

Abbreviation u8 := (wrap 8).
Abbreviation u16 := (wrap 16).
Abbreviation u32 := (wrap 32).
Abbreviation u64 := (wrap 64).

(** Bitwise complement at width w ([~x] followed by the conversion). *)
Definition not_w (w x : Z) : Z := wrap w (Z.lnot x).

(** [x] is a value of the unsigned type of width [w]. *)
Definition is_u (w x : Z) : Prop := 0 ≤ x < 2 ^ w.

(** ** Outcomes

    Code that can go wrong returns an [outcome]: a value, an access outside
    the object it indexes, a call of [wild_panic] (which does not return), or
    a loop that was cut off by its fuel. *)
Inductive outcome (A : Type) : Type :=
  | Ret (a : A)
  | OutOfBounds
  | Panicked
  | OutOfFuel.
Arguments Ret {A} a.
Arguments OutOfBounds {A}.
Arguments Panicked {A}.
Arguments OutOfFuel {A}.

#[export] Instance outcome_ret : MRet outcome := @Ret.
#[export] Instance outcome_bind : MBind outcome := fun A B f m =>
  match m with
  | Ret a => f a
  | OutOfBounds => OutOfBounds
  | Panicked => Panicked
  | OutOfFuel => OutOfFuel
  end.
#[export] Instance outcome_fmap : FMap outcome := fun A B f m =>
  match m with
  | Ret a => Ret (f a)
  | OutOfBounds => OutOfBounds
  | Panicked => Panicked
  | OutOfFuel => OutOfFuel
  end.

(** Reading and writing a C array, with the access outside it visible. *)
Definition rd {A} (l : list A) (i : Z) : outcome A :=
  match l !! Z.to_nat i with Some x => Ret x | None => OutOfBounds end.

Definition wr {A} (l : list A) (i : Z) (x : A) : outcome (list A) :=
  match l !! Z.to_nat i with
  | Some _ => Ret (<[Z.to_nat i := x]> l)
  | None => OutOfBounds
  end.

(** ** Automation *)

Create HintDb kern.
Create Rewrite HintDb kern_bits.

Ltac bsimp :=
  repeat match goal with
  | H : andb _ _ = true |- _ => apply andb_prop in H as [? ?]
  | H : (_ =? _) = true |- _ => apply Z.eqb_eq in H
  | H : (_ =? _) = false |- _ => apply Z.eqb_neq in H
  | H : (_ <? _) = true |- _ => apply Z.ltb_lt in H
  | H : (_ <? _) = false |- _ => apply Z.ltb_ge in H
  | H : (_ <=? _) = true |- _ => apply Z.leb_le in H
  | H : (_ <=? _) = false |- _ => apply Z.leb_gt in H
  end.

(** Case analysis on the boolean test that guards the goal. *)
Ltac ztest :=
  match goal with
  | |- context [if ?a =? ?b then _ else _] => destruct (Z.eqb_spec a b)
  | |- context [if ?a <? ?b then _ else _] => destruct (Z.ltb_spec a b)
  | |- context [if ?a <=? ?b then _ else _] => destruct (Z.leb_spec a b)
  end.

(** ** Arithmetic of machine integers *)

Lemma pow2_pos w : 0 ≤ w → 0 < 2 ^ w.
Proof. intros. apply Z.pow_pos_nonneg; lia. Qed.

Lemma wrap_range w x : 0 ≤ w → 0 ≤ wrap w x < 2 ^ w.
Proof. intros. by apply Z.mod_pos_bound, pow2_pos. Qed.

Lemma wrap_id w x : is_u w x → wrap w x = x.
Proof. apply Z.mod_small. Qed.

Lemma wrap_land w x : 0 ≤ w → wrap w x = Z.land x (Z.ones w).
Proof. intros. by rewrite Z.land_ones. Qed.

Lemma wrap_wrap w x : wrap w (wrap w x) = wrap w x.
Proof. apply Zmod_mod. Qed.

Lemma wrap_add w x y : wrap w (wrap w x + wrap w y) = wrap w (x + y).
Proof. unfold wrap. by rewrite <- Zplus_mod. Qed.

Lemma wrap_spec w x i :
  0 ≤ w → 0 ≤ i → Z.testbit (wrap w x) i = (i <? w) && Z.testbit x i.
Proof.
  intros. unfold wrap. rewrite Z.testbit_mod_pow2 by lia. done.
Qed.

Lemma is_u_bits w x i : is_u w x → w ≤ i → Z.testbit x i = false.
Proof.
  intros Hx Hi. destruct (decide (w < 0)).
  { unfold is_u in Hx. rewrite Z.pow_neg_r in Hx by lia. lia. }
  rewrite <- (wrap_id w x Hx), wrap_spec by lia.
  by destruct (Z.ltb_spec i w); [lia |].
Qed.

(** A nonnegative number with no bit at or above [w] is a w-bit value. *)
Lemma is_u_of_bits w x :
  0 ≤ w → 0 ≤ x → (∀ i, w ≤ i → Z.testbit x i = false) → is_u w x.
Proof.
  intros Hw Hx Hb. assert (x = wrap w x) as ->; [| by apply wrap_range].
  apply Z.bits_inj'. intros i Hi. rewrite wrap_spec by lia.
  destruct (Z.ltb_spec i w); [done | by apply Hb].
Qed.

Lemma is_u_lor w x y : 0 ≤ w → is_u w x → is_u w y → is_u w (Z.lor x y).
Proof.
  intros Hw Hx Hy. apply is_u_of_bits; [done | apply Z.lor_nonneg; unfold is_u in *; lia |].
  intros i Hi. by rewrite Z.lor_spec, (is_u_bits w x), (is_u_bits w y).
Qed.

Lemma is_u_land w x y : 0 ≤ w → is_u w x → 0 ≤ y → is_u w (Z.land x y).
Proof.
  intros Hw Hx Hy. apply is_u_of_bits; [done | apply Z.land_nonneg; unfold is_u in *; lia |].
  intros i Hi. by rewrite Z.land_spec, (is_u_bits w x).
Qed.

Lemma is_u_lxor w x y : 0 ≤ w → is_u w x → is_u w y → is_u w (Z.lxor x y).
Proof.
  intros Hw Hx Hy. apply is_u_of_bits; [done | apply Z.lxor_nonneg; unfold is_u in *; lia |].
  intros i Hi. by rewrite Z.lxor_spec, (is_u_bits w x), (is_u_bits w y).
Qed.

Lemma is_u_wrap w x : 0 ≤ w → is_u w (wrap w x).
Proof. apply wrap_range. Qed.

Lemma is_u_shiftr w x n : 0 ≤ n → is_u w x → is_u w (Z.shiftr x n).
Proof.
  intros Hn [Hx0 Hx]. rewrite Z.shiftr_div_pow2 by done. pose proof (pow2_pos n Hn).
  split; [apply Z.div_pos; lia |]. apply Z.div_lt_upper_bound; nia.
Qed.

#[export] Hint Resolve is_u_lor is_u_land is_u_lxor is_u_wrap is_u_shiftr wrap_range : kern.

(** Bit specifications, for goals about single bits of computed words. *)
#[export] Hint Rewrite Z.lor_spec Z.land_spec Z.lxor_spec : kern_bits.
#[export] Hint Rewrite Z.shiftr_spec Z.shiftl_spec Z.lnot_spec wrap_spec
  Z.testbit_0_l using lia : kern_bits.

(** [Z.testbit] of a power of two, as a test. *)
Lemma testbit_pow2 n i : 0 ≤ n → 0 ≤ i → Z.testbit (2 ^ n) i = (i =? n).
Proof.
  intros. destruct (Z.eqb_spec i n) as [-> |].
  - by apply Z.pow2_bits_true.
  - by apply Z.pow2_bits_false.
Qed.

Lemma testbit_shl1 n i : 0 ≤ n → 0 ≤ i → Z.testbit (Z.shiftl 1 n) i = (i =? n).
Proof. intros. by rewrite Z.shiftl_1_l, testbit_pow2. Qed.

Lemma land_31 x : Z.land x 31 = x mod 32.
Proof. change 31 with (Z.ones 5). by rewrite Z.land_ones. Qed.

Lemma shiftr_5 x : Z.shiftr x 5 = x / 32.
Proof. by rewrite Z.shiftr_div_pow2. Qed.

(** A word tested against a one-bit mask. *)
Lemma land_shl1_eqb x n :
  0 ≤ n → (Z.land x (Z.shiftl 1 n) =? 0) = negb (Z.testbit x n).
Proof.
  intros Hn. destruct (Z.testbit x n) eqn:E; simpl.
  - apply Z.eqb_neq. intros H0. apply (f_equal (fun z => Z.testbit z n)) in H0.
    rewrite Z.land_spec, E, testbit_shl1, Z.eqb_refl, Z.testbit_0_l in H0 by lia. done.
  - apply Z.eqb_eq, Z.bits_inj'. intros i Hi.
    rewrite Z.land_spec, testbit_shl1, Z.testbit_0_l by lia.
    destruct (Z.eqb_spec i n) as [-> |]; [by rewrite E | by rewrite andb_false_r].
Qed.

(** A number taken apart at bit [k] and put together again. *)
Lemma join_bits k x : 0 ≤ k → Z.lor (wrap k x) (Z.shiftl (Z.shiftr x k) k) = x.
Proof.
  intros Hk. apply Z.bits_inj'. intros i Hi.
  rewrite Z.lor_spec, wrap_spec, Z.shiftl_spec by lia.
  destruct (Z.ltb_spec i k).
  - by rewrite (Z.testbit_neg_r _ (i - k)), orb_false_r by lia.
  - rewrite Z.shiftr_spec by lia. simpl. f_equal. lia.
Qed.

Lemma wrap_land_ones k j x : 0 ≤ k ≤ j → wrap k (Z.land x (Z.ones j)) = wrap k x.
Proof.
  intros Hk. apply Z.bits_inj'. intros i Hi.
  rewrite !wrap_spec, Z.land_spec, Z.testbit_ones by lia.
  destruct (Z.ltb_spec i k), (Z.ltb_spec i j), (Z.leb_spec 0 i); simpl; try lia; by rewrite ?andb_true_r.
Qed.

Lemma wrap_shiftr j k x : 0 ≤ j → 0 ≤ k → wrap k (Z.shiftr x j) = Z.shiftr (wrap (j + k) x) j.
Proof.
  intros Hj Hk. apply Z.bits_inj'. intros i Hi.
  rewrite wrap_spec, !Z.shiftr_spec, wrap_spec by lia.
  by destruct (Z.ltb_spec i k), (Z.ltb_spec (i + j) (j + k)); try lia.
Qed.

Lemma wrap_min k j x : 0 ≤ k ≤ j → wrap k (wrap j x) = wrap k x.
Proof.
  intros Hk. apply Z.bits_inj'. intros i Hi. rewrite !wrap_spec by lia.
  by destruct (Z.ltb_spec i k), (Z.ltb_spec i j); try lia.
Qed.

Lemma lor_low a b n : 0 ≤ a → 0 ≤ b < 2 ^ n → 0 ≤ n → Z.lor (Z.shiftl a n) b = a * 2 ^ n + b.
Proof.
  intros Ha Hb Hn. rewrite <- (Z.shiftl_mul_pow2 a n) by done.
  assert (Z.land (Z.shiftl a n) b = 0) as E; [| by rewrite Z.add_nocarry_lxor, Z.lxor_lor].
  apply Z.bits_inj'. intros i Hi.
  rewrite Z.land_spec, Z.shiftl_spec, Z.testbit_0_l by done.
  destruct (Z.ltb_spec i n).
  - by rewrite (Z.testbit_neg_r _ (i - n)) by lia.
  - by rewrite (is_u_bits n b), andb_false_r by done.
Qed.

(** ** Arrays *)

Lemma rd_Some {A} (l : list A) i x : rd l i = Ret x ↔ l !! Z.to_nat i = Some x.
Proof. unfold rd. case_match; naive_solver. Qed.

Lemma rd_lt {A} (l : list A) i :
  0 ≤ i < Z.of_nat (length l) → ∃ x, rd l i = Ret x ∧ l !! Z.to_nat i = Some x.
Proof.
  intros. destruct (lookup_lt_is_Some_2 l (Z.to_nat i)) as [x Hx]; [lia |].
  exists x. by rewrite rd_Some.
Qed.

Lemma wr_lt {A} (l : list A) i x :
  0 ≤ i < Z.of_nat (length l) → wr l i x = Ret (<[Z.to_nat i := x]> l).
Proof.
  intros. destruct (lookup_lt_is_Some_2 l (Z.to_nat i)) as [y Hy]; [lia |].
  unfold wr. by rewrite Hy.
Qed.

(** The loop [while (i < j) { --j; l[j + 1] = l[j]; }] that makes room for
    an element at [i]. *)
Fixpoint shift_right {A} (fuel : nat) (i j : Z) (l : list A) : outcome (list A) :=
  if i <? j then
    match fuel with
    | O => OutOfFuel
    | S fuel => x ← rd l (j - 1); l ← wr l j x; shift_right fuel i (j - 1) l
    end
  else Ret l.

Lemma shift_right_spec {A} (a b : list A) x c fuel i j :
  i = Z.of_nat (length a) → j = i + Z.of_nat (length b) → (length b ≤ fuel)%nat →
  shift_right fuel i j (a ++ b ++ x :: c) = Ret (a ++ default x (head b) :: b ++ c).
Proof.
  intros -> ->. revert x c fuel. induction b as [| z b IH] using rev_ind; intros x c fuel Hf.
  { destruct fuel; cbn [shift_right length]; rewrite Z.add_0_r, Z.ltb_irrefl; done. }
  rewrite length_app in Hf. cbn in Hf. destruct fuel as [| fuel]; [lia |]. cbn [shift_right].
  rewrite length_app. cbn [length]. rewrite (proj2 (Z.ltb_lt _ _)) by lia.
  replace (Z.of_nat (length a) + Z.of_nat (length b + 1) - 1)
    with (Z.of_nat (length a) + Z.of_nat (length b)) by lia.
  unfold rd, wr. rewrite <- !(assoc_L (++)). cbn [app].
  assert (∀ y, (a ++ b ++ z :: y :: c) !! Z.to_nat (Z.of_nat (length a) + Z.of_nat (length b)) = Some z) as Hz.
  { intros y. rewrite (assoc_L (++)). apply list_lookup_middle. rewrite length_app. lia. }
  rewrite Hz. cbn [mbind outcome_bind].
  assert ((a ++ b ++ z :: x :: c) = (a ++ b ++ [z]) ++ x :: c) as E by (by rewrite <- !(assoc_L (++))).
  assert (Z.to_nat (Z.of_nat (length a) + Z.of_nat (length b + 1)) = length (a ++ b ++ [z])) as En.
  { rewrite !length_app. cbn. lia. }
  rewrite E, En, list_lookup_middle by done. cbn [mbind outcome_bind].
  rewrite insert_app_r_alt, Nat.sub_diag by lia. cbn [insert list_insert].
  rewrite <- !(assoc_L (++)). cbn [app]. rewrite IH by lia.
  f_equal. f_equal. f_equal. by destruct b.
Qed.

(** The loop that inserts [x] in front of the first of the [num] elements of
    [l] that it is to come before; [l] has one more place at its end. *)
Fixpoint insert_before {A} (before : A → A → bool) (fuel : nat) (i num : Z) (x : A) (l : list A)
    : outcome (list A) :=
  if i <? num then
    match fuel with
    | O => OutOfFuel
    | S fuel =>
        y ← rd l i;
        if before x y then
          l ← shift_right (Z.to_nat num) i num l;
          wr l i x
        else insert_before before fuel (i + 1) num x l
    end
  else wr l num x.

(** [a] are the elements that have been passed, [z] is what is at the end. *)
Lemma insert_before_spec {A} (before : A → A → bool) a b x z fuel :
  (length b ≤ fuel)%nat →
  ∃ c d, b = c ++ d ∧ Forall (fun y => before x y = false) c ∧
    match d with [] => True | y :: _ => before x y = true end ∧
    insert_before before fuel (Z.of_nat (length a)) (Z.of_nat (length (a ++ b))) x (a ++ b ++ [z]) =
    Ret (a ++ c ++ x :: d).
Proof.
  revert a fuel. induction b as [| y b IH]; intros a fuel Hf.
  { exists [], []. split_and!; [done | constructor | done |]. rewrite app_nil_r. cbn [app].
    assert (insert_before before fuel (Z.of_nat (length a)) (Z.of_nat (length a)) x (a ++ [z]) =
      wr (a ++ [z]) (Z.of_nat (length a)) x) as -> by (destruct fuel; cbn; by rewrite Z.ltb_irrefl).
    unfold wr. rewrite Nat2Z.id, list_lookup_middle by done.
    by rewrite insert_app_r_alt, Nat.sub_diag by lia. }
  destruct fuel as [| fuel]; [cbn in Hf; lia |]. cbn in Hf.
  cbn [insert_before]. rewrite (proj2 (Z.ltb_lt _ _)) by (rewrite length_app; cbn; lia).
  assert (rd (a ++ (y :: b) ++ [z]) (Z.of_nat (length a)) = Ret y) as ->.
  { apply rd_Some. rewrite Nat2Z.id. by apply (list_lookup_middle a (b ++ [z])). }
  cbn [mbind outcome_bind]. destruct (before x y) eqn:Hb.
  - exists [], (y :: b). split_and!; [done | constructor | done |].
    rewrite (shift_right_spec a (y :: b) z []) by (rewrite ?length_app; cbn; lia).
    cbn [mbind outcome_bind]. unfold wr. rewrite Nat2Z.id, list_lookup_middle by done.
    rewrite insert_app_r_alt, Nat.sub_diag by lia. cbn. by rewrite app_nil_r.
  - destruct (IH (a ++ [y]) fuel) as (c & d & -> & Hc & Hd & He); [lia |].
    exists (y :: c), d. split_and!; [done | by constructor | done |].
    rewrite <- !(assoc_L (++)) in He. cbn [app] in He.
    replace (Z.of_nat (length a) + 1) with (Z.of_nat (length (a ++ [y]))) by (rewrite length_app; cbn; lia).
    cbn [app]. rewrite <- !(assoc_L (++)). exact He.
Qed.
