(* ===== verification/CString.v ===== *)
(** kernel/strings.cpp: memmove with its copy by words, bcopy, bzero, memset,
    memcpy, strcmp and strlen, on the bytes of memory. *)
From S2P Require Import Prelude.

Local Open Scope Z_scope.

(** * Memory *)

(** The byte at each address. *)
Definition bmem := Z → Z.

Definition store (m : bmem) (a v : Z) : bmem := fun x => if x =? a then v else m x.

Definition bytes_ok (m : bmem) : Prop := ∀ a, is_u 8 (m a).

(** A word of [n] bytes, the lowest first. *)
Fixpoint load_word (n : nat) (m : bmem) (a : Z) : Z :=
  match n with
  | O => 0
  | S n => Z.lor (m a) (Z.shiftl (load_word n m (a + 1)) 8)
  end.

Fixpoint store_word (n : nat) (m : bmem) (a v : Z) : bmem :=
  match n with
  | O => m
  | S n => store_word n (store m a (wrap 8 v)) (a + 1) (Z.shiftr v 8)
  end.

(** * The code *)

(** [while (src_ptr < src_end)], [n] times, from low to high addresses. *)
Fixpoint copy_up (n : nat) (dest src : Z) (m : bmem) : bmem :=
  match n with
  | O => m
  | S n => copy_up n (dest + 1) (src + 1) (store m dest (m src))
  end.

(** [while (dest_end > dest_ptr)], from high to low addresses. *)
Fixpoint copy_down (n : nat) (dest src : Z) (m : bmem) : bmem :=
  match n with
  | O => m
  | S n => copy_down n dest src (store m (dest + Z.of_nat n) (m (src + Z.of_nat n)))
  end.

Section Words.
(** The number of bytes of copy_type. *)
Context (size : nat).
Abbreviation W := (Z.of_nat size).

(** Bytes up to the next aligned address. *)
Definition alignment (addr : Z) : Z :=
  let a := W - addr mod W in if a =? W then 0 else a.

(** A word of the destination from two words of the source. *)
Definition join_words (right_shift left_shift v1 v2 : Z) : Z :=
  let dst_ins := if right_shift =? 8 * W then 0 else Z.shiftr v1 right_shift in
  let v2 := if negb (left_shift =? 8 * W) then wrap (8 * W) (Z.shiftl v2 left_shift) else 0 in
  Z.lor dst_ins v2.

(** [while (src_opt < src_opt_end)], [n] times. *)
Fixpoint copy_words (n : nat) (dst_opt src_opt right_shift left_shift v1 : Z) (m : bmem) : bmem :=
  match n with
  | O => m
  | S n =>
      let v2 := load_word size m src_opt in
      copy_words n (dst_opt + W) (src_opt + W) right_shift left_shift v2
        (store_word size m dst_opt (join_words right_shift left_shift v1 v2))
  end.

Definition memmove_impl (dest src n : Z) (m : bmem) : bmem :=
  let src_alignment := alignment src in
  let src_end := src + n in
  let m := copy_up (Z.to_nat src_alignment) dest src m in
  let dest_ptr := dest + src_alignment in
  let src_ptr := src + src_alignment in
  let dst_alignment := alignment dest_ptr in
  let m := copy_up (Z.to_nat dst_alignment) dest_ptr src_ptr m in
  let dst_opt := dest_ptr + dst_alignment in
  let src_opt_end := src_end - src_end mod W in
  if src_ptr <? src_opt_end then
    let v1 := load_word size m src_ptr in
    let right_shift := 8 * dst_alignment in
    let left_shift := 8 * W - right_shift in
    let rounds := Z.to_nat ((src_opt_end - (src_ptr + W)) / W) in
    let m := copy_words rounds dst_opt (src_ptr + W) right_shift left_shift v1 m in
    let dest_ptr := dst_opt + W * Z.of_nat rounds in
    let src_ptr := src + (dest_ptr - dest) in
    copy_up (Z.to_nat (src_end - src_ptr)) dest_ptr src_ptr m
  else m.

End Words.

Definition memmove (dest src n : Z) (m : bmem) : bmem :=
  if dest =? src then m else
  if (dest <? src) || (src + n <? dest) then
    if 32 <? n then memmove_impl 8 dest src n m else copy_up (Z.to_nat n) dest src m
  else copy_down (Z.to_nat n) dest src m.

Definition bcopy (src dest n : Z) (m : bmem) : bmem := memmove dest src n m.
Definition memcpy (dst src n : Z) (m : bmem) : bmem := bcopy src dst n m.

(** [for (i = 0; i < n; i++) wr[i] = c], with [c] converted to uint8_t. *)
Fixpoint fill (n : nat) (ptr c : Z) (m : bmem) : bmem :=
  match n with
  | O => m
  | S n => fill n (ptr + 1) c (store m ptr (wrap 8 c))
  end.

Definition bzero (ptr n : Z) (m : bmem) : bmem := fill (Z.to_nat n) ptr 0 m.
Definition memset (ptr c n : Z) (m : bmem) : bmem := fill (Z.to_nat n) ptr c m.

(** A char is signed. *)
Definition char_of (b : Z) : Z := if b <? 128 then b else b - 256.

Fixpoint strcmp (fuel : nat) (str1 str2 : Z) (m : bmem) : outcome Z :=
  match fuel with
  | O => OutOfFuel
  | S fuel =>
      if (m str1 =? m str2) && negb (m str1 =? 0) then strcmp fuel (str1 + 1) (str2 + 1) m
      else Ret (char_of (m str1) - char_of (m str2))
  end.

Fixpoint strlen_from (fuel : nat) (str len : Z) (m : bmem) : outcome Z :=
  match fuel with
  | O => OutOfFuel
  | S fuel =>
      if m (str + len) =? 0 then Ret len else
      if u64 (len + 1) =? 0 then Ret (u64 (u64 (len + 1) - 1))
      else strlen_from fuel str (u64 (len + 1)) m
  end.

Definition strlen (fuel : nat) (str : Z) (m : bmem) : outcome Z := strlen_from fuel str 0 m.

(** * Copies *)

(** The first [k] bytes of a copy of what [m] has at [src]. *)
Definition copied (m : bmem) (dest src k : Z) (m' : bmem) : Prop :=
  ∀ a, m' a = if decide (dest ≤ a < dest + k) then m (src + (a - dest)) else m a.

(** Copying upwards does not run over bytes that are still to be copied. *)
Definition up_safe (dest src n : Z) : Prop := dest < src ∨ src + n ≤ dest.

Lemma copied_0 m dest src : copied m dest src 0 m.
Proof. intros a. by rewrite decide_False by lia. Qed.

(** The source still has its bytes. *)
Lemma copied_src m dest src k m' n a :
  copied m dest src k m' → up_safe dest src n → k ≤ a - src < n ∨ (src + n ≤ dest ∧ a < src + n) → m' a = m a.
Proof. intros Hc Hs Ha. rewrite Hc. rewrite decide_False; [done |]. unfold up_safe in Hs. lia. Qed.

Lemma copied_store m dest src k m' v :
  copied m dest src k m' → 0 ≤ k → v = m (src + k) → copied m dest src (k + 1) (store m' (dest + k) v).
Proof.
  intros Hc Hk -> a. unfold store. destruct (Z.eqb_spec a (dest + k)) as [-> | Hne].
  - rewrite decide_True by lia. f_equal. lia.
  - rewrite Hc. repeat case_decide; done || lia.
Qed.

Lemma copy_up_copied m dest src n k j m' :
  copied m dest src k m' → up_safe dest src n → 0 ≤ k → k + Z.of_nat j ≤ n →
  copied m dest src (k + Z.of_nat j) (copy_up j (dest + k) (src + k) m').
Proof.
  revert k m'. induction j as [| j IH]; intros k m' Hc Hs Hk Hn; cbn [copy_up].
  { by rewrite Z.add_0_r. }
  rewrite (copied_src _ _ _ _ _ _ _ Hc Hs) by lia.
  replace (k + Z.of_nat (S j)) with ((k + 1) + Z.of_nat j) by lia.
  replace (dest + k + 1) with (dest + (k + 1)) by lia. replace (src + k + 1) with (src + (k + 1)) by lia.
  apply IH; [by apply copied_store | done | lia | lia].
Qed.

Lemma copy_down_copied m dest src n :
  src ≤ dest → copied m dest src (Z.of_nat n) (copy_down n dest src m).
Proof.
  intros Hs. revert m. induction n as [| n IH]; intros m a; cbn [copy_down]; [by rewrite decide_False by lia |].
  rewrite IH. unfold store. repeat case_decide; destruct (Z.eqb_spec a (dest + Z.of_nat n)); try lia.
  - rewrite (proj2 (Z.eqb_neq _ _)) by lia. done.
  - subst. f_equal. lia.
Qed.

(** * Words *)

(** Byte [i] of a number. *)
Definition byte (i v : Z) : Z := wrap 8 (Z.shiftr v (8 * i)).

Lemma byte_bits i v b : 0 ≤ i → 0 ≤ b → Z.testbit (byte i v) b = (b <? 8) && Z.testbit v (8 * i + b).
Proof.
  intros Hi Hb. unfold byte. rewrite wrap_spec by lia. rewrite Z.shiftr_spec by lia.
  destruct (Z.ltb_spec b 8); cbn; [by rewrite Z.add_comm | done].
Qed.

(** Two bytes are equal if their bits are. *)
Lemma byte_bits_ext x y : is_u 8 x → is_u 8 y → (∀ b, 0 ≤ b < 8 → Z.testbit x b = Z.testbit y b) → x = y.
Proof.
  intros Hx Hy Hb. apply Z.bits_inj'. intros b Hb0. destruct (decide (b < 8)); [apply Hb; lia |].
  by rewrite (is_u_bits 8 x b), (is_u_bits 8 y b) by (done || lia).
Qed.

Lemma load_word_bits n m a i b :
  bytes_ok m → 0 ≤ i < Z.of_nat n → 0 ≤ b < 8 → Z.testbit (load_word n m a) (8 * i + b) = Z.testbit (m (a + i)) b.
Proof.
  intros Hm. revert a i. induction n as [| n IH]; intros a i Hi Hb; [lia |]. cbn [load_word].
  rewrite Z.lor_spec, Z.shiftl_spec by lia. destruct (decide (i = 0)) as [-> | Hne].
  - rewrite (Z.testbit_neg_r (load_word _ _ _)) by lia. by rewrite orb_false_r, Z.add_0_r.
  - rewrite (is_u_bits 8 (m a)) by (try apply Hm; lia). cbn [orb].
    replace (8 * i + b - 8) with (8 * (i - 1) + b) by lia. rewrite IH by lia. do 2 f_equal. lia.
Qed.

Lemma load_word_u n m a : bytes_ok m → is_u (8 * Z.of_nat n) (load_word n m a).
Proof.
  intros Hm. revert a. induction n as [| n IH]; intros a; cbn [load_word]; [done |].
  apply is_u_lor; [lia | |].
  - pose proof (Hm a) as [H1 H2]. split; [done |]. eapply Z.lt_le_trans; [exact H2 |]. apply Z.pow_le_mono_r; lia.
  - destruct (IH (a + 1)) as [H1 H2]. split; rewrite Z.shiftl_mul_pow2 by lia; [lia |].
    replace (8 * Z.of_nat (S n)) with (8 * Z.of_nat n + 8) by lia. rewrite Z.pow_add_r by lia. nia.
Qed.

Lemma store_word_spec n m a v x :
  store_word n m a v x = if decide (a ≤ x < a + Z.of_nat n) then byte (x - a) v else m x.
Proof.
  revert m a v. induction n as [| n IH]; intros m a v; cbn [store_word]; [by rewrite decide_False by lia |].
  rewrite IH. unfold store. repeat case_decide; destruct (Z.eqb_spec x a); try lia.
  - unfold byte. rewrite Z.shiftr_shiftr by lia. do 2 f_equal. lia.
  - subst. unfold byte. by rewrite Z.sub_diag.
Qed.

(** A word made of two words of the source. *)
Lemma join_words_byte m a d i :
  bytes_ok m → 0 ≤ d < 8 → 0 ≤ i < 8 →
  byte i (join_words 8 (8 * d) (64 - 8 * d) (load_word 8 m a) (load_word 8 m (a + 8))) = m (a + d + i).
Proof.
  intros Hm Hd Hi. unfold join_words. change (8 * Z.of_nat 8) with 64.
  rewrite (proj2 (Z.eqb_neq (8 * d) 64)) by lia. apply byte_bits_ext; [apply is_u_wrap; lia | apply Hm |].
  intros b Hb. rewrite byte_bits by lia. rewrite (proj2 (Z.ltb_lt b 8)) by lia. cbn [andb].
  rewrite Z.lor_spec, Z.shiftr_spec by lia. replace (8 * i + b + 8 * d) with (8 * (d + i) + b) by lia.
  assert (Z.testbit (if negb (64 - 8 * d =? 64) then wrap 64 (Z.shiftl (load_word 8 m (a + 8)) (64 - 8 * d)) else 0) (8 * i + b) =
    if decide (8 ≤ d + i) then Z.testbit (m (a + d + i)) b else false) as ->.
  { destruct (Z.eqb_spec (64 - 8 * d) 64); cbn [negb]; [rewrite decide_False, Z.bits_0 by lia; done |].
    rewrite wrap_spec by lia. rewrite (proj2 (Z.ltb_lt (8 * i + b) 64)) by lia. cbn [andb].
    rewrite Z.shiftl_spec by lia. replace (8 * i + b - (64 - 8 * d)) with (8 * (d + i - 8) + b) by lia.
    case_decide; [rewrite load_word_bits by (done || lia); do 2 f_equal; lia |].
    apply Z.testbit_neg_r. lia. }
  case_decide.
  - rewrite (is_u_bits 64); [done | | lia]. by apply load_word_u.
  - rewrite load_word_bits by (done || lia). rewrite orb_false_r. do 2 f_equal. lia.
Qed.

(** * memmove *)

Lemma copied_word m dest src k m' v :
  copied m dest src k m' → 0 ≤ k → (∀ i, 0 ≤ i < 8 → byte i v = m (src + k + i)) →
  copied m dest src (k + 8) (store_word 8 m' (dest + k) v).
Proof.
  intros Hc Hk Hv a. rewrite store_word_spec. change (Z.of_nat 8) with 8. case_decide.
  - rewrite decide_True, Hv by lia. f_equal. lia.
  - rewrite Hc. repeat case_decide; done || lia.
Qed.

Lemma load_word_ext n m m' a : (∀ i, 0 ≤ i < Z.of_nat n → m' (a + i) = m (a + i)) → load_word n m' a = load_word n m a.
Proof.
  revert a. induction n as [| n IH]; intros a Hm; cbn [load_word]; [done |]. rewrite IH.
  - f_equal. specialize (Hm 0 ltac:(lia)). by rewrite Z.add_0_r in Hm.
  - intros i Hi. replace (a + 1 + i) with (a + (1 + i)) by lia. apply Hm. lia.
Qed.

(** The words: after [k] bytes, [v1] is the word [d] bytes below the next byte of
    the source. *)
Lemma copy_words_copied m dest src n d j k m' :
  bytes_ok m → copied m dest src k m' → up_safe dest src n → 0 ≤ d < 8 → d ≤ k →
  k - d + 8 * Z.of_nat (S j) ≤ n →
  copied m dest src (k + 8 * Z.of_nat j)
    (copy_words 8 j (dest + k) (src + (k - d) + 8) (8 * d) (64 - 8 * d) (load_word 8 m (src + (k - d))) m').
Proof.
  intros Hm. revert k m'. induction j as [| j IH]; intros k m' Hc Hs Hd Hk Hn; cbn [copy_words].
  { by rewrite Z.add_0_r. }
  change (Z.of_nat 8) with 8.
  assert (load_word 8 m' (src + (k - d) + 8) = load_word 8 m (src + (k - d) + 8)) as ->.
  { apply load_word_ext. intros i Hi. apply (copied_src _ _ _ _ _ _ _ Hc Hs). unfold up_safe in Hs. lia. }
  replace (k + 8 * Z.of_nat (S j)) with ((k + 8) + 8 * Z.of_nat j) by lia.
  replace (dest + k + 8) with (dest + (k + 8)) by lia.
  replace (src + (k - d) + 8) with (src + (k + 8 - d)) by lia.
  apply IH; [| done | done | lia | lia].
  apply copied_word; [done | lia |]. intros i Hi. replace (src + (k + 8 - d)) with (src + (k - d) + 8) by lia.
  rewrite join_words_byte by done. f_equal. lia.
Qed.

Lemma alignment_spec a : 0 ≤ alignment 8 a < 8 ∧ (a + alignment 8 a) mod 8 = 0.
Proof.
  unfold alignment. change (Z.of_nat 8) with 8. pose proof (Z.mod_pos_bound a 8 ltac:(lia)).
  pose proof (Z.div_mod a 8 ltac:(lia)). destruct (Z.eqb_spec (8 - a mod 8) 8).
  - rewrite Z.add_0_r. lia.
  - split; [lia |]. replace (a + (8 - a mod 8)) with ((a / 8 + 1) * 8) by lia. by rewrite Z.mod_mul.
Qed.

Lemma memmove_impl_copied m dest src n :
  bytes_ok m → up_safe dest src n → 32 < n → copied m dest src n (memmove_impl 8 dest src n m).
Proof.
  intros Hm Hs Hn. unfold memmove_impl. change (Z.of_nat 8) with 8. change (8 * 8) with 64.
  destruct (alignment_spec src) as [Hsa Hsm]. set (sa := alignment 8 src) in *.
  destruct (alignment_spec (dest + sa)) as [Hda Hdm]. set (da := alignment 8 (dest + sa)) in *.
  set (fin := src + n - (src + n) mod 8). pose proof (Z.mod_pos_bound (src + n) 8 ltac:(lia)) as Hmod.
  pose proof (Z.div_mod (src + n) 8 ltac:(lia)). pose proof (Z.div_mod (src + sa) 8 ltac:(lia)).
  pose proof (Z.div_mod (dest + sa + da) 8 ltac:(lia)).
  rewrite (proj2 (Z.ltb_lt (src + sa) fin)) by lia.
  set (rounds := Z.to_nat ((fin - (src + sa + 8)) / 8)).
  assert (8 * Z.of_nat rounds = fin - (src + sa + 8)) as Hr.
  { unfold rounds, fin. replace (src + n - (src + n) mod 8 - (src + sa + 8))
      with (((src + n) / 8 - (src + sa) / 8 - 1) * 8) by lia. rewrite Z.div_mul by lia. lia. }
  pose proof (copy_up_copied m dest src n 0 (Z.to_nat sa) m (copied_0 m dest src) Hs ltac:(lia) ltac:(lia)) as K1.
  rewrite !Z.add_0_r, Z.add_0_l, Z2Nat.id in K1 by lia.
  pose proof (copy_up_copied m dest src n sa (Z.to_nat da) _ K1 Hs ltac:(lia) ltac:(lia)) as K2.
  rewrite Z2Nat.id in K2 by lia. set (m2 := copy_up _ _ _ (copy_up _ _ _ _)) in *.
  assert (load_word 8 m2 (src + sa) = load_word 8 m (src + (sa + da - da))) as ->.
  { rewrite Z.add_simpl_r. apply load_word_ext. intros i Hi. rewrite K2, decide_False; [done |].
    unfold up_safe in Hs. lia. }
  pose proof (copy_words_copied m dest src n da rounds (sa + da) m2 Hm K2 Hs ltac:(lia) ltac:(lia) ltac:(lia)) as K3.
  rewrite Z.add_simpl_r in K3 |- *. rewrite Z.add_assoc in K3. set (m3 := copy_words _ _ _ _ _ _ _ _) in *.
  replace (src + (dest + sa + da + 8 * Z.of_nat rounds - dest)) with (src + (sa + da + 8 * Z.of_nat rounds)) by lia.
  replace (dest + sa + da + 8 * Z.of_nat rounds) with (dest + (sa + da + 8 * Z.of_nat rounds)) by lia.
  set (k := sa + da + 8 * Z.of_nat rounds) in *.
  pose proof (copy_up_copied m dest src n k (Z.to_nat (src + n - (src + k))) m3 K3 Hs ltac:(lia) ltac:(lia)) as K4.
  rewrite Z2Nat.id in K4 by lia. by replace (k + (src + n - (src + k))) with n in K4 by lia.
Qed.

(** C15: memmove, for any two ranges, overlapping or not: [n] bytes from [dest] on are those
    that were at [src], and no other byte changes.  For more than 32 bytes
    upwards it copies by aligned words of 64 bits, put together by shifts from
    two words of the source. *)
Theorem memmove_correct (dest src n : Z) (m : bmem) :
  bytes_ok m → 0 ≤ n →
  ∀ a, memmove dest src n m a = if decide (dest ≤ a < dest + n) then m (src + (a - dest)) else m a.
Proof.
  intros Hm Hn. change (copied m dest src n (memmove dest src n m)). unfold memmove.
  destruct (Z.eqb_spec dest src) as [-> | Hne].
  { intros a. case_decide; [f_equal; lia | done]. }
  destruct ((dest <? src) || (src + n <? dest)) eqn:E.
  - assert (up_safe dest src n) as Hs by (unfold up_safe; lia).
    destruct (Z.ltb_spec 32 n); [by apply memmove_impl_copied |].
    pose proof (copy_up_copied m dest src n 0 (Z.to_nat n) m (copied_0 m dest src) Hs ltac:(lia) ltac:(lia)) as H1.
    by rewrite !Z.add_0_r, Z.add_0_l, Z2Nat.id in H1 by lia.
  - pose proof (copy_down_copied m dest src (Z.to_nat n) ltac:(lia)) as H1. by rewrite Z2Nat.id in H1 by lia.
Qed.

Lemma memmove_correct_witness :
  let m : bmem := fun a => wrap 8 (a * a) in memmove 103 106 50 m 150 = m 153.
Proof. cbn zeta. rewrite memmove_correct; [done | intros a; by apply is_u_wrap | lia]. Defined.

(** * memset and bzero *)

Lemma fill_spec n ptr c m a :
  fill n ptr c m a = if decide (ptr ≤ a < ptr + Z.of_nat n) then wrap 8 c else m a.
Proof.
  revert ptr m. induction n as [| n IH]; intros ptr m; cbn [fill]; [by rewrite decide_False by lia |].
  rewrite IH. unfold store. repeat case_decide; destruct (Z.eqb_spec a ptr); done || lia.
Qed.

(** memset fills its range with the low byte of [c], bzero with 0, and
    neither writes elsewhere. *)
Theorem memset_correct (ptr c n : Z) (m : bmem) :
  0 ≤ n → ∀ a,
  memset ptr c n m a = (if decide (ptr ≤ a < ptr + n) then wrap 8 c else m a) ∧
  bzero ptr n m a = (if decide (ptr ≤ a < ptr + n) then 0 else m a).
Proof. intros Hn a. unfold memset, bzero. rewrite !fill_spec, Z2Nat.id by done. done. Qed.

Lemma memset_correct_witness : memset 10 0x141 3 (fun _ => 7) 12 = 0x41 ∧ bzero 10 3 (fun _ => 7) 13 = 7.
Proof.
  destruct (memset_correct 10 0x141 3 (fun _ => 7) ltac:(lia) 12) as [-> _].
  destruct (memset_correct 10 0 3 (fun _ => 7) ltac:(lia) 13) as [_ ->]. by split.
Defined.

(** * Strings that end with a zero *)

Definition cstr (m : bmem) (a : Z) (s : list Z) : Prop :=
  (∀ i x, s !! i = Some x → m (a + Z.of_nat i) = x ∧ is_u 8 x ∧ x ≠ 0) ∧ m (a + Z.of_nat (length s)) = 0.

Lemma cstr_cons m a x s : cstr m a (x :: s) → m a = x ∧ is_u 8 x ∧ x ≠ 0 ∧ cstr m (a + 1) s.
Proof.
  intros [Hs Hz]. destruct (Hs 0%nat x eq_refl) as (E & ? & ?). rewrite Z.add_0_r in E.
  split; [done |]. split; [done |]. split; [done |]. split.
  - intros i y Hy. destruct (Hs (S i) y Hy) as (E' & ? & ?). split; [| done]. rewrite <- E'. f_equal. lia.
  - rewrite <- Hz. f_equal. cbn. lia.
Qed.

Lemma cstr_nil m a : cstr m a [] → m a = 0.
Proof. intros [_ Hz]. by rewrite Z.add_0_r in Hz. Qed.

Lemma char_of_inj x y : is_u 8 x → is_u 8 y → char_of x - char_of y = 0 → x = y.
Proof. unfold is_u, char_of. intros. destruct (Z.ltb_spec x 128), (Z.ltb_spec y 128); lia. Qed.

Lemma strlen_from_spec m a s len fuel :
  cstr m (a + len) s → 0 ≤ len → len + Z.of_nat (length s) < 2 ^ 64 → (length s < fuel)%nat →
  strlen_from fuel a len m = Ret (len + Z.of_nat (length s)).
Proof.
  revert len fuel. induction s as [| x s IH]; intros len fuel Hs Hl Hb Hf; destruct fuel as [| fuel]; cbn in Hf; try lia;
    cbn [strlen_from].
  { apply cstr_nil in Hs. rewrite Hs. cbn [Z.eqb length]. f_equal. cbn. lia. }
  apply cstr_cons in Hs as (-> & _ & Hx & Hs). rewrite (proj2 (Z.eqb_neq x 0)) by done. cbn [length] in *.
  rewrite (wrap_id 64) by (unfold is_u; lia). rewrite (proj2 (Z.eqb_neq (len + 1) 0)) by lia.
  rewrite IH; [f_equal; lia | by rewrite Z.add_assoc | lia | lia | lia].
Qed.

(** strlen returns the number of bytes in front of the first zero, and
    strcmp returns 0 exactly for equal strings.  Both return once they have seen the zero. *)
Theorem strlen_strcmp_correct (m : bmem) (a b : Z) (s t : list Z) (fuel : nat) :
  cstr m a s → cstr m b t → Z.of_nat (length s) < 2 ^ 64 → (length s < fuel)%nat →
  strlen fuel a m = Ret (Z.of_nat (length s)) ∧ ∃ r, strcmp fuel a b m = Ret r ∧ (r = 0 ↔ s = t).
Proof.
  intros Hs Ht Hl Hf. split; [by apply (strlen_from_spec m a s 0); rewrite ?Z.add_0_r |]. clear Hl.
  revert a b t fuel Hs Ht Hf. induction s as [| x s IH]; intros a b t fuel Hs Ht Hf;
    destruct fuel as [| fuel]; cbn in Hf; try lia; cbn [strcmp].
  - apply cstr_nil in Hs. rewrite Hs. rewrite andb_false_r. eexists. split; [done |].
    destruct t as [| y t]; [apply cstr_nil in Ht; by rewrite Ht |]. apply cstr_cons in Ht as (-> & Hy & Hne & _).
    split; [| done]. intros E. by apply char_of_inj in E.
  - apply cstr_cons in Hs as (-> & Hx & Hxn & Hs). rewrite (proj2 (Z.eqb_neq x 0)) by done. cbn [negb].
    rewrite andb_true_r. destruct t as [| y t].
    + apply cstr_nil in Ht. rewrite Ht, (proj2 (Z.eqb_neq x 0)) by done. eexists. split; [done |]. split; [| done].
      intros E. by apply char_of_inj in E.
    + apply cstr_cons in Ht as (-> & Hy & _ & Ht). destruct (Z.eqb_spec x y) as [-> | Hne].
      * destruct (IH (a + 1) (b + 1) t fuel Hs Ht ltac:(lia)) as (r & -> & Hr). exists r. split; [done |].
        rewrite Hr. split; [by intros -> | by intros [= ->]].
      * eexists. split; [done |]. split; [| by intros [= -> ->]]. intros E. by apply char_of_inj in E.
Qed.

Lemma strlen_strcmp_correct_witness :
  let m : bmem := fun a => if (a =? 10) || (a =? 20) then 65 else 0 in
  strlen 5 10 m = Ret 1 ∧ ∃ r, strcmp 5 10 20 m = Ret r ∧ (r = 0 ↔ [65] = [65]).
Proof.
  cbn zeta. apply (strlen_strcmp_correct _ 10 20 [65] [65] 5); [| | by vm_compute | cbn; lia].
  all: split; [| done]; intros [| i] x E; [injection E as <-; split_and!; [done | by unfold is_u | done] | done].
Defined.
