(* ===== verification/StrUtil.v ===== *)
(** kernel/strutil: the functions of the C library on strings, on the bytes of memory of [CString]. *)
From S2P Require Import Prelude CString.

Local Open Scope Z_scope.

(** * The code *)

(** ** is_x_str.c *)

Definition isdigit (c : Z) : bool := (c <=? 57) && (48 <=? c).
Definition isalpha (c : Z) : bool := (c <=? 90) && (65 <=? c) || (c <=? 122) && (97 <=? c) || (c <=? 57) && (48 <=? c).
Definition isspace (c : Z) : bool := (c =? 32) || (c =? 9) || (c =? 11) || (c =? 12) || (c =? 10) || (c =? 13).

(** ** strcpy.c, strcat.c, strdup.cpp *)

(** The loop that copies characters up to the zero, and at most [n] of them; strcpy and strcat have no [n].  The memory and
    [dst] after it. *)
Fixpoint copy_chars (fuel : nat) (dst src i : Z) (n : option Z) (m : bmem) : outcome (bmem * Z) :=
  match fuel with
  | O => OutOfFuel
  | S fuel =>
      if negb (m src =? 0) && (match n with Some n => i <? n | None => true end)
      then copy_chars fuel (dst + 1) (src + 1) (i + 1) n (store m dst (m src))
      else Ret (m, dst)
  end.

Definition strcpy (fuel : nat) (dst src : Z) (m : bmem) : outcome bmem := r ← copy_chars fuel dst src 0 None m; Ret r.1.
Definition strncpy (fuel : nat) (dst src n : Z) (m : bmem) : outcome bmem := r ← copy_chars fuel dst src 0 (Some n) m; Ret r.1.

Definition strcat (fuel : nat) (str src : Z) (m : bmem) : outcome bmem :=
  len ← strlen fuel str m;
  r ← copy_chars fuel (str + len) src 0 None m;
  Ret (store r.1 r.2 0).
Definition strncat (fuel : nat) (str src n : Z) (m : bmem) : outcome bmem :=
  len ← strlen fuel str m;
  r ← copy_chars fuel (str + len) src 0 (Some n) m;
  Ret (store r.1 r.2 0).

(** strdup, with the block that malloc gave *)
Definition strdup (fuel : nat) (buf str : Z) (m : bmem) : outcome bmem :=
  len ← strlen fuel str m;
  strncpy fuel buf str (len + 1) m.

(** ** memcmp.c, strcmp.c, strlen.c *)

Fixpoint memcmp (n : nat) (p1 p2 : Z) (m : bmem) : Z :=
  match n with
  | O => 0
  | S n => let diff := m p1 - m p2 in if negb (diff =? 0) then diff else memcmp n (p1 + 1) (p2 + 1) m
  end.

Fixpoint strncmp (n : nat) (str1 str2 : Z) (m : bmem) : Z :=
  match n with
  | O => 0
  | S n =>
      let c1 := char_of (m str1) in
      let c2 := char_of (m str2) in
      if negb (c1 =? c2) then c1 - c2 else if c1 =? 0 then 0 else strncmp n (str1 + 1) (str2 + 1) m
  end.

(** ** strchr.c: nothing in the loops advances [str]. *)

Fixpoint strchr (fuel : nat) (str c : Z) (m : bmem) : outcome Z :=
  match fuel with
  | O => OutOfFuel
  | S fuel =>
      if negb (m str =? 0) then
        if char_of (m str) =? c then Ret str else strchr fuel str c m
      else Ret 0
  end.

Fixpoint strrchr (fuel : nat) (str c ptr : Z) (m : bmem) : outcome Z :=
  match fuel with
  | O => OutOfFuel
  | S fuel =>
      if negb (m str =? 0) then strrchr fuel str c (if char_of (m str) =? c then str else ptr) m
      else Ret ptr
  end.

(** ** strstr.c *)

(** The inner loop: the place in the needle where it ends. *)
Fixpoint match_rest (fuel : nat) (h n : Z) (m : bmem) : outcome Z :=
  match fuel with
  | O => OutOfFuel
  | S fuel => if negb (m n =? 0) then if negb (m h =? m n) then Ret n else match_rest fuel (h + 1) (n + 1) m else Ret n
  end.

Fixpoint strstr_loop (fuel nfuel : nat) (haystack needle : Z) (m : bmem) : outcome Z :=
  match fuel with
  | O => OutOfFuel
  | S fuel =>
      if negb (m haystack =? 0) then
        if m haystack =? m needle then
          n ← match_rest nfuel (haystack + 1) (needle + 1) m;
          if m n =? 0 then Ret haystack else strstr_loop fuel nfuel (haystack + 1) needle m
        else strstr_loop fuel nfuel (haystack + 1) needle m
      else Ret 0
  end.

Definition strstr (fuel nfuel : nat) (haystack needle : Z) (m : bmem) : outcome Z :=
  if m needle =? 0 then Ret haystack else strstr_loop fuel nfuel haystack needle m.

(** ** strint.cpp *)

Fixpoint skip_spaces (fuel : nat) (nptr : Z) (m : bmem) : outcome Z :=
  match fuel with
  | O => OutOfFuel
  | S fuel => if isspace (char_of (m nptr)) then skip_spaces fuel (nptr + 1) m else Ret nptr
  end.

(** The digit of a character in the loop for bases up to 10, and in the other one with whether it is a digit or letter. *)
Definition digit10 (c : Z) : Z := u64 (c - 48).
Definition digit36 (c : Z) : Z * bool :=
  if (65 <=? c) && (c <=? 90) then (u64 (c - 65 + 10), true)
  else if (97 <=? c) && (c <=? 122) then (u64 (c - 97 + 10), true)
  else (u64 (c - 48), (48 <=? c) && (c <=? 57)).

(** The loops: the number, the end and [valid]. *)
Fixpoint digits10 (fuel : nat) (nptr base num : Z) (valid : bool) (m : bmem) : outcome (Z * Z * bool) :=
  match fuel with
  | O => OutOfFuel
  | S fuel =>
      let c := char_of (m nptr) in
      if (c =? 0) || (c <? 48) || (57 <? c) || (base <=? digit10 c) then Ret (num, nptr, valid)
      else digits10 fuel (nptr + 1) base (u64 (u64 (num * base) + digit10 c)) true m
  end.

Fixpoint digits36 (fuel : nat) (nptr base num : Z) (valid : bool) (m : bmem) : outcome (Z * Z * bool) :=
  match fuel with
  | O => OutOfFuel
  | S fuel =>
      let '(digit, found) := digit36 (char_of (m nptr)) in
      let valid := valid || found in
      if negb found || (base <=? digit) then Ret (num, nptr, valid)
      else digits36 fuel (nptr + 1) base (u64 (u64 (num * base) + digit)) valid m
  end.

(** The base, the place of the digits and [valid] after the prefixes. *)
Definition read_prefix (nptr base : Z) (m : bmem) : Z * Z * bool :=
  let '(base, nptr) :=
    if ((base =? 0) || (base =? 16)) && (m nptr =? 48) && (m (nptr + 1) =? 120) then (16, nptr + 2) else (base, nptr) in
  let '(base, nptr, valid) := if (base =? 0) && (m nptr =? 48) then (8, nptr + 1, true) else (base, nptr, false) in
  (if base =? 0 then 10 else base, nptr, valid).

(** strtoul: strtoint<unsigned long> *)
Definition strtoul (fuel : nat) (nptr base : Z) (m : bmem) : outcome (Z * Z) :=
  let nothing := nptr in
  nptr ← skip_spaces fuel nptr m;
  let negative := m nptr =? 45 in
  let nptr := if (m nptr =? 43) || (m nptr =? 45) then nptr + 1 else nptr in
  nptr ← skip_spaces fuel nptr m;
  let '(base, nptr, valid) := read_prefix nptr base m in
  r ← (if base <=? 10 then digits10 fuel nptr base 0 valid m else digits36 fuel nptr base 0 valid m);
  let '(num, nptr, valid) := r in
  Ret (if (valid : bool) then (if negative then u64 (0 - num) else num, nptr) else (num, nothing)).

(** ** strtok.c: the [i] of the inner loop hides the other one, which does not change. *)

(** The index in [delim] of a character, if any. *)
Fixpoint delim_index (fuel : nat) (i c delim : Z) (m : bmem) : outcome (option Z) :=
  match fuel with
  | O => OutOfFuel
  | S fuel =>
      if negb (m (delim + i) =? 0) then if m (delim + i) =? c then Ret (Some i) else delim_index fuel (i + 1) c delim m
      else Ret None
  end.

Fixpoint skip_delims (fuel : nat) (str delim : Z) (m : bmem) : outcome Z :=
  match fuel with
  | O => OutOfFuel
  | S fuel' =>
      d ← delim_index fuel 0 (m str) delim m;
      match d with Some _ => skip_delims fuel' (str + 1) delim m | None => Ret str end
  end.

(** The second loop, at [str[i]]: the memory, and [*saveptr]. *)
Fixpoint token_loop (fuel dfuel : nat) (str i delim : Z) (m : bmem) : outcome (bmem * Z) :=
  match fuel with
  | O => OutOfFuel
  | S fuel =>
      let c := m (str + i) in
      if negb (c =? 0) then
        d ← delim_index dfuel 0 c delim m;
        match d with
        | Some j => Ret (store m (str + j) 0, str + j + 1)
        | None => token_loop fuel dfuel str i delim m
        end
      else Ret (m, 0)
  end.

Definition strtok_r (fuel : nat) (str delim saveptr : Z) (m : bmem) : outcome (bmem * Z * Z) :=
  let str := if str =? 0 then saveptr else str in
  if str =? 0 then Ret (m, 0, saveptr) else
  str ← skip_delims fuel str delim m;
  r ← token_loop fuel fuel str 0 delim m;
  Ret (r.1, str, r.2).

(** * Numbers *)

(** The digit that a character is in a base. *)
Definition digit_of (base c : Z) : option Z :=
  let d := if isdigit c then Some (c - 48)
           else if (65 <=? c) && (c <=? 90) then Some (c - 55)
           else if (97 <=? c) && (c <=? 122) then Some (c - 87) else None in
  match d with Some d => if d <? base then Some d else None | None => None end.

Definition number (base : Z) (ds : list Z) : Z := foldl (fun n d => n * base + d) 0 ds.

(** The characters at an address. *)
Definition chars_at (m : bmem) (a : Z) (s : list Z) : Prop := ∀ i x, s !! i = Some x → m (a + Z.of_nat i) = x.

Lemma chars_at_app m a s t : chars_at m a (s ++ t) ↔ chars_at m a s ∧ chars_at m (a + Z.of_nat (length s)) t.
Proof.
  split.
  - intros H. split; intros i x Hi; [apply H; by apply lookup_app_l_Some |]. rewrite <- Z.add_assoc, <- Nat2Z.inj_add. apply H.
    rewrite lookup_app_r by lia. by replace (length s + i - length s)%nat with i by lia.
  - intros [H1 H2] i x Hi. apply lookup_app_Some in Hi as [Hi | [Hl Hi]]; [by apply H1 |]. apply H2 in Hi. rewrite <- Hi. f_equal. lia.
Qed.

Lemma chars_at_cons m a x s : chars_at m a (x :: s) ↔ m a = x ∧ chars_at m (a + 1) s.
Proof.
  change (x :: s) with ([x] ++ s). rewrite chars_at_app. split; intros [H1 H2]; (split; [| done]).
  - specialize (H1 0%nat x eq_refl). by rewrite Z.add_0_r in H1.
  - intros [| i] y; [intros [= <-]; by rewrite Z.add_0_r | done].
Qed.

Lemma skip_spaces_spec fuel m a sp c :
  chars_at m a (sp ++ [c]) → Forall (fun x => isspace (char_of x) = true) sp → isspace (char_of c) = false → (length sp < fuel)%nat →
  skip_spaces fuel a m = Ret (a + Z.of_nat (length sp)).
Proof.
  revert fuel a. induction sp as [| x sp IH]; intros fuel a Hm Hs Hc Hf; (destruct fuel as [| fuel]; [cbn in Hf; lia |]); cbn [skip_spaces].
  - apply chars_at_cons in Hm as [-> _]. rewrite Hc. cbn. by rewrite Z.add_0_r.
  - apply chars_at_cons in Hm as [-> Hm]. apply Forall_cons in Hs as [-> Hs]. cbn [length] in *. rewrite IH by (done || lia). f_equal. lia.
Qed.

Lemma digit_of_cases base c d : digit_of base c = Some d →
  d < base ∧ (48 ≤ c ≤ 57 ∧ d = c - 48 ∨ 65 ≤ c ≤ 90 ∧ d = c - 55 ∨ 97 ≤ c ≤ 122 ∧ d = c - 87).
Proof.
  unfold digit_of, isdigit. destruct ((c <=? 57) && (48 <=? c)) eqn:E1; [| destruct ((65 <=? c) && (c <=? 90)) eqn:E2;
    [| destruct ((97 <=? c) && (c <=? 122)) eqn:E3; [| done]]];
    (destruct (_ <? base) eqn:E; [| done]); intros [= <-]; lia.
Qed.

Lemma digit_none base c : 0 ≤ base → digit_of base c = None →
  ¬ (48 ≤ c ≤ 57 ∧ c - 48 < base) ∧ ¬ (65 ≤ c ≤ 90 ∧ c - 55 < base) ∧ ¬ (97 ≤ c ≤ 122 ∧ c - 87 < base).
Proof.
  unfold digit_of, isdigit. intros Hb. destruct ((c <=? 57) && (48 <=? c)) eqn:E1; [| destruct ((65 <=? c) && (c <=? 90)) eqn:E2;
    [| destruct ((97 <=? c) && (c <=? 122)) eqn:E3; [| lia]]];
    (destruct (_ <? base) eqn:E; [done |]); lia.
Qed.

(** A digit in the loops, and a character that ends the number. *)
Lemma digit10_spec base c d : 2 ≤ base ≤ 10 → digit_of base c = Some d →
  (char_of c =? 0) || (char_of c <? 48) || (57 <? char_of c) || (base <=? digit10 (char_of c)) = false ∧ digit10 (char_of c) = d ∧ 0 ≤ d.
Proof.
  intros Hb H. apply digit_of_cases in H as [Hd H]. assert (48 ≤ c ≤ 57 ∧ d = c - 48) as [Hc ->] by lia.
  unfold digit10, char_of. rewrite (proj2 (Z.ltb_lt c 128)) by lia. rewrite (wrap_id 64) by (unfold is_u; lia). lia.
Qed.

Lemma digit10_end base c : 2 ≤ base ≤ 10 → is_u 8 c → digit_of base c = None →
  (char_of c =? 0) || (char_of c <? 48) || (57 <? char_of c) || (base <=? digit10 (char_of c)) = true.
Proof.
  intros Hb Hu H. apply digit_none in H as (H & _); [| lia]. unfold digit10, char_of, is_u in *. destruct (Z.ltb_spec c 128); [| lia].
  destruct (decide (48 ≤ c ≤ 57)); [| lia]. rewrite (wrap_id 64) by (unfold is_u; lia). lia.
Qed.

Lemma digit36_spec base c d : 10 < base ≤ 36 → digit_of base c = Some d → digit36 (char_of c) = (d, true) ∧ 0 ≤ d < base.
Proof.
  intros Hb H. apply digit_of_cases in H as [Hd H]. unfold digit36, char_of.
  rewrite (proj2 (Z.ltb_lt c 128)) by lia. destruct ((65 <=? c) && (c <=? 90)) eqn:E1; [| destruct ((97 <=? c) && (c <=? 122)) eqn:E2].
  - rewrite (wrap_id 64) by (unfold is_u; lia). split; [f_equal |]; lia.
  - rewrite (wrap_id 64) by (unfold is_u; lia). split; [f_equal |]; lia.
  - rewrite (wrap_id 64) by (unfold is_u; lia). split; [f_equal; lia | lia].
Qed.

Lemma digit36_end base c : 10 < base ≤ 36 → is_u 8 c → digit_of base c = None →
  negb (digit36 (char_of c)).2 || (base <=? (digit36 (char_of c)).1) = true.
Proof.
  intros Hb Hu H. apply digit_none in H as (H1 & H2 & H3); [| lia]. unfold digit36, char_of, is_u in *. destruct (Z.ltb_spec c 128).
  - destruct ((65 <=? c) && (c <=? 90)) eqn:E1; [| destruct ((97 <=? c) && (c <=? 122)) eqn:E2]; cbn [fst snd negb orb].
    + rewrite (wrap_id 64) by (unfold is_u; lia). lia.
    + rewrite (wrap_id 64) by (unfold is_u; lia). lia.
    + destruct ((48 <=? c) && (c <=? 57)) eqn:E3; [| done]. rewrite (wrap_id 64) by (unfold is_u; lia). lia.
  - assert ((65 <=? c - 256) && (c - 256 <=? 90) = false) as -> by lia. assert ((97 <=? c - 256) && (c - 256 <=? 122) = false) as -> by lia.
    cbn [fst snd]. lia.
Qed.

Lemma u64_step num base d : u64 (u64 (u64 num * base) + d) = u64 (num * base + d).
Proof. unfold wrap. by rewrite Z.add_mod_idemp_l, <- Z.add_mod_idemp_l, Z.mul_mod_idemp_l, Z.add_mod_idemp_l by lia. Qed.

Definition digits_at (m : bmem) (a base : Z) (cs ds : list Z) (c : Z) : Prop :=
  chars_at m a (cs ++ [c]) ∧ Forall2 (fun x d => digit_of base x = Some d) cs ds ∧ digit_of base c = None ∧ is_u 8 c.

Lemma digits_at_cons m a base x cs d ds c :
  digits_at m a base (x :: cs) (d :: ds) c → m a = x ∧ digit_of base x = Some d ∧ digits_at m (a + 1) base cs ds c.
Proof.
  intros (H1 & H2 & H3). apply chars_at_cons in H1 as [-> H1]. apply Forall2_cons in H2 as [H2 H4]. by split_and!.
Qed.

Lemma digits10_loop fuel m a base cs ds c num valid :
  2 ≤ base ≤ 10 → digits_at m a base cs ds c → (length cs < fuel)%nat →
  digits10 fuel a base (u64 num) valid m =
  Ret (u64 (foldl (fun n d => n * base + d) num ds), a + Z.of_nat (length cs), valid || negb (bool_decide (cs = []))).
Proof.
  intros Hb. revert fuel a ds num valid. induction cs as [| x cs IH]; intros fuel a ds num valid Hd Hf;
    (destruct fuel as [| fuel]; [cbn in Hf; lia |]); cbn [digits10].
  - destruct Hd as (H1 & H2 & H3 & H4). apply Forall2_nil_inv_l in H2 as ->. apply chars_at_cons in H1 as [-> _].
    rewrite digit10_end by done. cbn. by rewrite Z.add_0_r, orb_false_r.
  - destruct ds as [| d ds]; [destruct Hd as (_ & H2 & _); inversion H2 |]. apply digits_at_cons in Hd as (-> & Hx & Hd).
    destruct (digit10_spec base x d Hb Hx) as (-> & -> & _). rewrite u64_step, (IH fuel (a + 1) ds) by (done || (cbn in Hf; lia)). cbn [foldl length].
    rewrite (bool_decide_eq_false_2 (x :: cs = [])) by done. cbn [negb orb]. rewrite orb_true_r. do 2 f_equal. f_equal. lia.
Qed.

Lemma digits36_loop fuel m a base cs ds c num valid :
  10 < base ≤ 36 → digits_at m a base cs ds c → (length cs < fuel)%nat → cs ≠ [] ∨ valid = true →
  digits36 fuel a base (u64 num) valid m =
  Ret (u64 (foldl (fun n d => n * base + d) num ds), a + Z.of_nat (length cs), true).
Proof.
  intros Hb. revert fuel a ds num valid. induction cs as [| x cs IH]; intros fuel a ds num valid Hd Hf Hv;
    (destruct fuel as [| fuel]; [cbn in Hf; lia |]); cbn [digits36].
  - destruct Hv as [? | ->]; [done |]. destruct Hd as (H1 & H2 & H3 & H4). apply Forall2_nil_inv_l in H2 as ->. apply chars_at_cons in H1 as [-> _].
    pose proof (digit36_end base c Hb H4 H3) as E. destruct (digit36 (char_of c)) as [dg fnd]. cbn [fst snd] in E. rewrite E.
    cbn. by rewrite Z.add_0_r.
  - destruct ds as [| d ds]; [destruct Hd as (_ & H2 & _); inversion H2 |]. apply digits_at_cons in Hd as (-> & Hx & Hd).
    destruct (digit36_spec base x d Hb Hx) as (-> & Hr). rewrite (proj2 (Z.leb_gt base d)) by lia. cbn [negb orb]. rewrite orb_true_r.
    rewrite u64_step, (IH fuel (a + 1) ds) by (done || (cbn in Hf; lia) || by right). cbn [foldl length]. do 3 f_equal. lia.
Qed.

Lemma digit_not_space base x d : digit_of base x = Some d → isspace (char_of x) = false ∧ x ≠ 43 ∧ x ≠ 45.
Proof.
  intros H. apply digit_of_cases in H as [_ H]. unfold isspace, char_of. rewrite (proj2 (Z.ltb_lt x 128)) by lia. lia.
Qed.

(** No prefix is read in front of the digits. *)
Lemma prefix_none base x cs c m q :
  2 ≤ base ≤ 36 → chars_at m q ((x :: cs) ++ [c]) → (∃ ds, Forall2 (fun x d => digit_of base x = Some d) (x :: cs) ds) →
  (base = 16 → x :: cs = [48] → c ≠ 120) → read_prefix q base m = (base, q, false).
Proof.
  intros Hb Hm [ds Hds] H16. unfold read_prefix. rewrite (proj2 (Z.eqb_neq base 0)) by lia. cbn [orb].
  assert ((base =? 16) && (m q =? 48) && (m (q + 1) =? 120) = false) as ->.
  { destruct (Z.eqb_spec base 16) as [-> |]; [| done]. apply chars_at_cons in Hm as [-> Hm]. destruct (Z.eqb_spec x 48) as [-> |]; [| done].
    cbn [andb]. apply Z.eqb_neq. destruct cs as [| y cs]; cbn [app] in Hm; apply chars_at_cons in Hm as [-> _].
    - by apply H16.
    - intros ->. destruct ds as [| d1 [| d2 ds]]; [by inversion Hds | by inversion Hds as [| ????? Hi]; inversion Hi |].
      apply Forall2_cons in Hds as [_ Hds]. apply Forall2_cons in Hds as [Hy _]. by vm_compute in Hy. }
  cbn beta iota zeta. rewrite (proj2 (Z.eqb_neq base 0)) by lia. cbn [andb]. cbn beta iota zeta. by rewrite (proj2 (Z.eqb_neq base 0)) by lia.
Qed.

(** The signs. *)
Definition sign_ok (sign : list Z) : Prop := sign = [] ∨ sign = [43] ∨ sign = [45].

(** strtoul reads white space, a sign and the longest number in the base: it returns the number modulo 2^64, negated for
    a minus, and the address of the first character that is no digit of the base. *)
Theorem strtoul_correct fuel m nptr base sp sign cs ds c :
  2 ≤ base ≤ 36 → chars_at m nptr (sp ++ sign ++ cs ++ [c]) →
  Forall (fun x => isspace (char_of x) = true) sp → sign_ok sign →
  cs ≠ [] → Forall2 (fun x d => digit_of base x = Some d) cs ds → digit_of base c = None → is_u 8 c →
  (base = 16 → cs = [48] → c ≠ 120) → (length sp + length cs < fuel)%nat →
  strtoul fuel nptr base m =
  Ret (u64 (if decide (sign = [45]) then - number base ds else number base ds), nptr + Z.of_nat (length (sp ++ sign ++ cs))).
Proof.
  intros Hb Hm Hsp Hsg Hcs Hds Hc Hu H16 Hf. destruct cs as [| x cs]; [done |]. destruct ds as [| d ds]; [inversion Hds |].
  pose proof Hds as Hds'. apply Forall2_cons in Hds' as [Hx _]. destruct (digit_not_space base x d Hx) as (Hxs & Hx43 & Hx45).
  apply chars_at_app in Hm as [Hm1 Hm2]. set (p := nptr + Z.of_nat (length sp)) in *.
  assert (m p = hd x sign) as Ep.
  { destruct Hsg as [-> | [-> | ->]]; cbn [app hd] in *; apply chars_at_cons in Hm2 as [? _]; done. }
  assert (isspace (char_of (hd x sign)) = false) as Hhd by (by destruct Hsg as [-> | [-> | ->]]).
  assert (skip_spaces fuel nptr m = Ret p) as S1.
  { apply (skip_spaces_spec fuel m nptr sp (m p)); [| done | by rewrite Ep | cbn in Hf; lia]. apply chars_at_app. split; [done |].
    fold p. by apply chars_at_cons. }
  assert (chars_at m (p + Z.of_nat (length sign)) ((x :: cs) ++ [c])) as Hm3 by (by apply chars_at_app in Hm2 as [_ ?]).
  set (q := p + Z.of_nat (length sign)) in *. assert (m q = x) as Eq by (by apply chars_at_cons in Hm3 as [? _]).
  unfold strtoul. rewrite S1. cbn [mbind outcome_bind]. rewrite Ep.
  assert ((if (hd x sign =? 43) || (hd x sign =? 45) then p + 1 else p) = q) as ->.
  { unfold q. destruct Hsg as [-> | [-> | ->]]; cbn [hd length Z.of_nat]; [| done | done].
    rewrite (proj2 (Z.eqb_neq x 43)), (proj2 (Z.eqb_neq x 45)) by done. cbn. lia. }
  assert (skip_spaces fuel q m = Ret q) as ->.
  { pose proof (skip_spaces_spec fuel m q [] x) as S2. cbn [app length Z.of_nat] in S2. rewrite Z.add_0_r in S2. apply S2; [| done | done | lia].
    by apply chars_at_cons. }
  cbn [mbind outcome_bind]. rewrite (prefix_none base x cs c m q) by (done || by exists (d :: ds)).
  assert (digits_at m q base (x :: cs) (d :: ds) c) as Hd by done.
  assert ((hd x sign =? 45) = bool_decide (sign = [45])) as ->.
  { destruct Hsg as [-> | [-> | ->]]; cbn; [| done | done]. by apply Z.eqb_neq. }
  assert ((if base <=? 10 then digits10 fuel q base 0 false m else digits36 fuel q base 0 false m) =
    Ret (u64 (number base (d :: ds)), q + Z.of_nat (length (x :: cs)), true)) as ->.
  { destruct (Z.leb_spec base 10).
    - pose proof (digits10_loop fuel m q base (x :: cs) (d :: ds) c 0 false) as E. change (u64 0) with 0 in E. rewrite E by (done || lia).
      by rewrite bool_decide_eq_false_2 by done.
    - pose proof (digits36_loop fuel m q base (x :: cs) (d :: ds) c 0 false) as E. change (u64 0) with 0 in E.
      by rewrite E by (done || lia || by left). }
  cbn [mbind outcome_bind]. f_equal. f_equal.
  - rewrite bool_decide_decide. destruct (decide (sign = [45])); [| done]. unfold wrap. by rewrite Zminus_mod_idemp_r.
  - unfold q, p. rewrite !length_app. lia.
Qed.

(** A memory with the bytes [l] from 1 on. *)
Definition mem_of (l : list Z) : bmem := fun a => default 0 (l !! (Z.to_nat (a - 1))).

Lemma mem_of_at l : chars_at (mem_of l) 1 l.
Proof.
  intros i x Hi. unfold mem_of. replace (Z.to_nat (1 + Z.of_nat i - 1)) with i by lia. by rewrite Hi.
Qed.

(** The string of a space, -7fG. *)
Lemma strtoul_correct_witness : strtoul 9 1 16 (mem_of [32; 45; 55; 102; 71]) = Ret (2 ^ 64 - 127, 5).
Proof.
  rewrite (strtoul_correct 9 (mem_of [32; 45; 55; 102; 71]) 1 16 [32] [45] [55; 102] [7; 15] 71); try done.
  - apply (mem_of_at [32; 45; 55; 102; 71]).
  - by repeat constructor.
  - by right; right.
  - by repeat constructor.
  - cbn. lia.
Defined.

(** * Searching *)

Lemma match_rest_spec fuel m h n hs ns :
  cstr m h hs → cstr m n ns → (length ns < fuel)%nat → ∃ q, match_rest fuel h n m = Ret q ∧ (m q = 0 ↔ ns `prefix_of` hs).
Proof.
  revert fuel h n hs. induction ns as [| y ns IH]; intros fuel h n hs Hh Hn Hf; (destruct fuel as [| fuel]; [cbn in Hf; lia |]); cbn [match_rest].
  - apply cstr_nil in Hn. rewrite Hn. exists n. split; [done |]. split; [intros _; apply prefix_nil | done].
  - apply cstr_cons in Hn as (En & _ & Hy & Hn). rewrite En, (proj2 (Z.eqb_neq y 0)) by done. cbn [negb]. destruct hs as [| x hs].
    + apply cstr_nil in Hh. rewrite Hh, (proj2 (Z.eqb_neq 0 y)) by done. cbn [negb]. exists n. split; [done |]. rewrite En.
      split; [done | intros H; by apply prefix_nil_not in H].
    + apply cstr_cons in Hh as (-> & _ & _ & Hh). destruct (Z.eqb_spec x y) as [-> | N]; cbn [negb].
      * destruct (IH fuel (h + 1) (n + 1) hs Hh Hn) as (q & -> & Hq); [cbn in Hf; lia |]. exists q. split; [done |].
        rewrite Hq. split; [apply prefix_cons | apply prefix_cons_inv_2].
      * exists n. split; [done |]. rewrite En. split; [done |]. intros H. by apply prefix_cons_inv_1 in H.
Qed.

(** The first place of [ns] in [hs]. *)
Fixpoint first_place (ns hs : list Z) : option nat :=
  if decide (ns `prefix_of` hs) then Some O
  else match hs with [] => None | _ :: hs => S <$> first_place ns hs end.

Lemma strstr_loop_spec fuel nfuel m h n hs ns :
  cstr m h hs → cstr m n ns → ns ≠ [] → (length hs < fuel)%nat → (length ns < nfuel)%nat →
  strstr_loop fuel nfuel h n m = Ret (match first_place ns hs with Some i => h + Z.of_nat i | None => 0 end).
Proof.
  intros Hh Hn Hne Hf Hnf. destruct ns as [| y ns]; [done |]. pose proof (cstr_cons m n y ns Hn) as (En & _ & _ & Hn').
  revert fuel h Hh Hf. induction hs as [| x hs IH]; intros fuel h Hh Hf; (destruct fuel as [| fuel]; [cbn in Hf; lia |]); cbn [strstr_loop].
  - apply cstr_nil in Hh. rewrite Hh. cbn [negb Z.eqb first_place]. rewrite decide_False by (intros H; by apply prefix_nil_not in H). done.
  - apply cstr_cons in Hh as (-> & _ & Hx & Hh). rewrite (proj2 (Z.eqb_neq x 0)), En by done. cbn [negb first_place].
    assert (¬ y :: ns `prefix_of` x :: hs → strstr_loop fuel nfuel (h + 1) n m =
      Ret (match S <$> first_place (y :: ns) hs with Some i => h + Z.of_nat i | None => 0 end)) as Next.
    { intros _. rewrite IH by (done || (cbn in Hf; lia)). destruct (first_place (y :: ns) hs); cbn; [| done]. f_equal. lia. }
    destruct (Z.eqb_spec x y) as [-> | N].
    + destruct (match_rest_spec nfuel m (h + 1) (n + 1) hs ns Hh Hn') as (q & -> & Hq); [cbn in Hnf; lia |]. cbn [mbind outcome_bind].
      destruct (decide (y :: ns `prefix_of` y :: hs)) as [P | P].
      * rewrite (proj2 (Z.eqb_eq (m q) 0)) by (apply Hq; by apply prefix_cons_inv_2 in P). f_equal. lia.
      * rewrite (proj2 (Z.eqb_neq (m q) 0)); [by apply Next |]. intros E. apply P, prefix_cons. by apply Hq.
    + rewrite decide_False; [apply Next |]; intros H; by apply prefix_cons_inv_1 in H.
Qed.

(** strstr returns the first place of the needle in the haystack, or null when it does not occur; the empty needle is
    found at the start. *)
Theorem strstr_correct fuel nfuel m h n hs ns :
  cstr m h hs → cstr m n ns → (length hs < fuel)%nat → (length ns < nfuel)%nat →
  strstr fuel nfuel h n m = Ret (match first_place ns hs with Some i => h + Z.of_nat i | None => 0 end).
Proof.
  intros Hh Hn Hf Hnf. unfold strstr. destruct ns as [| y ns].
  - apply cstr_nil in Hn. rewrite Hn. cbn [Z.eqb]. assert (first_place [] hs = Some O) as ->; [| by rewrite Z.add_0_r].
    destruct hs; cbn [first_place]; by rewrite decide_True by apply prefix_nil.
  - pose proof (cstr_cons m n y ns Hn) as (-> & _ & Hy & _). rewrite (proj2 (Z.eqb_neq y 0)) by done. by apply strstr_loop_spec.
Qed.

Lemma mem_of_cstr l1 s l2 a :
  Forall (fun x => is_u 8 x ∧ x ≠ 0) s → a = 1 + Z.of_nat (length l1) → cstr (mem_of (l1 ++ s ++ 0 :: l2)) a s.
Proof.
  intros Hs ->. pose proof (mem_of_at (l1 ++ s ++ 0 :: l2)) as H. apply chars_at_app in H as [_ H]. apply chars_at_app in H as [H1 H2]. split.
  - intros i x Hi. split; [by apply H1 |]. by apply (Forall_lookup_1 _ _ _ _ Hs Hi).
  - by apply chars_at_cons in H2 as [-> _].
Qed.

Lemma strstr_correct_witness : strstr 5 3 1 6 (mem_of [97; 97; 98; 98; 0; 97; 98; 0]) = Ret 2.
Proof.
  rewrite (strstr_correct 5 3 (mem_of [97; 97; 98; 98; 0; 97; 98; 0]) 1 6 [97; 97; 98; 98] [97; 98]); [done | | | cbn; lia | cbn; lia].
  - apply (mem_of_cstr [] [97; 97; 98; 98] [97; 98; 0]); [repeat constructor; by unfold is_u | done].
  - apply (mem_of_cstr [97; 97; 98; 98; 0] [97; 98] []); [repeat constructor; by unfold is_u | done].
Defined.

(** * Defects *)

(** strchr of a character that the string does not start with never returns: the loop does not advance. *)
Theorem strchr_hangs fuel str c m : m str ≠ 0 → char_of (m str) ≠ c → strchr fuel str c m = OutOfFuel.
Proof.
  intros H0 Hc. induction fuel as [| fuel IH]; [done |]. cbn [strchr].
  by rewrite (proj2 (Z.eqb_neq (m str) 0)), (proj2 (Z.eqb_neq (char_of (m str)) c)) by done.
Qed.

Lemma strchr_hangs_witness : strchr 1000 1 98 (mem_of [97; 98; 0]) = OutOfFuel.
Proof. by apply strchr_hangs. Defined.

(** strtok never returns for a string whose first token has more than its delimiter: the second loop looks at the
    first character only. *)
Theorem strtok_hangs fuel dfuel str delim m :
  m str ≠ 0 → delim_index dfuel 0 (m str) delim m = Ret None → token_loop fuel dfuel str 0 delim m = OutOfFuel.
Proof.
  intros H0 Hd. induction fuel as [| fuel IH]; [done |]. cbn [token_loop]. rewrite Z.add_0_r, (proj2 (Z.eqb_neq (m str) 0)), Hd by done.
  cbn [negb mbind outcome_bind]. done.
Qed.

Lemma strtok_hangs_witness : token_loop 1000 5 1 0 5 (mem_of [97; 32; 98; 0; 32; 0]) = OutOfFuel.
Proof. by apply strtok_hangs. Defined.

(** strcpy and strdup do not copy the zero at the end of the string: what was in memory behind the copy becomes part
    of it. *)
Theorem strdup_unterminated :
  ∃ m, strdup 5 10 1 (mem_of [97; 98; 0; 0; 0; 0; 0; 0; 0; 120; 121; 122; 0]) = Ret m ∧
    m 10 = 97 ∧ m 11 = 98 ∧ m 12 = 122 ∧ strlen 5 10 m = Ret 3.
Proof. eexists. split; [reflexivity |]. by vm_compute. Qed.

(** isalpha holds for the digits. *)
Theorem isalpha_digits : ∀ c, isdigit c = true → isalpha c = true.
Proof. intros c. unfold isdigit, isalpha. intros ->. apply orb_true_r. Qed.
