(* ===== verification/Endian.v ===== *)
(** include/endian.h: the order of the bytes of a number is reversed by 16-bit
    halves; big_endian on a little endian machine. *)
From S2P Require Import Prelude.

Local Open Scope Z_scope.

(** * The code *)

(** reverse_byte_order<uint16_t> *)
Definition reverse_byte_order16 (input : Z) : Z := u16 ((input mod 0x100) * 0x100 + input / 0x100).

(** The loop of reverse_byte_order<T>, with [w] the bits of T. *)
Fixpoint reverse_loop (w : Z) (n : nat) (output input : Z) : Z :=
  match n with
  | O => output
  | S n =>
      reverse_loop w n (wrap w (wrap w (output * 0x10000) + reverse_byte_order16 (input mod 0x10000)))
        (input / 0x10000)
  end.

(** reverse_byte_order for a T of [2 * halves] bytes, [halves] at least 2. *)
Definition reverse_byte_order (halves : nat) (input : Z) : Z :=
  reverse_loop (16 * Z.of_nat halves) halves 0 input.

(** big_endian<T>(value).Raw() and the value of a big_endian<T> *)
Definition big_endian_Raw (halves : nat) (value : Z) : Z := reverse_byte_order halves value.
Definition big_endian_unpack (halves : nat) (raw : Z) : Z := reverse_byte_order halves raw.

(** * Bytes of numbers *)

(** The bytes of a number in memory, the lowest first. *)
Fixpoint le_bytes (n : nat) (x : Z) : list Z :=
  match n with
  | O => []
  | S n => x mod 256 :: le_bytes n (x / 256)
  end.

Fixpoint le_word (l : list Z) : Z :=
  match l with
  | [] => 0
  | b :: l => b + 256 * le_word l
  end.

(** The highest first. *)
Definition be_bytes (n : nat) (x : Z) : list Z := reverse (le_bytes n x).
Definition be_word (l : list Z) : Z := le_word (reverse l).

Lemma le_bytes_length n x : length (le_bytes n x) = n.
Proof. revert x. induction n as [| n IH]; intros x; cbn; [done | by rewrite IH]. Qed.

Lemma le_bytes_range n x : Forall (is_u 8) (le_bytes n x).
Proof. revert x. induction n as [| n IH]; intros x; cbn; constructor; [| done]. apply Z.mod_pos_bound. lia. Qed.

Lemma le_word_range l : Forall (is_u 8) l → 0 ≤ le_word l < 256 ^ Z.of_nat (length l).
Proof.
  induction 1 as [| b l [H1 H2] _ IH]; cbn [le_word length]; [done |]. rewrite Nat2Z.inj_succ, Z.pow_succ_r by lia.
  change (2 ^ 8) with 256 in H2. lia.
Qed.

Lemma le_bytes_word l n : Forall (is_u 8) l → length l = n → le_bytes n (le_word l) = l.
Proof.
  intros Hl <-. induction Hl as [| b l [H1 H2] _ IH]; cbn [le_word length le_bytes]; [done |]. change (2 ^ 8) with 256 in H2.
  assert ((b + 256 * le_word l) mod 256 = b) as ->.
  { rewrite Z.mul_comm, Z.mod_add by lia. by apply Z.mod_small. }
  assert ((b + 256 * le_word l) / 256 = le_word l) as ->.
  { rewrite Z.mul_comm, Z.div_add by lia. rewrite Z.div_small by lia. lia. }
  by rewrite IH.
Qed.

Lemma le_word_bytes n x : 0 ≤ x < 256 ^ Z.of_nat n → le_word (le_bytes n x) = x.
Proof.
  revert x. induction n as [| n IH]; intros x Hx; cbn [le_word le_bytes]; [lia |].
  rewrite Nat2Z.inj_succ, Z.pow_succ_r in Hx by lia.
  rewrite IH; [pose proof (Z.div_mod x 256); lia |].
  split; [apply Z.div_pos; lia | apply Z.div_lt_upper_bound; lia].
Qed.

Lemma le_bytes_app j k x y :
  0 ≤ x < 256 ^ Z.of_nat j → le_bytes (j + k) (x + 256 ^ Z.of_nat j * y) = le_bytes j x ++ le_bytes k y.
Proof.
  revert x. induction j as [| j IH]; intros x Hx; cbn [le_bytes Nat.add app].
  { f_equal. cbn in Hx |- *. lia. }
  rewrite Nat2Z.inj_succ, Z.pow_succ_r in * by lia. set (p := 256 ^ Z.of_nat j) in *.
  assert ((x + 256 * p * y) mod 256 = x mod 256) as ->.
  { replace (x + 256 * p * y) with (x + (p * y) * 256) by lia. by apply Z.mod_add. }
  assert ((x + 256 * p * y) / 256 = x / 256 + p * y) as ->.
  { replace (x + 256 * p * y) with (x + (p * y) * 256) by lia. by apply Z.div_add. }
  f_equal. apply IH. split; [apply Z.div_pos; lia | apply Z.div_lt_upper_bound; lia].
Qed.

Lemma le_bytes_split j k x : le_bytes (j + k) x = le_bytes j x ++ le_bytes k (x / 256 ^ Z.of_nat j).
Proof.
  revert x. induction j as [| j IH]; intros x; cbn [le_bytes Nat.add app]; [by rewrite Z.div_1_r |].
  rewrite IH, Nat2Z.inj_succ, Z.pow_succ_r by lia. rewrite Z.div_div by lia. done.
Qed.

Lemma le_bytes_mod n x : le_bytes n (x mod 256 ^ Z.of_nat n) = le_bytes n x.
Proof.
  pose proof (Z.div_mod x (256 ^ Z.of_nat n) ltac:(lia)) as E.
  pose proof (le_bytes_app n 0 (x mod 256 ^ Z.of_nat n) (x / 256 ^ Z.of_nat n)) as H.
  rewrite Nat.add_0_r, app_nil_r in H. rewrite <- H by (apply Z.mod_pos_bound; lia). f_equal. lia.
Qed.

(** * The reversal *)

Lemma reverse16_bytes x : 0 ≤ x < 0x10000 → le_bytes 2 (reverse_byte_order16 x) = reverse (le_bytes 2 x) ∧ 0 ≤ reverse_byte_order16 x < 0x10000.
Proof.
  intros Hx. unfold reverse_byte_order16. pose proof (Z.mod_pos_bound x 256 ltac:(lia)).
  assert (0 ≤ x / 256 < 256) by (split; [apply Z.div_pos; lia | apply Z.div_lt_upper_bound; lia]).
  change 0x100 with 256. rewrite wrap_id by (unfold is_u; lia). split; [| lia]. cbn [le_bytes].
  rewrite (Z.add_comm (_ * 256)), Z.mod_add, Z.div_add by lia. rewrite (Z.div_small (x / 256)) by lia.
  rewrite Z.add_0_l, !Z.mod_mod, !(Z.mod_small (x / 256)) by lia. done.
Qed.

Lemma reverse_loop_bytes j n output input :
  0 ≤ output < 256 ^ Z.of_nat (2 * j) → 0 ≤ input < 256 ^ Z.of_nat (2 * n) →
  le_bytes (2 * n + 2 * j) (reverse_loop (16 * Z.of_nat (n + j)) n output input) =
    reverse (le_bytes (2 * n) input) ++ le_bytes (2 * j) output ∧
  0 ≤ reverse_loop (16 * Z.of_nat (n + j)) n output input < 256 ^ Z.of_nat (2 * (n + j)).
Proof.
  revert j output input. induction n as [| n IH]; intros j output input Ho Hi; cbn [reverse_loop]; [done |].
  assert (0 ≤ input mod 0x10000 < 0x10000) as Hlow by (apply Z.mod_pos_bound; lia).
  destruct (reverse16_bytes _ Hlow) as [Hb Hr]. set (r := reverse_byte_order16 _) in *.
  assert (256 ^ Z.of_nat (2 * S j) = 0x10000 * 256 ^ Z.of_nat (2 * j)) as Ej.
  { replace (Z.of_nat (2 * S j)) with (2 + Z.of_nat (2 * j)) by lia. by rewrite Z.pow_add_r by lia. }
  assert (256 ^ Z.of_nat (2 * S j) ≤ 2 ^ (16 * Z.of_nat (S n + j))) as Hle.
  { change 256 with (2 ^ 8). rewrite <- Z.pow_mul_r by lia. apply Z.pow_le_mono_r; lia. }
  rewrite (wrap_id _ (output * _)), wrap_id by (unfold is_u; lia).
  replace (16 * Z.of_nat (S n + j)) with (16 * Z.of_nat (n + S j)) by lia.
  assert (0 ≤ input / 0x10000 < 256 ^ Z.of_nat (2 * n)) as Hin.
  { replace (Z.of_nat (2 * S n)) with (2 + Z.of_nat (2 * n)) in Hi by lia. rewrite Z.pow_add_r in Hi by lia.
    split; [apply Z.div_pos; lia | apply Z.div_lt_upper_bound; lia]. }
  destruct (IH (S j) (output * 0x10000 + r) (input / 0x10000) ltac:(lia) Hin) as [E Hrange].
  replace (2 * S n + 2 * j)%nat with (2 * n + 2 * S j)%nat by lia.
  replace (2 * (S n + j))%nat with (2 * (n + S j))%nat by lia. split; [| done]. rewrite E.
  replace (2 * S j)%nat with (2 + 2 * j)%nat by lia. replace (2 * S n)%nat with (2 + 2 * n)%nat by lia.
  replace (output * 0x10000 + r) with (r + 256 ^ Z.of_nat 2 * output) by lia. rewrite le_bytes_app by lia.
  rewrite (le_bytes_split 2 (2 * n)), reverse_app, Hb. change (256 ^ Z.of_nat 2) with 0x10000.
  rewrite <- app_assoc. do 3 f_equal. by apply (le_bytes_mod 2).
Qed.

Lemma reverse_bytes n x :
  is_u (16 * Z.of_nat n) x →
  le_bytes (2 * n) (reverse_byte_order n x) = be_bytes (2 * n) x ∧ is_u (16 * Z.of_nat n) (reverse_byte_order n x).
Proof.
  unfold is_u. assert (2 ^ (16 * Z.of_nat n) = 256 ^ Z.of_nat (2 * n)) as Ep.
  { change 256 with (2 ^ 8). rewrite <- Z.pow_mul_r by lia. f_equal. lia. }
  rewrite Ep. intros Hx. destruct (reverse_loop_bytes 0 n 0 x) as [E Hr]; [lia | done |].
  change (2 * 0)%nat with 0%nat in E. rewrite (Nat.add_0_r n) in E, Hr. rewrite Nat.add_0_r in E. cbn [le_bytes] in E. rewrite app_nil_r in E. split; [exact E | exact Hr].
Qed.

(** big_endian<T> for T of 4 or 8 bytes (and any even number) on a little endian
    machine: in memory the bytes of Raw() are those of the value with the
    highest first, and a value that is stored is read back. *)
Theorem big_endian_roundtrip (halves : nat) (value : Z) :
  is_u (16 * Z.of_nat halves) value →
  le_bytes (2 * halves) (big_endian_Raw halves value) = be_bytes (2 * halves) value ∧
  is_u (16 * Z.of_nat halves) (big_endian_Raw halves value) ∧
  big_endian_unpack halves (big_endian_Raw halves value) = value.
Proof.
  intros Hv. destruct (reverse_bytes halves value Hv) as [E Hr]. split; [exact E |]. split; [exact Hr |].
  destruct (reverse_bytes halves _ Hr) as [E' Hr']. unfold big_endian_unpack, big_endian_Raw, be_bytes in *.
  rewrite E, reverse_involutive in E'. apply (f_equal le_word) in E'.
  assert (2 ^ (16 * Z.of_nat halves) = 256 ^ Z.of_nat (2 * halves)) as Ep.
  { change 256 with (2 ^ 8). rewrite <- Z.pow_mul_r by lia. f_equal. lia. }
  unfold is_u in *. rewrite Ep in *. by rewrite !le_word_bytes in E' by done.
Qed.

Lemma big_endian_roundtrip_witness : big_endian_unpack 2 (big_endian_Raw 2 0x41424344) = 0x41424344.
Proof. by apply (big_endian_roundtrip 2 0x41424344). Defined.
