(* ===== verification/Sha2.v ===== *)
(** kernel/sha2/sha2alg.cpp: SHA-256 by chunks.  What it computes is compared with
    the algorithm of FIPS 180-4. *)
From S2P Require Import Prelude Endian.

Local Open Scope Z_scope.

(** * The code *)

Definition rightrotate (val rot : Z) : Z :=
  let mask := 31 in
  Z.lor (Z.shiftr val (Z.land rot mask)) (u32 (Z.shiftl val (Z.land (u32 (0 - rot)) mask))).

Definition to_big (v : Z) : Z := big_endian_Raw 2 v.

(** class sha2alg *)
Record sha2alg := Sha2Alg { sh_w : list Z; sh_k : list Z; sh_hv : list Z; mlength_bits : Z }.

(** The variables a to h of Digest. *)
Record regs := Regs { ra : Z; rb : Z; rc : Z; rd_ : Z; re : Z; rf : Z; rg : Z; rh : Z }.

(** [for (i = 0; i < 16; i++) w[i] = to_big(data[i])] *)
Definition load_chunk (data w : list Z) : list Z :=
  foldl (fun w i => <[i := to_big (data !!! i)]> w) w (seq 0 16).

Definition extend_word (w : list Z) (i : nat) : list Z :=
  let s0 := Z.lxor (Z.lxor (rightrotate (w !!! (i - 15)%nat) 7) (rightrotate (w !!! (i - 15)%nat) 18))
              (Z.shiftr (w !!! (i - 15)%nat) 3) in
  let s1 := Z.lxor (Z.lxor (rightrotate (w !!! (i - 2)%nat) 17) (rightrotate (w !!! (i - 2)%nat) 19))
              (Z.shiftr (w !!! (i - 2)%nat) 10) in
  <[i := u32 (u32 (u32 ((w !!! (i - 16)%nat) + s0) + (w !!! (i - 7)%nat)) + s1)]> w.

Definition digest_round (k w : list Z) (r : regs) (i : nat) : regs :=
  let s1 := Z.lxor (Z.lxor (rightrotate (re r) 6) (rightrotate (re r) 11)) (rightrotate (re r) 25) in
  let ch := Z.lxor (Z.land (re r) (rf r)) (Z.land (not_w 32 (re r)) (rg r)) in
  let temp1 := u32 (u32 (u32 (u32 (rh r + s1) + ch) + (k !!! i)) + (w !!! i)) in
  let s0 := Z.lxor (Z.lxor (rightrotate (ra r) 2) (rightrotate (ra r) 13)) (rightrotate (ra r) 22) in
  let maj := Z.lxor (Z.lxor (Z.land (ra r) (rb r)) (Z.land (ra r) (rc r))) (Z.land (rb r) (rc r)) in
  let temp2 := u32 (s0 + maj) in
  Regs (u32 (temp1 + temp2)) (ra r) (rb r) (rc r) (u32 (rd_ r + temp1)) (re r) (rf r) (rg r).

Definition load_regs (hv : list Z) : regs :=
  Regs (hv !!! 0%nat) (hv !!! 1%nat) (hv !!! 2%nat) (hv !!! 3%nat) (hv !!! 4%nat) (hv !!! 5%nat) (hv !!! 6%nat) (hv !!! 7%nat).

Definition reg_list (r : regs) : list Z := [ra r; rb r; rc r; rd_ r; re r; rf r; rg r; rh r].

Definition Digest (data : list Z) (s : sha2alg) : sha2alg :=
  let w := load_chunk data (sh_w s) in
  let w := foldl extend_word w (seq 16 48) in
  let r := foldl (digest_round (sh_k s) w) (load_regs (sh_hv s)) (seq 0 64) in
  Sha2Alg w (sh_k s) (zip_with (fun x y => u32 (x + y)) (sh_hv s) (reg_list r)) (mlength_bits s).

(** The bytes read as words of the machine. *)
Definition chunk_words (bytes : list Z) : list Z :=
  (fun i => le_word (take 4 (drop (4 * i) bytes))) <$> seq 0 16.

Definition Consume (chunk : list Z) (s : sha2alg) : sha2alg :=
  Digest (chunk_words chunk) (Sha2Alg (sh_w s) (sh_k s) (sh_hv s) (u64 (mlength_bits s + 16 * 32))).

(** The first of the two loops advances [len]. *)
Definition zero_fill (len stop : nat) (data : list Z) : list Z :=
  foldl (fun data i => <[i := 0]> data) data (seq len (stop - len)).

(** [while (len < 64) { data[len] = 0; }]: nothing in the loop changes [len]. *)
Fixpoint zero_loop (fuel len : nat) (data : list Z) : outcome (list Z) :=
  match fuel with
  | O => OutOfFuel
  | S fuel => if (len <? 64)%nat then zero_loop fuel len (<[len := 0]> data) else Ret data
  end.

Definition put_bytes (at_ : nat) (bytes data : list Z) : list Z := list_inserts at_ bytes data.

(** [junk] is what the array holds before it is written. *)
Definition Final (fuel : nat) (c_data junk : list Z) (s : sha2alg) : outcome sha2alg :=
  let len := length c_data in
  if (64 <? len)%nat then Ret s else
  let data := put_bytes 0 c_data junk in
  let bits := u64 (mlength_bits s + 8 * Z.of_nat len) in
  let s := Sha2Alg (sh_w s) (sh_k s) (sh_hv s) bits in
  let rawlen := le_bytes 8 (big_endian_Raw 4 bits) in
  if (len <=? 64 - 1 - 8)%nat then
    let data := <[len := 0x80]> data in
    let data := zero_fill (S len) (64 - 8) data in
    let data := put_bytes (64 - 8) rawlen data in
    Ret (Digest (chunk_words data) s)
  else
    data ← (if (len <? 64)%nat then zero_loop fuel (S len) (<[len := 0x80]> data) else Ret data);
    let s := Digest (chunk_words data) s in
    let data := put_bytes 0 (replicate (64 - 8) 0) data in
    let data := put_bytes (64 - 8) rawlen data in
    Ret (Digest (chunk_words data) s).

(** sha256::Result *)
Definition sha256_Result (s : sha2alg) : list Z :=
  seq 0 8 ≫= fun i => le_bytes 4 (big_endian_Raw 2 (sh_hv s !!! i)).

(** sha2alg::Result, which reads 16 values of an array of 8. *)
Fixpoint sha2alg_Result_loop (n i : nat) (s : sha2alg) : outcome (list Z) :=
  match n with
  | O => Ret []
  | S n =>
      v ← rd (sh_hv s) (Z.of_nat i);
      l ← sha2alg_Result_loop n (S i) s;
      Ret (le_bytes 4 (big_endian_Raw 2 v) ++ l)
  end.
Definition sha2alg_Result (s : sha2alg) : outcome (list Z) := sha2alg_Result_loop 16 0 s.

(** The rows of the table. *)
Definition round_constants : list Z := concat
  [[0x428a2f98; 0x71374491; 0xb5c0fbcf; 0xe9b5dba5; 0x3956c25b; 0x59f111f1; 0x923f82a4; 0xab1c5ed5];
   [0xd807aa98; 0x12835b01; 0x243185be; 0x550c7dc3; 0x72be5d74; 0x80deb1fe; 0x9bdc06a7; 0xc19bf174];
   [0xe49b69c1; 0xefbe4786; 0x0fc19dc6; 0x240ca1cc; 0x2de92c6f; 0x4a7484aa; 0x5cb0a9dc; 0x76f988da];
   [0x983e5152; 0xa831c66d; 0xb00327c8; 0xbf597fc7; 0xc6e00bf3; 0xd5a79147; 0x06ca6351; 0x14292967];
   [0x27b70a85; 0x2e1b2138; 0x4d2c6dfc; 0x53380d13; 0x650a7354; 0x766a0abb; 0x81c2c92e; 0x92722c85];
   [0xa2bfe8a1; 0xa81a664b; 0xc24b8b70; 0xc76c51a3; 0xd192e819; 0xd6990624; 0xf40e3585; 0x106aa070];
   [0x19a4c116; 0x1e376c08; 0x2748774c; 0x34b0bcb5; 0x391c0cb3; 0x4ed8aa4a; 0x5b9cca4f; 0x682e6ff3];
   [0x748f82ee; 0x78a5636f; 0x84c87814; 0x8cc70208; 0x90befffa; 0xa4506ceb; 0xbef9a3f7; 0xc67178f2]].

Definition initial_hash : list Z :=
  [0x6a09e667; 0xbb67ae85; 0x3c6ef372; 0xa54ff53a; 0x510e527f; 0x9b05688c; 0x1f83d9ab; 0x5be0cd19].

Definition new_sha256 : sha2alg := Sha2Alg (replicate 64 0) round_constants initial_hash 0.

(** * SHA-256 as FIPS 180-4 defines it *)

Module Fips.

Definition ROTR (n x : Z) : Z := x / 2 ^ n + (x mod 2 ^ n) * 2 ^ (32 - n).
Definition SHR (n x : Z) : Z := x / 2 ^ n.

Definition Ch (x y z : Z) : Z := Z.lxor (Z.land x y) (Z.land (2 ^ 32 - 1 - x) z).
Definition Maj (x y z : Z) : Z := Z.lxor (Z.lxor (Z.land x y) (Z.land x z)) (Z.land y z).
Definition Sigma0 (x : Z) : Z := Z.lxor (Z.lxor (ROTR 2 x) (ROTR 13 x)) (ROTR 22 x).
Definition Sigma1 (x : Z) : Z := Z.lxor (Z.lxor (ROTR 6 x) (ROTR 11 x)) (ROTR 25 x).
Definition sigma0 (x : Z) : Z := Z.lxor (Z.lxor (ROTR 7 x) (ROTR 18 x)) (SHR 3 x).
Definition sigma1 (x : Z) : Z := Z.lxor (Z.lxor (ROTR 17 x) (ROTR 19 x)) (SHR 10 x).

(** The next word of the schedule from those before it. *)
Definition next_word (W : list Z) : Z :=
  let t := length W in
  (sigma1 (W !!! (t - 2)%nat) + (W !!! (t - 7)%nat) + sigma0 (W !!! (t - 15)%nat) + (W !!! (t - 16)%nat)) mod 2 ^ 32.

Definition schedule (M : list Z) : list Z := Nat.iter 48 (fun W => W ++ [next_word W]) M.

Definition round (r : regs) (K W : Z) : regs :=
  let T1 := (rh r + Sigma1 (re r) + Ch (re r) (rf r) (rg r) + K + W) mod 2 ^ 32 in
  let T2 := (Sigma0 (ra r) + Maj (ra r) (rb r) (rc r)) mod 2 ^ 32 in
  Regs ((T1 + T2) mod 2 ^ 32) (ra r) (rb r) (rc r) ((rd_ r + T1) mod 2 ^ 32) (re r) (rf r) (rg r).

(** The words of a block of 64 bytes. *)
Definition block_words (block : list Z) : list Z :=
  (fun i => be_word (take 4 (drop (4 * i) block))) <$> seq 0 16.

Definition compress (H : list Z) (block : list Z) : list Z :=
  let r := foldl (fun r '(K, W) => round r K W) (load_regs H) (zip round_constants (schedule (block_words block))) in
  zip_with (fun x y => (x + y) mod 2 ^ 32) H (reg_list r).

Definition padding (len : nat) : list Z :=
  [0x80] ++ replicate ((119 - len mod 64) mod 64) 0 ++ be_bytes 8 (8 * Z.of_nat len).

Fixpoint blocks (n : nat) (bytes : list Z) : list (list Z) :=
  match n with
  | O => []
  | S n => take 64 bytes :: blocks n (drop 64 bytes)
  end.

Definition sha256 (message : list Z) : list Z :=
  let padded := message ++ padding (length message) in
  foldl compress initial_hash (blocks (length padded / 64) padded) ≫= be_bytes 4.

End Fips.

(** * Words *)

Lemma rightrotate_ROTR x r : is_u 32 x → 0 < r < 32 → rightrotate x r = Fips.ROTR r x.
Proof.
  intros Hx Hr. unfold rightrotate, Fips.ROTR, is_u in *.
  assert (Z.land r 31 = r) as -> by (change 31 with (Z.ones 5); rewrite Z.land_ones by lia; apply Z.mod_small; lia).
  assert (Z.land (u32 (0 - r)) 31 = 32 - r) as ->.
  { change 31 with (Z.ones 5). rewrite <- (wrap_land 5), wrap_min by lia. unfold wrap.
    symmetry. apply (Z.mod_unique_pos _ _ (-1)); lia. }
  rewrite Z.shiftr_div_pow2, Z.shiftl_mul_pow2 by lia.
  assert (u32 (x * 2 ^ (32 - r)) = (x mod 2 ^ r) * 2 ^ (32 - r)) as ->.
  { unfold wrap. replace (2 ^ 32) with (2 ^ r * 2 ^ (32 - r)) by (rewrite <- Z.pow_add_r by lia; f_equal; lia).
    apply Z.mul_mod_distr_r; apply Z.pow_nonzero; lia. }
  rewrite Z.lor_comm, <- (Z.shiftl_mul_pow2 (x mod 2 ^ r)) at 1 by lia.
  rewrite lor_low; [apply Z.add_comm | apply Z.mod_pos_bound; lia | | lia].
  split; [apply Z.div_pos; lia |].
  apply Z.div_lt_upper_bound; [lia |]. rewrite <- Z.pow_add_r by lia. replace (r + (32 - r)) with 32 by lia. lia.
Qed.

Lemma not_w_sub x : is_u 32 x → not_w 32 x = 2 ^ 32 - 1 - x.
Proof.
  unfold is_u, not_w, wrap. intros Hx. unfold Z.lnot, Z.pred. symmetry.
  apply (Z.mod_unique_pos _ _ (-1)); lia.
Qed.

Lemma u32_add_l x y : u32 (u32 x + y) = u32 (x + y).
Proof. unfold wrap. by rewrite Z.add_mod_idemp_l. Qed.

Lemma u32_add_2 x y z : u32 (u32 (u32 x + y) + z) = u32 (x + y + z).
Proof. by rewrite u32_add_l, <- !Z.add_assoc, u32_add_l. Qed.

Lemma u32_add_3 x y z t : u32 (u32 (u32 (u32 x + y) + z) + t) = u32 (x + y + z + t).
Proof. by rewrite u32_add_2, <- !Z.add_assoc, u32_add_l. Qed.

Lemma be_word_bytes b : length b = 4%nat → Forall (is_u 8) b → to_big (le_word b) = be_word b ∧ is_u 32 (be_word b).
Proof.
  intros Hl Hb. assert (is_u 32 (le_word b)) as Hw.
  { pose proof (le_word_range b Hb) as Hr. rewrite Hl in Hr. exact Hr. }
  destruct (reverse_bytes 2 (le_word b) Hw) as [E Hr]. unfold to_big, big_endian_Raw, be_word, be_bytes in *.
  change (2 * 2)%nat with 4%nat in E. rewrite le_bytes_word in E by done.
  rewrite <- E, le_word_bytes by exact Hr. split; [done | exact Hr].
Qed.

(** * Digest *)

Lemma foldl_insert_take (f : nat → Z) (w : list Z) j :
  (j ≤ length w)%nat →
  length (foldl (fun w i => <[i := f i]> w) w (seq 0 j)) = length w ∧
  take j (foldl (fun w i => <[i := f i]> w) w (seq 0 j)) = f <$> seq 0 j.
Proof.
  induction j as [| j IH]; intros Hj; [done |].
  rewrite seq_S, foldl_app, fmap_app. cbn [foldl fmap list_fmap Nat.add].
  destruct (IH ltac:(lia)) as [IL IT]. set (w' := foldl _ w (seq 0 j)) in *.
  rewrite length_insert. split; [done |].
  erewrite take_S_r by (apply list_lookup_insert_eq; lia). by rewrite take_insert_ge, IT by lia.
Qed.

Definition words_ok (l : list Z) : Prop := Forall (is_u 32) l.

Lemma words_lookup l i : words_ok l → is_u 32 (l !!! i).
Proof.
  intros Hl. rewrite list_lookup_total_alt. destruct (l !! i) as [x |] eqn:E; [| by unfold is_u].
  by eapply Forall_lookup_1.
Qed.

Lemma lookup_take_total (l : list Z) n i : (i < n)%nat → take n l !!! i = l !!! i.
Proof. intros Hi. rewrite !list_lookup_total_alt. by rewrite lookup_take_lt. Qed.

(** The array while it is extended: its first words are those of FIPS. *)
Lemma extend_words j w M :
  length w = 64%nat → length M = 16%nat → take 16 w = M → words_ok M → (j ≤ 48)%nat →
  let W := Nat.iter j (fun W => W ++ [Fips.next_word W]) M in
  length (foldl extend_word w (seq 16 j)) = 64%nat ∧ take (16 + j) (foldl extend_word w (seq 16 j)) = W ∧
  length W = (16 + j)%nat ∧ words_ok W.
Proof.
  intros Hw HM HT HMo. induction j as [| j IH]; intros Hj; [by rewrite Nat.add_0_r |].
  rewrite seq_S, foldl_app, Nat.iter_succ. cbn [foldl]. destruct (IH ltac:(lia)) as (IL & IT & IW & IO).
  set (w' := foldl extend_word w (seq 16 j)) in *. set (W := Nat.iter j _ M) in *. cbn zeta.
  assert (∀ k, (k < 16 + j)%nat → w' !!! k = W !!! k) as Hlook.
  { intros k Hk. rewrite <- IT. by rewrite lookup_take_total. }
  assert (words_ok (W ++ [Fips.next_word W])) as HO.
  { apply Forall_app. split; [done |]. apply Forall_singleton. apply Z.mod_pos_bound. lia. }
  split_and!; [| | rewrite length_app, IW; cbn; lia | done].
  - unfold extend_word. by rewrite length_insert.
  - replace (16 + S j)%nat with (S (16 + j)) by lia. unfold extend_word.
    erewrite take_S_r by (apply list_lookup_insert_eq; lia). rewrite take_insert_ge, IT by lia. do 2 f_equal.
    rewrite !Hlook by lia. unfold Fips.next_word. rewrite IW. unfold Fips.sigma0, Fips.sigma1, Fips.SHR.
    rewrite !rightrotate_ROTR by (try apply words_lookup; done || lia). rewrite !Z.shiftr_div_pow2 by lia.
    rewrite u32_add_2. unfold wrap. f_equal. lia.
Qed.

Lemma extend_all w M :
  length w = 64%nat → length M = 16%nat → take 16 w = M → words_ok M →
  foldl extend_word w (seq 16 48) = Fips.schedule M ∧ length (Fips.schedule M) = 64%nat ∧ words_ok (Fips.schedule M).
Proof.
  intros Hw HM HT HO. destruct (extend_words 48 w M Hw HM HT HO (le_n 48)) as (EL & ET & EW & EO).
  rewrite take_ge in ET by (rewrite EL; apply le_n). unfold Fips.schedule. by split_and!.
Qed.

Definition regs_ok (r : regs) : Prop := words_ok (reg_list r).

Lemma digest_round_spec k w r i :
  regs_ok r → digest_round k w r i = Fips.round r (k !!! i) (w !!! i) ∧ regs_ok (digest_round k w r i).
Proof.
  intros Hr. assert (digest_round k w r i = Fips.round r (k !!! i) (w !!! i)) as E.
  { unfold regs_ok, words_ok, reg_list in Hr. rewrite !Forall_cons in Hr. destruct Hr as (? & ? & ? & ? & ? & ? & ? & ? & _).
    unfold digest_round, Fips.round, Fips.Sigma0, Fips.Sigma1, Fips.Ch, Fips.Maj.
    rewrite !rightrotate_ROTR by (done || lia). rewrite not_w_sub by done. by rewrite (u32_add_3 (rh r + _)). }
  split; [done |]. rewrite E. unfold regs_ok, words_ok, reg_list in *. rewrite !Forall_cons in *. cbn [Fips.round ra rb rc rd_ re rf rg rh].
  destruct Hr as (? & ? & ? & ? & ? & ? & ? & ? & _). split_and!; try done; by apply Z.mod_pos_bound.
Qed.

Lemma digest_rounds k w r n m :
  regs_ok r →
  foldl (digest_round k w) r (seq n m) =
    foldl (fun r i => Fips.round r (k !!! i) (w !!! i)) r (seq n m) ∧ regs_ok (foldl (digest_round k w) r (seq n m)).
Proof.
  revert r n. induction m as [| m IH]; intros r n Hr; [done |]. cbn [seq foldl].
  destruct (digest_round_spec k w r n Hr) as [E Hr']. rewrite <- E. by apply IH.
Qed.

Lemma foldl_zip_total {R} (f : R → Z → Z → R) (k w : list Z) r :
  length k = length w →
  foldl (fun r i => f r (k !!! i) (w !!! i)) r (seq 0 (length k)) = foldl (fun r '(x, y) => f r x y) r (zip k w).
Proof.
  revert w r. induction k as [| x k IH]; intros [| y w] r Hl; try done. cbn [length seq foldl zip zip_with].
  injection Hl as Hl. rewrite <- IH by done. rewrite <- fmap_S_seq. rewrite foldl_fmap. done.
Qed.

Record sha_ok (s : sha2alg) : Prop := {
  so_w : length (sh_w s) = 64%nat;
  so_k : sh_k s = round_constants;
  so_len : length (sh_hv s) = 8%nat;
  so_hv : words_ok (sh_hv s)
}.

Definition chunk_ok (chunk : list Z) : Prop := length chunk = 64%nat ∧ Forall (is_u 8) chunk.

Lemma chunk_word chunk i :
  chunk_ok chunk → (i < 16)%nat →
  to_big (chunk_words chunk !!! i) = be_word (take 4 (drop (4 * i) chunk)) ∧
  is_u 32 (be_word (take 4 (drop (4 * i) chunk))).
Proof.
  intros [Hl Hb] Hi. unfold chunk_words. rewrite list_lookup_total_alt, list_lookup_fmap, lookup_seq_lt by done. cbn [fmap option_fmap option_map default id].
  apply be_word_bytes; [rewrite length_take, length_drop; lia |]. by apply Forall_take, Forall_drop.
Qed.

Lemma Digest_spec chunk s :
  sha_ok s → chunk_ok chunk →
  sh_hv (Digest (chunk_words chunk) s) = Fips.compress (sh_hv s) chunk ∧ sha_ok (Digest (chunk_words chunk) s) ∧
  mlength_bits (Digest (chunk_words chunk) s) = mlength_bits s.
Proof.
  intros [Hw Hk Hl Hv] Hc.
  destruct (foldl_insert_take (fun i => to_big (chunk_words chunk !!! i)) (sh_w s) 16 ltac:(lia)) as [IL IT].
  fold (load_chunk (chunk_words chunk) (sh_w s)) in IL, IT.
  assert (take 16 (load_chunk (chunk_words chunk) (sh_w s)) = Fips.block_words chunk) as Hload.
  { rewrite IT. apply list_fmap_ext. intros i x [-> Hx]%lookup_seq. by apply chunk_word. }
  assert (words_ok (Fips.block_words chunk)) as Hok.
  { apply Forall_fmap, Forall_forall. intros i [_ Hi]%elem_of_seq. apply chunk_word; [done | lia]. }
  destruct (extend_all (load_chunk (chunk_words chunk) (sh_w s)) (Fips.block_words chunk)) as (ET & EW & EO);
    [congruence | done | done | done |].
  assert (regs_ok (load_regs (sh_hv s))) as Hr.
  { unfold regs_ok, load_regs, words_ok, reg_list. cbn. repeat constructor; by apply words_lookup. }
  unfold Digest. cbn [sh_hv mlength_bits]. rewrite ET, Hk.
  destruct (digest_rounds round_constants (Fips.schedule (Fips.block_words chunk)) _ 0 64 Hr) as [ER HR].
  assert (foldl (fun r i => Fips.round r (round_constants !!! i) (Fips.schedule (Fips.block_words chunk) !!! i))
    (load_regs (sh_hv s)) (seq 0 64) =
    foldl (fun r '(K, W) => Fips.round r K W) (load_regs (sh_hv s)) (zip round_constants (Fips.schedule (Fips.block_words chunk)))) as EZ.
  { rewrite <- foldl_zip_total by (by rewrite EW). done. }
  split_and!; [by rewrite ER, EZ | | done]. split; cbn [sh_w sh_k sh_hv]; [done | done | |].
  - by rewrite length_zip_with, Hl.
  - unfold words_ok. apply Forall_forall. intros x Hx. apply elem_of_zip_with in Hx as (y & z & -> & _). apply Z.mod_pos_bound. lia.
Qed.

(** * Chunks *)

Lemma consume_blocks bs s :
  sha_ok s → Forall chunk_ok bs →
  let s' := foldl (fun s b => Consume b s) s bs in
  sh_hv s' = foldl Fips.compress (sh_hv s) bs ∧ sha_ok s' ∧
  u64 (mlength_bits s') = u64 (mlength_bits s + 512 * Z.of_nat (length bs)).
Proof.
  revert s. induction bs as [| b bs IH]; intros s Hs Hb.
  { cbn. split_and!; [done | done |]. by rewrite Z.add_0_r. }
  apply Forall_cons in Hb as [Hb Hbs]. cbn [foldl]. unfold Consume at 2 4 6.
  set (s0 := Sha2Alg _ _ _ _). assert (sha_ok s0) as Hs0 by (destruct Hs; by split).
  destruct (Digest_spec b s0 Hs0 Hb) as (E1 & E2 & E3). destruct (IH _ E2 Hbs) as (I1 & I2 & I3).
  split_and!; [by rewrite I1, E1 | done |]. rewrite I3, E3. unfold s0. cbn [mlength_bits length].
  unfold wrap. rewrite Z.add_mod_idemp_l by lia. f_equal. lia.
Qed.

Lemma inserts_spec i (l d : list Z) :
  (i + length l ≤ length d)%nat → list_inserts i l d = take i d ++ l ++ drop (i + length l) d.
Proof.
  intros Hl. rewrite <- (take_drop i d) at 1. rewrite <- (Nat.add_0_r i) at 1.
  rewrite <- (length_take_le d i) at 1 by lia. rewrite list_inserts_app_r. f_equal.
  rewrite <- (take_drop (length l) (drop i d)) at 1. rewrite list_inserts_0_r by (rewrite length_take, length_drop; lia).
  by rewrite drop_drop.
Qed.

Lemma zero_fill_spec len stop d :
  (len ≤ stop)%nat → (stop ≤ length d)%nat → zero_fill len stop d = take len d ++ replicate (stop - len) 0 ++ drop stop d.
Proof.
  intros H1 H2. unfold zero_fill. remember (stop - len)%nat as n eqn:En. assert (stop = len + n)%nat as -> by lia. clear En H1.
  revert len d H2. induction n as [| n IH]; intros len d H2; cbn [seq foldl replicate app].
  { by rewrite Nat.add_0_r, take_drop. }
  rewrite IH by (rewrite length_insert; lia).
  erewrite take_S_r by (apply list_lookup_insert_eq; lia). rewrite take_insert_ge by lia.
  rewrite drop_insert_lt by lia. rewrite <- app_assoc. by replace (S len + n)%nat with (len + S n)%nat by lia.
Qed.

Lemma blocks_app bs rest n :
  Forall chunk_ok bs → Fips.blocks (length bs + n) (concat bs ++ rest) = bs ++ Fips.blocks n rest.
Proof.
  induction 1 as [| b bs [Hb _] _ IH]; [done |]. cbn [length Nat.add Fips.blocks concat].
  rewrite <- !app_assoc, take_app_length', drop_app_length' by done. cbn [app]. by rewrite IH.
Qed.

Lemma concat_length bs : Forall chunk_ok bs → length (concat bs) = (64 * length bs)%nat.
Proof. induction 1 as [| b bs [Hb _] _ IH]; cbn [concat length]; [done |]. rewrite length_app, IH, Hb. lia. Qed.

Lemma be_bytes_u64 x : be_bytes 8 (u64 x) = be_bytes 8 x.
Proof. unfold be_bytes. f_equal. apply (le_bytes_mod 8). Qed.

Lemma rawlen_bytes x : le_bytes 8 (big_endian_Raw 4 (u64 x)) = be_bytes 8 x.
Proof. rewrite <- be_bytes_u64. apply (reverse_bytes 4). apply is_u_wrap. lia. Qed.

Lemma Result_spec s : sha_ok s → sha256_Result s = sh_hv s ≫= be_bytes 4.
Proof.
  intros [_ _ Hl Hv]. unfold sha256_Result. assert (∀ i, le_bytes 4 (big_endian_Raw 2 (sh_hv s !!! i)) = be_bytes 4 (sh_hv s !!! i)) as E.
  { intros i. apply (reverse_bytes 2). by apply words_lookup. }
  destruct (sh_hv s) as [| a [| b [| c [| d [| e [| f [| g [| h [| ]]]]]]]]]; try done. cbn [seq mbind list_bind].
  by rewrite !E.
Qed.

(** * Final *)

Lemma chunk_ok_app l l' : length (l ++ l') = 64%nat → Forall (is_u 8) l → Forall (is_u 8) l' → chunk_ok (l ++ l').
Proof. intros. split; [done |]. by apply Forall_app. Qed.

Lemma zeros_bytes n : Forall (is_u 8) (replicate n 0).
Proof. apply Forall_replicate. by unfold is_u. Qed.

Lemma be_bytes_range n x : Forall (is_u 8) (be_bytes n x).
Proof. unfold be_bytes. apply Forall_reverse, le_bytes_range. Qed.

Lemma be_bytes_length n x : length (be_bytes n x) = n.
Proof. unfold be_bytes. by rewrite length_reverse, le_bytes_length. Qed.

(** The last block, with the length. *)
Definition last_block (tail : list Z) (bits : Z) : list Z :=
  tail ++ [0x80] ++ replicate (55 - length tail) 0 ++ be_bytes 8 bits.

Lemma Final_short fuel tail junk s :
  sha_ok s → (length tail ≤ 55)%nat → Forall (is_u 8) tail → length junk = 64%nat →
  ∃ s', Final fuel tail junk s = Ret s' ∧ sha_ok s' ∧
    sh_hv s' = Fips.compress (sh_hv s) (last_block tail (mlength_bits s + 8 * Z.of_nat (length tail))).
Proof.
  intros Hs Hl Ht Hj. unfold Final. rewrite (proj2 (Nat.ltb_ge 64 (length tail))) by lia.
  change (64 - 1 - 8)%nat with 55%nat. rewrite (proj2 (Nat.leb_le (length tail) 55)) by lia. rewrite rawlen_bytes.
  set (bits := mlength_bits s + _). set (s0 := Sha2Alg _ _ _ _). assert (sha_ok s0) as Hs0 by (destruct Hs; by split).
  unfold put_bytes. rewrite (inserts_spec 0 tail junk), take_0, app_nil_l, Nat.add_0_l by lia.
  rewrite insert_app_r_alt, Nat.sub_diag by lia.
  assert (∃ x, drop (length tail) junk = x :: drop (S (length tail)) junk) as [x Ex].
  { destruct (lookup_lt_is_Some_2 junk (length tail)) as [x Hx]; [lia |]. exists x. by apply drop_S. }
  rewrite Ex. cbn [insert list_insert]. rewrite zero_fill_spec; cycle 1.
  { lia. } { rewrite length_app. cbn. rewrite length_drop. lia. }
  assert (take (S (length tail)) (tail ++ 0x80 :: drop (S (length tail)) junk) = tail ++ [0x80]) as ->.
  { rewrite take_app_ge, Nat.sub_succ_l, Nat.sub_diag by lia. done. }
  set (rest := drop _ (tail ++ _)). rewrite inserts_spec; cycle 1.
  { unfold rest. rewrite be_bytes_length, !length_app, length_replicate, length_drop, length_app. cbn. rewrite length_drop. lia. }
  assert (take (64 - 8) ((tail ++ [0x80]) ++ replicate (64 - 8 - S (length tail)) 0 ++ rest) =
    (tail ++ [0x80]) ++ replicate (55 - length tail) 0) as ->.
  { rewrite app_assoc, take_app_le, take_ge by (rewrite !length_app, length_replicate; cbn; lia).
    done. }
  rewrite drop_ge, app_nil_r; cycle 1.
  { unfold rest. rewrite be_bytes_length, !length_app, length_replicate, length_drop, length_app. cbn. rewrite length_drop. lia. }
  rewrite <- !app_assoc. fold (last_block tail bits). change (tail ++ [0x80] ++ _) with (last_block tail bits).
  assert (chunk_ok (last_block tail bits)) as Hc.
  { unfold last_block. apply chunk_ok_app; [| done |].
    - rewrite !length_app, length_replicate, be_bytes_length. cbn. lia.
    - repeat apply Forall_app_2; [repeat constructor; by unfold is_u | apply zeros_bytes | apply be_bytes_range]. }
  destruct (Digest_spec (last_block tail bits) s0 Hs0 Hc) as (E1 & E2 & _). eexists. split; [done |]. by split.
Qed.

(** The block of the length alone, which follows a full block. *)
Definition length_block (bits : Z) : list Z := replicate 56 0 ++ be_bytes 8 bits.

Lemma length_block_ok bits : chunk_ok (length_block bits).
Proof. apply chunk_ok_app; [by rewrite length_app, length_replicate, be_bytes_length | apply zeros_bytes | apply be_bytes_range]. Qed.

(** The second half of [Final]: the full block, then the block of the length. *)
Lemma two_blocks data bits s :
  sha_ok s → chunk_ok data →
  let s' := Digest (chunk_words (put_bytes 56 (be_bytes 8 bits) (put_bytes 0 (replicate 56 0) data))) (Digest (chunk_words data) s) in
  sha_ok s' ∧ sh_hv s' = Fips.compress (Fips.compress (sh_hv s) data) (length_block bits).
Proof.
  intros Hs Hd. pose proof (proj1 Hd) as Hl. unfold put_bytes.
  rewrite (inserts_spec 0), take_0, app_nil_l, length_replicate, Nat.add_0_l by (rewrite length_replicate; lia).
  rewrite inserts_spec by (rewrite length_app, length_replicate, length_drop, be_bytes_length; lia).
  rewrite take_app_length' by done.
  rewrite (drop_ge (_ ++ _)), app_nil_r by (rewrite length_app, length_replicate, length_drop, be_bytes_length; lia).
  destruct (Digest_spec data s Hs Hd) as (E1 & E2 & _).
  destruct (Digest_spec _ _ E2 (length_block_ok bits)) as (F1 & F2 & _). split; [exact F2 |].
  etrans; [exact F1 |]. exact (f_equal (fun H => Fips.compress H (length_block bits)) E1).
Qed.

Lemma Final_63 fuel tail junk s :
  sha_ok s → length tail = 63%nat → Forall (is_u 8) tail → length junk = 64%nat →
  ∃ s', Final (S fuel) tail junk s = Ret s' ∧ sha_ok s' ∧
    sh_hv s' = Fips.compress (Fips.compress (sh_hv s) (tail ++ [0x80])) (length_block (mlength_bits s + 8 * 63)).
Proof.
  intros Hs Hl Ht Hj. unfold Final. rewrite Hl, rawlen_bytes. cbn [Nat.ltb Nat.leb Nat.sub zero_loop mbind outcome_bind].
  unfold put_bytes at 3 4. rewrite (inserts_spec 0 tail junk), take_0, app_nil_l, Nat.add_0_l by lia.
  rewrite insert_app_r_alt, Hl, Nat.sub_diag by lia.
  assert (∃ x, drop 63 junk = [x]) as [x Ex].
  { do 64 (destruct junk as [| ? junk]; [done |]). destruct junk; [| done]. by eexists. }
  rewrite Ex. cbn [insert list_insert]. set (s0 := Sha2Alg _ _ _ _). assert (sha_ok s0) as Hs0 by (destruct Hs; by split).
  destruct (two_blocks (tail ++ [0x80]) (mlength_bits s + 8 * Z.of_nat 63) s0 Hs0) as [T1 T2].
  { apply chunk_ok_app; [by rewrite length_app, Hl | done |]. repeat constructor; by unfold is_u. }
  eexists. split; [done |]. by split.
Qed.

(** * Hashing a message *)

(** The calls of a user: the whole blocks by [Consume], what is left by [Final]. *)
Definition hash (fuel : nat) (bs : list (list Z)) (tail junk : list Z) : outcome (list Z) :=
  s ← Final fuel tail junk (foldl (fun s b => Consume b s) new_sha256 bs);
  Ret (sha256_Result s).

Lemma new_sha256_ok : sha_ok new_sha256.
Proof. split; try done. unfold words_ok. repeat constructor; by unfold is_u. Qed.

Lemma be_bytes_congr x y : u64 x = u64 y → be_bytes 8 x = be_bytes 8 y.
Proof. intros E. by rewrite <- (be_bytes_u64 x), <- (be_bytes_u64 y), E. Qed.

(** The padded message is the consumed blocks and the blocks of [Final]. *)
Lemma padded_blocks bs tail last :
  Forall chunk_ok bs → Forall chunk_ok last → tail ++ Fips.padding (length (concat bs ++ tail)) = concat last →
  Fips.sha256 (concat bs ++ tail) = foldl Fips.compress (foldl Fips.compress initial_hash bs) last ≫= be_bytes 4.
Proof.
  intros Hb Hl E. unfold Fips.sha256. rewrite <- app_assoc, E.
  rewrite length_app, !concat_length by done.
  replace (64 * length bs + 64 * length last)%nat with ((length bs + length last) * 64)%nat by lia.
  rewrite Nat.div_mul by done. rewrite blocks_app by done.
  rewrite <- (app_nil_r (concat last)), <- (Nat.add_0_r (length last)), blocks_app by done. cbn [Fips.blocks].
  by rewrite app_nil_r, foldl_app.
Qed.

(** What is left of a message after its whole blocks: at most a block less one byte. *)
Lemma tail_mod bs (tail : list Z) :
  Forall chunk_ok bs → (length tail < 64)%nat → (length (concat bs ++ tail) mod 64 = length tail)%nat.
Proof.
  intros Hb Hl. rewrite length_app, concat_length by done. rewrite Nat.mul_comm, Nat.add_comm, Nat.Div0.mod_add. by apply Nat.mod_small.
Qed.

(** C7: the hash is the SHA-256 of the message, for every number of whole blocks, when
    what is left of it is at most 55 bytes, or 63 bytes. *)
Theorem sha256_correct fuel bs tail junk :
  Forall chunk_ok bs → Forall (is_u 8) tail → length junk = 64%nat →
  (length tail ≤ 55 ∨ length tail = 63)%nat →
  hash (S fuel) bs tail junk = Ret (Fips.sha256 (concat bs ++ tail)).
Proof.
  intros Hb Ht Hj Hl. unfold hash. destruct (consume_blocks bs new_sha256 new_sha256_ok Hb) as (C1 & C2 & C3).
  set (s := foldl _ new_sha256 bs) in *. cbn [sh_hv mlength_bits new_sha256] in C1, C3.
  assert (u64 (mlength_bits s + 8 * Z.of_nat (length tail)) = u64 (8 * Z.of_nat (length (concat bs ++ tail)))) as EB.
  { unfold wrap in *. rewrite <- Z.add_mod_idemp_l, C3, Z.add_mod_idemp_l by lia. f_equal.
    rewrite length_app, concat_length by done. lia. }
  apply be_bytes_congr in EB. pose proof (tail_mod bs tail Hb ltac:(lia)) as EM.
  destruct Hl as [Hl | Hl].
  - destruct (Final_short (S fuel) tail junk s C2 Hl Ht Hj) as (s' & -> & Hs' & ES). cbn [mbind outcome_bind].
    rewrite Result_spec, ES, C1 by done. f_equal. symmetry.
    unfold last_block. rewrite EB. apply (padded_blocks bs tail [_]); [done | |].
    + repeat constructor.
      * rewrite !length_app, length_replicate, be_bytes_length. cbn. lia.
      * repeat apply Forall_app_2; [done | repeat constructor; by unfold is_u | apply zeros_bytes | apply be_bytes_range].
    + unfold Fips.padding. rewrite EM. cbn [concat]. rewrite app_nil_r.
      replace ((119 - length tail) mod 64)%nat with (55 - length tail)%nat; [done |].
      replace (119 - length tail)%nat with (55 - length tail + 1 * 64)%nat by lia. rewrite Nat.Div0.mod_add, Nat.mod_small; lia.
  - destruct (Final_63 fuel tail junk s C2 Hl Ht Hj) as (s' & -> & Hs' & ES). cbn [mbind outcome_bind].
    rewrite Result_spec, ES, C1 by done. f_equal. symmetry.
    rewrite Hl in EB. unfold length_block. change (8 * Z.of_nat 63) with (8 * 63) in EB. rewrite EB.
    apply (padded_blocks bs tail [_; _]); [done | |].
    + constructor; [| constructor; [apply length_block_ok | constructor]].
      apply chunk_ok_app; [by rewrite length_app, Hl | done |]. repeat constructor; by unfold is_u.
    + unfold Fips.padding. rewrite EM, Hl. cbn [concat]. by rewrite app_nil_r, <- app_assoc.
Qed.

(** The three bytes of abc, whose hash FIPS 180-4 gives as an example. *)
Lemma sha256_correct_witness :
  hash 1 [] [0x61; 0x62; 0x63] (replicate 64 0xff) = Ret (Fips.sha256 [0x61; 0x62; 0x63]) ∧
  Fips.sha256 [0x61; 0x62; 0x63] =
    [0xba; 0x78; 0x16; 0xbf; 0x8f; 0x01; 0xcf; 0xea; 0x41; 0x41; 0x40; 0xde; 0x5d; 0xae; 0x22; 0x23;
     0xb0; 0x03; 0x61; 0xa3; 0x96; 0x17; 0x7a; 0x9c; 0xb4; 0x10; 0xff; 0x61; 0xf2; 0x00; 0x15; 0xad].
Proof.
  split; [| by vm_compute]. apply (sha256_correct 0 [] [0x61; 0x62; 0x63] (replicate 64 0xff)).
  - constructor.
  - repeat constructor; by unfold is_u.
  - done.
  - left. cbn. lia.
Defined.

Lemma zero_loop_never fuel len data : (len < 64)%nat → zero_loop fuel len data = OutOfFuel.
Proof.
  intros Hl. revert data. induction fuel as [| fuel IH]; intros data; [done |]. cbn [zero_loop].
  rewrite (proj2 (Nat.ltb_lt len 64)) by done. apply IH.
Qed.

(** Final never returns when 56 to 62 bytes are left: the loop that clears the rest of the
    block does not advance. *)
Theorem sha256_hangs fuel tail junk s :
  (56 ≤ length tail ≤ 62)%nat → Final fuel tail junk s = OutOfFuel.
Proof.
  intros Hl. unfold Final. rewrite (proj2 (Nat.ltb_ge 64 (length tail))) by lia.
  rewrite (proj2 (Nat.leb_gt (length tail) (64 - 1 - 8))) by lia.
  rewrite (proj2 (Nat.ltb_lt (length tail) 64)) by lia. by rewrite zero_loop_never by lia.
Qed.

Lemma sha256_hangs_witness : Final 1000 (replicate 56 0x61) (replicate 64 0) new_sha256 = OutOfFuel.
Proof. apply sha256_hangs. rewrite length_replicate. lia. Defined.

(** a last call with a whole block of 64 bytes leaves out the byte 0x80 that ends the message, and
    the result is not its SHA-256. *)
Theorem sha256_full_block_wrong :
  ∃ h, hash 1 [] (replicate 64 0x61) (replicate 64 0) = Ret h ∧ h ≠ Fips.sha256 (replicate 64 0x61).
Proof. eexists. split; [by vm_compute |]. by vm_compute. Qed.

(** sha2alg::Result, the one of the base class, reads past the 8 hash values. *)
Theorem sha2alg_Result_out_of_bounds s : length (sh_hv s) = 8%nat → sha2alg_Result s = OutOfBounds.
Proof.
  intros Hl. destruct s as [w k hv bits]. cbn in Hl. do 8 (destruct hv as [| ? hv]; [done |]). by destruct hv.
Qed.

Lemma sha2alg_Result_out_of_bounds_witness : sha2alg_Result new_sha256 = OutOfBounds.
Proof. by apply sha2alg_Result_out_of_bounds. Defined.
