(* ===== verification/Prng.v ===== *)
(** kernel/random: the random numbers of the kernel, by feeding the hash of [Sha2]
    with its own results. *)
From S2P Require Import Prelude Endian Sha2.

Local Open Scope Z_scope.

(** * The code *)

(** prng_impl<sha256> *)
Record prng := Prng { hashf : sha2alg; feedback : list Z }.

Definition CreatePrng : prng := Prng new_sha256 (replicate 32 0).

(** The variables of Seed: the hash, [chunk], the index of [c] in it, [remaining]. *)
Record filler := Filler { f_hash : sha2alg; f_chunk : list Z; f_c : nat; f_remaining : nat }.

(** The body of both loops of Seed. *)
Definition put_byte (f : filler) (b : Z) : filler :=
  let f := if (f_remaining f =? 0)%nat then Filler (Consume (f_chunk f) (f_hash f)) (f_chunk f) 0 64 else f in
  Filler (f_hash f) (<[f_c f := b]> (f_chunk f)) (S (f_c f)) (f_remaining f - 1).

Definition Seed (buf : list Z) (p : prng) : prng :=
  let f := foldl put_byte (Filler (hashf p) (replicate 64 0) 0 64) (feedback p) in
  let f := foldl put_byte f buf in
  if (0 <? f_remaining f)%nat then
    Prng (Consume (zero_fill (f_c f) (f_c f + f_remaining f) (f_chunk f)) (f_hash f)) (feedback p)
  else Prng (f_hash f) (feedback p).

(** The loop of Generate, which reseeds before each result. *)
Fixpoint Generate_loop (fuel len : nat) (p : prng) : outcome (list Z * prng) :=
  match fuel with
  | O => OutOfFuel
  | S fuel =>
      if (0 <? len)%nat then
        let p := Seed [] p in
        let fb := sha256_Result (hashf p) in
        let p := Prng (hashf p) fb in
        if (32 <? len)%nat then
          r ← Generate_loop fuel (len - 32) p;
          Ret (fb ++ r.1, r.2)
        else Ret (take len fb, p)
      else Ret ([], p)
  end.

Definition Generate (fuel len : nat) (p : prng) : outcome (list Z * prng) :=
  if (len =? 0)%nat then Ret ([], p) else
  let fb := sha256_Result (hashf p) in
  let p := Prng (hashf p) fb in
  if (32 <? len)%nat then
    r ← Generate_loop fuel (len - 32) p;
    Ret (fb ++ r.1, r.2)
  else Ret (take len fb, p).

(** GetRandom, with the generator of the kernel as its state. *)
Definition GetRandom (fuel len : nat) (g : option prng) : outcome (list Z * option prng) :=
  let p := default CreatePrng g in
  r ← Generate fuel len (Seed [] p);
  Ret (r.1, Some r.2).

(** * Seed *)

Definition bytes_ok (l : list Z) : Prop := Forall (is_u 8) l.

Record prng_ok (p : prng) : Prop := {
  prng_hash : sha_ok (hashf p);
  prng_feedback_len : length (feedback p) = 32%nat;
  prng_feedback : bytes_ok (feedback p);
}.

(** After the bytes [l]: the whole chunks are consumed, the rest is in the chunk; a chunk that
    is just full is not consumed yet. *)
Record filled (h : sha2alg) (l : list Z) (f : filler) (bs : list (list Z)) : Prop := {
  fl_hash : f_hash f = foldl (fun s b => Consume b s) h bs;
  fl_bytes : l = concat bs ++ take (f_c f) (f_chunk f);
  fl_blocks : Forall chunk_ok bs;
  fl_len : length (f_chunk f) = 64%nat;
  fl_chunk : bytes_ok (f_chunk f);
  fl_c : (f_c f + f_remaining f = 64)%nat;
  fl_some : l ≠ [] → (0 < f_c f)%nat;
}.

Lemma filled_start h : filled h [] (Filler h (replicate 64 0) 0 64) [].
Proof. split; try done. apply zeros_bytes. Qed.

Lemma put_byte_filled h l f bs b :
  filled h l f bs → is_u 8 b → ∃ bs', filled h (l ++ [b]) (put_byte f b) bs'.
Proof.
  intros [H1 H2 H3 H4 H5 H6 H7] Hb. unfold put_byte. destruct (Nat.eqb_spec (f_remaining f) 0) as [E | E]; cbn [f_hash f_chunk f_c f_remaining].
  - exists (bs ++ [f_chunk f]). split; cbn [f_hash f_chunk f_c f_remaining]; try lia.
    + by rewrite foldl_app, H1.
    + rewrite H2, concat_app, take_ge by lia. cbn [concat]. rewrite app_nil_r, <- !app_assoc. do 2 f_equal.
      destruct (f_chunk f); [done |]. done.
    + apply Forall_app_2; [done |]. by repeat constructor.
    + by rewrite length_insert.
    + by apply Forall_insert.
  - exists bs. split; cbn [f_hash f_chunk f_c f_remaining]; try done; try lia.
    + erewrite take_S_r by (apply list_lookup_insert_eq; lia). rewrite take_insert_ge by lia. by rewrite H2, <- app_assoc.
    + by rewrite length_insert.
    + by apply Forall_insert.
Qed.

Lemma put_bytes_filled h l' l f bs :
  filled h l f bs → bytes_ok l' → ∃ bs', filled h (l ++ l') (foldl put_byte f l') bs'.
Proof.
  revert l f bs. induction l' as [| b l' IH]; intros l f bs Hf Hl.
  { exists bs. by rewrite app_nil_r. }
  apply Forall_cons in Hl as [Hb Hl]. destruct (put_byte_filled h l f bs b Hf Hb) as [bs' Hf'].
  destruct (IH _ _ _ Hf' Hl) as [bs'' Hf'']. exists bs''. by rewrite <- app_assoc in Hf''.
Qed.

(** What Seed has read when its loops end. *)
Lemma seed_filled buf p :
  prng_ok p → bytes_ok buf →
  ∃ bs, filled (hashf p) (feedback p ++ buf) (foldl put_byte (foldl put_byte (Filler (hashf p) (replicate 64 0) 0 64) (feedback p)) buf) bs.
Proof.
  intros [H1 H2 H3] Hb. destruct (put_bytes_filled _ _ _ _ _ (filled_start (hashf p)) H3) as [bs Hf].
  exact (put_bytes_filled _ _ _ _ _ Hf Hb).
Qed.

Lemma filled_mod h l f bs : filled h l f bs → l ≠ [] → (length l mod 64 = f_c f mod 64)%nat ∧ (0 < f_c f ≤ 64)%nat.
Proof.
  intros [H1 H2 H3 H4 H5 H6 H7] Hl. specialize (H7 Hl). split; [| lia].
  rewrite H2, length_app, concat_length, length_take_le by (done || lia).
  by rewrite Nat.mul_comm, Nat.add_comm, Nat.Div0.mod_add.
Qed.

Lemma consume_ok bs h : sha_ok h → Forall chunk_ok bs →
  sha_ok (foldl (fun s b => Consume b s) h bs) ∧ sh_hv (foldl (fun s b => Consume b s) h bs) = foldl Fips.compress (sh_hv h) bs.
Proof. intros Hh Hb. by destruct (consume_blocks bs h Hh Hb) as (E1 & E2 & _). Qed.

(** The bytes Seed takes, up to a whole number of blocks. *)
Definition seed_padded (bytes : list Z) : list Z := bytes ++ replicate (64 - length bytes mod 64) 0.

Lemma seed_absorbs buf p :
  prng_ok p → bytes_ok buf → ((32 + length buf) mod 64 ≠ 0)%nat →
  let padded := seed_padded (feedback p ++ buf) in
  prng_ok (Seed buf p) ∧ feedback (Seed buf p) = feedback p ∧
  sh_hv (hashf (Seed buf p)) = foldl Fips.compress (sh_hv (hashf p)) (Fips.blocks (length padded / 64) padded).
Proof.
  intros Hp Hb Hm padded. destruct (seed_filled buf p Hp Hb) as [bs Hf]. unfold Seed.
  set (f := foldl put_byte (foldl _ _ _) buf) in *. destruct Hp as [P1 P2 P3].
  assert (length (feedback p ++ buf) = 32 + length buf)%nat as El by (rewrite length_app; lia).
  destruct (filled_mod _ _ _ _ Hf) as [EM EC]; [intros E; rewrite E in El; cbn in El; lia |]. rewrite El in EM.
  destruct Hf as [H1 H2 H3 H4 H5 H6 _].
  assert (f_c f ≠ 64)%nat as Hc by (intros E; rewrite E in EM; done).
  rewrite (Nat.mod_small (f_c f)) in EM by lia.
  rewrite (proj2 (Nat.ltb_lt 0 (f_remaining f))) by lia. cbn [hashf feedback]. rewrite H6.
  rewrite zero_fill_spec, (drop_ge (f_chunk f)), app_nil_r by lia.
  set (last := take (f_c f) (f_chunk f) ++ replicate (64 - f_c f) 0).
  assert (chunk_ok last) as Hlast.
  { apply chunk_ok_app; [rewrite length_app, length_take, length_replicate; lia | by apply Forall_take | apply zeros_bytes]. }
  assert (Forall chunk_ok (bs ++ [last])) as Hbl by (apply Forall_app_2; [done | by apply Forall_singleton]).
  destruct (consume_ok (bs ++ [last]) (hashf p) P1 Hbl) as [E1 E2].
  rewrite foldl_app in E1, E2. cbn [foldl] in E1, E2. rewrite <- H1 in E1, E2.
  split; [by split |]. split; [done |]. rewrite E2.
  assert (padded = concat (bs ++ [last])) as EP.
  { unfold padded, seed_padded. rewrite El, EM, H2, concat_app. cbn [concat]. by rewrite app_nil_r, <- app_assoc. }
  rewrite EP, concat_length, Nat.mul_comm, Nat.div_mul by done.
  rewrite <- (app_nil_r (concat _)), <- (Nat.add_0_r (length _)), blocks_app by done.
  cbn [Fips.blocks]. by rewrite app_nil_r.
Qed.

(** Seed absorbs the previous result and then the whole of the buffer, padded with zeros, into the hash,
    unless they fill their last block exactly. *)
Theorem seed_correct buf p :
  prng_ok p → bytes_ok buf → ((32 + length buf) mod 64 ≠ 0)%nat →
  let padded := seed_padded (feedback p ++ buf) in
  prng_ok (Seed buf p) ∧ feedback (Seed buf p) = feedback p ∧
  sh_hv (hashf (Seed buf p)) = foldl Fips.compress (sh_hv (hashf p)) (Fips.blocks (length padded / 64) padded).
Proof. apply seed_absorbs. Qed.

Lemma fresh_prng_ok : prng_ok CreatePrng.
Proof. split; [apply new_sha256_ok | done | apply zeros_bytes]. Qed.

Lemma seed_correct_witness :
  let padded := seed_padded (replicate 32 0 ++ [1; 2; 3]) in
  prng_ok (Seed [1; 2; 3] CreatePrng) ∧ feedback (Seed [1; 2; 3] CreatePrng) = replicate 32 0 ∧
  sh_hv (hashf (Seed [1; 2; 3] CreatePrng)) = foldl Fips.compress initial_hash (Fips.blocks (length padded / 64) padded).
Proof. apply (seed_correct [1; 2; 3] CreatePrng); [apply fresh_prng_ok | repeat constructor; by unfold is_u | done]. Defined.

(** a seed of 32 bytes is ignored: with the previous result it just fills the chunk, and a full chunk
    is only consumed when another byte follows. *)
Theorem seed_32_ignored buf p :
  prng_ok p → bytes_ok buf → length buf = 32%nat → Seed buf p = p.
Proof.
  intros Hp Hb Hl. destruct (seed_filled buf p Hp Hb) as [bs Hf]. unfold Seed.
  set (f := foldl put_byte (foldl _ _ _) buf) in *. destruct Hp as [P1 P2 P3].
  assert (length (feedback p ++ buf) = 64)%nat as El by (rewrite length_app; lia).
  destruct (filled_mod _ _ _ _ Hf) as [EM EC]; [intros E; rewrite E in El; done |]. rewrite El in EM.
  destruct Hf as [H1 H2 H3 H4 H5 H6 _]. assert (f_c f = 64)%nat as Hc.
  { destruct (decide (f_c f = 64)%nat) as [| N]; [done |]. rewrite (Nat.mod_small (f_c f)) in EM by lia. cbn in EM. lia. }
  rewrite (proj2 (Nat.ltb_ge 0 (f_remaining f))) by lia.
  assert (bs = []) as ->.
  { rewrite H2, length_app, concat_length, length_take_le, Hc in El by (done || lia). destruct bs; [done | cbn in El; lia]. }
  rewrite H1. by destruct p.
Qed.

Lemma seed_32_ignored_witness : Seed (replicate 32 0xff) CreatePrng = CreatePrng.
Proof. apply seed_32_ignored; [apply fresh_prng_ok | | done]. apply Forall_replicate. by unfold is_u. Defined.

(** * Generate *)

(** The stream of the generator: the hash value, then the hash value after it absorbed itself. *)
Definition hash_bytes (H : list Z) : list Z := H ≫= be_bytes 4.
Definition next_hash (H : list Z) : list Z := Fips.compress H (hash_bytes H ++ replicate 32 0).
Fixpoint hash_stream (n : nat) (H : list Z) : list Z :=
  match n with
  | O => []
  | S n => hash_bytes H ++ hash_stream n (next_hash H)
  end.

Lemma hash_bytes_ok H : length H = 8%nat → length (hash_bytes H) = 32%nat ∧ bytes_ok (hash_bytes H).
Proof.
  intros Hl. unfold hash_bytes, bytes_ok. do 8 (destruct H as [| ? H]; [done |]). destruct H; [| done]. cbn [mbind list_bind]. split.
  - by rewrite !length_app, !be_bytes_length.
  - repeat apply Forall_app_2; apply be_bytes_range || constructor.
Qed.

(** The generator after the result is taken. *)
Definition taken (p : prng) : prng := Prng (hashf p) (sha256_Result (hashf p)).

Lemma taken_ok p : prng_ok p → prng_ok (taken p) ∧ feedback (taken p) = hash_bytes (sh_hv (hashf p)).
Proof.
  intros [P1 P2 P3]. unfold taken. cbn [feedback]. rewrite Result_spec by done.
  destruct (hash_bytes_ok (sh_hv (hashf p)) (so_len _ P1)) as [E1 E2]. by split; [split |].
Qed.

(** Reseeding with nothing absorbs the result taken last. *)
Lemma reseed p :
  prng_ok p → feedback p = hash_bytes (sh_hv (hashf p)) →
  prng_ok (Seed [] p) ∧ sh_hv (hashf (Seed [] p)) = next_hash (sh_hv (hashf p)).
Proof.
  intros Hp Hf. destruct (seed_absorbs [] p Hp) as (E1 & E2 & E3); [constructor | done |]. split; [done |]. rewrite E3.
  unfold seed_padded, next_hash. rewrite app_nil_r, Hf. destruct (hash_bytes_ok _ (so_len _ (prng_hash p Hp))) as [E _].
  rewrite E. set (b := hash_bytes _ ++ _). assert (length b = 64)%nat as Eb by (unfold b; by rewrite length_app, E, length_replicate).
  change (32 `mod` 64)%nat with 32%nat. change (64 - 32)%nat with 32%nat. fold b. rewrite Eb. cbn [Nat.div Nat.divmod fst Fips.blocks foldl].
  by rewrite take_ge by lia.
Qed.

(** How many results [len] bytes take. *)
Definition results (len : nat) : nat := ((len + 31) / 32)%nat.

Lemma results_step len : (32 < len)%nat → results len = S (results (len - 32)).
Proof.
  intros Hl. unfold results. replace (len + 31)%nat with (len - 32 + 31 + 1 * 32)%nat by lia.
  rewrite Nat.div_add by done. lia.
Qed.

Lemma results_one len : (0 < len ≤ 32)%nat → results len = 1%nat.
Proof. intros Hl. unfold results. symmetry. apply (Nat.div_unique _ _ _ (len - 1)); lia. Qed.

Lemma stream_more len H : length H = 8%nat → (32 < len)%nat →
  take len (hash_stream (results len) H) = hash_bytes H ++ take (len - 32) (hash_stream (results (len - 32)) (next_hash H)).
Proof.
  intros HH Hl. rewrite results_step by done. cbn [hash_stream]. destruct (hash_bytes_ok H HH) as [E _].
  rewrite take_app_ge by lia. by rewrite E.
Qed.

Lemma stream_last len H : length H = 8%nat → (0 < len ≤ 32)%nat → take len (hash_stream (results len) H) = take len (hash_bytes H).
Proof. intros HH Hl. rewrite results_one by done. cbn [hash_stream]. by rewrite app_nil_r. Qed.

Lemma Generate_loop_spec fuel len p :
  prng_ok p → feedback p = hash_bytes (sh_hv (hashf p)) → (0 < len)%nat → (results len ≤ fuel)%nat →
  let H := sh_hv (hashf p) in
  ∃ p', Generate_loop fuel len p = Ret (take len (hash_stream (results len) (next_hash H)), p') ∧
    prng_ok p' ∧ sh_hv (hashf p') = Nat.iter (results len) next_hash H.
Proof.
  revert len p. induction fuel as [| fuel IH]; intros len p Hp Hf Hl Hfu H.
  { destruct (decide (len ≤ 32)%nat); [rewrite results_one in Hfu by lia | rewrite results_step in Hfu by lia]; lia. }
  cbn [Generate_loop]. rewrite (proj2 (Nat.ltb_lt 0 len)) by done. fold (taken (Seed [] p)).
  destruct (reseed p Hp Hf) as [R1 R2]. destruct (taken_ok _ R1) as [T1 T2]. fold H in R2.
  pose proof (Result_spec _ (prng_hash _ R1)) as ER. rewrite R2 in ER. fold (hash_bytes (next_hash H)) in ER.
  assert (length (next_hash H) = 8)%nat as HL by (rewrite <- R2; apply so_len, R1).
  destruct (Nat.ltb_spec 32 len) as [L | L].
  - rewrite results_step in Hfu by done. rewrite stream_more, ER by done.
    destruct (IH (len - 32)%nat (taken (Seed [] p)) T1 T2) as (p' & -> & Hp' & EH); [lia | lia |].
    cbn [taken hashf] in EH |- *. rewrite R2 in EH |- *. exists p'. cbn [mbind outcome_bind fst snd]. split; [done |]. split; [done |].
    by rewrite EH, (results_step len), Nat.iter_succ_r by done.
  - rewrite stream_last, ER by (done || lia). exists (taken (Seed [] p)). split; [done |]. split; [done |].
    cbn [taken hashf]. by rewrite R2, results_one by lia.
Qed.

Lemma next_hash_length H : length H = 8%nat → length (next_hash H) = 8%nat.
Proof. intros Hl. unfold next_hash, Fips.compress. by rewrite length_zip_with, Hl. Qed.

Lemma hash_stream_length n H : length H = 8%nat → length (hash_stream n H) = (32 * n)%nat.
Proof.
  revert H. induction n as [| n IH]; intros H Hl; [done |]. cbn [hash_stream].
  rewrite length_app, (proj1 (hash_bytes_ok H Hl)), IH by (by apply next_hash_length). lia.
Qed.

Lemma results_enough len : (len ≤ 32 * results len)%nat.
Proof. unfold results. pose proof (Nat.div_mod_eq (len + 31) 32). pose proof (Nat.mod_upper_bound (len + 31) 32). lia. Qed.

(** C38: Generate returns exactly the number of bytes asked for, and they are the stream of hash values
    in which each absorbs the one before it; the fuel that is enough is one unit for each 32 bytes. *)
Theorem generate_correct fuel len p :
  prng_ok p → (0 < len)%nat → (results len ≤ S fuel)%nat →
  let H := sh_hv (hashf p) in
  ∃ p', Generate fuel len p = Ret (take len (hash_stream (results len) H), p') ∧
    length (take len (hash_stream (results len) H)) = len ∧
    prng_ok p' ∧ sh_hv (hashf p') = Nat.iter (results len - 1) next_hash H.
Proof.
  intros Hp Hl Hf H. pose proof (so_len _ (prng_hash p Hp)) as HL. fold H in HL.
  assert (length (take len (hash_stream (results len) H)) = len) as EL.
  { rewrite length_take_le; [done |]. rewrite hash_stream_length by done. apply results_enough. }
  unfold Generate. rewrite (proj2 (Nat.eqb_neq len 0)) by lia. fold (taken p). destruct (taken_ok p Hp) as [T1 T2].
  pose proof (Result_spec _ (prng_hash p Hp)) as ER. fold H in ER. fold (hash_bytes H) in ER.
  destruct (Nat.ltb_spec 32 len) as [L | L].
  - rewrite results_step in Hf by done.
    destruct (Generate_loop_spec fuel (len - 32) (taken p) T1 T2) as (p' & E & Hp' & EH); [lia | lia |].
    exists p'. rewrite E, ER. cbn [mbind outcome_bind fst snd]. split; [by rewrite (stream_more len H) | split; [done | split; [done |]]].
    rewrite EH, (results_step len) by done. by rewrite Nat.sub_succ, Nat.sub_0_r.
  - exists (taken p). rewrite ER. split; [by rewrite stream_last by lia | split; [done | split; [done |]]].
    by rewrite results_one by lia.
Qed.

Lemma generate_correct_witness :
  ∃ p', Generate 2 80 CreatePrng = Ret (take 80 (hash_stream 3 initial_hash), p') ∧
    length (take 80 (hash_stream 3 initial_hash)) = 80%nat ∧
    prng_ok p' ∧ sh_hv (hashf p') = Nat.iter 2 next_hash initial_hash.
Proof. apply (generate_correct 2 80 CreatePrng); [apply fresh_prng_ok | lia | done]. Defined.

(** the generator of the kernel is never given a seed: the first bytes GetRandom returns are the same
    after every boot. *)
Theorem getrandom_predictable :
  ∃ g, GetRandom 1 8 None = Ret ([0xda; 0x56; 0x98; 0xbe; 0x17; 0xb9; 0xb4; 0x69], Some g).
Proof. eexists. vm_compute. reflexivity. Qed.
