(* ===== verification/Crc32.v ===== *)
(** kernel/blockdevs/hashfunc: CRC-32 by table, compared with the division by the polynomial bit by bit. *)
From S2P Require Import Prelude.

Local Open Scope Z_scope.

(** * The code *)

Definition poly : Z := 0xEDB88320.

(** The body of the loop of crc32_value, on [crcnum] and [result]. *)
Definition crc32_bit (st : Z * Z) : Z * Z :=
  let '(crcnum, result) := st in
  let bit := negb (Z.land (Z.lxor crcnum result) 1 =? 0) in
  let result := Z.shiftr result 1 in
  (Z.shiftr crcnum 1, if bit then Z.lxor result poly else result).

Definition crc32_value (crcnum : Z) : Z := snd (Nat.iter 8 crc32_bit (crcnum, 0)).

(** crc32table *)
Definition crcvalues : list Z := crc32_value <$> seqZ 0 256.

Definition crc32_tablevalue_idx (crc byte : Z) : Z := Z.lxor (Z.land crc 0xFF) byte.
Definition crc32_iteration (crc tablevalue : Z) : Z := Z.lxor tablevalue (crc / 256).
Definition crc32_initialize : Z := 0xFFFFFFFF.
Definition crc32_finalize (crc : Z) : Z := Z.lxor crc 0xFFFFFFFF.

(** crc32::encode of a byte; the index of the table is a byte. *)
Definition crc32_encode (state byte : Z) : outcome Z :=
  let tblidx := crc32_tablevalue_idx state byte in
  v ← rd crcvalues (u8 tblidx);
  Ret (crc32_iteration state v).

(** byte_hashfunc::encode of a buffer *)
Fixpoint crc32_encode_all (state : Z) (bytes : list Z) : outcome Z :=
  match bytes with
  | [] => Ret state
  | b :: bytes => state ← crc32_encode state b; crc32_encode_all state bytes
  end.

Definition crc32 (bytes : list Z) : outcome Z :=
  state ← crc32_encode_all crc32_initialize bytes;
  Ret (crc32_finalize state).

(** * Division bit by bit *)

Definition shift_bit (s : Z) : Z := if Z.odd s then Z.lxor (Z.shiftr s 1) poly else Z.shiftr s 1.
Definition shift_byte (s b : Z) : Z := Nat.iter 8 shift_bit (Z.lxor s b).
Definition crc_reference (bytes : list Z) : Z := Z.lxor (foldl shift_byte (2 ^ 32 - 1) bytes) (2 ^ 32 - 1).

Lemma land_1_odd x : negb (Z.land x 1 =? 0) = Z.odd x.
Proof.
  change 1 with (Z.ones 1). rewrite Z.land_ones by lia. change (2 ^ 1) with 2. rewrite Zmod_odd. by destruct (Z.odd x).
Qed.

Lemma odd_lxor x y : Z.odd (Z.lxor x y) = xorb (Z.odd x) (Z.odd y).
Proof. rewrite <- !Z.bit0_odd. apply Z.lxor_spec. Qed.

(** The loop of [crc32_value] keeps the state of the division without the bits not yet shifted out. *)
Lemma crc32_bits_spec n s l :
  0 ≤ s → (∀ i, 0 ≤ i < Z.of_nat n → Z.testbit l i = Z.testbit s i) →
  Nat.iter n crc32_bit (l, 0) = (Z.shiftr l (Z.of_nat n), Z.lxor (Nat.iter n shift_bit s) (Z.shiftr s (Z.of_nat n))).
Proof.
  intros Hs. induction n as [| n IH]; intros Hl.
  { cbn [Nat.iter]. rewrite !Z.shiftr_0_r, Z.lxor_nilpotent. done. }
  rewrite !Nat.iter_succ, IH by (intros i Hi; apply Hl; lia). set (r := Nat.iter n shift_bit s). cbn [crc32_bit].
  rewrite land_1_odd, !Z.shiftr_shiftr, Z.shiftr_lxor, Z.shiftr_shiftr by lia.
  replace (Z.of_nat n + 1) with (Z.of_nat (S n)) by lia. f_equal.
  assert (Z.odd (Z.lxor (Z.shiftr l (Z.of_nat n)) (Z.lxor r (Z.shiftr s (Z.of_nat n)))) = Z.odd r) as ->.
  { rewrite !odd_lxor, <- !Z.bit0_odd, !Z.shiftr_spec by lia. rewrite Z.add_0_l, Hl by lia.
    by destruct (Z.testbit s (Z.of_nat n)), (Z.testbit r 0). }
  unfold shift_bit. destruct (Z.odd r); [| done]. rewrite !Z.lxor_assoc. f_equal. apply Z.lxor_comm.
Qed.

Lemma crc32_value_spec s : 0 ≤ s → Z.lxor (crc32_value (Z.land s 0xFF)) (s / 256) = Nat.iter 8 shift_bit s.
Proof.
  intros Hs. unfold crc32_value. rewrite (crc32_bits_spec 8 s) by (done || (intros i Hi;
    change 0xFF with (Z.ones 8); rewrite Z.land_spec, Z.ones_spec_low by lia; apply andb_true_r)).
  cbn [snd]. change 256 with (2 ^ 8). rewrite <- Z.shiftr_div_pow2 by lia. change (Z.of_nat 8) with 8.
  by rewrite Z.lxor_assoc, Z.lxor_nilpotent, Z.lxor_0_r.
Qed.

Lemma lxor_range w x y : 0 ≤ w → is_u w x → is_u w y → is_u w (Z.lxor x y).
Proof.
  unfold is_u. intros Hw Hx Hy. assert (0 ≤ Z.lxor x y) as H0 by (apply Z.lxor_nonneg; lia). split; [done |].
  destruct (decide (Z.lxor x y = 0)) as [-> | N]; [lia |]. apply Z.log2_lt_pow2; [lia |].
  pose proof (Z.log2_lxor x y ltac:(lia) ltac:(lia)). assert (∀ z, 0 ≤ z < 2 ^ w → w ≠ 0 → Z.log2 z < w) as L.
  { intros z Hz Hw0. destruct (decide (z = 0)) as [-> |]; [cbn; lia |]. apply Z.log2_lt_pow2; lia. }
  destruct (decide (w = 0)) as [-> | Hw0]; [assert (x = 0) as -> by lia; assert (y = 0) as -> by lia; done |].
  pose proof (L x Hx Hw0). pose proof (L y Hy Hw0). lia.
Qed.

Lemma shift_bit_range s : is_u 32 s → is_u 32 (shift_bit s).
Proof.
  intros Hs. assert (is_u 32 (Z.shiftr s 1)) as H.
  { unfold is_u in *. rewrite Z.shiftr_div_pow2 by lia. change (2 ^ 1) with 2. split; [apply Z.div_pos; lia | apply Z.div_lt_upper_bound; lia]. }
  unfold shift_bit. destruct (Z.odd s); [| done]. apply lxor_range; [lia | done | by unfold is_u].
Qed.

Lemma shift_bits_range n s : is_u 32 s → is_u 32 (Nat.iter n shift_bit s).
Proof. intros Hs. induction n as [| n IH]; [done |]. rewrite Nat.iter_succ. by apply shift_bit_range. Qed.

Lemma byte_word b : is_u 8 b → is_u 32 b.
Proof. unfold is_u. lia. Qed.

Lemma shift_byte_range s b : is_u 32 s → is_u 8 b → is_u 32 (shift_byte s b).
Proof. intros Hs Hb. apply shift_bits_range, lxor_range; [lia | done | by apply byte_word]. Qed.

Lemma table_lookup i : 0 ≤ i < 256 → rd crcvalues i = Ret (crc32_value i).
Proof.
  intros Hi. unfold rd, crcvalues. rewrite list_lookup_fmap, lookup_seqZ_lt by lia. cbn [fmap option_fmap option_map]. do 2 f_equal. lia.
Qed.

Lemma crc32_encode_spec s b : is_u 32 s → is_u 8 b → crc32_encode s b = Ret (shift_byte s b).
Proof.
  intros Hs Hb. unfold crc32_encode, crc32_tablevalue_idx.
  assert (Z.lxor (Z.land s 0xFF) b = Z.land (Z.lxor s b) 0xFF) as ->.
  { change 0xFF with (Z.ones 8). rewrite !Z.land_ones by lia. apply Z.bits_inj'. intros i Hi.
    rewrite Z.lxor_spec. destruct (decide (i < 8)).
    - rewrite !Z.mod_pow2_bits_low by lia. by rewrite Z.lxor_spec.
    - rewrite !Z.mod_pow2_bits_high by lia. rewrite (Z.bits_above_log2 b i); [done | apply Hb |].
      destruct (decide (b = 0)) as [-> |]; [cbn; lia |]. apply Z.log2_lt_pow2; [unfold is_u in Hb; lia |].
      unfold is_u in Hb. apply (Z.lt_le_trans _ (2 ^ 8)); [lia | apply Z.pow_le_mono_r; lia]. }
  set (x := Z.lxor s b). assert (is_u 32 x) as Hx by (apply lxor_range; [lia | done | by apply byte_word]).
  assert (0 ≤ Z.land x 0xFF < 256) as Hi.
  { change 0xFF with (Z.ones 8). rewrite Z.land_ones by lia. apply Z.mod_pos_bound. lia. }
  assert (u8 (Z.land x 0xFF) = Z.land x 0xFF) as -> by (unfold wrap; apply Z.mod_small; lia).
  rewrite table_lookup by done. cbn [mbind outcome_bind]. unfold crc32_iteration, shift_byte. fold x. f_equal.
  rewrite <- (crc32_value_spec x) by apply Hx. f_equal. unfold x. change 256 with (2 ^ 8).
  rewrite <- !Z.shiftr_div_pow2, Z.shiftr_lxor by lia. rewrite (Z.shiftr_div_pow2 b) by lia.
  rewrite (Z.div_small b) by apply Hb. by rewrite Z.lxor_0_r.
Qed.

Lemma crc32_all_spec s bytes :
  is_u 32 s → Forall (is_u 8) bytes → crc32_encode_all s bytes = Ret (foldl shift_byte s bytes) ∧ is_u 32 (foldl shift_byte s bytes).
Proof.
  intros Hs Hb. revert s Hs. induction Hb as [| b bytes Hb _ IH]; intros s Hs; [done |]. cbn [crc32_encode_all foldl].
  rewrite crc32_encode_spec by done. cbn [mbind outcome_bind]. apply IH. by apply shift_byte_range.
Qed.

Lemma crc32_spec bytes : Forall (is_u 8) bytes → crc32 bytes = Ret (crc_reference bytes).
Proof.
  intros Hb. unfold crc32. destruct (crc32_all_spec crc32_initialize bytes) as [-> _]; [by unfold is_u | done |]. done.
Qed.

(** the CRC computed by table is the remainder of the division by the CRC-32 polynomial, bit by bit, for every buffer. *)
Theorem crc32_correct bytes : Forall (is_u 8) bytes → crc32 bytes = Ret (crc_reference bytes).
Proof. apply crc32_spec. Qed.

(** The check value of the CRC-32 of the digits 1 to 9. *)
Lemma crc32_correct_witness :
  crc32 [49; 50; 51; 52; 53; 54; 55; 56; 57] = Ret (crc_reference [49; 50; 51; 52; 53; 54; 55; 56; 57]) ∧
  crc_reference [49; 50; 51; 52; 53; 54; 55; 56; 57] = 0xCBF43926.
Proof. split; [| by vm_compute]. apply crc32_correct. repeat constructor; by unfold is_u. Defined.

(** * What it detects *)

Lemma high_bit s : is_u 32 s → Z.testbit (shift_bit s) 31 = Z.odd s.
Proof.
  intros Hs. assert (Z.testbit (Z.shiftr s 1) 31 = false) as H.
  { rewrite Z.shiftr_spec by lia. destruct (decide (s = 0)) as [-> |]; [done |]. apply Z.bits_above_log2; [apply Hs |].
    apply Z.log2_lt_pow2; [unfold is_u in Hs; lia | apply Hs]. }
  unfold shift_bit. destruct (Z.odd s); [| done]. by rewrite Z.lxor_spec, H.
Qed.

Lemma shift_bit_inj s t : is_u 32 s → is_u 32 t → shift_bit s = shift_bit t → s = t.
Proof.
  intros Hs Ht E. assert (Z.odd s = Z.odd t) as Eo by (rewrite <- !high_bit, E; done).
  assert (Z.shiftr s 1 = Z.shiftr t 1) as Es.
  { unfold shift_bit in E. rewrite Eo in E. destruct (Z.odd t); [| done].
    apply (f_equal (fun x => Z.lxor x poly)) in E. by rewrite !Z.lxor_assoc, Z.lxor_nilpotent, !Z.lxor_0_r in E. }
  rewrite !Z.shiftr_div_pow2 in Es by lia. change (2 ^ 1) with 2 in Es.
  rewrite (Z.div_mod s 2), (Z.div_mod t 2), Es, !Zmod_odd, Eo by lia. done.
Qed.

Lemma shift_bits_inj n s t : is_u 32 s → is_u 32 t → Nat.iter n shift_bit s = Nat.iter n shift_bit t → s = t.
Proof.
  intros Hs Ht. induction n as [| n IH]; [done |]. rewrite !Nat.iter_succ. intros E. apply IH.
  apply shift_bit_inj; [by apply shift_bits_range | by apply shift_bits_range | done].
Qed.

Lemma lxor_cancel a x y : Z.lxor a x = Z.lxor a y → x = y.
Proof.
  intros E. apply (f_equal (Z.lxor a)) in E. by rewrite <- !Z.lxor_assoc, Z.lxor_nilpotent, !Z.lxor_0_l in E.
Qed.

Lemma shift_byte_inj s t x y :
  is_u 32 s → is_u 32 t → is_u 8 x → is_u 8 y → shift_byte s x = shift_byte t y → Z.lxor s x = Z.lxor t y.
Proof.
  intros Hs Ht Hx Hy. apply shift_bits_inj; (apply lxor_range; [lia | done | by apply byte_word]).
Qed.

Lemma shift_all_inj s t bytes :
  is_u 32 s → is_u 32 t → Forall (is_u 8) bytes → foldl shift_byte s bytes = foldl shift_byte t bytes → s = t.
Proof.
  intros Hs Ht Hb. revert s t Hs Ht. induction Hb as [| b bytes Hb _ IH]; intros s t Hs Ht E; [done |]. cbn [foldl] in E.
  apply IH in E; [| by apply shift_byte_range ..]. apply shift_byte_inj in E; [| done ..].
  rewrite !(Z.lxor_comm _ b) in E. by apply lxor_cancel in E.
Qed.

(** the CRC detects every change of a single byte, wherever it is in the buffer. *)
Theorem crc32_detects_byte before x y after :
  Forall (is_u 8) before → is_u 8 x → is_u 8 y → Forall (is_u 8) after → x ≠ y →
  crc32 (before ++ x :: after) ≠ crc32 (before ++ y :: after).
Proof.
  intros Hb Hx Hy Ha N E. unfold crc32 in E. assert (is_u 32 crc32_initialize) as H0 by (by unfold is_u).
  assert (∀ b, is_u 8 b → Forall (is_u 8) (before ++ b :: after)) as Hall by (intros b Hb'; apply Forall_app_2; [done | by constructor]).
  rewrite (proj1 (crc32_all_spec _ _ H0 (Hall x Hx))), (proj1 (crc32_all_spec _ _ H0 (Hall y Hy))) in E.
  cbn [mbind outcome_bind] in E. injection E as E. unfold crc32_finalize in E. rewrite !(Z.lxor_comm _ 0xFFFFFFFF) in E.
  apply lxor_cancel in E. rewrite !foldl_app in E. cbn [foldl] in E.
  pose proof (proj2 (crc32_all_spec _ _ H0 Hb)) as Hs. set (s := foldl shift_byte crc32_initialize before) in *.
  apply shift_all_inj in E; [| by apply shift_byte_range .. | done]. apply shift_byte_inj in E; [| done ..]. by apply lxor_cancel in E.
Qed.

Lemma crc32_detects_byte_witness : crc32 ([1; 2] ++ 3 :: [4]) ≠ crc32 ([1; 2] ++ 5 :: [4]).
Proof. apply crc32_detects_byte; [| | | | done]; try (repeat constructor); by unfold is_u. Defined.
