(* ===== verification/Partitions.v ===== *)
(** kernel/blockdevs/blockdevs: partition tables.  A block device is an interface; a partition is a block
    device on a range of another one; the MBR and GPT readers take whatever is on the disk. *)
From S2P Require Import Prelude Endian Crc32.

Local Open Scope Z_scope.

(** * Block devices *)

(** class blockdev, for reading: [bd_read blocknum blocks] is null or the bytes. *)
Record blockdev := BlockDev {
  bd_blocksize : Z;
  bd_numblocks : Z;
  bd_read : Z → Z → option (list Z);
}.

(** What a block device promises: a read gives whole blocks, no more than asked for, of bytes. *)
Class BlockDevLaws (d : blockdev) : Prop := {
  bd_blocksize_pos : 0 < bd_blocksize d < 2 ^ 32;
  bd_read_whole n k l : 0 ≤ n → 0 ≤ k → bd_read d n k = Some l → ∃ j, 0 ≤ j ≤ k ∧ Z.of_nat (length l) = j * bd_blocksize d;
  bd_read_bytes n k l : bd_read d n k = Some l → Forall (is_u 8) l;
}.

(** offset_blockdev: the blocks that are asked of the device below, for a read and for a write. *)
Definition offset_range (offset size blocknum blocks : Z) : option (Z * Z) :=
  if size <=? blocknum then None else
  let blocks := if size <=? u64 (blocknum + blocks) then size - blocknum else blocks in
  Some (u64 (blocknum + offset), blocks).

Definition offset_blockdev (upstream : blockdev) (offset size : Z) : blockdev := {|
  bd_blocksize := bd_blocksize upstream;
  bd_numblocks := size;
  bd_read blocknum blocks :=
    match offset_range offset size blocknum blocks with
    | None => None
    | Some (n, k) => bd_read upstream n k
    end;
|}.

(** offset_blockdev::WriteBlock over the WriteBlock of the device below. *)
Definition offset_write {S} (write : Z → Z → S → Z * S) (offset size blocknum blocks : Z) (s : S) : Z * S :=
  match offset_range offset size blocknum blocks with
  | None => (0, s)
  | Some (n, k) => write n k s
  end.

#[export] Instance offset_blockdev_laws d offset size : BlockDevLaws d → BlockDevLaws (offset_blockdev d offset size).
Proof.
  intros [L1 L2 L3]. split; cbn; [done | |]; intros n k l.
  - unfold offset_range. intros Hn Hk. destruct (Z.leb_spec size n) as [| Hs]; [done |].
    assert (0 ≤ (if size <=? u64 (n + k) then size - n else k) ≤ k) as Hk'.
    { unfold wrap. pose proof (Z.mod_le (n + k) (2 ^ 64) ltac:(lia) ltac:(lia)). destruct (Z.leb_spec size ((n + k) mod 2 ^ 64)); lia. }
    intros E. apply L2 in E as (j & Hj & El); [| apply Z.mod_pos_bound; lia | apply Hk']. exists j. split; [lia | done].
  - destruct (offset_range offset size n k) as [[n' k'] |]; [| done]. apply L3.
Qed.

(** a partition confines its users: a read or a write of blocks of it, whose number does not run past 2^64,
    asks only for blocks of its range of the device below, of those it was asked for, and for all of these that it has. *)
Theorem offset_confined offset size n k :
  0 ≤ n → 0 < k → n + k < 2 ^ 64 → 0 ≤ offset → 0 ≤ size → offset + size ≤ 2 ^ 64 →
  match offset_range offset size n k with
  | None => size ≤ n
  | Some (n', k') => n' = offset + n ∧ offset ≤ n' ∧ n' + k' ≤ offset + size ∧ k' = Z.min k (size - n) ∧ 0 < k'
  end.
Proof.
  intros Hn Hk Hnk Ho Hs Hos. unfold offset_range. destruct (Z.leb_spec size n) as [H | H]; [done |].
  unfold wrap. rewrite !(Z.mod_small (n + _)) by lia. destruct (Z.leb_spec size (n + k)); lia.
Qed.

Lemma offset_confined_witness : offset_range 100 50 40 20 = Some (140, 10) ∧ (140 = 100 + 40 ∧ 100 ≤ 140 ∧ 140 + 10 ≤ 100 + 50 ∧ 10 = Z.min 20 (50 - 40) ∧ 0 < 10).
Proof. split; [done |]. apply (offset_confined 100 50 40 20); lia. Defined.

(** a number of blocks that makes the sum run past 2^64 is passed on unchanged: the partition does not confine it. *)
Theorem offset_range_wraps : offset_range 100 50 10 (2 ^ 64 - 5) = Some (110, 2 ^ 64 - 5).
Proof. done. Qed.

(** * MBR *)

(** [n] bytes at [off] of a buffer. *)
Definition slice (off n : Z) (buf : list Z) : outcome (list Z) :=
  if off + n <=? Z.of_nat (length buf) then Ret (take (Z.to_nat n) (drop (Z.to_nat off) buf)) else OutOfBounds.

(** A little-endian field of [n] bytes. *)
Definition field (off n : Z) (buf : list Z) : outcome Z := b ← slice off n buf; Ret (le_word b).

(** parttable_entry: offset, size and type *)
Record part := Part { pt_offset : Z; pt_size : Z; pt_type : Z }.

(** mbr_parttable: the entries [i] to [i + n] of the table at 0x1BE *)
Fixpoint mbr_entries (n : nat) (i blockSize : Z) (mbr : list Z) : outcome (list part) :=
  match n with
  | O => Ret []
  | S n =>
      let at_ := 0x1BE + 16 * i in
      type ← field (at_ + 4) 1 mbr;
      lbaStart ← field (at_ + 8) 4 mbr;
      sizeSectors ← field (at_ + 12) 4 mbr;
      let start := lbaStart * 512 / blockSize in
      let size := sizeSectors * 512 / blockSize in
      l ← mbr_entries n (i + 1) blockSize mbr;
      Ret (if (start =? 0) || (size =? 0) then l else Part start size type :: l)
  end.

(** The loop of ReadExtendedPartition over the entries, where [nested] is ReadParttable of an extended partition. *)
Fixpoint extended_entries (nested : Z → Z → outcome (option (list part))) (entries : list part) : outcome (list part) :=
  match entries with
  | [] => Ret []
  | e :: entries =>
      if negb (pt_type e =? 5) && negb (pt_type e =? 0xF) then extended_entries nested entries
      else if (pt_offset e =? 0) || (pt_size e =? 0) then extended_entries nested entries
      else
        r ← nested (pt_offset e) (pt_size e);
        match r with
        | None => OutOfBounds
        | Some ext =>
            l ← extended_entries nested entries;
            Ret (((fun x => Part (u64 (pt_offset x + pt_offset e)) (pt_size x) (pt_type x)) <$> ext) ++ l)
        end
  end.

(** mbr_reader::ReadParttable; a level of extended partitions takes a unit of fuel. *)
Fixpoint mbr_ReadParttable (fuel : nat) (d : blockdev) (extendedPartition : bool) : outcome (option (list part)) :=
  match fuel with
  | O => OutOfFuel
  | S fuel =>
      let bs := bd_blocksize d in
      let blocksToRead := 512 / bs + (if 512 mod bs =? 0 then 0 else 1) in
      match bd_read d 0 blocksToRead with
      | None => Ret None
      | Some mbr =>
          if Z.of_nat (length mbr) <? 512 then Ret None else
          b1 ← field 0x1FE 1 mbr;
          b2 ← field 0x1FF 1 mbr;
          if negb (b1 =? 0x55) || negb (b2 =? 0xAA) then Ret None else
          entries ← mbr_entries (if extendedPartition then 2 else 4) 0 bs mbr;
          ext ← extended_entries (fun offset size => mbr_ReadParttable fuel (offset_blockdev d offset size) true) entries;
          Ret (Some (entries ++ ext))
      end
  end.

(** ** Reading the table *)

Lemma slice_in off n buf : 0 ≤ off → 0 ≤ n → off + n ≤ Z.of_nat (length buf) → slice off n buf = Ret (take (Z.to_nat n) (drop (Z.to_nat off) buf)).
Proof. intros. unfold slice. by rewrite (proj2 (Z.leb_le _ _)). Qed.

Definition get_field (off n : Z) (buf : list Z) : Z := le_word (take (Z.to_nat n) (drop (Z.to_nat off) buf)).

Lemma field_in off n buf : 0 ≤ off → 0 ≤ n → off + n ≤ Z.of_nat (length buf) → field off n buf = Ret (get_field off n buf).
Proof. intros. unfold field. by rewrite slice_in. Qed.

Lemma get_field_range off n buf : 0 ≤ n → Forall (is_u 8) buf → 0 ≤ get_field off n buf < 256 ^ n.
Proof.
  intros Hn Hb. unfold get_field. set (l := take _ _). assert (Forall (is_u 8) l) as Hl by (by apply Forall_take, Forall_drop).
  pose proof (le_word_range l Hl) as [H1 H2]. split; [done |]. apply (Z.lt_le_trans _ _ _ H2). apply Z.pow_le_mono_r; [lia |].
  unfold l. rewrite length_take. lia.
Qed.

(** The entry [i] of the table, when it is in use. *)
Definition mbr_entry (bs : Z) (mbr : list Z) (i : Z) : option part :=
  let at_ := 0x1BE + 16 * i in
  let start := get_field (at_ + 8) 4 mbr * 512 / bs in
  let size := get_field (at_ + 12) 4 mbr * 512 / bs in
  if (start =? 0) || (size =? 0) then None else Some (Part start size (get_field (at_ + 4) 1 mbr)).

Lemma mbr_entries_spec n i bs mbr :
  0 ≤ i → i + Z.of_nat n ≤ 4 → 512 ≤ Z.of_nat (length mbr) → mbr_entries n i bs mbr = Ret (omap (mbr_entry bs mbr) (seqZ i (Z.of_nat n))).
Proof.
  revert i. induction n as [| n IH]; intros i Hi Hn Hl; [done |]. cbn [mbr_entries].
  rewrite !field_in by lia. cbn [mbind outcome_bind]. rewrite IH by lia. cbn [mbind outcome_bind].
  rewrite (seqZ_cons i) by lia. replace (Z.pred (Z.of_nat (S n))) with (Z.of_nat n) by lia. change (Z.succ i) with (i + 1).
  cbn [omap list_omap]. unfold mbr_entry at 3. cbn zeta. by destruct ((_ =? 0) || _).
Qed.

Definition mbr_table (ext : bool) (bs : Z) (mbr : list Z) : list part := omap (mbr_entry bs mbr) (seqZ 0 (if ext then 2 else 4)).

Definition is_extended (e : part) : bool := (pt_type e =? 5) || (pt_type e =? 0xF).

Lemma mbr_entry_range bs mbr i e :
  0 < bs → Forall (is_u 8) mbr → mbr_entry bs mbr i = Some e → 0 < pt_offset e < 2 ^ 41 ∧ 0 < pt_size e < 2 ^ 41.
Proof.
  intros Hbs Hb. unfold mbr_entry. set (a := get_field _ 4 mbr). set (b := get_field (_ + 12) 4 mbr).
  assert (∀ x, 0 ≤ x < 256 ^ 4 → 0 ≤ x * 512 / bs < 2 ^ 41) as Hr.
  { intros x Hx. split; [apply Z.div_pos; lia |]. apply Z.div_lt_upper_bound; [lia |]. change (2 ^ 41) with (256 ^ 4 * 512). nia. }
  pose proof (Hr a (get_field_range _ 4 _ ltac:(lia) Hb)). pose proof (Hr b (get_field_range _ 4 _ ltac:(lia) Hb)).
  destruct (Z.eqb_spec (a * 512 / bs) 0), (Z.eqb_spec (b * 512 / bs) 0); try done. intros [= <-]. cbn. lia.
Qed.

Lemma mbr_table_range ext bs mbr e :
  0 < bs → Forall (is_u 8) mbr → e ∈ mbr_table ext bs mbr → 0 < pt_offset e < 2 ^ 41 ∧ 0 < pt_size e < 2 ^ 41.
Proof. intros Hbs Hb H. apply list_elem_of_omap in H as (i & _ & E). by apply mbr_entry_range in E. Qed.

(** The first block has a table. *)
Definition has_mbr (d : blockdev) (mbr : list Z) : Prop :=
  bd_read d 0 (512 / bd_blocksize d + (if 512 mod bd_blocksize d =? 0 then 0 else 1)) = Some mbr ∧
  512 ≤ Z.of_nat (length mbr) ∧ get_field 0x1FE 1 mbr = 0x55 ∧ get_field 0x1FF 1 mbr = 0xAA.

Definition extended_of (fuel : nat) (d : blockdev) (offset size : Z) : outcome (option (list part)) :=
  mbr_ReadParttable fuel (offset_blockdev d offset size) true.

(** ReadParttable on every branch. *)
Lemma mbr_read_spec fuel d ext :
  (∃ mbr, has_mbr d mbr ∧ mbr_ReadParttable (S fuel) d ext =
     (let t := mbr_table ext (bd_blocksize d) mbr in x ← extended_entries (extended_of fuel d) t; Ret (Some (t ++ x)))) ∨
  ((∀ mbr, ¬ has_mbr d mbr) ∧ mbr_ReadParttable (S fuel) d ext = Ret None).
Proof.
  cbn [mbr_ReadParttable]. unfold has_mbr. set (n := 512 / bd_blocksize d + _).
  destruct (bd_read d 0 n) as [mbr |] eqn:R; [| right; split; [by intros mbr [? _] | done]].
  destruct (Z.ltb_spec (Z.of_nat (length mbr)) 512) as [L | L].
  { right. split; [| done]. intros mbr' [[= <-] [? _]]. lia. }
  rewrite !field_in by lia. cbn [mbind outcome_bind].
  destruct (Z.eqb_spec (get_field 0x1FE 1 mbr) 0x55) as [E1 | E1]; cbn [negb orb].
  2:{ right. split; [| done]. by intros mbr' [[= <-] [_ [? _]]]. }
  destruct (Z.eqb_spec (get_field 0x1FF 1 mbr) 0xAA) as [E2 | E2]; cbn [negb].
  2:{ right. split; [| done]. by intros mbr' [[= <-] [_ [_ ?]]]. }
  left. exists mbr. split; [done |]. rewrite mbr_entries_spec by (destruct ext; lia). cbn [mbind outcome_bind].
  unfold mbr_table. by destruct ext.
Qed.

Lemma no_extended nested entries : Forall (fun e => is_extended e = false) entries → extended_entries nested entries = Ret [].
Proof.
  induction 1 as [| e entries He _ IH]; [done |]. cbn [extended_entries]. unfold is_extended in He. apply orb_false_iff in He as [-> ->]. done.
Qed.

(** a disk without extended partitions: the partitions of its MBR are the used entries of the table in their order, with
    the start and the size in blocks of the device; without the signature there is no table. *)
Theorem mbr_correct fuel d :
  (∀ mbr, has_mbr d mbr → Forall (fun e => is_extended e = false) (mbr_table false (bd_blocksize d) mbr)) →
  (∃ mbr, has_mbr d mbr ∧ mbr_ReadParttable (S fuel) d false = Ret (Some (mbr_table false (bd_blocksize d) mbr))) ∨
  ((∀ mbr, ¬ has_mbr d mbr) ∧ mbr_ReadParttable (S fuel) d false = Ret None).
Proof.
  intros Hn. destruct (mbr_read_spec fuel d false) as [(mbr & Hm & E) | H]; [left | by right]. exists mbr. split; [done |].
  rewrite E. cbn zeta. rewrite no_extended by (by apply Hn). cbn [mbind outcome_bind]. by rewrite app_nil_r.
Qed.

(** Nothing is read of [d] from the block [m] on, at least not of the next 2^41. *)
Definition dead (d : blockdev) (m : Z) : Prop := ∀ n k, 0 ≤ n → m ≤ n < m + 2 ^ 41 → bd_read d n k = None.

Lemma dead_offset d m offset size :
  m ≤ 2 ^ 62 → 0 < offset < 2 ^ 41 → dead d m → dead (offset_blockdev d offset size) (m - offset).
Proof.
  intros Hm Ho Hd n k Hn Hmn. cbn. unfold offset_range. destruct (Z.leb_spec size n); [done |].
  apply Hd; unfold wrap; rewrite Z.mod_small; lia.
Qed.

Lemma extended_ends nested entries :
  (∀ e, e ∈ entries → nested (pt_offset e) (pt_size e) ≠ OutOfFuel) → extended_entries nested entries ≠ OutOfFuel.
Proof.
  induction entries as [| e entries IH]; intros H; [done |]. cbn [extended_entries].
  assert (extended_entries nested entries ≠ OutOfFuel) as IH' by (apply IH; intros x Hx; apply H; by right).
  destruct (negb _ && _); [done |]. destruct (_ || _); [done |]. specialize (H e ltac:(by left)).
  destruct (nested (pt_offset e) (pt_size e)) as [[ext |] | | |]; try done. cbn [mbind outcome_bind].
  by destruct (extended_entries nested entries).
Qed.

(** the reader returns or stops whatever is on the disk, in loops of extended partitions too: an extended partition
    begins behind the one that has its table, and behind the end of the disk there is nothing to read. *)
Theorem mbr_terminates fuel d ext m :
  BlockDevLaws d → dead d m → - 2 ^ 41 < m ≤ 2 ^ 62 → (Z.to_nat m < fuel)%nat → mbr_ReadParttable fuel d ext ≠ OutOfFuel.
Proof.
  revert d ext m. induction fuel as [| fuel IH]; intros d ext m L Hd Hm Hf; [lia |].
  destruct (mbr_read_spec fuel d ext) as [(mbr & [Hr Hmbr] & ->) | [_ ->]]; [| done].
  destruct (decide (m ≤ 0)) as [H | H]; [by rewrite Hd in Hr by lia |]. cbn zeta.
  assert (extended_entries (extended_of fuel d) (mbr_table ext (bd_blocksize d) mbr) ≠ OutOfFuel) as E.
  { apply extended_ends. intros e He. destruct (mbr_table_range ext (bd_blocksize d) mbr e) as [Ho Hs];
      [apply L | by apply bd_read_bytes in Hr | done |].
    apply (IH _ true (m - pt_offset e)); [apply _ | apply dead_offset; [lia | done | done] | lia | lia]. }
  by destruct (extended_entries _ _).
Qed.

(** ** Example disks *)

Definition mbr_line (type start size : Z) : list Z := [0; 0; 0; 0; type; 0; 0; 0] ++ le_bytes 4 start ++ le_bytes 4 size.
Definition mbr_block (lines : list (list Z)) : list Z :=
  replicate 446 0 ++ take 64 (concat lines ++ replicate 64 0) ++ [0x55; 0xAA].

Lemma zeros_ok n : Forall (is_u 8) (replicate n 0).
Proof. apply Forall_replicate. by unfold is_u. Qed.

Lemma mbr_line_ok type start size : is_u 8 type → Forall (is_u 8) (mbr_line type start size).
Proof.
  intros Ht. unfold mbr_line. repeat apply Forall_app_2; [| apply le_bytes_range ..]. 
  repeat (apply Forall_cons_2; [done || by unfold is_u |]). apply Forall_nil_2.
Qed.

Lemma mbr_block_ok lines : Forall (Forall (is_u 8)) lines → length (mbr_block lines) = 512%nat ∧ Forall (is_u 8) (mbr_block lines).
Proof.
  intros Hl. unfold mbr_block. split.
  - rewrite !length_app, length_take, length_app, !length_replicate. change (length [0x55; 0xAA]) with 2%nat. lia.
  - repeat apply Forall_app_2; [apply zeros_ok | apply Forall_take, Forall_app_2; [| apply zeros_ok] | repeat constructor; by unfold is_u].
    by apply Forall_concat.
Qed.

Definition empty_block : list Z := replicate 512 0.

Lemma empty_block_ok : length empty_block = 512%nat ∧ Forall (is_u 8) empty_block.
Proof. split; [apply length_replicate | apply zeros_ok]. Qed.

(** A disk of 1000 blocks of 512 bytes. *)
Definition disk (blocks : gmap Z (list Z)) : blockdev := {|
  bd_blocksize := 512; bd_numblocks := 1000;
  bd_read n k := if (0 <=? n) && (n <? 1000) && (k =? 1) then Some (default empty_block (blocks !! n)) else None |}.

Lemma disk_laws blocks : map_Forall (fun _ b => length b = 512%nat ∧ Forall (is_u 8) b) blocks → BlockDevLaws (disk blocks).
Proof.
  intros Hb. assert (∀ n l, Some (default empty_block (blocks !! n)) = Some l → length l = 512%nat ∧ Forall (is_u 8) l) as H.
  { intros n l [= <-]. destruct (blocks !! n) as [b |] eqn:E; [by apply Hb in E | apply empty_block_ok]. }
  split; cbn [disk bd_blocksize bd_read]; [done | |]; intros n k l.
  - intros _ _. destruct ((0 <=? n) && (n <? 1000)) eqn:?; cbn [andb]; [| done]. destruct (Z.eqb_spec k 1) as [-> |]; [| done].
    intros E. apply H in E as [E _]. exists 1. split; lia.
  - destruct ((0 <=? n) && (n <? 1000) && (k =? 1)); [| done]. intros E. by apply H in E as [_ E].
Qed.

Lemma disk_dead blocks : dead (disk blocks) 1000.
Proof. intros n k Hn Hm. cbn. rewrite (proj2 (Z.ltb_ge n 1000)) by lia. by rewrite andb_false_r. Qed.

Lemma mbr_correct_witness :
  (∃ mbr, has_mbr (disk {[0 := mbr_block [mbr_line 0x83 100 50]]}) mbr ∧
    mbr_ReadParttable 1 (disk {[0 := mbr_block [mbr_line 0x83 100 50]]}) false = Ret (Some (mbr_table false 512 mbr))) ∨
  ((∀ mbr, ¬ has_mbr (disk {[0 := mbr_block [mbr_line 0x83 100 50]]}) mbr) ∧
   mbr_ReadParttable 1 (disk {[0 := mbr_block [mbr_line 0x83 100 50]]}) false = Ret None).
Proof.
  apply (mbr_correct 0 (disk {[0 := mbr_block [mbr_line 0x83 100 50]]})). intros mbr (E & _). vm_compute in E. injection E as <-.
  vm_compute. repeat constructor.
Defined.

Lemma mbr_terminates_witness : mbr_ReadParttable 1001 (disk {[0 := mbr_block [mbr_line 5 1 50]; 1 := mbr_block [mbr_line 5 1 50]]}) false ≠ OutOfFuel.
Proof.
  apply (mbr_terminates 1001 _ false 1000); [| apply disk_dead | lia | lia].
  apply disk_laws. apply map_Forall_insert_2; [| apply map_Forall_singleton];
    apply mbr_block_ok, Forall_singleton, mbr_line_ok; by unfold is_u.
Defined.

(** an extended partition whose first block has no table is a null pointer that the reader follows. *)
Theorem mbr_empty_extended : mbr_ReadParttable 1001 (disk {[0 := mbr_block [mbr_line 5 100 50]]}) false = OutOfBounds.
Proof. by vm_compute. Qed.

(** three logical partitions, each table with the place of the next one from the start of the extended partition on,
    as it is on disks: the reader looks for the third table from the second one on, and follows a null pointer. *)
Theorem mbr_third_logical :
  mbr_ReadParttable 1001 (disk (list_to_map
    [(0, mbr_block [mbr_line 5 100 300]);
     (100, mbr_block [mbr_line 0x83 10 5; mbr_line 5 50 40]);
     (150, mbr_block [mbr_line 0x83 10 5; mbr_line 5 80 40]);
     (180, mbr_block [mbr_line 0x83 10 5])])) false = OutOfBounds.
Proof. by vm_compute. Qed.

(** * GPT *)

Definition gpt_signature : Z := 0x5452415020494645.
Definition sizeof_GptHeader : Z := 92.
Definition sizeof_GptPartEntry : Z := 128.

(** gpt_header_container::Resize, and the copy of the blocks to it *)
Definition header_size (newSize : Z) : Z := if newSize <? sizeof_GptHeader then sizeof_GptHeader else newSize.

(** The rest of a header that is longer than what was read first; null when it cannot be read. *)
Definition gpt_read_rest (d : blockdev) (lastgptblock headerSize : Z) (hdr : list Z) : outcome (option (list Z)) :=
  let bs := bd_blocksize d in
  let firstread := Z.of_nat (length hdr) in
  if firstread <? headerSize then
    let remainingSize := u32 (headerSize - firstread) in
    let remainingBlocks := u32 ((if 0 <? remainingSize mod bs then 1 else 0) + remainingSize / bs) in
    let readSize := u64 (remainingBlocks * bs) in
    match bd_read d (lastgptblock + 1) remainingBlocks with
    | None => Ret None
    | Some blocks =>
        if Z.of_nat (length blocks) <? readSize then Ret None else
        rest ← slice 0 readSize blocks;
        Ret (Some (hdr ++ rest))
    end
  else Ret (Some hdr).

(** The header with headerCrc32 as 0 *)
Definition without_crc (hdr : list Z) : list Z := take 16 hdr ++ [0; 0; 0; 0] ++ drop 20 hdr.

(** gpt_table_container: the number of its entries *)
Definition table_entries (size entrySize numEntries : Z) : Z :=
  let numEntries := if entrySize <? sizeof_GptPartEntry then 0 else numEntries in
  if size <? u64 (numEntries * entrySize) then size / entrySize else numEntries.

(** gpt_parttable: [n] entries from [i] on *)
Fixpoint gpt_entries (n : nat) (i blockSize entrySize : Z) (table : list Z) : outcome (list part) :=
  match n with
  | O => Ret []
  | S n =>
      entry ← slice (u64 (i * entrySize)) sizeof_GptPartEntry table;
      firstLba ← field 32 8 entry;
      lastLba ← field 40 8 entry;
      l ← gpt_entries n (i + 1) blockSize entrySize table;
      Ret (if (firstLba =? 0) || (lastLba =? 0) then l
           else Part (u64 (firstLba * 512) / blockSize) (u64 (u64 (lastLba - firstLba + 1) * 512) / blockSize) 0 :: l)
  end.

(** The table that the header [hdr] names; null when it cannot be read or its checksum is wrong. *)
Definition gpt_read_table (d : blockdev) (hdr : list Z) : outcome (option (list part)) :=
  let bs := bd_blocksize d in
  startingLba ← field 72 8 hdr;
  numPartitions ← field 80 4 hdr;
  sizeOfPartitionEntry ← field 84 4 hdr;
  tableCrc ← field 88 4 hdr;
  let partoffset := u64 (startingLba * 512) in
  let parttable_size := u32 (numPartitions * sizeOfPartitionEntry) in
  let partoffset_end := u64 (partoffset + parttable_size - 1) in
  let part_start := partoffset / bs in
  let part_end := partoffset_end / bs in
  let partoffset := partoffset mod bs in
  match bd_read d part_start (u64 (part_end - part_start + 1)) with
  | None => Ret None
  | Some blocks =>
      if Z.of_nat (length blocks) <? parttable_size + partoffset then Ret None else
      table ← slice partoffset parttable_size blocks;
      crc ← crc32 table;
      if negb (crc =? tableCrc) then Ret None else
      l ← gpt_entries (Z.to_nat (table_entries parttable_size sizeOfPartitionEntry numPartitions)) 0 bs sizeOfPartitionEntry table;
      Ret (Some l)
  end.

(** gpt_reader::ReadParttable *)
Definition gpt_ReadParttable (d : blockdev) : outcome (option (list part)) :=
  let bs := bd_blocksize d in
  let gptblock := 512 / bs in
  let lastgptblock := (512 + sizeof_GptHeader - 1) / bs in
  let gptoffset := 512 mod bs in
  let size := header_size ((lastgptblock - gptblock + 1) * bs - gptoffset) in
  match bd_read d gptblock (lastgptblock - gptblock + 1) with
  | None => Ret None
  | Some blocks =>
      if Z.of_nat (length blocks) <? size then Ret None else
      hdr ← slice gptoffset size blocks;
      signature ← field 0 8 hdr;
      if negb (signature =? gpt_signature) then Ret None else
      headerSize ← field 12 4 hdr;
      h ← gpt_read_rest d lastgptblock headerSize hdr;
      match h with
      | None => Ret None
      | Some hdr =>
          hdrcrc32 ← field 16 4 hdr;
          bytes ← slice 0 headerSize (without_crc hdr);
          crc ← crc32 bytes;
          if negb (crc =? hdrcrc32) then Ret None else gpt_read_table d hdr
      end
  end.

(** parttable_readers::ReadParttable *)
Definition ReadParttable (fuel : nat) (d : blockdev) : outcome (option (list part)) :=
  gpt ← gpt_ReadParttable d;
  match gpt with
  | Some t => Ret (Some t)
  | None => mbr_ReadParttable fuel d false
  end.

(** ** Whatever is on the disk *)

(** The entry [i] of the table, when it is in use. *)
Definition gpt_entry (bs entrySize : Z) (table : list Z) (i : Z) : option part :=
  let entry := take 128 (drop (Z.to_nat (i * entrySize)) table) in
  let firstLba := get_field 32 8 entry in
  let lastLba := get_field 40 8 entry in
  if (firstLba =? 0) || (lastLba =? 0) then None
  else Some (Part (u64 (firstLba * 512) / bs) (u64 (u64 (lastLba - firstLba + 1) * 512) / bs) 0).

Lemma gpt_entries_spec n i bs entrySize table :
  0 ≤ i → 128 ≤ entrySize < 2 ^ 32 → Z.of_nat (length table) < 2 ^ 32 → (i + Z.of_nat n) * entrySize ≤ Z.of_nat (length table) →
  gpt_entries n i bs entrySize table = Ret (omap (gpt_entry bs entrySize table) (seqZ i (Z.of_nat n))).
Proof.
  intros Hi He Ht. revert i Hi. induction n as [| n IH]; intros i Hi Hn; [done |]. cbn [gpt_entries]. unfold sizeof_GptPartEntry.
  assert (u64 (i * entrySize) = i * entrySize) as -> by (unfold wrap; apply Z.mod_small; nia).
  rewrite slice_in by nia. cbn [mbind outcome_bind]. change (Z.to_nat 128) with 128%nat.
  set (entry := take 128 _). assert (length entry = 128)%nat as El by (unfold entry; rewrite length_take, length_drop; nia).
  rewrite !field_in by lia. cbn [mbind outcome_bind]. rewrite IH by nia. cbn [mbind outcome_bind].
  rewrite (seqZ_cons i) by lia. replace (Z.pred (Z.of_nat (S n))) with (Z.of_nat n) by lia. change (Z.succ i) with (i + 1).
  cbn [omap list_omap]. assert (gpt_entry bs entrySize table i = if (get_field 32 8 entry =? 0) || (get_field 40 8 entry =? 0) then None
    else Some (Part (u64 (get_field 32 8 entry * 512) / bs) (u64 (u64 (get_field 40 8 entry - get_field 32 8 entry + 1) * 512) / bs) 0)) as -> by done.
  by destruct ((_ =? 0) || _).
Qed.

Lemma table_entries_fit size entrySize num :
  0 ≤ size < 2 ^ 32 → 0 ≤ entrySize < 2 ^ 32 → 0 ≤ num < 2 ^ 32 →
  0 ≤ table_entries size entrySize num ∧ table_entries size entrySize num * entrySize ≤ size ∧
  (entrySize < 128 → table_entries size entrySize num = 0).
Proof.
  intros Hs He Hn. unfold table_entries, sizeof_GptPartEntry. destruct (Z.ltb_spec entrySize 128) as [H | H].
  - assert (u64 (0 * entrySize) = 0) as -> by done. rewrite (proj2 (Z.ltb_ge size 0)) by lia. lia.
  - assert (u64 (num * entrySize) = num * entrySize) as -> by (unfold wrap; apply Z.mod_small; nia).
    destruct (Z.ltb_spec size (num * entrySize)); [| lia]. pose proof (Z.div_mod size entrySize). pose proof (Z.mod_pos_bound size entrySize).
    pose proof (Z.div_pos size entrySize). split; [lia |]. split; [lia | lia].
Qed.

Lemma slice_bytes off n buf l : Forall (is_u 8) buf → slice off n buf = Ret l → Forall (is_u 8) l.
Proof. unfold slice. intros Hb. destruct (_ <=? _); [| done]. intros [= <-]. by apply Forall_take, Forall_drop. Qed.

(** The partitions of a table with the right checksum. *)
Definition gpt_table_valid (bs : Z) (hdr table : list Z) (l : list part) : Prop :=
  let num := get_field 80 4 hdr in
  let entrySize := get_field 84 4 hdr in
  Z.of_nat (length table) = u32 (num * entrySize) ∧ crc_reference table = get_field 88 4 hdr ∧
  l = omap (gpt_entry bs entrySize table) (seqZ 0 (table_entries (u32 (num * entrySize)) entrySize num)).

Lemma gpt_read_table_safe d hdr :
  BlockDevLaws d → Forall (is_u 8) hdr → 92 ≤ Z.of_nat (length hdr) →
  ∃ r, gpt_read_table d hdr = Ret r ∧ ∀ l, r = Some l → ∃ table, gpt_table_valid (bd_blocksize d) hdr table l.
Proof.
  intros L Hb Hl. unfold gpt_read_table. rewrite !field_in by lia. cbn [mbind outcome_bind]. unfold gpt_table_valid.
  pose proof (get_field_range 80 4 hdr ltac:(lia) Hb) as H80. pose proof (get_field_range 84 4 hdr ltac:(lia) Hb) as H84.
  set (num := get_field 80 4 hdr) in *. set (es := get_field 84 4 hdr) in *. set (size := u32 (num * es)).
  assert (0 ≤ size < 2 ^ 32) as Hs by (apply Z.mod_pos_bound; lia). change (256 ^ 4) with (2 ^ 32) in *.
  destruct (bd_read d _ _) as [blocks |] eqn:R; [| by eexists]. set (off := u64 _ mod _).
  assert (0 ≤ off) as Ho by (apply Z.mod_pos_bound; apply L).
  destruct (Z.ltb_spec (Z.of_nat (length blocks)) (size + off)) as [| Hr]; [by eexists |].
  rewrite slice_in by lia. cbn [mbind outcome_bind]. set (table := take _ (drop _ blocks)).
  assert (Z.of_nat (length table) = size) as Et by (unfold table; rewrite length_take, length_drop; lia).
  rewrite crc32_spec by (apply Forall_take, Forall_drop; by apply bd_read_bytes in R). cbn [mbind outcome_bind].
  destruct (Z.eqb_spec (crc_reference table) (get_field 88 4 hdr)) as [Ec | Ec]; cbn [negb]; [| by eexists].
  destruct (table_entries_fit size es num Hs H84 H80) as (F1 & F2 & F3). set (n := table_entries size es num) in *.
  assert (gpt_entries (Z.to_nat n) 0 (bd_blocksize d) es table = Ret (omap (gpt_entry (bd_blocksize d) es table) (seqZ 0 n))) as ->.
  { destruct (decide (es < 128)) as [H | H]; [by rewrite F3 by done |].
    rewrite gpt_entries_spec by lia. by rewrite Z2Nat.id by done. }
  cbn [mbind outcome_bind]. eexists. split; [done |]. intros l [= <-]. by exists table.
Qed.

Lemma get_field_app off n l l' : 0 ≤ off → 0 ≤ n → off + n ≤ Z.of_nat (length l) → get_field off n (l ++ l') = get_field off n l.
Proof. intros. unfold get_field. rewrite drop_app_le, take_app_le by (rewrite ?length_drop; lia). done. Qed.

Lemma gpt_read_rest_safe d lastgptblock hdr :
  BlockDevLaws d → 0 ≤ lastgptblock → Forall (is_u 8) hdr → 92 ≤ Z.of_nat (length hdr) →
  ∃ r, gpt_read_rest d lastgptblock (get_field 12 4 hdr) hdr = Ret r ∧
    ∀ h, r = Some h → ∃ rest, h = hdr ++ rest ∧ Forall (is_u 8) h ∧ get_field 12 4 hdr ≤ Z.of_nat (length h).
Proof.
  intros L Hg Hb Hl. unfold gpt_read_rest. pose proof (get_field_range 12 4 hdr ltac:(lia) Hb) as H12. change (256 ^ 4) with (2 ^ 32) in H12.
  set (hs := get_field 12 4 hdr) in *. pose proof (bd_blocksize_pos (d := d)) as Hbs. set (bs := bd_blocksize d) in *.
  destruct (Z.ltb_spec (Z.of_nat (length hdr)) hs) as [H | H].
  2:{ eexists. split; [done |]. intros h [= <-]. exists []. by rewrite app_nil_r. }
  assert (u32 (hs - Z.of_nat (length hdr)) = hs - Z.of_nat (length hdr)) as -> by (unfold wrap; apply Z.mod_small; lia).
  set (rem := hs - Z.of_nat (length hdr)). pose proof (Z.div_mod rem bs ltac:(lia)) as Hd. pose proof (Z.mod_pos_bound rem bs ltac:(lia)) as Hm.
  pose proof (Z.div_pos rem bs ltac:(lia) ltac:(lia)) as Hp. set (up := if 0 <? rem mod bs then 1 else 0).
  assert (0 ≤ up ≤ 1 ∧ rem ≤ (up + rem / bs) * bs) as [Hu Hc] by (unfold up; destruct (Z.ltb_spec 0 (rem mod bs)); nia).
  assert (rem / bs ≤ rem) as Hq by (apply Z.div_le_upper_bound; nia).
  assert (u32 (up + rem / bs) = up + rem / bs) as -> by (unfold wrap; apply Z.mod_small; lia).
  assert (u64 ((up + rem / bs) * bs) = (up + rem / bs) * bs) as -> by (unfold wrap; apply Z.mod_small; nia).
  destruct (bd_read d (lastgptblock + 1) (up + rem / bs)) as [blocks |] eqn:R; [| by eexists].
  destruct (Z.ltb_spec (Z.of_nat (length blocks)) ((up + rem / bs) * bs)) as [| Hr]; [by eexists |].
  rewrite slice_in by nia. cbn [mbind outcome_bind]. eexists. split; [done |]. intros h [= <-]. eexists. split; [done |]. split.
  - apply Forall_app_2; [done |]. apply Forall_take, Forall_drop. by apply bd_read_bytes in R.
  - rewrite length_app, length_take, length_drop. lia.
Qed.

Lemma without_crc_ok hdr : Forall (is_u 8) hdr → 92 ≤ Z.of_nat (length hdr) →
  length (without_crc hdr) = length hdr ∧ Forall (is_u 8) (without_crc hdr).
Proof.
  intros Hb Hl. unfold without_crc. split.
  - rewrite !length_app, length_take, length_drop. change (length [0; 0; 0; 0]) with 4%nat. lia.
  - repeat apply Forall_app_2; [by apply Forall_take | apply (zeros_ok 4) | by apply Forall_drop].
Qed.

(** The part of the first blocks that is taken as the header. *)
Lemma gpt_header_range d j (blocks : list Z) :
  BlockDevLaws d → 
  let bs := bd_blocksize d in
  let n := (512 + sizeof_GptHeader - 1) / bs - 512 / bs + 1 in
  let size := header_size (n * bs - 512 mod bs) in
  Z.of_nat (length blocks) = j * bs → j ≤ n → size ≤ Z.of_nat (length blocks) →
  92 ≤ size ∧ 512 mod bs + size = Z.of_nat (length blocks).
Proof.
  intros L bs n size El Hj Hs. pose proof (bd_blocksize_pos (d := d)) as Hbs. fold bs in Hbs. unfold sizeof_GptHeader in n.
  pose proof (Z.div_mod 512 bs ltac:(lia)) as D1. pose proof (Z.mod_pos_bound 512 bs ltac:(lia)) as M1.
  pose proof (Z.div_mod 603 bs ltac:(lia)) as D2. pose proof (Z.mod_pos_bound 603 bs ltac:(lia)) as M2.
  change (512 + 92 - 1) with 603 in n.
  assert (n * bs - 512 mod bs = (603 / bs + 1) * bs - 512) as E by (unfold n; nia).
  assert (size = n * bs - 512 mod bs) as Es.
  { unfold size, header_size, sizeof_GptHeader. rewrite (proj2 (Z.ltb_ge _ 92)) by nia. done. }
  assert (j = n) as -> by nia. split; [nia | lia].
Qed.

(** A header with the right signature and checksum. *)
Definition gpt_header_valid (hdr : list Z) : Prop :=
  get_field 0 8 hdr = gpt_signature ∧
  crc_reference (take (Z.to_nat (get_field 12 4 hdr)) (without_crc hdr)) = get_field 16 4 hdr.

(** whatever is on the disk, the GPT reader returns and touches nothing outside its buffers, although the sizes in the
    header are not checked; and it returns partitions only from a header and a table whose checksums are
    right: the used entries of the table, in their order, as many as the table has room for. *)
Theorem gpt_safe d :
  BlockDevLaws d →
  ∃ r, gpt_ReadParttable d = Ret r ∧
    ∀ l, r = Some l → ∃ hdr table, gpt_header_valid hdr ∧ gpt_table_valid (bd_blocksize d) hdr table l.
Proof.
  intros L. unfold gpt_ReadParttable. pose proof (bd_blocksize_pos (d := d)) as Hbs. set (bs := bd_blocksize d) in *.
  set (last := (512 + sizeof_GptHeader - 1) / bs). assert (0 ≤ last - 512 / bs) as Hn.
  { assert (512 / bs ≤ last); [| lia]. apply Z.div_le_mono; unfold sizeof_GptHeader; lia. }
  pose proof (Z.div_pos 512 bs ltac:(lia) ltac:(lia)) as H0.
  destruct (bd_read d (512 / bs) (last - 512 / bs + 1)) as [blocks |] eqn:R; [| by eexists].
  destruct (Z.ltb_spec (Z.of_nat (length blocks)) (header_size ((last - 512 / bs + 1) * bs - 512 mod bs))) as [| Hs]; [by eexists |].
  destruct (bd_read_whole (d := d) (512 / bs) (last - 512 / bs + 1) blocks ltac:(lia) ltac:(lia) R) as (j & Hj & El).
  destruct (gpt_header_range d j blocks L El (proj2 Hj) Hs) as [G1 G2]. fold bs last in G1, G2.
  set (size := header_size _) in *. pose proof (Z.mod_pos_bound 512 bs ltac:(lia)) as Hm.
  rewrite slice_in by lia. cbn [mbind outcome_bind]. set (hdr := take _ _). apply bd_read_bytes in R as Hb.
  assert (Forall (is_u 8) hdr) as Hh by (by apply Forall_take, Forall_drop).
  assert (Z.of_nat (length hdr) = size) as Eh by (unfold hdr; rewrite length_take, length_drop; lia).
  rewrite !field_in by lia. cbn [mbind outcome_bind].
  destruct (Z.eqb_spec (get_field 0 8 hdr) gpt_signature) as [Esig | Esig]; cbn [negb]; [| by eexists].
  destruct (gpt_read_rest_safe d last hdr L ltac:(lia) Hh ltac:(lia)) as (r & -> & Hr). cbn [mbind outcome_bind].
  destruct r as [h |]; [| by eexists]. destruct (Hr h eq_refl) as (rest & -> & Hh' & Hl'). clear Hr.
  assert (92 ≤ Z.of_nat (length (hdr ++ rest))) as Hl92 by (rewrite length_app; lia).
  destruct (without_crc_ok (hdr ++ rest) Hh' Hl92) as [W1 W2]. pose proof (get_field_range 12 4 hdr ltac:(lia) Hh) as H12.
  rewrite field_in, slice_in by lia. cbn [mbind outcome_bind]. rewrite crc32_spec by (by apply Forall_take, Forall_drop). cbn [mbind outcome_bind].
  rewrite drop_0. destruct (Z.eqb_spec (crc_reference (take (Z.to_nat (get_field 12 4 hdr)) (without_crc (hdr ++ rest))))
    (get_field 16 4 (hdr ++ rest))) as [Ec | Ec]; cbn [negb]; [| by eexists].
  destruct (gpt_read_table_safe d (hdr ++ rest) L Hh' Hl92) as (t & -> & Ht). exists t. split; [done |]. intros l El'.
  destruct (Ht l El') as [table Hv]. exists (hdr ++ rest), table. split; [| done]. unfold gpt_header_valid.
  rewrite !(get_field_app 0 8), (get_field_app 12 4) by lia. by split.
Qed.

(** A disk with one partition, of the blocks 10 to 15. *)
Definition gpt_example_table : list Z := replicate 32 1 ++ le_bytes 8 10 ++ le_bytes 8 15 ++ replicate 80 0.
Definition gpt_example_header (crc : Z) : list Z :=
  le_bytes 8 gpt_signature ++ le_bytes 4 0x10000 ++ le_bytes 4 92 ++ le_bytes 4 crc ++ replicate 52 0 ++
  le_bytes 8 2 ++ le_bytes 4 1 ++ le_bytes 4 128 ++ le_bytes 4 (crc_reference gpt_example_table).
Definition pad_block (l : list Z) : list Z := take 512 (l ++ empty_block).
Definition gpt_disk : blockdev := disk (list_to_map
  [(1, pad_block (gpt_example_header (crc_reference (gpt_example_header 0)))); (2, pad_block gpt_example_table)]).

Lemma pad_block_ok l : Forall (is_u 8) l → length (pad_block l) = 512%nat ∧ Forall (is_u 8) (pad_block l).
Proof.
  intros Hl. destruct empty_block_ok as [E1 E2]. unfold pad_block. split; [rewrite length_take, length_app; lia |].
  by apply Forall_take, Forall_app_2.
Qed.

Lemma gpt_disk_laws : BlockDevLaws gpt_disk.
Proof.
  apply disk_laws. apply map_Forall_insert_2; [| apply map_Forall_insert_2; [| apply map_Forall_empty]]; apply pad_block_ok.
  - unfold gpt_example_header. repeat apply Forall_app_2; apply le_bytes_range || apply zeros_ok.
  - unfold gpt_example_table. repeat apply Forall_app_2; try apply le_bytes_range; apply Forall_replicate; by unfold is_u.
Qed.

Lemma gpt_safe_witness :
  gpt_ReadParttable gpt_disk = Ret (Some [Part 10 6 0]) ∧
  ∃ r, gpt_ReadParttable gpt_disk = Ret r ∧
    ∀ l, r = Some l → ∃ hdr table, gpt_header_valid hdr ∧ gpt_table_valid 512 hdr table l.
Proof. split; [by vm_compute |]. apply (gpt_safe gpt_disk), gpt_disk_laws. Defined.
