(* ===== verification/StdVector.v ===== *)
(** include/std/vector.h: the vector of the kernel's C++ library.  The storage is modelled
    slot by slot, so that an element destroyed twice, read after it is gone or built over
    another one stops the code. *)
From S2P Require Import Prelude.

Local Open Scope nat_scope.

(** * The code *)

Section Vector.
Context {T : Type}.
(** [sizeof(T)] *)
Variable size_of : nat.

(** struct vector_container: [_data], null or a storage of [_capacity] slots, each raw or an element. *)
Record vector := Vector { v_data : option (list (option T)); v_size : nat }.

Definition capacity (v : vector) : nat := match v_data v with Some s => length s | None => 0 end.
Definition new_vector : vector := Vector None 0.

(** Placement new in a slot, which holds no element. *)
Definition construct (i : nat) (x : T) (s : list (option T)) : outcome (list (option T)) :=
  match s !! i with
  | Some None => Ret (<[i := Some x]> s)
  | _ => OutOfBounds
  end.

(** The destructor of the element of a slot; the element is what a move out of it read before. *)
Definition destroy (i : nat) (s : list (option T)) : outcome (T * list (option T)) :=
  match s !! i with
  | Some (Some x) => Ret (x, <[i := None]> s)
  | _ => OutOfBounds
  end.

(** [for (i = from; i < from + n; i++) c._data[i].~vector_container_element<T>()] *)
Fixpoint destroy_loop (n from : nat) (s : list (option T)) : outcome (list (option T)) :=
  match n with
  | O => Ret s
  | S n => r ← destroy from s; destroy_loop n (S from) r.2
  end.

Definition minimum_size : nat := if 16 <? size_of then 1 else 16 / size_of.

(** The loop of reserve, which moves the elements to the new storage. *)
Fixpoint move_loop (n i : nat) (old new : list (option T)) : outcome (list (option T)) :=
  match n with
  | O => Ret new
  | S n => r ← destroy i old; new ← construct i r.1 new; move_loop n (S i) r.2 new
  end.

Definition reserve (new_cap : nat) (v : vector) : outcome vector :=
  let new_cap := if new_cap <? minimum_size then minimum_size else new_cap in
  match v_data v with
  | Some s =>
      if capacity v <? new_cap then
        new ← move_loop (v_size v) 0 s (replicate new_cap None);
        Ret (Vector (Some new) (v_size v))
      else Ret v
  | None => Ret (Vector (Some (replicate new_cap None)) (v_size v))
  end.

(** Access through [c._data], which is null in a vector that never held anything. *)
Definition slots (v : vector) : outcome (list (option T)) :=
  match v_data v with Some s => Ret s | None => OutOfBounds end.

(** at and operator[] *)
Definition at_ (i : nat) (v : vector) : outcome T :=
  s ← slots v;
  if i <? v_size v then match s !! i with Some (Some x) => Ret x | _ => OutOfBounds end else OutOfBounds.

(** What the reference parameter of push_back refers to: an object elsewhere, or an element of the vector itself. *)
Inductive argument := Elsewhere (x : T) | Element (i : nat).

(** The object read through the reference after [reserve]: the storage of an element may be gone. *)
Definition argument_value (a : argument) (before after : vector) : outcome T :=
  match a with
  | Elsewhere x => Ret x
  | Element i => if capacity before =? capacity after then at_ i after else OutOfBounds
  end.

(** push_back, and emplace_back with its argument *)
Definition push_back (a : argument) (v : vector) : outcome vector :=
  let exp := v_size v + 1 in
  v' ← (if capacity v <=? exp then reserve exp v else Ret v);
  x ← argument_value a v v';
  s ← slots v';
  s ← construct (v_size v') x s;
  Ret (Vector (Some s) exp).

(** The loop of the copies: [for (const auto &cp_elem : cp) push_back(cp_elem)] *)
Fixpoint push_all (l : list T) (v : vector) : outcome vector :=
  match l with
  | [] => Ret v
  | x :: l => v ← push_back (Elsewhere x) v; push_all l v
  end.

(** The elements of [cp], read one by one. *)
Fixpoint read_loop (n i : nat) (v : vector) : outcome (list T) :=
  match n with
  | O => Ret []
  | S n => x ← at_ i v; l ← read_loop n (S i) v; Ret (x :: l)
  end.

Definition copy_vector (cp : vector) : outcome vector :=
  v ← reserve (v_size cp) new_vector;
  l ← read_loop (v_size cp) 0 cp;
  push_all l v.

(** The destructor; what is left of the storage is freed. *)
Definition destroy_vector (v : vector) : outcome vector :=
  match v_data v with
  | Some s => s ← destroy_loop (v_size v) 0 s; Ret new_vector
  | None => Ret v
  end.

Definition clear (v : vector) : outcome vector :=
  match v_data v with
  | Some s => s ← destroy_loop (v_size v) 0 s; Ret (Vector (Some s) 0)
  | None => Ret v
  end.

(** operator =(const vector &), between two vectors *)
Definition assign_copy (cp v : vector) : outcome vector :=
  v ← (match v_data v with
       | Some s => s ← destroy_loop (v_size v) 0 s; Ret (Vector (Some s) 0)
       | None => Ret (Vector None 0)
       end);
  v ← (if capacity v <? v_size cp then reserve (v_size cp) v else Ret v);
  l ← read_loop (v_size cp) 0 cp;
  push_all l v.

(** operator =(vector &&), between two vectors: the target and the source after it *)
Definition assign_move (mv v : vector) : outcome (vector * vector) :=
  v ← (match v_data v with
       | Some s => s ← destroy_loop (v_size v) 0 s; Ret new_vector
       | None => Ret v
       end);
  Ret (mv, new_vector).

(** The loop of resize that builds default elements. *)
Fixpoint default_loop (dflt : T) (n i : nat) (s : list (option T)) : outcome (list (option T)) :=
  match n with
  | O => Ret s
  | S n => s ← construct i dflt s; default_loop dflt n (S i) s
  end.

Definition resize (dflt : T) (sz : nat) (v : vector) : outcome vector :=
  v ← (if capacity v <? sz then reserve sz v else Ret v);
  if v_size v <? sz then
    s ← slots v;
    s ← default_loop dflt (sz - v_size v) (v_size v) s;
    Ret (Vector (Some s) sz)
  else if sz <? v_size v then
    s ← slots v;
    s ← destroy_loop (v_size v - sz) sz s;
    Ret (Vector (Some s) (v_size v))
  else Ret v.

(** The loop of erase: each element after the hole moves one slot down. *)
Fixpoint close_loop (n del : nat) (s : list (option T)) : outcome (list (option T)) :=
  match n with
  | O => Ret s
  | S n => r ← destroy (S del) s; s ← construct del r.1 r.2; close_loop n (S del) s
  end.

(** erase of the iterator at [index]; the iterator returned is at [index] as an int. *)
Definition erase (index : nat) (v : vector) : outcome (Z * vector) :=
  s ← slots v;
  r ← destroy index s;
  let size := v_size v - 1 in
  s ← close_loop (size - index) index r.2;
  Ret ((Z.of_nat index + 2 ^ 31) mod 2 ^ 32 - 2 ^ 31, Vector (Some s) size)%Z.

End Vector.

Arguments vector : clear implicits.
Arguments argument : clear implicits.

(** * The vector holds a list *)

Section Correct.
Context {T : Type}.
Variable size_of : nat.
Implicit Types (x : T) (l : list T) (v : vector T) (s : list (option T)).

(** The slots of the elements [l] and [free] raw ones. *)
Definition rep_slots l (free : nat) : list (option T) := (Some <$> l) ++ replicate free None.

(** [v] holds the elements [l]. *)
Definition holds v l : Prop :=
  v_size v = length l ∧
  match v_data v with
  | Some s => minimum_size size_of ≤ length s ∧ ∃ free, s = rep_slots l free
  | None => l = []
  end.

Lemma rep_slots_length l free : length (rep_slots l free) = length l + free.
Proof. unfold rep_slots. by rewrite length_app, length_fmap, length_replicate. Qed.

Lemma holds_intro l free : minimum_size size_of ≤ length l + free → holds (Vector (Some (rep_slots l free)) (length l)) l.
Proof. intros H. split; [done |]. cbn [v_data]. rewrite rep_slots_length. split; [done |]. by exists free. Qed.

Lemma holds_new : holds new_vector [].
Proof. done. Qed.

Lemma holds_sized l free n :
  n = length l → minimum_size size_of ≤ length l + free → holds (Vector (Some (rep_slots l free)) n) l.
Proof. intros ->. apply holds_intro. Qed.

(** ** Slots *)

Lemma construct_at s1 x s2 : construct (length s1) x (s1 ++ None :: s2) = Ret (s1 ++ Some x :: s2).
Proof. unfold construct. by rewrite list_lookup_middle, insert_app_r_alt, Nat.sub_diag by lia. Qed.

Lemma destroy_at s1 x s2 : destroy (length s1) (s1 ++ Some x :: s2) = Ret (x, s1 ++ None :: s2).
Proof. unfold destroy. by rewrite list_lookup_middle, insert_app_r_alt, Nat.sub_diag by lia. Qed.

Lemma construct_next x l free : construct (length l) x (rep_slots l (S free)) = Ret (rep_slots (l ++ [x]) free).
Proof.
  unfold rep_slots. rewrite <- (length_fmap Some l). cbn [replicate]. rewrite construct_at, fmap_app. by rewrite <- app_assoc.
Qed.

Lemma none_snoc k s : replicate k None ++ None :: s = replicate (S k) (None : option T) ++ s.
Proof. by rewrite replicate_S_end, <- app_assoc. Qed.

Lemma destroy_all s1 l s2 :
  destroy_loop (length l) (length s1) (s1 ++ (Some <$> l) ++ s2) = Ret (s1 ++ replicate (length l) None ++ s2).
Proof.
  revert s1. induction l as [| x l IH]; intros s1; [done |]. cbn [length destroy_loop fmap list_fmap app replicate].
  rewrite destroy_at. cbn [mbind outcome_bind snd].
  specialize (IH (s1 ++ [None])). rewrite length_app, Nat.add_1_r, <- !app_assoc in IH. exact IH.
Qed.

Lemma move_all k l l' s free :
  length l' = k →
  move_loop (length l) k (replicate k None ++ (Some <$> l) ++ s) (rep_slots l' (length l + free)) = Ret (rep_slots (l' ++ l) free).
Proof.
  revert k l'. induction l as [| x l IH]; intros k l' Hk; [by rewrite app_nil_r |].
  cbn [length move_loop fmap list_fmap app Nat.add]. rewrite <- (length_replicate k (None : option T)) at 1.
  rewrite destroy_at. cbn [mbind outcome_bind fst snd]. rewrite <- Hk at 1. rewrite construct_next. cbn [mbind outcome_bind].
  rewrite none_snoc, IH by (rewrite length_app; cbn; lia). by rewrite <- app_assoc.
Qed.

Lemma default_all d n l free :
  default_loop d n (length l) (rep_slots l (n + free)) = Ret (rep_slots (l ++ replicate n d) free).
Proof.
  revert l. induction n as [| n IH]; intros l; [by rewrite app_nil_r |]. cbn [default_loop Nat.add].
  rewrite construct_next. cbn [mbind outcome_bind]. specialize (IH (l ++ [d])). rewrite length_app, Nat.add_1_r, <- app_assoc in IH. exact IH.
Qed.

Lemma close_all s1 l s2 :
  close_loop (length l) (length s1) (s1 ++ None :: (Some <$> l) ++ s2) = Ret (s1 ++ (Some <$> l) ++ None :: s2).
Proof.
  revert s1. induction l as [| x l IH]; intros s1; [done |]. cbn [length close_loop fmap list_fmap app].
  change (s1 ++ None :: Some x :: ?r) with (s1 ++ [None] ++ Some x :: r). rewrite app_assoc.
  replace (S (length s1)) with (length (s1 ++ [None : option T])) by (rewrite length_app; cbn; lia).
  rewrite destroy_at. cbn [mbind outcome_bind fst snd]. rewrite <- app_assoc. cbn [app]. rewrite construct_at. cbn [mbind outcome_bind].
  specialize (IH (s1 ++ [Some x])). rewrite <- !app_assoc in IH. rewrite !length_app in *. exact IH.
Qed.

(** ** Operations *)

Lemma minimum_pos : 0 < size_of → 0 < minimum_size size_of.
Proof.
  intros Hs. unfold minimum_size. destruct (Nat.ltb_spec 16 size_of); [lia |].
  apply Nat.div_str_pos. lia.
Qed.

(** reserve keeps the elements; the capacity is then what was asked for or what it was. *)
Lemma reserve_holds n v l :
  holds v l → ∃ v', reserve size_of n v = Ret v' ∧ holds v' l ∧ v_size v' = v_size v ∧
    capacity v' = Nat.max (capacity v) (Nat.max n (minimum_size size_of)) ∧ is_Some (v_data v').
Proof.
  intros [Hs Hd]. unfold reserve. set (cap := if _ <? _ then _ else _).
  assert (cap = Nat.max n (minimum_size size_of)) as Ecap by (unfold cap; destruct (Nat.ltb_spec n (minimum_size size_of)); lia).
  clearbody cap. subst cap. set (cap := Nat.max n _). destruct v as [d sz]. cbn [v_data v_size] in *. subst sz.
  destruct d as [s |]; [destruct Hd as [Hm [free ->]] | subst l].
  - unfold capacity at 1. cbn [v_data]. rewrite rep_slots_length in *.
    destruct (Nat.ltb_spec (length l + free) cap) as [H | H].
    + replace (replicate cap None) with (rep_slots [] (length l + (cap - length l))) by (unfold rep_slots; cbn; f_equal; lia).
      pose proof (move_all 0 l [] (replicate free None) (cap - length l) eq_refl) as E.
      change (replicate 0 None ++ (Some <$> l) ++ replicate free None) with (rep_slots l free) in E. rewrite E.
      cbn [mbind outcome_bind app]. eexists. split; [done |].
      split; [apply holds_intro; lia |]. split; [done |]. split; [| by eexists]. unfold capacity. cbn [v_data]. rewrite !rep_slots_length. lia.
    + eexists. split; [done |]. split; [by apply holds_intro |]. split; [done |]. split; [| by eexists].
      unfold capacity. cbn [v_data]. rewrite rep_slots_length. lia.
  - eexists. split; [done |]. split; [apply (holds_intro [] cap); cbn; lia |]. split; [done |]. split; [| by eexists].
    unfold capacity. cbn [v_data]. rewrite length_replicate. lia.
Qed.

(** A vector with room for another element. *)
Lemma holds_room v l :
  holds v l → length l < capacity v → ∃ free, v = Vector (Some (rep_slots l (S free))) (length l).
Proof.
  destruct v as [[s |] sz]; unfold holds, capacity; cbn [v_data v_size]; [| lia]. intros [-> [_ [free ->]]] H.
  rewrite rep_slots_length in H. destruct free as [| free]; [lia |]. by exists free.
Qed.

Lemma at_holds i v l : holds v l → at_ i v = match l !! i with Some x => Ret x | None => OutOfBounds end.
Proof.
  destruct v as [[s |] sz]; unfold holds, at_, slots; cbn [v_data v_size].
  - intros [-> [_ [free ->]]]. cbn [mbind outcome_bind]. destruct (Nat.ltb_spec i (length l)) as [H | H].
    + unfold rep_slots. rewrite lookup_app_l by (by rewrite length_fmap). rewrite list_lookup_fmap.
      destruct (lookup_lt_is_Some_2 l i H) as [x ->]. done.
    + by rewrite lookup_ge_None_2.
  - intros [_ ->]. done.
Qed.

Lemma holds_minimum v l : holds v l → 0 < capacity v → minimum_size size_of ≤ capacity v.
Proof. destruct v as [[s |] sz]; unfold holds, capacity; cbn [v_data]; [by intros [_ [? _]] | lia]. Qed.

(** The value push_back adds. *)
Definition argument_of (a : argument T) l : option T :=
  match a with Elsewhere x => Some x | Element i => l !! i end.

(** push_back of a value, or of an own element when there is room for it. *)
Lemma push_back_holds a v l x :
  0 < size_of → holds v l → argument_of a l = Some x → (∀ i, a = Element i → length l < capacity v) →
  ∃ v', push_back size_of a v = Ret v' ∧ holds v' (l ++ [x]) ∧
    capacity v' = Nat.max (capacity v) (Nat.max (length l + 1) (minimum_size size_of)).
Proof.
  intros Hz Hv Ha Hi. unfold push_back. pose proof (proj1 Hv) as Hs. rewrite Hs.
  set (r := if _ <=? _ then _ else _). assert (∃ v', r = Ret v' ∧ holds v' l ∧
    capacity v' = Nat.max (capacity v) (Nat.max (length l + 1) (minimum_size size_of))) as (v' & -> & Hv' & Ec).
  { unfold r. destruct (Nat.leb_spec (capacity v) (length l + 1)) as [H | H].
    - destruct (reserve_holds (length l + 1) v l Hv) as (v' & -> & ? & _ & ? & _). by exists v'.
    - exists v. split; [done |]. split; [done |]. pose proof (holds_minimum v l Hv). lia. }
  cbn [mbind outcome_bind]. assert (argument_value a v v' = Ret x) as ->.
  { destruct a as [y | i]; cbn [argument_value argument_of] in *; [by simplify_eq |]. specialize (Hi i eq_refl).
    pose proof (holds_minimum v l Hv).
    rewrite (proj2 (Nat.eqb_eq _ _)), (at_holds i v' l Hv'), Ha by lia. done. }
  destruct (holds_room v' l Hv') as [free ->]; [lia |]. cbn [mbind outcome_bind slots v_data v_size].
  rewrite construct_next. cbn [mbind outcome_bind]. eexists. split; [done |]. unfold capacity in Ec |- *. cbn [v_data] in *.
  rewrite rep_slots_length in *. rewrite length_app. cbn [length]. split; [| lia].
  apply holds_sized; rewrite length_app; cbn; lia.
Qed.

Lemma clear_holds v l : holds v l → ∃ v', clear v = Ret v' ∧ holds v' [] ∧ capacity v' = capacity v.
Proof.
  destruct v as [[s |] sz]; unfold clear, holds at 1; cbn [v_data v_size].
  - intros [-> [Hm [free ->]]]. pose proof (destroy_all [] l (replicate free None)) as E. cbn [app length] in E.
    change ((Some <$> l) ++ replicate free None) with (rep_slots l free) in E. rewrite E. cbn [mbind outcome_bind].
    rewrite <- replicate_add. change (replicate (length l + free) None) with (rep_slots [] (length l + free)).
    rewrite rep_slots_length in Hm. eexists. split; [done |]. split; [by apply (holds_intro []) |].
    unfold capacity. cbn [v_data]. by rewrite !rep_slots_length.
  - intros [-> ->]. by exists (Vector None 0).
Qed.

(** The destructor destroys each element once. *)
Lemma destroy_vector_holds v l : holds v l → destroy_vector v = Ret new_vector.
Proof.
  intros Hv. destruct (clear_holds v l Hv) as (v' & E & _). unfold clear in E. unfold destroy_vector.
  destruct v as [[s |] sz]; cbn [v_data v_size] in *; [| destruct Hv as [? ?]; cbn [v_data v_size] in *; by simplify_eq /=].
  by destruct (destroy_loop sz 0 s).
Qed.

Lemma push_all_holds l' v l : 0 < size_of → holds v l → ∃ v', push_all size_of l' v = Ret v' ∧ holds v' (l ++ l').
Proof.
  intros Hz. revert v l. induction l' as [| x l' IH]; intros v l Hv; [exists v; by rewrite app_nil_r |]. cbn [push_all].
  destruct (push_back_holds (Elsewhere x) v l x Hz Hv) as (v1 & -> & H1 & _); [done | done |]. cbn [mbind outcome_bind].
  destruct (IH v1 _ H1) as (v' & -> & H'). exists v'. by rewrite <- app_assoc in H'.
Qed.

Lemma read_all v l n i : holds v l → i + n = length l → read_loop n i v = Ret (drop i l).
Proof.
  intros Hv. revert i. induction n as [| n IH]; intros i Hi; [by rewrite drop_ge by lia |]. cbn [read_loop].
  destruct (lookup_lt_is_Some_2 l i) as [x Hx]; [lia |]. rewrite (at_holds i v l Hv), Hx. cbn [mbind outcome_bind].
  rewrite IH by lia. cbn [mbind outcome_bind]. by rewrite (drop_S l x i).
Qed.

Lemma copy_vector_holds cp l : 0 < size_of → holds cp l → ∃ v, copy_vector size_of cp = Ret v ∧ holds v l.
Proof.
  intros Hz Hc. unfold copy_vector. destruct (reserve_holds (v_size cp) new_vector [] holds_new) as (v & -> & Hv & _). cbn [mbind outcome_bind].
  rewrite (read_all cp l _ 0 Hc) by (by rewrite (proj1 Hc)). cbn [mbind outcome_bind]. by apply (push_all_holds l v []).
Qed.

Lemma assign_copy_holds cp l v l0 : 0 < size_of → holds cp l → holds v l0 → ∃ v', assign_copy size_of cp v = Ret v' ∧ holds v' l.
Proof.
  intros Hz Hc Hv. unfold assign_copy. destruct (clear_holds v l0 Hv) as (v1 & E1 & H1 & _). unfold clear in E1.
  assert ((match v_data v with
       | Some s => s ← destroy_loop (v_size v) 0 s; Ret (Vector (Some s) 0)
       | None => Ret (Vector None 0)
       end) = Ret v1) as ->.
  { destruct v as [[s |] sz]; cbn [v_data v_size] in *; [done |]. destruct Hv as [? ?]. cbn [v_data v_size] in *. by simplify_eq /=. }
  cbn [mbind outcome_bind]. rewrite (read_all cp l _ 0 Hc) by (by rewrite (proj1 Hc)).
  destruct (capacity v1 <? v_size cp).
  - destruct (reserve_holds (v_size cp) v1 [] H1) as (v2 & -> & H2 & _). cbn [mbind outcome_bind]. by apply (push_all_holds l v2 []).
  - cbn [mbind outcome_bind]. by apply (push_all_holds l v1 []).
Qed.

Lemma resize_grows d sz v l :
  holds v l → length l ≤ sz → ∃ v', resize size_of d sz v = Ret v' ∧ holds v' (l ++ replicate (sz - length l) d).
Proof.
  intros Hv Hl. unfold resize. set (r := if capacity v <? sz then _ else _).
  assert (∃ v', r = Ret v' ∧ holds v' l ∧ sz ≤ capacity v') as (v' & -> & Hv' & Hc).
  { unfold r. destruct (Nat.ltb_spec (capacity v) sz) as [H | H]; [| by exists v].
    destruct (reserve_holds sz v l Hv) as (v' & -> & ? & _ & ? & _). exists v'. split; [done |]. split; [done | lia]. }
  cbn [mbind outcome_bind]. rewrite (proj1 Hv'). destruct (Nat.ltb_spec (length l) sz) as [H | H].
  - destruct v' as [[s |] z]; unfold capacity in Hc; cbn [v_data] in Hc; [| lia]. destruct Hv' as [_ [Hm [free ->]]]. cbn [v_data] in Hm.
    rewrite rep_slots_length in *. cbn [slots v_data mbind outcome_bind].
    replace free with (sz - length l + (length l + free - sz)) by lia. rewrite default_all. cbn [mbind outcome_bind].
    eexists. split; [done |]. apply holds_sized; rewrite length_app, length_replicate; lia.
  - rewrite (proj2 (Nat.ltb_ge sz (length l))) by lia. exists v'. replace (sz - length l) with 0 by lia. by rewrite app_nil_r.
Qed.

Lemma erase_at l1 x l2 free :
  (Z.of_nat (length l1) < 2 ^ 31)%Z →
  erase (length l1) (Vector (Some (rep_slots (l1 ++ x :: l2) free)) (length (l1 ++ x :: l2))) =
  Ret (Z.of_nat (length l1), Vector (Some (rep_slots (l1 ++ l2) (S free))) (length (l1 ++ l2))).
Proof.
  intros Hb. unfold erase, slots. cbn [v_data v_size mbind outcome_bind]. rewrite !length_app. cbn [length].
  replace (length l1 + S (length l2) - 1) with (length l1 + length l2) by lia.
  replace (length l1 + length l2 - length l1) with (length l2) by lia.
  rewrite Z.mod_small, Z.add_simpl_r by lia. unfold rep_slots. rewrite !fmap_app, <- !app_assoc. cbn [fmap list_fmap app].
  rewrite <- (length_fmap Some l1) at 1. rewrite destroy_at. cbn [mbind outcome_bind snd].
  rewrite <- (length_fmap Some l1) at 1. by rewrite close_all.
Qed.

Lemma erase_holds i v l :
  holds v l → i < length l → (Z.of_nat i < 2 ^ 31)%Z →
  ∃ v', erase i v = Ret (Z.of_nat i, v') ∧ holds v' (take i l ++ drop (S i) l) ∧ capacity v' = capacity v.
Proof.
  intros Hv Hi Hb. destruct v as [[s |] z]; destruct Hv as [Hz Hd]; cbn [v_data v_size] in *; [| subst l; cbn in Hi; lia].
  destruct Hd as [Hm [free ->]]. subst z. destruct (lookup_lt_is_Some_2 l i Hi) as [x Hx].
  assert (length (take i l) = i) as Hl by (rewrite length_take; lia). rewrite rep_slots_length in Hm.
  pose proof (erase_at (take i l) x (drop (S i) l) free) as E. rewrite take_drop_middle, Hl in E by done.
  eexists. split; [by apply E |]. pose proof (length_drop l (S i)).
  split; [apply holds_intro; rewrite length_app; lia |]. unfold capacity. cbn [v_data]. rewrite !rep_slots_length, length_app. lia.
Qed.

Lemma assign_move_holds mv v l0 : holds v l0 → assign_move mv v = Ret (mv, new_vector).
Proof.
  intros Hv. pose proof (destroy_vector_holds v l0 Hv) as E. unfold assign_move. unfold destroy_vector in E.
  destruct (v_data v) as [s |]; [| done]. by destruct (destroy_loop (v_size v) 0 s).
Qed.

(** ** Sequences of operations *)

Inductive vector_op := VPush (x : T) | VReserve (n : nat) | VResize (d : T) (n : nat) | VErase (i : nat) | VClear | VAssign (cp : vector T).

Definition vector_step (v : vector T) (op : vector_op) : outcome (vector T) :=
  match op with
  | VPush x => push_back size_of (Elsewhere x) v
  | VReserve n => reserve size_of n v
  | VResize d n => resize size_of d n v
  | VErase i => r ← erase i v; Ret r.2
  | VClear => clear v
  | VAssign cp => assign_copy size_of cp v
  end.

Fixpoint vector_run (ops : list vector_op) (v : vector T) : outcome (vector T) :=
  match ops with
  | [] => Ret v
  | op :: ops => v ← vector_step v op; vector_run ops v
  end.

(** The same operation on a list, where it is allowed: resize only to grow, erase of an element. *)
Inductive list_step : list T → vector_op → list T → Prop :=
  | ls_push l x : list_step l (VPush x) (l ++ [x])
  | ls_reserve l n : list_step l (VReserve n) l
  | ls_resize l d n : length l ≤ n → list_step l (VResize d n) (l ++ replicate (n - length l) d)
  | ls_erase l i : i < length l → (Z.of_nat i < 2 ^ 31)%Z → list_step l (VErase i) (take i l ++ drop (S i) l)
  | ls_clear l : list_step l VClear []
  | ls_assign l cp l' : holds cp l' → list_step l (VAssign cp) l'.

Inductive list_run : list vector_op → list T → list T → Prop :=
  | lr_nil l : list_run [] l l
  | lr_cons op ops l1 l2 l3 : list_step l1 op l2 → list_run ops l2 l3 → list_run (op :: ops) l1 l3.

Lemma vector_step_holds op v l l' :
  0 < size_of → holds v l → list_step l op l' → ∃ v', vector_step v op = Ret v' ∧ holds v' l'.
Proof.
  intros Hz Hv Hs. destruct Hs; cbn [vector_step].
  - destruct (push_back_holds (Elsewhere x) v l x Hz Hv) as (v' & ? & ? & _); [done | done |]. by exists v'.
  - destruct (reserve_holds n v l Hv) as (v' & ? & ? & _). by exists v'.
  - by apply resize_grows.
  - destruct (erase_holds i v l) as (v' & -> & ? & _); [done | done | done |]. by exists v'.
  - destruct (clear_holds v l Hv) as (v' & ? & ? & _). by exists v'.
  - by apply (assign_copy_holds cp l' v l).
Qed.

Lemma vector_run_holds ops v l l' :
  0 < size_of → holds v l → list_run ops l l' → ∃ v', vector_run ops v = Ret v' ∧ holds v' l'.
Proof.
  intros Hz Hv Hr. revert v Hv. induction Hr as [l | op ops l1 l2 l3 Hs _ IH]; intros v Hv; [by exists v |]. cbn [vector_run].
  destruct (vector_step_holds op v l1 l2 Hz Hv Hs) as (v1 & -> & H1). cbn [mbind outcome_bind]. by apply IH.
Qed.

(** C24: the vector refines a list: whatever operations are done on a new vector they return, the elements read back
    by index are those of the same operations on a list, a copy of the vector holds the same, and the destructor, or a
    move into the vector, destroys every element exactly once.  The operations are push_back of a value that is not in
    the vector itself (of its own element it is not safe: push_back_own_element), reserve, resize to at least as many
    elements (to fewer it is not safe: resize_shrink_double_destroy), erase of an element it has, below 2^31, clear,
    and assignment of a copy. *)
Theorem vector_refines ops l :
  0 < size_of → list_run ops [] l →
  ∃ v, vector_run ops new_vector = Ret v ∧ v_size v = length l ∧
    (∀ i, at_ i v = match l !! i with Some x => Ret x | None => OutOfBounds end) ∧
    (∃ c, copy_vector size_of v = Ret c ∧ holds c l) ∧
    (∀ w, assign_move w v = Ret (w, new_vector)) ∧
    destroy_vector v = Ret new_vector.
Proof.
  intros Hz Hr. destruct (vector_run_holds ops new_vector [] l Hz holds_new Hr) as (v & E & Hv). exists v.
  split; [done |]. split; [apply Hv |]. split; [intros i; by apply at_holds |].
  split; [by apply copy_vector_holds |]. split; [intros w; by apply (assign_move_holds w v l) | by apply (destroy_vector_holds v l)].
Qed.

(** push_back grows the storage to the number of elements and no further: each one after the first few moves
    all of them again. *)
Theorem push_back_capacity x v l :
  0 < size_of → holds v l → minimum_size size_of ≤ length l → capacity v = length l →
  ∃ v', push_back size_of (Elsewhere x) v = Ret v' ∧ holds v' (l ++ [x]) ∧ capacity v' = S (length l).
Proof.
  intros Hz Hv Hm Hc. destruct (push_back_holds (Elsewhere x) v l x Hz Hv) as (v' & E & H & Ec); [done | done |].
  exists v'. split; [done |]. split; [done | lia].
Qed.

(** push_back of an element of the vector itself reads it after its storage is gone when the vector is full. *)
Theorem push_back_own_element i v l :
  holds v l → i < length l → capacity v = length l → push_back size_of (Element i) v = OutOfBounds.
Proof.
  intros Hv Hi Hc. unfold push_back. rewrite (proj1 Hv), (proj2 (Nat.leb_le _ _)) by lia.
  destruct (reserve_holds (length l + 1) v l Hv) as (v' & -> & _ & _ & Ec & _). cbn [mbind outcome_bind argument_value].
  by rewrite (proj2 (Nat.eqb_neq _ _)) by lia.
Qed.

Lemma destroy_stuck s1 l s2 n : destroy_loop (length l + S n) (length s1) (s1 ++ (Some <$> l) ++ None :: s2) = OutOfBounds.
Proof.
  revert s1. induction l as [| x l IH]; intros s1; cbn [length Nat.add destroy_loop fmap list_fmap app].
  - unfold destroy. by rewrite list_lookup_middle.
  - rewrite destroy_at. cbn [mbind outcome_bind snd]. specialize (IH (s1 ++ [None])).
    rewrite length_app, Nat.add_1_r, <- !app_assoc in IH. exact IH.
Qed.

(** resize to fewer elements destroys the last ones and keeps counting them: the next clear, or the destructor,
    destroys them again. *)
Theorem resize_shrink_double_destroy d sz v l :
  holds v l → sz < length l →
  ∃ v', resize size_of d sz v = Ret v' ∧ v_size v' = length l ∧ destroy_vector v' = OutOfBounds ∧ clear v' = OutOfBounds.
Proof.
  intros Hv Hl. destruct v as [[s |] z]; destruct Hv as [Hz Hd]; cbn [v_data v_size] in *; [| subst l; cbn in Hl; lia].
  destruct Hd as [_ [free ->]]. subst z. unfold resize. unfold capacity. cbn [v_data]. rewrite rep_slots_length.
  rewrite (proj2 (Nat.ltb_ge (length l + free) sz)) by lia. cbn [mbind outcome_bind v_size].
  rewrite (proj2 (Nat.ltb_ge (length l) sz)), (proj2 (Nat.ltb_lt sz (length l))) by lia. unfold slots. cbn [v_data mbind outcome_bind].
  set (l1 := take sz l). set (l2 := drop sz l). assert (l = l1 ++ l2) as E by (symmetry; apply take_drop).
  assert (length l1 = sz) as H1 by (unfold l1; rewrite length_take; lia).
  assert (length l2 = length l - sz) as H2 by (unfold l2; by rewrite length_drop).
  assert (rep_slots l free = (Some <$> l1) ++ (Some <$> l2) ++ replicate free None) as ->
    by (unfold rep_slots; by rewrite E, fmap_app, <- app_assoc).
  pose proof (destroy_all (Some <$> l1) l2 (replicate free None)) as D. rewrite length_fmap, H1, H2 in D. rewrite D.
  cbn [mbind outcome_bind]. eexists. split; [done |]. split; [done |]. unfold destroy_vector, clear. cbn [v_data v_size].
  replace (length l - sz) with (S (length l - sz - 1)) by lia. cbn [replicate app].
  pose proof (destroy_stuck [] l1 (replicate (length l - sz - 1) None ++ replicate free None) (length l - sz - 1)) as S1.
  replace (length l1 + S (length l - sz - 1)) with (length l) in S1 by lia. cbn [app length] in S1. by rewrite S1.
Qed.

End Correct.

(** A vector of three 8-byte elements. *)
Definition three : vector Z := Vector (Some [Some 1; Some 2; Some 3]%Z) 3.

Lemma three_holds : holds 8 three [1; 2; 3]%Z.
Proof. split; [done |]. split; [cbn; lia |]. by exists 0. Qed.

Lemma vector_refines_witness :
  ∃ v, vector_run 8 [VPush 5; VAssign three; VPush 4; VErase 1; VResize 0 5; VErase 0]%Z new_vector = Ret v ∧ v_size v = 4 ∧
    (∀ i, at_ i v = match ([3; 4; 0; 0]%Z : list Z) !! i with Some x => Ret x | None => OutOfBounds end) ∧
    (∃ c, copy_vector 8 v = Ret c ∧ holds 8 c [3; 4; 0; 0]%Z) ∧ (∀ w, assign_move w v = Ret (w, new_vector)) ∧
    destroy_vector v = Ret new_vector.
Proof.
  apply (vector_refines 8 [VPush 5; VAssign three; VPush 4; VErase 1; VResize 0 5; VErase 0]%Z [3; 4; 0; 0]%Z); [lia |].
  econstructor; [apply ls_push |]. econstructor; [apply ls_assign, three_holds |]. econstructor; [apply ls_push |].
  econstructor; [apply ls_erase; cbn; lia |]. econstructor; [apply ls_resize; cbn; lia |]. econstructor; [apply ls_erase; cbn; lia |].
  apply lr_nil.
Defined.

Lemma push_back_capacity_witness :
  ∃ v', push_back 8 (Elsewhere 9%Z) three = Ret v' ∧ holds 8 v' [1; 2; 3; 9]%Z ∧ capacity v' = 4.
Proof. apply (push_back_capacity 8 9%Z three [1; 2; 3]%Z); [lia | apply three_holds | cbn; lia | done]. Defined.

Lemma push_back_own_element_witness : push_back 8 (Element 0) three = OutOfBounds.
Proof. apply (push_back_own_element 8 0 three [1; 2; 3]%Z); [apply three_holds | cbn; lia | done]. Defined.

Lemma resize_shrink_double_destroy_witness :
  ∃ v', resize 8 0%Z 1 three = Ret v' ∧ v_size v' = 3 ∧ destroy_vector v' = OutOfBounds ∧ clear v' = OutOfBounds.
Proof. apply (resize_shrink_double_destroy 8 0%Z 1 three [1; 2; 3]%Z); [apply three_holds | cbn; lia]. Defined.
