(* ===== verification/StdString.v ===== *)
(** include/std/std_string.h: the string of the kernel's C++ library, for char.  A string of up to 23
    characters is inside the object, with the number of unused places in its last byte, which is the
    terminating zero when there are none; a longer one is allocated. *)
From S2P Require Import Prelude Endian.

Local Open Scope Z_scope.

(** * The code *)

Section String.
(** What fresh memory holds. *)
Variable junk : Z.

(** The union of [shrt] and [ptr], told apart by [unused_capacity]. *)
Inductive basic_string :=
  | Short (space : list Z) (unused : Z)
  | Long (buf : list Z) (size : Z) (cap : list Z).

(** data(), with the last byte of the object after the short string's space. *)
Definition str_data (s : basic_string) : list Z :=
  match s with Short space unused => space ++ [unused] | Long buf _ _ => buf end.

Definition str_size (s : basic_string) : Z :=
  match s with Short _ unused => u8 (23 - unused) | Long _ size _ => size end.

Definition str_capacity (s : basic_string) : Z :=
  match s with Short _ _ => 23 | Long _ _ cap => le_word cap end.

(** A copy of [bytes] to the place [i] of an array. *)
Definition splice (i : nat) (bytes d : list Z) : list Z := take i d ++ bytes ++ drop (i + length bytes) d.
Definition blit (i : nat) (bytes d : list Z) : outcome (list Z) :=
  if (i + length bytes <=? length d)%nat then Ret (splice i bytes d) else OutOfBounds.

(** A copy to data() + i; a short string whose last byte would say it is not one stops the code. *)
Definition write_data (i : nat) (bytes : list Z) (s : basic_string) : outcome basic_string :=
  d ← blit i bytes (str_data s);
  match s with
  | Short _ _ => let unused := d !!! 23%nat in if unused <=? 23 then Ret (Short (take 23 d) unused) else OutOfBounds
  | Long _ size cap => Ret (Long d size cap)
  end.

(** short_string_s::set_size, whose parameter is a byte *)
Definition short_set_size (space : list Z) (size : Z) : basic_string :=
  let size := u8 size in
  if negb (size =? 0) then Short (if size <? 23 then <[Z.to_nat size := 0]> space else space) (u8 (23 - size))
  else Short (<[0%nat := 0]> space) 23.

(** [c.ptr.size = size] of a long string, set_size of a short one *)
Definition update_size (size : Z) (s : basic_string) : basic_string :=
  match s with Short space _ => short_set_size space size | Long buf _ cap => Long buf size cap end.

Definition new_string : basic_string := short_set_size (replicate 23 0) 0.

(** string_pointer_s::pad_capacity: the allocation unit is 32 bytes. *)
Definition get_alloc_unit : Z := 32.
Definition pad_capacity (suggestion : Z) : Z :=
  let overshoot := Z.land suggestion (get_alloc_unit - 1) in
  if overshoot =? 0 then suggestion else u64 (suggestion + get_alloc_unit - overshoot).

Definition str_reserve (new_cap : Z) (s : basic_string) : outcome basic_string :=
  if str_capacity s <? new_cap then
    let padded_alloc_len := pad_capacity (u64 (new_cap + 1)) in
    let size_v := str_size s in
    let new_data := replicate (Z.to_nat padded_alloc_len) junk in
    new_data ← blit 0 (take (Z.to_nat size_v) (str_data s)) new_data;
    new_data ← wr new_data size_v 0;
    Ret (Long new_data size_v (le_bytes 7 (padded_alloc_len - 1)))
  else Ret s.

(** basic_string(const CharT *, size_type) *)
Definition make_string (cstr : list Z) : outcome basic_string :=
  let length := Z.of_nat (length cstr) in
  if length <=? 23 then
    d ← blit 0 cstr (replicate 23 0);
    Ret (short_set_size d length)
  else
    s ← str_reserve length new_string;
    s ← write_data 0 cstr s;
    s ← write_data (Z.to_nat length) [0] s;
    Ret (update_size length s).

(** append(const CharT *, size_type), of characters outside the string, and append(size_type, CharT) *)
Definition str_append (str : list Z) (s : basic_string) : outcome basic_string :=
  let sz := str_size s in
  let count := Z.of_nat (length str) in
  s ← (if str_capacity s <? u64 (sz + count) then str_reserve (u64 (sz + count)) s else Ret s);
  s ← write_data (Z.to_nat sz) str s;
  match s with
  | Short space _ => Ret (short_set_size space (sz + count))
  | Long _ _ _ => s ← write_data (Z.to_nat (sz + count)) [0] s; Ret (update_size (u64 (sz + count)) s)
  end.

Definition str_clear (s : basic_string) : outcome basic_string :=
  match s with
  | Short space _ => Ret (short_set_size space 0)
  | Long buf _ cap => buf ← wr buf 0 0; Ret (Long buf 0 cap)
  end.

Definition npos : Z := 2 ^ 64 - 1.

Definition str_erase (index count : Z) (s : basic_string) : outcome basic_string :=
  let count := if npos - index <? count then npos - index else count in
  let sz := str_size s in
  let end_ := if sz <? u64 (index + count) then sz else u64 (index + count) in
  s ← (if end_ <? sz then write_data (Z.to_nat index) (take (Z.to_nat (sz - end_)) (drop (Z.to_nat end_) (str_data s))) s else Ret s);
  Ret (update_size (u64 (sz - count)) s).

(** string_pointer_s::set_size of a long string *)
Definition long_set_size (size : Z) (s : basic_string) : outcome basic_string :=
  s ← write_data (Z.to_nat size) [0] s; Ret (update_size size s).

Definition str_resize (count ch : Z) (s : basic_string) : outcome basic_string :=
  let size := str_size s in
  let fill := replicate (Z.to_nat (count - size)) ch in
  match s with
  | Short space _ =>
      if size =? count then Ret s
      else if count <? size then Ret (short_set_size space count)
      else if count <=? 23 then
        d ← blit (Z.to_nat size) fill space;
        Ret (short_set_size d count)
      else
        s ← str_reserve count s;
        s ← write_data (Z.to_nat size) fill s;
        long_set_size count s
  | Long _ _ _ =>
      if count =? size then Ret s
      else if count <? size then long_set_size count s
      else
        s ← (if str_capacity s <? count then str_reserve count s else Ret s);
        s ← write_data (Z.to_nat size) fill s;
        long_set_size count s
  end.

(** copy_from, of a string that is another object *)
Definition copy_from (cp s : basic_string) : outcome basic_string :=
  match cp, s with
  | Short space unused, Short _ _ => Ret (Short space unused)
  | _, _ =>
      let sz := str_size cp in
      s ← str_reserve sz s;
      if (Z.to_nat sz + 1 <=? length (str_data cp))%nat then
        s ← write_data 0 (take (Z.to_nat sz + 1) (str_data cp)) s;
        Ret (update_size sz s)
      else OutOfBounds
  end.

(** at *)
Definition str_at (pos : Z) (s : basic_string) : outcome Z :=
  if (0 <=? pos) && (pos <? str_size s) then rd (str_data s) pos else OutOfBounds.

(** [at(i) = c] *)
Definition str_put (pos c : Z) (s : basic_string) : outcome basic_string :=
  if (0 <=? pos) && (pos <? str_size s) then write_data (Z.to_nat pos) [c] s else OutOfBounds.

(** The loop of substr. *)
Fixpoint substr_loop (n : nat) (p i : Z) (from str : basic_string) : outcome (Z * basic_string) :=
  match n with
  | O => Ret (i, str)
  | S n => c ← str_at p from; str ← str_put i c str; substr_loop n (p + 1) (i + 1) from str
  end.

Definition str_substr (pos count : Z) (s : basic_string) : outcome basic_string :=
  let sz := str_size s in
  if sz <=? pos then Ret new_string else
  let count := if sz - pos <? count then sz - pos else count in
  str ← str_reserve count new_string;
  r ← substr_loop (Z.to_nat count) pos 0 s str;
  str ← str_put r.1 0 r.2;
  Ret (update_size count str).

(** char_traits::compare: the difference is a char. *)
Fixpoint traits_compare (s1 s2 : list Z) : Z :=
  match s1, s2 with
  | a :: s1, b :: s2 =>
      let diff := (a - b + 128) mod 256 - 128 in
      if negb (diff =? 0) then diff else traits_compare s1 s2
  | _, _ => 0
  end.

(** compare(const basic_string &) *)
Definition str_compare (s t : basic_string) : Z :=
  let n := str_size s in
  let comp := if str_size t <? n then str_size t else n in
  let diff := traits_compare (take (Z.to_nat comp) (str_data s)) (take (Z.to_nat comp) (str_data t)) in
  if (diff =? 0) && negb (n =? str_size t) then (if str_size t <? n then 1 else -1) else diff.

(** compare(const CharT *, size_t) *)
Definition str_compare_cstr (s : basic_string) (str : list Z) : Z :=
  let len := Z.of_nat (length str) in
  let comp := if str_size s <? len then str_size s else len in
  let diff := traits_compare (take (Z.to_nat comp) (str_data s)) (take (Z.to_nat comp) str) in
  if (diff =? 0) && negb (len =? str_size s) then (if str_size s <? len then 1 else -1) else diff.

(** find_last_of *)
Fixpoint find_last_loop (p : nat) (ch : Z) (s : basic_string) : outcome Z :=
  match p with
  | O => Ret npos
  | S p => c ← str_at (Z.of_nat p) s; if c =? ch then Ret (Z.of_nat p) else find_last_loop p ch s
  end.
Definition find_last_of (ch pos : Z) (s : basic_string) : outcome Z :=
  let p := if pos <? str_size s then pos + 1 else str_size s in
  find_last_loop (Z.to_nat p) ch s.

End String.

(** * The string holds its characters *)

Section Correct.
Variable junk : Z.
Implicit Types (l : list Z) (s : basic_string).

(** [s] has the characters [l]. *)
Definition str_holds s l : Prop :=
  match s with
  | Short space unused => length space = 23%nat ∧ (length l ≤ 23)%nat ∧ unused = 23 - Z.of_nat (length l) ∧ take (length l) space = l
  | Long buf size cap =>
      size = Z.of_nat (length l) ∧ Z.of_nat (length buf) = le_word cap + 1 ∧ Z.of_nat (length l) ≤ le_word cap < 2 ^ 56 ∧
      take (length l) buf = l
  end.

(** The characters are followed by a zero. *)
Definition terminated s : Prop := str_data s !! Z.to_nat (str_size s) = Some 0.

(** ** Copies *)

Lemma blit_ok i bytes d : (i + length bytes ≤ length d)%nat → blit i bytes d = Ret (splice i bytes d).
Proof. intros H. unfold blit. by rewrite (proj2 (Nat.leb_le _ _)). Qed.

Lemma splice_length i bytes d : (i + length bytes ≤ length d)%nat → length (splice i bytes d) = length d.
Proof. intros H. unfold splice. rewrite !length_app, length_take, length_drop. lia. Qed.

Lemma splice_take i bytes d : (i + length bytes ≤ length d)%nat → take (i + length bytes) (splice i bytes d) = take i d ++ bytes.
Proof.
  intros H. unfold splice. rewrite app_assoc, take_app_le, take_ge; [done | |]; rewrite length_app, length_take; lia.
Qed.

Lemma splice_take_before i j bytes d : (j ≤ i)%nat → (i ≤ length d)%nat → take j (splice i bytes d) = take j d.
Proof. intros H1 H2. unfold splice. rewrite take_app_le, take_take by (rewrite length_take; lia). f_equal. lia. Qed.

Lemma splice_here i b d : (i ≤ length d)%nat → splice i [b] d !! i = Some b.
Proof. intros H. unfold splice. rewrite lookup_app_r, length_take_le, Nat.sub_diag by (rewrite ?length_take; lia). done. Qed.

Lemma splice_after i bytes d k : (i + length bytes ≤ k < length d)%nat → splice i bytes d !! k = d !! k.
Proof.
  intros H. unfold splice. rewrite !lookup_app_r by (rewrite ?length_take; lia). rewrite lookup_drop, length_take. f_equal. lia.
Qed.

Lemma write_long i bytes buf size cap :
  (i + length bytes ≤ length buf)%nat → write_data i bytes (Long buf size cap) = Ret (Long (splice i bytes buf) size cap).
Proof. intros H. unfold write_data. cbn [str_data]. by rewrite blit_ok. Qed.

Lemma write_short i bytes space unused :
  length space = 23%nat → unused ≤ 23 → (i + length bytes ≤ 23)%nat →
  write_data i bytes (Short space unused) = Ret (Short (splice i bytes space) unused).
Proof.
  intros Hs Hu H. unfold write_data. cbn [str_data]. rewrite blit_ok by (rewrite length_app; cbn; lia). cbn [mbind outcome_bind].
  assert (splice i bytes (space ++ [unused]) = splice i bytes space ++ [unused]) as ->.
  { unfold splice. rewrite take_app_le, drop_app_le by lia. by rewrite <- !app_assoc. }
  pose proof (splice_length i bytes space) as El. rewrite list_lookup_total_middle by lia.
  rewrite (proj2 (Z.leb_le unused 23)) by done. by rewrite take_app_length' by lia.
Qed.

(** ** Sizes *)

Lemma holds_size s l : str_holds s l → str_size s = Z.of_nat (length l).
Proof.
  destruct s as [space unused | buf size cap]; cbn; [| by intros [-> _]]. intros (_ & H & -> & _). unfold wrap.
  rewrite Z.mod_small; lia.
Qed.

Lemma holds_data s l : str_holds s l → take (length l) (str_data s) = l ∧ (length l < length (str_data s))%nat.
Proof.
  destruct s as [space unused | buf size cap]; cbn.
  - intros (H1 & H2 & _ & H3). rewrite take_app_le, length_app by lia. cbn. split; [done | lia].
  - intros (_ & H1 & H2 & H3). split; [done | lia].
Qed.

Lemma short_sized space l n :
  length space = 23%nat → (length l ≤ 23)%nat → take (length l) space = l → n = Z.of_nat (length l) →
  str_holds (short_set_size space n) l ∧ terminated (short_set_size space n).
Proof.
  intros Hs Hl Ht ->. unfold short_set_size, terminated. assert (u8 (Z.of_nat (length l)) = Z.of_nat (length l)) as ->.
  { unfold wrap. apply Z.mod_small. lia. }
  assert (u8 (23 - Z.of_nat (length l)) = 23 - Z.of_nat (length l)) as -> by (unfold wrap; apply Z.mod_small; lia).
  destruct (Z.eqb_spec (Z.of_nat (length l)) 0) as [E | E]; cbn [negb].
  { destruct l; [| cbn in E; lia]. destruct space as [| x space]; [done |]. cbn. repeat split; by try lia. }
  destruct (Z.ltb_spec (Z.of_nat (length l)) 23) as [H | H]; cbn [str_holds str_data str_size].
  - rewrite Nat2Z.id, length_insert, take_insert_ge by lia. split; [done |]. unfold wrap. rewrite Z.mod_small by lia.
    replace (Z.to_nat (23 - (23 - Z.of_nat (length l)))) with (length l) by lia.
    rewrite lookup_app_l by (rewrite length_insert; lia). apply list_lookup_insert_eq. lia.
  - split; [done |]. unfold wrap. rewrite Z.mod_small by lia. rewrite lookup_app_r by lia.
    replace (Z.to_nat (23 - (23 - Z.of_nat (length l))) - length space)%nat with 0%nat by lia. cbn. f_equal. lia.
Qed.

Lemma pad_capacity_spec x : 0 < x < 2 ^ 60 → x ≤ pad_capacity x < x + 32.
Proof.
  intros H. unfold pad_capacity, get_alloc_unit. change (32 - 1) with (Z.ones 5). rewrite Z.land_ones by lia.
  pose proof (Z.mod_pos_bound x (2 ^ 5)). destruct (Z.eqb_spec (x mod 2 ^ 5) 0); [lia |]. unfold wrap. rewrite Z.mod_small; lia.
Qed.

Lemma holds_capacity s l : str_holds s l → Z.of_nat (length l) ≤ str_capacity s.
Proof. destruct s; cbn; lia. Qed.

Lemma str_reserve_holds n s l :
  str_holds s l → n < 2 ^ 55 →
  ∃ s', str_reserve junk n s = Ret s' ∧ str_holds s' l ∧ (terminated s → terminated s') ∧ n ≤ str_capacity s' ∧
    (s' = s ∨ ∃ buf size cap, s' = Long buf size cap).
Proof.
  intros Hs Hn. unfold str_reserve. pose proof (holds_capacity s l Hs) as Hc. destruct (Z.ltb_spec (str_capacity s) n) as [H | H].
  2:{ exists s. split; [done |]. split; [done |]. split; [done |]. split; [done | by left]. }
  rewrite (holds_size s l Hs). destruct (holds_data s l Hs) as [Hd Hl]. rewrite Nat2Z.id, Hd.
  assert (u64 (n + 1) = n + 1) as -> by (unfold wrap; apply Z.mod_small; lia).
  pose proof (pad_capacity_spec (n + 1)) as Hp. set (pad := pad_capacity (n + 1)) in *.
  rewrite blit_ok by (rewrite length_replicate; lia). cbn [mbind outcome_bind].
  assert (length (splice 0 l (replicate (Z.to_nat pad) junk)) = Z.to_nat pad) as EL by (rewrite splice_length; rewrite length_replicate; lia).
  unfold wr. rewrite Nat2Z.id. destruct (lookup_lt_is_Some_2 (splice 0 l (replicate (Z.to_nat pad) junk)) (length l)) as [x ->]; [lia |].
  cbn [mbind outcome_bind]. assert (le_word (le_bytes 7 (pad - 1)) = pad - 1) as EW by (apply le_word_bytes; cbn; lia).
  eexists. split; [done |]. cbn [str_holds str_capacity]. rewrite EW, length_insert, EL, take_insert_ge by lia.
  split; [| split; [| split; [lia | right; by eexists _, _, _]]].
  - split; [done |]. split; [lia |]. split; [lia |]. apply (splice_take 0 l). rewrite length_replicate. lia.
  - intros _. unfold terminated. cbn [str_data str_size]. rewrite Nat2Z.id. apply list_lookup_insert_eq. lia.
Qed.

(** Characters written after those of a long string, and the zero after them. *)
Lemma long_append buf size cap l bytes n :
  str_holds (Long buf size cap) l → Z.of_nat (length l + length bytes) ≤ le_word cap → n = Z.of_nat (length l + length bytes) →
  ∃ s', (s ← write_data (length l) bytes (Long buf size cap); s ← write_data (Z.to_nat n) [0] s; Ret (update_size n s)) = Ret s' ∧
    str_holds s' (l ++ bytes) ∧ terminated s'.
Proof.
  intros (-> & H1 & H2 & H3) Hc ->. rewrite write_long by lia. cbn [mbind outcome_bind]. rewrite Nat2Z.id.
  pose proof (splice_length (length l) bytes buf) as EL. rewrite write_long by (cbn; lia). cbn [mbind outcome_bind update_size].
  eexists. split; [done |]. unfold terminated. cbn [str_holds str_data str_size]. rewrite length_app, Nat2Z.id, splice_length by (cbn; lia).
  split; [| apply splice_here; lia]. split; [done |]. split; [lia |]. split; [lia |].
  rewrite splice_take_before, splice_take by lia. by rewrite H3.
Qed.

Lemma append_holds bytes s l :
  str_holds s l → Z.of_nat (length l + length bytes) < 2 ^ 55 →
  ∃ s', str_append junk bytes s = Ret s' ∧ str_holds s' (l ++ bytes) ∧ terminated s'.
Proof.
  intros Hs Hb. unfold str_append. rewrite (holds_size s l Hs).
  assert (u64 (Z.of_nat (length l) + Z.of_nat (length bytes)) = Z.of_nat (length l + length bytes)) as ->
    by (unfold wrap; rewrite Z.mod_small; lia).
  set (r := if _ <? _ then _ else _). assert (∃ s', r = Ret s' ∧ str_holds s' l ∧ Z.of_nat (length l + length bytes) ≤ str_capacity s')
    as (s' & -> & Hs' & Hc).
  { unfold r. destruct (Z.ltb_spec (str_capacity s) (Z.of_nat (length l + length bytes))) as [H | H]; [| by exists s].
    destruct (str_reserve_holds _ s l Hs Hb) as (s' & -> & ? & _ & ? & _). by exists s'. }
  cbn [mbind outcome_bind]. rewrite Nat2Z.id, <- Nat2Z.inj_add. destruct s' as [space unused | buf size cap]; cbn [str_capacity] in Hc.
  - destruct Hs' as (H1 & H2 & -> & H3). rewrite write_short by lia. cbn [mbind outcome_bind]. eexists. split; [done |].
    apply short_sized; rewrite ?length_app; [rewrite splice_length; lia | lia | | lia]. rewrite splice_take by lia. by rewrite H3.
  - destruct (long_append buf size cap l bytes _ Hs' Hc eq_refl) as (s' & E & H).
    rewrite write_long in E |- * by (destruct Hs' as (_ & ? & ? & _); lia). exists s'. split; [exact E | done].
Qed.

Lemma new_string_holds : str_holds new_string [] ∧ terminated new_string.
Proof. apply short_sized; cbn; lia || done. Qed.

Lemma make_string_holds cstr :
  Z.of_nat (length cstr) < 2 ^ 55 → ∃ s, make_string junk cstr = Ret s ∧ str_holds s cstr ∧ terminated s.
Proof.
  intros Hl. unfold make_string. destruct (Z.leb_spec (Z.of_nat (length cstr)) 23) as [H | H].
  - rewrite blit_ok by (rewrite length_replicate; lia). cbn [mbind outcome_bind]. eexists. split; [done |].
    apply short_sized; [rewrite splice_length; rewrite ?length_replicate; lia | lia | | done].
    apply (splice_take 0 cstr). rewrite length_replicate. lia.
  - destruct (str_reserve_holds (Z.of_nat (length cstr)) new_string [] (proj1 new_string_holds) Hl) as (s & -> & Hs & _ & Hc & [-> | (buf & size & cap & ->)]).
    { change (str_capacity new_string) with 23 in Hc. lia. }
    cbn [mbind outcome_bind]. by apply (long_append buf size cap []).
Qed.

Lemma clear_string_holds s l : str_holds s l → ∃ s', str_clear s = Ret s' ∧ str_holds s' [] ∧ terminated s'.
Proof.
  destruct s as [space unused | buf size cap]; cbn [str_clear].
  - intros (H & _). eexists. split; [done |]. apply short_sized; cbn; lia || done.
  - intros (-> & H1 & H2 & _). unfold wr. destruct buf as [| x buf]; [cbn in H1; lia |]. cbn. eexists. split; [done |].
    cbn in H1 |- *. repeat split; lia || done.
Qed.

Lemma str_at_holds s l pos : str_holds s l → 0 ≤ pos < Z.of_nat (length l) → str_at pos s = Ret (l !!! Z.to_nat pos).
Proof.
  intros Hs Hp. unfold str_at. rewrite (holds_size s l Hs), (proj2 (Z.leb_le 0 pos)), (proj2 (Z.ltb_lt pos _)) by lia. cbn [andb].
  destruct (holds_data s l Hs) as [Hd Hl]. unfold rd. rewrite <- (lookup_take_lt _ (length l)), Hd by lia.
  destruct (lookup_lt_is_Some_2 l (Z.to_nat pos)) as [x Hx]; [lia |]. rewrite Hx. by rewrite (list_lookup_total_correct _ _ _ Hx).
Qed.

(** The characters of [l] without those from [i] to [j]. *)
Definition cut (i j : nat) l : list Z := take i l ++ drop j l.

Lemma cut_length i j l : (i ≤ j ≤ length l)%nat → length (cut i j l) = (length l - (j - i))%nat.
Proof. intros H. unfold cut. rewrite length_app, length_take, length_drop. lia. Qed.

Lemma cut_splice i j l d :
  take (length l) d = l → (i ≤ j ≤ length l)%nat → (length l ≤ length d)%nat → take (length (cut i j l)) (splice i (drop j l) d) = cut i j l.
Proof.
  intros Ht H Hl. rewrite cut_length by done. replace (length l - (j - i))%nat with (i + length (drop j l))%nat by (rewrite length_drop; lia).
  rewrite splice_take by (rewrite length_drop; lia). unfold cut. f_equal. rewrite <- Ht at 1. rewrite take_take. f_equal. lia.
Qed.

Lemma splice_nil i d : splice i [] d = d.
Proof. unfold splice. cbn [app length]. by rewrite Nat.add_0_r, take_drop. Qed.

Lemma tail_of_data s l j : str_holds s l → (j ≤ length l)%nat → take (length l - j) (drop j (str_data s)) = drop j l.
Proof.
  intros Hs Hj. destruct (holds_data s l Hs) as [Hd _]. rewrite take_drop_commute.
  replace (j + (length l - j))%nat with (length l) by lia. by rewrite Hd.
Qed.

Lemma erase_string_holds index count s l :
  str_holds s l → Z.of_nat (length l) < 2 ^ 55 → 0 ≤ index → 0 ≤ count → index + count ≤ Z.of_nat (length l) →
  ∃ s', str_erase index count s = Ret s' ∧ str_holds s' (cut (Z.to_nat index) (Z.to_nat (index + count)) l) ∧
    match s with Short _ _ => terminated s' | Long _ _ _ => True end.
Proof.
  intros Hs Hb Hi Hc Hl. unfold str_erase. rewrite (holds_size s l Hs). unfold npos.
  rewrite (proj2 (Z.ltb_ge _ count)) by lia. assert (u64 (index + count) = index + count) as -> by (unfold wrap; apply Z.mod_small; lia).
  rewrite (proj2 (Z.ltb_ge (Z.of_nat (length l)) (index + count))) by lia.
  set (i := Z.to_nat index). set (j := Z.to_nat (index + count)). set (r := if _ <? _ then _ else _).
  assert (u64 (Z.of_nat (length l) - count) = Z.of_nat (length (cut i j l))) as ->.
  { rewrite cut_length by lia. unfold wrap. rewrite Z.mod_small; lia. }
  assert (r = write_data i (drop j l) s) as ->.
  { unfold r. destruct (Z.ltb_spec (index + count) (Z.of_nat (length l))) as [H | H].
    - replace (Z.to_nat (Z.of_nat (length l) - (index + count))) with (length l - j)%nat by lia. by rewrite tail_of_data by (done || lia).
    - rewrite drop_ge by lia. destruct s as [space unused | buf size cap].
      + destruct Hs as (H1 & H2 & -> & H3). rewrite write_short by (cbn; lia). by rewrite splice_nil.
      + destruct Hs as (_ & H1 & H2 & _). rewrite write_long by (cbn; lia). by rewrite splice_nil. }
  pose proof (cut_length i j l ltac:(lia)) as EL. destruct s as [space unused | buf size cap].
  - destruct Hs as (H1 & H2 & -> & H3). rewrite write_short by (rewrite ?length_drop; lia). cbn [mbind outcome_bind update_size].
    destruct (short_sized (splice i (drop j l) space) (cut i j l) _ ltac:(rewrite splice_length; rewrite ?length_drop; lia) ltac:(lia)
      (cut_splice i j l space H3 ltac:(lia) ltac:(lia)) eq_refl) as [S1 S2]. eexists. split; [done |]. by split.
  - destruct Hs as (-> & H1 & H2 & H3). rewrite write_long by (rewrite ?length_drop; lia). cbn [mbind outcome_bind update_size].
    eexists. split; [done |]. cbn [str_holds str_capacity]. rewrite splice_length by (rewrite length_drop; lia).
    split; [| done]. split; [done |]. split; [done |]. split; [lia |]. apply cut_splice; [done | lia | lia].
Qed.

Definition resized (n : nat) (ch : Z) l : list Z := take n l ++ replicate (n - length l) ch.

Lemma resized_cut n ch l : (n ≤ length l)%nat → resized n ch l = take n l.
Proof. intros H. unfold resized. replace (n - length l)%nat with 0%nat by lia. apply app_nil_r. Qed.

Lemma resized_grow n ch l : (length l ≤ n)%nat → resized n ch l = l ++ replicate (n - length l) ch.
Proof. intros H. unfold resized. by rewrite take_ge. Qed.

(** A shorter string in the same place, with its zero. *)
Lemma long_cut buf size cap l n :
  str_holds (Long buf size cap) l → (n ≤ length l)%nat →
  ∃ s', long_set_size (Z.of_nat n) (Long buf size cap) = Ret s' ∧ str_holds s' (take n l) ∧ terminated s'.
Proof.
  intros (-> & H1 & H2 & H3) Hn. unfold long_set_size. rewrite Nat2Z.id, write_long by (cbn; lia). cbn [mbind outcome_bind update_size].
  eexists. split; [done |]. unfold terminated. cbn [str_holds str_data str_size]. rewrite length_take_le, Nat2Z.id, splice_length by (cbn; lia).
  split; [| apply splice_here; lia]. split; [done |]. split; [done |]. split; [lia |].
  rewrite splice_take_before by lia. rewrite <- H3, take_take. f_equal. lia.
Qed.

Lemma long_grow s1 l fill size :
  str_holds s1 l → size = Z.of_nat (length l + length fill) → size ≤ str_capacity s1 → (∃ buf sz cap, s1 = Long buf sz cap) →
  ∃ s', (s ← write_data (length l) fill s1; long_set_size size s) = Ret s' ∧ str_holds s' (l ++ fill) ∧ terminated s'.
Proof.
  intros H1 -> Hc (buf & sz & cap & ->). unfold long_set_size. by apply (long_append buf sz cap l fill _ H1).
Qed.

Lemma resize_string_holds n ch s l :
  str_holds s l → Z.of_nat n < 2 ^ 55 →
  ∃ s', str_resize junk (Z.of_nat n) ch s = Ret s' ∧ str_holds s' (resized n ch l) ∧ (terminated s → terminated s').
Proof.
  intros Hs Hn. unfold str_resize. rewrite (holds_size s l Hs). set (fill := replicate (Z.to_nat _) ch).
  assert (length fill = n - length l)%nat as Hf by (unfold fill; rewrite length_replicate; lia).
  assert (fill = replicate (n - length l) ch) as Ef by (unfold fill; f_equal; lia).
  assert (n = length l → resized n ch l = l) as Esame by (intros ->; by rewrite resized_cut, take_ge by lia).
  destruct s as [space unused | buf size cap].
  - destruct (Z.eqb_spec (Z.of_nat (length l)) (Z.of_nat n)) as [E | E]; [exists (Short space unused); by rewrite Esame by lia |].
    pose proof Hs as (H1 & H2 & -> & H3). destruct (Z.ltb_spec (Z.of_nat n) (Z.of_nat (length l))) as [L | L].
    + eexists. split; [done |]. rewrite resized_cut by lia.
      destruct (short_sized space (take n l) (Z.of_nat n)) as [S1 S2]; rewrite ?length_take_le by lia; [done | lia | | done | by auto].
      rewrite <- H3, take_take. f_equal. lia.
    + destruct (Z.leb_spec (Z.of_nat n) 23) as [M | M].
      * rewrite Nat2Z.id, blit_ok by lia. cbn [mbind outcome_bind]. eexists. split; [done |]. rewrite resized_grow, <- Ef by lia.
        destruct (short_sized (splice (length l) fill space) (l ++ fill) (Z.of_nat n)) as [S1 S2]; rewrite ?length_app;
          [rewrite splice_length; lia | lia | | lia | by auto]. rewrite splice_take by lia. by rewrite H3.
      * destruct (str_reserve_holds _ _ l Hs Hn) as (s1 & -> & Hs1 & _ & Hc & [-> | HL]); [cbn in Hc; lia |]. cbn [mbind outcome_bind].
        rewrite Nat2Z.id, resized_grow, <- Ef by lia. destruct (long_grow s1 l fill (Z.of_nat n)) as (s' & E' & S1 & S2); [done | lia | done | done |].
        by exists s'.
  - destruct (Z.eqb_spec (Z.of_nat n) (Z.of_nat (length l))) as [E | E]; [exists (Long buf size cap); by rewrite Esame by lia |].
    destruct (Z.ltb_spec (Z.of_nat n) (Z.of_nat (length l))) as [L | L].
    + destruct (long_cut buf size cap l n Hs) as (s' & -> & S1 & S2); [lia |]. rewrite resized_cut by lia. by exists s'.
    + rewrite Nat2Z.id, resized_grow, <- Ef by lia. destruct (Z.ltb_spec (str_capacity (Long buf size cap)) (Z.of_nat n)) as [M | M].
      * destruct (str_reserve_holds _ _ l Hs Hn) as (s1 & -> & Hs1 & _ & Hc & HL). cbn [mbind outcome_bind].
        destruct (long_grow s1 l fill (Z.of_nat n)) as (s' & E' & S1 & S2); [done | lia | done | | by exists s'].
        destruct HL as [-> | HL]; [by eexists _, _, _ | done].
      * cbn [mbind outcome_bind].
        destruct (long_grow (Long buf size cap) l fill (Z.of_nat n)) as (s' & E' & S1 & S2); [done | lia | done | by eexists _, _, _ | by exists s'].
Qed.

(** The characters and the zero of a terminated string. *)
Lemma terminated_data s l : str_holds s l → terminated s → take (length l + 1) (str_data s) = l ++ [0].
Proof.
  intros Hs Ht. destruct (holds_data s l Hs) as [Hd _]. unfold terminated in Ht. rewrite (holds_size s l Hs), Nat2Z.id in Ht.
  by rewrite Nat.add_1_r, (take_S_r _ _ 0), Hd by done.
Qed.

(** The characters of another string with their zero, written over those of a string with the room for them. *)
Lemma copied s1 l0 l :
  str_holds s1 l0 → Z.of_nat (length l) ≤ str_capacity s1 →
  ∃ s', (s ← write_data 0 (l ++ [0]) s1; Ret (update_size (Z.of_nat (length l)) s)) = Ret s' ∧ str_holds s' l ∧ terminated s'.
Proof.
  destruct s1 as [space unused | buf size cap]; cbn [str_capacity].
  - intros (H1 & H2 & -> & H3) Hc. destruct (decide (length l = 23)%nat) as [E | E].
    + unfold write_data. cbn [str_data]. rewrite blit_ok by (rewrite !length_app; cbn; lia). cbn [mbind outcome_bind].
      assert (splice 0 (l ++ [0]) (space ++ [23 - Z.of_nat (length l0)]) = l ++ [0]) as ->.
      { unfold splice. rewrite take_0, app_nil_l, drop_ge by (rewrite !length_app; cbn; lia). apply app_nil_r. }
      rewrite list_lookup_total_middle, take_app_length' by lia. cbn [Z.leb Z.compare mbind outcome_bind update_size].
      eexists. split; [done |]. apply short_sized; [done | lia | by rewrite take_ge by lia | done].
    + rewrite write_short by (rewrite ?length_app; cbn; lia). cbn [mbind outcome_bind update_size]. eexists. split; [done |].
      apply short_sized; [rewrite splice_length; rewrite ?length_app; cbn; lia | lia | | done].
      unfold splice. rewrite take_0, app_nil_l, <- app_assoc. by rewrite take_app_length.
  - intros (-> & H1 & H2 & H3) Hc. rewrite write_long by (rewrite length_app; cbn; lia). cbn [mbind outcome_bind update_size].
    eexists. split; [done |]. unfold terminated. cbn [str_holds str_data str_size]. rewrite splice_length, Nat2Z.id by (rewrite length_app; cbn; lia).
    unfold splice. rewrite take_0, app_nil_l, <- app_assoc, take_app_length. split; [repeat split; lia |]. by rewrite lookup_app_r, Nat.sub_diag by lia.
Qed.

Lemma copy_holds cp s l l0 :
  str_holds cp l → terminated cp → Z.of_nat (length l) < 2 ^ 55 → str_holds s l0 →
  ∃ s', copy_from junk cp s = Ret s' ∧ str_holds s' l ∧ terminated s'.
Proof.
  intros Hc Ht Hb Hs. assert (∀ r, r = (let sz := str_size cp in
      s ← str_reserve junk sz s;
      if (Z.to_nat sz + 1 <=? length (str_data cp))%nat then
        s ← write_data 0 (take (Z.to_nat sz + 1) (str_data cp)) s;
        Ret (update_size sz s)
      else OutOfBounds) → ∃ s', r = Ret s' ∧ str_holds s' l ∧ terminated s') as General.
  { intros r ->. cbn zeta. rewrite (holds_size cp l Hc), Nat2Z.id. destruct (str_reserve_holds _ s l0 Hs Hb) as (s1 & -> & Hs1 & _ & Hcap & _).
    cbn [mbind outcome_bind]. rewrite (proj2 (Nat.leb_le _ _)) by (destruct (holds_data cp l Hc); lia).
    rewrite terminated_data by done. apply (copied s1 l0); done. }
  destruct cp as [space unused | buf size cap]; [destruct s as [space' unused' | buf' size' cap'] |]; try (by apply General).
  by exists (Short space unused).
Qed.

(** ** Comparing and searching *)

Lemma traits_compare_eq l l' :
  Forall (is_u 8) l → Forall (is_u 8) l' → length l = length l' → traits_compare l l' = 0 ↔ l = l'.
Proof.
  intros Hl. revert l'. induction Hl as [| a l Ha _ IH]; intros [| b l'] Hl' E; try done. cbn [traits_compare].
  apply Forall_cons in Hl' as [Hb Hl']. injection E as E. specialize (IH l' Hl' E). unfold is_u in Ha, Hb.
  pose proof (Z.mod_pos_bound (a - b + 128) 256). destruct (Z.eqb_spec ((a - b + 128) mod 256 - 128) 0) as [D | D]; cbn [negb].
  - assert (a = b) as ->; [| by rewrite IH; split; [intros -> | intros [= ->]]].
    pose proof (Z.div_mod (a - b + 128) 256). lia.
  - split; [done |]. intros [= -> ->]. rewrite Z.sub_diag in D. done.
Qed.

Lemma str_compare_holds s t l l' :
  str_holds s l → str_holds t l' → Forall (is_u 8) l → Forall (is_u 8) l' → str_compare s t = 0 ↔ l = l'.
Proof.
  intros Hs Ht Hl Hl'. unfold str_compare. rewrite (holds_size s l Hs), (holds_size t l' Ht).
  destruct (holds_data s l Hs) as [Ds _], (holds_data t l' Ht) as [Dt _]. set (comp := if _ <? _ then _ else _).
  assert (Z.to_nat comp = length l `min` length l')%nat as ->.
  { unfold comp. destruct (Z.ltb_spec (Z.of_nat (length l')) (Z.of_nat (length l))); lia. }
  replace (take _ (str_data s)) with (take (length l `min` length l')%nat l) by (rewrite <- Ds at 2; rewrite take_take; f_equal; lia).
  replace (take _ (str_data t)) with (take (length l `min` length l')%nat l') by (rewrite <- Dt at 2; rewrite take_take; f_equal; lia).
  pose proof (traits_compare_eq (take (length l `min` length l') l) (take (length l `min` length l') l')) as C.
  rewrite !length_take_le in C by lia. specialize (C (Forall_take _ _ _ Hl) (Forall_take _ _ _ Hl') eq_refl).
  destruct (Z.eqb_spec (Z.of_nat (length l)) (Z.of_nat (length l'))) as [E | E]; cbn [negb]; rewrite ?andb_false_r, ?andb_true_r.
  - rewrite !take_ge in C |- * by lia. done.
  - destruct (Z.eqb_spec (traits_compare (take (length l `min` length l') l) (take (length l `min` length l') l')) 0) as [D | D].
    + split; [destruct (_ <? _); done | by intros ->].
    + split; [done | by intros ->].
Qed.

(** The last place of a character before [p]. *)
Lemma find_last_spec p ch s l :
  str_holds s l → (p ≤ length l)%nat →
  (∃ i, find_last_loop p ch s = Ret (Z.of_nat i) ∧ (i < p)%nat ∧ l !! i = Some ch ∧ ∀ j, (i < j < p)%nat → l !! j ≠ Some ch) ∨
  (find_last_loop p ch s = Ret npos ∧ ∀ j, (j < p)%nat → l !! j ≠ Some ch).
Proof.
  intros Hs. induction p as [| p IH]; intros Hp; [right; split; [done | lia] |]. cbn [find_last_loop].
  rewrite (str_at_holds s l) by (done || lia). cbn [mbind outcome_bind]. rewrite Nat2Z.id.
  destruct (lookup_lt_is_Some_2 l p) as [x Hx]; [lia |]. rewrite (list_lookup_total_correct _ _ _ Hx).
  destruct (Z.eqb_spec x ch) as [-> | N].
  - left. exists p. split; [done |]. split; [lia |]. split; [done | lia].
  - destruct IH as [(i & E & Hi & Hc & Hn) | [E Hn]]; [lia | left; exists i | right]; (split; [done |]).
    + split; [lia |]. split; [done |]. intros j Hj. destruct (decide (j = p)) as [-> |]; [congruence |]. apply Hn. lia.
    + intros j Hj. destruct (decide (j = p)) as [-> |]; [congruence |]. apply Hn. lia.
Qed.

(** ** Sequences of operations *)

Inductive string_op := SAppend (bytes : list Z) | SErase (index count : Z) | SResize (n : nat) (ch : Z) | SReserve (n : Z) | SClear | SCopy (cp : basic_string).

Definition string_step s (op : string_op) : outcome basic_string :=
  match op with
  | SAppend bytes => str_append junk bytes s
  | SErase index count => str_erase index count s
  | SResize n ch => str_resize junk (Z.of_nat n) ch s
  | SReserve n => str_reserve junk n s
  | SClear => str_clear s
  | SCopy cp => copy_from junk cp s
  end.

Fixpoint string_run (ops : list string_op) s : outcome basic_string :=
  match ops with
  | [] => Ret s
  | op :: ops => s ← string_step s op; string_run ops s
  end.

Definition fits l : Prop := Z.of_nat (length l) < 2 ^ 55.

(** The same on a list: an erase of characters the string has, a copy of a terminated string. *)
Inductive chars_step : list Z → string_op → list Z → Prop :=
  | cs_append l bytes : chars_step l (SAppend bytes) (l ++ bytes)
  | cs_erase l i c : 0 ≤ i → 0 ≤ c → i + c ≤ Z.of_nat (length l) → chars_step l (SErase i c) (cut (Z.to_nat i) (Z.to_nat (i + c)) l)
  | cs_resize l n ch : chars_step l (SResize n ch) (resized n ch l)
  | cs_reserve l n : n < 2 ^ 55 → chars_step l (SReserve n) l
  | cs_clear l : chars_step l SClear []
  | cs_copy l cp l' : str_holds cp l' → terminated cp → chars_step l (SCopy cp) l'.

(** A run on lists that stay shorter than 2^55. *)
Inductive chars_run : list string_op → list Z → list Z → Prop :=
  | cr_nil l : chars_run [] l l
  | cr_cons op ops l1 l2 l3 : chars_step l1 op l2 → fits l2 → chars_run ops l2 l3 → chars_run (op :: ops) l1 l3.

Definition is_erase (op : string_op) : bool := match op with SErase _ _ => true | _ => false end.

Lemma string_step_holds op s l l' :
  str_holds s l → fits l → chars_step l op l' → fits l' →
  ∃ s', string_step s op = Ret s' ∧ str_holds s' l' ∧ (is_erase op = false → terminated s → terminated s').
Proof.
  intros Hs Hf Hst Hf'. unfold fits in *. destruct Hst; cbn [string_step is_erase].
  - destruct (append_holds bytes s l Hs) as (s' & ? & ? & ?); [by rewrite length_app in Hf' |]. by exists s'.
  - destruct (erase_string_holds i c s l) as (s' & ? & ? & _); try done. by exists s'.
  - destruct (decide (Z.of_nat n < 2 ^ 55)) as [Hn | Hn].
    + destruct (resize_string_holds n ch s l Hs Hn) as (s' & ? & ? & ?). exists s'. auto.
    + exfalso. destruct (decide (n ≤ length l)%nat); [lia |]. rewrite resized_grow, length_app, length_replicate in Hf' by lia. lia.
  - destruct (str_reserve_holds n s l Hs) as (s' & ? & ? & ? & _); [done |]. exists s'. auto.
  - destruct (clear_string_holds s l Hs) as (s' & ? & ? & ?). by exists s'.
  - destruct (copy_holds cp s l' l) as (s' & ? & ? & ?); try done. by exists s'.
Qed.

Lemma string_run_holds ops s l l' :
  str_holds s l → fits l → chars_run ops l l' →
  ∃ s', string_run ops s = Ret s' ∧ str_holds s' l' ∧ (Forall (fun op => is_erase op = false) ops → terminated s → terminated s').
Proof.
  intros Hs Hf Hr. revert s Hs Hf. induction Hr as [l | op ops l1 l2 l3 Hst Hf2 _ IH]; intros s Hs Hf; [by exists s |]. cbn [string_run].
  destruct (string_step_holds op s l1 l2 Hs Hf Hst Hf2) as (s1 & -> & H1 & T1). cbn [mbind outcome_bind].
  destruct (IH s1 H1 Hf2) as (s' & E & H' & T'). exists s'. split; [done |]. split; [done |]. intros [Ho Hos]%Forall_cons Ht. auto.
Qed.

(** C25: the string refines a list of characters: whatever operations follow its construction, inside the object or
    allocated, and across the change from one to the other, they return, its size and the characters at each place
    are those of the same operations on a list, and it is terminated by a zero unless characters were erased.  The
    operations are append of characters that are not its own, erase of characters it has, resize, reserve, clear and
    assignment of a terminated string, while the strings stay shorter than 2^55.  Left out are erase past the end,
    append of its own data, moves, and substr, which is never safe (substr_stores_through_null). *)
Theorem string_refines cstr ops l :
  fits cstr → chars_run ops cstr l →
  ∃ s0 s, make_string junk cstr = Ret s0 ∧ string_run ops s0 = Ret s ∧ str_size s = Z.of_nat (length l) ∧
    (∀ pos, 0 ≤ pos < Z.of_nat (length l) → str_at pos s = Ret (l !!! Z.to_nat pos)) ∧
    (Forall (fun op => is_erase op = false) ops → terminated s).
Proof.
  intros Hf Hr. destruct (make_string_holds cstr Hf) as (s0 & E0 & H0 & T0).
  destruct (string_run_holds ops s0 cstr l H0 Hf Hr) as (s & E & H & T). exists s0, s. split; [done |]. split; [done |].
  split; [by apply holds_size |]. split; [intros pos; by apply str_at_holds | auto].
Qed.

(** two strings compare equal exactly when they have the same characters, and find_last_of returns the last place
    of the character, or npos when there is none. *)
Theorem string_compare_find s t l l' ch :
  str_holds s l → str_holds t l' → Forall (is_u 8) l → Forall (is_u 8) l' → fits l →
  (str_compare s t = 0 ↔ l = l') ∧
  ((∃ i, find_last_of ch npos s = Ret (Z.of_nat i) ∧ l !! i = Some ch ∧ ∀ j, (i < j)%nat → l !! j ≠ Some ch) ∨
   (find_last_of ch npos s = Ret npos ∧ ch ∉ l)).
Proof.
  intros Hs Ht Hl Hl' Hf. split; [by apply str_compare_holds |]. unfold find_last_of, fits in *. rewrite (holds_size s l Hs).
  rewrite (proj2 (Z.ltb_ge npos (Z.of_nat (length l)))) by (unfold npos; lia). rewrite Nat2Z.id.
  assert (∀ j, (length l ≤ j)%nat → l !! j ≠ Some ch) as Hout by (intros j Hj; by rewrite lookup_ge_None_2).
  destruct (find_last_spec (length l) ch s l Hs) as [(i & E & Hi & Hc & Hn) | [E Hn]]; [done | left; exists i | right]; (split; [done |]).
  - split; [done |]. intros j Hj. destruct (decide (j < length l)%nat); [apply Hn; lia | apply Hout; lia].
  - intros Hin. apply list_elem_of_lookup in Hin as [j Hj]. apply (Hn j); [| done]. by apply lookup_lt_Some in Hj.
Qed.

(** substr of a place inside the string stores through a null reference: the string it builds has no characters
    when it assigns them. *)
Theorem substr_stores_through_null pos count s l :
  str_holds s l → fits l → 0 ≤ pos < Z.of_nat (length l) → 0 ≤ count → str_substr junk pos count s = OutOfBounds.
Proof.
  intros Hs Hf Hp Hc. unfold str_substr, fits in *. rewrite (holds_size s l Hs), (proj2 (Z.leb_gt (Z.of_nat (length l)) pos)) by lia.
  set (n := if _ <? _ then _ else _). assert (0 ≤ n ≤ Z.of_nat (length l) - pos) as Hn.
  { unfold n. destruct (Z.ltb_spec (Z.of_nat (length l) - pos) count); lia. }
  destruct (str_reserve_holds n new_string [] (proj1 new_string_holds)) as (s1 & -> & H1 & _); [lia |]. cbn [mbind outcome_bind].
  assert (∀ i c, str_put i c s1 = OutOfBounds) as Hput.
  { intros i c. unfold str_put. rewrite (holds_size s1 [] H1). change (Z.of_nat (length [])) with 0.
    by assert ((0 <=? i) && (i <? 0) = false) as -> by lia. }
  destruct (Z.to_nat n) as [| k] eqn:K; cbn [substr_loop mbind outcome_bind fst snd]; [by rewrite Hput |].
  rewrite (str_at_holds s l) by (done || lia). cbn [mbind outcome_bind]. by rewrite Hput.
Qed.

End Correct.

Lemma string_refines_witness :
  let l := replicate 20 97 in
  ∃ s0 s, make_string 0xcc l = Ret s0 ∧ string_run 0xcc [SAppend [98; 99; 100; 101]; SErase 1 20; SResize 3 0; SAppend [120]] s0 = Ret s ∧
    str_size s = 4 ∧
    (∀ pos, 0 ≤ pos < 4 → str_at pos s = Ret (([97; 99; 100; 120] : list Z) !!! Z.to_nat pos)) ∧
    (Forall (fun op => is_erase op = false) [SAppend [98; 99; 100; 101]; SErase 1 20; SResize 3 0; SAppend [120]] → terminated s).
Proof.
  intros l. apply (string_refines 0xcc l [SAppend [98; 99; 100; 101]; SErase 1 20; SResize 3 0; SAppend [120]] [97; 99; 100; 120]); [done |].
  econstructor; [apply cs_append | done |]. econstructor; [apply cs_erase; cbn; lia | done |]. econstructor; [apply cs_resize | done |].
  econstructor; [apply cs_append | done |]. apply cr_nil.
Defined.

(** The string of three characters. *)
Definition abc : basic_string := short_set_size ([97; 98; 99] ++ replicate 20 0) 3.

Lemma abc_holds : str_holds abc [97; 98; 99].
Proof. repeat split; cbn; lia. Qed.

Lemma string_compare_find_witness :
  (str_compare abc abc = 0 ↔ [97; 98; 99] = ([97; 98; 99] : list Z)) ∧
  ((∃ i, find_last_of 98 npos abc = Ret (Z.of_nat i) ∧ ([97; 98; 99] : list Z) !! i = Some 98 ∧ ∀ j, (i < j)%nat → ([97; 98; 99] : list Z) !! j ≠ Some 98) ∨
   (find_last_of 98 npos abc = Ret npos ∧ 98 ∉ ([97; 98; 99] : list Z))).
Proof.
  apply (string_compare_find abc abc [97; 98; 99] [97; 98; 99] 98); [apply abc_holds | apply abc_holds | | | done];
    repeat constructor; by unfold is_u.
Defined.

Lemma substr_stores_through_null_witness : str_substr 0xcc 1 2 abc = OutOfBounds.
Proof. apply (substr_stores_through_null 0xcc 1 2 abc [97; 98; 99]); [apply abc_holds | done | cbn; lia | lia]. Defined.

(** erase without a count, or with one past the end, leaves a string longer than it was: the size is
    reduced by the count that was asked for and not by what there was to erase. *)
Theorem erase_to_end_grows : ∃ s, str_erase 0 npos abc = Ret s ∧ str_size abc = 3 ∧ str_size s = 4.
Proof. eexists. split; [vm_compute; reflexivity |]. by vm_compute. Qed.

(** erasing from an allocated string does not move its terminating zero. *)
Theorem erase_unterminated :
  ∃ s s', make_string 0xcc (replicate 30 97) = Ret s ∧ str_erase 0 10 s = Ret s' ∧ str_size s' = 20 ∧ str_data s' !! 20%nat = Some 97.
Proof. eexists _, _. split; [vm_compute; reflexivity |]. split; [vm_compute; reflexivity |]. by vm_compute. Qed.

(** compare with a C string orders a prefix of it the other way round than compare with a string. *)
Theorem compare_cstr_inverted :
  str_compare (short_set_size ([97] ++ replicate 22 0) 1) abc < 0 ∧ 0 < str_compare_cstr (short_set_size ([97] ++ replicate 22 0) 1) [97; 98; 99].
Proof. by vm_compute. Qed.
