(* ===== verification/Futex.v ===== *)
(** kernel/exec/futex.cpp: threads that sleep until a word of their process changes.  The queue
    operations are functions; their interleaving with the stores of the other threads is a step
    relation, over which no wake-up is lost. *)
From stdpp Require Import functions.
From S2P Require Import Prelude.

Local Open Scope Z_scope.

(** * The code *)

(** struct FutexWaiting; [wakeup] returns the call of the thread [fw_tid]. *)
Record FutexWaiting := { fw_addr : Z; fw_pid : Z; fw_tid : Z }.

#[export] Instance FutexWaiting_eq : EqDecision FutexWaiting.
Proof. solve_decision. Defined.

(** [w.pid == pid && w.addr == uptr_addr] *)
Definition futex_match (pid addr : Z) (w : FutexWaiting) : bool := (fw_pid w =? pid) && (fw_addr w =? addr).

(** The loop of WakeAll: the iterator is an index, which stays where it is when the element is erased. *)
Fixpoint wake_all_loop (fuel i : nat) (pid addr : Z) (waiting wakeups : list FutexWaiting) : outcome (list FutexWaiting * list FutexWaiting) :=
  match waiting !! i with
  | None => Ret (wakeups, waiting)
  | Some w =>
      match fuel with
      | O => OutOfFuel
      | S fuel =>
          if futex_match pid addr w then wake_all_loop fuel i pid addr (delete i waiting) (wakeups ++ [w])
          else wake_all_loop fuel (S i) pid addr waiting wakeups
      end
  end.

(** WakeAll: the waiters to wake, in their order, and the queue after it. *)
Definition WakeAll (pid addr : Z) (waiting : list FutexWaiting) : outcome (list FutexWaiting * list FutexWaiting) :=
  wake_all_loop (length waiting) 0 pid addr waiting [].

(** The loop of Wake, with the count [n]. *)
Fixpoint wake_loop (fuel i : nat) (n wakeNum pid addr : Z) (waiting wakeups : list FutexWaiting) : outcome (list FutexWaiting * list FutexWaiting) :=
  match waiting !! i with
  | None => Ret (wakeups, waiting)
  | Some w =>
      if n <? wakeNum then
        match fuel with
        | O => OutOfFuel
        | S fuel =>
            if futex_match pid addr w then wake_loop fuel i (n + 1) wakeNum pid addr (delete i waiting) (wakeups ++ [w])
            else wake_loop fuel (S i) n wakeNum pid addr waiting wakeups
        end
      else Ret (wakeups, waiting)
  end.

Definition Wake (pid addr wakeNum : Z) (waiting : list FutexWaiting) : outcome (list FutexWaiting * list FutexWaiting) :=
  wake_loop (length waiting) 0 0 wakeNum pid addr waiting [].

(** The aborter of a wait: whether the waiter was still queued, and the queue without it. *)
Fixpoint abort_wait (pid addr tid : Z) (waiting : list FutexWaiting) : bool * list FutexWaiting :=
  match waiting with
  | [] => (false, [])
  | w :: waiting =>
      if (fw_addr w =? addr) && (fw_pid w =? pid) && (fw_tid w =? tid) then (true, waiting)
      else let r := abort_wait pid addr tid waiting in (r.1, w :: r.2)
  end.

(** * The queue operations *)

Lemma lookup_end (pre : list FutexWaiting) : (pre ++ []) !! length pre = None.
Proof. rewrite app_nil_r. by apply lookup_ge_None_2. Qed.

Lemma wake_all_spec rest pre fuel pid addr ws :
  (length rest ≤ fuel)%nat →
  wake_all_loop fuel (length pre) pid addr (pre ++ rest) ws =
  Ret (ws ++ filter (fun w => futex_match pid addr w) rest, pre ++ filter (fun w => ¬ futex_match pid addr w) rest).
Proof.
  revert pre fuel ws. induction rest as [| w rest IH]; intros pre fuel ws Hf.
  { destruct fuel; cbn [wake_all_loop]; rewrite lookup_end; by rewrite !filter_nil, !app_nil_r. }
  destruct fuel as [| fuel]; cbn [length] in Hf; [lia |]. cbn [wake_all_loop]. rewrite list_lookup_middle by done.
  rewrite !filter_cons. destruct (futex_match pid addr w) eqn:E.
  - rewrite decide_True, decide_False by (done || (intros H; by apply H)). rewrite delete_middle, IH by lia. by rewrite <- app_assoc.
  - rewrite decide_False, decide_True by (done || (intros H; by apply H)).
    specialize (IH (pre ++ [w]) fuel ws). rewrite length_app, Nat.add_1_r, <- !app_assoc in IH. apply IH. lia.
Qed.

Lemma WakeAll_spec pid addr waiting :
  WakeAll pid addr waiting = Ret (filter (fun w => futex_match pid addr w) waiting, filter (fun w => ¬ futex_match pid addr w) waiting).
Proof. apply (wake_all_spec waiting []). done. Qed.

(** The queue split by the first [k] of those that match. *)
Fixpoint wake_first (k : nat) (pid addr : Z) (waiting : list FutexWaiting) : list FutexWaiting * list FutexWaiting :=
  match k, waiting with
  | O, _ => ([], waiting)
  | _, [] => ([], [])
  | S k', w :: rest =>
      if futex_match pid addr w then let r := wake_first k' pid addr rest in (w :: r.1, r.2)
      else let r := wake_first k pid addr rest in (r.1, w :: r.2)
  end.

Lemma wake_spec rest pre fuel n wakeNum pid addr ws :
  (length rest ≤ fuel)%nat →
  wake_loop fuel (length pre) n wakeNum pid addr (pre ++ rest) ws =
  let r := wake_first (Z.to_nat (wakeNum - n)) pid addr rest in Ret (ws ++ r.1, pre ++ r.2).
Proof.
  revert pre fuel n ws. induction rest as [| w rest IH]; intros pre fuel n ws Hf.
  { replace (wake_first _ _ _ []) with (([], []) : list FutexWaiting * list FutexWaiting) by (by destruct (Z.to_nat _)).
    destruct fuel; cbn [wake_loop fst snd]; rewrite lookup_end; by rewrite !app_nil_r. }
  destruct fuel as [| fuel]; cbn [length] in Hf; [lia |]. cbn [wake_loop]. rewrite list_lookup_middle by done.
  destruct (Z.ltb_spec n wakeNum) as [H | H]; cycle 1.
  { replace (Z.to_nat (wakeNum - n)) with O by lia. cbn. by rewrite app_nil_r. }
  replace (Z.to_nat (wakeNum - n)) with (S (Z.to_nat (wakeNum - (n + 1)))) by lia. cbn [wake_first].
  destruct (futex_match pid addr w) eqn:E.
  - rewrite delete_middle, IH by lia. cbn [fst snd]. by rewrite <- app_assoc.
  - specialize (IH (pre ++ [w]) fuel n ws). rewrite length_app, Nat.add_1_r, <- !app_assoc in IH. cbn [app] in IH. rewrite IH by lia.
    replace (Z.to_nat (wakeNum - n)) with (S (Z.to_nat (wakeNum - (n + 1)))) by lia. cbn [fst snd]. by rewrite <- app_assoc.
Qed.

Lemma wake_first_spec k pid addr waiting :
  let r := wake_first k pid addr waiting in
  r.1 = take k (filter (fun w => futex_match pid addr w) waiting) ∧ waiting ≡ₚ r.1 ++ r.2 ∧ sublist r.2 waiting.
Proof.
  revert k. induction waiting as [| w rest IH]; intros k.
  { destruct k; cbn; split_and!; by try constructor. }
  destruct k as [| k]; [cbn; split_and!; done |]. cbn [wake_first]. rewrite filter_cons. destruct (futex_match pid addr w) eqn:E.
  - rewrite decide_True by done. destruct (IH k) as (E1 & E2 & E3). cbn [fst snd take app]. split; [by f_equal |].
    split; [by f_equiv | by constructor].
  - rewrite decide_False by (intros H; by apply H). destruct (IH (S k)) as (E1 & E2 & E3). cbn [fst snd]. split; [done |].
    split; [| by constructor]. rewrite E2 at 1. apply Permutation_middle.
Qed.

(** a wake-up takes the waiters of the address in the process in the order they came: WakeAll all of
    them, Wake the first ones up to the number asked for; the others stay queued in their order. *)
Theorem futex_wake_fifo pid addr n waiting :
  ∃ woken rest, Wake pid addr n waiting = Ret (woken, rest) ∧
    woken = take (Z.to_nat n) (filter (fun w => futex_match pid addr w) waiting) ∧
    waiting ≡ₚ woken ++ rest ∧ sublist rest waiting ∧
    WakeAll pid addr waiting = Ret (filter (fun w => futex_match pid addr w) waiting, filter (fun w => ¬ futex_match pid addr w) waiting).
Proof.
  exists (wake_first (Z.to_nat n) pid addr waiting).1, (wake_first (Z.to_nat n) pid addr waiting).2.
  destruct (wake_first_spec (Z.to_nat n) pid addr waiting) as (E1 & E2 & E3).
  split; [| split; [done | split; [done | split; [done | apply WakeAll_spec]]]].
  unfold Wake. rewrite (wake_spec waiting [] _ 0) by done. cbn [app]. by rewrite Z.sub_0_r.
Qed.

(** * Interleavings *)

Section Interleaving.
(** The process of a thread. *)
Variable pid_of : Z → Z.

(** Where a thread is: in Wait, in its own code between a store and the call of WakeAll, or in WakeAll. *)
Inductive futex_pc :=
  | Outside
  | Compared (addr val : Z)             (* the word had the value *)
  | Locked (addr val : Z)               (* with mtx, before the second look *)
  | Confirmed (addr val : Z)            (* with mtx, before it is queued *)
  | Asleep (addr val : Z)
  | Stored (addr : Z)                   (* the word is changed, WakeAll is next *)
  | Waking (addr : Z)                   (* in WakeAll, with mtx *)
  | Calling (ws : list FutexWaiting).   (* after mtx is released, the wakeups to call *)

Record futex_sys := FutexSys {
  fs_mem : Z * Z → Z;
  fs_mtx : option Z;
  fs_waiting : list FutexWaiting;
  fs_pc : Z → futex_pc;
}.

Definition entry (t addr : Z) : FutexWaiting := {| fw_addr := addr; fw_pid := pid_of t; fw_tid := t |}.

(** The thread of a call that is returned. *)
Definition woken (addr : Z) (p : futex_pc) : futex_pc :=
  match p with Asleep a _ => if addr =? a then Outside else p | _ => p end.

Inductive futex_step : futex_sys → futex_sys → Prop :=
  (* a thread changes a word, and goes on to wake those that wait for it *)
  | fs_store m mtx q f t addr v :
      f t = Outside →
      futex_step (FutexSys m mtx q f) (FutexSys (<[(pid_of t, addr) := v]> m) mtx q (<[t := Stored addr]> f))
  (* Wait: the cmpxchg finds the value; otherwise it returns EAGAIN at once *)
  | fs_compare m mtx q f t addr val :
      f t = Outside → m (pid_of t, addr) = val →
      futex_step (FutexSys m mtx q f) (FutexSys m mtx q (<[t := Compared addr val]> f))
  | fs_lock m q f t addr val :
      f t = Compared addr val →
      futex_step (FutexSys m None q f) (FutexSys m (Some t) q (<[t := Locked addr val]> f))
  | fs_confirm m mtx q f t addr val :
      f t = Locked addr val → m (pid_of t, addr) = val →
      futex_step (FutexSys m mtx q f) (FutexSys m mtx q (<[t := Confirmed addr val]> f))
  | fs_again m mtx q f t addr val :
      f t = Locked addr val → m (pid_of t, addr) ≠ val →
      futex_step (FutexSys m mtx q f) (FutexSys m None q (<[t := Outside]> f))
  | fs_sleep m mtx q f t addr val :
      f t = Confirmed addr val →
      futex_step (FutexSys m mtx q f) (FutexSys m None (q ++ [entry t addr]) (<[t := Asleep addr val]> f))
  (* WakeAll *)
  | fs_wake_lock m q f t addr :
      f t = Stored addr →
      futex_step (FutexSys m None q f) (FutexSys m (Some t) q (<[t := Waking addr]> f))
  | fs_wake m mtx q f t addr ws q' :
      f t = Waking addr → WakeAll (pid_of t) addr q = Ret (ws, q') →
      futex_step (FutexSys m mtx q f) (FutexSys m None q' (<[t := Calling ws]> f))
  | fs_call m mtx q f t w ws :
      f t = Calling (w :: ws) →
      futex_step (FutexSys m mtx q f)
        (FutexSys m mtx q (<[t := Calling ws]> (<[fw_tid w := woken (fw_addr w) (f (fw_tid w))]> f)))
  | fs_done m mtx q f t :
      f t = Calling [] →
      futex_step (FutexSys m mtx q f) (FutexSys m mtx q (<[t := Outside]> f))
  (* a signal: the aborter of a wait *)
  | fs_abort m q f t addr val q' :
      f t = Asleep addr val → abort_wait (pid_of t) addr t q = (true, q') →
      futex_step (FutexSys m None q f) (FutexSys m None q' (<[t := Outside]> f)).

Definition futex_start (m : Z * Z → Z) : futex_sys := FutexSys m None [] (fun _ => Outside).

Definition has_mtx (p : futex_pc) : bool := match p with Locked _ _ | Confirmed _ _ | Waking _ => true | _ => false end.

(** A thread is about to wake those that wait for the word. *)
Definition waker (f : Z → futex_pc) (pid addr : Z) : Prop :=
  ∃ w, pid_of w = pid ∧ (f w = Stored addr ∨ f w = Waking addr).

Definition stored_by (f : Z → futex_pc) (pid addr : Z) : Prop := ∃ w, pid_of w = pid ∧ f w = Stored addr.

(** The wakeup of the thread is about to be called. *)
Definition being_called (f : Z → futex_pc) (t addr : Z) : Prop := ∃ w ws, f w = Calling ws ∧ entry t addr ∈ ws.

Record futex_ok (s : futex_sys) : Prop := {
  fo_mtx t : has_mtx (fs_pc s t) → fs_mtx s = Some t;
  fo_asleep t addr val : fs_pc s t = Asleep addr val →
    (entry t addr ∈ fs_waiting s ∧ (fs_mem s (pid_of t, addr) = val ∨ waker (fs_pc s) (pid_of t) addr)) ∨ being_called (fs_pc s) t addr;
  fo_confirmed t addr val : fs_pc s t = Confirmed addr val →
    fs_mem s (pid_of t, addr) = val ∨ stored_by (fs_pc s) (pid_of t) addr;
}.

Lemma futex_start_ok m : futex_ok (futex_start m).
Proof. by split. Qed.

Lemma waker_insert f t p pid addr :
  (∀ a, f t ≠ Stored a ∧ f t ≠ Waking a) → waker f pid addr → waker (<[t := p]> f) pid addr.
Proof.
  intros N (w & Hw & H). exists w. split; [done |]. destruct (decide (w = t)) as [-> |]; [| by rewrite fn_lookup_insert_ne].
  destruct (N addr). by destruct H.
Qed.

Lemma stored_insert f t p pid addr :
  (∀ a, f t ≠ Stored a) → stored_by f pid addr → stored_by (<[t := p]> f) pid addr.
Proof.
  intros N (w & Hw & H). exists w. split; [done |]. destruct (decide (w = t)) as [-> |]; [by apply N in H | by rewrite fn_lookup_insert_ne].
Qed.

Lemma called_insert f t p t' addr :
  (∀ ws, f t = Calling ws → entry t' addr ∉ ws) → being_called f t' addr → being_called (<[t := p]> f) t' addr.
Proof.
  intros N (w & ws & Hw & H). exists w, ws. split; [| done]. destruct (decide (w = t)) as [-> |]; [by apply N in Hw | by rewrite fn_lookup_insert_ne].
Qed.

(** A step of [t] outside the wake-ups, which does not change the words. *)
Lemma local_ok m mtx mtx' q q' f t p :
  futex_ok (FutexSys m mtx q f) →
  (∀ a, f t ≠ Stored a ∧ f t ≠ Waking a) → (∀ w ws, f t ≠ Calling (w :: ws)) →
  (∀ w, w ∈ q → fw_tid w ≠ t → w ∈ q') →
  (∀ t', t' ≠ t → mtx = Some t' → mtx' = Some t') → (has_mtx p → mtx' = Some t) →
  (∀ a v, p = Asleep a v → entry t a ∈ q' ∧ (m (pid_of t, a) = v ∨ stored_by f (pid_of t) a)) →
  (∀ a v, p = Confirmed a v → m (pid_of t, a) = v) →
  futex_ok (FutexSys m mtx' q' (<[t := p]> f)).
Proof.
  intros [O1 O2 O3] N1 N2 Hq Hm1 Hm2 HA HC. cbn in O1, O2, O3.
  assert (∀ a, f t ≠ Stored a) as N3 by (intros a; apply N1).
  assert (∀ t' a ws, f t = Calling ws → entry t' a ∉ ws) as N4.
  { intros t' a [| w ws] E; [apply not_elem_of_nil | by apply N2 in E]. }
  split; cbn; intros t'; destruct (decide (t' = t)) as [-> | Ht]; rewrite ?fn_lookup_insert, ?fn_lookup_insert_ne by done.
  - done.
  - intros H. by apply Hm1, O1.
  - intros a v E. destruct (HA a v E) as [Hin [H | (w & Hw & H)]]; left; (split; [done |]); [by left |].
    right. apply waker_insert; [done |]. exists w. auto.
  - intros a v E. destruct (O2 t' a v E) as [[Hin H] | H]; [left; split | right; by apply called_insert; eauto].
    + by apply Hq.
    + destruct H as [H | H]; [by left | right; by apply waker_insert].
  - intros a v E. left. by apply HC.
  - intros a v E. destruct (O3 t' a v E) as [H | H]; [by left | right; by apply stored_insert].
Qed.

Lemma store_ok m mtx q f t addr v :
  futex_ok (FutexSys m mtx q f) → f t = Outside →
  futex_ok (FutexSys (<[(pid_of t, addr) := v]> m) mtx q (<[t := Stored addr]> f)).
Proof.
  intros [O1 O2 O3] E. cbn in O1, O2, O3.
  assert (stored_by (<[t := Stored addr]> f) (pid_of t) addr) as Hs by (exists t; by rewrite fn_lookup_insert).
  split; cbn; intros t'; (destruct (decide (t' = t)) as [-> | Ht]; [by rewrite fn_lookup_insert | rewrite fn_lookup_insert_ne by done]).
  - apply O1.
  - intros a u Eu. destruct (O2 t' a u Eu) as [[Hin H] | H]; [left; split; [done |] | right; apply called_insert; [by rewrite E | done]].
    destruct (decide ((pid_of t', a) = (pid_of t, addr))) as [Ea | Na].
    + injection Ea as Ep ->. rewrite Ep. destruct Hs as (w & ? & ?). right. exists w. auto.
    + rewrite fn_lookup_insert_ne by done. destruct H as [H | H]; [by left | right]. apply waker_insert; [by rewrite E | done].
  - intros a u Eu. destruct (decide ((pid_of t', a) = (pid_of t, addr))) as [Ea | Na].
    + injection Ea as Ep ->. rewrite Ep. by right.
    + rewrite fn_lookup_insert_ne by done. destruct (O3 t' a u Eu) as [H | H]; [by left | right]. apply stored_insert; [by rewrite E | done].
Qed.

Lemma wake_lock_ok m q f t addr :
  futex_ok (FutexSys m None q f) → f t = Stored addr → futex_ok (FutexSys m (Some t) q (<[t := Waking addr]> f)).
Proof.
  intros [O1 O2 O3] E. cbn in O1, O2, O3.
  split; cbn; intros t'; (destruct (decide (t' = t)) as [-> | Ht]; [by rewrite fn_lookup_insert | rewrite fn_lookup_insert_ne by done]).
  - intros H. by apply O1 in H.
  - intros a u Eu. destruct (O2 t' a u Eu) as [[Hin H] | H]; [left; split; [done |] | right; apply called_insert; [by rewrite E | done]].
    destruct H as [H | (w & Hw & H)]; [by left | right]. exists w. split; [done |]. destruct (decide (w = t)) as [-> |].
    + rewrite fn_lookup_insert. destruct H; [right | ]; congruence.
    + by rewrite fn_lookup_insert_ne.
  - intros a u Eu. specialize (O1 t'). rewrite Eu in O1. by specialize (O1 I).
Qed.

Lemma wake_ok m mtx q f t addr ws q' :
  futex_ok (FutexSys m mtx q f) → f t = Waking addr → WakeAll (pid_of t) addr q = Ret (ws, q') →
  futex_ok (FutexSys m None q' (<[t := Calling ws]> f)).
Proof.
  intros [O1 O2 O3] E W. cbn in O1, O2, O3. rewrite WakeAll_spec in W. simplify_eq.
  assert (mtx = Some t) as Hm by (apply O1; by rewrite E).
  assert (∀ t', t' ≠ t → ¬ has_mtx (f t')) as Hn by (intros t' Ht H; apply O1 in H; congruence).
  split; cbn; intros t'; (destruct (decide (t' = t)) as [-> | Ht]; [by rewrite fn_lookup_insert | rewrite fn_lookup_insert_ne by done]).
  - intros H. by apply Hn in H.
  - intros a u Eu. destruct (O2 t' a u Eu) as [[Hin H] | H]; [| right; apply called_insert; [by rewrite E | done]].
    destruct (futex_match (pid_of t) addr (entry t' a)) eqn:M.
    + right. exists t. eexists. rewrite fn_lookup_insert. split; [done |]. apply list_elem_of_filter. by rewrite M.
    + left. split; [apply list_elem_of_filter; by rewrite M; split; [intros ? |] |]. destruct H as [H | (w & Hw & H)]; [by left | right].
      exists w. split; [done |]. destruct (decide (w = t)) as [-> |]; [| by rewrite fn_lookup_insert_ne].
      unfold futex_match in M. cbn in M. destruct H as [H | H]; [congruence |]. rewrite E in H. simplify_eq. lia.
  - intros a u Eu. apply Hn in Ht. by rewrite Eu in Ht.
Qed.

Lemma futex_ok_ext m mtx q f f' : (∀ t, f' t = f t) → futex_ok (FutexSys m mtx q f) → futex_ok (FutexSys m mtx q f').
Proof.
  intros E [O1 O2 O3]. cbn in O1, O2, O3. split; cbn; intros t; rewrite E; [apply O1 | |].
  - intros a v H. destruct (O2 t a v H) as [[Hin [Hm | (w & Hw & Hf)]] | (w & ws & Hw & Hf)].
    + left. split; [done | by left].
    + left. split; [done |]. right. exists w. by rewrite E.
    + right. exists w, ws. by rewrite E.
  - intros a v H. destruct (O3 t a v H) as [Hm | (w & Hw & Hf)]; [by left | right]. exists w. by rewrite E.
Qed.

(** The wakeup of a thread that is no longer asleep there is called. *)
Lemma pop_ok m mtx q f t w ws :
  futex_ok (FutexSys m mtx q f) → f t = Calling (w :: ws) → (∀ v, f (fw_tid w) ≠ Asleep (fw_addr w) v) →
  futex_ok (FutexSys m mtx q (<[t := Calling ws]> f)).
Proof.
  intros [O1 O2 O3] E N. cbn in O1, O2, O3.
  split; cbn; intros t'; (destruct (decide (t' = t)) as [-> | Ht]; [by rewrite fn_lookup_insert | rewrite fn_lookup_insert_ne by done]).
  - apply O1.
  - intros a u Eu. destruct (O2 t' a u Eu) as [[Hin H] | (c & cs & Hc & H)]; [left; split; [done |] | right].
    + destruct H as [H | H]; [by left | right]. apply waker_insert; [by rewrite E | done].
    + destruct (decide (c = t)) as [-> |]; [| exists c, cs; by rewrite fn_lookup_insert_ne].
      exists t, ws. rewrite fn_lookup_insert. split; [done |]. rewrite E in Hc. simplify_eq.
      apply elem_of_cons in H as [<- | H]; [| done]. by apply N in Eu.
  - intros a u Eu. destruct (O3 t' a u Eu) as [H | H]; [by left | right]. apply stored_insert; [by rewrite E | done].
Qed.

Lemma call_ok m mtx q f t w ws :
  futex_ok (FutexSys m mtx q f) → f t = Calling (w :: ws) →
  futex_ok (FutexSys m mtx q (<[t := Calling ws]> (<[fw_tid w := woken (fw_addr w) (f (fw_tid w))]> f))).
Proof.
  intros O E. set (f1 := <[fw_tid w := _]> f). destruct (decide (fw_tid w = t)) as [Et | Nt].
  - assert (∀ x, f1 x = f x) as E1.
    { intros x. unfold f1. destruct (decide (x = fw_tid w)) as [-> |]; [| by rewrite fn_lookup_insert_ne].
      rewrite fn_lookup_insert, Et, E. done. }
    apply (pop_ok _ _ _ _ _ w); [by apply (futex_ok_ext _ _ _ f) | by rewrite E1 |]. intros v. by rewrite E1, Et, E.
  - assert (f1 t = Calling (w :: ws)) as E1 by (unfold f1; by rewrite fn_lookup_insert_ne).
    apply (pop_ok _ _ _ _ _ w); [| done |].
    + destruct (f (fw_tid w)) as [| | | | a v | | |] eqn:F; cbn [woken] in f1;
        try (apply (futex_ok_ext _ _ _ f); [| done]; intros x; unfold f1;
             destruct (decide (x = fw_tid w)) as [-> |]; [by rewrite fn_lookup_insert | by rewrite fn_lookup_insert_ne]).
      unfold f1. destruct (Z.eqb_spec (fw_addr w) a).
      * apply (local_ok m mtx mtx q q f); try done; rewrite F; done.
      * apply (futex_ok_ext _ _ _ f); [| done]. intros x.
        destruct (decide (x = fw_tid w)) as [-> |]; [by rewrite fn_lookup_insert | by rewrite fn_lookup_insert_ne].
    + intros v. unfold f1. rewrite fn_lookup_insert. destruct (f (fw_tid w)) as [| | | | a u | | |]; try done. cbn [woken].
      destruct (Z.eqb_spec (fw_addr w) a); [done |]. congruence.
Qed.

Lemma abort_keeps pid addr t q q' w : abort_wait pid addr t q = (true, q') → w ∈ q → fw_tid w ≠ t → w ∈ q'.
Proof.
  revert q'. induction q as [| x q IH]; intros q' E; [done |]. cbn [abort_wait] in E. intros Hw Ht.
  destruct ((fw_addr x =? addr) && (fw_pid x =? pid) && (fw_tid x =? t)) eqn:M.
  - simplify_eq. apply elem_of_cons in Hw as [-> | Hw]; [lia | done].
  - destruct (abort_wait pid addr t q) as [b r] eqn:A. cbn [fst snd] in E. simplify_eq.
    apply elem_of_cons in Hw as [-> | Hw]; [by left | right]. by apply IH.
Qed.

Lemma futex_step_ok s s' : futex_step s s' → futex_ok s → futex_ok s'.
Proof.
  intros Hs O. destruct Hs as [m mtx q f t a v E | m mtx q f t a v E Em | m q f t a v E | m mtx q f t a v E Em | m mtx q f t a v E Em
    | m mtx q f t a v E | m q f t a E | m mtx q f t a ws q' E W | m mtx q f t w ws E | m mtx q f t E | m q f t a v q' E A].
  - by apply store_ok.
  - by apply (local_ok m mtx mtx q q f); rewrite ?E.
  - by apply (local_ok m None (Some t) q q f); rewrite ?E.
  - pose proof (fo_mtx _ O t) as Hm. cbn in Hm. rewrite E in Hm.
    apply (local_ok m mtx mtx q q f); rewrite ?E; try done. by intros ?? [= <- <-].
  - pose proof (fo_mtx _ O t) as Hm. cbn in Hm. rewrite E in Hm. specialize (Hm I). subst mtx.
    apply (local_ok m (Some t) None q q f); rewrite ?E; try done. congruence.
  - pose proof (fo_mtx _ O t) as Hm. cbn in Hm. rewrite E in Hm. specialize (Hm I). subst mtx.
    apply (local_ok m (Some t) None q _ f); rewrite ?E; try done; [set_solver | congruence |].
    intros ?? [= <- <-]. split; [set_solver |]. by apply (fo_confirmed _ O t).
  - by apply wake_lock_ok.
  - by apply (wake_ok m mtx q f t a).
  - by apply call_ok.
  - by apply (local_ok m mtx mtx q q f); rewrite ?E.
  - apply (local_ok m None None q q' f); rewrite ?E; try done. intros w Hw Ht. by apply (abort_keeps _ _ _ q q' w) in A.
Qed.

Lemma futex_reachable_ok m s : rtc futex_step (futex_start m) s → futex_ok s.
Proof.
  intros H. assert (futex_ok (futex_start m)) as O by apply futex_start_ok. induction H as [| s1 s2 s3 Hs _ IH]; [done |].
  apply IH. by apply (futex_step_ok s1).
Qed.

(** C8: no wake-up is lost: however the calls of Wait and WakeAll, the stores that come before them and the signals
    interleave, when no thread is between its store and the end of its WakeAll, the word of every thread that sleeps
    still has the value it waits for a change of, and the thread is queued. *)
Theorem futex_no_lost_wakeup m s :
  rtc futex_step (futex_start m) s →
  (∀ t addr ws, fs_pc s t ≠ Stored addr ∧ fs_pc s t ≠ Waking addr ∧ fs_pc s t ≠ Calling ws) →
  ∀ t addr val, fs_pc s t = Asleep addr val → entry t addr ∈ fs_waiting s ∧ fs_mem s (pid_of t, addr) = val.
Proof.
  intros Hr N t addr val E. destruct (fo_asleep _ (futex_reachable_ok m s Hr) t addr val E) as [[Hin H] | (w & ws & Hw & _)].
  - split; [done |]. destruct H as [H | (w & _ & H)]; [done |]. destruct (N w addr []) as (N1 & N2 & _). by destruct H.
  - by destruct (N w addr ws) as (_ & _ & N3).
Qed.

End Interleaving.

(** Thread 7 goes to sleep on the word at 0x1000. *)
Lemma futex_no_lost_wakeup_witness :
  let s := FutexSys (fun _ => 0) None [entry (fun _ => 1) 7 0x1000] (<[7 := Asleep 0x1000 0]> (<[7 := Confirmed 0x1000 0]>
    (<[7 := Locked 0x1000 0]> (<[7 := Compared 0x1000 0]> (fun _ => Outside))))) in
  entry (fun _ => 1) 7 0x1000 ∈ fs_waiting s ∧ fs_mem s (1, 0x1000) = 0.
Proof.
  intros s. apply (futex_no_lost_wakeup (fun _ => 1) (fun _ => 0) s); [| | done].
  - eapply rtc_l; [apply (fs_compare (fun _ => 1) (fun _ => 0) None [] (fun _ => Outside) 7 0x1000 0); done |].
    eapply rtc_l; [apply (fs_lock _ _ _ _ 7 0x1000 0); done |]. eapply rtc_l; [apply (fs_confirm _ _ _ _ _ 7 0x1000 0); done |].
    apply rtc_once. apply (fs_sleep _ _ _ [] _ 7 0x1000 0). done.
  - intros t addr ws. unfold s. cbn [fs_pc]. destruct (decide (t = 7)) as [-> |]; [by rewrite fn_lookup_insert |].
    by rewrite !fn_lookup_insert_ne by done.
Defined.
