(* ===== verification/Pipe.v ===== *)
(** kernel/exec/pipe.cpp, include/exec/pipe.h: the pipe.  What is written at one end is buffered at
    the other, where a read takes it at once or is queued until enough is there. *)
From S2P Require Import Prelude.

Local Open Scope Z_scope.

(** * The code *)

(** The lengths are intptr_t, compared as size_t with the size of the buffer.

    struct PipeQueuedRead; [func] returns to the call [q_ctx]. *)
Record PipeQueuedRead := { q_ctx : Z; q_len : Z }.

(** A handler of an end: the weak pointer to it, and whether the handler is still there. *)
Record PipeFd := { fd_handler : Z; fd_alive : bool }.

(** class PipeEnd; [otherEnd] is null or the other end while that exists. *)
Record PipeEnd := {
  pe_other : bool;
  pe_fds : list PipeFd;
  pe_readQueue : list PipeQueuedRead;
  pe_buffer : list Z;
  pe_eof : bool;
}.

(** What the process sees of a call: a read returned with what is in its buffer, now or later, or an error. *)
Inductive pipe_event :=
  | ReadReturned (ctx : Z) (data : list Z) (ret : Z)
  | ReadQueued (ctx : Z)
  | Wrote (ret : Z)
  | ReadyRead (handler : Z) (ready : bool).

Definition INT_MAX : Z := 2 ^ 31 - 1.
Definition EIO : Z := 5.

Definition set_buffer (b : list Z) (e : PipeEnd) : PipeEnd :=
  {| pe_other := pe_other e; pe_fds := pe_fds e; pe_readQueue := pe_readQueue e; pe_buffer := b; pe_eof := pe_eof e |}.
Definition set_queue (q : list PipeQueuedRead) (e : PipeEnd) : PipeEnd :=
  {| pe_other := pe_other e; pe_fds := pe_fds e; pe_readQueue := q; pe_buffer := pe_buffer e; pe_eof := pe_eof e |}.
Definition set_fds (fds : list PipeFd) (e : PipeEnd) : PipeEnd :=
  {| pe_other := pe_other e; pe_fds := fds; pe_readQueue := pe_readQueue e; pe_buffer := pe_buffer e; pe_eof := pe_eof e |}.
Definition set_eof (e : PipeEnd) : PipeEnd :=
  {| pe_other := pe_other e; pe_fds := pe_fds e; pe_readQueue := pe_readQueue e; pe_buffer := pe_buffer e; pe_eof := true |}.

Definition buffer_size (e : PipeEnd) : Z := Z.of_nat (length (pe_buffer e)).

(** The loop that takes [len] bytes from the buffer, at most an int at a time: the buffer and what is
    left of [len]. *)
Fixpoint erase_loop (fuel : nat) (len : Z) (b : list Z) : outcome (list Z * Z) :=
  match fuel with
  | O => OutOfFuel
  | S fuel =>
      if 0 <? len then
        let eraseLen := if INT_MAX <? len then INT_MAX else len in
        erase_loop fuel (len - eraseLen) (drop (Z.to_nat eraseLen) b)
      else Ret (b, len)
  end.

Definition erase_fuel (len : Z) : nat := Z.to_nat (len / INT_MAX) + 2.

(** [func] of a queued read. *)
Definition queued_func (q : PipeQueuedRead) (e : PipeEnd) : outcome (PipeEnd * pipe_event) :=
  let len := if buffer_size e <? u64 (q_len q) then buffer_size e else q_len q in
  let data := take (Z.to_nat len) (pe_buffer e) in
  r ← erase_loop (erase_fuel len) len (pe_buffer e);
  Ret (set_buffer r.1 e, ReadReturned (q_ctx q) data len).

(** The first loop of Notify. *)
Fixpoint notify_queue (queue : list PipeQueuedRead) (e : PipeEnd) : outcome (PipeEnd * list pipe_event) :=
  match queue with
  | [] => Ret (set_queue [] e, [])
  | q :: rest =>
      if u64 (q_len q) <=? buffer_size e then
        r ← queued_func q e;
        r' ← notify_queue rest r.1;
        Ret (r'.1, r.2 :: r'.2)
      else Ret (set_queue queue e, [])
  end.

Definition read_ready (e : PipeEnd) : bool :=
  match pe_buffer e, pe_readQueue e with
  | _ :: _, [] => true
  | _, _ => false
  end.

(** Notify.  The list of handlers to tell is never filled. *)
Fixpoint PipeEnd_Notify (fuel : nat) (e : PipeEnd) : outcome (PipeEnd * list pipe_event) :=
  match fuel with
  | O => OutOfFuel
  | S fuel =>
      r ← notify_queue (pe_readQueue e) e;
      let readReady1 := read_ready r.1 in
      let e := set_fds (filter (fun fd => fd_alive fd) (pe_fds r.1)) r.1 in
      let handlers : list PipeFd := [] in
      let told := (fun fd => ReadyRead (fd_handler fd) readReady1) <$> handlers in
      if eqb readReady1 (read_ready e) then Ret (e, r.2 ++ told)
      else
        r' ← PipeEnd_Notify fuel e;
        Ret (r'.1, r.2 ++ told ++ r'.2)
  end.

(** PipeDescriptorHandler::read *)
Definition pipe_read (ctx len : Z) (e : PipeEnd) : outcome (PipeEnd * pipe_event) :=
  if negb (bool_decide (pe_readQueue e = [])) || ((buffer_size e <? u64 len) && negb (pe_eof e)) then
    Ret (set_queue (pe_readQueue e ++ [{| q_ctx := ctx; q_len := len |}]) e, ReadQueued ctx)
  else
    let len := if buffer_size e <? u64 len then buffer_size e else len in
    let data := take (Z.to_nat len) (pe_buffer e) in
    r ← erase_loop (erase_fuel len) len (pe_buffer e);
    Ret (set_buffer r.1 e, ReadReturned ctx data r.2).

(** read with an offset *)
Definition EOPNOTSUPP : Z := 95.
Definition pipe_read_at (ctx len offset : Z) (e : PipeEnd) : outcome (PipeEnd * pipe_event) :=
  if negb (offset =? 0) then Ret (e, ReadReturned ctx [] (- EOPNOTSUPP)) else pipe_read ctx len e.

(** PipeDescriptorHandler::write; [other] is what the other end is, while it exists. *)
Definition pipe_write (bytes : list Z) (other : option PipeEnd) : outcome (option PipeEnd * list pipe_event) :=
  match other with
  | None => Ret (None, [Wrote (- EIO)])
  | Some o =>
      r ← PipeEnd_Notify 2 (set_buffer (pe_buffer o ++ bytes) o);
      Ret (Some r.1, r.2 ++ [Wrote (Z.of_nat (length bytes))])
  end.

(** ~PipeEnd of the end that knows [other] *)
Definition close_end (other : option PipeEnd) : outcome (option PipeEnd * list pipe_event) :=
  match other with
  | None => Ret (None, [])
  | Some o => r ← PipeEnd_Notify 2 (set_eof o); Ret (Some r.1, r.2)
  end.

(** CreateHandlerPair: the first end does not know the second. *)
Definition CreateHandlerPair (h1 h2 : Z) : PipeEnd * PipeEnd :=
  ({| pe_other := false; pe_fds := [{| fd_handler := h1; fd_alive := true |}]; pe_readQueue := []; pe_buffer := []; pe_eof := false |},
   {| pe_other := true; pe_fds := [{| fd_handler := h2; fd_alive := true |}]; pe_readQueue := []; pe_buffer := []; pe_eof := false |}).

(** * What a pipe delivers *)

(** The bytes the reads returned, and the reads that returned, in their order. *)
Definition delivered (evs : list pipe_event) : list Z :=
  evs ≫= fun ev => match ev with ReadReturned _ data _ => data | _ => [] end.
Definition returned (evs : list pipe_event) : list Z :=
  evs ≫= fun ev => match ev with ReadReturned ctx _ _ => [ctx] | _ => [] end.

(** What a read that returns says: the number of its bytes, or 0. *)
Definition result_ok (ev : pipe_event) : Prop :=
  match ev with ReadReturned _ data ret => ret = Z.of_nat (length data) ∨ ret = 0 | _ => True end.

(** The first queued read, if any, asks for more than there is. *)
Definition head_waits (e : PipeEnd) : Prop := ∀ q rest, pe_readQueue e = q :: rest → buffer_size e < q_len q.

Definition len_ok (len : Z) : Prop := 0 ≤ len < 2 ^ 63.
Definition queue_ok (e : PipeEnd) : Prop := Forall (fun q => len_ok (q_len q)) (pe_readQueue e).

Lemma len_u64 len : len_ok len → u64 len = len.
Proof. unfold len_ok, wrap. intros H. apply Z.mod_small. lia. Qed.

Lemma erase_loop_spec fuel len b :
  0 ≤ len ≤ INT_MAX * Z.of_nat fuel → erase_loop (S fuel) len b = Ret (drop (Z.to_nat len) b, 0).
Proof.
  revert len b. induction fuel as [| fuel IH]; intros len b Hl.
  { assert (len = 0) as -> by lia. done. }
  remember (S fuel) as n. cbn [erase_loop]. destruct (Z.ltb_spec 0 len) as [H | H]; [| by assert (len = 0) as -> by lia].
  subst n. unfold INT_MAX in *. destruct (Z.ltb_spec (2 ^ 31 - 1) len) as [H1 | H1].
  - rewrite IH by lia. rewrite drop_drop. do 3 f_equal. lia.
  - rewrite IH by lia. rewrite drop_drop. do 3 f_equal. lia.
Qed.

Lemma erase_fuel_enough len b : 0 ≤ len → erase_loop (erase_fuel len) len b = Ret (drop (Z.to_nat len) b, 0).
Proof.
  intros Hl. unfold erase_fuel. rewrite Nat.add_succ_r. apply erase_loop_spec. unfold INT_MAX.
  pose proof (Z.div_mod len (2 ^ 31 - 1)). pose proof (Z.mod_pos_bound len (2 ^ 31 - 1)). pose proof (Z.div_pos len (2 ^ 31 - 1)). lia.
Qed.

Lemma notify_queue_spec queue e :
  Forall (fun q => len_ok (q_len q)) queue →
  ∃ e' evs, notify_queue queue e = Ret (e', evs) ∧
    pe_buffer e = delivered evs ++ pe_buffer e' ∧ q_ctx <$> queue = returned evs ++ (q_ctx <$> pe_readQueue e') ∧
    head_waits e' ∧ queue_ok e' ∧ pe_eof e' = pe_eof e ∧ Forall result_ok evs.
Proof.
  revert e. induction queue as [| q rest IH]; intros e Hq.
  { exists (set_queue [] e), []. repeat split; [done | constructor | constructor]. }
  apply Forall_cons in Hq as [Hl Hr]. cbn [notify_queue]. rewrite len_u64 by done.
  destruct (Z.leb_spec (q_len q) (buffer_size e)) as [H | H]; cycle 1.
  { exists (set_queue (q :: rest) e), []. repeat split; [| by constructor | constructor]. intros q' rest' [= <- <-]. done. }
  unfold queued_func. rewrite len_u64, (proj2 (Z.ltb_ge (buffer_size e) (q_len q))) by done.
  rewrite erase_fuel_enough by apply Hl. cbn [mbind outcome_bind fst snd].
  destruct (IH (set_buffer (drop (Z.to_nat (q_len q)) (pe_buffer e)) e) Hr) as (e' & evs & -> & E1 & E2 & E3 & E4 & E5 & E6).
  cbn [mbind outcome_bind fst snd]. eexists e', _. split; [done |]. cbn [pe_buffer set_buffer pe_eof] in *.
  unfold delivered, returned. rewrite !bind_cons. fold (delivered evs). fold (returned evs).
  split; [by rewrite <- app_assoc, <- E1, take_drop |]. split; [cbn; by rewrite E2 |]. repeat (split; [done |]). apply Forall_cons. split; [| done].
  left. unfold buffer_size in H. destruct Hl. rewrite length_take. lia.
Qed.

Lemma Notify_spec fuel e :
  queue_ok e →
  ∃ e' evs, PipeEnd_Notify (S fuel) e = Ret (e', evs) ∧
    pe_buffer e = delivered evs ++ pe_buffer e' ∧ q_ctx <$> pe_readQueue e = returned evs ++ (q_ctx <$> pe_readQueue e') ∧
    head_waits e' ∧ queue_ok e' ∧ pe_eof e' = pe_eof e ∧ Forall result_ok evs ∧
    (head_waits e → pe_readQueue e' = pe_readQueue e ∧ evs = []).
Proof.
  intros Hq. destruct (notify_queue_spec (pe_readQueue e) e Hq) as (e1 & evs & E & E1 & E2 & E3 & E4 & E5 & E6).
  cbn [PipeEnd_Notify]. rewrite E. cbn [mbind outcome_bind fst snd]. set (e2 := set_fds _ e1).
  assert (read_ready e2 = read_ready e1) as -> by done. rewrite eqb_reflx. exists e2, evs.
  split; [cbn [fmap list_fmap]; by rewrite app_nil_r |]. do 6 (split; [done |]).
  intros Hw. destruct (pe_readQueue e) as [| q rest] eqn:Q; cbn [notify_queue] in E; [by injection E as <- <- |].
  pose proof (Hw q rest Q) as Hlt. unfold queue_ok in Hq. rewrite Q in Hq. apply Forall_cons in Hq as [Hl _]. rewrite len_u64 in E by done.
  rewrite (proj2 (Z.leb_gt (q_len q) (buffer_size e))) in E by done. by injection E as <- <-.
Qed.

(** The operations on a pipe whose reading end is open. *)
Inductive pipe_op := PRead (ctx len : Z) | PWrite (bytes : list Z) | PClose.

Record pipe := Pipe { pi_end : PipeEnd; pi_writer : bool }.

Definition new_pipe : pipe := Pipe (CreateHandlerPair 1 2).1 true.

Definition pipe_step (op : pipe_op) (p : pipe) : outcome (pipe * list pipe_event) :=
  match op with
  | PRead ctx len => r ← pipe_read ctx len (pi_end p); Ret (Pipe r.1 (pi_writer p), [r.2])
  | PWrite bytes =>
      if pi_writer p then
        r ← pipe_write bytes (Some (pi_end p));
        Ret (Pipe (default (pi_end p) r.1) true, r.2)
      else Ret (p, [])
  | PClose =>
      if pi_writer p then
        r ← close_end (Some (pi_end p));
        Ret (Pipe (default (pi_end p) r.1) false, r.2)
      else Ret (p, [])
  end.

Fixpoint pipe_run (ops : list pipe_op) (p : pipe) : outcome (pipe * list pipe_event) :=
  match ops with
  | [] => Ret (p, [])
  | op :: ops =>
      r ← pipe_step op p;
      r' ← pipe_run ops r.1;
      Ret (r'.1, r.2 ++ r'.2)
  end.

Definition op_ok (op : pipe_op) : Prop := match op with PRead _ len => len_ok len | _ => True end.

(** The bytes a sequence of operations writes, and the reads it starts. *)
Fixpoint written (ops : list pipe_op) (open : bool) : list Z :=
  match ops with
  | [] => []
  | PWrite bytes :: ops => (if open then bytes else []) ++ written ops open
  | PClose :: ops => written ops false
  | PRead _ _ :: ops => written ops open
  end.
Definition started (ops : list pipe_op) : list Z := ops ≫= fun op => match op with PRead ctx _ => [ctx] | _ => [] end.

Record pipe_ok (p : pipe) : Prop := {
  po_head : head_waits (pi_end p);
  po_queue : queue_ok (pi_end p);
  po_eof : pe_eof (pi_end p) = negb (pi_writer p);
}.

Lemma delivered_app l l' : delivered (l ++ l') = delivered l ++ delivered l'.
Proof. apply bind_app. Qed.
Lemma returned_app l l' : returned (l ++ l') = returned l ++ returned l'.
Proof. apply bind_app. Qed.

Lemma new_pipe_ok : pipe_ok new_pipe.
Proof. split; [done | constructor | done]. Qed.

(** A step on its own. *)
Definition step_effect (op : pipe_op) (p p' : pipe) (evs : list pipe_event) : Prop :=
  pe_buffer (pi_end p) ++ written [op] (pi_writer p) = delivered evs ++ pe_buffer (pi_end p') ∧
  (q_ctx <$> pe_readQueue (pi_end p)) ++ started [op] = returned evs ++ (q_ctx <$> pe_readQueue (pi_end p')) ∧
  Forall result_ok evs.

Lemma read_step ctx len p :
  pipe_ok p → len_ok len →
  ∃ p' evs, pipe_step (PRead ctx len) p = Ret (p', evs) ∧ pipe_ok p' ∧ pi_writer p' = pi_writer p ∧ step_effect (PRead ctx len) p p' evs.
Proof.
  intros [O1 O2 O3] Hl. unfold step_effect. cbn [pipe_step written started mbind list_bind app]. rewrite app_nil_r.
  unfold pipe_read. rewrite len_u64 by done.
  destruct (negb (bool_decide (pe_readQueue (pi_end p) = [])) || _) eqn:C; cbn [mbind outcome_bind fst snd].
  - eexists _, _. split; [done |]. split; [| split; [done | split; [done |]]].
    + split; cbn; [| apply Forall_app_2; [done | by apply Forall_singleton] | done].
      intros q rest E. destruct (pe_readQueue (pi_end p)) as [| q0 rest0] eqn:Q.
      * cbn in E, C. simplify_eq. cbn [q_len]. unfold buffer_size in *. cbn [pe_buffer set_queue]. lia.
      * cbn in E. injection E as <- _. exact (O1 q0 rest0 Q).
    + cbn. rewrite fmap_app. split; [done | by repeat constructor].
  - set (n := if _ <? _ then _ else _). assert (0 ≤ n ≤ buffer_size (pi_end p)) as Hn.
    { unfold n, buffer_size, len_ok in *. destruct (Z.ltb_spec (Z.of_nat (length (pe_buffer (pi_end p)))) len); lia. }
    rewrite erase_fuel_enough by lia. cbn [mbind outcome_bind fst snd]. apply orb_false_iff in C as [C _].
    destruct (pe_readQueue (pi_end p)) as [| q rest] eqn:Q; [| done].
    eexists _, _. split; [done |]. split; [| split; [done | split]].
    + split; cbn; [unfold head_waits; cbn; by rewrite Q | unfold queue_ok; cbn; by rewrite Q | done].
    + cbn. by rewrite app_nil_r, take_drop.
    + cbn. rewrite Q. split; [done |]. by repeat constructor; right.
Qed.

Lemma write_step bytes p :
  pipe_ok p →
  ∃ p' evs, pipe_step (PWrite bytes) p = Ret (p', evs) ∧ pipe_ok p' ∧ pi_writer p' = pi_writer p ∧ step_effect (PWrite bytes) p p' evs.
Proof.
  intros [O1 O2 O3]. unfold step_effect. cbn [pipe_step written started mbind list_bind]. destruct (pi_writer p) eqn:W; cycle 1.
  { exists p, []. rewrite !app_nil_r. split; [done |]. split; [by split; rewrite ?W | done]. }
  cbn [pipe_write]. destruct (Notify_spec 1 (set_buffer (pe_buffer (pi_end p) ++ bytes) (pi_end p)) O2) as (e' & evs & -> & E1 & E2 & E3 & E4 & E5 & E6 & E7).
  cbn [mbind outcome_bind fst snd default]. eexists _, _. split; [done |]. cbn [pi_end pi_writer pe_buffer set_buffer pe_readQueue pe_eof] in *.
  split; [split; cbn; [done | done | by rewrite E5, O3] |]. split; [done |].
  rewrite delivered_app, returned_app, !app_nil_r. split_and!; [done | done |].
  apply Forall_app. split; [done | by repeat constructor].
Qed.

Lemma close_step p :
  pipe_ok p → ∃ p' evs, pipe_step PClose p = Ret (p', evs) ∧ pipe_ok p' ∧ pi_writer p' = false ∧ step_effect PClose p p' evs.
Proof.
  intros [O1 O2 O3]. unfold step_effect. cbn [pipe_step written started mbind list_bind]. destruct (pi_writer p) eqn:W; cycle 1.
  { exists p, []. rewrite !app_nil_r. split; [done |]. split; [by split; rewrite ?W | done]. }
  cbn [close_end]. destruct (Notify_spec 1 (set_eof (pi_end p)) O2) as (e' & evs & -> & E1 & E2 & E3 & E4 & E5 & E6 & E7).
  cbn [mbind outcome_bind fst snd default]. eexists _, _. split; [done |]. cbn [pi_end pi_writer pe_buffer set_eof pe_readQueue pe_eof] in *.
  split; [split; cbn; [done | done | by rewrite E5] |]. split; [done |]. by rewrite !app_nil_r.
Qed.

Lemma pipe_step_spec op p :
  pipe_ok p → op_ok op →
  ∃ p' evs, pipe_step op p = Ret (p', evs) ∧ pipe_ok p' ∧
    pi_writer p' = (match op with PClose => false | _ => pi_writer p end) ∧ step_effect op p p' evs.
Proof. destruct op as [ctx len | bytes |]; intros Hp Ho; [by apply read_step | by apply write_step | by apply close_step]. Qed.

Lemma pipe_run_spec ops p :
  pipe_ok p → Forall op_ok ops →
  ∃ p' evs, pipe_run ops p = Ret (p', evs) ∧ pipe_ok p' ∧
    pe_buffer (pi_end p) ++ written ops (pi_writer p) = delivered evs ++ pe_buffer (pi_end p') ∧
    (q_ctx <$> pe_readQueue (pi_end p)) ++ started ops = returned evs ++ (q_ctx <$> pe_readQueue (pi_end p')) ∧
    Forall result_ok evs.
Proof.
  intros Hp Ho. revert p Hp. induction Ho as [| op ops Ho _ IH]; intros p Hp.
  { exists p, []. cbn. by rewrite !app_nil_r. }
  cbn [pipe_run]. destruct (pipe_step_spec op p Hp Ho) as (p1 & evs1 & -> & H1 & W1 & B1 & Q1 & F1). cbn [mbind outcome_bind fst snd].
  destruct (IH p1 H1) as (p2 & evs2 & -> & H2 & B2 & Q2 & F2). cbn [mbind outcome_bind fst snd]. eexists _, _. split; [done |]. split; [done |].
  rewrite delivered_app, returned_app, <- !app_assoc, <- B2, <- Q2, !app_assoc, <- B1, <- Q1, <- !app_assoc.
  split_and!; [f_equal | f_equal | by apply Forall_app].
  - destruct op; cbn [written]; rewrite ?app_nil_r, W1; done.
  - unfold started. by rewrite !bind_cons, app_nil_r.
Qed.

(** C26: whatever reads, writes and the close of the writing end come after the pipe is made, every call is carried
    out; the bytes written are those the reads got, in the same order, and then those in the buffer; the reads
    return in the order they were started; the first of the reads that are queued asks for more than there is, and
    those behind wait for it.  The value a read returns is the number of its bytes or 0: a read that does not wait
    returns 0 although it got bytes (pipe_read_returns_zero).  Reads are of less than 2^63 bytes, and the reading end
    stays open. *)
Theorem pipe_fifo ops :
  Forall op_ok ops →
  ∃ p evs, pipe_run ops new_pipe = Ret (p, evs) ∧
    written ops true = delivered evs ++ pe_buffer (pi_end p) ∧
    started ops = returned evs ++ (q_ctx <$> pe_readQueue (pi_end p)) ∧
    head_waits (pi_end p) ∧ Forall result_ok evs.
Proof.
  intros Ho. destruct (pipe_run_spec ops new_pipe new_pipe_ok Ho) as (p & evs & E & Hp & B & Q & F). exists p, evs.
  split_and!; try done. apply Hp.
Qed.

Lemma pipe_fifo_witness :
  let ops := [PRead 1 3; PWrite [10; 20]; PRead 2 1; PWrite [30; 40; 50]; PRead 3 1] in
  ∃ p evs, pipe_run ops new_pipe = Ret (p, evs) ∧
    [10; 20; 30; 40; 50] = delivered evs ++ pe_buffer (pi_end p) ∧
    [1; 2; 3] = returned evs ++ (q_ctx <$> pe_readQueue (pi_end p)) ∧ head_waits (pi_end p) ∧ Forall result_ok evs.
Proof.
  intros ops. apply (pipe_fifo ops). repeat constructor; unfold op_ok, len_ok; lia.
Defined.

(** a read that finds what it asks for returns 0 for its length, though it took the bytes: the loop that takes
    them from the buffer counts the length down before it is returned. *)
Theorem pipe_read_returns_zero ctx len e :
  pe_readQueue e = [] → 0 ≤ len ≤ buffer_size e → buffer_size e < 2 ^ 63 →
  pipe_read ctx len e = Ret (set_buffer (drop (Z.to_nat len) (pe_buffer e)) e, ReadReturned ctx (take (Z.to_nat len) (pe_buffer e)) 0).
Proof.
  intros Hq Hl Hb. unfold pipe_read. rewrite len_u64, Hq by (unfold len_ok; lia). rewrite (proj2 (Z.ltb_ge (buffer_size e) len)) by lia.
  rewrite bool_decide_eq_true_2 by done. cbn [negb orb andb]. by rewrite erase_fuel_enough by lia.
Qed.

Lemma pipe_read_returns_zero_witness :
  let e := set_buffer [1; 2; 3] (CreateHandlerPair 1 2).1 in
  pipe_read 7 2 e = Ret (set_buffer [3] e, ReadReturned 7 [1; 2] 0).
Proof. intros e. apply (pipe_read_returns_zero 7 2 e); [done | | done]. unfold e, buffer_size. cbn. lia. Defined.

(** A pipe at its end with a read queued. *)
Definition stranded (p : pipe) : Prop := pi_writer p = false ∧ pe_readQueue (pi_end p) ≠ [].

Lemma stranded_step op p : stranded p → ∃ p' evs, pipe_step op p = Ret (p', evs) ∧ returned evs = [] ∧ stranded p' ∧
  ∃ l, pe_readQueue (pi_end p') = pe_readQueue (pi_end p) ++ l.
Proof.
  intros [W Q]. destruct op as [ctx len | bytes |]; cbn [pipe_step]; rewrite ?W.
  - unfold pipe_read. rewrite bool_decide_eq_false_2 by done. cbn [negb orb mbind outcome_bind fst snd]. eexists _, _. split; [done |].
    split; [done |]. split; [split; [done |] | by eexists]. cbn. by destruct (pe_readQueue (pi_end p)).
  - exists p, []. split; [done |]. split; [done |]. split; [done |]. exists []. by rewrite app_nil_r.
  - exists p, []. split; [done |]. split; [done |]. split; [done |]. exists []. by rewrite app_nil_r.
Qed.

Lemma stranded_run ops p :
  stranded p → ∃ p' evs, pipe_run ops p = Ret (p', evs) ∧ returned evs = [] ∧
    ∃ l, pe_readQueue (pi_end p') = pe_readQueue (pi_end p) ++ l.
Proof.
  revert p. induction ops as [| op ops IH]; intros p Hp.
  { exists p, []. split; [done |]. split; [done |]. exists []. by rewrite app_nil_r. }
  cbn [pipe_run]. destruct (stranded_step op p Hp) as (p1 & evs1 & -> & E1 & H1 & l1 & L1). cbn [mbind outcome_bind fst snd].
  destruct (IH p1 H1) as (p2 & evs2 & -> & E2 & l2 & L2). cbn [mbind outcome_bind fst snd]. eexists _, _. split; [done |].
  rewrite returned_app, E1, E2, L2, L1. split; [done |]. exists (l1 ++ l2). by rewrite <- app_assoc.
Qed.

(** when the writing end closes while reads are queued, none of them returns, then or ever, whatever is called
    afterwards, and neither does any later one: close_end tells the reader of the end of the file, but Notify completes
    only reads that have enough bytes, and reads wait behind those that are queued. *)
Theorem pipe_eof_strands_reader ops ops' p evs :
  Forall op_ok ops → pipe_run ops new_pipe = Ret (p, evs) → pi_writer p = true → pe_readQueue (pi_end p) ≠ [] →
  ∃ p' evs', pipe_run (PClose :: ops') p = Ret (p', evs') ∧ returned evs' = [] ∧
    ∃ l, pe_readQueue (pi_end p') = pe_readQueue (pi_end p) ++ l.
Proof.
  intros Ho E W Q. destruct (pipe_run_spec ops new_pipe new_pipe_ok Ho) as (p0 & evs0 & E0 & [O1 O2 _] & _).
  rewrite E in E0. injection E0 as <- <-. cbn [pipe_run pipe_step]. rewrite W. cbn [close_end].
  destruct (Notify_spec 1 (set_eof (pi_end p)) O2) as (e' & evs1 & -> & _ & _ & _ & _ & _ & _ & Hk).
  destruct Hk as [Q1 ->]; [exact O1 |]. cbn [mbind outcome_bind fst snd default id].
  destruct (stranded_run ops' (Pipe e' false)) as (p' & evs' & -> & E1 & l & L); [split; [done | cbn; by rewrite Q1] |].
  cbn [mbind outcome_bind fst snd app]. exists p', evs'. split; [done |]. split; [done |]. exists l. rewrite L. cbn. by rewrite Q1.
Qed.

(** A reader asks for two bytes, one is written, the writer goes. *)
Lemma pipe_eof_strands_reader_witness :
  ∃ p evs p' evs', pipe_run [PRead 1 2; PWrite [10]] new_pipe = Ret (p, evs) ∧
    pipe_run [PClose; PRead 2 1; PRead 3 1] p = Ret (p', evs') ∧ returned evs' = [].
Proof.
  eexists _, _. edestruct (pipe_eof_strands_reader [PRead 1 2; PWrite [10]] [PRead 2 1; PRead 3 1]) as (p' & evs' & E & R & _).
  - repeat constructor; unfold op_ok, len_ok; lia.
  - vm_compute. reflexivity.
  - reflexivity.
  - discriminate.
  - exists p', evs'. split; [vm_compute; reflexivity |]. exact (conj E R).
Defined.

Lemma notify_queue_reads queue e e' evs h b : notify_queue queue e = Ret (e', evs) → ReadyRead h b ∉ evs.
Proof.
  revert e e' evs. induction queue as [| q rest IH]; intros e e' evs; cbn [notify_queue]; [intros [= <- <-]; apply not_elem_of_nil |].
  destruct (_ <=? _); [| intros [= <- <-]; apply not_elem_of_nil]. unfold queued_func.
  destruct (erase_loop _ _ _) as [r | | |]; [| done ..]. cbn [mbind outcome_bind fst snd].
  destruct (notify_queue rest _) as [[e1 evs1] | | |] eqn:E; [| done ..]. cbn [mbind outcome_bind fst snd]. intros [= <- <-].
  apply not_elem_of_cons. split; [done |]. by apply IH in E.
Qed.

(** a descriptor is never told that it is ready to be read: Notify does not put a handler on the list it goes
    through. *)
Theorem pipe_never_ready e h b :
  queue_ok e → ∃ e' evs, PipeEnd_Notify 1 e = Ret (e', evs) ∧ ReadyRead h b ∉ evs.
Proof.
  intros Hq. destruct (notify_queue_spec (pe_readQueue e) e Hq) as (e1 & evs & E & _). cbn [PipeEnd_Notify]. rewrite E.
  cbn [mbind outcome_bind fst snd]. set (e2 := set_fds _ e1). assert (read_ready e2 = read_ready e1) as -> by done. rewrite eqb_reflx.
  eexists _, _. split; [done |]. cbn [fmap list_fmap]. rewrite app_nil_r. by apply (notify_queue_reads _ _ _ _ h b) in E.
Qed.

Lemma pipe_never_ready_witness :
  ∃ e' evs, PipeEnd_Notify 1 (set_buffer [1] (CreateHandlerPair 1 2).1) = Ret (e', evs) ∧ ReadyRead 1 true ∉ evs.
Proof. apply pipe_never_ready. constructor. Defined.
