(* ===== verification/Keyboard.v ===== *)
(** kernel/keyboard/keyboard.cpp, kernel/keyboard/keyboard_en.cpp: the keyboard.  The bytes of a PS/2
    keyboard become keycodes with the state of the modifiers and locks; these become the numbers of USB
    keyboards and, in a code page, characters. *)
From S2P Require Import Prelude.

Local Open Scope Z_scope.

(** * The code *)

Definition KEYBOARD_CODE_BIT_RELEASE : Z := 0x0080000.
Definition KEYBOARD_CODE_BIT_SCROLLLOCK : Z := 0x0040000.
Definition KEYBOARD_CODE_BIT_CAPSLOCK : Z := 0x0020000.
Definition KEYBOARD_CODE_BIT_NUMLOCK : Z := 0x0010000.
Definition KEYBOARD_CODE_BIT_LSHIFT : Z := 0x0100000.
Definition KEYBOARD_CODE_BIT_RSHIFT : Z := 0x0200000.
Definition KEYBOARD_CODE_BIT_LALT : Z := 0x0400000.
Definition KEYBOARD_CODE_BIT_RALT : Z := 0x0800000.
Definition KEYBOARD_CODE_BIT_LCONTROL : Z := 0x1000000.
Definition KEYBOARD_CODE_BIT_RCONTROL : Z := 0x2000000.
Definition KEYBOARD_CODE_MASK : Z := 0xFFFF.
Definition KEYBOARD_CODE_EXTENDED : Z := 0x0100.
Definition KEYBOARD_CODE_PRINTSCREEN : Z := 0x0200.
Definition KEYBOARD_CODE_PAUSE : Z := Z.lor 0x0201 KEYBOARD_CODE_BIT_RELEASE.
Definition KEYBOARD_CODE_BACKSPACE : Z := 0x2A.
Definition REC_BUFFER_SIZE : Z := 7.

(** class keyboard_type2_state_machine. *)
Record type2 := {
  t2_state : Z;
  t2_capslock : bool;
  t2_scrolllock : bool;
  t2_numlock : bool;
  t2_ignore_length : Z;
  t2_recorded_length : Z;
  t2_ignore_codes : list Z;
  t2_recorded_codes : list Z;
}.

Definition new_type2 : type2 :=
  {| t2_state := 0; t2_capslock := false; t2_scrolllock := false; t2_numlock := false;
     t2_ignore_length := 0; t2_recorded_length := 0;
     t2_ignore_codes := replicate 2 0; t2_recorded_codes := replicate 7 0 |}.

Definition set_state (s : Z) (m : type2) : type2 :=
  {| t2_state := s; t2_capslock := t2_capslock m; t2_scrolllock := t2_scrolllock m; t2_numlock := t2_numlock m;
     t2_ignore_length := t2_ignore_length m; t2_recorded_length := t2_recorded_length m;
     t2_ignore_codes := t2_ignore_codes m; t2_recorded_codes := t2_recorded_codes m |}.
Definition SetLeds (capslock scrolllock numlock : bool) (m : type2) : type2 :=
  {| t2_state := t2_state m; t2_capslock := capslock; t2_scrolllock := scrolllock; t2_numlock := numlock;
     t2_ignore_length := t2_ignore_length m; t2_recorded_length := t2_recorded_length m;
     t2_ignore_codes := t2_ignore_codes m; t2_recorded_codes := t2_recorded_codes m |}.
Definition set_ignore (len : Z) (codes : list Z) (m : type2) : type2 :=
  {| t2_state := t2_state m; t2_capslock := t2_capslock m; t2_scrolllock := t2_scrolllock m; t2_numlock := t2_numlock m;
     t2_ignore_length := len; t2_recorded_length := t2_recorded_length m;
     t2_ignore_codes := codes; t2_recorded_codes := t2_recorded_codes m |}.
Definition set_recorded (len : Z) (codes : list Z) (m : type2) : type2 :=
  {| t2_state := t2_state m; t2_capslock := t2_capslock m; t2_scrolllock := t2_scrolllock m; t2_numlock := t2_numlock m;
     t2_ignore_length := t2_ignore_length m; t2_recorded_length := len;
     t2_ignore_codes := t2_ignore_codes m; t2_recorded_codes := codes |}.

(** recorded_length = 0. *)
Definition forget (m : type2) : type2 := set_recorded 0 (t2_recorded_codes m) m.

(** recorded_codes[i] = ch; recorded_length = i + 1. *)
Definition record_at (i ch : Z) (m : type2) : outcome type2 :=
  codes ← wr (t2_recorded_codes m) i ch;
  Ret (set_recorded (i + 1) codes m).

(** recorded_codes[recorded_length++] = ch. *)
Definition record (ch : Z) (m : type2) : outcome type2 := record_at (t2_recorded_length m) ch m.

(** recorded_codes[0] == l0 && recorded_codes[1] == l1 && ... *)
Definition recorded_is (l : list Z) (m : type2) : bool :=
  bool_decide (take (length l) (t2_recorded_codes m) = l).

Fixpoint shift_ignored (n : nat) (i : Z) (codes : list Z) : outcome (list Z) :=
  match n with
  | O => Ret codes
  | S n =>
      c ← rd codes (i + 1);
      codes' ← wr codes i c;
      shift_ignored n (i + 1) codes'
  end.

(** The start of raw_code: whether the byte is one to ignore. *)
Definition check_ignore (ch : Z) (m : type2) : outcome (bool * type2) :=
  if 0 <? t2_ignore_length m then
    c ← rd (t2_ignore_codes m) 0;
    if c =? ch then
      let len := t2_ignore_length m - 1 in
      codes ← shift_ignored (Z.to_nat len) 0 (t2_ignore_codes m);
      Ret (true, set_ignore len codes m)
    else Ret (false, m)
  else Ret (false, m).

Definition modifier_bit (key : Z) : Z :=
  if key =? 0x11 then KEYBOARD_CODE_BIT_LALT
  else if key =? 0x12 then KEYBOARD_CODE_BIT_LSHIFT
  else if key =? 0x14 then KEYBOARD_CODE_BIT_LCONTROL
  else if key =? 0x59 then KEYBOARD_CODE_BIT_RSHIFT
  else if key =? 0x111 then KEYBOARD_CODE_BIT_RALT
  else if key =? 0x114 then KEYBOARD_CODE_BIT_RCONTROL
  else 0.

(** layer2_keycode: the state, and the code that keycode is called with. *)
Definition layer2_keycode (code : Z) (m : type2) : type2 * Z :=
  let key := Z.land code KEYBOARD_CODE_MASK in
  let bit := modifier_bit key in
  let state :=
    if bit =? 0 then t2_state m
    else if Z.land code KEYBOARD_CODE_BIT_RELEASE =? 0 then Z.lor (t2_state m) bit
    else Z.land (t2_state m) (not_w 32 bit) in
  (set_state state m, Z.lor code state).

(** The cases of the three lock keys, where [is_on] is the lock and [set] is SetLeds with the lock
    turned on or off. *)
Definition lock_key (ch : Z) (is_on : bool) (set : bool → type2 → type2) (m : type2) : outcome type2 :=
  if is_on then
    if t2_recorded_length m =? 0 then record_at 0 ch m
    else if (t2_recorded_length m =? 2) && recorded_is [ch; 0xF0] m then Ret (forget (set false m))
    else Ret (forget m)
  else
    codes ← wr (t2_ignore_codes m) 0 0xF0;
    codes' ← wr codes 1 ch;
    Ret (set_ignore 2 codes' (set true m)).

(** The default case: the state, the code, and whether the byte is only recorded. *)
Definition raw_default (ch keycode : Z) (m : type2) : outcome (type2 * Z * bool) :=
  let swallow i c := m' ← record_at i c m; Ret (m', keycode, true) in
  let plain k := Ret (forget m, k, false) in
  let len := t2_recorded_length m in
  if (len =? 0) && (ch =? 0xE1) then swallow 0 ch
  else if len =? 1 then
    if recorded_is [0xE0] m then
      if ch =? 0x12 then swallow 1 0x12
      else plain (Z.lor keycode KEYBOARD_CODE_EXTENDED + ch)
    else if recorded_is [0xF0] m then plain (Z.lor keycode KEYBOARD_CODE_BIT_RELEASE + ch)
    else if recorded_is [0xE1] m && (ch =? 0x14) then swallow 1 0x14
    else plain (keycode + ch)
  else if len =? 2 then
    if recorded_is [0xE0; 0xF0] m then
      if ch =? 0x7C then swallow 2 ch
      else plain (Z.lor keycode (Z.lor KEYBOARD_CODE_EXTENDED KEYBOARD_CODE_BIT_RELEASE) + ch)
    else plain (keycode + ch)
  else if len =? 3 then
    if recorded_is [0xE0; 0x12; 0xE0] m && (ch =? 0x7C) then plain (keycode + KEYBOARD_CODE_PRINTSCREEN)
    else if recorded_is [0xE1; 0x14; 0x77] m && (ch =? 0xE1) then swallow 3 0xE1
    else plain (keycode + ch)
  else if len =? 5 then
    if recorded_is [0xE0; 0xF0; 0x7C; 0xE0; 0xF0] m && (ch =? 0x12)
    then plain (Z.lor keycode (Z.lor KEYBOARD_CODE_BIT_RELEASE KEYBOARD_CODE_PRINTSCREEN))
    else if recorded_is [0xE1; 0x14; 0x77; 0xE1; 0xF0] m && (ch =? 0x14) then swallow 5 0x14
    else plain (keycode + ch)
  else plain (keycode + ch).

(** The lock bits every code starts with. *)
Definition lock_bits (m : type2) : Z :=
  let k := if t2_scrolllock m then KEYBOARD_CODE_BIT_SCROLLLOCK else 0 in
  let k := if t2_capslock m then Z.lor k KEYBOARD_CODE_BIT_CAPSLOCK else k in
  if t2_numlock m then Z.lor k KEYBOARD_CODE_BIT_NUMLOCK else k.

Definition with_code (r : type2 * Z) : type2 * list Z := (r.1, [r.2]).

(** The switch of raw_code: the state and the calls of keycode. *)
Definition raw_switch (ch : Z) (m : type2) : outcome (type2 * list Z) :=
  let keycode := lock_bits m in
  if ch =? 0x58 then
    m' ← lock_key ch (t2_capslock m) (λ b m, SetLeds b (t2_scrolllock m) (t2_numlock m) m) m; Ret (m', [])
  else if ch =? 0x7E then
    m' ← lock_key ch (t2_scrolllock m) (λ b m, SetLeds (t2_capslock m) b (t2_numlock m) m) m; Ret (m', [])
  else if ch =? 0x77 then
    if (t2_recorded_length m =? 2) && recorded_is [0xE1; 0x14] m then
      m' ← record ch m; Ret (m', [])
    else if (t2_recorded_length m =? 7) && recorded_is [0xE1; 0x14; 0x77; 0xE1; 0xF0; 0x14; 0xF0] m then
      Ret (with_code (layer2_keycode (Z.lor keycode KEYBOARD_CODE_PAUSE) (forget m)))
    else
      m' ← lock_key ch (t2_numlock m) (λ b m, SetLeds (t2_capslock m) (t2_scrolllock m) b m) m; Ret (m', [])
  else if (ch =? 0xF0) || (ch =? 0xE0) then
    if t2_recorded_length m <? REC_BUFFER_SIZE then m' ← record ch m; Ret (m', []) else Ret (m, [])
  else
    '(m', code, swallow) ← raw_default ch keycode m;
    if swallow : bool then Ret (m', []) else Ret (with_code (layer2_keycode code m')).

Definition raw_code (ch : Z) (m : type2) : outcome (type2 * list Z) :=
  '(ignore, m') ← check_ignore ch m;
  if ignore : bool then Ret (m', []) else raw_switch ch m'.

(** The bytes of the keyboard one after the other, as ps2kbd::extractor passes them. *)
Fixpoint raw_codes (chs : list Z) (m : type2) : outcome (type2 * list Z) :=
  match chs with
  | [] => Ret (m, [])
  | ch :: chs =>
      r ← raw_code ch m;
      r' ← raw_codes chs r.1;
      Ret (r'.1, r.2 ++ r'.2)
  end.

Definition usbcodes : list Z := concat [
  (* 00 *) [0; 0; 0xFC; 0; 0x1C; 0x32; 0x21; 0x23; 0x24; 0x2B; 0x34; 0x33; 0x43; 0x3B; 0x42; 0x4B];
  (* 10 *) [0x3A; 0x31; 0x44; 0x4D; 0x15; 0x2D; 0x1B; 0x2C; 0x3C; 0x2A; 0x1D; 0x22; 0x35; 0x1A; 0x16; 0x1E];
  (* 20 *) [0x26; 0x25; 0x2E; 0x36; 0x3D; 0x3E; 0x46; 0x45; 0x5A; 0x76; 0x66; 0x0D; 0x29; 0x4E; 0x55; 0x54];
  (* 30 *) [0x5B; 0x5D; 0x5D; 0x4C; 0x52; 0x0E; 0x41; 0x49; 0x4A; 0x58; 0x05; 0x06; 0x04; 0x0C; 0x03; 0x0B];
  (* 40 *) [0x83; 0x0A; 0x01; 0x09; 0x78; 0x07; 0x17C; 0x7E; Z.land KEYBOARD_CODE_PAUSE KEYBOARD_CODE_MASK; 0x170; 0x16C; 0x17D; 0x171; 0x169; 0x17A; 0x174];
  (* 50 *) [0x16B; 0x172; 0x175; 0; 0x14A; 0x7C; 0x7B; 0x79; 0x15A; 0x69; 0x72; 0x7A; 0x6B; 0x73; 0x74; 0x6C];
  (* 60 *) [0x75; 0x7D; 0x70; 0x71; 0; 0; 0; 0x55; 0; 0; 0; 0; 0; 0; 0; 0];
  (* 70 *) [0; 0; 0; 0; 0; 0; 0; 0; 0; 0; 0; 0; 0; 0; 0; 0];
  (* 80 *) [0; 0x137; 0x13F; 0x15E; 0; 0; 0x55; 0; 0; 0; 0; 0; 0; 0; 0; 0];
  (* 90 *) [0; 0; 0; 0; 0; 0; 0; 0; 0; 0; 0; 0; 0; 0; 0; 0];
  (* A0 *) [0; 0; 0; 0; 0; 0; 0; 0; 0; 0; 0; 0; 0; 0; 0; 0];
  (* B0 *) [0; 0; 0; 0; 0; 0; 0; 0; 0; 0; 0; 0; 0; 0; 0; 0];
  (* C0 *) [0; 0; 0; 0; 0; 0; 0; 0; 0; 0; 0; 0; 0; 0; 0; 0];
  (* D0 *) [0; 0; 0; 0; 0; 0; 0; 0; 0; 0; 0; 0; 0; 0; 0; 0];
  (* E0 *) [0x14; 0x12; 0x11; 0; 0x114; 0x59; 0x111; 0]].

(** The loop of _keycode_type2_to_usb from [code] on. *)
Fixpoint usb_search (codes : list Z) (code masked : Z) : option Z :=
  match codes with
  | [] => None
  | c :: codes => if masked =? c then Some code else usb_search codes (code + 1) masked
  end.

Definition keycode_type2_to_usb (keycode : Z) : Z :=
  let unmasked := Z.land keycode (not_w 32 KEYBOARD_CODE_MASK) in
  let masked_code := Z.land keycode KEYBOARD_CODE_MASK in
  match usb_search usbcodes 0 masked_code with
  | Some code => Z.lor unmasked code
  | None => unmasked
  end.

(** The two strings of the English code page, from keycode 0x1E on. *)
Definition prim_codes : list Z :=
  [49; 50; 51; 52; 53; 54; 55; 56; 57; 48; 10; 0; 8; 9; 32; 45; 61; 91; 93; 92; 0; 59; 39; 96; 44; 46; 47; 0].
Definition mod_codes : list Z :=
  [33; 64; 35; 36; 37; 94; 38; 42; 40; 41; 10; 0; 8; 9; 32; 95; 43; 123; 125; 124; 0; 58; 34; 126; 60; 62; 63; 0].

(** keyboard_en_codepage::Translate. *)
Definition Translate (keycode : Z) : outcome Z :=
  let upper := negb (Z.land keycode KEYBOARD_CODE_BIT_CAPSLOCK =? 0) in
  let modifier := negb (Z.land keycode (Z.lor KEYBOARD_CODE_BIT_LSHIFT KEYBOARD_CODE_BIT_RSHIFT) =? 0) in
  let upper := if modifier then negb upper else upper in
  let code := Z.land keycode KEYBOARD_CODE_MASK in
  if 4 <=? code then
    if code <? 0x1E then Ret ((if upper then 65 - 4 else 97 - 4) + code)
    else if code <? 0x39 then
      if modifier then rd mod_codes (code - 0x1E) else rd prim_codes (code - 0x1E)
    else Ret 0
  else Ret 0.

(** class keyboard: the consumer of the codes and those that wait to be it.  [Consume] is the virtual
    function of the consumer with this identity. *)
Record keyboard := { kb_consumer : option Z; kb_consumers : list Z }.

Section keyboard.
Context {W : Type} (Consume : Z → Z → W → outcome (bool * W)).

Definition keyboard_keycode (code : Z) (k : keyboard) (w : W) : outcome (keyboard * W) :=
  let k :=
    match kb_consumer k, kb_consumers k with
    | None, c :: rest => {| kb_consumer := Some c; kb_consumers := rest |}
    | _, _ => k
    end in
  match kb_consumer k with
  | None => Ret (k, w)
  | Some c =>
      '(goes_on, w') ← Consume c code w;
      Ret (if goes_on : bool then k else {| kb_consumer := None; kb_consumers := kb_consumers k |}, w')
  end.

End keyboard.

Definition keyboard_consume (c : Z) (k : keyboard) : keyboard :=
  {| kb_consumer := kb_consumer k; kb_consumers := kb_consumers k ++ [c] |}.

Fixpoint erase_consumer (c : Z) (l : list Z) : list Z :=
  match l with
  | [] => []
  | c' :: l => if c =? c' then l else c' :: erase_consumer c l
  end.

Definition keyboard_unconsume (c : Z) (k : keyboard) : keyboard :=
  if bool_decide (kb_consumer k = Some c) then {| kb_consumer := None; kb_consumers := kb_consumers k |}
  else {| kb_consumer := kb_consumer k; kb_consumers := erase_consumer c (kb_consumers k) |}.

(** * Safety *)

(** The lengths stay within the two arrays. *)
Definition type2_ok (m : type2) : Prop :=
  0 ≤ t2_recorded_length m ≤ 7 ∧ length (t2_recorded_codes m) = 7%nat ∧
  0 ≤ t2_ignore_length m ≤ 2 ∧ length (t2_ignore_codes m) = 2%nat.

Lemma record_at_ok i ch m :
  type2_ok m → 0 ≤ i < 7 → ∃ m', record_at i ch m = Ret m' ∧ type2_ok m'.
Proof.
  intros (Hl & Hc & Hi & Hj) Hr. unfold record_at. rewrite wr_lt by lia. eexists. split; [done |].
  repeat split; simpl; rewrite ?length_insert; lia.
Qed.

Lemma forget_ok m : type2_ok m → type2_ok (forget m).
Proof. intros (? & ? & ? & ?). repeat split; simpl; lia. Qed.

Lemma layer2_ok code m : type2_ok m → type2_ok (layer2_keycode code m).1.
Proof. done. Qed.

Lemma lock_key_ok ch on set m :
  (∀ b m, type2_ok m → type2_ok (set b m)) →
  type2_ok m → ∃ m', lock_key ch on set m = Ret m' ∧ type2_ok m'.
Proof.
  intros Hs Hm. unfold lock_key. destruct on.
  - ztest; [apply record_at_ok; [done | lia] |].
    destruct (_ && _); eexists; (split; [done |]); auto using forget_ok.
  - destruct (Hm) as (_ & _ & _ & Hl).
    rewrite wr_lt by lia. cbn [mbind outcome_bind]. rewrite wr_lt by (rewrite length_insert; lia).
    eexists. split; [done |]. destruct (Hs true m Hm) as (? & ? & ? & ?).
    repeat split; simpl; rewrite ?length_insert; try done; lia.
Qed.

Lemma check_ignore_ok ch m :
  type2_ok m → ∃ b m', check_ignore ch m = Ret (b, m') ∧ type2_ok m'.
Proof.
  intros (Hl & Hc & Hi & Hj). unfold check_ignore.
  destruct (t2_ignore_codes m) as [| c0 [| c1 [|]]] eqn:E; try (simpl in Hj; lia).
  ztest; [| eexists _, _; split; [done | repeat split; simpl; rewrite ?E; simpl; lia]].
  change (rd [c0; c1] 0) with (Ret c0). cbn [mbind outcome_bind]. ztest; [| eexists _, _; split; [done | repeat split; simpl; rewrite ?E; simpl; lia]].
  assert (t2_ignore_length m = 1 ∨ t2_ignore_length m = 2) as [-> | ->] by lia; cbn;
    eexists _, _; (split; [done |]); repeat split; simpl; lia.
Qed.

Lemma raw_default_ok ch keycode m :
  type2_ok m → ∃ m' code sw, raw_default ch keycode m = Ret (m', code, sw) ∧ type2_ok m'.
Proof.
  intros Hm. unfold raw_default.
  repeat match goal with |- context [if ?b then _ else _] => destruct b end;
    try (eexists _, _, _; split; [done | by apply forget_ok]);
    match goal with |- context [record_at ?i ?c ?m] =>
      destruct (record_at_ok i c m) as (m' & -> & ?); [done | lia |] end;
    by eexists _, _, _.
Qed.

Lemma raw_code_ok ch m :
  type2_ok m → ∃ m' out, raw_code ch m = Ret (m', out) ∧ type2_ok m'.
Proof.
  intros Hm. unfold raw_code. destruct (check_ignore_ok ch m Hm) as (b & m1 & -> & H1).
  cbn [mbind outcome_bind]. destruct b; [by eexists _, _ |]. clear m Hm. unfold raw_switch.
  assert (∀ set on, (∀ b m, type2_ok m → type2_ok (set b m)) → ∃ m' out,
    (m' ← lock_key ch on set m1; Ret (m', @nil Z)) = Ret (m', out) ∧ type2_ok m') as Hlock.
  { intros set on Hs. destruct (lock_key_ok ch on set m1 Hs H1) as (m' & -> & ?). by eexists _, _. }
  assert (t2_recorded_length m1 < 7 → ∃ m' out,
    (m' ← record ch m1; Ret (m', @nil Z)) = Ret (m', out) ∧ type2_ok m') as Hrec.
  { intros Hlt. destruct (record_at_ok (t2_recorded_length m1) ch m1 H1) as (m' & E & ?); [destruct H1; lia |].
    unfold record. rewrite E. by eexists _, _. }
  ztest; [by apply Hlock |]. ztest; [by apply Hlock |]. ztest.
  - destruct (Z.eqb_spec (t2_recorded_length m1) 2); cbn [andb].
    + destruct (recorded_is _ m1); [apply Hrec; lia |].
      replace (t2_recorded_length m1 =? 7) with false by (symmetry; lia). by apply Hlock.
    + destruct (_ && _); [| by apply Hlock]. eexists _, _. split; [done |]. by apply layer2_ok, forget_ok.
  - destruct (_ || _).
    + unfold REC_BUFFER_SIZE. ztest; [by apply Hrec | by eexists _, _].
    + destruct (raw_default_ok ch (lock_bits m1) m1 H1) as (m' & code & sw & -> & ?). cbn [mbind outcome_bind].
      destruct sw; by eexists _, _.
Qed.

(** whatever bytes a keyboard sends, the state machine takes each of them, and never reads or writes
    outside the arrays of recorded and of ignored bytes. *)
Theorem keyboard_safe chs : ∃ m codes, raw_codes chs new_type2 = Ret (m, codes) ∧ type2_ok m.
Proof.
  assert (∀ m, type2_ok m → ∃ m' codes, raw_codes chs m = Ret (m', codes) ∧ type2_ok m') as H.
  { induction chs as [| ch chs IH]; intros m Hm; [by eexists _, _ |]. simpl.
    destruct (raw_code_ok ch m Hm) as (m1 & out & -> & H1). cbn [mbind outcome_bind fst].
    destruct (IH m1 H1) as (m2 & codes & -> & H2). by eexists _, _. }
  apply H. repeat split; simpl; lia.
Qed.

(** * What the keyboard means

    A key is pressed or released, or one of the locks is pressed and released. *)
Inductive lock := CapsLock | ScrollLock | NumLock.

Inductive key_event :=
  | Key (release : bool) (k : Z)
  | ExtKey (release : bool) (k : Z)
  | PrintScreen (release : bool)
  | Pause
  | Lock (l : lock).

Definition lock_code (l : lock) : Z :=
  match l with CapsLock => 0x58 | ScrollLock => 0x7E | NumLock => 0x77 end.

(** The bytes a keyboard of type 2 sends. *)
Definition scancodes (e : key_event) : list Z :=
  match e with
  | Key false k => [k]
  | Key true k => [0xF0; k]
  | ExtKey false k => [0xE0; k]
  | ExtKey true k => [0xE0; 0xF0; k]
  | PrintScreen false => [0xE0; 0x12; 0xE0; 0x7C]
  | PrintScreen true => [0xE0; 0xF0; 0x7C; 0xE0; 0xF0; 0x12]
  | Pause => [0xE1; 0x14; 0x77; 0xE1; 0xF0; 0x14; 0xF0; 0x77]
  | Lock l => [lock_code l; 0xF0; lock_code l]
  end.

(** The byte of a key is none of those with a meaning of their own. *)
Definition key_byte (k : Z) : Prop := 0 ≤ k < 256 ∧ k ∉ [0x58; 0x7E; 0x77; 0xF0; 0xE0; 0xE1].

Definition key_event_ok (e : key_event) : Prop :=
  match e with
  | Key _ k => key_byte k
  | ExtKey release k => key_byte k ∧ k ≠ (if release then 0x7C else 0x12)
  | _ => True
  end.

(** The keyboard as its user sees it: the locks that are on, the keys that are down. *)
Record board := { b_caps : bool; b_scroll : bool; b_num : bool; b_down : gset Z }.

Definition modifier_keys : list Z := [0x11; 0x12; 0x14; 0x59; 0x111; 0x114].

(** The modifier bits of the keys that are down. *)
Definition modifiers (down : gset Z) : Z :=
  foldr (λ k r, Z.lor (if bool_decide (k ∈ down) then modifier_bit k else 0) r) 0 modifier_keys.

Definition board_locks (b : board) : Z :=
  Z.lor (if b_scroll b then KEYBOARD_CODE_BIT_SCROLLLOCK else 0)
    (Z.lor (if b_caps b then KEYBOARD_CODE_BIT_CAPSLOCK else 0)
       (if b_num b then KEYBOARD_CODE_BIT_NUMLOCK else 0)).

Definition set_down (d : gset Z) (b : board) : board :=
  {| b_caps := b_caps b; b_scroll := b_scroll b; b_num := b_num b; b_down := d |}.

(** A key with number [k] moves: the board, and the code with the locks and modifiers that are then on. *)
Definition board_move (release : bool) (k : Z) (b : board) : board * list Z :=
  let d := if release then b_down b ∖ {[k]} else {[k]} ∪ b_down b in
  (set_down d b,
   [Z.lor (Z.lor (board_locks b) (Z.lor k (if release then KEYBOARD_CODE_BIT_RELEASE else 0))) (modifiers d)]).

Definition board_event (e : key_event) (b : board) : board * list Z :=
  match e with
  | Key release k => board_move release k b
  | ExtKey release k => board_move release (0x100 + k) b
  | PrintScreen release => board_move release 0x200 b
  | Pause => board_move true 0x201 b
  | Lock CapsLock =>
      ({| b_caps := negb (b_caps b); b_scroll := b_scroll b; b_num := b_num b; b_down := b_down b |}, [])
  | Lock ScrollLock =>
      ({| b_caps := b_caps b; b_scroll := negb (b_scroll b); b_num := b_num b; b_down := b_down b |}, [])
  | Lock NumLock =>
      ({| b_caps := b_caps b; b_scroll := b_scroll b; b_num := negb (b_num b); b_down := b_down b |}, [])
  end.

Fixpoint board_events (es : list key_event) (b : board) : board * list Z :=
  match es with
  | [] => (b, [])
  | e :: es =>
      let r := board_event e b in
      let r' := board_events es r.1 in
      (r'.1, r.2 ++ r'.2)
  end.

(** Between two events nothing is recorded or to be ignored. *)
Definition board_rel (b : board) (m : type2) : Prop :=
  t2_state m = modifiers (b_down b) ∧
  t2_capslock m = b_caps b ∧ t2_scrolllock m = b_scroll b ∧ t2_numlock m = b_num b ∧
  t2_recorded_length m = 0 ∧ length (t2_recorded_codes m) = 7%nat ∧
  t2_ignore_length m = 0 ∧ length (t2_ignore_codes m) = 2%nat.

(** ** The modifiers *)

Lemma modifier_bit_other k : k ∉ modifier_keys → modifier_bit k = 0.
Proof. unfold modifier_keys, modifier_bit. intros H. repeat (ztest; [subst; set_solver |]). done. Qed.

Lemma modifiers_ext d d' :
  (∀ k, k ∈ modifier_keys → k ∈ d ↔ k ∈ d') → modifiers d = modifiers d'.
Proof.
  unfold modifiers. generalize modifier_keys as l. intros l. induction l as [| k l IH]; intros H; [done |].
  simpl. rewrite IH by set_solver. f_equal.
  by rewrite (bool_decide_ext _ _ (H k (list_elem_of_here k l))).
Qed.

(** Every case of the memberships left in the goal. *)
Ltac all_members d :=
  repeat match goal with |- context [bool_decide (?j ∈ d)] => destruct (bool_decide (j ∈ d)) end; reflexivity.

Ltac modifier_cases Hk :=
  repeat (apply elem_of_cons in Hk as [-> | Hk]); [.. | by apply elem_of_nil in Hk].

Lemma modifiers_insert k d : modifiers ({[k]} ∪ d) = Z.lor (modifiers d) (modifier_bit k).
Proof.
  destruct (decide (k ∈ modifier_keys)) as [Hk | Hk].
  - unfold modifiers, modifier_keys; cbn [foldr].
    assert (∀ j, bool_decide (j ∈ {[k]} ∪ d) = (j =? k) || bool_decide (j ∈ d)) as E.
    { intros j. case_bool_decide; destruct (Z.eqb_spec j k), (decide (j ∈ d)); case_bool_decide; set_solver. }
    rewrite !E. clear E. modifier_cases Hk; all_members d.
  - rewrite modifier_bit_other, Z.lor_0_r by done. apply modifiers_ext. set_solver.
Qed.

Lemma modifiers_delete k d :
  modifiers (d ∖ {[k]}) = Z.land (modifiers d) (not_w 32 (modifier_bit k)).
Proof.
  unfold modifiers, modifier_keys; cbn [foldr].
  assert (∀ j, bool_decide (j ∈ d ∖ {[k]}) = negb (j =? k) && bool_decide (j ∈ d)) as E.
  { intros j. case_bool_decide; destruct (Z.eqb_spec j k), (decide (j ∈ d)); case_bool_decide; set_solver. }
  rewrite !E. clear E.
  destruct (decide (k ∈ modifier_keys)) as [Hk | Hk].
  - modifier_cases Hk; all_members d.
  - rewrite (modifier_bit_other k Hk).
    repeat match goal with |- context [?j =? k] =>
      replace (j =? k) with false by (symmetry; apply Z.eqb_neq; set_solver) end.
    all_members d.
Qed.

(** ** The fields of a code *)

Definition board_code (b : board) (release : bool) (k : Z) : Z :=
  Z.lor (board_locks b) (Z.lor k (if release then KEYBOARD_CODE_BIT_RELEASE else 0)).

(** The sums and unions of the code put a key's number next to the bits. *)
Definition code_forms (locks k : Z) : Prop :=
  locks + k = Z.lor locks (Z.lor k 0) ∧
  Z.lor locks KEYBOARD_CODE_BIT_RELEASE + k = Z.lor locks (Z.lor k KEYBOARD_CODE_BIT_RELEASE) ∧
  Z.lor locks KEYBOARD_CODE_EXTENDED + k = Z.lor locks (Z.lor (0x100 + k) 0) ∧
  Z.lor locks (Z.lor KEYBOARD_CODE_EXTENDED KEYBOARD_CODE_BIT_RELEASE) + k
    = Z.lor locks (Z.lor (0x100 + k) KEYBOARD_CODE_BIT_RELEASE).

Lemma below_check (P : Z → Prop) `{∀ k, Decision (P k)} n :
  bool_decide (Forall P (seqZ 0 n)) = true → ∀ k, 0 ≤ k < n → P k.
Proof. intros Hb k Hk. apply bool_decide_eq_true in Hb. rewrite Forall_forall in Hb. apply Hb, elem_of_seqZ. lia. Qed.

Lemma board_code_forms b k : 0 ≤ k < 256 → code_forms (board_locks b) k.
Proof.
  revert k. destruct b as [[] [] [] d]; unfold board_locks; cbn [b_caps b_scroll b_num];
    unfold code_forms; refine (below_check _ 256 _); vm_compute; reflexivity.
Qed.

Lemma board_code_fields b release k :
  0 ≤ k < 768 →
  Z.land (board_code b release k) KEYBOARD_CODE_MASK = k ∧
  (Z.land (board_code b release k) KEYBOARD_CODE_BIT_RELEASE =? 0) = negb release.
Proof.
  revert k. destruct b as [[] [] [] d], release; unfold board_code, board_locks; cbn [b_caps b_scroll b_num];
    refine (below_check _ 768 _); vm_compute; reflexivity.
Qed.

(** ** One event *)

Definition down_after (release : bool) (k : Z) (d : gset Z) : gset Z :=
  if release then d ∖ {[k]} else {[k]} ∪ d.

Lemma layer2_board b release k m :
  0 ≤ k < 768 → t2_state m = modifiers (b_down b) →
  layer2_keycode (board_code b release k) m =
    (set_state (modifiers (down_after release k (b_down b))) m,
     Z.lor (board_code b release k) (modifiers (down_after release k (b_down b)))).
Proof.
  intros Hk Hs. unfold layer2_keycode. destruct (board_code_fields b release k Hk) as [-> ->]. rewrite Hs.
  assert ((if modifier_bit k =? 0 then modifiers (b_down b)
    else if negb release then Z.lor (modifiers (b_down b)) (modifier_bit k)
    else Z.land (modifiers (b_down b)) (not_w 32 (modifier_bit k)))
    = modifiers (down_after release k (b_down b))) as ->; [| done].
  destruct (Z.eqb_spec (modifier_bit k) 0) as [E | E].
  - apply modifiers_ext. intros j Hj. assert (j ≠ k).
    { intros ->. unfold modifier_keys in Hj. by modifier_cases Hj. }
    unfold down_after. destruct release; set_solver.
  - destruct release; simpl; [by rewrite modifiers_delete | by rewrite modifiers_insert].
Qed.

Lemma key_byte_raw k m :
  key_byte k → t2_ignore_length m = 0 →
  raw_code k m =
    ('(m', code, swallow) ← raw_default k (lock_bits m) m;
     if swallow : bool then Ret (m', []) else Ret (with_code (layer2_keycode code m'))).
Proof.
  intros [_ Hk] Hi. unfold raw_code, check_ignore, raw_switch. rewrite Hi. cbn [Z.ltb Z.compare mbind outcome_bind].
  repeat match goal with |- context [k =? ?c] =>
    replace (k =? c) with false by (symmetry; apply Z.eqb_neq; set_solver) end.
  done.
Qed.

(** The state while the bytes of an event arrive: [len] of them are recorded. *)
Definition in_event (b : board) (len : Z) (codes : list Z) (m : type2) : Prop :=
  t2_state m = modifiers (b_down b) ∧
  t2_capslock m = b_caps b ∧ t2_scrolllock m = b_scroll b ∧ t2_numlock m = b_num b ∧
  t2_recorded_length m = len ∧ t2_recorded_codes m = codes ∧ length codes = 7%nat ∧
  t2_ignore_length m = 0 ∧ length (t2_ignore_codes m) = 2%nat.

Lemma in_event_locks b len codes m : in_event b len codes m → lock_bits m = board_locks b.
Proof.
  intros (_ & Hc & Hs & Hn & _). unfold lock_bits, board_locks. rewrite Hc, Hs, Hn.
  by destruct (b_caps b), (b_scroll b), (b_num b).
Qed.

Lemma board_rel_in_event b m : board_rel b m → in_event b 0 (t2_recorded_codes m) m.
Proof. by intros (? & ? & ? & ? & ? & ? & ? & ?). Qed.

(** The byte that ends an event. *)
Lemma last_byte b release key len codes m :
  in_event b len codes m → 0 ≤ key < 768 →
  let r := layer2_keycode (board_code b release key) (forget m) in
  with_code r = (r.1, (board_move release key b).2) ∧ board_rel (board_move release key b).1 r.1.
Proof.
  intros (Hs & Hc & Hl & Hn & _ & E & Hlen & Hi & Hil) Hk. cbn zeta.
  rewrite layer2_board by done. split; [done |]. unfold board_rel. simpl. rewrite E. done.
Qed.

(** A byte that is recorded. *)
Lemma prefix_byte b len codes m ch :
  in_event b len codes m → ch = 0xF0 ∨ ch = 0xE0 → 0 ≤ len < 7 →
  ∃ m', raw_code ch m = Ret (m', []) ∧ in_event b (len + 1) (<[Z.to_nat len := ch]> codes) m'.
Proof.
  intros (Hs & Hc & Hl & Hn & Er & E & Hlen & Hi & Hil) Hch Hr.
  unfold raw_code, check_ignore, raw_switch. rewrite Hi. cbn [Z.ltb Z.compare mbind outcome_bind].
  assert ((t2_recorded_length m <? REC_BUFFER_SIZE) = true) as Hlt
    by (rewrite Er; unfold REC_BUFFER_SIZE; lia).
  assert (record ch m = Ret (set_recorded (len + 1) (<[Z.to_nat len := ch]> codes) m)) as Hrec.
  { unfold record, record_at. rewrite Er, wr_lt by (rewrite E; lia). by rewrite E. }
  eexists (set_recorded _ _ m). split; [| unfold in_event; simpl; rewrite length_insert; done].
  by destruct Hch as [-> | ->]; simpl; rewrite Hlt, Hrec.
Qed.

(** A byte that only the default case sees. *)
Lemma default_byte b len codes m ch release key :
  in_event b len codes m → key_byte ch → 0 ≤ key < 768 →
  raw_default ch (board_locks b) m = Ret (forget m, board_code b release key, false) →
  ∃ m', raw_code ch m = Ret (m', (board_move release key b).2) ∧ board_rel (board_move release key b).1 m'.
Proof.
  intros Hm Hch Hk Hd. rewrite key_byte_raw, (in_event_locks _ _ _ _ Hm), Hd by (done || apply Hm).
  cbn [mbind outcome_bind]. destruct (last_byte b release key len codes m Hm Hk) as [-> Hrel]. eauto.
Qed.

Lemma raw_codes_cons ch chs m m1 out1 :
  raw_code ch m = Ret (m1, out1) →
  raw_codes (ch :: chs) m = (r ← raw_codes chs m1; Ret (r.1, out1 ++ r.2)).
Proof. intros E. simpl. by rewrite E. Qed.

Lemma raw_codes_one ch m m1 out1 : raw_code ch m = Ret (m1, out1) → raw_codes [ch] m = Ret (m1, out1).
Proof. intros E. rewrite (raw_codes_cons _ _ _ _ _ E). simpl. by rewrite app_nil_r. Qed.

(** The end of the event of a key: its bytes before are recorded in [codes]. *)
Definition key_prefix (ext release : bool) : list Z :=
  (if ext then [0xE0] else []) ++ (if release then [0xF0] else []).

Lemma default_key b ext release k codes m :
  in_event b (Z.of_nat (length (key_prefix ext release))) codes m → key_byte k →
  take (length (key_prefix ext release)) codes = key_prefix ext release →
  (ext = true → k ≠ (if release then 0x7C else 0x12)) →
  let key := if ext then 0x100 + k else k in
  raw_default k (board_locks b) m = Ret (forget m, board_code b release key, false).
Proof.
  intros (_ & _ & _ & _ & Er & E & Hlen & _) [Hk Hnot] Ht Hext. unfold raw_default, recorded_is. rewrite Er, E.
  destruct (board_code_forms b k Hk) as (F1 & F2 & F3 & F4). unfold board_code.
  destruct codes as [| c0 [| c1 codes]]; try (simpl in Hlen; lia).
  assert ((k =? 0xE1) = false) as HE1 by (apply Z.eqb_neq; intros ->; apply Hnot; by repeat constructor).
  assert (ext = true → (k =? (if release then 0x7C else 0x12)) = false) as Hx
    by (intros; by apply Z.eqb_neq, Hext).
  clear Hext Hnot Hk Er E. destruct ext, release; unfold key_prefix in Ht; cbn in Ht;
    rewrite ?take_0 in Ht; simplify_eq; cbn iota.
  - rewrite Hx, <- F4; done.
  - rewrite Hx, <- F3; done.
  - rewrite <- F2; done.
  - rewrite HE1, <- F1; done.
Qed.

(** The prefix of a key's event is recorded. *)
Lemma prefix_bytes b ext release m :
  board_rel b m →
  ∃ m' codes, (∀ k, raw_codes (key_prefix ext release ++ [k]) m = raw_codes [k] m') ∧
    in_event b (Z.of_nat (length (key_prefix ext release))) codes m' ∧
    take (length (key_prefix ext release)) codes = key_prefix ext release.
Proof.
  intros Hm%board_rel_in_event. destruct (t2_recorded_codes m) as [| c0 [| c1 codes]] eqn:E;
    try (destruct Hm as (_ & _ & _ & _ & _ & _ & Hl & _); simpl in Hl; lia).
  assert (∀ m1 chs m2, raw_code chs m1 = Ret (m2, []) →
    ∀ l, raw_codes (chs :: l) m1 = raw_codes l m2) as Hstep.
  { intros m1 ch m2 E1 l. rewrite (raw_codes_cons _ _ _ _ _ E1). by destruct (raw_codes l m2) as [[]| | |]. }
  unfold key_prefix. destruct ext, release; cbn [app length].
  - destruct (prefix_byte _ _ _ _ 0xE0 Hm) as (m1 & E1 & H1); [auto | lia |].
    destruct (prefix_byte _ _ _ _ 0xF0 H1) as (m2 & E2 & H2); [auto | lia |].
    exists m2, (0xE0 :: 0xF0 :: codes). split; [| done].
    intros k. by rewrite (Hstep _ _ _ E1), (Hstep _ _ _ E2).
  - destruct (prefix_byte _ _ _ _ 0xE0 Hm) as (m1 & E1 & H1); [auto | lia |].
    exists m1, (0xE0 :: c1 :: codes). split; [| done]. intros k. by rewrite (Hstep _ _ _ E1).
  - destruct (prefix_byte _ _ _ _ 0xF0 Hm) as (m1 & E1 & H1); [auto | lia |].
    exists m1, (0xF0 :: c1 :: codes). split; [| done]. intros k. by rewrite (Hstep _ _ _ E1).
  - by exists m, (c0 :: c1 :: codes).
Qed.

Lemma key_event_decodes b (ext release : bool) k m :
  board_rel b m → key_byte k → (ext = true → k ≠ (if release then 0x7C else 0x12)) →
  let key := if ext then 0x100 + k else k in
  ∃ m', raw_codes (key_prefix ext release ++ [k]) m = Ret (m', (board_move release key b).2) ∧
    board_rel (board_move release key b).1 m'.
Proof.
  intros Hm Hk Hx key. destruct (prefix_bytes b ext release m Hm) as (m1 & codes & Hpre & H1 & Ht).
  destruct (default_byte b _ codes m1 k release key H1 Hk) as (m2 & E2 & H2).
  - subst key. destruct Hk. destruct ext; lia.
  - by apply (default_key b ext release k codes m1).
  - exists m2. split; [| done]. by rewrite Hpre, (raw_codes_one _ _ _ _ E2).
Qed.

Lemma modifiers_other release k d : k ∉ modifier_keys → modifiers (down_after release k d) = modifiers d.
Proof. intros Hk. apply modifiers_ext. intros j Hj. unfold down_after. destruct release; set_solver. Qed.

(** The events of bytes that are all known. *)
Ltac known_bytes b m Hm :=
  destruct b as [c s n d], m as [st ? ? ? ? ? ic rc], Hm as (Hst & Hc & Hs & Hn & Hr & Hrc & Hi & Hic);
  simpl in Hst, Hc, Hs, Hn, Hr, Hrc, Hi, Hic; subst;
  destruct ic as [| i0 [| i1 [|]]]; try (simpl in Hic; lia);
  destruct rc as [| r0 [| r1 [| r2 [| r3 [| r4 [| r5 [| r6 [|]]]]]]]]; try (simpl in Hrc; lia);
  unfold board_rel, in_event; cbn [b_down board_event fst set_down]; generalize (modifiers d) as st; intros st.

Lemma lock_event_decodes b l m :
  board_rel b m →
  ∃ m', raw_codes (scancodes (Lock l)) m = Ret (m', []) ∧ board_rel (board_event (Lock l) b).1 m'.
Proof.
  intros Hm. destruct l; known_bytes b m Hm;
    destruct c, s, n; eexists; (split; [vm_compute; reflexivity | done]).
Qed.

Lemma raw_codes_silent l m m1 k :
  raw_codes l m = Ret (m1, []) → raw_codes (l ++ [k]) m = raw_codes [k] m1.
Proof.
  revert m. induction l as [| ch l IH]; intros m; cbn [app raw_codes].
  { by intros [= ->]. }
  destruct (raw_code ch m) as [[m2 o2] | | |]; try done. cbn [mbind outcome_bind fst snd].
  destruct (raw_codes l m2) as [[m3 o3] | | |] eqn:E; try done. cbn [mbind outcome_bind fst snd].
  intros [= -> Ho]. apply app_eq_nil in Ho as [-> ->]. rewrite (IH _ E). simpl.
  by destruct (raw_code k m1) as [[]| | |].
Qed.

(** The bytes of print screen and pause up to the last. *)
Lemma known_prefix b m l :
  board_rel b m →
  l ∈ [[0xE0; 0x12; 0xE0]; [0xE0; 0xF0; 0x7C; 0xE0; 0xF0]; [0xE1; 0x14; 0x77; 0xE1; 0xF0; 0x14; 0xF0]] →
  ∃ m' rest, raw_codes l m = Ret (m', []) ∧ in_event b (Z.of_nat (length l)) (l ++ rest) m'.
Proof.
  intros Hm Hl. repeat (apply elem_of_cons in Hl as [-> | Hl]); [.. | by apply elem_of_nil in Hl];
    known_bytes b m Hm; destruct c, s, n;
    match goal with |- context [raw_codes ?l _] =>
      eexists _, (drop (length l) [r0; r1; r2; r3; r4; r5; r6]);
      (split; [vm_compute; reflexivity | done])
    end.
Qed.

Lemma print_screen_decodes b release m :
  board_rel b m →
  ∃ m', raw_codes (scancodes (PrintScreen release)) m = Ret (m', (board_move release 0x200 b).2) ∧
    board_rel (board_move release 0x200 b).1 m'.
Proof.
  intros Hm.
  set (l := if release then [0xE0; 0xF0; 0x7C; 0xE0; 0xF0] else [0xE0; 0x12; 0xE0]).
  set (k := if release then 0x12 else 0x7C).
  assert (scancodes (PrintScreen release) = l ++ [k]) as -> by by destruct release.
  destruct (known_prefix b m l Hm) as (m1 & rest & E1 & H1).
  { subst l. destruct release; repeat constructor. }
  rewrite (raw_codes_silent _ _ _ _ E1).
  destruct (default_byte b _ _ m1 k release 0x200 H1) as (m2 & E2 & H2).
  - subst k. destruct release; (split; [lia | set_solver]).
  - lia.
  - destruct H1 as (_ & _ & _ & _ & Er & E & _). unfold raw_default, recorded_is. rewrite Er, E.
    destruct b as [[] [] [] d], release; reflexivity.
  - exists m2. split; [| done]. by rewrite (raw_codes_one _ _ _ _ E2).
Qed.

Lemma pause_decodes b m :
  board_rel b m →
  ∃ m', raw_codes (scancodes Pause) m = Ret (m', (board_move true 0x201 b).2) ∧
    board_rel (board_move true 0x201 b).1 m'.
Proof.
  intros Hm. destruct (known_prefix b m [0xE1; 0x14; 0x77; 0xE1; 0xF0; 0x14; 0xF0] Hm) as (m1 & rest & E1 & H1).
  { repeat constructor. }
  change (scancodes Pause) with ([0xE1; 0x14; 0x77; 0xE1; 0xF0; 0x14; 0xF0] ++ [0x77]).
  rewrite (raw_codes_silent _ _ _ _ E1).
  destruct (last_byte b true 0x201 _ _ m1 H1) as [Hw Hrel]; [lia |].
  eexists. split; [| exact Hrel]. apply raw_codes_one. rewrite <- Hw.
  pose proof (in_event_locks _ _ _ _ H1) as Hlk. destruct H1 as (_ & _ & _ & _ & Er & E & _ & Hi & _).
  unfold raw_code, check_ignore, raw_switch, recorded_is. rewrite Hi. cbn [Z.ltb Z.compare mbind outcome_bind].
  rewrite Er, E, Hlk.
  replace (board_code b true 0x201) with (Z.lor (board_locks b) KEYBOARD_CODE_PAUSE) by done. done.
Qed.

Lemma event_decodes e b m :
  board_rel b m → key_event_ok e →
  ∃ m', raw_codes (scancodes e) m = Ret (m', (board_event e b).2) ∧ board_rel (board_event e b).1 m'.
Proof.
  intros Hm He. destruct e as [[] k | [] k | release | | l].
  - by apply (key_event_decodes b false true k m Hm He).
  - by apply (key_event_decodes b false false k m Hm He).
  - destruct He as [Hk Hn]. by apply (key_event_decodes b true true k m Hm Hk).
  - destruct He as [Hk Hn]. by apply (key_event_decodes b true false k m Hm Hk).
  - by apply print_screen_decodes.
  - by apply pause_decodes.
  - destruct (lock_event_decodes b l m Hm) as (m' & E & H). exists m'. split; [| done]. by destruct l.
Qed.

Lemma raw_codes_app l1 l2 m m1 o1 m2 o2 :
  raw_codes l1 m = Ret (m1, o1) → raw_codes l2 m1 = Ret (m2, o2) →
  raw_codes (l1 ++ l2) m = Ret (m2, o1 ++ o2).
Proof.
  revert m o1. induction l1 as [| ch l1 IH]; intros m o1; cbn [app raw_codes].
  { by intros [= -> <-]. }
  destruct (raw_code ch m) as [[m3 o3] | | |]; try done. cbn [mbind outcome_bind fst snd].
  destruct (raw_codes l1 m3) as [[m4 o4] | | |] eqn:E; try done. cbn [mbind outcome_bind fst snd].
  intros [= -> <-] E2. rewrite (IH _ _ E E2). simpl. by rewrite app_assoc.
Qed.

Lemma events_decode es b m :
  board_rel b m → Forall key_event_ok es →
  ∃ m', raw_codes (concat (scancodes <$> es)) m = Ret (m', (board_events es b).2) ∧
    board_rel (board_events es b).1 m'.
Proof.
  revert b m. induction es as [| e es IH]; intros b m Hm Hes; [by exists m |].
  apply Forall_cons in Hes as [He Hes]. destruct (event_decodes e b m Hm He) as (m1 & E1 & H1).
  destruct (IH _ _ H1 Hes) as (m2 & E2 & H2). exists m2. split; [| done].
  cbn [fmap list_fmap concat board_events snd]. by apply (raw_codes_app _ _ _ _ _ _ _ E1 E2).
Qed.

(** A board with no key down. *)
Definition board_with (caps scroll num : bool) : board :=
  {| b_caps := caps; b_scroll := scroll; b_num := num; b_down := ∅ |}.
Definition empty_board : board := {| b_caps := false; b_scroll := false; b_num := false; b_down := ∅ |}.

Lemma board_with_rel caps scroll num : board_rel (board_with caps scroll num) (SetLeds caps scroll num new_type2).
Proof. by repeat split. Qed.

Lemma new_board_rel : board_rel empty_board new_type2.
Proof. by repeat split. Qed.

(** C22: the state machine decodes what the user does.  For any sequence of keys pressed and released, plain
    and extended ones, print screen, pause and the locks, the codes that come out are one for each movement
    of a key, in order, with the number of the key, whether it was released, the locks that are on and
    exactly the modifier keys that are down.  It starts with any of the locks on, as SetLeds leaves it when the
    driver starts.  No other key moves while a lock key is down (capslock_steals_release shows why), and a key's
    byte is none of those of the locks and prefixes. *)
Theorem keyboard_decodes caps scroll num es :
  Forall key_event_ok es →
  let r := board_events es (board_with caps scroll num) in
  ∃ m, raw_codes (concat (scancodes <$> es)) (SetLeds caps scroll num new_type2) = Ret (m, r.2) ∧ board_rel r.1 m.
Proof. intros Hes r. apply events_decode; [apply board_with_rel | done]. Qed.

(** Num lock is on: shift and A, caps lock, then the right control key. *)
Lemma keyboard_decodes_witness :
  ∃ m, raw_codes [0x12; 0x1C; 0xF0; 0x1C; 0xF0; 0x12; 0x58; 0xF0; 0x58; 0xE0; 0x14] (SetLeds false false true new_type2) =
    Ret (m, [0x110012; 0x11001C; 0x19001C; 0x90012; 0x2030114]) ∧ t2_state m = KEYBOARD_CODE_BIT_RCONTROL.
Proof.
  destruct (keyboard_decodes false false true
    [Key false 0x12; Key false 0x1C; Key true 0x1C; Key true 0x12; Lock CapsLock; ExtKey false 0x14]) as (m & E & Hs).
  - repeat constructor; vm_compute; try done; intros H; repeat (apply elem_of_cons in H as [H | H]; [done |]);
      by apply elem_of_nil in H.
  - exists m. split; [exact E | exact (proj1 Hs)].
Defined.

(** a key released while caps lock is down is not released.  Caps lock makes the state machine wait for
    its own two release bytes, and the first of them, which announces the release of any key, is taken from
    the key that is released before it.  The left shift key stays down for all later keys, and the next key
    pressed is reported as released. *)
Theorem capslock_steals_release :
  ∃ m, raw_codes (concat [[0x12]; [0x58]; [0xF0; 0x12]; [0xF0; 0x58]; [0x1C]]) new_type2 =
    Ret (m, [0x100012; 0x120012; Z.lor 0x12001C KEYBOARD_CODE_BIT_RELEASE]) ∧
    t2_state m = KEYBOARD_CODE_BIT_LSHIFT.
Proof. by eexists. Qed.
