(* ===== verification/Tty.v ===== *)
(** kernel/tty/tty.cpp: the terminal.  Keycodes become the characters of a line, which can be edited until
    it is complete; reads take complete lines.  Joined with [Keyboard], this is the way from the bytes of
    the keyboard to what a process reads. *)
From S2P Require Import Prelude Keyboard.

Local Open Scope Z_scope.

(** * The output *)

Definition TTY_INT_MAX : Z := 2 ^ 31 - 1.

(** The loop that looks for a zero among the first [len] characters. *)
Fixpoint scan_zero (n : nat) (str : list Z) (l : Z) : outcome Z :=
  match n with
  | O => Ret l
  | S n => c ← rd str l; if c =? 0 then Ret l else scan_zero n str (l + 1)
  end.

(** The loop that writes a text without zeros in pieces of 128 characters. *)
Fixpoint write_pieces (fuel : nat) (str : list Z) (i len : Z) : outcome (list (list Z)) :=
  match fuel with
  | O => OutOfFuel
  | S fuel =>
      if i <? len then
        let l := if 128 <? len - i then 128 else len - i in
        if Z.of_nat (length str) <? i + l then OutOfBounds
        else
          rest ← write_pieces fuel str (i + l) len;
          Ret (take (Z.to_nat l) (drop (Z.to_nat i) str) :: rest)
      else Ret []
  end.

(** tty_output_klogger::write: what the logger was given, and the result. *)
Fixpoint klogger_write (fuel : nat) (str : list Z) (len : Z) : outcome (list (list Z) * Z) :=
  match fuel with
  | O => OutOfFuel
  | S fuel =>
      if len <=? 0 then Ret ([], 0)
      else
        let len := if TTY_INT_MAX <? len then TTY_INT_MAX else len in
        l ← scan_zero (Z.to_nat len) str 0;
        if l =? 0 then
          r ← klogger_write fuel (drop 1 str) (len - 1);
          Ret (r.1, if 0 <=? r.2 then r.2 + 1 else 1)
        else if l <? len then
          r ← klogger_write fuel (drop (Z.to_nat (l + 1)) str) (len - l - 1);
          Ret (take (Z.to_nat l) str :: r.1, if 0 <=? r.2 then r.2 + l + 1 else l + 1)
        else
          out ← write_pieces (S (Z.to_nat len)) str 0 len;
          Ret (out, len)
  end.

(** * The terminal *)

(** class tty, without the thread and its subscribers. *)
Record tty := {
  tty_buffer : list Z;
  tty_linebuffer : list Z;
  tty_lineedit : bool;
  tty_signals : bool;
  tty_pgrp : Z;
  tty_hasPgrp : bool;
}.

Definition new_tty : tty :=
  {| tty_buffer := []; tty_linebuffer := []; tty_lineedit := true; tty_signals := false;
     tty_pgrp := 0; tty_hasPgrp := false |}.

Definition set_buffers (buffer linebuffer : list Z) (t : tty) : tty :=
  {| tty_buffer := buffer; tty_linebuffer := linebuffer; tty_lineedit := tty_lineedit t;
     tty_signals := tty_signals t; tty_pgrp := tty_pgrp t; tty_hasPgrp := tty_hasPgrp t |}.

(** What the terminal does to the outside. *)
Inductive tty_event :=
  | TtyWrite (s : list Z)
  | TtyErase (backtrack erase : Z)
  | TtyWake
  | TtySignal (pid : Z)
  | TtyShell.

(** The line editor of Consume with the character [ch], where [newline] ends a line. *)
Definition edit_char (newline ch : Z) (t : tty) : tty * list tty_event :=
  if tty_lineedit t then
    if ch =? newline then
      (set_buffers (tty_buffer t ++ (tty_linebuffer t ++ [10])) [] t, [TtyWrite [10]; TtyWake])
    else if ch =? 8 then
      match tty_linebuffer t with
      | [] => (t, [])
      | l => (set_buffers (tty_buffer t) (take (length l - 1) l) t, [TtyErase 1 1])
      end
    else (set_buffers (tty_buffer t) (tty_linebuffer t ++ [ch]) t, [TtyWrite [ch]])
  else (set_buffers (tty_buffer t ++ [ch]) (tty_linebuffer t) t, [TtyWrite [ch]; TtyWake]).

(** A process of a task: its pid and its process group. *)
Record tty_process := { tp_pid : Z; tp_pgrp : Z }.

(** The callback of all_tasks: the processes of the tasks, each once. *)
Fixpoint collect (tasks : list (option tty_process)) (processes : list tty_process) : list tty_process :=
  match tasks with
  | [] => processes
  | None :: tasks => collect tasks processes
  | Some p :: tasks =>
      if existsb (λ q, tp_pid p =? tp_pid q) processes then collect tasks processes
      else collect tasks (processes ++ [p])
  end.

(** Ctrl+C: SIGINT for every process of the group. *)
Definition interrupt (tasks : list (option tty_process)) (pgrp : Z) : list tty_event :=
  if 0 <? pgrp then
    (λ p, TtySignal (tp_pid p)) <$> filter (λ p, tp_pgrp p = pgrp) (collect tasks [])
  else [].

Inductive consumer_mode := JEOKERNEL_MODE | RAW_MODE.

Definition has_bits (keycode bits : Z) : bool := negb (Z.land keycode bits =? 0).
Definition CONTROL_BITS : Z := Z.lor KEYBOARD_CODE_BIT_LCONTROL KEYBOARD_CODE_BIT_RCONTROL.

Section consume.
Context (translate : Z → outcome Z) (tasks : list (option tty_process)).

Definition tty_consume (mode : consumer_mode) (keycode : Z) (t : tty) : outcome (bool * tty * list tty_event) :=
  match mode with
  | JEOKERNEL_MODE =>
      if has_bits keycode KEYBOARD_CODE_BIT_RELEASE then Ret (true, t, [])
      else
        c ← translate keycode;
        let ch := u8 c in
        if ((ch =? 99) || (ch =? 67)) && has_bits keycode CONTROL_BITS then
          Ret (true, t, TtyWrite [94; 67; 10] :: interrupt tasks (tty_pgrp t))
        else if ((ch =? 115) || (ch =? 83)) && has_bits keycode CONTROL_BITS && has_bits keycode KEYBOARD_CODE_BIT_LALT
        then Ret (false, t, [TtyShell])
        else Ret (true, (edit_char 10 ch t).1, (edit_char 10 ch t).2)
  | RAW_MODE =>
      Ret (true, (edit_char 13 (u8 keycode) t).1, (edit_char 13 (u8 keycode) t).2)
  end.

End consume.

Definition TTY_EINVAL : Z := 22.
Definition TTY_EAGAIN : Z := 11.
Definition TTY_EOPNOTSUPP : Z := 95.

(** tty::Read: the terminal, the bytes and the result. *)
Definition tty_read (len : Z) (t : tty) : tty * list Z * Z :=
  if len <=? 0 then (t, [], - TTY_EINVAL)
  else
    let sz := Z.of_nat (length (tty_buffer t)) in
    if sz =? 0 then (t, [], - TTY_EAGAIN)
    else if sz <=? len then (set_buffers [] (tty_linebuffer t) t, tty_buffer t, sz)
    else
      (set_buffers (drop (Z.to_nat len) (tty_buffer t)) (tty_linebuffer t) t,
       take (Z.to_nat len) (tty_buffer t), len).

Definition tty_has_input (t : tty) : bool := negb (bool_decide (tty_buffer t = [])).

Definition SetPgrp (pgrp : Z) (t : tty) : tty :=
  {| tty_buffer := tty_buffer t; tty_linebuffer := tty_linebuffer t; tty_lineedit := tty_lineedit t;
     tty_signals := tty_signals t; tty_pgrp := pgrp; tty_hasPgrp := true |}.

(** struct termios, its flags. *)
Record termios := { c_iflag : Z; c_oflag : Z; c_cflag : Z; c_lflag : Z }.

Definition ISIG : Z := 1.

(** ioctl TCGETS. *)
Definition tty_tcgets (t : tty) : termios :=
  {| c_iflag := 0; c_oflag := 0; c_cflag := 0; c_lflag := if tty_signals t then ISIG else 0 |}.

(** ioctl TCSETSW. *)
Definition tty_tcsetsw (s : termios) (t : tty) : tty * Z :=
  if negb (c_iflag s =? 0) then (t, - TTY_EOPNOTSUPP)
  else if negb (c_oflag s =? 0) then (t, - TTY_EOPNOTSUPP)
  else if negb (c_cflag s =? 0) then (t, - TTY_EOPNOTSUPP)
  else if negb (c_lflag s =? 0) && negb (c_lflag s =? ISIG) then (t, - TTY_EOPNOTSUPP)
  else
    ({| tty_buffer := tty_buffer t; tty_linebuffer := tty_linebuffer t; tty_lineedit := tty_lineedit t;
        tty_signals := negb (Z.land (c_cflag s) ISIG =? 0); tty_pgrp := tty_pgrp t; tty_hasPgrp := tty_hasPgrp t |},
     0).

(** * The output prints everything but zeros *)

Lemma scan_zero_spec n str :
  Forall (λ c, c ≠ 0) (take n str) → (n ≤ length str)%nat →
  ∀ m k, (k ≤ n)%nat → (m ≤ n - k)%nat → scan_zero m str (Z.of_nat k) = Ret (Z.of_nat (k + m)).
Proof.
  intros Hnz Hlen m. induction m as [| m IH]; intros k Hk Hm; simpl; [do 2 f_equal; lia |].
  destruct (rd_lt str (Z.of_nat k)) as (c & -> & Hc); [lia |]. cbn [mbind outcome_bind].
  rewrite Nat2Z.id in Hc. rewrite Forall_lookup in Hnz. destruct (Z.eqb_spec c 0) as [Hz | Hz].
  - exfalso. apply (Hnz k c); [by rewrite lookup_take_lt by lia | done].
  - replace (Z.of_nat k + 1) with (Z.of_nat (S k)) by lia. rewrite IH by lia. do 2 f_equal. lia.
Qed.

(** The first zero of the first [n] characters, if there is one. *)
Lemma split_zero n (str : list Z) :
  (n ≤ length str)%nat →
  Forall (λ c, c ≠ 0) (take n str) ∨
  ∃ z, (z < n)%nat ∧ Forall (λ c, c ≠ 0) (take z str) ∧ str !! z = Some 0.
Proof.
  revert str. induction n as [| n IH]; intros str Hn; [left; constructor |].
  destruct str as [| c str]; [simpl in Hn; lia |]. simpl in Hn. destruct (decide (c = 0)) as [-> | Hc].
  - right. exists 0%nat. split; [lia |]. split; [constructor | done].
  - destruct (IH str) as [H | (z & Hz & H & E)]; [lia | left; by constructor |].
    right. exists (S z). split; [lia |]. split; [by constructor | done].
Qed.

Lemma scan_zero_found n str z :
  (z < n)%nat → (n ≤ length str)%nat → Forall (λ c, c ≠ 0) (take z str) → str !! z = Some 0 →
  scan_zero n str 0 = Ret (Z.of_nat z).
Proof.
  intros Hz Hn Hnz E. assert (∀ m k, (k + m = z)%nat → (∀ n, (m < n)%nat → scan_zero n str (Z.of_nat k) = Ret (Z.of_nat z))) as H.
  - intros m. induction m as [| m IH]; intros k Hk n' Hn'; (destruct n' as [| n']; [lia |]); simpl.
    + replace k with z by lia. unfold rd. rewrite Nat2Z.id, E. done.
    + destruct (rd_lt str (Z.of_nat k)) as (c & -> & Hc); [lia |]. cbn [mbind outcome_bind].
      rewrite Nat2Z.id in Hc. rewrite Forall_lookup in Hnz.
      replace (c =? 0) with false;
        [| symmetry; apply Z.eqb_neq, (Hnz k c); by rewrite lookup_take_lt by lia].
      replace (Z.of_nat k + 1) with (Z.of_nat (S k)) by lia. apply IH; lia.
  - apply (H z 0%nat); lia.
Qed.

Lemma write_pieces_spec fuel str i len :
  0 ≤ i ≤ len → len ≤ Z.of_nat (length str) → len - i < Z.of_nat fuel →
  ∃ out, write_pieces fuel str i len = Ret out ∧ concat out = take (Z.to_nat (len - i)) (drop (Z.to_nat i) str).
Proof.
  revert i. induction fuel as [| fuel IH]; intros i Hi Hlen Hf; [lia |]. cbn [write_pieces].
  destruct (Z.ltb_spec i len).
  - set (l := if 128 <? len - i then 128 else len - i).
    assert (0 < l ≤ len - i) as Hl by (subst l; ztest; lia).
    rewrite (proj2 (Z.ltb_ge _ _)) by lia.
    destruct (IH (i + l)) as (out & -> & Hout); [lia.. |]. eexists. split; [done |]. simpl. rewrite Hout.
    replace (Z.to_nat (len - i)) with (Z.to_nat l + Z.to_nat (len - (i + l)))%nat by lia.
    rewrite Z2Nat.inj_add, <- drop_drop by lia. by rewrite take_take_drop.
  - replace (Z.to_nat (len - i)) with 0%nat by lia. exists []. by rewrite take_0.
Qed.

Definition nonzero (str : list Z) : list Z := filter (λ c, c ≠ 0) str.

Lemma nonzero_all str : Forall (λ c, c ≠ 0) str → nonzero str = str.
Proof.
  unfold nonzero. induction 1 as [| c str Hc _ IH]; [done |]. rewrite filter_cons_True by done. by f_equal.
Qed.

Lemma nonzero_split z n (str : list Z) :
  (z < n)%nat → Forall (λ c, c ≠ 0) (take z str) → str !! z = Some 0 →
  nonzero (take n str) = take z str ++ nonzero (take (n - z - 1) (drop (S z) str)).
Proof.
  intros Hz Hnz E. rewrite <- (take_drop z (take n str)), take_take, Nat.min_l by lia.
  unfold nonzero. rewrite filter_app. f_equal; [by apply nonzero_all |].
  rewrite skipn_firstn_comm, (drop_S _ _ _ E). replace (n - z)%nat with (S (n - z - 1)) by lia.
  cbn [firstn]. rewrite filter_cons_False by (intros H; by apply H). do 2 f_equal. lia.
Qed.

Lemma klogger_write_spec fuel : ∀ str len,
  0 ≤ len ≤ TTY_INT_MAX → len ≤ Z.of_nat (length str) → len < Z.of_nat fuel →
  ∃ out, klogger_write fuel str len = Ret (out, len) ∧ concat out = nonzero (take (Z.to_nat len) str).
Proof.
  induction fuel as [| fuel IH]; intros str len Hlen Hstr Hf; [lia |]. cbn [klogger_write].
  destruct (Z.leb_spec len 0).
  { replace len with 0 by lia. exists []. by rewrite take_0. }
  rewrite (proj2 (Z.ltb_ge TTY_INT_MAX len)) by lia.
  destruct (split_zero (Z.to_nat len) str) as [Hnz | (z & Hz & Hnz & E)]; [lia | |].
  - pose proof (scan_zero_spec _ str Hnz ltac:(lia) (Z.to_nat len) 0 ltac:(lia) ltac:(lia)) as Hscan.
    change (Z.of_nat 0) with 0 in Hscan. rewrite Hscan. cbn [mbind outcome_bind].
    rewrite (proj2 (Z.eqb_neq _ _)), (proj2 (Z.ltb_ge _ _)) by lia.
    destruct (write_pieces_spec (S (Z.to_nat len)) str 0 len) as (out & -> & Hout); [lia.. |].
    exists out. split; [done |]. rewrite Hout, nonzero_all by done. by rewrite Z.sub_0_r.
  - rewrite (scan_zero_found _ str z) by (done || lia). cbn [mbind outcome_bind].
    destruct (IH (drop (S z) str) (len - Z.of_nat z - 1)) as (out & Hw & Hout);
      [lia | rewrite length_drop; lia | lia |].
    rewrite (nonzero_split z) by (done || lia). destruct (Z.eqb_spec (Z.of_nat z) 0) as [Hz0 | Hz0].
    + assert (z = 0%nat) as -> by lia. replace (len - Z.of_nat 0 - 1) with (len - 1) in * by lia.
      rewrite Hw. cbn [mbind outcome_bind fst snd]. exists out. rewrite (proj2 (Z.leb_le _ _)) by lia.
      split; [do 2 f_equal; lia |]. rewrite Hout, take_0. simpl. do 2 f_equal. lia.
    + rewrite (proj2 (Z.ltb_lt _ _)) by lia. replace (Z.to_nat (Z.of_nat z + 1)) with (S z) by lia.
      rewrite Hw. cbn [mbind outcome_bind fst snd]. eexists. rewrite (proj2 (Z.leb_le _ _)) by lia.
      split; [do 2 f_equal; lia |]. simpl. rewrite Hout, Nat2Z.id. do 3 f_equal. lia.
Qed.

(** writing to the terminal accepts the whole text, up to the largest int, and passes on all of its
    characters but the zeros, in order and in pieces of at most the logger's buffer. *)
Theorem klogger_write_correct str len :
  0 ≤ len ≤ Z.of_nat (length str) →
  let n := Z.min len TTY_INT_MAX in
  ∃ out, klogger_write (S (Z.to_nat n)) str len = Ret (out, n) ∧ concat out = nonzero (take (Z.to_nat n) str).
Proof.
  intros Hlen n. destruct (klogger_write_spec (S (Z.to_nat n)) str n) as (out & E & Hout);
    [unfold n, TTY_INT_MAX in *; lia.. |].
  exists out. split; [| done]. rewrite <- E. unfold n. cbn [klogger_write].
  destruct (Z.min_spec len TTY_INT_MAX) as [[Hl ->] | [Hl ->]]; [done |].
  destruct (Z.eqb_spec len TTY_INT_MAX) as [-> | Hne]; [done |].
  rewrite !(proj2 (Z.leb_gt _ 0)) by (unfold TTY_INT_MAX in *; lia).
  by rewrite (proj2 (Z.ltb_lt _ _)), Z.ltb_irrefl by lia.
Qed.

Lemma klogger_write_correct_witness :
  ∃ out, klogger_write 8 [72; 105; 0; 0; 33; 10; 0] 7 = Ret (out, 7) ∧ concat out = [72; 105; 33; 10].
Proof. apply (klogger_write_correct [72; 105; 0; 0; 33; 10; 0] 7). simpl. lia. Defined.

(** * Lines *)

(** The complete lines of a text, and the rest after them. *)
Fixpoint split_lines (cs : list Z) : list (list Z) * list Z :=
  match cs with
  | [] => ([], [])
  | c :: cs =>
      let r := split_lines cs in
      if c =? 10 then ([] :: r.1, r.2)
      else match r.1 with [] => ([], c :: r.2) | l :: ls => ((c :: l) :: ls, r.2) end
  end.

(** A line as typed, where backspace takes back the character before it. *)
Definition edit_line (cs : list Z) : list Z :=
  foldl (λ l c, if c =? 8 then take (length l - 1) l else l ++ [c]) [] cs.

Definition finished_lines (cs : list Z) : list Z := concat ((λ l, edit_line l ++ [10]) <$> (split_lines cs).1).
Definition unfinished_line (cs : list Z) : list Z := edit_line (split_lines cs).2.

Lemma split_lines_snoc cs c :
  split_lines (cs ++ [c]) =
    if c =? 10 then ((split_lines cs).1 ++ [(split_lines cs).2], [])
    else ((split_lines cs).1, (split_lines cs).2 ++ [c]).
Proof.
  induction cs as [| c' cs IH]; [done |]. cbn [app split_lines]. rewrite IH.
  destruct (Z.eqb_spec c 10), (Z.eqb_spec c' 10), (split_lines cs) as [[| l ls] r]; done.
Qed.

Lemma edit_line_snoc cs c :
  edit_line (cs ++ [c]) = if c =? 8 then take (length (edit_line cs) - 1) (edit_line cs) else edit_line cs ++ [c].
Proof. unfold edit_line. by rewrite foldl_app. Qed.

Lemma lines_snoc cs c :
  finished_lines (cs ++ [c]) = finished_lines cs ++ (if c =? 10 then unfinished_line cs ++ [10] else []) ∧
  unfinished_line (cs ++ [c]) =
    if c =? 10 then []
    else if c =? 8 then take (length (unfinished_line cs) - 1) (unfinished_line cs) else unfinished_line cs ++ [c].
Proof.
  unfold finished_lines, unfinished_line. rewrite split_lines_snoc. destruct (Z.eqb_spec c 10); cbn [fst snd].
  - rewrite fmap_app, concat_app. simpl. by rewrite app_nil_r.
  - by rewrite app_nil_r, edit_line_snoc.
Qed.

(** ** Any order of keys and reads *)

Inductive tty_op := OpKey (keycode : Z) | OpRead (len : Z).

(** The terminal and the bytes read so far. *)
Definition tty_run_op (tasks : list (option tty_process)) (o : tty_op) (s : tty * list Z) : outcome (tty * list Z) :=
  match o with
  | OpKey keycode => r ← tty_consume Translate tasks JEOKERNEL_MODE keycode s.1; Ret (r.1.2, s.2)
  | OpRead len => Ret ((tty_read len s.1).1.1, s.2 ++ (tty_read len s.1).1.2)
  end.

Fixpoint tty_run (tasks : list (option tty_process)) (ops : list tty_op) (s : tty * list Z) : outcome (tty * list Z) :=
  match ops with
  | [] => Ret s
  | o :: ops => s' ← tty_run_op tasks o s; tty_run tasks ops s'
  end.

Definition char_of (keycode : Z) : Z := match Translate keycode with Ret c => c | _ => 0 end.

Definition is_hotkey (keycode : Z) : bool :=
  let ch := char_of keycode in
  has_bits keycode CONTROL_BITS &&
  ((ch =? 99) || (ch =? 67) || (((ch =? 115) || (ch =? 83)) && has_bits keycode KEYBOARD_CODE_BIT_LALT)).

(** The character a code types: none for a release and for the two key combinations. *)
Definition typed (o : tty_op) : list Z :=
  match o with
  | OpKey keycode =>
      if has_bits keycode KEYBOARD_CODE_BIT_RELEASE || is_hotkey keycode then [] else [char_of keycode]
  | OpRead _ => []
  end.

Lemma Translate_total keycode : ∃ c, Translate keycode = Ret c ∧ 0 ≤ c < 256.
Proof.
  unfold Translate. cbn zeta.
  set (mo := negb (Z.land keycode (Z.lor KEYBOARD_CODE_BIT_LSHIFT KEYBOARD_CODE_BIT_RSHIFT) =? 0)).
  set (code := Z.land keycode KEYBOARD_CODE_MASK).
  assert (∀ l, length l = 28%nat → Forall (λ c, 0 ≤ c < 256) l → 0x1E ≤ code < 0x39 →
    ∃ c, rd l (code - 0x1E) = Ret c ∧ 0 ≤ c < 256) as Htab.
  { intros l Hl Hf Hc. destruct (rd_lt l (code - 0x1E)) as (c & E & Hc'); [lia |].
    exists c. split; [done |]. rewrite Forall_lookup in Hf. by apply (Hf _ _ Hc'). }
  destruct (Z.leb_spec 4 code); [| exists 0; split; [done | lia]].
  destruct (Z.ltb_spec code 0x1E).
  { eexists. split; [done |]. destruct (if mo then _ else _); lia. }
  destruct (Z.ltb_spec code 0x39); [| exists 0; split; [done | lia]].
  destruct mo; apply Htab; (done || lia || (repeat constructor; lia)).
Qed.

Lemma Translate_char keycode : Translate keycode = Ret (char_of keycode) ∧ u8 (char_of keycode) = char_of keycode.
Proof.
  destruct (Translate_total keycode) as (c & E & Hc). unfold char_of. rewrite E. split; [done |].
  by apply wrap_id.
Qed.

(** The editor keeps the lines of what was typed. *)
Definition tty_holds (cs done : list Z) (t : tty) : Prop :=
  done ++ tty_buffer t = finished_lines cs ∧ tty_linebuffer t = unfinished_line cs ∧ tty_lineedit t = true.

Lemma edit_char_holds cs data t c :
  tty_holds cs data t → tty_holds (cs ++ [c]) data (edit_char 10 c t).1.
Proof.
  intros (Hb & Hl & He). unfold edit_char, tty_holds. rewrite He.
  destruct (lines_snoc cs c) as [-> ->]. rewrite <- Hl, <- Hb.
  destruct (Z.eqb_spec c 10); simpl; [by rewrite app_assoc |].
  destruct (Z.eqb_spec c 8); [| by rewrite app_nil_r].
  destruct (tty_linebuffer t) as [| x l] eqn:E; simpl; by rewrite ?app_nil_r, ?E.
Qed.

Lemma consume_holds tasks keycode cs data t :
  tty_holds cs data t →
  ∃ b t' es, tty_consume Translate tasks JEOKERNEL_MODE keycode t = Ret (b, t', es) ∧
    tty_holds (cs ++ typed (OpKey keycode)) data t'.
Proof.
  intros Ht. unfold tty_consume, typed, is_hotkey. destruct (Translate_char keycode) as [Et Eu].
  destruct (has_bits keycode KEYBOARD_CODE_BIT_RELEASE); [eexists _, _, _; split; [done | by rewrite app_nil_r] |].
  rewrite Et. cbn [mbind outcome_bind]. rewrite Eu. generalize (char_of keycode) as c. intros c.
  cbn [orb]. destruct (has_bits keycode CONTROL_BITS); rewrite ?andb_true_r, ?andb_false_r, ?andb_false_l; cbn [andb].
  - destruct ((c =? 99) || (c =? 67)); cbn [orb].
    { eexists _, _, _. split; [done | by rewrite app_nil_r]. }
    destruct (((c =? 115) || (c =? 83)) && has_bits keycode KEYBOARD_CODE_BIT_LALT).
    { eexists _, _, _. split; [done | by rewrite app_nil_r]. }
    eexists _, _, _. split; [done | by apply edit_char_holds].
  - eexists _, _, _. split; [done | by apply edit_char_holds].
Qed.

Lemma read_holds len cs data t :
  tty_holds cs data t → tty_holds cs (data ++ (tty_read len t).1.2) (tty_read len t).1.1.
Proof.
  intros (Hb & Hl & He). unfold tty_read, tty_holds.
  destruct (Z.leb_spec len 0); [by rewrite app_nil_r |]. cbn zeta.
  destruct (Z.eqb_spec (Z.of_nat (length (tty_buffer t))) 0); [by rewrite app_nil_r |].
  destruct (Z.leb_spec (Z.of_nat (length (tty_buffer t))) len); simpl; [by rewrite app_nil_r |].
  by rewrite <- app_assoc, take_drop.
Qed.

(** C23: whatever order keys and reads come in, nothing typed is lost, doubled or reordered.  The bytes read
    so far and those still buffered are exactly the finished lines of what was typed, with backspace
    taking back a character of its own line and never of a line already finished; the line still open is
    kept until its end is typed.  The codes are those of the PS/2 keyboard (JEOKERNEL_MODE), the calls come one
    after the other, and a key without a character, such as shift, types a zero (shift_types_zero). *)
Theorem tty_lines tasks ops :
  ∃ t data, tty_run tasks ops (new_tty, []) = Ret (t, data) ∧
    data ++ tty_buffer t = finished_lines (concat (typed <$> ops)) ∧
    tty_linebuffer t = unfinished_line (concat (typed <$> ops)).
Proof.
  assert (∀ cs t data, tty_holds cs data t → ∃ t' data', tty_run tasks ops (t, data) = Ret (t', data') ∧
    tty_holds (cs ++ concat (typed <$> ops)) data' t') as H.
  { induction ops as [| [keycode | len] ops IH]; intros cs t data Ht.
    - exists t, data. by rewrite app_nil_r.
    - destruct (consume_holds tasks keycode cs data t Ht) as (b & t1 & es & E & H1).
      cbn [tty_run tty_run_op fst snd]. rewrite E. cbn [mbind outcome_bind fst snd fmap list_fmap concat].
      rewrite app_assoc. by apply IH.
    - cbn [tty_run tty_run_op fst snd mbind outcome_bind fmap list_fmap concat typed app].
      apply IH. by apply read_holds. }
  destruct (H [] new_tty []) as (t & data & E & Hb & Hl & _); [done |]. eauto 10.
Qed.

(** * From the keyboard to the reader

    ps2kbd::keycode passes the codes of the state machine, as USB keycodes, to the keyboard, and the
    keyboard to its consumer; here that is the terminal with the identity [TTY_ID]. *)
Definition TTY_ID : Z := 1.

Record terminal := { tm_type2 : type2; tm_keyboard : keyboard; tm_tty : tty }.

Definition new_terminal : terminal :=
  {| tm_type2 := new_type2; tm_keyboard := keyboard_consume TTY_ID {| kb_consumer := None; kb_consumers := [] |};
     tm_tty := new_tty |}.

Definition consumer_consume (id code : Z) (t : tty) : outcome (bool * tty) :=
  if id =? TTY_ID then r ← tty_consume Translate [] JEOKERNEL_MODE code t; Ret r.1 else Ret (true, t).

Fixpoint ps2_keycodes (codes : list Z) (s : keyboard * tty) : outcome (keyboard * tty) :=
  match codes with
  | [] => Ret s
  | code :: codes =>
      s' ← keyboard_keycode consumer_consume (keycode_type2_to_usb code) s.1 s.2;
      ps2_keycodes codes s'
  end.

Fixpoint ps2_bytes (chs : list Z) (tm : terminal) : outcome terminal :=
  match chs with
  | [] => Ret tm
  | ch :: chs =>
      r ← raw_code ch (tm_type2 tm);
      s ← ps2_keycodes r.2 (tm_keyboard tm, tm_tty tm);
      ps2_bytes chs {| tm_type2 := r.1; tm_keyboard := s.1; tm_tty := s.2 |}
  end.

Lemma ps2_keycodes_app l1 l2 s :
  ps2_keycodes (l1 ++ l2) s = (s1 ← ps2_keycodes l1 s; ps2_keycodes l2 s1).
Proof.
  revert s. induction l1 as [| c l1 IH]; intros s; cbn [app ps2_keycodes]; [done |].
  destruct (keyboard_keycode _ _ _ _) as [s2 | | |]; try done. apply IH.
Qed.

(** The bytes may as well be decoded first. *)
Lemma ps2_bytes_decode chs tm m codes s :
  raw_codes chs (tm_type2 tm) = Ret (m, codes) →
  ps2_keycodes codes (tm_keyboard tm, tm_tty tm) = Ret s →
  ps2_bytes chs tm = Ret {| tm_type2 := m; tm_keyboard := s.1; tm_tty := s.2 |}.
Proof.
  revert tm codes. induction chs as [| ch chs IH]; intros tm codes; cbn [raw_codes ps2_bytes].
  { intros [= <- <-] [= <-]. by destruct tm. }
  destruct (raw_code ch (tm_type2 tm)) as [[m1 o1] | | |]; try done. cbn [mbind outcome_bind fst snd].
  destruct (raw_codes chs m1) as [[m2 o2] | | |] eqn:E; try done. cbn [mbind outcome_bind fst snd].
  intros [= <- <-]. rewrite ps2_keycodes_app.
  destruct (ps2_keycodes o1 (tm_keyboard tm, tm_tty tm)) as [s1 | | |]; try done. cbn [mbind outcome_bind].
  intros Hs. apply (IH {| tm_type2 := m1; tm_keyboard := s1.1; tm_tty := s1.2 |} o2); [done |]. simpl. by destruct s1.
Qed.

(** ** Typing a line *)

(** The key of a character, without modifiers. *)
Definition is_key_of (c k : Z) : bool :=
  bool_decide (k ∉ [0x58; 0x7E; 0x77; 0xF0; 0xE0; 0xE1] ∧ k ∉ modifier_keys) &&
  (char_of (keycode_type2_to_usb k) =? c).

Definition key_of (c : Z) : option Z := head (filter (λ k, is_key_of c k = true) (seqZ 0 0x84)).

Definition ENTER_KEY : Z := 0x5A.

(** A key is pressed and released. *)
Definition stroke (k : Z) : list key_event := [Key false k; Key true k].

(** The bytes the keyboard sends while the keys [ks], then enter, are pressed and released. *)
Definition type_keys (ks : list Z) : list Z := concat (scancodes <$> concat (stroke <$> (ks ++ [ENTER_KEY]))).

Definition plain_key (k : Z) : Prop := key_byte k ∧ k ∉ modifier_keys.

Lemma key_of_plain c k : key_of c = Some k → plain_key k ∧ char_of (keycode_type2_to_usb k) = c.
Proof.
  unfold key_of. intros H.
  assert (k ∈ filter (λ k, is_key_of c k = true) (seqZ 0 0x84)) as Hk
    by (destruct (filter _ _); simplify_eq/=; apply list_elem_of_here).
  apply list_elem_of_filter in Hk as [Hk Hr%elem_of_seqZ]. unfold is_key_of in Hk.
  apply andb_prop in Hk as [Hd Hc]. apply bool_decide_eq_true in Hd as [? ?].
  split; [split; [split; [lia | done] | done] | lia].
Qed.

Lemma stroke_codes k : plain_key k → 
  board_events (stroke k) empty_board = (empty_board, [k; Z.lor k KEYBOARD_CODE_BIT_RELEASE]).
Proof.
  intros [[Hk _] Hm]. assert (modifiers ({[k]} ∪ ∅) = 0) as E1
    by (rewrite modifiers_insert, modifier_bit_other by done; reflexivity).
  assert ((({[k]} ∪ ∅ : gset Z) ∖ {[k]}) = ∅) as E2 by set_solver.
  unfold stroke. cbn [board_events board_event board_move fst snd app b_down set_down empty_board].
  rewrite E1, E2. unfold board_locks. cbn [b_scroll b_caps b_num].
  change (modifiers ∅) with 0. rewrite !Z.lor_0_r, !Z.lor_0_l. done.
Qed.

Lemma board_events_app es1 es2 b :
  board_events (es1 ++ es2) b =
    ((board_events es2 (board_events es1 b).1).1, (board_events es1 b).2 ++ (board_events es2 (board_events es1 b).1).2).
Proof.
  revert b. induction es1 as [| e es1 IH]; intros b; cbn [app board_events fst snd].
  - by destruct (board_events es2 b).
  - rewrite IH. cbn [fst snd]. by rewrite app_assoc.
Qed.

Definition stroke_code (k : Z) : list Z := [k; Z.lor k KEYBOARD_CODE_BIT_RELEASE].

Lemma strokes_codes ks : Forall plain_key ks →
  board_events (concat (stroke <$> ks)) empty_board = (empty_board, concat (stroke_code <$> ks)).
Proof.
  induction 1 as [| k ks Hk _ IH]; [done |]. cbn [fmap list_fmap concat]. rewrite board_events_app.
  rewrite (stroke_codes k Hk). cbn [fst snd]. by rewrite IH.
Qed.

Definition tty_keyboard : keyboard := {| kb_consumer := Some TTY_ID; kb_consumers := [] |}.

Lemma keycode_to_tty kb code t t' es :
  kb = tty_keyboard ∨ kb = tm_keyboard new_terminal →
  tty_consume Translate [] JEOKERNEL_MODE code t = Ret (true, t', es) →
  keyboard_keycode consumer_consume code kb t = Ret (tty_keyboard, t').
Proof. intros [-> | ->] E; unfold keyboard_keycode, consumer_consume; cbn -[tty_consume]; by rewrite E. Qed.

(** A code without bits has none as a USB keycode, and a release is one. *)
Lemma usb_bits k :
  0 ≤ k < 256 →
  has_bits (keycode_type2_to_usb k) KEYBOARD_CODE_BIT_RELEASE = false ∧
  has_bits (keycode_type2_to_usb k) CONTROL_BITS = false ∧
  has_bits (keycode_type2_to_usb (Z.lor k KEYBOARD_CODE_BIT_RELEASE)) KEYBOARD_CODE_BIT_RELEASE = true.
Proof. revert k. refine (below_check _ 256 _). vm_compute. reflexivity. Qed.

Lemma stroke_typed kb k t :
  0 ≤ k < 256 → kb = tty_keyboard ∨ kb = tm_keyboard new_terminal →
  ps2_keycodes (stroke_code k) (kb, t) =
    Ret (tty_keyboard, (edit_char 10 (char_of (keycode_type2_to_usb k)) t).1).
Proof.
  intros Hk Hkb. destruct (usb_bits k Hk) as (Hr & Hc & Hrel). unfold stroke_code. cbn [ps2_keycodes fst snd].
  destruct (Translate_char (keycode_type2_to_usb k)) as [Et Eu].
  rewrite (keycode_to_tty kb _ t (edit_char 10 (char_of (keycode_type2_to_usb k)) t).1
    (edit_char 10 (char_of (keycode_type2_to_usb k)) t).2); [| done |].
  - cbn [mbind outcome_bind fst snd]. erewrite keycode_to_tty; [done | by left |].
    unfold tty_consume. by rewrite Hrel.
  - unfold tty_consume. rewrite Hr, Et. cbn [mbind outcome_bind]. rewrite Eu, Hc, !andb_false_r. done.
Qed.

Lemma strokes_typed ks cs kb data t :
  Forall plain_key ks → kb = tty_keyboard ∨ kb = tm_keyboard new_terminal → tty_holds cs data t →
  ∃ kb' t', ps2_keycodes (concat (stroke_code <$> ks)) (kb, t) = Ret (kb', t') ∧
    tty_holds (cs ++ (char_of ∘ keycode_type2_to_usb <$> ks)) data t'.
Proof.
  intros Hks. revert cs kb t. induction Hks as [| k ks [[Hk _] _] _ IH]; intros cs kb t Hkb Ht.
  - exists kb, t. by rewrite app_nil_r.
  - cbn [fmap list_fmap concat]. rewrite ps2_keycodes_app, stroke_typed by done. cbn [mbind outcome_bind].
    rewrite cons_middle, app_assoc. apply IH; [by left |]. by apply edit_char_holds.
Qed.

(** A text without newline and backspace is one line. *)
Lemma plain_text_line cs :
  Forall (λ c, c ≠ 10 ∧ c ≠ 8) cs → finished_lines (cs ++ [10]) = cs ++ [10].
Proof.
  intros Hcs. assert (finished_lines cs = [] ∧ unfinished_line cs = cs) as [Hf Hu].
  { induction cs as [| c cs IH] using rev_ind; [done |]. apply Forall_app in Hcs as [Hcs Hc].
    apply Forall_singleton in Hc as [H10 H8]. destruct (IH Hcs) as [Hf Hu]. destruct (lines_snoc cs c) as [-> ->].
    by rewrite (proj2 (Z.eqb_neq c 10)), (proj2 (Z.eqb_neq c 8)), Hf, Hu by done. }
  destruct (lines_snoc cs 10) as [-> _]. by rewrite Hf, Hu.
Qed.

Lemma enter_plain : plain_key ENTER_KEY ∧ char_of (keycode_type2_to_usb ENTER_KEY) = 10.
Proof. split; [| by vm_compute]. unfold ENTER_KEY. split; [split; [lia |] |]; set_solver. Qed.

(** what is typed is what is read.  For any text of characters that have a key without modifiers, the
    bytes that a PS/2 keyboard sends while their keys and enter are pressed and released go through the
    state machine, the USB numbers, the keyboard and its code page to the terminal, and a read with room
    for it returns the text and a newline. *)
Theorem typed_text_read ks text :
  Forall2 (λ c k, key_of c = Some k ∧ c ≠ 10 ∧ c ≠ 8) text ks →
  ∃ tm, ps2_bytes (type_keys ks) new_terminal = Ret tm ∧
    ∀ len, Z.of_nat (length text) < len →
      (tty_read len (tm_tty tm)).1.2 = text ++ [10] ∧
      (tty_read len (tm_tty tm)).2 = Z.of_nat (length text) + 1.
Proof.
  intros Hks. destruct enter_plain as [Hep Hec].
  assert (Forall plain_key (ks ++ [ENTER_KEY]) ∧ char_of ∘ keycode_type2_to_usb <$> ks = text ∧
    Forall (λ c, c ≠ 10 ∧ c ≠ 8) text) as (Hp & Hc & Ht).
  { rewrite Forall_app. induction Hks as [| c k text ks (Hk & Hn) _ (IH1 & IH2 & IH3)]; [repeat constructor; apply Hep |].
    apply key_of_plain in Hk as [Hk <-]. destruct IH1. rewrite fmap_cons, IH2.
    split; [split; [by constructor | done] |]. split; [done | by constructor]. }
  assert (Forall key_event_ok (concat (stroke <$> (ks ++ [ENTER_KEY])))) as Hok.
  { clear -Hp. induction Hp as [| k l [Hk _] _ IH]; [constructor |].
    apply (Forall_app_2 _ (stroke k)); [| done]. apply Forall_cons_2; [done | by apply Forall_singleton]. }
  destruct (events_decode _ empty_board new_type2 new_board_rel Hok) as (m & Hm & _).
  rewrite (strokes_codes _ Hp) in Hm. cbn [snd] in Hm.
  destruct (strokes_typed (ks ++ [ENTER_KEY]) [] (tm_keyboard new_terminal) [] new_tty Hp) as (kb & t & Hs & Hb & _);
    [by right | done |].
  rewrite fmap_app, Hc in Hb. cbn [app fmap list_fmap compose] in Hb. rewrite Hec, plain_text_line in Hb by done.
  eexists. split; [by apply (ps2_bytes_decode _ new_terminal m _ _ Hm Hs) |]. intros len Hlen.
  unfold tty_read. simpl. assert (length (tty_buffer t) = S (length text)) as Hl
    by (rewrite Hb, length_app; simpl; lia). rewrite Hl.
  rewrite (proj2 (Z.leb_gt _ _)), (proj2 (Z.eqb_neq _ _)), (proj2 (Z.leb_le _ _)) by lia. split; [done | simpl; lia].
Qed.

(** The text "ls -l" on the keys of a keyboard. *)
Lemma typed_text_read_witness :
  ∃ tm, ps2_bytes (type_keys [0x4B; 0x1B; 0x29; 0x4E; 0x4B]) new_terminal = Ret tm ∧
    ∀ len, 5 < len →
      (tty_read len (tm_tty tm)).1.2 = [108; 115; 32; 45; 108; 10] ∧ (tty_read len (tm_tty tm)).2 = 6.
Proof.
  apply (typed_text_read [0x4B; 0x1B; 0x29; 0x4E; 0x4B] [108; 115; 32; 45; 108]).
  repeat apply Forall2_cons_2; try apply Forall2_nil_2; (split; [vm_compute; reflexivity | lia]).
Defined.

(** a character that needs a modifier comes with a zero.  The press of the shift key is a code of its
    own that the code page translates to 0, and the terminal, unlike the line reader of the kernel's
    shell, puts this into the line: after shift and A a process reads a zero, an A and a newline. *)
Theorem shift_types_zero :
  ∃ tm, ps2_bytes (concat (scancodes <$>
      [Key false 0x12; Key false 0x1C; Key true 0x1C; Key true 0x12; Key false ENTER_KEY])) new_terminal = Ret tm ∧
    tty_read 80 (tm_tty tm) = (set_buffers [] [] (tm_tty tm), [0; 65; 10], 3).
Proof. eexists. split; [vm_compute; reflexivity | vm_compute; reflexivity]. Qed.

(** ISIG cannot be set.  TCSETSW accepts the flag and reports success, yet the terminal never has it
    set, since the code takes it from c_cflag, which is 0 there. *)
Theorem tcsetsw_ignores_isig s t :
  (tty_tcsetsw s t).2 = 0 →
  c_lflag (tty_tcgets (tty_tcsetsw s t).1) = 0 ∧ tty_buffer (tty_tcsetsw s t).1 = tty_buffer t.
Proof.
  unfold tty_tcsetsw. destruct (Z.eqb_spec (c_iflag s) 0); simpl; [| done].
  destruct (Z.eqb_spec (c_oflag s) 0); simpl; [| done].
  destruct (Z.eqb_spec (c_cflag s) 0) as [E |]; simpl; [| done]. rewrite E.
  by destruct (_ && _).
Qed.

Lemma tcsetsw_ignores_isig_witness :
  let s := {| c_iflag := 0; c_oflag := 0; c_cflag := 0; c_lflag := ISIG |} in
  (tty_tcsetsw s new_tty).2 = 0 ∧ c_lflag (tty_tcgets (tty_tcsetsw s new_tty).1) = 0.
Proof.
  split; [done |].
  by destruct (tcsetsw_ignores_isig {| c_iflag := 0; c_oflag := 0; c_cflag := 0; c_lflag := ISIG |} new_tty).
Defined.

(** ** Ctrl+C *)

Lemma collect_spec tasks processes :
  NoDup (tp_pid <$> processes) →
  NoDup (tp_pid <$> collect tasks processes) ∧
  (∀ p, p ∈ collect tasks processes → p ∈ processes ∨ Some p ∈ tasks) ∧
  (∀ pid, (pid ∈ tp_pid <$> collect tasks processes) ↔
    pid ∈ tp_pid <$> processes ∨ ∃ p, Some p ∈ tasks ∧ tp_pid p = pid).
Proof.
  revert processes. induction tasks as [| [p |] tasks IH]; intros ps Hps; simpl; [set_solver | |].
  - assert (existsb (λ q, tp_pid p =? tp_pid q) ps = true ↔ tp_pid p ∈ tp_pid <$> ps) as Hex.
    { rewrite existsb_exists, list_elem_of_fmap. setoid_rewrite <- list_elem_of_In.
      split; intros (q & H1 & H2); exists q; split; (done || lia). }
    destruct (existsb _ ps) eqn:E.
    + destruct (IH ps Hps) as (H1 & H2 & H3). split; [done |]. split; [set_solver |]. intros pid. rewrite H3.
      split; [set_solver |]. intros [? | (q & [[= ->] | Hq]%elem_of_cons & <-)]; [by left | left; by apply Hex |].
      right. eauto.
    + destruct (IH (ps ++ [p])) as (H1 & H2 & H3).
      { rewrite fmap_app. apply NoDup_app. split; [done |]. split; [| apply NoDup_singleton].
        intros x Hx Hx'. apply list_elem_of_singleton in Hx' as ->. naive_solver. }
      split; [done |]. split; [set_solver |]. intros pid. rewrite H3, fmap_app. set_solver.
  - destruct (IH ps Hps) as (H1 & H2 & H3). split; [done |]. split; [set_solver |].
    intros pid. rewrite H3. set_solver.
Qed.

(** Ctrl+C sends SIGINT to every process of the foreground group, however many tasks it has, once, and
    to no other process; the line being typed stays as it is. *)
Theorem ctrl_c_correct tasks keycode t :
  (∀ p q, Some p ∈ tasks → Some q ∈ tasks → tp_pid p = tp_pid q → p = q) →
  0 < tty_pgrp t →
  has_bits keycode KEYBOARD_CODE_BIT_RELEASE = false → has_bits keycode CONTROL_BITS = true →
  char_of keycode = 99 ∨ char_of keycode = 67 →
  ∃ signals, tty_consume Translate tasks JEOKERNEL_MODE keycode t = Ret (true, t, TtyWrite [94; 67; 10] :: signals) ∧
    NoDup signals ∧
    ∀ pid, TtySignal pid ∈ signals ↔ ∃ p, Some p ∈ tasks ∧ tp_pid p = pid ∧ tp_pgrp p = tty_pgrp t.
Proof.
  intros Hid Hpg Hr Hc Hch. exists (interrupt tasks (tty_pgrp t)).
  destruct (collect_spec tasks [] ltac:(constructor)) as (Hnd & Hin & Hpid). split; [| split].
  - unfold tty_consume. destruct (Translate_char keycode) as [Et Eu]. rewrite Hr, Et, Hc. cbn [mbind outcome_bind].
    rewrite Eu. by destruct Hch as [-> | ->].
  - unfold interrupt. rewrite (proj2 (Z.ltb_lt _ _)) by done. revert Hnd. clear.
    induction (collect tasks []) as [| p ps IH]; intros Hnd; [constructor |].
    cbn [fmap list_fmap] in Hnd. apply NoDup_cons in Hnd as [Hp Hnd]. specialize (IH Hnd).
    destruct (decide (tp_pgrp p = tty_pgrp t)); [| by rewrite filter_cons_False].
    rewrite filter_cons_True by done. cbn [fmap list_fmap]. apply NoDup_cons. split; [| done].
    intros (q & E & Hq%list_elem_of_filter)%list_elem_of_fmap. apply Hp, list_elem_of_fmap. exists q. naive_solver.
  - intros pid. unfold interrupt. rewrite (proj2 (Z.ltb_lt _ _)), list_elem_of_fmap by done. split.
    + intros (p & [= ->] & [Hg Hp]%list_elem_of_filter). apply Hin in Hp as [Hp | Hp]; [by apply elem_of_nil in Hp |]. eauto.
    + intros (p & Hp & <- & Hg). assert (tp_pid p ∈ tp_pid <$> collect tasks []) as Hq by (apply Hpid; eauto).
      apply list_elem_of_fmap in Hq as (q & Hpq & Hq). exists q. split; [by rewrite Hpq |].
      apply list_elem_of_filter. split; [| done]. apply Hin in Hq as Hq'.
      destruct Hq' as [Hq' | Hq']; [by apply elem_of_nil in Hq' |]. by rewrite <- (Hid p q).
Qed.

(** Control and C, while three tasks of two processes run. *)
Lemma ctrl_c_correct_witness :
  let tasks := [Some {| tp_pid := 4; tp_pgrp := 4 |}; None; Some {| tp_pid := 5; tp_pgrp := 5 |};
                Some {| tp_pid := 4; tp_pgrp := 4 |}] in
  ∃ signals, tty_consume Translate tasks JEOKERNEL_MODE (Z.lor KEYBOARD_CODE_BIT_LCONTROL 6) (SetPgrp 4 new_tty) =
      Ret (true, SetPgrp 4 new_tty, TtyWrite [94; 67; 10] :: signals) ∧ TtySignal 4 ∈ signals ∧ TtySignal 5 ∉ signals.
Proof.
  intros tasks. destruct (ctrl_c_correct tasks (Z.lor KEYBOARD_CODE_BIT_LCONTROL 6) (SetPgrp 4 new_tty))
    as (signals & E & _ & H).
  - intros p q Hp Hq. repeat (apply elem_of_cons in Hp as [Hp | Hp]); repeat (apply elem_of_cons in Hq as [Hq | Hq]);
      simplify_eq; try (by apply elem_of_nil in Hp); try (by apply elem_of_nil in Hq); done.
  - done.
  - done.
  - done.
  - left. vm_compute. reflexivity.
  - exists signals. split; [exact E |]. split.
    + apply H. exists {| tp_pid := 4; tp_pgrp := 4 |}. split; [apply list_elem_of_here | done].
    + rewrite H. intros (p & Hp & Hpid & Hg).
      repeat (apply elem_of_cons in Hp as [Hp | Hp]); simplify_eq; by apply elem_of_nil in Hp.
Defined.
