(* ===== verification/PhysPageMap.v ===== *)
(** * The physical page bitmap

    [include/physpagemap.h] and the first half of [kernel/physpagemap.cpp]:
    one bit per physical page, in an array of 32-bit words.  The class
    [physpagemap_managed] is the typeclass [PhyspageMapManaged]; what its
    clients rely on is [PhyspageMapLaws]. *)

From S2P Require Import Prelude.

(** ** The bitmap itself: struct PhyspageMap *)
Module PhyspageMap.

Definition map_size : Z := 1024.

(** The constructor: every word of the array is cleared. *)
Definition init : list Z := replicate (Z.to_nat map_size) 0.

Definition max_pageaddr : Z := u32 (map_size * 32).

Definition claim (pageaddr : Z) (map : list Z) : outcome (list Z) :=
  let index := Z.shiftr pageaddr 5 in
  let bit := Z.land pageaddr 0x1F in
  w ← rd map index;
  wr map index (Z.lor w (u32 (Z.shiftl 1 bit))).

(** The inner loop of the ranged [claim]: whole words at once. *)
Fixpoint claim_words (fuel : nat) (index pageaddr num : Z) (map : list Z)
    : outcome (Z * Z * list Z) :=
  match fuel with
  | O => OutOfFuel
  | S fuel =>
      if 0x1F <? num then
        map ← wr map index 0xFFFFFFFF;
        claim_words fuel (u32 (index + 1)) (u32 (pageaddr + 0x20)) (u32 (num - 0x20)) map
      else Ret (pageaddr, num, map)
  end.

(** The outer loop of the ranged [claim]. *)
Fixpoint claim_loop (fuel : nat) (pageaddr num : Z) (map : list Z) : outcome (list Z) :=
  match fuel with
  | O => OutOfFuel
  | S fuel =>
      if 0 <? num then
        let index := Z.shiftr pageaddr 5 in
        let bit := Z.land pageaddr 0x1F in
        if (bit =? 0) && (0x1F <? num) then
          '(pageaddr, num, map) ← claim_words (S fuel) index pageaddr num map;
          claim_loop fuel pageaddr num map
        else
          w ← rd map index;
          map ← wr map index (Z.lor w (u32 (Z.shiftl 1 bit)));
          claim_loop fuel (u32 (pageaddr + 1)) (u32 (num - 1)) map
      else Ret map
  end.

Definition claim_range (pageaddr num : Z) (map : list Z) : outcome (list Z) :=
  claim_loop (S (Z.to_nat num)) pageaddr num map.

Definition release (pageaddr : Z) (map : list Z) : outcome (list Z) :=
  let index := Z.shiftr pageaddr 5 in
  let bit := Z.land pageaddr 0x1F in
  let mask := u32 (Z.shiftl 1 bit) in
  w ← rd map index;
  wr map index (Z.land w (not_w 32 mask)).

Definition claimed (pageaddr : Z) (map : list Z) : outcome bool :=
  let index := Z.shiftr pageaddr 5 in
  let bit := Z.land pageaddr 0x1F in
  let mask := u32 (Z.shiftl 1 bit) in
  w ← rd map index;
  Ret (negb (Z.land w mask =? 0)).

Definition byteaddr_to_pageaddr (size : Z) : Z := u32 (Z.shiftl size 3).
Definition mapaddr_to_pageaddr (size : Z) : Z := u32 (Z.shiftl size 5).
Definition mappageaddr_to_pageaddr (mappage : Z) : Z := u32 (Z.shiftl mappage (12 + 3)).

(** *** Specification: the map as a set of pages *)

(** The bit of page [p]. *)
Definition bit_at (map : list Z) (p : Z) : bool :=
  match map !! Z.to_nat (p / 32) with
  | Some w => Z.testbit w (p mod 32)
  | None => false
  end.

Definition wf (map : list Z) : Prop := Forall (is_u 32) map.

Definition pages (map : list Z) : Z := 32 * Z.of_nat (length map).

Lemma bit_at_lookup map p w :
  map !! Z.to_nat (p / 32) = Some w → bit_at map p = Z.testbit w (p mod 32).
Proof. unfold bit_at. by intros ->. Qed.

(** Access to the word of a page inside the map. *)
Lemma rd_word map p :
  0 ≤ p < pages map →
  ∃ w, rd map (p / 32) = Ret w ∧ map !! Z.to_nat (p / 32) = Some w.
Proof.
  unfold pages. intros. apply rd_lt.
  split; [apply Z.div_pos; lia | apply Z.div_lt_upper_bound; lia].
Qed.

Lemma word_bits map p w :
  wf map → map !! Z.to_nat (p / 32) = Some w → is_u 32 w.
Proof. unfold wf. rewrite Forall_lookup. eauto. Qed.

Lemma mask_range p : is_u 32 (Z.shiftl 1 (p mod 32)).
Proof.
  rewrite Z.shiftl_1_l. pose proof (Z.mod_pos_bound p 32 eq_refl). split.
  - apply Z.pow_nonneg; lia.
  - apply Z.pow_lt_mono_r; lia.
Qed.

(** Replacing the word of page [p] changes the bits of that word only. *)
Lemma bit_at_insert map p w q :
  0 ≤ p < pages map → 0 ≤ q →
  bit_at (<[Z.to_nat (p / 32) := w]> map) q =
    if p / 32 =? q / 32 then Z.testbit w (q mod 32) else bit_at map q.
Proof.
  intros Hp Hq. unfold bit_at. destruct (rd_word map p Hp) as (w0 & _ & Hw0).
  apply lookup_lt_Some in Hw0.
  pose proof (Z.div_pos p 32). pose proof (Z.div_pos q 32).
  destruct (Z.eqb_spec (p / 32) (q / 32)) as [E | E].
  - rewrite E, list_lookup_insert_eq by (rewrite <- E; done). done.
  - rewrite list_lookup_insert_ne by lia. done.
Qed.

(** Two well-formed maps of the same length with the same bits are equal. *)
Lemma map_ext m1 m2 :
  wf m1 → wf m2 → length m1 = length m2 →
  (∀ q, 0 ≤ q < pages m1 → bit_at m1 q = bit_at m2 q) → m1 = m2.
Proof.
  intros W1 W2 Hlen Hb. apply list_eq_same_length with (length m1); [done.. |].
  intros i x y Hi H1 H2.
  pose proof (Forall_lookup_1 _ _ _ _ W1 H1). pose proof (Forall_lookup_1 _ _ _ _ W2 H2).
  apply Z.bits_inj'. intros b Hb0. destruct (decide (b < 32)) as [Hlt |].
  - specialize (Hb (32 * Z.of_nat i + b)). unfold pages in Hb.
    assert ((32 * Z.of_nat i + b) / 32 = Z.of_nat i) as Hd
      by (symmetry; apply (Z.div_unique _ _ _ b); lia).
    assert ((32 * Z.of_nat i + b) mod 32 = b) as Hm
      by (symmetry; apply (Z.mod_unique _ _ (Z.of_nat i)); lia).
    rewrite (bit_at_lookup m1 _ x), (bit_at_lookup m2 _ y) in Hb
      by (by rewrite Hd, Nat2Z.id).
    rewrite Hm in Hb. apply Hb. lia.
  - rewrite !(is_u_bits 32) by (done || lia). done.
Qed.

(** *** Single-page operations *)

Lemma claim_spec map p :
  wf map → 0 ≤ p < pages map →
  ∃ map', claim p map = Ret map' ∧ wf map' ∧ length map' = length map ∧
    ∀ q, 0 ≤ q → bit_at map' q = bit_at map q || (q =? p).
Proof.
  intros W Hp. unfold claim. rewrite land_31, shiftr_5.
  destruct (rd_word map p Hp) as (w & Hrd & Hw). rewrite Hrd. simpl.
  pose proof (lookup_lt_Some _ _ _ Hw). pose proof (Z.div_pos p 32).
  rewrite wr_lt by lia. eexists. split; [done |].
  rewrite (wrap_id 32) by apply mask_range. pose proof (mask_range p).
  pose proof (word_bits _ _ _ W Hw). split_and!.
  - apply Forall_insert; [done |]. auto with kern lia.
  - apply length_insert.
  - intros q Hq. rewrite bit_at_insert by done.
    pose proof (Z.mod_pos_bound p 32 eq_refl). pose proof (Z.mod_pos_bound q 32 eq_refl).
    pose proof (Z.div_mod p 32). pose proof (Z.div_mod q 32).
    destruct (Z.eqb_spec (p / 32) (q / 32)) as [E | E].
    + rewrite Z.lor_spec, testbit_shl1 by lia.
      rewrite (bit_at_lookup map q w) by (by rewrite <- E). f_equal.
      apply Bool.eq_iff_eq_true. rewrite !Z.eqb_eq. lia.
    + destruct (Z.eqb_spec q p); [congruence | by rewrite orb_false_r].
Qed.

Lemma not_mask_bit p i :
  0 ≤ i < 32 → Z.testbit (not_w 32 (Z.shiftl 1 (p mod 32))) i = negb (i =? p mod 32).
Proof.
  intros Hi. pose proof (Z.mod_pos_bound p 32 eq_refl). unfold not_w.
  rewrite wrap_spec, Z.lnot_spec, testbit_shl1 by lia.
  by destruct (Z.ltb_spec i 32); [| lia].
Qed.

Lemma release_spec map p :
  wf map → 0 ≤ p < pages map →
  ∃ map', release p map = Ret map' ∧ wf map' ∧ length map' = length map ∧
    ∀ q, 0 ≤ q → bit_at map' q = bit_at map q && negb (q =? p).
Proof.
  intros W Hp. unfold release. rewrite land_31, shiftr_5.
  destruct (rd_word map p Hp) as (w & Hrd & Hw). rewrite Hrd. simpl.
  pose proof (lookup_lt_Some _ _ _ Hw). pose proof (Z.div_pos p 32).
  rewrite wr_lt by lia. eexists. split; [done |].
  rewrite (wrap_id 32) by apply mask_range.
  pose proof (word_bits _ _ _ W Hw). split_and!.
  - apply Forall_insert; [done |].
    apply is_u_land; [lia | done |]. unfold not_w. by apply wrap_range.
  - apply length_insert.
  - intros q Hq. rewrite bit_at_insert by done.
    pose proof (Z.mod_pos_bound p 32 eq_refl). pose proof (Z.mod_pos_bound q 32 eq_refl).
    pose proof (Z.div_mod p 32). pose proof (Z.div_mod q 32).
    destruct (Z.eqb_spec (p / 32) (q / 32)) as [E | E].
    + rewrite Z.land_spec, not_mask_bit by lia.
      rewrite (bit_at_lookup map q w) by (by rewrite <- E). do 2 f_equal.
      apply Bool.eq_iff_eq_true. rewrite !Z.eqb_eq. lia.
    + destruct (Z.eqb_spec q p); [congruence | by rewrite andb_true_r].
Qed.

Lemma claimed_spec map p :
  0 ≤ p < pages map → claimed p map = Ret (bit_at map p).
Proof.
  intros Hp. unfold claimed. rewrite land_31, shiftr_5.
  destruct (rd_word map p Hp) as (w & Hrd & Hw). rewrite Hrd. simpl.
  rewrite (wrap_id 32) by apply mask_range.
  pose proof (Z.mod_pos_bound p 32 eq_refl).
  rewrite land_shl1_eqb, negb_involutive by lia. by rewrite (bit_at_lookup map p w).
Qed.

(** *** The ranged claim *)

(** Setting a whole word claims its 32 pages. *)
Lemma claim_word_spec map p :
  wf map → 0 ≤ p < pages map → p mod 32 = 0 →
  ∃ map', wr map (p / 32) 0xFFFFFFFF = Ret map' ∧ wf map' ∧ length map' = length map ∧
    ∀ q, 0 ≤ q → bit_at map' q = bit_at map q || ((p <=? q) && (q <? p + 32)).
Proof.
  intros W Hp Hal. destruct (rd_word map p Hp) as (w & _ & Hw).
  pose proof (lookup_lt_Some _ _ _ Hw). pose proof (Z.div_pos p 32).
  rewrite wr_lt by lia. eexists. split; [done |]. split_and!.
  - by apply Forall_insert.
  - apply length_insert.
  - intros q Hq. rewrite bit_at_insert by done.
    pose proof (Z.mod_pos_bound q 32 eq_refl).
    pose proof (Z.div_mod p 32). pose proof (Z.div_mod q 32).
    destruct (Z.eqb_spec (p / 32) (q / 32)) as [E | E].
    + change 0xFFFFFFFF with (Z.ones 32). rewrite Z.ones_spec_low by lia.
      destruct (Z.leb_spec p q), (Z.ltb_spec q (p + 32)); lia.
    + destruct (Z.leb_spec p q), (Z.ltb_spec q (p + 32)); try (by rewrite orb_false_r).
      exfalso. lia.
Qed.

(** Pages [p, p+num), as a test. *)
Definition in_range (p num q : Z) : bool := (p <=? q) && (q <? p + num).

Lemma in_range_split p a num q :
  0 ≤ a ≤ num → in_range p num q = in_range p a q || in_range (p + a) (num - a) q.
Proof.
  unfold in_range. intros.
  destruct (Z.leb_spec p q), (Z.ltb_spec q (p + num)), (Z.ltb_spec q (p + a)),
    (Z.leb_spec (p + a) q), (Z.ltb_spec q (p + a + (num - a))); simpl; lia.
Qed.

Lemma in_range_empty p num q : num ≤ 0 → in_range p num q = false.
Proof. unfold in_range. lia. Qed.

Lemma in_range_1 p q : in_range p 1 q = (q =? p).
Proof. unfold in_range. lia. Qed.

(** What a loop of the ranged claim achieves: all of [p, p+num) is set. *)
Definition claimed_upto (map map' : list Z) (p num : Z) : Prop :=
  wf map' ∧ length map' = length map ∧
  ∀ q, 0 ≤ q → bit_at map' q = bit_at map q || in_range p num q.

Lemma claimed_upto_refl map p num : wf map → num ≤ 0 → claimed_upto map map p num.
Proof.
  intros W Hn. split; [done |]. split; [done |]. intros q _.
  by rewrite in_range_empty, orb_false_r.
Qed.

Lemma claimed_upto_1 map map' p :
  wf map' → length map' = length map →
  (∀ q, 0 ≤ q → bit_at map' q = bit_at map q || (q =? p)) → claimed_upto map map' p 1.
Proof.
  intros W L B. split; [done |]. split; [done |]. intros q Hq. by rewrite B, in_range_1.
Qed.

Lemma claimed_upto_trans map map1 map2 p a num :
  0 ≤ a ≤ num →
  claimed_upto map map1 p a → claimed_upto map1 map2 (p + a) (num - a) →
  claimed_upto map map2 p num.
Proof.
  intros Ha (W1 & L1 & B1) (W2 & L2 & B2). split; [done |]. split; [congruence |].
  intros q Hq. by rewrite B2, B1, (in_range_split p a num q), orb_assoc.
Qed.

Lemma claim_words_spec fuel map p num :
  wf map → 0 ≤ p → p mod 32 = 0 → 0 ≤ num → p + num ≤ pages map → p + num < 2 ^ 32 →
  (Z.to_nat (num / 32) < fuel)%nat →
  ∃ map', claim_words fuel (p / 32) p num map =
      Ret (p + 32 * (num / 32), num mod 32, map') ∧
    claimed_upto map map' p (32 * (num / 32)).
Proof.
  revert map p num. induction fuel as [| fuel IH]; intros map p num W Hp Hal Hn Hb Ho Hf; [lia |].
  cbn [claim_words]. change (Z.ltb 0x1F num) with (31 <? num).
  destruct (Z.ltb_spec 31 num) as [Hgt | Hle].
  - destruct (claim_word_spec map p) as (m1 & Hwr & W1 & L1 & B1); [done | lia | done |].
    rewrite Hwr. cbn [mbind outcome_bind].
    assert ((num - 32) / 32 = num / 32 - 1) as Hd
      by (replace (num - 32) with (num + (-1) * 32) by lia; rewrite Z.div_add; lia).
    assert ((num - 32) mod 32 = num mod 32) as Hm
      by (replace (num - 32) with (num + (-1) * 32) by lia; apply Z_mod_plus_full).
    assert (p / 32 + 1 = (p + 32) / 32) as Hi
      by (replace (p + 32) with (p + 1 * 32) by lia; rewrite Z.div_add; lia).
    assert ((p + 32) mod 32 = 0) as Hal'
      by (rewrite <- Hal; replace (p + 32) with (p + 1 * 32) by lia; apply Z_mod_plus_full).
    assert ((p + 32) / 32 ≤ p + 32) by (apply Z.div_le_upper_bound; lia).
    rewrite Hi, !(wrap_id 32) by (unfold is_u; pose proof (Z.div_pos (p + 32) 32); lia).
    assert (1 ≤ num / 32) by (apply Z.div_le_lower_bound; lia).
    destruct (IH m1 (p + 32) (num - 32)) as (m2 & H2 & C2);
      [done | lia | done | lia | unfold pages in *; lia | lia | lia |].
    rewrite Hd, Hm in H2. rewrite Hd in C2. exists m2. split.
    + rewrite H2. do 3 f_equal. lia.
    + eapply (claimed_upto_trans map m1 m2 p 32); [lia | by split |].
      replace (32 * (num / 32) - 32) with (32 * (num / 32 - 1)) by lia. done.
  - exists map. rewrite Z.div_small, Z.mod_small by lia. split; [do 3 f_equal; lia |].
    by apply claimed_upto_refl.
Qed.

Lemma claim_loop_spec fuel map p num :
  wf map → 0 ≤ p → 0 ≤ num → p + num ≤ pages map → p + num < 2 ^ 32 →
  (Z.to_nat num < fuel)%nat →
  ∃ map', claim_loop fuel p num map = Ret map' ∧ claimed_upto map map' p num.
Proof.
  revert map p num. induction fuel as [| fuel IH]; intros map p num W Hp Hn Hb Ho Hf; [lia |].
  cbn [claim_loop]. destruct (Z.ltb_spec 0 num) as [Hpos | Hz].
  2:{ exists map. split; [done |]. apply claimed_upto_refl; [done | lia]. }
  rewrite land_31, shiftr_5.
  destruct (Z.eqb_spec (p mod 32) 0) as [Hal | _], (Z.ltb_spec 31 num) as [Hgt | _]; simpl.
  1:{ pose proof (Z.div_mod num 32). pose proof (Z.mod_pos_bound num 32 eq_refl).
      assert (1 ≤ num / 32) by (apply Z.div_le_lower_bound; lia).
      destruct (claim_words_spec (S fuel) map p num) as (m1 & Hm1 & C1); [done.. | lia |].
      cbn [claim_words] in Hm1 |- *. rewrite Hm1. cbn [mbind outcome_bind].
      destruct (IH m1 (p + 32 * (num / 32)) (num mod 32)) as (m2 & H2 & C2).
      1-6: unfold pages in *; destruct C1 as (? & L1 & ?); rewrite ?L1; (done || lia).
      exists m2. split; [done |].
      eapply claimed_upto_trans; [| apply C1 |]; [lia |].
      by replace (num - 32 * (num / 32)) with (num mod 32) by lia. }
  all: destruct (claim_spec map p) as (m1 & H1 & W1 & L1 & B1); [done | lia |].
  all: unfold claim in H1; rewrite land_31, shiftr_5 in H1.
  all: destruct (rd map (p / 32)) as [w | | |] eqn:Hrd; simplify_eq/=.
  all: rewrite H1; simpl; rewrite !(wrap_id 32) by (unfold is_u; lia).
  all: destruct (IH m1 (p + 1) (num - 1)) as (m2 & H2 & C2);
    [done | lia | lia | unfold pages in *; rewrite ?L1; lia | lia | lia |].
  all: exists m2; split; [done |].
  all: eapply (claimed_upto_trans map m1 m2 p 1); [lia | by apply claimed_upto_1 | done].
Qed.

(** The ranged claim written page by page, as the reference. *)
Fixpoint claim_each (n : nat) (p : Z) (map : list Z) : outcome (list Z) :=
  match n with
  | O => Ret map
  | S n => map ← claim p map; claim_each n (p + 1) map
  end.

Lemma claim_each_spec n map p :
  wf map → 0 ≤ p → p + Z.of_nat n ≤ pages map →
  ∃ map', claim_each n p map = Ret map' ∧ claimed_upto map map' p (Z.of_nat n).
Proof.
  revert map p. induction n as [| n IH]; intros map p W Hp Hb; cbn [claim_each].
  - exists map. split; [done |]. by apply claimed_upto_refl.
  - destruct (claim_spec map p) as (m1 & H1 & W1 & L1 & B1); [done | lia |].
    rewrite H1. simpl. unfold pages in *.
    destruct (IH m1 (p + 1)) as (m2 & H2 & C2); [done | lia | rewrite L1; lia |].
    exists m2. split; [done |].
    apply (claimed_upto_trans map m1 m2 p 1); [lia | by apply claimed_upto_1 |].
    by replace (Z.of_nat (S n) - 1) with (Z.of_nat n) by lia.
Qed.

(** C34: the word-at-a-time claim of a range of pages returns, and leaves the
    same map as claiming the pages of the range one after the other. *)
Theorem claim_range_is_claim_each (map : list Z) (p num : Z) :
  wf map → 0 ≤ p → 0 ≤ num → p + num ≤ pages map → p + num < 2 ^ 32 →
  ∃ map', claim_range p num map = Ret map' ∧ claim_each (Z.to_nat num) p map = Ret map'.
Proof.
  intros W Hp Hn Hb Ho. unfold claim_range.
  destruct (claim_loop_spec (S (Z.to_nat num)) map p num) as (m1 & H1 & W1 & L1 & B1);
    [done.. | lia |].
  destruct (claim_each_spec (Z.to_nat num) map p) as (m2 & H2 & W2 & L2 & B2); [done | done | lia |].
  rewrite Z2Nat.id in B2 by done. exists m1. split; [done |]. rewrite H2. f_equal.
  apply map_ext; [done | done | congruence |]. intros q Hq. rewrite B1, B2 by lia. done.
Qed.

Lemma init_wf : wf init.
Proof. apply Forall_replicate. split; vm_compute; congruence. Qed.

Lemma claim_range_is_claim_each_witness :
  ∃ map', claim_range 5 100 init = Ret map' ∧ claim_each 100 5 init = Ret map'.
Proof.
  apply (claim_range_is_claim_each init 5 100); [apply init_wf | lia | lia | |].
  - by vm_compute.
  - by vm_compute.
Defined.

End PhyspageMap.

(** ** class physpagemap_managed *)

(** The virtual methods of the class. *)
Class PhyspageMapManaged (M : Type) := {
  pm_claim : Z → M → outcome M;
  pm_claim_range : Z → Z → M → outcome M;
  pm_release : Z → M → outcome M;
  pm_claimed : Z → M → outcome bool;
  pm_base : M → Z;
  pm_max : M → Z;
}.

(** What a physical page map promises to the page allocator: the pages
    [base, max) are tracked, every other page counts as used, and claiming and
    releasing changes the pages named and no other. *)
Class PhyspageMapLaws (M : Type) `{PhyspageMapManaged M} := {
  pm_wf : M → Prop;
  pm_used : M → Z → bool;
  pm_bounds : ∀ m, pm_wf m → 0 ≤ pm_base m ≤ pm_max m ∧ pm_max m < 2 ^ 32;
  pm_outside : ∀ m p, pm_wf m → ¬ (pm_base m ≤ p < pm_max m) → pm_used m p = true;
  pm_claimed_law : ∀ m p, pm_wf m → is_u 32 p → pm_claimed p m = Ret (pm_used m p);
  pm_claim_law : ∀ m p, pm_wf m → is_u 32 p →
    ∃ m', pm_claim p m = Ret m' ∧ pm_wf m' ∧ pm_base m' = pm_base m ∧ pm_max m' = pm_max m ∧
      ∀ q, is_u 32 q → pm_used m' q = pm_used m q || (q =? p);
  pm_claim_range_law : ∀ m p num, pm_wf m → is_u 32 p → is_u 32 num →
    ∃ m', pm_claim_range p num m = Ret m' ∧ pm_wf m' ∧
      pm_base m' = pm_base m ∧ pm_max m' = pm_max m ∧
      ∀ q, is_u 32 q → pm_used m' q = pm_used m q || PhyspageMap.in_range p num q;
  pm_release_law : ∀ m p, pm_wf m → is_u 32 p →
    ∃ m', pm_release p m = Ret m' ∧ pm_wf m' ∧ pm_base m' = pm_base m ∧ pm_max m' = pm_max m ∧
      ∀ q, is_u 32 q → pm_base m ≤ q < pm_max m → pm_used m' q = pm_used m q && negb (q =? p);
}.

(** The bodies of the methods of [simple_physpagemap_managed], in terms of the
    virtual [max()], which the extendable class overrides. *)
Module Managed.
Section Managed.
Variables (map : list Z) (base_addr max : Z).

Definition managed_claim (pageaddr : Z) : outcome (list Z) :=
  if max <=? pageaddr then Ret map
  else if pageaddr <? base_addr then Ret map
  else PhyspageMap.claim (u32 (pageaddr - base_addr)) map.

(** The range a ranged managed_claim passes to the bitmap, or [None] on its early
    returns. *)
Definition clip (pageaddr num : Z) : option (Z * Z) :=
  if max <=? pageaddr then None
  else
    '(pageaddr, num) ←
      (if base_addr <=? pageaddr then Some (u32 (pageaddr - base_addr), num)
       else
         let diff := u32 (base_addr - pageaddr) in
         if num <=? diff then None else Some (0, u32 (num - diff)));
    let overflmax := u32 (0xFFFFFFFF - pageaddr) in
    let num := if overflmax <? num then overflmax else num in
    let rel_max := u32 (max - base_addr) in
    let num := if rel_max <? u32 (pageaddr + num) then u32 (rel_max - pageaddr) else num in
    Some (pageaddr, num).

Definition managed_claim_range (pageaddr num : Z) : outcome (list Z) :=
  match clip pageaddr num with
  | None => Ret map
  | Some (pageaddr, num) => PhyspageMap.claim_range pageaddr num map
  end.

Definition managed_release (pageaddr : Z) : outcome (list Z) :=
  if max <=? pageaddr then Ret map
  else if pageaddr <? base_addr then Ret map
  else PhyspageMap.release (u32 (pageaddr - base_addr)) map.

Definition managed_claimed (pageaddr : Z) : outcome bool :=
  if max <=? pageaddr then Ret true
  else if pageaddr <? base_addr then Ret true
  else PhyspageMap.claimed (u32 (pageaddr - base_addr)) map.

(** *** What the methods do, for a map large enough for [base, max) *)

Definition wf : Prop :=
  PhyspageMap.wf map ∧ 0 ≤ base_addr ≤ max ∧ max < 2 ^ 32 ∧
  max - base_addr ≤ PhyspageMap.pages map.

Definition tracked (p : Z) : bool := (base_addr <=? p) && (p <? max).

Definition used (p : Z) : bool :=
  if tracked p then PhyspageMap.bit_at map (p - base_addr) else true.

Lemma wf_words : wf → PhyspageMap.wf map.
Proof. by intros [? _]. Qed.

Lemma tracked_spec p : reflect (base_addr ≤ p < max) (tracked p).
Proof.
  apply iff_reflect. unfold tracked. rewrite andb_true_iff, Z.leb_le, Z.ltb_lt. lia.
Qed.

Lemma managed_claimed_spec p : wf → is_u 32 p → managed_claimed p = Ret (used p).
Proof.
  intros (W & Hb & Hm & Hs) [Hp0 Hp]. unfold managed_claimed, used, tracked.
  destruct (Z.leb_spec max p), (Z.ltb_spec p base_addr), (Z.leb_spec base_addr p),
    (Z.ltb_spec p max); simpl; try (done || lia).
  rewrite wrap_id by (unfold is_u; lia). apply PhyspageMap.claimed_spec. lia.
Qed.

End Managed.

(** The outcome of a method that turns the tracked pages' use into [f]. *)
Definition updates (map : list Z) (base_addr max : Z) (r : outcome (list Z)) (f : Z → bool)
    : Prop :=
  ∃ map', r = Ret map' ∧ wf map' base_addr max ∧ length map' = length map ∧
    ∀ q, base_addr ≤ q < max → used map' base_addr max q = f q.

Lemma updates_same map base_addr max f :
  wf map base_addr max →
  (∀ q, base_addr ≤ q < max → used map base_addr max q = f q) →
  updates map base_addr max (Ret map) f.
Proof. intros W Hf. exists map. by split_and!. Qed.

(** An update of the bitmap, read as an update of the tracked pages. *)
Lemma updates_bits map base_addr max map' f :
  wf map base_addr max → PhyspageMap.wf map' → length map' = length map →
  (∀ q, base_addr ≤ q < max → PhyspageMap.bit_at map' (q - base_addr) = f q) →
  updates map base_addr max (Ret map') f.
Proof.
  intros (W & Hb & Hm & Hs) W' L B. exists map'. split; [done |]. split_and!; [| done |].
  - unfold wf, PhyspageMap.pages in *. rewrite L. split_and!; (done || lia).
  - intros q Hq. unfold used. destruct (tracked_spec base_addr max q); [by apply B | lia].
Qed.

Lemma used_tracked map base_addr max q :
  base_addr ≤ q < max →
  used map base_addr max q = PhyspageMap.bit_at map (q - base_addr).
Proof. intros Hq. unfold used. by destruct (tracked_spec base_addr max q). Qed.

Lemma eqb_false_outside base_addr max p q :
  base_addr ≤ q < max → ¬ (base_addr ≤ p < max) → (q =? p) = false.
Proof. intros. apply Z.eqb_neq. lia. Qed.

Lemma eqb_shift p q b : (q - b =? p - b) = (q =? p).
Proof. apply Bool.eq_iff_eq_true. rewrite !Z.eqb_eq. lia. Qed.

Lemma managed_claim_spec map base_addr max p :
  wf map base_addr max → is_u 32 p →
  updates map base_addr max (managed_claim map base_addr max p)
    (fun q => used map base_addr max q || (q =? p)).
Proof.
  intros W0 [Hp0 Hp]. pose proof W0 as (W & Hb & Hm & Hs). unfold managed_claim.
  destruct (Z.leb_spec max p); [| destruct (Z.ltb_spec p base_addr)].
  1,2: apply updates_same; [done |]; intros q Hq.
  1,2: rewrite (eqb_false_outside base_addr max) by lia; by rewrite orb_false_r.
  rewrite wrap_id by (unfold is_u; lia).
  destruct (PhyspageMap.claim_spec map (p - base_addr)) as (m' & -> & W' & L & B);
    [done | lia |].
  apply updates_bits; [done.. |]. intros q Hq.
  by rewrite used_tracked, B, eqb_shift by lia.
Qed.

Lemma managed_release_spec map base_addr max p :
  wf map base_addr max → is_u 32 p →
  updates map base_addr max (managed_release map base_addr max p)
    (fun q => used map base_addr max q && negb (q =? p)).
Proof.
  intros W0 [Hp0 Hp]. pose proof W0 as (W & Hb & Hm & Hs). unfold managed_release.
  destruct (Z.leb_spec max p); [| destruct (Z.ltb_spec p base_addr)].
  1,2: apply updates_same; [done |]; intros q Hq.
  1,2: rewrite (eqb_false_outside base_addr max) by lia; by rewrite andb_true_r.
  rewrite wrap_id by (unfold is_u; lia).
  destruct (PhyspageMap.release_spec map (p - base_addr)) as (m' & -> & W' & L & B);
    [done | lia |].
  apply updates_bits; [done.. |]. intros q Hq.
  by rewrite used_tracked, B, eqb_shift by lia.
Qed.

(** The clipped range lies inside the map and is the tracked part of the
    range asked for. *)
Lemma clip_spec base_addr max p num :
  0 ≤ base_addr ≤ max → max < 2 ^ 32 → is_u 32 p → is_u 32 num →
  match clip base_addr max p num with
  | None => ∀ q, base_addr ≤ q < max → PhyspageMap.in_range p num q = false
  | Some (p', n') => 0 ≤ p' ∧ 0 ≤ n' ∧ p' + n' ≤ max - base_addr ∧
      ∀ q, base_addr ≤ q < max →
        PhyspageMap.in_range p num q = PhyspageMap.in_range p' n' (q - base_addr)
  end.
Proof.
  intros Hb Hm [Hp0 Hp] [Hn0 Hn]. unfold clip, PhyspageMap.in_range.
  destruct (Z.leb_spec max p); [intros q Hq; lia |].
  destruct (Z.leb_spec base_addr p).
  2: rewrite (wrap_id _ (base_addr - p)) by (unfold is_u; lia);
     destruct (Z.leb_spec num (base_addr - p)); [intros q Hq; lia |].
  all: cbn [mbind option_bind]; rewrite ?(wrap_id _ (p - base_addr)) by (unfold is_u; lia).
  all: rewrite ?(wrap_id _ (num - (base_addr - p))) by (unfold is_u; lia).
  all: rewrite (wrap_id _ (0xFFFFFFFF - _)), (wrap_id _ (max - base_addr)) by (unfold is_u; lia).
  all: match goal with |- context [if ?a <? ?b then ?a else ?b] => destruct (Z.ltb_spec a b) end.
  all: rewrite (wrap_id _ (_ + _)) by (unfold is_u; lia).
  all: match goal with |- context [if ?a <? ?b then wrap _ _ else _] =>
         destruct (Z.ltb_spec a b) end.
  all: rewrite ?wrap_id by (unfold is_u; lia).
  all: split_and!; [lia.. |]; intros q Hq; lia.
Qed.

Lemma managed_claim_range_spec map base_addr max p num :
  wf map base_addr max → is_u 32 p → is_u 32 num →
  updates map base_addr max (managed_claim_range map base_addr max p num)
    (fun q => used map base_addr max q || PhyspageMap.in_range p num q).
Proof.
  intros W0 Hp Hn. pose proof W0 as (W & Hb & Hm & Hs). unfold managed_claim_range.
  pose proof (clip_spec base_addr max p num Hb Hm Hp Hn) as Hc.
  destruct (clip base_addr max p num) as [[p' n'] |].
  - destruct Hc as (Hp' & Hn' & Hsum & Hc). unfold PhyspageMap.claim_range.
    destruct (PhyspageMap.claim_loop_spec (S (Z.to_nat n')) map p' n') as (m' & -> & W' & L & B);
      [done | lia..|].
    apply updates_bits; [done.. |]. intros q Hq. by rewrite used_tracked, B, Hc by lia.
  - apply updates_same; [done |]. intros q Hq. by rewrite Hc, orb_false_r.
Qed.

(** The laws of [PhyspageMapLaws] speak of every page: a page outside
    [base, max) counts as used before and after. *)
Lemma used_outside map base_addr max q :
  ¬ (base_addr ≤ q < max) → used map base_addr max q = true.
Proof. intros. unfold used. by destruct (tracked_spec base_addr max q). Qed.

Lemma updates_all map base_addr max r f :
  updates map base_addr max r (fun q => used map base_addr max q || f q) →
  ∃ map', r = Ret map' ∧ PhyspageMap.wf map' ∧ length map' = length map ∧
    ∀ q, used map' base_addr max q = used map base_addr max q || f q.
Proof.
  intros (m' & Hr & [W _] & L & U). exists m'. split_and!; [done.. |]. intros q.
  destruct (decide (base_addr ≤ q < max)); [by rewrite U |]. by rewrite !used_outside.
Qed.

End Managed.

(** ** simple_physpagemap_managed: one page of bitmap *)

Record simple_physpagemap_managed := SimpleMap {
  s_map : list Z;
  s_base_addr : Z;
}.

Module SimpleMap.

Definition simple_max (m : simple_physpagemap_managed) : Z :=
  u32 (PhyspageMap.mappageaddr_to_pageaddr 1 + s_base_addr m).

Definition simple_with_map (m : simple_physpagemap_managed) (map : list Z) :=
  SimpleMap map (s_base_addr m).

(** [simple_set_max] of the simple class has an empty body. *)
Definition simple_set_max (m : simple_physpagemap_managed) (max : Z) := m.

Definition wf (m : simple_physpagemap_managed) : Prop :=
  PhyspageMap.wf (s_map m) ∧ length (s_map m) = Z.to_nat PhyspageMap.map_size ∧
  0 ≤ s_base_addr m ∧ s_base_addr m + 32768 < 2 ^ 32.

Lemma simple_wf_managed m : wf m → Managed.wf (s_map m) (s_base_addr m) (simple_max m).
Proof.
  intros (W & L & Hb & Hm). unfold Managed.wf, simple_max, PhyspageMap.pages.
  rewrite L. change (PhyspageMap.mappageaddr_to_pageaddr 1) with 32768.
  rewrite wrap_id by (unfold is_u; lia).
  change (Z.of_nat (Z.to_nat PhyspageMap.map_size)) with 1024. split_and!; (done || lia).
Qed.

Lemma simple_wf_with_map m map :
  wf m → PhyspageMap.wf map → length map = length (s_map m) → wf (simple_with_map m map).
Proof. intros (W & L & Hb & Hm) W' L'. unfold wf. simpl. rewrite L'. by split_and!. Qed.

End SimpleMap.

#[export] Instance simple_managed : PhyspageMapManaged simple_physpagemap_managed := {|
  pm_claim p m := SimpleMap.simple_with_map m <$> Managed.managed_claim (s_map m) (s_base_addr m) (SimpleMap.simple_max m) p;
  pm_claim_range p num m :=
    SimpleMap.simple_with_map m <$> Managed.managed_claim_range (s_map m) (s_base_addr m) (SimpleMap.simple_max m) p num;
  pm_release p m :=
    SimpleMap.simple_with_map m <$> Managed.managed_release (s_map m) (s_base_addr m) (SimpleMap.simple_max m) p;
  pm_claimed p m := Managed.managed_claimed (s_map m) (s_base_addr m) (SimpleMap.simple_max m) p;
  pm_base := s_base_addr;
  pm_max := SimpleMap.simple_max;
|}.

(** ** extendable_physpagemap_managed: bitmap pages mapped side by side *)

Record extendable_physpagemap_managed := ExtMap {
  e_map : list Z;        (* the words behind the mapped pages, in order *)
  e_base_addr : Z;
  e_size : Z;
  e_phys : list Z;       (* physical address of each bitmap page *)
}.

Module ExtMap.

Definition ext_max (m : extendable_physpagemap_managed) : Z := u32 (e_base_addr m + e_size m).

Definition ext_with_map (m : extendable_physpagemap_managed) (map : list Z) :=
  ExtMap map (e_base_addr m) (e_size m) (e_phys m).

(** The constructor from the boot-time map, whose words it keeps. *)
Definition of_simple (original : simple_physpagemap_managed) (phys : Z) :=
  ExtMap (s_map original) (s_base_addr original)
    (u32 (SimpleMap.simple_max original - s_base_addr original)) [phys].

Definition wf (m : extendable_physpagemap_managed) : Prop :=
  PhyspageMap.wf (e_map m) ∧
  Z.of_nat (length (e_map m)) = 1024 * Z.of_nat (length (e_phys m)) ∧
  0 ≤ e_base_addr m ∧ 0 ≤ e_size m ∧ e_base_addr m + e_size m < 2 ^ 32 ∧
  e_size m ≤ 32768 * Z.of_nat (length (e_phys m)).

Lemma ext_wf_managed m : wf m → Managed.wf (e_map m) (e_base_addr m) (ext_max m).
Proof.
  intros (W & L & Hb & Hs & Hm & Hsz). unfold Managed.wf, ext_max, PhyspageMap.pages.
  rewrite L, wrap_id by (unfold is_u; lia). split_and!; (done || lia).
Qed.

Lemma ext_wf_with_map m map :
  wf m → PhyspageMap.wf map → length map = length (e_map m) → wf (ext_with_map m map).
Proof.
  intros (W & L & Hb & Hs & Hm & Hsz) W' L'. unfold wf. simpl. rewrite L'. by split_and!.
Qed.

End ExtMap.

#[export] Instance extendable_managed : PhyspageMapManaged extendable_physpagemap_managed := {|
  pm_claim p m := ExtMap.ext_with_map m <$> Managed.managed_claim (e_map m) (e_base_addr m) (ExtMap.ext_max m) p;
  pm_claim_range p num m :=
    ExtMap.ext_with_map m <$> Managed.managed_claim_range (e_map m) (e_base_addr m) (ExtMap.ext_max m) p num;
  pm_release p m := ExtMap.ext_with_map m <$> Managed.managed_release (e_map m) (e_base_addr m) (ExtMap.ext_max m) p;
  pm_claimed p m := Managed.managed_claimed (e_map m) (e_base_addr m) (ExtMap.ext_max m) p;
  pm_base := e_base_addr;
  pm_max := ExtMap.ext_max;
|}.

(** The obligations of the two instances: the words change by [upd], and the
    record's invariant carries over. *)
Ltac managed_law wf_with_map upd :=
  simpl; destruct upd as (? & -> & ? & ? & ?); simpl; eexists; split; [reflexivity |];
  split; [apply wf_with_map; (done || by eapply Managed.wf_words) |]; by eauto.

#[export] Program Instance simple_laws : PhyspageMapLaws simple_physpagemap_managed := {|
  pm_wf := SimpleMap.wf;
  pm_used m p := Managed.used (s_map m) (s_base_addr m) (SimpleMap.simple_max m) p;
|}.
Next Obligation. by intros m (W & Hb & Hm & _)%SimpleMap.simple_wf_managed. Qed.
Next Obligation. intros m p W Hp. by apply Managed.used_outside. Qed.
Next Obligation. intros m p W Hp. apply Managed.managed_claimed_spec; [by apply SimpleMap.simple_wf_managed | done]. Qed.
Next Obligation.
  intros m p W Hp.
  managed_law SimpleMap.simple_wf_with_map (Managed.updates_all _ _ _ _ _ (Managed.managed_claim_spec _ _ _ p (SimpleMap.simple_wf_managed m W) Hp)).
Qed.
Next Obligation.
  intros m p num W Hp Hn.
  managed_law SimpleMap.simple_wf_with_map
    (Managed.updates_all _ _ _ _ _ (Managed.managed_claim_range_spec _ _ _ p num (SimpleMap.simple_wf_managed m W) Hp Hn)).
Qed.
Next Obligation.
  intros m p W Hp.
  managed_law SimpleMap.simple_wf_with_map (Managed.managed_release_spec _ _ _ p (SimpleMap.simple_wf_managed m W) Hp).
Qed.

#[export] Program Instance extendable_laws : PhyspageMapLaws extendable_physpagemap_managed := {|
  pm_wf := ExtMap.wf;
  pm_used m p := Managed.used (e_map m) (e_base_addr m) (ExtMap.ext_max m) p;
|}.
Next Obligation. by intros m (W & Hb & Hm & _)%ExtMap.ext_wf_managed. Qed.
Next Obligation. intros m p W Hp. by apply Managed.used_outside. Qed.
Next Obligation. intros m p W Hp. apply Managed.managed_claimed_spec; [by apply ExtMap.ext_wf_managed | done]. Qed.
Next Obligation.
  intros m p W Hp.
  managed_law ExtMap.ext_wf_with_map (Managed.updates_all _ _ _ _ _ (Managed.managed_claim_spec _ _ _ p (ExtMap.ext_wf_managed m W) Hp)).
Qed.
Next Obligation.
  intros m p num W Hp Hn.
  managed_law ExtMap.ext_wf_with_map
    (Managed.updates_all _ _ _ _ _ (Managed.managed_claim_range_spec _ _ _ p num (ExtMap.ext_wf_managed m W) Hp Hn)).
Qed.
Next Obligation.
  intros m p W Hp.
  managed_law ExtMap.ext_wf_with_map (Managed.managed_release_spec _ _ _ p (ExtMap.ext_wf_managed m W) Hp).
Qed.
