(* ===== verification/Ext2Alloc.v ===== *)
(** kernel/blockdevs/filesystems/ext2fs.cpp, ext2fs/ext2struct.h: how the ext2 file system finds and frees
    inodes and blocks, in one bitmap for each block group, with counts of what is free. *)
From S2P Require Import Prelude PhysPageMap.
Import PhyspageMap.

Local Open Scope Z_scope.

(** * The code *)

(** class ext2bitmap: words of 32 bits, and a flag for each block of them. *)
Record ext2bitmap := { bm_words : list Z; bm_dirty : list bool; bm_n : Z; bm_blocksize : Z }.

Definition div_up (a b : Z) : Z := a / b + (if a mod b =? 0 then 0 else 1).

Definition new_ext2bitmap (n blocksize : Z) : ext2bitmap :=
  let sz := div_up n 4 in
  {| bm_words := replicate (Z.to_nat sz) 0xFFFFFFFF;
     bm_dirty := replicate (Z.to_nat (div_up sz blocksize)) false;
     bm_n := n; bm_blocksize := blocksize |}.

(** operator [] and the conversion of ext2bitmap_bit to bool. *)
Definition bm_get (bm : ext2bitmap) (i : Z) : outcome bool :=
  let bit := Z.land i 31 in
  val ← rd (bm_words bm) (Z.shiftr i 5);
  Ret (negb (Z.land val (u32 (Z.shiftl 1 bit)) =? 0)).

(** operator [] and the assignment of ext2bitmap_bit. *)
Definition bm_set (bm : ext2bitmap) (i : Z) (value : bool) : outcome ext2bitmap :=
  let bit := Z.land i 31 in
  let i := Z.shiftr i 5 in
  let block := i / bm_blocksize bm in
  prev ← rd (bm_words bm) i;
  let entry :=
    if value then Z.lor prev (u32 (Z.shiftl 1 bit)) else Z.land prev (not_w 32 (u32 (Z.shiftl 1 bit))) in
  words ← wr (bm_words bm) i entry;
  dirty ← (if value && negb (prev =? entry) then wr (bm_dirty bm) block true else Ret (bm_dirty bm));
  Ret {| bm_words := words; bm_dirty := dirty; bm_n := bm_n bm; bm_blocksize := bm_blocksize bm |}.

(** The inner loop of FindFree: the first clear bit from [b] on. *)
Fixpoint find_bit (k : nat) (b bits : Z) : option Z :=
  match k with
  | O => None
  | S k => if Z.land bits (u32 (Z.shiftl 1 b)) =? 0 then Some b else find_bit k (b + 1) bits
  end.

(** The outer loop, from word [i] on. *)
Fixpoint find_word (words : list Z) (i n : Z) : Z :=
  match words with
  | [] => 0
  | bits :: words =>
      if bits =? 0xFFFFFFFF then find_word words (i + 1) n
      else
        match find_bit 32 0 bits with
        | Some b => if i * 32 + b <? n then i * 32 + b + 1 else 0
        | None => find_word words (i + 1) n
        end
  end.

Definition FindFree (bm : ext2bitmap) : Z := find_word (bm_words bm) 0 (bm_n bm).

(** The counts of ext2fs_group. *)
Record ext2fs_group := { g_freeInodesCount : Z; g_freeBlocksCount : Z; g_dirty : bool }.

(** class ext2fs, what allocation needs of it and of its superblock. *)
Record ext2fs := {
  fs_groups : list ext2fs_group;
  fs_blockBitmap : list ext2bitmap;
  fs_inodeBitmap : list ext2bitmap;
  sb_unallocated_blocks : Z;
  sb_unallocated_inodes : Z;
  sb_blocks_per_group : Z;
  sb_inodes_per_group : Z;
}.

Inductive filesystem_status :=
  | FS_SUCCESS | FS_IO_ERROR | FS_INTEGRITY_ERROR | FS_NOT_SUPPORTED | FS_INVALID_REQUEST
  | FS_NO_AVAIL_INODES | FS_NO_AVAIL_BLOCKS.

(** The loops over the groups: the first group with a positive count and a free bit, and what FindFree
    returned. *)
Fixpoint find_group (counts : list Z) (bitmaps : list ext2bitmap) (i : Z) : option (Z * Z) :=
  match counts, bitmaps with
  | count :: counts, bm :: bitmaps =>
      if count <=? 0 then find_group counts bitmaps (i + 1)
      else if FindFree bm =? 0 then find_group counts bitmaps (i + 1)
      else Some (i, FindFree bm)
  | _, _ => None
  end.

Definition inode_counts (fs : ext2fs) : list Z := g_freeInodesCount <$> fs_groups fs.
Definition block_counts (fs : ext2fs) : list Z := g_freeBlocksCount <$> fs_groups fs.

(** One inode more or less in group [i], whose bitmap is now [bm]. *)
Definition update_inodes (i delta : Z) (bm : ext2bitmap) (fs : ext2fs) : outcome ext2fs :=
  g ← rd (fs_groups fs) i;
  groups ← wr (fs_groups fs) i
    {| g_freeInodesCount := u32 (g_freeInodesCount g + delta); g_freeBlocksCount := g_freeBlocksCount g; g_dirty := true |};
  bitmaps ← wr (fs_inodeBitmap fs) i bm;
  Ret {| fs_groups := groups; fs_blockBitmap := fs_blockBitmap fs; fs_inodeBitmap := bitmaps;
         sb_unallocated_blocks := sb_unallocated_blocks fs;
         sb_unallocated_inodes := u32 (sb_unallocated_inodes fs + delta);
         sb_blocks_per_group := sb_blocks_per_group fs; sb_inodes_per_group := sb_inodes_per_group fs |}.

Definition update_blocks (i delta : Z) (bm : ext2bitmap) (fs : ext2fs) : outcome ext2fs :=
  g ← rd (fs_groups fs) i;
  groups ← wr (fs_groups fs) i
    {| g_freeInodesCount := g_freeInodesCount g; g_freeBlocksCount := u32 (g_freeBlocksCount g + delta); g_dirty := true |};
  bitmaps ← wr (fs_blockBitmap fs) i bm;
  Ret {| fs_groups := groups; fs_blockBitmap := bitmaps; fs_inodeBitmap := fs_inodeBitmap fs;
         sb_unallocated_blocks := u32 (sb_unallocated_blocks fs + delta);
         sb_unallocated_inodes := sb_unallocated_inodes fs;
         sb_blocks_per_group := sb_blocks_per_group fs; sb_inodes_per_group := sb_inodes_per_group fs |}.

(** AllocateInode up to the call of GetInode: the number of the inode. *)
Definition AllocateInode (fs : ext2fs) : outcome (ext2fs * (filesystem_status + Z)) :=
  if sb_unallocated_inodes fs <=? 0 then Ret (fs, inl FS_NO_AVAIL_INODES)
  else
    match find_group (inode_counts fs) (fs_inodeBitmap fs) 0 with
    | None => Ret (fs, inl FS_NO_AVAIL_INODES)
    | Some (i, inodeNum) =>
        bm ← rd (fs_inodeBitmap fs) i;
        bm' ← bm_set bm (inodeNum - 1) true;
        fs' ← update_inodes i (-1) bm' fs;
        Ret (fs', inr (inodeNum + i * sb_inodes_per_group fs))
    end.

Definition ReleaseInode (inodeNum : Z) (fs : ext2fs) : outcome (ext2fs * filesystem_status) :=
  if inodeNum <=? 0 then Ret (fs, FS_INVALID_REQUEST)
  else
    let inodeNum := inodeNum - 1 in
    let groupNum := inodeNum / sb_inodes_per_group fs in
    let inodeNum := inodeNum mod sb_inodes_per_group fs in
    if (Z.of_nat (length (fs_inodeBitmap fs)) <=? groupNum) || (Z.of_nat (length (fs_groups fs)) <=? groupNum)
    then Ret (fs, FS_INVALID_REQUEST)
    else
      bm ← rd (fs_inodeBitmap fs) groupNum;
      used ← bm_get bm inodeNum;
      if negb used then Ret (fs, FS_INVALID_REQUEST)
      else
        bm' ← bm_set bm inodeNum false;
        fs' ← update_inodes groupNum 1 bm' fs;
        Ret (fs', FS_SUCCESS).

(** The loop of AllocateBlocks that takes the blocks after the first. *)
Fixpoint more_blocks (fuel : nat) (i block count requested : Z) (fs : ext2fs) : outcome (ext2fs * Z) :=
  match fuel with
  | O => OutOfFuel
  | S fuel =>
      if 0 <? requested then
        g ← rd (fs_groups fs) i;
        if (sb_unallocated_blocks fs <=? 0) || (g_freeBlocksCount g <=? 0) then Ret (fs, count)
        else
          let block := block + 1 in
          let blockIndex := if i =? 0 then block - 1 else block in
          if sb_blocks_per_group fs <=? block then Ret (fs, count)
          else
            bm ← rd (fs_blockBitmap fs) i;
            used ← bm_get bm blockIndex;
            if used : bool then Ret (fs, count)
            else
              bm' ← bm_set bm blockIndex true;
              fs' ← update_blocks i (-1) bm' fs;
              more_blocks fuel i block (count + 1) (requested - 1) fs'
      else Ret (fs, count)
  end.

(** AllocateBlocks: the first block and their number. *)
Definition AllocateBlocks (requestedCount : Z) (fs : ext2fs) : outcome (ext2fs * (filesystem_status + Z * Z)) :=
  if requestedCount <=? 0 then Ret (fs, inr (0, 0))
  else if sb_unallocated_blocks fs <=? 0 then Ret (fs, inl FS_NO_AVAIL_BLOCKS)
  else
    match find_group (block_counts fs) (fs_blockBitmap fs) 0 with
    | None => Ret (fs, inl FS_NO_AVAIL_BLOCKS)
    | Some (i, found) =>
        let block := if i =? 0 then found else found - 1 in
        let blockIndex := found - 1 in
        bm ← rd (fs_blockBitmap fs) i;
        bm' ← bm_set bm blockIndex true;
        fs' ← update_blocks i (-1) bm' fs;
        r ← more_blocks (S (Z.to_nat requestedCount)) i block 1 (requestedCount - 1) fs';
        Ret (r.1, inr (u32 (sb_blocks_per_group fs * i) + block, r.2))
    end.

Definition ReleaseBlock (blknum : Z) (fs : ext2fs) : outcome (ext2fs * filesystem_status) :=
  if blknum <? 1 then Ret (fs, FS_INTEGRITY_ERROR)
  else
    let group := blknum / sb_blocks_per_group fs in
    let blk := blknum mod sb_blocks_per_group fs in
    if Z.of_nat (length (fs_blockBitmap fs)) <=? group then Ret (fs, FS_INTEGRITY_ERROR)
    else
      let blk := if group =? 0 then u32 (blk - 1) else blk in
      bm ← rd (fs_blockBitmap fs) group;
      bm' ← bm_set bm blk false;
      fs' ← update_blocks group 1 bm' fs;
      Ret (fs', FS_SUCCESS).

(** * The search finds the first clear bit *)

Lemma bit_at_cons w ws j :
  0 ≤ j → bit_at (w :: ws) j = if j <? 32 then Z.testbit w j else bit_at ws (j - 32).
Proof.
  intros Hj. unfold bit_at. destruct (Z.ltb_spec j 32).
  - rewrite Z.div_small, Z.mod_small by lia. done.
  - assert (j / 32 = 1 + (j - 32) / 32) as ->.
    { replace j with (j - 32 + 1 * 32) at 1 by lia. rewrite Z.div_add by lia. lia. }
    assert (0 ≤ (j - 32) / 32) by (apply Z.div_pos; lia).
    rewrite Z2Nat.inj_add by lia. simpl.
    replace (j mod 32) with ((j - 32) mod 32); [done |].
    replace j with (j - 32 + 1 * 32) at 2 by lia. by rewrite Z.mod_add.
Qed.

Lemma one_bit b : 0 ≤ b < 32 → u32 (Z.shiftl 1 b) = Z.shiftl 1 b.
Proof. intros. rewrite <- (Z.mod_small b 32) by lia. apply wrap_id, mask_range. Qed.

Lemma find_bit_spec k b bits :
  0 ≤ b → b + Z.of_nat k = 32 →
  match find_bit k b bits with
  | Some c => b ≤ c < 32 ∧ Z.testbit bits c = false ∧ ∀ j, b ≤ j < c → Z.testbit bits j = true
  | None => ∀ j, b ≤ j < 32 → Z.testbit bits j = true
  end.
Proof.
  revert b. induction k as [| k IH]; intros b Hb Hk; simpl; [intros; lia |].
  rewrite one_bit, land_shl1_eqb by lia. destruct (Z.testbit bits b) eqn:E; simpl.
  - specialize (IH (b + 1) ltac:(lia) ltac:(lia)). destruct (find_bit k (b + 1) bits) as [c |].
    + destruct IH as (Hc & Hcf & Hall). split; [lia |]. split; [done |].
      intros j Hj. destruct (decide (j = b)) as [-> |]; [done | apply Hall; lia].
    + intros j Hj. destruct (decide (j = b)) as [-> |]; [done | apply IH; lia].
  - split; [lia |]. split; [done | intros; lia].
Qed.

(** What a search for a clear bit among the first [n] returns. *)
Definition found_free (words : list Z) (n r : Z) : Prop :=
  (r = 0 ∧ ∀ j, 0 ≤ j < n → j < pages words → bit_at words j = true) ∨
  (∃ i, r = i + 1 ∧ 0 ≤ i < n ∧ i < pages words ∧ bit_at words i = false ∧ ∀ j, 0 ≤ j < i → bit_at words j = true).

Lemma find_word_spec words i n :
  0 ≤ i →
  (find_word words i n = 0 ∧ ∀ j, 0 ≤ j < pages words → 32 * i + j < n → bit_at words j = true) ∨
  (∃ j, find_word words i n = 32 * i + j + 1 ∧ 0 ≤ j < pages words ∧ 32 * i + j < n ∧
    bit_at words j = false ∧ ∀ j', 0 ≤ j' < j → bit_at words j' = true).
Proof.
  revert i. induction words as [| w words IH]; intros i Hi; cbn [find_word].
  { left. split; [done |]. unfold pages. simpl. intros; lia. }
  assert (pages (w :: words) = pages words + 32) as Hp by (unfold pages; simpl; lia). rewrite Hp.
  assert ((∀ j, 0 ≤ j < 32 → Z.testbit w j = true) →
    (find_word words (i + 1) n = 0 ∧ ∀ j, 0 ≤ j < pages words + 32 → 32 * i + j < n → bit_at (w :: words) j = true) ∨
    (∃ j, find_word words (i + 1) n = 32 * i + j + 1 ∧ 0 ≤ j < pages words + 32 ∧ 32 * i + j < n ∧
      bit_at (w :: words) j = false ∧ ∀ j', 0 ≤ j' < j → bit_at (w :: words) j' = true)) as Hnext.
  { intros Hw. destruct (IH (i + 1) ltac:(lia)) as [[-> Hall] | (j & -> & Hj & Hn & Hf & Hall)].
    - left. split; [done |]. intros j Hj Hn. rewrite bit_at_cons by lia. destruct (Z.ltb_spec j 32); [apply Hw; lia |].
      apply Hall; lia.
    - right. exists (j + 32). split_and!; [lia.. | |].
      + rewrite bit_at_cons by lia. destruct (Z.ltb_spec (j + 32) 32); [lia |]. by rewrite Z.add_simpl_r.
      + intros j' Hj'. rewrite bit_at_cons by lia. destruct (Z.ltb_spec j' 32); [apply Hw; lia | apply Hall; lia]. }
  destruct (Z.eqb_spec w 0xFFFFFFFF) as [-> | Hne].
  { apply Hnext. intros j Hj. change 0xFFFFFFFF with (Z.ones 32). apply Z.ones_spec_low. lia. }
  pose proof (find_bit_spec 32 0 w ltac:(lia) ltac:(lia)) as Hfb.
  destruct (find_bit 32 0 w) as [b |]; [| by apply Hnext]. destruct Hfb as (Hb & Hbf & Hall).
  destruct (Z.ltb_spec (i * 32 + b) n).
  - right. exists b. assert (0 ≤ pages words) by (unfold pages; lia). split_and!; [lia.. | |].
    + rewrite bit_at_cons by lia. by destruct (Z.ltb_spec b 32); [| lia].
    + intros j Hj. rewrite bit_at_cons by lia. destruct (Z.ltb_spec j 32); [apply Hall; lia | lia].
  - left. split; [done |]. intros j Hj Hn. rewrite bit_at_cons by lia.
    destruct (Z.ltb_spec j 32); [apply Hall; lia | lia].
Qed.

Lemma FindFree_spec bm : found_free (bm_words bm) (bm_n bm) (FindFree bm).
Proof.
  destruct (find_word_spec (bm_words bm) 0 (bm_n bm) ltac:(lia)) as [[E H] | (j & E & Hj & Hn & Hf & H)].
  - left. split; [done |]. intros. apply H; lia.
  - right. exists j. unfold FindFree. split_and!; (done || lia).
Qed.

(** * Setting and clearing a bit *)

(** The words cover the bits, and each has a dirty flag. *)
Definition bm_ok (bm : ext2bitmap) : Prop :=
  wf (bm_words bm) ∧ 0 ≤ bm_n bm ≤ pages (bm_words bm) ∧ 0 < bm_blocksize bm ∧
  Z.of_nat (length (bm_words bm)) ≤ bm_blocksize bm * Z.of_nat (length (bm_dirty bm)).

Definition bm_bit (bm : ext2bitmap) (i : Z) : bool := bit_at (bm_words bm) i.

Lemma bm_get_spec bm i : bm_ok bm → 0 ≤ i < bm_n bm → bm_get bm i = Ret (bm_bit bm i).
Proof. intros (_ & Hn & _) Hi. apply claimed_spec. lia. Qed.

Lemma bm_set_spec bm i v :
  bm_ok bm → 0 ≤ i < bm_n bm →
  ∃ bm', bm_set bm i v = Ret bm' ∧ bm_ok bm' ∧ bm_n bm' = bm_n bm ∧
    ∀ j, 0 ≤ j → bm_bit bm' j = if j =? i then v else bm_bit bm j.
Proof.
  intros (Hw & Hn & Hb & Hd) Hi.
  assert (∃ words, (if v then claim i (bm_words bm) else release i (bm_words bm)) = Ret words ∧
    wf words ∧ length words = length (bm_words bm) ∧
    ∀ j, 0 ≤ j → bit_at words j = if j =? i then v else bit_at (bm_words bm) j) as (words & E & Hw' & Hl & Hbits).
  { destruct v.
    - destruct (claim_spec (bm_words bm) i Hw ltac:(lia)) as (words & ? & ? & ? & H). exists words.
      split_and!; [done.. |]. intros j Hj. rewrite H by done. destruct (j =? i); [by rewrite orb_true_r | by rewrite orb_false_r].
    - destruct (release_spec (bm_words bm) i Hw ltac:(lia)) as (words & ? & ? & ? & H). exists words.
      split_and!; [done.. |]. intros j Hj. rewrite H by done. destruct (j =? i); [by rewrite andb_false_r | by rewrite andb_true_r]. }
  unfold bm_set. cbn zeta. unfold claim, release in E. cbn zeta in E. rewrite land_31, shiftr_5 in *.
  destruct (rd_word (bm_words bm) i ltac:(lia)) as (w & Hrd & Hw0). rewrite Hrd in *. cbn [mbind outcome_bind] in *.
  set (entry := if v then _ else _). assert (wr (bm_words bm) (i / 32) entry = Ret words) as -> by (subst entry; by destruct v).
  cbn [mbind outcome_bind].
  assert (∃ dirty, (if v && negb (w =? entry) then wr (bm_dirty bm) (i / 32 / bm_blocksize bm) true else Ret (bm_dirty bm)) = Ret dirty ∧
    length dirty = length (bm_dirty bm)) as (dirty & -> & Hdl).
  { destruct (v && _); [| eauto]. exists (<[Z.to_nat (i / 32 / bm_blocksize bm) := true]> (bm_dirty bm)).
    rewrite length_insert. split; [| done]. apply lookup_lt_Some in Hw0. apply wr_lt.
    assert (0 ≤ i / 32) by (apply Z.div_pos; lia).
    split; [apply Z.div_pos; lia | apply Z.div_lt_upper_bound; lia]. }
  cbn [mbind outcome_bind]. eexists. split; [done |]. split; [| done].
  unfold bm_ok, pages in *. simpl. rewrite Hl, Hdl. done.
Qed.

(** * Counts *)

Lemma filter_iff_in {A} (P Q : A → Prop) `{∀ x, Decision (P x)} `{∀ x, Decision (Q x)} (l : list A) :
  (∀ x, x ∈ l → P x ↔ Q x) → filter P l = filter Q l.
Proof.
  induction l as [| x l IH]; intros Heq; [done |].
  specialize (IH (λ y Hy, Heq y (list_elem_of_further _ _ _ Hy))).
  pose proof (Heq x (list_elem_of_here x l)) as Hxx. destruct (decide (P x)) as [Hx | Hx].
  - rewrite !filter_cons_True by tauto. by rewrite IH.
  - rewrite !filter_cons_False by tauto. done.
Qed.

Lemma count_change `{EqDecision A} (P Q : A → Prop) `{∀ x, Decision (P x)} `{∀ x, Decision (Q x)} (l : list A) p :
  NoDup l → p ∈ l → P p → ¬ Q p → (∀ x, x ≠ p → P x ↔ Q x) → length (filter P l) = S (length (filter Q l)).
Proof.
  intros Hnd Hp HP HQ Heq. induction Hnd as [| x l Hx Hnd IH]; [by apply elem_of_nil in Hp |].
  destruct (decide (x = p)) as [-> | Hne].
  - rewrite filter_cons_True, filter_cons_False by done. simpl. do 2 f_equal.
    apply filter_iff_in. intros y Hy. apply Heq. by intros ->.
  - apply elem_of_cons in Hp as [-> | Hp]; [done |]. specialize (IH Hp).
    destruct (decide (P x)).
    + rewrite !filter_cons_True by (done || by apply Heq). simpl. by rewrite IH.
    + rewrite !filter_cons_False by (done || by rewrite <- Heq). done.
Qed.

Definition free_bits (bm : ext2bitmap) : Z :=
  Z.of_nat (length (filter (λ j, bm_bit bm j = false) (seqZ 0 (bm_n bm)))).

Lemma free_bits_change bm bm' i v :
  0 ≤ i < bm_n bm → bm_n bm' = bm_n bm → bm_bit bm i = negb v →
  (∀ j, 0 ≤ j → bm_bit bm' j = if j =? i then v else bm_bit bm j) →
  free_bits bm' = free_bits bm + (if v then -1 else 1).
Proof.
  intros Hi Hn Hb Hbits. unfold free_bits. rewrite Hn.
  assert (Hin : i ∈ seqZ 0 (bm_n bm)) by (apply elem_of_seqZ; lia).
  pose proof (NoDup_seqZ 0 (bm_n bm)) as Hnd.
  set (clear b := λ j, bm_bit b j = false ∧ 0 ≤ j).
  assert (∀ b, filter (λ j, bm_bit b j = false) (seqZ 0 (bm_n bm)) = filter (clear b) (seqZ 0 (bm_n bm))) as Hf.
  { intros b. apply filter_iff_in. intros j Hj%elem_of_seqZ. unfold clear. split; [split; [done | lia] | tauto]. }
  rewrite !Hf. assert (bm_bit bm' i = v) as Hi' by (rewrite Hbits, Z.eqb_refl by lia; done).
  assert (∀ x, x ≠ i → clear bm x ↔ clear bm' x) as Hsame.
  { intros x Hx. unfold clear. destruct (decide (0 ≤ x)); [| tauto]. rewrite Hbits by done.
    by rewrite (proj2 (Z.eqb_neq x i)). }
  destruct v.
  - rewrite (count_change (clear bm) (clear bm') _ i); [lia | done | done | | |].
    + split; [done | lia].
    + intros [H _]. congruence.
    + done.
  - rewrite (count_change (clear bm') (clear bm) _ i); [lia | done | done | | |].
    + split; [done | lia].
    + intros [H _]. rewrite Hb in H. done.
    + intros x Hx. symmetry. by apply Hsame.
Qed.

Lemma free_bits_none bm : free_bits bm = 0 ↔ ∀ j, 0 ≤ j < bm_n bm → bm_bit bm j = true.
Proof.
  unfold free_bits. split.
  - intros H j Hj. destruct (bm_bit bm j) eqn:E; [done |]. exfalso.
    assert (j ∈ filter (λ j, bm_bit bm j = false) (seqZ 0 (bm_n bm))) as Hin
      by (apply list_elem_of_filter; split; [done | apply elem_of_seqZ; lia]).
    destruct (filter _ _); [by apply elem_of_nil in Hin | simpl in H; lia].
  - intros H. destruct (filter (λ j, bm_bit bm j = false) (seqZ 0 (bm_n bm))) as [| j l] eqn:E; [done |]. exfalso.
    assert (j ∈ filter (λ j, bm_bit bm j = false) (seqZ 0 (bm_n bm))) as Hin by (rewrite E; apply list_elem_of_here).
    apply list_elem_of_filter in Hin as [Hj Hr%elem_of_seqZ]. rewrite H in Hj by lia. done.
Qed.

(** ** A bitmap and a count for each group *)

Definition sum (l : list Z) : Z := foldr Z.add 0 l.

Definition pool_ok (counts : list Z) (bitmaps : list ext2bitmap) (per total : Z) : Prop :=
  Forall2 (λ c bm, bm_ok bm ∧ bm_n bm = per ∧ c = free_bits bm) counts bitmaps ∧
  total = sum counts ∧ per * Z.of_nat (length bitmaps) < 2 ^ 32 ∧ 0 < per.

Lemma sum_insert l k c c' : l !! k = Some c → sum (<[k := c']> l) = sum l + c' - c.
Proof.
  revert k. induction l as [| x l IH]; intros [| k]; simpl; [done.. | |].
  - intros [= ->]. lia.
  - intros H. rewrite (IH k H). lia.
Qed.

Lemma free_bits_nonneg bm : 0 ≤ free_bits bm.
Proof. unfold free_bits. lia. Qed.

Lemma free_bits_le bm : 0 ≤ bm_n bm → free_bits bm ≤ bm_n bm.
Proof.
  intros Hn. unfold free_bits. pose proof (length_filter (λ j, bm_bit bm j = false) (seqZ 0 (bm_n bm))) as H.
  rewrite length_seqZ in H. lia.
Qed.

(** Counts that agree with their bitmaps have a sum in range. *)
Lemma counts_sum counts bitmaps per :
  Forall2 (λ c bm, bm_ok bm ∧ bm_n bm = per ∧ c = free_bits bm) counts bitmaps →
  0 ≤ sum counts ≤ per * Z.of_nat (length bitmaps) ∧ Forall (λ c, 0 ≤ c ≤ sum counts) counts.
Proof.
  induction 1 as [| c bm cs bms (Hok & Hn & ->) _ [IH1 IH2]]; [split; [simpl; lia | constructor] |].
  destruct Hok as (_ & Hr & _). pose proof (free_bits_le bm ltac:(lia)). pose proof (free_bits_nonneg bm).
  assert (sum (free_bits bm :: cs) = free_bits bm + sum cs) as E by done. rewrite E. cbn [length].
  split; [lia |]. constructor; [lia |]. eapply Forall_impl; [exact IH2 |]. simpl. intros; lia.
Qed.

Lemma pool_lookup counts bitmaps per total k bm :
  pool_ok counts bitmaps per total → bitmaps !! k = Some bm →
  bm_ok bm ∧ bm_n bm = per ∧ counts !! k = Some (free_bits bm).
Proof.
  intros (Hf & _) Hk. destruct (Forall2_lookup_r _ _ _ _ _ Hf Hk) as (c & Hc & Hok & Hn & ->). done.
Qed.

(** One bit of the bitmap of group [k] becomes [v]. *)
Lemma pool_update counts bitmaps per total k bm bm' i v :
  pool_ok counts bitmaps per total → bitmaps !! k = Some bm → 0 ≤ i < per → bm_bit bm i = negb v →
  bm_ok bm' → bm_n bm' = bm_n bm → (∀ j, 0 ≤ j → bm_bit bm' j = if j =? i then v else bm_bit bm j) →
  let delta := if v then -1 else 1 in
  pool_ok (<[k := u32 (free_bits bm + delta)]> counts) (<[k := bm']> bitmaps) per (u32 (total + delta)).
Proof.
  intros Hp Hk Hi Hb Hok' Hn' Hbits delta. destruct (pool_lookup _ _ _ _ _ _ Hp Hk) as (Hok & Hn & Hc).
  destruct Hp as (Hf & -> & Hlim & Hper). rewrite <- Hn in Hi.
  pose proof (free_bits_change bm bm' i v Hi Hn' Hb Hbits) as Hfree. fold delta in Hfree. rewrite <- Hfree.
  assert (Forall2 (λ c bm, bm_ok bm ∧ bm_n bm = per ∧ c = free_bits bm) (<[k := free_bits bm']> counts) (<[k := bm']> bitmaps))
    as Hf' by (apply Forall2_insert; [done | split_and!; (done || congruence)]).
  destruct (counts_sum _ _ _ Hf') as [Hsum Hall]. rewrite length_insert in Hsum.
  rewrite (sum_insert _ _ _ _ Hc) in Hsum.
  assert (u32 (free_bits bm') = free_bits bm') as ->.
  { apply wrap_id. destruct Hok' as (_ & Hr & _). pose proof (free_bits_le bm' ltac:(lia)).
    pose proof (free_bits_nonneg bm'). split; [lia |].
    assert (per ≤ per * Z.of_nat (length bitmaps)) by (apply lookup_lt_Some in Hk; nia). lia. }
  split; [done |]. rewrite length_insert. split; [| done]. rewrite (sum_insert _ _ _ _ Hc).
  rewrite wrap_id by (split; lia). lia.
Qed.

Lemma find_group_spec counts bitmaps i :
  Forall2 (λ c bm, bm_ok bm ∧ c = free_bits bm) counts bitmaps →
  match find_group counts bitmaps i with
  | Some (g, f) => ∃ k bm j, g = i + Z.of_nat k ∧ bitmaps !! k = Some bm ∧ f = j + 1 ∧
      0 ≤ j < bm_n bm ∧ bm_bit bm j = false
  | None => sum counts = 0
  end.
Proof.
  intros Hf. revert i. induction Hf as [| c bm cs bms [Hok ->] _ IH]; intros i; cbn [find_group]; [done |].
  assert (free_bits bm = 0 → match find_group cs bms (i + 1) with
    | Some (g, f) => ∃ k bm' j, g = i + Z.of_nat k ∧ (bm :: bms) !! k = Some bm' ∧ f = j + 1 ∧
        0 ≤ j < bm_n bm' ∧ bm_bit bm' j = false
    | None => sum (free_bits bm :: cs) = 0 end) as Hnext.
  { intros H0. specialize (IH (i + 1)). destruct (find_group cs bms (i + 1)) as [[g f] |].
    - destruct IH as (k & bm' & j & -> & Hk & -> & Hj & Hb). exists (S k), bm', j. split_and!; (done || lia).
    - change (free_bits bm + sum cs = 0). lia. }
  destruct (Z.leb_spec (free_bits bm) 0).
  { apply Hnext. pose proof (free_bits_nonneg bm). lia. }
  destruct (FindFree_spec bm) as [[-> Hall] | (j & -> & Hj & Hp & Hb & _)].
  - apply Hnext, free_bits_none. intros j Hj. destruct Hok as (_ & Hn & _). apply Hall; lia.
  - rewrite (proj2 (Z.eqb_neq _ _)) by lia. exists 0%nat, bm, j. split_and!; (done || lia).
Qed.

(** * Inodes *)

Definition inodes_ok (fs : ext2fs) : Prop :=
  pool_ok (inode_counts fs) (fs_inodeBitmap fs) (sb_inodes_per_group fs) (sb_unallocated_inodes fs).

Definition num_inodes (fs : ext2fs) : Z := sb_inodes_per_group fs * Z.of_nat (length (fs_inodeBitmap fs)).

(** Whether an inode is in use; they are numbered from 1. *)
Definition inode_used (fs : ext2fs) (num : Z) : bool :=
  match fs_inodeBitmap fs !! Z.to_nat ((num - 1) / sb_inodes_per_group fs) with
  | Some bm => bm_bit bm ((num - 1) mod sb_inodes_per_group fs)
  | None => false
  end.

(** What does not concern inodes. *)
Definition same_blocks (fs fs' : ext2fs) : Prop :=
  fs_blockBitmap fs' = fs_blockBitmap fs ∧ sb_unallocated_blocks fs' = sb_unallocated_blocks fs ∧
  block_counts fs' = block_counts fs ∧ sb_blocks_per_group fs' = sb_blocks_per_group fs ∧
  sb_inodes_per_group fs' = sb_inodes_per_group fs ∧ length (fs_inodeBitmap fs') = length (fs_inodeBitmap fs).

Lemma inode_position per k j : 0 < per → 0 ≤ k → 0 ≤ j < per → (k * per + j) / per = k ∧ (k * per + j) mod per = j.
Proof.
  intros. rewrite Z.add_comm, Z.div_add, Z.mod_add, Z.div_small, Z.mod_small by lia. lia.
Qed.

Lemma update_inodes_spec fs k bm bm' j v :
  inodes_ok fs → fs_inodeBitmap fs !! k = Some bm → 0 ≤ j < sb_inodes_per_group fs → bm_bit bm j = negb v →
  bm_ok bm' → bm_n bm' = bm_n bm → (∀ i, 0 ≤ i → bm_bit bm' i = if i =? j then v else bm_bit bm i) →
  ∃ fs', update_inodes (Z.of_nat k) (if v then -1 else 1) bm' fs = Ret fs' ∧ inodes_ok fs' ∧ same_blocks fs fs' ∧
    ∀ m, 1 ≤ m → inode_used fs' m =
      if m =? Z.of_nat k * sb_inodes_per_group fs + j + 1 then v else inode_used fs m.
Proof.
  intros Hin Hk Hj Hb Hok' Hn' Hbits. destruct (pool_lookup _ _ _ _ _ _ Hin Hk) as (Hok & Hn & Hc).
  pose proof (pool_update _ _ _ _ _ _ _ _ _ Hin Hk Hj Hb Hok' Hn' Hbits) as Hp.
  unfold inode_counts in Hc. rewrite list_lookup_fmap in Hc.
  destruct (fs_groups fs !! k) as [g |] eqn:Hg; [| done]. simpl in Hc. injection Hc as Hc.
  assert (0 < sb_inodes_per_group fs) as Hper by apply Hin.
  unfold update_inodes. rewrite (proj2 (rd_Some (fs_groups fs) (Z.of_nat k) g)) by (by rewrite Nat2Z.id). cbn [mbind outcome_bind].
  pose proof (lookup_lt_Some _ _ _ Hg). pose proof (lookup_lt_Some _ _ _ Hk).
  rewrite !wr_lt by lia. cbn [mbind outcome_bind]. rewrite Nat2Z.id. eexists. split; [done |]. split; [| split].
  - unfold inodes_ok, inode_counts in *. cbn [fs_groups fs_inodeBitmap sb_inodes_per_group sb_unallocated_inodes].
    rewrite list_fmap_insert. cbn [g_freeInodesCount]. rewrite Hc. apply Hp.
  - unfold same_blocks, block_counts. simpl. rewrite list_fmap_insert, length_insert. simpl.
    split_and!; try done. apply list_insert_id. rewrite list_lookup_fmap, Hg. done.
  - intros m Hm. unfold inode_used. simpl. set (per := sb_inodes_per_group fs) in *.
    assert (0 ≤ (m - 1) / per) by (apply Z.div_pos; lia).
    pose proof (Z.mod_pos_bound (m - 1) per Hper). pose proof (Z.div_mod (m - 1) per ltac:(lia)) as Hdm.
    destruct (decide (Z.to_nat ((m - 1) / per) = k)) as [<- | Hne].
    + rewrite list_lookup_insert_eq, Hk by done. rewrite Hbits by lia.
      assert (((m - 1) mod per =? j) = (m =? Z.of_nat (Z.to_nat ((m - 1) / per)) * per + j + 1)) as ->; [| done].
      apply Bool.eq_iff_eq_true. rewrite !Z.eqb_eq. nia.
    + rewrite list_lookup_insert_ne by done. rewrite (proj2 (Z.eqb_neq _ _)); [done |]. intros ->.
      replace (Z.of_nat k * per + j + 1 - 1) with (Z.of_nat k * per + j) in Hne by lia.
      destruct (inode_position per (Z.of_nat k) j) as [E _]; [lia.. |]. rewrite E in Hne. lia.
Qed.

(** Nothing free means that everything is used. *)
Lemma pool_full fs :
  inodes_ok fs → sb_unallocated_inodes fs = 0 → ∀ m, 1 ≤ m ≤ num_inodes fs → inode_used fs m = true.
Proof.
  intros Hin H0 m Hm. unfold inode_used, num_inodes in *.
  assert (0 < sb_inodes_per_group fs) as Hper by apply Hin. set (per := sb_inodes_per_group fs) in *.
  assert (0 ≤ (m - 1) / per) by (apply Z.div_pos; lia).
  assert ((m - 1) / per < Z.of_nat (length (fs_inodeBitmap fs))) by (apply Z.div_lt_upper_bound; lia).
  destruct (lookup_lt_is_Some_2 (fs_inodeBitmap fs) (Z.to_nat ((m - 1) / per))) as [bm Hk]; [lia |]. rewrite Hk.
  destruct (pool_lookup _ _ _ _ _ _ Hin Hk) as (Hok & Hn & Hc). destruct Hin as (Hf & Ht & _).
  destruct (counts_sum _ _ _ Hf) as [_ Hall]. rewrite Forall_lookup in Hall. specialize (Hall _ _ Hc).
  apply free_bits_none; [simpl in Hall; lia |]. rewrite Hn. apply Z.mod_pos_bound. lia.
Qed.

Lemma AllocateInode_spec fs :
  inodes_ok fs →
  ∃ fs' r, AllocateInode fs = Ret (fs', r) ∧ inodes_ok fs' ∧ same_blocks fs fs' ∧
    match r with
    | inr num => 1 ≤ num ≤ num_inodes fs ∧ inode_used fs num = false ∧
        ∀ m, 1 ≤ m → inode_used fs' m = (m =? num) || inode_used fs m
    | inl st => st = FS_NO_AVAIL_INODES ∧ fs' = fs ∧ ∀ m, 1 ≤ m ≤ num_inodes fs → inode_used fs m = true
    end.
Proof.
  intros Hin. assert (same_blocks fs fs) as Hrefl by by repeat split.
  assert (Forall2 (λ c bm, bm_ok bm ∧ c = free_bits bm) (inode_counts fs) (fs_inodeBitmap fs)) as Hf
    by (destruct Hin as [Hf _]; eapply Forall2_impl; [exact Hf | naive_solver]).
  destruct (counts_sum _ _ _ (proj1 Hin)) as [Hsum _].
  assert (sb_unallocated_inodes fs = sum (inode_counts fs)) as Htot by apply Hin.
  unfold AllocateInode. destruct (Z.leb_spec (sb_unallocated_inodes fs) 0).
  { eexists _, _. split; [done |]. split_and!; try done. apply pool_full; [done | lia]. }
  pose proof (find_group_spec _ _ 0 Hf) as Hg.
  destruct (find_group (inode_counts fs) (fs_inodeBitmap fs) 0) as [[i f] |]; [| lia].
  destruct Hg as (k & bm & j & -> & Hk & -> & Hj & Hb). rewrite Z.add_0_l.
  destruct (pool_lookup _ _ _ _ _ _ Hin Hk) as (Hok & Hn & Hc).
  rewrite (proj2 (rd_Some (fs_inodeBitmap fs) (Z.of_nat k) bm)) by (by rewrite Nat2Z.id). cbn [mbind outcome_bind].
  destruct (bm_set_spec bm j true Hok Hj) as (bm' & Hset & Hok' & Hn' & Hbits).
  rewrite Z.add_simpl_r, Hset. cbn [mbind outcome_bind].
  destruct (update_inodes_spec fs k bm bm' j true Hin Hk ltac:(lia) Hb Hok' Hn' Hbits) as (fs' & Hu & Hin' & Hsame & Hused).
  rewrite Hu. cbn [mbind outcome_bind]. eexists _, _. split; [done |]. split; [done |]. split; [done |].
  set (per := sb_inodes_per_group fs) in *. pose proof (lookup_lt_Some _ _ _ Hk). assert (0 < per) by apply Hin.
  replace (j + 1 + Z.of_nat k * per) with (Z.of_nat k * per + j + 1) by lia. split_and!.
  - nia.
  - unfold num_inodes. fold per. nia.
  - unfold inode_used. replace (Z.of_nat k * per + j + 1 - 1) with (Z.of_nat k * per + j) by lia. fold per.
    destruct (inode_position per (Z.of_nat k) j) as [-> ->]; [lia.. |]. by rewrite Nat2Z.id, Hk.
  - intros m Hm. rewrite Hused by done. by destruct (m =? _).
Qed.

Lemma ReleaseInode_spec fs num :
  inodes_ok fs →
  ∃ fs' st, ReleaseInode num fs = Ret (fs', st) ∧ inodes_ok fs' ∧ same_blocks fs fs' ∧
    if bool_decide (1 ≤ num) && inode_used fs num
    then st = FS_SUCCESS ∧ ∀ m, 1 ≤ m → inode_used fs' m = negb (m =? num) && inode_used fs m
    else st = FS_INVALID_REQUEST ∧ fs' = fs.
Proof.
  intros Hin. assert (same_blocks fs fs) as Hrefl by by repeat split.
  unfold ReleaseInode. destruct (Z.leb_spec num 0).
  { rewrite bool_decide_false by lia. by eexists _, _. }
  rewrite bool_decide_true by lia. cbn [andb]. assert (0 < sb_inodes_per_group fs) as Hper by apply Hin.
  assert (length (fs_groups fs) = length (fs_inodeBitmap fs)) as Hlen.
  { destruct Hin as [Hf _]. apply Forall2_length in Hf. unfold inode_counts in Hf. by rewrite length_fmap in Hf. }
  unfold inode_used at 1. rewrite Hlen, orb_diag. set (per := sb_inodes_per_group fs) in *.
  assert (0 ≤ (num - 1) / per) by (apply Z.div_pos; lia).
  destruct (Z.leb_spec (Z.of_nat (length (fs_inodeBitmap fs))) ((num - 1) / per)).
  { rewrite lookup_ge_None_2 by lia. by eexists _, _. }
  destruct (lookup_lt_is_Some_2 (fs_inodeBitmap fs) (Z.to_nat ((num - 1) / per))) as [bm Hk]; [lia |]. rewrite Hk.
  rewrite (proj2 (rd_Some _ _ bm)) by done. cbn [mbind outcome_bind].
  destruct (pool_lookup _ _ _ _ _ _ Hin Hk) as (Hok & Hn & Hc). pose proof (Z.mod_pos_bound (num - 1) per Hper) as Hm.
  rewrite bm_get_spec by (done || by rewrite Hn). cbn [mbind outcome_bind].
  destruct (bm_bit bm ((num - 1) mod per)) eqn:Hb; cbn [negb]; [| by eexists _, _].
  destruct (bm_set_spec bm ((num - 1) mod per) false Hok ltac:(by rewrite Hn)) as (bm' & Hset & Hok' & Hn' & Hbits).
  rewrite Hset. cbn [mbind outcome_bind].
  destruct (update_inodes_spec fs _ bm bm' ((num - 1) mod per) false Hin Hk Hm Hb Hok' Hn' Hbits)
    as (fs' & Hu & Hin' & Hsame & Hused).
  rewrite Z2Nat.id in Hu by done. rewrite Hu. cbn [mbind outcome_bind]. eexists _, _. split; [done |]. split_and!; try done.
  intros m Hm1. rewrite Hused by done. rewrite Z2Nat.id by done. fold per.
  replace ((num - 1) / per * per + (num - 1) mod per + 1) with num
    by (pose proof (Z.div_mod (num - 1) per ltac:(lia)); lia).
  by destruct (m =? num).
Qed.

(** ** Inodes as a set *)

Inductive inode_op := InodeAlloc | InodeRelease (num : Z).

Definition inode_result : Type := (filesystem_status + Z) + filesystem_status.

Definition inode_run_op (o : inode_op) (fs : ext2fs) : outcome (ext2fs * inode_result) :=
  match o with
  | InodeAlloc => r ← AllocateInode fs; Ret (r.1, inl r.2)
  | InodeRelease num => r ← ReleaseInode num fs; Ret (r.1, inr r.2)
  end.

Fixpoint inode_run (ops : list inode_op) (fs : ext2fs) : outcome (ext2fs * list inode_result) :=
  match ops with
  | [] => Ret (fs, [])
  | o :: ops => r ← inode_run_op o fs; r' ← inode_run ops r.1; Ret (r'.1, r.2 :: r'.2)
  end.

(** What a file system with the inodes 1 to [n] promises, with the set of those in use. *)
Inductive inode_step (n : Z) : gset Z → inode_op → inode_result → gset Z → Prop :=
  | step_alloc used num : 1 ≤ num ≤ n → num ∉ used → inode_step n used InodeAlloc (inl (inr num)) ({[num]} ∪ used)
  | step_full used : (∀ m, 1 ≤ m ≤ n → m ∈ used) → inode_step n used InodeAlloc (inl (inl FS_NO_AVAIL_INODES)) used
  | step_release used num : num ∈ used → inode_step n used (InodeRelease num) (inr FS_SUCCESS) (used ∖ {[num]})
  | step_invalid used num : num ∉ used → inode_step n used (InodeRelease num) (inr FS_INVALID_REQUEST) used.

Inductive inode_steps (n : Z) : gset Z → list inode_op → list inode_result → gset Z → Prop :=
  | steps_nil used : inode_steps n used [] [] used
  | steps_cons used o r used1 os rs used2 :
      inode_step n used o r used1 → inode_steps n used1 os rs used2 → inode_steps n used (o :: os) (r :: rs) used2.

(** The inodes in use are those of the set. *)
Definition inode_rel (n : Z) (fs : ext2fs) (used : gset Z) : Prop :=
  inodes_ok fs ∧ num_inodes fs = n ∧ ∀ m, m ∈ used ↔ 1 ≤ m ∧ inode_used fs m = true.

Lemma same_blocks_num fs fs' : same_blocks fs fs' → num_inodes fs' = num_inodes fs.
Proof. intros (_ & _ & _ & _ & E1 & E2). unfold num_inodes. by rewrite E1, E2. Qed.

Lemma inode_step_refines n fs used o :
  inode_rel n fs used →
  ∃ fs' r used', inode_run_op o fs = Ret (fs', r) ∧ inode_step n used o r used' ∧ inode_rel n fs' used'.
Proof.
  intros (Hin & Hn & Hrel). destruct o as [| num]; cbn [inode_run_op].
  - destruct (AllocateInode_spec fs Hin) as (fs' & r & -> & Hin' & Hs & Hr). cbn [mbind outcome_bind fst snd].
    pose proof (same_blocks_num _ _ Hs). destruct r as [st | num].
    + destruct Hr as (-> & -> & Hall). eexists _, _, used. split; [done |]. split; [| done].
      constructor. intros m Hm. apply Hrel. split; [lia |]. apply Hall. lia.
    + destruct Hr as (Hnum & Hfree & Hused). eexists _, _, ({[num]} ∪ used). split; [done |]. split.
      * constructor; [lia |]. rewrite Hrel, Hfree. naive_solver.
      * split; [done |]. split; [lia |]. intros m. rewrite elem_of_union, elem_of_singleton, Hrel. split.
        -- intros [-> | [H1 H2]]; (split; [lia |]); rewrite Hused by lia; [by rewrite Z.eqb_refl | by rewrite H2, orb_true_r].
        -- intros [H1 H2]. rewrite Hused in H2 by done. destruct (Z.eqb_spec m num); [by left | by right].
  - destruct (ReleaseInode_spec fs num Hin) as (fs' & st & -> & Hin' & Hs & Hr). cbn [mbind outcome_bind fst snd].
    pose proof (same_blocks_num _ _ Hs). destruct (bool_decide (1 ≤ num) && inode_used fs num) eqn:E.
    + apply andb_prop in E as [E1%bool_decide_eq_true E2]. destruct Hr as [-> Hused].
      eexists _, _, (used ∖ {[num]}). split; [done |]. split; [constructor; by apply Hrel |].
      split; [done |]. split; [lia |]. intros m. rewrite elem_of_difference, elem_of_singleton, Hrel. split.
      * intros [[H1 H2] H3]. split; [done |]. rewrite Hused, H2 by done. by rewrite (proj2 (Z.eqb_neq m num)).
      * intros [H1 H2]. rewrite Hused in H2 by done. apply andb_prop in H2 as [H2 H3].
        destruct (Z.eqb_spec m num); done.
    + destruct Hr as [-> ->]. eexists _, _, used. split; [done |]. split; [| done]. constructor. rewrite Hrel.
      intros [H1 H2]. rewrite bool_decide_true, H2 in E by done. done.
Qed.

(** C21: inodes are given out like elements of a set.  For any sequence of allocations and releases on a file
    system whose counts agree with its bitmaps, every allocation returns an inode that is not in use, or
    fails because all are; a release frees exactly its inode and is refused when that is not in use; the
    counts of the groups and of the superblock agree with the bitmaps at the end.  The calls come one after the
    other, and this is about the bitmaps in memory: what reaches the disk is another matter
    (release_not_dirty). *)
Theorem ext2_inodes_refine n fs used ops :
  inode_rel n fs used →
  ∃ fs' rs used', inode_run ops fs = Ret (fs', rs) ∧ inode_steps n used ops rs used' ∧ inode_rel n fs' used'.
Proof.
  revert fs used. induction ops as [| o ops IH]; intros fs used Hrel.
  - eexists _, _, _. split; [done |]. split; [constructor | done].
  - destruct (inode_step_refines n fs used o Hrel) as (fs1 & r & used1 & E1 & Hs1 & H1).
    destruct (IH fs1 used1 H1) as (fs2 & rs & used2 & E2 & Hs2 & H2). cbn [inode_run]. rewrite E1.
    cbn [mbind outcome_bind fst snd]. rewrite E2. eexists _, _, _. split; [done |]. split; [by econstructor | done].
Qed.

(** Two groups of 32 inodes and blocks; the words of the four bitmaps. *)
Definition example_bitmap (word : Z) : ext2bitmap :=
  {| bm_words := [word]; bm_dirty := [false]; bm_n := 32; bm_blocksize := 1024 |}.

Definition example_fs (inodes0 inodes1 blocks0 blocks1 : Z) : ext2fs :=
  let i0 := example_bitmap inodes0 in let i1 := example_bitmap inodes1 in
  let b0 := example_bitmap blocks0 in let b1 := example_bitmap blocks1 in
  {| fs_groups := [{| g_freeInodesCount := free_bits i0; g_freeBlocksCount := free_bits b0; g_dirty := false |};
                   {| g_freeInodesCount := free_bits i1; g_freeBlocksCount := free_bits b1; g_dirty := false |}];
     fs_blockBitmap := [b0; b1]; fs_inodeBitmap := [i0; i1];
     sb_unallocated_blocks := free_bits b0 + free_bits b1; sb_unallocated_inodes := free_bits i0 + free_bits i1;
     sb_blocks_per_group := 32; sb_inodes_per_group := 32 |}.

Definition used_inodes (fs : ext2fs) : gset Z :=
  list_to_set (filter (λ m, inode_used fs m = true) (seqZ 1 (num_inodes fs))).

(** Inodes 1 to 31 are in use: 32, 33 and 34 come next, and 5 after its release. *)
Lemma ext2_inodes_refine_witness :
  let fs := example_fs 0x7FFFFFFF 0 0 0 in
  ∃ fs' used', inode_run [InodeAlloc; InodeAlloc; InodeRelease 5; InodeRelease 5; InodeAlloc] fs =
      Ret (fs', [inl (inr 32); inl (inr 33); inr FS_SUCCESS; inr FS_INVALID_REQUEST; inl (inr 5)]) ∧
    inode_rel 64 fs' used'.
Proof.
  intros fs. destruct (ext2_inodes_refine 64 fs (used_inodes fs)
    [InodeAlloc; InodeAlloc; InodeRelease 5; InodeRelease 5; InodeAlloc]) as (fs' & rs & used' & E & _ & H).
  - split; [| split; [done |]].
    + split; [| split_and!; vm_compute; done]. repeat constructor; vm_compute; try done; intros [=].
    + intros m. unfold used_inodes. rewrite elem_of_list_to_set, list_elem_of_filter, elem_of_seqZ.
      change (num_inodes fs) with 64. split; [intros [? ?]; split; [lia | done] |]. intros [H1 H2]. split; [done |].
      split; [done |]. destruct (decide (m < 65)) as [| Hge]; [lia |]. exfalso. unfold inode_used in H2.
      change (sb_inodes_per_group fs) with 32 in H2. assert (2 ≤ (m - 1) / 32) by (apply Z.div_le_lower_bound; lia).
      rewrite lookup_ge_None_2 in H2; [done |]. change (length (fs_inodeBitmap fs)) with 2%nat. lia.
  - exists fs', used'. split; [| done]. rewrite E. f_equal.
    assert (rs = (match inode_run [InodeAlloc; InodeAlloc; InodeRelease 5; InodeRelease 5; InodeAlloc] fs with
      | Ret r => r.2 | _ => [] end)) as -> by by rewrite E.
    vm_compute. reflexivity.
Defined.

(** * Blocks *)

Definition blocks_ok (fs : ext2fs) : Prop :=
  pool_ok (block_counts fs) (fs_blockBitmap fs) (sb_blocks_per_group fs) (sb_unallocated_blocks fs).

(** Bit [j] of the bitmap of group [k]. *)
Definition block_bit (fs : ext2fs) (k : nat) (j : Z) : bool :=
  match fs_blockBitmap fs !! k with Some bm => bm_bit bm j | None => false end.

Definition same_inodes (fs fs' : ext2fs) : Prop :=
  fs_inodeBitmap fs' = fs_inodeBitmap fs ∧ sb_unallocated_inodes fs' = sb_unallocated_inodes fs ∧
  inode_counts fs' = inode_counts fs ∧ sb_inodes_per_group fs' = sb_inodes_per_group fs ∧
  sb_blocks_per_group fs' = sb_blocks_per_group fs ∧ length (fs_blockBitmap fs') = length (fs_blockBitmap fs).

Lemma same_inodes_trans fs1 fs2 fs3 : same_inodes fs1 fs2 → same_inodes fs2 fs3 → same_inodes fs1 fs3.
Proof. unfold same_inodes. intros (? & ? & ? & ? & ? & ?) (? & ? & ? & ? & ? & ?). split_and!; congruence. Qed.

Lemma update_blocks_spec fs k bm bm' j v :
  blocks_ok fs → fs_blockBitmap fs !! k = Some bm → 0 ≤ j < sb_blocks_per_group fs → bm_bit bm j = negb v →
  bm_ok bm' → bm_n bm' = bm_n bm → (∀ i, 0 ≤ i → bm_bit bm' i = if i =? j then v else bm_bit bm i) →
  ∃ fs', update_blocks (Z.of_nat k) (if v then -1 else 1) bm' fs = Ret fs' ∧ blocks_ok fs' ∧ same_inodes fs fs' ∧
    ∀ k' i, 0 ≤ i → block_bit fs' k' i = if bool_decide (k' = k) && (i =? j) then v else block_bit fs k' i.
Proof.
  intros Hin Hk Hj Hb Hok' Hn' Hbits. destruct (pool_lookup _ _ _ _ _ _ Hin Hk) as (Hok & Hn & Hc).
  pose proof (pool_update _ _ _ _ _ _ _ _ _ Hin Hk Hj Hb Hok' Hn' Hbits) as Hp.
  unfold block_counts in Hc. rewrite list_lookup_fmap in Hc.
  destruct (fs_groups fs !! k) as [g |] eqn:Hg; [| done]. simpl in Hc. injection Hc as Hc.
  unfold update_blocks. rewrite (proj2 (rd_Some (fs_groups fs) (Z.of_nat k) g)) by (by rewrite Nat2Z.id). cbn [mbind outcome_bind].
  pose proof (lookup_lt_Some _ _ _ Hg). pose proof (lookup_lt_Some _ _ _ Hk).
  rewrite !wr_lt by lia. cbn [mbind outcome_bind]. rewrite Nat2Z.id. eexists. split; [done |]. split; [| split].
  - unfold blocks_ok, block_counts in *. cbn [fs_groups fs_blockBitmap sb_blocks_per_group sb_unallocated_blocks].
    rewrite list_fmap_insert. cbn [g_freeBlocksCount]. rewrite Hc. apply Hp.
  - unfold same_inodes, inode_counts. simpl. rewrite list_fmap_insert, length_insert. simpl.
    split_and!; try done. apply list_insert_id. rewrite list_lookup_fmap, Hg. done.
  - intros k' i Hi. unfold block_bit. simpl. case_bool_decide as E; [subst k' |].
    + rewrite list_lookup_insert_eq, Hk by done. by apply Hbits.
    + by rewrite list_lookup_insert_ne.
Qed.

(** A free block of group [k] is taken. *)
Lemma take_block fs k bm j :
  blocks_ok fs → fs_blockBitmap fs !! k = Some bm → 0 ≤ j < sb_blocks_per_group fs → bm_bit bm j = false →
  ∃ bm' fs', bm_set bm j true = Ret bm' ∧ update_blocks (Z.of_nat k) (-1) bm' fs = Ret fs' ∧ blocks_ok fs' ∧
    same_inodes fs fs' ∧ ∀ k' i, 0 ≤ i → block_bit fs' k' i = (bool_decide (k' = k) && (i =? j)) || block_bit fs k' i.
Proof.
  intros Hin Hk Hj Hb. destruct (pool_lookup _ _ _ _ _ _ Hin Hk) as (Hok & Hn & Hc).
  destruct (bm_set_spec bm j true Hok ltac:(by rewrite Hn)) as (bm' & Hset & Hok' & Hn' & Hbits).
  destruct (update_blocks_spec fs k bm bm' j true Hin Hk Hj Hb Hok' Hn' Hbits) as (fs' & Hu & Hin' & Hs & Hbit).
  exists bm', fs'. by split_and!.
Qed.

(** The blocks of group [k] with the indices from [j] on, [count] of them, were free and are taken. *)
Definition took_blocks (fs fs' : ext2fs) (k : nat) (j count : Z) : Prop :=
  (∀ i, j ≤ i < j + count → block_bit fs k i = false) ∧
  ∀ k' i, 0 ≤ i → block_bit fs' k' i = (bool_decide (k' = k) && (j <=? i) && (i <? j + count)) || block_bit fs k' i.

Lemma took_more fs fs1 fs2 k j a b :
  0 ≤ j → 0 ≤ a → 0 ≤ b → took_blocks fs fs1 k j a → took_blocks fs1 fs2 k (j + a) b → took_blocks fs fs2 k j (a + b).
Proof.
  intros Hj Ha Hb [Hf1 H1] [Hf2 H2]. split.
  - intros i Hi. destruct (decide (i < j + a)); [apply Hf1; lia |].
    specialize (Hf2 i ltac:(lia)). rewrite H1 in Hf2 by lia. by apply orb_false_elim in Hf2 as [_ ?].
  - intros k' i Hi. rewrite H2, H1, orb_assoc by done. f_equal. case_bool_decide; [| done]. cbn [andb].
    apply Bool.eq_iff_eq_true. rewrite orb_true_iff, !andb_true_iff, !Z.leb_le, !Z.ltb_lt. lia.
Qed.

Lemma took_none fs k j : took_blocks fs fs k j 0.
Proof.
  split; [intros; lia |]. intros k' i Hi. rewrite Z.add_0_r.
  destruct (Z.leb_spec j i), (Z.ltb_spec i j); try lia; by rewrite ?andb_false_r.
Qed.

Lemma took_one fs fs' k j :
  block_bit fs k j = false →
  (∀ k' i, 0 ≤ i → block_bit fs' k' i = (bool_decide (k' = k) && (i =? j)) || block_bit fs k' i) →
  took_blocks fs fs' k j 1.
Proof.
  intros Hb Hbit. split; [intros i Hi; by replace i with j by lia |]. intros k' i Hi. rewrite Hbit by done.
  rewrite <- andb_assoc. do 2 f_equal. apply Bool.eq_iff_eq_true. rewrite andb_true_iff, Z.leb_le, Z.ltb_lt, Z.eqb_eq. lia.
Qed.

Lemma same_inodes_refl fs : same_inodes fs fs.
Proof. by repeat split. Qed.

(** The state after block [j] of group [k]: [extra] more follow it. *)
Definition took_extra (fs fs' : ext2fs) (k : nat) (j requested extra : Z) : Prop :=
  0 ≤ extra ≤ requested ∧ blocks_ok fs' ∧ same_inodes fs fs' ∧ took_blocks fs fs' k (j + 1) extra ∧
  (extra = 0 ∨ j + 1 + extra ≤ sb_blocks_per_group fs).

Lemma took_extra_none fs k j requested : blocks_ok fs → 0 ≤ requested → took_extra fs fs k j requested 0.
Proof. intros. split_and!; [lia.. | done | apply same_inodes_refl | apply took_none | by left]. Qed.

Lemma more_blocks_spec fuel k j first count requested fs :
  blocks_ok fs → (k < length (fs_blockBitmap fs))%nat → 0 ≤ j → 0 ≤ requested < Z.of_nat fuel →
  first = (if Z.of_nat k =? 0 then j + 1 else j) →
  ∃ fs' extra, more_blocks fuel (Z.of_nat k) first count requested fs = Ret (fs', count + extra) ∧
    took_extra fs fs' k j requested extra.
Proof.
  revert j first count requested fs. induction fuel as [| fuel IH]; intros j first count requested fs Hin Hk Hj Hf ->; [lia |].
  assert (∃ fs' extra, Ret (fs, count) = Ret (fs', count + extra) ∧ took_extra fs fs' k j requested extra) as Hstop
    by (exists fs, 0; rewrite Z.add_0_r; split; [done | apply took_extra_none; [done | lia]]).
  cbn [more_blocks]. destruct (Z.ltb_spec 0 requested); [| done].
  destruct (lookup_lt_is_Some_2 _ _ Hk) as [bm Hbm]. destruct (pool_lookup _ _ _ _ _ _ Hin Hbm) as (Hok & Hn & Hc).
  unfold block_counts in Hc. rewrite list_lookup_fmap in Hc.
  destruct (fs_groups fs !! k) as [g |] eqn:Hg; [| done].
  rewrite (proj2 (rd_Some (fs_groups fs) (Z.of_nat k) g)) by (by rewrite Nat2Z.id). cbn [mbind outcome_bind].
  destruct (_ || _); [done |]. cbn zeta.
  set (block := (if Z.of_nat k =? 0 then j + 1 else j) + 1).
  assert ((if Z.of_nat k =? 0 then block - 1 else block) = j + 1) as -> by (subst block; destruct (Z.of_nat k =? 0); lia).
  destruct (Z.leb_spec (sb_blocks_per_group fs) block) as [| Hlt]; [done |].
  assert (j + 1 < sb_blocks_per_group fs) as Hj1 by (subst block; destruct (Z.of_nat k =? 0); lia).
  rewrite (proj2 (rd_Some (fs_blockBitmap fs) (Z.of_nat k) bm)) by (by rewrite Nat2Z.id). cbn [mbind outcome_bind].
  rewrite bm_get_spec by (done || lia). cbn [mbind outcome_bind]. destruct (bm_bit bm (j + 1)) eqn:Hb; [done |].
  destruct (take_block fs k bm (j + 1) Hin Hbm ltac:(lia) Hb) as (bm' & fs1 & -> & Hu & Hin1 & Hs1 & Hbit).
  cbn [mbind outcome_bind]. rewrite Hu. cbn [mbind outcome_bind].
  destruct (IH (j + 1) block (count + 1) (requested - 1) fs1) as (fs2 & extra & -> & Hr & Hin2 & Hs2 & Ht & He).
  - done.
  - destruct Hs1 as (_ & _ & _ & _ & _ & ->). done.
  - lia.
  - lia.
  - subst block. destruct (Z.of_nat k =? 0); lia.
  - assert (sb_blocks_per_group fs1 = sb_blocks_per_group fs) as Eb by apply Hs1. rewrite Eb in He.
    exists fs2, (1 + extra). split; [do 2 f_equal; lia |]. split_and!; [lia.. | done | by eapply same_inodes_trans | | right; lia].
    apply took_more with fs1; [lia.. | | done]. apply took_one; [| done]. unfold block_bit. by rewrite Hbm.
Qed.

(** AllocateBlocks takes blocks that are free: between one and as many as asked for, next to each other in
    the bitmap of one group, and changes no other bit; it fails only when no block is free, and the counts
    agree with the bitmaps afterwards. *)
Theorem AllocateBlocks_correct requested fs :
  blocks_ok fs → 0 < requested →
  ∃ fs' r, AllocateBlocks requested fs = Ret (fs', r) ∧ blocks_ok fs' ∧ same_inodes fs fs' ∧
    match r with
    | inl st => st = FS_NO_AVAIL_BLOCKS ∧ fs' = fs ∧ sum (block_counts fs) = 0
    | inr (_, count) => 1 ≤ count ≤ requested ∧
        ∃ k j, 0 ≤ j ∧ j + count ≤ sb_blocks_per_group fs ∧ took_blocks fs fs' k j count
    end.
Proof.
  intros Hin Hreq. unfold AllocateBlocks. destruct (Z.leb_spec requested 0); [lia |].
  assert (Forall2 (λ c bm, bm_ok bm ∧ c = free_bits bm) (block_counts fs) (fs_blockBitmap fs)) as Hf
    by (destruct Hin as [Hf _]; eapply Forall2_impl; [exact Hf | naive_solver]).
  destruct (counts_sum _ _ _ (proj1 Hin)) as [Hsum _].
  assert (sb_unallocated_blocks fs = sum (block_counts fs)) as Htot by apply Hin.
  destruct (Z.leb_spec (sb_unallocated_blocks fs) 0).
  { eexists _, _. split; [done |]. split_and!; (done || apply same_inodes_refl || lia). }
  pose proof (find_group_spec _ _ 0 Hf) as Hg.
  destruct (find_group (block_counts fs) (fs_blockBitmap fs) 0) as [[i f] |]; [| lia].
  destruct Hg as (k & bm & j & -> & Hk & -> & Hj & Hb). rewrite Z.add_0_l, Z.add_simpl_r.
  destruct (pool_lookup _ _ _ _ _ _ Hin Hk) as (Hok & Hn & Hc).
  rewrite (proj2 (rd_Some (fs_blockBitmap fs) (Z.of_nat k) bm)) by (by rewrite Nat2Z.id). cbn [mbind outcome_bind].
  destruct (take_block fs k bm j Hin Hk ltac:(lia) Hb) as (bm' & fs1 & -> & Hu & Hin1 & Hs1 & Hbit).
  cbn [mbind outcome_bind]. rewrite Hu. cbn [mbind outcome_bind].
  destruct (more_blocks_spec (S (Z.to_nat requested)) k j (if Z.of_nat k =? 0 then j + 1 else j) 1 (requested - 1) fs1)
    as (fs2 & extra & -> & Hr & Hin2 & Hs2 & Ht & He); [done | | lia.. | done |].
  { destruct Hs1 as (_ & _ & _ & _ & _ & ->). by eapply lookup_lt_Some. }
  cbn [mbind outcome_bind fst snd]. eexists _, _. split; [done |]. split; [done |]. split; [by eapply same_inodes_trans |].
  assert (sb_blocks_per_group fs1 = sb_blocks_per_group fs) as Eb by apply Hs1. rewrite Eb in He.
  split; [lia |]. exists k, j. split; [lia |]. split; [lia |].
  apply took_more with fs1; [lia.. | | done]. apply took_one; [| done]. unfold block_bit. by rewrite Hk.
Qed.

Lemma AllocateBlocks_correct_witness :
  let fs := example_fs 0 0 0xFFFFFFFF 0x0000FF0F in
  ∃ fs' r, AllocateBlocks 6 fs = Ret (fs', r) ∧ r = inr (36, 4) ∧ blocks_ok fs'.
Proof.
  intros fs. destruct (AllocateBlocks_correct 6 fs) as (fs' & r & E & Hok & _).
  - split; [| split_and!; vm_compute; done]. repeat constructor; vm_compute; try done; intros [=].
  - lia.
  - exists fs', r. split; [done |]. split; [| done].
    assert (r = match AllocateBlocks 6 fs with Ret r => r.2 | _ => inr (0, 0) end) as -> by by rewrite E.
    vm_compute. reflexivity.
Defined.

(** two blocks have one number.  In the first group the bit [j] stands for block [j + 1], in the others for
    block [j] of the group, so that the last block of the first group and the first block of the second
    are both given out as block 32, here to two files; releasing one of them clears a bit of the second
    group, whichever was meant. *)
Theorem blocks_allocated_twice :
  let fs := example_fs 0 0 0x7FFFFFFF 0 in
  ∃ fs1 fs2 fs3, AllocateBlocks 1 fs = Ret (fs1, inr (32, 1)) ∧ AllocateBlocks 1 fs1 = Ret (fs2, inr (32, 1)) ∧
    ReleaseBlock 32 fs1 = Ret (fs3, FS_SUCCESS) ∧ block_bit fs3 0 31 = true ∧
    g_freeBlocksCount <$> fs_groups fs3 = [0; 33].
Proof. intros fs. eexists _, _, _. do 3 (split; [vm_compute; reflexivity |]). by split. Qed.

(** freeing leaves no trace on the disk.  Only setting a bit marks the bitmap's block as dirty: after
    ReleaseInode the file system has nothing to write, and unless a later allocation marks the block the inode
    is in use again when it is next mounted. *)
Theorem release_not_dirty :
  ∃ fs', ReleaseInode 3 (example_fs 7 0 0 0) = Ret (fs', FS_SUCCESS) ∧ inode_used fs' 3 = false ∧
    bm_dirty <$> fs_inodeBitmap fs' = [[false]; [false]].
Proof. eexists. split; [vm_compute; reflexivity |]. by split. Qed.
