(* ===== verification/Ext2Inode.v ===== *)
(** kernel/blockdevs/filesystems/ext2fs_inode.cpp, kernel/blockdevsystem/filepage.cpp: the files of the ext2 file
    system.  The pages of a file are read from its blocks when they are first needed, and changed in memory. *)
From S2P Require Import Prelude PhysPageMap Ext2Alloc Partitions.

Local Open Scope Z_scope.

(** * Pages *)

Definition FILEPAGE_PAGE_SIZE : Z := 4096.

(** class filepage with its filepage_data: the bytes, and how many of them, from the first, are dirty. *)
Record filepage := { fp_data : list Z; fp_dirty : Z }.

(** lock cmpxchg: the new value of the memory and what was there. *)
Definition cmpxchg (mem expect new : Z) : Z * Z := if mem =? expect then (new, mem) else (mem, mem).

(** The loop of filepage_data::setDirty, by one thread. *)
Fixpoint setDirty_loop (fuel : nat) (mem set expectdirty olddirty : Z) : outcome Z :=
  match fuel with
  | O => OutOfFuel
  | S fuel =>
      let expect := expectdirty in
      let expectdirty := olddirty in
      if set <? expect then Ret mem
      else
        let '(mem, olddirty) := cmpxchg mem expect set in
        if olddirty =? expectdirty then Ret mem else setDirty_loop fuel mem set expectdirty olddirty
  end.

Definition setDirty (dirty mem : Z) : outcome Z := setDirty_loop 3 mem dirty 0 0.

(** filepage_data::getDirtyAndClear, by one thread: what was dirty, and what is. *)
Definition getDirtyAndClear (mem : Z) : Z * Z := (mem, (cmpxchg mem mem 0).1).

Definition page_SetDirty (length : Z) (p : filepage) : outcome filepage :=
  d ← setDirty (u32 length) (fp_dirty p); Ret {| fp_data := fp_data p; fp_dirty := d |}.

(** memcpy into the bytes [dst] at [i]; outside of them it is an error. *)
Definition memcpy_to (dst : list Z) (i : Z) (src : list Z) : outcome (list Z) :=
  if (0 <=? i) && (i + Z.of_nat (length src) <=? Z.of_nat (length dst))
  then Ret (take (Z.to_nat i) dst ++ src ++ drop (Z.to_nat i + length src) dst)
  else OutOfBounds.

(** [n] bytes from [i] on. *)
Definition memcpy_from (src : list Z) (i n : Z) : outcome (list Z) :=
  if (0 <=? i) && (0 <=? n) && (i + n <=? Z.of_nat (length src))
  then Ret (take (Z.to_nat n) (drop (Z.to_nat i) src))
  else OutOfBounds.

(** * The inode *)

(** class ext2fs_inode, what reading and writing the data need of it. *)
Record ext2inode := {
  in_blocksize : Z;
  in_blockRefs : list Z;
  in_blockCache : list (option filepage);
  in_filesize : Z;
}.

Definition set_cache (c : list (option filepage)) (n : ext2inode) : ext2inode :=
  {| in_blocksize := in_blocksize n; in_blockRefs := in_blockRefs n; in_blockCache := c; in_filesize := in_filesize n |}.

(** The first loop of ReadBlocks. *)
Fixpoint skip_blocks (fuel : nat) (blocksize startingBlock startingOffset : Z) : outcome (Z * Z) :=
  match fuel with
  | O => OutOfFuel
  | S fuel =>
      if blocksize <=? startingOffset
      then skip_blocks fuel blocksize (u32 (startingBlock + 1)) (startingOffset - blocksize)
      else Ret (startingBlock, startingOffset)
  end.

(** One round of the second loop, for the block [fsBlock] of the disk: the bytes read and their number, where
    [from] is the offset in the block and [last] the length of the last block. *)
Definition read_fs_block (d : blockdev) (blocksize fsBlock from : Z) (last : option Z)
    : outcome (option (list Z) * Z) :=
  let startingAddr := u64 (fsBlock * blocksize + from) in
  let physBlock := startingAddr / bd_blocksize d in
  let endingOffset := match last with Some len => u64 (startingAddr + len) | None => u64 ((fsBlock + 1) * blocksize) end in
  let offset := startingAddr mod bd_blocksize d in
  let startingAddr := physBlock * bd_blocksize d in
  let physBlocks := div_up (u64 (endingOffset - startingAddr)) (bd_blocksize d) in
  let readLength := u32 (endingOffset - startingAddr - offset) in
  match bd_read d physBlock physBlocks with
  | None => Ret (None, readLength)
  | Some rdBlock =>
      if offset =? 0 then Ret (Some rdBlock, readLength)
      else
        moved ← memcpy_from rdBlock offset blocksize;
        rdBlock ← memcpy_to rdBlock 0 moved;
        Ret (Some rdBlock, readLength)
  end.

(** The second loop of ReadBlocks, for the blocks from [blockNo] on: what was read, the length of the first,
    or why not all was. *)
Fixpoint read_loop (d : blockdev) (n : ext2inode) (count : nat) (blockNo startingBlock startingOffset lastLength : Z)
    (acc : list (list Z)) (firstReadLength : Z) : outcome (filesystem_status + list (list Z) * Z) :=
  match count with
  | O => Ret (inr (acc, firstReadLength))
  | S count =>
      if blockNo <? Z.of_nat (length (in_blockRefs n)) then
        fsBlock ← rd (in_blockRefs n) blockNo;
        if fsBlock =? 0 then Ret (inl FS_NOT_SUPPORTED)
        else
          '(data, len) ← read_fs_block d (in_blocksize n) fsBlock (if blockNo =? startingBlock then startingOffset else 0)
             (match count with O => Some lastLength | _ => None end);
          match data with
          | None => Ret (inl FS_IO_ERROR)
          | Some block =>
              read_loop d n count (blockNo + 1) startingBlock startingOffset lastLength (acc ++ [block])
                (if blockNo =? startingBlock then len else firstReadLength)
          end
      else read_loop d n count (blockNo + 1) startingBlock startingOffset lastLength acc firstReadLength
  end.

(** The loop that puts the blocks after the first together. *)
Fixpoint assemble (blocks : list (list Z)) (blocksize lastLength offset : Z) (final : list Z) : outcome (list Z) :=
  match blocks with
  | [] => Ret final
  | [b] => src ← memcpy_from b 0 lastLength; memcpy_to final offset src
  | b :: blocks =>
      src ← memcpy_from b 0 blocksize;
      final ← memcpy_to final offset src;
      assemble blocks blocksize lastLength (offset + blocksize) final
  end.

Definition ReadBlocks (d : blockdev) (n : ext2inode) (startingBlock startingOffset length_ : Z)
    : outcome (filesystem_status + list Z) :=
  let blocksize := in_blocksize n in
  '(startingBlock, startingOffset) ← skip_blocks (S (Z.to_nat startingOffset)) blocksize startingBlock startingOffset;
  let numBlocks := u32 (startingOffset + length_) in
  let lastBlockLength := if numBlocks mod blocksize =? 0 then blocksize else numBlocks mod blocksize in
  let numBlocks := u32 (numBlocks + (blocksize - lastBlockLength)) / blocksize in
  r ← read_loop d n (Z.to_nat numBlocks) startingBlock startingBlock startingOffset lastBlockLength [] 0;
  match r with
  | inl st => Ret (inl st)
  | inr (readBlocks, firstReadLength) =>
      let final := replicate (Z.to_nat length_) 0 in
      match readBlocks with
      | [] => Ret (inr final)
      | b :: rest =>
          let cp := if length_ <? firstReadLength then length_ else firstReadLength in
          src ← memcpy_from b 0 cp;
          final ← memcpy_to final 0 src;
          final ← assemble rest blocksize lastBlockLength firstReadLength final;
          Ret (inr final)
      end
  end.

(** ReadBlockRaw without allocation: the inode and the page. *)
Definition ReadBlockRaw (d : blockdev) (n : ext2inode) (blki : Z) : outcome (ext2inode * (filesystem_status + filepage)) :=
  if blki <? Z.of_nat (length (in_blockCache n)) then
    cached ← rd (in_blockCache n) blki;
    match cached with
    | Some page => Ret (n, inr page)
    | None =>
        let startingAddr := u64 (blki * FILEPAGE_PAGE_SIZE) in
        let startingBlock := startingAddr / in_blocksize n in
        let readingOffset := startingAddr mod in_blocksize n in
        r ← ReadBlocks d n (u32 startingBlock) (u32 readingOffset) FILEPAGE_PAGE_SIZE;
        match r with
        | inl _ => Ret (n, inl FS_IO_ERROR)
        | inr bytes =>
            let page := {| fp_data := bytes; fp_dirty := 0 |} in
            cache ← wr (in_blockCache n) blki (Some page);
            Ret (set_cache cache n, inr page)
        end
    end
  else Ret (n, inl FS_INVALID_REQUEST).

(** The loop of ReadBytes from [vec] on: the bytes copied. *)
Fixpoint read_bytes_loop (fuel : nat) (d : blockdev) (n : ext2inode) (offset vec length_ : Z) (p : list Z)
    : outcome (ext2inode * list Z * filesystem_status) :=
  match fuel with
  | O => OutOfFuel
  | S fuel =>
      if vec <? length_ then
        let cur := u64 (offset + vec) in
        let blk := cur / FILEPAGE_PAGE_SIZE in
        let blkoff := cur mod FILEPAGE_PAGE_SIZE in
        let blklen := if length_ - vec <? FILEPAGE_PAGE_SIZE then length_ - vec else FILEPAGE_PAGE_SIZE in
        let blklen := if FILEPAGE_PAGE_SIZE - blkoff <? blklen then FILEPAGE_PAGE_SIZE - blkoff else blklen in
        '(n, r) ← ReadBlockRaw d n blk;
        match r with
        | inl st => Ret (n, p, st)
        | inr page =>
            bytes ← memcpy_from (fp_data page) blkoff blklen;
            read_bytes_loop fuel d n offset (vec + blklen) length_ (p ++ bytes)
        end
      else Ret (n, p, FS_SUCCESS)
  end.

(** ReadBytes: the inode, the bytes, whose number is the size returned, and the status. *)
Definition ReadBytes (d : blockdev) (n : ext2inode) (offset length_ : Z) : outcome (ext2inode * list Z * filesystem_status) :=
  if in_filesize n <? u64 (offset + length_) then
    if in_filesize n <=? offset then Ret (n, [], FS_SUCCESS)
    else read_bytes_loop (S (Z.to_nat (in_filesize n - offset))) d n offset 0 (in_filesize n - offset) []
  else read_bytes_loop (S (Z.to_nat length_)) d n offset 0 length_ [].

(** * Reading a file *)

(** A device that holds the bytes [disk]. *)
Class HoldsDisk (d : blockdev) (disk : list Z) : Prop := {
  disk_blocksize : 0 < bd_blocksize d < 2 ^ 32;
  disk_length : Z.of_nat (length disk) < 2 ^ 62;
  disk_whole : (bd_blocksize d | Z.of_nat (length disk));
  disk_read n k : 0 ≤ n → 0 ≤ k → (n + k) * bd_blocksize d ≤ Z.of_nat (length disk) →
    bd_read d n k = Some (take (Z.to_nat (k * bd_blocksize d)) (drop (Z.to_nat (n * bd_blocksize d)) disk));
}.

Lemma memcpy_from_ok src i n :
  0 ≤ i → 0 ≤ n → i + n ≤ Z.of_nat (length src) → memcpy_from src i n = Ret (take (Z.to_nat n) (drop (Z.to_nat i) src)).
Proof. intros. unfold memcpy_from. by rewrite !(proj2 (Z.leb_le _ _)) by lia. Qed.

Lemma memcpy_to_ok dst i src :
  0 ≤ i → i + Z.of_nat (length src) ≤ Z.of_nat (length dst) →
  memcpy_to dst i src = Ret (take (Z.to_nat i) dst ++ src ++ drop (Z.to_nat i + length src) dst).
Proof. intros. unfold memcpy_to. by rewrite !(proj2 (Z.leb_le _ _)) by lia. Qed.

Lemma div_up_spec a b : 0 ≤ a → 0 < b → a ≤ div_up a b * b < a + b ∧ 0 ≤ div_up a b.
Proof.
  intros Ha Hb. unfold div_up. pose proof (Z.div_mod a b ltac:(lia)). pose proof (Z.mod_pos_bound a b Hb).
  pose proof (Z.div_pos a b Ha Hb). destruct (Z.eqb_spec (a mod b) 0); nia.
Qed.

Section read.
Context (d : blockdev) (disk : list Z) `{HD : !HoldsDisk d disk}.

(** Block [r] of a file system with this block size. *)
Definition fs_block (bs r : Z) : list Z := take (Z.to_nat bs) (drop (Z.to_nat (r * bs)) disk).

Definition on_disk (bs r : Z) : Prop := 0 < r ∧ (r + 1) * bs ≤ Z.of_nat (length disk).

(** What was read starts with the block. *)
Definition starts_with (bs : Z) (b : list Z) (r : Z) : Prop :=
  take (Z.to_nat bs) b = fs_block bs r ∧ bs ≤ Z.of_nat (length b).

Lemma read_fs_block_spec bs r last :
  0 < bs < 2 ^ 32 → on_disk bs r → last = None ∨ last = Some bs →
  ∃ b, read_fs_block d bs r 0 last = Ret (Some b, bs) ∧ starts_with bs b r.
Proof.
  intros Hbs [Hr Hin] Hlast. pose proof disk_blocksize as Hdb. pose proof disk_length as Hdl.
  unfold read_fs_block. set (dbs := bd_blocksize d) in *. rewrite Z.add_0_r.
  assert (u64 (r * bs) = r * bs) as -> by (apply wrap_id; split; nia).
  assert (match last with Some len => u64 (r * bs + len) | None => u64 ((r + 1) * bs) end = (r + 1) * bs) as ->.
  { destruct Hlast as [-> | ->]; rewrite wrap_id by (split; nia); lia. }
  set (phys := r * bs / dbs). set (off := (r * bs) mod dbs).
  assert (r * bs = dbs * phys + off) as Hdm by (apply Z.div_mod; lia).
  assert (0 ≤ off < dbs) as Hoff by (apply Z.mod_pos_bound; lia).
  assert (0 ≤ phys) as Hphys by (apply Z.div_pos; nia).
  assert ((r + 1) * bs - phys * dbs = off + bs) as E by lia.
  replace (u32 ((r + 1) * bs - phys * dbs - off)) with bs by (rewrite wrap_id; [lia | split; lia]).
  rewrite E. rewrite (wrap_id 64) by (split; lia).
  destruct (div_up_spec (off + bs) dbs ltac:(lia) ltac:(lia)) as [Hup Hup0]. set (k := div_up (off + bs) dbs) in *.
  assert ((phys + k) * dbs ≤ Z.of_nat (length disk)) as Hend.
  { destruct disk_whole as [w Hw]. fold dbs in Hw. assert (phys + k ≤ w); [| nia].
    assert (dbs * (phys + k) < dbs * (w + 1)) as Hlt by nia. apply Z.mul_lt_mono_pos_l in Hlt; lia. }
  rewrite disk_read by (fold dbs; lia). fold dbs.
  set (data := take (Z.to_nat (k * dbs)) (drop (Z.to_nat (phys * dbs)) disk)).
  assert (Z.of_nat (length data) = k * dbs) as Hlen by (unfold data; rewrite length_take, length_drop; nia).
  assert (take (Z.to_nat bs) (drop (Z.to_nat off) data) = fs_block bs r) as Hblk.
  { unfold data, fs_block. rewrite skipn_firstn_comm, drop_drop, take_take, Nat.min_l by lia.
    do 2 f_equal. rewrite Hdm, <- Z2Nat.inj_add by nia. f_equal. lia. }
  destruct (Z.eqb_spec off 0) as [H0 | H0].
  { exists data. split; [done |]. rewrite H0 in Hblk. split; [done | lia]. }
  rewrite memcpy_from_ok by lia. cbn [mbind outcome_bind]. rewrite Hblk.
  assert (length (fs_block bs r) = Z.to_nat bs) as Hfl by (unfold fs_block; rewrite length_take, length_drop; nia).
  rewrite memcpy_to_ok by lia. cbn [mbind outcome_bind]. eexists. split; [done |]. cbn [Z.to_nat Nat.add]. rewrite take_0, app_nil_l. split.
  - rewrite <- Hfl. by rewrite take_app_length.
  - rewrite length_app, length_drop, Hfl. lia.
Qed.

(** Blocks after the end of the file are left out. *)
Lemma read_loop_end n count blockNo start last acc flen :
  Z.of_nat (length (in_blockRefs n)) ≤ blockNo →
  read_loop d n count blockNo start 0 last acc flen = Ret (inr (acc, flen)).
Proof.
  revert blockNo. induction count as [| count IH]; intros blockNo Hb; cbn [read_loop]; [done |].
  rewrite (proj2 (Z.ltb_ge _ _)) by lia. apply IH. lia.
Qed.

(** The inode's blocks are on the disk, and a page is a whole number of them. *)
Definition inode_blocks_ok (n : ext2inode) : Prop :=
  0 < in_blocksize n ≤ 4096 ∧ (in_blocksize n | 4096) ∧ Forall (on_disk (in_blocksize n)) (in_blockRefs n).

Lemma read_loop_spec n count blockNo start acc flen :
  inode_blocks_ok n → 0 ≤ blockNo → start ≤ blockNo →
  ∃ bl, read_loop d n count blockNo start 0 (in_blocksize n) acc flen =
      Ret (inr (acc ++ bl, if (blockNo =? start) && negb (bool_decide (bl = [])) then in_blocksize n else flen)) ∧
    Forall2 (starts_with (in_blocksize n)) bl (take count (drop (Z.to_nat blockNo) (in_blockRefs n))).
Proof.
  intros Hn. revert blockNo acc flen. induction count as [| count IH]; intros blockNo acc flen Hb Hst.
  { exists []. rewrite app_nil_r, take_0, andb_false_r. split; [done | constructor]. }
  destruct (decide (blockNo < Z.of_nat (length (in_blockRefs n)))) as [Hlt | Hge].
  - destruct (lookup_lt_is_Some_2 (in_blockRefs n) (Z.to_nat blockNo)) as [r Hr]; [lia |].
    destruct Hn as (Hbs & Hdiv & Hall). pose proof (Forall_lookup_1 _ _ _ _ Hall Hr) as Hd.
    cbn [read_loop]. rewrite (proj2 (Z.ltb_lt _ _)) by lia. rewrite (proj2 (rd_Some _ _ r)) by done.
    cbn [mbind outcome_bind]. rewrite (proj2 (Z.eqb_neq r 0)) by (destruct Hd; lia).
    assert ((if blockNo =? start then 0 else 0) = 0) as -> by by destruct (blockNo =? start).
    destruct (read_fs_block_spec (in_blocksize n) r (match count with O => Some (in_blocksize n) | _ => None end))
      as (b & -> & Hb1); [lia | done | destruct count; auto |]. cbn [mbind outcome_bind].
    destruct (IH (blockNo + 1) (acc ++ [b]) (if blockNo =? start then in_blocksize n else flen)) as (bl & -> & Hbl); [lia.. |].
    exists (b :: bl). split.
    + rewrite (proj2 (Z.eqb_neq (blockNo + 1) start)) by lia. rewrite <- app_assoc. cbn [app andb].
      by destruct (blockNo =? start).
    + rewrite (drop_S _ _ _ Hr). cbn [firstn]. constructor; [done |].
      by replace (S (Z.to_nat blockNo)) with (Z.to_nat (blockNo + 1)) by lia.
  - rewrite read_loop_end by lia. exists []. rewrite app_nil_r, andb_false_r. split; [done |].
    rewrite drop_ge by lia. rewrite take_nil. constructor.
Qed.

Lemma starts_concat bs bl rs :
  Forall2 (starts_with bs) bl rs → concat (take (Z.to_nat bs) <$> bl) = concat (fs_block bs <$> rs).
Proof. induction 1 as [| b r bl rs [Hb _] _ IH]; [done |]. cbn [fmap list_fmap concat]. by rewrite Hb, IH. Qed.

(** [l] written over [final] at [off]. *)
Definition over (final : list Z) (off : Z) (l : list Z) : list Z :=
  take (Z.to_nat off) final ++ l ++ drop (Z.to_nat off + length l) final.

Lemma over_over final off l1 l2 :
  0 ≤ off → off + Z.of_nat (length l1 + length l2) ≤ Z.of_nat (length final) →
  over (over final off l1) (off + Z.of_nat (length l1)) l2 = over final off (l1 ++ l2).
Proof.
  intros Ho Hl. unfold over. assert (length (take (Z.to_nat off) final) = Z.to_nat off) as E by (rewrite length_take; lia).
  rewrite Z2Nat.inj_add, Nat2Z.id by lia.
  rewrite (app_assoc (take _ _) l1), take_app_le by (rewrite length_app, E; lia).
  rewrite take_ge by (rewrite length_app, E; lia).
  rewrite drop_app_ge by (rewrite length_app, E; lia). rewrite length_app, E, drop_drop.
  rewrite length_app, <- !app_assoc. do 4 f_equal. lia.
Qed.

Lemma length_over final off l :
  0 ≤ off → off + Z.of_nat (length l) ≤ Z.of_nat (length final) → length (over final off l) = length final.
Proof. intros. unfold over. rewrite !length_app, length_take, length_drop. lia. Qed.

Lemma length_takes bs (bl : list (list Z)) :
  0 ≤ bs → Z.of_nat (length (concat (take (Z.to_nat bs) <$> bl))) ≤ bs * Z.of_nat (length bl).
Proof.
  intros Hbs. induction bl as [| b bl IH]; cbn [fmap list_fmap concat length]; [lia |]. rewrite length_app, length_take. lia.
Qed.

Lemma assemble_spec bs bl off final :
  0 < bs → Forall (λ b, bs ≤ Z.of_nat (length b)) bl → 0 ≤ off →
  off + bs * Z.of_nat (length bl) ≤ Z.of_nat (length final) →
  assemble bl bs bs off final = Ret (over final off (concat (take (Z.to_nat bs) <$> bl))).
Proof.
  intros Hbs Hbl. revert off final. induction Hbl as [| b bl Hb Hbl IH]; intros off final Ho Hl.
  { cbn. unfold over. by rewrite Nat.add_0_r, app_nil_l, take_drop. }
  assert (memcpy_from b 0 bs = Ret (take (Z.to_nat bs) b)) as Hcf by (by rewrite memcpy_from_ok by lia).
  assert (length (take (Z.to_nat bs) b) = Z.to_nat bs) as Hlb by (rewrite length_take; lia).
  cbn [length] in Hl. assert (memcpy_to final off (take (Z.to_nat bs) b) = Ret (over final off (take (Z.to_nat bs) b))) as Hct
    by (apply memcpy_to_ok; lia).
  destruct bl as [| b' bl].
  - cbn [assemble]. rewrite Hcf. cbn [mbind outcome_bind fmap list_fmap concat]. by rewrite Hct, app_nil_r.
  - change (assemble (b :: b' :: bl) bs bs off final) with
      (src ← memcpy_from b 0 bs; final ← memcpy_to final off src; assemble (b' :: bl) bs bs (off + bs) final).
    rewrite Hcf. cbn [mbind outcome_bind]. rewrite Hct. cbn [mbind outcome_bind]. rewrite IH; [| lia |].
    + cbn [fmap list_fmap concat]. f_equal.
      replace (off + bs) with (off + Z.of_nat (length (take (Z.to_nat bs) b))) by lia. rewrite over_over; [done | done |].
      rewrite Hlb. pose proof (length_takes bs (b' :: bl) ltac:(lia)) as Ht.
      cbn [length fmap list_fmap concat] in Ht, Hl. lia.
    + rewrite length_over by lia. cbn [length] in *. lia.
Qed.

(** A list filled up to a page. *)
Definition pad (l : list Z) : list Z := l ++ replicate (4096 - length l) 0.

(** The blocks of page [blki]. *)
Definition page_refs (n : ext2inode) (blki : Z) : list Z :=
  take (Z.to_nat (4096 / in_blocksize n)) (drop (Z.to_nat (blki * (4096 / in_blocksize n))) (in_blockRefs n)).

Definition disk_page (n : ext2inode) (blki : Z) : list Z :=
  pad (concat (fs_block (in_blocksize n) <$> page_refs n blki)).

Lemma over_pad l : (length l ≤ 4096)%nat → over (replicate 4096 0) 0 l = pad l.
Proof.
  intros Hl. unfold over, pad. change (Z.to_nat 0) with 0%nat. rewrite take_0, app_nil_l, Nat.add_0_l. f_equal.
  apply drop_replicate.
Qed.

Lemma length_blocks bs rs :
  0 < bs → Forall (on_disk bs) rs → length (concat (fs_block bs <$> rs)) = (Z.to_nat bs * length rs)%nat.
Proof.
  intros Hbs. induction 1 as [| r rs [Hr Hd] _ IH]; [done |]. cbn [fmap list_fmap concat length].
  rewrite length_app, IH. unfold fs_block at 1. rewrite length_take, length_drop. nia.
Qed.

Lemma ReadBlocks_spec n blki :
  inode_blocks_ok n → 0 ≤ blki → blki * 4096 < 2 ^ 32 →
  ReadBlocks d n (blki * (4096 / in_blocksize n)) 0 4096 = Ret (inr (disk_page n blki)).
Proof.
  intros Hn Hb Hb32. destruct (Hn) as (Hbs & [q Hq] & Hall). set (bs := in_blocksize n) in *.
  assert (0 < q) as Hq0 by nia. assert (4096 / bs = q) as Hdiv by (rewrite Hq; apply Z.div_mul; lia).
  unfold ReadBlocks. fold bs. change (Z.to_nat 0) with 0%nat. cbn [skip_blocks].
  rewrite (proj2 (Z.leb_gt bs 0)) by lia. cbn [mbind outcome_bind]. rewrite Z.add_0_l.
  change (u32 4096) with 4096. assert (4096 mod bs = 0) as -> by (rewrite Hq; apply Z.mod_mul; lia).
  cbn [Z.eqb]. rewrite Z.sub_diag, Z.add_0_r. change (u32 4096) with 4096. rewrite Hdiv.
  destruct (read_loop_spec n (Z.to_nat q) (blki * q) (blki * q) [] 0 Hn) as (bl & El & Hbl); [nia | done |].
  fold bs in Hbl, El. rewrite El. cbn [mbind outcome_bind app]. rewrite Z.eqb_refl. cbn [andb].
  unfold disk_page, page_refs. fold bs. rewrite Hdiv. set (rs := take _ (drop _ _)) in *.
  assert (Forall (on_disk bs) rs) as Hrs by (by apply Forall_take, Forall_drop).
  rewrite <- (starts_concat _ _ _ Hbl). pose proof (Forall2_length _ _ _ Hbl) as Hlen.
  assert (length rs ≤ Z.to_nat q)%nat as Hrq by (unfold rs; rewrite length_take; lia).
  assert (Forall (λ b, bs ≤ Z.of_nat (length b)) bl) as Hge.
  { clear -Hbl. induction Hbl as [| b r bl rs [_ H]]; by constructor. }
  destruct bl as [| b bl].
  { change (Z.to_nat 4096) with 4096%nat. done. }
  rewrite bool_decide_false by done. cbn [negb].
  rewrite (proj2 (Z.ltb_ge 4096 bs)) by lia. apply Forall_cons in Hge as [Hgb Hge].
  rewrite memcpy_from_ok by lia. cbn [mbind outcome_bind]. change (Z.to_nat 0) with 0%nat. rewrite drop_0.
  assert (length (take (Z.to_nat bs) b) = Z.to_nat bs) as Hlb by (rewrite length_take; lia). cbn [length] in Hlen.
  change (Z.to_nat 4096) with 4096%nat. rewrite memcpy_to_ok by (rewrite ?length_replicate; lia). cbn [mbind outcome_bind].
  change (take (Z.to_nat 0) (replicate 4096 0) ++ take (Z.to_nat bs) b ++ drop (Z.to_nat 0 + length (take (Z.to_nat bs) b)) (replicate 4096 0))
    with (over (replicate 4096 0) 0 (take (Z.to_nat bs) b)).
  assert (bs * Z.of_nat (S (length bl)) ≤ 4096) as Htot by nia.
  rewrite assemble_spec; [| lia | done | lia |].
  2: { rewrite length_over by (rewrite ?length_replicate; lia). rewrite length_replicate. lia. }
  cbn [mbind outcome_bind]. do 2 f_equal. replace bs with (0 + Z.of_nat (length (take (Z.to_nat bs) b))) at 2 by lia.
  pose proof (length_blocks bs rs ltac:(lia) Hrs) as Hlc. rewrite <- (starts_concat _ _ _ Hbl) in Hlc.
  cbn [fmap list_fmap concat] in Hlc |- *. rewrite over_over.
  - apply over_pad. rewrite Hlc. nia.
  - lia.
  - rewrite length_replicate. rewrite length_app in Hlc. nia.
Qed.

(** ** The contents of a file *)

Definition page_ok (p : option filepage) : Prop :=
  match p with Some p => length (fp_data p) = 4096%nat | None => True end.

Definition inode_ok (n : ext2inode) : Prop :=
  inode_blocks_ok n ∧ Forall page_ok (in_blockCache n) ∧ 4096 * Z.of_nat (length (in_blockCache n)) < 2 ^ 32.

(** Page [k] of the file, in memory or on the disk. *)
Definition page_of (n : ext2inode) (k : nat) : list Z :=
  match in_blockCache n !! k with
  | Some (Some p) => fp_data p
  | _ => disk_page n (Z.of_nat k)
  end.

Definition contents (n : ext2inode) : list Z := concat (page_of n <$> seq 0 (length (in_blockCache n))).

Lemma length_disk_page n blki : inode_blocks_ok n → length (disk_page n blki) = 4096%nat.
Proof.
  intros (Hbs & [q Hq] & Hall). unfold disk_page, pad. rewrite length_app, length_replicate.
  assert (length (concat (fs_block (in_blocksize n) <$> page_refs n blki)) ≤ 4096)%nat; [| lia].
  unfold page_refs. assert (4096 / in_blocksize n = q) as -> by (rewrite Hq; apply Z.div_mul; lia).
  rewrite length_blocks by (lia || by apply Forall_take, Forall_drop). rewrite length_take. nia.
Qed.

Lemma length_page_of n k : inode_ok n → length (page_of n k) = 4096%nat.
Proof.
  intros (Hb & Hp & _). unfold page_of. destruct (in_blockCache n !! k) as [[p |] |] eqn:E;
    [| by apply length_disk_page..]. apply (Forall_lookup_1 _ _ _ _ Hp E).
Qed.

(** The same file, perhaps with more of it in memory. *)
Definition same_file (n n' : ext2inode) : Prop :=
  in_blocksize n' = in_blocksize n ∧ in_blockRefs n' = in_blockRefs n ∧ in_filesize n' = in_filesize n ∧
  length (in_blockCache n') = length (in_blockCache n) ∧ ∀ k, page_of n' k = page_of n k.

Lemma same_file_refl n : same_file n n.
Proof. by repeat split. Qed.

Lemma same_file_trans n1 n2 n3 : same_file n1 n2 → same_file n2 n3 → same_file n1 n3.
Proof.
  intros (Ha & Hb & Hc & Hd & He) (Ha2 & Hb2 & Hc2 & Hd2 & He2). split_and!; congruence.
Qed.

Lemma same_file_contents n n' : same_file n n' → contents n' = contents n.
Proof.
  intros (_ & _ & _ & Hl & Hp). unfold contents. rewrite Hl. f_equal. apply list_fmap_ext. intros i k _. apply Hp.
Qed.

Lemma ReadBlockRaw_spec n blki :
  inode_ok n → 0 ≤ blki < Z.of_nat (length (in_blockCache n)) →
  ∃ n' p, ReadBlockRaw d n blki = Ret (n', inr p) ∧ fp_data p = page_of n (Z.to_nat blki) ∧ inode_ok n' ∧
    same_file n n' ∧ in_blockCache n' !! Z.to_nat blki = Some (Some p).
Proof.
  intros Hn Hb. destruct (Hn) as (Hbl & Hpg & Hlim). unfold ReadBlockRaw. rewrite (proj2 (Z.ltb_lt _ _)) by lia.
  destruct (lookup_lt_is_Some_2 (in_blockCache n) (Z.to_nat blki)) as [c Hc]; [lia |].
  rewrite (proj2 (rd_Some _ _ c)) by done. cbn [mbind outcome_bind]. unfold page_of at 1. rewrite Hc.
  destruct c as [p |].
  { exists n, p. split_and!; try done; apply same_file_refl. }
  destruct (Hbl) as (Hbs & [q Hq] & Hall). unfold FILEPAGE_PAGE_SIZE. rewrite (wrap_id 64) by (split; lia).
  assert (0 < q) by nia. assert (4096 / in_blocksize n = q) as Hdiv by (rewrite Hq; apply Z.div_mul; lia).
  assert (blki * 4096 / in_blocksize n = blki * q) as -> by (rewrite Hq, Z.mul_assoc; apply Z.div_mul; lia).
  assert ((blki * 4096) mod in_blocksize n = 0) as -> by (rewrite Hq, Z.mul_assoc; apply Z.mod_mul; lia).
  rewrite (wrap_id 32) by (split; nia). change (u32 0) with 0. rewrite <- Hdiv, ReadBlocks_spec by (done || lia).
  cbn [mbind outcome_bind]. rewrite wr_lt by lia. cbn [mbind outcome_bind]. rewrite Z2Nat.id by lia.
  eexists _, _. split; [done |]. cbn [fp_data]. split; [done |]. split.
  { split; [exact Hbl |]. cbn [in_blockCache set_cache]. rewrite length_insert. split; [| done].
    apply Forall_insert; [done |]. simpl. by apply length_disk_page. }
  split; [| apply list_lookup_insert_eq; lia]. do 3 (split; [done |]). split; [apply length_insert |].
  intros k. unfold page_of. simpl. destruct (decide (k = Z.to_nat blki)) as [-> | Hne].
  - rewrite list_lookup_insert_eq, Hc by lia. simpl. by rewrite Z2Nat.id by lia.
  - by rewrite list_lookup_insert_ne.
Qed.

Lemma drop_concat (ls : list (list Z)) k :
  Forall (λ l, length l = 4096%nat) ls → drop (4096 * k) (concat ls) = concat (drop k ls).
Proof.
  intros Hls. revert k. induction Hls as [| l ls Hl _ IH]; intros k.
  - cbn [concat]. rewrite !drop_nil. done.
  - destruct k as [| k]; [by rewrite Nat.mul_0_r, drop_0 |]. cbn [concat].
    rewrite drop_app_ge by lia. rewrite Hl. replace (4096 * S k - 4096)%nat with (4096 * k)%nat by lia. apply IH.
Qed.

Lemma contents_pages n : inode_ok n → Forall (λ l, length l = 4096%nat) (page_of n <$> seq 0 (length (in_blockCache n))).
Proof. intros Hn. apply Forall_fmap, Forall_true. intros k. by apply length_page_of. Qed.

Lemma length_pages (ls : list (list Z)) :
  Forall (λ l, length l = 4096%nat) ls → length (concat ls) = (4096 * length ls)%nat.
Proof.
  induction 1 as [| l ls Hl _ IH]; [by rewrite Nat.mul_0_r |]. cbn [concat length]. rewrite length_app, Hl, IH. lia.
Qed.

Lemma length_contents n : inode_ok n → length (contents n) = (4096 * length (in_blockCache n))%nat.
Proof.
  intros Hn. unfold contents. rewrite length_pages by (by apply contents_pages). by rewrite length_fmap, length_seq.
Qed.

(** A piece of one page. *)
Lemma contents_slice n blk off len :
  inode_ok n → (blk < length (in_blockCache n))%nat → (off + len ≤ 4096)%nat →
  take len (drop (4096 * blk + off) (contents n)) = take len (drop off (page_of n blk)).
Proof.
  intros Hn Hb Ho. rewrite <- drop_drop. unfold contents. rewrite drop_concat by (by apply contents_pages).
  rewrite (drop_S _ (page_of n blk)) by (rewrite list_lookup_fmap, lookup_seq_lt by lia; done).
  cbn [concat]. pose proof (length_page_of n blk Hn).
  rewrite drop_app_le, take_app_le by (rewrite ?length_drop; lia). done.
Qed.

Lemma read_bytes_loop_spec fuel n offset vec len :
  inode_ok n → 0 ≤ offset → 0 ≤ vec ≤ len → offset + len ≤ 4096 * Z.of_nat (length (in_blockCache n)) →
  len - vec < Z.of_nat fuel →
  ∃ n', read_bytes_loop fuel d n offset vec len (take (Z.to_nat vec) (drop (Z.to_nat offset) (contents n))) =
      Ret (n', take (Z.to_nat len) (drop (Z.to_nat offset) (contents n)), FS_SUCCESS) ∧ inode_ok n' ∧ same_file n n'.
Proof.
  revert n vec. induction fuel as [| fuel IH]; intros n vec Hn Ho Hv Hl Hf; [lia |]. cbn [read_bytes_loop].
  destruct (Z.ltb_spec vec len) as [Hlt |].
  2: { replace vec with len by lia. exists n. split; [done |]. split; [done | apply same_file_refl]. }
  destruct (Hn) as (_ & _ & Hlim). rewrite (wrap_id 64) by (split; lia). unfold FILEPAGE_PAGE_SIZE. cbn zeta.
  set (blk := (offset + vec) / 4096). set (off := (offset + vec) mod 4096).
  pose proof (Z.div_mod (offset + vec) 4096 ltac:(lia)) as Hdm. fold blk off in Hdm.
  assert (0 ≤ off < 4096) by (apply Z.mod_pos_bound; lia).
  set (m := if len - vec <? 4096 then len - vec else 4096).
  assert (0 < m ≤ len - vec) as Hm by (subst m; ztest; lia). clearbody m.
  set (k := if 4096 - off <? m then 4096 - off else m).
  assert (0 < k ≤ len - vec ∧ off + k ≤ 4096) as [Hk Hk'] by (subst k; ztest; lia). clearbody k.
  destruct (ReadBlockRaw_spec n blk Hn) as (n1 & p & -> & Hp & Hn1 & Hs & _); [lia |]. cbn [mbind outcome_bind].
  pose proof (length_page_of n (Z.to_nat blk) Hn) as Hpl.
  rewrite Hp, memcpy_from_ok by lia. cbn [mbind outcome_bind].
  rewrite <- (contents_slice n (Z.to_nat blk) (Z.to_nat off) (Z.to_nat k)) by (done || lia).
  replace (4096 * Z.to_nat blk + Z.to_nat off)%nat with (Z.to_nat offset + Z.to_nat vec)%nat by lia.
  rewrite <- drop_drop, take_take_drop. replace (Z.to_nat vec + Z.to_nat k)%nat with (Z.to_nat (vec + k)) by lia.
  rewrite <- (same_file_contents n n1 Hs).
  destruct (IH n1 (vec + k) Hn1 Ho) as (n2 & E & Hn2 & Hs2); [lia | destruct Hs as (_ & _ & _ & -> & _); lia | lia |].
  exists n2. split; [done |]. split; [done | by eapply same_file_trans].
Qed.

End read.


(** A device in memory. *)
Definition memory_device (bs : Z) (disk : list Z) : blockdev := {|
  bd_blocksize := bs;
  bd_numblocks := Z.of_nat (length disk) / bs;
  bd_read n k :=
    if (n + k) * bs <=? Z.of_nat (length disk)
    then Some (take (Z.to_nat (k * bs)) (drop (Z.to_nat (n * bs)) disk)) else None;
|}.

Lemma memory_device_holds bs disk :
  0 < bs < 2 ^ 32 → Z.of_nat (length disk) < 2 ^ 62 → (bs | Z.of_nat (length disk)) → HoldsDisk (memory_device bs disk) disk.
Proof.
  intros Hbs Hl Hd. split; [done.. |]. intros n k Hn Hk Hle. simpl. by rewrite (proj2 (Z.leb_le _ _)).
Qed.

(** Eight blocks of 1024 bytes on a device with blocks of 512, and a file in the blocks 5 and 3. *)
Definition example_disk : list Z := (λ i, (i + i / 256) mod 256) <$> seqZ 0 8192.
Definition example_inode : ext2inode :=
  {| in_blocksize := 1024; in_blockRefs := [5; 3]; in_blockCache := [None]; in_filesize := 1500 |}.

Lemma example_inode_ok : inode_ok example_disk example_inode.
Proof.
  unfold inode_ok, inode_blocks_ok, on_disk. cbn [in_blocksize in_blockRefs in_blockCache example_inode].
  assert (Z.of_nat (length example_disk) = 8192) as -> by by vm_compute.
  split; [| split; [by repeat constructor | done]]. split; [lia |]. split; [by exists 4 |].
  repeat constructor; lia.
Qed.


(** * Dirty pages *)

(** a page that is dirty does not become more dirty.  The loop of setDirty compares with the value before
    the one it last saw: when the page is dirty up to [mem] and more of it is written, the exchange fails
    twice and the larger length is lost, so that the bytes after [mem] are never written to the disk. *)
Theorem setDirty_lost mem len : 0 < mem → 0 ≤ len → setDirty len mem = Ret mem.
Proof.
  intros Hm Hl. unfold setDirty. cbn [setDirty_loop]. rewrite (proj2 (Z.ltb_ge len 0)) by lia.
  unfold cmpxchg. rewrite (proj2 (Z.eqb_neq mem 0)) by lia.
  cbn -[Z.eqb Z.ltb]. rewrite !(proj2 (Z.eqb_neq mem 0)) by lia. by rewrite Z.eqb_refl.
Qed.

Lemma setDirty_lost_witness : setDirty 4096 100 = Ret 100.
Proof. apply setDirty_lost; lia. Defined.
