(* ===== verification/Ext2Write.v ===== *)
(** kernel/blockdevs/filesystems/ext2fs_inode.cpp (GetDataWrites), kernel/blockdevsystem/blockdev_writer.cpp: how
    the dirty pages of a file get to the disk. *)
From S2P Require Import Prelude PhysPageMap Ext2Alloc Partitions Ext2Inode.

Local Open Scope Z_scope.

(** * The code *)

(** struct dirty_block; the pages are shared with the file. *)
Record dirty_block := {
  db_page1 : option (list Z);
  db_page2 : option (list Z);
  db_blockaddr : Z;
  db_offset : Z;
  db_length : Z;
}.

Definition page_bytes (n : ext2inode) (k : Z) : outcome (option (list Z)) :=
  p ← rd (in_blockCache n) k; Ret (option_map fp_data p).

(** The inner loop of GetDataWrites: [count] blocks from block [i] of the file on. *)
Fixpoint block_writes (count : nat) (d : blockdev) (n : ext2inode) (i : Z) : outcome (list dirty_block) :=
  match count with
  | O => Ret []
  | S count =>
      let addr := i * in_blocksize n in
      let fileblock := u32 (addr / FILEPAGE_PAGE_SIZE) in
      let fileblock_offset := u32 (addr mod FILEPAGE_PAGE_SIZE) in
      ref ← rd (in_blockRefs n) i;
      let blockaddr := u64 (ref * in_blocksize n) / bd_blocksize d in
      page1 ← page_bytes n fileblock;
      page2 ← (if FILEPAGE_PAGE_SIZE <? fileblock_offset + in_blocksize n
               then page_bytes n (fileblock + 1) else Ret None);
      rest ← block_writes count d n (i + 1);
      Ret ({| db_page1 := page1; db_page2 := page2; db_blockaddr := blockaddr;
              db_offset := fileblock_offset; db_length := u32 (in_blocksize n) |} :: rest)
  end.

(** The outer loop over the pages from [i] on, [count] of them. *)
Fixpoint page_writes (count : nat) (d : blockdev) (n : ext2inode) (i : Z) : outcome (ext2inode * list dirty_block) :=
  match count with
  | O => Ret (n, [])
  | S count =>
      cached ← rd (in_blockCache n) i;
      match cached with
      | Some page =>
          if 0 <? fp_dirty page then
            let startingAddr := u64 (i * FILEPAGE_PAGE_SIZE) in
            let '(dirty, undirty) := getDirtyAndClear (fp_dirty page) in
            let endingAddr := u64 (startingAddr + dirty) in
            let startingBlock := startingAddr / in_blocksize n in
            let endingBlock := endingAddr / in_blocksize n - (if endingAddr mod in_blocksize n =? 0 then 1 else 0) in
            cache ← wr (in_blockCache n) i (Some {| fp_data := fp_data page; fp_dirty := undirty |});
            let n := set_cache cache n in
            blocks ← block_writes (Z.to_nat (endingBlock - startingBlock + 1)) d n startingBlock;
            r ← page_writes count d n (i + 1);
            Ret (r.1, blocks ++ r.2)
          else page_writes count d n (i + 1)
      | None => page_writes count d n (i + 1)
      end
  end.

Definition GetDataWrites (d : blockdev) (n : ext2inode) : outcome (ext2inode * list dirty_block) :=
  page_writes (length (in_blockCache n)) d n 0.

Section submit.
Context {W : Type} (blocksize : Z) (WriteBlock : list Z → Z → Z → W → Z * W).

(** The length of a chunk of blockdev_writer::Submit: what is left, in whole blocks. *)
Definition chunk_length (left : Z) : Z :=
  let chunkLength := if left <? blocksize then blocksize else left in
  let overshoot := chunkLength mod blocksize in
  if overshoot =? 0 then chunkLength else chunkLength + (blocksize - overshoot).

(** The bytes of a chunk, from the pages; none when the code gives up. *)
Definition chunk_bytes (wr : dirty_block) (offset chunkLength : Z) : outcome (option (list Z)) :=
  let page p := match p with Some l => Ret l | None => OutOfBounds end in
  if chunkLength + offset <=? FILEPAGE_PAGE_SIZE then
    p1 ← page (db_page1 wr); bytes ← memcpy_from p1 offset chunkLength; Ret (Some bytes)
  else if FILEPAGE_PAGE_SIZE <=? offset then
    match db_page2 wr with
    | None => Ret None
    | Some p2 => bytes ← memcpy_from p2 (offset - FILEPAGE_PAGE_SIZE) chunkLength; Ret (Some bytes)
    end
  else if FILEPAGE_PAGE_SIZE <? offset + chunkLength - FILEPAGE_PAGE_SIZE then Ret None
  else
    let endLength := FILEPAGE_PAGE_SIZE - offset in
    p1 ← page (db_page1 wr); first ← memcpy_from p1 offset endLength;
    p2 ← page (db_page2 wr); second ← memcpy_from p2 0 (chunkLength - endLength);
    Ret (Some (first ++ second)).

(** The loop of blockdev_writer::Submit over one dirty block. *)
Fixpoint submit_loop (fuel : nat) (wr : dirty_block) (blockaddr i : Z) (w : W) : outcome W :=
  match fuel with
  | O => OutOfFuel
  | S fuel =>
      if i <? db_length wr then
        let chunkLength := chunk_length (db_length wr - i) in
        let blocks := chunkLength / blocksize in
        bytes ← chunk_bytes wr (db_offset wr) chunkLength;
        match bytes with
        | None => Ret w
        | Some bytes =>
            let '(wrBlocks, w) := WriteBlock bytes blockaddr blocks w in
            if wrBlocks <=? 0 then Ret w
            else submit_loop fuel wr (blockaddr + wrBlocks) (i + wrBlocks * blocksize) w
        end
      else Ret w
  end.

Definition submit_one (wr : dirty_block) (w : W) : outcome W :=
  submit_loop (S (Z.to_nat (db_length wr))) wr (db_blockaddr wr) 0 w.

(** The dirty blocks of a flush, one after the other. *)
Fixpoint submit (wrs : list dirty_block) (w : W) : outcome W :=
  match wrs with
  | [] => Ret w
  | wr :: wrs => w ← submit_one wr w; submit wrs w
  end.

End submit.

(** * A chunk at a time *)

(** A device that writes all the blocks it is asked to. *)
Class WritesAll (bs : Z) (WriteBlock : list Z → Z → Z → list Z → Z * list Z) : Prop :=
  writes_all bytes addr blocks disk :
    0 ≤ addr → 0 < blocks → Z.of_nat (length bytes) = blocks * bs → (addr + blocks) * bs ≤ Z.of_nat (length disk) →
    WriteBlock bytes addr blocks disk = (blocks, over disk (addr * bs) bytes).

(** A device in memory. *)
Definition memory_write (bs : Z) (bytes : list Z) (addr blocks : Z) (disk : list Z) : Z * list Z :=
  if (addr + blocks) * bs <=? Z.of_nat (length disk) then (blocks, over disk (addr * bs) bytes) else (0, disk).

#[export] Instance memory_writes_all bs : WritesAll bs (memory_write bs).
Proof. intros bytes addr blocks disk _ _ _ Hin. unfold memory_write. by rewrite (proj2 (Z.leb_le _ _) Hin). Qed.

Section flush.
Context (d : blockdev) (WriteBlock : list Z → Z → Z → list Z → Z * list Z).
Context `{HW : !WritesAll (bd_blocksize d) WriteBlock}.
Context (bs : Z) (Hbs : 0 < bs ≤ 4096) (Hdiv : (bs | 4096)) (Hdev : 0 < bd_blocksize d) (Hmul : (bd_blocksize d | bs)).

(** Block [r] of the file system is written from a page. *)
Lemma submit_block wr p r disk :
  db_page1 wr = Some p → length p = 4096%nat → db_length wr = bs → 0 ≤ db_offset wr → db_offset wr + bs ≤ 4096 →
  db_blockaddr wr * bd_blocksize d = r * bs → 0 ≤ r → (r + 1) * bs ≤ Z.of_nat (length disk) →
  submit_one (bd_blocksize d) WriteBlock wr disk =
    Ret (over disk (r * bs) (take (Z.to_nat bs) (drop (Z.to_nat (db_offset wr)) p))).
Proof.
  intros Hp Hl Hlen Ho Hob Ha Hr Hin. destruct Hmul as [q Hq]. set (dbs := bd_blocksize d) in *.
  assert (0 < q) as Hq0 by nia.
  assert (chunk_length dbs bs = bs) as Hc.
  { unfold chunk_length. rewrite (proj2 (Z.ltb_ge bs dbs)) by nia. by rewrite Hq, Z.mod_mul by lia. }
  set (bytes := take (Z.to_nat bs) (drop (Z.to_nat (db_offset wr)) p)).
  assert (length bytes = Z.to_nat bs) as Hb by (unfold bytes; rewrite length_take, length_drop; lia).
  assert (chunk_bytes wr (db_offset wr) bs = Ret (Some bytes)) as Hcb.
  { unfold chunk_bytes, FILEPAGE_PAGE_SIZE. rewrite (proj2 (Z.leb_le _ _)), Hp by lia. cbn [mbind outcome_bind].
    by rewrite memcpy_from_ok by lia. }
  unfold submit_one. rewrite Hlen. replace (S (Z.to_nat bs)) with (S (S (pred (Z.to_nat bs)))) by lia.
  cbn [submit_loop]. rewrite Hlen, Z.sub_0_r, Hc, Hcb. rewrite (proj2 (Z.ltb_lt 0 bs)) by lia. cbn [mbind outcome_bind].
  assert (bs / dbs = q) as -> by (rewrite Hq; apply Z.div_mul; lia).
  rewrite writes_all; [| nia | lia | fold dbs; lia | fold dbs; nia]. cbn iota beta.
  rewrite (proj2 (Z.leb_gt q 0)) by lia. rewrite Z.add_0_l, <- Hq. rewrite (proj2 (Z.ltb_ge bs bs)) by lia.
  fold dbs. by rewrite Ha.
Qed.

(** ** Writing blocks *)

Lemma length_fs_block disk r : 0 ≤ r → (r + 1) * bs ≤ Z.of_nat (length disk) → length (fs_block disk bs r) = Z.to_nat bs.
Proof. intros. unfold fs_block. rewrite length_take, length_drop. nia. Qed.

Lemma fs_block_over disk r data r' :
  0 ≤ r → (r + 1) * bs ≤ Z.of_nat (length disk) → length data = Z.to_nat bs → 0 ≤ r' →
  fs_block (over disk (r * bs) data) bs r' = if r' =? r then data else fs_block disk bs r'.
Proof.
  intros Hr Hin Hd Hr'. unfold fs_block, over. rewrite Hd.
  assert (length (take (Z.to_nat (r * bs)) disk) = Z.to_nat (r * bs)) as Ht by (rewrite length_take; nia).
  destruct (Z.eqb_spec r' r) as [-> | Hne].
  - rewrite drop_app_length' by done. rewrite <- Hd. apply take_app_length.
  - destruct (decide (r' < r)).
    + rewrite drop_app_le, take_app_le by (rewrite ?length_drop, ?Ht; nia).
      rewrite skipn_firstn_comm, take_take. f_equal. nia.
    + rewrite app_assoc, drop_app_ge by (rewrite length_app, Ht, Hd; nia). rewrite length_app, Ht, Hd, drop_drop.
      do 2 f_equal. nia.
Qed.

Definition put_block (disk : list Z) (w : Z * list Z) : list Z := over disk (w.1 * bs) w.2.
Definition put_blocks (ws : list (Z * list Z)) (disk : list Z) : list Z := foldl put_block disk ws.

Definition write_ok (size : nat) (w : Z * list Z) : Prop :=
  0 ≤ w.1 ∧ (w.1 + 1) * bs ≤ Z.of_nat size ∧ length w.2 = Z.to_nat bs.

Lemma length_put_blocks ws disk : Forall (write_ok (length disk)) ws → length (put_blocks ws disk) = length disk.
Proof.
  revert disk. induction ws as [| w ws IH]; intros disk Hws; [done |]. apply Forall_cons in Hws as [(H1 & H2 & H3) Hws].
  assert (length (put_block disk w) = length disk) as E by (apply length_over; nia).
  unfold put_blocks. cbn [foldl]. rewrite <- E. rewrite <- E in Hws. apply (IH _ Hws).
Qed.

(** A block holds what was last written to it, or what it held before. *)
Lemma put_blocks_spec ws disk r :
  Forall (write_ok (length disk)) ws → 0 ≤ r →
  (∃ data, (r, data) ∈ ws ∧ fs_block (put_blocks ws disk) bs r = data) ∨
  (r ∉ ws.*1 ∧ fs_block (put_blocks ws disk) bs r = fs_block disk bs r).
Proof.
  intros Hws Hr. revert disk Hws. induction ws as [| [r0 data] ws IH]; intros disk Hws.
  { right. split; [apply not_elem_of_nil | done]. }
  apply Forall_cons in Hws as [(H1 & H2 & H3) Hws]. simpl in H1, H2, H3.
  assert (length (put_block disk (r0, data)) = length disk) as E by (apply length_over; simpl; nia).
  unfold put_blocks. cbn [foldl]. destruct (IH (put_block disk (r0, data))) as [(data' & Hin & Hd) | [Hnin Hd]].
  - by rewrite E.
  - left. exists data'. split; [by apply list_elem_of_further | done].
  - unfold put_blocks in Hd. rewrite Hd. unfold put_block at 1 2. cbn [fst snd].
    rewrite fs_block_over by done. destruct (Z.eqb_spec r r0) as [-> | Hne].
    + left. exists data. split; [apply list_elem_of_here | done].
    + right. split; [| done]. rewrite fmap_cons. apply not_elem_of_cons. done.
Qed.

(** ** The blocks of a page *)

Definition per_page : nat := Z.to_nat (4096 / bs).

Definition slice (p : list Z) (j : nat) : list Z := take (Z.to_nat bs) (drop (Z.to_nat bs * j) p).

Definition ref_at (n : ext2inode) (m : nat) : Z := default 0 (in_blockRefs n !! m).

(** The blocks [j] to [j + count] of page [k], with the bytes [p] of the page. *)
Definition page_blocks (n : ext2inode) (k : nat) (p : list Z) (j count : nat) : list (Z * list Z) :=
  (λ i, (ref_at n (k * per_page + i), slice p i)) <$> seq j count.

Lemma per_page_eq : Z.of_nat per_page * bs = 4096 ∧ (0 < per_page)%nat.
Proof.
  unfold per_page. destruct Hdiv as [q Hq]. assert (0 < q) by nia. rewrite Hq, Z.div_mul by lia. lia.
Qed.

Lemma submit_app wrs1 wrs2 (disk disk1 : list Z) :
  submit (bd_blocksize d) WriteBlock wrs1 disk = Ret disk1 →
  submit (bd_blocksize d) WriteBlock (wrs1 ++ wrs2) disk = submit (bd_blocksize d) WriteBlock wrs2 disk1.
Proof.
  revert disk. induction wrs1 as [| wr wrs1 IH]; intros disk; cbn [app submit]; [by intros [= ->] |].
  destruct (submit_one _ _ wr disk); try done. apply IH.
Qed.

(** The inode with its blocks and pages. *)
Definition flush_ok (size : nat) (n : ext2inode) : Prop :=
  in_blocksize n = bs ∧ Forall (λ r, 0 < r ∧ (r + 1) * bs ≤ Z.of_nat size) (in_blockRefs n) ∧
  Forall page_ok (in_blockCache n) ∧ 4096 * Z.of_nat (length (in_blockCache n)) < 2 ^ 32 ∧ Z.of_nat size < 2 ^ 62 ∧
  (per_page * length (in_blockCache n) ≤ length (in_blockRefs n))%nat ∧
  Forall (λ p, match p with Some p => 0 ≤ fp_dirty p ≤ 4096 | None => True end) (in_blockCache n).

Lemma ref_at_ok size n m :
  flush_ok size n → (m < length (in_blockRefs n))%nat →
  in_blockRefs n !! m = Some (ref_at n m) ∧ 0 < ref_at n m ∧ (ref_at n m + 1) * bs ≤ Z.of_nat size.
Proof.
  intros (_ & Hr & _) Hm. destruct (lookup_lt_is_Some_2 _ _ Hm) as [r E]. unfold ref_at. rewrite E. simpl.
  split; [done |]. apply (Forall_lookup_1 _ _ _ _ Hr E).
Qed.

Lemma length_slice p j : length p = 4096%nat → (j < per_page)%nat → length (slice p j) = Z.to_nat bs.
Proof. intros Hp Hj. pose proof per_page_eq. unfold slice. rewrite length_take, length_drop. nia. Qed.

Lemma page_blocks_ok size n k p j count :
  flush_ok size n → length p = 4096%nat → (j + count ≤ per_page)%nat → (k < length (in_blockCache n))%nat →
  Forall (write_ok size) (page_blocks n k p j count).
Proof.
  intros Hn Hp Hj Hk. apply Forall_fmap, Forall_forall. intros i Hi%elem_of_seq.
  assert (k * per_page + i < length (in_blockRefs n))%nat as Hm by (destruct Hn as (_ & _ & _ & _ & _ & Hc & _); nia).
  destruct (ref_at_ok size n _ Hn Hm) as (_ & H1 & H2). split; [simpl; lia |]. split; [done |]. apply length_slice; [done | lia].
Qed.

Lemma block_writes_spec n k p count : ∀ j disk,
  flush_ok (length disk) n → in_blockCache n !! k = Some (Some p) → (j + count ≤ per_page)%nat →
  ∃ wrs, block_writes count d n (Z.of_nat (k * per_page + j)) = Ret wrs ∧
    submit (bd_blocksize d) WriteBlock wrs disk = Ret (put_blocks (page_blocks n k (fp_data p) j count) disk).
Proof.
  induction count as [| count IH]; intros j disk Hn Hk Hj; [by exists [] |].
  destruct per_page_eq as [Hpp Hpp0]. pose proof (lookup_lt_Some _ _ _ Hk) as Hkl.
  destruct (Hn) as (Ebs & _ & Hpg & H32 & H62 & Hc & _).
  assert (length (fp_data p) = 4096%nat) as Hp by apply (Forall_lookup_1 _ _ _ _ Hpg Hk).
  assert (k * per_page + j < length (in_blockRefs n))%nat as Hm by nia.
  destruct (ref_at_ok _ n _ Hn Hm) as (Href & Hr1 & Hr2). cbn [block_writes]. rewrite Ebs. unfold FILEPAGE_PAGE_SIZE.
  assert (Z.of_nat (k * per_page + j) * bs = Z.of_nat k * 4096 + Z.of_nat j * bs) as -> by nia.
  assert (0 ≤ Z.of_nat j * bs < 4096) as Hjb by nia.
  rewrite Z.add_comm, Z.div_add, Z.mod_add, Z.div_small, Z.mod_small by lia. rewrite Z.add_0_l.
  rewrite !(wrap_id 32) by (split; lia).
  rewrite (proj2 (rd_Some (in_blockRefs n) _ (ref_at n (k * per_page + j)))) by (by rewrite Nat2Z.id).
  assert (page_bytes n (Z.of_nat k) = Ret (Some (fp_data p))) as ->
    by (unfold page_bytes; by rewrite (proj2 (rd_Some (in_blockCache n) (Z.of_nat k) (Some p))) by (by rewrite Nat2Z.id)).
  cbn [mbind outcome_bind]. rewrite (proj2 (Z.ltb_ge 4096 _)) by nia. cbn [mbind outcome_bind].
  set (r := ref_at n (k * per_page + j)) in *. rewrite (wrap_id 64) by (split; nia).
  assert (write_ok (length disk) (r, slice (fp_data p) j)) as Hw
    by (split; [simpl; lia | split; [done | apply length_slice; [done | lia]]]).
  set (disk1 := put_block disk (r, slice (fp_data p) j)).
  assert (length disk1 = length disk) as Hd1 by (apply length_over; destruct Hw as (? & ? & E); simpl in *; nia).
  destruct (IH (S j) disk1) as (wrs & E & Hs); [by rewrite Hd1 | done | lia |].
  replace (Z.of_nat (k * per_page + j) + 1) with (Z.of_nat (k * per_page + S j)) by lia. rewrite E.
  cbn [mbind outcome_bind]. eexists. split; [done |]. cbn [submit]. rewrite (submit_block _ (fp_data p) r); cbn; try done; try lia.
  - cbn [mbind outcome_bind]. replace (Z.to_nat (Z.of_nat j * bs)) with (Z.to_nat bs * j)%nat by nia. apply Hs.
  - nia.
  - destruct Hmul as [q Hq]. rewrite Hq, Z.mul_assoc, Z.div_mul by lia. lia.
Qed.

(** ** The dirty pages *)

Definition dirty_blocks (n : ext2inode) (k : nat) : list (Z * list Z) :=
  match in_blockCache n !! k with
  | Some (Some p) => if 0 <? fp_dirty p then page_blocks n k (fp_data p) 0 (Z.to_nat (div_up (fp_dirty p) bs)) else []
  | _ => []
  end.

(** The page [k] is no longer dirty. *)
Definition cleaned (k : nat) (n : ext2inode) : ext2inode :=
  match in_blockCache n !! k with
  | Some (Some p) => set_cache (<[k := Some {| fp_data := fp_data p; fp_dirty := if 0 <? fp_dirty p then 0 else fp_dirty p |}]> (in_blockCache n)) n
  | _ => n
  end.

Lemma cleaned_ok size k n : flush_ok size n → flush_ok size (cleaned k n).
Proof.
  intros Hn. unfold cleaned. destruct (in_blockCache n !! k) as [[p |] |] eqn:E; [| done..].
  destruct Hn as (H1 & H2 & H3 & H4 & H5 & H6 & H7). unfold flush_ok. cbn [set_cache in_blocksize in_blockRefs in_blockCache].
  rewrite length_insert. split_and!; try done.
  - apply Forall_insert; [done |]. apply (Forall_lookup_1 _ _ _ _ H3 E).
  - apply Forall_insert; [done |]. pose proof (Forall_lookup_1 _ _ _ _ H7 E) as Hp. simpl in *. destruct (0 <? _); lia.
Qed.

Lemma cleaned_later k n k' : k ≠ k' → in_blockCache (cleaned k n) !! k' = in_blockCache n !! k'.
Proof.
  intros Hne. unfold cleaned. destruct (in_blockCache n !! k) as [[p |] |]; [| done..]. simpl. by apply list_lookup_insert_ne.
Qed.

Lemma cleaned_refs k n : in_blockRefs (cleaned k n) = in_blockRefs n.
Proof. unfold cleaned. by destruct (in_blockCache n !! k) as [[p |] |]. Qed.

Lemma dirty_blocks_ok size n k : flush_ok size n → Forall (write_ok size) (dirty_blocks n k).
Proof.
  intros Hn. unfold dirty_blocks. destruct (in_blockCache n !! k) as [[p |] |] eqn:E; [| constructor..].
  destruct (0 <? fp_dirty p); [| constructor]. destruct (Hn) as (_ & _ & H3 & _ & _ & _ & H7).
  pose proof (Forall_lookup_1 _ _ _ _ H7 E) as Hd. pose proof (Forall_lookup_1 _ _ _ _ H3 E) as Hp. simpl in Hd, Hp.
  apply page_blocks_ok; [done.. | | by eapply lookup_lt_Some]. destruct per_page_eq.
  destruct (div_up_spec (fp_dirty p) bs) as [? ?]; [lia.. |].
  assert (div_up (fp_dirty p) bs * bs < (Z.of_nat per_page + 1) * bs) as Hlt by lia.
  apply Z.mul_lt_mono_pos_r in Hlt; lia.
Qed.

Lemma dirty_blocks_later n n' k :
  in_blockCache n' !! k = in_blockCache n !! k → in_blockRefs n' = in_blockRefs n → dirty_blocks n' k = dirty_blocks n k.
Proof. intros E1 E2. unfold dirty_blocks, page_blocks, ref_at. by rewrite E1, E2. Qed.

(** One dirty page: the blocks of the loop are those of the page. *)
Lemma dirty_page_writes n k p disk :
  flush_ok (length disk) n → in_blockCache n !! k = Some (Some p) → 0 < fp_dirty p →
  let startingAddr := u64 (Z.of_nat k * FILEPAGE_PAGE_SIZE) in
  let endingAddr := u64 (startingAddr + fp_dirty p) in
  let endingBlock := endingAddr / bs - (if endingAddr mod bs =? 0 then 1 else 0) in
  ∃ wrs, block_writes (Z.to_nat (endingBlock - startingAddr / bs + 1)) d (cleaned k n) (startingAddr / bs) = Ret wrs ∧
    submit (bd_blocksize d) WriteBlock wrs disk = Ret (put_blocks (dirty_blocks n k) disk).
Proof.
  intros Hn Hk Hd. cbn zeta. destruct (Hn) as (_ & _ & _ & H32 & _ & _ & H7). pose proof (lookup_lt_Some _ _ _ Hk).
  pose proof (Forall_lookup_1 _ _ _ _ H7 Hk) as Hdr. simpl in Hdr. unfold FILEPAGE_PAGE_SIZE.
  destruct per_page_eq as [Hpp Hpp0]. rewrite !(wrap_id 64) by (split; rewrite ?(wrap_id 64) by (split; lia); lia).
  assert (Z.of_nat k * 4096 = Z.of_nat (k * per_page) * bs) as -> by nia. rewrite Z.div_mul by lia.
  rewrite (Z.add_comm _ (fp_dirty p)), Z.div_add, Z.mod_add by lia.
  replace (Z.to_nat _) with (Z.to_nat (div_up (fp_dirty p) bs)) by (unfold div_up; destruct (fp_dirty p mod bs =? 0); f_equal; lia).
  assert (in_blockCache (cleaned k n) !! k = Some (Some {| fp_data := fp_data p; fp_dirty := 0 |})) as Hc.
  { unfold cleaned. rewrite Hk, (proj2 (Z.ltb_lt _ _)) by done. by apply list_lookup_insert_eq. }
  destruct (div_up_spec (fp_dirty p) bs) as [? ?]; [lia.. |].
  assert (div_up (fp_dirty p) bs * bs < (Z.of_nat per_page + 1) * bs) as Hlt by lia. apply Z.mul_lt_mono_pos_r in Hlt; [| lia].
  destruct (block_writes_spec (cleaned k n) k _ (Z.to_nat (div_up (fp_dirty p) bs)) 0 disk (cleaned_ok _ _ _ Hn) Hc)
    as (wrs & E & Hs); [lia |].
  rewrite Nat.add_0_r in E. exists wrs. split; [done |]. rewrite Hs. do 2 f_equal. unfold dirty_blocks.
  rewrite Hk, (proj2 (Z.ltb_lt _ _)) by done. unfold page_blocks, ref_at. by rewrite cleaned_refs.
Qed.

Lemma page_writes_spec count : ∀ n i disk,
  flush_ok (length disk) n → (i + count ≤ length (in_blockCache n))%nat →
  ∃ n' wrs, page_writes count d n (Z.of_nat i) = Ret (n', wrs) ∧
    submit (bd_blocksize d) WriteBlock wrs disk = Ret (put_blocks (concat (dirty_blocks n <$> seq i count)) disk).
Proof.
  induction count as [| count IH]; intros n i disk Hn Hi; [by exists n, [] |].
  destruct (lookup_lt_is_Some_2 (in_blockCache n) i) as [c Hc]; [lia |]. cbn [page_writes].
  rewrite (proj2 (rd_Some (in_blockCache n) (Z.of_nat i) c)) by (by rewrite Nat2Z.id). cbn [mbind outcome_bind].
  replace (Z.of_nat i + 1) with (Z.of_nat (S i)) by lia. cbn [seq fmap list_fmap concat].
  assert (dirty_blocks n i = [] → ∃ n' wrs, page_writes count d n (Z.of_nat (S i)) = Ret (n', wrs) ∧
    submit (bd_blocksize d) WriteBlock wrs disk = Ret (put_blocks (dirty_blocks n i ++ concat (dirty_blocks n <$> seq (S i) count)) disk))
    as Hclean by (intros ->; apply IH; [done | lia]).
  destruct c as [p |]; [| apply Hclean; unfold dirty_blocks; by rewrite Hc].
  destruct (Z.ltb_spec 0 (fp_dirty p)) as [Hd | Hd].
  2: { apply Hclean. unfold dirty_blocks. by rewrite Hc, (proj2 (Z.ltb_ge _ _)). }
  unfold getDirtyAndClear, cmpxchg. rewrite Z.eqb_refl. cbn [fst]. rewrite wr_lt by lia. cbn [mbind outcome_bind].
  rewrite Nat2Z.id. set (n1 := set_cache _ n). assert (n1 = cleaned i n) as ->
    by (unfold n1, cleaned; by rewrite Hc, (proj2 (Z.ltb_lt _ _))).
  destruct (Hn) as (Ebs & _). rewrite Ebs.
  destruct (dirty_page_writes n i p disk Hn Hc Hd) as (wrs & -> & Hs). cbn [mbind outcome_bind].
  assert (length (put_blocks (dirty_blocks n i) disk) = length disk) as Hl
    by (apply length_put_blocks; by apply dirty_blocks_ok).
  destruct (IH (cleaned i n) (S i) (put_blocks (dirty_blocks n i) disk)) as (n' & wrs' & -> & Hs').
  - rewrite Hl. by apply cleaned_ok.
  - unfold cleaned. rewrite Hc. simpl. rewrite length_insert. lia.
  - cbn [mbind outcome_bind fst snd]. eexists _, _. split; [done |]. rewrite (submit_app _ _ _ _ Hs), Hs'.
    assert (dirty_blocks (cleaned i n) <$> seq (S i) count = dirty_blocks n <$> seq (S i) count) as ->.
    { apply list_fmap_ext. intros j k Hk%lookup_seq.
      apply dirty_blocks_later; [apply cleaned_later; lia | apply cleaned_refs]. }
    unfold put_blocks. by rewrite foldl_app.
Qed.

(** ** Pages and their slices *)

Lemma concat_slices p m j :
  (Z.to_nat bs * (j + m) ≤ length p)%nat →
  concat (slice p <$> seq j m) = take (Z.to_nat bs * m) (drop (Z.to_nat bs * j) p).
Proof.
  revert j. induction m as [| m IH]; intros j Hl; [by rewrite Nat.mul_0_r |]. cbn [seq fmap list_fmap concat].
  rewrite IH by nia. unfold slice. replace (Z.to_nat bs * S j)%nat with (Z.to_nat bs * j + Z.to_nat bs)%nat by lia.
  rewrite <- drop_drop, take_take_drop. f_equal. lia.
Qed.

Lemma page_slices p : length p = 4096%nat → concat (slice p <$> seq 0 per_page) = p.
Proof.
  intros Hp. destruct per_page_eq. rewrite concat_slices by nia. rewrite Nat.mul_0_r, drop_0. apply take_ge. nia.
Qed.

(** A slice of blocks put together is one of them. *)
Lemma slice_concat (f : nat → list Z) m j :
  (∀ i, (i < m)%nat → length (f i) = Z.to_nat bs) → (j < m)%nat → slice (concat (f <$> seq 0 m)) j = f j.
Proof.
  intros Hf Hj. unfold slice. assert (∀ a c, (∀ i, (a ≤ i < a + c)%nat → length (f i) = Z.to_nat bs) →
    ∀ i, (i < c)%nat → take (Z.to_nat bs) (drop (Z.to_nat bs * i) (concat (f <$> seq a c))) = f (a + i)%nat) as H.
  { intros a c. revert a. induction c as [| c IH]; intros a Ha i Hi; [lia |]. cbn [seq fmap list_fmap concat].
    assert (length (f a) = Z.to_nat bs) as Hl by (apply Ha; lia). destruct i as [| i].
    - rewrite Nat.mul_0_r, drop_0, Nat.add_0_r. rewrite take_app_le, take_ge by lia. done.
    - rewrite drop_app_ge by lia. rewrite Hl. replace (Z.to_nat bs * S i - Z.to_nat bs)%nat with (Z.to_nat bs * i)%nat by lia.
      rewrite IH; [f_equal; lia | intros; apply Ha; lia | lia]. }
  apply (H 0%nat m); [intros; apply Hf; lia | lia].
Qed.

Lemma page_refs_eq size n k :
  flush_ok size n → (k < length (in_blockCache n))%nat →
  page_refs n (Z.of_nat k) = (λ j, ref_at n (k * per_page + j)) <$> seq 0 per_page.
Proof.
  intros Hn Hk. destruct (Hn) as (Ebs & _ & _ & _ & _ & Hc & _). destruct per_page_eq as [Hpp Hpp0].
  unfold page_refs. rewrite Ebs. fold per_page.
  replace (Z.to_nat (Z.of_nat k * (4096 / bs))) with (k * per_page)%nat by (unfold per_page; lia).
  apply list_eq. intros j. rewrite list_lookup_fmap. destruct (decide (j < per_page)%nat) as [Hj | Hj].
  - rewrite lookup_seq_lt, lookup_take_lt, lookup_drop by lia. simpl.
    apply (ref_at_ok size n); [done | nia].
  - rewrite lookup_take_ge by lia. by rewrite lookup_seq_ge by lia.
Qed.

Lemma disk_page_blocks size disk n k :
  flush_ok size n → length disk = size → (k < length (in_blockCache n))%nat →
  disk_page disk n (Z.of_nat k) = concat ((λ j, fs_block disk bs (ref_at n (k * per_page + j))) <$> seq 0 per_page) ∧
  length (disk_page disk n (Z.of_nat k)) = 4096%nat.
Proof.
  intros Hn Hl Hk. destruct (Hn) as (Ebs & _ & _ & _ & _ & Hc & _). destruct per_page_eq as [Hpp Hpp0].
  unfold disk_page. rewrite (page_refs_eq size) by done. rewrite Ebs, <- list_fmap_compose. unfold compose.
  set (l := concat _). assert (length l = 4096%nat) as E.
  { unfold l. rewrite (list_fmap_compose (λ j, ref_at n (k * per_page + j)) (fs_block disk bs)).
    rewrite length_blocks; [rewrite length_fmap, length_seq; nia | lia |].
    apply Forall_fmap, Forall_forall. intros j Hj%elem_of_seq. unfold compose, on_disk. rewrite Hl.
    apply (ref_at_ok size n); [done | nia]. }
  unfold pad. rewrite E, Nat.sub_diag, app_nil_r. done.
Qed.

(** The page [k] as it is after its dirty blocks are written. *)
Definition current (disk : list Z) (n : ext2inode) : Prop :=
  ∀ k p, in_blockCache n !! k = Some (Some p) →
    drop (Z.to_nat (fp_dirty p)) (fp_data p) = drop (Z.to_nat (fp_dirty p)) (disk_page disk n (Z.of_nat k)).

(** What a slice of a page is on the disk, when it is not written. *)
Lemma unwritten_slice disk n k j :
  flush_ok (length disk) n → current disk n → (k < length (in_blockCache n))%nat → (j < per_page)%nat →
  ref_at n (k * per_page + j) ∉ (dirty_blocks n k).*1 →
  fs_block disk bs (ref_at n (k * per_page + j)) = slice (page_of disk n k) j.
Proof.
  intros Hn Hcur Hk Hj Hnin. destruct (disk_page_blocks _ disk n k Hn eq_refl Hk) as [Ed Hl].
  assert (fs_block disk bs (ref_at n (k * per_page + j)) = slice (disk_page disk n (Z.of_nat k)) j) as Hs.
  { rewrite Ed, slice_concat; [done | | done]. intros i Hi. destruct (Hn) as (_ & _ & _ & _ & _ & Hc & _).
    apply length_fs_block; destruct (ref_at_ok _ n (k * per_page + i) Hn) as (_ & ? & ?); (lia || nia). }
  rewrite Hs. unfold page_of. destruct (in_blockCache n !! k) as [[p |] |] eqn:E; [| done..].
  specialize (Hcur k p E). destruct (Hn) as (_ & _ & _ & _ & _ & _ & H7).
  pose proof (Forall_lookup_1 _ _ _ _ H7 E) as Hd. simpl in Hd.
  assert (Z.to_nat (fp_dirty p) ≤ Z.to_nat bs * j)%nat as Hge.
  { unfold dirty_blocks in Hnin. rewrite E in Hnin. destruct (Z.ltb_spec 0 (fp_dirty p)); [| lia].
    destruct (div_up_spec (fp_dirty p) bs) as [? ?]; [lia.. |].
    destruct (decide (j < Z.to_nat (div_up (fp_dirty p) bs))%nat) as [Hlt |]; [| nia].
    exfalso. apply Hnin. unfold page_blocks. rewrite <- list_fmap_compose. apply list_elem_of_fmap. exists j.
    split; [done |]. apply elem_of_seq. lia. }
  unfold slice. replace (Z.to_nat bs * j)%nat with (Z.to_nat (fp_dirty p) + (Z.to_nat bs * j - Z.to_nat (fp_dirty p)))%nat by lia.
  rewrite <- !drop_drop. by rewrite Hcur.
Qed.

Lemma elem_of_concat {A} (x : A) (ls : list (list A)) : x ∈ concat ls ↔ ∃ l, x ∈ l ∧ l ∈ ls.
Proof.
  rewrite list_elem_of_In, in_concat. setoid_rewrite list_elem_of_In. naive_solver.
Qed.

(** A block written is the slice of its page, as no two blocks of the file are the same. *)
Lemma written_slice disk n k j data :
  flush_ok (length disk) n → NoDup (in_blockRefs n) → (k < length (in_blockCache n))%nat → (j < per_page)%nat →
  (ref_at n (k * per_page + j), data) ∈ concat (dirty_blocks n <$> seq 0 (length (in_blockCache n))) →
  data = slice (page_of disk n k) j.
Proof.
  intros Hn Hnd Hk Hj (l & Hin & Hl)%elem_of_concat. apply list_elem_of_fmap in Hl as (k' & -> & Hk'%elem_of_seq).
  destruct (Hn) as (_ & _ & _ & _ & _ & Hc & H7). unfold dirty_blocks in Hin.
  destruct (in_blockCache n !! k') as [[p |] |] eqn:E; [| by apply elem_of_nil in Hin..].
  pose proof (Forall_lookup_1 _ _ _ _ H7 E) as Hd. simpl in Hd. destruct per_page_eq as [Hpp Hpp0].
  destruct (Z.ltb_spec 0 (fp_dirty p)); [| by apply elem_of_nil in Hin].
  apply list_elem_of_fmap in Hin as (i & [= Er ->] & Hi%elem_of_seq).
  destruct (div_up_spec (fp_dirty p) bs) as [? ?]; [lia.. |].
  assert (div_up (fp_dirty p) bs * bs < (Z.of_nat per_page + 1) * bs) as Hlt by lia. apply Z.mul_lt_mono_pos_r in Hlt; [| lia].
  destruct (ref_at_ok _ n (k * per_page + j) Hn) as (R1 & _); [nia |].
  destruct (ref_at_ok _ n (k' * per_page + i) Hn) as (R2 & _); [nia |]. rewrite <- Er in R2.
  pose proof (proj1 (NoDup_alt _) Hnd _ _ _ R1 R2) as Eq.
  assert (k' = k ∧ i = j) as [-> ->] by (split; nia). unfold page_of. by rewrite E.
Qed.

Lemma flush_spec disk n :
  flush_ok (length disk) n → NoDup (in_blockRefs n) → current disk n →
  ∃ n' wrs disk', GetDataWrites d n = Ret (n', wrs) ∧ submit (bd_blocksize d) WriteBlock wrs disk = Ret disk' ∧
    length disk' = length disk ∧
    ∀ k, (k < length (in_blockCache n))%nat → disk_page disk' n (Z.of_nat k) = page_of disk n k.
Proof.
  intros Hn Hnd Hcur.
  destruct (page_writes_spec (length (in_blockCache n)) n 0 disk Hn) as (n' & wrs & E & Hs); [lia |].
  set (ws := concat _) in Hs. assert (Forall (write_ok (length disk)) ws) as Hws.
  { apply Forall_concat, Forall_fmap, Forall_true. intros k. by apply dirty_blocks_ok. }
  pose proof (length_put_blocks ws disk Hws) as Hl. exists n', wrs, (put_blocks ws disk).
  split; [done |]. split; [done |]. split; [done |]. intros k Hk.
  destruct (disk_page_blocks (length disk) (put_blocks ws disk) n k Hn Hl Hk) as [-> _].
  destruct (disk_page_blocks (length disk) disk n k Hn eq_refl Hk) as [_ Hdl]. destruct (Hn) as (_ & _ & H3 & _ & _ & Hc & _).
  assert (length (page_of disk n k) = 4096%nat) as Hpl.
  { unfold page_of. destruct (in_blockCache n !! k) as [[p |] |] eqn:Ek; [| done..]. apply (Forall_lookup_1 _ _ _ _ H3 Ek). }
  rewrite <- (page_slices (page_of disk n k) Hpl). f_equal. apply list_fmap_ext. intros i j [Hj Hj']%lookup_seq.
  simpl in Hj. subst j. destruct (ref_at_ok _ n (k * per_page + i) Hn) as (_ & Hr & _); [nia |].
  destruct (put_blocks_spec ws disk (ref_at n (k * per_page + i)) Hws) as [(data & Hin & ->) | [Hnin ->]]; [lia | |].
  - by apply written_slice.
  - apply unwritten_slice; try done. intros Hin. apply Hnin. unfold ws.
    apply list_elem_of_fmap in Hin as (w & Hw & Hin). apply list_elem_of_fmap. exists w. split; [done |].
    apply elem_of_concat. exists (dirty_blocks n k). split; [done |]. apply list_elem_of_fmap. exists k.
    split; [done |]. apply elem_of_seq. lia.
Qed.

End flush.

(** A file with nothing of it in memory. *)
Definition forgotten (n : ext2inode) : ext2inode := set_cache (replicate (length (in_blockCache n)) None) n.

(** C20: what is flushed can be read back: the blocks that GetDataWrites lists and the loop of
    blockdev_writer::Submit writes bring the disk to where the file, read from the disk alone, has the contents it
    had in memory.  The device writes all the blocks it is asked to, the block size of the file system divides the
    page and is a multiple of that of the device, and the dirty length of every page covers what was changed in it
    (see setDirty_lost).  The file is below 4 GiB, its pages are whole ones, its blocks are different ones of the
    disk and none is a hole, and nothing else writes to the file or the disk meanwhile. *)
Theorem flush_correct d WriteBlock `{!WritesAll (bd_blocksize d) WriteBlock} disk n :
  0 < in_blocksize n ≤ 4096 → (in_blocksize n | 4096) → 0 < bd_blocksize d → (bd_blocksize d | in_blocksize n) →
  flush_ok (in_blocksize n) (length disk) n → NoDup (in_blockRefs n) → current disk n →
  ∃ n' wrs disk', GetDataWrites d n = Ret (n', wrs) ∧ submit (bd_blocksize d) WriteBlock wrs disk = Ret disk' ∧
    length disk' = length disk ∧ contents disk' (forgotten n) = contents disk n.
Proof.
  intros Hbs Hdiv Hdev Hmul Hn Hnd Hcur.
  destruct (flush_spec d WriteBlock (in_blocksize n) Hbs Hdiv Hdev Hmul disk n Hn Hnd Hcur) as (n' & wrs & disk' & E & Hs & Hl & Hp).
  exists n', wrs, disk'. split; [done |]. split; [done |]. split; [done |]. unfold contents, forgotten. simpl.
  rewrite length_replicate. f_equal. apply list_fmap_ext. intros i k [-> Hk]%lookup_seq. rewrite <- Hp by lia.
  unfold page_of. simpl. destruct (replicate _ None !! i) as [[p |] |] eqn:Er; [| done..].
  apply lookup_replicate in Er as [? _]. done.
Qed.

(** Two pages over eight blocks of 1024 bytes, the second page changed in its first 1100 bytes, on a device with
    blocks of 512. *)
Definition flush_disk : list Z := (λ i, (i + i / 256) mod 256) <$> seqZ 0 12288.
Definition flush_page : filepage :=
  {| fp_data := replicate 1100 7 ++ drop 1100 (concat (fs_block flush_disk 1024 <$> [11; 5; 2; 8])); fp_dirty := 1100 |}.
Definition flush_inode : ext2inode := {|
  in_blocksize := 1024; in_blockRefs := [9; 3; 10; 4; 11; 5; 2; 8]; in_blockCache := [None; Some flush_page];
  in_filesize := 8000 |}.

Lemma flush_page_current :
  drop (Z.to_nat (fp_dirty flush_page)) (fp_data flush_page) =
  drop (Z.to_nat (fp_dirty flush_page)) (disk_page flush_disk flush_inode 1).
Proof. by vm_compute. Qed.

Lemma flush_inode_current : current flush_disk flush_inode.
Proof.
  intros k p Hk. pose proof (lookup_lt_Some _ _ _ Hk) as Hl. cbn [in_blockCache flush_inode length] in Hl.
  destruct k as [| [| k]]; [| | lia]; cbn [in_blockCache flush_inode lookup list_lookup] in Hk; [congruence |].
  assert (p = flush_page) as -> by congruence. exact flush_page_current.
Qed.

Lemma flush_inode_ok size : Z.of_nat size = 12288 → flush_ok (in_blocksize flush_inode) size flush_inode.
Proof.
  intros Hs. unfold flush_ok. rewrite Hs. cbn [in_blocksize in_blockRefs in_blockCache flush_inode length].
  split; [done |]. split; [repeat (apply Forall_cons; split; [lia |]); apply Forall_nil_2 |].
  split; [repeat (apply Forall_cons; split; [by vm_compute |]); apply Forall_nil_2 |].
  split; [done |]. split; [done |]. split; [change (per_page 1024) with 4%nat; lia |].
  repeat (apply Forall_cons; split; [first [exact I | cbn [fp_dirty flush_page]; lia] |]). apply Forall_nil_2.
Qed.

Lemma flush_correct_witness :
  ∃ n' wrs disk', GetDataWrites (memory_device 512 flush_disk) flush_inode = Ret (n', wrs) ∧
    submit 512 (memory_write 512) wrs flush_disk = Ret disk' ∧
    length disk' = length flush_disk ∧ contents disk' (forgotten flush_inode) = contents flush_disk flush_inode.
Proof.
  apply (flush_correct (memory_device 512 flush_disk) (memory_write 512)).
  - cbn. lia.
  - by exists 4.
  - done.
  - by exists 2.
  - apply flush_inode_ok. by vm_compute.
  - apply (bool_decide_unpack _). by vm_compute.
  - apply flush_inode_current.
Defined.
