(* ===== verification/PPageAlloc.v ===== *)
(** * Allocation of physical pages

    [ppagealloc_locked], [ppagealloc32] and [ppagefree] of
    [kernel/pagealloc.cpp], against the interface of the physical page map. *)

From S2P Require Import Prelude PhysPageMap.

Section PPageAlloc.
Context {M : Type} `{PhyspageMapManaged M}.

(** The state the functions work on: the map behind [get_physpagemap()] and
    the counter [allocated_ppages]. *)
Record ppage_state := PPageState {
  physp : M;
  allocated_ppages : Z;
}.

(** Rounding a size in bytes to a number of pages, at width [w]. *)
Definition size_to_pages (w size : Z) : Z :=
  let size := if negb (Z.land size 4095 =? 0) then wrap w (size + 4096) else size in
  size / 4096.

(** for (addr = starting_addr; addr < ending_addr; addr += 4096)
      phys->claim(addr >> 12); *)
Fixpoint grab_pages (fuel : nat) (addr ending_addr : Z) (m : M) : outcome M :=
  match fuel with
  | O => OutOfFuel
  | S fuel =>
      if addr <? ending_addr then
        m ← pm_claim (u32 (Z.shiftr addr 12)) m;
        grab_pages fuel (u64 (addr + 4096)) ending_addr m
      else Ret m
  end.

(** The search loop over the pages [page, max), with the variables
    [starting_addr] and [count] of width [w]; [size] is in pages. *)
Fixpoint ppage_scan (w : Z) (fuel : nat) (page max starting_addr count size : Z)
    (st : ppage_state) : outcome (Z * ppage_state) :=
  match fuel with
  | O => OutOfFuel
  | S fuel =>
      if page <? max then
        used ← pm_claimed page (physp st);
        if negb used then
          if negb (starting_addr =? 0) then
            let count := wrap w (count + 1) in
            if count =? size then
              let ending_addr := wrap w (starting_addr + wrap w (count * 4096)) in
              m ← grab_pages (S (Z.to_nat size)) starting_addr ending_addr (physp st);
              Ret (starting_addr, PPageState m (allocated_ppages st + size))
            else ppage_scan w fuel (u32 (page + 1)) max starting_addr count size st
          else
            let starting_addr := wrap w (Z.shiftl page 12) in
            if size =? 1 then
              m ← pm_claim (u32 (Z.shiftr starting_addr 12)) (physp st);
              Ret (starting_addr, PPageState m (allocated_ppages st + 1))
            else ppage_scan w fuel (u32 (page + 1)) max starting_addr 1 size st
        else ppage_scan w fuel (u32 (page + 1)) max 0 count size st
      else Ret (0, st)
  end.

Definition ppagealloc_locked (size : Z) (st : ppage_state) : outcome (Z * ppage_state) :=
  let size := size_to_pages 64 size in
  let base := pm_base (physp st) in
  let max := pm_max (physp st) in
  ppage_scan 64 (S (Z.to_nat (max - base))) base max 0 0 size st.

Definition ppagealloc32 (size : Z) (st : ppage_state) : outcome (Z * ppage_state) :=
  let size := size_to_pages 32 size in
  let max := Z.shiftr 0xFFFFFFFF 12 + 1 in
  let max := if pm_max (physp st) <? max then pm_max (physp st) else max in
  ppage_scan 32 (S (Z.to_nat (max - 256))) 256 max 0 0 size st.

(** The loop of [ppagefree]: [addr] and [size] are in pages. *)
Fixpoint ppagefree_loop (fuel : nat) (addr size : Z) (st : ppage_state) : outcome ppage_state :=
  match fuel with
  | O => OutOfFuel
  | S fuel =>
      if 0 <? size then
        used ← pm_claimed (u32 addr) (physp st);
        if negb used || (pm_max (physp st) <=? addr) then Panicked
        else
          m ← pm_release (u32 addr) (physp st);
          ppagefree_loop fuel (u64 (addr + 1)) (u64 (size - 1))
            (PPageState m (allocated_ppages st - 1))
      else Ret st
  end.

Definition ppagefree (addr size : Z) (st : ppage_state) : outcome ppage_state :=
  let addr := Z.shiftr addr 12 in
  let size := if negb (Z.land size 4095 =? 0) then u64 (size + 4096) else size in
  let size := Z.shiftr size 12 in
  ppagefree_loop (S (Z.to_nat size)) addr size st.

(** ** Correctness, from the laws of the page map *)

Context `{!PhyspageMapLaws M}.

(** [n] free pages from page [p] on.  Pages outside the map count as used. *)
Definition free_run (m : M) (p n : Z) : Prop :=
  ∀ q, p ≤ q < p + n → pm_used m q = false.

(** The same map with the pages [p, p+n) taken as well. *)
Definition grabbed (m m' : M) (p n : Z) : Prop :=
  pm_wf m' ∧ pm_base m' = pm_base m ∧ pm_max m' = pm_max m ∧
  ∀ q, is_u 32 q → pm_used m' q = pm_used m q || PhyspageMap.in_range p n q.

Lemma size_to_pages_ceil w size :
  12 ≤ w → is_u w size → size + 4096 < 2 ^ w →
  size_to_pages w size = (size + 4095) / 4096.
Proof.
  intros Hw [H0 H1] Ho. unfold size_to_pages.
  change 4095 with (Z.ones 12) at 1. rewrite Z.land_ones by lia. change (2 ^ 12) with 4096.
  pose proof (Z.div_mod size 4096). pose proof (Z.mod_pos_bound size 4096 eq_refl).
  destruct (Z.eqb_spec (size mod 4096) 0) as [E | E]; simpl.
  - apply (Z.div_unique _ _ _ 4095); lia.
  - rewrite wrap_id by (unfold is_u; lia).
    apply (Z.div_unique _ _ _ (size mod 4096 - 1)); [lia |].
    replace (size + 4096) with (size + 1 * 4096) by lia. rewrite Z.div_add by lia. lia.
Qed.

Lemma shift_page p : 0 ≤ p → Z.shiftr (4096 * p) 12 = p.
Proof. intros. rewrite Z.shiftr_div_pow2 by lia. rewrite Z.mul_comm. by apply Z.div_mul. Qed.

Lemma grab_pages_spec fuel m p n :
  pm_wf m → 0 ≤ p → 0 ≤ n → p + n ≤ 2 ^ 32 → (Z.to_nat n < fuel)%nat →
  ∃ m', grab_pages fuel (4096 * p) (4096 * (p + n)) m = Ret m' ∧ grabbed m m' p n.
Proof.
  revert m p n. induction fuel as [| fuel IH]; intros m p n W Hp Hn Ho Hf; [lia |].
  cbn [grab_pages]. destruct (Z.ltb_spec (4096 * p) (4096 * (p + n))) as [Hlt | Hge].
  - rewrite shift_page, (wrap_id 32) by (unfold is_u; lia).
    destruct (pm_claim_law m p) as (m1 & -> & W1 & B1 & X1 & U1); [done | unfold is_u; lia |].
    cbn [mbind outcome_bind]. rewrite wrap_id by (unfold is_u; lia).
    replace (4096 * p + 4096) with (4096 * (p + 1)) by lia.
    replace (4096 * (p + n)) with (4096 * ((p + 1) + (n - 1))) by lia.
    destruct (IH m1 (p + 1) (n - 1)) as (m2 & -> & W2 & B2 & X2 & U2); [done | lia.. |].
    exists m2. split; [done |]. split; [done |]. split_and!; [congruence.. |].
    intros q Hq. rewrite U2, U1, (PhyspageMap.in_range_split p 1 n) by (done || lia).
    by rewrite orb_assoc, PhyspageMap.in_range_1.
  - exists m. split; [done |]. split; [done |]. split_and!; [done.. |].
    intros q Hq. by rewrite PhyspageMap.in_range_empty, orb_false_r by lia.
Qed.

(** What a search has established when it reaches [page]: no run of [size]
    free pages ends before [page], and [starting_addr]/[count] describe the
    run of free pages that ends there, if any. *)
Definition scan_inv (m : M) (lo page starting_addr count size : Z) : Prop :=
  (∀ p, lo ≤ p → p + size ≤ page → ¬ free_run m p size) ∧
  ((starting_addr = 0 ∧ (lo < page → pm_used m (page - 1) = true)) ∨
   ∃ s, 0 < s ∧ lo ≤ s < page ∧ starting_addr = 4096 * s ∧ count = page - s ∧
     free_run m s (page - s) ∧ count < size ∧ (lo < s → pm_used m (s - 1) = true)).
(** The outcome of the search from [lo]: failure, with no run of [size] free
    pages; or the first such run, handed to the code that claims it. *)
Definition scan_none (m : M) (lo max size : Z) : Prop :=
  ∀ p, lo ≤ p → p + size ≤ max → ¬ free_run m p size.

Definition scan_first (m : M) (lo max size p : Z) : Prop :=
  0 < p ∧ lo ≤ p ∧ p + size ≤ max ∧ free_run m p size ∧
  ∀ p', lo ≤ p' < p → ¬ free_run m p' size.

Definition scan_take (w size p : Z) (st : ppage_state) : outcome (Z * ppage_state) :=
  m ← (if size =? 1 then pm_claim p (physp st)
       else grab_pages (S (Z.to_nat size)) (4096 * p) (wrap w (4096 * (p + size))) (physp st));
  Ret (4096 * p, PPageState m (allocated_ppages st + size)).

Lemma scan_inv_used m lo page sa cnt size :
  1 ≤ size → scan_inv m lo page sa cnt size → pm_used m page = true →
  scan_inv m lo (page + 1) 0 cnt size.
Proof.
  intros Hs [Hno _] Hu. split.
  - intros p Hlo Hp Hr. destruct (decide (p + size ≤ page)); [by apply (Hno p) |].
    rewrite (Hr page) in Hu by lia. done.
  - left. split; [done |]. intros _. by replace (page + 1 - 1) with page by lia.
Qed.

Lemma scan_inv_next m lo page s cnt size :
  scan_inv m lo page (4096 * s) cnt size → 0 < s → pm_used m page = false → cnt + 1 ≠ size →
  scan_inv m lo (page + 1) (4096 * s) (cnt + 1) size.
Proof.
  intros [Hno [[? _] | (s' & Hs0 & Hs & E & -> & Hr & Hc & Hm)]] Hs0' Hu Hne; [lia |].
  assert (s' = s) as -> by lia. split.
  - intros p Hlo Hp Hr'. destruct (decide (p + size ≤ page)); [by apply (Hno p) |].
    destruct (decide (p < s)); [| lia].
    specialize (Hr' (s - 1)). rewrite Hm in Hr' by lia. discriminate Hr'. lia.
  - right. exists s. split_and!; try lia; [| done].
    intros q Hq. destruct (decide (q = page)) as [-> |]; [done | apply Hr; lia].
Qed.

Lemma scan_inv_start m lo page cnt size :
  scan_inv m lo page 0 cnt size → lo ≤ page → 0 < page → pm_used m page = false → 1 < size →
  scan_inv m lo (page + 1) (4096 * page) 1 size.
Proof.
  intros [Hno [[_ Hm] | (s' & Hs0 & Hs & E & _)]] Hlo Hpos Hu Hne; [| lia]. split.
  - intros p Hp Hps Hr. destruct (decide (p + size ≤ page)); [by apply (Hno p) |].
    specialize (Hr (page - 1)). rewrite Hm in Hr by lia. discriminate Hr. lia.
  - right. exists page. split_and!; try lia; [| done].
    intros q Hq. assert (q = page) as -> by lia. done.
Qed.

Lemma ppage_scan_spec w fuel lo page max sa cnt size st :
  32 ≤ w → pm_wf (physp st) → (lo = 0 → pm_used (physp st) 0 = true) →
  0 ≤ lo ≤ page → page ≤ max → max < 2 ^ 32 → 4096 * max ≤ 2 ^ w → 1 ≤ size < 2 ^ w →
  scan_inv (physp st) lo page sa cnt size → (Z.to_nat (max - page) < fuel)%nat →
  (ppage_scan w fuel page max sa cnt size st = Ret (0, st) ∧
    scan_none (physp st) lo max size) ∨
  (∃ p, scan_first (physp st) lo max size p ∧
    ppage_scan w fuel page max sa cnt size st = scan_take w size p st).
Proof.
  intros Hw W H0. revert page sa cnt.
  induction fuel as [| fuel IH]; intros page sa cnt Hlo Hmax Hm32 Hmw Hsz Hinv Hf; [lia |].
  cbn [ppage_scan]. destruct (Z.ltb_spec page max) as [Hlt | Hge].
  2:{ left. split; [done |]. intros p Hp Hps. destruct Hinv as [Hno _]. apply Hno; lia. }
  rewrite pm_claimed_law by (done || unfold is_u; lia). cbn [mbind outcome_bind].
  rewrite (wrap_id 32 (page + 1)) by (unfold is_u; lia).
  destruct (pm_used (physp st) page) eqn:Hu; cbn [negb].
  { apply IH; try lia. by eapply scan_inv_used; [lia | ..]. }
  pose proof Hinv as [Hno [[-> Hm] | (s & Hs0 & Hs & -> & -> & Hr & Hc & Hm)]].
  - cbn [negb Z.eqb]. assert (0 < page).
    { destruct (decide (page = 0)) as [-> |]; [| lia]. rewrite H0 in Hu by lia. done. }
    rewrite Z.shiftl_mul_pow2 by lia.
    rewrite (wrap_id w (page * 2 ^ 12)) by (unfold is_u; lia).
    replace (page * 2 ^ 12) with (4096 * page) by lia.
    destruct (Z.eqb_spec size 1) as [-> | Hne].
    + right. exists page. unfold scan_take. rewrite shift_page, wrap_id by (unfold is_u; lia).
      split; [| done]. split_and!; try lia.
      * intros q Hq. by replace q with page by lia.
      * intros p' Hp'. apply Hno; lia.
    + apply IH; try lia. apply (scan_inv_start _ _ _ cnt); (done || lia).
  - destruct (Z.eqb_spec (4096 * s) 0); [lia |]. cbn [negb].
    rewrite (wrap_id w (page - s + 1)) by (unfold is_u; lia).
    destruct (Z.eqb_spec (page - s + 1) size) as [E | Hne].
    + right. exists s. split.
      * split_and!; try lia; [intros q Hq; destruct (decide (q = page)) as [-> |]; [done |];
          apply Hr; lia |].
        intros p' Hp' Hr'. destruct (decide (p' + size ≤ page)); [apply (Hno p'); (done || lia) |].
        specialize (Hr' (s - 1)). rewrite Hm in Hr' by lia. discriminate Hr'. lia.
      * unfold scan_take. destruct (Z.eqb_spec size 1); [lia |]. rewrite E.
        assert (wrap w (4096 * s + wrap w (size * 4096)) = wrap w (4096 * (s + size))) as ->;
          [| done].
        unfold wrap. rewrite Zplus_mod_idemp_r. f_equal. lia.
    + apply IH; try lia. by apply scan_inv_next.
Qed.

Lemma scan_inv_init m lo size cnt : 1 ≤ size → scan_inv m lo lo 0 cnt size.
Proof. intros. split; [intros; lia |]. left. split; [done | lia]. Qed.

(** A free run lies inside the map. *)
Lemma free_run_tracked m p n :
  pm_wf m → 1 ≤ n → free_run m p n → pm_base m ≤ p ∧ p + n ≤ pm_max m.
Proof.
  intros W Hn Hr. split.
  - destruct (decide (pm_base m ≤ p < pm_max m)) as [| E]; [lia |].
    specialize (Hr p). rewrite pm_outside in Hr by done. discriminate Hr. lia.
  - destruct (decide (pm_base m ≤ p + n - 1 < pm_max m)) as [| E]; [lia |].
    specialize (Hr (p + n - 1)). rewrite pm_outside in Hr by done. discriminate Hr. lia.
Qed.

(** Taking the run that was found, when its end does not wrap. *)
Lemma scan_take_spec w lo max size p st :
  32 ≤ w → pm_wf (physp st) → scan_first (physp st) lo max size p → 1 ≤ size →
  max < 2 ^ 32 → 4096 * (p + size) < 2 ^ w →
  ∃ m', scan_take w size p st = Ret (4096 * p, PPageState m' (allocated_ppages st + size)) ∧
    grabbed (physp st) m' p size.
Proof.
  intros Hw W (Hp & Hlo & Hmax & Hr & _) Hs Hm Hnw. unfold scan_take.
  destruct (Z.eqb_spec size 1) as [-> | Hne].
  - destruct (pm_claim_law (physp st) p) as (m' & -> & W' & B & X & U);
      [done | unfold is_u; lia |].
    exists m'. split; [done |]. split_and!; [done.. |]. intros q Hq.
    by rewrite U, PhyspageMap.in_range_1.
  - rewrite wrap_id by (unfold is_u; lia).
    destruct (grab_pages_spec (S (Z.to_nat size)) (physp st) p size) as (m' & -> & G);
      [done | lia.. |]. by exists m'.
Qed.

(** A page range taken out of the map by an allocation. *)
Definition allocated (st st' : ppage_state) (lo a n : Z) : Prop :=
  ∃ p, a = 4096 * p ∧ 0 < p ∧ lo ≤ p ∧ free_run (physp st) p n ∧
    (∀ p', lo ≤ p' < p → ¬ free_run (physp st) p' n) ∧
    grabbed (physp st) (physp st') p n ∧
    allocated_ppages st' = allocated_ppages st + n.

Lemma ppagealloc_locked_spec (st : ppage_state) (size : Z) :
  pm_wf (physp st) → (pm_base (physp st) = 0 → pm_used (physp st) 0 = true) →
  0 < size → size + 4096 < 2 ^ 64 →
  let n := (size + 4095) / 4096 in
  ∃ a st', ppagealloc_locked size st = Ret (a, st') ∧
    (allocated st st' (pm_base (physp st)) a n ∨
     a = 0 ∧ st' = st ∧ ∀ p, ¬ free_run (physp st) p n).
Proof.
  intros W H0 Hpos Ho n. unfold ppagealloc_locked.
  rewrite size_to_pages_ceil by (unfold is_u; lia). fold n.
  assert (1 ≤ n) by (apply Z.div_le_lower_bound; lia).
  assert (n < 2 ^ 64) by (apply Z.div_lt_upper_bound; lia).
  pose proof (pm_bounds _ W) as [Hb Hm].
  destruct (ppage_scan_spec 64 (S (Z.to_nat (pm_max (physp st) - pm_base (physp st))))
    (pm_base (physp st)) (pm_base (physp st)) (pm_max (physp st)) 0 0 n st)
    as [[-> Hno] | (p & Hf & ->)]; try (done || lia); [by apply scan_inv_init | |].
  - exists 0, st. split; [done |]. right. split_and!; [done.. |]. intros p Hr.
    destruct (free_run_tracked _ p n W); [lia | done |]. apply (Hno p); (done || lia).
  - pose proof Hf as (Hp & Hlo & Hmax & Hr & Hfirst).
    destruct (scan_take_spec 64 (pm_base (physp st)) (pm_max (physp st)) n p st)
      as (m' & -> & G); [(done || lia).. |].
    do 2 eexists. split; [done |]. left. exists p. by split_and!.
Qed.

(** The search of [ppagealloc32]: the pages from 256 to the 4 GiB line. *)
Lemma ppagealloc32_search (st : ppage_state) (size n max : Z) :
  n = (size + 4095) / 4096 → max = Z.min (2 ^ 20) (pm_max (physp st)) →
  pm_wf (physp st) → 256 ≤ pm_max (physp st) → 0 < size → size + 4096 < 2 ^ 32 →
  1 ≤ n < 2 ^ 32 ∧
  ((ppagealloc32 size st = Ret (0, st) ∧ scan_none (physp st) 256 max n) ∨
   (∃ p, scan_first (physp st) 256 max n p ∧ ppagealloc32 size st = scan_take 32 n p st)).
Proof.
  intros En Emax W Hmax Hpos Ho. unfold ppagealloc32.
  rewrite size_to_pages_ceil by (unfold is_u; lia). rewrite <- En.
  assert (1 ≤ n) by (subst n; apply Z.div_le_lower_bound; lia).
  assert (n < 2 ^ 32) by (subst n; apply Z.div_lt_upper_bound; lia). split; [done |].
  change (Z.shiftr 0xFFFFFFFF 12 + 1) with (2 ^ 20).
  replace (if pm_max (physp st) <? 2 ^ 20 then _ else _) with max
    by (subst max; destruct (Z.ltb_spec (pm_max (physp st)) (2 ^ 20)); lia).
  apply ppage_scan_spec; try (done || lia). by apply scan_inv_init.
Qed.

(** *** Freeing *)

(** The same map with the pages [p, p+n) released. *)
Definition released (m m' : M) (p n : Z) : Prop :=
  pm_wf m' ∧ pm_base m' = pm_base m ∧ pm_max m' = pm_max m ∧
  ∀ q, is_u 32 q → pm_base m ≤ q < pm_max m →
    pm_used m' q = pm_used m q && negb (PhyspageMap.in_range p n q).

(** All of [p, p+n) may be freed: in use, and not beyond the map. *)
Definition freeable (m : M) (p n : Z) : Prop :=
  ∀ q, p ≤ q < p + n → pm_used m q = true ∧ q < pm_max m.

Lemma ppagefree_loop_ok fuel p n st :
  pm_wf (physp st) → 0 ≤ p → 0 ≤ n → p + n < 2 ^ 64 → freeable (physp st) p n →
  (Z.to_nat n < fuel)%nat →
  ∃ m', ppagefree_loop fuel p n st = Ret (PPageState m' (allocated_ppages st - n)) ∧
    released (physp st) m' p n.
Proof.
  revert p n st. induction fuel as [| fuel IH]; intros p n st W Hp Hn Ho Hfr Hf; [lia |].
  cbn [ppagefree_loop]. destruct (Z.ltb_spec 0 n) as [Hlt | Hge].
  2:{ exists (physp st). replace (allocated_ppages st - n) with (allocated_ppages st) by lia.
      split; [by destruct st |]. split_and!; [done.. |]. intros q _ _.
      by rewrite PhyspageMap.in_range_empty, andb_true_r by lia. }
  pose proof (pm_bounds _ W) as [Hb Hm]. destruct (Hfr p) as [Hu Hpm]; [lia |].
  rewrite !(wrap_id 32 p) by (unfold is_u; lia).
  rewrite pm_claimed_law by (done || unfold is_u; lia). cbn [mbind outcome_bind].
  rewrite Hu. destruct (Z.leb_spec (pm_max (physp st)) p); [lia |]. cbn [negb orb].
  destruct (pm_release_law (physp st) p) as (m1 & -> & W1 & B1 & X1 & U1);
    [done | unfold is_u; lia |].
  cbn [mbind outcome_bind]. rewrite !(wrap_id 64) by (unfold is_u; lia).
  destruct (IH (p + 1) (n - 1) (PPageState m1 (allocated_ppages st - 1)))
    as (m2 & -> & W2 & B2 & X2 & U2); simpl in *; try (done || lia).
  { intros q Hq. destruct (Hfr q) as [Huq Hqm]; [lia |]. rewrite X1. split; [| done].
    destruct (decide (pm_base (physp st) ≤ q < pm_max (physp st))).
    - rewrite U1, Huq by (done || unfold is_u; lia). by destruct (Z.eqb_spec q p); [lia |].
    - apply pm_outside; [done |]. by rewrite B1, X1. }
  exists m2. replace (allocated_ppages st - 1 - (n - 1)) with (allocated_ppages st - n) by lia.
  split; [done |]. split_and!; [done | congruence.. |]. intros q Hq Hqt.
  rewrite U2, U1 by (done || by rewrite B1, X1).
  by rewrite (PhyspageMap.in_range_split p 1 n), PhyspageMap.in_range_1, negb_orb, andb_assoc by lia.
Qed.

Lemma ppagefree_loop_panics fuel p n st :
  pm_wf (physp st) → 0 ≤ p → p + n < 2 ^ 64 → ¬ freeable (physp st) p n →
  (Z.to_nat n < fuel)%nat → ppagefree_loop fuel p n st = Panicked.
Proof.
  revert p n st. induction fuel as [| fuel IH]; intros p n st W Hp Ho Hfr Hf; [lia |].
  cbn [ppagefree_loop]. destruct (Z.ltb_spec 0 n) as [Hlt | Hge].
  2:{ exfalso. apply Hfr. intros q Hq. lia. }
  pose proof (pm_bounds _ W) as [Hb Hm].
  rewrite pm_claimed_law by (done || apply is_u_wrap; lia). cbn [mbind outcome_bind].
  destruct (pm_used (physp st) (u32 p)) eqn:Hu; [cbn [negb orb] | done].
  destruct (Z.leb_spec (pm_max (physp st)) p); [done |].
  rewrite (wrap_id 32 p) in * by (unfold is_u; lia).
  destruct (pm_release_law (physp st) p) as (m1 & -> & W1 & B1 & X1 & U1);
    [done | unfold is_u; lia |].
  cbn [mbind outcome_bind]. rewrite !(wrap_id 64) by (unfold is_u; lia).
  apply IH; simpl; try (done || lia). intros Hfr1. apply Hfr. intros q Hq.
  destruct (decide (q = p)) as [-> |]; [done |].
  destruct (Hfr1 q) as [Hq1 Hq2]; [lia |]. rewrite X1 in Hq2. split; [| done].
  destruct (decide (pm_base (physp st) ≤ q)); [| apply pm_outside; [done | lia]].
  rewrite U1 in Hq1 by (unfold is_u; lia). by apply andb_prop in Hq1 as [? _].
Qed.

Lemma ppagefree_spec (st : ppage_state) (addr size : Z) :
  pm_wf (physp st) → is_u 64 addr → 0 ≤ size → size + 4096 < 2 ^ 64 →
  let p := addr / 4096 in
  let n := (size + 4095) / 4096 in
  (freeable (physp st) p n →
    ∃ m', ppagefree addr size st = Ret (PPageState m' (allocated_ppages st - n)) ∧
      released (physp st) m' p n) ∧
  (¬ freeable (physp st) p n → ppagefree addr size st = Panicked).
Proof.
  intros W [Ha0 Ha] Hs0 Hs p n. unfold ppagefree.
  assert (Z.shiftr addr 12 = p) as -> by (by rewrite Z.shiftr_div_pow2).
  assert (Z.shiftr (if negb (Z.land size 4095 =? 0) then u64 (size + 4096) else size) 12 = n) as ->.
  { rewrite Z.shiftr_div_pow2 by lia. unfold n.
    rewrite <- (size_to_pages_ceil 64) by (unfold is_u; lia). done. }
  assert (0 ≤ p ≤ addr) by (split; [apply Z.div_pos | apply Z.div_le_upper_bound]; lia).
  assert (0 ≤ n) by (apply Z.div_pos; lia).
  assert (p < 2 ^ 52) by (apply Z.div_lt_upper_bound; lia).
  assert (n < 2 ^ 52) by (apply Z.div_lt_upper_bound; lia).
  split; intros Hf; [apply ppagefree_loop_ok | apply ppagefree_loop_panics]; (done || lia).
Qed.

(** Freeing a run of pages that was free before it was taken. *)
Lemma ppagefree_grabbed (st st' : ppage_state) (p n size : Z) :
  pm_wf (physp st) → 1 ≤ n → n = (size + 4095) / 4096 → 0 ≤ size → size + 4096 < 2 ^ 64 →
  free_run (physp st) p n → grabbed (physp st) (physp st') p n →
  ∃ st'', ppagefree (4096 * p) size st' = Ret st'' ∧
    allocated_ppages st'' = allocated_ppages st' - n ∧ pm_wf (physp st'') ∧
    (pm_base (physp st'') = pm_base (physp st) ∧ pm_max (physp st'') = pm_max (physp st)) ∧
    ∀ q, is_u 32 q → pm_used (physp st'') q = pm_used (physp st) q.
Proof.
  intros W Hn En Hs Ho Hr (W' & B & X & U). pose proof (pm_bounds _ W) as [Hb Hm].
  pose proof (ppagefree_spec st' (4096 * p) size) as Hfree. cbv zeta in Hfree. rewrite <- En in Hfree.
  destruct (free_run_tracked _ p n W) as [Hpb Hpm]; [lia | done |].
  destruct Hfree as [Hok _]; [done | unfold is_u; lia | lia | lia |].
  replace (4096 * p / 4096) with p in Hok by (rewrite Z.mul_comm, Z.div_mul; lia).
  destruct Hok as (m'' & E'' & W'' & B'' & X'' & U'').
  { intros q Hq. rewrite X, U by (unfold is_u; lia). split; [| lia].
    replace (PhyspageMap.in_range p n q) with true by (unfold PhyspageMap.in_range; lia).
    by rewrite orb_true_r. }
  eexists. split; [done |]. simpl. split_and!; [lia | done | congruence | congruence |]. intros q Hq.
  destruct (decide (pm_base (physp st) ≤ q < pm_max (physp st))).
  - rewrite U'', U by (done || rewrite ?B, ?X; done).
    destruct (PhyspageMap.in_range p n q) eqn:Hin; [| by rewrite orb_false_r, andb_true_r].
    rewrite andb_false_r. symmetry. apply Hr. unfold PhyspageMap.in_range in Hin. lia.
  - rewrite !pm_outside by (done || rewrite ?B'', ?X'', ?B, ?X; done). done.
Qed.

Lemma ppagealloc32_spec (st : ppage_state) (size : Z) :
  pm_wf (physp st) → 256 ≤ pm_max (physp st) < 2 ^ 20 → 0 < size → size + 4096 < 2 ^ 32 →
  let n := (size + 4095) / 4096 in
  ∃ a st', ppagealloc32 size st = Ret (a, st') ∧
    (allocated st st' 256 a n ∨
     a = 0 ∧ st' = st ∧ ∀ p, 256 ≤ p → ¬ free_run (physp st) p n).
Proof.
  intros W Hmax Hpos Ho n.
  destruct (ppagealloc32_search st size n _ eq_refl eq_refl)
    as [Hn [[-> Hno] | (p & Hf & ->)]]; [done | lia.. | |].
  - exists 0, st. split; [done |]. right. split_and!; [done.. |]. intros p Hp Hr.
    destruct (free_run_tracked _ p n W); [lia | done |]. apply (Hno p); (done || lia).
  - pose proof Hf as (Hp & Hlo & Hpmax & Hr & Hfirst).
    destruct (scan_take_spec 32 256 (Z.min (2 ^ 20) (pm_max (physp st))) n p st)
      as (m' & -> & G); [(done || lia).. |].
    do 2 eexists. split; [done |]. left. exists p. by split_and!.
Qed.

(** ** Properties *)

(** C33: [ppagealloc_locked] always returns.  It returns the first run of free
    pages that holds [size] bytes, claims exactly these pages and counts them;
    or it returns 0 and changes nothing, and then no such run exists.  If page
    0 is in the map it is taken to be in use, since its address is the failure
    code. *)
Theorem ppagealloc_locked_correct (st : ppage_state) (size : Z) :
  pm_wf (physp st) → (pm_base (physp st) = 0 → pm_used (physp st) 0 = true) →
  0 < size → size + 4096 < 2 ^ 64 →
  let n := (size + 4095) / 4096 in
  ∃ a st', ppagealloc_locked size st = Ret (a, st') ∧
    (allocated st st' (pm_base (physp st)) a n ∨
     a = 0 ∧ st' = st ∧ ∀ p, ¬ free_run (physp st) p n).
Proof. apply ppagealloc_locked_spec. Qed.

(** [ppagefree] releases exactly the pages of the block when all of them
    are in use and inside the map, and panics otherwise. *)
Theorem ppagefree_correct (st : ppage_state) (addr size : Z) :
  pm_wf (physp st) → is_u 64 addr → 0 ≤ size → size + 4096 < 2 ^ 64 →
  let p := addr / 4096 in
  let n := (size + 4095) / 4096 in
  (freeable (physp st) p n →
    ∃ m', ppagefree addr size st = Ret (PPageState m' (allocated_ppages st - n)) ∧
      released (physp st) m' p n) ∧
  (¬ freeable (physp st) p n → ppagefree addr size st = Panicked).
Proof. apply ppagefree_spec. Qed.

(** freeing a block that [ppagealloc_locked] returned does not panic, and
    restores the use of every page and the count of allocated pages. *)
Theorem ppage_alloc_free_roundtrip (st st' : ppage_state) (size a : Z) :
  pm_wf (physp st) → (pm_base (physp st) = 0 → pm_used (physp st) 0 = true) →
  0 < size → size + 4096 < 2 ^ 64 →
  ppagealloc_locked size st = Ret (a, st') → a ≠ 0 →
  ∃ st'', ppagefree a size st' = Ret st'' ∧
    allocated_ppages st'' = allocated_ppages st ∧
    ∀ q, is_u 32 q → pm_used (physp st'') q = pm_used (physp st) q.
Proof.
  intros W H0 Hpos Ho Halloc Ha.
  destruct (ppagealloc_locked_spec st size) as (a' & st1 & E & R); [done.. |].
  rewrite E in Halloc. simplify_eq.
  destruct R as [(p & -> & Hp & Hlo & Hr & _ & G & Hc) | (? & _)]; [| done].
  assert (1 ≤ (size + 4095) / 4096) by (apply Z.div_le_lower_bound; lia).
  destruct (ppagefree_grabbed st st' p ((size + 4095) / 4096) size) as (st'' & E'' & Hc'' & _ & _ & U'');
    try (done || lia). exists st''. split_and!; try done. lia.
Qed.

(** below the 4 GiB line [ppagealloc32] returns the first fitting run of
    free pages from page 256 on, claimed and counted; or 0 with nothing
    changed, and then no such run exists. *)
Theorem ppagealloc32_correct (st : ppage_state) (size : Z) :
  pm_wf (physp st) → 256 ≤ pm_max (physp st) < 2 ^ 20 → 0 < size → size + 4096 < 2 ^ 32 →
  let n := (size + 4095) / 4096 in
  ∃ a st', ppagealloc32 size st = Ret (a, st') ∧
    (allocated st st' 256 a n ∨
     a = 0 ∧ st' = st ∧ ∀ p, 256 ≤ p → ¬ free_run (physp st) p n).
Proof. apply ppagealloc32_spec. Qed.

(** when the first fitting run of two or more pages ends exactly at the
    4 GiB line, [ppagealloc32] returns it without claiming any of its pages:
    the end address wraps to 0 at 32 bits and the claiming loop is empty. *)
Theorem ppagealloc32_top_unclaimed (st : ppage_state) (size p : Z) :
  pm_wf (physp st) → 2 ^ 20 ≤ pm_max (physp st) → 4096 < size → size + 4096 < 2 ^ 32 →
  let n := (size + 4095) / 4096 in
  p + n = 2 ^ 20 → 256 ≤ p → free_run (physp st) p n →
  (∀ p', 256 ≤ p' < p → ¬ free_run (physp st) p' n) →
  ∃ st', ppagealloc32 size st = Ret (4096 * p, st') ∧ physp st' = physp st.
Proof.
  intros W Hmax Hpos Ho n Hend Hp Hr Hfirst.
  assert (2 ≤ n) by (apply Z.div_le_lower_bound; lia).
  destruct (ppagealloc32_search st size n _ eq_refl eq_refl)
    as [Hn [[-> Hno] | (p1 & Hf & ->)]]; [done | lia.. | |].
  { exfalso. apply (Hno p); (done || lia). }
  destruct Hf as (Hp1 & Hlo & Hpm & Hr1 & Hfirst1). assert (p1 = p) as ->.
  { destruct (decide (p1 < p)) as [|]; [exfalso; by apply (Hfirst p1); [lia |] |].
    destruct (decide (p < p1)) as [|]; [exfalso; by apply (Hfirst1 p); [lia |] | lia]. }
  unfold scan_take. destruct (Z.eqb_spec n 1); [lia |]. rewrite Hend.
  change (wrap 32 (4096 * 2 ^ 20)) with 0. cbn [grab_pages].
  destruct (Z.ltb_spec (4096 * p) 0); [lia |]. cbn [mbind outcome_bind]. by eexists.
Qed.

End PPageAlloc.

(** ** Concrete maps *)
Module Examples.

(** A boot-time map of 32768 pages from page 16 on, all free. *)
Definition boot_map : simple_physpagemap_managed := SimpleMap PhyspageMap.init 16.
Definition boot_state : ppage_state := PPageState boot_map 0.

Lemma boot_map_wf : SimpleMap.wf boot_map.
Proof. split_and!; [by apply Forall_replicate | done..]. Qed.

(** 4 GiB of memory with only the last two pages free. *)
Definition top_map : extendable_physpagemap_managed :=
  ExtMap (replicate (Z.to_nat 32767) 0xFFFFFFFF ++ [0x3FFFFFFF]) 0 (2 ^ 20)
    (replicate 32 0).
Definition top_state : ppage_state := PPageState top_map 0.

Lemma top_map_wf : ExtMap.wf top_map.
Proof.
  split_and!; [| by vm_compute | done..].
  apply Forall_app. split; [by apply Forall_replicate | by apply Forall_singleton].
Qed.

Lemma top_map_used p : 0 ≤ p < 2 ^ 20 - 2 → pm_used top_map p = true.
Proof.
  intros Hp. change (Managed.used (e_map top_map) 0 (2 ^ 20) p = true).
  rewrite Managed.used_tracked, Z.sub_0_r by lia. unfold PhyspageMap.bit_at, top_map. cbn [e_map].
  pose proof (Z.div_mod p 32). pose proof (Z.mod_pos_bound p 32 eq_refl).
  destruct (decide (p / 32 < 32767)).
  - rewrite lookup_app_l by (rewrite length_replicate; lia).
    rewrite lookup_replicate_2 by (pose proof (Z.div_pos p 32); lia).
    change 0xFFFFFFFF with (Z.ones 32). by apply Z.ones_spec_low.
  - rewrite lookup_app_r by (rewrite length_replicate; lia).
    rewrite length_replicate. assert (p / 32 = 32767) as E by (pose proof (Z.div_lt_upper_bound p 32 32768); lia).
    rewrite E. change (Z.to_nat 32767 - Z.to_nat 32767)%nat with 0%nat. simpl.
    change 0x3FFFFFFF with (Z.ones 30). apply Z.ones_spec_low. lia.
Qed.

End Examples.

Import Examples.

Lemma ppagealloc_locked_correct_witness :
  ∃ a st', ppagealloc_locked 8192 boot_state = Ret (a, st') ∧
    (allocated boot_state st' (pm_base boot_map) a ((8192 + 4095) / 4096) ∨
     a = 0 ∧ st' = boot_state ∧ ∀ p, ¬ free_run boot_map p ((8192 + 4095) / 4096)).
Proof. apply (ppagealloc_locked_correct boot_state 8192); [apply boot_map_wf | done..]. Defined.

Lemma ppagefree_correct_witness :
  ¬ freeable boot_map (81920 / 4096) ((4096 + 4095) / 4096) ∧
  ppagefree 81920 4096 boot_state = Panicked.
Proof.
  assert (¬ freeable boot_map (81920 / 4096) ((4096 + 4095) / 4096)) as Hn.
  { intros Hf. by destruct (Hf 20). }
  split; [done |].
  by apply (ppagefree_correct boot_state 81920 4096); [apply boot_map_wf | ..].
Defined.

Lemma ppage_alloc_free_roundtrip_witness :
  ∃ a st' st'', ppagealloc_locked 8192 boot_state = Ret (a, st') ∧
    ppagefree a 8192 st' = Ret st'' ∧ allocated_ppages st'' = 0 ∧
    ∀ q, is_u 32 q → pm_used (physp st'') q = pm_used boot_map q.
Proof.
  destruct (ppagealloc_locked 8192 boot_state) as [[a st'] | | |] eqn:E;
    [| vm_compute in E; discriminate E..].
  assert (a ≠ 0) as Ha by (vm_compute in E; injection E as <- _; discriminate).
  destruct (ppage_alloc_free_roundtrip boot_state st' 8192 a) as (st'' & Hf & Hr);
    [apply boot_map_wf | done.. |].
  by exists a, st', st''.
Defined.

Lemma ppagealloc32_correct_witness :
  ∃ a st', ppagealloc32 8192 boot_state = Ret (a, st') ∧
    (allocated boot_state st' 256 a ((8192 + 4095) / 4096) ∨
     a = 0 ∧ st' = boot_state ∧ ∀ p, 256 ≤ p → ¬ free_run boot_map p ((8192 + 4095) / 4096)).
Proof. apply (ppagealloc32_correct boot_state 8192); [apply boot_map_wf | done..]. Defined.

Lemma ppagealloc32_top_unclaimed_witness :
  ∃ st', ppagealloc32 8192 top_state = Ret (4096 * (2 ^ 20 - 2), st') ∧ physp st' = top_map.
Proof.
  apply (ppagealloc32_top_unclaimed top_state 8192 (2 ^ 20 - 2)); [apply top_map_wf | done.. | |].
  - change ((8192 + 4095) / 4096) with 2. intros q Hq.
    assert (q = 2 ^ 20 - 2 ∨ q = 2 ^ 20 - 1) as [-> | ->] by lia; by vm_compute.
  - intros p' Hp' Hr. specialize (Hr p'). rewrite top_map_used in Hr by lia.
    discriminate Hr. change ((8192 + 4095) / 4096) with 2. lia.
Defined.
