(* ===== verification/VpAllocatorPage.v ===== *)
(** * Free ranges of virtual address space: one page of them

    [struct VPAllocatorPage] of [include/vpallocator.h]: a sorted array of
    disjoint free ranges, with the operations that take space out of it and
    give space back. *)

From S2P Require Import Prelude.

Definition pagesize : Z := 4096.

Record VPAllocatorRange := Range {
  start : Z;
  end_ : Z;
}.

#[export] Instance range_inhabited : Inhabited VPAllocatorRange := populate (Range 0 0).
#[export] Instance range_eq_dec : EqDecision VPAllocatorRange.
Proof. solve_decision. Defined.

Inductive VPAllocatorResult :=
  | DONE
  | NO_SPACE
  | ERROR.

(** The two views of the link to the next page; 0 is the null pointer. *)
Record VPAllocatorLink := Link {
  paddr : Z;
  vaddr : Z;
}.

Record VPAllocatorPage := Page {
  ranges : list VPAllocatorRange;   (* num_records entries *)
  next : VPAllocatorLink;
  num : nat;                        (* data.num *)
}.

Module VpPage.

(** (pagesize - sizeof(VPAllocatorLink) - sizeof(VPAllocatorData))
    / sizeof(VPAllocatorRange) *)
Definition num_records : nat := Z.to_nat ((pagesize - 16 - 4) / 16).

Definition empty_page : VPAllocatorPage :=
  Page (replicate num_records (Range 0 0)) (Link 0 0) 0.

(** The array entries in use. *)
Definition live (p : VPAllocatorPage) : list VPAllocatorRange := take (num p) (ranges p).

Definition with_ranges (p : VPAllocatorPage) (rs : list VPAllocatorRange) (n : nat) :=
  Page rs (next p) n.

Definition HasFree (p : VPAllocatorPage) : bool := bool_decide (0 < num p)%nat.

Definition GetStart (p : VPAllocatorPage) : option Z :=
  if bool_decide (0 < num p)%nat then Some (start (ranges p !!! 0%nat)) else None.

Definition GetEnd (p : VPAllocatorPage) : option Z :=
  if bool_decide (0 < num p)%nat then Some (end_ (ranges p !!! (num p - 1)%nat)) else None.

(** for (j = from; j < num; j++) ranges[j - 1] = ranges[j];
    [n] is the number of rounds left. *)
Fixpoint shift_down (n j : nat) (rs : list VPAllocatorRange) : list VPAllocatorRange :=
  match n with
  | O => rs
  | S n => shift_down n (S j) (<[(j - 1)%nat := rs !!! j]> rs)
  end.

(** for (j = 0; j < n; j++) ranges[top - j] = ranges[top - j - 1]; *)
Fixpoint shift_up (n j top : nat) (rs : list VPAllocatorRange) : list VPAllocatorRange :=
  match n with
  | O => rs
  | S n => shift_up n (S j) top (<[(top - j)%nat := rs !!! (top - j - 1)%nat]> rs)
  end.

(** The loop of [IsFree] from index [i], with [k] entries left. *)
Fixpoint IsFree_loop (k i : nat) (p : VPAllocatorPage) (addr size : Z) : bool :=
  match k with
  | O => false
  | S k =>
      let r := ranges p !!! i in
      if start r =? addr then u64 (addr + size) <=? end_ r
      else if (start r <? addr) && (addr <? end_ r) then u64 (addr + size) <=? end_ r
      else if addr <? start r then false
      else IsFree_loop k (S i) p addr size
  end.

Definition IsFree (p : VPAllocatorPage) (addr size : Z) : bool :=
  if bool_decide (num p ≤ 0)%nat then false else IsFree_loop (num p) 0 p addr size.

Fixpoint TryAllocateFromAddress_loop (k i : nat) (p : VPAllocatorPage) (addr size : Z)
    : VPAllocatorResult * VPAllocatorPage :=
  match k with
  | O => (ERROR, p)
  | S k =>
      let r := ranges p !!! i in
      if start r =? addr then
        if end_ r =? u64 (addr + size) then
          (DONE, with_ranges p (shift_down (num p - (i + 1)) (i + 1) (ranges p)) (num p - 1))
        else if u64 (addr + size) <? end_ r then
          (DONE, with_ranges p (<[i := Range (u64 (addr + size)) (end_ r)]> (ranges p)) (num p))
        else (ERROR, p)
      else if start r <? addr then
        if end_ r =? u64 (addr + size) then
          (DONE, with_ranges p (<[i := Range (start r) addr]> (ranges p)) (num p))
        else if u64 (addr + size) <? end_ r then
          if bool_decide (num_records ≤ num p)%nat then (NO_SPACE, p)
          else
            let rs := shift_up (num p - i - 1) 0 (num p) (ranges p) in
            let rs := <[(i + 1)%nat := Range (u64 (addr + size)) (end_ (rs !!! i))]> rs in
            let rs := <[i := Range (start (rs !!! i)) addr]> rs in
            (DONE, with_ranges p rs (num p + 1))
        else if end_ r <=? addr then TryAllocateFromAddress_loop k (S i) p addr size
        else (ERROR, p)
      else (ERROR, p)
  end.

Definition TryAllocateFromAddress (p : VPAllocatorPage) (addr size : Z)
    : VPAllocatorResult * VPAllocatorPage :=
  if bool_decide (num p ≤ 0)%nat then (ERROR, p)
  else TryAllocateFromAddress_loop (num p) 0 p addr size.

(** Rounding up to whole pages. *)
Definition round_size (size : Z) : Z :=
  let overrun := size mod pagesize in
  let overrun := if 0 <? overrun then pagesize - overrun else overrun in
  u64 (size + overrun).

Fixpoint TryAllocate_loop (k i : nat) (p : VPAllocatorPage) (size : Z)
    : option Z * VPAllocatorPage :=
  match k with
  | O => (None, p)
  | S k =>
      let r := ranges p !!! i in
      let avail := u64 (end_ r - start r) in
      if avail =? size then
        (Some (start r),
          with_ranges p (shift_down (num p - (i + 1)) (i + 1) (ranges p)) (num p - 1))
      else if size <? avail then
        (Some (start r),
          with_ranges p (<[i := Range (u64 (start r + size)) (end_ r)]> (ranges p)) (num p))
      else TryAllocate_loop k (S i) p size
  end.

Definition TryAllocate (p : VPAllocatorPage) (size : Z) : option Z * VPAllocatorPage :=
  if bool_decide (num p ≤ 0)%nat then (None, p)
  else TryAllocate_loop (num p) 0 p (round_size size).

(** The loop of [TryFree] over the gaps between neighbours. *)
Fixpoint TryFree_loop (k i : nat) (p : VPAllocatorPage) (addr size : Z)
    : VPAllocatorResult * VPAllocatorPage :=
  match k with
  | O => (ERROR, p)
  | S k =>
      let r := ranges p !!! i in
      let r1 := ranges p !!! (i + 1)%nat in
      if addr =? end_ r then
        if start r1 =? u64 (addr + size) then
          let rs := <[i := Range (start r) (end_ r1)]> (ranges p) in
          (DONE, with_ranges p (shift_down (num p - (i + 2)) (i + 2) rs) (num p - 1))
        else if u64 (addr + size) <? start r1 then
          (DONE, with_ranges p (<[i := Range (start r) (u64 (addr + size))]> (ranges p)) (num p))
        else (ERROR, p)
      else if (end_ r <? addr) && (addr <? start r1) then
        if u64 (addr + size) =? start r1 then
          (DONE, with_ranges p (<[(i + 1)%nat := Range addr (end_ r1)]> (ranges p)) (num p))
        else if u64 (addr + size) <? start r1 then
          if bool_decide (num p < num_records)%nat then
            let rs := shift_up (num p - i - 1) 0 (num p) (ranges p) in
            (DONE, with_ranges p (<[(i + 1)%nat := Range addr (u64 (addr + size))]> rs) (num p + 1))
          else (NO_SPACE, p)
        else (ERROR, p)
      else TryFree_loop k (S i) p addr size
  end.

Definition TryFree (p : VPAllocatorPage) (addr size : Z) : VPAllocatorResult * VPAllocatorPage :=
  let size := round_size size in
  let first := ranges p !!! 0%nat in
  let last := ranges p !!! (num p - 1)%nat in
  if bool_decide (num p = 0)%nat then
    (DONE, with_ranges p (<[0%nat := Range addr (u64 (addr + size))]> (ranges p)) (num p + 1))
  else if size <=? 0 then (DONE, p)
  else if addr <? start first then
    let avail_to_free := u64 (start first - addr) in
    if size <? avail_to_free then
      if bool_decide (num_records ≤ num p)%nat then (NO_SPACE, p)
      else
        let rs := shift_up (num p - 1) 1 num_records (ranges p) in
        (DONE, with_ranges p (<[0%nat := Range addr (u64 (addr + size))]> rs) (num p))
    else if avail_to_free =? size then
      (DONE, with_ranges p (<[0%nat := Range addr (end_ first)]> (ranges p)) (num p))
    else (ERROR, p)
  else if end_ last <? addr then
    if bool_decide (num_records ≤ num p)%nat then (NO_SPACE, p)
    else (DONE, with_ranges p (<[num p := Range addr (u64 (addr + size))]> (ranges p)) (num p + 1))
  else if end_ last =? addr then
    (DONE, with_ranges p
      (<[(num p - 1)%nat := Range (start last) (u64 (addr + size))]> (ranges p)) (num p))
  else TryFree_loop (num p - 1) 0 p addr size.

(** The link to the next page. *)
Definition GetNext (p : VPAllocatorPage) : Z :=
  if negb (vaddr (next p) =? 0) then vaddr (next p)
  else if negb (paddr (next p) =? 0) then paddr (next p)
  else 0.

Definition SetNextVirtual (p : VPAllocatorPage) (n : Z) : VPAllocatorPage :=
  Page (ranges p) (Link 0 n) (num p).

Definition SetNextPhysical (p : VPAllocatorPage) (n : Z) : VPAllocatorPage :=
  Page (ranges p) (Link n 0) (num p).

(** ** The array operations, on the entries in use *)

Lemma length_shift_down n j rs : length (shift_down n j rs) = length rs.
Proof. revert j rs. induction n as [| n IH]; intros; simpl; [done |]. by rewrite IH, length_insert. Qed.

Lemma length_shift_up n j top rs : length (shift_up n j top rs) = length rs.
Proof. revert j rs. induction n as [| n IH]; intros; simpl; [done |]. by rewrite IH, length_insert. Qed.

Lemma shift_down_lookup n j rs q :
  (1 ≤ j)%nat → (j + n ≤ length rs)%nat →
  shift_down n j rs !! q =
    if bool_decide (j - 1 ≤ q < j - 1 + n)%nat then rs !! (q + 1)%nat else rs !! q.
Proof.
  revert j rs. induction n as [| n IH]; intros j rs Hj Hl; simpl.
  { rewrite bool_decide_eq_false_2 by lia. done. }
  rewrite IH by (rewrite ?length_insert; lia).
  destruct (lookup_lt_is_Some_2 rs j) as [x Hx]; [lia |].
  rewrite (list_lookup_total_correct _ _ _ Hx).
  repeat case_bool_decide; try lia.
  - by rewrite list_lookup_insert_ne by lia.
  - assert (q = j - 1)%nat as -> by lia. rewrite list_lookup_insert_eq by lia.
    by replace (j - 1 + 1)%nat with j by lia.
  - by rewrite list_lookup_insert_ne by lia.
Qed.

Lemma shift_up_lookup n j top rs q :
  (j + n ≤ top)%nat → (top - j < length rs)%nat →
  shift_up n j top rs !! q =
    if bool_decide (top - j - n < q ≤ top - j)%nat then rs !! (q - 1)%nat else rs !! q.
Proof.
  revert j rs. induction n as [| n IH]; intros j rs Hj Hl; simpl.
  { rewrite bool_decide_eq_false_2 by lia. done. }
  rewrite IH by (rewrite ?length_insert; lia).
  destruct (lookup_lt_is_Some_2 rs (top - j - 1)) as [x Hx]; [lia |].
  rewrite (list_lookup_total_correct _ _ _ Hx).
  repeat case_bool_decide; try lia.
  - by rewrite list_lookup_insert_ne by lia.
  - assert (q = top - j)%nat as -> by lia. rewrite list_lookup_insert_eq by lia.
    by rewrite Hx.
  - by rewrite list_lookup_insert_ne by lia.
Qed.

(** Dropping entry [i]. *)
Lemma live_shift_down i n rs :
  (i < n)%nat → (n ≤ length rs)%nat →
  take (n - 1) (shift_down (n - (i + 1)) (i + 1) rs) = take i (take n rs) ++ drop (S i) (take n rs).
Proof.
  intros Hi Hn. apply list_eq. intros q. destruct (decide (q < n - 1)%nat).
  - rewrite lookup_take_lt, shift_down_lookup by lia. case_bool_decide.
    + rewrite lookup_app_r by (rewrite !length_take; lia).
      rewrite !length_take, lookup_drop, lookup_take_lt by lia. f_equal. lia.
    + rewrite lookup_app_l, !lookup_take_lt by (rewrite ?length_take; lia). done.
  - rewrite lookup_take_ge by lia. symmetry. apply lookup_ge_None_2.
    rewrite length_app, length_drop, !length_take. lia.
Qed.

(** Making room for a new entry after [i]. *)
Lemma live_shift_up i n rs x :
  (i < n)%nat → (n < length rs)%nat →
  take (n + 1) (<[(i + 1)%nat := x]> (shift_up (n - i - 1) 0 n rs)) =
    take (S i) (take n rs) ++ x :: drop (S i) (take n rs).
Proof.
  intros Hi Hn. apply list_eq. intros q. destruct (decide (q < n + 1)%nat).
  - rewrite lookup_take_lt by lia. destruct (decide (q = i + 1)%nat) as [-> |].
    + rewrite list_lookup_insert_eq by (rewrite length_shift_up; lia).
      rewrite lookup_app_r by (rewrite !length_take; lia).
      rewrite !length_take. by replace (i + 1 - _)%nat with 0%nat by lia.
    + rewrite list_lookup_insert_ne, shift_up_lookup by lia. case_bool_decide.
      * rewrite lookup_app_r by (rewrite !length_take; lia). rewrite !length_take.
        rewrite lookup_cons_ne_0, lookup_drop, lookup_take_lt by lia. f_equal. lia.
      * rewrite lookup_app_l, !lookup_take_lt by (rewrite ?length_take; lia). done.
  - rewrite lookup_take_ge by lia. symmetry. apply lookup_ge_None_2.
    rewrite length_app. cbn [length]. rewrite length_drop, !length_take. lia.
Qed.

(** Changing entry [i] in place. *)
Lemma live_insert i n rs (x : VPAllocatorRange) :
  (i < n)%nat → (n ≤ length rs)%nat →
  take n (<[i := x]> rs) = take i (take n rs) ++ x :: drop (S i) (take n rs).
Proof.
  intros Hi Hn. apply list_eq. intros q. destruct (decide (q < n)%nat).
  - rewrite lookup_take_lt by lia. destruct (decide (q = i)%nat) as [-> |].
    + rewrite list_lookup_insert_eq, lookup_app_r by (rewrite ?length_take; lia).
      rewrite !length_take. by replace (i - _)%nat with 0%nat by lia.
    + rewrite list_lookup_insert_ne by lia. destruct (decide (q < i)%nat).
      * rewrite lookup_app_l, !lookup_take_lt by (rewrite ?length_take; lia). done.
      * rewrite lookup_app_r by (rewrite !length_take; lia). rewrite !length_take.
        rewrite lookup_cons_ne_0, lookup_drop, lookup_take_lt by lia. f_equal. lia.
  - rewrite lookup_take_ge by lia. symmetry. apply lookup_ge_None_2.
    rewrite length_app. cbn [length]. rewrite length_drop, !length_take. lia.
Qed.

(** ** The operations on the list of free ranges

    What each operation does to the entries in use, with the array, its
    bookkeeping and its shifting loops gone. *)

Fixpoint alloc_list (size : Z) (l : list VPAllocatorRange) : option (Z * list VPAllocatorRange) :=
  match l with
  | [] => None
  | r :: l =>
      if u64 (end_ r - start r) =? size then Some (start r, l)
      else if size <? u64 (end_ r - start r) then
        Some (start r, Range (u64 (start r + size)) (end_ r) :: l)
      else prod_map id (cons r) <$> alloc_list size l
  end.

Fixpoint take_list (full : bool) (addr e : Z) (l : list VPAllocatorRange)
    : VPAllocatorResult * list VPAllocatorRange :=
  match l with
  | [] => (ERROR, [])
  | r :: l =>
      if start r =? addr then
        if end_ r =? e then (DONE, l)
        else if e <? end_ r then (DONE, Range e (end_ r) :: l)
        else (ERROR, r :: l)
      else if start r <? addr then
        if end_ r =? e then (DONE, Range (start r) addr :: l)
        else if e <? end_ r then
          if full then (NO_SPACE, r :: l)
          else (DONE, Range (start r) addr :: Range e (end_ r) :: l)
        else if end_ r <=? addr then prod_map id (cons r) (take_list full addr e l)
        else (ERROR, r :: l)
      else (ERROR, r :: l)
  end.

(** The gaps between neighbours. *)
Fixpoint fill_list (full : bool) (addr e : Z) (l : list VPAllocatorRange)
    : VPAllocatorResult * list VPAllocatorRange :=
  match l with
  | r :: (r1 :: l') as l1 =>
      if addr =? end_ r then
        if start r1 =? e then (DONE, Range (start r) (end_ r1) :: l')
        else if e <? start r1 then (DONE, Range (start r) e :: r1 :: l')
        else (ERROR, l)
      else if (end_ r <? addr) && (addr <? start r1) then
        if e =? start r1 then (DONE, r :: Range addr (end_ r1) :: l')
        else if e <? start r1 then
          if full then (NO_SPACE, l) else (DONE, r :: Range addr e :: r1 :: l')
        else (ERROR, l)
      else prod_map id (cons r) (fill_list full addr e l1)
  | _ => (ERROR, l)
  end.

(** ** Refinement: the array operations implement the list operations *)

(** The array has its full length and [num] counts entries of it. *)
Definition shape (p : VPAllocatorPage) : Prop :=
  length (ranges p) = num_records ∧ (num p ≤ num_records)%nat.

Definition full (p : VPAllocatorPage) : bool := bool_decide (num_records ≤ num p)%nat.

(** [p'] is [p] with the entries from [i] on replaced by [d]. *)
Definition replaced (p p' : VPAllocatorPage) (i : nat) (d : list VPAllocatorRange) : Prop :=
  shape p' ∧ next p' = next p ∧ live p' = take i (live p) ++ d.

Lemma length_live p : shape p → length (live p) = num p.
Proof. intros [L N]. unfold live. rewrite length_take. lia. Qed.

Lemma live_lookup p i : shape p → (i < num p)%nat → live p !! i = Some (ranges p !!! i).
Proof.
  intros [L N] Hi. unfold live. rewrite lookup_take_lt by lia.
  apply list_lookup_lookup_total_lt. lia.
Qed.

Lemma drop_live p i :
  shape p → (i < num p)%nat → drop i (live p) = (ranges p !!! i) :: drop (S i) (live p).
Proof. intros Hs Hi. by rewrite (drop_S _ _ _ (live_lookup p i Hs Hi)). Qed.

Lemma replaced_refl p i : shape p → replaced p p i (drop i (live p)).
Proof. intros Hs. split; [done |]. split; [done |]. by rewrite take_drop. Qed.

Lemma replaced_step p p' i d :
  shape p → (i < num p)%nat → replaced p p' (S i) d → replaced p p' i ((ranges p !!! i) :: d).
Proof.
  intros Hs Hi (S' & N' & E). split; [done |]. split; [done |].
  rewrite E, (take_S_r _ _ _ (live_lookup p i Hs Hi)), <- app_assoc. done.
Qed.

Lemma replaced_delete p i :
  shape p → (i < num p)%nat →
  replaced p (with_ranges p (shift_down (num p - (i + 1)) (i + 1) (ranges p)) (num p - 1)) i
    (drop (S i) (live p)).
Proof.
  intros [L N] Hi. split; [| split; [done |]].
  - split; simpl; [by rewrite length_shift_down | lia].
  - unfold live at 1. simpl. by rewrite live_shift_down by lia.
Qed.

Lemma replaced_insert p i x :
  shape p → (i < num p)%nat →
  replaced p (with_ranges p (<[i := x]> (ranges p)) (num p)) i (x :: drop (S i) (live p)).
Proof.
  intros [L N] Hi. split; [| split; [done |]].
  - split; simpl; [by rewrite length_insert | lia].
  - unfold live at 1. simpl. by rewrite live_insert by lia.
Qed.

Lemma replaced_split p i x :
  shape p → (i < num p)%nat → full p = false →
  replaced p
    (with_ranges p (<[(i + 1)%nat := x]> (shift_up (num p - i - 1) 0 (num p) (ranges p))) (num p + 1))
    (S i) (x :: drop (S i) (live p)).
Proof.
  intros [L N] Hi Hf%bool_decide_eq_false. split; [| split; [done |]].
  - split; simpl; [by rewrite length_insert, length_shift_up | lia].
  - unfold live at 1. simpl. by rewrite live_shift_up by lia.
Qed.

(** Two replacements in a row. *)
Lemma replaced_trans p p1 p2 i d x l :
  shape p → (i < num p)%nat → replaced p p1 (S i) d → replaced p1 p2 i (x :: l) →
  drop (S i) (live p1) = l → replaced p p2 i (x :: d).
Proof.
  intros Hs Hi (S1 & N1 & E1) (S2 & N2 & E2) Hl. split; [done |]. split; [congruence |].
  rewrite E2, E1. rewrite E1 in Hl. rewrite <- Hl.
  rewrite take_app_le, take_take, drop_app_length' by (rewrite ?length_take, ?length_live; lia || done).
  by replace (i `min` S i)%nat with i by lia.
Qed.

Lemma drop_live_nil p : shape p → drop (num p) (live p) = [].
Proof. intros Hs. apply drop_ge. rewrite length_live by done. lia. Qed.

Lemma TryAllocate_loop_refines k i p size :
  shape p → (i + k = num p)%nat →
  match TryAllocate_loop k i p size with
  | (None, p') => p' = p ∧ alloc_list size (drop i (live p)) = None
  | (Some a, p') =>
      ∃ d, alloc_list size (drop i (live p)) = Some (a, d) ∧ replaced p p' i d
  end.
Proof.
  intros Hs. revert i. induction k as [| k IH]; intros i Hk; simpl.
  { replace i with (num p) by lia. by rewrite drop_live_nil. }
  rewrite (drop_live p i) by (done || lia). simpl.
  destruct (_ =? size).
  { eexists. split; [done |]. apply replaced_delete; (done || lia). }
  destruct (size <? _).
  { eexists. split; [done |]. apply replaced_insert; (done || lia). }
  specialize (IH (S i)). destruct (TryAllocate_loop k (S i) p size) as [[a |] p'].
  - destruct IH as (d & E & R); [lia |]. rewrite E. simpl. eexists. split; [done |].
    apply replaced_step; (done || lia).
  - destruct IH as [-> E]; [lia |]. by rewrite E.
Qed.

Lemma TryAllocate_refines p size :
  shape p →
  match TryAllocate p size with
  | (None, p') => p' = p ∧ alloc_list (round_size size) (live p) = None
  | (Some a, p') =>
      ∃ d, alloc_list (round_size size) (live p) = Some (a, d) ∧ replaced p p' 0 d
  end.
Proof.
  intros Hs. unfold TryAllocate. case_bool_decide as H.
  - unfold live. replace (num p) with 0%nat by lia. done.
  - apply (TryAllocate_loop_refines (num p) 0); (done || lia).
Qed.

Lemma TryAllocateFromAddress_loop_refines k i p addr size :
  shape p → (i + k = num p)%nat →
  let '(res, p') := TryAllocateFromAddress_loop k i p addr size in
  ∃ d, take_list (full p) addr (u64 (addr + size)) (drop i (live p)) = (res, d) ∧
    replaced p p' i d.
Proof.
  intros Hs. revert i. induction k as [| k IH]; intros i Hk.
  { simpl. eexists. split; [| by apply replaced_refl].
    replace i with (num p) by lia. by rewrite drop_live_nil. }
  pose proof (drop_live p i Hs ltac:(lia)) as D.
  assert (replaced p p i (drop i (live p))) as Rsame by (by apply replaced_refl).
  rewrite D in *. cbn [TryAllocateFromAddress_loop take_list].
  destruct (start (ranges p !!! i) =? addr).
  { destruct (end_ _ =? _); [| destruct (_ <? end_ _)].
    - eexists. split; [done |]. apply replaced_delete; (done || lia).
    - eexists. split; [done |]. apply replaced_insert; (done || lia).
    - by eexists. }
  destruct (start (ranges p !!! i) <? addr); [| by eexists].
  destruct (end_ _ =? _); [| destruct (_ <? end_ _)].
  - eexists. split; [done |]. apply replaced_insert; (done || lia).
  - destruct (full p) eqn:Hf; unfold full in Hf; rewrite Hf; [by eexists |].
    eexists. split; [done |].
    set (rs := shift_up (num p - i - 1) 0 (num p) (ranges p)).
    assert (rs !!! i = ranges p !!! i) as Ei.
    { rewrite !list_lookup_total_alt. subst rs. destruct Hs as [L N].
      apply bool_decide_eq_false in Hf. rewrite shift_up_lookup by lia.
      rewrite bool_decide_eq_false_2 by lia. done. }
    rewrite Ei. rewrite list_lookup_total_insert_ne, Ei by lia.
    pose proof (replaced_split p i (Range (u64 (addr + size)) (end_ (ranges p !!! i))) Hs
      ltac:(lia) Hf) as R1. fold rs in R1. pose proof R1 as (S1 & _ & E1).
    eapply (replaced_trans p _ _ i _ _ _ Hs ltac:(lia) R1).
    + match type of R1 with replaced _ ?p1 _ _ =>
        apply (replaced_insert p1 i); [done | simpl; lia] end.
    + done.
  - destruct (_ <=? addr); [| by eexists].
    specialize (IH (S i)).
    destruct (TryAllocateFromAddress_loop k (S i) p addr size) as [res p'].
    destruct IH as (d & E & R); [lia |]. rewrite E. simpl. eexists. split; [done |].
    apply replaced_step; (done || lia).
Qed.

Lemma TryAllocateFromAddress_refines p addr size :
  shape p →
  let '(res, p') := TryAllocateFromAddress p addr size in
  ∃ d, take_list (full p) addr (u64 (addr + size)) (live p) = (res, d) ∧ replaced p p' 0 d.
Proof.
  intros Hs. unfold TryAllocateFromAddress. case_bool_decide as H.
  - exists (live p). split; [| by apply (replaced_refl p 0)].
    unfold live. by replace (num p) with 0%nat by lia.
  - apply (TryAllocateFromAddress_loop_refines (num p) 0); (done || lia).
Qed.

(** ** Free ranges as a set of addresses *)

(** Sorted, nonempty ranges above [lo], with a gap between neighbours. *)
Fixpoint sorted_from (lo : Z) (l : list VPAllocatorRange) : Prop :=
  match l with
  | [] => True
  | r :: l => lo < start r ∧ start r < end_ r ∧ end_ r < 2 ^ 64 ∧ sorted_from (end_ r) l
  end.

Definition sorted (l : list VPAllocatorRange) : Prop := sorted_from (-1) l.

(** Address [x] is free. *)
Fixpoint free_at (l : list VPAllocatorRange) (x : Z) : Prop :=
  match l with
  | [] => False
  | r :: l => start r ≤ x < end_ r ∨ free_at l x
  end.

(** The block [a, e) is free. *)
Definition block_free (l : list VPAllocatorRange) (a e : Z) : Prop :=
  ∀ x, a ≤ x < e → free_at l x.

Lemma sorted_weaken lo lo' l : lo' ≤ lo → sorted_from lo l → sorted_from lo' l.
Proof. destruct l as [| r l]; simpl; [done |]. intros ? (? & ? & ? & ?). split_and!; (done || lia). Qed.

Lemma sorted_free_lo lo l x : sorted_from lo l → free_at l x → lo < x < 2 ^ 64.
Proof.
  revert lo. induction l as [| r l IH]; simpl; intros lo; [done |].
  intros (? & ? & ? & S) [? | F]; [lia |]. specialize (IH _ S F). lia.
Qed.

Lemma sorted_take n lo l : sorted_from lo l → sorted_from lo (take n l).
Proof.
  revert lo l. induction n as [| n IH]; intros lo [| r l]; simpl; [done.. |].
  intros (? & ? & ? & ?). split_and!; try done. by apply IH.
Qed.

Lemma sorted_drop n lo l : sorted_from lo l → sorted_from lo (drop n l).
Proof.
  revert lo l. induction n as [| n IH]; intros lo [| r l]; simpl; [done.. |].
  intros (? & ? & ? & S). apply IH, (sorted_weaken (end_ r)); [lia | done].
Qed.

(** A sorted list of two or more ranges is not sorted backwards. *)
Lemma sorted_reverse lo lo' l :
  (2 ≤ length l)%nat → sorted_from lo l → sorted_from lo' (reverse l) → False.
Proof.
  destruct l as [| r0 [| r1 l]]; simpl; [lia.. |]. intros _ (H1 & H2 & H3 & H4 & H5 & _) S.
  rewrite !reverse_cons, <- app_assoc in S. simpl in S.
  apply (sorted_drop (length (reverse l))) in S. rewrite drop_app_length in S.
  destruct S as (? & ? & ? & ? & _). lia.
Qed.

(** A free block lies inside one range. *)
Lemma block_in_head lo r l a e :
  sorted_from lo (r :: l) → a < e → block_free (r :: l) a e → a < end_ r →
  start r ≤ a ∧ e ≤ end_ r.
Proof.
  intros (H1 & H2 & H3 & S) Hlt B Ha.
  assert (∀ x, a ≤ x < e → start r ≤ x < end_ r ∨ end_ r < x) as Hx.
  { intros x Hx. destruct (B x Hx) as [| F]; [by left |].
    apply (sorted_free_lo _ _ _ S) in F. lia. }
  split; [specialize (Hx a); lia |].
  destruct (decide (e ≤ end_ r)); [done |]. specialize (Hx (end_ r)). lia.
Qed.

Lemma block_in_tail r l a e :
  block_free (r :: l) a e → end_ r ≤ a → block_free l a e.
Proof. intros B Ha x Hx. destruct (B x Hx); [lia | done]. Qed.

Lemma block_free_tail r l a e : block_free l a e → block_free (r :: l) a e.
Proof. intros B x Hx. right. by apply B. Qed.

(** [l'] is [l] with the block [a, e) taken out. *)
Definition taken (l l' : list VPAllocatorRange) (a e : Z) : Prop :=
  ∀ x, free_at l' x ↔ free_at l x ∧ ¬ (a ≤ x < e).

(** [l'] is [l] with the block [a, e) added. *)
Definition added (l l' : list VPAllocatorRange) (a e : Z) : Prop :=
  ∀ x, free_at l' x ↔ free_at l x ∨ a ≤ x < e.

(** Closing goals about the ranges next to each other in a sorted list. *)
Ltac free_case S :=
  intros x; simpl; pose proof (λ F, sorted_free_lo _ _ x S F); intuition lia.

Lemma avail_id lo r l :
  -1 ≤ lo → sorted_from lo (r :: l) → u64 (end_ r - start r) = end_ r - start r.
Proof. intros Hlo (H1 & H2 & H3 & _). apply wrap_id. unfold is_u. lia. Qed.

Lemma alloc_list_some lo l size a l' :
  -1 ≤ lo → sorted_from lo l → 0 < size → alloc_list size l = Some (a, l') →
  sorted_from lo l' ∧ lo < a ∧ block_free l a (a + size) ∧ taken l l' a (a + size) ∧
  ∀ b, block_free l b (b + size) → a ≤ b.
Proof.
  intros Hlo S Hs. revert lo a l' Hlo S. induction l as [| r l IH]; [done |].
  intros lo a l' Hlo S0 E. cbn [alloc_list] in E. rewrite (avail_id lo r l) in E by done.
  pose proof S0 as (H1 & H2 & H3 & S).
  destruct (Z.eqb_spec (end_ r - start r) size) as [Eq | Ne].
  { simplify_eq. replace (start r + (end_ r - start r)) with (end_ r) by lia.
    split_and!; [by eapply sorted_weaken; [| apply S]; lia | done | intros x Hx; by left | |].
    - free_case S.
    - intros b B. destruct (decide (b < end_ r)); [| lia].
      eapply block_in_head in B; [lia | apply S0 | lia | done]. }
  destruct (Z.ltb_spec size (end_ r - start r)) as [Lt | Ge].
  { simplify_eq. rewrite wrap_id in * by (unfold is_u; lia).
    split_and!; [simpl; split_and!; (done || lia) | done | intros x Hx; left; lia | |].
    - free_case S.
    - intros b B. destruct (decide (b < end_ r)); [| lia].
      eapply block_in_head in B; [lia | apply S0 | lia | done]. }
  destruct (alloc_list size l) as [[a1 l1] |] eqn:E1; simplify_eq/=.
  destruct (IH (end_ r) a l1) as (S1 & Ha & B1 & T1 & F1); [lia | done | done |].
  split_and!; [done.. | lia | by apply block_free_tail | |].
  - intros x. pose proof (T1 x). pose proof (λ F, sorted_free_lo _ _ x S F). simpl. intuition lia.
  - intros b B. destruct (decide (b < end_ r)).
    + eapply block_in_head in B; [lia | apply S0 | lia | done].
    + apply F1. apply (block_in_tail r); [done | lia].
Qed.

Lemma alloc_list_none lo l size b :
  -1 ≤ lo → sorted_from lo l → 0 < size → alloc_list size l = None →
  ¬ block_free l b (b + size).
Proof.
  intros Hlo S Hs. revert lo Hlo S. induction l as [| r l IH]; intros lo Hlo S0 E B.
  { by apply (B b); lia. }
  cbn [alloc_list] in E. rewrite (avail_id lo r l) in E by done.
  pose proof S0 as (H1 & H2 & H3 & S).
  destruct (Z.eqb_spec (end_ r - start r) size); [done |].
  destruct (Z.ltb_spec size (end_ r - start r)); [done |].
  destruct (alloc_list size l) as [[a1 l1] |] eqn:E1; simplify_eq/=.
  destruct (decide (b < end_ r)).
  - eapply block_in_head in B; [lia | apply S0 | lia | done].
  - apply (IH (end_ r)); [lia | done | done |]. apply (block_in_tail r); [done | lia].
Qed.

Lemma take_list_spec lo full addr e l :
  -1 ≤ lo → sorted_from lo l → addr < e →
  match take_list full addr e l with
  | (DONE, l') => block_free l addr e ∧ sorted_from lo l' ∧ taken l l' addr e
  | (NO_SPACE, l') => full = true ∧ l' = l ∧ block_free l addr e
  | (ERROR, l') => l' = l ∧ ¬ block_free l addr e
  end.
Proof.
  intros Hlo S Hlt. revert lo Hlo S. induction l as [| r l IH]; intros lo Hlo S0; simpl.
  { split; [done |]. intros B. apply (B addr). lia. }
  pose proof S0 as (H1 & H2 & H3 & S).
  assert (¬ (start r ≤ addr ∧ e ≤ end_ r) → addr < end_ r → ¬ block_free (r :: l) addr e) as Herr.
  { intros Hn Ha B. apply Hn. by eapply block_in_head. }
  destruct (Z.eqb_spec (start r) addr) as [Es | Ns].
  { destruct (Z.eqb_spec (end_ r) e); [| destruct (Z.ltb_spec e (end_ r))].
    - split_and!; [intros x Hx; left; lia | by eapply sorted_weaken; [| apply S]; lia |].
      free_case S.
    - split_and!; [intros x Hx; left; lia | simpl; split_and!; (done || lia) |]. free_case S.
    - split; [done |]. apply Herr; lia. }
  destruct (Z.ltb_spec (start r) addr) as [Ls | Gs]; [| split; [done |]; apply Herr; lia].
  destruct (Z.eqb_spec (end_ r) e); [| destruct (Z.ltb_spec e (end_ r))].
  - split_and!; [intros x Hx; left; lia | simpl; split_and!;
      [lia.. | by eapply sorted_weaken; [| apply S]; lia] |]. free_case S.
  - destruct full; [split_and!; [done.. |]; intros x Hx; left; lia |].
    split_and!; [intros x Hx; left; lia | simpl; split_and!; (done || lia) |]. free_case S.
  - destruct (Z.leb_spec (end_ r) addr) as [Le | Gt].
    2:{ split; [done |]. apply Herr; lia. }
    specialize (IH (end_ r) ltac:(lia) S).
    destruct (take_list full addr e l) as [[| |] l1]; simpl.
    + destruct IH as (B & S1 & T). split_and!; [by apply block_free_tail | done.. |].
      intros x. pose proof (T x). simpl. intuition lia.
    + destruct IH as (-> & -> & B). split_and!; [done.. |]. by apply block_free_tail.
    + destruct IH as (-> & B). split; [done |]. intros B'. apply B. by eapply block_in_tail.
Qed.

(** *** Giving space back *)

(** Freeing behind the first range: the gaps between neighbours, then the
    space after the last range. *)
Fixpoint free_list (full : bool) (addr e : Z) (l : list VPAllocatorRange)
    : VPAllocatorResult * list VPAllocatorRange :=
  match l with
  | [] => (ERROR, [])
  | [r] =>
      if end_ r <? addr then if full then (NO_SPACE, [r]) else (DONE, [r; Range addr e])
      else if end_ r =? addr then (DONE, [Range (start r) e])
      else (ERROR, [r])
  | r :: (r1 :: l') as l1 =>
      if addr =? end_ r then
        if start r1 =? e then (DONE, Range (start r) (end_ r1) :: l')
        else if e <? start r1 then (DONE, Range (start r) e :: r1 :: l')
        else (ERROR, l)
      else if (end_ r <? addr) && (addr <? start r1) then
        if e =? start r1 then (DONE, r :: Range addr (end_ r1) :: l')
        else if e <? start r1 then
          if full then (NO_SPACE, l) else (DONE, r :: Range addr e :: r1 :: l')
        else (ERROR, l)
      else prod_map id (cons r) (free_list full addr e l1)
  end.

Lemma free_list_cons full addr e r r1 l :
  free_list full addr e (r :: r1 :: l) =
    if addr =? end_ r then
      if start r1 =? e then (DONE, Range (start r) (end_ r1) :: l)
      else if e <? start r1 then (DONE, Range (start r) e :: r1 :: l)
      else (ERROR, r :: r1 :: l)
    else if (end_ r <? addr) && (addr <? start r1) then
      if e =? start r1 then (DONE, r :: Range addr (end_ r1) :: l)
      else if e <? start r1 then
        if full then (NO_SPACE, r :: r1 :: l) else (DONE, r :: Range addr e :: r1 :: l)
      else (ERROR, r :: r1 :: l)
    else prod_map id (cons r) (free_list full addr e (r1 :: l)).
Proof. done. Qed.

Lemma free_list_below lo full addr e l :
  sorted_from lo l → addr ≤ lo → free_list full addr e l = (ERROR, l).
Proof.
  revert lo. induction l as [| r [| r1 l] IH]; intros lo S Ha; [done | |].
  - destruct S as (H1 & H2 & _). cbn [free_list].
    destruct (Z.ltb_spec (end_ r) addr), (Z.eqb_spec (end_ r) addr); try lia. done.
  - destruct S as (H1 & H2 & H3 & S). rewrite free_list_cons.
    destruct (Z.eqb_spec addr (end_ r)), (Z.ltb_spec (end_ r) addr); try lia.
    rewrite (IH (end_ r) S) by lia. done.
Qed.

Lemma free_list_spec lo full addr e r l :
  -1 ≤ lo → sorted_from lo (r :: l) → start r ≤ addr → addr < e → e < 2 ^ 64 →
  match free_list full addr e (r :: l) with
  | (DONE, l') => (∀ x, addr ≤ x < e → ¬ free_at (r :: l) x) ∧ sorted_from lo l' ∧
      added (r :: l) l' addr e
  | (NO_SPACE, l') => full = true ∧ l' = r :: l ∧ ∀ x, addr ≤ x < e → ¬ free_at (r :: l) x
  | (ERROR, l') => l' = r :: l ∧ ∃ x, addr ≤ x < e ∧ free_at (r :: l) x
  end.
Proof.
  intros Hlo S0 Hs Hlt He. revert lo r Hlo S0 Hs.
  induction l as [| r1 l IH]; intros lo r Hlo (H1 & H2 & H3 & S) Hs.
  - cbn [free_list]. destruct (Z.ltb_spec (end_ r) addr) as [L | G].
    + destruct full; [split_and!; [done.. |]; intros x Hx [|]; [lia | done] |].
      split_and!; [intros x Hx [|]; [lia | done] | simpl; split_and!; (done || lia) |].
      intros x. simpl. intuition lia.
    + destruct (Z.eqb_spec (end_ r) addr) as [E | N].
      * split_and!; [intros x Hx [|]; [lia | done] | simpl; split_and!; (done || lia) |].
        intros x. simpl. intuition lia.
      * split; [done |]. exists addr. split; [lia |]. left. lia.
  - pose proof S as (K1 & K2 & K3 & S1). rewrite free_list_cons.
    assert (∀ x, free_at l x → end_ r1 < x) as F1
      by (intros x F; apply (sorted_free_lo _ _ _ S1) in F; lia).
    destruct (Z.eqb_spec addr (end_ r)) as [E | N].
    { destruct (Z.eqb_spec (start r1) e); [| destruct (Z.ltb_spec e (start r1))].
      - split_and!; [intros x Hx [| [| F]]; [lia.. |]; apply F1 in F; lia | simpl; split_and!;
          (done || lia) |]. intros x. simpl. intuition lia.
      - split_and!; [intros x Hx [| [| F]]; [lia.. |]; apply F1 in F; lia | simpl; split_and!;
          (done || lia) |]. intros x. simpl. intuition lia.
      - split; [done |]. exists (start r1). split; [lia |]. right. left. lia. }
    destruct ((end_ r <? addr) && (addr <? start r1)) eqn:Egap.
    { bsimp. destruct (Z.eqb_spec e (start r1)); [| destruct (Z.ltb_spec e (start r1))].
      - split_and!; [intros x Hx [| [| F]]; [lia.. |]; apply F1 in F; lia | simpl; split_and!;
          (done || lia) |]. intros x. simpl. intuition lia.
      - assert (∀ x, addr ≤ x < e → ¬ free_at (r :: r1 :: l) x) as Hdis
          by (intros x Hx [| [| F]]; [lia.. |]; apply F1 in F; lia).
        destruct full; [done |]. split_and!; [done | simpl; split_and!; (done || lia) |].
        intros x. simpl. intuition lia.
      - split; [done |]. exists (start r1). split; [lia |]. right. left. lia. }
    destruct (decide (addr < end_ r)) as [Hin | Hout].
    { rewrite (free_list_below (end_ r)) by (done || lia).
      split; [done |]. exists addr. split; [lia |]. left. lia. }
    specialize (IH (end_ r) r1 ltac:(lia) S). apply andb_false_iff in Egap.
    rewrite Z.ltb_ge, Z.ltb_ge in Egap. specialize (IH ltac:(lia)).
    destruct (free_list full addr e (r1 :: l)) as [[| |] l1]; cbn [prod_map id fst snd].
    + destruct IH as (D & S' & A). split_and!; [intros x Hx [|F]; [lia | by apply (D x)] |
        simpl; by split_and! |]. intros x. pose proof (A x). simpl in *. intuition lia.
    + destruct IH as (-> & -> & D). split_and!; [done.. |].
      intros x Hx [|F]; [lia | by apply (D x)].
    + destruct IH as (-> & x & Hx & F). split; [done |]. exists x. split; [done | by right].
Qed.

(** The order of the tests in the code (last range first) does not matter on
    a sorted list. *)
Lemma sorted_last lo l r : sorted_from lo (l ++ [r]) → lo < start r < end_ r.
Proof.
  revert lo. induction l as [| r0 l IH]; intros lo (H1 & H2 & H3 & S); [done |].
  apply IH in S. lia.
Qed.

(** A block at or behind the end of the last range skips every gap. *)
Lemma free_list_skip lo full addr e r0 l r :
  sorted_from lo (r0 :: l ++ [r]) → end_ r ≤ addr →
  free_list full addr e (r0 :: l ++ [r]) = prod_map id (cons r0) (free_list full addr e (l ++ [r])).
Proof.
  intros (H1 & H2 & H3 & S) Ha. pose proof (sorted_last _ _ _ S).
  destruct l as [| r1 l]; cbn [app] in *; rewrite free_list_cons.
  - destruct (Z.eqb_spec addr (end_ r0)), (Z.ltb_spec addr (start r)); try lia.
    by rewrite andb_false_r.
  - destruct S as (K1 & K2 & K3 & S). pose proof (sorted_last _ _ _ S).
    destruct (Z.eqb_spec addr (end_ r0)), (Z.ltb_spec addr (start r1)); try lia.
    by rewrite andb_false_r.
Qed.

Lemma free_list_after_last lo full addr e l r :
  sorted_from lo (l ++ [r]) → end_ r < addr →
  free_list full addr e (l ++ [r]) =
    if full then (NO_SPACE, l ++ [r]) else (DONE, l ++ [r; Range addr e]).
Proof.
  revert lo. induction l as [| r0 l IH]; intros lo S Ha.
  { simpl. destruct (Z.ltb_spec (end_ r) addr); [done | lia]. }
  cbn [app]. rewrite (free_list_skip lo) by (done || lia). destruct S as (_ & _ & _ & S).
  rewrite (IH _ S Ha). by destruct full.
Qed.

Lemma free_list_at_last lo full addr e l r :
  sorted_from lo (l ++ [r]) → end_ r = addr →
  free_list full addr e (l ++ [r]) = (DONE, l ++ [Range (start r) e]).
Proof.
  revert lo. induction l as [| r0 l IH]; intros lo S Ha.
  { simpl. destruct (Z.ltb_spec (end_ r) addr), (Z.eqb_spec (end_ r) addr); (done || lia). }
  cbn [app]. rewrite (free_list_skip lo) by (done || lia). destruct S as (_ & _ & _ & S).
  by rewrite (IH _ S Ha).
Qed.

Lemma free_list_before_last lo full addr e l r :
  sorted_from lo (l ++ [r]) → addr < end_ r →
  free_list full addr e (l ++ [r]) = fill_list full addr e (l ++ [r]).
Proof.
  revert lo. induction l as [| r0 l IH]; intros lo S Ha.
  { simpl. destruct (Z.ltb_spec (end_ r) addr), (Z.eqb_spec (end_ r) addr); (done || lia). }
  destruct S as (_ & _ & _ & S). specialize (IH _ S Ha).
  destruct l as [| r1 l]; cbn [app] in *; rewrite free_list_cons, IH; done.
Qed.

Lemma drop_live2 p i :
  shape p → (S i < num p)%nat →
  drop i (live p) = (ranges p !!! i) :: (ranges p !!! S i) :: drop (S (S i)) (live p).
Proof. intros Hs Hi. rewrite (drop_live p i), (drop_live p (S i)) by (done || lia). done. Qed.

(** Merging entry [i] with its successor. *)
Lemma replaced_merge p i x :
  shape p → (S i < num p)%nat →
  replaced p
    (with_ranges p (shift_down (num p - (i + 2)) (i + 2) (<[i := x]> (ranges p))) (num p - 1)) i
    (x :: drop (S (S i)) (live p)).
Proof.
  intros Hs Hi. replace (i + 2)%nat with (S i + 1)%nat by lia.
  destruct (replaced_insert p i x Hs) as (S1 & _ & E1); [lia |].
  destruct (replaced_delete _ (S i) S1) as (S2 & _ & E2); [simpl; lia |].
  split; [exact S2 |]. split; [done |].
  etransitivity; [exact E2 |]. rewrite E1.
  assert (length (take i (live p)) = i) by (rewrite length_take, length_live; (done || lia)).
  rewrite (cons_middle x), app_assoc, take_app_length' by (rewrite length_app; simpl; lia).
  rewrite <- app_assoc, drop_app_ge by (rewrite length_app; simpl; lia).
  rewrite length_app, H, drop_drop. simpl. do 3 f_equal. lia.
Qed.

Lemma TryFree_loop_refines k i p addr size :
  shape p → (i + k = num p - 1)%nat →
  let '(res, p') := TryFree_loop k i p addr size in
  ∃ d, fill_list (full p) addr (u64 (addr + size)) (drop i (live p)) = (res, d) ∧
    replaced p p' i d.
Proof.
  intros Hs. revert i. induction k as [| k IH]; intros i Hk.
  { simpl. eexists. split; [| by apply replaced_refl].
    destruct (decide (i < num p)%nat) as [Hi |].
    - rewrite (drop_live p i), (drop_ge _ (S i)) by (rewrite ?length_live; (done || lia)). done.
    - rewrite drop_ge by (rewrite length_live; (done || lia)). done. }
  pose proof (drop_live2 p i Hs ltac:(lia)) as D.
  assert (replaced p p i (drop i (live p))) as Rsame by (by apply replaced_refl).
  rewrite D in *. cbn [TryFree_loop]. rewrite !Nat.add_1_r. cbn [fill_list].
  destruct (addr =? end_ (ranges p !!! i)).
  { destruct (start _ =? _); [| destruct (_ <? start _)].
    - eexists. split; [done |]. apply replaced_merge; (done || lia).
    - eexists. split; [done |].
      rewrite <- (drop_live p (S i)) by (done || lia). apply replaced_insert; (done || lia).
    - by eexists. }
  destruct (_ && _).
  - destruct (_ =? start _); [| destruct (_ <? start _)].
    + eexists. split; [done |]. apply replaced_step; [done | lia |].
      apply replaced_insert; (done || lia).
    + unfold full at 1. case_bool_decide; case_bool_decide; try lia; [| by eexists].
      eexists. split; [done |]. apply replaced_step; [done | lia |].
      rewrite <- (drop_live p (S i)) by (done || lia).
      pose proof (replaced_split p i (Range addr (u64 (addr + size))) Hs) as R.
      rewrite !Nat.add_1_r in R. apply R; [lia |]. by apply bool_decide_eq_false.
    + by eexists.
  - specialize (IH (S i)). destruct (TryFree_loop k (S i) p addr size) as [res p'].
    destruct IH as (d & E & R); [lia |]. rewrite (drop_live p (S i)) in E by (done || lia).
    simpl in E |- *. rewrite E. simpl. eexists. split; [done |].
    apply replaced_step; (done || lia).
Qed.

(** The live entries split at the last one. *)
Lemma live_last p :
  shape p → num p ≠ 0%nat → live p = take (num p - 1) (live p) ++ [ranges p !!! (num p - 1)%nat].
Proof.
  intros Hs Hn. rewrite <- (take_drop (num p - 1) (live p)) at 1. f_equal.
  rewrite drop_live by (done || lia). f_equal. apply drop_ge.
  rewrite length_live by done. lia.
Qed.

Lemma live_first p :
  shape p → num p ≠ 0%nat → live p = (ranges p !!! 0%nat) :: drop 1 (live p).
Proof. intros Hs Hn. rewrite <- (drop_live p 0) by (done || lia). done. Qed.

(** Freeing a block that does not start below the first range. *)
Lemma TryFree_refines_behind p addr size :
  shape p → sorted (live p) → num p ≠ 0%nat → 0 < round_size size →
  start (ranges p !!! 0%nat) ≤ addr →
  let '(res, p') := TryFree p addr size in
  ∃ d, free_list (full p) addr (u64 (addr + round_size size)) (live p) = (res, d) ∧
    replaced p p' 0 d.
Proof.
  intros Hs So Hn Hsz Hst. unfold TryFree. rewrite bool_decide_eq_false_2 by done.
  destruct (Z.leb_spec (round_size size) 0), (Z.ltb_spec addr (start (ranges p !!! 0%nat))); try lia.
  pose proof (live_last p Hs Hn) as El. unfold sorted in So. rewrite El in So.
  destruct (Z.ltb_spec (end_ (ranges p !!! (num p - 1)%nat)) addr) as [L | G].
  { rewrite El, (free_list_after_last (-1)) by done. fold (full p).
    destruct (full p) eqn:Hf; (eexists; split; [done |]).
    - rewrite <- El. by apply (replaced_refl p 0).
    - apply bool_decide_eq_false in Hf. destruct Hs as [Hl Hm]. split; [| split; [done |]].
      + split; simpl; [by rewrite length_insert | lia].
      + simpl. change [?a; ?b] with ([a] ++ [b]). rewrite app_assoc, <- El.
        unfold live. simpl.
        rewrite Nat.add_1_r, (take_S_r _ _ (Range addr (u64 (addr + round_size size))))
          by (apply list_lookup_insert_eq; lia).
        by rewrite take_insert_ge by lia. }
  destruct (Z.eqb_spec (end_ (ranges p !!! (num p - 1)%nat)) addr) as [E | N].
  { rewrite El, (free_list_at_last (-1)) by done. eexists. split; [done |].
    destruct (replaced_insert p (num p - 1) (Range (start (ranges p !!! (num p - 1)%nat))
      (u64 (addr + round_size size))) Hs) as (S' & N' & E'); [lia |].
    split; [done |]. split; [done |]. rewrite E'. rewrite drop_ge; [done |].
    rewrite length_live by done. lia. }
  rewrite El, (free_list_before_last (-1)), <- El by (done || lia).
  apply (TryFree_loop_refines (num p - 1) 0); (done || lia).
Qed.

Lemma IsFree_loop_spec k i p lo addr size :
  shape p → (i + k = num p)%nat → sorted_from lo (drop i (live p)) →
  0 < size → u64 (addr + size) = addr + size →
  IsFree_loop k i p addr size = true ↔ block_free (drop i (live p)) addr (addr + size).
Proof.
  intros Hs. revert i lo. induction k as [| k IH]; intros i lo Hk So Hsz Ew.
  { simpl. replace i with (num p) by lia. rewrite drop_live_nil by done.
    split; [done |]. intros B. exfalso. apply (B addr). lia. }
  rewrite (drop_live p i) in So |- * by (done || lia). cbn [IsFree_loop]. rewrite Ew.
  pose proof So as (H1 & H2 & H3 & Sr). set (r := ranges p !!! i) in *.
  assert (start r ≤ addr → addr < end_ r →
    (addr + size <=? end_ r) = true ↔ block_free (r :: drop (S i) (live p)) addr (addr + size)) as Hin.
  { intros Ha He. rewrite Z.leb_le. split.
    - intros Hle x Hx. left. lia.
    - intros B. by eapply block_in_head in B; [apply B | apply So | lia | lia]. }
  destruct (Z.eqb_spec (start r) addr); [apply Hin; lia |].
  destruct (Z.ltb_spec (start r) addr), (Z.ltb_spec addr (end_ r)),
    (Z.ltb_spec addr (start r)); try lia; cbn [andb].
  - apply Hin; lia.
  - rewrite (IH (S i) (end_ r)) by (done || lia). split.
    + apply block_free_tail.
    + intros B. by eapply block_in_tail.
  - split; [done |]. intros B. eapply block_in_head in B; [lia | apply So | lia | lia].
Qed.

Lemma round_size_ceil size :
  0 ≤ size → size + 4096 < 2 ^ 64 → round_size size = 4096 * ((size + 4095) / 4096).
Proof.
  intros H0 H1. unfold round_size, pagesize.
  pose proof (Z.div_mod size 4096). pose proof (Z.mod_pos_bound size 4096 eq_refl).
  destruct (Z.ltb_spec 0 (size mod 4096)).
  - rewrite wrap_id by (unfold is_u; lia).
    assert ((size + 4095) / 4096 = size / 4096 + 1) as ->; [| lia].
    symmetry. apply (Z.div_unique _ _ _ (size mod 4096 - 1)); lia.
  - rewrite wrap_id by (unfold is_u; lia).
    assert ((size + 4095) / 4096 = size / 4096) as ->; [| lia].
    symmetry. apply (Z.div_unique _ _ _ 4095); lia.
Qed.

(** A block size in bytes, and the page-rounded size the allocator uses. *)
Definition valid_size (size : Z) : Prop := 0 < size ∧ size + 4096 < 2 ^ 64.

Lemma round_size_pos size : valid_size size → size ≤ round_size size < size + 4096.
Proof.
  intros [H0 H1]. rewrite round_size_ceil by lia.
  pose proof (Z.div_mod (size + 4095) 4096). pose proof (Z.mod_pos_bound (size + 4095) 4096 eq_refl).
  lia.
Qed.

(** The invariant of a page of ranges. *)
Definition wf (p : VPAllocatorPage) : Prop := shape p ∧ sorted (live p).

Lemma wf_replaced p p' d : replaced p p' 0 d → sorted d → wf p' ∧ live p' = d ∧ next p' = next p.
Proof. intros (Hs & Hn & E) So. simpl in E. unfold wf. rewrite E. done. Qed.

(** What [TryAllocate] does to a page of size-[n] blocks; its clients start
    from this relation. *)
Definition allocates (p : VPAllocatorPage) (n : Z) (r : option Z * VPAllocatorPage) : Prop :=
  match r with
  | (Some a, p') => wf p' ∧ next p' = next p ∧ block_free (live p) a (a + n) ∧
      taken (live p) (live p') a (a + n) ∧ ∀ b, block_free (live p) b (b + n) → a ≤ b
  | (None, p') => p' = p ∧ ∀ b, ¬ block_free (live p) b (b + n)
  end.

Lemma TryAllocate_allocates p size :
  wf p → valid_size size → allocates p (round_size size) (TryAllocate p size).
Proof.
  intros [Hs So] Hv. pose proof (round_size_pos size Hv). destruct Hv.
  pose proof (TryAllocate_refines p size Hs) as R. unfold allocates.
  destruct (TryAllocate p size) as [[a |] p'].
  - destruct R as (d & E & Rp).
    destruct (alloc_list_some (-1) (live p) (round_size size) a d) as (S' & _ & B & T & F);
      [done | done | lia | done |].
    destruct (wf_replaced _ _ _ Rp S') as (W & El & En). rewrite El. by split_and!.
  - destruct R as [-> E]. split; [done |]. intros b.
    apply (alloc_list_none (-1)); [done | done | lia | done].
Qed.

(** ** Properties *)

(** C35: [TryAllocate] takes the lowest free block of the rounded size out of
    the free ranges and returns its start, keeping the page well formed; it
    returns nothing, and changes nothing, only when no free block of that
    size exists. *)
Theorem TryAllocate_correct (p : VPAllocatorPage) (size : Z) :
  wf p → valid_size size →
  let n := round_size size in
  match TryAllocate p size with
  | (Some a, p') => wf p' ∧ next p' = next p ∧ block_free (live p) a (a + n) ∧
      taken (live p) (live p') a (a + n) ∧ ∀ b, block_free (live p) b (b + n) → a ≤ b
  | (None, p') => p' = p ∧ ∀ b, ¬ block_free (live p) b (b + n)
  end.
Proof. apply TryAllocate_allocates. Qed.

(** [TryAllocateFromAddress] succeeds exactly when the block asked for is
    free (and, for a block in the middle of a range, the array has room for
    one more entry); it then takes exactly that block out. *)
Theorem TryAllocateFromAddress_correct (p : VPAllocatorPage) (addr size : Z) :
  wf p → 0 ≤ addr → 0 < size → addr + size < 2 ^ 64 →
  match TryAllocateFromAddress p addr size with
  | (DONE, p') => block_free (live p) addr (addr + size) ∧ wf p' ∧
      taken (live p) (live p') addr (addr + size)
  | (NO_SPACE, p') => block_free (live p) addr (addr + size) ∧ live p' = live p ∧
      num p = num_records
  | (ERROR, p') => ¬ block_free (live p) addr (addr + size) ∧ live p' = live p
  end.
Proof.
  intros [Hs So] Ha Hsz Ho. pose proof (TryAllocateFromAddress_refines p addr size Hs) as R.
  rewrite wrap_id in R by (unfold is_u; lia).
  pose proof (take_list_spec (-1) (full p) addr (addr + size) (live p) ltac:(lia) So ltac:(lia)) as T.
  destruct (TryAllocateFromAddress p addr size) as [res p'].
  destruct R as (d & E & Rp). rewrite E in T. pose proof Rp as (_ & _ & El). simpl in El.
  destruct res; [destruct T as (T1 & T2 & T3) | destruct T as (T1 & -> & T3) | destruct T as (-> & T2)].
  - destruct (wf_replaced _ _ _ Rp T2) as (W & -> & _). done.
  - split; [done |]. split; [done |]. apply bool_decide_eq_true in T1. destruct Hs. lia.
  - done.
Qed.

(** [IsFree] answers whether every address of the block is free. *)
Theorem IsFree_correct (p : VPAllocatorPage) (addr size : Z) :
  wf p → 0 ≤ addr → 0 < size → addr + size < 2 ^ 64 →
  IsFree p addr size = true ↔ block_free (live p) addr (addr + size).
Proof.
  intros [Hs So] Ha Hsz Ho. unfold IsFree. case_bool_decide as Hn.
  - split; [done |]. intros B. exfalso. specialize (B addr ltac:(lia)).
    unfold live in B. by replace (num p) with 0%nat in B by lia.
  - apply (IsFree_loop_spec (num p) 0 p (-1)); [done | lia | done | done |].
    apply wrap_id. unfold is_u. lia.
Qed.

(** The block lies in the gap below the first range, not touching it. *)
Definition in_front_gap (p : VPAllocatorPage) (addr size : Z) : Prop :=
  num p ≠ 0%nat ∧ addr + round_size size < start (ranges p !!! 0%nat).

Lemma TryFree_empty p addr size :
  shape p → num p = 0%nat → 0 ≤ addr → addr + round_size size < 2 ^ 64 → 0 < round_size size →
  ∃ p', TryFree p addr size = (DONE, p') ∧ next p' = next p ∧ shape p' ∧
    live p' = [Range addr (addr + round_size size)].
Proof.
  intros [L N] Hn Ha Ho Hr. unfold TryFree. rewrite bool_decide_eq_true_2 by done.
  eexists. split; [done |]. split; [done |].
  rewrite (wrap_id 64 (addr + _)) by (unfold is_u; lia). split.
  - split; simpl; [by rewrite length_insert | rewrite Hn; apply Nat.leb_le; by vm_compute].
  - unfold live. simpl. rewrite Hn. simpl.
    destruct (ranges p) as [| r rs]; [discriminate L | done].
Qed.

(** Freeing the space that ends where the first range starts, or overlaps it. *)
Lemma TryFree_front p addr size :
  shape p → sorted (live p) → num p ≠ 0%nat → 0 ≤ addr → 0 < round_size size →
  addr < start (ranges p !!! 0%nat) → addr + round_size size < 2 ^ 64 →
  start (ranges p !!! 0%nat) ≤ addr + round_size size →
  TryFree p addr size =
    if start (ranges p !!! 0%nat) =? addr + round_size size then
      (DONE, with_ranges p (<[0%nat := Range addr (end_ (ranges p !!! 0%nat))]> (ranges p)) (num p))
    else (ERROR, p).
Proof.
  intros Hs So Hn Ha Hr Hlt Ho Hle. unfold TryFree.
  rewrite bool_decide_eq_false_2 by done. pose proof (live_first p Hs Hn) as El.
  unfold sorted in So. rewrite El in So. destruct So as (H1 & H2 & H3 & _).
  rewrite (wrap_id 64 (start _ - _)) by (unfold is_u; lia).
  destruct (Z.leb_spec (round_size size) 0), (Z.ltb_spec addr (start (ranges p !!! 0%nat))),
    (Z.ltb_spec (round_size size) (start (ranges p !!! 0%nat) - addr)); try lia.
  destruct (Z.eqb_spec (start (ranges p !!! 0%nat) - addr) (round_size size)),
    (Z.eqb_spec (start (ranges p !!! 0%nat)) (addr + round_size size)); (done || lia).
Qed.

(** outside the gap below the first range, [TryFree] adds exactly the
    block (rounded to pages) to the free ranges, merging it with its
    neighbours, when the block is disjoint from them; it reports NO_SPACE only
    on a full page and changes nothing then; and it rejects with ERROR, and
    changes nothing, exactly when some address of the block is free already. *)
Theorem TryFree_correct (p : VPAllocatorPage) (addr size : Z) :
  wf p → 0 ≤ addr → valid_size size → addr + round_size size < 2 ^ 64 →
  ¬ in_front_gap p addr size →
  let e := addr + round_size size in
  match TryFree p addr size with
  | (DONE, p') => (∀ x, addr ≤ x < e → ¬ free_at (live p) x) ∧ wf p' ∧
      added (live p) (live p') addr e
  | (NO_SPACE, p') => (∀ x, addr ≤ x < e → ¬ free_at (live p) x) ∧ live p' = live p ∧
      num p = num_records
  | (ERROR, p') => (∃ x, addr ≤ x < e ∧ free_at (live p) x) ∧ live p' = live p
  end.
Proof.
  intros [Hs So] Ha Hv Ho Hgap e. pose proof (round_size_pos size Hv) as Hr. destruct Hv as [Hv1 Hv2].
  destruct (decide (num p = 0%nat)) as [Hn | Hn].
  { destruct (TryFree_empty p addr size) as (p' & -> & _ & S' & El'); [done.. | lia |].
    assert (live p = []) as El by (unfold live; by rewrite Hn).
    unfold wf, added. rewrite El, El'. split; [by intros x _ [] |]. split; [split; [done |] |].
    - unfold sorted. cbn [sorted_from start end_]. split_and!; (done || lia).
    - intros x. cbn [free_at start end_]. unfold e. intuition lia. }
  pose proof (live_first p Hs Hn) as El. pose proof So as So'. unfold sorted in So'. rewrite El in So'.
  destruct (decide (addr < start (ranges p !!! 0%nat))) as [Hlt | Hge].
  - assert (start (ranges p !!! 0%nat) ≤ e) as Hle
      by (destruct (decide (start (ranges p !!! 0%nat) ≤ e)); [done |]; destruct Hgap; split; [done | lia]).
    rewrite TryFree_front by (done || lia). fold e. destruct So' as (H1 & H2 & H3 & S1).
    destruct (Z.eqb_spec (start (ranges p !!! 0%nat)) e) as [E | N].
    + destruct (wf_replaced p _ _ (replaced_insert p 0 (Range addr (end_ (ranges p !!! 0%nat))) Hs
        ltac:(lia))) as (W & El' & _); [unfold sorted; cbn [sorted_from start end_]; split_and!; (done || lia) |].
      rewrite El', El. split_and!; [| apply W.. |].
      * intros x Hx [|F]; [lia |]. apply (sorted_free_lo _ _ _ S1) in F. lia.
      * intros x. simpl. intuition lia.
    + split; [| done]. exists (start (ranges p !!! 0%nat)). rewrite El. split; [lia |]. left. lia.
  - pose proof (TryFree_refines_behind p addr size Hs So Hn ltac:(lia) ltac:(lia)) as R.
    pose proof (free_list_spec (-1) (full p) addr e (ranges p !!! 0%nat) (drop 1 (live p))
      ltac:(lia) So' ltac:(lia) ltac:(lia) Ho) as T.
    rewrite wrap_id in R by (unfold is_u; lia). fold e in R. rewrite <- El in T.
    destruct (TryFree p addr size) as [res p'].
    destruct R as (d & E & Rp). rewrite E in T. pose proof Rp as (_ & _ & El'). simpl in El'.
    destruct res; [destruct T as (T1 & T2 & T3) | destruct T as (T1 & -> & T3) | destruct T as (-> & T2)].
    + destruct (wf_replaced _ _ _ Rp T2) as (W & -> & _). done.
    + split; [done |]. split; [done |]. apply bool_decide_eq_true in T1. destruct Hs. lia.
    + done.
Qed.

(** freeing a block in the gap below the first range reports DONE but
    overwrites the first entry: the block is free afterwards, and the whole
    first range is not, although nothing allocated it. *)
Theorem TryFree_front_gap_loses_first_range (p : VPAllocatorPage) (addr size : Z) :
  wf p → 0 ≤ addr → valid_size size → (num p ≤ 127)%nat → in_front_gap p addr size →
  ∃ p', TryFree p addr size = (DONE, p') ∧ num p' = num p ∧
    live p' = Range addr (addr + round_size size) :: drop 1 (live p) ∧
    ∀ x, start (ranges p !!! 0%nat) ≤ x < end_ (ranges p !!! 0%nat) →
      free_at (live p) x ∧ ¬ free_at (live p') x.
Proof.
  intros [Hs So] Ha Hv Hnum [Hn Hgap]. pose proof (round_size_pos size Hv) as Hr. destruct Hv as [Hv1 Hv2].
  pose proof (live_first p Hs Hn) as El. unfold sorted in So. rewrite El in So.
  destruct So as (H1 & H2 & H3 & S1). pose proof Hs as [L N]. unfold TryFree.
  rewrite bool_decide_eq_false_2 by done. rewrite (wrap_id 64 (start _ - _)) by (unfold is_u; lia).
  destruct (Z.leb_spec (round_size size) 0), (Z.ltb_spec addr (start (ranges p !!! 0%nat))),
    (Z.ltb_spec (round_size size) (start (ranges p !!! 0%nat) - addr)); try lia.
  assert (num_records = 254%nat) as Hrec by done.
  rewrite bool_decide_eq_false_2 by lia.
  rewrite (wrap_id 64 (addr + _)) by (unfold is_u; lia).
  eexists. split; [done |]. split; [done |].
  assert (live (with_ranges p (<[0%nat := Range addr (addr + round_size size)]>
    (shift_up (num p - 1) 1 num_records (ranges p))) (num p)) =
    Range addr (addr + round_size size) :: drop 1 (live p)) as El'.
  { unfold live. simpl. apply list_eq. intros [| q].
    - rewrite lookup_take_lt, list_lookup_insert_eq by (rewrite ?length_shift_up; lia). done.
    - simpl. rewrite lookup_drop. destruct (decide (S q < num p)%nat).
      + rewrite !lookup_take_lt, list_lookup_insert_ne, shift_up_lookup by lia.
        rewrite bool_decide_eq_false_2 by lia. done.
      + by rewrite !lookup_take_ge by lia. }
  split; [exact El' |]. intros x Hx. split; [rewrite El; by left |].
  intros F. rewrite El' in F. destruct F as [F | F]; [simpl in F; lia |].
  apply (sorted_free_lo _ _ _ S1) in F. lia.
Qed.

(** *** Concrete pages *)

(** 256 MiB free from address 0x2000 on, and a second range above. *)
Definition example_page : VPAllocatorPage :=
  Page ([Range 0x2000 0x10000000; Range 0x20000000 0x20004000] ++ replicate 252 (Range 0 0))
    (Link 0 0) 2.

Lemma example_page_wf : wf example_page.
Proof. split; [split; [by vm_compute | apply Nat.leb_le; by vm_compute] | by repeat split]. Qed.

(** The witnesses compute the result of an operation first, and then read off
    what its theorem says of that result. *)
Lemma TryAllocate_correct_witness :
  fst (TryAllocate example_page 100) = Some 0x2000 ∧
  ∀ b, block_free (live example_page) b (b + round_size 100) → 0x2000 ≤ b.
Proof.
  pose proof (TryAllocate_correct example_page 100 example_page_wf ltac:(done)) as H.
  assert (fst (TryAllocate example_page 100) = Some 0x2000) as E by (by vm_compute).
  split; [done |]. destruct (TryAllocate example_page 100) as [o p']. simpl in E. subst o.
  by destruct H as (_ & _ & _ & _ & H).
Defined.

Lemma TryAllocateFromAddress_correct_witness :
  fst (TryAllocateFromAddress example_page 0x4000 0x1000) = DONE ∧
  block_free (live example_page) 0x4000 (0x4000 + 0x1000).
Proof.
  pose proof (TryAllocateFromAddress_correct example_page 0x4000 0x1000 example_page_wf
    ltac:(done) ltac:(done) ltac:(done)) as H.
  assert (fst (TryAllocateFromAddress example_page 0x4000 0x1000) = DONE) as E by (by vm_compute).
  split; [done |]. destruct (TryAllocateFromAddress example_page 0x4000 0x1000) as [o p'].
  simpl in E. subst o. by destruct H as [H _].
Defined.

Lemma IsFree_correct_witness :
  IsFree example_page 0x4000 0x1000 = true ∧ block_free (live example_page) 0x4000 (0x4000 + 0x1000).
Proof.
  pose proof (IsFree_correct example_page 0x4000 0x1000 example_page_wf
    ltac:(done) ltac:(done) ltac:(done)) as H.
  assert (IsFree example_page 0x4000 0x1000 = true) as E by (by vm_compute).
  split; [done |]. by rewrite <- H.
Defined.

Lemma TryFree_correct_witness :
  fst (TryFree example_page 0x10000000 100) = DONE ∧
  ∀ x, 0x10000000 ≤ x < 0x10000000 + round_size 100 → ¬ free_at (live example_page) x.
Proof.
  assert (¬ in_front_gap example_page 0x10000000 100) as Hg
    by (intros [_ Hg]; vm_compute in Hg; discriminate Hg).
  pose proof (TryFree_correct example_page 0x10000000 100 example_page_wf
    ltac:(done) ltac:(done) ltac:(done) Hg) as H.
  assert (fst (TryFree example_page 0x10000000 100) = DONE) as E by (by vm_compute).
  split; [done |]. destruct (TryFree example_page 0x10000000 100) as [o p'].
  simpl in E. subst o. by destruct H as [H _].
Defined.

Lemma TryFree_front_gap_loses_first_range_witness :
  in_front_gap example_page 0 0x1000 ∧
  ∃ p', TryFree example_page 0 0x1000 = (DONE, p') ∧
    free_at (live example_page) 0x3000 ∧ ¬ free_at (live p') 0x3000.
Proof.
  assert (in_front_gap example_page 0 0x1000) as Hg by done. split; [done |].
  destruct (TryFree_front_gap_loses_first_range example_page 0 0x1000 example_page_wf)
    as (p' & E & _ & _ & H); [done | done | apply Nat.leb_le; by vm_compute | done |].
  exists p'. split; [done |]. by apply H.
Defined.

End VpPage.
