(* ===== verification/VpAllocator.v ===== *)
(** * The chain of range pages

    [template class VPAllocator] of [include/vpallocator.h]: the pages of
    [VpAllocatorPage] linked into a list that grows when a page is full. *)

From S2P Require Import Prelude VpAllocatorPage.

Import VpPage.

(** The concept [VPAllocatorPageAllocator]: where new range pages come from.
    [pa_try_allocate] returns the address of a page constructed in place. *)
Class VPAllocatorPageAllocator (A : Type) := {
  pa_try_allocate : A → option Z * A;
  pa_is_virtual_address : A → bool;
}.

Module VpChain.
Section VpChain.
Context {A : Type} `{VPAllocatorPageAllocator A}.

Record VPAllocator := VPA {
  heap : gmap Z VPAllocatorPage;   (* the pages, by address *)
  pageAllocator : option A;        (* None: null pointer *)
  first : Z;
}.

Definition with_heap (va : VPAllocator) (h : gmap Z VPAllocatorPage) : VPAllocator :=
  VPA h (pageAllocator va) (first va).

Definition deref (h : gmap Z VPAllocatorPage) (q : Z) : outcome VPAllocatorPage :=
  match h !! q with Some p => Ret p | None => OutOfBounds end.

(** next->ranges[next->data.num++] = page->ranges[--page->data.num] *)
Definition MoveOneUp (page next : Z) (h : gmap Z VPAllocatorPage)
    : outcome (gmap Z VPAllocatorPage) :=
  n ← deref h next;
  p ← deref h page;
  if bool_decide (num_records ≤ num n)%nat || bool_decide (num p ≤ 0)%nat then Ret h
  else
    let r := ranges p !!! (num p - 1)%nat in
    Ret (<[next := with_ranges n (<[num n := r]> (ranges n)) (num n + 1)]>
         (<[page := with_ranges p (ranges p) (num p - 1)]> h)).

(** The overload that looks the next page up. *)
Definition MoveOneUp_next (page : Z) (h : gmap Z VPAllocatorPage)
    : outcome (gmap Z VPAllocatorPage) :=
  p ← deref h page;
  let next := GetNext p in
  if negb (next =? 0) then MoveOneUp page next h else Ret h.

Fixpoint MoveUp (k : nat) (page next : Z) (h : gmap Z VPAllocatorPage)
    : outcome (gmap Z VPAllocatorPage) :=
  match k with
  | O => Ret h
  | S k => h ← MoveOneUp page next h; MoveUp k page next h
  end.

(** Returns the next page and the chain after making room. *)
Definition MoreRoom (page next : Z) (va : VPAllocator) : outcome (Z * VPAllocator) :=
  if page =? 0 then Ret (next, va)
  else
    tight ← (if next =? 0 then Ret true
             else n ← deref (heap va) next; Ret (bool_decide (num_records - num n < 2)%nat));
    if (tight : bool) then
      match pageAllocator va with
      | None => OutOfBounds
      | Some pa =>
          match pa_try_allocate pa with
          | (None, pa') => Ret (next, VPA (heap va) (Some pa') (first va))
          | (Some q, pa') =>
              p ← deref (heap va) page;
              let fresh :=
                if negb (next =? 0)
                then Page (ranges empty_page) (VpAllocatorPage.next p) (num empty_page)
                else empty_page in
              let h := <[q := fresh]> (heap va) in
              p ← deref h page;
              let p := if pa_is_virtual_address pa' then SetNextVirtual p q
                       else SetNextPhysical p q in
              let half_num := (num p / 2)%nat in
              let half_num := if bool_decide (half_num ≤ 0)%nat && bool_decide (0 < num p)%nat
                              then 1%nat else half_num in
              h ← MoveUp half_num page q (<[page := p]> h);
              Ret (q, VPA h (Some pa') (first va))
          end
      end
    else
      h ← MoveOneUp page next (heap va);
      h ← MoveOneUp page next h;
      Ret (next, with_heap va h).

(** The loops walk the chain; [fuel] bounds the number of pages. *)
Fixpoint IsFree_chain (fuel : nat) (allocator addr size : Z) (h : gmap Z VPAllocatorPage)
    : outcome bool :=
  match fuel with
  | O => OutOfFuel
  | S fuel =>
      if allocator =? 0 then Ret false
      else
        p ← deref h allocator;
        let next := GetNext p in
        match GetStart p, GetEnd p with
        | Some s, Some e =>
            if addr <? s then Ret false
            else if e <? addr then IsFree_chain fuel next addr size h
            else Ret (IsFree p addr size)
        | _, _ => IsFree_chain fuel next addr size h
        end
  end.

Definition chain_fuel (va : VPAllocator) : nat := S (size (heap va)).

Definition VPAllocator_IsFree (va : VPAllocator) (addr size : Z) : outcome bool :=
  IsFree_chain (chain_fuel va) (first va) addr size (heap va).

Fixpoint TryAllocateFromAddress_chain (fuel : nat) (allocator addr size : Z) (va : VPAllocator)
    : outcome (VPAllocatorResult * VPAllocator) :=
  match fuel with
  | O => OutOfFuel
  | S fuel =>
      if allocator =? 0 then Ret (ERROR, va)
      else
        p ← deref (heap va) allocator;
        let next := GetNext p in
        match GetStart p, GetEnd p with
        | Some s, Some e =>
            if addr <? s then Ret (ERROR, va)
            else if e <? addr then TryAllocateFromAddress_chain fuel next addr size va
            else
              let '(result, p) := TryAllocateFromAddress p addr size in
              let va := with_heap va (<[allocator := p]> (heap va)) in
              '(result, next, va) ←
                match result with
                | NO_SPACE =>
                    '(next, va) ← MoreRoom allocator next va;
                    p ← deref (heap va) allocator;
                    let '(result, p) := TryAllocateFromAddress p addr size in
                    Ret (result, next, with_heap va (<[allocator := p]> (heap va)))
                | _ => Ret (result, next, va)
                end;
              match result with
              | ERROR => TryAllocateFromAddress_chain fuel next addr size va
              | _ => Ret (result, va)
              end
        | _, _ => TryAllocateFromAddress_chain fuel next addr size va
        end
  end.

Definition VPAllocator_TryAllocateFromAddress (va : VPAllocator) (addr size : Z)
    : outcome (VPAllocatorResult * VPAllocator) :=
  match pageAllocator va with
  | None => Ret (ERROR, va)
  | Some _ => TryAllocateFromAddress_chain (S (chain_fuel va)) (first va) addr size va
  end.

Fixpoint TryAllocate_chain (fuel : nat) (allocator size : Z) (va : VPAllocator)
    : outcome (option Z * VPAllocator) :=
  match fuel with
  | O => OutOfFuel
  | S fuel =>
      if allocator =? 0 then Ret (None, va)
      else
        p ← deref (heap va) allocator;
        if HasFree p then
          match TryAllocate p size with
          | (Some a, p) => Ret (Some a, with_heap va (<[allocator := p]> (heap va)))
          | (None, p) =>
              TryAllocate_chain fuel (GetNext p) size
                (with_heap va (<[allocator := p]> (heap va)))
          end
        else TryAllocate_chain fuel (GetNext p) size va
  end.

Definition VPAllocator_TryAllocate (va : VPAllocator) (size : Z) : outcome (option Z * VPAllocator) :=
  match pageAllocator va with
  | None => Ret (None, va)
  | Some _ => TryAllocate_chain (chain_fuel va) (first va) size va
  end.

(** The loop of [TryFree].  [end_] is a [uintptr_t] that is assigned from an
    [std::optional<uintptr_t>]: the conversion the language picks is the
    optional's [operator bool], so it holds 1 after a page with free ranges. *)
Definition optional_to_integer {B : Type} (o : option B) : Z :=
  match o with Some _ => 1 | None => 0 end.

Inductive walk_result :=
  | Returned (result : VPAllocatorResult)
  | FellThrough (theEndingPage : Z) (allEmpty : bool).

Fixpoint TryFree_walk (fuel : nat) (allocator theEndingPage e : Z) (allEmpty : bool)
    (addr size : Z) (va : VPAllocator) : outcome (walk_result * VPAllocator) :=
  match fuel with
  | O => OutOfFuel
  | S fuel =>
      if allocator =? 0 then Ret (FellThrough theEndingPage allEmpty, va)
      else
        p ← deref (heap va) allocator;
        let next := GetNext p in
        if HasFree p || negb allEmpty then
          let theEndingPage := if HasFree p then allocator else theEndingPage in
          let e := if HasFree p then optional_to_integer (GetEnd p) else e in
          if (e <? addr) && negb (next =? 0) then
            TryFree_walk fuel next theEndingPage e false addr size va
          else
            let '(result, p) := TryFree p addr size in
            let va := with_heap va (<[allocator := p]> (heap va)) in
            '(result, next, va) ←
              match result with
              | NO_SPACE =>
                  '(next, va) ← MoreRoom allocator next va;
                  p ← deref (heap va) allocator;
                  let '(result, p) := TryFree p addr size in
                  Ret (result, next, with_heap va (<[allocator := p]> (heap va)))
              | _ => Ret (result, next, va)
              end;
            match result with
            | ERROR => TryFree_walk fuel next theEndingPage e false addr size va
            | _ => Ret (Returned result, va)
            end
        else TryFree_walk fuel next theEndingPage e allEmpty addr size va
  end.

(** [depth] bounds the recursive calls of [TryFree]. *)
Fixpoint TryFree_rec (depth : nat) (va : VPAllocator) (addr size : Z)
    : outcome (VPAllocatorResult * VPAllocator) :=
  match depth with
  | O => OutOfFuel
  | S depth =>
      match pageAllocator va with
      | None => Ret (ERROR, va)
      | Some _ =>
          '(w, va) ← TryFree_walk (S (chain_fuel va)) (first va) 0 0 true addr size va;
          match w with
          | Returned result => Ret (result, va)
          | FellThrough theEndingPage allEmpty =>
              if allEmpty && negb (first va =? 0) then
                p ← deref (heap va) (first va);
                let '(result, p) := TryFree p addr size in
                Ret (result, with_heap va (<[first va := p]> (heap va)))
              else if negb (theEndingPage =? 0) then
                p ← deref (heap va) theEndingPage;
                let '(result, p) := TryFree p addr size in
                let va := with_heap va (<[theEndingPage := p]> (heap va)) in
                match result with
                | NO_SPACE =>
                    '(_, va) ← MoreRoom theEndingPage (GetNext p) va;
                    TryFree_rec depth va addr size
                | _ => Ret (result, va)
                end
              else Ret (ERROR, va)
          end
      end
  end.


(** Two levels are enough: the page that is retried was just given room. *)
Definition VPAllocator_TryFree (va : VPAllocator) (addr size : Z)
    : outcome (VPAllocatorResult * VPAllocator) := TryFree_rec 2 va addr size.

(** ** The chain of pages *)

(** [qs] are the addresses of the pages from [q] on. *)
Fixpoint linked (h : gmap Z VPAllocatorPage) (q : Z) (qs : list Z) : Prop :=
  match qs with
  | [] => q = 0
  | q' :: qs => q = q' ∧ q ≠ 0 ∧ ∃ p, h !! q = Some p ∧ linked h (GetNext p) qs
  end.

(** Address [x] is free in one of the pages [qs]. *)
Definition chain_free (h : gmap Z VPAllocatorPage) (qs : list Z) (x : Z) : Prop :=
  ∃ q p, q ∈ qs ∧ h !! q = Some p ∧ free_at (live p) x.

(** The invariant of the chain: its pages are well formed and no address is
    free in two of them. *)
Record chain_wf (va : VPAllocator) (qs : list Z) : Prop := {
  cw_linked : linked (heap va) (first va) qs;
  cw_nodup : NoDup qs;
  cw_pages : ∀ q p, q ∈ qs → heap va !! q = Some p → wf p;
  cw_disjoint : ∀ q1 q2 p1 p2 x, q1 ∈ qs → q2 ∈ qs →
    heap va !! q1 = Some p1 → heap va !! q2 = Some p2 →
    free_at (live p1) x → free_at (live p2) x → q1 = q2;
}.

Lemma linked_lookup h q qs x : linked h q qs → x ∈ qs → is_Some (h !! x).
Proof.
  revert q. induction qs as [| q' qs IH]; simpl; intros q; [by intros _ ?%elem_of_nil |].
  intros (-> & _ & p & E & L) [-> | Hx]%elem_of_cons; [by eexists | by eapply IH].
Qed.

Lemma linked_length h q qs : linked h q qs → NoDup qs → (length qs ≤ size h)%nat.
Proof.
  intros L N. rewrite <- (size_dom (D := gset Z)), <- (size_list_to_set (C := gset Z)) by done.
  apply subseteq_size. intros x Hx%elem_of_list_to_set. apply elem_of_dom.
  by eapply linked_lookup.
Qed.

Lemma chain_length va qs : chain_wf va qs → (length qs < chain_fuel va)%nat.
Proof. intros W. apply Nat.lt_succ_r. eapply linked_length; apply W. Qed.

(** Changing a page but not its link. *)
Lemma linked_insert h q qs x p p' :
  h !! x = Some p → next p' = next p → linked h q qs → linked (<[x := p']> h) q qs.
Proof.
  intros Hx Hn. revert q. induction qs as [| q' qs IH]; simpl; intros q; [done |].
  intros (-> & H0 & p0 & E & L). split; [done |]. split; [done |].
  destruct (decide (q' = x)) as [-> | N].
  - exists p'. rewrite lookup_insert_eq. split; [done |]. apply IH.
    rewrite E in Hx. injection Hx as ->. unfold GetNext in *. by rewrite Hn.
  - exists p0. rewrite lookup_insert_ne by done. split; [done | by apply IH].
Qed.

Lemma with_heap_id va q p : heap va !! q = Some p → with_heap va (<[q := p]> (heap va)) = va.
Proof. intros E. unfold with_heap. rewrite insert_id by done. by destruct va. Qed.

(** The loop of [TryAllocate]: at most one page changes, by [TryAllocate] of
    that page. *)
Lemma TryAllocate_chain_spec fuel va q qs size :
  linked (heap va) q qs → (∀ x p, x ∈ qs → heap va !! x = Some p → wf p) → valid_size size →
  (length qs < fuel)%nat →
  let n := round_size size in
  match TryAllocate_chain fuel q size va with
  | Ret (Some a, va') => ∃ x p p', x ∈ qs ∧ heap va !! x = Some p ∧
      va' = with_heap va (<[x := p']> (heap va)) ∧ allocates p n (Some a, p')
  | Ret (None, va') => va' = va ∧
      ∀ x p b, x ∈ qs → heap va !! x = Some p → ¬ block_free (live p) b (b + n)
  | _ => False
  end.
Proof.
  intros L Hw Hv Hf n. revert q qs L Hw Hf.
  induction fuel as [| fuel IH]; intros q qs L Hw Hf; [lia |]. cbn [TryAllocate_chain].
  destruct qs as [| q' qs]; simpl in L.
  { subst q. simpl. split; [done |]. by intros x p b ?%elem_of_nil. }
  destruct L as (<- & H0 & p & E & L). destruct (Z.eqb_spec q 0); [done |].
  unfold deref. rewrite E. cbn [mbind outcome_bind].
  assert (wf p) as Wp by (eapply Hw; [by left | done]).
  pose proof (TryAllocate_allocates p size Wp Hv) as Al.
  specialize (IH (GetNext p) qs L). simpl in Hf.
  assert (∀ x p, x ∈ qs → heap va !! x = Some p → wf p) as Hw'
    by (intros x px Hx; apply Hw; by right).
  specialize (IH Hw' ltac:(lia)).
  assert ((∀ b, ¬ block_free (live p) b (b + n)) →
    match TryAllocate_chain fuel (GetNext p) size va with
    | Ret (Some a, va') => ∃ x p0 p', x ∈ q :: qs ∧ heap va !! x = Some p0 ∧
        va' = with_heap va (<[x := p']> (heap va)) ∧ allocates p0 n (Some a, p')
    | Ret (None, va') => va' = va ∧
        ∀ x p b, x ∈ q :: qs → heap va !! x = Some p → ¬ block_free (live p) b (b + n)
    | _ => False
    end) as Hskip.
  { intros Hno. destruct (TryAllocate_chain fuel (GetNext p) size va) as [[[a |] va'] | | |]; try done.
    - destruct IH as (x & px & p' & Hx & ?). exists x, px, p'. split; [by right | done].
    - destruct IH as [-> IH]. split; [done |].
      intros x px b [-> | Hx]%elem_of_cons Ex; [rewrite E in Ex; injection Ex as <-; apply Hno | by eapply IH]. }
  destruct (HasFree p) eqn:F.
  - destruct (TryAllocate p size) as [[a |] p'].
    + exists q, p, p'. split; [by left | done].
    + destruct Al as [-> Al]. rewrite with_heap_id by done. by apply Hskip.
  - apply Hskip. intros b B. unfold HasFree in F. apply bool_decide_eq_false in F.
    pose proof (round_size_pos size Hv). destruct Hv. specialize (B b ltac:(unfold n; lia)).
    unfold live in B. by replace (num p) with 0%nat in B by lia.
Qed.

Lemma chain_wf_shrink va qs x p p' :
  chain_wf va qs → x ∈ qs → heap va !! x = Some p → wf p' → next p' = next p →
  (∀ y, free_at (live p') y → free_at (live p) y) →
  chain_wf (with_heap va (<[x := p']> (heap va))) qs.
Proof.
  intros [L N P D] Hx E W' Hn Hsub. split; simpl.
  - by eapply linked_insert.
  - done.
  - intros q p0 Hq. destruct (decide (q = x)) as [-> |].
    + rewrite lookup_insert_eq. by intros [= <-].
    + rewrite lookup_insert_ne by done. by apply P.
  - intros q1 q2 p1 p2 y H1 H2 E1 E2 F1 F2.
    apply lookup_insert_Some in E1, E2.
    destruct E1 as [[<- <-] | [N1 E1]], E2 as [[<- <-] | [N2 E2]]; [done | | |]; eauto.
Qed.

Lemma chain_free_taken h qs x p p' a e :
  x ∈ qs → h !! x = Some p → taken (live p) (live p') a e →
  (∀ q1 q2 p1 p2 y, q1 ∈ qs → q2 ∈ qs → h !! q1 = Some p1 → h !! q2 = Some p2 →
    free_at (live p1) y → free_at (live p2) y → q1 = q2) →
  block_free (live p) a e →
  ∀ y, chain_free (<[x := p']> h) qs y ↔ chain_free h qs y ∧ ¬ (a ≤ y < e).
Proof.
  intros Hx E T D B y. split.
  - intros (q & p0 & Hq & Eq & F). apply lookup_insert_Some in Eq as [[<- <-] | [N Eq]].
    + apply T in F as [F ?]. split; [by exists x, p | done].
    + split; [by exists q, p0 |]. intros Hy. destruct N.
      symmetry. eapply (D q x); eauto.
  - intros [(q & p0 & Hq & Eq & F) Hy]. destruct (decide (q = x)) as [-> | N].
    + exists x, p'. rewrite lookup_insert_eq. split; [done |]. split; [done |].
      apply T. rewrite E in Eq. by injection Eq as <-.
    + exists q, p0. by rewrite lookup_insert_ne.
Qed.

(** C36: [VPAllocator::TryAllocate] walks a well-formed chain to a page that
    has a free block of the rounded size, takes exactly that block out of
    the chain's free addresses and keeps the chain well formed; it returns
    nothing, and changes nothing, only when no page has such a block. *)
Theorem VPAllocator_TryAllocate_correct (va : VPAllocator) (qs : list Z) (size : Z) :
  chain_wf va qs → is_Some (pageAllocator va) → valid_size size →
  let n := round_size size in
  match VPAllocator_TryAllocate va size with
  | Ret (Some a, va') => chain_wf va' qs ∧
      (∀ y, a ≤ y < a + n → chain_free (heap va) qs y) ∧
      ∀ y, chain_free (heap va') qs y ↔ chain_free (heap va) qs y ∧ ¬ (a ≤ y < a + n)
  | Ret (None, va') => va' = va ∧
      ∀ x p b, x ∈ qs → heap va !! x = Some p → ¬ block_free (live p) b (b + n)
  | _ => False
  end.
Proof.
  intros W [pa Epa] Hv n. unfold VPAllocator_TryAllocate. rewrite Epa.
  pose proof (TryAllocate_chain_spec (chain_fuel va) va (first va) qs size
    (cw_linked _ _ W) (cw_pages _ _ W) Hv (chain_length _ _ W)) as Al.
  destruct (TryAllocate_chain _ _ _ _) as [[[a |] va'] | | |]; try done.
  destruct Al as (x & p & p' & Hx & E & -> & W' & Hn & B & T & _). split_and!.
  - eapply chain_wf_shrink; eauto. intros y F. by apply T in F as [F _].
  - intros y Hy. exists x, p. split_and!; [done.. | by apply B].
  - eapply chain_free_taken; eauto. apply W.
Qed.

(** ** Making room *)

(** One entry moves from the end of one page to the end of the other. *)
Lemma MoveOneUp_spec h page nxt p n :
  h !! page = Some p → h !! nxt = Some n → page ≠ nxt → shape p → shape n →
  (0 < num p)%nat → (num n < num_records)%nat →
  ∃ p' n' l r, MoveOneUp page nxt h = Ret (<[nxt := n']> (<[page := p']> h)) ∧
    shape p' ∧ shape n' ∧ next p' = next p ∧ next n' = next n ∧
    live p = l ++ [r] ∧ live p' = l ∧ live n' = live n ++ [r].
Proof.
  intros Ep En Hne Sp Sn Hp Hn. unfold MoveOneUp, deref. rewrite Ep, En. cbn [mbind outcome_bind].
  rewrite !bool_decide_eq_false_2 by lia. cbn [orb].
  exists (with_ranges p (ranges p) (num p - 1)),
    (with_ranges n (<[num n := ranges p !!! (num p - 1)%nat]> (ranges n)) (num n + 1)),
    (take (num p - 1) (live p)), (ranges p !!! (num p - 1)%nat).
  destruct Sp as [Lp Np], Sn as [Ln Nn]. split_and!; try done.
  - split; simpl; lia.
  - split; simpl; [by rewrite length_insert | lia].
  - rewrite <- (take_drop (num p - 1) (live p)) at 1. f_equal.
    rewrite drop_live by (done || lia).
    by rewrite drop_ge by (rewrite length_live by done; lia).
  - unfold live. simpl. rewrite take_take. f_equal. lia.
  - unfold live. simpl. apply list_eq. intros i. destruct (decide (i < num n)%nat).
    + rewrite lookup_app_l, !lookup_take_lt, list_lookup_insert_ne by (rewrite ?length_take; lia). done.
    + rewrite lookup_app_r by (rewrite length_take; lia). rewrite length_take.
      replace (num n `min` length (ranges n))%nat with (num n) by lia.
      destruct (decide (i = num n)) as [-> |].
      * rewrite lookup_take_lt, list_lookup_insert_eq, Nat.sub_diag by lia. done.
      * rewrite lookup_take_ge by lia. symmetry. apply lookup_ge_None_2. simpl. lia.
Qed.

Lemma MoveUp_spec k h page nxt p n :
  h !! page = Some p → h !! nxt = Some n → page ≠ nxt → shape p → shape n →
  (k ≤ num p)%nat → (num n + k ≤ num_records)%nat →
  ∃ p' n', MoveUp k page nxt h = Ret (<[nxt := n']> (<[page := p']> h)) ∧
    shape p' ∧ shape n' ∧ next p' = next p ∧ next n' = next n ∧
    live p' = take (num p - k) (live p) ∧
    live n' = live n ++ reverse (drop (num p - k) (live p)).
Proof.
  revert h p n. induction k as [| k IH]; intros h p n Ep En Hne Sp Sn Hp Hn; cbn [MoveUp].
  - exists p, n. rewrite (insert_id h page), (insert_id h nxt) by done.
    pose proof (length_live p Sp). rewrite Nat.sub_0_r, take_ge, drop_ge, app_nil_r by lia. done.
  - destruct (MoveOneUp_spec h page nxt p n) as (p1 & n1 & l & r & E1 & Sp1 & Sn1 & Np1 & Nn1 & El & El1 & El2);
      [done.. | lia | lia |].
    rewrite E1. cbn [mbind outcome_bind].
    pose proof (length_live p Sp) as H1. pose proof (length_live p1 Sp1) as H2.
    pose proof (length_live n Sn) as H3. pose proof (length_live n1 Sn1) as H4.
    rewrite El, length_app in H1. rewrite El1 in H2. rewrite El2, length_app in H4. simpl in H1, H4.
    destruct (IH (<[nxt := n1]> (<[page := p1]> h)) p1 n1) as (p2 & n2 & E2 & Sp2 & Sn2 & Np2 & Nn2 & L1 & L2).
    { by rewrite lookup_insert_ne, lookup_insert_eq. }
    { by rewrite lookup_insert_eq. }
    1-3: done. 1-2: lia.
    exists p2, n2. rewrite E2. split; [| split_and!; try congruence].
    + f_equal. apply map_eq. intros x.
      destruct (decide (x = nxt)) as [-> |]; [by rewrite !lookup_insert_eq |].
      rewrite !(lookup_insert_ne _ nxt) by done.
      destruct (decide (x = page)) as [-> |]; [by rewrite !lookup_insert_eq |].
      by rewrite !lookup_insert_ne.
    + rewrite L1, El1, El. rewrite take_app_le by lia. f_equal. lia.
    + rewrite L2, El2, El1, El. rewrite drop_app_le by lia.
      replace (num p - S k)%nat with (num p1 - k)%nat by lia. by rewrite reverse_app, <- app_assoc.
Qed.

(** The number of entries that move to a new page. *)
Definition half (n : nat) : nat := if bool_decide (n = 1)%nat then 1%nat else (n / 2)%nat.

Lemma half_le n : (half n ≤ n)%nat.
Proof. unfold half. case_bool_decide; [lia |]. apply Nat.Div0.div_le_upper_bound. lia. Qed.

Lemma half_num n :
  (if bool_decide (n / 2 ≤ 0)%nat && bool_decide (0 < n)%nat then 1%nat else (n / 2)%nat) = half n.
Proof.
  unfold half. destruct (decide (n = 1)%nat) as [-> | N]; [done |].
  rewrite (bool_decide_eq_false_2 (n = 1)%nat) by done.
  case_bool_decide as H1; [| done]. case_bool_decide; [| done]. simpl.
  assert (n / 2 = 0)%nat as E%Nat.div_small_iff by lia; lia.
Qed.

Lemma get_next_set (b : bool) p q :
  GetNext (if b then SetNextVirtual p q else SetNextPhysical p q) = q.
Proof. destruct b; unfold GetNext; simpl; destruct (Z.eqb_spec q 0); simpl; congruence. Qed.

Lemma live_set_next (b : bool) p q :
  live (if b then SetNextVirtual p q else SetNextPhysical p q) = live p ∧
  num (if b then SetNextVirtual p q else SetNextPhysical p q) = num p ∧
  (shape p → shape (if b then SetNextVirtual p q else SetNextPhysical p q)).
Proof. by destruct b. Qed.

Lemma empty_page_shape : shape empty_page.
Proof. split; [apply length_replicate | apply Nat.le_0_l]. Qed.

(** The last page gets a new one behind it, with the upper half of its
    entries in reverse order. *)
Lemma MoreRoom_last va page p pa q pa' :
  page ≠ 0 → heap va !! page = Some p → shape p → GetNext p = 0 →
  pageAllocator va = Some pa → pa_try_allocate pa = (Some q, pa') → q ≠ page →
  ∃ p1 p2, MoreRoom page 0 va =
      Ret (q, VPA (<[q := p2]> (<[page := p1]> (heap va))) (Some pa') (first va)) ∧
    shape p1 ∧ shape p2 ∧ GetNext p1 = q ∧ GetNext p2 = 0 ∧
    live p1 = take (num p - half (num p)) (live p) ∧
    live p2 = reverse (drop (num p - half (num p)) (live p)).
Proof.
  intros H0 Ep Sp Hn Epa Etry Hq. unfold MoreRoom.
  destruct (Z.eqb_spec page 0); [done |]. cbn [Z.eqb mbind outcome_bind].
  rewrite Epa, Etry. unfold deref. rewrite Ep. cbn [mbind outcome_bind Z.eqb negb].
  rewrite lookup_insert_ne, Ep by done. cbn [mbind outcome_bind].
  set (pl := if pa_is_virtual_address pa' then SetNextVirtual p q else SetNextPhysical p q).
  destruct (live_set_next (pa_is_virtual_address pa') p q) as (El & En & Es). fold pl in El, En, Es.
  rewrite En, half_num. pose proof (half_le (num p)). destruct Sp as [L N].
  destruct (MoveUp_spec (half (num p)) (<[page := pl]> (<[q := empty_page]> (heap va))) page q pl empty_page)
    as (p1 & p2 & E & S1 & S2 & N1 & N2 & L1 & L2).
  { by rewrite lookup_insert_eq. }
  { by rewrite lookup_insert_ne, lookup_insert_eq. }
  1-3: done || by apply Es || apply empty_page_shape.
  1-2: simpl num; lia.
  rewrite E. cbn [mbind outcome_bind]. exists p1, p2. split_and!; try done.
  - do 3 f_equal. apply map_eq. intros x. destruct (decide (x = q)) as [-> |].
    { by rewrite !lookup_insert_eq. }
    rewrite !(lookup_insert_ne _ q) by done. destruct (decide (x = page)) as [-> |].
    { by rewrite !lookup_insert_eq. }
    by rewrite !lookup_insert_ne.
  - unfold GetNext in *. rewrite N1. apply (get_next_set (pa_is_virtual_address pa') p q).
  - unfold GetNext. by rewrite N2.
  - by rewrite L1, El, En.
  - by rewrite L2, El, En.
Qed.

(** [MoreRoom] behind the last page of a chain links a fresh page to it
    and moves ranges over without losing or inventing any. *)
Theorem MoreRoom_conserves (va : VPAllocator) (page : Z) (p : VPAllocatorPage) (pa : A) (q : Z) (pa' : A) :
  page ≠ 0 → heap va !! page = Some p → wf p → GetNext p = 0 →
  pageAllocator va = Some pa → pa_try_allocate pa = (Some q, pa') → q ≠ 0 → heap va !! q = None →
  ∃ p1 p2 va', MoreRoom page 0 va = Ret (q, va') ∧
    heap va' = <[q := p2]> (<[page := p1]> (heap va)) ∧
    linked (heap va') page [page; q] ∧ wf p1 ∧ live p1 ++ live p2 ≡ₚ live p ∧
    (num p1 < num_records ∧ num p2 < num_records)%nat.
Proof.
  intros H0 Ep [Sp So] Hn Epa Etry Hq Efresh.
  destruct (MoreRoom_last va page p pa q pa') as (p1 & p2 & E & S1 & S2 & N1 & N2 & L1 & L2);
    [done.. | congruence |].
  eexists p1, p2, _. split; [done |]. split; [done |]. split_and!.
  - simpl. split_and!; [done | done |]. exists p1.
    rewrite lookup_insert_ne, lookup_insert_eq by congruence. split; [done |].
    rewrite N1. split_and!; [done | done |]. exists p2. by rewrite lookup_insert_eq.
  - split; [done |]. rewrite L1. by apply sorted_take.
  - rewrite L1, L2, reverse_Permutation. by rewrite take_drop.
  - rewrite <- (length_live p1), L1, length_take, length_live by done. destruct Sp as [_ Np].
    assert (num_records = 254%nat) as Hr by done. unfold half. case_bool_decide; [lia |].
    pose proof (Nat.div_mod_eq (num p) 2). pose proof (Nat.mod_upper_bound (num p) 2). lia.
  - rewrite <- (length_live p2), L2, length_reverse, length_drop, length_live by done.
    destruct Sp as [_ Np]. assert (num_records = 254%nat) as Hr by done.
    unfold half. case_bool_decide; [lia |].
    pose proof (Nat.div_mod_eq (num p) 2). pose proof (Nat.mod_upper_bound (num p) 2). lia.
Qed.

(** the new page is not sorted when more than one range moves: every
    range is appended behind the higher ones moved before it. *)
Theorem MoreRoom_unsorted (va : VPAllocator) (page : Z) (p : VPAllocatorPage) (pa : A) (q : Z) (pa' : A) :
  page ≠ 0 → heap va !! page = Some p → wf p → GetNext p = 0 → (4 ≤ num p)%nat →
  pageAllocator va = Some pa → pa_try_allocate pa = (Some q, pa') → q ≠ 0 → heap va !! q = None →
  ∃ p2 va', MoreRoom page 0 va = Ret (q, va') ∧ heap va' !! q = Some p2 ∧
    live p2 = reverse (drop (num p - num p / 2) (live p)) ∧ ¬ sorted (live p2).
Proof.
  intros H0 Ep [Sp So] Hn H4 Epa Etry Hq Efresh.
  destruct (MoreRoom_last va page p pa q pa') as (p1 & p2 & E & S1 & S2 & N1 & N2 & L1 & L2);
    [done.. | congruence |].
  assert (half (num p) = num p / 2)%nat as Hh by (unfold half; by rewrite bool_decide_eq_false_2 by lia).
  rewrite Hh in L2. eexists p2, _. split; [done |]. simpl. rewrite lookup_insert_eq.
  split; [done |]. split; [done |]. rewrite L2. intros Sr.
  assert (2 ≤ num p / 2)%nat by (apply Nat.div_le_lower_bound; lia).
  assert (num p / 2 ≤ num p)%nat by (apply Nat.Div0.div_le_upper_bound; lia).
  eapply sorted_reverse; [| apply (sorted_drop (num p - num p / 2)), So | exact Sr].
  rewrite length_drop, length_live by done. lia.
Qed.

(** ** Giving space back *)

(** Behind the first page with free ranges the walk reaches the last page
    whatever the addresses: [end_] is 0 or 1. *)
Lemma TryFree_walk_last fuel va x qs q p ending e addr size p' :
  linked (heap va) x (qs ++ [q]) → heap va !! q = Some p → GetNext p = 0 →
  TryFree p addr size = (DONE, p') → 0 ≤ e ≤ 1 → 1 < addr → (length qs < fuel)%nat →
  TryFree_walk fuel x ending e false addr size va =
    Ret (Returned DONE, with_heap va (<[q := p']> (heap va))).
Proof.
  intros L Eq Hn Et He Ha. revert x qs ending e L He.
  induction fuel as [| fuel IH]; intros x qs ending e L He Hf; [lia |]. cbn [TryFree_walk].
  destruct qs as [| x' qs]; simpl in L; destruct L as (<- & H0 & px & Ex & L);
    destruct (Z.eqb_spec x 0); try done; unfold deref; rewrite Ex; cbn [mbind outcome_bind];
    rewrite orb_true_r.
  - rewrite Eq in Ex. injection Ex as <-. rewrite Hn, andb_false_r, Et. done.
  - assert (GetNext px ≠ 0) as Hnx by (destruct qs; simpl in L; by destruct L as (<- & ? & _)).
    assert ((if HasFree px then optional_to_integer (GetEnd px) else e) <? addr = true) as ->.
    { apply Z.ltb_lt. destruct (HasFree px); [| lia]. destruct (GetEnd px); simpl; lia. }
    destruct (Z.eqb_spec (GetNext px) 0); [done |]. simpl. eapply IH; [done | | simpl in Hf; lia].
    destruct (HasFree px); [| lia]. destruct (GetEnd px); simpl; lia.
Qed.

Lemma linked_last h x qs q : linked h x (qs ++ [q]) → ∃ p, h !! q = Some p ∧ GetNext p = 0.
Proof.
  revert x. induction qs as [| x' qs IH]; simpl; intros x; [| by intros (_ & _ & p & _ & L%IH)].
  intros (<- & _ & p & E & Hn). by exists p.
Qed.

(** with two pages or more and free ranges in the first one, a block is
    given back to the last page, even where an earlier page holds its
    neighbours. *)
Theorem VPAllocator_TryFree_last_page (va : VPAllocator) (q0 : Z) (qs : list Z) (q : Z)
    (p0 p p' : VPAllocatorPage) (addr size : Z) :
  linked (heap va) (first va) (q0 :: qs ++ [q]) → NoDup (q0 :: qs ++ [q]) →
  heap va !! q0 = Some p0 → HasFree p0 = true → is_Some (pageAllocator va) →
  1 < addr → heap va !! q = Some p → TryFree p addr size = (DONE, p') →
  VPAllocator_TryFree va addr size = Ret (DONE, with_heap va (<[q := p']> (heap va))).
Proof.
  intros L N E0 F0 [pa Epa] Ha Eq Et.
  pose proof (linked_length _ _ _ L N) as Hlen.
  simpl in Hlen. rewrite length_app in Hlen. simpl in Hlen.
  unfold VPAllocator_TryFree. cbn [TryFree_rec]. rewrite Epa.
  assert (TryFree_walk (S (chain_fuel va)) (first va) 0 0 true addr size va =
    Ret (Returned DONE, with_heap va (<[q := p']> (heap va)))) as ->; [| done].
  destruct L as (<- & H0 & px & Ex & L). rewrite E0 in Ex. injection Ex as <-.
  destruct (linked_last _ _ _ _ L) as (pl & El & Hn). rewrite Eq in El. injection El as <-.
  assert (length qs < chain_fuel va)%nat as Hfuel by (unfold chain_fuel; lia).
  generalize dependent (chain_fuel va). intros fuel Hfuel.
  cbn [TryFree_walk]. destruct (Z.eqb_spec (first va) 0); [done |].
  unfold deref. rewrite E0. cbn [mbind outcome_bind]. rewrite F0. cbn [orb].
  assert (GetNext p0 ≠ 0) as Hnx by (destruct qs; simpl in L; by destruct L as (<- & ? & _)).
  assert (0 ≤ optional_to_integer (GetEnd p0) ≤ 1) as Hi by (destruct (GetEnd p0); simpl; lia).
  destruct (Z.ltb_spec (optional_to_integer (GetEnd p0)) addr); [| lia].
  destruct (Z.eqb_spec (GetNext p0) 0); [done |].
  eapply TryFree_walk_last; eauto.
Qed.

End VpChain.

(** ** A concrete chain *)

(** Pages come from a region handed out front to back. *)
#[export] Instance bump_allocator : VPAllocatorPageAllocator Z := {|
  pa_try_allocate a := (if a <? 2 ^ 32 then Some a else None, a + 4096);
  pa_is_virtual_address _ := true;
|}.

Definition page_of (rs : list VPAllocatorRange) (nxt : Z) : VPAllocatorPage :=
  Page (rs ++ replicate (num_records - length rs) (Range 0 0)) (Link 0 nxt) (length rs).

Definition low_page : VPAllocatorPage := page_of [Range 0x10000 0x20000] 0x2000.
Definition high_page : VPAllocatorPage := page_of [Range 0x21000 0x200000; Range 0x300000 0x400000] 0.

Definition example_chain : VPAllocator :=
  VPA {[ 0x1000 := low_page; 0x2000 := high_page ]} (Some 0x3000) 0x1000.

Definition four_ranges : VPAllocatorPage :=
  page_of [Range 0x1000 0x2000; Range 0x3000 0x4000; Range 0x5000 0x6000; Range 0x7000 0x8000] 0.

Definition single_chain : VPAllocator := VPA {[ 0x1000 := four_ranges ]} (Some 0x3000) 0x1000.

Ltac concrete_page :=
  split; [split; [by vm_compute | apply Nat.leb_le; by vm_compute] | by repeat split].

Lemma low_page_wf : wf low_page.
Proof. concrete_page. Qed.

Lemma high_page_wf : wf high_page.
Proof. concrete_page. Qed.

Lemma four_ranges_wf : wf four_ranges.
Proof. concrete_page. Qed.

Lemma example_chain_linked : linked (heap example_chain) (first example_chain) [0x1000; 0x2000].
Proof.
  split; [done |]. split; [done |]. exists low_page. split; [done |].
  split; [done |]. split; [done |]. by exists high_page.
Qed.

Lemma example_chain_pages q p :
  q ∈ [0x1000; 0x2000] → heap example_chain !! q = Some p →
  q = 0x1000 ∧ p = low_page ∨ q = 0x2000 ∧ p = high_page.
Proof.
  intros Hq E. rewrite elem_of_cons, list_elem_of_singleton in Hq.
  destruct Hq as [-> | ->]; [left | right]; split; try done.
  - assert (heap example_chain !! 0x1000 = Some low_page) by done. congruence.
  - assert (heap example_chain !! 0x2000 = Some high_page) by done. congruence.
Qed.

Lemma low_high_disjoint x : free_at (live low_page) x → ¬ free_at (live high_page) x.
Proof.
  change (live low_page) with [Range 0x10000 0x20000].
  change (live high_page) with [Range 0x21000 0x200000; Range 0x300000 0x400000].
  cbn [free_at start end_]. lia.
Qed.

Lemma example_chain_wf : chain_wf example_chain [0x1000; 0x2000].
Proof.
  split; [apply example_chain_linked | by apply (bool_decide_unpack _) | |].
  - intros q p Hq E. destruct (example_chain_pages q p Hq E) as [[_ ->] | [_ ->]];
      [apply low_page_wf | apply high_page_wf].
  - intros q1 q2 p1 p2 x H1 H2 E1 E2 F1 F2.
    destruct (example_chain_pages q1 p1 H1 E1) as [[-> ->] | [-> ->]],
      (example_chain_pages q2 p2 H2 E2) as [[-> ->] | [-> ->]]; try done;
      exfalso; by eapply low_high_disjoint.
Qed.

Lemma VPAllocator_TryAllocate_correct_witness :
  match VPAllocator_TryAllocate example_chain 0x20000 with
  | Ret (Some a, va') => a = 0x21000 ∧ chain_wf va' [0x1000; 0x2000]
  | _ => False
  end.
Proof.
  pose proof (VPAllocator_TryAllocate_correct example_chain [0x1000; 0x2000] 0x20000
    example_chain_wf ltac:(by eexists) ltac:(done)) as W.
  assert (match VPAllocator_TryAllocate example_chain 0x20000 with
    | Ret (o, _) => o = Some 0x21000 | _ => False end) as E by (by vm_compute).
  destruct (VPAllocator_TryAllocate example_chain 0x20000) as [[o va'] | | |]; try done.
  subst o. split; [done |]. apply W.
Defined.

Lemma MoreRoom_conserves_witness :
  ∃ p1 p2 va', MoreRoom 0x1000 0 single_chain = Ret (0x3000, va') ∧
    live p1 ++ live p2 ≡ₚ live four_ranges ∧ linked (heap va') 0x1000 [0x1000; 0x3000].
Proof.
  destruct (MoreRoom_conserves single_chain 0x1000 four_ranges 0x3000 0x3000 0x4000)
    as (p1 & p2 & va' & E & _ & L & _ & P & _); try done; [apply four_ranges_wf |].
  by exists p1, p2, va'.
Defined.

Lemma MoreRoom_unsorted_witness :
  ∃ p2 va', MoreRoom 0x1000 0 single_chain = Ret (0x3000, va') ∧
    heap va' !! 0x3000 = Some p2 ∧ ¬ sorted (live p2).
Proof.
  destruct (MoreRoom_unsorted single_chain 0x1000 four_ranges 0x3000 0x3000 0x4000)
    as (p2 & va' & E & Eq & _ & N); try done; [apply four_ranges_wf |].
  by exists p2, va'.
Defined.

(** The block next to the range of the first page ends up in the last page. *)
Lemma VPAllocator_TryFree_last_page_witness :
  ∃ p', GetEnd low_page = Some 0x20000 ∧
    VPAllocator_TryFree example_chain 0x20000 0x1000 =
      Ret (DONE, with_heap example_chain (<[0x2000 := p']> (heap example_chain))).
Proof.
  eexists. split; [done |].
  apply (VPAllocator_TryFree_last_page example_chain 0x1000 [] 0x2000 low_page high_page);
    [apply example_chain_linked | by apply (bool_decide_unpack _) | done | done | by eexists
    | done | done | by vm_compute].
Defined.

End VpChain.
