(* ===== verification/BitField.v ===== *)
(** * Bit fields of 64-bit values

    The templates [ptbl_BitfieldOfValue], [ptbl16_BitfieldOfValue],
    [ptbl32_BitfieldOfValue] and [ptbl64_BitfieldOfValue] of
    [include/pagetable.h] with their mask tables, for [T = uint64_t].  A field
    is a value of [bitfield]; reading and assigning obey the laws of a lens. *)

From S2P Require Import Prelude.

(** ** The mask tables *)

(** The sizes outside a table are refused when the code is compiled. *)
Definition uint8_mask_for_bits (S : Z) : Z :=
  match S with
  | 1 => 0x1
  | 2 => 0x3
  | 3 => 0x7
  | 4 => 0xf
  | 5 => 0x1f
  | 6 => 0x3f
  | 7 => 0x7f
  | 8 => 0xff
  | _ => 0
  end.

Definition uint16_mask_for_bits (S : Z) : Z :=
  if S <? 9 then uint8_mask_for_bits S else
  match S with
  | 9 => 0x1ff
  | 10 => 0x3ff
  | 11 => 0x7ff
  | 12 => 0xfff
  | 13 => 0x1fff
  | 14 => 0x3fff
  | 15 => 0x7fff
  | 16 => 0xffff
  | _ => 0
  end.

Definition uint32_mask_for_bits (S : Z) : Z :=
  if S <? 17 then uint16_mask_for_bits S else
  match S with
  | 17 => 0x1ffff
  | 18 => 0x3ffff
  | 19 => 0x7ffff
  | 20 => 0xfffff
  | 21 => 0x1fffff
  | 22 => 0x3fffff
  | 23 => 0x7fffff
  | 24 => 0xffffff
  | 25 => 0x1ffffff
  | 26 => 0x3ffffff
  | 27 => 0x7ffffff
  | 28 => 0xfffffff
  | 29 => 0x1fffffff
  | 30 => 0x3fffffff
  | 31 => 0x7fffffff
  | 32 => 0xffffffff
  | _ => 0
  end.

Definition uint64_mask_for_bits (S : Z) : Z :=
  if S <? 33 then uint32_mask_for_bits S else
  match S with
  | 33 => 0x1ffffffff
  | 34 => 0x3ffffffff
  | 35 => 0x7ffffffff
  | 36 => 0xfffffffff
  | 37 => 0x1fffffffff
  | 38 => 0x3fffffffff
  | 39 => 0x7fffffffff
  | 40 => 0xffffffffff
  | 41 => 0x1ffffffffff
  | 42 => 0x3ffffffffff
  | 43 => 0x7ffffffffff
  | 44 => 0xfffffffffff
  | 45 => 0x1fffffffffff
  | 46 => 0x3fffffffffff
  | 47 => 0x7fffffffffff
  | 48 => 0xffffffffffff
  | 49 => 0x1ffffffffffff
  | 50 => 0x3ffffffffffff
  | 51 => 0x7ffffffffffff
  | 52 => 0xfffffffffffff
  | 53 => 0x1fffffffffffff
  | 54 => 0x3fffffffffffff
  | 55 => 0x7fffffffffffff
  | 56 => 0xffffffffffffff
  | 57 => 0x1ffffffffffffff
  | 58 => 0x3ffffffffffffff
  | 59 => 0x7ffffffffffffff
  | 60 => 0xfffffffffffffff
  | 61 => 0x1fffffffffffffff
  | 62 => 0x3fffffffffffffff
  | 63 => 0x7fffffffffffffff
  | 64 => 0xffffffffffffffff
  | _ => 0
  end.

(** ** The field templates *)

(** The width of the type a field is read and assigned as. *)
Inductive field_type := F8 | F16 | F32 | F64.

Definition type_width (t : field_type) : Z :=
  match t with F8 => 8 | F16 => 16 | F32 => 32 | F64 => 64 end.

Definition mask_for_bits (t : field_type) (S : Z) : Z :=
  match t with
  | F8 => uint8_mask_for_bits S
  | F16 => uint16_mask_for_bits S
  | F32 => uint32_mask_for_bits S
  | F64 => uint64_mask_for_bits S
  end.

(** The template arguments N and S, and the type. *)
Record bitfield := Field {
  bf_pos : Z;
  bf_bits : Z;
  bf_type : field_type;
}.

(** operator uintW_t() *)
Definition bf_get (f : bitfield) (value : Z) : Z :=
  wrap (type_width (bf_type f))
    (Z.land (Z.shiftr value (bf_pos f)) (mask_for_bits (bf_type f) (bf_bits f))).

(** operator bool() *)
Definition bf_flag (f : bitfield) (value : Z) : bool := negb (bf_get f value =? 0).

(** operator = (uintW_t val) *)
Definition bf_set (f : bitfield) (val value : Z) : Z :=
  let val := wrap (type_width (bf_type f)) val in
  let mask := mask_for_bits (bf_type f) (bf_bits f) in
  Z.lor (Z.land value (not_w 64 (u64 (Z.shiftl mask (bf_pos f)))))
        (u64 (Z.shiftl (Z.land val mask) (bf_pos f))).

(** What the static assertions of the mask tables admit, inside the value. *)
Definition field_ok (f : bitfield) : bool :=
  (0 <=? bf_pos f) && (0 <? bf_bits f) && (bf_bits f <=? type_width (bf_type f)) &&
  (bf_pos f + bf_bits f <=? 64).

(** Two fields that share no bit. *)
Definition apart (f g : bitfield) : bool :=
  (bf_pos f + bf_bits f <=? bf_pos g) || (bf_pos g + bf_bits g <=? bf_pos f).

(** ** Laws *)

Lemma mask_tables :
  Forall (fun t => Forall (fun S => mask_for_bits t S = Z.ones S) (seqZ 1 (type_width t)))
    [F8; F16; F32; F64].
Proof. repeat constructor. Qed.

Lemma mask_is_ones t S : 0 < S ≤ type_width t → mask_for_bits t S = Z.ones S.
Proof.
  intros HS. pose proof mask_tables as H. rewrite Forall_forall in H.
  specialize (H t ltac:(destruct t; rewrite !elem_of_cons; tauto)). rewrite Forall_forall in H.
  apply H, elem_of_seqZ. lia.
Qed.

Lemma field_ok_spec f :
  field_ok f = true →
  0 ≤ bf_pos f ∧ 0 < bf_bits f ≤ type_width (bf_type f) ∧ bf_pos f + bf_bits f ≤ 64 ∧
  mask_for_bits (bf_type f) (bf_bits f) = Z.ones (bf_bits f).
Proof.
  unfold field_ok. intros H. bsimp. split_and!; try lia. apply mask_is_ones. lia.
Qed.

Lemma width_pos t : 8 ≤ type_width t.
Proof. destruct t; simpl; lia. Qed.

(** A field read is the bits at its place. *)
Lemma get_bits f v i :
  field_ok f = true → 0 ≤ i →
  Z.testbit (bf_get f v) i = (i <? bf_bits f) && Z.testbit v (bf_pos f + i).
Proof.
  intros (Hp & Hb & Hs & Hm)%field_ok_spec Hi. unfold bf_get.
  pose proof (width_pos (bf_type f)).
  rewrite wrap_spec, Hm, Z.land_spec, Z.shiftr_spec by lia.
  rewrite Z.testbit_ones by lia. rewrite (Z.add_comm i).
  destruct (Z.ltb_spec i (bf_bits f)), (Z.ltb_spec i (type_width (bf_type f))),
    (Z.leb_spec 0 i); simpl; rewrite ?andb_true_r, ?andb_false_r; (done || lia).
Qed.

(** An assignment changes the bits of the field only. *)
Lemma set_bits f x v i :
  field_ok f = true → 0 ≤ i < 64 →
  Z.testbit (bf_set f x v) i =
    if (bf_pos f <=? i) && (i <? bf_pos f + bf_bits f) then Z.testbit x (i - bf_pos f)
    else Z.testbit v i.
Proof.
  intros (Hp & Hb & Hs & Hm)%field_ok_spec Hi. unfold bf_set, not_w. rewrite Hm.
  pose proof (width_pos (bf_type f)).
  rewrite Z.lor_spec, Z.land_spec, !wrap_spec, Z.lnot_spec, wrap_spec, !Z.shiftl_spec by lia.
  destruct (Z.ltb_spec i 64); [| lia]. simpl.
  destruct (Z.leb_spec (bf_pos f) i) as [Hle | Hgt]; simpl.
  - rewrite Z.land_spec, wrap_spec, !Z.testbit_ones by lia.
    destruct (Z.ltb_spec i (bf_pos f + bf_bits f)), (Z.ltb_spec (i - bf_pos f) (bf_bits f)),
      (Z.ltb_spec (i - bf_pos f) (type_width (bf_type f))), (Z.leb_spec 0 (i - bf_pos f)); try lia;
      simpl; rewrite ?andb_true_r, ?andb_false_r, ?orb_false_r; done.
  - rewrite !(Z.testbit_neg_r _ (i - bf_pos f)) by lia. by rewrite andb_true_r, orb_false_r.
Qed.

Lemma set_is_u f x v : 0 ≤ v → is_u 64 (bf_set f x v).
Proof.
  intros Hv. unfold bf_set, not_w. apply is_u_lor; [lia | | by apply is_u_wrap].
  rewrite Z.land_comm. apply is_u_land; [lia | by apply is_u_wrap | done].
Qed.

Lemma get_is_u f v : field_ok f = true → is_u (bf_bits f) (bf_get f v).
Proof.
  intros Hf. pose proof (field_ok_spec f Hf) as (Hp & Hb & _ & _). pose proof (width_pos (bf_type f)).
  apply is_u_of_bits; [lia | unfold bf_get; apply wrap_range; lia |].
  intros i Hi. rewrite get_bits by (done || lia). by destruct (Z.ltb_spec i (bf_bits f)); [lia |].
Qed.

Lemma get_set_eq f x v : field_ok f = true → bf_get f (bf_set f x v) = wrap (bf_bits f) x.
Proof.
  intros Hf. pose proof (field_ok_spec f Hf) as (Hp & Hb & Hs & _).
  apply Z.bits_inj'. intros i Hi. rewrite get_bits, wrap_spec by (done || lia).
  destruct (Z.ltb_spec i (bf_bits f)); [| done]. simpl. rewrite set_bits by (done || lia).
  destruct (Z.leb_spec (bf_pos f) (bf_pos f + i)),
    (Z.ltb_spec (bf_pos f + i) (bf_pos f + bf_bits f)); try lia. simpl. f_equal. lia.
Qed.

Lemma get_set_ne f g x v :
  field_ok f = true → field_ok g = true → apart f g = true → bf_get g (bf_set f x v) = bf_get g v.
Proof.
  intros Hf Hg Ha. pose proof (field_ok_spec f Hf) as (Hp & Hb & Hs & _).
  pose proof (field_ok_spec g Hg) as (Hp' & Hb' & Hs' & _). unfold apart in Ha.
  apply Z.bits_inj'. intros i Hi. rewrite !get_bits by done.
  destruct (Z.ltb_spec i (bf_bits g)); [| done]. simpl. rewrite set_bits by (done || lia).
  destruct (Z.leb_spec (bf_pos f) (bf_pos g + i)),
    (Z.ltb_spec (bf_pos g + i) (bf_pos f + bf_bits f)); simpl; (done || lia).
Qed.

Lemma set_get f v : field_ok f = true → is_u 64 v → bf_set f (bf_get f v) v = v.
Proof.
  intros Hf Hv. pose proof (field_ok_spec f Hf) as (Hp & Hb & Hs & _).
  pose proof (set_is_u f (bf_get f v) v ltac:(unfold is_u in Hv; lia)) as Hu.
  apply Z.bits_inj'. intros i Hi. destruct (decide (i < 64)).
  - rewrite set_bits by (done || lia).
    destruct (Z.leb_spec (bf_pos f) i), (Z.ltb_spec i (bf_pos f + bf_bits f)); try done. simpl.
    rewrite get_bits by (done || lia). destruct (Z.ltb_spec (i - bf_pos f) (bf_bits f)); [| lia].
    simpl. f_equal. lia.
  - rewrite !(is_u_bits 64) by (done || lia). done.
Qed.

(** Reading a field through assignments, with the side conditions computed. *)
Ltac fields :=
  repeat first
    [ rewrite get_set_eq by reflexivity
    | rewrite get_set_ne by reflexivity ].

(** a field of a 64-bit value behaves like a variable of its own:
    assigning stores the value modulo the size of the field, leaves every
    field apart from it and the width of the value alone, and assigning what
    is there changes nothing. *)
Theorem bitfield_laws (f : bitfield) (x v : Z) :
  field_ok f = true → is_u 64 v →
  is_u 64 (bf_set f x v) ∧
  bf_get f (bf_set f x v) = x mod 2 ^ bf_bits f ∧
  (∀ g, field_ok g = true → apart f g = true → bf_get g (bf_set f x v) = bf_get g v) ∧
  bf_set f (bf_get f v) v = v.
Proof.
  intros Hf Hv. split_and!.
  - apply set_is_u. unfold is_u in Hv. lia.
  - by apply get_set_eq.
  - intros g Hg Ha. by apply get_set_ne.
  - by apply set_get.
Qed.

Lemma bitfield_laws_witness :
  let f := Field 12 28 F32 in
  bf_get f (bf_set f 0x123456789 0xFFFFFFFFFFFFFFFF) = 0x3456789 ∧
  bf_set f (bf_get f 0xABCDEF) 0xABCDEF = 0xABCDEF.
Proof.
  intros f. destruct (bitfield_laws f 0x123456789 0xFFFFFFFFFFFFFFFF) as (_ & E & _);
    [done | done |].
  destruct (bitfield_laws f 0 0xABCDEF) as (_ & _ & _ & E'); [done | done |].
  by rewrite E.
Defined.
