(* ===== verification/PageEntry.v ===== *)
(** * Hardware descriptors

    The structures of [include/pagetable.h] that the processor reads: segment
    descriptors (GDT, LDTP, GDT_table) and page table entries, each a 64-bit
    value seen through the fields of [BitField]. *)

From S2P Require Import Prelude BitField.

(** ** Segment descriptors: struct GDT *)

Definition gdt_limit_low : bitfield := Field 0 16 F16.
Definition gdt_base_low : bitfield := Field 16 24 F32.
Definition gdt_type : bitfield := Field 40 8 F8.
Definition gdt_limit_high : bitfield := Field 48 4 F8.
Definition gdt_granularity : bitfield := Field 52 4 F8.
Definition gdt_base_high : bitfield := Field 56 8 F8.

(** The accessors for reading, in the order of the structure. *)
Definition gdt_fields : list bitfield :=
  [gdt_limit_low; gdt_base_low; gdt_type; gdt_limit_high; gdt_granularity;
   gdt_base_high].

(** GDT() *)
Definition gdt_default : Z :=
  let value := 0 in
  let value := bf_set gdt_limit_low 0xFFFF value in
  bf_set gdt_limit_high 1 value.

(** GDT(base, limit, granularity, type) *)
Definition gdt_make (base limit granularity type : Z) : Z :=
  let value := 0 in
  let value := bf_set gdt_limit_low (Z.land limit 0xFFFF) value in
  let value := bf_set gdt_base_low (Z.land base 0xFFFFFF) value in
  let value := bf_set gdt_type type value in
  let value := bf_set gdt_limit_high (Z.land (Z.shiftr limit 16) 0x0F) value in
  let value := bf_set gdt_granularity (Z.land granularity 0x0F) value in
  bf_set gdt_base_high (Z.shiftr base 24) value.

Definition gdt_set_base (base_addr value : Z) : Z :=
  let value := bf_set gdt_base_low (Z.land base_addr 0xFFFFFF) value in
  bf_set gdt_base_high (Z.shiftr base_addr 24) value.

Definition gdt_set_limit (limit value : Z) : Z :=
  let value := bf_set gdt_limit_low (Z.land limit 0xFFFF) value in
  bf_set gdt_limit_high (Z.land (Z.shiftr limit 16) 0x0F) value.

(** ** System descriptors of two words: struct LDTP *)

Record LDTP := Ldtp {
  value1 : Z;
  value2 : Z;
}.

Definition ldtp_limit_low : bitfield := Field 0 16 F16.
Definition ldtp_base_low : bitfield := Field 16 24 F32.
Definition ldtp_type : bitfield := Field 40 8 F8.
Definition ldtp_limit_high : bitfield := Field 48 4 F8.
Definition ldtp_granularity : bitfield := Field 52 4 F16.
Definition ldtp_base_high_low : bitfield := Field 56 8 F64.
Definition ldtp_base_high_high : bitfield := Field 0 32 F64.
Definition ldtp_reserved : bitfield := Field 32 32 F32.

(** The accessors of each word. *)
Definition ldtp_fields1 : list bitfield :=
  [ldtp_limit_low; ldtp_base_low; ldtp_type; ldtp_limit_high; ldtp_granularity;
   ldtp_base_high_low].
Definition ldtp_fields2 : list bitfield :=
  [ldtp_base_high_high; ldtp_reserved].

Definition ldtp_set_base (base_addr : Z) (d : LDTP) : LDTP :=
  let v1 := bf_set ldtp_base_low (Z.land base_addr 0xFFFFFF) (value1 d) in
  let v1 := bf_set ldtp_base_high_low (Z.land (Z.shiftr base_addr 24) 0xFF) v1 in
  Ldtp v1 (bf_set ldtp_base_high_high (Z.shiftr base_addr 32) (value2 d)).

Definition ldtp_set_limit (limit : Z) (d : LDTP) : LDTP :=
  let v1 := bf_set ldtp_limit_low (Z.land limit 0xFFFF) (value1 d) in
  Ldtp (bf_set ldtp_limit_high (Z.land (Z.shiftr limit 16) 0x0F) v1) (value2 d).

(** ** GDT_table<n> *)

Record GDT_table := GdtTable {
  gdt : list Z;
  gdt_size : Z;
  gdt_ptr : Z;
}.

(** The constructor; [size] and [ptr] are not initialised. *)
Definition gdt_table_new (n : nat) (size ptr : Z) : GDT_table :=
  GdtTable (replicate n gdt_default) size ptr.

Definition gdt_table_set_size (t : GDT_table) : GDT_table :=
  GdtTable (gdt t) (u16 (8 * Z.of_nat (length (gdt t)) - 1)) (gdt_ptr t).

Definition gdt_table_set_ptr (this : Z) (t : GDT_table) : GDT_table :=
  GdtTable (gdt t) (gdt_size t) this.

(** The index [operator []] goes to, for a table of [n] entries. *)
Definition gdt_table_index (n : nat) (i : Z) : Z :=
  if i <? 0 then 0 else if i <? Z.of_nat n then i else Z.of_nat n - 1.

(** The address of the pseudo descriptor, behind the entries. *)
Definition gdt_table_pointer (this : Z) (t : GDT_table) : Z * GDT_table :=
  (u64 (this + 8 * Z.of_nat (length (gdt t))), gdt_table_set_ptr this (gdt_table_set_size t)).

(** ** Page table entries: struct pageentr *)

Definition pe_present : bitfield := Field 0 1 F8.
Definition pe_writeable : bitfield := Field 1 1 F8.
Definition pe_user_access : bitfield := Field 2 1 F8.
Definition pe_write_through : bitfield := Field 3 1 F8.
Definition pe_cache_disabled : bitfield := Field 4 1 F8.
Definition pe_accessed : bitfield := Field 5 1 F8.
Definition pe_dirty : bitfield := Field 6 1 F8.
Definition pe_size : bitfield := Field 7 1 F8.
Definition pe_global : bitfield := Field 8 1 F8.
Definition pe_ignored2 : bitfield := Field 9 2 F8.
Definition pe_os_virt_avail : bitfield := Field 11 1 F8.
Definition pe_page_ppn : bitfield := Field 12 28 F32.
Definition pe_reserved1 : bitfield := Field 40 12 F16.
Definition pe_os_virt_start : bitfield := Field 52 1 F8.
Definition pe_ignored3 : bitfield := Field 53 10 F16.
Definition pe_execution_disabled : bitfield := Field 63 1 F8.

(** The accessors for reading, in the order of the structure. *)
Definition pageentr_fields : list bitfield :=
  [pe_present; pe_writeable; pe_user_access; pe_write_through; pe_cache_disabled;
   pe_accessed; pe_dirty; pe_size; pe_global; pe_ignored2; pe_os_virt_avail;
   pe_page_ppn; pe_reserved1; pe_os_virt_start; pe_ignored3; pe_execution_disabled].

(** get_subtable_addr; [virt_offset] is get_pagetable_virt_offset(). *)
Definition get_subtable_addr (virt_offset pe : Z) : Z :=
  let addr := bf_get pe_page_ppn pe in
  let addr := u64 (addr * 4096) in
  u64 (addr + virt_offset).

(** ** Page table entries of aarch64 *)

Definition arm_valid : bitfield := Field 0 1 F8.
Definition arm_table : bitfield := Field 1 1 F8.
Definition arm_attr_indx : bitfield := Field 2 3 F8.
Definition arm_ns : bitfield := Field 5 1 F8.
Definition arm_ap : bitfield := Field 6 2 F8.
Definition arm_sh : bitfield := Field 8 2 F8.
Definition arm_af : bitfield := Field 10 1 F8.
Definition arm_ng : bitfield := Field 11 1 F8.
Definition arm_ppn : bitfield := Field 12 36 F64.
Definition arm_gp : bitfield := Field 50 1 F8.
Definition arm_dbm : bitfield := Field 51 1 F8.
Definition arm_contiguous : bitfield := Field 52 1 F8.
Definition arm_pxn : bitfield := Field 53 1 F8.
Definition arm_uxn : bitfield := Field 54 1 F8.
Definition arm_software : bitfield := Field 55 4 F8.
Definition arm_os_virt_avail : bitfield := Field 55 1 F8.
Definition arm_os_virt_start : bitfield := Field 56 1 F8.
Definition arm_present : bitfield := Field 0 1 F8.
Definition arm_pbha : bitfield := Field 59 3 F8.
Definition arm_software2 : bitfield := Field 62 2 F8.

(** The accessors for reading. *)
Definition arm_pageentr_fields : list bitfield :=
  [arm_valid; arm_table; arm_attr_indx; arm_ns; arm_ap; arm_sh; arm_af; arm_ng; arm_ppn;
   arm_gp; arm_dbm; arm_contiguous; arm_pxn; arm_uxn; arm_software; arm_os_virt_avail;
   arm_os_virt_start; arm_present; arm_pbha; arm_software2].

Definition arm_get_subtable_addr (virt_offset pe : Z) : Z :=
  let addr := bf_get arm_ppn pe in
  let addr := u64 (addr * 4096) in
  u64 (addr + virt_offset).

(** ** Properties of the descriptors *)

(** The base and the limit a processor reads from a segment descriptor. *)
Definition gdt_base (g : Z) : Z :=
  Z.lor (bf_get gdt_base_low g) (Z.shiftl (bf_get gdt_base_high g) 24).
Definition gdt_limit (g : Z) : Z :=
  Z.lor (bf_get gdt_limit_low g) (Z.shiftl (bf_get gdt_limit_high g) 16).

(** A number written to a low and a high field. *)
Lemma join_fields j k x :
  0 ≤ j → 0 ≤ k → Z.lor (wrap j (Z.land x (Z.ones j))) (Z.shiftl (wrap k (Z.shiftr x j)) j) =
    wrap (j + k) x.
Proof.
  intros Hj Hk. rewrite wrap_land_ones, wrap_shiftr by lia.
  rewrite <- (wrap_min j (j + k)) by lia. by apply join_bits.
Qed.

Lemma gdt_base_set f x g :
  field_ok f = true → apart f gdt_base_low = true → apart f gdt_base_high = true →
  gdt_base (bf_set f x g) = gdt_base g.
Proof. intros. unfold gdt_base. by rewrite !get_set_ne. Qed.

Lemma gdt_limit_set f x g :
  field_ok f = true → apart f gdt_limit_low = true → apart f gdt_limit_high = true →
  gdt_limit (bf_set f x g) = gdt_limit g.
Proof. intros. unfold gdt_limit. by rewrite !get_set_ne. Qed.

Lemma gdt_set_base_base base g : gdt_base (gdt_set_base base g) = wrap 32 base.
Proof.
  unfold gdt_base, gdt_set_base. fields. cbn [bf_bits gdt_base_low gdt_base_high].
  change 0xFFFFFF with (Z.ones 24). by rewrite join_fields.
Qed.

Lemma gdt_set_limit_limit limit g : gdt_limit (gdt_set_limit limit g) = wrap 20 limit.
Proof.
  unfold gdt_limit, gdt_set_limit. fields. cbn [bf_bits gdt_limit_low gdt_limit_high].
  change 0xFFFF with (Z.ones 16). change 0x0F with (Z.ones 4).
  rewrite (wrap_land_ones 4 4) by lia. by rewrite join_fields.
Qed.

(** a segment descriptor built from its parts gives them back, and
    setting the base or the limit of any descriptor changes that part and
    nothing else. *)
Theorem gdt_roundtrip (base limit granularity type : Z) (g : Z) :
  is_u 32 base → is_u 20 limit → is_u 4 granularity → is_u 8 type →
  let d := gdt_make base limit granularity type in
  gdt_base d = base ∧ gdt_limit d = limit ∧
  bf_get gdt_granularity d = granularity ∧ bf_get gdt_type d = type ∧
  (let b := gdt_set_base base g in
   gdt_base b = base ∧ gdt_limit b = gdt_limit g ∧
   bf_get gdt_granularity b = bf_get gdt_granularity g ∧ bf_get gdt_type b = bf_get gdt_type g) ∧
  (let l := gdt_set_limit limit g in
   gdt_limit l = limit ∧ gdt_base l = gdt_base g ∧
   bf_get gdt_granularity l = bf_get gdt_granularity g ∧ bf_get gdt_type l = bf_get gdt_type g).
Proof.
  intros Hb Hl Hg Ht d.
  assert (wrap 32 base = base) as Eb by (by apply wrap_id).
  assert (wrap 20 limit = limit) as El by (by apply wrap_id). cbv zeta. split_and!.
  - transitivity (wrap 32 base); [| done].
    unfold d, gdt_make, gdt_base. fields. cbn [bf_bits gdt_base_low gdt_base_high].
    change 0xFFFFFF with (Z.ones 24). by rewrite join_fields.
  - transitivity (wrap 20 limit); [| done].
    unfold d, gdt_make, gdt_limit. fields. cbn [bf_bits gdt_limit_low gdt_limit_high].
    change 0xFFFF with (Z.ones 16). change 0x0F with (Z.ones 4).
    rewrite (wrap_land_ones 4 4) by lia. by rewrite join_fields.
  - unfold d, gdt_make. fields. cbn [bf_bits gdt_granularity]. change 0x0F with (Z.ones 4).
    rewrite wrap_land_ones by lia. by apply wrap_id.
  - unfold d, gdt_make. fields. by apply wrap_id.
  - by rewrite gdt_set_base_base.
  - unfold gdt_set_base. by rewrite !gdt_limit_set.
  - unfold gdt_set_base. by fields.
  - unfold gdt_set_base. by fields.
  - by rewrite gdt_set_limit_limit.
  - unfold gdt_set_limit. by rewrite !gdt_base_set.
  - unfold gdt_set_limit. by fields.
  - unfold gdt_set_limit. by fields.
Qed.

Lemma gdt_roundtrip_witness :
  gdt_base (gdt_make 0x12345678 0xF0000 0xA 0x9A) = 0x12345678 ∧
  gdt_make 0 0xF0000 0xA 0x9A = 0x00AF9A0000000000.
Proof.
  destruct (gdt_roundtrip 0x12345678 0xF0000 0xA 0x9A 0) as (E & _); [done.. |]. by rewrite E.
Defined.

(** The base of a two-word descriptor. *)
Definition ldtp_base (d : LDTP) : Z :=
  Z.lor (Z.lor (bf_get ldtp_base_low (value1 d)) (Z.shiftl (bf_get ldtp_base_high_low (value1 d)) 24))
    (Z.shiftl (bf_get ldtp_base_high_high (value2 d)) 32).

(** a 64-bit base written to a two-word system descriptor is read back,
    with the limit, the type and the reserved word as before. *)
Theorem ldtp_set_base_roundtrip (base : Z) (d : LDTP) :
  is_u 64 base →
  let d' := ldtp_set_base base d in
  ldtp_base d' = base ∧
  bf_get ldtp_limit_low (value1 d') = bf_get ldtp_limit_low (value1 d) ∧
  bf_get ldtp_limit_high (value1 d') = bf_get ldtp_limit_high (value1 d) ∧
  bf_get ldtp_type (value1 d') = bf_get ldtp_type (value1 d) ∧
  bf_get ldtp_granularity (value1 d') = bf_get ldtp_granularity (value1 d) ∧
  bf_get ldtp_reserved (value2 d') = bf_get ldtp_reserved (value2 d).
Proof.
  intros Hb d'. unfold d', ldtp_set_base, ldtp_base. cbn [value1 value2]. split_and!; fields; try done.
  cbn [bf_bits ldtp_base_low ldtp_base_high_low ldtp_base_high_high].
  change 0xFFFFFF with (Z.ones 24). change 0xFF with (Z.ones 8).
  rewrite (wrap_land_ones 8 8) by lia. rewrite join_fields by lia. change (24 + 8) with 32.
  rewrite wrap_shiftr by lia. change (32 + 32) with 64. rewrite (wrap_id 64) by done.
  by apply join_bits.
Qed.

Lemma ldtp_set_base_roundtrip_witness :
  ldtp_base (ldtp_set_base 0xFFFF800012345678 (Ldtp 0x1234 0)) = 0xFFFF800012345678.
Proof. apply (ldtp_set_base_roundtrip 0xFFFF800012345678 (Ldtp 0x1234 0)). done. Defined.
