(* ===== verification/PageTree.v ===== *)
(** * Page tables as trees

    What the walks of both architectures have in common: tables of 512
    entries in memory, linked by the entries that are present.  The notions
    are parametric in what makes an entry present and where its table is. *)

From S2P Require Import Prelude.

Section PageTree.
Variables (present : Z → bool) (sub : Z → Z).

Abbreviation memory := (gmap Z (list Z)).

(** The table a path of indices leads to, from the table [a] on. *)
Fixpoint table_at (tbl : memory) (a : Z) (path : list Z) : option Z :=
  match path with
  | [] => Some a
  | i :: path =>
      match tbl !! a ≫= (.!! Z.to_nat i) with
      | Some v => if present v then table_at tbl (sub v) path else None
      | None => None
      end
  end.

Definition index_ok (i : Z) : Prop := 0 ≤ i < 512.

(** A path to a table: at most three indices below the root. *)
Definition path_ok (path : list Z) : Prop := (length path ≤ 3)%nat ∧ Forall index_ok path.

Definition table_ok (l : list Z) : Prop := length l = 512%nat ∧ Forall (is_u 64) l.

(** The tables below [root] form a tree: every table reached exists and is
    reached by one path only. *)
Record tree_wf (tbl : memory) (root : Z) : Prop := {
  tw_table : ∀ path a, path_ok path → table_at tbl root path = Some a →
    ∃ l, tbl !! a = Some l ∧ table_ok l;
  tw_tree : ∀ path1 path2 a, path_ok path1 → path_ok path2 →
    table_at tbl root path1 = Some a → table_at tbl root path2 = Some a → path1 = path2;
}.

Lemma table_at_app tbl r p q : table_at tbl r (p ++ q) = a ← table_at tbl r p; table_at tbl a q.
Proof.
  revert r. induction p as [| j p IH]; simpl; intros r; [done |].
  destruct (tbl !! r ≫= _) as [v |]; [| done]. destruct (present v); [apply IH | done].
Qed.

Lemma table_at_snoc tbl r p i a :
  table_at tbl r p = Some a →
  table_at tbl r (p ++ [i]) =
    match tbl !! a ≫= (.!! Z.to_nat i) with
    | Some v => if present v then Some (sub v) else None
    | None => None
    end.
Proof. intros E. by rewrite table_at_app, E. Qed.

Lemma path_ok_nil : path_ok [].
Proof. split; [simpl; lia | done]. Qed.

Lemma path_ok_prefix p q : path_ok (p ++ q) → path_ok p.
Proof.
  intros [Hl F]. rewrite length_app in Hl. apply Forall_app in F as [F _]. split; [lia | done].
Qed.

Lemma path_ok_snoc p i : (length p ≤ 2)%nat → path_ok p → index_ok i → path_ok (p ++ [i]).
Proof.
  intros Hl [_ F] Hi. split; [rewrite length_app; simpl; lia |].
  apply Forall_app. split; [done | by apply Forall_singleton].
Qed.

(** The entry at an index of a table that is reached. *)
Lemma tree_entry tbl root p a i :
  tree_wf tbl root → path_ok p → table_at tbl root p = Some a → index_ok i →
  ∃ l v, tbl !! a = Some l ∧ table_ok l ∧ rd l i = Ret v ∧ l !! Z.to_nat i = Some v ∧ is_u 64 v.
Proof.
  intros W Hp Ha [Hi0 Hi]. destruct (tw_table _ _ W p a Hp Ha) as (l & El & Len & U).
  destruct (rd_lt l i) as (v & Hrd & Hv); [lia |]. exists l, v. split_and!; try done.
  by eapply Forall_lookup_1.
Qed.

(** ** Changing one table

    A change of the table at path [P] changes no path that avoids it: walks
    that do not take an index on which the old and the new table differ. *)
Lemma table_at_change_from tbl root P a l l' q b rest :
  tree_wf tbl root → path_ok P → table_at tbl root P = Some a → tbl !! a = Some l →
  path_ok (q ++ rest) → table_at tbl root q = Some b →
  (∀ i r, q ++ rest = P ++ i :: r → l' !! Z.to_nat i = l !! Z.to_nat i) →
  table_at (<[a := l']> tbl) b rest = table_at tbl b rest.
Proof.
  intros W HP Ha El. revert q b. induction rest as [| i rest IH]; intros q b Hq Hb Hsame; [done |].
  assert ((<[a := l']> tbl) !! b ≫= (.!! Z.to_nat i) = tbl !! b ≫= (.!! Z.to_nat i)) as Eb.
  { destruct (decide (a = b)) as [<- | N]; [| by rewrite lookup_insert_ne].
    rewrite lookup_insert_eq, El. cbn [mbind option_bind]. apply (Hsame i rest). f_equal.
    eapply (tw_tree _ _ W); eauto using path_ok_prefix. }
  pose proof (table_at_snoc tbl _ q i b Hb) as E. simpl. rewrite Eb.
  destruct (tbl !! b ≫= (.!! Z.to_nat i)) as [v |]; [| done]. destruct (present v); [| done].
  apply (IH (q ++ [i])); [by rewrite <- app_assoc | done |].
  intros j r. rewrite <- app_assoc. apply Hsame.
Qed.

Lemma table_at_change tbl root P a l l' p :
  tree_wf tbl root → path_ok P → table_at tbl root P = Some a → tbl !! a = Some l → path_ok p →
  (∀ i r, p = P ++ i :: r → l' !! Z.to_nat i = l !! Z.to_nat i) →
  table_at (<[a := l']> tbl) root p = table_at tbl root p.
Proof. intros. by apply (table_at_change_from tbl root P a l l' []). Qed.

(** Replacing a lowest table changes no path at all. *)
Lemma table_at_leaf tbl root P a l l' p :
  tree_wf tbl root → path_ok P → length P = 3%nat → table_at tbl root P = Some a →
  tbl !! a = Some l → path_ok p →
  table_at (<[a := l']> tbl) root p = table_at tbl root p.
Proof.
  intros W HP H3 Ha El Hp. apply (table_at_change tbl root P a l); try done.
  intros i r ->. destruct Hp as [Hl _]. rewrite length_app in Hl. simpl in Hl. lia.
Qed.

Lemma tree_wf_leaf tbl root P a l l' :
  tree_wf tbl root → path_ok P → length P = 3%nat → table_at tbl root P = Some a →
  tbl !! a = Some l → table_ok l' → tree_wf (<[a := l']> tbl) root.
Proof.
  intros W HP HP3 Ha El Ok. split.
  - intros p b Hp. rewrite (table_at_leaf tbl root P a l) by done. intros Hb.
    destruct (decide (a = b)) as [<- | N].
    + exists l'. by rewrite lookup_insert_eq.
    + rewrite lookup_insert_ne by done. by apply (tw_table _ _ W p).
  - intros p1 p2 b Hp1 Hp2. rewrite !(table_at_leaf tbl root P a l) by done. by apply (tw_tree _ _ W).
Qed.

(** ** Hanging a new table into the tree *)

Section Graft.
Variables (tbl : memory) (root : Z) (P : list Z) (a : Z) (l : list Z) (i v n : Z) (l0 : list Z).
Hypotheses (W : tree_wf tbl root) (HP : path_ok P) (HP2 : (length P ≤ 2)%nat)
  (Ha : table_at tbl root P = Some a) (El : tbl !! a = Some l) (Hi : index_ok i)
  (Habsent : table_at tbl root (P ++ [i]) = None)
  (Hv : is_u 64 v) (Hpresent : present v = true) (Hsub : sub v = n)
  (En : tbl !! n = Some l0) (Ok0 : table_ok l0) (Hempty : Forall (fun x => present x = false) l0)
  (Hfresh : ∀ q, path_ok q → table_at tbl root q ≠ Some n).

Let tbl' : memory := <[a := <[Z.to_nat i := v]> l]> tbl.

Lemma graft_table_ok : table_ok (<[Z.to_nat i := v]> l).
Proof.
  destruct (tw_table _ _ W P a HP Ha) as (l1 & El1 & Len & U). rewrite El in El1.
  injection El1 as <-. split; [by rewrite length_insert | by apply Forall_insert].
Qed.

(** A path that does not run through the new entry. *)
Lemma graft_other p :
  path_ok p → ¬ (P ++ [i]) `prefix_of` p → table_at tbl' root p = table_at tbl root p.
Proof.
  intros Hp Hnp. apply (table_at_change tbl root P a l); try done.
  intros j r ->. rewrite list_lookup_insert_ne; [done |]. intros E. apply Hnp.
  destruct Hp as [_ F]. apply Forall_app in F as [_ F]. inversion_clear F as [| ? ? [Hj0 Hj] _].
  destruct Hi as [Hi0 _]. assert (i = j) as -> by lia.
  exists r. by rewrite <- app_assoc.
Qed.

Lemma graft_new : table_at tbl' root (P ++ [i]) = Some n.
Proof.
  assert (table_at tbl' root P = Some a) as Ha'.
  { rewrite graft_other; [done | done |]. intros Hpre%prefix_length.
    rewrite length_app in Hpre. simpl in Hpre. lia. }
  rewrite (table_at_snoc tbl' root P i a Ha'). unfold tbl'.
  destruct (tw_table _ _ W P a HP Ha) as (l1 & El1 & Len & _). rewrite El in El1. injection El1 as <-.
  rewrite lookup_insert_eq. cbn [mbind option_bind]. destruct Hi as [Hi0 Hi1].
  rewrite list_lookup_insert_eq by lia. by rewrite Hpresent, Hsub.
Qed.

Lemma graft_below j r : table_at tbl' root ((P ++ [i]) ++ j :: r) = None.
Proof.
  rewrite table_at_app, graft_new. cbn [mbind option_bind table_at]. unfold tbl'.
  rewrite lookup_insert_ne by (intros ->; by apply (Hfresh P HP)). rewrite En.
  cbn [mbind option_bind]. destruct (l0 !! Z.to_nat j) as [x |] eqn:Ex; [| done].
  by rewrite (Forall_lookup_1 _ _ _ _ Hempty Ex).
Qed.

(** Every path leads where it led before, apart from the new one. *)
Lemma graft_paths p :
  path_ok p →
  table_at tbl' root p = if decide (p = P ++ [i]) then Some n else table_at tbl root p.
Proof.
  intros Hp. destruct (decide (p = P ++ [i])) as [-> | N]; [apply graft_new |].
  destruct (decide ((P ++ [i]) `prefix_of` p)) as [[r ->] | Hnp]; [| by apply graft_other].
  destruct r as [| j r]; [by rewrite app_nil_r in N |].
  rewrite graft_below. by rewrite table_at_app, Habsent.
Qed.

Lemma graft_wf : tree_wf tbl' root.
Proof.
  split.
  - intros p b Hp. rewrite graft_paths by done. unfold tbl'.
    destruct (decide (p = P ++ [i])) as [-> | N].
    + intros [= <-]. exists l0. rewrite lookup_insert_ne by (intros ->; by apply (Hfresh P HP)). done.
    + intros Hb. destruct (decide (a = b)) as [<- | Nb].
      * eexists. rewrite lookup_insert_eq. split; [done | apply graft_table_ok].
      * rewrite lookup_insert_ne by done. by apply (tw_table _ _ W p).
  - intros p1 p2 b Hp1 Hp2. rewrite !graft_paths by done.
    destruct (decide (p1 = P ++ [i])) as [-> |], (decide (p2 = P ++ [i])) as [-> |]; try done.
    + intros [= <-] E. by destruct (Hfresh p2 Hp2).
    + intros E [= <-]. by destruct (Hfresh p1 Hp1).
    + by apply (tw_tree _ _ W).
Qed.

End Graft.

End PageTree.

(** ** The indices of a virtual address *)

Definition vindex (k addr : Z) : Z := Z.land (Z.shiftr addr k) 511.
Definition vpath (addr : Z) : list Z := [vindex 39 addr; vindex 30 addr; vindex 21 addr].

(** The page of the 48-bit virtual address space an address lies in. *)
Definition vpage (addr : Z) : Z := wrap 36 (Z.shiftr addr 12).

Lemma vindex_bits k addr i :
  0 ≤ k → 0 ≤ i → Z.testbit (vindex k addr) i = (i <? 9) && Z.testbit addr (k + i).
Proof.
  intros. unfold vindex. change 511 with (Z.ones 9).
  rewrite Z.land_spec, Z.shiftr_spec, Z.testbit_ones by lia. rewrite (Z.add_comm i).
  destruct (Z.ltb_spec i 9), (Z.leb_spec 0 i); try lia; simpl; by rewrite ?andb_true_r, ?andb_false_r.
Qed.

Lemma vindex_ok k addr : index_ok (vindex k addr).
Proof.
  unfold vindex, index_ok. change 511 with (Z.ones 9). rewrite Z.land_ones by lia.
  by apply Z.mod_pos_bound.
Qed.

Lemma vpath_ok addr : path_ok (vpath addr).
Proof. split; [simpl; lia |]. repeat constructor; apply vindex_ok. Qed.

Lemma u16_vindex k addr : u16 (vindex k addr) = vindex k addr.
Proof. apply wrap_id. pose proof (vindex_ok k addr) as [? ?]. unfold is_u. lia. Qed.

(** Addresses share their indices exactly when they lie in the same page. *)
Lemma vpage_indices addr1 addr2 :
  vpage addr1 = vpage addr2 ↔
  vpath addr1 = vpath addr2 ∧ vindex 12 addr1 = vindex 12 addr2.
Proof.
  assert (∀ addr j, 0 ≤ j → Z.testbit (vpage addr) j = (j <? 36) && Z.testbit addr (12 + j)) as Hv.
  { intros. unfold vpage. rewrite wrap_spec, Z.shiftr_spec by lia. by rewrite (Z.add_comm j). }
  split.
  - intros E. assert (∀ j, 12 ≤ j < 48 → Z.testbit addr1 j = Z.testbit addr2 j) as B.
    { intros j Hj. apply (f_equal (fun z => Z.testbit z (j - 12))) in E.
      rewrite !Hv in E by lia. destruct (Z.ltb_spec (j - 12) 36); [| lia]. simpl in E.
      by replace (12 + (j - 12)) with j in E by lia. }
    assert (∀ k, 12 ≤ k ≤ 39 → vindex k addr1 = vindex k addr2) as I.
    { intros k Hk. apply Z.bits_inj'. intros i Hi. rewrite !vindex_bits by lia.
      destruct (Z.ltb_spec i 9); [| done]. simpl. apply B. lia. }
    split; [unfold vpath; by rewrite !I by lia | by apply I].
  - intros [[= E39 E30 E21] E12].
    assert (∀ k j, 0 ≤ k → k ≤ j < k + 9 → vindex k addr1 = vindex k addr2 →
      Z.testbit addr1 j = Z.testbit addr2 j) as B.
    { intros k j Hk Hj E. apply (f_equal (fun z => Z.testbit z (j - k))) in E.
      rewrite !vindex_bits in E by lia. destruct (Z.ltb_spec (j - k) 9); [| lia]. simpl in E.
      by replace (k + (j - k)) with j in E by lia. }
    apply Z.bits_inj'. intros j Hj. rewrite !Hv by done. destruct (Z.ltb_spec j 36); [| done]. simpl.
    destruct (decide (j < 9)); [apply (B 12); (done || lia) |].
    destruct (decide (j < 18)); [apply (B 21); (done || lia) |].
    destruct (decide (j < 27)); [apply (B 30); (done || lia) | apply (B 39); (done || lia)].
Qed.

