(* ===== verification/PageWalk.v ===== *)
(** * The page tables of x86-64

    [include/pagetable_impl.h], [kernel/pagetable.cpp] and the page mapping of
    [kernel/vmem.cpp]: the four-level walk over tables in memory, reading and
    updating entries, and mapping pages.  Memory is a map from the address of
    a table to its 512 entries. *)

From S2P Require Import Prelude BitField PageEntry PageTree.

(** ** State *)

Record pt_state := PT {
  tables : gmap Z (list Z);
  pagetable_virt_offset : Z;
  init_pml4t_addr : Z;
}.

Definition get_pagetable_virt_offset (st : pt_state) : Z := pagetable_virt_offset st.

Definition set_pagetable_virt_offset (offset : Z) (st : pt_state) : pt_state :=
  PT (tables st) offset (init_pml4t_addr st).

(** _get_pml4t() *)
Definition get_pml4t (st : pt_state) : Z :=
  u64 (get_pagetable_virt_offset st + init_pml4t_addr st).

(** A reference to an entry: the table and the index in it. *)
Definition pe_ref : Type := Z * Z.

Definition read_pe (st : pt_state) (r : pe_ref) : outcome Z :=
  match tables st !! r.1 with Some l => rd l r.2 | None => OutOfBounds end.

Definition write_pe (st : pt_state) (r : pe_ref) (v : Z) : outcome pt_state :=
  match tables st !! r.1 with
  | Some l => l ← wr l r.2 v; Ret (PT (<[r.1 := l]> (tables st)) (pagetable_virt_offset st) (init_pml4t_addr st))
  | None => OutOfBounds
  end.

(** ** The walk *)

Definition get_pml4t_pageentr64 (pml4t addr : Z) : pe_ref :=
  let vector64 := Z.shiftr addr 39 in
  let vector64 := Z.land vector64 511 in
  (pml4t, u16 vector64).

Definition get_pdpt_pageentr64 (pdpt_ref addr : Z) : pe_ref :=
  let vector64 := Z.shiftr addr 30 in
  let vector64 := Z.land vector64 511 in
  (pdpt_ref, u16 vector64).

Definition get_pdt_pageentr64 (pdt_ref addr : Z) : pe_ref :=
  let vector64 := Z.shiftr addr 21 in
  let vector64 := Z.land vector64 511 in
  (pdt_ref, u16 vector64).

Definition get_pt_pageentr64 (pt_ref addr : Z) : pe_ref :=
  let vector64 := Z.shiftr addr 12 in
  let vector64 := Z.land vector64 511 in
  (pt_ref, u16 vector64).

Definition subtable (st : pt_state) (pe : Z) : Z :=
  get_subtable_addr (get_pagetable_virt_offset st) pe.

(** None is the null pointer. *)
Definition get_pageentr64 (st : pt_state) (pml4t addr : Z) : outcome (option pe_ref) :=
  pml4t_pe ← read_pe st (get_pml4t_pageentr64 pml4t addr);
  if negb (bf_flag pe_present pml4t_pe) then Ret None else
  pdpt ← read_pe st (get_pdpt_pageentr64 (subtable st pml4t_pe) addr);
  if negb (bf_flag pe_present pdpt) then Ret None else
  pdt ← read_pe st (get_pdt_pageentr64 (subtable st pdpt) addr);
  if negb (bf_flag pe_present pdt) then Ret None else
  Ret (Some (get_pt_pageentr64 (subtable st pdt) addr)).

(** ** Reading and updating entries *)

Definition get_pageentr (st : pt_state) (addr : Z) : outcome (option Z) :=
  pe ← get_pageentr64 st (get_pml4t st) addr;
  match pe with
  | Some r => v ← read_pe st r; Ret (Some v)
  | None => Ret None
  end.

(** The assignments of [update_pageentr], in the order of the code. *)
Definition merge_pageentr (upd pe : Z) : Z :=
  let pe := bf_set pe_present (bf_get pe_present upd) pe in
  let pe := bf_set pe_writeable (bf_get pe_writeable upd) pe in
  let pe := bf_set pe_execution_disabled (bf_get pe_execution_disabled upd) pe in
  let pe := bf_set pe_cache_disabled (bf_get pe_cache_disabled upd) pe in
  let pe := bf_set pe_write_through (bf_get pe_write_through upd) pe in
  let pe := bf_set pe_user_access (bf_get pe_user_access upd) pe in
  let pe := bf_set pe_accessed (bf_get pe_accessed upd) pe in
  let pe := bf_set pe_dirty (bf_get pe_dirty upd) pe in
  bf_set pe_page_ppn (bf_get pe_page_ppn upd) pe.

(** The overload that applies a function to the entry. *)
Definition update_pageentr_func (st : pt_state) (addr : Z) (func : Z → Z)
    : outcome (bool * pt_state) :=
  pe ← get_pageentr64 st (get_pml4t st) addr;
  match pe with
  | Some r => v ← read_pe st r; st ← write_pe st r (func v); Ret (true, st)
  | None => Ret (false, st)
  end.

Definition update_pageentr (st : pt_state) (addr pe_vmem_update : Z) : outcome (bool * pt_state) :=
  pe ← get_pageentr64 st (get_pml4t st) addr;
  match pe with
  | Some r => v ← read_pe st r; st ← write_pe st r (merge_pageentr pe_vmem_update v); Ret (true, st)
  | None => Ret (false, st)
  end.

Definition get_phys_from_virt (st : pt_state) (vaddr : Z) : outcome Z :=
  pe ← get_pageentr st vaddr;
  match pe with
  | Some pe =>
      let offset := Z.land vaddr 0x0FFF in
      let paddr := bf_get pe_page_ppn pe in
      let paddr := u64 (Z.shiftl paddr 12) in
      Ret (u64 (paddr + offset))
  | None => Ret 0
  end.

(** ** class vmem_page *)

(** Using the optional entry without a test for its presence. *)
Definition deref_pe (o : option Z) : outcome Z :=
  match o with Some pe => Ret pe | None => OutOfBounds end.

Definition rmap_entry (paddr pe : Z) : Z :=
  let pe := bf_set pe_dirty 0 pe in
  let pe := bf_set pe_execution_disabled 1 pe in
  let pe := bf_set pe_writeable 0 pe in
  let pe := bf_set pe_accessed 0 pe in
  let pe := bf_set pe_user_access 0 pe in
  let pe := bf_set pe_write_through 0 pe in
  let pe := bf_set pe_cache_disabled 0 pe in
  let pe := bf_set pe_page_ppn (Z.shiftr paddr 12) pe in
  bf_set pe_present 1 pe.

Definition vmem_page_rmap (st : pt_state) (addr paddr : Z) : outcome pt_state :=
  o ← get_pageentr st addr;
  pe ← deref_pe o;
  '(_, st) ← update_pageentr st addr (rmap_entry paddr pe);
  Ret st.

Definition vmem_page_unmap (st : pt_state) (addr : Z) : outcome pt_state :=
  o ← get_pageentr st addr;
  pe ← deref_pe o;
  '(_, st) ← update_pageentr st addr (bf_set pe_present 0 pe);
  Ret st.

Definition rwmap_entry (paddr : Z) (write_through cache_disabled : bool) (pe : Z) : Z :=
  let pe := bf_set pe_dirty 0 pe in
  let pe := bf_set pe_execution_disabled 1 pe in
  let pe := bf_set pe_writeable 1 pe in
  let pe := bf_set pe_accessed 0 pe in
  let pe := bf_set pe_user_access 0 pe in
  let pe := bf_set pe_write_through (if write_through then 1 else 0) pe in
  let pe := bf_set pe_cache_disabled (if cache_disabled then 1 else 0) pe in
  let pe := bf_set pe_page_ppn (Z.shiftr paddr 12) pe in
  bf_set pe_present 1 pe.

Definition vmem_page_rwmap (st : pt_state) (addr paddr : Z) (write_through cache_disabled : bool)
    : outcome pt_state :=
  o ← get_pageentr st addr;
  pe ← deref_pe o;
  '(_, st) ← update_pageentr st addr (rwmap_entry paddr write_through cache_disabled pe);
  Ret st.

(** ** Specification: the tables as a tree *)

(** The table a path leads to, and the tree of tables. *)
Abbreviation at_path st := (table_at (bf_flag pe_present) (subtable st) (tables st) (get_pml4t st)).
Abbreviation pt_wf st := (tree_wf (bf_flag pe_present) (subtable st) (tables st) (get_pml4t st)).

(** ** The walk follows the path *)

(** The entry of a page, if the tables above it are present. *)
Definition entry_of (st : pt_state) (addr : Z) : option Z :=
  a ← at_path st (vpath addr);
  tables st !! a ≫= (.!! Z.to_nat (vindex 12 addr)).

Lemma read_pe_at st p a i :
  pt_wf st → path_ok p → at_path st p = Some a → index_ok i →
  ∃ v, read_pe st (a, i) = Ret v ∧ tables st !! a ≫= (.!! Z.to_nat i) = Some v ∧ is_u 64 v.
Proof.
  intros W Hp Ha Hi. destruct (tree_entry _ _ _ _ p a i W Hp Ha Hi) as (l & v & El & _ & Hrd & Hv & U).
  exists v. unfold read_pe. simpl. by rewrite El.
Qed.

(** One level of the walk. *)
Lemma walk_step st p a k addr {B} (f : Z → outcome (option B)) (g : Z → option B) :
  pt_wf st → path_ok p → at_path st p = Some a →
  (∀ v, at_path st (p ++ [vindex k addr]) = Some (subtable st v) → f v = Ret (g (subtable st v))) →
  (v ← read_pe st (a, vindex k addr); if negb (bf_flag pe_present v) then Ret None else f v) =
    Ret (at_path st (p ++ [vindex k addr]) ≫= g).
Proof.
  intros W Hp Ha Hf. destruct (read_pe_at st p a (vindex k addr)) as (v & -> & Ev & U);
    [done.. | apply vindex_ok |].
  pose proof (table_at_snoc _ _ _ _ p (vindex k addr) a Ha) as E. rewrite Ev in E.
  cbn [mbind outcome_bind]. destruct (bf_flag pe_present v) eqn:F; cbn [negb].
  - rewrite E. cbn [mbind option_bind]. by apply Hf.
  - by rewrite E.
Qed.

Lemma get_pageentr64_spec st addr :
  pt_wf st →
  get_pageentr64 st (get_pml4t st) addr = Ret (a ← at_path st (vpath addr); Some (a, vindex 12 addr)).
Proof.
  intros W. unfold get_pageentr64, get_pml4t_pageentr64, get_pdpt_pageentr64,
    get_pdt_pageentr64, get_pt_pageentr64. cbv zeta.
  change (Z.land (Z.shiftr addr ?k) 511) with (vindex k addr). rewrite !u16_vindex.
  set (tab := table_at (bf_flag pe_present) (subtable st) (tables st)).
  set (g3 := fun a => Some (a, vindex 12 addr)).
  set (g2 := fun a => tab a [vindex 21 addr] ≫= g3).
  set (g1 := fun a => tab a [vindex 30 addr; vindex 21 addr] ≫= g3).
  pose proof (vpath_ok addr) as P3.
  pose proof (path_ok_prefix [vindex 39 addr; vindex 30 addr] [vindex 21 addr] P3) as P2.
  pose proof (path_ok_prefix [vindex 39 addr] [vindex 30 addr] P2) as P1.
  rewrite (walk_step st [] (get_pml4t st) 39 addr _ g1); [| done | apply path_ok_nil | done |].
  - change (vpath addr) with ([vindex 39 addr] ++ [vindex 30 addr; vindex 21 addr]). fold tab.
    unfold tab at 2. rewrite (table_at_app _ _ _ _ [vindex 39 addr]). fold tab. cbn [app]. unfold g1.
    by destruct (tab (get_pml4t st) [vindex 39 addr]).
  - intros v Ev. cbn [app] in Ev. rewrite (walk_step st [vindex 39 addr] (subtable st v) 30 addr _ g2);
      [| done | done | done |].
    + rewrite table_at_app, Ev. cbn [mbind option_bind]. unfold g1, tab.
      change [vindex 30 addr; vindex 21 addr] with ([vindex 30 addr] ++ [vindex 21 addr]).
      rewrite (table_at_app _ _ _ _ [vindex 30 addr]). fold tab.
      by destruct (tab (subtable st v) [vindex 30 addr]).
    + intros v2 Ev2. rewrite (walk_step st [vindex 39 addr; vindex 30 addr] (subtable st v2) 21 addr _ g3);
        [| done | done | done | done].
      unfold g2. cbn [app] in Ev2.
      change ([vindex 39 addr; vindex 30 addr] ++ [vindex 21 addr])
        with (([vindex 39 addr] ++ [vindex 30 addr]) ++ [vindex 21 addr]).
      rewrite table_at_app. cbn [app]. by rewrite Ev2.
Qed.

Lemma entry_of_read st addr a :
  pt_wf st → at_path st (vpath addr) = Some a →
  ∃ v, read_pe st (a, vindex 12 addr) = Ret v ∧ entry_of st addr = Some v ∧ is_u 64 v.
Proof.
  intros W Ha. destruct (read_pe_at st (vpath addr) a (vindex 12 addr)) as (v & Hr & Hv & U);
    [done | apply vpath_ok | done | apply vindex_ok |].
  exists v. unfold entry_of. rewrite Ha. by split_and!.
Qed.

Lemma get_pageentr_spec st addr : pt_wf st → get_pageentr st addr = Ret (entry_of st addr).
Proof.
  intros W. unfold get_pageentr. rewrite get_pageentr64_spec by done. cbn [mbind outcome_bind].
  destruct (at_path st (vpath addr)) as [a |] eqn:Ha; cbn [mbind option_bind].
  - destruct (entry_of_read st addr a W Ha) as (v & -> & -> & _). done.
  - unfold entry_of. by rewrite Ha.
Qed.

(** An entry is written in place, and no other page's entry changes. *)
Lemma write_leaf st addr a v :
  pt_wf st → at_path st (vpath addr) = Some a → is_u 64 v →
  ∃ st', write_pe st (a, vindex 12 addr) v = Ret st' ∧ pt_wf st' ∧
    (∀ addr', entry_of st' addr' =
      if decide (vpage addr' = vpage addr) then Some v else entry_of st addr').
Proof.
  intros W Ha Hv. destruct (tw_table _ _ _ _ W (vpath addr) a (vpath_ok addr) Ha) as (l & El & Len & U).
  pose proof (vindex_ok 12 addr) as [Hi0 Hi].
  unfold write_pe. cbn [fst snd]. rewrite El, wr_lt by lia. cbn [mbind outcome_bind].
  eexists. split; [done |]. split.
  { apply (tree_wf_leaf _ _ _ _ (vpath addr) _ l); try done; [apply vpath_ok |].
    split; [by rewrite length_insert | by apply Forall_insert]. }
  intros addr'. unfold entry_of. cbn [tables].
  change (get_pml4t (PT _ _ _)) with (get_pml4t st). change (subtable (PT _ _ _)) with (subtable st).
  rewrite (table_at_leaf _ _ _ _ (vpath addr) _ l) by (done || apply vpath_ok).
  destruct (decide (vpage addr' = vpage addr)) as [[E1 E2]%vpage_indices | N].
  - rewrite E1, E2, Ha. cbn [mbind option_bind]. rewrite lookup_insert_eq. simpl.
    rewrite list_lookup_insert_eq by lia. done.
  - destruct (at_path st (vpath addr')) as [b |] eqn:Hb; [| done].
    cbn [mbind option_bind]. destruct (decide (a = b)) as [<- | Nb].
    + rewrite lookup_insert_eq, El. simpl.
      assert (vpath addr' = vpath addr) as E1 by (eapply (tw_tree _ _ _ _ W); eauto; apply vpath_ok).
      rewrite list_lookup_insert_ne; [done |]. intros E. apply N, vpage_indices. split; [done |].
      pose proof (vindex_ok 12 addr') as [? ?]. lia.
    + by rewrite lookup_insert_ne.
Qed.

(** ** What an update keeps and what it changes *)

Definition vmem_fields : list bitfield :=
  [pe_present; pe_writeable; pe_execution_disabled; pe_cache_disabled; pe_write_through;
   pe_user_access; pe_accessed; pe_dirty; pe_page_ppn].

Definition kept_fields : list bitfield :=
  [pe_size; pe_global; pe_ignored2; pe_os_virt_avail; pe_reserved1; pe_os_virt_start; pe_ignored3].

Lemma get_wrap f v : field_ok f = true → wrap (bf_bits f) (bf_get f v) = bf_get f v.
Proof. intros. by apply wrap_id, get_is_u. Qed.

Lemma merge_spec upd pe :
  Forall (fun f => bf_get f (merge_pageentr upd pe) = bf_get f upd) vmem_fields ∧
  Forall (fun f => bf_get f (merge_pageentr upd pe) = bf_get f pe) kept_fields.
Proof.
  split; repeat (apply Forall_cons; split; [unfold merge_pageentr; fields; by rewrite ?get_wrap |]);
    apply Forall_nil_2.
Qed.

Lemma merge_is_u upd pe : is_u 64 pe → is_u 64 (merge_pageentr upd pe).
Proof.
  intros H. unfold merge_pageentr.
  repeat match goal with |- is_u 64 (bf_set _ _ ?v) => apply set_is_u; assert (is_u 64 v); [| unfold is_u in *; lia] end.
  done.
Qed.

Lemma update_pageentr_spec st addr upd :
  pt_wf st →
  match entry_of st addr with
  | None => update_pageentr st addr upd = Ret (false, st)
  | Some pe => ∃ st', update_pageentr st addr upd = Ret (true, st') ∧ pt_wf st' ∧
      ∀ addr', entry_of st' addr' =
        if decide (vpage addr' = vpage addr) then Some (merge_pageentr upd pe) else entry_of st addr'
  end.
Proof.
  intros W. unfold update_pageentr. rewrite get_pageentr64_spec by done. cbn [mbind outcome_bind].
  destruct (at_path st (vpath addr)) as [a |] eqn:Ha; cbn [mbind option_bind].
  - destruct (entry_of_read st addr a W Ha) as (v & -> & -> & U). cbn [mbind outcome_bind].
    destruct (write_leaf st addr a (merge_pageentr upd v)) as (st' & -> & W' & E);
      [done | done | by apply merge_is_u |].
    by exists st'.
  - unfold entry_of at 1. by rewrite Ha.
Qed.

(** on tables that form a tree, [update_pageentr] finds the entry of the
    address or reports that there is none; it sets the virtual-memory fields
    to the ones given, leaves the allocation bits and the reserved fields of
    the entry as they are, and changes the entry of no other page. *)
Theorem update_pageentr_correct (st : pt_state) (addr upd : Z) :
  pt_wf st →
  ∃ o b st', get_pageentr st addr = Ret o ∧ update_pageentr st addr upd = Ret (b, st') ∧
    pt_wf st' ∧ b = bool_decide (is_Some o) ∧
    (∀ pe, o = Some pe → ∃ pe', get_pageentr st' addr = Ret (Some pe') ∧
      Forall (fun f => bf_get f pe' = bf_get f upd) vmem_fields ∧
      Forall (fun f => bf_get f pe' = bf_get f pe) kept_fields) ∧
    (∀ addr', vpage addr' ≠ vpage addr → get_pageentr st' addr' = get_pageentr st addr').
Proof.
  intros W. pose proof (update_pageentr_spec st addr upd W) as U.
  rewrite get_pageentr_spec by done. destruct (entry_of st addr) as [pe |].
  - destruct U as (st' & E & W' & H). eexists _, _, st'. split; [done |]. split; [done |].
    split; [done |]. split; [done |]. split.
    + intros ? [= <-]. exists (merge_pageentr upd pe). rewrite get_pageentr_spec, H by done.
      rewrite decide_True by done. split; [done |]. apply merge_spec.
    + intros addr' N. rewrite !get_pageentr_spec, H by done. by rewrite decide_False.
  - eexists _, _, st. by split_and!.
Qed.

(** The entry a mapping leaves behind. *)
Lemma rwmap_entry_spec paddr wt cd pe :
  let e := merge_pageentr (rwmap_entry paddr wt cd pe) pe in
  bf_get pe_page_ppn e = wrap 28 (Z.shiftr paddr 12) ∧ bf_get pe_present e = 1 ∧
  bf_get pe_writeable e = 1 ∧ bf_get pe_user_access e = 0 ∧ bf_get pe_execution_disabled e = 1 ∧
  bf_get pe_os_virt_avail e = bf_get pe_os_virt_avail pe ∧
  bf_get pe_os_virt_start e = bf_get pe_os_virt_start pe.
Proof.
  intros e. unfold e, merge_pageentr, rwmap_entry. cbv zeta. split_and!; fields; try done.
  cbn [bf_bits pe_page_ppn]. apply wrap_wrap.
Qed.

Lemma phys_of_entry st vaddr pe :
  pt_wf st → entry_of st vaddr = Some pe →
  get_phys_from_virt st vaddr = Ret (4096 * bf_get pe_page_ppn pe + vaddr mod 4096).
Proof.
  intros W E. unfold get_phys_from_virt. rewrite get_pageentr_spec, E by done.
  cbn [mbind outcome_bind]. pose proof (get_is_u pe_page_ppn pe eq_refl) as [H0 H1].
  cbn [bf_bits pe_page_ppn] in H1. change 0x0FFF with (Z.ones 12).
  rewrite Z.land_ones, Z.shiftl_mul_pow2 by lia. change (2 ^ 12) with 4096.
  pose proof (Z.mod_pos_bound vaddr 4096 eq_refl).
  rewrite (wrap_id 64 (_ * 4096)), wrap_id by (unfold is_u; lia). f_equal. lia.
Qed.

(** mapping a page writeable makes every address of the page translate
    into the physical page given (below 1 TiB, which 28 bits of page number
    reach), for the kernel only and without execution; the page stays
    allocated to whom it was, and the translation of no other page
    changes. *)
Theorem rwmap_correct (st : pt_state) (addr paddr : Z) (wt cd : bool) (pe : Z) :
  pt_wf st → get_pageentr st addr = Ret (Some pe) → is_u 40 paddr →
  ∃ st' pe', vmem_page_rwmap st addr paddr wt cd = Ret st' ∧ pt_wf st' ∧
    get_pageentr st' addr = Ret (Some pe') ∧
    bf_get pe_present pe' = 1 ∧ bf_get pe_writeable pe' = 1 ∧
    bf_get pe_user_access pe' = 0 ∧ bf_get pe_execution_disabled pe' = 1 ∧
    bf_get pe_os_virt_avail pe' = bf_get pe_os_virt_avail pe ∧
    bf_get pe_os_virt_start pe' = bf_get pe_os_virt_start pe ∧
    (∀ vaddr, vpage vaddr = vpage addr →
      get_phys_from_virt st' vaddr = Ret (4096 * (paddr / 4096) + vaddr mod 4096)) ∧
    (∀ vaddr, vpage vaddr ≠ vpage addr → get_phys_from_virt st' vaddr = get_phys_from_virt st vaddr).
Proof.
  intros W E [Hp0 Hp]. rewrite get_pageentr_spec in E by done. injection E as E.
  pose proof (update_pageentr_spec st addr (rwmap_entry paddr wt cd pe) W) as U.
  rewrite E in U. destruct U as (st' & Eu & W' & H).
  destruct (rwmap_entry_spec paddr wt cd pe) as (P & F1 & F2 & F3 & F4 & F5 & F6).
  exists st', (merge_pageentr (rwmap_entry paddr wt cd pe) pe).
  unfold vmem_page_rwmap. rewrite get_pageentr_spec, E by done. cbn [mbind outcome_bind deref_pe].
  rewrite Eu. cbn [mbind outcome_bind]. rewrite get_pageentr_spec, H, decide_True by done.
  split_and!; try done.
  - intros vaddr Hv. rewrite (phys_of_entry st' vaddr _ W') by (by rewrite H, decide_True).
    rewrite P. f_equal. f_equal. f_equal. rewrite Z.shiftr_div_pow2 by lia. change (2 ^ 12) with 4096.
    apply wrap_id. split; [apply Z.div_pos; lia | apply Z.div_lt_upper_bound; lia].
  - intros vaddr Hv. unfold get_phys_from_virt. by rewrite !get_pageentr_spec, H, decide_False.
Qed.

(** ** A concrete set of tables *)

Definition sparse (k : nat) (v : Z) : list Z := <[k := v]> (replicate 512 0).

(** Four tables, one below the other: one entry of each leads to the next. *)
Definition chain_pt (i j k : nat) (leaf : list Z) : pt_state :=
  PT {[ 0x1000 := sparse i 0x2003; 0x2000 := sparse j 0x3003; 0x3000 := sparse k 0x4003;
        0x4000 := leaf ]} 0 0x1000.

(** The last table holds the entries of the addresses from 2 MiB to 4 MiB. *)
Definition example_pt : pt_state := chain_pt 0 0 1 (replicate 512 0x800).

Lemma sparse_step st a k v i p b :
  tables st !! a = Some (sparse k v) → index_ok i →
  table_at (bf_flag pe_present) (subtable st) (tables st) a (i :: p) = Some b →
  i = Z.of_nat k ∧ table_at (bf_flag pe_present) (subtable st) (tables st) (subtable st v) p = Some b.
Proof.
  intros Ea [Hi0 Hi]. cbn [table_at]. rewrite Ea. cbn [mbind option_bind]. unfold sparse.
  destruct (decide (k = Z.to_nat i)) as [-> | N].
  - rewrite list_lookup_insert_eq by (rewrite length_replicate; lia).
    destruct (bf_flag pe_present v); [| done]. intros H. split; [lia | done].
  - rewrite list_lookup_insert_ne, lookup_replicate_2 by (done || lia). done.
Qed.

Lemma chain_paths i j k leaf path a :
  path_ok path → at_path (chain_pt i j k leaf) path = Some a →
  (path = [] ∧ a = 0x1000) ∨ (path = [Z.of_nat i] ∧ a = 0x2000) ∨
  (path = [Z.of_nat i; Z.of_nat j] ∧ a = 0x3000) ∨
  (path = [Z.of_nat i; Z.of_nat j; Z.of_nat k] ∧ a = 0x4000).
Proof.
  intros [Hl F]. set (st := chain_pt i j k leaf). destruct path as [| x p]; [intros [= <-]; by left |].
  inversion_clear F as [| ? ? Fi Fp]. intros [-> H]%(sparse_step st _ i 0x2003); [| done | done].
  change (subtable st 0x2003) with 0x2000 in H.
  destruct p as [| y p]; [injection H as <-; right; by left |].
  inversion_clear Fp as [| ? ? Fj Fp']. apply (sparse_step st _ j 0x3003) in H as [-> H]; [| done | done].
  change (subtable st 0x3003) with 0x3000 in H.
  destruct p as [| z p]; [injection H as <-; do 2 right; by left |].
  inversion_clear Fp' as [| ? ? Fk Fp]. apply (sparse_step st _ k 0x4003) in H as [-> H]; [| done | done].
  change (subtable st 0x4003) with 0x4000 in H.
  destruct p as [| m p]; [injection H as <-; do 3 right; done |]. simpl in Hl. lia.
Qed.

Lemma sparse_ok k v : is_u 64 v → table_ok (sparse k v).
Proof.
  intros Hv. unfold sparse. split; [by rewrite length_insert, length_replicate |].
  apply Forall_insert; [| done]. apply Forall_replicate. done.
Qed.

Lemma chain_pt_wf i j k leaf : table_ok leaf → pt_wf (chain_pt i j k leaf).
Proof.
  intros Ok. split.
  - intros path a Hp H.
    destruct (chain_paths i j k leaf path a Hp H) as [[_ ->] | [[_ ->] | [[_ ->] | [_ ->]]]].
    1-3: eexists; split; [reflexivity |]; by apply sparse_ok.
    by exists leaf.
  - intros path1 path2 a H1 H2 E1 E2.
    destruct (chain_paths i j k leaf path1 a H1 E1) as [[-> ->] | [[-> ->] | [[-> ->] | [-> ->]]]];
      destruct (chain_paths i j k leaf path2 _ H2 E2) as [[-> ?] | [[-> ?] | [[-> ?] | [-> ?]]]]; done.
Qed.

Lemma replicate_table_ok v : is_u 64 v → table_ok (replicate 512 v).
Proof. intros Hv. split; [apply length_replicate | by apply Forall_replicate]. Qed.

Lemma example_pt_wf : pt_wf example_pt.
Proof. by apply chain_pt_wf, replicate_table_ok. Qed.

Lemma update_pageentr_correct_witness :
  ∃ st', update_pageentr example_pt 0x201000 0x5003 = Ret (true, st') ∧ pt_wf st'.
Proof.
  destruct (update_pageentr_correct example_pt 0x201000 0x5003 example_pt_wf)
    as (o & b & st' & Eo & Eu & W & Eb & _).
  exists st'. split; [| done]. rewrite Eu.
  assert (get_pageentr example_pt 0x201000 = Ret (Some 0x800)) as E by (by vm_compute).
  rewrite E in Eo. injection Eo as <-. by rewrite Eb.
Defined.

Lemma rwmap_correct_witness :
  ∃ st', vmem_page_rwmap example_pt 0x201000 0x12345000 false false = Ret st' ∧
    get_phys_from_virt st' 0x201ABC = Ret 0x12345ABC.
Proof.
  destruct (rwmap_correct example_pt 0x201000 0x12345000 false false 0x800 example_pt_wf)
    as (st' & pe' & E & _ & _ & _ & _ & _ & _ & _ & _ & H & _); [by vm_compute | done |].
  exists st'. split; [done |]. rewrite H; [done | by vm_compute].
Defined.
