(* ===== verification/ArmPageWalk.v ===== *)
(** * The page tables of aarch64

    The aarch64 half of [include/pagetable_impl.h]: a walk that hangs new
    tables into the tree where one is missing, and the small store
    [PageentrAvailablePages] it takes them from. *)

From S2P Require Import Prelude BitField PageEntry PageTree.

(** ** struct PageentrAvailablePages *)

Definition available_max : nat := 8.

Definition no_pages : list (option Z) := replicate available_max None.

(** The inner loop of [NumNeeded] from [j] on: entries move down to [i]. *)
Fixpoint compact (k j i : nat) (c : Z) (p : list (option Z)) : Z * list (option Z) :=
  match k with
  | O => (c, p)
  | S k =>
      match p !!! j with
      | Some value =>
          let p := <[j := None]> p in
          let p := <[i := Some value]> p in
          compact k (S j) (S i) c p
      | None => compact k (S j) i (c + 1) p
      end
  end.

(** The outer loop stops at the first free entry. *)
Fixpoint NumNeeded_loop (k i : nat) (p : list (option Z)) : Z * list (option Z) :=
  match k with
  | O => (0, p)
  | S k =>
      match p !!! i with
      | None => compact (available_max - (i + 1)) (i + 1) i 1 p
      | Some _ => NumNeeded_loop k (S i) p
      end
  end.

Definition NumNeeded (p : list (option Z)) : Z * list (option Z) :=
  NumNeeded_loop available_max 0 p.

Fixpoint Fill_loop (k i : nat) (phys : Z) (p : list (option Z)) : bool * list (option Z) :=
  match k with
  | O => (false, p)
  | S k =>
      match p !!! i with
      | None => (true, <[i := Some phys]> p)
      | Some _ => Fill_loop k (S i) phys p
      end
  end.

Definition Fill (phys : Z) (p : list (option Z)) : bool * list (option Z) :=
  Fill_loop available_max 0 phys p.

Fixpoint Use_loop (k i : nat) (p : list (option Z)) : option Z * list (option Z) :=
  match k with
  | O => (None, p)
  | S k =>
      match p !!! (available_max - i - 1)%nat with
      | Some phys => (Some phys, <[(available_max - i - 1)%nat := None]> p)
      | None => Use_loop k (S i) p
      end
  end.

Definition Use (p : list (option Z)) : option Z * list (option Z) := Use_loop available_max 0 p.

(** init_mapping_pages: eight pages side by side. *)
Fixpoint init_mapping_loop (k : nat) (i paddr : Z) (p : list (option Z)) : list (option Z) :=
  match k with
  | O => p
  | S k => init_mapping_loop k (i + 1) paddr (snd (Fill (u64 (paddr + Z.shiftl i 12)) p))
  end.

Definition init_mapping_pages (paddr : Z) : list (option Z) := init_mapping_loop 8 0 paddr no_pages.

(** ** The walk *)

Record arm_pt := ArmPT {
  a_tables : gmap Z (list Z);
  a_virt_offset : Z;
  a_pages : list (option Z);
}.

Definition arm_subtable (st : arm_pt) (pe : Z) : Z := arm_get_subtable_addr (a_virt_offset st) pe.

(** The entry that links a new table. *)
Definition link_entry (paddr : Z) : Z :=
  let entry := 0 in
  let entry := bf_set arm_ppn (Z.shiftr paddr 12) entry in
  let entry := bf_set arm_table 1 entry in
  bf_set arm_valid 1 entry.

(** The loop over the levels; [None] is the null pointer. *)
Fixpoint arm_walk (indices : list Z) (current_table : Z) (st : arm_pt)
    : outcome (option Z * arm_pt) :=
  match indices with
  | [] => Ret (Some current_table, st)
  | i :: indices =>
      match a_tables st !! current_table with
      | None => OutOfBounds
      | Some l =>
          entry ← rd l i;
          if bf_flag arm_valid entry then arm_walk indices (arm_subtable st entry) st
          else
            match Use (a_pages st) with
            | (None, pages) => Ret (None, ArmPT (a_tables st) (a_virt_offset st) pages)
            | (Some paddr, pages) =>
                l ← wr l i (link_entry paddr);
                let st := ArmPT (<[current_table := l]> (a_tables st)) (a_virt_offset st) pages in
                arm_walk indices (arm_subtable st (link_entry paddr)) st
            end
      end
  end.

Definition arm_get_pageentr64 (root vaddr : Z) (st : arm_pt) : outcome (option (Z * Z) * arm_pt) :=
  let indices := [Z.land (Z.shiftr vaddr 39) 0x1FF; Z.land (Z.shiftr vaddr 30) 0x1FF;
                  Z.land (Z.shiftr vaddr 21) 0x1FF] in
  '(t, st) ← arm_walk indices root st;
  match t with
  | Some t => Ret (Some (t, Z.land (Z.shiftr vaddr 12) 0x1FF), st)
  | None => Ret (None, st)
  end.

(** ** The store of pages *)

(** The pages in store. *)
Fixpoint available (p : list (option Z)) : list Z :=
  match p with
  | [] => []
  | Some x :: p => x :: available p
  | None :: p => available p
  end.

Definition free_slots (p : list (option Z)) : nat := length p - length (available p).

Lemma available_app p q : available (p ++ q) = available p ++ available q.
Proof. induction p as [| [x |] p IH]; simpl; [done | by rewrite IH | done]. Qed.

Lemma available_somes xs : available (Some <$> xs) = xs.
Proof. induction xs as [| x xs IH]; simpl; [done | by f_equal]. Qed.

Lemma available_nones n : available (replicate n None) = [].
Proof. by induction n. Qed.

Lemma available_le p : (length (available p) ≤ length p)%nat.
Proof.
  induction p as [| [x |] p IH]; simpl; lia.
Qed.

(** Taking the entry in the middle of a list. *)
Lemma middle_lookup {A} `{Inhabited A} (l1 l2 : list A) x i :
  length l1 = i → (l1 ++ x :: l2) !!! i = x.
Proof. intros <-. by rewrite list_lookup_total_middle. Qed.

Lemma middle_insert {A} (l1 l2 : list A) x y i :
  length l1 = i → <[i := y]> (l1 ++ x :: l2) = l1 ++ y :: l2.
Proof. intros <-. rewrite insert_app_r_alt, Nat.sub_diag by lia. done. Qed.

Lemma compact_spec k xs m rest c :
  (0 < m)%nat → length rest = k →
  compact k (length xs + m) (length xs) c ((Some <$> xs) ++ replicate m None ++ rest) =
    (c + Z.of_nat (length rest - length (available rest)),
     (Some <$> xs ++ available rest) ++ replicate (m + (length rest - length (available rest))) None).
Proof.
  revert xs m rest c. induction k as [| k IH]; intros xs m rest c Hm Hr.
  { destruct rest; [| done]. simpl. rewrite !app_nil_r, Z.add_0_r, Nat.add_0_r. done. }
  destruct rest as [| o rest]; [done |]. injection Hr as Hr. cbn [compact].
  pose proof (available_le rest) as Hle.
  rewrite app_assoc, middle_lookup by (by rewrite length_app, length_fmap, length_replicate).
  destruct o as [x |].
  - rewrite middle_insert by (by rewrite length_app, length_fmap, length_replicate).
    destruct m as [| m]; [lia |]. simpl replicate at 1.
    rewrite <- app_assoc. simpl app at 2.
    rewrite middle_insert by (by rewrite length_fmap).
    specialize (IH (xs ++ [x]) (S m) rest c ltac:(lia) Hr).
    rewrite length_app in IH. simpl length in IH.
    replace (S (length xs + S m)) with (length xs + 1 + S m)%nat by lia.
    replace (S (length xs)) with (length xs + 1)%nat by lia.
    rewrite fmap_app in IH. rewrite <- !app_assoc in IH.
    replace ((Some <$> [x]) ++ replicate (S m) None ++ rest)
      with (Some x :: replicate m None ++ None :: rest) in IH.
    2:{ by rewrite replicate_S_end, <- app_assoc. }
    exact IH.
  - rewrite <- app_assoc.
    replace (replicate m None ++ None :: rest) with (replicate (S m) None ++ rest).
    2:{ by rewrite replicate_S_end, <- app_assoc. }
    replace (S (length xs + m)) with (length xs + S m)%nat by lia.
    rewrite IH by (done || lia). cbn [length available].
    rewrite (Nat.sub_succ_l _ _ Hle). f_equal; [lia |]. by rewrite <- Nat.add_succ_comm.
Qed.

(** The first entries up to a free one. *)
Lemma somes_or_none (p : list (option Z)) :
  (∃ xs rest, p = (Some <$> xs : list (option Z)) ++ None :: rest) ∨ (∃ xs : list Z, p = Some <$> xs).
Proof.
  induction p as [| [x |] p IH].
  - right. by exists [].
  - destruct IH as [(xs & rest & ->) | (xs & ->)]; [left | right].
    + by exists (x :: xs), rest.
    + by exists (x :: xs).
  - left. by exists [], p.
Qed.

Lemma NumNeeded_loop_somes k (xs : list Z) q i :
  length q = k → length xs = i → (∃ ys, q = Some <$> ys) →
  NumNeeded_loop k i ((Some <$> xs) ++ q) = (0, (Some <$> xs) ++ q).
Proof.
  revert xs q i. induction k as [| k IH]; intros xs q i Hq <- [ys ->]; [done |].
  destruct ys as [| y ys]; [done |]. injection Hq as Hq. simpl.
  rewrite middle_lookup by (by rewrite length_fmap).
  specialize (IH (xs ++ [y]) (Some <$> ys) (S (length xs))).
  rewrite fmap_app, <- app_assoc in IH. apply IH; [done | rewrite length_app; simpl; lia | by exists ys].
Qed.

Lemma NumNeeded_loop_none k (xs ys : list Z) rest i :
  length xs = i → (length ys < k)%nat → (length (xs ++ ys) + 1 + length rest = available_max)%nat →
  NumNeeded_loop k i ((Some <$> xs) ++ (Some <$> ys) ++ None :: rest) =
    compact (length rest) (length (xs ++ ys) + 1) (length (xs ++ ys)) 1
      ((Some <$> xs ++ ys) ++ [None] ++ rest).
Proof.
  revert xs ys i. induction k as [| k IH]; intros xs ys i <- Hk Hl; [lia |].
  destruct ys as [| y ys]; simpl.
  - rewrite app_nil_r in *. rewrite middle_lookup by (by rewrite length_fmap).
    f_equal. lia.
  - rewrite middle_lookup by (by rewrite length_fmap).
    specialize (IH (xs ++ [y]) ys (S (length xs))).
    rewrite fmap_app, <- !app_assoc in IH. apply IH; [rewrite length_app; simpl; lia | simpl in Hk; lia | done].
Qed.

Lemma NumNeeded_spec p :
  length p = available_max →
  NumNeeded p = (Z.of_nat (free_slots p),
    (Some <$> available p) ++ replicate (free_slots p) None).
Proof.
  intros Hl. unfold NumNeeded, free_slots.
  destruct (somes_or_none p) as [(xs & rest & ->) | (xs & ->)].
  - pose proof (NumNeeded_loop_none available_max [] xs rest 0 eq_refl) as E. simpl app in E.
    rewrite length_app, length_fmap in Hl. simpl in Hl. rewrite E by lia.
    etransitivity; [apply (compact_spec (length rest) xs 1 rest 1); (lia || done) |].
    pose proof (available_le rest).
    rewrite available_app, available_somes, !length_app, length_fmap. cbn [length available].
    replace (length xs + S (length rest) - (length xs + length (available rest)))%nat
      with (1 + (length rest - length (available rest)))%nat by lia.
    f_equal. lia.
  - pose proof (NumNeeded_loop_somes available_max [] (Some <$> xs) 0 Hl eq_refl) as E.
    simpl app in E. rewrite E by (by exists xs).
    rewrite available_somes, length_fmap, Nat.sub_diag. simpl. by rewrite app_nil_r.
Qed.

Lemma Fill_loop_spec k i x pre q :
  length pre = i → length q = k →
  match Fill_loop k i x (pre ++ q) with
  | (true, p') => ∃ q1 q2, q = q1 ++ None :: q2 ∧ p' = pre ++ q1 ++ Some x :: q2
  | (false, p') => p' = pre ++ q ∧ free_slots q = 0%nat
  end.
Proof.
  revert i pre q. induction k as [| k IH]; intros i pre q <- Hq; simpl; [by destruct q |].
  destruct q as [| o q]; [done |]. rewrite middle_lookup by done. destruct o as [y |].
  - specialize (IH (S (length pre)) (pre ++ [Some y]) q). rewrite <- app_assoc in IH. simpl app in IH.
    injection Hq as Hq. specialize (IH ltac:(rewrite length_app; simpl; lia) Hq).
    destruct (Fill_loop k (S (length pre)) x (pre ++ Some y :: q)) as [[] p'].
    + destruct IH as (q1 & q2 & -> & ->). exists (Some y :: q1), q2. by rewrite <- app_assoc.
    + destruct IH as [-> H]. split; [done |]. unfold free_slots in *. simpl. done.
  - exists [], q. by rewrite middle_insert.
Qed.

Lemma Use_loop_spec k i q n :
  length q = k → (i + k = available_max)%nat →
  match Use_loop k i (q ++ replicate n None) with
  | (Some x, p') => ∃ q1 q2, q = q1 ++ Some x :: q2 ∧ available q2 = [] ∧
      p' = q1 ++ None :: q2 ++ replicate n None
  | (None, p') => p' = q ++ replicate n None ∧ available q = []
  end.
Proof.
  revert i q n. induction k as [| k IH]; intros i q n Hq Hi; simpl; [by destruct q |].
  destruct q as [| o q] using rev_ind; [done |]. clear IHq.
  rewrite length_app in Hq. simpl in Hq.
  rewrite <- app_assoc. simpl app. rewrite middle_lookup by lia. destruct o as [x |].
  - exists q, []. by rewrite middle_insert by lia.
  - specialize (IH (S i) q (S n) ltac:(lia) ltac:(lia)). simpl replicate in IH.
    destruct (Use_loop k (S i) (q ++ None :: replicate n None)) as [[x |] p'].
    + destruct IH as (q1 & q2 & -> & A & ->). exists q1, (q2 ++ [None]).
      rewrite available_app, A, <- !app_assoc. done.
    + destruct IH as [-> A]. rewrite available_app, A. done.
Qed.

Lemma Use_spec p :
  length p = available_max →
  match Use p with
  | (Some x, p') => ∃ q1 q2, p = q1 ++ Some x :: q2 ∧ available q2 = [] ∧ p' = q1 ++ None :: q2
  | (None, p') => p' = p ∧ available p = []
  end.
Proof.
  intros Hl. pose proof (Use_loop_spec available_max 0 p 0 Hl eq_refl) as H.
  simpl replicate in H. rewrite app_nil_r in H. unfold Use.
  destruct (Use_loop available_max 0 p) as [[x |] p']; [| done].
  destruct H as (q1 & q2 & -> & A & ->). exists q1, q2. by rewrite app_nil_r.
Qed.

Lemma Use_available p x p' :
  length p = available_max → Use p = (Some x, p') →
  available p = available p' ++ [x] ∧ length p' = available_max.
Proof.
  intros Hl E. pose proof (Use_spec p Hl) as U. rewrite E in U.
  destruct U as (q1 & q2 & -> & A & ->). rewrite !available_app. simpl. rewrite A, app_nil_r.
  rewrite !length_app in *. done.
Qed.

(** the store of pages for new tables.  [NumNeeded] returns the number of
    free slots and closes the gaps, in order; [Fill] adds the page unless the
    store is full; [Use] takes a page unless the store is empty. *)
Theorem available_pages_correct (p : list (option Z)) (phys : Z) :
  length p = available_max →
  NumNeeded p = (Z.of_nat (free_slots p),
    (Some <$> available p) ++ replicate (free_slots p) None) ∧
  (let '(ok, p') := Fill phys p in
   length p' = available_max ∧
   if ok then available p' ≡ₚ phys :: available p else p' = p ∧ free_slots p = 0%nat) ∧
  (let '(o, p') := Use p in
   length p' = available_max ∧
   match o with Some x => available p ≡ₚ x :: available p' | None => p' = p ∧ available p = [] end).
Proof.
  intros Hl. split; [by apply NumNeeded_spec |]. split.
  - pose proof (Fill_loop_spec available_max 0 phys [] p eq_refl Hl) as F. unfold Fill.
    simpl app in F. destruct (Fill_loop available_max 0 phys p) as [[] p'].
    + destruct F as (q1 & q2 & -> & ->). rewrite !length_app in *. split; [done |].
      rewrite !available_app. simpl. by rewrite <- Permutation_middle.
    + by destruct F as [-> F].
  - pose proof (Use_spec p Hl) as U. destruct (Use p) as [[x |] p'].
    + destruct U as (q1 & q2 & -> & A & ->). rewrite !length_app in *. split; [done |].
      rewrite !available_app. simpl. by rewrite <- Permutation_middle.
    + by destruct U as [-> U].
Qed.

Lemma available_pages_correct_witness :
  NumNeeded [None; Some 1; None; Some 2; None; None; Some 3; None] =
    (5, [Some 1; Some 2; Some 3; None; None; None; None; None]) ∧
  Use (init_mapping_pages 0x10000) = (Some 0x17000, snd (Use (init_mapping_pages 0x10000))).
Proof.
  destruct (available_pages_correct [None; Some 1; None; Some 2; None; None; Some 3; None] 0 eq_refl) as [E _].
  by rewrite E.
Defined.

(** ** The walk extends the tree *)

Abbreviation arm_path st root := (table_at (bf_flag arm_valid) (arm_subtable st) (a_tables st) root).

(** The table behind a page in store: cleared, and no part of the tree. *)
Definition stored_ok (st : arm_pt) (root p : Z) : Prop :=
  is_u 48 p ∧ p mod 4096 = 0 ∧ p + a_virt_offset st < 2 ^ 64 ∧
  a_tables st !! (p + a_virt_offset st) = Some (replicate 512 0) ∧
  ∀ q, path_ok q → arm_path st root q ≠ Some (p + a_virt_offset st).

Record arm_wf (st : arm_pt) (root : Z) : Prop := {
  aw_tree : tree_wf (bf_flag arm_valid) (arm_subtable st) (a_tables st) root;
  aw_offset : 0 ≤ a_virt_offset st;
  aw_pages : length (a_pages st) = available_max;
  aw_distinct : NoDup (available (a_pages st));
  aw_stored : Forall (stored_ok st root) (available (a_pages st));
}.

(** The entry of a page. *)
Definition arm_entry (st : arm_pt) (root addr : Z) : option Z :=
  a ← arm_path st root (vpath addr); a_tables st !! a ≫= (.!! Z.to_nat (vindex 12 addr)).

Lemma link_entry_spec off p :
  is_u 48 p → p mod 4096 = 0 → 0 ≤ off → p + off < 2 ^ 64 →
  is_u 64 (link_entry p) ∧ bf_flag arm_valid (link_entry p) = true ∧
  arm_get_subtable_addr off (link_entry p) = p + off.
Proof.
  intros [Hp0 Hp] Hal Hoff Ho. split_and!.
  - unfold link_entry. assert (∀ v, is_u 64 v → 0 ≤ v) as Hpos by (unfold is_u; lia).
    repeat (apply set_is_u; apply Hpos). done.
  - unfold bf_flag, link_entry. by fields.
  - unfold arm_get_subtable_addr, link_entry. fields. cbn [bf_bits arm_ppn].
    rewrite Z.shiftr_div_pow2 by lia. change (2 ^ 12) with 4096.
    pose proof (Z.div_mod p 4096). pose proof (Z.div_pos p 4096).
    assert (p / 4096 < 2 ^ 36) by (apply Z.div_lt_upper_bound; lia).
    rewrite (wrap_id 36), (wrap_id 64 (_ * 4096)), wrap_id by (unfold is_u; lia). lia.
Qed.

(** What a walk preserves: the entries that were there, with new ones clear. *)
Definition extends (st st' : arm_pt) (root : Z) : Prop :=
  (∀ addr e, arm_entry st root addr = Some e → arm_entry st' root addr = Some e) ∧
  (∀ addr, arm_entry st root addr = None →
    arm_entry st' root addr = None ∨ arm_entry st' root addr = Some 0).

Lemma extends_refl st root : extends st st root.
Proof. split; [done |]. intros. by left. Qed.

Lemma extends_trans st1 st2 st3 root :
  extends st1 st2 root → extends st2 st3 root → extends st1 st3 root.
Proof.
  intros [A1 B1] [A2 B2]. split; [auto |]. intros addr H.
  destruct (B1 addr H) as [H2 | H2]; [by apply B2 | right; by apply A2].
Qed.

(** One new table, for the missing entry [i] of the table at path [P]. *)
Section Graft.
Context (st : arm_pt) (root : Z) (P : list Z) (a : Z) (l : list Z) (i p : Z) (pages : list (option Z)).
Hypotheses (W : arm_wf st root) (HP : path_ok P) (HP2 : (length P ≤ 2)%nat)
  (Ha : arm_path st root P = Some a) (El : a_tables st !! a = Some l) (Hi : index_ok i)
  (Habs : arm_path st root (P ++ [i]) = None) (Huse : Use (a_pages st) = (Some p, pages)).

Definition grafted : arm_pt :=
  ArmPT (<[a := <[Z.to_nat i := link_entry p]> l]> (a_tables st)) (a_virt_offset st) pages.

Lemma grafted_pages :
  available (a_pages st) = available pages ++ [p] ∧ length pages = available_max ∧
  p ∉ available pages ∧ NoDup (available pages) ∧
  Forall (stored_ok st root) (available pages) ∧ stored_ok st root p.
Proof.
  destruct W as [_ _ Hlen Hdis Hst]. destruct (Use_available _ _ _ Hlen Huse) as [Eav Hlen'].
  rewrite Eav in Hdis, Hst. apply NoDup_app in Hdis as (N1 & N2 & _).
  apply Forall_app in Hst as [F1 Fp]. rewrite Forall_singleton in Fp.
  split; [done |]. split; [done |]. split; [| exact (conj N1 (conj F1 Fp))].
  intros Hx. by apply (N2 p Hx), list_elem_of_singleton.
Qed.

Lemma zero_table_ok :
  table_ok (replicate 512 0) ∧ Forall (fun x => bf_flag arm_valid x = false) (replicate 512 0).
Proof. split; [split; [apply length_replicate |] |]; by apply Forall_replicate. Qed.

Lemma grafted_paths q :
  path_ok q →
  arm_path grafted root q = if decide (q = P ++ [i]) then Some (p + a_virt_offset st) else arm_path st root q.
Proof.
  destruct grafted_pages as (_ & _ & _ & _ & _ & Hp & Hal & Ho & Et & Hfr).
  destruct (link_entry_spec (a_virt_offset st) p Hp Hal (aw_offset _ _ W) Ho) as (L1 & L2 & L3).
  apply (graft_paths _ _ (a_tables st) root P a l i (link_entry p) _ (replicate 512 0)); try apply W;
    try apply zero_table_ok; done.
Qed.

Lemma grafted_tree : tree_wf (bf_flag arm_valid) (arm_subtable grafted) (a_tables grafted) root.
Proof.
  destruct grafted_pages as (_ & _ & _ & _ & _ & Hp & Hal & Ho & Et & Hfr).
  destruct (link_entry_spec (a_virt_offset st) p Hp Hal (aw_offset _ _ W) Ho) as (L1 & L2 & L3).
  apply (graft_wf _ _ (a_tables st) root P a l i (link_entry p) (p + a_virt_offset st) (replicate 512 0));
    try apply W; try apply zero_table_ok; done.
Qed.

(** Tables outside the tree stay as they are. *)
Lemma grafted_keep b :
  (∀ q, path_ok q → arm_path st root q ≠ Some b) → a_tables grafted !! b = a_tables st !! b.
Proof. intros Hb. simpl. rewrite lookup_insert_ne; [done |]. intros <-. by apply (Hb P HP). Qed.

(** So do the lowest tables. *)
Lemma grafted_leaf addr b :
  arm_path st root (vpath addr) = Some b → a_tables grafted !! b = a_tables st !! b.
Proof.
  intros Hb. simpl. rewrite lookup_insert_ne; [done |]. intros <-.
  pose proof (tw_tree _ _ _ _ (aw_tree _ _ W) P (vpath addr) a HP (vpath_ok addr) Ha Hb) as E.
  apply (f_equal length) in E. simpl in E. lia.
Qed.

Lemma grafted_wf : arm_wf grafted root.
Proof.
  destruct grafted_pages as (_ & Hlen & Hnew & Hnd & Hst & _).
  split; [apply grafted_tree | apply W | done | done |].
  apply Forall_forall. intros x Hx. rewrite Forall_forall in Hst.
  destruct (Hst x Hx) as (X1 & X2 & X3 & X4 & X5). split_and!; try done.
  - change (a_virt_offset grafted) with (a_virt_offset st). by rewrite grafted_keep.
  - intros q Hq. rewrite grafted_paths by done. destruct (decide _); [| by apply X5].
    intros [= E]. change (a_virt_offset grafted) with (a_virt_offset st) in E.
    assert (x = p) as -> by lia. by destruct Hnew.
Qed.

Lemma grafted_extends : extends st grafted root.
Proof.
  destruct grafted_pages as (_ & _ & _ & _ & _ & _ & _ & _ & Et & Hfr).
  split; intros addr; unfold arm_entry; rewrite grafted_paths by apply vpath_ok.
  - intros e. destruct (decide _) as [E |]; [by rewrite E, Habs |].
    destruct (arm_path st root (vpath addr)) as [b |] eqn:Hb; [| done].
    cbn [mbind option_bind]. by rewrite (grafted_leaf addr b Hb).
  - destruct (decide _) as [E |].
    + intros _. right. cbn [mbind option_bind]. rewrite grafted_keep, Et by done.
      cbn [mbind option_bind]. pose proof (vindex_ok 12 addr) as [? ?]. apply lookup_replicate_2. lia.
    + intros H. left. destruct (arm_path st root (vpath addr)) as [b |] eqn:Hb; [| done].
      cbn [mbind option_bind] in *. by rewrite (grafted_leaf addr b Hb).
Qed.

Lemma grafted_new : arm_path grafted root (P ++ [i]) = Some (arm_subtable grafted (link_entry p)).
Proof.
  destruct grafted_pages as (_ & _ & _ & _ & _ & Hp & Hal & Ho & _ & _).
  destruct (link_entry_spec (a_virt_offset st) p Hp Hal (aw_offset _ _ W) Ho) as (_ & _ & L3).
  rewrite grafted_paths by (by apply path_ok_snoc). rewrite decide_True by done. f_equal. by symmetry.
Qed.

End Graft.

(** The walk below path [P]: with a page for every level that may be missing
    it ends at the lowest table, otherwise it may stop with no table. *)
Lemma arm_walk_spec st root P t ids :
  arm_wf st root → path_ok (P ++ ids) → (length (P ++ ids) ≤ 3)%nat → arm_path st root P = Some t →
  ∃ o st', arm_walk ids t st = Ret (o, st') ∧ arm_wf st' root ∧ extends st st' root ∧
    (∀ t', o = Some t' → arm_path st' root (P ++ ids) = Some t') ∧
    ((length ids ≤ length (available (a_pages st)))%nat → is_Some o).
Proof.
  revert st P t. induction ids as [| i ids IH]; intros st P t W Hp Hl Ht.
  { exists (Some t), st. rewrite app_nil_r. split_and!; try done; [apply extends_refl | by intros ? [= <-]]. }
  pose proof (path_ok_prefix P (i :: ids) Hp) as HP. rewrite length_app in Hl. simpl in Hl.
  assert (index_ok i) as Hi by (destruct Hp as [_ F]; apply Forall_app in F as [_ F]; by inversion_clear F).
  destruct (tree_entry _ _ _ _ P t i (aw_tree _ _ W) HP Ht Hi) as (l & v & El & [Len _] & Hrd & Hv & U).
  pose proof (table_at_snoc _ _ _ _ P i t Ht) as Es. rewrite El in Es. cbn [mbind option_bind] in Es.
  rewrite Hv in Es. cbn [arm_walk]. rewrite El, Hrd. cbn [mbind outcome_bind].
  assert (P ++ i :: ids = (P ++ [i]) ++ ids) as Eapp by (by rewrite <- app_assoc).
  destruct (bf_flag arm_valid v) eqn:Hval.
  { destruct (IH st (P ++ [i]) (arm_subtable st v) W) as (o & st' & E & W' & X & R & Sm);
      [by rewrite <- Eapp | rewrite <- Eapp, length_app; simpl; lia | done |].
    exists o, st'. rewrite Eapp. split_and!; try done. intros. apply Sm. simpl in *. lia. }
  destruct (Use (a_pages st)) as [[p |] pages] eqn:Huse.
  - rewrite wr_lt by (destruct Hi; lia). cbn [mbind outcome_bind].
    change (ArmPT _ _ _) with (grafted st t l i p pages).
    pose proof (grafted_pages st root p pages W Huse) as (Eav & _).
    destruct (IH (grafted st t l i p pages) (P ++ [i]) (arm_subtable (grafted st t l i p pages) (link_entry p)))
      as (o & st' & E & W' & X & R & Sm).
    + apply (grafted_wf st root P); try done. lia.
    + by rewrite <- Eapp.
    + rewrite <- Eapp, length_app. simpl. lia.
    + apply (grafted_new st root P); try done. lia.
    + exists o, st'. rewrite Eapp. split_and!; try done.
      * eapply extends_trans; [| exact X]. apply (grafted_extends st root P); try done. lia.
      * intros Hn. apply Sm. rewrite Eav, length_app in Hn. simpl in *. lia.
  - pose proof (Use_spec (a_pages st) (aw_pages _ _ W)) as Us. rewrite Huse in Us. destruct Us as [-> Hno].
    exists None, st. split; [by destruct st |]. split; [done |]. split; [apply extends_refl |].
    split; [done |]. rewrite Hno. simpl. lia.
Qed.

(** the walk of aarch64 returns a reference into the tree of tables: the
    lowest table on the path of the address, which it completes where tables
    are missing.  No entry that was there changes, entries that come into
    being are clear, the tree stays a tree, and the null pointer ids returned
    only when the store held fewer than three pages. *)
Theorem arm_get_pageentr64_correct (st : arm_pt) (root vaddr : Z) :
  arm_wf st root →
  ∃ o st', arm_get_pageentr64 root vaddr st = Ret (o, st') ∧ arm_wf st' root ∧
    (∀ addr e, arm_entry st root addr = Some e → arm_entry st' root addr = Some e) ∧
    (∀ addr, arm_entry st root addr = None →
      arm_entry st' root addr = None ∨ arm_entry st' root addr = Some 0) ∧
    match o with
    | Some (t, i) => arm_path st' root (vpath vaddr) = Some t ∧ i = vindex 12 vaddr
    | None => (length (available (a_pages st)) < 3)%nat
    end.
Proof.
  intros W. unfold arm_get_pageentr64. change 0x1FF with 511.
  change (Z.land (Z.shiftr vaddr ?k) 511) with (vindex k vaddr). change [_; _; _] with (vpath vaddr).
  destruct (arm_walk_spec st root [] root (vpath vaddr) W) as (o & st' & E & W' & [X1 X2] & R & Sm);
    [apply vpath_ok | simpl; lia | done |].
  rewrite E. cbn [mbind outcome_bind]. destruct o as [t |].
  - eexists _, st'. split; [done |]. split_and!; try done. by apply R.
  - eexists _, st'. split; [done |]. split_and!; try done.
    destruct (decide (length (available (a_pages st)) < 3)%nat); [done |].
    destruct (Sm ltac:(simpl; lia)). done.
Qed.

(** *** A root table and a full store *)

Definition example_store : list (option Z) :=
  [Some 0x10000; Some 0x11000; Some 0x12000; None; None; None; None; None].

Definition example_arm : arm_pt :=
  ArmPT {[ 0x1000 := replicate 512 0; 0x10000 := replicate 512 0; 0x11000 := replicate 512 0;
           0x12000 := replicate 512 0 ]} 0 example_store.

Lemma example_arm_path q : path_ok q → arm_path example_arm 0x1000 q = match q with [] => Some 0x1000 | _ => None end.
Proof.
  intros [_ F]. destruct q as [| i q]; [done |]. inversion_clear F as [| ? ? [Hi0 Hi] _]. cbn [table_at].
  change (a_tables example_arm !! 0x1000) with (Some (replicate 512 0)). cbn [mbind option_bind].
  by rewrite lookup_replicate_2 by lia.
Qed.

Lemma example_arm_wf : arm_wf example_arm 0x1000.
Proof.
  split; [split | done | done | by apply (bool_decide_unpack _) |].
  - intros q b Hq. rewrite example_arm_path by done. destruct q; [| done]. intros [= <-].
    exists (replicate 512 0). split; [done | apply zero_table_ok].
  - intros q1 q2 b H1 H2. rewrite !example_arm_path by done. by destruct q1, q2.
  - change (available (a_pages example_arm)) with [0x10000; 0x11000; 0x12000].
    apply Forall_forall. intros x Hx. rewrite !elem_of_cons in Hx.
    assert (∀ q, path_ok q → x ≠ 0x1000 → arm_path example_arm 0x1000 q ≠ Some (x + 0)) as N.
    { intros q Hq Hne. rewrite example_arm_path by done. destruct q; congruence || (intros [= E]; lia). }
    destruct Hx as [-> | [-> | [-> | []%elem_of_nil]]];
      (split; [done |]; split; [done |]; split; [done |]; split; [reflexivity |];
       intros q Hq; by apply N).
Qed.

Lemma arm_get_pageentr64_correct_witness :
  ∃ t st', arm_get_pageentr64 0x1000 0x40201000 example_arm = Ret (Some (t, 1), st') ∧
    arm_wf st' 0x1000 ∧ arm_path st' 0x1000 [0; 1; 1] = Some t.
Proof.
  destruct (arm_get_pageentr64_correct example_arm 0x1000 0x40201000 example_arm_wf)
    as (o & st' & E & W & _ & _ & H).
  destruct o as [[t i] |]; [| vm_compute in H; lia]. destruct H as [H ->]. by exists t, st'.
Defined.
