(* ===== verification/VPageAlloc.v ===== *)
(** * Allocation of virtual pages on x86-64

    [vpagealloc], [vpagealloc32], [vpagefree] and [vpagesize] of
    [kernel/pagealloc.cpp]: the allocator keeps its state in two bits of the
    page table entries, [os_virt_avail] and [os_virt_start]. *)

From S2P Require Import Prelude PhysPageMap PPageAlloc BitField PageEntry PageTree PageWalk.

Definition USERSPACE_LOW_END : Z := 3.
Definition PMLT4_USERSPACE_HIGH_START : Z := 0x10.
Definition PMLT4_USERSPACE_HIGH_END : Z := 0x7F.
Definition KERNEL_MEMORY_OFFSET : Z := USERSPACE_LOW_END * 1024 * 1024 * 1024.

(** The page tables and the counter [allocated_vpages]. *)
Record vp_state := VPS {
  vp_pt : pt_state;
  allocated_vpages : Z;
}.

(** A table of the tree, by its address. *)
Definition get_table (st : pt_state) (a : Z) : outcome (list Z) :=
  match tables st !! a with Some l => Ret l | None => OutOfBounds end.

(** sizeof(pagetable) / sizeof(pageentr) *)
Definition pt_entries : nat := 512.

(** How a loop of the search ends: with a block, or with [count] pages in a
    row and the address of the first of them. *)
Inductive scan_result :=
  | Found (starting_addr ending_addr : Z)
  | Continue (count starting_addr : Z).

Section Search.
(** [starting_addr] is declared without an initial value inside the loop; in
    a round that does not assign it, it has the value [uninit x], where [x] is
    what the variable held in the round before. *)
Variable uninit : Z → Z.

(** The address of a page, from its indices. *)
Definition page_addr (i j k l : Z) : Z :=
  let ending_addr := Z.shiftl i 9 in
  let ending_addr := Z.lor ending_addr j in
  let ending_addr := u64 (Z.shiftl ending_addr 9) in
  let ending_addr := Z.lor ending_addr k in
  let ending_addr := u64 (Z.shiftl ending_addr 9) in
  let ending_addr := Z.lor ending_addr l in
  u64 (Z.shiftl ending_addr 12).

Variables (st : pt_state) (size : Z).

(** The loop over the entries of a lowest table; [n] rounds are left. *)
Fixpoint scan_pt (n : nat) (i j k l : Z) (pt : list Z) (count starting_addr : Z)
    : outcome scan_result :=
  match n with
  | O => Ret (Continue count starting_addr)
  | S n =>
      pe ← rd pt l;
      if bf_flag pe_os_virt_avail pe then
        let ending_addr := page_addr i j k l in
        let starting_addr := if count =? 0 then ending_addr else uninit starting_addr in
        let ending_addr := u64 (ending_addr + 4096) in
        let count := u64 (count + 1) in
        if count =? size then Ret (Found starting_addr ending_addr)
        else scan_pt n i j k (l + 1) pt count starting_addr
      else scan_pt n i j k (l + 1) pt 0 starting_addr
  end.

(** The loop over the entries of a higher table: [inner] searches below an
    entry that is present, an entry that is not breaks the row of pages. *)
Fixpoint scan_level (inner : Z → Z → Z → Z → outcome scan_result)
    (n : nat) (x : Z) (table : list Z) (count starting_addr : Z) : outcome scan_result :=
  match n with
  | O => Ret (Continue count starting_addr)
  | S n =>
      pe ← rd table x;
      if bf_flag pe_present pe then
        r ← inner x pe count starting_addr;
        match r with
        | Found s e => Ret (Found s e)
        | Continue count starting_addr => scan_level inner n (x + 1) table count starting_addr
        end
      else scan_level inner n (x + 1) table 0 starting_addr
  end.

Definition scan_pdt (i j : Z) : nat → Z → list Z → Z → Z → outcome scan_result :=
  scan_level (fun k pe count starting_addr =>
    pt ← get_table st (subtable st pe);
    scan_pt pt_entries i j k 0 pt count starting_addr).

Definition scan_pdpt (i : Z) : nat → Z → list Z → Z → Z → outcome scan_result :=
  scan_level (fun j pe count starting_addr =>
    pdt ← get_table st (subtable st pe);
    let k := if negb (i =? 0) || negb (j =? USERSPACE_LOW_END) then 0 else 1 in
    scan_pdt i j (Z.to_nat (512 - k)) k pdt count starting_addr).

Definition scan_pml4t : nat → Z → list Z → Z → Z → outcome scan_result :=
  scan_level (fun i pe count starting_addr =>
    pdpt ← get_table st (subtable st pe);
    let j := if negb (i =? 0) then 0
             else let j := USERSPACE_LOW_END in if j <? 4 then 4 else j in
    scan_pdpt i (Z.to_nat (512 - j)) j pdpt count starting_addr).

End Search.

(** ** Taking the pages *)

(** The entry of a page that is taken. *)
Definition grab_entry (first : bool) (pe : Z) : Z :=
  let pe := bf_set pe_os_virt_avail 0 pe in
  let pe := if first then bf_set pe_os_virt_start 1 pe else pe in
  bf_set pe_present 0 pe.

Fixpoint grab_vpages (fuel : nat) (addr starting_addr ending_addr : Z) (st : pt_state)
    : outcome pt_state :=
  match fuel with
  | O => OutOfFuel
  | S fuel =>
      if addr <? ending_addr then
        pe ← get_pageentr64 st (get_pml4t st) addr;
        match pe with
        | None => OutOfBounds
        | Some r =>
            v ← read_pe st r;
            st ← write_pe st r (grab_entry (addr =? starting_addr) v);
            grab_vpages fuel (u64 (addr + 4096)) starting_addr ending_addr st
        end
      else Ret st
  end.

Definition take_block (size starting_addr ending_addr : Z) (vs : vp_state)
    : outcome (Z * vp_state) :=
  st ← grab_vpages (S (Z.to_nat ((ending_addr - starting_addr) / 4096))) starting_addr
         starting_addr ending_addr (vp_pt vs);
  Ret (starting_addr, VPS st (allocated_vpages vs + size)).

Definition vpagealloc32 (uninit : Z → Z) (size : Z) (vs : vp_state) : outcome (Z * vp_state) :=
  let size := size_to_pages 64 size in
  let st := vp_pt vs in
  let i := 0 in
  pml4t ← get_table st (get_pml4t st);
  pe ← rd pml4t i;
  if bf_flag pe_present pe then
    pdpt ← get_table st (subtable st pe);
    let j := USERSPACE_LOW_END in
    r ← scan_pdpt uninit st size i (Z.to_nat (4 - j)) j pdpt 0 0;
    match r with
    | Found s e => take_block size s e vs
    | Continue _ _ => Ret (0, vs)
    end
  else Ret (0, vs).

Definition vpagealloc (uninit : Z → Z) (vsize : Z) (vs : vp_state) : outcome (Z * vp_state) :=
  let size := size_to_pages 64 vsize in
  let st := vp_pt vs in
  pml4t ← get_table st (get_pml4t st);
  r ← scan_pml4t uninit st size (Z.to_nat PMLT4_USERSPACE_HIGH_START) 0 pml4t 0 0;
  match r with
  | Found s e => take_block size s e vs
  | Continue _ _ => vpagealloc32 uninit vsize vs
  end.

(** ** Giving pages back *)

(** The reference to the entry of page number [vpn], level by level. *)
Definition vpn_entry (st : pt_state) (vpn : Z) : outcome (option pe_ref) :=
  let paddr := vpn in
  let l := Z.land paddr 511 in
  let paddr := Z.shiftr paddr 9 in
  let k := Z.land paddr 511 in
  let paddr := Z.shiftr paddr 9 in
  let j := Z.land paddr 511 in
  let paddr := Z.shiftr paddr 9 in
  let i := Z.land paddr 511 in
  pml4e ← read_pe st (get_pml4t st, i);
  if negb (bf_flag pe_present pml4e) then Ret None else
  pdpte ← read_pe st (subtable st pml4e, j);
  if negb (bf_flag pe_present pdpte) then Ret None else
  pdte ← read_pe st (subtable st pdpte, k);
  if negb (bf_flag pe_present pdte) then Ret None else
  Ret (Some (subtable st pdte, l)).

Definition release_entry (pe : Z) : Z :=
  let pe := bf_set pe_os_virt_avail 1 pe in
  let pe := bf_set pe_os_virt_start 0 pe in
  bf_set pe_present 0 pe.

Fixpoint vpagefree_loop (fuel : nat) (first addr size : Z) (st : pt_state)
    : outcome (Z * pt_state) :=
  match fuel with
  | O => OutOfFuel
  | S fuel =>
      o ← vpn_entry st addr;
      match o with
      | None => Ret (size, st)
      | Some r =>
          pe ← read_pe st r;
          if bf_flag pe_os_virt_avail pe || (negb (first =? addr) && bf_flag pe_os_virt_start pe)
          then Ret (size, st)
          else
            st ← write_pe st r (release_entry pe);
            vpagefree_loop fuel first (u64 (addr + 1)) (u64 (size + 1)) st
      end
  end.

(** Every round but the last makes a page available, so the number of
    allocated pages bounds the loop. *)
Definition vpagefree (fuel : nat) (addr : Z) (vs : vp_state) : outcome (Z * vp_state) :=
  let addr := Z.shiftr addr 12 in
  '(size, st) ← vpagefree_loop fuel addr addr 0 (vp_pt vs);
  Ret (u64 (Z.shiftl size 12), VPS st (allocated_vpages vs - size)).

(** The overload with a size. *)
Definition vpagefree_sized (fuel : nat) (addr vsize : Z) (vs : vp_state) : outcome (bool * vp_state) :=
  '(size, vs) ← vpagefree fuel addr vs;
  Ret (vsize <=? size, vs).

Fixpoint vpagesize_loop (fuel : nat) (first addr size : Z) (st : pt_state) : outcome Z :=
  match fuel with
  | O => OutOfFuel
  | S fuel =>
      o ← vpn_entry st addr;
      match o with
      | None => Ret size
      | Some r =>
          pe ← read_pe st r;
          if bf_flag pe_os_virt_avail pe || (negb (first =? addr) && bf_flag pe_os_virt_start pe)
          then Ret size
          else vpagesize_loop fuel first (u64 (addr + 1)) (u64 (size + 1)) st
      end
  end.

Definition vpagesize (fuel : nat) (addr : Z) (vs : vp_state) : outcome Z :=
  let addr := Z.shiftr addr 12 in
  size ← vpagesize_loop fuel addr addr 0 (vp_pt vs);
  Ret (u64 (Z.shiftl size 12)).

(** ** Pages by number *)

(** Paths of indices that are known to be in range. *)
Ltac path_indices :=
  split; [simpl; lia | repeat (apply Forall_cons; split; [done |]); apply Forall_nil_2].


(** The page with indices [i], [j], [k], [l]. *)
Definition vpn (i j k l : Z) : Z := ((i * 512 + j) * 512 + k) * 512 + l.

(** The entry of page [v] and what the allocator reads in it. *)
Definition page (st : pt_state) (v : Z) : option Z := entry_of st (4096 * v).

Definition avail (st : pt_state) (v : Z) : bool :=
  match page st v with Some pe => bf_flag pe_os_virt_avail pe | None => false end.

Definition started (st : pt_state) (v : Z) : bool :=
  match page st v with Some pe => bf_flag pe_os_virt_start pe | None => false end.

(** Taken by an allocation. *)
Definition taken_page (st : pt_state) (v : Z) : bool :=
  match page st v with Some pe => negb (bf_flag pe_os_virt_avail pe) | None => false end.

Lemma vindex_page s v : 0 ≤ s → vindex (12 + s) (4096 * v) = (v / 2 ^ s) mod 512.
Proof.
  intros Hs. unfold vindex. change 511 with (Z.ones 9). rewrite Z.land_ones by lia.
  change (2 ^ 9) with 512. f_equal. rewrite Z.shiftr_div_pow2, Z.pow_add_r by lia.
  change (2 ^ 12) with 4096. pose proof (pow2_pos s Hs).
  rewrite <- Z.div_div, (Z.mul_comm 4096 v), Z.div_mul by lia. done.
Qed.

Lemma vpn_indices i j k l :
  index_ok i → index_ok j → index_ok k → index_ok l →
  vpath (4096 * vpn i j k l) = [i; j; k] ∧ vindex 12 (4096 * vpn i j k l) = l.
Proof.
  unfold index_ok, vpath. intros Hi Hj Hk Hl.
  change 39 with (12 + 27). change 30 with (12 + 18). change 21 with (12 + 9).
  replace (vindex 12) with (vindex (12 + 0)) by done. rewrite !vindex_page by lia.
  change (2 ^ 27) with (512 * 512 * 512). change (2 ^ 18) with (512 * 512). change (2 ^ 9) with 512.
  change (2 ^ 0) with 1. rewrite Z.div_1_r. unfold vpn.
  assert (∀ a b, 0 ≤ b < 512 → (a * 512 + b) / 512 = a) as D
    by (intros; symmetry; apply (Z.div_unique _ _ _ b); lia).
  assert (∀ a b, 0 ≤ b < 512 → (a * 512 + b) mod 512 = b) as M
    by (intros a b ?; symmetry; apply (Z.mod_unique _ _ a); lia).
  rewrite <- !Z.div_div by lia. rewrite !D, !M by lia. rewrite (Z.mod_small i) by lia. done.
Qed.

Lemma page_indices st i j k l :
  index_ok i → index_ok j → index_ok k → index_ok l →
  page st (vpn i j k l) = a ← at_path st [i; j; k]; tables st !! a ≫= (.!! Z.to_nat l).
Proof.
  intros Hi Hj Hk Hl. unfold page, entry_of.
  by destruct (vpn_indices i j k l Hi Hj Hk Hl) as [-> ->].
Qed.

Lemma page_addr_vpn i j k l :
  index_ok i → index_ok j → index_ok k → index_ok l →
  page_addr i j k l = 4096 * vpn i j k l.
Proof.
  unfold index_ok. intros Hi Hj Hk Hl. unfold page_addr, vpn.
  assert (2 ^ 9 = 512) as E9 by done. assert (2 ^ 12 = 4096) as E12 by done.
  rewrite lor_low, E9 by (rewrite ?E9; lia).
  rewrite (wrap_id 64 (Z.shiftl (i * 512 + j) 9)), lor_low, E9
    by (unfold is_u; rewrite ?Z.shiftl_mul_pow2, ?E9 by lia; lia).
  rewrite (wrap_id 64 (Z.shiftl ((i * 512 + j) * 512 + k) 9)), lor_low, E9
    by (unfold is_u; rewrite ?Z.shiftl_mul_pow2, ?E9 by lia; lia).
  rewrite Z.shiftl_mul_pow2, E12 by lia. rewrite wrap_id by (unfold is_u; lia). lia.
Qed.

(** ** The search, page after page *)

Section Linear.
Variables (uninit : Z → Z) (st : pt_state) (size : Z).

(** The reference: the pages [v], [v+1], ... in a row. *)
Fixpoint linear (n : nat) (v count starting_addr : Z) : scan_result :=
  match n with
  | O => Continue count starting_addr
  | S n =>
      if avail st v then
        let starting_addr := if count =? 0 then 4096 * v else uninit starting_addr in
        if u64 (count + 1) =? size then Found starting_addr (4096 * v + 4096)
        else linear n (v + 1) (u64 (count + 1)) starting_addr
      else linear n (v + 1) 0 starting_addr
  end.

Lemma linear_app a b v c s :
  linear (a + b) v c s =
    match linear a v c s with
    | Found x y => Found x y
    | Continue c s => linear b (v + Z.of_nat a) c s
    end.
Proof.
  revert v c s. induction a as [| a IH]; intros v c s.
  { cbn [Nat.add linear Z.of_nat]. by rewrite Z.add_0_r. }
  cbn [Nat.add linear]. replace (v + Z.of_nat (S a)) with (v + 1 + Z.of_nat a) by lia.
  destruct (avail st v); [| apply IH]. cbv zeta. destruct (_ =? size); [done | apply IH].
Qed.

(** A stretch without available pages. *)
Lemma linear_none n v c s :
  (0 < n)%nat → (∀ x, v ≤ x < v + Z.of_nat n → avail st x = false) → linear n v c s = Continue 0 s.
Proof.
  revert v c. induction n as [| n IH]; intros v c Hn Hx; [lia |]. cbn [linear].
  rewrite (Hx v) by lia. destruct n as [| n]; [done |]. apply IH; [lia |]. intros x ?. apply Hx. lia.
Qed.

(** The number of pages as an integer. *)
Definition linear_z (n : Z) : Z → Z → Z → scan_result := linear (Z.to_nat n).

Lemma linear_z_app a b v c s :
  0 ≤ a → 0 ≤ b →
  linear_z (a + b) v c s =
    match linear_z a v c s with
    | Found x y => Found x y
    | Continue c s => linear_z b (v + a) c s
    end.
Proof.
  intros Ha Hb. unfold linear_z. rewrite Z2Nat.inj_add, linear_app by done.
  by rewrite Z2Nat.id by done.
Qed.

Lemma linear_z_none n v c s :
  0 < n → (∀ x, v ≤ x < v + n → avail st x = false) → linear_z n v c s = Continue 0 s.
Proof. intros Hn Hx. apply linear_none; [lia |]. intros x ?. apply Hx. lia. Qed.

Hypothesis W : pt_wf st.

Lemma get_table_at path a :
  path_ok path → at_path st path = Some a → ∃ l, get_table st a = Ret l ∧ tables st !! a = Some l ∧ table_ok l.
Proof.
  intros Hp Ha. destruct (tw_table _ _ _ _ W path a Hp Ha) as (l & El & Ok).
  exists l. unfold get_table. by rewrite El.
Qed.

Lemma scan_pt_linear n i j k l a pt c s :
  index_ok i → index_ok j → index_ok k → 0 ≤ l → (Z.of_nat n + l = 512) →
  at_path st [i; j; k] = Some a → tables st !! a = Some pt → table_ok pt →
  scan_pt uninit size n i j k l pt c s = Ret (linear n (vpn i j k l) c s).
Proof.
  intros Hi Hj Hk Hl Hn Ha Ept [Len U]. revert l c s Hl Hn.
  induction n as [| n IH]; intros l c s Hl Hn; [done |]. cbn [scan_pt linear].
  assert (index_ok l) as Hlo by (unfold index_ok; lia).
  destruct (rd_lt pt l) as (e & -> & Ee); [lia |]. cbn [mbind outcome_bind].
  assert (avail st (vpn i j k l) = bf_flag pe_os_virt_avail e) as ->.
  { unfold avail. rewrite page_indices, Ha by done. cbn [mbind option_bind]. rewrite Ept.
    cbn [mbind option_bind]. by rewrite Ee. }
  replace (vpn i j k l + 1) with (vpn i j k (l + 1)) by (unfold vpn; lia).
  destruct (bf_flag pe_os_virt_avail e); [| apply IH; lia].
  rewrite page_addr_vpn by done. cbv zeta.
  rewrite (wrap_id 64 (_ + 4096)) by (unfold vpn, is_u, index_ok in *; lia).
  destruct (_ =? size); [done | apply IH; lia].
Qed.

Lemma scan_pt_linear_z i j k a pt c s :
  index_ok i → index_ok j → index_ok k →
  at_path st [i; j; k] = Some a → tables st !! a = Some pt → table_ok pt →
  scan_pt uninit size pt_entries i j k 0 pt c s = Ret (linear_z 512 (vpn i j k 0) c s).
Proof.
  intros. unfold linear_z. rewrite (scan_pt_linear pt_entries i j k 0 a pt) by done.
  by replace (Z.to_nat 512) with pt_entries by reflexivity.
Qed.

(** Below an entry that is not present no page is available. *)
Lemma absent_pages path i j k l :
  index_ok i → index_ok j → index_ok k → index_ok l → at_path st path = None →
  path `prefix_of` [i; j; k] → avail st (vpn i j k l) = false.
Proof.
  intros Hi Hj Hk Hl Hn [r Er]. unfold avail. rewrite page_indices by done.
  by rewrite Er, table_at_app, Hn.
Qed.

(** The entry at an index of a table and the path it continues. *)
Lemma scan_entry path a t x :
  path_ok path → at_path st path = Some a → tables st !! a = Some t → table_ok t → index_ok x →
  ∃ e, rd t x = Ret e ∧
    at_path st (path ++ [x]) = if bf_flag pe_present e then Some (subtable st e) else None.
Proof.
  intros Hp Ha Et [Len U] Hx. destruct (rd_lt t x) as (e & Hrd & Ee); [unfold index_ok in Hx; lia |].
  exists e. split; [done |]. rewrite (table_at_snoc _ _ _ _ path x a Ha), Et. cbn [mbind option_bind].
  by rewrite Ee.
Qed.

Lemma index_split x n : 0 ≤ x < 512 * n → 0 < n → x = (x / n) * n + x mod n ∧ 0 ≤ x / n < 512 ∧ 0 ≤ x mod n < n.
Proof.
  intros Hx Hn. pose proof (Z.div_mod x n). pose proof (Z.mod_pos_bound x n Hn).
  pose proof (Z.div_pos x n). assert (x / n < 512) by (apply Z.div_lt_upper_bound; lia). lia.
Qed.

Lemma scan_level_S inner n x t c s e :
  rd t x = Ret e →
  scan_level inner (S n) x t c s =
    if bf_flag pe_present e then
      r ← inner x e c s;
      match r with
      | Found y z => Ret (Found y z)
      | Continue c s => scan_level inner n (x + 1) t c s
      end
    else scan_level inner n (x + 1) t 0 s.
Proof. intros E. cbn [scan_level]. by rewrite E. Qed.

(** One level of the search: [inner] goes through the [B] pages below an
    entry, from page [base x] on. *)
Lemma scan_level_linear inner path a t (base : Z → Z) B n x c s :
  path_ok path → at_path st path = Some a → tables st !! a = Some t → table_ok t →
  0 ≤ x → Z.of_nat n + x ≤ 512 → 0 < B → (∀ y, base (y + 1) = base y + B) →
  (∀ y e c s, x ≤ y < x + Z.of_nat n → at_path st (path ++ [y]) = Some (subtable st e) →
    inner y e c s = Ret (linear_z B (base y) c s)) →
  (∀ y v, x ≤ y < x + Z.of_nat n → at_path st (path ++ [y]) = None → base y ≤ v < base y + B →
    avail st v = false) →
  scan_level inner n x t c s = Ret (linear_z (Z.of_nat n * B) (base x) c s).
Proof.
  intros Hp Ha Et Ok Hx Hn HB Hbase. revert x c s Hx Hn.
  induction n as [| n IH]; intros x c s Hx Hn Hin Hab; [done |]. cbn [scan_level].
  assert (index_ok x) as Hxo by (unfold index_ok; lia).
  destruct (scan_entry path a t x Hp Ha Et Ok Hxo) as (e & -> & Ee). cbn [mbind outcome_bind].
  replace (Z.of_nat (S n) * B) with (B + Z.of_nat n * B) by lia.
  rewrite linear_z_app, <- Hbase by lia.
  specialize (fun c s => IH (x + 1) c s ltac:(lia) ltac:(lia)). destruct (bf_flag pe_present e).
  - rewrite (Hin x e) by (done || lia). cbn [mbind outcome_bind].
    destruct (linear_z B (base x) c s); [done |].
    apply IH; [intros y e' c' s' Hy; apply Hin; lia | intros y v Hy; apply Hab; lia].
  - rewrite linear_z_none; [| lia | intros v Hv; apply (Hab x); (done || lia)].
    apply IH; [intros y e' c' s' Hy; apply Hin; lia | intros y v Hy; apply Hab; lia].
Qed.

Lemma absent_pt i j k v :
  index_ok i → index_ok j → index_ok k → at_path st [i; j; k] = None →
  vpn i j k 0 ≤ v < vpn i j k 0 + 512 → avail st v = false.
Proof.
  intros Hi Hj Hk Hn Hv. replace v with (vpn i j k (v - vpn i j k 0)) by (unfold vpn; lia).
  apply (absent_pages [i; j; k]); try done. unfold index_ok. lia.
Qed.

Lemma absent_pdt i j v :
  index_ok i → index_ok j → at_path st [i; j] = None →
  vpn i j 0 0 ≤ v < vpn i j 0 0 + 262144 → avail st v = false.
Proof.
  intros Hi Hj Hn Hv. destruct (index_split (v - vpn i j 0 0) 512) as (E & H1 & H2); [lia | lia |].
  replace v with (vpn i j ((v - vpn i j 0 0) / 512) ((v - vpn i j 0 0) mod 512)) by (unfold vpn in *; lia).
  apply (absent_pages [i; j]); try done. by exists [(v - vpn i j 0 0) / 512].
Qed.

Lemma absent_pdpt i v :
  index_ok i → at_path st [i] = None →
  vpn i 0 0 0 ≤ v < vpn i 0 0 0 + 134217728 → avail st v = false.
Proof.
  intros Hi Hn Hv. destruct (index_split (v - vpn i 0 0 0) 262144) as (E & H1 & H2); [lia | lia |].
  destruct (index_split ((v - vpn i 0 0 0) mod 262144) 512) as (E2 & H3 & H4); [lia | lia |].
  replace v with (vpn i ((v - vpn i 0 0 0) / 262144) ((v - vpn i 0 0 0) mod 262144 / 512)
    ((v - vpn i 0 0 0) mod 262144 mod 512)) by (unfold vpn in *; lia).
  apply (absent_pages [i]); try done.
  by exists [(v - vpn i 0 0 0) / 262144; (v - vpn i 0 0 0) mod 262144 / 512].
Qed.

Lemma scan_pdt_linear i j k a pdt c s :
  index_ok i → index_ok j → 0 ≤ k < 512 →
  at_path st [i; j] = Some a → tables st !! a = Some pdt → table_ok pdt →
  scan_pdt uninit st size i j (Z.to_nat (512 - k)) k pdt c s =
    Ret (linear_z ((512 - k) * 512) (vpn i j k 0) c s).
Proof.
  intros Hi Hj Hk Ha Et Ok. unfold scan_pdt.
  rewrite (scan_level_linear _ [i; j] a pdt (fun k => vpn i j k 0) 512); try (done || lia).
  - by rewrite Z2Nat.id by lia.
  - path_indices.
  - intros y. unfold vpn. lia.
  - intros y e c' s' Hy Hpath. assert (index_ok y) as Hyo by (unfold index_ok; lia).
    destruct (get_table_at [i; j; y] _ ltac:(path_indices) Hpath) as (pt & -> & Ept & Okt).
    cbn [mbind outcome_bind]. by apply (scan_pt_linear_z i j y (subtable st e)).
  - intros y v Hy Hpath. apply absent_pt; try done. unfold index_ok. lia.
Qed.

Lemma scan_pdpt_linear i j a pdpt c s :
  index_ok i → 0 ≤ j < 512 → i ≠ 0 ∨ USERSPACE_LOW_END < j →
  at_path st [i] = Some a → tables st !! a = Some pdpt → table_ok pdpt →
  scan_pdpt uninit st size i (Z.to_nat (512 - j)) j pdpt c s =
    Ret (linear_z ((512 - j) * 262144) (vpn i j 0 0) c s).
Proof.
  intros Hi Hj Hij Ha Et Ok. unfold scan_pdpt.
  rewrite (scan_level_linear _ [i] a pdpt (fun j => vpn i j 0 0) 262144); try (done || lia).
  - by rewrite Z2Nat.id by lia.
  - path_indices.
  - intros y. unfold vpn. lia.
  - intros y e c' s' Hy Hpath. assert (index_ok y) as Hyo by (unfold index_ok; lia).
    destruct (get_table_at [i; y] _ ltac:(path_indices) Hpath) as (pdt & -> & Ept & Okt).
    cbn [mbind outcome_bind]. assert (negb (i =? 0) || negb (y =? USERSPACE_LOW_END) = true) as -> by lia.
    rewrite (scan_pdt_linear i y 0 (subtable st e) pdt) by done. done.
  - intros y v Hy Hpath. apply absent_pdt; try done. unfold index_ok. lia.
Qed.

(** The pages [vpagealloc] searches: above 4 GiB, below the 16th top-level
    entry. *)
Lemma vpagealloc_scan pml4t c s :
  tables st !! get_pml4t st = Some pml4t → table_ok pml4t →
  scan_pml4t uninit st size (Z.to_nat PMLT4_USERSPACE_HIGH_START) 0 pml4t c s =
    Ret (linear_z (vpn 16 0 0 0 - vpn 0 4 0 0) (vpn 0 4 0 0) c s).
Proof.
  intros Et Ok. unfold scan_pml4t. set (inner := fun i pe count starting_addr => _).
  replace (Z.to_nat PMLT4_USERSPACE_HIGH_START) with (S 15) by reflexivity.
  assert (index_ok 0) as H0 by done.
  destruct (scan_entry [] _ pml4t 0 path_ok_nil eq_refl Et Ok H0) as (e & Erd & Ee).
  rewrite (scan_level_S inner 15 0 pml4t c s e Erd). cbn [app] in Ee.
  assert (∀ c s, scan_level inner 15 (0 + 1) pml4t c s =
    Ret (linear_z (Z.of_nat 15 * 134217728) (vpn 1 0 0 0) c s)) as Hrest.
  { intros c' s'. apply (scan_level_linear inner [] (get_pml4t st) pml4t (fun i => vpn i 0 0 0) 134217728);
      try (done || lia).
    - apply path_ok_nil.
    - intros y. unfold vpn. lia.
    - intros y e' c2 s2 Hy Hpath. assert (index_ok y) as Hyo by (unfold index_ok; lia). unfold inner.
      destruct (get_table_at [y] _ ltac:(path_indices) Hpath) as (pdpt & -> & Ept & Okt).
      cbn [mbind outcome_bind]. destruct (Z.eqb_spec y 0); [lia |]. cbn [negb].
      rewrite (scan_pdpt_linear y 0 (subtable st e') pdpt) by (done || lia || by left). done.
    - intros y v Hy Hpath. apply absent_pdpt; try done. unfold index_ok. lia. }
  replace (vpn 16 0 0 0 - vpn 0 4 0 0) with ((512 - 4) * 262144 + Z.of_nat 15 * 134217728) by reflexivity.
  rewrite linear_z_app by lia. replace (vpn 0 4 0 0 + (512 - 4) * 262144) with (vpn 1 0 0 0) by reflexivity.
  destruct (bf_flag pe_present e).
  - assert (inner 0 e c s = Ret (linear_z ((512 - 4) * 262144) (vpn 0 4 0 0) c s)) as ->.
    { unfold inner. destruct (get_table_at [0] _ ltac:(path_indices) Ee) as (pdpt & -> & Ept & Okt).
      cbn [mbind outcome_bind Z.eqb negb].
      replace (if USERSPACE_LOW_END <? 4 then 4 else USERSPACE_LOW_END) with 4 by reflexivity.
      rewrite (scan_pdpt_linear 0 4 (subtable st e) pdpt) by (done || lia || by right). done. }
    cbn [mbind outcome_bind].
    destruct (linear_z ((512 - 4) * 262144) (vpn 0 4 0 0) c s); [done | apply Hrest].
  - rewrite linear_z_none; [apply Hrest | lia |]. intros v Hv. apply (absent_pdpt 0); try done.
    unfold vpn in *. lia.
Qed.

(** The pages [vpagealloc32] searches: the fourth gigabyte without its first
    2 MiB. *)
Lemma vpagealloc32_scan a pdpt c s :
  at_path st [0] = Some a → tables st !! a = Some pdpt → table_ok pdpt →
  scan_pdpt uninit st size 0 (Z.to_nat (4 - USERSPACE_LOW_END)) USERSPACE_LOW_END pdpt c s =
    Ret (linear_z (vpn 0 4 0 0 - vpn 0 3 1 0) (vpn 0 3 1 0) c s).
Proof.
  intros Ha Et Ok. unfold scan_pdpt. set (inner := fun j pe count starting_addr => _).
  replace (Z.to_nat (4 - USERSPACE_LOW_END)) with 1%nat by reflexivity.
  change USERSPACE_LOW_END with 3.
  destruct (scan_entry [0] a pdpt 3 ltac:(path_indices) Ha Et Ok ltac:(done)) as (e & Erd & Ee).
  rewrite (scan_level_S inner 0 3 pdpt c s e Erd). cbn [app] in Ee.
  destruct (bf_flag pe_present e).
  - assert (inner 3 e c s = Ret (linear_z ((512 - 1) * 512) (vpn 0 3 1 0) c s)) as ->.
    { unfold inner. destruct (get_table_at [0; 3] _ ltac:(path_indices) Ee) as (pdt & -> & Ept & Okt).
      cbn [mbind outcome_bind].
      replace (if negb (0 =? 0) || negb (3 =? USERSPACE_LOW_END) then 0 else 1) with 1 by reflexivity.
      rewrite (scan_pdt_linear 0 3 1 (subtable st e) pdt) by (done || lia). done. }
    cbn [mbind outcome_bind].
    replace (vpn 0 4 0 0 - vpn 0 3 1 0) with ((512 - 1) * 512) by reflexivity.
    by destruct (linear_z ((512 - 1) * 512) (vpn 0 3 1 0) c s).
  - rewrite linear_z_none; [done | done |]. intros v Hv. apply (absent_pdt 0 3); try done.
    unfold vpn in *. lia.
Qed.
End Linear.

(** ** What the search finds *)

(** [n] available pages from page [u] on. *)
Definition run (st : pt_state) (u n : Z) : Prop := ∀ x, u ≤ x < u + n → avail st x = true.

(** No such row of pages inside [lo, hi). *)
Definition no_run (st : pt_state) (lo hi n : Z) : Prop := ∀ u, lo ≤ u → u + n ≤ hi → ¬ run st u n.

Lemma run_le st u n m : m ≤ n → run st u n → run st u m.
Proof. intros Hm R x Hx. apply R. lia. Qed.

(** The storage of [starting_addr] keeps its value from round to round; a
    block of one page does not depend on it. *)
Definition keeps_storage (uninit : Z → Z) (n : Z) : Prop := 1 < n → ∀ x, uninit x = x.

Section LinearSpec.
Variables (uninit : Z → Z) (st : pt_state) (size lo : Z).
Hypotheses (keeps : keeps_storage uninit size) (Hsize : 1 ≤ size < 2 ^ 64).

(** The state of the search before page [v]: the last [c] pages are
    available, and no row of [size] pages lies behind. *)
Record searching (v c s : Z) : Prop := {
  se_count : 0 ≤ c < size ∧ c ≤ v - lo;
  se_run : run st (v - c) c;
  se_start : 0 < c → s = 4096 * (v - c);
  se_max : lo < v - c → avail st (v - c - 1) = false;
  se_none : no_run st lo v size;
}.

Lemma searching_skip v c s : searching v c s → avail st v = false → searching (v + 1) 0 s.
Proof.
  intros [Hc Hr Hs Hm Hn] Hv. split.
  - lia.
  - intros x ?. lia.
  - lia.
  - intros _. by replace (v + 1 - 0 - 1) with v by lia.
  - intros u Hu Hle R. destruct (decide (u + size ≤ v)); [by apply (Hn u) |].
    rewrite (R v) in Hv by lia. done.
Qed.

(** The row of pages, counting page [v]. *)
Lemma searching_grow v c s :
  searching v c s → avail st v = true →
  run st (v - c) (c + 1) ∧ (if c =? 0 then 4096 * v else uninit s) = 4096 * (v - c) ∧
  no_run st lo v size ∧ (lo < v - c → avail st (v - c - 1) = false).
Proof.
  intros [Hc Hr Hs Hm Hn] Hv. split_and!; try done.
  - intros x Hx. destruct (decide (x = v)) as [-> |]; [done |]. apply Hr. lia.
  - destruct (Z.eqb_spec c 0); [lia |]. rewrite keeps by lia. apply Hs. lia.
Qed.

Lemma searching_next v c s :
  searching v c s → avail st v = true → c + 1 < size → searching (v + 1) (c + 1) (4096 * (v - c)).
Proof.
  intros S Hv Hlt. destruct (searching_grow v c s S Hv) as (R & _ & N & M).
  destruct S as [Hc _ _ _ _]. split; replace (v + 1 - (c + 1)) with (v - c) by lia; try done; [lia |].
  intros u Hu Hle Ru. destruct (decide (u + size ≤ v)); [by apply (N u) |].
  assert (u < v - c) by lia. assert (lo < v - c) as Hlo by lia.
  specialize (M Hlo). rewrite (Ru (v - c - 1)) in M by lia. done.
Qed.

Lemma linear_spec n v c s :
  searching v c s → 0 ≤ lo →
  match linear uninit st size n v c s with
  | Found a b => ∃ u, a = 4096 * u ∧ b = 4096 * (u + size) ∧ lo ≤ u ∧ u + size ≤ v + Z.of_nat n ∧
      run st u size ∧ no_run st lo (u + size - 1) size
  | Continue _ _ => no_run st lo (v + Z.of_nat n) size
  end.
Proof.
  intros S Hlo. revert v c s S. induction n as [| n IH]; intros v c s S.
  { cbn [linear Z.of_nat]. rewrite Z.add_0_r. apply S. }
  cbn [linear]. replace (v + Z.of_nat (Datatypes.S n)) with (v + 1 + Z.of_nat n) by lia.
  pose proof (se_count _ _ _ S) as Hc. destruct (avail st v) eqn:Hv.
  - destruct (searching_grow v c s S Hv) as (R & -> & N & M).
    rewrite (wrap_id 64 (c + 1)) by (unfold is_u; lia). destruct (Z.eqb_spec (c + 1) size) as [E | E].
    + exists (v - c). rewrite <- E. split_and!; try (done || lia).
      replace (v - c + (c + 1) - 1) with v by lia. by rewrite E.
    + apply IH. by apply (searching_next v c s); [.. | lia].
  - apply IH. by eapply searching_skip.
Qed.

Lemma linear_z_spec n :
  0 ≤ n → 0 ≤ lo →
  match linear_z uninit st size n lo 0 0 with
  | Found a b => ∃ u, a = 4096 * u ∧ b = 4096 * (u + size) ∧ lo ≤ u ∧ u + size ≤ lo + n ∧
      run st u size ∧ no_run st lo (u + size - 1) size
  | Continue _ _ => no_run st lo (lo + n) size
  end.
Proof.
  intros Hn Hlo. pose proof (linear_spec (Z.to_nat n) lo 0 0) as H. rewrite Z2Nat.id in H by done.
  apply H; [| done]. split; try lia; intros x ?; lia.
Qed.

End LinearSpec.

(** ** Taking the pages *)

Definition vpages : Z := 2 ^ 36.

Lemma vpage_page v : 0 ≤ v < vpages → vpage (4096 * v) = v.
Proof.
  intros Hv. unfold vpage. rewrite Z.shiftr_div_pow2, (Z.mul_comm 4096) by lia.
  change (2 ^ 12) with 4096. rewrite Z.div_mul by lia. by apply wrap_id.
Qed.

(** Writing the entry of a page that has one. *)
Lemma write_page st w e v0 :
  pt_wf st → 0 ≤ w < vpages → page st w = Some v0 → is_u 64 e →
  ∃ r st', get_pageentr64 st (get_pml4t st) (4096 * w) = Ret (Some r) ∧
    read_pe st r = Ret v0 ∧ write_pe st r e = Ret st' ∧ pt_wf st' ∧
    get_pml4t st' = get_pml4t st ∧
    ∀ v, 0 ≤ v < vpages → page st' v = if decide (v = w) then Some e else page st v.
Proof.
  intros W Hw Hp He. unfold page in Hp.
  destruct (at_path st (vpath (4096 * w))) as [a |] eqn:Ha; [| unfold entry_of in Hp; by rewrite Ha in Hp].
  destruct (entry_of_read st (4096 * w) a W Ha) as (v1 & Hr & Ev & _). rewrite Hp in Ev. injection Ev as <-.
  destruct (write_leaf st (4096 * w) a e W Ha He) as (st' & Ew & W' & H).
  exists (a, vindex 12 (4096 * w)), st'. rewrite get_pageentr64_spec, Ha by done.
  split_and!; try done.
  - unfold write_pe in Ew. cbn [fst snd] in Ew. destruct (tables st !! a); [| done].
    destruct (wr _ _ _); [| done..]. by injection Ew as <-.
  - intros v Hv. unfold page. rewrite H, !vpage_page by done. done.
Qed.

Lemma grab_is_u b e : is_u 64 e → is_u 64 (grab_entry b e).
Proof.
  intros He. assert (∀ v, is_u 64 v → 0 ≤ v) as Hpos by (unfold is_u; lia). unfold grab_entry.
  destruct b; repeat (apply set_is_u; apply Hpos); done.
Qed.

Lemma page_is_u st v e : pt_wf st → page st v = Some e → is_u 64 e.
Proof.
  intros W Hp. unfold page in Hp.
  destruct (at_path st (vpath (4096 * v))) as [a |] eqn:Ha; [| unfold entry_of in Hp; by rewrite Ha in Hp].
  destruct (entry_of_read st (4096 * v) a W Ha) as (v1 & _ & Ev & U). rewrite Hp in Ev. by injection Ev as <-.
Qed.

Lemma avail_page st v : avail st v = true → ∃ e, page st v = Some e ∧ bf_flag pe_os_virt_avail e = true.
Proof. unfold avail. destruct (page st v) as [e |]; [| done]. by exists e. Qed.

(** The pages [w, hi) of a block that starts at [u]. *)
Lemma grab_vpages_spec fuel st w u hi :
  pt_wf st → 0 ≤ u ≤ w → w ≤ hi → hi ≤ vpages → (∀ v, w ≤ v < hi → is_Some (page st v)) →
  (Z.to_nat (hi - w) < fuel)%nat →
  ∃ st', grab_vpages fuel (4096 * w) (4096 * u) (4096 * hi) st = Ret st' ∧ pt_wf st' ∧
    get_pml4t st' = get_pml4t st ∧
    ∀ v, 0 ≤ v < vpages → page st' v =
      if decide (w ≤ v < hi) then grab_entry (v =? u) <$> page st v else page st v.
Proof.
  unfold vpages in *. revert st w. induction fuel as [| fuel IH]; intros st w W Hu Hw Hhi Hex Hf; [lia |].
  cbn [grab_vpages]. destruct (Z.ltb_spec (4096 * w) (4096 * hi)).
  2:{ exists st. split_and!; try done. intros v Hv. by rewrite decide_False by lia. }
  destruct (Hex w ltac:(lia)) as [v0 Hv0].
  destruct (write_page st w (grab_entry (4096 * w =? 4096 * u) v0) v0) as (r & st1 & -> & Hr & Hwr & W1 & G1 & P1);
    [done | unfold vpages; lia | done | eapply grab_is_u, page_is_u; eauto |].
  cbn [mbind outcome_bind]. rewrite Hr. cbn [mbind outcome_bind]. rewrite Hwr. cbn [mbind outcome_bind].
  rewrite wrap_id by (unfold is_u; lia). replace (4096 * w + 4096) with (4096 * (w + 1)) by lia.
  destruct (IH st1 (w + 1)) as (st' & -> & W' & G' & P'); [done | lia | lia | lia | | lia |].
  { intros v Hv. rewrite P1 by (unfold vpages; lia). rewrite decide_False by lia. apply Hex. lia. }
  exists st'. split_and!; [done | done | congruence |]. intros v Hv. rewrite P', P1 by done.
  destruct (decide (v = w)) as [-> |].
  - rewrite decide_False, decide_True, Hv0 by lia. simpl. do 2 f_equal. lia.
  - destruct (decide (w + 1 ≤ v < hi)), (decide (w ≤ v < hi)); (done || lia).
Qed.

(** ** Allocation *)

(** The pages [u, u+n) taken as one block. *)
Definition block_taken (st st' : pt_state) (u n : Z) : Prop :=
  pt_wf st' ∧ ∀ v, 0 ≤ v < vpages →
    page st' v = if decide (u ≤ v < u + n) then grab_entry (v =? u) <$> page st v else page st v.

(** An allocation of [n] pages out of the pages [lo, hi). *)
Definition allocated_in (lo hi n : Z) (vs : vp_state) (a : Z) (vs' : vp_state) : Prop :=
  ∃ u, a = 4096 * u ∧ lo ≤ u ∧ u + n ≤ hi ∧ run (vp_pt vs) u n ∧
    block_taken (vp_pt vs) (vp_pt vs') u n ∧ allocated_vpages vs' = allocated_vpages vs + n.

Definition low_first : Z := vpn 0 3 1 0.
Definition high_first : Z := vpn 0 4 0 0.
Definition high_end : Z := vpn 16 0 0 0.

Lemma take_block_spec vs u n :
  pt_wf (vp_pt vs) → 0 ≤ u → 0 ≤ n → u + n ≤ vpages → run (vp_pt vs) u n →
  ∃ vs', take_block n (4096 * u) (4096 * (u + n)) vs = Ret (4096 * u, vs') ∧
    block_taken (vp_pt vs) (vp_pt vs') u n ∧ allocated_vpages vs' = allocated_vpages vs + n.
Proof.
  intros W Hu Hn Hhi R. unfold take_block.
  replace (4096 * (u + n) - 4096 * u) with (n * 4096) by lia. rewrite Z.div_mul by lia.
  destruct (grab_vpages_spec (S (Z.to_nat n)) (vp_pt vs) u u (u + n)) as (st' & -> & W' & _ & P);
    [done | lia | lia | done | | replace (u + n - u) with n by lia; lia |].
  { intros v Hv. destruct (avail_page _ v (R v Hv)) as (e & -> & _). by eexists. }
  cbn [mbind outcome_bind]. eexists. split; [done |]. by split_and!.
Qed.

Section Alloc.
Variable uninit : Z → Z.

(** The outcome of a search that takes what it finds. *)
Lemma search_take vs n lo hi :
  keeps_storage uninit n → pt_wf (vp_pt vs) → 1 ≤ n < 2 ^ 64 → 0 ≤ lo ≤ hi → hi ≤ vpages →
  match linear_z uninit (vp_pt vs) n (hi - lo) lo 0 0 with
  | Found s e => ∃ vs', take_block n s e vs = Ret (s, vs') ∧ allocated_in lo hi n vs s vs'
  | Continue _ _ => no_run (vp_pt vs) lo hi n
  end.
Proof.
  intros keeps W Hn Hlo Hhi. pose proof (linear_z_spec uninit (vp_pt vs) n lo keeps Hn (hi - lo)) as L.
  specialize (L ltac:(lia) ltac:(lia)). replace (lo + (hi - lo)) with hi in L by lia.
  destruct (linear_z uninit (vp_pt vs) n (hi - lo) lo 0 0) as [s e |]; [| done].
  destruct L as (u & -> & -> & H1 & H2 & R & _).
  destruct (take_block_spec vs u n W) as (vs' & E & B & A); [lia | lia | lia | done |].
  exists vs'. split; [done |]. by exists u.
Qed.

Lemma vpagealloc32_spec vs size :
  pt_wf (vp_pt vs) → 0 < size → size + 4096 < 2 ^ 64 →
  let n := (size + 4095) / 4096 in
  keeps_storage uninit n →
  ∃ a vs', vpagealloc32 uninit size vs = Ret (a, vs') ∧
    (allocated_in low_first high_first n vs a vs' ∨
     a = 0 ∧ vs' = vs ∧ no_run (vp_pt vs) low_first high_first n).
Proof.
  intros W Hs Ho n keeps. assert (1 ≤ n < 2 ^ 64) as Hn
    by (split; [apply Z.div_le_lower_bound; lia | apply Z.div_lt_upper_bound; lia]).
  unfold vpagealloc32. rewrite size_to_pages_ceil by (unfold is_u; lia). fold n. cbv zeta.
  destruct (get_table_at (vp_pt vs) W [] _ path_ok_nil eq_refl) as (pml4t & -> & Et & Ok).
  cbn [mbind outcome_bind].
  destruct (scan_entry (vp_pt vs) [] _ pml4t 0 path_ok_nil eq_refl Et Ok ltac:(done)) as (e & -> & Ee).
  cbn [mbind outcome_bind app] in *. destruct (bf_flag pe_present e).
  - destruct (get_table_at (vp_pt vs) W [0] _ ltac:(path_indices) Ee) as (pdpt & -> & Ept & Okt).
    cbn [mbind outcome_bind]. rewrite (vpagealloc32_scan uninit (vp_pt vs) n W (subtable (vp_pt vs) e)) by done.
    cbn [mbind outcome_bind].
    pose proof (search_take vs n low_first high_first keeps W Hn ltac:(done) ltac:(done)) as T.
    change (vpn 0 3 1 0) with low_first. change (vpn 0 4 0 0) with high_first.
    destruct (linear_z uninit (vp_pt vs) n (high_first - low_first) low_first 0 0) as [s x | c s].
    + destruct T as (vs' & -> & A). exists s, vs'. split; [done | by left].
    + exists 0, vs. split; [done | by right].
  - exists 0, vs. split; [done |]. right. split_and!; try done. intros u Hu Hle R.
    assert (avail (vp_pt vs) u = false) as F.
    { apply (absent_pdpt (vp_pt vs) 0); try done. unfold low_first, high_first, vpn in *. lia. }
    rewrite (R u) in F by lia. done.
Qed.

Lemma vpagealloc_spec vs vsize :
  pt_wf (vp_pt vs) → 0 < vsize → vsize + 4096 < 2 ^ 64 →
  let n := (vsize + 4095) / 4096 in
  keeps_storage uninit n →
  ∃ a vs', vpagealloc uninit vsize vs = Ret (a, vs') ∧
    (allocated_in high_first high_end n vs a vs' ∨
     allocated_in low_first high_first n vs a vs' ∧ no_run (vp_pt vs) high_first high_end n ∨
     a = 0 ∧ vs' = vs ∧ no_run (vp_pt vs) high_first high_end n ∧
       no_run (vp_pt vs) low_first high_first n).
Proof.
  intros W Hs Ho n keeps. assert (1 ≤ n < 2 ^ 64) as Hn
    by (split; [apply Z.div_le_lower_bound; lia | apply Z.div_lt_upper_bound; lia]).
  unfold vpagealloc. rewrite size_to_pages_ceil by (unfold is_u; lia). fold n. cbv zeta.
  destruct (get_table_at (vp_pt vs) W [] _ path_ok_nil eq_refl) as (pml4t & -> & Et & Ok).
  cbn [mbind outcome_bind]. rewrite (vpagealloc_scan uninit (vp_pt vs) n W) by done.
  cbn [mbind outcome_bind].
  pose proof (search_take vs n high_first high_end keeps W Hn ltac:(done) ltac:(done)) as T.
  change (vpn 16 0 0 0) with high_end. change (vpn 0 4 0 0) with high_first.
  destruct (linear_z uninit (vp_pt vs) n (high_end - high_first) high_first 0 0) as [s x | c s].
  - destruct T as (vs' & -> & A). exists s, vs'. split; [done | by left].
  - destruct (vpagealloc32_spec vs vsize W Hs Ho keeps) as (a & vs' & E & [A | (-> & -> & N)]).
    + exists a, vs'. split; [done |]. right. by left.
    + exists 0, vs. split; [done |]. right. by right.
Qed.

End Alloc.

(** ** Blocks *)

(** An available page starts no block, and a taken page that starts no block
    continues the block of the page before it. *)
Definition pages_ok (st : pt_state) : Prop :=
  ∀ v, 0 ≤ v < vpages →
    (avail st v = true → started st v = false) ∧
    (taken_page st v = true → started st v = false → 0 < v ∧ taken_page st (v - 1) = true).

Definition vp_wf (vs : vp_state) : Prop := pt_wf (vp_pt vs) ∧ pages_ok (vp_pt vs).

Lemma grab_flags b e :
  bf_flag pe_os_virt_avail (grab_entry b e) = false ∧
  bf_flag pe_os_virt_start (grab_entry b e) = b || bf_flag pe_os_virt_start e.
Proof. unfold bf_flag, grab_entry. by destruct b; split; fields. Qed.

Lemma release_flags e :
  bf_flag pe_os_virt_avail (release_entry e) = true ∧ bf_flag pe_os_virt_start (release_entry e) = false.
Proof. unfold bf_flag, release_entry. by split; fields. Qed.

Lemma run_page st u n v : run st u n → u ≤ v < u + n → ∃ e, page st v = Some e.
Proof. intros R Hv. destruct (avail_page st v (R v Hv)) as (e & E & _). by exists e. Qed.

(** The flags after taking a block. *)
Lemma block_flags st st' u n v :
  block_taken st st' u n → run st u n → 0 ≤ v < vpages →
  avail st' v = avail st v && bool_decide (¬ u ≤ v < u + n) ∧
  taken_page st' v = taken_page st v || bool_decide (u ≤ v < u + n) ∧
  started st' v = started st v || (bool_decide (u ≤ v < u + n) && (v =? u)).
Proof.
  intros [_ P] R Hv. unfold avail, taken_page, started. rewrite (P v Hv).
  destruct (decide (u ≤ v < u + n)) as [Hin | Hout].
  - destruct (run_page st u n v R Hin) as [e ->]. cbn [fmap option_fmap option_map]. destruct (grab_flags (v =? u) e) as [-> ->].
    rewrite !(bool_decide_eq_true_2 (u ≤ v < u + n)), (bool_decide_eq_false_2 (¬ u ≤ v < u + n)) by tauto.
    cbn [negb andb].
    rewrite andb_false_r, orb_true_r. split_and!; try done. apply orb_comm.
  - rewrite !(bool_decide_eq_false_2 (u ≤ v < u + n)), bool_decide_eq_true_2 by done.
    rewrite andb_true_r, andb_false_l, !orb_false_r. done.
Qed.

Lemma block_taken_ok st st' u n :
  block_taken st st' u n → run st u n → 0 ≤ u → u + n < vpages → pages_ok st → pages_ok st'.
Proof.
  intros B R Hu Hhi Ok v Hv. destruct (block_flags st st' u n v B R Hv) as (-> & -> & ->).
  destruct (Ok v Hv) as [O1 O2]. split.
  - intros [A N]%andb_true_iff. apply bool_decide_eq_true in N.
    rewrite (bool_decide_eq_false_2 (u ≤ v < u + n)), andb_false_l, orb_false_r by done. by apply O1.
  - intros T [S1 S2]%orb_false_iff. destruct (decide (u ≤ v < u + n)) as [Hin | Hout].
    + rewrite bool_decide_eq_true_2, andb_true_l in S2 by done. apply Z.eqb_neq in S2. split; [lia |].
      destruct (block_flags st st' u n (v - 1) B R ltac:(unfold vpages in *; lia)) as (_ & -> & _).
      rewrite bool_decide_eq_true_2, orb_true_r by lia. done.
    + rewrite (bool_decide_eq_false_2 (u ≤ v < u + n)), orb_false_r in T by done.
      destruct (O2 T S1) as [H0 Ht]. split; [done |].
      destruct (block_flags st st' u n (v - 1) B R ltac:(unfold vpages in *; lia)) as (_ & -> & _).
      by rewrite Ht.
Qed.

(** Nothing continues a block: the page behind it is not there, available, or
    starts another block. *)
Lemma run_end st u n :
  pages_ok st → run st u n → 0 ≤ u → 0 < n → u + n < vpages →
  page st (u + n) = None ∨ avail st (u + n) = true ∨ started st (u + n) = true.
Proof.
  intros Ok R Hu Hn Hhi. destruct (Ok (u + n) ltac:(unfold vpages in *; lia)) as [_ O2].
  destruct (started st (u + n)) eqn:S; [tauto |].
  destruct (page st (u + n)) as [e |] eqn:E; [| tauto]. right. left.
  destruct (avail st (u + n)) eqn:A; [done |]. exfalso.
  assert (taken_page st (u + n) = true) as T.
  { unfold taken_page, avail in *. rewrite E in *. by rewrite A. }
  destruct (O2 T eq_refl) as [_ T1]. specialize (R (u + n - 1) ltac:(lia)).
  unfold taken_page, avail in *. destruct (page st (u + n - 1)); [| done]. by rewrite R in T1.
Qed.

Lemma block_end st st' u n :
  block_taken st st' u n → run st u n → 0 ≤ u → 0 < n → u + n < vpages → pages_ok st →
  page st' (u + n) = None ∨ avail st' (u + n) = true ∨ started st' (u + n) = true.
Proof.
  intros [_ P] R Hu Hn Hhi Ok. unfold avail, started. rewrite P, decide_False by (unfold vpages in *; lia).
  by apply (run_end st u n).
Qed.

(** ** Giving a block back *)

Lemma vpn_entry_spec st v : vpn_entry st v = get_pageentr64 st (get_pml4t st) (4096 * v).
Proof.
  unfold vpn_entry, get_pageentr64, get_pml4t_pageentr64, get_pdpt_pageentr64, get_pdt_pageentr64,
    get_pt_pageentr64. cbv zeta.
  change (Z.land (Z.shiftr (4096 * v) ?k) 511) with (vindex k (4096 * v)). rewrite !u16_vindex.
  assert (∀ k, 0 ≤ k → vindex (12 + k) (4096 * v) = Z.land (Z.shiftr v k) 511) as E.
  { intros k Hk. unfold vindex. f_equal. rewrite <- Z.shiftr_shiftr by lia. f_equal.
    rewrite Z.shiftr_div_pow2, (Z.mul_comm 4096) by lia. by apply Z.div_mul. }
  rewrite !Z.shiftr_shiftr by lia. change 39 with (12 + 27). change 30 with (12 + 18).
  change 21 with (12 + 9). rewrite !E by lia. change (vindex 12) with (vindex (12 + 0)).
  rewrite E by lia. by rewrite Z.shiftr_0_r.
Qed.

Lemma release_is_u e : is_u 64 e → is_u 64 (release_entry e).
Proof.
  intros He. assert (∀ v, is_u 64 v → 0 ≤ v) as Hpos by (unfold is_u; lia). unfold release_entry.
  repeat (apply set_is_u; apply Hpos). done.
Qed.

(** The loop stops where the block ends. *)
Lemma vpagefree_stop fuel u w size st :
  pt_wf st → (0 < fuel)%nat → w ≠ u →
  page st w = None ∨ avail st w = true ∨ started st w = true →
  vpagefree_loop fuel u w size st = Ret (size, st) ∧ vpagesize_loop fuel u w size st = Ret size.
Proof.
  intros W Hf Hne Hend. destruct fuel as [| fuel]; [lia |]. cbn [vpagefree_loop vpagesize_loop].
  rewrite vpn_entry_spec, get_pageentr64_spec by done. cbn [mbind outcome_bind].
  unfold page, avail, started in Hend.
  destruct (at_path st (vpath (4096 * w))) as [a |] eqn:Ha; cbn [mbind option_bind]; [| done].
  destruct (entry_of_read st (4096 * w) a W Ha) as (e & -> & Ee & _). cbn [mbind outcome_bind].
  unfold page in Hend. rewrite Ee in Hend. destruct Hend as [| [-> | ->]]; [done | done |].
  destruct (Z.eqb_spec u w); [lia |]. by rewrite orb_true_r.
Qed.

(** Taken pages, none of them behind [u] the start of a block. *)
Definition block_pages (st : pt_state) (u w hi : Z) : Prop :=
  ∀ v, w ≤ v < hi → taken_page st v = true ∧ (v ≠ u → started st v = false).

Lemma block_page st u w hi v :
  block_pages st u w hi → w ≤ v < hi →
  ∃ e, page st v = Some e ∧
    bf_flag pe_os_virt_avail e || (negb (u =? v) && bf_flag pe_os_virt_start e) = false.
Proof.
  intros B Hv. destruct (B v Hv) as [T S]. unfold taken_page, started in *.
  destruct (page st v) as [e |]; [| done]. exists e. split; [done |].
  apply negb_true_iff in T. rewrite T. simpl. destruct (Z.eqb_spec u v); [done |]. simpl. apply S. lia.
Qed.

Lemma vpagefree_loop_spec fuel st u w hi :
  pt_wf st → 0 ≤ u ≤ w → w ≤ hi → u < hi → hi < vpages → block_pages st u w hi →
  page st hi = None ∨ avail st hi = true ∨ started st hi = true → (Z.to_nat (hi - w) < fuel)%nat →
  ∃ st', vpagefree_loop fuel u w (w - u) st = Ret (hi - u, st') ∧ pt_wf st' ∧
    ∀ v, 0 ≤ v < vpages →
      page st' v = if decide (w ≤ v < hi) then release_entry <$> page st v else page st v.
Proof.
  unfold vpages. revert st w.
  induction fuel as [| fuel IH]; intros st w W Hu Hw Huhi Hhi B Hend Hf; [lia |].
  destruct (decide (w = hi)) as [-> | Hne].
  { exists st. destruct (vpagefree_stop (S fuel) u hi (hi - u) st) as [-> _]; try (done || lia).
    split_and!; try done. intros v Hv. by rewrite decide_False by lia. }
  destruct (block_page st u w hi w B ltac:(lia)) as (e & Ee & Hb).
  destruct (write_page st w (release_entry e) e) as (r & st1 & Hg & Hr & Hwr & W1 & _ & P1);
    [done | unfold vpages; lia | done | eapply release_is_u, page_is_u; eauto |].
  cbn [vpagefree_loop]. rewrite vpn_entry_spec, Hg. cbn [mbind outcome_bind]. rewrite Hr.
  cbn [mbind outcome_bind]. rewrite Hb, Hwr. cbn [mbind outcome_bind].
  rewrite !(wrap_id 64) by (unfold is_u; lia). replace (w - u + 1) with (w + 1 - u) by lia.
  assert (∀ v, w < v ≤ hi → page st1 v = page st v) as Same
    by (intros v Hv; rewrite P1 by (unfold vpages; lia); by rewrite decide_False by lia).
  destruct (IH st1 (w + 1)) as (st' & -> & W' & P'); try (done || lia).
  { intros v Hv. destruct (B v ltac:(lia)) as [T S]. unfold taken_page, started in *. by rewrite Same by lia. }
  { unfold avail, started in *. by rewrite Same by lia. }
  exists st'. split_and!; try done. intros v Hv. rewrite P', P1 by done.
  destruct (decide (v = w)) as [-> |].
  - by rewrite decide_False, decide_True, Ee by lia.
  - destruct (decide (w + 1 ≤ v < hi)), (decide (w ≤ v < hi)); (done || lia).
Qed.

Lemma vpagesize_loop_spec fuel st u w hi :
  pt_wf st → 0 ≤ u ≤ w → w ≤ hi → u < hi → hi < vpages → block_pages st u w hi →
  page st hi = None ∨ avail st hi = true ∨ started st hi = true → (Z.to_nat (hi - w) < fuel)%nat →
  vpagesize_loop fuel u w (w - u) st = Ret (hi - u).
Proof.
  unfold vpages. intros W. revert w. induction fuel as [| fuel IH]; intros w Hu Hw Huhi Hhi B Hend Hf; [lia |].
  destruct (decide (w = hi)) as [-> | Hne].
  { apply (vpagefree_stop (S fuel) u hi (hi - u) st); try (done || lia). }
  destruct (block_page st u w hi w B ltac:(lia)) as (e & Ee & Hb).
  destruct (write_page st w e e) as (r & st1 & Hg & Hr & _);
    [done | unfold vpages; lia | done | eapply page_is_u; eauto |].
  cbn [vpagesize_loop]. rewrite vpn_entry_spec, Hg. cbn [mbind outcome_bind]. rewrite Hr.
  cbn [mbind outcome_bind]. rewrite Hb. rewrite !(wrap_id 64) by (unfold is_u; lia).
  replace (w - u + 1) with (w + 1 - u) by lia. apply IH; try (done || lia). intros v Hv. apply B. lia.
Qed.

(** ** Properties *)

(** An allocation keeps the invariant. *)
Lemma allocated_in_wf lo hi n vs a vs' :
  vp_wf vs → 0 ≤ lo → hi < vpages → allocated_in lo hi n vs a vs' → vp_wf vs'.
Proof.
  intros [W Ok] Hlo Hhi (u & _ & H1 & H2 & R & B & _). split; [apply B |].
  apply (block_taken_ok (vp_pt vs) _ u n); try done; lia.
Qed.

(** C10: [vpagealloc] returns a block of available pages of the rounded size,
    above 4 GiB if there is one and, only if there is none, in the fourth
    gigabyte; exactly these pages are taken, the first one is marked as the
    start of the block, and no other entry changes.  It returns 0 only when
    neither part of the address space has such a block.  For blocks of more
    than one page this supposes that the storage of starting_addr, which
    each round of the loop declares anew without a value, keeps what an
    earlier round wrote to it. *)
Theorem vpagealloc_correct (uninit : Z → Z) (vs : vp_state) (vsize : Z) :
  let n := (vsize + 4095) / 4096 in
  keeps_storage uninit n → vp_wf vs → 0 < vsize → vsize + 4096 < 2 ^ 64 →
  ∃ a vs', vpagealloc uninit vsize vs = Ret (a, vs') ∧ vp_wf vs' ∧
    ((∃ u, a = 4096 * u ∧
        (high_first ≤ u ∧ u + n ≤ high_end ∨
         low_first ≤ u ∧ u + n ≤ high_first ∧ no_run (vp_pt vs) high_first high_end n) ∧
        run (vp_pt vs) u n ∧ allocated_vpages vs' = allocated_vpages vs + n ∧
        ∀ v, 0 ≤ v < vpages →
          if decide (u ≤ v < u + n)
          then taken_page (vp_pt vs') v = true ∧ started (vp_pt vs') v = (v =? u)
          else page (vp_pt vs') v = page (vp_pt vs) v) ∨
     (a = 0 ∧ vs' = vs ∧ no_run (vp_pt vs) high_first high_end n ∧
      no_run (vp_pt vs) low_first high_first n)).
Proof.
  intros n keeps W Hs Ho.
  destruct (vpagealloc_spec uninit vs vsize (proj1 W) Hs Ho keeps) as (a & vs' & E & [A | [[A N] | (-> & -> & N)]]).
  3:{ exists 0, vs. split_and!; try done. by right. }
  all: exists a, vs'; split; [done |]; split; [by eapply allocated_in_wf; eauto |]; left.
  all: destruct A as (u & -> & H1 & H2 & R & B & Ha); exists u; split_and!; try (done || tauto).
  all: intros v Hv; destruct (decide (u ≤ v < u + n)) as [Hin | Hout];
    [| destruct B as [_ P]; by rewrite P, decide_False].
  all: destruct (block_flags _ _ u n v B R Hv) as (_ & -> & ->); destruct W as [_ Ok].
  all: destruct (Ok v Hv) as [O1 _]; rewrite (O1 (R v Hin)), bool_decide_eq_true_2 by done.
  all: by rewrite orb_true_r.
Qed.

(** Where a successful allocation is. *)
Lemma vpagealloc_block uninit vs vsize a vs' :
  let n := (vsize + 4095) / 4096 in
  keeps_storage uninit n → vp_wf vs → 0 < vsize → vsize + 4096 < 2 ^ 64 →
  vpagealloc uninit vsize vs = Ret (a, vs') → a ≠ 0 →
  ∃ u, a = 4096 * u ∧ 0 ≤ u ∧ u + n < vpages ∧ run (vp_pt vs) u n ∧
    block_taken (vp_pt vs) (vp_pt vs') u n ∧ allocated_vpages vs' = allocated_vpages vs + n.
Proof.
  intros n keeps W Hs Ho E Hne.
  destruct (vpagealloc_spec uninit vs vsize (proj1 W) Hs Ho keeps) as (a' & v' & E' & H').
  rewrite E in E'. injection E' as <- <-. unfold low_first, high_first, high_end, vpn in H'.
  destruct H' as [A | [[A _] | (-> & _)]]; [| | done];
    destruct A as (u & -> & H1 & H2 & R & B & Ha); exists u; unfold vpages; split_and!; (done || lia).
Qed.

Lemma block_taken_pages st st' u n :
  pages_ok st → 0 ≤ u → u + n < vpages → run st u n → block_taken st st' u n →
  block_pages st' u u (u + n).
Proof.
  intros Ok Hu Hhi R B v Hv.
  destruct (block_flags _ _ u n v B R ltac:(unfold vpages in *; lia)) as (_ & -> & ->).
  destruct (Ok v ltac:(unfold vpages in *; lia)) as [O1 _]. rewrite (O1 (R v Hv)).
  rewrite bool_decide_eq_true_2, orb_true_r by done. split; [done |]. simpl. lia.
Qed.

(** Giving back the block [u, u+n), of whatever allocation. *)
Lemma vpagefree_block fuel vs u n :
  pt_wf (vp_pt vs) → 0 ≤ u → 0 < n → u + n < vpages → block_pages (vp_pt vs) u u (u + n) →
  page (vp_pt vs) (u + n) = None ∨ avail (vp_pt vs) (u + n) = true ∨
    started (vp_pt vs) (u + n) = true →
  (Z.to_nat n < fuel)%nat →
  vpagesize fuel (4096 * u) vs = Ret (4096 * n) ∧
  ∃ vs', vpagefree fuel (4096 * u) vs = Ret (4096 * n, vs') ∧ pt_wf (vp_pt vs') ∧
    allocated_vpages vs' = allocated_vpages vs - n ∧
    ∀ v, 0 ≤ v < vpages → page (vp_pt vs') v =
      if decide (u ≤ v < u + n) then release_entry <$> page (vp_pt vs) v else page (vp_pt vs) v.
Proof.
  intros W Hu Hn Hhi BP Hend Hf. assert (4096 * n < 2 ^ 64) by (unfold vpages in *; lia).
  assert (Z.shiftr (4096 * u) 12 = u) as Ess by (by apply shift_page).
  assert (u64 (Z.shiftl n 12) = 4096 * n) as Esz
    by (rewrite Z.shiftl_mul_pow2 by lia; change (2 ^ 12) with 4096; rewrite wrap_id by (unfold is_u; lia); lia).
  split.
  - unfold vpagesize. rewrite Ess.
    pose proof (vpagesize_loop_spec fuel (vp_pt vs) u u (u + n) W) as L.
    rewrite Z.sub_diag in L. rewrite L by (done || lia). cbn [mbind outcome_bind].
    replace (u + n - u) with n by lia. by rewrite Esz.
  - destruct (vpagefree_loop_spec fuel (vp_pt vs) u u (u + n) W) as (st' & EF & W' & P);
      try (done || lia). rewrite Z.sub_diag in EF. replace (u + n - u) with n in EF by lia.
    unfold vpagefree. rewrite Ess, EF. cbn [mbind outcome_bind]. rewrite Esz. by eexists.
Qed.

(** Taking a block and releasing its pages again. *)
Lemma release_restores st st' st'' u n v :
  pages_ok st → run st u n → block_taken st st' u n → 0 ≤ v < vpages →
  page st'' v = (if decide (u ≤ v < u + n) then release_entry <$> page st' v else page st' v) →
  avail st'' v = avail st v ∧ started st'' v = started st v ∧ taken_page st'' v = taken_page st v.
Proof.
  intros Ok R [_ P'] Hv P. unfold avail, started, taken_page. rewrite P.
  destruct (decide (u ≤ v < u + n)) as [Hin | Hout]; [| by rewrite P', decide_False].
  destruct (avail_page _ v (R v Hin)) as (e & Ee & Av). rewrite P', decide_True, Ee by done.
  cbn [fmap option_fmap option_map]. destruct (release_flags (grab_entry (v =? u) e)) as [-> ->].
  destruct (Ok v Hv) as [O1 _]. specialize (O1 (R v Hin)). unfold started in O1.
  rewrite Ee in O1. by rewrite O1, Av.
Qed.

(** the block an allocation returned has the size asked for, and giving
    it back restores the pages and the count of them: every page is available,
    taken or the start of a block as before the allocation. *)
Theorem vpage_alloc_free_roundtrip (uninit : Z → Z) (vs : vp_state) (vsize a : Z) (vs' : vp_state)
    (fuel : nat) :
  let n := (vsize + 4095) / 4096 in
  keeps_storage uninit n → vp_wf vs → 0 < vsize → vsize + 4096 < 2 ^ 64 →
  vpagealloc uninit vsize vs = Ret (a, vs') → a ≠ 0 → (Z.to_nat n < fuel)%nat →
  vpagesize fuel a vs' = Ret (4096 * n) ∧
  ∃ vs'', vpagefree fuel a vs' = Ret (4096 * n, vs'') ∧ pt_wf (vp_pt vs'') ∧
    allocated_vpages vs'' = allocated_vpages vs ∧
    ∀ v, 0 ≤ v < vpages → avail (vp_pt vs'') v = avail (vp_pt vs) v ∧
      started (vp_pt vs'') v = started (vp_pt vs) v ∧
      taken_page (vp_pt vs'') v = taken_page (vp_pt vs) v.
Proof.
  intros n keeps W Hs Ho E Hne Hf.
  assert (1 ≤ n) by (apply Z.div_le_lower_bound; lia).
  destruct (vpagealloc_block uninit vs vsize a vs' keeps W Hs Ho E Hne) as (u & -> & Hu & Hhi & R & B & Ha).
  fold n in Hhi, R, B, Ha.
  pose proof (block_end _ _ u n B R Hu ltac:(lia) Hhi (proj2 W)) as Hend.
  pose proof (block_taken_pages _ _ u n (proj2 W) Hu Hhi R B) as BP.
  destruct (vpagefree_block fuel vs' u n (proj1 B)) as (ES & vs'' & EF & W' & C & P); try (done || lia).
  split; [done |]. exists vs''. split; [done |]. split; [done |]. split; [lia |].
  intros v Hv. by apply (release_restores _ (vp_pt vs') _ u n); [apply W | | | | apply P].
Qed.

(** *** A concrete address space *)

(** 2 MiB of available pages from 4 GiB on. *)
Definition example_vps : vp_state := VPS (chain_pt 0 4 0 (replicate 512 0x800)) 0.

Lemma example_vps_page v : page (vp_pt example_vps) v = None ∨ page (vp_pt example_vps) v = Some 0x800.
Proof.
  unfold page, entry_of.
  destruct (at_path (vp_pt example_vps) (vpath (4096 * v))) as [a |] eqn:E; [| by left].
  destruct (chain_paths 0 4 0 _ _ _ (vpath_ok _) E) as [[? _] | [[? _] | [[? _] | [_ ->]]]]; [done.. |].
  right. pose proof (vindex_ok 12 (4096 * v)) as [H0 H1]. cbn [mbind option_bind].
  change (tables (vp_pt example_vps) !! 0x4000) with (Some (replicate 512 0x800)).
  cbn [mbind option_bind]. apply lookup_replicate_2. lia.
Qed.

Lemma example_vps_wf : vp_wf example_vps.
Proof.
  split; [by apply chain_pt_wf, replicate_table_ok |]. intros v Hv.
  unfold avail, started, taken_page. destruct (example_vps_page v) as [-> | ->]; done.
Qed.

Lemma vpagealloc_correct_witness :
  ∃ vs', vpagealloc id 8000 example_vps = Ret (0x100000000, vs') ∧ vp_wf vs' ∧ allocated_vpages vs' = 2.
Proof.
  destruct (vpagealloc_correct id example_vps 8000 (fun _ x => eq_refl) example_vps_wf ltac:(done) ltac:(done))
    as (a & vs' & E & W & H).
  assert (fst <$> vpagealloc id 8000 example_vps = Ret 0x100000000) as E1 by (by vm_compute).
  rewrite E in E1. injection E1 as ->. exists vs'. rewrite E. split; [done |]. split; [done |].
  destruct H as [(u & _ & _ & _ & H & _) | [H _]]; [done | discriminate H].
Defined.

Lemma vpage_alloc_free_roundtrip_witness :
  ∃ vs' vs'', vpagealloc id 8000 example_vps = Ret (0x100000000, vs') ∧
    vpagesize 3 0x100000000 vs' = Ret 8192 ∧
    vpagefree 3 0x100000000 vs' = Ret (8192, vs'') ∧ allocated_vpages vs'' = 0.
Proof.
  assert (fst <$> vpagealloc id 8000 example_vps = Ret 0x100000000) as E1 by (by vm_compute).
  destruct (vpagealloc id 8000 example_vps) as [[a vs'] | | |] eqn:E; try done. injection E1 as ->.
  destruct (vpage_alloc_free_roundtrip id example_vps 8000 0x100000000 vs' 3 (fun _ x => eq_refl) example_vps_wf
    ltac:(done) ltac:(done) E ltac:(done) ltac:(apply Nat.ltb_lt; by vm_compute)) as (S & vs'' & F & _ & A & _).
  exists vs', vs''. by rewrite F.
Defined.

(** [starting_addr] is declared inside the loop without an initial value,
    and a block of several pages depends on it having kept the value of an
    earlier round.  With 0 in its place an allocation of two pages, which
    succeeds when the value is kept, dereferences a null pointer. *)
Theorem vpagealloc_needs_storage :
  (∃ vs', vpagealloc id 8192 example_vps = Ret (0x100000000, vs')) ∧
  vpagealloc (fun _ => 0) 8192 example_vps = OutOfBounds.
Proof.
  split; [| by vm_compute].
  assert (fst <$> vpagealloc id 8192 example_vps = Ret 0x100000000) as E by (by vm_compute).
  destruct (vpagealloc id 8192 example_vps) as [[a vs'] | | |]; try done. injection E as ->. by exists vs'.
Qed.
