(* ===== verification/PageAlloc.v ===== *)
(** * Memory for the kernel on x86-64

    [pagealloc], [pagealloc32], [pagealloc_phys32], [pagefree], [alloc_stack]
    and [free_stack] of [kernel/pagealloc.cpp]: a block of virtual pages, a
    block of physical pages, and the mapping of one to the other. *)

From S2P Require Import Prelude PhysPageMap PPageAlloc BitField PageEntry PageTree PageWalk VPageAlloc.

Section PageAlloc.
Context {M : Type} `{PhyspageMapManaged M}.

(** The virtual and the physical side. *)
Record mem_state := Mem {
  m_virt : vp_state;
  m_phys : ppage_state (M := M);
}.

(** The uninitialised variable of [vpagealloc], and a bound on the rounds of
    [vpagefree]. *)
Context (uninit : Z → Z) (vfuel : nat).

(** [ppagealloc] takes the lock around [ppagealloc_locked]. *)
Definition ppagealloc (size : Z) (ps : ppage_state (M := M)) : outcome (Z * ppage_state) :=
  ppagealloc_locked size ps.

(** ** Mapping *)

Definition pagealloc_entry (page_ppn pe : Z) : Z :=
  let pe := bf_set pe_page_ppn page_ppn pe in
  let pe := bf_set pe_present 1 pe in
  let pe := bf_set pe_writeable 1 pe in
  let pe := bf_set pe_execution_disabled 1 pe in
  let pe := bf_set pe_write_through 0 pe in
  bf_set pe_cache_disabled 0 pe.

Definition alloc_stack_entry (page_ppn pe : Z) : Z :=
  let pe := bf_set pe_page_ppn page_ppn pe in
  let pe := bf_set pe_present 1 pe in
  let pe := bf_set pe_writeable 1 pe in
  let pe := bf_set pe_write_through 0 pe in
  let pe := bf_set pe_cache_disabled 0 pe in
  bf_set pe_execution_disabled 1 pe.

(** for (offset = 0; offset < size; offset += 4096) *)
Fixpoint map_pages (entry : Z → Z → Z) (fuel : nat) (offset size vpages ppages : Z) (st : pt_state)
    : outcome pt_state :=
  match fuel with
  | O => OutOfFuel
  | S fuel =>
      if offset <? size then
        o ← get_pageentr st (u64 (vpages + offset));
        pe ← deref_pe o;
        let page_ppn := u64 (ppages + offset) in
        let page_ppn := Z.shiftr page_ppn 12 in
        '(_, st) ← update_pageentr st (u64 (vpages + offset)) (entry page_ppn pe);
        map_pages entry fuel (u64 (offset + 4096)) size vpages ppages st
      else Ret st
  end.

Definition map_rounds (size : Z) : nat := S (Z.to_nat ((size + 4095) / 4096)).

(** ** Blocks of memory *)

Definition pagealloc_phys32 (size : Z) (s : mem_state) : outcome (Z * mem_state) :=
  '(vpages, vs) ← vpagealloc uninit size (m_virt s);
  if negb (vpages =? 0) then
    '(ppages, ps) ← ppagealloc32 size (m_phys s);
    if negb (ppages =? 0) then
      st ← map_pages pagealloc_entry (map_rounds size) 0 size vpages ppages (vp_pt vs);
      Ret (vpages, Mem (VPS st (allocated_vpages vs)) ps)
    else
      '(_, vs) ← vpagefree vfuel vpages vs;
      Ret (0, Mem vs ps)
  else Ret (vpages, Mem vs (m_phys s)).

Definition pagealloc32 (size : Z) (s : mem_state) : outcome (Z * mem_state) :=
  '(vpages, vs) ← vpagealloc32 uninit size (m_virt s);
  if negb (vpages =? 0) then
    '(ppages, ps) ← ppagealloc32 size (m_phys s);
    if negb (ppages =? 0) then
      st ← map_pages pagealloc_entry (map_rounds size) 0 size vpages ppages (vp_pt vs);
      Ret (vpages, Mem (VPS st (allocated_vpages vs)) ps)
    else
      '(_, vs) ← vpagefree vfuel vpages vs;
      Ret (0, Mem vs ps)
  else Ret (vpages, Mem vs (m_phys s)).

Definition pagealloc (size : Z) (s : mem_state) : outcome (Z * mem_state) :=
  '(vpages, vs) ← vpagealloc uninit size (m_virt s);
  if negb (vpages =? 0) then
    '(ppages, ps) ← ppagealloc size (m_phys s);
    if negb (ppages =? 0) then
      st ← map_pages pagealloc_entry (map_rounds size) 0 size vpages ppages (vp_pt vs);
      Ret (vpages, Mem (VPS st (allocated_vpages vs)) ps)
    else
      '(_, vs) ← vpagefree_sized vfuel vpages size vs;
      Ret (0, Mem vs ps)
  else Ret (vpages, Mem vs (m_phys s)).

(** The overload with a size; the instruction ud2 ends the kernel. *)
Definition pagefree_sized (vaddr size : Z) (s : mem_state) : outcome mem_state :=
  let vai := vaddr in
  phys ← get_phys_from_virt (vp_pt (m_virt s)) vai;
  '(vsize, vs) ← vpagefree vfuel vai (m_virt s);
  if negb (size =? vsize) then Panicked
  else
    ps ← ppagefree phys size (m_phys s);
    Ret (Mem vs ps).

Definition pagefree (vaddr : Z) (s : mem_state) : outcome mem_state :=
  let vai := vaddr in
  phys ← get_phys_from_virt (vp_pt (m_virt s)) vai;
  '(size, vs) ← vpagefree vfuel vai (m_virt s);
  ps ← ppagefree phys size (m_phys s);
  Ret (Mem vs ps).

(** ** Stacks *)

Definition alloc_stack (size : Z) (s : mem_state) : outcome (Z * mem_state) :=
  '(vaddr_bottom, vs) ← vpagealloc uninit (u64 (size + 4096)) (m_virt s);
  if negb (vaddr_bottom =? 0) then
    let vaddr_start := u64 (vaddr_bottom + 4096) in
    '(paddr_start, ps) ← ppagealloc size (m_phys s);
    if negb (paddr_start =? 0) then
      st ← map_pages alloc_stack_entry (map_rounds size) 0 size vaddr_start paddr_start (vp_pt vs);
      Ret (u64 (vaddr_start + size), Mem (VPS st (allocated_vpages vs)) ps)
    else
      '(_, vs) ← vpagefree_sized vfuel vaddr_bottom (u64 (size + 4096)) vs;
      Ret (0, Mem vs ps)
  else Ret (0, Mem vs (m_phys s)).

(** Down from the page below [vaddr]; the pages found are [size] so far, the
    last of them at physical page [phys_addr]. *)
Fixpoint free_stack_loop (fuel : nat) (vaddr size phys_addr : Z) (vs : vp_state)
    : outcome (Z * Z * vp_state) :=
  match fuel with
  | O => OutOfFuel
  | S fuel =>
      let vaddr := u64 (vaddr - 1) in
      o ← vpn_entry (vp_pt vs) vaddr;
      match o with
      | None => Panicked
      | Some r =>
          pe ← read_pe (vp_pt vs) r;
          if bf_flag pe_os_virt_avail pe then Panicked else
          let first_page := bf_flag pe_os_virt_start pe in
          if bf_flag pe_present pe && first_page then Panicked else
          if negb (bf_flag pe_present pe) && negb first_page then Panicked else
          let '(phys_addr, size) :=
            if bf_flag pe_present pe then (bf_get pe_page_ppn pe, u64 (size + 1))
            else (phys_addr, size) in
          let pe := bf_set pe_os_virt_avail 1 pe in
          let pe := bf_set pe_os_virt_start 0 pe in
          let allocated := allocated_vpages vs - 1 in
          if first_page then
            st ← write_pe (vp_pt vs) r pe;
            Ret (phys_addr, size, VPS st allocated)
          else
            st ← write_pe (vp_pt vs) r (bf_set pe_present 0 pe);
            free_stack_loop fuel vaddr size phys_addr (VPS st allocated)
      end
  end.

Definition free_stack (vaddr : Z) (s : mem_state) : outcome mem_state :=
  let vaddr := Z.shiftr vaddr 12 in
  '(phys_addr, size, vs) ← free_stack_loop vfuel vaddr 0 0 (m_virt s);
  let phys_addr := u64 (Z.shiftl phys_addr 12) in
  let size := u64 (Z.shiftl size 12) in
  ps ← ppagefree phys_addr size (m_phys s);
  Ret (Mem vs ps).

End PageAlloc.

(** ** What the allocator knows of a page *)

(** Page tables that agree on which pages are available, taken, and the start
    of a block. *)
Definition same_alloc (st st' : pt_state) : Prop :=
  ∀ v, 0 ≤ v < vpages →
    avail st v = avail st' v ∧ started st v = started st' v ∧ taken_page st v = taken_page st' v.

#[export] Instance same_alloc_equiv : Equivalence same_alloc.
Proof.
  split.
  - by intros st v Hv.
  - intros st1 st2 E v Hv. destruct (E v Hv) as (-> & -> & ->). done.
  - intros st1 st2 st3 E1 E2 v Hv. destruct (E1 v Hv) as (-> & -> & ->). by apply E2.
Qed.

#[export] Instance pages_ok_proper : Proper (same_alloc ==> iff) pages_ok.
Proof.
  assert (∀ st st', same_alloc st st' → pages_ok st → pages_ok st') as I.
  { intros st st' E Ok v Hv. destruct (E v Hv) as (<- & <- & <-). destruct (Ok v Hv) as [O1 O2].
    split; [done |]. intros T N. destruct (O2 T N) as [H0 T']. split; [done |].
    by destruct (E (v - 1) ltac:(unfold vpages in *; lia)) as (_ & _ & <-). }
  intros st st' E. by split; apply I.
Qed.

Lemma page_none st v : page st v = None ↔ avail st v = false ∧ taken_page st v = false.
Proof.
  unfold avail, taken_page. destruct (page st v) as [e |]; [| tauto].
  destruct (bf_flag pe_os_virt_avail e); split; (done || by intros [? ?]).
Qed.

(** The same pages behind a block. *)
Lemma same_end st st' v :
  same_alloc st st' → 0 ≤ v < vpages →
  page st v = None ∨ avail st v = true ∨ started st v = true →
  page st' v = None ∨ avail st' v = true ∨ started st' v = true.
Proof. intros E Hv. rewrite !page_none. by destruct (E v Hv) as (-> & -> & ->). Qed.

Lemma same_block st st' u w hi :
  same_alloc st st' → 0 ≤ w → hi ≤ vpages → block_pages st u w hi → block_pages st' u w hi.
Proof. intros E Hw Hhi B v Hv. destruct (E v ltac:(lia)) as (_ & <- & <-). by apply B. Qed.

Lemma taken_some st v : taken_page st v = true → is_Some (page st v).
Proof. unfold taken_page. destruct (page st v); [by eexists | done]. Qed.

(** ** Mapping a block *)

Lemma update_page st w upd e :
  pt_wf st → 0 ≤ w < vpages → page st w = Some e →
  ∃ st', update_pageentr st (4096 * w) upd = Ret (true, st') ∧ pt_wf st' ∧
    ∀ v, 0 ≤ v < vpages → page st' v = if decide (v = w) then Some (merge_pageentr upd e) else page st v.
Proof.
  intros W Hw E. pose proof (update_pageentr_spec st (4096 * w) upd W) as U.
  unfold page in E. rewrite E in U. destruct U as (st' & -> & W' & P). exists st'. split_and!; try done.
  intros v Hv. unfold page. by rewrite P, !vpage_page.
Qed.

(** The pages a loop maps. *)
Definition mapped_entry (entry : Z → Z → Z) (ppn e : Z) : Z := merge_pageentr (entry ppn e) e.

Lemma map_pages_spec entry fuel st u p k size n :
  pt_wf st → n = (size + 4095) / 4096 → size + 4096 < 2 ^ 64 → 0 ≤ k ≤ n →
  0 ≤ u → u + n ≤ vpages → 0 ≤ p → p + n ≤ 2 ^ 32 →
  (∀ v, u ≤ v < u + n → is_Some (page st v)) → (Z.to_nat (n - k) < fuel)%nat →
  ∃ st', map_pages entry fuel (4096 * k) size (4096 * u) (4096 * p) st = Ret st' ∧ pt_wf st' ∧
    ∀ v, 0 ≤ v < vpages → page st' v =
      if decide (u + k ≤ v < u + n) then mapped_entry entry (p + (v - u)) <$> page st v else page st v.
Proof.
  unfold vpages. intros W Hn Ho Hk Hu Hhi Hp Hpm Hex. pose proof (Z.div_mod (size + 4095) 4096 ltac:(done)) as D.
  pose proof (Z.mod_pos_bound (size + 4095) 4096 ltac:(done)) as D'. rewrite <- Hn in D.
  revert st k W Hk Hex. induction fuel as [| fuel IH]; intros st k W Hk Hex Hf; [lia |].
  cbn [map_pages]. destruct (Z.ltb_spec (4096 * k) size).
  2:{ exists st. split_and!; try done. intros v Hv. by rewrite decide_False by lia. }
  replace (4096 * u + 4096 * k) with (4096 * (u + k)) by lia.
  replace (4096 * p + 4096 * k) with (4096 * (p + k)) by lia.
  rewrite !(wrap_id 64) by (unfold is_u; lia).
  destruct (Hex (u + k) ltac:(lia)) as [e Ee]. rewrite get_pageentr_spec by done.
  unfold page in Ee at 1. rewrite Ee. cbn [mbind outcome_bind deref_pe].
  rewrite shift_page by lia.
  destruct (update_page st (u + k) (entry (p + k) e) e) as (st1 & -> & W1 & P1);
    [done | unfold vpages; lia | done |]. cbn [mbind outcome_bind].
  replace (4096 * k + 4096) with (4096 * (k + 1)) by lia.
  destruct (IH st1 (k + 1)) as (st' & -> & W' & P'); [done | lia | | lia |].
  { intros v Hv. rewrite P1 by (unfold vpages; lia). case_decide; [by eexists | by apply Hex]. }
  exists st'. split_and!; try done. intros v Hv. rewrite P', P1 by done.
  destruct (decide (v = u + k)) as [-> |].
  - rewrite decide_False, decide_True by lia. change (page st (u + k)) with (entry_of st (4096 * (u + k))).
    rewrite Ee. cbn [fmap option_fmap option_map]. unfold mapped_entry. do 3 f_equal. lia.
  - destruct (decide (u + (k + 1) ≤ v < u + n)), (decide (u + k ≤ v < u + n)); (done || lia).
Qed.

(** What a mapping makes of an entry: the physical page, for the kernel's use
    without execution, and the bits of the allocator as they were. *)
Definition maps (entry : Z → Z → Z) : Prop :=
  ∀ ppn e, let e' := mapped_entry entry ppn e in
    bf_get pe_page_ppn e' = wrap 28 ppn ∧ bf_flag pe_present e' = true ∧ bf_flag pe_writeable e' = true ∧
    bf_flag pe_execution_disabled e' = true ∧
    bf_get pe_os_virt_avail e' = bf_get pe_os_virt_avail e ∧
    bf_get pe_os_virt_start e' = bf_get pe_os_virt_start e.

Lemma pagealloc_entry_maps : maps pagealloc_entry.
Proof.
  intros ppn e. unfold mapped_entry, merge_pageentr, pagealloc_entry, bf_flag. cbv zeta.
  split_and!; fields; try done. cbn [bf_bits pe_page_ppn]. apply wrap_wrap.
Qed.

Lemma alloc_stack_entry_maps : maps alloc_stack_entry.
Proof.
  intros ppn e. unfold mapped_entry, merge_pageentr, alloc_stack_entry, bf_flag. cbv zeta.
  split_and!; fields; try done. cbn [bf_bits pe_page_ppn]. apply wrap_wrap.
Qed.

(** The pages [u, u+n) mapped to the physical pages from [p] on. *)
Definition mapped (st : pt_state) (u n p : Z) : Prop :=
  ∀ v, u ≤ v < u + n → ∃ e, page st v = Some e ∧ bf_get pe_page_ppn e = p + (v - u) ∧
    bf_flag pe_present e = true ∧ bf_flag pe_writeable e = true ∧ bf_flag pe_execution_disabled e = true.

Lemma map_block entry st u p size n :
  maps entry → pt_wf st → n = (size + 4095) / 4096 → size + 4096 < 2 ^ 64 → 0 ≤ n →
  0 ≤ u → u + n ≤ vpages → 0 ≤ p → p + n ≤ 2 ^ 28 →
  (∀ v, u ≤ v < u + n → is_Some (page st v)) →
  ∃ st', map_pages entry (map_rounds size) 0 size (4096 * u) (4096 * p) st = Ret st' ∧ pt_wf st' ∧
    same_alloc st st' ∧ mapped st' u n p ∧
    ∀ v, 0 ≤ v < vpages → ¬ u ≤ v < u + n → page st' v = page st v.
Proof.
  intros Hm W Hn Ho Hn0 Hu Hhi Hp Hpm Hex.
  destruct (map_pages_spec entry (map_rounds size) st u p 0 size n) as (st' & E & W' & P);
    try (done || lia); [unfold map_rounds; rewrite <- Hn; lia |].
  exists st'. rewrite Z.add_0_r in P. split_and!; try done.
  - intros v Hv. unfold avail, started, taken_page. rewrite P by done. case_decide as D; [| done].
    destruct (Hex v D) as [e ->]. cbn [fmap option_fmap option_map]. unfold bf_flag.
    by destruct (Hm (p + (v - u)) e) as (_ & _ & _ & _ & -> & ->).
  - intros v Hv. destruct (Hex v Hv) as [e Ee]. exists (mapped_entry entry (p + (v - u)) e).
    rewrite P, decide_True, Ee by (done || lia). split; [done |].
    destruct (Hm (p + (v - u)) e) as (-> & -> & -> & -> & _). rewrite wrap_id by (unfold is_u; lia). done.
  - intros v Hv N. by rewrite P, decide_False.
Qed.

(** Every address of a page has the entry of the page. *)
Lemma entry_of_offset st v x : 0 ≤ x < 4096 → entry_of st (4096 * v + x) = page st v.
Proof.
  intros Hx. assert (∀ s, 0 ≤ s → vindex (12 + s) (4096 * v + x) = vindex (12 + s) (4096 * v)) as E.
  { intros s Hs. unfold vindex. f_equal. rewrite <- !Z.shiftr_shiftr by lia. f_equal.
    rewrite !Z.shiftr_div_pow2 by lia. change (2 ^ 12) with 4096.
    rewrite (Z.mul_comm 4096), Z.div_add_l, Z.div_mul, (Z.div_small x) by lia. lia. }
  unfold page, entry_of, vpath. change (vindex 12) with (vindex (12 + 0)).
  change 39 with (12 + 27). change 30 with (12 + 18). change 21 with (12 + 9). by rewrite !E by lia.
Qed.

Lemma mapped_phys st u n p x :
  pt_wf st → mapped st u n p → 0 ≤ x < 4096 * n →
  get_phys_from_virt st (4096 * u + x) = Ret (4096 * p + x).
Proof.
  intros W Hm Hx. pose proof (Z.div_mod x 4096 ltac:(done)). pose proof (Z.mod_pos_bound x 4096 ltac:(done)).
  destruct (Hm (u + x / 4096) ltac:(lia)) as (e & Ee & Hp & _).
  replace (4096 * u + x) with (4096 * (u + x / 4096) + x mod 4096) by lia.
  rewrite (phys_of_entry st _ e W) by (by rewrite entry_of_offset).
  rewrite Hp, (Z.mul_comm 4096 (u + x / 4096)), (Z.add_comm (_ * 4096)), Z.mod_add, Z.mod_mod by lia.
  f_equal. lia.
Qed.

(** ** Correctness *)

Section Correctness.
Context {M : Type} `{PhyspageMapManaged M} `{!PhyspageMapLaws M}.

(** A well-formed state: page 0 is not handed out, and every physical page
    has a number that fits a page table entry. *)
Definition phys_wf (ps : ppage_state (M := M)) : Prop :=
  pm_wf (physp ps) ∧ (pm_base (physp ps) = 0 → pm_used (physp ps) 0 = true) ∧ pm_max (physp ps) ≤ 2 ^ 28.

Definition mem_wf (s : mem_state (M := M)) : Prop := vp_wf (m_virt s) ∧ phys_wf (m_phys s).

(** The pages [u, u+n), taken as the start of a block with [g] pages in front
    of the mapped ones, and the physical pages from [p] on behind them. *)
Record backed (s s' : mem_state (M := M)) (u g n p : Z) : Prop := {
  bk_virt : run (vp_pt (m_virt s)) u (g + n);
  bk_phys : free_run (physp (m_phys s)) p n;
  bk_grabbed : grabbed (physp (m_phys s)) (physp (m_phys s')) p n;
  bk_mapped : mapped (vp_pt (m_virt s')) (u + g) n p;
  bk_block : ∀ v, u ≤ v < u + (g + n) →
    taken_page (vp_pt (m_virt s')) v = true ∧ started (vp_pt (m_virt s')) v = (v =? u);
  bk_guard : ∀ v, u ≤ v < u + g → ∃ e, page (vp_pt (m_virt s')) v = Some e ∧ bf_flag pe_present e = false;
  bk_other : ∀ v, 0 ≤ v < vpages → ¬ u ≤ v < u + (g + n) →
    page (vp_pt (m_virt s')) v = page (vp_pt (m_virt s)) v;
  bk_vcount : allocated_vpages (m_virt s') = allocated_vpages (m_virt s) + (g + n);
  bk_pcount : allocated_ppages (m_phys s') = allocated_ppages (m_phys s) + n;
}.

(** Nothing is allocated that was not before. *)
Definition unchanged (s s' : mem_state (M := M)) : Prop :=
  same_alloc (vp_pt (m_virt s)) (vp_pt (m_virt s')) ∧
  allocated_vpages (m_virt s') = allocated_vpages (m_virt s) ∧
  allocated_ppages (m_phys s') = allocated_ppages (m_phys s) ∧
  ∀ q, is_u 32 q → pm_used (physp (m_phys s')) q = pm_used (physp (m_phys s)) q.

Lemma grabbed_wf ps ps' p n : phys_wf ps → grabbed (physp ps) (physp ps') p n → phys_wf ps'.
Proof.
  intros (W & Z0 & Hm) (W' & B & X & U). unfold phys_wf. rewrite B, X. split_and!; try done.
  intros E. rewrite U by done. by rewrite Z0.
Qed.

(** Taking [g + n] pages and mapping the last [n] of them. *)
Lemma backed_ok entry s lo hi u g n p plo size vs ps :
  maps entry → mem_wf s → 0 ≤ lo → hi < vpages → 0 ≤ g → n = (size + 4095) / 4096 → 1 ≤ n →
  size + 4096 < 2 ^ 64 →
  allocated_in lo hi (g + n) (m_virt s) (4096 * u) vs → allocated (m_phys s) ps plo (4096 * p) n →
  ∃ st, map_pages entry (map_rounds size) 0 size (4096 * (u + g)) (4096 * p) (vp_pt vs) = Ret st ∧
    mem_wf (Mem (VPS st (allocated_vpages vs)) ps) ∧
    backed s (Mem (VPS st (allocated_vpages vs)) ps) u g n p.
Proof.
  intros Hm [Wv Wp] Hlo Hhi Hg En Hn Ho Av Ap. pose proof (allocated_in_wf _ _ _ _ _ _ Wv Hlo Hhi Av) as Wv'.
  destruct Av as (u' & Eu & H1 & H2 & R & B & Cv). assert (u' = u) as -> by lia.
  destruct Ap as (p' & Ep & Hp & Hplo & Rp & _ & G & Cp). assert (p' = p) as -> by lia.
  destruct (free_run_tracked _ p n (proj1 Wp) Hn Rp) as [_ Hpm]. destruct Wp as (Wm & Z0 & Hmax).
  pose proof (block_taken_pages _ _ u (g + n) (proj2 Wv) ltac:(lia) ltac:(lia) R B) as BP.
  destruct (map_block entry (vp_pt vs) (u + g) p size n) as (st & E & W & S & Mp & Other);
    try (done || lia); [apply B | |].
  { intros v Hv. apply taken_some, BP. lia. }
  exists st. split; [done |]. split.
  { split; [split; [done | cbn [m_virt vp_pt]; rewrite <- S; apply Wv'] |]. by apply (grabbed_wf (m_phys s) ps p n). }
  split; try (done || lia); cbn [m_virt vp_pt].
  - intros v Hv. destruct (S v ltac:(lia)) as (_ & <- & <-).
    destruct (block_flags _ _ u (g + n) v B R ltac:(lia)) as (_ & -> & ->).
    rewrite bool_decide_eq_true_2, orb_true_r by done. split; [done |].
    destruct (proj2 Wv v ltac:(lia)) as [O1 _]. by rewrite (O1 (R v Hv)).
  - intros v Hv. rewrite Other by lia. destruct B as [_ P]. rewrite P, decide_True by lia.
    destruct (run_page _ u (g + n) v R ltac:(lia)) as [e ->]. eexists. split; [done |].
    unfold grab_entry, bf_flag. by destruct (v =? u); fields.
  - intros v Hv N. rewrite Other by lia. destruct B as [_ P]. by rewrite P, decide_False.
Qed.

(** Giving back the virtual pages of an allocation. *)
Lemma undo_ok fuel lo hi n vs a vs' :
  vp_wf vs → 0 ≤ lo → hi < vpages → 1 ≤ n → (Z.to_nat n < fuel)%nat → allocated_in lo hi n vs a vs' →
  ∃ vs'', vpagefree fuel a vs' = Ret (4096 * n, vs'') ∧ vp_wf vs'' ∧
    same_alloc (vp_pt vs) (vp_pt vs'') ∧ allocated_vpages vs'' = allocated_vpages vs.
Proof.
  intros W Hlo Hhi Hn Hf (u & -> & H1 & H2 & R & B & C).
  pose proof (block_end _ _ u n B R ltac:(lia) ltac:(lia) ltac:(lia) (proj2 W)) as Hend.
  pose proof (block_taken_pages _ _ u n (proj2 W) ltac:(lia) ltac:(lia) R B) as BP.
  destruct (vpagefree_block fuel vs' u n (proj1 B)) as (_ & vs'' & EF & W' & C' & P); try (done || lia).
  assert (same_alloc (vp_pt vs) (vp_pt vs'')) as S.
  { intros v Hv. destruct (release_restores (vp_pt vs) (vp_pt vs') (vp_pt vs'') u n v) as (-> & -> & ->);
      try done; [apply W | by apply P]. }
  exists vs''. split_and!; try (done || lia). split; [done |]. rewrite <- S. apply W.
Qed.

(** With the virtual pages taken, either the physical pages are there and get
    mapped, or the virtual pages go back. *)
Lemma alloc_tail entry fuel s lo hi u g n plo size vs (pal : outcome (Z * ppage_state)) (Q : Prop) :
  maps entry → mem_wf s → 0 ≤ lo → hi < vpages → 0 ≤ g → n = (size + 4095) / 4096 → 1 ≤ n →
  size + 4096 < 2 ^ 64 → (Z.to_nat (g + n) < fuel)%nat →
  allocated_in lo hi (g + n) (m_virt s) (4096 * u) vs →
  (∃ pa ps, pal = Ret (pa, ps) ∧ (allocated (m_phys s) ps plo pa n ∨ pa = 0 ∧ ps = m_phys s ∧ Q)) →
  (∃ p ps st, pal = Ret (4096 * p, ps) ∧ 0 < p ∧
    map_pages entry (map_rounds size) 0 size (4096 * (u + g)) (4096 * p) (vp_pt vs) = Ret st ∧
    mem_wf (Mem (VPS st (allocated_vpages vs)) ps) ∧
    backed s (Mem (VPS st (allocated_vpages vs)) ps) u g n p) ∨
  (pal = Ret (0, m_phys s) ∧ Q ∧ ∃ vs', vpagefree fuel (4096 * u) vs = Ret (4096 * (g + n), vs') ∧
    mem_wf (Mem vs' (m_phys s)) ∧ unchanged s (Mem vs' (m_phys s))).
Proof.
  intros Hm W Hlo Hhi Hg En Hn Ho Hf Av (pa & ps & -> & [Ap | (-> & -> & HQ)]).
  - left. pose proof Ap as (p & -> & Hp & _).
    destruct (backed_ok entry s lo hi u g n p plo size vs ps) as (st & E & W' & B); try done.
    by exists p, ps, st.
  - right. split_and!; try done.
    destruct (undo_ok fuel lo hi (g + n) (m_virt s) (4096 * u) vs) as (vs' & E & W' & S & C);
      try (done || lia); [apply W |].
    exists vs'. split_and!; try done. split; [done | apply W].
Qed.

Context (uninit : Z → Z) (vfuel : nat).

(** An allocation of [n] pages: a block is found and backed, or nothing is
    allocated and [Q] holds. *)
Definition alloc_ok (s : mem_state (M := M)) (n lo hi : Z) (r : outcome (Z * mem_state)) (Q : Prop) : Prop :=
  ∃ a s', r = Ret (a, s') ∧ mem_wf s' ∧
    ((∃ u p, a = 4096 * u ∧ lo ≤ u ∧ u + n ≤ hi ∧ backed s s' u 0 n p ∧
        ∀ x, 0 ≤ x < 4096 * n → get_phys_from_virt (vp_pt (m_virt s')) (a + x) = Ret (4096 * p + x)) ∨
     (a = 0 ∧ unchanged s s' ∧ Q)).

Lemma backed_result s s' n lo hi u p Q :
  mem_wf s' → backed s s' u 0 n p → lo ≤ u → u + n ≤ hi → alloc_ok s n lo hi (Ret (4096 * u, s')) Q.
Proof.
  intros W B H1 H2. exists (4096 * u), s'. split_and!; try done. left. exists u, p. split_and!; try done.
  intros x Hx. apply (mapped_phys _ u n); [apply W | | done]. pose proof (bk_mapped _ _ _ _ _ _ B) as Mp.
  by rewrite Z.add_0_r in Mp.
Qed.

(** The same for a failed search of virtual pages. *)
Lemma unchanged_refl s : unchanged s s.
Proof. by split_and!. Qed.

Lemma nonzero_block u : 0 < u → negb (4096 * u =? 0) = true.
Proof. lia. Qed.

Definition no_vpages (s : mem_state (M := M)) (n : Z) : Prop :=
  no_run (vp_pt (m_virt s)) high_first high_end n ∧ no_run (vp_pt (m_virt s)) low_first high_first n.

(** A block of [vpagealloc]. *)
Lemma vpagealloc_cases s size :
  let n := (size + 4095) / 4096 in
  keeps_storage uninit n → mem_wf s → 0 < size → size + 4096 < 2 ^ 64 →
  (∃ u vs, vpagealloc uninit size (m_virt s) = Ret (4096 * u, vs) ∧ low_first ≤ u ∧ u + n ≤ high_end ∧
    allocated_in low_first high_end n (m_virt s) (4096 * u) vs) ∨
  (vpagealloc uninit size (m_virt s) = Ret (0, m_virt s) ∧ no_vpages s n).
Proof.
  intros n keeps W Hs Ho.
  destruct (vpagealloc_spec uninit (m_virt s) size (proj1 (proj1 W)) Hs Ho keeps) as (a & vs & E & D).
  fold n in D. unfold no_vpages, allocated_in in *. unfold low_first, high_first, high_end, vpn in *.
  destruct D as [A | [[A _] | (-> & -> & N)]]; [left | left | by right];
    destruct A as (u & -> & A); exists u, vs; split_and!; try (done || lia); exists u; intuition lia.
Qed.

Lemma pages_of_size size : 0 < size → 1 ≤ (size + 4095) / 4096.
Proof. intros. apply Z.div_le_lower_bound; lia. Qed.

Lemma pagealloc_spec s size :
  let n := (size + 4095) / 4096 in
  keeps_storage uninit n → mem_wf s → 0 < size → size + 4096 < 2 ^ 64 →
  (Z.to_nat n < vfuel)%nat →
  alloc_ok s n low_first high_end (pagealloc uninit vfuel size s)
    (no_vpages s n ∨ ∀ p, ¬ free_run (physp (m_phys s)) p n).
Proof.
  intros n keeps W Hs Ho Hf. pose proof (pages_of_size size Hs) as Hn. fold n in Hn.
  unfold pagealloc, ppagealloc, vpagefree_sized.
  destruct (vpagealloc_cases s size keeps W Hs Ho) as [(u & vs & -> & H1 & H2 & A) | (-> & N)]; cbn [mbind outcome_bind].
  2:{ exists 0, s. split; [by destruct s |]. split; [done |]. right. by split_and!; [| apply unchanged_refl | left]. }
  fold n in H1, H2, A. rewrite nonzero_block by (unfold low_first, vpn in *; lia).
  pose proof (ppagealloc_locked_spec (m_phys s) size (proj1 (proj2 W)) (proj1 (proj2 (proj2 W))) Hs Ho) as P.
  destruct (alloc_tail _ vfuel s low_first high_end u 0 n _ size vs _ _ pagealloc_entry_maps W
    ltac:(done) ltac:(done) ltac:(done) eq_refl Hn Ho Hf A P)
    as [(p & ps & st & -> & Hp & Em & W' & B) | (-> & N & vs' & Ef & W' & U)]; cbn [mbind outcome_bind].
  - rewrite nonzero_block by done. rewrite Z.add_0_r in Em. rewrite Em. cbn [mbind outcome_bind].
    by apply (backed_result s _ n _ _ u p).
  - cbn [Z.eqb negb]. rewrite Ef. cbn [mbind outcome_bind]. eexists 0, _. split; [done |]. split; [done |].
    right. by split_and!; [| | right].
Qed.

Lemma pagealloc32_spec s size :
  let n := (size + 4095) / 4096 in
  keeps_storage uninit n → mem_wf s → 256 ≤ pm_max (physp (m_phys s)) < 2 ^ 20 → 0 < size → size + 4096 < 2 ^ 32 →
  (Z.to_nat n < vfuel)%nat →
  alloc_ok s n low_first high_first (pagealloc32 uninit vfuel size s)
    (no_run (vp_pt (m_virt s)) low_first high_first n ∨
     ∀ p, 256 ≤ p → ¬ free_run (physp (m_phys s)) p n).
Proof.
  intros n keeps W Hm Hs Ho Hf. pose proof (pages_of_size size Hs) as Hn. fold n in Hn. unfold pagealloc32.
  destruct (vpagealloc32_spec uninit (m_virt s) size (proj1 (proj1 W)) Hs ltac:(lia) keeps)
    as (a & vs & -> & [A | (-> & -> & N)]); cbn [mbind outcome_bind].
  2:{ exists 0, s. split; [by destruct s |]. split; [done |]. right. by split_and!; [| apply unchanged_refl | left]. }
  fold n in A. pose proof A as (u & -> & H1 & H2 & _).
  rewrite nonzero_block by (unfold low_first, vpn in *; lia).
  pose proof (ppagealloc32_spec (m_phys s) size (proj1 (proj2 W)) Hm Hs Ho) as P.
  destruct (alloc_tail _ vfuel s low_first high_first u 0 n _ size vs _ _ pagealloc_entry_maps W
    ltac:(done) ltac:(done) ltac:(done) eq_refl Hn ltac:(lia) Hf A P)
    as [(p & ps & st & -> & Hp & Em & W' & B) | (-> & N & vs' & Ef & W' & U)]; cbn [mbind outcome_bind].
  - rewrite nonzero_block by done. rewrite Z.add_0_r in Em. rewrite Em. cbn [mbind outcome_bind].
    by apply (backed_result s _ n _ _ u p).
  - cbn [Z.eqb negb]. rewrite Ef. cbn [mbind outcome_bind]. eexists 0, _. split; [done |]. split; [done |].
    right. by split_and!; [| | right].
Qed.

Lemma pagealloc_phys32_spec s size :
  let n := (size + 4095) / 4096 in
  keeps_storage uninit n → mem_wf s → 256 ≤ pm_max (physp (m_phys s)) < 2 ^ 20 → 0 < size → size + 4096 < 2 ^ 32 →
  (Z.to_nat n < vfuel)%nat →
  alloc_ok s n low_first high_end (pagealloc_phys32 uninit vfuel size s)
    (no_vpages s n ∨ ∀ p, 256 ≤ p → ¬ free_run (physp (m_phys s)) p n).
Proof.
  intros n keeps W Hm Hs Ho Hf. pose proof (pages_of_size size Hs) as Hn. fold n in Hn. unfold pagealloc_phys32.
  destruct (vpagealloc_cases s size keeps W Hs ltac:(lia)) as [(u & vs & -> & H1 & H2 & A) | (-> & N)];
    cbn [mbind outcome_bind].
  2:{ exists 0, s. split; [by destruct s |]. split; [done |]. right. by split_and!; [| apply unchanged_refl | left]. }
  fold n in H1, H2, A. rewrite nonzero_block by (unfold low_first, vpn in *; lia).
  pose proof (ppagealloc32_spec (m_phys s) size (proj1 (proj2 W)) Hm Hs Ho) as P.
  destruct (alloc_tail _ vfuel s low_first high_end u 0 n _ size vs _ _ pagealloc_entry_maps W
    ltac:(done) ltac:(done) ltac:(done) eq_refl Hn ltac:(lia) Hf A P)
    as [(p & ps & st & -> & Hp & Em & W' & B) | (-> & N & vs' & Ef & W' & U)]; cbn [mbind outcome_bind].
  - rewrite nonzero_block by done. rewrite Z.add_0_r in Em. rewrite Em. cbn [mbind outcome_bind].
    by apply (backed_result s _ n _ _ u p).
  - cbn [Z.eqb negb]. rewrite Ef. cbn [mbind outcome_bind]. eexists 0, _. split; [done |]. split; [done |].
    right. by split_and!; [| | right].
Qed.

(** ** Freeing *)

(** A block whose pages are available again. *)
Lemma freed_same st st' st'' u n :
  pages_ok st → run st u n →
  (∀ v, 0 ≤ v < vpages → ¬ u ≤ v < u + n → page st' v = page st v) →
  (∀ v, 0 ≤ v < vpages → if decide (u ≤ v < u + n)
    then ∃ e, page st'' v = Some e ∧ bf_flag pe_os_virt_avail e = true ∧ bf_flag pe_os_virt_start e = false
    else page st'' v = page st' v) →
  same_alloc st st''.
Proof.
  intros Ok R P' P v Hv. specialize (P v Hv). unfold avail, started, taken_page.
  case_decide as D; [| by rewrite P, P'].
  destruct P as (e & -> & -> & ->). pose proof (R v D) as A. destruct (Ok v Hv) as [O1 _]. specialize (O1 A).
  unfold avail, started in *. destruct (page st v) as [e0 |]; [| done]. by rewrite A, O1.
Qed.

(** The physical pages of a block go back as well. *)
Lemma backed_ppagefree s s' u g n p :
  mem_wf s → 1 ≤ n → backed s s' u g n p →
  ∃ ps, ppagefree (4096 * p) (4096 * n) (m_phys s') = Ret ps ∧ phys_wf ps ∧
    allocated_ppages ps = allocated_ppages (m_phys s) ∧
    ∀ q, is_u 32 q → pm_used (physp ps) q = pm_used (physp (m_phys s)) q.
Proof.
  intros [_ (W & Z0 & Hm)] Hn B. pose proof (pm_bounds _ W) as [Hb _].
  destruct (free_run_tracked _ p n W Hn (bk_phys _ _ _ _ _ _ B)) as [Hp0 Hp1].
  destruct (ppagefree_grabbed (m_phys s) (m_phys s') p n (4096 * n)) as (ps & E & C & W' & [Eb Ex] & U);
    try (done || lia); [| apply B | apply B |].
  { rewrite (Z.mul_comm 4096), Z.add_comm, Z.div_add by lia. change (4095 / 4096) with 0. lia. }
  exists ps. pose proof (bk_pcount _ _ _ _ _ _ B). split_and!; try (done || lia).
  split; [done |]. rewrite Eb, Ex. split; [| done]. intros E0. rewrite U by done. by apply Z0.
Qed.

Lemma pagefree_spec s s' u n p :
  mem_wf s → mem_wf s' → 0 ≤ u → 1 ≤ n → u + n < vpages → (Z.to_nat n < vfuel)%nat → backed s s' u 0 n p →
  ∃ s'', pagefree vfuel (4096 * u) s' = Ret s'' ∧ mem_wf s'' ∧ unchanged s s'' ∧
    pagefree_sized vfuel (4096 * u) (4096 * n) s' = Ret s'' ∧
    ∀ size, size ≠ 4096 * n → pagefree_sized vfuel (4096 * u) size s' = Panicked.
Proof.
  intros W W' Hu Hn Hhi Hf B. pose proof (bk_mapped _ _ _ _ _ _ B) as Mp. rewrite Z.add_0_r in Mp.
  pose proof (bk_virt _ _ _ _ _ _ B) as R. rewrite Z.add_0_l in R.
  pose proof (bk_vcount _ _ _ _ _ _ B) as Cv.
  pose proof (bk_other _ _ _ _ _ _ B) as Other. rewrite Z.add_0_l in Other.
  pose proof (mapped_phys _ u n p 0 (proj1 (proj1 W')) Mp ltac:(lia)) as Eph. rewrite !Z.add_0_r in Eph.
  destruct (vpagefree_block vfuel (m_virt s') u n (proj1 (proj1 W'))) as (_ & vs & Ev & Wv & Cvs & P);
    try (done || lia).
  { intros v Hv. destruct (bk_block _ _ _ _ _ _ B v ltac:(lia)) as [T S]. split; [done |]. rewrite S. lia. }
  { unfold avail, started. rewrite Other by lia. apply (run_end _ u n); try (done || lia). apply W. }
  destruct (backed_ppagefree s s' u 0 n p W Hn B) as (ps & Ep & Wp & Cp & U).
  unfold pagefree, pagefree_sized. rewrite Eph. cbn [mbind outcome_bind]. rewrite Ev. cbn [mbind outcome_bind].
  rewrite Z.eqb_refl, Ep. cbn [mbind outcome_bind negb]. exists (Mem vs ps).
  assert (same_alloc (vp_pt (m_virt s)) (vp_pt vs)) as S.
  { apply (freed_same _ (vp_pt (m_virt s')) _ u n); try done; [apply W |]. intros v Hv. rewrite P by done.
    case_decide as D; [| done]. destruct (taken_some (vp_pt (m_virt s')) v) as [e ->];
      [apply (bk_block _ _ _ _ _ _ B); lia |]. eexists. split; [done | apply release_flags]. }
  split; [done |]. split; [| split; [| split; [done |]]].
  - split; [split; [done |] | done]. cbn [m_virt]. rewrite <- S. apply W.
  - split; [done |]. cbn [m_virt m_phys]. split_and!; (done || lia).
  - intros size Hne. apply Z.eqb_neq in Hne. by rewrite Hne.
Qed.

(** ** Stacks *)

(** The page a stack walk looks at. *)
Lemma vpn_page st w v0 e :
  pt_wf st → 0 ≤ w < vpages → page st w = Some v0 → is_u 64 e →
  ∃ r st', vpn_entry st w = Ret (Some r) ∧ read_pe st r = Ret v0 ∧ write_pe st r e = Ret st' ∧ pt_wf st' ∧
    ∀ v, 0 ≤ v < vpages → page st' v = if decide (v = w) then Some e else page st v.
Proof.
  intros W Hw E He. destruct (write_page st w e v0 W Hw E He) as (r & st' & Hg & Hr & Hwr & W' & _ & P).
  exists r, st'. by rewrite vpn_entry_spec.
Qed.

(** A block whose first page [u] is not mapped, and the pages up to [w]
    are, to the physical pages from [p] on. *)
Definition stack_pages (st : pt_state) (u w p : Z) : Prop :=
  ∀ v, u ≤ v ≤ w → ∃ e, page st v = Some e ∧ bf_flag pe_os_virt_avail e = false ∧
    bf_flag pe_os_virt_start e = (v =? u) ∧ bf_flag pe_present e = negb (v =? u) ∧
    (v ≠ u → bf_get pe_page_ppn e = p + (v - (u + 1))).

Definition available_entry (e : Z) : Prop :=
  is_u 64 e ∧ bf_flag pe_os_virt_avail e = true ∧ bf_flag pe_os_virt_start e = false.

Lemma stack_entry_freed e :
  is_u 64 e →
  available_entry (bf_set pe_os_virt_start 0 (bf_set pe_os_virt_avail 1 e)) ∧
  available_entry (bf_set pe_present 0 (bf_set pe_os_virt_start 0 (bf_set pe_os_virt_avail 1 e))).
Proof.
  intros He. assert (∀ v, is_u 64 v → 0 ≤ v) as Hpos by (unfold is_u; lia).
  unfold available_entry, bf_flag. split_and!; try (by fields); repeat (apply set_is_u; apply Hpos); done.
Qed.

Lemma free_stack_loop_spec fuel vs u w n p ph :
  pt_wf (vp_pt vs) → 0 ≤ u ≤ w → w ≤ u + n → u + n < vpages → stack_pages (vp_pt vs) u w p →
  (Z.to_nat (w - u) < fuel)%nat →
  ∃ vs', free_stack_loop fuel (w + 1) (u + n - w) ph vs = Ret (if w =? u then ph else p, n, vs') ∧
    pt_wf (vp_pt vs') ∧ allocated_vpages vs' = allocated_vpages vs - (w - u + 1) ∧
    ∀ v, 0 ≤ v < vpages → if decide (u ≤ v < w + 1)
      then ∃ e, page (vp_pt vs') v = Some e ∧ bf_flag pe_os_virt_avail e = true ∧ bf_flag pe_os_virt_start e = false
      else page (vp_pt vs') v = page (vp_pt vs) v.
Proof.
  unfold vpages. revert vs w ph. induction fuel as [| fuel IH]; intros vs w ph W Hu Hw Hhi SP Hf; [lia |].
  destruct (SP w ltac:(lia)) as (e & Ee & Av & St & Pr & Pp).
  destruct (stack_entry_freed e (page_is_u _ _ _ W Ee)) as [(U1 & A1 & S1) (U2 & A2 & S2)].
  cbn [free_stack_loop]. replace (w + 1 - 1) with w by lia. rewrite (wrap_id 64 w) by (unfold is_u; lia).
  destruct (Z.eqb_spec w u) as [-> | Hne].
  - destruct (vpn_page (vp_pt vs) u e _ W ltac:(unfold vpages; lia) Ee U1) as (r & st' & -> & Hr & Hwr & W' & P).
    cbn [mbind outcome_bind]. rewrite Hr. cbn [mbind outcome_bind]. rewrite Av, St, Pr. cbn [negb andb].
    rewrite Hwr. cbn [mbind outcome_bind]. replace (u + n - u) with n by lia. eexists. split; [done |].
    split; [done |]. split; [cbn [allocated_vpages]; lia |]. intros v Hv. cbn [vp_pt]. rewrite P by done.
    case_decide as D; [| by rewrite decide_False by lia].
    rewrite decide_True by lia. by eexists.
  - destruct (vpn_page (vp_pt vs) w e _ W ltac:(unfold vpages; lia) Ee U2) as (r & st' & -> & Hr & Hwr & W' & P).
    cbn [mbind outcome_bind]. rewrite Hr. cbn [mbind outcome_bind]. rewrite Av, St, Pr. cbn [negb andb].
    rewrite Hwr. cbn [mbind outcome_bind]. rewrite (wrap_id 64) by (unfold is_u; lia).
    replace (u + n - w + 1) with (u + n - (w - 1)) by lia.
    destruct (IH (VPS st' (allocated_vpages vs - 1)) (w - 1) (bf_get pe_page_ppn e))
      as (vs' & E & W'' & C & P'); try (done || lia).
    { intros v Hv. cbn [vp_pt]. rewrite P, decide_False by (unfold vpages; lia). apply SP. lia. }
    replace (w - 1 + 1) with w in E, P' by lia. exists vs'. rewrite E, (Pp Hne). split.
    { destruct (Z.eqb_spec (w - 1) u); [| done]. do 3 f_equal. lia. }
    split; [done |]. split; [cbn [allocated_vpages] in C; lia |]. intros v Hv. specialize (P' v Hv).
    cbn [vp_pt] in P'. rewrite P in P' by done. destruct (decide (u ≤ v < w)).
    + by rewrite decide_True by lia.
    + destruct (decide (v = w)) as [-> |]; [rewrite decide_True by lia; by eexists |].
      by rewrite decide_False by lia.
Qed.

Lemma free_stack_spec s s' u n p :
  mem_wf s → mem_wf s' → 0 ≤ u → 1 ≤ n → u + (1 + n) < vpages → (Z.to_nat n < vfuel)%nat →
  backed s s' u 1 n p →
  ∃ s'', free_stack vfuel (4096 * (u + 1 + n)) s' = Ret s'' ∧ mem_wf s'' ∧ unchanged s s''.
Proof.
  intros W W' Hu Hn Hhi Hf B. pose proof (bk_vcount _ _ _ _ _ _ B) as Cv.
  pose proof (pm_bounds _ (proj1 (proj2 W))) as [Hb Hmx].
  destruct (free_run_tracked _ p n (proj1 (proj2 W)) Hn (bk_phys _ _ _ _ _ _ B)) as [Hp0 Hp1].
  destruct (free_stack_loop_spec vfuel (m_virt s') u (u + n) n p 0 (proj1 (proj1 W'))) as (vs & E & Wv & C & P);
    try (done || lia).
  { intros v Hv. destruct (bk_block _ _ _ _ _ _ B v ltac:(lia)) as [T S]. unfold taken_page, started in *.
    destruct (decide (v = u)) as [-> | Hne].
    - destruct (bk_guard _ _ _ _ _ _ B u ltac:(lia)) as (e & Ee & Pr). exists e. rewrite Ee in T, S.
      rewrite Z.eqb_refl in *. split_and!; try done. by apply negb_true_iff.
    - destruct (bk_mapped _ _ _ _ _ _ B v ltac:(lia)) as (e & Ee & Pp & Pr & _). exists e. rewrite Ee in T, S.
      split_and!; try done; [by apply negb_true_iff | rewrite Pr; lia]. }
  unfold free_stack. rewrite shift_page by lia. replace (u + n - (u + n)) with 0 in E by lia.
  replace (u + 1 + n) with (u + n + 1) by lia. rewrite E. cbn [mbind outcome_bind].
  destruct (Z.eqb_spec (u + n) u); [lia |]. rewrite !Z.shiftl_mul_pow2 by lia. change (2 ^ 12) with 4096.
  rewrite !(wrap_id 64) by (unfold is_u; lia). rewrite (Z.mul_comm p), (Z.mul_comm n).
  destruct (backed_ppagefree s s' u 1 n p W Hn B) as (ps & -> & Wp & Cp & U). cbn [mbind outcome_bind].
  assert (same_alloc (vp_pt (m_virt s)) (vp_pt vs)) as S.
  { apply (freed_same _ (vp_pt (m_virt s')) _ u (1 + n)); [apply W | apply B | apply B |].
    intros v Hv. specialize (P v Hv). by replace (u + n + 1) with (u + (1 + n)) in P by lia. }
  exists (Mem vs ps). split; [done |]. split.
  - split; [split; [done |] | done]. cbn [m_virt]. rewrite <- S. apply W.
  - split; [done |]. cbn [m_virt m_phys]. split_and!; (done || lia).
Qed.

Lemma alloc_stack_spec s k :
  (∀ x, uninit x = x) → mem_wf s → 1 ≤ k → 4096 * k + 8192 < 2 ^ 64 → (Z.to_nat (1 + k) < vfuel)%nat →
  ∃ a s', alloc_stack uninit vfuel (4096 * k) s = Ret (a, s') ∧ mem_wf s' ∧
    ((∃ u p, a = 4096 * (u + 1 + k) ∧ 0 ≤ u ∧ u + (1 + k) < vpages ∧ backed s s' u 1 k p) ∨
     (a = 0 ∧ unchanged s s' ∧ (no_vpages s (1 + k) ∨ ∀ p, ¬ free_run (physp (m_phys s)) p k))).
Proof.
  intros keeps W Hk Ho Hf. unfold alloc_stack, ppagealloc, vpagefree_sized.
  assert ((4096 * k + 4096 + 4095) / 4096 = 1 + k) as E1.
  { replace (4096 * k + 4096 + 4095) with (4095 + (1 + k) * 4096) by lia. by rewrite Z.div_add. }
  assert ((4096 * k + 4095) / 4096 = k) as E0.
  { replace (4096 * k + 4095) with (4095 + k * 4096) by lia. by rewrite Z.div_add. }
  rewrite (wrap_id 64 (4096 * k + 4096)) by (unfold is_u; lia).
  pose proof (vpagealloc_cases s (4096 * k + 4096) (fun _ => keeps) W ltac:(lia) ltac:(lia)) as V. cbv zeta in V. rewrite E1 in V.
  destruct V as [(u & vs & -> & H1 & H2 & A) | (-> & N)]; cbn [mbind outcome_bind].
  2:{ exists 0, s. split; [by destruct s |]. split; [done |]. right. by split_and!; [| apply unchanged_refl | left]. }
  unfold low_first, high_end, vpn in H1, H2. rewrite nonzero_block by lia.
  rewrite (wrap_id 64 (4096 * u + 4096)) by (unfold is_u; lia).
  replace (4096 * u + 4096) with (4096 * (u + 1)) by lia.
  pose proof (ppagealloc_locked_spec (m_phys s) (4096 * k) (proj1 (proj2 W)) (proj1 (proj2 (proj2 W)))
    ltac:(lia) ltac:(lia)) as P. cbv zeta in P. rewrite E0 in P.
  destruct (alloc_tail _ vfuel s low_first high_end u 1 k _ (4096 * k) vs _ _ alloc_stack_entry_maps W
    ltac:(done) ltac:(done) ltac:(done) (eq_sym E0) Hk ltac:(lia) Hf A P)
    as [(p & ps & st & -> & Hp & Em & W' & B) | (-> & N & vs' & Ef & W' & U)]; cbn [mbind outcome_bind].
  - rewrite nonzero_block, Em by done. cbn [mbind outcome_bind].
    replace (4096 * (u + 1) + 4096 * k) with (4096 * (u + 1 + k)) by lia.
    rewrite wrap_id by (unfold is_u; lia). eexists _, _. split; [done |].
    split; [done |]. left. exists u, p. unfold vpages. split_and!; (done || lia).
  - cbn [Z.eqb negb]. rewrite Ef. cbn [mbind outcome_bind]. eexists 0, _. split; [done |]. split; [done |].
    right. by split_and!; [| | right].
Qed.

End Correctness.

(** ** Properties *)

Section Properties.
Context {M : Type} `{PhyspageMapManaged M} `{!PhyspageMapLaws M}.

(** C5: [pagealloc] returns a block of kernel memory of the rounded size, in
    which every address translates to the address at the same distance in one
    run of physical pages; virtual and physical pages were free, exactly they
    are taken, they are mapped present, writeable and not executable, and no
    other entry changes.  It returns 0 only if the virtual or the physical
    pages are lacking, and then leaves nothing allocated.  For more than one
    page this supposes that the uninitialised variable starting_addr of
    vpagealloc keeps the value that an earlier round of its loop gave it. *)
Theorem pagealloc_correct (uninit : Z → Z) (vfuel : nat) (s : mem_state (M := M)) (size : Z) :
  let n := (size + 4095) / 4096 in
  keeps_storage uninit n → mem_wf s → 0 < size → size + 4096 < 2 ^ 64 → (Z.to_nat n < vfuel)%nat →
  alloc_ok s n low_first high_end (pagealloc uninit vfuel size s)
    (no_vpages s n ∨ ∀ p, ¬ free_run (physp (m_phys s)) p n).
Proof. apply pagealloc_spec. Qed.

(** [pagealloc32] allocates in the same way virtual pages below 4 GiB and
    physical pages from 1 MiB on, and [pagealloc_phys32] the latter behind any
    virtual pages, on a machine with less than 4 GiB of memory. *)
Theorem pagealloc32_correct (uninit : Z → Z) (vfuel : nat) (s : mem_state (M := M)) (size : Z) :
  let n := (size + 4095) / 4096 in
  keeps_storage uninit n → mem_wf s → 256 ≤ pm_max (physp (m_phys s)) < 2 ^ 20 →
  0 < size → size + 4096 < 2 ^ 32 →
  (Z.to_nat n < vfuel)%nat →
  let no_ppages := ∀ p, 256 ≤ p → ¬ free_run (physp (m_phys s)) p n in
  alloc_ok s n low_first high_first (pagealloc32 uninit vfuel size s)
    (no_run (vp_pt (m_virt s)) low_first high_first n ∨ no_ppages) ∧
  alloc_ok s n low_first high_end (pagealloc_phys32 uninit vfuel size s) (no_vpages s n ∨ no_ppages).
Proof.
  intros n keeps W Hm Hs Ho Hf P. split; [by apply pagealloc32_spec | by apply pagealloc_phys32_spec].
Qed.

(** memory from [pagealloc] is given back by [pagefree], which leaves the
    allocation of every virtual and physical page and both counters as they
    were; the overload with a size does the same for the size in whole pages,
    and ends the kernel for every other size. *)
Theorem pagealloc_free_roundtrip (uninit : Z → Z) (vfuel : nat) (s s' : mem_state (M := M)) (size a : Z) :
  let n := (size + 4095) / 4096 in
  keeps_storage uninit n → mem_wf s → 0 < size → size + 4096 < 2 ^ 64 →
  (Z.to_nat n < vfuel)%nat → pagealloc uninit vfuel size s = Ret (a, s') → a ≠ 0 →
  ∃ s'', pagefree vfuel a s' = Ret s'' ∧ mem_wf s'' ∧ unchanged s s'' ∧
    pagefree_sized vfuel a (4096 * n) s' = Ret s'' ∧
    ∀ size', size' ≠ 4096 * n → pagefree_sized vfuel a size' s' = Panicked.
Proof.
  intros n keeps W Hs Ho Hf E Ha.
  destruct (pagealloc_spec uninit vfuel s size keeps W Hs Ho Hf) as (a' & s1 & E' & W' & D).
  rewrite E in E'. injection E' as <- <-. destruct D as [(u & p & -> & H1 & H2 & B & _) | (-> & _)]; [| done].
  fold n in H2, B. unfold low_first, high_end, vpn in H1, H2.
  apply (pagefree_spec vfuel s s' u n p); try done; [lia | by apply pages_of_size | unfold vpages; lia].
Qed.

(** a stack of [k] whole pages lies right above a page that belongs to
    its block and is not mapped; [free_stack], given the top of the stack,
    finds the block, and restores the allocation of every page and both
    counters.  If there is no room, nothing changes and 0 is returned.  It
    supposes that the uninitialised variable starting_addr of vpagealloc keeps
    the value that an earlier round of its loop gave it.  Sizes that are not
    a multiple of the page size are left out. *)
Theorem stack_roundtrip (uninit : Z → Z) (vfuel : nat) (s : mem_state (M := M)) (k : Z) :
  (∀ x, uninit x = x) → mem_wf s → 1 ≤ k → 4096 * k + 8192 < 2 ^ 64 → (Z.to_nat (1 + k) < vfuel)%nat →
  ∃ a s', alloc_stack uninit vfuel (4096 * k) s = Ret (a, s') ∧ mem_wf s' ∧
    ((a = 0 ∧ unchanged s s' ∧ (no_vpages s (1 + k) ∨ ∀ p, ¬ free_run (physp (m_phys s)) p k)) ∨
     ∃ u p s'', a = 4096 * (u + 1 + k) ∧ backed s s' u 1 k p ∧
       free_stack vfuel a s' = Ret s'' ∧ mem_wf s'' ∧ unchanged s s'').
Proof.
  intros keeps W Hk Ho Hf. destruct (alloc_stack_spec uninit vfuel s k keeps W Hk Ho Hf) as (a & s' & E & W' & D).
  exists a, s'. split; [done |]. split; [done |]. destruct D as [(u & p & -> & H1 & H2 & B) | D]; [right | by left].
  destruct (free_stack_spec vfuel s s' u k p) as (s'' & E' & W'' & U); try (done || lia).
  by exists u, p, s''.
Qed.

End Properties.

(** *** A machine with 128 MiB of memory *)

Import PPageAlloc.Examples.

Definition example_mem : mem_state := Mem example_vps boot_state.

Lemma boot_state_wf : phys_wf boot_state.
Proof. split; [apply boot_map_wf | done]. Qed.

Lemma example_mem_wf : mem_wf example_mem.
Proof. split; [apply example_vps_wf | apply boot_state_wf]. Qed.

Lemma pagealloc_correct_witness :
  ∃ s', pagealloc id 10 10000 example_mem = Ret (0x100000000, s') ∧ mem_wf s' ∧
    get_phys_from_virt (vp_pt (m_virt s')) 0x100001234 = Ret 0x11234.
Proof.
  destruct (pagealloc_correct id 10 example_mem 10000 (fun _ x => eq_refl) example_mem_wf ltac:(done) ltac:(done)
    ltac:(apply Nat.ltb_lt; by vm_compute)) as (a & s' & E & W & _).
  assert (fst <$> pagealloc id 10 10000 example_mem = Ret 0x100000000) as E1 by (by vm_compute).
  assert (('(_, s) ← pagealloc id 10 10000 example_mem;
    get_phys_from_virt (vp_pt (m_virt s)) 0x100001234) = Ret 0x11234) as E2 by (by vm_compute).
  rewrite E in E1, E2. injection E1 as ->. exists s'. exact (conj E (conj W E2)).
Defined.

(** The same with the available pages in the fourth gigabyte. *)
Definition example_low : mem_state := Mem (VPS (chain_pt 0 3 1 (replicate 512 0x800)) 0) boot_state.

Lemma example_low_wf : mem_wf example_low.
Proof.
  split; [| apply boot_state_wf]. split; [by apply chain_pt_wf, replicate_table_ok |]. intros v Hv.
  unfold avail, started, taken_page, page, entry_of.
  destruct (at_path (vp_pt (m_virt example_low)) (vpath (4096 * v))) as [a |] eqn:E; [| done].
  destruct (chain_paths 0 3 1 _ _ _ (vpath_ok _) E) as [[? _] | [[? _] | [[? _] | [_ ->]]]]; [done.. |].
  pose proof (vindex_ok 12 (4096 * v)) as [H0 H1]. cbn [mbind option_bind].
  change (tables (vp_pt (m_virt example_low)) !! 0x4000) with (Some (replicate 512 0x800)).
  cbn [mbind option_bind]. rewrite lookup_replicate_2 by lia. done.
Qed.

Lemma example_low_max : 256 ≤ pm_max (physp (m_phys example_low)) < 2 ^ 20.
Proof. done. Qed.

Lemma pagealloc32_correct_witness :
  ∃ s', pagealloc32 id 10 10000 example_low = Ret (0xC0200000, s') ∧ mem_wf s' ∧
    get_phys_from_virt (vp_pt (m_virt s')) 0xC0201234 = Ret 0x101234.
Proof.
  destruct (pagealloc32_correct id 10 example_low 10000 (fun _ x => eq_refl) example_low_wf example_low_max
    ltac:(done) ltac:(done) ltac:(apply Nat.ltb_lt; by vm_compute)) as ((a & s' & E & W & _) & _).
  assert (fst <$> pagealloc32 id 10 10000 example_low = Ret 0xC0200000) as E1 by (by vm_compute).
  assert (('(_, s) ← pagealloc32 id 10 10000 example_low;
    get_phys_from_virt (vp_pt (m_virt s)) 0xC0201234) = Ret 0x101234) as E2 by (by vm_compute).
  rewrite E in E1, E2. injection E1 as ->. exists s'. exact (conj E (conj W E2)).
Defined.

Lemma pagealloc_free_roundtrip_witness :
  ∃ s' s'', pagealloc id 10 10000 example_mem = Ret (0x100000000, s') ∧
    pagefree 10 0x100000000 s' = Ret s'' ∧ unchanged example_mem s'' ∧
    pagefree_sized 10 0x100000000 10000 s' = Panicked.
Proof.
  pose proof (pagealloc_free_roundtrip id 10 example_mem) as H.
  specialize (fun s' => H s' 10000 0x100000000 (fun _ x => eq_refl) example_mem_wf
    ltac:(done) ltac:(done) ltac:(apply Nat.ltb_lt; by vm_compute)).
  assert (fst <$> pagealloc id 10 10000 example_mem = Ret 0x100000000) as E1 by (by vm_compute).
  destruct (pagealloc id 10 10000 example_mem) as [[a s'] | | |]; [| discriminate E1..]. injection E1 as ->.
  destruct (H s' eq_refl ltac:(discriminate)) as (s'' & F & _ & U & _ & N).
  exists s', s''. exact (conj eq_refl (conj F (conj U (N 10000 ltac:(discriminate))))).
Defined.

Lemma stack_roundtrip_witness :
  ∃ s' s'', alloc_stack id 10 8192 example_mem = Ret (0x100003000, s') ∧
    free_stack 10 0x100003000 s' = Ret s'' ∧ unchanged example_mem s''.
Proof.
  destruct (stack_roundtrip id 10 example_mem 2 (fun x => eq_refl) example_mem_wf
    ltac:(done) ltac:(done) ltac:(apply Nat.ltb_lt; by vm_compute)) as (a & s' & E & _ & D).
  assert (fst <$> alloc_stack id 10 8192 example_mem = Ret 0x100003000) as E1 by (by vm_compute).
  change (4096 * 2) with 8192 in E. rewrite E in E1. injection E1 as ->.
  destruct D as [(D & _) | (u & p & s'' & _ & _ & F & _ & U)]; [discriminate D |]. exists s', s''. exact (conj E (conj F U)).
Defined.
