(* ===== verification/RunSearch.v ===== *)
(** * Searching a row of free cells

    The reference for the first-fit searches of the kernel: one pass over
    numbered cells that counts the free cells in a row. *)

From S2P Require Import Prelude.

Section RunSearch.
Variables (free : Z → bool) (size : Z).

(** [c] free cells lie right before cell [p]; [n] cells are left to look at.
    The result is the first cell of a row, or the count at the end. *)
Fixpoint run_search (n : nat) (p c : Z) : Z + Z :=
  match n with
  | O => inr c
  | S n =>
      if free p then if c + 1 =? size then inl (p - c) else run_search n (p + 1) (c + 1)
      else run_search n (p + 1) 0
  end.

Lemma run_search_app a b p c :
  run_search (a + b) p c =
    match run_search a p c with
    | inl u => inl u
    | inr c' => run_search b (p + Z.of_nat a) c'
    end.
Proof.
  revert p c. induction a as [| a IH]; intros p c; cbn [run_search Nat.add].
  { by rewrite Z.add_0_r. }
  replace (p + Z.of_nat (S a)) with (p + 1 + Z.of_nat a) by lia.
  destruct (free p); [destruct (c + 1 =? size); [done |] |]; apply IH.
Qed.

(** A stretch without free cells. *)
Lemma run_search_used n p c :
  (∀ q, p ≤ q < p + Z.of_nat n → free q = false) → (0 < n)%nat → run_search n p c = inr 0.
Proof.
  revert p c. induction n as [| n IH]; intros p c Hu Hn; [lia |]. cbn [run_search].
  rewrite Hu by lia. destruct n as [| n]; [done |]. apply IH; [| lia]. intros q Hq. apply Hu. lia.
Qed.

Definition free_cells (u n : Z) : Prop := ∀ q, u ≤ q < u + n → free q = true.

Variable lo : Z.
Hypothesis size_pos : 1 ≤ size.

(** Before cell [p] the last [c] cells are free, the row cannot be longer to
    the left, and no row of [size] cells lies behind. *)
Definition search_inv (p c : Z) : Prop :=
  0 ≤ c < size ∧ c ≤ p - lo ∧ free_cells (p - c) c ∧ (lo < p - c → free (p - c - 1) = false) ∧
  ∀ u, lo ≤ u → u + size ≤ p → ¬ free_cells u size.

Lemma search_inv_init : search_inv lo 0.
Proof. split_and!; try lia. intros q ?; lia. Qed.

Lemma search_inv_used p c : search_inv p c → free p = false → search_inv (p + 1) 0.
Proof.
  intros (Hc & Hl & _ & _ & Hn) Hp. split_and!; try lia.
  - intros q ?; lia.
  - intros _. by replace (p + 1 - 0 - 1) with p by lia.
  - intros u Hu Hle R. destruct (decide (u + size ≤ p)); [by apply (Hn u) |].
    rewrite (R p) in Hp by lia. done.
Qed.

Lemma search_inv_free p c :
  search_inv p c → free p = true →
  free_cells (p - c) (c + 1) ∧ (c + 1 ≠ size → search_inv (p + 1) (c + 1)).
Proof.
  intros (Hc & Hl & Hr & Hm & Hn) Hp.
  assert (free_cells (p - c) (c + 1)) as R.
  { intros q Hq. destruct (decide (q = p)) as [-> |]; [done |]. apply Hr. lia. }
  split; [done |]. intros Hne. unfold search_inv. replace (p + 1 - (c + 1)) with (p - c) by lia.
  split_and!; try (done || lia). intros u Hu Hle Ru.
  destruct (decide (u + size ≤ p)); [by apply (Hn u) |].
  specialize (Hm ltac:(lia)). rewrite (Ru (p - c - 1)) in Hm by lia. done.
Qed.

Lemma run_search_from n p c :
  search_inv p c →
  match run_search n p c with
  | inl u => lo ≤ u ∧ u + size ≤ p + Z.of_nat n ∧ free_cells u size ∧
      ∀ u', lo ≤ u' < u → ¬ free_cells u' size
  | inr _ => ∀ u, lo ≤ u → u + size ≤ p + Z.of_nat n → ¬ free_cells u size
  end.
Proof.
  revert p c. induction n as [| n IH]; intros p c I; cbn [run_search].
  { rewrite Z.add_0_r. apply I. }
  replace (p + Z.of_nat (S n)) with (p + 1 + Z.of_nat n) by lia.
  destruct (free p) eqn:Hp; [| apply IH; by eapply search_inv_used].
  destruct (search_inv_free p c I Hp) as [R Next].
  destruct (Z.eqb_spec (c + 1) size) as [E | Hne]; [| by apply IH, Next].
  destruct I as (Hc & Hl & _ & _ & Hn). rewrite E in R. split_and!; try (done || lia).
  intros u' Hu'. apply Hn; lia.
Qed.

(** The search finds the first row there is. *)
Lemma run_search_spec n :
  match run_search n lo 0 with
  | inl u => lo ≤ u ∧ u + size ≤ lo + Z.of_nat n ∧ free_cells u size ∧
      ∀ u', lo ≤ u' < u → ¬ free_cells u' size
  | inr _ => ∀ u, lo ≤ u → u + size ≤ lo + Z.of_nat n → ¬ free_cells u size
  end.
Proof. apply run_search_from, search_inv_init. Qed.

End RunSearch.

(** ** Counting cells *)

(** The number of cells below [k] with [f]. *)
Fixpoint count_cells (f : Z → bool) (k : nat) : Z :=
  match k with
  | O => 0
  | S k => count_cells f k + Z.b2z (f (Z.of_nat k))
  end.

Lemma count_cells_range f k : 0 ≤ count_cells f k ≤ Z.of_nat k.
Proof. induction k as [| k IH]; cbn [count_cells]; [lia |]. destruct (f (Z.of_nat k)); simpl Z.b2z; lia. Qed.

Lemma count_cells_none f k : (∀ q, f q = false) → count_cells f k = 0.
Proof. intros F. induction k as [| k IH]; cbn [count_cells]; [done |]. rewrite IH, F. done. Qed.

(** Cells [p, p+n) that get [f]. *)
Lemma count_cells_add f g p n k :
  0 ≤ p → 0 ≤ n →
  (∀ q, 0 ≤ q < Z.of_nat k → f q = if decide (p ≤ q < p + n) then false else g q) →
  (∀ q, 0 ≤ q < Z.of_nat k → p ≤ q < p + n → g q = true) →
  count_cells g k = count_cells f k + Z.max 0 (Z.min (Z.of_nat k) (p + n) - p).
Proof.
  intros Hp Hn. induction k as [| k IH]; intros F G; cbn [count_cells]; [lia |].
  rewrite IH by (intros; first [apply F | apply G]; lia).
  specialize (F (Z.of_nat k) ltac:(lia)). destruct (decide (p ≤ Z.of_nat k < p + n)) as [D | D].
  - rewrite F, (G (Z.of_nat k)) by lia. simpl Z.b2z. lia.
  - rewrite F. lia.
Qed.

(** ** Checking all small cases *)

Definition all_below (n : Z) (P : Z → bool) : bool := forallb P (seqZ 0 n).

Lemma all_below_spec n P x : all_below n P = true → 0 ≤ x < n → P x = true.
Proof.
  intros H Hx. unfold all_below in H. rewrite forallb_forall in H. apply H.
  apply list_elem_of_In, elem_of_seqZ. lia.
Qed.
