(* ===== verification/SmallAlloc.v ===== *)
(** * The allocation table for small blocks

    [SmallUnitMemoryAllocTable] of [kernel/kmemory/mallocator.h], for the only
    unit the kernel uses, 16 bytes: two bits for each of 16384 units, in a page
    that lies in front of the memory it describes. *)

From S2P Require Import Prelude RunSearch.

Definition ALLOCATED_MASK : Z := 0x55.

(** sizeof(small_alloc_unit) *)
Definition small_alloc_unit : Z := 16.

(** The address of the table and its bytes. *)
Record SmallUnitMemoryAllocTable := SmallTable {
  tbl_this : Z;
  tbl_bits : list Z;
}.

Implicit Types t : SmallUnitMemoryAllocTable.

(** ** Operations *)

Definition begin_ptr t : Z := u64 (tbl_this t + 4096).

Definition end_ptr t : Z := u64 (begin_ptr t + 4096 * 4 * small_alloc_unit).

Definition max_allocation_size : Z := small_alloc_unit * 4096 * 4.

Definition pointer_to t (position : Z) : Z := u64 (begin_ptr t + position * small_alloc_unit).

Definition get_bits t (position : Z) : outcome Z :=
  let bytepos := Z.shiftr position 2 in
  let bitpos := u8 (Z.shiftl (Z.land position 3) 1) in
  let bitmask := u8 (Z.shiftl 3 bitpos) in
  b ← rd (tbl_bits t) bytepos;
  Ret (u8 (Z.shiftr (Z.land b bitmask) bitpos)).

Definition is_free t (position : Z) : outcome bool :=
  let bytepos := Z.shiftr position 2 in
  let bitmask := u8 (Z.shiftl 1 (Z.shiftl (Z.land position 3) 1)) in
  b ← rd (tbl_bits t) bytepos;
  Ret (Z.land b bitmask =? 0).

Definition set_allocation t (position ibits : Z) : outcome SmallUnitMemoryAllocTable :=
  let bytepos := Z.shiftr position 2 in
  let bitmask := not_w 8 (Z.shiftl 3 (Z.shiftl (Z.land position 3) 1)) in
  let ibits := u64 (Z.shiftl ibits (Z.shiftl (Z.land position 3) 1)) in
  b ← rd (tbl_bits t) bytepos;
  l ← wr (tbl_bits t) bytepos (Z.land b bitmask);
  b ← rd l bytepos;
  l ← wr l bytepos (u8 (Z.lor b ibits));
  Ret (SmallTable (tbl_this t) l).

(** The rounding at the start of [sm_allocate], to bytes in whole units. *)
Definition sm_round (size : Z) : Z :=
  if size <? small_alloc_unit then small_alloc_unit
  else
    let overshoot := size mod small_alloc_unit in
    if negb (overshoot =? 0) then u32 (size + (small_alloc_unit - overshoot)) else size.

(** The inner loop of [sm_allocate]: the block, or the count so far. *)
Fixpoint sm_scan_byte (n : nat) t (i j count size : Z) : outcome (Z + Z) :=
  match n with
  | O => Ret (inr count)
  | S n =>
      let pos := i in
      let pos := u32 (Z.shiftl pos 2) in
      let pos := u32 (pos + j) in
      f ← is_free t pos;
      if (f : bool) then
        let count := u32 (count + 1) in
        if count =? size then Ret (inl (u32 (pos - u32 (count - 1))))
        else sm_scan_byte n t i (j + 1) count size
      else sm_scan_byte n t i (j + 1) 0 size
  end.

(** while (i < 4096), with [n] rounds left. *)
Fixpoint sm_scan (n : nat) t (i count size : Z) : outcome (option Z) :=
  match n with
  | O => Ret None
  | S n =>
      b ← rd (tbl_bits t) i;
      let masked := Z.land b ALLOCATED_MASK in
      if negb (masked =? ALLOCATED_MASK) then
        r ← sm_scan_byte 4 t i 0 count size;
        match r with
        | inl pos => Ret (Some pos)
        | inr count => sm_scan n t (i + 1) count size
        end
      else sm_scan n t (i + 1) 0 size
  end.

(** for (i = 1; i < count; i++) set_allocation(pos + i, 1), [n] rounds. *)
Fixpoint sm_mark (n : nat) t (pos i : Z) : outcome SmallUnitMemoryAllocTable :=
  match n with
  | O => Ret t
  | S n =>
      t ← set_allocation t (u32 (pos + i)) 1;
      sm_mark n t pos (i + 1)
  end.

(** The null pointer is [None]. *)
Definition tbl_sm_allocate t (size : Z) : outcome (option Z * SmallUnitMemoryAllocTable) :=
  if max_allocation_size <? size then Ret (None, t)
  else
    let size := sm_round size / small_alloc_unit in
    r ← sm_scan 4096 t 0 0 size;
    match r with
    | Some pos =>
        t ← set_allocation t pos 3;
        t ← sm_mark (Z.to_nat (size - 1)) t pos 1;
        Ret (Some (pointer_to t pos), t)
    | None => Ret (None, t)
    end.

Definition tbl_sm_owned t (ptr : Z) : bool := (begin_ptr t <=? ptr) && (ptr <? end_ptr t).

Fixpoint sm_free_loop (fuel : nat) t (vector size : Z) : outcome (Z * SmallUnitMemoryAllocTable) :=
  match fuel with
  | O => OutOfFuel
  | S fuel =>
      if vector <? 4 * 4096 then
        bits ← get_bits t vector;
        if (bits =? 0) || (bits =? 3) then Ret (size, t)
        else
          t ← set_allocation t vector 0;
          sm_free_loop fuel t (u64 (vector + 1)) (u32 (size + small_alloc_unit))
      else Ret (size, t)
  end.

(** At most the units behind the first are visited. *)
Definition sm_fuel : nat := Z.to_nat (4 * 4096 + 1).

Definition tbl_sm_free t (ptr : Z) : outcome (Z * SmallUnitMemoryAllocTable) :=
  let vector := u64 (ptr - begin_ptr t) in
  if negb (vector mod small_alloc_unit =? 0) then Ret (0, t)
  else
    let vector := vector / small_alloc_unit in
    t ← set_allocation t vector 0;
    sm_free_loop sm_fuel t (u64 (vector + 1)) small_alloc_unit.

Fixpoint sm_sizeof_loop (fuel : nat) t (vector size : Z) : outcome Z :=
  match fuel with
  | O => OutOfFuel
  | S fuel =>
      if vector <? 4 * 4096 then
        bits ← get_bits t vector;
        if (bits =? 0) || (bits =? 3) then Ret size
        else sm_sizeof_loop fuel t (u64 (vector + 1)) (u32 (size + small_alloc_unit))
      else Ret size
  end.

Definition tbl_sm_sizeof t (ptr : Z) : outcome Z :=
  let vector := u64 (ptr - begin_ptr t) in
  if negb (vector mod small_alloc_unit =? 0) then Ret 0
  else
    let size := small_alloc_unit in
    let vector := vector / small_alloc_unit in
    sm_sizeof_loop sm_fuel t (u64 (vector + 1)) size.

(** The table of a new BasicMemoryAllocatorImpl. *)
Definition new_table (this : Z) : SmallUnitMemoryAllocTable := SmallTable this (replicate 4096 0).

(** ** Units *)

(** The number of units. *)
Definition units : Z := 4 * 4096.

(** The two bits of unit [p]: 0 free, 3 the first of a block, 1 a later one. *)
Definition unit_of_byte (b s : Z) : Z := Z.land (Z.shiftr b (2 * s)) 3.

Definition unit_at t (p : Z) : Z := unit_of_byte (default 0 (tbl_bits t !! Z.to_nat (p / 4))) (p mod 4).

Definition tbl_wf t : Prop :=
  length (tbl_bits t) = 4096%nat ∧ Forall (is_u 8) (tbl_bits t).

Lemma tbl_byte t p : tbl_wf t → 0 ≤ p < units →
  ∃ b, tbl_bits t !! Z.to_nat (p / 4) = Some b ∧ rd (tbl_bits t) (Z.shiftr p 2) = Ret b ∧ 0 ≤ b < 256 ∧
    0 ≤ p / 4 < 4096 ∧ 0 ≤ p mod 4 < 4.
Proof.
  unfold units. intros [Len U] Hp. pose proof (Z.div_mod p 4 ltac:(done)). pose proof (Z.mod_pos_bound p 4 ltac:(done)).
  destruct (rd_lt (tbl_bits t) (p / 4)) as (b & Hr & Hb); [lia |]. exists b.
  rewrite Z.shiftr_div_pow2 by lia. change (2 ^ 2) with 4. split_and!; try (done || lia);
    eapply (Forall_lookup_1 _ _ _ _ U); eauto.
Qed.

(** What the bit operations do to one byte, by trying all bytes. *)
Lemma byte_units b s v s' :
  0 ≤ b < 256 → 0 ≤ s < 4 → 0 ≤ v < 4 → 0 ≤ s' < 4 →
  let sh := Z.shiftl s 1 in
  let b' := u8 (Z.lor (Z.land b (not_w 8 (Z.shiftl 3 sh))) (u64 (Z.shiftl v sh))) in
  u8 (Z.shiftr (Z.land b (u8 (Z.shiftl 3 (u8 sh)))) (u8 sh)) = unit_of_byte b s ∧
  (Z.land b (u8 (Z.shiftl 1 sh)) =? 0) = negb (Z.odd (unit_of_byte b s)) ∧
  0 ≤ b' < 256 ∧ unit_of_byte b' s' = (if s' =? s then v else unit_of_byte b s').
Proof.
  set (P := fun b => all_below 4 (fun s => all_below 4 (fun v => all_below 4 (fun s' =>
    let sh := Z.shiftl s 1 in
    let b' := u8 (Z.lor (Z.land b (not_w 8 (Z.shiftl 3 sh))) (u64 (Z.shiftl v sh))) in
    (u8 (Z.shiftr (Z.land b (u8 (Z.shiftl 3 (u8 sh)))) (u8 sh)) =? unit_of_byte b s) &&
    Bool.eqb (Z.land b (u8 (Z.shiftl 1 sh)) =? 0) (negb (Z.odd (unit_of_byte b s))) &&
    (b' <? 256) && (unit_of_byte b' s' =? (if s' =? s then v else unit_of_byte b s')))))).
  assert (all_below 256 P = true) as H by (by vm_compute). intros Hb Hs Hv Hs' sh b'.
  apply (all_below_spec _ _ b) in H; [| done]. apply (all_below_spec _ _ s) in H; [| done].
  apply (all_below_spec _ _ v) in H; [| done]. apply (all_below_spec _ _ s') in H; [| done].
  fold sh in H. fold b' in H. cbv zeta in H. apply andb_prop in H as [H H4].
  apply andb_prop in H as [H H3]. apply andb_prop in H as [H1 H2]. bsimp. apply eqb_prop in H2.
  split_and!; try done. apply wrap_range. lia.
Qed.

Lemma byte_full b : 0 ≤ b < 256 →
  (Z.land b ALLOCATED_MASK =? ALLOCATED_MASK) =
    Z.odd (unit_of_byte b 0) && Z.odd (unit_of_byte b 1) && Z.odd (unit_of_byte b 2) && Z.odd (unit_of_byte b 3).
Proof.
  set (P := fun b => Bool.eqb (Z.land b ALLOCATED_MASK =? ALLOCATED_MASK)
    (Z.odd (unit_of_byte b 0) && Z.odd (unit_of_byte b 1) && Z.odd (unit_of_byte b 2) && Z.odd (unit_of_byte b 3))).
  assert (all_below 256 P = true) as H by (by vm_compute). intros Hb.
  apply (all_below_spec _ _ b) in H; [| done]. by apply eqb_prop.
Qed.

(** A byte is determined by its four units. *)
Lemma byte_ext b : 0 ≤ b < 256 →
  b = unit_of_byte b 0 + 4 * unit_of_byte b 1 + 16 * unit_of_byte b 2 + 64 * unit_of_byte b 3.
Proof.
  set (P := fun b => b =? unit_of_byte b 0 + 4 * unit_of_byte b 1 + 16 * unit_of_byte b 2 + 64 * unit_of_byte b 3).
  assert (all_below 256 P = true) as H by (by vm_compute). intros Hb.
  apply (all_below_spec _ _ b) in H; [| done]. by apply Z.eqb_eq.
Qed.

(** ** The operations on units *)

Lemma land_3 p : Z.land p 3 = p mod 4.
Proof. change 3 with (Z.ones 2). by rewrite Z.land_ones. Qed.

Lemma get_bits_spec t p : tbl_wf t → 0 ≤ p < units → get_bits t p = Ret (unit_at t p).
Proof.
  intros W Hp. destruct (tbl_byte t p W Hp) as (b & Eb & Er & Hb & Hd & Hm). unfold get_bits, unit_at.
  rewrite Er, Eb, land_3. cbn [mbind outcome_bind default]. f_equal.
  by destruct (byte_units b (p mod 4) 0 0 Hb Hm) as (-> & _).
Qed.

Definition unit_free t (p : Z) : bool := negb (Z.odd (unit_at t p)).

Lemma is_free_spec t p : tbl_wf t → 0 ≤ p < units → is_free t p = Ret (unit_free t p).
Proof.
  intros W Hp. destruct (tbl_byte t p W Hp) as (b & Eb & Er & Hb & Hd & Hm). unfold is_free, unit_free, unit_at.
  rewrite Er, Eb, land_3. cbn [mbind outcome_bind default]. f_equal.
  by destruct (byte_units b (p mod 4) 0 0 Hb Hm) as (_ & -> & _).
Qed.

Lemma set_allocation_spec t p v :
  tbl_wf t → 0 ≤ p < units → 0 ≤ v < 4 →
  ∃ t', set_allocation t p v = Ret t' ∧ tbl_wf t' ∧ tbl_this t' = tbl_this t ∧
    ∀ q, 0 ≤ q < units → unit_at t' q = if q =? p then v else unit_at t q.
Proof.
  intros W Hp Hv. destruct (tbl_byte t p W Hp) as (b & Eb & Er & Hb & Hd & Hm). destruct W as [Len U].
  unfold set_allocation. rewrite Er. cbn [mbind outcome_bind]. rewrite land_3.
  rewrite Z.shiftr_div_pow2 in * by lia. change (2 ^ 2) with 4 in *.
  rewrite wr_lt by lia. cbn [mbind outcome_bind]. unfold rd.
  rewrite list_lookup_insert_eq by lia. cbn [mbind outcome_bind].
  rewrite wr_lt by (rewrite length_insert; lia). rewrite list_insert_insert_eq.
  cbn [mbind outcome_bind]. eexists. split; [done |].
  destruct (byte_units b (p mod 4) v 0 Hb Hm Hv ltac:(lia)) as (_ & _ & Hb' & _).
  split; [split; cbn [tbl_bits]; [by rewrite length_insert | by apply Forall_insert] |]. split; [done |].
  { intros q Hq. unfold unit_at. cbn [tbl_bits].
    pose proof (Z.div_mod q 4 ltac:(done)). pose proof (Z.mod_pos_bound q 4 ltac:(done)).
    pose proof (Z.div_mod p 4 ltac:(done)). destruct (decide (q / 4 = p / 4)) as [E | Hne].
    + rewrite E, list_lookup_insert_eq, Eb by lia. change (default 0 (Some ?x)) with x.
      destruct (byte_units b (p mod 4) v (q mod 4) Hb Hm Hv ltac:(lia)) as (_ & _ & _ & ->).
      by destruct (Z.eqb_spec (q mod 4) (p mod 4)), (Z.eqb_spec q p); try lia.
    + rewrite list_lookup_insert_ne by (unfold units in *; lia). destruct (Z.eqb_spec q p); [lia | done]. }
Qed.

Lemma unit_range t p : 0 ≤ unit_at t p < 4.
Proof.
  unfold unit_at, unit_of_byte. change 3 with (Z.ones 2). rewrite Z.land_ones by lia.
  by apply Z.mod_pos_bound.
Qed.

(** Tables with the same units are equal. *)
Lemma tbl_ext t t' :
  tbl_wf t → tbl_wf t' → tbl_this t = tbl_this t' →
  (∀ p, 0 ≤ p < units → unit_at t p = unit_at t' p) → t = t'.
Proof.
  intros W W' Et Eu. destruct t as [a l], t' as [a' l']. cbn in Et. subst a'. f_equal.
  destruct W as [Len U], W' as [Len' U']. cbn [tbl_bits] in *. apply list_eq. intros i.
  destruct (decide (i < 4096)%nat) as [Hi |].
  2:{ by rewrite !lookup_ge_None_2 by lia. }
  destruct (lookup_lt_is_Some_2 l i ltac:(lia)) as [b Hb], (lookup_lt_is_Some_2 l' i ltac:(lia)) as [b' Hb'].
  rewrite Hb, Hb'. f_equal.
  rewrite (byte_ext b), (byte_ext b') by (eapply (Forall_lookup_1 (is_u 8)); [| done]; done).
  assert (∀ s, 0 ≤ s < 4 → unit_of_byte b s = unit_of_byte b' s) as E.
  { intros s Hs. specialize (Eu (4 * Z.of_nat i + s) ltac:(unfold units; lia)). unfold unit_at in Eu.
    cbn [tbl_bits] in Eu. rewrite (Z.mul_comm 4), Z.div_add_l, (Z.div_small s), Z.add_0_r in Eu by lia.
    rewrite Z.add_comm, Z.mod_add, Z.mod_small, Nat2Z.id, Hb, Hb' in Eu by lia. done. }
  by rewrite !E by lia.
Qed.

(** ** The search *)

Lemma sm_scan_byte_spec n t i j c size :
  tbl_wf t → 0 ≤ i < 4096 → 0 ≤ j → j + Z.of_nat n ≤ 4 → 0 ≤ c ≤ 4 * i + j →
  sm_scan_byte n t i j c size = Ret (run_search (unit_free t) size n (4 * i + j) c).
Proof.
  intros W Hi. revert j c. induction n as [| n IH]; intros j c Hj Hn Hc; [done |].
  cbn [sm_scan_byte run_search]. rewrite Z.shiftl_mul_pow2 by lia. change (2 ^ 2) with 4.
  rewrite (Z.mul_comm i), !(wrap_id 32 (4 * i)), !(wrap_id 32 (4 * i + j)) by (unfold is_u; lia).
  rewrite is_free_spec by (done || unfold units; lia). cbn [mbind outcome_bind].
  rewrite (wrap_id 32 (c + 1)) by (unfold is_u; lia).
  replace (4 * i + j + 1) with (4 * i + (j + 1)) by lia.
  destruct (unit_free t (4 * i + j)); [| apply IH; lia].
  destruct (c + 1 =? size); [| apply IH; lia].
  rewrite (wrap_id 32 (c + 1 - 1)), wrap_id by (unfold is_u; lia). do 2 f_equal. lia.
Qed.

Lemma run_search_count free size n p c :
  0 ≤ c ≤ p → match run_search free size n p c with inl _ => True | inr c' => 0 ≤ c' ≤ p + Z.of_nat n end.
Proof.
  revert p c. induction n as [| n IH]; intros p c Hc; cbn [run_search]; [lia |].
  replace (p + Z.of_nat (S n)) with (p + 1 + Z.of_nat n) by lia.
  destruct (free p); [destruct (c + 1 =? size); [done |] |]; apply IH; lia.
Qed.

Lemma unit_at_byte t i s b :
  tbl_bits t !! Z.to_nat i = Some b → 0 ≤ s < 4 → unit_at t (4 * i + s) = unit_of_byte b s.
Proof.
  intros Hb Hs. unfold unit_at. rewrite (Z.mul_comm 4), Z.div_add_l, (Z.div_small s), Z.add_0_r by lia.
  by rewrite Z.add_comm, Z.mod_add, Z.mod_small, Hb by lia.
Qed.

Lemma sm_scan_spec n t i c size :
  tbl_wf t → 0 ≤ i → i + Z.of_nat n ≤ 4096 → 0 ≤ c ≤ 4 * i →
  sm_scan n t i c size = Ret (match run_search (unit_free t) size (4 * n) (4 * i) c with
                              | inl p => Some p | inr _ => None end).
Proof.
  intros W. revert i c. induction n as [| n IH]; intros i c Hi Hn Hc; [done |].
  destruct (rd_lt (tbl_bits t) i) as (b & Er & Hb); [destruct W; lia |].
  pose proof (Forall_lookup_1 _ _ _ _ (proj2 W) Hb) as Ub. change (is_u 8 b) with (0 ≤ b < 256) in Ub.
  cbn [sm_scan]. rewrite Er. cbn [mbind outcome_bind]. rewrite byte_full by done.
  replace (4 * S n)%nat with (4 + 4 * n)%nat by lia. rewrite run_search_app.
  replace (4 * i + Z.of_nat 4) with (4 * (i + 1)) by lia.
  destruct (Z.odd (unit_of_byte b 0) && Z.odd (unit_of_byte b 1) && Z.odd (unit_of_byte b 2) &&
    Z.odd (unit_of_byte b 3)) eqn:Full; cbn [negb].
  - rewrite (run_search_used _ _ 4); [| | lia]; [apply IH; lia |].
    repeat apply andb_prop in Full as [Full ?]. intros q Hq. unfold unit_free. apply negb_false_iff.
    replace q with (4 * i + (q - 4 * i)) by lia. rewrite (unit_at_byte t i _ b) by (done || lia).
    assert (q - 4 * i = 0 ∨ q - 4 * i = 1 ∨ q - 4 * i = 2 ∨ q - 4 * i = 3) as [-> | [-> | [-> | ->]]] by lia; done.
  - rewrite sm_scan_byte_spec, Z.add_0_r by (done || lia). cbn [mbind outcome_bind].
    pose proof (run_search_count (unit_free t) size 4 (4 * i) c Hc) as Cnt.
    destruct (run_search (unit_free t) size 4 (4 * i) c); [done |]. apply IH; lia.
Qed.

(** ** Blocks *)

(** Units are 0, 1 or 3, and a unit that continues a block has the block in
    front of it. *)
Definition tbl_ok t : Prop :=
  tbl_wf t ∧ ∀ p, 0 ≤ p < units →
    (unit_at t p = 0 ∨ unit_at t p = 1 ∨ unit_at t p = 3) ∧
    (unit_at t p = 1 → 0 < p ∧ unit_at t (p - 1) ≠ 0).

(** The units [p, p+n) are one block. *)
Definition block_at t (p n : Z) : Prop :=
  0 ≤ p ∧ 1 ≤ n ∧ p + n ≤ units ∧ unit_at t p = 3 ∧
  (∀ q, p < q < p + n → unit_at t q = 1) ∧ (p + n < units → unit_at t (p + n) ≠ 1).

(** [t'] is [t] with the units [p, p+n) replaced. *)
Definition units_set t t' (p n : Z) (v : Z → Z) : Prop :=
  tbl_wf t' ∧ tbl_this t' = tbl_this t ∧
  ∀ q, 0 ≤ q < units → unit_at t' q = if decide (p ≤ q < p + n) then v q else unit_at t q.

Definition block_unit (p q : Z) : Z := if q =? p then 3 else 1.

Lemma sm_mark_spec n t p i :
  tbl_wf t → 0 ≤ p → 1 ≤ i → p + i + Z.of_nat n ≤ units →
  ∃ t', sm_mark n t p i = Ret t' ∧ units_set t t' (p + i) (Z.of_nat n) (fun _ => 1).
Proof.
  revert t i. induction n as [| n IH]; intros t i W Hp Hi Hn.
  { exists t. split; [done |]. split_and!; try apply W; try done. intros q Hq. by rewrite decide_False by lia. }
  cbn [sm_mark]. rewrite wrap_id by (unfold is_u, units in *; lia).
  destruct (set_allocation_spec t (p + i) 1 W ltac:(lia) ltac:(done)) as (t1 & -> & W1 & E1 & U1).
  cbn [mbind outcome_bind]. destruct (IH t1 (i + 1) W1) as (t' & -> & W' & E' & U'); try lia.
  exists t'. split; [done |]. split; [done |]. split; [congruence |]. intros q Hq. rewrite U', U1 by done.
  destruct (Z.eqb_spec q (p + i)) as [-> |].
  - by rewrite decide_False, decide_True by lia.
  - destruct (decide (p + (i + 1) ≤ q < p + (i + 1) + Z.of_nat n)),
      (decide (p + i ≤ q < p + i + Z.of_nat (S n))); (done || lia).
Qed.

(** The number of units of a request. *)
Definition units_of (size : Z) : Z := Z.max 1 ((size + 15) / 16).

Lemma units_of_le size n : 1 ≤ n → size ≤ 16 * n → 1 ≤ units_of size ≤ n.
Proof.
  intros Hn Hs. unfold units_of. assert ((size + 15) / 16 < n + 1) by (apply Z.div_lt_upper_bound; lia). lia.
Qed.

Lemma sm_round_spec size : 0 ≤ size → size + 16 ≤ 2 ^ 32 → sm_round size = 16 * units_of size.
Proof.
  intros Hs Ho. unfold sm_round, units_of, small_alloc_unit.
  pose proof (Z.div_mod (size + 15) 16 ltac:(done)). pose proof (Z.mod_pos_bound (size + 15) 16 ltac:(done)).
  destruct (Z.ltb_spec size 16); [lia |].
  pose proof (Z.div_mod size 16 ltac:(done)). pose proof (Z.mod_pos_bound size 16 ltac:(done)).
  destruct (Z.eqb_spec (size mod 16) 0); cbn [negb]; [lia |]. rewrite wrap_id by (unfold is_u; lia). lia.
Qed.

Lemma tbl_sm_allocate_spec t size :
  tbl_wf t → 0 ≤ size < 2 ^ 32 →
  let n := units_of size in
  ∃ r t', tbl_sm_allocate t size = Ret (r, t') ∧
    match r with
    | Some ptr => ∃ p, ptr = pointer_to t p ∧ 0 ≤ p ∧ p + n ≤ units ∧ free_cells (unit_free t) p n ∧
        (∀ p', 0 ≤ p' < p → ¬ free_cells (unit_free t) p' n) ∧ units_set t t' p n (block_unit p)
    | None => t' = t ∧ ∀ p, 0 ≤ p → p + n ≤ units → ¬ free_cells (unit_free t) p n
    end.
Proof.
  intros W Hs n. unfold tbl_sm_allocate. change max_allocation_size with 262144.
  assert (1 ≤ n) by (unfold n, units_of; lia).
  destruct (Z.ltb_spec 262144 size).
  { exists None, t. split; [done |]. split; [done |]. intros p Hp Hn. exfalso. unfold n, units_of, units in *.
    pose proof (Z.div_le_lower_bound (size + 15) 16 16385). lia. }
  rewrite sm_round_spec by lia. fold n. unfold small_alloc_unit.
  rewrite (Z.mul_comm 16), Z.div_mul by lia. rewrite (sm_scan_spec 4096) by (done || lia). cbn [mbind outcome_bind].
  pose proof (run_search_spec (unit_free t) n 0 ltac:(done) (4 * 4096)) as R.
  change (4 * 0) with 0. destruct (run_search (unit_free t) n (4 * 4096) 0 0) as [p | c].
  2:{ exists None, t. split; [done |]. split; [done |]. intros p Hp Hn. apply R; unfold units in *; lia. }
  destruct R as (Hp & Hpn & F & First).
  destruct (set_allocation_spec t p 3 W) as (t1 & -> & W1 & E1 & U1); [unfold units; lia | done |].
  cbn [mbind outcome_bind].
  destruct (sm_mark_spec (Z.to_nat (n - 1)) t1 p 1 W1) as (t' & -> & W' & E' & U'); [lia | lia | unfold units; lia |].
  cbn [mbind outcome_bind]. exists (Some (pointer_to t' p)), t'. split; [done |]. exists p.
  unfold pointer_to, begin_ptr. rewrite E', E1. split; [done |]. split; [done |].
  split; [unfold units; lia |]. split; [done |]. split; [done |]. split; [done |]. split; [congruence |].
  intros q Hq. rewrite U', U1 by done. unfold block_unit.
  destruct (Z.eqb_spec q p) as [-> |].
  - by rewrite decide_False, decide_True by lia.
  - destruct (decide (p + 1 ≤ q < p + 1 + Z.of_nat (Z.to_nat (n - 1)))), (decide (p ≤ q < p + n)); (done || lia).
Qed.

(** A free unit of a consistent table is 0. *)
Lemma unit_free_0 t p : tbl_ok t → 0 ≤ p < units → unit_free t p = true ↔ unit_at t p = 0.
Proof.
  intros [_ Ok] Hp. destruct (Ok p Hp) as [U _]. unfold unit_free.
  destruct U as [-> | [-> | ->]]; done.
Qed.

Lemma units_set_block t t' p n :
  tbl_ok t → 0 ≤ p → 1 ≤ n → p + n ≤ units → free_cells (unit_free t) p n →
  units_set t t' p n (block_unit p) → tbl_ok t' ∧ block_at t' p n.
Proof.
  intros Ok Hp Hn Hpn F (W' & E' & U'). assert (∀ q, p ≤ q < p + n → unit_at t q = 0) as Z0.
  { intros q Hq. apply unit_free_0; [done | lia | by apply F]. }
  destruct Ok as [W Ok]. split; [split; [done |] |].
  - intros q Hq. rewrite !U' by lia. unfold block_unit. destruct (Ok q Hq) as [O1 O2].
    destruct (decide (p ≤ q < p + n)) as [Hin | Hout].
    + destruct (Z.eqb_spec q p); [split; [by right; right | lia] |]. split; [by right; left |]. intros _. split; [lia |].
      rewrite U', decide_True by lia. unfold block_unit. destruct (q - 1 =? p); lia.
    + split; [done |]. intros E1. destruct (O2 E1) as [H0 N0]. split; [done |]. rewrite U' by lia.
      destruct (decide (p ≤ q - 1 < p + n)); [unfold block_unit; destruct (q - 1 =? p); lia | done].
  - split_and!; try done.
    + rewrite U', decide_True by lia. unfold block_unit. by rewrite Z.eqb_refl.
    + intros q Hq. rewrite U', decide_True by lia. unfold block_unit. destruct (Z.eqb_spec q p); [lia | done].
    + intros Hlt. rewrite U', decide_False by lia. intros E1. destruct (Ok (p + n) ltac:(lia)) as [_ O2].
      destruct (O2 E1) as [_ N0]. apply N0, Z0. lia.
Qed.

(** ** Freeing *)

Lemma block_stop t p n :
  tbl_ok t → block_at t p n → p + n < units → (unit_at t (p + n) =? 0) || (unit_at t (p + n) =? 3) = true.
Proof.
  intros [_ Ok] B Hlt. destruct B as (Hp & Hn & _ & _ & _ & Hend). specialize (Hend Hlt).
  destruct (Ok (p + n) ltac:(lia)) as [[-> | [? | ->]] _]; done.
Qed.

(** The state while a block is freed: the units before [w] are 0. *)
Lemma sm_free_loop_spec fuel t0 t p n w :
  tbl_ok t0 → block_at t0 p n → p < w ≤ p + n → units_set t0 t p (w - p) (fun _ => 0) →
  (Z.to_nat (p + n - w) < fuel)%nat →
  ∃ t', sm_free_loop fuel t w (16 * (w - p)) = Ret (16 * n, t') ∧ units_set t0 t' p n (fun _ => 0).
Proof.
  intros Ok B. pose proof B as (Hp & Hn & Hpn & _ & H1 & _). unfold units in Hpn.
  revert t w. induction fuel as [| fuel IH]; intros t w Hw (W & E & U) Hf; [lia |].
  cbn [sm_free_loop]. destruct (Z.ltb_spec w (4 * 4096)).
  2:{ assert (w = p + n) as -> by lia. replace (p + n - p) with n in * by lia. by exists t. }
  rewrite get_bits_spec by (done || unfold units; lia). cbn [mbind outcome_bind].
  rewrite U, decide_False by (unfold units; lia). destruct (decide (w = p + n)) as [-> | Hne].
  { rewrite (block_stop t0 p n) by (done || unfold units; lia). replace (p + n - p) with n in * by lia. by exists t. }
  rewrite (H1 w) by lia. cbn [Z.eqb orb].
  destruct (set_allocation_spec t w 0 W) as (t1 & -> & W1 & E1 & U1); [unfold units; lia | done |].
  cbn [mbind outcome_bind]. unfold small_alloc_unit. rewrite !wrap_id by (unfold is_u; lia).
  replace (16 * (w - p) + 16) with (16 * (w + 1 - p)) by lia.
  apply IH; [lia | | lia]. split; [done |]. split; [congruence |]. intros q Hq. rewrite U1, U by done.
  destruct (Z.eqb_spec q w) as [-> |]; [by rewrite decide_True by lia |].
  destruct (decide (p ≤ q < p + (w - p))), (decide (p ≤ q < p + (w + 1 - p))); (done || lia).
Qed.

Lemma sm_sizeof_loop_spec fuel t p n w :
  tbl_ok t → block_at t p n → p < w ≤ p + n → (Z.to_nat (p + n - w) < fuel)%nat →
  sm_sizeof_loop fuel t w (16 * (w - p)) = Ret (16 * n).
Proof.
  intros Ok B. pose proof B as (Hp & Hn & Hpn & _ & H1 & _). unfold units in Hpn.
  revert w. induction fuel as [| fuel IH]; intros w Hw Hf; [lia |].
  cbn [sm_sizeof_loop]. destruct (Z.ltb_spec w (4 * 4096)); [| do 2 f_equal; lia].
  rewrite get_bits_spec by (apply Ok || unfold units; lia). cbn [mbind outcome_bind].
  destruct (decide (w = p + n)) as [-> | Hne].
  { rewrite (block_stop t p n) by (done || unfold units; lia). do 2 f_equal. lia. }
  rewrite (H1 w) by lia. cbn [Z.eqb orb]. unfold small_alloc_unit. rewrite !wrap_id by (unfold is_u; lia).
  replace (16 * (w - p) + 16) with (16 * (w + 1 - p)) by lia. apply IH; lia.
Qed.

(** The memory lies inside the address space. *)
Definition tbl_placed t : Prop := 0 ≤ tbl_this t ∧ tbl_this t + 4096 + 16 * units < 2 ^ 64.

Lemma pointer_position t p :
  tbl_placed t → 0 ≤ p < units →
  pointer_to t p = tbl_this t + 4096 + 16 * p ∧ u64 (pointer_to t p - begin_ptr t) = 16 * p.
Proof.
  unfold tbl_placed, units. intros [H0 Ho] Hp. unfold pointer_to, begin_ptr, small_alloc_unit.
  rewrite !(wrap_id 64 (tbl_this t + 4096)) by (unfold is_u; lia).
  rewrite (wrap_id 64 (tbl_this t + 4096 + p * 16)) by (unfold is_u; lia).
  split; [lia |]. rewrite wrap_id by (unfold is_u; lia). lia.
Qed.

Lemma tbl_sm_free_spec t p n :
  tbl_ok t → tbl_placed t → block_at t p n →
  tbl_sm_sizeof t (pointer_to t p) = Ret (16 * n) ∧
  ∃ t', tbl_sm_free t (pointer_to t p) = Ret (16 * n, t') ∧ units_set t t' p n (fun _ => 0) ∧ tbl_ok t'.
Proof.
  intros Ok Pl B. pose proof B as (Hp & Hn & Hpn & H3 & H1 & Hend).
  destruct (pointer_position t p Pl ltac:(lia)) as [_ Ev]. unfold tbl_sm_sizeof, tbl_sm_free. rewrite Ev.
  unfold small_alloc_unit. rewrite (Z.mul_comm 16 p), Z.mod_mul, Z.div_mul by lia. cbn [Z.eqb negb].
  rewrite !(wrap_id 64 (p + 1)) by (unfold is_u, units in *; lia).
  assert (Z.to_nat (p + n - (p + 1)) < sm_fuel)%nat as Hf by (unfold sm_fuel, units in *; lia).
  split.
  - pose proof (sm_sizeof_loop_spec sm_fuel t p n (p + 1) Ok B ltac:(lia) Hf) as L.
    replace (16 * (p + 1 - p)) with 16 in L by lia. done.
  - destruct (set_allocation_spec t p 0 (proj1 Ok)) as (t1 & -> & W1 & E1 & U1); [lia | done |].
    cbn [mbind outcome_bind].
    destruct (sm_free_loop_spec sm_fuel t t1 p n (p + 1) Ok B ltac:(lia)) as (t' & L & S); [| done |].
    { split; [done |]. split; [done |]. intros q Hq. rewrite U1 by done.
      destruct (Z.eqb_spec q p) as [-> |]; [by rewrite decide_True by lia | by rewrite decide_False by lia]. }
    replace (16 * (p + 1 - p)) with 16 in L by lia. exists t'. split; [done |]. split; [done |].
    destruct S as (W' & E' & U'). split; [done |]. intros q Hq. rewrite !U' by lia.
    destruct Ok as [_ Ok]. destruct (Ok q Hq) as [O1 O2]. destruct (decide (p ≤ q < p + n)); [by split; [left |] |].
    split; [done |]. intros E. destruct (O2 E) as [H0 N0]. split; [done |]. rewrite U' by lia.
    rewrite decide_False; [done |]. intros Hin. assert (q = p + n) as -> by lia. by apply (Hend ltac:(lia)).
Qed.

(** ** The blocks of a table *)

Lemma block_used t p n q : block_at t p n → p ≤ q < p + n → unit_at t q = 3 ∨ unit_at t q = 1.
Proof.
  intros (Hp & Hn & Hpn & H3 & H1 & _) Hq. destruct (decide (q = p)) as [-> |]; [by left |].
  right. apply H1. lia.
Qed.

(** Blocks do not overlap. *)
Lemma blocks_disjoint t p n q m :
  block_at t p n → block_at t q m → (p = q ∧ n = m) ∨ p + n ≤ q ∨ q + m ≤ p.
Proof.
  intros (Hp & Hn & Hpn & H3 & H1 & He) (Hq & Hm & Hqm & G3 & G1 & Ge).
  destruct (decide (p = q)) as [<- | Hne].
  - left. split; [done |]. destruct (decide (n < m)).
    { exfalso. apply (He ltac:(lia)), G1. lia. }
    destruct (decide (m < n)); [| lia]. exfalso. apply (Ge ltac:(lia)), H1. lia.
  - right. destruct (decide (p < q < p + n)) as [D |].
    { rewrite (H1 q D) in G3. done. }
    destruct (decide (q < p < q + m)) as [D |]; [| lia]. rewrite (G1 p D) in H3. done.
Qed.

(** The blocks after an allocation. *)
Lemma block_alloc_iff t t' p n q m :
  tbl_ok t → 0 ≤ p → 1 ≤ n → p + n ≤ units → free_cells (unit_free t) p n →
  units_set t t' p n (block_unit p) →
  block_at t' q m ↔ (q = p ∧ m = n) ∨ block_at t q m.
Proof.
  intros Ok Hp Hn Hpn F S. destruct (units_set_block t t' p n) as [Ok' B]; try done.
  assert (∀ x, p ≤ x < p + n → unit_at t x = 0) as Z0.
  { intros x Hx. apply unit_free_0; [done | lia | by apply F]. }
  destruct S as (_ & _ & U). split.
  - intros Bq. destruct (blocks_disjoint t' p n q m B Bq) as [[<- <-] | D]; [by left |]. right.
    destruct Bq as (Hq & Hm & Hqm & G3 & G1 & Ge). split_and!; try done.
    + by rewrite U, decide_False in G3 by lia.
    + intros x Hx. specialize (G1 x Hx). by rewrite U, decide_False in G1 by lia.
    + intros Hlt. specialize (Ge Hlt). rewrite U in Ge by lia. case_decide; [| done]. by rewrite Z0.
  - intros [[-> ->] | Bq]; [done |].
    assert (∀ x, q ≤ x < q + m → ¬ p ≤ x < p + n) as D.
    { intros x Hx Hin. destruct (block_used t q m x Bq Hx) as [E | E]; rewrite Z0 in E by done; done. }
    destruct Bq as (Hq & Hm & Hqm & G3 & G1 & Ge). split_and!; try done.
    + rewrite U, decide_False by (lia || (apply D; lia)). done.
    + intros x Hx. rewrite U, decide_False by (lia || (apply D; lia)). by apply G1.
    + intros Hlt. rewrite U by lia. case_decide as Hin; [| by apply Ge]. unfold block_unit.
      assert (q + m = p) as ->; [| by rewrite Z.eqb_refl].
      specialize (D (q + m - 1) ltac:(lia)). lia.
Qed.

(** The blocks after a block is freed. *)
Lemma block_free_iff t t' p n q m :
  tbl_ok t → block_at t p n → units_set t t' p n (fun _ => 0) →
  block_at t' q m ↔ block_at t q m ∧ q ≠ p.
Proof.
  intros Ok B (_ & _ & U). pose proof B as (Hp & Hn & Hpn & H3 & H1 & He). split.
  - intros Bq. assert (∀ x, q ≤ x < q + m → ¬ p ≤ x < p + n) as D.
    { intros x Hx Hin. destruct (block_used t' q m x Bq Hx) as [E | E]; destruct Bq as (? & ? & ? & _);
        rewrite U, decide_True in E by (done || lia); done. }
    destruct Bq as (Hq & Hm & Hqm & G3 & G1 & Ge). split; [| intros ->; apply (D p); lia].
    split_and!; try done.
    + by rewrite U, decide_False in G3 by (lia || (apply D; lia)).
    + intros x Hx. specialize (G1 x Hx). by rewrite U, decide_False in G1 by (lia || (apply D; lia)).
    + intros Hlt. specialize (Ge Hlt). rewrite U in Ge by lia. case_decide as Hin; [| done].
      specialize (D (q + m - 1) ltac:(lia)). assert (q + m = p) as -> by lia. by rewrite H3.
  - intros [Bq Hne]. destruct (blocks_disjoint t p n q m B Bq) as [[? _] | D]; [done |].
    destruct Bq as (Hq & Hm & Hqm & G3 & G1 & Ge). split_and!; try done.
    + rewrite U, decide_False by lia. done.
    + intros x Hx. rewrite U, decide_False by lia. by apply G1.
    + intros Hlt. rewrite U by lia. case_decide; [done | by apply Ge].
Qed.

(** ** Counting *)

(** The number of used units, sealed so that no proof unrolls the count. *)
Definition used_units_def t : Z := count_cells (fun p => Z.odd (unit_at t p)) (Z.to_nat units).
Definition used_units_aux : seal used_units_def.
Proof. by eexists. Qed.
Definition used_units : SmallUnitMemoryAllocTable → Z := used_units_aux.(unseal).
Lemma used_units_unseal : used_units = used_units_def.
Proof. apply used_units_aux. Qed.

Lemma used_units_block t t' p n :
  tbl_ok t → 0 ≤ p → 1 ≤ n → p + n ≤ units → free_cells (unit_free t) p n →
  units_set t t' p n (block_unit p) → used_units t' = used_units t + n.
Proof.
  intros Ok Hp Hn Hpn F (W' & E' & U'). rewrite used_units_unseal; unfold used_units_def.
  rewrite (count_cells_add (fun p => Z.odd (unit_at t p)) _ p n); [unfold units in *; lia | done | lia | |].
  - intros q Hq. rewrite U' by (unfold units in *; lia). case_decide as D; [| done].
    by apply negb_true_iff, F.
  - intros q Hq D. rewrite U', decide_True by (done || unfold units in *; lia).
    unfold block_unit. by destruct (q =? p).
Qed.

Lemma used_units_free t t' p n :
  block_at t p n → units_set t t' p n (fun _ => 0) → used_units t' = used_units t - n.
Proof.
  intros (Hp & Hn & Hpn & H3 & H1 & _) (W' & E' & U'). rewrite used_units_unseal; unfold used_units_def.
  rewrite (count_cells_add (fun p => Z.odd (unit_at t' p)) (fun p => Z.odd (unit_at t p)) p n);
    [unfold units in *; lia | done | lia | |].
  - intros q Hq. rewrite U' by (unfold units in *; lia). by case_decide.
  - intros q Hq D. destruct (decide (q = p)) as [-> |]; [by rewrite H3 | by rewrite H1 by lia].
Qed.

(** A row of free units fits beside the used ones. *)
Lemma used_units_room t p n :
  0 ≤ p → 0 ≤ n → p + n ≤ units → free_cells (unit_free t) p n → used_units t + n ≤ units.
Proof.
  intros Hp Hn Hpn F. rewrite used_units_unseal; unfold used_units_def. set (f := fun q => Z.odd (unit_at t q)).
  set (g := fun q => if decide (p ≤ q < p + n) then true else f q).
  pose proof (count_cells_range g (Z.to_nat units)) as Hg.
  rewrite (count_cells_add f g p n) in Hg; [unfold units in *; lia | done | done | |].
  - intros q Hq. unfold g. case_decide as D; [| done]. by apply negb_true_iff, F.
  - intros q Hq D. unfold g. by rewrite decide_True.
Qed.

Lemma used_units_range t : 0 ≤ used_units t ≤ units.
Proof.
  rewrite used_units_unseal; unfold used_units_def. pose proof (count_cells_range (fun p => Z.odd (unit_at t p)) (Z.to_nat units)).
  unfold units in *. lia.
Qed.

(** ** A new table *)

Lemma new_table_unit this p : unit_at (new_table this) p = 0.
Proof.
  unfold unit_at, new_table, unit_of_byte. cbn [tbl_bits].
  destruct (replicate 4096 0 !! Z.to_nat (p / 4)) as [b |] eqn:E.
  - apply lookup_replicate in E as [-> _]. change (default 0 (Some 0)) with 0. by rewrite Z.shiftr_0_l.
  - change (default 0 None) with 0. by rewrite Z.shiftr_0_l.
Qed.

Lemma new_table_ok this : tbl_ok (new_table this).
Proof.
  split; [split; [apply length_replicate | by apply Forall_replicate] |].
  intros p Hp. rewrite new_table_unit. split; [by left | done].
Qed.

Lemma new_table_free this p n : free_cells (unit_free (new_table this)) p n.
Proof. intros q _. unfold unit_free. by rewrite new_table_unit. Qed.

Lemma new_table_used this : used_units (new_table this) = 0.
Proof.
  rewrite used_units_unseal. apply count_cells_none. intros q. by rewrite new_table_unit.
Qed.

(** ** Properties *)

(** C32: the table hands out the first row of free units that holds the size
    asked for (at least one unit), marks exactly this row as one block, and
    keeps its units consistent; it returns the null pointer only if no such
    row exists, and then changes nothing. *)
Theorem small_allocate_correct t (size : Z) :
  tbl_ok t → tbl_placed t → 0 ≤ size < 2 ^ 32 →
  let n := Z.max 1 ((size + 15) / 16) in
  ∃ r t', tbl_sm_allocate t size = Ret (r, t') ∧ tbl_ok t' ∧
    match r with
    | Some ptr => ∃ p, ptr = tbl_this t + 4096 + 16 * p ∧ 0 ≤ p ∧ p + n ≤ units ∧
        free_cells (unit_free t) p n ∧ (∀ p', 0 ≤ p' < p → ¬ free_cells (unit_free t) p' n) ∧
        block_at t' p n ∧ used_units t' = used_units t + n ∧
        ∀ q, 0 ≤ q < units → ¬ p ≤ q < p + n → unit_at t' q = unit_at t q
    | None => t' = t ∧ ∀ p, 0 ≤ p → p + n ≤ units → ¬ free_cells (unit_free t) p n
    end.
Proof.
  intros Ok Pl Hs n. destruct (tbl_sm_allocate_spec t size (proj1 Ok) Hs) as (r & t' & E & R).
  change (units_of size) with n in R. exists r, t'. split; [done |]. destruct r as [ptr |].
  2:{ destruct R as [-> R]. done. }
  destruct R as (p & -> & Hp & Hpn & F & First & S).
  destruct (units_set_block t t' p n) as [Ok' B]; try (done || lia). split; [done |]. exists p.
  destruct (pointer_position t p Pl ltac:(lia)) as [-> _].
  assert (used_units t' = used_units t + n) as C by (apply (used_units_block t t' p n Ok); (assumption || lia)).
  do 5 (split; [assumption || reflexivity |]). split; [exact B |]. split; [exact C |].
  intros q Hq N. destruct S as (_ & _ & U). by rewrite U, decide_False.
Qed.

(** a block from the table lies in the memory of the table, has the size
    asked for in whole units, and freeing it returns this size and gives back
    the very table from before the allocation. *)
Theorem small_alloc_free_roundtrip t t' (size ptr : Z) :
  tbl_ok t → tbl_placed t → 0 ≤ size < 2 ^ 32 → tbl_sm_allocate t size = Ret (Some ptr, t') →
  let n := Z.max 1 ((size + 15) / 16) in
  tbl_sm_owned t' ptr = true ∧ tbl_sm_sizeof t' ptr = Ret (16 * n) ∧ tbl_sm_free t' ptr = Ret (16 * n, t).
Proof.
  intros Ok Pl Hs E n. destruct (tbl_sm_allocate_spec t size (proj1 Ok) Hs) as (r & t1 & E' & R).
  rewrite E in E'. injection E' as <- <-. change (units_of size) with n in R.
  destruct R as (p & -> & Hp & Hpn & F & First & S).
  destruct (units_set_block t t' p n) as [Ok' B]; try (done || lia). pose proof S as (W' & Et & U').
  assert (tbl_placed t') as Pl' by (unfold tbl_placed; by rewrite Et).
  assert (pointer_to t p = pointer_to t' p) as -> by (unfold pointer_to, begin_ptr; by rewrite Et).
  destruct (tbl_sm_free_spec t' p n Ok' Pl' B) as (-> & t'' & -> & S'' & _). split_and!; try done.
  - destruct (pointer_position t' p Pl' ltac:(lia)) as [-> _]. unfold tbl_sm_owned, end_ptr, begin_ptr, small_alloc_unit.
    unfold tbl_placed, units in *. rewrite (wrap_id 64 (tbl_this t' + 4096)) by (unfold is_u; lia).
    rewrite wrap_id by (unfold is_u; lia). lia.
  - f_equal. f_equal. destruct S'' as (W'' & Et'' & U''). apply tbl_ext; try done; [apply Ok | congruence |].
    intros q Hq. rewrite U'', U' by done. case_decide as D; [| done]. symmetry.
    apply unit_free_0; [done | done | by apply F].
Qed.

(** *** A table with one block *)

Definition empty_table : SmallUnitMemoryAllocTable := new_table 0x100000.

Lemma empty_table_ok : tbl_ok empty_table.
Proof. apply new_table_ok. Qed.

Lemma small_allocate_correct_witness :
  ∃ t', tbl_sm_allocate empty_table 100 = Ret (Some 0x101000, t') ∧
    used_units t' = used_units empty_table + 7.
Proof.
  destruct (small_allocate_correct empty_table 100 empty_table_ok) as (r & t' & E & _ & R); [done | done |].
  assert (fst <$> tbl_sm_allocate empty_table 100 = Ret (Some 0x101000)) as E1 by (by vm_compute).
  rewrite E in E1. injection E1 as ->. exists t'. split; [exact E |].
  destruct R as (p & _ & _ & _ & _ & _ & _ & C & _). exact C.
Defined.

Lemma small_alloc_free_roundtrip_witness :
  ∃ t', tbl_sm_allocate empty_table 100 = Ret (Some 0x101000, t') ∧
    tbl_sm_free t' 0x101000 = Ret (112, empty_table).
Proof.
  pose proof (fun t' => small_alloc_free_roundtrip empty_table t' 100 0x101000 empty_table_ok
    ltac:(done) ltac:(done)) as H.
  assert (fst <$> tbl_sm_allocate empty_table 100 = Ret (Some 0x101000)) as E1 by (by vm_compute).
  destruct (tbl_sm_allocate empty_table 100) as [[r t'] | | |]; [| discriminate E1..].
  injection E1 as ->. exists t'. split; [exact eq_refl |]. destruct (H t' eq_refl) as (_ & _ & F). exact F.
Defined.
