(* ===== verification/BasicAlloc.v ===== *)
(** * Allocators for small blocks

    [kernel/kmemory/mallocator.cpp], [ChainedAllocator.cpp] and
    [ChainedAllocatorRoot.cpp]: the table of units with its memory mapped on
    demand, the counter of consumed bytes, and chains of allocators, as
    implementations of the interface [MemoryAllocator].  A client sees a
    partial map of blocks: no two of them overlap. *)

From S2P Require Import Prelude PhysPageMap PPageAlloc BitField PageEntry PageTree PageWalk VPageAlloc PageAlloc RunSearch SmallAlloc.

(** ** The interface *)

(** class MemoryAllocator; [W] is the memory of the machine the allocation
    may map pages in. *)
Class MemoryAllocator (A W : Type) := {
  sm_allocate : Z → A → W → outcome (option Z * A * W);
  sm_free : Z → A → outcome (Z * A);
  sm_sizeof : Z → A → outcome Z;
  sm_owned : Z → A → bool;
  sm_total_size : A → Z;
  sm_allocated_size : A → Z;
}.
#[global] Hint Mode MemoryAllocator ! - : typeclass_instances.

(** ** BasicMemoryAllocatorImpl *)

Section Impl.
Context {M : Type} `{PhyspageMapManaged M}.
Abbreviation machine := (mem_state (M := M)).

Definition sm_page_entry (page_ppn pe : Z) : Z :=
  let pe := bf_set pe_page_ppn page_ppn pe in
  let pe := bf_set pe_present 1 pe in
  let pe := bf_set pe_writeable 1 pe in
  let pe := bf_set pe_user_access 0 pe in
  let pe := bf_set pe_execution_disabled 1 pe in
  let pe := bf_set pe_write_through 0 pe in
  let pe := bf_set pe_cache_disabled 0 pe in
  bf_set pe_accessed 0 pe.

(** for (; vmem < vmem_end; vmem += 0x1000) *)
Fixpoint sm_map_loop (fuel : nat) (vmem vmem_end : Z) (s : machine) : outcome machine :=
  match fuel with
  | O => OutOfFuel
  | S fuel =>
      if vmem <? vmem_end then
        o ← get_pageentr (vp_pt (m_virt s)) vmem;
        pe ← deref_pe o;
        if negb (bf_flag pe_present pe) then
          '(ppage, ps) ← ppagealloc 4096 (m_phys s);
          '(_, st) ← update_pageentr (vp_pt (m_virt s)) vmem (sm_page_entry (Z.shiftr ppage 12) pe);
          sm_map_loop fuel (u64 (vmem + 0x1000)) vmem_end
            (Mem (VPS st (allocated_vpages (m_virt s))) ps)
        else sm_map_loop fuel (u64 (vmem + 0x1000)) vmem_end s
      else Ret s
  end.

Definition sm_map_rounds (size : Z) : nat := Z.to_nat (size / 4096 + 3).

Definition Impl_sm_allocate (size : Z) (t : SmallUnitMemoryAllocTable) (s : machine)
    : outcome (option Z * SmallUnitMemoryAllocTable * machine) :=
  '(ptr, t) ← tbl_sm_allocate t size;
  match ptr with
  | Some ptr =>
      let vmem := ptr in
      let vmem_end := u64 (vmem + size) in
      let vmem := Z.land vmem 0xFFFFFFFFFFFFF000 in
      s ← sm_map_loop (sm_map_rounds size) vmem vmem_end s;
      Ret (Some ptr, t, s)
  | None => Ret (None, t, s)
  end.

(** ~BasicMemoryAllocatorImpl(): sizeof( *this) is 4096, one round. *)
Definition Impl_destroy (t : SmallUnitMemoryAllocTable) (s : machine) : outcome machine :=
  o ← get_pageentr (vp_pt (m_virt s)) (tbl_this t);
  pe ← deref_pe o;
  if bf_flag pe_present pe then
    let paddr := bf_get pe_page_ppn pe in
    let paddr := u64 (Z.shiftl paddr 12) in
    ps ← ppagefree paddr 4096 (m_phys s);
    Ret (Mem (m_virt s) ps)
  else Ret s.

(** ** class BasicMemoryAllocator *)

(** The object [impl] points to, and [consumed]. *)
Record BasicMemoryAllocator := BasicAllocator {
  ba_impl : SmallUnitMemoryAllocTable;
  consumed : Z;
}.

Definition Consume (size : Z) (b : BasicMemoryAllocator) : BasicMemoryAllocator :=
  BasicAllocator (ba_impl b) (u32 (consumed b + size)).

Definition Release (size : Z) (b : BasicMemoryAllocator) : BasicMemoryAllocator :=
  BasicAllocator (ba_impl b) (u32 (consumed b - size)).

(** The rounding is the one of the table. *)
Definition Basic_sm_allocate (size : Z) (b : BasicMemoryAllocator) (s : machine)
    : outcome (option Z * BasicMemoryAllocator * machine) :=
  let size := sm_round size in
  if max_allocation_size <? u32 (consumed b + size) then Ret (None, b, s)
  else
    '(ptr, t, s) ← Impl_sm_allocate size (ba_impl b) s;
    let b := BasicAllocator t (consumed b) in
    match ptr with
    | Some ptr => Ret (Some ptr, Consume size b, s)
    | None => Ret (None, b, s)
    end.

Definition Basic_sm_free (ptr : Z) (b : BasicMemoryAllocator) : outcome (Z * BasicMemoryAllocator) :=
  '(size, t) ← tbl_sm_free (ba_impl b) ptr;
  Ret (size, Release size (BasicAllocator t (consumed b))).

#[global] Instance basic_allocator : MemoryAllocator BasicMemoryAllocator machine := {
  sm_allocate := Basic_sm_allocate;
  sm_free := Basic_sm_free;
  sm_sizeof ptr b := tbl_sm_sizeof (ba_impl b) ptr;
  sm_owned ptr b := tbl_sm_owned (ba_impl b) ptr;
  sm_total_size _ := max_allocation_size;
  sm_allocated_size b := consumed b;
}.

End Impl.

(** ** Chains *)

Section Chain.
Context {A W : Type} `{MemoryAllocator A W}.

(** What a pointer to a [MemoryAllocator] of a chain points to: nothing, an
    allocator, or a [ChainedAllocator] with the fields [allocator] and
    [next]. *)
Inductive chain :=
  | Null
  | Single (a : A)
  | ChainedAllocator (allocator : A) (next : chain).

Fixpoint Chained_sm_allocate (sz : Z) (c : chain) (w : W) : outcome (option Z * chain * W) :=
  match c with
  | Null => OutOfBounds
  | Single a =>
      '(ptr, a, w) ← sm_allocate sz a w;
      Ret (ptr, Single a, w)
  | ChainedAllocator allocator next =>
      '(ptr, allocator, w) ← sm_allocate sz allocator w;
      match ptr, next with
      | Some ptr, _ => Ret (Some ptr, ChainedAllocator allocator next, w)
      | None, Null => Ret (None, ChainedAllocator allocator next, w)
      | None, _ =>
          '(ptr, next, w) ← Chained_sm_allocate sz next w;
          Ret (ptr, ChainedAllocator allocator next, w)
      end
  end.

Fixpoint Chained_sm_free (ptr : Z) (c : chain) : outcome (Z * chain) :=
  match c with
  | Null => OutOfBounds
  | Single a =>
      '(size, a) ← sm_free ptr a;
      Ret (size, Single a)
  | ChainedAllocator allocator next =>
      if sm_owned ptr allocator then
        '(size, allocator) ← sm_free ptr allocator;
        Ret (size, ChainedAllocator allocator next)
      else
        match next with
        | Null => Ret (0, c)
        | _ =>
            '(size, next) ← Chained_sm_free ptr next;
            Ret (size, ChainedAllocator allocator next)
        end
  end.

(** A null [next] owns nothing. *)
Fixpoint Chained_sm_owned (ptr : Z) (c : chain) : bool :=
  match c with
  | Null => false
  | Single a => sm_owned ptr a
  | ChainedAllocator allocator next =>
      if sm_owned ptr allocator then true else Chained_sm_owned ptr next
  end.

(** At the end of a chain the code panics. *)
Fixpoint Chained_sm_sizeof (ptr : Z) (c : chain) : outcome Z :=
  match c with
  | Null => Panicked
  | Single a => sm_sizeof ptr a
  | ChainedAllocator allocator next =>
      if sm_owned ptr allocator then sm_sizeof ptr allocator else Chained_sm_sizeof ptr next
  end.

Fixpoint Chained_sm_total_size (c : chain) : Z :=
  match c with
  | Null => 0
  | Single a => sm_total_size a
  | ChainedAllocator allocator next => u64 (sm_total_size allocator + Chained_sm_total_size next)
  end.

Fixpoint Chained_sm_allocated_size (c : chain) : Z :=
  match c with
  | Null => 0
  | Single a => sm_allocated_size a
  | ChainedAllocator allocator next => u64 (sm_allocated_size allocator + Chained_sm_allocated_size next)
  end.

#[global] Instance chained_allocator : MemoryAllocator chain W := {
  sm_allocate := Chained_sm_allocate;
  sm_free := Chained_sm_free;
  sm_sizeof := Chained_sm_sizeof;
  sm_owned := Chained_sm_owned;
  sm_total_size := Chained_sm_total_size;
  sm_allocated_size := Chained_sm_allocated_size;
}.

End Chain.
Arguments chain A : clear implicits.

(** ** Mapping on demand *)

Section MapLoop.
Context {M : Type} `{PhyspageMapManaged M} `{!PhyspageMapLaws M}.
Implicit Types s : mem_state (M := M).

Abbreviation pages s := (page (vp_pt (m_virt s))).

Lemma sm_page_entry_maps : maps sm_page_entry.
Proof.
  intros ppn e. unfold mapped_entry, merge_pageentr, sm_page_entry, bf_flag. cbv zeta.
  split_and!; fields; try done. cbn [bf_bits pe_page_ppn]. apply wrap_wrap.
Qed.

(** One physical page, or none and the code goes on with page 0. *)
Lemma ppagealloc_page ps :
  phys_wf (M := M) ps →
  ∃ p ps', ppagealloc 4096 ps = Ret (4096 * p, ps') ∧ phys_wf ps' ∧ 0 ≤ p < 2 ^ 28 ∧
    (∀ q, is_u 32 q → pm_used (physp ps) q = true → pm_used (physp ps') q = true) ∧
    (if p =? 0 then ps' = ps ∧ ∀ q, pm_used (physp ps) q = true
     else pm_used (physp ps) p = false ∧ pm_used (physp ps') p = true).
Proof.
  intros W. pose proof W as (Wm & Z0 & Hm). unfold ppagealloc.
  destruct (ppagealloc_locked_spec ps 4096 Wm Z0 ltac:(done) ltac:(done)) as (a & ps' & E & D).
  change ((4096 + 4095) / 4096) with 1 in D. destruct D as [(p & -> & Hp & _ & R & _ & G & _) | (-> & -> & N)].
  - exists p, ps'. destruct (free_run_tracked _ p 1 Wm ltac:(done) R) as [_ Hpm].
    split; [done |]. split; [by eapply grabbed_wf |]. split; [lia |].
    destruct G as (_ & _ & _ & U). split; [intros q Hq Hu; by rewrite U, Hu |].
    destruct (Z.eqb_spec p 0); [lia |]. split; [apply R; lia |]. rewrite U by (unfold is_u; lia).
    rewrite PhyspageMap.in_range_1, Z.eqb_refl. apply orb_true_r.
  - exists 0, ps. split_and!; try done. simpl. split; [done |]. intros q.
    destruct (pm_used (physp ps) q) eqn:Uq; [done |]. exfalso. apply (N q). intros x Hx. by replace x with q by lia.
Qed.

(** What the loop does to the page [v]: a page that is present stays as it
    is, another one gets a physical page that was free, or page 0 if there is
    none. *)
Definition on_demand s s' (v : Z) : Prop :=
  ∃ e e', pages s v = Some e ∧ pages s' v = Some e' ∧ bf_flag pe_present e' = true ∧
    (bf_flag pe_present e = true → e' = e) ∧
    (bf_flag pe_present e = false →
      bf_flag pe_writeable e' = true ∧ bf_flag pe_execution_disabled e' = true ∧
      let p := bf_get pe_page_ppn e' in
      if p =? 0 then ∀ q, is_u 32 q → pm_used (physp (m_phys s')) q = true
      else pm_used (physp (m_phys s)) p = false ∧ pm_used (physp (m_phys s')) p = true).

(** Used physical pages stay used. *)
Definition phys_grows s s' : Prop :=
  ∀ q, is_u 32 q → pm_used (physp (m_phys s)) q = true → pm_used (physp (m_phys s')) q = true.

Lemma on_demand_before s s1 s' v :
  phys_grows s s1 → pages s1 v = pages s v → on_demand s1 s' v → on_demand s s' v.
Proof.
  intros Mo Ev (e0 & e1 & E0 & E1 & Hp1 & Hsame & Hnew). exists e0, e1. rewrite <- Ev.
  do 4 (split; [done |]). intros Hab. destruct (Hnew Hab) as (Hwr & Hxd & Hpp). do 2 (split; [done |]).
  cbv zeta in *. destruct (Z.eqb_spec (bf_get pe_page_ppn e1) 0); [done |]. destruct Hpp as [H1 H2].
  split; [| done]. destruct (pm_used (physp (m_phys s)) (bf_get pe_page_ppn e1)) eqn:Us; [| done].
  rewrite Mo in H1; [done | | done]. pose proof (get_is_u pe_page_ppn e1 eq_refl) as [? ?].
  cbn [bf_bits pe_page_ppn] in *. unfold is_u. lia.
Qed.

Lemma on_demand_after s s1 s' v :
  phys_grows s1 s' → pages s' v = pages s1 v → on_demand s s1 v → on_demand s s' v.
Proof.
  intros Mo Ev (e0 & e1 & E0 & E1 & Hp1 & Hsame & Hnew). exists e0, e1. rewrite Ev.
  do 4 (split; [done |]). intros Hab. destruct (Hnew Hab) as (Hwr & Hxd & Hpp). do 2 (split; [done |]).
  cbv zeta in *. destruct (Z.eqb_spec (bf_get pe_page_ppn e1) 0).
  - intros q Hq. by apply Mo, Hpp.
  - destruct Hpp as [H1 H2]. split; [done |]. apply Mo; [| done].
    pose proof (get_is_u pe_page_ppn e1 eq_refl) as [? ?]. cbn [bf_bits pe_page_ppn] in *. unfold is_u. lia.
Qed.

(** A page that is not present gets a physical page. *)
Lemma sm_map_page s w e :
  mem_wf s → 0 ≤ w < vpages → pages s w = Some e → bf_flag pe_present e = false →
  ∃ p ps st, ppagealloc 4096 (m_phys s) = Ret (4096 * p, ps) ∧
    update_pageentr (vp_pt (m_virt s)) (4096 * w) (sm_page_entry (Z.shiftr (4096 * p) 12) e) = Ret (true, st) ∧
    let s1 := Mem (VPS st (allocated_vpages (m_virt s))) ps in
    mem_wf s1 ∧ same_alloc (vp_pt (m_virt s)) st ∧ phys_grows s s1 ∧ on_demand s s1 w ∧
    ∀ v, 0 ≤ v < vpages → v ≠ w → pages s1 v = pages s v.
Proof.
  intros W Hw Ee Pr. destruct (ppagealloc_page (m_phys s) (proj2 W)) as (p & ps & E1 & Wp & Hp & Mo1 & Hfresh).
  destruct (update_page (vp_pt (m_virt s)) w (sm_page_entry p e) e) as (st & E2 & Wst & P1); try done; [apply W |].
  exists p, ps, st. rewrite shift_page by lia. split; [done |]. split; [done |]. intros s1.
  destruct (sm_page_entry_maps p e) as (Ep & Epr & Ewr & Exd & Eav & Est).
  rewrite wrap_id in Ep by (unfold is_u; lia).
  assert (same_alloc (vp_pt (m_virt s)) st) as S1.
  { intros v Hv. unfold avail, started, taken_page. rewrite P1 by done. case_decide as D; [| done].
    subst v. rewrite Ee. unfold bf_flag. unfold mapped_entry in *. by rewrite Eav, Est. }
  split; [split; [split; [done |] | done]; cbn [m_virt vp_pt s1]; rewrite <- S1; apply W |].
  split; [done |]. split; [done |]. split.
  - exists e, (mapped_entry sm_page_entry p e). unfold s1. cbn [m_virt vp_pt m_phys].
    rewrite P1, decide_True by done. do 3 (split; [done |]). split; [by rewrite Pr |]. intros _.
    do 2 (split; [done |]). cbv zeta. rewrite Ep. revert Hfresh. destruct (Z.eqb_spec p 0) as [-> |]; [| done].
    intros [-> Hall] q _. apply Hall.
  - intros v Hv N. unfold s1. cbn [m_virt vp_pt]. by rewrite P1, decide_False.
Qed.

Lemma sm_map_loop_spec fuel s w hi vend :
  mem_wf s → 0 ≤ w ≤ hi → hi ≤ vpages → (∀ x, x < hi ↔ 4096 * x < vend) →
  (∀ v, w ≤ v < hi → is_Some (pages s v)) → (Z.to_nat (hi - w) < fuel)%nat →
  ∃ s', sm_map_loop fuel (4096 * w) vend s = Ret s' ∧ mem_wf s' ∧
    same_alloc (vp_pt (m_virt s)) (vp_pt (m_virt s')) ∧ phys_grows s s' ∧
    (∀ v, w ≤ v < hi → on_demand s s' v) ∧
    (∀ v, 0 ≤ v < vpages → ¬ w ≤ v < hi → pages s' v = pages s v).
Proof.
  unfold vpages. intros W Hw Hhi Hend. revert s w W Hw.
  induction fuel as [| fuel IH]; intros s w W Hw Hex Hf; [lia |].
  cbn [sm_map_loop]. destruct (Z.ltb_spec (4096 * w) vend) as [Hlt | Hge].
  2:{ exists s. do 3 (split; [done |]). split; [by intros q |]. split; [| done].
      intros v Hv. exfalso. pose proof (proj1 (Hend w) ltac:(lia)). lia. }
  apply Hend in Hlt. destruct (Hex w ltac:(lia)) as [e Ee].
  rewrite get_pageentr_spec by apply W. change (entry_of (vp_pt (m_virt s)) (4096 * w)) with (pages s w).
  rewrite Ee. cbn [mbind outcome_bind deref_pe]. rewrite (wrap_id 64) by (unfold is_u; lia).
  replace (4096 * w + 4096) with (4096 * (w + 1)) by lia.
  destruct (bf_flag pe_present e) eqn:Pr; cbn [negb].
  - destruct (IH s (w + 1) W) as (s' & E & W' & S & Mo & On & Out); [lia | | lia |].
    { intros v Hv. apply Hex. lia. }
    exists s'. do 4 (split; [done |]). split.
    + intros v Hv. destruct (decide (v = w)) as [-> |]; [| apply On; lia].
      exists e, e. rewrite Out, Pr by (unfold vpages; lia). by split_and!.
    + intros v Hv N. destruct (decide (v = w)) as [-> |]; [lia |]. apply Out; [done | lia].
  - destruct (sm_map_page s w e W ltac:(unfold vpages; lia) Ee Pr) as (p & ps & st & -> & E2 & W1 & S1 & Mo1 & On1 & Out1).
    cbn [mbind outcome_bind]. rewrite E2. cbn [mbind outcome_bind].
    destruct (IH _ (w + 1) W1) as (s' & E & W' & S & Mo & On & Out); [lia | | lia |].
    { intros v Hv. rewrite Out1 by (unfold vpages; lia). apply Hex. lia. }
    exists s'. split; [done |]. split; [done |]. split; [by transitivity st |].
    split; [intros q Hq Hu; by apply Mo, Mo1 |]. split.
    + intros v Hv. destruct (decide (v = w)) as [-> |].
      * eapply on_demand_after; [exact Mo | | exact On1]. apply Out; unfold vpages; lia.
      * eapply on_demand_before; [exact Mo1 | | apply On; lia]. apply Out1; unfold vpages; lia.
    + intros v Hv N. rewrite Out by (done || lia). apply Out1; [done | lia].
Qed.

End MapLoop.

(** ** The contract of an allocator *)

(** A machine: the addresses that are taken for somebody's use, and how it
    may change under an allocator's work without taking from others. *)
Class World (W : Type) := {
  w_held : W → Z → Prop;
  w_le : W → W → Prop;
  w_le_preorder :: PreOrder w_le;
  w_le_held : ∀ w w' a, w_le w w' → w_held w a → w_held w' a;
}.

(** An allocator behaves like a set of blocks [(ptr, n)] that never overlap:
    an allocation adds one block, [sm_free] of a block removes it, and
    [sm_sizeof] tells its size.  [ma_wf] is its invariant. *)
Class MemoryAllocatorLaws (A W : Type) `{MemoryAllocator A W} `{World W} := {
  ma_wf : A → W → Prop;
  ma_block : A → Z → Z → Prop;
  ma_frame : ∀ a w w', ma_wf a w → w_le w w' → ma_wf a w';
  ma_owned_held : ∀ a w q, ma_wf a w → sm_owned q a = true → w_held w q;
  ma_block_owned : ∀ a w p n q, ma_wf a w → ma_block a p n → p ≤ q < p + n → sm_owned q a = true;
  ma_block_pos : ∀ a w p n, ma_wf a w → ma_block a p n → 0 < n;
  ma_disjoint : ∀ a w p n q m, ma_wf a w → ma_block a p n → ma_block a q m →
    (p = q ∧ n = m) ∨ p + n ≤ q ∨ q + m ≤ p;
  ma_allocate : ∀ a w size, ma_wf a w → 0 ≤ size → size + 16 ≤ 2 ^ 32 →
    ∃ r a' w', sm_allocate size a w = Ret (r, a', w') ∧ ma_wf a' w' ∧ w_le w w' ∧
      (∀ q, sm_owned q a' = sm_owned q a) ∧ (r = None → w' = w) ∧
      match r with
      | Some ptr => ∃ n, size ≤ n ∧ (∀ m, ¬ ma_block a ptr m) ∧
          ∀ q m, ma_block a' q m ↔ (q = ptr ∧ m = n) ∨ ma_block a q m
      | None => ∀ q m, ma_block a' q m ↔ ma_block a q m
      end;
  ma_free : ∀ a w ptr n, ma_wf a w → ma_block a ptr n →
    sm_sizeof ptr a = Ret n ∧
    ∃ a', sm_free ptr a = Ret (n, a') ∧ ma_wf a' w ∧ (∀ q, sm_owned q a' = sm_owned q a) ∧
      ∀ q m, ma_block a' q m ↔ ma_block a q m ∧ q ≠ ptr;
}.

(** ** Tables with their memory *)

Lemma land_page x : is_u 64 x → Z.land x 0xFFFFFFFFFFFFF000 = 4096 * (x / 4096).
Proof.
  intros Hx. change 0xFFFFFFFFFFFFF000 with (Z.shiftl (Z.ones 52) 12).
  rewrite Z.mul_comm. change 4096 with (2 ^ 12). rewrite <- Z.shiftl_mul_pow2, <- Z.shiftr_div_pow2 by lia.
  apply Z.bits_inj'. intros i Hi. rewrite Z.land_spec, !Z.shiftl_spec by lia.
  destruct (Z.ltb_spec i 12).
  - by rewrite !(Z.testbit_neg_r _ (i - 12)), andb_false_r by lia.
  - rewrite Z.shiftr_spec by lia. replace (i - 12 + 12) with i by lia. destruct (Z.ltb_spec i 64).
    + rewrite Z.ones_spec_low by lia. by rewrite andb_true_r.
    + by rewrite (is_u_bits 64 x) by (done || lia).
Qed.

Section Basic.
Context {M : Type} `{PhyspageMapManaged M} `{!PhyspageMapLaws M}.
Implicit Types (s : mem_state (M := M)) (b : BasicMemoryAllocator).

Definition held s (a : Z) : Prop :=
  0 ≤ a / 4096 < vpages ∧ taken_page (vp_pt (m_virt s)) (a / 4096) = true.

Definition mem_le s s' : Prop :=
  (mem_wf s → mem_wf s') ∧ ∀ v, 0 ≤ v < vpages →
    taken_page (vp_pt (m_virt s)) v = true → taken_page (vp_pt (m_virt s')) v = true.

#[global] Instance mem_le_preorder : PreOrder mem_le.
Proof. split; [by intros s; split |]. intros s1 s2 s3 [A1 B1] [A2 B2]. split; auto. Qed.

#[global] Instance mem_world : World (mem_state (M := M)).
Proof.
  refine {| w_held := held; w_le := mem_le |}. intros s s' a [_ L] [Ha T]. split; [done | by apply L].
Defined.

Lemma same_alloc_le s s' :
  mem_wf s' → same_alloc (vp_pt (m_virt s)) (vp_pt (m_virt s')) → mem_le s s'.
Proof. intros W S. split; [done |]. intros v Hv T. by destruct (S v Hv) as (_ & _ & <-). Qed.

(** The table lies at page [u] and its memory behind it, all of it taken. *)
Definition region s (t : SmallUnitMemoryAllocTable) (u : Z) : Prop :=
  tbl_this t = 4096 * u ∧ 0 < u ∧ u + 65 ≤ vpages ∧
  ∀ v, u ≤ v < u + 65 → taken_page (vp_pt (m_virt s)) v = true.

Lemma region_placed s t u : region s t u → tbl_placed t.
Proof. intros (E & Hu & Hhi & _). unfold tbl_placed, vpages, units in *. lia. Qed.

(** The pages of a block. *)
Definition block_page (ptr size v : Z) : Prop := ptr / 4096 ≤ v ∧ 4096 * v < ptr + size.

Lemma Impl_sm_allocate_spec t s n u :
  mem_wf s → tbl_ok t → region s t u → 1 ≤ n → 16 * n < 2 ^ 32 →
  ∃ r t' s', Impl_sm_allocate (16 * n) t s = Ret (r, t', s') ∧ mem_wf s' ∧
    same_alloc (vp_pt (m_virt s)) (vp_pt (m_virt s')) ∧ phys_grows s s' ∧
    match r with
    | Some ptr => ∃ p, ptr = tbl_this t + 4096 + 16 * p ∧ 0 ≤ p ∧ p + n ≤ units ∧
        free_cells (unit_free t) p n ∧ (∀ p', 0 ≤ p' < p → ¬ free_cells (unit_free t) p' n) ∧
        units_set t t' p n (block_unit p) ∧
        (∀ v, block_page ptr (16 * n) v → on_demand s s' v) ∧
        (∀ v, 0 ≤ v < vpages → ¬ block_page ptr (16 * n) v →
          page (vp_pt (m_virt s')) v = page (vp_pt (m_virt s)) v)
    | None => t' = t ∧ s' = s ∧ ∀ p, 0 ≤ p → p + n ≤ units → ¬ free_cells (unit_free t) p n
    end.
Proof.
  intros W Ok Rg Hn Ho. pose proof (region_placed s t u Rg) as Pl. destruct Rg as (Eu & Hu & Hhi & T).
  destruct (tbl_sm_allocate_spec t (16 * n) (proj1 Ok) ltac:(lia)) as (r & t' & E & R).
  assert (units_of (16 * n) = n) as En.
  { unfold units_of. replace (16 * n + 15) with (15 + n * 16) by lia. rewrite Z.div_add by lia.
    change (15 / 16) with 0. lia. }
  rewrite En in R. unfold Impl_sm_allocate. rewrite E. cbn [mbind outcome_bind]. destruct r as [ptr |].
  2:{ destruct R as [-> R]. exists None, t, s. do 3 (split; [done |]). split; [by intros q |]. done. }
  destruct R as (p & -> & Hp & Hpn & F & First & S). destruct (pointer_position t p Pl ltac:(lia)) as [-> _].
  unfold units, vpages in *. set (ptr := tbl_this t + 4096 + 16 * p).
  assert (0 ≤ ptr ∧ ptr + 16 * n ≤ 4096 * (u + 65)) as [H0 H1] by (unfold ptr; lia).
  rewrite (wrap_id 64) by (unfold is_u; lia). rewrite land_page by (unfold is_u; lia).
  set (w := ptr / 4096). pose proof (Z.div_mod ptr 4096 ltac:(done)) as Dw. fold w in Dw.
  pose proof (Z.mod_pos_bound ptr 4096 ltac:(done)) as Mw.
  set (vend := ptr + 16 * n) in *. set (hi := (vend + 4095) / 4096).
  pose proof (Z.div_mod (vend + 4095) 4096 ltac:(done)) as Dh. fold hi in Dh.
  pose proof (Z.mod_pos_bound (vend + 4095) 4096 ltac:(done)) as Mh.
  assert (u + 1 ≤ w) by (unfold ptr in *; lia). assert (hi ≤ u + 65) by lia.
  pose proof (Z.div_mod (16 * n) 4096 ltac:(done)). pose proof (Z.mod_pos_bound (16 * n) 4096 ltac:(done)).
  destruct (sm_map_loop_spec (sm_map_rounds (16 * n)) s w hi vend W) as (s' & -> & W' & Sa & Mo & On & Out);
    [lia | unfold vpages; lia | lia | | unfold sm_map_rounds; lia |].
  { intros v Hv. apply taken_some, T. lia. }
  cbn [mbind outcome_bind]. exists (Some ptr), t', s'. do 4 (split; [done |]). exists p.
  do 6 (split; [done |]). unfold block_page. fold w vend. split; intros v Hv.
  - apply On. lia.
  - intros N. apply Out; [done | lia].
Qed.

(** ** The basic allocator keeps the contract *)

Definition basic_wf b s : Prop :=
  mem_wf s ∧ tbl_ok (ba_impl b) ∧ (∃ u, region s (ba_impl b) u) ∧ consumed b = 16 * used_units (ba_impl b).

Definition basic_block b (ptr n : Z) : Prop :=
  ∃ p m, ptr = tbl_this (ba_impl b) + 4096 + 16 * p ∧ n = 16 * m ∧ block_at (ba_impl b) p m.

Lemma basic_owned b s q :
  basic_wf b s → sm_owned q b = true ↔ tbl_this (ba_impl b) + 4096 ≤ q < tbl_this (ba_impl b) + 4096 + 16 * units.
Proof.
  intros (_ & _ & (u & Rg) & _). destruct (region_placed _ _ _ Rg) as [H0 H1].
  simpl. unfold tbl_sm_owned, end_ptr, begin_ptr, small_alloc_unit, units in *.
  rewrite !(wrap_id 64 (tbl_this (ba_impl b) + 4096)) by (unfold is_u; lia).
  rewrite wrap_id by (unfold is_u; lia). lia.
Qed.

Lemma basic_frame b s s' : basic_wf b s → mem_le s s' → basic_wf b s'.
Proof.
  intros (W & Ok & (u & E & Hu & Hhi & T) & C) [L1 L2]. split; [auto |]. split; [done |]. split; [| done].
  exists u. split_and!; try done. intros v Hv. apply L2; [lia | by apply T].
Qed.

(** What an allocation does, seen from the table. *)
Lemma Basic_sm_allocate_spec b s size :
  basic_wf b s → 0 ≤ size → size + 16 ≤ 2 ^ 32 →
  let n := units_of size in
  ∃ r b' s', Basic_sm_allocate size b s = Ret (r, b', s') ∧ basic_wf b' s' ∧ mem_le s s' ∧
    tbl_this (ba_impl b') = tbl_this (ba_impl b) ∧
    match r with
    | Some ptr => ∃ p, ptr = tbl_this (ba_impl b) + 4096 + 16 * p ∧ 0 ≤ p ∧ p + n ≤ units ∧
        free_cells (unit_free (ba_impl b)) p n ∧ (∀ p', 0 ≤ p' < p → ¬ free_cells (unit_free (ba_impl b)) p' n) ∧
        units_set (ba_impl b) (ba_impl b') p n (block_unit p) ∧
        (∀ v, block_page ptr (16 * n) v → on_demand s s' v)
    | None => b' = b ∧ s' = s ∧ ∀ p, 0 ≤ p → p + n ≤ units → ¬ free_cells (unit_free (ba_impl b)) p n
    end.
Proof.
  intros Wb Hs Ho n. pose proof Wb as (W & Ok & (u & Rg) & C). unfold Basic_sm_allocate.
  rewrite sm_round_spec by done. fold n. assert (1 ≤ n) as Hn by (unfold n, units_of; lia).
  pose proof (used_units_range (ba_impl b)) as Hu.
  pose proof (Z.div_mod (size + 15) 16 ltac:(done)). pose proof (Z.mod_pos_bound (size + 15) 16 ltac:(done)).
  assert (16 * n < 2 ^ 32) as Hn2 by (unfold n, units_of; lia).
  change max_allocation_size with 262144. destruct (Z.ltb_spec 262144 (u32 (consumed b + 16 * n))) as [Hfull | Hroom].
  { exists None, b, s. do 4 (split; [done |]). do 2 (split; [done |]). intros p Hp Hpn F.
    pose proof (used_units_room (ba_impl b) p n Hp ltac:(lia) Hpn F) as R.
    rewrite wrap_id in Hfull by (unfold is_u, units in *; lia). unfold units in *. lia. }
  destruct (Impl_sm_allocate_spec (ba_impl b) s n u W Ok Rg Hn Hn2) as (r & t' & s' & -> & W' & Sa & Mo & R).
  cbn [mbind outcome_bind]. pose proof (same_alloc_le s s' W' Sa) as Le. destruct r as [ptr |].
  2:{ destruct R as (-> & -> & R). exists None, (BasicAllocator (ba_impl b) (consumed b)), s.
      replace (BasicAllocator (ba_impl b) (consumed b)) with b by (by destruct b). done. }
  destruct R as (p & -> & Hp & Hpn & F & First & S & On & _).
  destruct (units_set_block (ba_impl b) t' p n Ok Hp Hn Hpn F S) as [Ok' B].
  pose proof (used_units_block (ba_impl b) t' p n Ok Hp Hn Hpn F S) as Cu.
  pose proof (used_units_room (ba_impl b) p n Hp ltac:(lia) Hpn F). pose proof S as (_ & Et & _).
  eexists _, _, _. split; [reflexivity |]. unfold Consume. cbn [ba_impl consumed]. split.
  - split; [exact W' |]. split; [exact Ok' |]. split.
    + destruct Rg as (E & Hu0 & Hhi & T). exists u. unfold region. cbn [ba_impl]. rewrite Et.
      split; [exact E |]. split; [exact Hu0 |]. split; [exact Hhi |]. intros v Hv.
      destruct (Sa v ltac:(unfold vpages in *; lia)) as (_ & _ & <-). by apply T.
    + cbn [ba_impl consumed]. rewrite Cu, C. rewrite wrap_id by (unfold is_u, units in *; lia). lia.
  - split; [exact Le |]. split; [exact Et |]. exists p. by repeat (split; [done |]).
Qed.

Lemma basic_owned_eq b b' s s' q :
  basic_wf b s → basic_wf b' s' → tbl_this (ba_impl b') = tbl_this (ba_impl b) → sm_owned q b' = sm_owned q b.
Proof.
  intros Wb Wb' Et. pose proof (basic_owned b s q Wb) as O. pose proof (basic_owned b' s' q Wb') as O'.
  rewrite Et, <- O in O'. destruct (sm_owned q b), (sm_owned q b'); try done; destruct O' as [O1 O2]; [by rewrite O2 | by rewrite O1].
Qed.

Lemma basic_allocate b s size :
  basic_wf b s → 0 ≤ size → size + 16 ≤ 2 ^ 32 →
  ∃ r b' s', sm_allocate size b s = Ret (r, b', s') ∧ basic_wf b' s' ∧ mem_le s s' ∧
    (∀ q, sm_owned q b' = sm_owned q b) ∧ (r = None → s' = s) ∧
    match r with
    | Some ptr => ∃ n, size ≤ n ∧ (∀ m, ¬ basic_block b ptr m) ∧
        ∀ q m, basic_block b' q m ↔ (q = ptr ∧ m = n) ∨ basic_block b q m
    | None => ∀ q m, basic_block b' q m ↔ basic_block b q m
    end.
Proof.
  intros Wb Hs Ho. destruct (Basic_sm_allocate_spec b s size Wb Hs Ho) as (r & b' & s' & E & Wb' & Le & Et & R).
  exists r, b', s'. split; [exact E |]. split; [exact Wb' |]. split; [exact Le |].
  split; [intros q; by apply (basic_owned_eq b b' s s') |].
  destruct r as [ptr |]; [split; [done |] | by destruct R as (-> & -> & _)].
  destruct R as (p & -> & Hp & Hpn & F & _ & S & _). destruct Wb as (_ & Ok & _).
  assert (1 ≤ units_of size) as Hn by (unfold units_of; lia).
  pose proof (Z.div_mod (size + 15) 16 ltac:(done)). pose proof (Z.mod_pos_bound (size + 15) 16 ltac:(done)).
  exists (16 * units_of size). split; [unfold units_of; lia |]. split.
  - intros m (x & k & Ex & _ & B). assert (x = p) as -> by lia.
    pose proof (proj1 (unit_free_0 _ p Ok ltac:(lia)) (F p ltac:(lia))) as F0.
    destruct B as (_ & _ & _ & B3 & _). rewrite F0 in B3. done.
  - intros q m. unfold basic_block. rewrite Et. split.
    + intros (x & k & -> & -> & B). rewrite (block_alloc_iff _ _ p _ x k Ok Hp Hn Hpn F S) in B.
      destruct B as [[-> ->] | B]; [by left | right; by exists x, k].
    + intros [[-> ->] | (x & k & -> & -> & B)].
      * exists p, (units_of size). do 2 (split; [done |]). apply (block_alloc_iff _ _ p _ _ _ Ok Hp Hn Hpn F S). by left.
      * exists x, k. do 2 (split; [done |]). apply (block_alloc_iff _ _ p _ _ _ Ok Hp Hn Hpn F S). by right.
Qed.

Lemma basic_free b s ptr n :
  basic_wf b s → basic_block b ptr n →
  sm_sizeof ptr b = Ret n ∧
  ∃ b', sm_free ptr b = Ret (n, b') ∧ basic_wf b' s ∧ (∀ q, sm_owned q b' = sm_owned q b) ∧
    ∀ q m, basic_block b' q m ↔ basic_block b q m ∧ q ≠ ptr.
Proof.
  intros Wb (p & m & -> & -> & B). pose proof Wb as (W & Ok & (u & Rg) & C).
  pose proof (region_placed _ _ _ Rg) as Pl. pose proof B as (Hp & Hm & Hpm & _).
  destruct (pointer_position _ p Pl ltac:(lia)) as [<- _].
  destruct (tbl_sm_free_spec _ p m Ok Pl B) as (Es & t' & Ef & S & Ok'). split; [exact Es |].
  simpl. unfold Basic_sm_free. rewrite Ef. cbn [mbind outcome_bind]. eexists. split; [reflexivity |].
  pose proof (used_units_free _ t' p m B S) as Cu. pose proof (used_units_range t'). pose proof (used_units_range (ba_impl b)).
  pose proof S as (_ & Et & _). set (b' := Release _ _).
  assert (basic_wf b' s) as Wb'.
  { split; [exact W |]. split; [exact Ok' |]. split.
    - exists u. unfold region. cbn [ba_impl b' Release]. rewrite Et. exact Rg.
    - cbn [ba_impl consumed b' Release]. rewrite Cu, C. rewrite wrap_id by (unfold is_u, units in *; lia). lia. }
  split; [exact Wb' |]. split; [intros q; apply (basic_owned_eq b b' s s q Wb Wb' Et) |].
  destruct (pointer_position _ p Pl ltac:(lia)) as [-> _].
  intros q k. unfold basic_block. cbn [ba_impl b' Release]. rewrite Et. split.
  - intros (x & l & -> & -> & Bx). rewrite (block_free_iff _ _ p m x l Ok B S) in Bx. destruct Bx as [Bx Hne].
    split; [by exists x, l | lia].
  - intros [(x & l & -> & -> & Bx) Hne]. exists x, l. do 2 (split; [done |]).
    apply (block_free_iff _ _ p m x l Ok B S). split; [done | intros ->; lia].
Qed.

#[global] Instance basic_allocator_laws : MemoryAllocatorLaws BasicMemoryAllocator (mem_state (M := M)).
Proof.
  refine {| ma_wf := basic_wf; ma_block := basic_block;
            ma_frame := basic_frame; ma_allocate := basic_allocate; ma_free := basic_free |}.
  - intros b s q Wb Hq. rewrite (basic_owned b s q Wb) in Hq. destruct Wb as (_ & _ & (u & E & Hu & Hhi & T) & _).
    rewrite E in Hq. pose proof (Z.div_mod q 4096 ltac:(done)). pose proof (Z.mod_pos_bound q 4096 ltac:(done)).
    unfold units in *. split; [lia |]. apply T. lia.
  - intros b s p n q Wb (x & m & -> & -> & (H0 & H1 & H2 & _)) Hq. rewrite (basic_owned b s q Wb). lia.
  - intros b s p n Wb (x & m & -> & -> & (H0 & H1 & _)). lia.
  - intros b s p n q m Wb (x & k & -> & -> & B1) (y & l & -> & -> & B2).
    destruct (blocks_disjoint _ x k y l B1 B2) as [[-> ->] | D]; [by left |]. right. lia.
Defined.

End Basic.

(** ** Chains keep the contract *)

Section ChainLaws.
Context {A W : Type} `{MemoryAllocatorLaws A W}.

(** Every allocator of the chain is well-formed, and none owns an address of
    another one. *)
Fixpoint chain_wf (c : chain A) (w : W) : Prop :=
  match c with
  | Null => False
  | Single a => ma_wf a w
  | ChainedAllocator a next =>
      ma_wf a w ∧ (next = Null ∨ chain_wf next w) ∧
      ∀ q, sm_owned q a = true → Chained_sm_owned q next = false
  end.

Fixpoint chain_block (c : chain A) (ptr n : Z) : Prop :=
  match c with
  | Null => False
  | Single a => ma_block a ptr n
  | ChainedAllocator a next => ma_block a ptr n ∨ chain_block next ptr n
  end.

Lemma chain_frame c w w' : chain_wf c w → w_le w w' → chain_wf c w'.
Proof.
  induction c as [| a | a next IH]; simpl; [done | |].
  - intros Wa L. by eapply ma_frame.
  - intros (Wa & [-> | Wn] & D) L; (split; [by eapply ma_frame |]); (split; [| done]); [by left | right; auto].
Qed.

Lemma chain_block_owned c w p n q :
  chain_wf c w → chain_block c p n → p ≤ q < p + n → Chained_sm_owned q c = true.
Proof.
  induction c as [| a | a next IH]; simpl; [done | |].
  - intros Wa B Hq. by eapply ma_block_owned.
  - intros (Wa & Wn & D) [B | B] Hq.
    + by rewrite (ma_block_owned a w p n q Wa B Hq).
    + destruct Wn as [-> | Wn]; [done |]. rewrite (IH Wn B Hq). by destruct (sm_owned q a).
Qed.

Lemma chain_owned_held c w q : chain_wf c w → Chained_sm_owned q c = true → w_held w q.
Proof.
  induction c as [| a | a next IH]; simpl; [done | |].
  - intros Wa O. by eapply ma_owned_held.
  - intros (Wa & Wn & D) O. destruct (sm_owned q a) eqn:Oa; [by eapply ma_owned_held |].
    destruct Wn as [-> | Wn]; [done | auto].
Qed.

Lemma chain_block_pos c w p n : chain_wf c w → chain_block c p n → 0 < n.
Proof.
  induction c as [| a | a next IH]; simpl; [done | |].
  - intros Wa B. by eapply ma_block_pos.
  - intros (Wa & Wn & D) [B | B]; [by eapply ma_block_pos |]. destruct Wn as [-> | Wn]; [done | auto].
Qed.

(** A block of the first allocator and one of the others. *)
Lemma chain_apart a next w p n q m :
  chain_wf (ChainedAllocator a next) w → ma_block a p n → chain_block next q m → p + n ≤ q ∨ q + m ≤ p.
Proof.
  intros (Wa & Wn & D) B1 B2. destruct Wn as [-> | Wn]; [done |].
  pose proof (ma_block_pos a w p n Wa B1). pose proof (chain_block_pos next w q m Wn B2).
  destruct (decide (p + n ≤ q ∨ q + m ≤ p)) as [| N]; [done |]. exfalso.
  set (x := Z.max p q). assert (p ≤ x < p + n ∧ q ≤ x < q + m) as [Hx1 Hx2] by lia.
  pose proof (D x (ma_block_owned a w p n x Wa B1 Hx1)) as D'.
  rewrite (chain_block_owned next w q m x Wn B2 Hx2) in D'. done.
Qed.

Lemma chain_disjoint c w p n q m :
  chain_wf c w → chain_block c p n → chain_block c q m → (p = q ∧ n = m) ∨ p + n ≤ q ∨ q + m ≤ p.
Proof.
  induction c as [| a | a next IH]; [done | |].
  - simpl. intros Wa B1 B2. by eapply ma_disjoint.
  - intros Wc B1 B2. pose proof Wc as (Wa & Wn & D). simpl in B1, B2. destruct B1 as [B1 | B1], B2 as [B2 | B2].
    + by eapply ma_disjoint.
    + right. by eapply chain_apart.
    + right. destruct (chain_apart a next w q m p n Wc B2 B1); [by right | by left].
    + destruct Wn as [-> | Wn]; [done | auto].
Qed.

(** What an allocation does to the set of blocks. *)
Definition adds_block (old new : Z → Z → Prop) (size : Z) (r : option Z) : Prop :=
  match r with
  | Some ptr => ∃ n, size ≤ n ∧ (∀ m, ¬ old ptr m) ∧ ∀ q m, new q m ↔ (q = ptr ∧ m = n) ∨ old q m
  | None => ∀ q m, new q m ↔ old q m
  end.

(** An addition to one part of a chain is one to the chain. *)
Lemma adds_block_or old new other size r :
  adds_block old new size r →
  match r with Some ptr => ∀ m, ¬ other ptr m | None => True end →
  adds_block (fun q m => old q m ∨ other q m) (fun q m => new q m ∨ other q m) size r.
Proof.
  destruct r as [ptr |]; simpl; [| intros E _ q m; by rewrite E].
  intros (n & Hn & Hf & E) Ho. exists n. split; [done |].
  split; [intros m [B | B]; [by apply (Hf m) | by apply (Ho m)] |]. intros q m. rewrite E. tauto.
Qed.

Lemma adds_block_fresh a next w w' a' size ptr :
  chain_wf (ChainedAllocator a next) w → ma_wf a' w' → (∀ q, sm_owned q a' = sm_owned q a) →
  adds_block (ma_block a) (ma_block a') size (Some ptr) → ∀ m, ¬ chain_block next ptr m.
Proof.
  intros (Wa & Wn & D) Wa' Eo (n & Hn & _ & E) m B. destruct Wn as [-> | Wn]; [done |].
  assert (ma_block a' ptr n) as Bp by (apply E; by left). pose proof (ma_block_pos a' w' ptr n Wa' Bp).
  pose proof (ma_block_owned a' w' ptr n ptr Wa' Bp ltac:(lia)) as O. rewrite Eo in O.
  pose proof (chain_block_pos next w ptr m Wn B).
  pose proof (chain_block_owned next w ptr m ptr Wn B ltac:(lia)) as O'. by rewrite (D ptr O) in O'.
Qed.

Lemma chain_allocate c w size :
  chain_wf c w → 0 ≤ size → size + 16 ≤ 2 ^ 32 →
  ∃ r c' w', Chained_sm_allocate size c w = Ret (r, c', w') ∧ chain_wf c' w' ∧ w_le w w' ∧
    (∀ q, Chained_sm_owned q c' = Chained_sm_owned q c) ∧ (r = None → w' = w) ∧
    adds_block (chain_block c) (chain_block c') size r.
Proof.
  intros Wc Hs Ho. revert w Wc. induction c as [| a | a next IH]; intros w Wc; [done | |].
  - destruct (ma_allocate a w size Wc Hs Ho) as (r & a' & w' & E & Wa' & L & Eo & Same & R).
    exists r, (Single a'), w'. cbn [Chained_sm_allocate]. by rewrite E.
  - pose proof Wc as (Wa & Wn & D).
    destruct (ma_allocate a w size Wa Hs Ho) as (r & a' & w' & E & Wa' & L & Eo & Same & R).
    change (adds_block (ma_block a) (ma_block a') size r) in R.
    assert (chain_wf (ChainedAllocator a' next) w') as Wc'.
    { split; [done |]. split; [destruct Wn as [-> | Wn]; [by left | right; by eapply chain_frame] |].
      intros q. rewrite Eo. apply D. }
    assert (adds_block (chain_block (ChainedAllocator a next)) (chain_block (ChainedAllocator a' next)) size r) as Rc.
    { apply adds_block_or; [done |]. destruct r as [ptr |]; [| done]. by eapply (adds_block_fresh a next w w' a'). }
    assert (∀ q, Chained_sm_owned q (ChainedAllocator a' next) = Chained_sm_owned q (ChainedAllocator a next)) as Eoc
      by (intros q; simpl; by rewrite Eo).
    cbn [Chained_sm_allocate]. rewrite E. cbn [mbind outcome_bind].
    destruct r as [ptr |]; [by eexists (Some ptr), _, w' |].
    destruct Wn as [-> | Wn]; [by eexists None, _, w' |].
    pose proof (chain_frame next w w' Wn L) as Wn'.
    destruct (IH w' Wn') as (r & next' & w'' & E' & Wn'' & L' & Eo' & Same' & R').
    exists r, (ChainedAllocator a' next'), w''. split; [destruct next; [done | by rewrite E' | by rewrite E'] |].
    split; [| split; [by transitivity w' | split]].
    + split; [by eapply ma_frame |]. split; [by right |]. intros q Oq. rewrite Eo'. apply D. by rewrite <- Eo.
    + intros q. simpl. by rewrite Eo, Eo'.
    + split; [intros ->; by rewrite Same', Same |].
      assert (∀ q m, ma_block a' q m ↔ ma_block a q m) as R0 by exact R.
      destruct r as [ptr |]; simpl in *; [| intros q m; by rewrite R0, R'].
      destruct R' as (n & Hn & Hf & E2). exists n. split; [done |]. split.
      * intros m [B | B]; [| by apply (Hf m)].
        assert (chain_block next' ptr n) as Bn by (apply E2; by left).
        pose proof (chain_block_pos next' w'' ptr n Wn'' Bn). pose proof (ma_block_pos a w ptr m Wa B).
        pose proof (chain_block_owned next' w'' ptr n ptr Wn'' Bn ltac:(lia)) as O.
        rewrite Eo', (D ptr (ma_block_owned a w ptr m ptr Wa B ltac:(lia))) in O. done.
      * intros q m. rewrite R0, E2. tauto.
Qed.

Lemma chain_free c w ptr n :
  chain_wf c w → chain_block c ptr n →
  Chained_sm_sizeof ptr c = Ret n ∧
  ∃ c', Chained_sm_free ptr c = Ret (n, c') ∧ chain_wf c' w ∧
    (∀ q, Chained_sm_owned q c' = Chained_sm_owned q c) ∧
    ∀ q m, chain_block c' q m ↔ chain_block c q m ∧ q ≠ ptr.
Proof.
  induction c as [| a | a next IH]; [done | |].
  - intros Wa B. destruct (ma_free a w ptr n Wa B) as (Es & a' & Ef & Wa' & Eo & R). split; [done |].
    exists (Single a'). cbn [Chained_sm_free]. by rewrite Ef.
  - intros Wc B. pose proof Wc as (Wa & Wn & D). cbn [chain_block] in B. cbn [Chained_sm_sizeof Chained_sm_free].
    destruct B as [B | B].
    + pose proof (ma_block_pos a w ptr n Wa B). rewrite (ma_block_owned a w ptr n ptr Wa B) by lia.
      destruct (ma_free a w ptr n Wa B) as (Es & a' & Ef & Wa' & Eo & R). split; [done |].
      rewrite Ef. cbn [mbind outcome_bind]. eexists. split; [done |]. split.
      { split; [done |]. split; [done |]. intros q. rewrite Eo. apply D. }
      split; [intros q; simpl; by rewrite Eo |]. intros q m. simpl. rewrite R.
      assert (chain_block next q m → q ≠ ptr) as N; [| tauto].
      intros Bn ->. destruct (chain_apart a next w ptr n ptr m Wc B Bn); [lia |].
      destruct Wn as [-> | Wn]; [done |]. pose proof (chain_block_pos next w ptr m Wn Bn). lia.
    + destruct Wn as [-> | Wn]; [done |]. pose proof (chain_block_pos next w ptr n Wn B) as Hn.
      pose proof (chain_block_owned next w ptr n ptr Wn B ltac:(lia)) as On.
      destruct (sm_owned ptr a) eqn:Oa; [by rewrite (D ptr Oa) in On |].
      destruct (IH Wn B) as (Es & next' & Ef & Wn' & Eo & R). split; [done |].
      exists (ChainedAllocator a next'). split; [destruct next; [done | by rewrite Ef | by rewrite Ef] |].
      split; [split; [done |]; split; [by right |]; intros q; rewrite Eo; apply D |].
      split; [intros q; simpl; by rewrite Eo |]. intros q m. simpl. rewrite R.
      assert (ma_block a q m → q ≠ ptr) as N; [| tauto].
      intros Ba ->. pose proof (ma_block_pos a w ptr m Wa Ba).
      by rewrite (ma_block_owned a w ptr m ptr Wa Ba ltac:(lia)) in Oa.
Qed.

#[global] Instance chained_allocator_laws : MemoryAllocatorLaws (chain A) W := {|
  ma_wf := chain_wf; ma_block := chain_block; ma_frame := chain_frame; ma_owned_held := chain_owned_held;
  ma_block_owned := chain_block_owned; ma_block_pos := chain_block_pos; ma_disjoint := chain_disjoint;
  ma_allocate := chain_allocate; ma_free := chain_free |}.

End ChainLaws.
