(* ===== verification/Malloc.v ===== *)
(** * The kernel's malloc

    [CreateBasicMemoryAllocator] of [kernel/kmemory/mallocator.cpp],
    [CreateChainedAllocator] and the root of the chain of
    [kernel/kmemory/ChainedAllocator*.cpp], and [malloc], [calloc] and [free]
    of [kernel/kmemory/malloc.cpp] on x86-64. *)

From S2P Require Import Prelude PhysPageMap PPageAlloc BitField PageEntry PageTree PageWalk VPageAlloc PageAlloc RunSearch SmallAlloc BasicAlloc.

Section Malloc.
Context {M : Type} `{PhyspageMapManaged M}.

Abbreviation machine := (mem_state (M := M)).

(** The variable [vpagealloc] leaves uninitialised and the rounds of
    [vpagefree]; the sizes of the C++ objects the allocators place in their
    own memory. *)
Context (uninit : Z → Z) (vfuel : nat) (sizeof_Alloc sizeof_Chained : Z).

(** ** New allocators *)

Definition create_entry (page_ppn pe : Z) : Z :=
  let pe := bf_set pe_page_ppn page_ppn pe in
  let pe := bf_set pe_writeable 1 pe in
  let pe := bf_set pe_execution_disabled 1 pe in
  let pe := bf_set pe_write_through 0 pe in
  let pe := bf_set pe_cache_disabled 0 pe in
  let pe := bf_set pe_accessed 0 pe in
  bf_set pe_present 1 pe.

(** Mapping the page at [vaddr]. *)
Definition create_page (vaddr : Z) (s : machine) : outcome machine :=
  o ← get_pageentr (vp_pt (m_virt s)) vaddr;
  '(ppage, ps) ← ppagealloc 4096 (m_phys s);
  if ppage =? 0 then Panicked
  else
    pe ← deref_pe o;
    '(_, st) ← update_pageentr (vp_pt (m_virt s)) vaddr (create_entry (Z.shiftr ppage 12) pe);
    Ret (Mem (VPS st (allocated_vpages (m_virt s))) ps).

Definition CreateBasicMemoryAllocator (s : machine) : outcome (BasicMemoryAllocator * machine) :=
  '(memoryAllocatorP, vs) ← vpagealloc uninit 0x41000 (m_virt s);
  if memoryAllocatorP =? 0 then Panicked
  else
    s ← create_page memoryAllocatorP (Mem vs (m_phys s));
    s ← create_page (u64 (memoryAllocatorP + 4096)) s;
    let impl := new_table memoryAllocatorP in
    let size := sm_round sizeof_Alloc in
    '(allocator, impl, s) ← Impl_sm_allocate size impl s;
    match allocator with
    | None => Panicked
    | Some _ => Ret (Consume size (BasicAllocator impl 0), s)
    end.

(** The pointer to the new object is not tested. *)
Definition CreateChainedAllocator (s : machine) : outcome (chain BasicMemoryAllocator * machine) :=
  '(allocator, s) ← CreateBasicMemoryAllocator s;
  '(ptr, allocator, s) ← Basic_sm_allocate sizeof_Chained allocator s;
  match ptr with
  | None => OutOfBounds
  | Some _ => Ret (ChainedAllocator allocator Null, s)
  end.

(** ~ChainedAllocator() *)
Fixpoint chain_destroy (c : chain BasicMemoryAllocator) (s : machine) : outcome machine :=
  match c with
  | Null => OutOfBounds
  | Single b => Impl_destroy (ba_impl b) s
  | ChainedAllocator b next =>
      s ← match next with Null => Ret s | _ => chain_destroy next s end;
      Impl_destroy (ba_impl b) s
  end.

(** ** The root of the chain *)

(** The virtual call of [sm_allocate] on a chain. *)
Definition chain_sm_allocate (sz : Z) (c : chain BasicMemoryAllocator) (s : machine)
    : outcome (option Z * chain BasicMemoryAllocator * machine) := Chained_sm_allocate sz c s.

(** head->next = this->head *)
Definition set_next (c next : chain BasicMemoryAllocator) : outcome (chain BasicMemoryAllocator) :=
  match c with
  | ChainedAllocator allocator _ => Ret (ChainedAllocator allocator next)
  | _ => OutOfBounds
  end.

(** A new allocator in front of the chain, with the pointer it gives. *)
Definition Root_extend (sz : Z) (head : chain BasicMemoryAllocator) (s : machine)
    : outcome (option Z * chain BasicMemoryAllocator * machine) :=
  '(new_head, s) ← CreateChainedAllocator s;
  '(ptr, new_head, s) ← chain_sm_allocate sz new_head s;
  match ptr with
  | Some ptr =>
      new_head ← set_next new_head head;
      Ret (Some ptr, new_head, s)
  | None =>
      s ← chain_destroy new_head s;
      Ret (None, head, s)
  end.

Definition Root_sm_allocate (sz : Z) (head : chain BasicMemoryAllocator) (s : machine)
    : outcome (option Z * chain BasicMemoryAllocator * machine) :=
  '(ptr, head, s) ← chain_sm_allocate sz head s;
  match ptr with
  | Some ptr => Ret (Some ptr, head, s)
  | None => Root_extend sz head s
  end.

(** ** malloc *)

Definition MAX_NONPAGED_SIZE : Z := 8192.

(** The chain [memoryAllocator] points to and the memory of the machine. *)
Record malloc_state := MallocState {
  memoryAllocator : chain BasicMemoryAllocator;
  ms_mem : machine;
}.

(** 0 is the null pointer. *)
Definition wild_malloc (size : Z) (ms : malloc_state) : outcome (Z * malloc_state) :=
  if size <? MAX_NONPAGED_SIZE then
    '(ptr, c, s) ← Root_sm_allocate (u32 size) (memoryAllocator ms) (ms_mem ms);
    Ret (default 0 ptr, MallocState c s)
  else
    '(ptr, s) ← pagealloc uninit vfuel size (ms_mem ms);
    Ret (ptr, MallocState (memoryAllocator ms) s).

(** The object ChainedAllocatorRoot lies in the first allocator as well; the
    pointer is not tested. *)
Definition CreateChainedAllocatorRoot (sizeof_Root : Z) (s : machine) : outcome malloc_state :=
  '(b, s) ← CreateBasicMemoryAllocator s;
  '(ptr, b, s) ← Basic_sm_allocate sizeof_Root b s;
  match ptr with
  | None => OutOfBounds
  | Some _ => Ret (MallocState (Single b) s)
  end.

(** The messages of a failed free are not modelled. *)
Definition wild_free (ptr : Z) (ms : malloc_state) : outcome malloc_state :=
  if Chained_sm_owned (W := machine) ptr (memoryAllocator ms) then
    '(_, c) ← Chained_sm_free (W := machine) ptr (memoryAllocator ms);
    Ret (MallocState c (ms_mem ms))
  else
    s ← pagefree vfuel ptr (ms_mem ms);
    Ret (MallocState (memoryAllocator ms) s).

Definition wild_sizeof_alloc (ptr : Z) (ms : malloc_state) : outcome Z :=
  if Chained_sm_owned (W := machine) ptr (memoryAllocator ms) then Chained_sm_sizeof (W := machine) ptr (memoryAllocator ms)
  else
    let vaddr := ptr in
    if negb (Z.land vaddr 0xFFF =? 0) then Panicked
    else vpagesize vfuel vaddr (m_virt (ms_mem ms)).

Definition wild_free_sized (ptr size : Z) (ms : malloc_state) : outcome malloc_state :=
  n ← wild_sizeof_alloc ptr ms;
  if n <? size then Panicked else wild_free ptr ms.

Definition malloc (size : Z) (ms : malloc_state) : outcome (Z * malloc_state) :=
  '(ptr, ms) ← wild_malloc size ms;
  if ptr =? 0 then Panicked else Ret (ptr, ms).

(** A division by 0 raises an exception of the processor. *)
Definition calloc (nmemb size : Z) (ms : malloc_state) : outcome (Z * malloc_state) :=
  let totsize := u32 (u64 (nmemb * size)) in
  if nmemb =? 0 then Panicked
  else
    let check := totsize / nmemb in
    if negb (check =? size) then Ret (0, ms) else malloc totsize ms.

End Malloc.

(** ** Correctness *)

Section Correctness.
Context {M : Type} `{PhyspageMapManaged M} `{!PhyspageMapLaws M}.
Implicit Types s : mem_state (M := M).

Context (uninit : Z → Z) (vfuel : nat) (sizeof_Alloc sizeof_Chained : Z).
Hypothesis keeps : ∀ x, uninit x = x.
Hypothesis Alloc_size : 0 ≤ sizeof_Alloc ≤ 4096.
Hypothesis Chained_size : 0 ≤ sizeof_Chained ≤ 4096.

Lemma create_entry_maps : maps create_entry.
Proof.
  intros ppn e. unfold mapped_entry, merge_pageentr, create_entry, bf_flag. cbv zeta.
  split_and!; fields; try done. cbn [bf_bits pe_page_ppn]. apply wrap_wrap.
Qed.

(** One page is mapped, or no physical page is free. *)
Lemma create_page_spec s v :
  mem_wf s → 0 ≤ v < vpages → taken_page (vp_pt (m_virt s)) v = true →
  (create_page (4096 * v) s = Panicked ∧ ∀ q, pm_used (physp (m_phys s)) q = true) ∨
  ∃ s1 p, create_page (4096 * v) s = Ret s1 ∧ mem_wf s1 ∧
    same_alloc (vp_pt (m_virt s)) (vp_pt (m_virt s1)) ∧
    ∀ q, is_u 32 q → pm_used (physp (m_phys s1)) q = true → pm_used (physp (m_phys s)) q = true ∨ q = p.
Proof.
  intros W Hv T. destruct (taken_some _ v T) as [e Ee]. pose proof W as [Wv Wp]. pose proof Wp as (Wm & Z0 & Hm).
  unfold create_page, ppagealloc. rewrite get_pageentr_spec by apply Wv.
  change (entry_of (vp_pt (m_virt s)) (4096 * v)) with (page (vp_pt (m_virt s)) v). rewrite Ee.
  destruct (ppagealloc_locked_spec (m_phys s) 4096 Wm Z0 ltac:(done) ltac:(done)) as (a & ps & -> & D).
  change ((4096 + 4095) / 4096) with 1 in D. cbn [mbind outcome_bind].
  destruct D as [(p & -> & Hp & _ & R & _ & G & _) | (-> & -> & N)].
  - right. destruct (Z.eqb_spec (4096 * p) 0); [lia |]. cbn [mbind outcome_bind deref_pe]. rewrite shift_page by lia.
    destruct (update_page (vp_pt (m_virt s)) v (create_entry p e) e) as (st & -> & Wst & P1); try done; [apply Wv |].
    cbn [mbind outcome_bind]. eexists _, p. split; [done |].
    destruct (create_entry_maps p e) as (_ & _ & _ & _ & Eav & Est). unfold mapped_entry in *.
    assert (same_alloc (vp_pt (m_virt s)) st) as S1.
    { intros x Hx. unfold avail, started, taken_page. rewrite P1 by done. case_decide as Dx; [| done].
      subst x. rewrite Ee. unfold bf_flag. by rewrite Eav, Est. }
    split; [split; [split; [done |] |]; cbn [m_virt vp_pt m_phys]; [rewrite <- S1; apply Wv | by eapply grabbed_wf] |].
    split; [done |]. destruct G as (_ & _ & _ & U). intros q Hq. cbn [m_phys]. rewrite U, PhyspageMap.in_range_1 by done.
    destruct (Z.eqb_spec q p); [by right |]. rewrite orb_false_r. by left.
  - left. split; [done |]. intros q. destruct (pm_used (physp (m_phys s)) q) eqn:Uq; [done |]. exfalso.
    apply (N q). intros x Hx. by replace x with q by lia.
Qed.

(** At most one physical page is free, or no room in the address space. *)
Definition no_room s : Prop :=
  no_vpages s 65 ∨ ∃ p, ∀ q, is_u 32 q → q ≠ p → pm_used (physp (m_phys s)) q = true.

(** Memory the fresh allocator has left: all units but [n] first ones. *)
Definition mostly_free (b : BasicMemoryAllocator) (n : Z) : Prop :=
  ∀ q, n ≤ q < units → unit_free (ba_impl b) q = true.

Lemma fresh_region s s' u vs :
  mem_wf s → allocated_in low_first high_end 65 (m_virt s) (4096 * u) vs →
  same_alloc (vp_pt vs) (vp_pt (m_virt s')) →
  0 < u ∧ u + 65 ≤ vpages ∧ (∀ v, u ≤ v < u + 65 → taken_page (vp_pt (m_virt s')) v = true) ∧
  (∀ v, u ≤ v < u + 65 → taken_page (vp_pt (m_virt s)) v = false) ∧
  (∀ v, 0 ≤ v < vpages → taken_page (vp_pt (m_virt s)) v = true → taken_page (vp_pt (m_virt s')) v = true).
Proof.
  intros W (u' & Eu & H1 & H2 & R & B & _) S. assert (u' = u) as -> by lia.
  unfold low_first, high_end, vpn, vpages in *. split_and!; try lia.
  - intros v Hv. destruct (S v ltac:(unfold vpages; lia)) as (_ & _ & <-).
    destruct (block_flags _ _ u 65 v B R ltac:(unfold vpages; lia)) as (_ & -> & _).
    rewrite bool_decide_eq_true_2 by lia. apply orb_true_r.
  - intros v Hv. specialize (R v Hv). unfold avail, taken_page in *.
    destruct (page (vp_pt (m_virt s)) v); [by rewrite R | done].
  - intros v Hv T. destruct (S v Hv) as (_ & _ & <-).
    destruct (block_flags _ _ u 65 v B R Hv) as (_ & -> & _). by rewrite T.
Qed.

Lemma CreateBasic_spec s :
  mem_wf s →
  (CreateBasicMemoryAllocator uninit sizeof_Alloc s = Panicked ∧ no_room s) ∨
  ∃ b s', CreateBasicMemoryAllocator uninit sizeof_Alloc s = Ret (b, s') ∧ basic_wf b s' ∧ mem_le s s' ∧
    (∀ q, sm_owned (W := mem_state (M := M)) q b = true → ¬ held s q) ∧
    mostly_free b (units_of sizeof_Alloc).
Proof.
  intros W. unfold CreateBasicMemoryAllocator.
  destruct (vpagealloc_cases uninit s 0x41000 (fun _ => keeps) W ltac:(done) ltac:(done)) as [(u & vs & -> & H1 & H2 & A) | (-> & N)].
  2:{ left. cbn [mbind outcome_bind]. split; [done | by left]. }
  change ((0x41000 + 4095) / 4096) with 65 in *. cbn [mbind outcome_bind].
  pose proof (fresh_region s (Mem vs (m_phys s)) u vs W A ltac:(done)) as (Hu & Hhi & T & Tn & Tk).
  destruct (Z.eqb_spec (4096 * u) 0) as [? | _]; [lia |].
  assert (mem_wf (Mem vs (m_phys s))) as W0.
  { split; [| apply W]. apply (allocated_in_wf low_first high_end 65 (m_virt s) (4096 * u)); (done || apply W). }
  destruct (create_page_spec (Mem vs (m_phys s)) u W0 ltac:(lia) (T u ltac:(lia))) as [[-> N] | (s1 & p & -> & W1 & S1 & U1)].
  { left. split; [done |]. right. exists 0. intros q _ _. apply N. }
  cbn [mbind outcome_bind]. replace (4096 * u + 4096) with (4096 * (u + 1)) by lia.
  rewrite wrap_id by (unfold is_u, vpages in *; lia).
  assert (taken_page (vp_pt (m_virt s1)) (u + 1) = true) as T1.
  { destruct (S1 (u + 1) ltac:(lia)) as (_ & _ & <-). apply T. lia. }
  destruct (create_page_spec s1 (u + 1) W1 ltac:(lia) T1) as [[-> N] | (s2 & p2 & -> & W2 & S2 & U2)].
  { left. split; [done |]. right. exists p. intros q Hq Hne. destruct (U1 q Hq (N q)) as [? | ->]; [done | lia]. }
  cbn [mbind outcome_bind]. right. assert (same_alloc (vp_pt vs) (vp_pt (m_virt s2))) as S by (by transitivity (vp_pt (m_virt s1))).
  rewrite sm_round_spec by lia. set (n := units_of sizeof_Alloc).
  assert (1 ≤ n ≤ 256) by (apply units_of_le; lia).
  assert (region s2 (new_table (4096 * u)) u) as Rg.
  { split; [done |]. split; [lia |]. split; [lia |]. intros v Hv. destruct (S v ltac:(lia)) as (_ & _ & <-). by apply T. }
  destruct (Impl_sm_allocate_spec (new_table (4096 * u)) s2 n u W2 (new_table_ok _) Rg) as (r & t' & s' & -> & W' & Sa & _ & R);
    [lia | lia |]. cbn [mbind outcome_bind]. destruct r as [ptr |].
  2:{ destruct R as (_ & _ & R). exfalso. apply (R 0); [done | unfold units; lia | apply new_table_free]. }
  destruct R as (q & _ & Hq & Hqn & F & First & Su & _).
  assert (q = 0) as -> by (destruct (decide (0 < q)); [exfalso; apply (First 0 ltac:(lia)), new_table_free | lia]).
  pose proof Su as (_ & Et & Uu).
  destruct (units_set_block _ t' 0 n (new_table_ok _) ltac:(done) ltac:(lia) Hqn F Su) as [Ok' _].
  pose proof (used_units_block _ t' 0 n (new_table_ok _) ltac:(done) ltac:(lia) Hqn F Su) as Cu. rewrite new_table_used in Cu.
  pose proof (fresh_region s s' u vs W A (transitivity S Sa)) as (_ & _ & T' & _ & Tk').
  assert (basic_wf (Consume (16 * n) (BasicAllocator t' 0)) s') as Wb.
  { split; [exact W' |]. split; [exact Ok' |]. split.
    - exists u. unfold region. cbn [ba_impl Consume]. rewrite Et. split; [done |]. split; [lia |]. split; [lia | exact T'].
    - cbn [ba_impl consumed Consume]. rewrite Cu, wrap_id by (unfold is_u; lia). lia. }
  eexists _, s'. split; [reflexivity |]. split; [exact Wb |]. split; [by split |]. split.
  - intros x Ox [Hx Tx]. rewrite (basic_owned _ s' x Wb) in Ox. cbn [ba_impl Consume] in Ox. rewrite Et in Ox.
    cbn [tbl_this new_table] in Ox. unfold units in Ox. pose proof (Z.div_mod x 4096 ltac:(done)).
    pose proof (Z.mod_pos_bound x 4096 ltac:(done)). rewrite Tn in Tx by lia. done.
  - intros x Hx. unfold unit_free. cbn [ba_impl Consume]. rewrite Uu, decide_False by lia.
    rewrite new_table_unit. done.
Qed.

(** An allocation from an allocator that is empty behind its first [k] units. *)
Lemma alloc_mostly_free b s size k :
  basic_wf b s → 0 ≤ size → size + 16 ≤ 2 ^ 32 → mostly_free b k → 0 ≤ k → k + units_of size ≤ units →
  ∃ ptr b' s', Basic_sm_allocate size b s = Ret (Some ptr, b', s') ∧ basic_wf b' s' ∧ mem_le s s' ∧
    tbl_this (ba_impl b') = tbl_this (ba_impl b) ∧ mostly_free b' (k + units_of size).
Proof.
  intros Wb Hs Ho Mf Hk Hroom.
  assert (free_cells (unit_free (ba_impl b)) k (units_of size)) as Fk by (intros q Hq; apply Mf; lia).
  destruct (Basic_sm_allocate_spec b s size Wb Hs Ho) as (r & b' & s' & E & Wb' & Le & Et & R).
  destruct r as [ptr |]; [| destruct R as (_ & _ & R); exfalso; by apply (R k)].
  destruct R as (p & _ & Hp & Hpn & F & First & Su & _). destruct Su as (_ & _ & U).
  assert (p ≤ k) by (destruct (decide (k < p)); [exfalso; by apply (First k ltac:(lia)) | lia]).
  exists ptr, b', s'. do 4 (split; [done |]). intros q Hq.
  assert (1 ≤ units_of size) by (unfold units_of; lia). unfold unit_free. rewrite U, decide_False by lia.
  apply Mf. lia.
Qed.

Lemma CreateChained_spec s :
  mem_wf s →
  (CreateChainedAllocator uninit sizeof_Alloc sizeof_Chained s = Panicked ∧ no_room s) ∨
  ∃ b s', CreateChainedAllocator uninit sizeof_Alloc sizeof_Chained s = Ret (ChainedAllocator b Null, s') ∧
    basic_wf b s' ∧ mem_le s s' ∧ (∀ q, sm_owned (W := mem_state (M := M)) q b = true → ¬ held s q) ∧
    mostly_free b 512.
Proof.
  intros W. unfold CreateChainedAllocator. pose proof (units_of_le sizeof_Alloc 256 ltac:(done) ltac:(lia)).
  pose proof (units_of_le sizeof_Chained 256 ltac:(done) ltac:(lia)).
  destruct (CreateBasic_spec s W) as [[-> N] | (b & s1 & -> & Wb & Le & Dj & Mf)]; [by left |]. right.
  cbn [mbind outcome_bind].
  destruct (alloc_mostly_free b s1 sizeof_Chained _ Wb ltac:(lia) ltac:(lia) Mf) as (ptr & b' & s' & -> & Wb' & Le' & Et & Mf');
    [lia | unfold units; lia |]. cbn [mbind outcome_bind].
  exists b', s'. split; [done |]. split; [done |]. split; [by transitivity s1 |]. split.
  - intros q Oq. apply Dj. by rewrite <- (basic_owned_eq b b' s1 s' q Wb Wb' Et).
  - intros q Hq. apply Mf'. lia.
Qed.

(** The small blocks of a chain after an allocation: the old ones, and a new
    one that overlaps none of them. *)
Definition new_block (c c' : chain BasicMemoryAllocator) (size ptr : Z) : Prop :=
  (∀ q m, chain_block (W := mem_state (M := M)) c q m → chain_block (W := mem_state (M := M)) c' q m) ∧
  ∃ n, size ≤ n ∧ 0 < n ∧ chain_block (W := mem_state (M := M)) c' ptr n ∧
    ∀ q m, chain_block (W := mem_state (M := M)) c q m → ptr + n ≤ q ∨ q + m ≤ ptr.

Lemma Root_spec head s size :
  chain_wf head s → mem_wf s → 0 ≤ size < 8192 →
  (Root_sm_allocate uninit sizeof_Alloc sizeof_Chained size head s = Panicked ∧ no_room s) ∨
  ∃ ptr head' s', Root_sm_allocate uninit sizeof_Alloc sizeof_Chained size head s = Ret (Some ptr, head', s') ∧
    chain_wf head' s' ∧ mem_le s s' ∧ new_block head head' size ptr.
Proof.
  intros Wc W Hs. unfold Root_sm_allocate, chain_sm_allocate.
  destruct (chain_allocate head s size Wc ltac:(lia) ltac:(lia)) as (r & head1 & s1 & -> & Wc1 & Le1 & Eo1 & Same & R1).
  cbn [mbind outcome_bind]. destruct r as [ptr |].
  { right. exists ptr, head1, s1. do 3 (split; [done |]). destruct R1 as (n & Hn & Hf & E).
    assert (chain_block (W := mem_state (M := M)) head1 ptr n) as Bp by (apply E; by left).
    split; [intros q m B; apply E; by right |]. exists n. split; [done |].
    pose proof (chain_block_pos head1 s1 ptr n Wc1 Bp). split; [done |]. split; [done |]. intros q m B.
    destruct (chain_disjoint head1 s1 ptr n q m Wc1 Bp) as [[-> ->] | D]; [apply E; by right | | done].
    exfalso. by apply (Hf m). }
  rewrite (Same eq_refl) in *. clear Le1 Same. unfold Root_extend.
  destruct (CreateChained_spec s W) as [[-> N] | (b & s2 & -> & Wb & Le2 & Dj & Mf)].
  { by left. }
  right. cbn [mbind outcome_bind]. unfold chain_sm_allocate. cbn [Chained_sm_allocate].
  pose proof (units_of_le size 512 ltac:(done) ltac:(lia)).
  destruct (alloc_mostly_free b s2 size 512 Wb ltac:(lia) ltac:(lia) Mf) as (ptr & b' & s' & Ea & Wb' & Le3 & Et & _);
    [lia | unfold units; lia |].
  destruct (basic_allocate b s2 size Wb ltac:(lia) ltac:(lia)) as (r & b'' & s'' & Ea' & _ & _ & Eo & _ & R).
  change (sm_allocate size b s2) with (Basic_sm_allocate size b s2) in *. rewrite Ea in Ea'. injection Ea' as <- <- <-.
  rewrite Ea. cbn [mbind outcome_bind set_next]. exists ptr, (ChainedAllocator b' head1), s'. split; [done |].
  assert (mem_le s s') as Le by (by transitivity s2).
  assert (chain_wf (ChainedAllocator b' head1) s') as Wc'.
  { split; [exact Wb' |]. split; [right; exact (chain_frame head1 s s' Wc1 Le) |]. intros q. rewrite Eo. intros Oq.
    destruct (Chained_sm_owned q head1) eqn:Oh; [| done]. exfalso. apply (Dj q Oq). exact (chain_owned_held head1 s q Wc1 Oh). }
  split; [exact Wc' |]. split; [done |]. destruct R as (n & Hn & _ & E).
  assert (basic_block b' ptr n) as Bp by (apply E; by left).
  split; [intros q m B; right; by apply R1 |]. exists n. split; [done |].
  split; [exact (ma_block_pos (W := mem_state (M := M)) b' s' ptr n Wb' Bp) |].
  split; [left; exact Bp |]. intros q m B. apply R1 in B. exact (chain_apart b' head1 s' ptr n q m Wc' Bp B).
Qed.

(** ** malloc *)

Definition malloc_wf (ms : malloc_state (M := M)) : Prop :=
  chain_wf (memoryAllocator ms) (ms_mem ms) ∧ mem_wf (ms_mem ms).

Lemma CreateRoot_spec sizeof_Root s :
  0 ≤ sizeof_Root ≤ 4096 → mem_wf s →
  (CreateChainedAllocatorRoot uninit sizeof_Alloc sizeof_Root s = Panicked ∧ no_room s) ∨
  ∃ ms, CreateChainedAllocatorRoot uninit sizeof_Alloc sizeof_Root s = Ret ms ∧ malloc_wf ms.
Proof.
  intros Hr W. unfold CreateChainedAllocatorRoot. pose proof (units_of_le sizeof_Alloc 256 ltac:(done) ltac:(lia)).
  pose proof (units_of_le sizeof_Root 256 ltac:(done) ltac:(lia)).
  destruct (CreateBasic_spec s W) as [[-> N] | (b & s1 & -> & Wb & Le & Dj & Mf)]; [by left |]. right.
  cbn [mbind outcome_bind].
  destruct (alloc_mostly_free b s1 sizeof_Root _ Wb ltac:(lia) ltac:(lia) Mf) as (ptr & b' & s' & -> & Wb' & _);
    [lia | unfold units; lia |]. cbn [mbind outcome_bind].
  eexists. split; [done |]. split; [exact Wb' | apply Wb'].
Qed.

Lemma chain_block_nonnull c s ptr n : chain_wf c s → chain_block (W := mem_state (M := M)) c ptr n → 0 < ptr.
Proof.
  assert (∀ b ptr n, basic_wf b s → basic_block b ptr n → 0 < ptr) as Hb.
  { intros b q m (_ & _ & (u & E & Hu & _) & _) (x & k & -> & _ & (Hx & _)). lia. }
  induction c as [| b | b next IH]; [done | intros Wb B; exact (Hb b ptr n Wb B) |].
  intros (Wb & Wn & _) [B | B]; [exact (Hb b ptr n Wb B) |]. destruct Wn as [-> | Wn]; [done | auto].
Qed.

(** Kernel memory taken for somebody else's use leaves the chain alone. *)
Lemma backed_le s s' u n p : mem_wf s' → backed s s' u 0 n p → mem_le s s'.
Proof.
  intros W' B. split; [done |]. intros v Hv T. destruct (decide (u ≤ v < u + (0 + n))) as [D | D].
  - apply (bk_block _ _ _ _ _ _ B v D).
  - unfold taken_page in *. by rewrite (bk_other _ _ _ _ _ _ B v Hv D).
Qed.

Lemma backed_not_held s s' u n p x :
  backed s s' u 0 n p → 4096 * u ≤ x < 4096 * (u + n) → ¬ held s x.
Proof.
  intros B Hx [Hp T]. pose proof (Z.div_mod x 4096 ltac:(done)). pose proof (Z.mod_pos_bound x 4096 ltac:(done)).
  pose proof (bk_virt _ _ _ _ _ _ B (x / 4096) ltac:(lia)) as A. unfold avail, taken_page in *.
  destruct (page (vp_pt (m_virt s)) (x / 4096)); [| done]. by rewrite A in T.
Qed.

Lemma malloc_spec ms size :
  malloc_wf ms → 0 ≤ size → size + 4096 < 2 ^ 64 → (Z.to_nat ((size + 4095) / 4096) < vfuel)%nat →
  let n := (size + 4095) / 4096 in
  (malloc uninit vfuel sizeof_Alloc sizeof_Chained size ms = Panicked ∧
    if size <? 8192 then no_room (ms_mem ms)
    else no_vpages (ms_mem ms) n ∨ ∀ p, ¬ free_run (physp (m_phys (ms_mem ms))) p n) ∨
  ∃ ptr ms', malloc uninit vfuel sizeof_Alloc sizeof_Chained size ms = Ret (ptr, ms') ∧ malloc_wf ms' ∧ ptr ≠ 0 ∧
    mem_le (ms_mem ms) (ms_mem ms') ∧
    if size <? 8192 then new_block (memoryAllocator ms) (memoryAllocator ms') size ptr
    else memoryAllocator ms' = memoryAllocator ms ∧
      ∃ u p, ptr = 4096 * u ∧ backed (ms_mem ms) (ms_mem ms') u 0 n p ∧
        ∀ x, ptr ≤ x < ptr + 4096 * n → Chained_sm_owned (W := mem_state (M := M)) x (memoryAllocator ms') = false.
Proof.
  intros [Wc W] Hs Ho Hf n. unfold malloc, wild_malloc, MAX_NONPAGED_SIZE. destruct (Z.ltb_spec size 8192).
  - rewrite wrap_id by (unfold is_u; lia).
    destruct (Root_spec (memoryAllocator ms) (ms_mem ms) size Wc W ltac:(lia))
      as [[-> N] | (ptr & head' & s' & -> & Wc' & Le & B)]; cbn [mbind outcome_bind]; [by left |]. right.
    change (default 0 (Some ptr)) with ptr. pose proof B as (_ & m & _ & _ & Bp & _).
    pose proof (chain_block_nonnull head' s' ptr m Wc' Bp). destruct (Z.eqb_spec ptr 0); [lia |].
    eexists ptr, _. split; [done |]. split; [split; [exact Wc' | by apply Le] |]. split; [lia |]. by split.
  - destruct (pagealloc_spec uninit vfuel (ms_mem ms) size (fun _ => keeps) W ltac:(lia) Ho Hf) as (a & s' & -> & W' & D).
    fold n in D. cbn [mbind outcome_bind]. destruct D as [(u & p & -> & H1 & H2 & B & _) | (-> & _ & N)]; [right | by left].
    unfold low_first, vpn in H1. destruct (Z.eqb_spec (4096 * u) 0); [lia |].
    pose proof (backed_le _ _ _ _ _ W' B) as Le. eexists _, _. split; [done |].
    split; [split; [by eapply chain_frame | done] |]. split; [lia |]. split; [done |]. split; [done |].
    exists u, p. do 2 (split; [done |]). intros x Hx. cbn [memoryAllocator].
    destruct (Chained_sm_owned x (memoryAllocator ms)) eqn:O; [| done]. exfalso.
    eapply (backed_not_held _ _ u n p x B); [lia |]. exact (chain_owned_held _ (ms_mem ms) x Wc O).
Qed.

End Correctness.

(** ** Properties *)

Section Properties.
Context {M : Type} `{PhyspageMapManaged M} `{!PhyspageMapLaws M}.

(** C1: small blocks of kernel memory never overlap.  [malloc] of less than
    8192 bytes returns a block of at least that size that overlaps none of
    the blocks in use, which all stay; a larger block consists of pages that
    belonged to no allocator, mapped to a run of physical pages.  The kernel
    panics only if the address space or the physical memory is exhausted.
    It supposes that the uninitialised variable starting_addr of vpagealloc
    keeps the value that an earlier round of its loop gave it, and that the
    objects of the allocators, whose layout the compiler chooses, take at most
    a page each. *)
Theorem malloc_correct (uninit : Z → Z) (vfuel : nat) (sizeof_Alloc sizeof_Chained size : Z)
    (ms : malloc_state (M := M)) :
  (∀ x, uninit x = x) → 0 ≤ sizeof_Alloc ≤ 4096 → 0 ≤ sizeof_Chained ≤ 4096 →
  malloc_wf ms → 0 ≤ size → size + 4096 < 2 ^ 64 → (Z.to_nat ((size + 4095) / 4096) < vfuel)%nat →
  let n := (size + 4095) / 4096 in
  (malloc uninit vfuel sizeof_Alloc sizeof_Chained size ms = Panicked ∧
    if size <? 8192 then no_room (ms_mem ms)
    else no_vpages (ms_mem ms) n ∨ ∀ p, ¬ free_run (physp (m_phys (ms_mem ms))) p n) ∨
  ∃ ptr ms', malloc uninit vfuel sizeof_Alloc sizeof_Chained size ms = Ret (ptr, ms') ∧ malloc_wf ms' ∧ ptr ≠ 0 ∧
    mem_le (ms_mem ms) (ms_mem ms') ∧
    if size <? 8192 then new_block (M := M) (memoryAllocator ms) (memoryAllocator ms') size ptr
    else memoryAllocator ms' = memoryAllocator ms ∧
      ∃ u p, ptr = 4096 * u ∧ backed (ms_mem ms) (ms_mem ms') u 0 n p ∧
        ∀ x, ptr ≤ x < ptr + 4096 * n → Chained_sm_owned (W := mem_state (M := M)) x (memoryAllocator ms') = false.
Proof. intros. by apply malloc_spec. Qed.

(** freeing a small block removes this block and no other one, and its
    size is the one [malloc_sizeof] tells; a sized free with at most this size
    does the same, with a greater one the kernel panics. *)
Theorem small_free_correct (vfuel : nat) (ms : malloc_state (M := M)) (ptr n : Z) :
  malloc_wf ms → chain_block (W := mem_state (M := M)) (memoryAllocator ms) ptr n →
  wild_sizeof_alloc vfuel ptr ms = Ret n ∧
  ∃ ms', wild_free vfuel ptr ms = Ret ms' ∧ malloc_wf ms' ∧ ms_mem ms' = ms_mem ms ∧
    (∀ q m, chain_block (W := mem_state (M := M)) (memoryAllocator ms') q m ↔
      chain_block (W := mem_state (M := M)) (memoryAllocator ms) q m ∧ q ≠ ptr) ∧
    ∀ size, wild_free_sized vfuel ptr size ms = if n <? size then Panicked else Ret ms'.
Proof.
  intros [Wc W] B. destruct (chain_free _ _ ptr n Wc B) as (Es & c' & Ef & Wc' & Eo & R).
  pose proof (chain_block_pos _ _ ptr n Wc B).
  pose proof (chain_block_owned _ _ ptr n ptr Wc B ltac:(lia)) as O.
  unfold wild_free_sized, wild_sizeof_alloc, wild_free. rewrite O, Es, Ef. cbn [mbind outcome_bind].
  split; [done |]. eexists. split; [done |]. by split.
Qed.

(** C40: [calloc] passes on only sizes that are the exact product: if it does
    not return the null pointer at once, [nmemb * size] did not overflow 32
    bits; it divides by 0 when [nmemb] is 0. *)
Theorem calloc_bounds (uninit : Z → Z) (vfuel : nat) (sizeof_Alloc sizeof_Chained nmemb size : Z)
    (ms : malloc_state (M := M)) :
  is_u 64 nmemb → is_u 64 size →
  calloc uninit vfuel sizeof_Alloc sizeof_Chained nmemb size ms =
    if nmemb =? 0 then Panicked
    else if nmemb * size <? 2 ^ 32 then malloc uninit vfuel sizeof_Alloc sizeof_Chained (nmemb * size) ms
    else Ret (0, ms).
Proof.
  intros [Hn0 Hn] [Hs0 Hs]. unfold calloc. destruct (Z.eqb_spec nmemb 0) as [-> | Hne]; [done |].
  assert (0 ≤ nmemb * size) by (apply Z.mul_nonneg_nonneg; lia). rewrite (wrap_min 32 64) by lia.
  destruct (Z.ltb_spec (nmemb * size) (2 ^ 32)) as [Hlt | Hge].
  - rewrite wrap_id by (unfold is_u; lia). rewrite (Z.mul_comm nmemb), Z.div_mul, Z.eqb_refl by lia. done.
  - pose proof (wrap_range 32 (nmemb * size) ltac:(lia)) as Hw.
    destruct (Z.eqb_spec (u32 (nmemb * size) / nmemb) size) as [E | E]; [| done]. exfalso.
    pose proof (Z.mul_div_le (u32 (nmemb * size)) nmemb ltac:(lia)) as Hd. rewrite E in Hd. lia.
Qed.

End Properties.

(** *** A machine with an allocator *)

Definition example_root : outcome malloc_state := CreateChainedAllocatorRoot id 224 208 example_mem.

Lemma example_root_wf : ∃ ms, example_root = Ret ms ∧ malloc_wf ms.
Proof.
  destruct (CreateRoot_spec id 224 (fun x => eq_refl) ltac:(lia) 208 example_mem ltac:(lia) example_mem_wf)
    as [[E _] | H]; [| exact H].
  assert (match example_root with Panicked => true | _ => false end = false) as N by (by vm_compute).
  unfold example_root in N. rewrite E in N. discriminate N.
Qed.

Lemma malloc_correct_witness :
  ∃ ms ptr ms', example_root = Ret ms ∧ malloc id 10 224 32 1000 ms = Ret (ptr, ms') ∧ malloc_wf ms' ∧
    new_block (memoryAllocator ms) (memoryAllocator ms') 1000 ptr.
Proof.
  destruct example_root_wf as (ms & E & W). exists ms.
  destruct (malloc_correct id 10 224 32 1000 ms (fun x => eq_refl) ltac:(lia) ltac:(lia) W ltac:(lia) ltac:(lia))
    as [[E' _] | (ptr & ms' & E' & W' & _ & _ & B)]; [apply Nat.ltb_lt; by vm_compute | |].
  - assert ((ms ← example_root; fst <$> malloc id 10 224 32 1000 ms) = Ret 0x1000011b0) as N.
    2:{ rewrite E in N. cbn [mbind outcome_bind] in N. rewrite E' in N. discriminate N. }
    clear. by vm_compute.
  - exists ptr, ms'. exact (conj E (conj E' (conj W' B))).
Defined.

Lemma small_free_correct_witness :
  ∃ (ms : malloc_state (M := simple_physpagemap_managed)) ptr n ms', malloc_wf ms ∧ 1000 ≤ n ∧ wild_sizeof_alloc 10 ptr ms = Ret n ∧ wild_free 10 ptr ms = Ret ms' ∧
    wild_free_sized 10 ptr (n + 1) ms = Panicked.
Proof.
  destruct example_root_wf as (ms0 & E & W0).
  destruct (malloc_spec id 10 224 32 (fun x => eq_refl) ltac:(lia) ltac:(lia) ms0 1000 W0 ltac:(lia) ltac:(lia))
    as [[E' _] | (ptr & ms & E' & W & _ & _ & B)]; [apply Nat.ltb_lt; by vm_compute | |].
  - assert ((ms ← example_root; fst <$> malloc id 10 224 32 1000 ms) = Ret 0x1000011b0) as N.
    2:{ rewrite E in N. cbn [mbind outcome_bind] in N. rewrite E' in N. discriminate N. }
    clear. by vm_compute.
  - destruct B as (_ & n & Hn & _ & Bp & _).
    destruct (small_free_correct 10 ms ptr n W Bp) as (Es & ms' & Ef & _ & _ & _ & Efs).
    exists ms, ptr, n, ms'. split; [exact W |]. split; [exact Hn |]. split; [exact Es |]. split; [exact Ef |].
    rewrite Efs. destruct (Z.ltb_spec n (n + 1)); [reflexivity | lia].
Defined.

Lemma calloc_bounds_witness :
  calloc id 10 224 32 (2 ^ 31) 2 (MallocState Null example_mem) = Ret (0, MallocState Null example_mem).
Proof. exact (calloc_bounds id 10 224 32 (2 ^ 31) 2 (MallocState Null example_mem) ltac:(done) ltac:(done)). Defined.
