(* ===== verification/Spinlock.v ===== *)
(** The spinlocks of the kernel: raw_spinlock and hw_spinlock
    (kernel/arch/x86_64 and kernel/arch/aarch64) with the critical sections
    that turn off the interrupts of a CPU (critical_section.cpp).

    Both locks are ticket locks on two 32-bit words.  The atomic
    instructions are functions on the two words; [raw_step] interleaves them
    over any number of threads and [hw_step] over any number of CPUs with
    their interrupt flags.  The abstract lock is a queue, [fifo_step]. *)
From S2P Require Import Prelude.
From stdpp Require Import relations.

Local Open Scope Z_scope.

(** * The words of the lock and the instructions on them *)

Record spinlock := Spinlock {
  next_ticket : Z;   (* cacheline[0] *)
  now_serving : Z    (* cacheline[1] *)
}.

Definition new_spinlock : spinlock := Spinlock 0 0.

(* lock xadd, or __atomic_fetch_add *)
Definition create_ticket (l : spinlock) : Z * spinlock :=
  (next_ticket l, Spinlock (u32 (next_ticket l + 1)) (now_serving l)).

Definition release_ticket (l : spinlock) : spinlock :=
  Spinlock (next_ticket l) (u32 (now_serving l + 1)).

(* x86-64: the registers rax and rcx, and cmpxchg on the word *)
Definition try_acquire_ticket (l : spinlock) (ticket : Z) : bool * spinlock :=
  let rcx := ticket in
  let rax := u64 (ticket - 1) in
  if u32 rax =? next_ticket l then
    let rax := u64 (rax + 1) in
    (u32 rax =? ticket, Spinlock (u32 rcx) (now_serving l))
  else
    let rax := next_ticket l in
    (u32 rax =? ticket, l).

Definition try_lock (l : spinlock) : bool * spinlock :=
  try_acquire_ticket l (now_serving l).

Definition arm_try_acquire_ticket (l : spinlock) (ticket : Z) : bool * spinlock :=
  if next_ticket l =? ticket
  then (true, Spinlock (u32 (ticket + 1)) (now_serving l))
  else (false, l).

Definition arm_try_lock (l : spinlock) : bool * spinlock :=
  arm_try_acquire_ticket l (now_serving l).

(** * raw_spinlock: interleavings of lock and unlock *)

(** Where a thread is: outside, in the loop of lock with its ticket, or
    between lock and unlock. *)
Inductive lock_pc := Out | Wait (ticket : Z) | Hold.

#[global] Instance lock_pc_eq : EqDecision lock_pc.
Proof. solve_decision. Defined.

Record raw_system := RawSystem {
  raw_lock : spinlock;
  raw_threads : list lock_pc
}.

(** One atomic step of thread [t]: the ticket is taken, the loop looks at
    the word once, the lock is released. *)
Inductive lock_event := Take (t : nat) | Spin (t : nat) | Release (t : nat).

Definition raw_step (e : lock_event) (s : raw_system) : option raw_system :=
  match e with
  | Take t =>
    match raw_threads s !! t with
    | Some Out =>
      let '(ticket, l) := create_ticket (raw_lock s) in
      Some (RawSystem l (<[t := Wait ticket]> (raw_threads s)))
    | _ => None
    end
  | Spin t =>
    match raw_threads s !! t with
    | Some (Wait ticket) =>
      if ticket =? now_serving (raw_lock s)
      then Some (RawSystem (raw_lock s) (<[t := Hold]> (raw_threads s)))
      else Some s
    | _ => None
    end
  | Release t =>
    match raw_threads s !! t with
    | Some Hold =>
      Some (RawSystem (release_ticket (raw_lock s)) (<[t := Out]> (raw_threads s)))
    | _ => None
    end
  end.

Definition raw_init (n : nat) : raw_system := RawSystem new_spinlock (replicate n Out).

(** * The abstract lock: a queue of threads *)

Record fifo := Fifo { queue : list nat; inside : bool }.

Definition fifo_step (n : nat) (e : lock_event) (f : fifo) : option fifo :=
  match e with
  | Take t =>
    if bool_decide ((t < n)%nat ∧ t ∉ queue f)
    then Some (Fifo (queue f ++ [t]) (inside f)) else None
  | Spin t =>
    if bool_decide (head (queue f) = Some t) then
      if inside f then None else Some (Fifo (queue f) true)
    else if bool_decide (t ∈ queue f) then Some f else None
  | Release t =>
    if bool_decide (head (queue f) = Some t) && inside f
    then Some (Fifo (tail (queue f)) false) else None
  end.

(** The run of a sequence of events. *)
Fixpoint run {S} (step : lock_event → S → option S) (es : list lock_event) (s : S) : option S :=
  match es with
  | [] => Some s
  | e :: es => s' ← step e s; run step es s'
  end.

(** What the words and the threads say of the queue: the [i]-th thread of
    the queue waits with the ticket [i] after the one being served, and the
    first one may be inside. *)
Definition pc_in (serving : Z) (f : fifo) (t : nat) (pc : lock_pc) : Prop :=
  match pc with
  | Out => t ∉ queue f
  | Wait k => ∃ i : nat, queue f !! i = Some t ∧ k = u32 (serving + Z.of_nat i) ∧
                         (i = 0%nat → inside f = false)
  | Hold => head (queue f) = Some t ∧ inside f = true
  end.

Record lock_refines (n : nat) (s : raw_system) (f : fifo) : Prop := {
  lr_threads : length (raw_threads s) = n;
  lr_nodup : NoDup (queue f);
  lr_bound : ∀ t, t ∈ queue f → (t < n)%nat;
  lr_serving : is_u 32 (now_serving (raw_lock s));
  lr_next : next_ticket (raw_lock s) =
            u32 (now_serving (raw_lock s) + Z.of_nat (length (queue f)));
  lr_inside : inside f = true → queue f ≠ [];
  lr_pc : ∀ t pc, raw_threads s !! t = Some pc → pc_in (now_serving (raw_lock s)) f t pc
}.

(** * Lemmas *)

Lemma u32_add_inj s i j :
  0 ≤ i < 2 ^ 32 → 0 ≤ j < 2 ^ 32 → u32 (s + i) = u32 (s + j) → i = j.
Proof.
  intros Hi Hj H. unfold wrap in H.
  pose proof (Z.div_mod (s + i) (2 ^ 32)). pose proof (Z.div_mod (s + j) (2 ^ 32)).
  nia.
Qed.

Lemma nodup_bounded_length (q : list nat) n :
  NoDup q → (∀ t, t ∈ q → (t < n)%nat) → (length q ≤ n)%nat.
Proof.
  intros Hn Hb. rewrite <- (length_seq n 0). apply submseteq_length.
  apply NoDup_submseteq; [done|]. intros t Ht. apply elem_of_seq. pose proof (Hb t Ht). lia.
Qed.

Lemma lock_refines_length n s f :
  lock_refines n s f → (length (queue f) ≤ n)%nat.
Proof. intros [? ? ? ? ? ? ?]. eauto using nodup_bounded_length. Qed.

Lemma lock_refines_init n : lock_refines n (raw_init n) (Fifo [] false).
Proof.
  constructor; simpl; try done.
  - apply length_replicate.
  - constructor.
  - intros t Ht. by apply elem_of_nil in Ht.
  - intros t pc [-> _]%lookup_replicate. simpl. apply not_elem_of_nil.
Qed.

(** The threads other than [t] keep their place if the queue keeps them. *)
Lemma pc_in_app sv f t t' pc :
  t ≠ t' → pc_in sv f t pc → pc_in sv (Fifo (queue f ++ [t']) (inside f)) t pc.
Proof.
  intros Hne. destruct pc; simpl.
  - rewrite elem_of_app, list_elem_of_singleton. tauto.
  - intros (i & Hi & Hk & H0). exists i. split; [|done]. by apply lookup_app_l_Some.
  - intros [Hh Hin]. split; [|done]. by destruct (queue f).
Qed.

Lemma pc_in_tail n s f t t' pc :
  t ≠ t' → head (queue f) = Some t' → is_u 32 (now_serving (raw_lock s)) →
  (length (queue f) ≤ n)%nat → Z.of_nat n < 2 ^ 32 →
  pc_in (now_serving (raw_lock s)) f t pc →
  pc_in (u32 (now_serving (raw_lock s) + 1)) (Fifo (tail (queue f)) false) t pc.
Proof.
  intros Hne Hh Hs Hl Hn. destruct (queue f) as [|h q] eqn:Hq; [done|]. simplify_eq/=.
  destruct pc; unfold pc_in; rewrite Hq; simpl.
  - rewrite elem_of_cons. naive_solver.
  - intros ([|i] & Hi & Hk & H0); [simplify_eq/=|]. exists i. split; [done|]. split; [|done].
    rewrite Hk. unfold wrap. rewrite Zplus_mod_idemp_l. f_equal. lia.
  - intros [? ?]; simplify_eq.
Qed.

(** The events that are possible, and what they do, agree. *)
Definition steps_agree (n : nat) (os : option raw_system) (oq : option fifo) : Prop :=
  match os, oq with
  | Some s, Some f => lock_refines n s f
  | None, None => True
  | _, _ => False
  end.

(** What the place of a thread in the queue says of the thread. *)
Lemma lr_lookup n s f t :
  lock_refines n s f →
  (∃ pc, raw_threads s !! t = Some pc ∧ (t < n)%nat ∧ pc_in (now_serving (raw_lock s)) f t pc) ∨
  raw_threads s !! t = None ∧ ¬ (t < n)%nat ∧ t ∉ queue f.
Proof.
  intros [Hn _ Hb _ _ _ Hpc]. destruct (raw_threads s !! t) as [pc|] eqn:E.
  - left. exists pc. split_and!; [done| |by apply Hpc]. apply lookup_lt_Some in E. lia.
  - right. apply lookup_ge_None in E. split_and!; [done|lia|]. intros Ht%Hb. lia.
Qed.

Lemma head_elem {A} (l : list A) x : head l = Some x → x ∈ l.
Proof. destruct l; [done|]. intros [= ->]. left. Qed.

Lemma lookup_0_head {A} (l : list A) : l !! 0%nat = head l.
Proof. by destruct l. Qed.

Lemma take_fifo n s f t :
  Z.of_nat n < 2 ^ 32 → lock_refines n s f →
  steps_agree n (raw_step (Take t) s) (fifo_step n (Take t) f).
Proof.
  intros Hn R. pose proof (lock_refines_length _ _ _ R) as Hl. simpl.
  destruct (lr_lookup n s f t R) as [(pc & E & Ht & Hin)|(E & Ht & Hq)]; rewrite E;
    [|by rewrite bool_decide_eq_false_2 by tauto].
  destruct pc; simpl in Hin |- *.
  - rewrite bool_decide_eq_true_2 by done. destruct R. constructor; simpl; try done.
    + by rewrite length_insert.
    + apply NoDup_app. split_and!; [done| |apply NoDup_singleton].
      intros x Hx ->%list_elem_of_singleton. done.
    + intros x [Hx| ->%list_elem_of_singleton]%elem_of_app; auto.
    + rewrite lr_next0, length_app. unfold wrap. rewrite Zplus_mod_idemp_l. f_equal. simpl. lia.
    + intros _ ?%(f_equal length). rewrite length_app in *. simpl in *. lia.
    + intros t' pc [(<- & <- & _)|[Hne E']]%list_lookup_insert_Some.
      * simpl. exists (length (queue f)). split_and!; [by apply list_lookup_middle|done|].
        intros Hq%nil_length_inv. destruct (inside f); [by destruct (lr_inside0 eq_refl)|done].
      * apply pc_in_app; auto.
  - rewrite bool_decide_eq_false_2; [done|]. intros [_ Hq]. destruct Hin as (i & Hi & _).
    apply Hq. by eapply list_elem_of_lookup_2.
  - rewrite bool_decide_eq_false_2; [done|]. intros [_ Hq]. destruct Hin as [Hh _]. by apply Hq, head_elem.
Qed.

(** A waiting thread has the ticket being served iff it is the first. *)
Lemma wait_serving n s f t i :
  Z.of_nat n < 2 ^ 32 → lock_refines n s f → queue f !! i = Some t →
  (u32 (now_serving (raw_lock s) + Z.of_nat i) = now_serving (raw_lock s) ↔ i = 0%nat).
Proof.
  intros Hn R Hi. pose proof (lock_refines_length _ _ _ R) as Hl.
  pose proof (lookup_lt_Some _ _ _ Hi). destruct R. split.
  - intros H'. apply Nat2Z.inj, (u32_add_inj (now_serving (raw_lock s))); [lia|lia|].
    rewrite H', Z.add_0_r. by rewrite wrap_id.
  - intros ->. rewrite Z.add_0_r. by apply wrap_id.
Qed.

Lemma pc_in_enter sv f t t' pc :
  t ≠ t' → head (queue f) = Some t' → pc_in sv f t pc → pc_in sv (Fifo (queue f) true) t pc.
Proof.
  intros Hne Hh. destruct pc; simpl; [done| |by intros [? ?]].
  intros (i & Hi & Hk & H0). exists i. split_and!; [done..|].
  intros ->. rewrite lookup_0_head in Hi. congruence.
Qed.

Lemma spin_fifo n s f t :
  Z.of_nat n < 2 ^ 32 → lock_refines n s f →
  steps_agree n (raw_step (Spin t) s) (fifo_step n (Spin t) f).
Proof.
  intros Hn R. simpl.
  destruct (lr_lookup n s f t R) as [(pc & E & Ht & Hin)|(E & Ht & Hq)]; rewrite E.
  2:{ rewrite !bool_decide_eq_false_2; [done..|]. intros ?%head_elem. done. }
  destruct pc; simpl in Hin |- *.
  - rewrite !bool_decide_eq_false_2; [done..|]. intros ?%head_elem. done.
  - destruct Hin as (i & Hi & -> & H0). pose proof (wait_serving n s f t i Hn R Hi) as Hs.
    case_bool_decide as Hh.
    + assert (i = 0%nat) as ->.
      { apply (NoDup_lookup (queue f) i 0 t); [apply R|done|by rewrite lookup_0_head]. }
      rewrite H0 by done. rewrite (proj2 (Z.eqb_eq _ _)) by (by apply Hs).
      destruct R; constructor; simpl; try done.
      * by rewrite length_insert.
      * intros _ Hq. by rewrite Hq in Hh.
      * intros t' pc [(<- & <- & _)|[Hne E']]%list_lookup_insert_Some; [done|].
        eapply (pc_in_enter _ _ _ t); eauto.
    + rewrite (proj2 (Z.eqb_neq _ _)).
      * rewrite bool_decide_eq_true_2; [done|]. by eapply list_elem_of_lookup_2.
      * intros ->%Hs. by rewrite lookup_0_head in Hi.
  - destruct Hin as [Hh ->]. by rewrite bool_decide_eq_true_2.
Qed.

Lemma release_fifo n s f t :
  Z.of_nat n < 2 ^ 32 → lock_refines n s f →
  steps_agree n (raw_step (Release t) s) (fifo_step n (Release t) f).
Proof.
  intros Hn R. pose proof (lock_refines_length _ _ _ R) as Hl. simpl.
  destruct (lr_lookup n s f t R) as [(pc & E & Ht & Hin)|(E & Ht & Hq)]; rewrite E.
  2:{ rewrite bool_decide_eq_false_2; [done|]. intros ?%head_elem. done. }
  destruct pc; simpl in Hin |- *.
  - rewrite bool_decide_eq_false_2; [done|]. intros ?%head_elem. done.
  - destruct Hin as (i & Hi & _ & H0). case_bool_decide as Hh; [|done]. rewrite H0; [done|].
    apply (NoDup_lookup (queue f) i 0 t); [apply R|done|by rewrite lookup_0_head].
  - destruct Hin as [Hh ->]. rewrite bool_decide_eq_true_2 by done. simpl.
    destruct R. destruct (queue f) as [|h q] eqn:Hq; [done|]. simplify_eq/=.
    apply NoDup_cons in lr_nodup0 as [Hnq Hnd].
    constructor; simpl; try done.
    + by rewrite length_insert.
    + intros x Hx. apply lr_bound0. by right.
    + by apply is_u_wrap.
    + rewrite lr_next0. unfold wrap. rewrite Zplus_mod_idemp_l. f_equal. lia.
    + intros t' pc [(<- & <- & _)|[Hne E']]%list_lookup_insert_Some; [done|].
      change q with (tail (t :: q)). rewrite <- Hq.
      eapply (pc_in_tail _ s f t' t); rewrite ?Hq; eauto.
Qed.

Lemma raw_step_fifo n s f e :
  Z.of_nat n < 2 ^ 32 → lock_refines n s f →
  steps_agree n (raw_step e s) (fifo_step n e f).
Proof. destruct e; eauto using take_fifo, spin_fifo, release_fifo. Qed.

Lemma run_fifo n es s f :
  Z.of_nat n < 2 ^ 32 → lock_refines n s f →
  steps_agree n (run raw_step es s) (run (fifo_step n) es f).
Proof.
  intros Hn. revert s f. induction es as [|e es IH]; intros s f R; [done|].
  cbn [run]. pose proof (raw_step_fifo n s f e Hn R) as H.
  destruct (raw_step e s), (fifo_step n e f); try done. by apply IH.
Qed.

Lemma run_snoc {S} (step : lock_event → S → option S) es e s :
  run step (es ++ [e]) s = (run step es s ≫= step e).
Proof.
  revert s. induction es as [|e' es IH]; intros s; cbn [app run].
  - cbn. by destruct (step e s).
  - destruct (step e' s); [apply IH|done].
Qed.

Lemma hold_unique n s f t t' :
  lock_refines n s f → raw_threads s !! t = Some Hold → raw_threads s !! t' = Some Hold → t = t'.
Proof.
  intros R H H'. apply (lr_pc _ _ _ R) in H, H'. destruct H, H'. congruence.
Qed.

(** * Liveness: endless runs *)

Section liveness.
Context (n : nat) (Hn : Z.of_nat n < 2 ^ 32).
Context (sched : nat → lock_event) (st : nat → raw_system).
Context (Hinit : st 0%nat = raw_init n).
Context (Hstep : ∀ i, raw_step (sched i) (st i) = Some (st (S i))).
(** A thread in the loop of lock keeps running. *)
Context (Hspin : ∀ i t k, raw_threads (st i) !! t = Some (Wait k) →
                          ∃ j, (i ≤ j)%nat ∧ sched j = Spin t).
(** A thread that has the lock comes to unlock. *)
Context (Hrelease : ∀ i t, raw_threads (st i) !! t = Some Hold →
                           ∃ j, (i ≤ j)%nat ∧ sched j = Release t).

(** The thread's place in the queue, at a time of the run. *)
Definition waits_at (i : nat) (t p : nat) : Prop :=
  ∃ f, lock_refines n (st i) f ∧ queue f !! p = Some t ∧ ∃ k, raw_threads (st i) !! t = Some (Wait k).

Lemma reach_refines i : ∃ f, lock_refines n (st i) f.
Proof.
  induction i as [|i [f IH]]; [rewrite Hinit; eauto using lock_refines_init|].
  pose proof (raw_step_fifo n (st i) f (sched i) Hn IH) as H. rewrite Hstep in H.
  destruct (fifo_step n (sched i) f) as [f'|]; [eauto|done].
Qed.

Lemma waits_of i t k : raw_threads (st i) !! t = Some (Wait k) → ∃ p, waits_at i t p.
Proof.
  intros H. destruct (reach_refines i) as [f R].
  destruct (lr_pc _ _ _ R t _ H) as (p & Hp & _). exists p, f. eauto.
Qed.

Lemma wait_first f i t k :
  lock_refines n (st i) f → raw_threads (st i) !! t = Some (Wait k) →
  head (queue f) = Some t → inside f = false.
Proof.
  intros R H Hh. destruct (lr_pc _ _ _ R t _ H) as (p & Hp & _ & H0). apply H0.
  apply (NoDup_lookup (queue f) p 0 t); [apply R|done|by rewrite lookup_0_head].
Qed.

(** A step keeps a waiting thread in the queue or lets it in; a release
    moves it one place forward. *)
Lemma waits_step i t p :
  waits_at i t p →
  raw_threads (st (S i)) !! t = Some Hold ∨
  ∃ p', waits_at (S i) t p' ∧ (p' ≤ p)%nat ∧ ∀ u, sched i = Release u → p = S p'.
Proof.
  intros (f & R & Hp & k & Hk).
  pose proof (raw_step_fifo n (st i) f (sched i) Hn R) as R'. rewrite Hstep in R'.
  destruct (fifo_step n (sched i) f) as [f'|] eqn:F; [|done]. simpl in R'.
  assert (∃ p', queue f' !! p' = Some t ∧ (p' ≤ p)%nat ∧ ∀ u, sched i = Release u → p = S p')
    as (p' & Hp' & Hle & Hrel).
  { destruct (sched i) as [u|u|u] eqn:E; simpl in F.
    - exists p. case_bool_decide; [|done]. simplify_eq/=. split_and!; [by apply lookup_app_l_Some|done|done].
    - exists p. repeat case_bool_decide; destruct (inside f); simplify_eq/=; by split_and!.
    - case_bool_decide as Hh; [|done]. destruct (inside f) eqn:I; simplify_eq/=.
      destruct (queue f) as [|h q] eqn:Q; [done|]. destruct p as [|p]; simplify_eq/=.
      + pose proof (wait_first f i t k R Hk) as W. rewrite Q in W. specialize (W eq_refl). congruence.
      + exists p. split_and!; [done|lia|done]. }
  destruct (lr_lookup n (st (S i)) f' t R') as [(pc & E & _ & Hin)|(_ & _ & Hq)].
  - destruct pc; [|right|by left].
    + destruct Hin. by eapply list_elem_of_lookup_2.
    + exists p'. split_and!; [exists f'; eauto|done|done].
  - destruct Hq. by eapply list_elem_of_lookup_2.
Qed.

Lemma waits_until i j t p :
  (i ≤ j)%nat → waits_at i t p →
  (∃ m, (i ≤ m ≤ j)%nat ∧ raw_threads (st m) !! t = Some Hold) ∨
  ∃ p', waits_at j t p' ∧ (p' ≤ p)%nat.
Proof.
  intros Hij W. induction Hij as [|j Hij [(m & Hm & H)|(p' & W' & Hp)]]; [eauto| |].
  - left. exists m. split; [lia|done].
  - destruct (waits_step j t p' W') as [H|(p'' & W'' & Hp' & _)].
    + left. exists (S j). split; [lia|done].
    + right. exists p''. split; [done|lia].
Qed.

(** The first thread of the queue gets in. *)
Lemma first_enters i t :
  waits_at i t 0 → ∃ j, (i ≤ j)%nat ∧ raw_threads (st j) !! t = Some Hold.
Proof.
  intros W. assert (∃ k, raw_threads (st i) !! t = Some (Wait k)) as [k Hk] by (by destruct W as (? & _ & _ & ?)).
  destruct (Hspin i t k Hk) as (j & Hij & E).
  destruct (waits_until i j t 0 Hij W) as [(m & Hm & H)|(p & W' & Hp)]; [exists m; split; [lia|done]|].
  replace p with 0%nat in W' by lia. destruct W' as (f & R & Hq & k' & Hk').
  exists (S j). split; [lia|]. pose proof (Hstep j) as Hs. rewrite E in Hs. simpl in Hs.
  rewrite Hk' in Hs. destruct (lr_pc _ _ _ R t _ Hk') as (p' & Hp' & -> & _).
  assert (p' = 0%nat) as -> by (apply (NoDup_lookup (queue f) p' 0 t); [apply R|done|done]).
  rewrite (proj2 (Z.eqb_eq _ _)) in Hs by (by apply (wait_serving n (st j) f t 0 Hn R Hq)).
  injection Hs as <-. simpl. apply list_lookup_insert_eq. by eapply lookup_lt_Some.
Qed.

(** Some thread releases the lock while [t] waits. *)
Lemma waits_release i t p :
  waits_at i t p → ∃ j u, (i ≤ j)%nat ∧ sched j = Release u.
Proof.
  intros (f & R & Hp & _). destruct (queue f) as [|h q] eqn:Q; [done|].
  destruct (lr_lookup n (st i) f h R) as [(pc & E & _ & Hin)|(_ & _ & Hq)].
  - destruct pc.
    + destruct Hin. rewrite Q. left.
    + destruct (first_enters i h) as (j & Hj & H); [exists f; rewrite Q; eauto|].
      destruct (Hrelease j h H) as (j' & Hj' & Hr). exists j', h. split; [lia|done].
    + destruct (Hrelease i h E) as (j' & Hj' & Hr). eauto.
  - destruct Hq. rewrite Q. left.
Qed.

Lemma waits_enters p : ∀ i t,
  waits_at i t p → ∃ j, (i ≤ j)%nat ∧ raw_threads (st j) !! t = Some Hold.
Proof.
  induction p as [p IH] using lt_wf_ind. intros i t W.
  destruct (waits_release i t p W) as (j & u & Hij & E).
  destruct (waits_until i j t p Hij W) as [(m & Hm & H)|(p' & W' & Hp)]; [exists m; split; [lia|done]|].
  destruct (waits_step j t p' W') as [H|(p'' & W'' & _ & Hr)]; [exists (S j); split; [lia|done]|].
  specialize (Hr u E). destruct (IH p'' ltac:(lia) (S j) t W'') as (m & Hm & H).
  exists m. split; [lia|done].
Qed.
End liveness.

(** * The properties of the raw lock *)

(** C9: A raw_spinlock used by fewer than 2^32 threads behaves as a queue:
    whatever the interleaving, and through any wrap of the 32-bit tickets,
    the same events are possible as with the abstract lock that lets threads
    in in the order they came, the two words always give the length of the
    queue, and no two threads hold the lock. *)
Theorem raw_spinlock_refines_fifo (n : nat) (es : list lock_event) :
  Z.of_nat n < 2 ^ 32 →
  steps_agree n (run raw_step es (raw_init n)) (run (fifo_step n) es (Fifo [] false)) ∧
  ∀ s t t', run raw_step es (raw_init n) = Some s →
    raw_threads s !! t = Some Hold → raw_threads s !! t' = Some Hold → t = t'.
Proof.
  intros Hn. pose proof (run_fifo n es _ _ Hn (lock_refines_init n)) as R. split; [done|].
  intros s t t' E. rewrite E in R.
  destruct (run (fifo_step n) es (Fifo [] false)); [|done]. by eapply hold_unique.
Qed.

(** C18: Every thread that waits for a raw_spinlock gets it, in any endless
    run of fewer than 2^32 threads in which the threads in the loop of lock
    keep running and the holders come to unlock. *)
Theorem raw_spinlock_liveness (n : nat) (sched : nat → lock_event) (st : nat → raw_system) :
  Z.of_nat n < 2 ^ 32 → st 0%nat = raw_init n →
  (∀ i, raw_step (sched i) (st i) = Some (st (S i))) →
  (∀ i t k, raw_threads (st i) !! t = Some (Wait k) → ∃ j, (i ≤ j)%nat ∧ sched j = Spin t) →
  (∀ i t, raw_threads (st i) !! t = Some Hold → ∃ j, (i ≤ j)%nat ∧ sched j = Release t) →
  ∀ i t k, raw_threads (st i) !! t = Some (Wait k) →
  ∃ j, (i ≤ j)%nat ∧ raw_threads (st j) !! t = Some Hold.
Proof.
  intros Hn Hi Hs Hsp Hr i t k H. destruct (waits_of n Hn sched st Hi Hs i t k H) as [p W].
  by eapply (waits_enters n Hn sched st).
Qed.

Lemma raw_spinlock_refines_fifo_witness :
  ∃ s, run raw_step [Take 1; Take 0; Spin 0; Spin 1; Release 1; Spin 0] (raw_init 2) = Some s ∧
       raw_threads s = [Hold; Out] ∧ ∀ t, raw_threads s !! t = Some Hold → t = 0%nat.
Proof.
  destruct (raw_spinlock_refines_fifo 2 [Take 1; Take 0; Spin 0; Spin 1; Release 1; Spin 0])
    as [_ H]; [lia|].
  eexists. split; [reflexivity|]. split; [reflexivity|]. intros t Ht.
  by apply (H (RawSystem (Spinlock 2 1) [Hold; Out]) t 0%nat).
Defined.

(** One thread that takes and releases the lock over and over. *)
Definition lone_sched (i : nat) : lock_event :=
  match (i mod 3)%nat with 0%nat => Take 0 | 1%nat => Spin 0 | _ => Release 0 end.

Definition lone_state (i : nat) : raw_system :=
  let k := Z.of_nat (i / 3) in
  match (i mod 3)%nat with
  | 0%nat => RawSystem (Spinlock (u32 k) (u32 k)) [Out]
  | 1%nat => RawSystem (Spinlock (u32 (k + 1)) (u32 k)) [Wait (u32 k)]
  | _ => RawSystem (Spinlock (u32 (k + 1)) (u32 k)) [Hold]
  end.

Lemma lone_mod i :
  (i mod 3 = 0 ∧ S i mod 3 = 1 ∧ S i / 3 = i / 3)%nat ∨
  (i mod 3 = 1 ∧ S i mod 3 = 2 ∧ S i / 3 = i / 3)%nat ∨
  (i mod 3 = 2 ∧ S i mod 3 = 0 ∧ S i / 3 = S (i / 3))%nat.
Proof.
  pose proof (Nat.div_mod_eq i 3). pose proof (Nat.div_mod_eq (S i) 3).
  pose proof (Nat.mod_upper_bound i 3). pose proof (Nat.mod_upper_bound (S i) 3). lia.
Qed.

Lemma lone_step i : raw_step (lone_sched i) (lone_state i) = Some (lone_state (S i)).
Proof.
  unfold lone_sched, lone_state.
  destruct (lone_mod i) as [(-> & -> & ->)|[(-> & -> & ->)|(-> & -> & ->)]];
    rewrite ?Nat2Z.inj_succ; simpl.
  - unfold create_ticket, wrap; simpl. by rewrite Zplus_mod_idemp_l.
  - by rewrite Z.eqb_refl.
  - unfold release_ticket, wrap; simpl. rewrite Zplus_mod_idemp_l.
    done.
Qed.

Lemma lone_soon i m e :
  (m < 3)%nat → (∀ j, (j mod 3 = m)%nat → lone_sched j = e) → ∃ j, (i ≤ j)%nat ∧ lone_sched j = e.
Proof.
  intros Hm He. exists (3 * i + m)%nat. split; [lia|]. apply He.
  rewrite Nat.mul_comm, Nat.add_comm, Nat.Div0.mod_add. by apply Nat.mod_small.
Qed.

Lemma raw_spinlock_liveness_witness :
  ∃ j, (4 ≤ j)%nat ∧ raw_threads (lone_state j) !! 0%nat = Some Hold.
Proof.
  apply (raw_spinlock_liveness 1 lone_sched lone_state) with (k := 1).
  - lia.
  - reflexivity.
  - exact lone_step.
  - intros i [|t] k H.
    + apply (lone_soon i 1); [lia|]. intros j Hj. unfold lone_sched. by rewrite Hj.
    + unfold lone_state in H. by destruct (i mod 3)%nat as [|[|?]].
  - intros i [|t] H.
    + apply (lone_soon i 2); [lia|]. intros j Hj. unfold lone_sched. by rewrite Hj.
    + unfold lone_state in H. by destruct (i mod 3)%nat as [|[|?]].
  - reflexivity.
Defined.

(** * try_lock *)

Lemma x86_try_acquire l :
  is_u 32 (next_ticket l) → is_u 32 (now_serving l) →
  try_lock l = if u32 (now_serving l - 1) =? next_ticket l
               then (true, Spinlock (now_serving l) (now_serving l))
               else (next_ticket l =? now_serving l, l).
Proof.
  intros Hn Hs. unfold try_lock, try_acquire_ticket. rewrite wrap_min by lia.
  destruct (u32 (now_serving l - 1) =? next_ticket l).
  - rewrite (wrap_id 32 (now_serving l)) by done. f_equal. apply Z.eqb_eq.
    assert (u64 (u64 (now_serving l - 1) + 1) = u64 (now_serving l)) as ->.
    { unfold wrap. rewrite Zplus_mod_idemp_l. f_equal. lia. }
    rewrite wrap_min by lia. by apply wrap_id.
  - by rewrite (wrap_id 32 (next_ticket l)).
Qed.

(** try_lock on a lock with [w] threads in its queue: on AArch64 it
    takes the next ticket if the queue is empty and otherwise changes nothing
    and says no.  On x86-64 it also says no on a lock in use, but on a free
    lock it says yes without taking a ticket, so that the next thread to call
    lock finds its ticket being served: both are inside. *)
Theorem try_lock_spec (l : spinlock) (w : Z) :
  is_u 32 (now_serving l) → 0 ≤ w < 2 ^ 32 - 1 → next_ticket l = u32 (now_serving l + w) →
  arm_try_lock l = (if w =? 0 then (true, Spinlock (u32 (next_ticket l + 1)) (now_serving l))
                    else (false, l)) ∧
  try_lock l = (w =? 0, l) ∧
  (w = 0 → fst (create_ticket (snd (try_lock l))) = now_serving (snd (try_lock l))).
Proof.
  intros Hs Hw Hn.
  assert (next_ticket l = now_serving l ↔ w = 0) as H0.
  { rewrite Hn. split; [|intros ->; rewrite Z.add_0_r; by apply wrap_id].
    intros H. apply (u32_add_inj (now_serving l)); [lia|lia|].
    rewrite H, Z.add_0_r. by rewrite wrap_id. }
  assert (try_lock l = (w =? 0, l)) as T.
  { rewrite x86_try_acquire; [|rewrite Hn; by apply is_u_wrap|done].
    rewrite (proj2 (Z.eqb_neq _ _)).
    - f_equal. destruct (Z.eqb_spec w 0); [apply Z.eqb_eq|apply Z.eqb_neq]; tauto.
    - rewrite Hn. replace (now_serving l - 1) with (now_serving l + 2 ^ 32 - 1 - 2 ^ 32) by lia.
      unfold wrap at 1. rewrite <- (Z.mod_add _ 1) by lia.
      replace (now_serving l + 2 ^ 32 - 1 - 2 ^ 32 + 1 * 2 ^ 32) with (now_serving l + (2 ^ 32 - 1)) by lia.
      intros H%u32_add_inj; lia. }
  split; [|split; [done|]].
  - unfold arm_try_lock, arm_try_acquire_ticket. destruct (Z.eqb_spec w 0) as [->|Hne].
    + rewrite (proj2 (Z.eqb_eq _ _)) by tauto. by rewrite (proj2 H0).
    + by rewrite (proj2 (Z.eqb_neq _ _)) by tauto.
  - intros ->. rewrite T. simpl. by apply H0.
Qed.

Lemma try_lock_spec_witness :
  try_lock new_spinlock = (true, new_spinlock) ∧
  arm_try_lock new_spinlock = (true, Spinlock 1 0) ∧
  try_lock (Spinlock 0 (2 ^ 32 - 1)) = (false, Spinlock 0 (2 ^ 32 - 1)).
Proof.
  split; [|split].
  - apply (try_lock_spec new_spinlock 0); [done|lia|reflexivity].
  - apply (try_lock_spec new_spinlock 0); [done|lia|reflexivity].
  - apply (try_lock_spec (Spinlock 0 (2 ^ 32 - 1)) 1); [done|lia|reflexivity].
Defined.
