(* ===== verification/HwSpinlock.v ===== *)
(** hw_spinlock: the ticket lock of Spinlock.v with the interrupts of the
    CPU turned off from the call of lock to the return of unlock.

    critical_section is the object that remembers whether the interrupts
    were on; hw_spinlock keeps the one of its holder in the shared field
    [cli], which only the lock itself protects.  The steps of [hw_step] are
    the accesses to shared memory and the changes of the interrupt flag. *)
From S2P Require Import Prelude Spinlock.

Local Open Scope Z_scope.

(** * critical_section *)

Record critical_section := CS { entered : bool; activated : bool; was_activated : bool }.

(** The interrupt flag [iflag] of the CPU is true when interrupts are on. *)
Definition has_interrupts_disabled (iflag : bool) : bool := negb iflag.

Definition cs_construct (enter iflag : bool) : critical_section * bool :=
  if enter then
    if has_interrupts_disabled iflag then (CS true true true, false) else (CS true true false, false)
  else
    if has_interrupts_disabled iflag then (CS false true true, iflag) else (CS false false false, iflag).

Definition cs_destroy (cs : critical_section) (iflag : bool) : critical_section * bool :=
  if entered cs then
    let '(cs, iflag) :=
      if activated cs && negb (was_activated cs) then (CS true false (was_activated cs), true)
      else if negb (activated cs) && was_activated cs then (CS true true (was_activated cs), false)
      else (cs, iflag) in
    (CS false (activated cs) (was_activated cs), iflag)
  else (cs, iflag).

Definition cs_enter (cs : critical_section) (iflag : bool) : critical_section * bool :=
  (CS true true (was_activated cs), false).

Definition cs_leave (cs : critical_section) (iflag : bool) : critical_section * bool :=
  (CS true false (was_activated cs), true).

(** critical_section_host: the object moves in and out of the lock; the
    results are the host and the other object. *)
Definition host_assign (mv : critical_section) : critical_section * critical_section :=
  (mv, CS false (activated mv) (was_activated mv)).

Definition host_extract (host : critical_section) : critical_section * critical_section :=
  (CS false (activated host) (was_activated host), host).

(** * hw_spinlock *)

Inductive hw_pc :=
| HwIdle
| HwEntered (cli : critical_section)
| HwSpinning (cli : critical_section) (ticket : Z)
| HwGot (cli : critical_section)
| HwHeld
| HwExtracted (cli : critical_section)
| HwReleased (cli : critical_section).

(** [before] is a history variable: the flag as the code outside the lock
    last set it. *)
Record cpu := Cpu { iflag : bool; before : bool; hpc : hw_pc }.

Record hw_system := HwSystem {
  hw_words : spinlock;
  hw_cli : critical_section;
  hw_cpus : list cpu
}.

Inductive hw_event :=
| HwSetFlag (t : nat) (b : bool)   (* sti or cli outside the lock *)
| HwEnter (t : nat)                (* lock: critical_section cli{} *)
| HwTake (t : nat)                 (* lock: create_ticket *)
| HwSpin (t : nat)                 (* lock: the loop *)
| HwMove (t : nat)                 (* lock: this->cli = std::move(cli) *)
| HwExtract (t : nat)              (* unlock: this->cli.extract(cli) *)
| HwReleaseTicket (t : nat)        (* unlock: release_ticket *)
| HwRestore (t : nat).             (* unlock: the end of cli's life *)

Definition hw_cpu (e : hw_event) : nat :=
  match e with
  | HwSetFlag t _ | HwEnter t | HwTake t | HwSpin t | HwMove t
  | HwExtract t | HwReleaseTicket t | HwRestore t => t
  end.

(** The step of one CPU, on its own state and the shared words. *)
Definition hw_cpu_step (e : hw_event) (l : spinlock) (host : critical_section) (c : cpu)
    : option (spinlock * critical_section * cpu) :=
  match e, hpc c with
  | HwSetFlag _ b, HwIdle => Some (l, host, Cpu b b HwIdle)
  | HwEnter _, HwIdle =>
    let '(cli, f) := cs_construct true (iflag c) in
    Some (l, host, Cpu f (before c) (HwEntered cli))
  | HwTake _, HwEntered cli =>
    let '(ticket, l) := create_ticket l in
    Some (l, host, Cpu (iflag c) (before c) (HwSpinning cli ticket))
  | HwSpin _, HwSpinning cli ticket =>
    if ticket =? now_serving l
    then Some (l, host, Cpu (iflag c) (before c) (HwGot cli))
    else Some (l, host, c)
  | HwMove _, HwGot cli =>
    let '(host, cli) := host_assign cli in
    let '(_, f) := cs_destroy cli (iflag c) in
    Some (l, host, Cpu f (before c) HwHeld)
  | HwExtract _, HwHeld =>
    let '(_, f) := cs_construct false (iflag c) in
    let '(host, cli) := host_extract host in
    Some (l, host, Cpu f (before c) (HwExtracted cli))
  | HwReleaseTicket _, HwExtracted cli =>
    Some (release_ticket l, host, Cpu (iflag c) (before c) (HwReleased cli))
  | HwRestore _, HwReleased cli =>
    let '(_, f) := cs_destroy cli (iflag c) in
    Some (l, host, Cpu f (before c) HwIdle)
  | _, _ => None
  end.

Definition hw_step (e : hw_event) (s : hw_system) : option hw_system :=
  c ← hw_cpus s !! hw_cpu e;
  '(l, host, c) ← hw_cpu_step e (hw_words s) (hw_cli s) c;
  Some (HwSystem l host (<[hw_cpu e := c]> (hw_cpus s))).

Fixpoint hw_run (es : list hw_event) (s : hw_system) : option hw_system :=
  match es with
  | [] => Some s
  | e :: es => s' ← hw_step e s; hw_run es s'
  end.

(** The CPUs start outside the lock, with their interrupt flags. *)
Definition hw_init (host : critical_section) (flags : list bool) : hw_system :=
  HwSystem new_spinlock host ((λ b, Cpu b b HwIdle) <$> flags).

(** * The ticket lock below *)

Definition abs_pc (pc : hw_pc) : lock_pc :=
  match pc with
  | HwIdle | HwEntered _ | HwReleased _ => Out
  | HwSpinning _ ticket => Wait ticket
  | HwGot _ | HwHeld | HwExtracted _ => Hold
  end.

Definition abs_hw (s : hw_system) : raw_system :=
  RawSystem (hw_words s) (abs_pc ∘ hpc <$> hw_cpus s).

Definition abs_event (e : hw_event) : option lock_event :=
  match e with
  | HwTake t => Some (Take t)
  | HwSpin t => Some (Spin t)
  | HwReleaseTicket t => Some (Release t)
  | _ => None
  end.

Lemma hw_step_inv e s s' :
  hw_step e s = Some s' →
  ∃ c l host c', hw_cpus s !! hw_cpu e = Some c ∧
    hw_cpu_step e (hw_words s) (hw_cli s) c = Some (l, host, c') ∧
    s' = HwSystem l host (<[hw_cpu e := c']> (hw_cpus s)).
Proof.
  unfold hw_step. destruct (hw_cpus s !! hw_cpu e) as [c|]; [|done]. cbn [mbind option_bind].
  destruct (hw_cpu_step _ _ _ c) as [[[l host] c']|] eqn:E; [|done]. intros [= <-]. eauto 10.
Qed.

(** Each step is a step of the ticket lock or none. *)
Lemma hw_step_raw e s s' :
  hw_step e s = Some s' →
  match abs_event e with
  | Some e' => raw_step e' (abs_hw s) = Some (abs_hw s')
  | None => abs_hw s' = abs_hw s
  end.
Proof.
  intros (c & l & host & c' & Hc & Hs & ->)%hw_step_inv. destruct c as [f b pc].
  destruct e, pc, f; simplify_eq/=; unfold abs_hw; simpl;
    rewrite ?list_lookup_fmap, ?Hc; simpl; try case_match; simplify_eq/=;
    rewrite ?list_fmap_insert; simpl; try done.
  all: f_equal; try apply list_insert_id; rewrite ?list_lookup_fmap, ?Hc; try done.
  all: f_equal; symmetry; apply list_insert_id; by rewrite list_lookup_fmap, Hc.
Qed.

(** The object a CPU in the lock needs to get its flag back, and where it is. *)
Definition saved (c : cpu) : critical_section := CS true true (negb (before c)).

Definition cpu_ok (host : critical_section) (c : cpu) : Prop :=
  match hpc c with
  | HwIdle => iflag c = before c
  | HwHeld => iflag c = false ∧ host = saved c
  | HwEntered cli | HwSpinning cli _ | HwGot cli | HwExtracted cli | HwReleased cli =>
    iflag c = false ∧ cli = saved c
  end.

Record hw_inv (n : nat) (s : hw_system) : Prop := {
  hi_lock : ∃ f, lock_refines n (abs_hw s) f;
  hi_cpus : ∀ t c, hw_cpus s !! t = Some c → cpu_ok (hw_cli s) c
}.

Lemma hw_cpu_ok e l host c l' host' c' :
  hw_cpu_step e l host c = Some (l', host', c') → cpu_ok host c → cpu_ok host' c'.
Proof.
  destruct c as [f b pc]. unfold cpu_ok, saved.
  destruct e, pc; simpl; intros H Hok; try done; destruct_and?; simplify_eq/=;
    destruct b; try case_match; simplify_eq/=; try done; unfold cs_destroy in *; by simplify_eq/=.
Qed.

(** The shared object changes only in the hands of the holder. *)
Lemma hw_host_holder e l host c l' host' c' :
  hw_cpu_step e l host c = Some (l', host', c') → host' = host ∨ abs_pc (hpc c) = Hold.
Proof.
  destruct c as [f b pc]. destruct e, pc; simpl; intros H; try done; auto; left;
    repeat case_match; by simplify_eq/=.
Qed.

Lemma abs_lookup s t c : hw_cpus s !! t = Some c → raw_threads (abs_hw s) !! t = Some (abs_pc (hpc c)).
Proof. intros H. simpl. by rewrite list_lookup_fmap, H. Qed.

Lemma cpu_ok_other host host' c :
  cpu_ok host c → host' = host ∨ abs_pc (hpc c) ≠ Hold → cpu_ok host' c.
Proof. destruct c as [f b pc]. intros H [->|Hne]; [done|]. by destruct pc. Qed.

Lemma hw_step_inv_keeps n e s s' :
  Z.of_nat n < 2 ^ 32 → hw_inv n s → hw_step e s = Some s' → hw_inv n s'.
Proof.
  intros Hn [[f R] Hok] Hs. constructor.
  - pose proof (hw_step_raw e s s' Hs) as H. destruct (abs_event e) as [e'|].
    + pose proof (raw_step_fifo n _ f e' Hn R) as R'. rewrite H in R'.
      destruct (fifo_step n e' f); [eauto|done].
    + rewrite H. eauto.
  - apply hw_step_inv in Hs as (c & l & host & c' & Hc & Hs & ->). simpl.
    intros t d [(<- & <- & _)|[Hne Hd]]%list_lookup_insert_Some.
    + eapply hw_cpu_ok; eauto.
    + apply (cpu_ok_other (hw_cli s)); [eauto|].
      destruct (hw_host_holder _ _ _ _ _ _ _ Hs) as [->|Hh]; [by left|right]. intros Hd'.
      apply Hne. apply abs_lookup in Hc, Hd. rewrite Hh in Hc. rewrite Hd' in Hd.
      eapply hold_unique; eauto.
Qed.

Lemma hw_inv_init host flags : hw_inv (length flags) (hw_init host flags).
Proof.
  constructor.
  - exists (Fifo [] false). unfold abs_hw, hw_init. simpl.
    replace (abs_pc ∘ hpc <$> ((λ b, Cpu b b HwIdle) <$> flags)) with (replicate (length flags) Out);
      [apply lock_refines_init|].
    induction flags; simpl; [done|by f_equal].
  - simpl. intros t c (b & -> & _)%list_lookup_fmap_Some. done.
Qed.

Lemma hw_run_inv n es s s' :
  Z.of_nat n < 2 ^ 32 → hw_inv n s → hw_run es s = Some s' → hw_inv n s'.
Proof.
  intros Hn. revert s. induction es as [|e es IH]; intros s I; cbn [hw_run]; [by intros [= <-]|].
  destruct (hw_step e s) eqn:E; [|done]. apply IH. by eapply hw_step_inv_keeps.
Qed.

(** The events of the ticket lock in a run. *)
Lemma hw_run_raw es s s' :
  hw_run es s = Some s' → run raw_step (omap abs_event es) (abs_hw s) = Some (abs_hw s').
Proof.
  revert s. induction es as [|e es IH]; intros s; cbn [hw_run omap list_omap]; [by intros [= <-]|].
  destruct (hw_step e s) as [s1|] eqn:E; [|done]. intros H%IH. apply hw_step_raw in E.
  destruct (abs_event e); cbn [run].
  - by rewrite E.
  - by rewrite <- E.
Qed.

(** C11: hw_spinlock on fewer than 2^32 CPUs, in every interleaving: its runs
    are runs of the ticket lock; at most one CPU is between getting the lock
    and releasing it; a CPU has its interrupts off from the call of lock to
    the end of unlock, and outside it has the flag it had before, although
    the object that remembers the flag is in the shared field of the lock. *)
Theorem hw_spinlock_safe (host : critical_section) (flags : list bool) (es : list hw_event) (s : hw_system) :
  Z.of_nat (length flags) < 2 ^ 32 → hw_run es (hw_init host flags) = Some s →
  run raw_step (omap abs_event es) (raw_init (length flags)) = Some (abs_hw s) ∧
  (∀ t t' c c', hw_cpus s !! t = Some c → hw_cpus s !! t' = Some c' →
     abs_pc (hpc c) = Hold → abs_pc (hpc c') = Hold → t = t') ∧
  ∀ t c, hw_cpus s !! t = Some c →
    match hpc c with HwIdle => iflag c = before c | _ => iflag c = false end.
Proof.
  intros Hn Hr. destruct (hw_run_inv _ _ _ _ Hn (hw_inv_init host flags) Hr) as [[f R] Hok].
  split; [|split].
  - apply hw_run_raw in Hr. rewrite <- Hr. f_equal. unfold abs_hw, hw_init, raw_init. simpl.
    f_equal. clear. induction flags; simpl; [done|by f_equal].
  - intros t t' c c' Hc Hc' Hh Hh'. apply abs_lookup in Hc, Hc'. rewrite Hh in Hc. rewrite Hh' in Hc'.
    eapply hold_unique; eauto.
  - intros t c Hc. specialize (Hok t c Hc). unfold cpu_ok in Hok. by destruct (hpc c); try destruct Hok.
Qed.

(** Two CPUs: the second one gets the lock first. *)
Definition two_cpus : list hw_event :=
  [HwEnter 0; HwEnter 1; HwTake 1; HwTake 0; HwSpin 0; HwSpin 1; HwMove 1; HwExtract 1;
   HwReleaseTicket 1; HwSpin 0; HwMove 0; HwRestore 1].

Lemma hw_spinlock_safe_witness :
  hw_run two_cpus (hw_init (CS false false false) [true; true]) =
    Some (HwSystem (Spinlock 2 1) (CS true true false) [Cpu false true HwHeld; Cpu true true HwIdle]) ∧
  run raw_step (omap abs_event two_cpus) (raw_init 2) = Some (RawSystem (Spinlock 2 1) [Hold; Out]).
Proof.
  assert (hw_run two_cpus (hw_init (CS false false false) [true; true]) =
    Some (HwSystem (Spinlock 2 1) (CS true true false) [Cpu false true HwHeld; Cpu true true HwIdle]))
    as H by (vm_compute; reflexivity).
  split; [exact H|].
  refine (proj1 (hw_spinlock_safe (CS false false false) [true; true] two_cpus _ _ H)).
  cbn [length]. lia.
Defined.
