(* ===== verification/Task.v ===== *)
(** Tasks of the scheduler (include/core/scheduler.h, class task and struct
    task_bits) with the register state an interrupt saves
    (kernel/arch/x86_64/include/interrupt_frame.h).

    A task is a record with the address [ptr] of its object; resources and
    callbacks are known by their addresses. *)
From S2P Require Import Prelude.

(** * Register state *)

Record InterruptCpuFrame := CpuFrame {
  error_code : Z; rip : Z; cs : Z; rflags : Z; rsp : Z; ss : Z
}.

Record InterruptStackFrame := StackFrame {
  ds : Z; es : Z; fs : Z; gs : Z; fsbase : Z;
  r15 : Z; r14 : Z; r13 : Z; r12 : Z; r11 : Z; r10 : Z; r9 : Z; r8 : Z;
  rsi : Z; rdi : Z; rbp : Z; rdx : Z; rcx : Z; rbx : Z; rax : Z
}.

(** The fields the code sets by name; [fpu_rest] are the words of the others. *)
Record x86_fpu_state := FpuState {
  fcw : Z; mxcsr : Z; mxcsr_mask : Z; fpu_rest : list Z
}.

Record Interrupt := Intr {
  i_cpu_frame : InterruptCpuFrame;
  i_frame : InterruptStackFrame;
  i_fpu : x86_fpu_state
}.

Definition set_cpu_frame (i : Interrupt) (frame : InterruptCpuFrame) : Interrupt :=
  Intr (CpuFrame (error_code (i_cpu_frame i)) (rip frame) (cs frame) (rflags frame) (rsp frame) (ss frame))
       (i_frame i) (i_fpu i).

(** * Tasks *)

Definition PRIO_GROUP_IDLE : Z := 0.
Definition PRIO_GROUP_LOW : Z := 1.
Definition PRIO_GROUP_NORMAL : Z := 2.
Definition PRIO_GROUP_REALTIME : Z := 3.

Definition MAX_POINTS : Z := 31.
Definition MAX_RESOURCES : Z := 7.

Record task_bits := TaskBits {
  blocked_by : Z;
  priority_group : Z;
  running : bool;
  blocked : bool;
  end_ : bool;
  stack_quarantine : bool;
  cpu_pinned : bool;
  cpu : Z;
  points : Z;
  resources : Z;
  id : Z;
  working_for_task_id : Z
}.

Definition new_bits (prio : Z) : task_bits :=
  TaskBits 0 prio false true false false false 0 0 0 0 0.

(** The objects that wait for events.  The first argument is the id of the
    task they belong to. *)
Inductive handler_kind :=
| task_join_handler (current_task_id other_task_id : Z)
| task_nanos_handler (current_task_id wakeup_time : Z)
| task_timer100hz_handler (current_task_id wakeup_time : Z)
| task_timeout100hz_handler (current_task_id wakeup_time callback : Z)
| task_mutex_handler (current_task_id lockaddr ticket_number : Z)
| task_semaphore_handler (current_task_id lockaddr ticket_number : Z).

Record task_event_handler := Handler { eh_ptr : Z; eh_kind : handler_kind }.

Record task := Task {
  ptr : Z;
  cpu_frame : InterruptCpuFrame;
  cpu_state : InterruptStackFrame;
  fpu_sse_state : x86_fpu_state;
  bits : task_bits;
  task_resources : list Z;
  event_handlers : list task_event_handler;
  do_when_not_running : list Z;
  name : list Z
}.

Definition zero_cpu_frame : InterruptCpuFrame := CpuFrame 0 0 0 0 0 0.
Definition zero_stack_frame : InterruptStackFrame :=
  StackFrame 0 0 0 0 0 0 0 0 0 0 0 0 0 0 0 0 0 0 0 0.
Definition zero_fpu : x86_fpu_state := FpuState 0 0 0 [].

(* "[]" *)
Definition no_name : list Z := [91; 93].

(** The constructors of task; [p] is the address new returns. *)
Definition make_task (p : Z) (cf : InterruptCpuFrame) (sf : InterruptStackFrame) (fpu : x86_fpu_state)
    (rs : list Z) : task :=
  Task p cf sf fpu (new_bits PRIO_GROUP_NORMAL) rs [] [] no_name.

Definition make_idle_task (p : Z) : task :=
  make_task p zero_cpu_frame zero_stack_frame zero_fpu [].

(** * The name of what blocks a task, in eight bytes

    A char is an 8-bit signed integer. *)

Definition s8 (x : Z) : Z := u8 (x + 128) - 128.

Fixpoint pack_str (i : nat) (str : list Z) : Z :=
  match str with
  | [] => 0
  | c :: str =>
    if (8 <=? i)%nat then 0
    else if c =? 0 then 0
    else Z.lor (u64 (Z.shiftl (u64 c) (8 * Z.of_nat i))) (pack_str (S i) str)
  end.

(** [n] is the number of bytes that are left. *)
Fixpoint unpack_str (n : nat) (strint : Z) : list Z :=
  match n with
  | O => []
  | S n =>
    let ch := Z.land (Z.shiftr strint (8 * (8 - Z.of_nat (S n)))) 0xFF in
    if ch =? 0 then [] else s8 ch :: unpack_str n strint
  end.

Definition get_64bit_str (str : list Z) : Z := pack_str 0 str.

Definition str_of_64bit (strint : Z) : list Z := unpack_str 8 strint.

(** * Setters *)

Definition with_bits (t : task) (b : task_bits) : task :=
  Task (ptr t) (cpu_frame t) (cpu_state t) (fpu_sse_state t) b (task_resources t) (event_handlers t)
       (do_when_not_running t) (name t).

Definition with_handlers (t : task) (hs : list task_event_handler) : task :=
  Task (ptr t) (cpu_frame t) (cpu_state t) (fpu_sse_state t) (bits t) (task_resources t) hs
       (do_when_not_running t) (name t).

Definition set_blocked (n : list Z) (v : bool) (t : task) : task :=
  let b := bits t in
  with_bits t (TaskBits (get_64bit_str n) (priority_group b) (running b) v (end_ b) (stack_quarantine b)
                        (cpu_pinned b) (cpu b) (points b) (resources b) (id b) (working_for_task_id b)).

Definition set_cpu (v : Z) (t : task) : task :=
  let b := bits t in
  with_bits t (TaskBits (blocked_by b) (priority_group b) (running b) (blocked b) (end_ b) (stack_quarantine b)
                        (cpu_pinned b) v (points b) (resources b) (id b) (working_for_task_id b)).

Definition set_priority_group (v : Z) (t : task) : task :=
  let b := bits t in
  with_bits t (TaskBits (blocked_by b) v (running b) (blocked b) (end_ b) (stack_quarantine b)
                        (cpu_pinned b) (cpu b) (points b) (resources b) (id b) (working_for_task_id b)).

Definition set_points (v : Z) (t : task) : task :=
  let b := bits t in
  with_bits t (TaskBits (blocked_by b) (priority_group b) (running b) (blocked b) (end_ b) (stack_quarantine b)
                        (cpu_pinned b) (cpu b) (if v <=? MAX_POINTS then v else MAX_POINTS) (resources b) (id b)
                        (working_for_task_id b)).

Definition set_end (v : bool) (t : task) : task :=
  let b := bits t in
  with_bits t (TaskBits (blocked_by b) (priority_group b) (running b) (blocked b) v (stack_quarantine b)
                        (cpu_pinned b) (cpu b) (points b) (resources b) (id b) (working_for_task_id b)).

Definition set_id (v : Z) (t : task) : task :=
  let b := bits t in
  with_bits t (TaskBits (blocked_by b) (priority_group b) (running b) (blocked b) (end_ b) (stack_quarantine b)
                        (cpu_pinned b) (cpu b) (points b) (resources b) v (working_for_task_id b)).

Definition set_working_for_task_id (v : Z) (t : task) : task :=
  let b := bits t in
  with_bits t (TaskBits (blocked_by b) (priority_group b) (running b) (blocked b) (end_ b) (stack_quarantine b)
                        (cpu_pinned b) (cpu b) (points b) (resources b) (id b) v).

Definition set_stack_quarantine (v : bool) (t : task) : task :=
  let b := bits t in
  with_bits t (TaskBits (blocked_by b) (priority_group b) (running b) (blocked b) (end_ b) v
                        (cpu_pinned b) (cpu b) (points b) (resources b) (id b) (working_for_task_id b)).

Definition set_cpu_pinned (v : bool) (t : task) : task :=
  let b := bits t in
  with_bits t (TaskBits (blocked_by b) (priority_group b) (running b) (blocked b) (end_ b) (stack_quarantine b)
                        v (cpu b) (points b) (resources b) (id b) (working_for_task_id b)).

Definition set_running_bit (v : bool) (t : task) : task :=
  let b := bits t in
  with_bits t (TaskBits (blocked_by b) (priority_group b) v (blocked b) (end_ b) (stack_quarantine b)
                        (cpu_pinned b) (cpu b) (points b) (resources b) (id b) (working_for_task_id b)).

(** [res_acq] is an 8-bit signed integer. *)
Definition resource_acq (res_acq : Z) (t : task) : task :=
  let b := bits t in
  let res_acq := s8 (res_acq + resources b) in
  let res_acq := if res_acq <? 0 then 0 else res_acq in
  let res_acq := if MAX_RESOURCES <? res_acq then MAX_RESOURCES else res_acq in
  with_bits t (TaskBits (blocked_by b) (priority_group b) (running b) (blocked b) (end_ b) (stack_quarantine b)
                        (cpu_pinned b) (cpu b) (points b) res_acq (id b) (working_for_task_id b)).

Definition set_name (n : list Z) (t : task) : task :=
  Task (ptr t) (cpu_frame t) (cpu_state t) (fpu_sse_state t) (bits t) (task_resources t) (event_handlers t)
       (do_when_not_running t) n.

Definition save_state (i : Interrupt) (t : task) : task :=
  Task (ptr t) (i_cpu_frame i) (i_frame i) (i_fpu i) (bits t) (task_resources t) (event_handlers t)
       (do_when_not_running t) (name t).

Definition restore_state (i : Interrupt) (t : task) : Interrupt :=
  Intr (i_cpu_frame (set_cpu_frame i (cpu_frame t))) (cpu_state t) (fpu_sse_state t).

Definition add_event_handler (eh : task_event_handler) (t : task) : task :=
  with_handlers t (event_handlers t ++ [eh]).

Fixpoint erase_handler (p : Z) (hs : list task_event_handler) : option (list task_event_handler) :=
  match hs with
  | [] => None
  | h :: hs => if eh_ptr h =? p then Some hs else cons h <$> erase_handler p hs
  end.

(** Whether the handler was there, and the task without it. *)
Definition remove_event_handler (p : Z) (t : task) : bool * task :=
  match erase_handler p (event_handlers t) with
  | Some hs => (true, with_handlers t hs)
  | None => (false, t)
  end.

(** Functions to call when the task does not run. *)
Definition push_when_not_running (f : Z) (t : task) : task :=
  Task (ptr t) (cpu_frame t) (cpu_state t) (fpu_sse_state t) (bits t) (task_resources t) (event_handlers t)
       (do_when_not_running t ++ [f]) (name t).

Definition clear_when_not_running (t : task) : task :=
  Task (ptr t) (cpu_frame t) (cpu_state t) (fpu_sse_state t) (bits t) (task_resources t) (event_handlers t)
       [] (name t).
