(* ===== verification/Tasklist.v ===== *)
(** The scheduler (kernel/tasks/tasklist.cpp): the list of tasks, the events
    that wake them, the choice of the task a CPU runs next, and the end of
    tasks.

    Each operation that holds the scheduler's lock is one function on the
    state.  [this_cpu] is the number of the CPU that runs the code.  Calls of
    functions and task_resource objects that other parts of the kernel
    register are recorded in [actions] in the order they are made.  The
    callback of a timeout, which releases the semaphore of a
    waiting_mul_semaphore and so raises another event, is run. *)
From S2P Require Import Prelude Task.

(** * State *)

Inductive action :=
| task_enter (resource task_ptr cpu_num : Z)
| task_leave (resource : Z)
| call_function (f : Z)
| delete_task (task_ptr : Z).

Record event_call := EventCall { ev_v0 : Z; ev_v1 : Z; ev_v2 : Z; ev_res_acq : Z }.

Record tasklist := Tasklist {
  reaper_sema : Z;      (* _reaper_sema, the word that release increments *)
  tick_counter : Z;
  serial : Z;
  multicpu : bool;
  tasks : list task;
  task_delete_prequeue : list task;
  task_delete_queue : list task;
  events_in_event : list event_call;
  do_when_out_of_lock : list Z;
  actions : list action;
  sema_limits : Z → Z   (* data.cacheline[1] of the raw_semaphore at an address *)
}.

Definition new_tasklist : tasklist :=
  Tasklist (2 ^ 32 - 1) 0 0 false [] [] [] [] [] [] (λ _, 2 ^ 32 - 1).

Definition TASK_EVENT_EXIT : Z := 0.
Definition TASK_EVENT_TIMER100HZ : Z := 1.
Definition TASK_EVENT_NANOTIME : Z := 2.
Definition TASK_EVENT_MUTEX : Z := 3.
Definition TASK_EVENT_CLEAR_WAIT_MUTEX : Z := 4.
Definition TASK_EVENT_SEMAPHORE : Z := 5.
Definition TASK_EVENT_CLEAR_WAIT_SEMAPHORE : Z := 6.

Definition with_tasks (s : tasklist) (ts : list task) : tasklist :=
  Tasklist (reaper_sema s) (tick_counter s) (serial s) (multicpu s) ts (task_delete_prequeue s)
           (task_delete_queue s) (events_in_event s) (do_when_out_of_lock s) (actions s) (sema_limits s).

Definition with_actions (s : tasklist) (l : list action) : tasklist :=
  Tasklist (reaper_sema s) (tick_counter s) (serial s) (multicpu s) (tasks s) (task_delete_prequeue s)
           (task_delete_queue s) (events_in_event s) (do_when_out_of_lock s) (actions s ++ l) (sema_limits s).

Definition with_queues (s : tasklist) (pre del : list task) : tasklist :=
  Tasklist (reaper_sema s) (tick_counter s) (serial s) (multicpu s) (tasks s) pre del
           (events_in_event s) (do_when_out_of_lock s) (actions s) (sema_limits s).

Definition with_events (s : tasklist) (evs : list event_call) : tasklist :=
  Tasklist (reaper_sema s) (tick_counter s) (serial s) (multicpu s) (tasks s) (task_delete_prequeue s)
           (task_delete_queue s) evs (do_when_out_of_lock s) (actions s) (sema_limits s).

Definition with_out_of_lock (s : tasklist) (fs : list Z) : tasklist :=
  Tasklist (reaper_sema s) (tick_counter s) (serial s) (multicpu s) (tasks s) (task_delete_prequeue s)
           (task_delete_queue s) (events_in_event s) fs (actions s) (sema_limits s).

Definition with_counters (s : tasklist) (sema tick ser : Z) (multi : bool) : tasklist :=
  Tasklist sema tick ser multi (tasks s) (task_delete_prequeue s)
           (task_delete_queue s) (events_in_event s) (do_when_out_of_lock s) (actions s) (sema_limits s).

(** A write to the limit of the semaphore at [a]. *)
Definition with_limit (s : tasklist) (a v : Z) : tasklist :=
  Tasklist (reaper_sema s) (tick_counter s) (serial s) (multicpu s) (tasks s) (task_delete_prequeue s)
           (task_delete_queue s) (events_in_event s) (do_when_out_of_lock s) (actions s)
           (λ b, if b =? a then v else sema_limits s b).

(** A write through a pointer to a task of the list. *)
Definition upd_list (p : Z) (f : task → task) (ts : list task) : list task :=
  (λ t, if ptr t =? p then f t else t) <$> ts.

Definition upd (p : Z) (f : task → task) (s : tasklist) : tasklist :=
  with_tasks s (upd_list p f (tasks s)).

(** A read through a pointer. *)
Definition get_task (p : Z) (s : tasklist) : outcome task :=
  match list_find (λ t, ptr t = p) (tasks s) with
  | Some (_, t) => Ret t
  | None => OutOfBounds
  end.

(** * Looking for tasks *)

(** The task with an id, or a panic. *)
Definition get_task_with_lock (task_id : Z) (s : tasklist) : outcome task :=
  match list_find (λ t, id (bits t) = task_id) (tasks s) with
  | Some (_, t) => Ret t
  | None => Panicked
  end.

Definition get_nullable_task_with_lock (task_id : Z) (s : tasklist) : option task :=
  snd <$> list_find (λ t, id (bits t) = task_id) (tasks s).

Definition cpu_num (this_cpu : Z) (s : tasklist) : Z := if multicpu s then this_cpu else 0.

Definition runs_on (c : Z) (t : task) : bool := (cpu (bits t) =? c) && running (bits t).

(** The last task in the list that runs on the CPU; the pointer is not
    initialised if there is none. *)
Definition get_current_task_with_lock (this_cpu : Z) (s : tasklist) : outcome task :=
  match last (filter (λ t, runs_on (cpu_num this_cpu s) t) (tasks s)) with
  | Some t => Ret t
  | None => OutOfBounds
  end.

Definition get_current_task_id (this_cpu : Z) (s : tasklist) : outcome Z :=
  match list_find (λ t, runs_on (cpu_num this_cpu s) t) (tasks s) with
  | Some (_, t) => Ret (id (bits t))
  | None => OutOfBounds
  end.

(** * Events *)

Definition event_in_event_handler (v0 v1 v2 res_acq : Z) (s : tasklist) : tasklist :=
  with_events s (events_in_event s ++ [EventCall v0 v1 v2 res_acq]).

(** raw_semaphore::release_from_event of the semaphore at [a]. *)
Definition release_from_event (a : Z) (s : tasklist) : tasklist :=
  let released := u32 (sema_limits s a + 1) in
  event_in_event_handler TASK_EVENT_SEMAPHORE a released 0 (with_limit s a released).

(** The handler [eh] takes itself off the task [t] and is deleted. *)
Definition unblock_and_remove (n : list Z) (eh t : Z) (s : tasklist) : tasklist :=
  upd t (λ t, snd (remove_event_handler eh t)) (upd t (set_blocked n false) s).

(** [remove_event_handler] that panics if the handler is not there. *)
Definition remove_or_panic (eh : Z) (t : Z) (s : tasklist) : outcome tasklist :=
  tk ← get_task t s;
  if fst (remove_event_handler eh tk)
  then Ret (upd t (λ t, snd (remove_event_handler eh t)) s)
  else Panicked.

(* "eventunb", "nanounbl", "timeunbl", "mtxconti", "semacont" *)
Definition eventunb : list Z := [101; 118; 101; 110; 116; 117; 110; 98].
Definition nanounbl : list Z := [110; 97; 110; 111; 117; 110; 98; 108].
Definition timeunbl : list Z := [116; 105; 109; 101; 117; 110; 98; 108].
Definition mtxconti : list Z := [109; 116; 120; 99; 111; 110; 116; 105].
Definition semacont : list Z := [115; 101; 109; 97; 99; 111; 110; 116].

Definition join_event (eh cur other v0 v1 : Z) (s : tasklist) : outcome tasklist :=
  if (v0 =? TASK_EVENT_EXIT) && (v1 =? other) then
    t ← get_task_with_lock cur s;
    Ret (unblock_and_remove eventunb eh (ptr t) s)
  else Ret s.

Definition nanos_event (eh cur wakeup v0 v1 : Z) (s : tasklist) : outcome tasklist :=
  if (v0 =? TASK_EVENT_NANOTIME) && (wakeup <=? v1) then
    t ← get_task_with_lock cur s;
    Ret (unblock_and_remove nanounbl eh (ptr t) s)
  else Ret s.

Definition timer100hz_event (eh cur wakeup v0 v1 : Z) (s : tasklist) : outcome tasklist :=
  if (v0 =? TASK_EVENT_TIMER100HZ) && (wakeup <=? v1) then
    t ← get_task_with_lock cur s;
    Ret (unblock_and_remove timeunbl eh (ptr t) s)
  else Ret s.

(** [sema] is the semaphore that the callback releases: that of
    waiting_mul_semaphore::timeout, which is the only one in the kernel. *)
Definition timeout100hz_event (eh cur wakeup sema v0 v1 : Z) (s : tasklist) : outcome tasklist :=
  if (v0 =? TASK_EVENT_TIMER100HZ) && (wakeup <=? v1) then
    t ← get_task_with_lock cur s;
    Ret (release_from_event sema (upd (ptr t) (λ t, snd (remove_event_handler eh t)) s))
  else Ret s.

Definition mutex_event (this_cpu eh cur lockaddr ticket_number v0 v1 v2 : Z) (s : tasklist) : outcome tasklist :=
  running_task ← get_current_task_with_lock this_cpu s;
  if (v0 =? TASK_EVENT_CLEAR_WAIT_MUTEX) && (cur =? id (bits running_task)) then
    remove_or_panic eh (ptr running_task) s
  else if (v0 =? TASK_EVENT_MUTEX) && (v1 =? lockaddr) then
    t ← get_task_with_lock cur s;
    if (ticket_number <=? v2) || ((0xF8000000 <=? ticket_number) && (v2 <? 0x08000000)) then
      let s := if v2 =? ticket_number
               then upd (ptr t) (resource_acq 1) (upd (ptr t) (set_blocked mtxconti false) s)
               else s in
      remove_or_panic eh (ptr t) s
    else Ret s
  else Ret s.

Definition semaphore_event (this_cpu eh cur lockaddr ticket_number v0 v1 v2 : Z) (s : tasklist) : outcome tasklist :=
  running_task ← get_current_task_with_lock this_cpu s;
  if (v0 =? TASK_EVENT_CLEAR_WAIT_SEMAPHORE) && (cur =? id (bits running_task)) then
    remove_or_panic eh (ptr running_task) s
  else if (v0 =? TASK_EVENT_SEMAPHORE) && (v1 =? lockaddr) then
    t ← get_task_with_lock cur s;
    if v2 =? ticket_number
    then remove_or_panic eh (ptr t) (upd (ptr t) (set_blocked semacont false) s)
    else Ret s
  else Ret s.

(** The virtual call eh->event(v0, v1, v2). *)
Definition handler_event (this_cpu : Z) (h : task_event_handler) (v0 v1 v2 : Z) (s : tasklist) : outcome tasklist :=
  match eh_kind h with
  | task_join_handler cur other => join_event (eh_ptr h) cur other v0 v1 s
  | task_nanos_handler cur wakeup => nanos_event (eh_ptr h) cur wakeup v0 v1 s
  | task_timer100hz_handler cur wakeup => timer100hz_event (eh_ptr h) cur wakeup v0 v1 s
  | task_timeout100hz_handler cur wakeup sema => timeout100hz_event (eh_ptr h) cur wakeup sema v0 v1 s
  | task_mutex_handler cur lockaddr ticket => mutex_event this_cpu (eh_ptr h) cur lockaddr ticket v0 v1 v2 s
  | task_semaphore_handler cur lockaddr ticket =>
    semaphore_event this_cpu (eh_ptr h) cur lockaddr ticket v0 v1 v2 s
  end.

Fixpoint foldM {A} (f : A → tasklist → outcome tasklist) (l : list A) (s : tasklist) : outcome tasklist :=
  match l with
  | [] => Ret s
  | x :: l => s' ← f x s; foldM f l s'
  end.

(** task::event: the handlers are called from a copy of the list. *)
Definition task_event (this_cpu p v0 v1 v2 : Z) (s : tasklist) : outcome tasklist :=
  t ← get_task p s;
  foldM (λ h, handler_event this_cpu h v0 v1 v2) (event_handlers t) s.

Definition event_with_lock (this_cpu v0 v1 v2 res_acq : Z) (s : tasklist) : outcome tasklist :=
  let s := if v0 =? TASK_EVENT_TIMER100HZ
           then with_counters s (reaper_sema s) v1 (serial s) (multicpu s) else s in
  s ← foldM (λ p, task_event this_cpu p v0 v1 v2) (ptr <$> tasks s) s;
  if res_acq =? 0 then Ret s
  else t ← get_current_task_with_lock this_cpu s; Ret (upd (ptr t) (resource_acq res_acq) s).

(** The events that handlers raise, round by round. *)
Fixpoint drain_events (fuel : nat) (this_cpu : Z) (s : tasklist) : outcome tasklist :=
  match events_in_event s with
  | [] => Ret s
  | evs =>
    match fuel with
    | O => OutOfFuel
    | S fuel =>
      s ← foldM (λ e, event_with_lock this_cpu (ev_v0 e) (ev_v1 e) (ev_v2 e) (s8 (ev_res_acq e))) evs
                (with_events s []);
      drain_events fuel this_cpu s
    end
  end.

Definition event (fuel : nat) (this_cpu v0 v1 v2 res_acq : Z) (s : tasklist) : outcome tasklist :=
  s ← event_with_lock this_cpu v0 v1 v2 res_acq s;
  drain_events fuel this_cpu s.

(** * New tasks *)

Definition has_id (i : Z) (ts : list task) : bool := existsb (λ t, i =? id (bits t)) ts.

Fixpoint next_id_loop (fuel : nat) (ser : Z) (ts : list task) : outcome Z :=
  match fuel with
  | O => OutOfFuel
  | S fuel =>
    let i := u32 (ser + 1) in
    if has_id i ts then next_id_loop fuel i ts else Ret i
  end.

(** The id; it is also the new value of [serial]. *)
Definition get_next_id (s : tasklist) : outcome (Z * tasklist) :=
  i ← next_id_loop (S (length (tasks s))) (serial s) (tasks s);
  Ret (i, with_counters s (reaper_sema s) (tick_counter s) i (multicpu s)).

(* "idleunbl", "newtask" *)
Definition idleunbl : list Z := [105; 100; 108; 101; 117; 110; 98; 108].
Definition newtask : list Z := [110; 101; 119; 116; 97; 115; 107].

Definition create_current_idle_task (p cpu_no : Z) (s : tasklist) : outcome (Z * tasklist) :=
  let t := make_idle_task p in
  '(pid, s) ← get_next_id s;
  let t := set_id pid t in
  let t := set_running_bit true t in
  let t := set_blocked idleunbl false t in
  let t := set_cpu cpu_no t in
  let t := set_priority_group PRIO_GROUP_IDLE t in
  let t := set_cpu_pinned true t in
  Ret (pid, with_tasks s (tasks s ++ [t])).

Definition start_multi_cpu (cpu_no : Z) (s : tasklist) : tasklist :=
  let s := with_tasks s (set_cpu cpu_no <$> tasks s) in
  with_counters s (reaper_sema s) (tick_counter s) (serial s) true.

(** new_task: the task is in the list, with id 0, while its id is chosen. *)
Definition new_task_state (p : Z) (fpu : x86_fpu_state) (sf : InterruptStackFrame) (cf : InterruptCpuFrame)
    (rs : list Z) (s : tasklist) : outcome (Z * tasklist) :=
  let s := with_tasks s (tasks s ++ [make_task p cf sf fpu rs]) in
  '(i, s) ← get_next_id s;
  Ret (i, upd p (set_blocked newtask false) (upd p (set_id i) s)).

Definition new_task_frames (fpu0 : x86_fpu_state)
    (rip cs ds fsbase rbp rsp rdi rsi rdx rcx r8 r9 fcw mxcsr : Z)
    : x86_fpu_state * InterruptStackFrame * InterruptCpuFrame :=
  (FpuState fcw (Z.land mxcsr (mxcsr_mask fpu0)) (mxcsr_mask fpu0) [],
   StackFrame ds ds ds ds fsbase 0 0 0 0 0 0 r9 r8 rsi rdi rbp rdx rcx 0 0,
   CpuFrame 0 rip cs 0x202 rsp ds).

Definition new_task_regs (p : Z) (fpu0 : x86_fpu_state)
    (rip cs ds fsbase rbp rsp rdi rsi rdx rcx r8 r9 fcw mxcsr : Z) (rs : list Z) (s : tasklist)
    : outcome (Z * tasklist) :=
  let '(fpu, sf, cf) := new_task_frames fpu0 rip cs ds fsbase rbp rsp rdi rsi rdx rcx r8 r9 fcw mxcsr in
  new_task_state p fpu sf cf rs s.

(** A kernel task: [stack] is the new task_stack_resource and [stack_addr]
    the address of its stack. *)
Definition new_task (p : Z) (fpu0 : x86_fpu_state) (stack stack_addr : Z)
    (rip cs rdi rsi rdx rcx r8 r9 : Z) (rs : list Z) (s : tasklist) : outcome (Z * tasklist) :=
  new_task_regs p fpu0 rip cs 0x10 0 stack_addr stack_addr rdi rsi rdx rcx r8 r9 (fcw fpu0) (mxcsr fpu0)
    (rs ++ [stack]) s.

(** * Switching tasks *)

Definition CONTINUE_RUNNING_BIAS : Z := 12.
Definition RESOURCE_PRIORITY_BIAS : Z := 12.

(** Tasks that ended on this CPU before its last switch can be deleted. *)
Definition reap_prequeue (cpu_no : Z) (s : tasklist) : tasklist * bool :=
  let mine := filter (λ t, cpu (bits t) = cpu_no) (task_delete_prequeue s) in
  let others := filter (λ t, cpu (bits t) ≠ cpu_no) (task_delete_prequeue s) in
  (with_queues s others (task_delete_queue s ++ mine), negb (bool_decide (mine = []))).

(** raw_semaphore::release of the reaper's semaphore at [sema_addr]. *)
Definition reaper_release (this_cpu sema_addr : Z) (s : tasklist) : outcome tasklist :=
  let ticket := u32 (reaper_sema s + 1) in
  event 1 this_cpu TASK_EVENT_SEMAPHORE sema_addr ticket 0
    (with_counters s ticket (tick_counter s) (serial s) (multicpu s)).

(** May the CPU whose task is [current] run [t]? *)
Definition eligible (current : option Z) (t : task) : bool :=
  negb (blocked (bits t)) && negb (end_ (bits t)) && negb (stack_quarantine (bits t)) &&
  (bool_decide (current = Some (ptr t)) || negb (running (bits t))).

Record pools := Pools { current_task : option Z; task_pool : list Z; next_task_pool : list Z }.

(** The body of the first loop for the task at [p]. *)
Definition pool_step (nanos : option Z) (cpu_no p : Z) (st : pools * tasklist) : outcome (pools * tasklist) :=
  let '(ps, s) := st in
  s ← match nanos with
      | Some n => task_event cpu_no p TASK_EVENT_NANOTIME n cpu_no s
      | None => Ret s
      end;
  t ← get_task p s;
  let mine := negb (multicpu s) || (cpu (bits t) =? cpu_no) in
  if negb mine && cpu_pinned (bits t) then Ret (ps, s)
  else
    let quarantined := mine && stack_quarantine (bits t) in
    let s := if quarantined then upd p (set_stack_quarantine false) s else s in
    let t := if quarantined then set_stack_quarantine false t else t in
    let cur := if mine && negb quarantined && running (bits t) then Some p else current_task ps in
    if (priority_group (bits t) =? PRIO_GROUP_REALTIME) && eligible cur t
    then Ret (Pools cur (task_pool ps ++ [p]) (next_task_pool ps), s)
    else if (priority_group (bits t) =? PRIO_GROUP_NORMAL) && eligible cur t
    then Ret (Pools cur (task_pool ps) (next_task_pool ps ++ [p]), s)
    else Ret (Pools cur (task_pool ps) (next_task_pool ps), s).

Fixpoint pool_loop (nanos : option Z) (cpu_no : Z) (l : list Z) (st : pools * tasklist)
    : outcome (pools * tasklist) :=
  match l with
  | [] => Ret st
  | p :: l => st ← pool_step nanos cpu_no p st; pool_loop nanos cpu_no l st
  end.

(** The second loop: the tasks of a lower priority group. *)
Definition low_pool (s : tasklist) (cpu_no group : Z) (cur : option Z) : list Z :=
  ptr <$> filter (λ t, negb (multicpu s && cpu_pinned (bits t) && negb (cpu (bits t) =? cpu_no)) &&
                       (priority_group (bits t) =? group) && eligible cur t) (tasks s).

Definition choose_pool (s : tasklist) (cpu_no : Z) (ps : pools) : outcome (list Z) :=
  if bool_decide (task_pool ps ≠ []) then Ret (task_pool ps)
  else if bool_decide (next_task_pool ps ≠ []) then Ret (next_task_pool ps)
  else
    let low := low_pool s cpu_no PRIO_GROUP_LOW (current_task ps) in
    let idle := low_pool s cpu_no PRIO_GROUP_IDLE (current_task ps) in
    if bool_decide (low ≠ []) then Ret low
    else if bool_decide (idle ≠ []) then Ret idle
    else Panicked.

(** The points of the current task grow while it runs; when they are at the
    maximum, those of its pool shrink instead. *)
Definition account (cur : Z) (pool : list Z) (s : tasklist) : outcome tasklist :=
  c ← get_task cur s;
  if points (bits c) =? MAX_POINTS then
    if bool_decide (cur ∈ pool) then
      Ret (with_tasks s ((λ t, if bool_decide (ptr t ∈ pool) && (0 <? points (bits t))
                               then set_points (points (bits t) - 1) t else t) <$> tasks s))
    else Ret s
  else Ret (upd cur (set_points (points (bits c) + 1)) s).

Definition reduce (x bias : Z) : Z := if bias <? x then x - bias else 0.

Definition biased_points (cur : Z) (t : task) : Z :=
  let x := points (bits t) in
  let x := if ptr t =? cur then reduce x CONTINUE_RUNNING_BIAS else x in
  if 0 <? resources (bits t) then reduce x RESOURCE_PRIORITY_BIAS else x.

(** The loop that finds the winner. *)
Fixpoint winner (s : tasklist) (cur : Z) (pool : list Z) (win : option task) : outcome (option task) :=
  match pool with
  | [] => Ret win
  | p :: pool =>
    t ← get_task p s;
    let win := match win with
               | None => Some t
               | Some w => if biased_points cur t <? points (bits w) then Some t else Some w
               end in
    winner s cur pool win
  end.

Definition set_not_running (p : Z) (s : tasklist) : outcome tasklist :=
  t ← get_task p s;
  Ret (upd p clear_when_not_running
        (with_actions (upd p (set_running_bit false) s)
          ((task_leave <$> task_resources t) ++ (call_function <$> do_when_not_running t)))).

Definition set_running (p cpu_no : Z) (s : tasklist) : outcome tasklist :=
  t ← get_task p s;
  Ret (with_actions (upd p (set_running_bit true) s) ((λ r, task_enter r p cpu_no) <$> task_resources t)).

(** The task leaves the list and waits for its deletion. *)
Definition erase_task (p : Z) (ts : list task) : option (task * list task) :=
  match list_find (λ t, ptr t = p) ts with
  | Some (i, t) => Some (t, delete i ts)
  | None => None
  end.

Definition evict (p : Z) (s : tasklist) : outcome tasklist :=
  match erase_task p (tasks s) with
  | Some (t, ts) => Ret (with_queues (with_tasks s ts) (task_delete_prequeue s ++ [t]) (task_delete_queue s))
  | None => Panicked
  end.

(** The registers change hands. *)
Definition switch_to (cpu_no cur win : Z) (i : Interrupt) (s : tasklist) : outcome (Interrupt * tasklist) :=
  c ← get_task cur s;
  let ended := end_ (bits c) in
  let s := if ended then s
           else upd cur (save_state i) (upd cur (set_stack_quarantine true) s) in
  s ← set_not_running cur s;
  w ← get_task win s;
  let i := restore_state i w in
  s ← set_running win (if multicpu s then cpu_no else 0) s;
  let s := if multicpu s then upd win (set_cpu cpu_no) s else s in
  s ← (if ended then evict cur s else Ret s);
  Ret (i, s).

(** The part of switch_tasks under the lock, after the deletions. *)
Definition switch_pick (nanos : option Z) (cpu_no : Z) (i : Interrupt) (s : tasklist)
    : outcome (Interrupt * tasklist) :=
  '(ps, s) ← pool_loop nanos cpu_no (ptr <$> tasks s) (Pools None [] [], s);
  pool ← choose_pool s cpu_no ps;
  match current_task ps with
  | None => OutOfBounds
  | Some cur =>
    s ← account cur pool s;
    w ← winner s cur pool None;
    match w with
    | None => OutOfBounds
    | Some w =>
      '(i, s) ←
        (if ptr w =? cur then
           c ← get_task cur s;
           if end_ (bits c) then Panicked else Ret (i, s)
         else switch_to cpu_no cur (ptr w) i s);
      Ret (i, with_actions (with_out_of_lock s []) (call_function <$> do_when_out_of_lock s))
    end
  end.

Definition switch_tasks (sema_addr : Z) (nanos : option Z) (cpu_no : Z) (i : Interrupt) (s : tasklist)
    : outcome (Interrupt * tasklist) :=
  let '(s, activate_grim_reaper) := reap_prequeue cpu_no s in
  s ← (if activate_grim_reaper then reaper_release cpu_no sema_addr s else Ret s);
  switch_pick nanos cpu_no i s.

(** * Faults *)

(** The first task that runs on the CPU. *)
Definition find_current (cpu_no : Z) (s : tasklist) : outcome task :=
  match list_find (λ t, runs_on cpu_no t) (tasks s) with
  | Some (_, t) => Ret t
  | None => Panicked
  end.

(** task::page_fault and task::exception ask the resources in turn;
    [handles] is what each of them answers. *)
Definition resources_handle (handles : Z → bool) (t : task) : bool :=
  existsb handles (task_resources t).

(** What follows the handler: page_fault and exception hold the lock while
    they look for the task and while they switch, and not in between. *)
Definition page_fault_end (handled : bool) (sema_addr : Z) (nanos : option Z) (cpu_no : Z) (i : Interrupt)
    (s : tasklist) : outcome (bool * Interrupt * tasklist) :=
  if handled then
    '(i, s) ← switch_tasks sema_addr nanos cpu_no i s;
    Ret (true, i, s)
  else Ret (false, i, s).

Definition exception_end (handled : bool) (sema_addr : Z) (nanos : option Z) (cpu_no : Z) (i : Interrupt)
    (s : tasklist) : outcome (bool * Interrupt * tasklist) :=
  '(i, s) ← switch_tasks sema_addr nanos cpu_no i s;
  Ret (handled, i, s).

(** The whole of them, when nothing happens in between. *)
Definition page_fault (handles : Z → bool) (sema_addr : Z) (nanos : option Z) (this_cpu : Z) (i : Interrupt)
    (s : tasklist) : outcome (bool * Interrupt * tasklist) :=
  t ← find_current (cpu_num this_cpu s) s;
  page_fault_end (resources_handle handles t) sema_addr nanos (cpu_num this_cpu s) i s.

Definition exception (handles : Z → bool) (sema_addr : Z) (nanos : option Z) (this_cpu : Z) (i : Interrupt)
    (s : tasklist) : outcome (bool * Interrupt * tasklist) :=
  t ← find_current (cpu_num this_cpu s) s;
  exception_end (resources_handle handles t) sema_addr nanos (cpu_num this_cpu s) i s.

(** * The end of tasks *)

Definition terminate_blocked (p : Z) (s : tasklist) : bool * tasklist :=
  match erase_task p (tasks s) with
  | Some (t, ts) => (true, with_queues (with_tasks s ts) (task_delete_prequeue s ++ [t]) (task_delete_queue s))
  | None => (false, s)
  end.

(** exit and user_exit: the current task is marked and the others are told. *)
Definition end_current (this_cpu cpu_no : Z) (s : tasklist) : outcome tasklist :=
  t ← find_current cpu_no s;
  let s := upd (ptr t) (set_end true) s in
  foldM (λ p s, if p =? ptr t then Ret s else task_event this_cpu p TASK_EVENT_EXIT (id (bits t)) 0 s)
        (ptr <$> tasks s) s.

Definition exit (this_cpu cpu_no : Z) (s : tasklist) : outcome tasklist :=
  end_current this_cpu (if multicpu s then cpu_no else 0) s.

Definition user_exit (this_cpu : Z) (s : tasklist) : outcome tasklist :=
  end_current this_cpu (cpu_num this_cpu s) s.

Definition evict_task_with_lock (this_cpu p : Z) (s : tasklist) : outcome tasklist :=
  t ← get_task p s;
  foldM (λ q s, if q =? p then Ret (snd (terminate_blocked p s))
                else task_event this_cpu q TASK_EVENT_EXIT (id (bits t)) 0 s)
        (ptr <$> tasks s) (upd p (set_end true) s).

Definition when_not_running (this_cpu p f : Z) (s : tasklist) : outcome tasklist :=
  t ← get_task p s;
  if negb (running (bits t)) then
    let s := with_actions s [call_function f] in
    if end_ (bits t) then evict_task_with_lock this_cpu p s else Ret s
  else Ret (upd p (push_when_not_running f) s).

Definition when_out_of_lock (f : Z) (s : tasklist) : tasklist :=
  with_out_of_lock s (do_when_out_of_lock s ++ [f]).

(** thread_reaper: the length of the queue is read under the lock, which is
    released before the queue is taken. *)
Definition reap_length (s : tasklist) : nat := length (task_delete_queue s).

Definition reap_take (reaplist_length : nat) (s : tasklist) : list task * tasklist :=
  (take reaplist_length (task_delete_queue s), with_queues s (task_delete_prequeue s) []).

Definition reap_delete (reaplist : list task) (s : tasklist) : tasklist :=
  with_actions s (delete_task ∘ ptr <$> reaplist).

(** * Waiting *)

(* "taskjoin", "msleep", "nanoslp" *)
Definition taskjoin : list Z := [116; 97; 115; 107; 106; 111; 105; 110].
Definition msleep : list Z := [109; 115; 108; 101; 101; 112].
Definition nanoslp : list Z := [110; 97; 110; 111; 115; 108; 112].

(** The task waits with a new handler at [eh]. *)
Definition wait_with (this_cpu eh : Z) (k : Z → handler_kind) (n : list Z) (s : tasklist) : outcome tasklist :=
  t ← get_current_task_with_lock this_cpu s;
  Ret (upd (ptr t) (set_blocked n true)
        (upd (ptr t) (add_event_handler (Handler eh (k (id (bits t))))) s)).

(** join, up to the loop that waits; the flag says whether to wait. *)
Definition join (this_cpu eh task_id : Z) (s : tasklist) : outcome (bool * tasklist) :=
  t ← get_current_task_with_lock this_cpu s;
  match get_nullable_task_with_lock task_id s with
  | None => Ret (false, s)
  | Some joining =>
    if end_ (bits joining) then Ret (false, s)
    else s ← wait_with this_cpu eh (λ i, task_join_handler i task_id) taskjoin s; Ret (true, s)
  end.

(** The test of the loops of join and the sleeps. *)
Definition may_return (this_cpu : Z) (s : tasklist) : outcome bool :=
  t ← get_current_task_with_lock this_cpu s; Ret (negb (blocked (bits t))).

Definition ticks_millisleep (this_cpu eh ms : Z) (s : tasklist) : outcome tasklist :=
  wait_with this_cpu eh (λ i, task_timer100hz_handler i (u64 (tick_counter s + u64 (ms / 10 + 1)))) msleep s.

(** [now] is the value of get_nanotime_ref. *)
Definition tsc_nanosleep (this_cpu eh now nanos : Z) (s : tasklist) : outcome tasklist :=
  wait_with this_cpu eh (λ i, task_nanos_handler i (u64 (nanos + (now + 1)))) nanoslp s.

Definition millisleep (reliable : bool) (this_cpu eh now ms : Z) (s : tasklist) : outcome tasklist :=
  if (1000000000 <? ms) || negb reliable then ticks_millisleep this_cpu eh ms s
  else tsc_nanosleep this_cpu eh now (u64 (ms * 1000000)) s.

Definition sleep (reliable : bool) (this_cpu eh now seconds : Z) (s : tasklist) : outcome tasklist :=
  millisleep reliable this_cpu eh now (u64 (seconds * 1000)) s.

Definition usleep (reliable : bool) (this_cpu eh now us : Z) (s : tasklist) : outcome tasklist :=
  if (1000000000000 <? us) || negb reliable then
    if us mod 1000 =? 0 then Ret s
    else ticks_millisleep this_cpu eh (us / 1000 + (if 0 <? us mod 1000 then 1 else 0)) s
  else tsc_nanosleep this_cpu eh now (u64 (us * 1000)) s.

Definition nanosleep (reliable : bool) (this_cpu eh now nanos : Z) (s : tasklist) : outcome tasklist :=
  if reliable then tsc_nanosleep this_cpu eh now nanos s
  else millisleep reliable this_cpu eh now (nanos / 1000000 + (if 0 <? nanos mod 1000000 then 1 else 0)) s.

Definition set_timeout_millis (this_cpu eh ms callback : Z) (s : tasklist) : outcome tasklist :=
  t ← get_current_task_with_lock this_cpu s;
  Ret (upd (ptr t) (add_event_handler
        (Handler eh (task_timeout100hz_handler (id (bits t)) (u64 (u64 (ms / 10 + 1) + tick_counter s)) callback))) s).

(** The end of the object set_timeout_millis returns. *)
Definition timeout_ref_destroy (the_task eh : Z) (s : tasklist) : tasklist :=
  upd the_task (λ t, snd (remove_event_handler eh t)) s.

(** * The rest of the interface *)

Definition add_task_event_handler (this_cpu : Z) (h : task_event_handler) (s : tasklist) : outcome tasklist :=
  t ← get_current_task_with_lock this_cpu s; Ret (upd (ptr t) (add_event_handler h) s).

(** The last parameter, [res_acq], is not used. *)
Definition sched_set_blocked (this_cpu : Z) (n : list Z) (v : bool) (res_acq : Z) (s : tasklist) : outcome tasklist :=
  t ← get_current_task_with_lock this_cpu s; Ret (upd (ptr t) (set_blocked n v) s).

Definition clear_stack_quarantines (cpu_no : Z) (s : tasklist) : bool * tasklist :=
  let ts := (λ t, if (cpu (bits t) =? cpu_no) && stack_quarantine (bits t)
                  then set_stack_quarantine false t else t) <$> tasks s in
  (existsb (λ t, negb (running (bits t)) && negb (blocked (bits t)) && negb (end_ (bits t)) &&
                 (negb (stack_quarantine (bits t)) || (cpu (bits t) =? cpu_no))) ts,
   with_tasks s ts).

Definition get_task_infos (s : tasklist) : list (task_bits * list Z) :=
  (λ t, (bits t, name t)) <$> tasks s.

Definition set_name_of (pid : Z) (n : list Z) (s : tasklist) : bool * tasklist :=
  match list_find (λ t, id (bits t) = pid) (tasks s) with
  | Some (_, t) => (true, upd (ptr t) (set_name n) s)
  | None => (false, s)
  end.

Definition set_current_name (this_cpu : Z) (n : list Z) (s : tasklist) : outcome tasklist :=
  t ← get_current_task_with_lock this_cpu s; Ret (upd (ptr t) (set_name n) s).

Definition sched_set_working_for (this_cpu i : Z) (s : tasklist) : outcome tasklist :=
  t ← get_current_task_with_lock this_cpu s; Ret (upd (ptr t) (set_working_for_task_id i) s).

Definition sched_get_working_for (this_cpu : Z) (s : tasklist) : outcome Z :=
  t ← get_current_task_with_lock this_cpu s; Ret (working_for_task_id (bits t)).
