(* ===== verification/SchedInv.v ===== *)
(** The invariant of the scheduler and what events do to it: an event that
    is delivered to a task changes that task only, and only what it waits
    for; no event panics. *)
From S2P Require Import Prelude Task Tasklist.

(** * The invariant *)

Definition handler_task (h : task_event_handler) : Z :=
  match eh_kind h with
  | task_join_handler i _ | task_nanos_handler i _ | task_timer100hz_handler i _
  | task_timeout100hz_handler i _ _ | task_mutex_handler i _ _ | task_semaphore_handler i _ _ => i
  end.

(** What holds of each task: the fields are in their ranges, a task in stack
    quarantine does not run, and its handlers know it by its id. *)
Record task_ok (t : task) : Prop := {
  ok_priority : PRIO_GROUP_IDLE ≤ priority_group (bits t) ≤ PRIO_GROUP_REALTIME;
  ok_points : 0 ≤ points (bits t) ≤ MAX_POINTS;
  ok_resources : 0 ≤ resources (bits t) ≤ MAX_RESOURCES;
  ok_quarantine : stack_quarantine (bits t) = true → running (bits t) = false;
  ok_handlers : ∀ h, h ∈ event_handlers t → handler_task h = id (bits t);
  ok_handler_ptrs : NoDup (eh_ptr <$> event_handlers t)
}.

(** The tasks have their own addresses and ids, and a CPU runs one of them.
    Before start_multi_cpu there is one CPU. *)
Record sched_wf (s : tasklist) : Prop := {
  wf_tasks : ∀ t, t ∈ tasks s → task_ok t;
  wf_ptrs : NoDup (ptr <$> tasks s);
  wf_ids : NoDup (id ∘ bits <$> tasks s);
  wf_running : ∀ t t', t ∈ tasks s → t' ∈ tasks s →
    running (bits t) = true → running (bits t') = true →
    multicpu s = false ∨ cpu (bits t) = cpu (bits t') → ptr t = ptr t';
  wf_single : multicpu s = false → ∀ t, t ∈ tasks s → cpu (bits t) = 0
}.

(** The CPU runs a task of the list. *)
Definition has_current (this_cpu : Z) (s : tasklist) : Prop :=
  ∃ t, t ∈ tasks s ∧ runs_on (cpu_num this_cpu s) t = true.

(** * Lists of tasks *)

Lemma NoDup_fmap_inj {A B} (f : A → B) (l : list A) x y :
  NoDup (f <$> l) → x ∈ l → y ∈ l → f x = f y → x = y.
Proof.
  intros Hn [i Hi]%list_elem_of_lookup [j Hj]%list_elem_of_lookup E.
  assert (i = j) as ->.
  { eapply NoDup_lookup; [exact Hn| |]; rewrite list_lookup_fmap; [by rewrite Hi|by rewrite Hj, E]. }
  congruence.
Qed.

Lemma elem_of_upd_list p f l t :
  t ∈ upd_list p f l ↔ ∃ u, u ∈ l ∧ t = if ptr u =? p then f u else u.
Proof.
  unfold upd_list. rewrite list_elem_of_fmap. split; intros (u & H & H'); eauto.
Qed.

Lemma upd_list_fmap {B} (g : task → B) p f l :
  (∀ t, t ∈ l → ptr t = p → g (f t) = g t) → g <$> upd_list p f l = g <$> l.
Proof.
  intros H. unfold upd_list. rewrite <- list_fmap_compose. apply list_fmap_ext.
  intros i t Hi. simpl. destruct (Z.eqb_spec (ptr t) p); [|done].
  apply H; [by eapply list_elem_of_lookup_2|done].
Qed.

Lemma upd_list_compose p f g l :
  (∀ t, ptr (f t) = ptr t) → upd_list p g (upd_list p f l) = upd_list p (g ∘ f) l.
Proof.
  intros Hf. unfold upd_list. rewrite <- list_fmap_compose. apply list_fmap_ext.
  intros i t _. simpl. destruct (Z.eqb_spec (ptr t) p) as [E|E].
  - rewrite (proj2 (Z.eqb_eq _ _)); [done|]. by rewrite Hf.
  - by rewrite (proj2 (Z.eqb_neq _ _)).
Qed.

Lemma upd_list_ext p f g l :
  (∀ t, t ∈ l → ptr t = p → f t = g t) → upd_list p f l = upd_list p g l.
Proof.
  intros H. apply list_fmap_ext. intros i t Hi. simpl. destruct (Z.eqb_spec (ptr t) p); [|done].
  apply H; [by eapply list_elem_of_lookup_2|done].
Qed.

Lemma upd_list_id p f l : (∀ t, t ∈ l → ptr t = p → f t = t) → upd_list p f l = l.
Proof.
  intros H. rewrite (upd_list_ext p f (λ t, t)) by done. unfold upd_list.
  transitivity ((λ t, t) <$> l); [|apply list_fmap_id].
  apply list_fmap_ext. intros i t _. by case_match.
Qed.

Lemma upd_list_none p f l : p ∉ (ptr <$> l) → upd_list p f l = l.
Proof. intros H. apply upd_list_id. intros t Ht <-. destruct H. by apply list_elem_of_fmap_2. Qed.

(** * Reading tasks *)

Lemma get_task_elem p s t : get_task p s = Ret t → t ∈ tasks s ∧ ptr t = p.
Proof.
  unfold get_task. destruct (list_find _ _) as [[i u]|] eqn:E; [|done]. intros [= <-].
  apply list_find_Some in E as (Hi & Hp & _). split; [by eapply list_elem_of_lookup_2|done].
Qed.

Lemma get_task_of s t : NoDup (ptr <$> tasks s) → t ∈ tasks s → get_task (ptr t) s = Ret t.
Proof.
  intros Hn Ht. unfold get_task.
  destruct (list_find (λ u, ptr u = ptr t) (tasks s)) as [[i u]|] eqn:E.
  - apply list_find_Some in E as (Hi & Hp & _). f_equal.
    eapply (NoDup_fmap_inj ptr); eauto. by eapply list_elem_of_lookup_2.
  - apply list_find_None in E. rewrite Forall_forall in E. by destruct (E t Ht).
Qed.

Lemma get_task_ptr s p : NoDup (ptr <$> tasks s) → p ∈ (ptr <$> tasks s) → ∃ t, get_task p s = Ret t.
Proof. intros Hn (t & -> & Ht)%list_elem_of_fmap. exists t. by apply get_task_of. Qed.

Lemma get_task_with_lock_of s t :
  NoDup (id ∘ bits <$> tasks s) → t ∈ tasks s → get_task_with_lock (id (bits t)) s = Ret t.
Proof.
  intros Hn Ht. unfold get_task_with_lock.
  destruct (list_find (λ u, id (bits u) = id (bits t)) (tasks s)) as [[i u]|] eqn:E.
  - apply list_find_Some in E as (Hi & Hp & _). f_equal.
    eapply (NoDup_fmap_inj (id ∘ bits)); eauto. by eapply list_elem_of_lookup_2.
  - apply list_find_None in E. rewrite Forall_forall in E. by destruct (E t Ht).
Qed.

Lemma elem_of_last {A} (l : list A) x : last l = Some x → x ∈ l.
Proof. intros [l' ->]%last_Some. apply elem_of_app. right. by apply list_elem_of_singleton. Qed.

Lemma get_current_elem c s t :
  get_current_task_with_lock c s = Ret t → t ∈ tasks s ∧ runs_on (cpu_num c s) t = true.
Proof.
  unfold get_current_task_with_lock. destruct (last _) as [u|] eqn:E; [|done]. intros [= <-].
  apply elem_of_last, list_elem_of_filter in E as [Hr Ht]. split; [done|]. by apply Is_true_true.
Qed.

Lemma get_current_some c s : has_current c s → ∃ t, get_current_task_with_lock c s = Ret t.
Proof.
  intros (t & Ht & Hr). unfold get_current_task_with_lock.
  destruct (last _) as [u|] eqn:E; [eauto|]. apply last_None in E.
  assert (t ∈ filter (λ t, runs_on (cpu_num c s) t) (tasks s)) as H.
  { apply list_elem_of_filter. split; [by rewrite Hr|done]. }
  rewrite E in H. by apply elem_of_nil in H.
Qed.

(** * What an event can do to a task *)

(** What the task waits for may change; the rest stays. *)
Record evolved (t t' : task) : Prop := {
  ev_ptr : ptr t' = ptr t;
  ev_frames : cpu_frame t' = cpu_frame t ∧ cpu_state t' = cpu_state t ∧ fpu_sse_state t' = fpu_sse_state t;
  ev_rest : task_resources t' = task_resources t ∧ do_when_not_running t' = do_when_not_running t ∧ name t' = name t;
  ev_bits : let b := bits t in let b' := bits t' in
    priority_group b' = priority_group b ∧ running b' = running b ∧ end_ b' = end_ b ∧
    stack_quarantine b' = stack_quarantine b ∧ cpu_pinned b' = cpu_pinned b ∧ cpu b' = cpu b ∧
    points b' = points b ∧ id b' = id b ∧ working_for_task_id b' = working_for_task_id b;
  ev_resources : 0 ≤ resources (bits t) ≤ MAX_RESOURCES → 0 ≤ resources (bits t') ≤ MAX_RESOURCES;
  ev_blocked : blocked (bits t') = true → blocked (bits t) = true;
  ev_handlers : event_handlers t' `sublist_of` event_handlers t
}.

#[export] Instance evolved_preorder : PreOrder evolved.
Proof.
  split.
  - intros t. constructor; try done; tauto.
  - intros t u v [] []; constructor; try congruence.
    + destruct_and!; split_and!; congruence.
    + destruct_and!; split_and!; congruence.
    + simpl in *. destruct_and!; split_and!; congruence.
    + auto.
    + auto.
    + by etrans.
Qed.

Lemma evolved_core t t' :
  evolved t t' → ptr t' = ptr t ∧ id (bits t') = id (bits t) ∧ running (bits t') = running (bits t) ∧
                 cpu (bits t') = cpu (bits t).
Proof. intros [? _ _ Hb _ _ _]. simpl in Hb. tauto. Qed.

Lemma task_ok_evolved t t' : evolved t t' → task_ok t → task_ok t'.
Proof.
  intros [_ _ _ Hb Hr _ Hs] []. simpl in Hb. destruct Hb as (Hg & Hrun & _ & Hq & _ & _ & Hp & Hid & _).
  constructor.
  - by rewrite Hg.
  - by rewrite Hp.
  - auto.
  - rewrite Hq, Hrun. auto.
  - intros h Hh. rewrite Hid. apply ok_handlers0.
    by eapply elem_of_sublist.
  - eapply sublist_NoDup; [exact ok_handler_ptrs0|by apply fmap_sublist].
Qed.

Lemma evolved_set_blocked n t : evolved t (set_blocked n false t).
Proof. constructor; simpl; try done; tauto. Qed.

Lemma evolved_resource_acq r t : evolved t (resource_acq r t).
Proof.
  constructor; simpl; try done; try tauto. intros _. unfold MAX_RESOURCES.
  repeat case_match; lia.
Qed.

Lemma erase_handler_sublist p hs hs' : erase_handler p hs = Some hs' → hs' `sublist_of` hs.
Proof.
  revert hs'. induction hs as [|h hs IH]; intros hs'; simpl; [done|].
  case_match; [intros [= <-]; by apply sublist_cons|].
  destruct (erase_handler p hs); [|done]. intros [= <-]. apply sublist_skip. by apply IH.
Qed.

Lemma evolved_remove p t : evolved t (snd (remove_event_handler p t)).
Proof.
  unfold remove_event_handler. destruct (erase_handler p (event_handlers t)) as [hs|] eqn:E; [|done].
  constructor; simpl; try done; try tauto. by eapply erase_handler_sublist.
Qed.

(** * The events, task by task *)

(** Does the handler of a task take itself off at the event?  [mine] says
    whether the task is the one that runs on the CPU of the event. *)
Definition fires (mine : bool) (h : task_event_handler) (v0 v1 v2 : Z) : bool :=
  match eh_kind h with
  | task_join_handler _ other => (v0 =? TASK_EVENT_EXIT) && (v1 =? other)
  | task_nanos_handler _ wakeup => (v0 =? TASK_EVENT_NANOTIME) && (wakeup <=? v1)
  | task_timer100hz_handler _ wakeup | task_timeout100hz_handler _ wakeup _ =>
    (v0 =? TASK_EVENT_TIMER100HZ) && (wakeup <=? v1)
  | task_mutex_handler _ lockaddr ticket =>
    ((v0 =? TASK_EVENT_CLEAR_WAIT_MUTEX) && mine) ||
    ((v0 =? TASK_EVENT_MUTEX) && (v1 =? lockaddr) &&
     ((ticket <=? v2) || ((0xF8000000 <=? ticket) && (v2 <? 0x08000000))))
  | task_semaphore_handler _ lockaddr ticket =>
    ((v0 =? TASK_EVENT_CLEAR_WAIT_SEMAPHORE) && mine) ||
    ((v0 =? TASK_EVENT_SEMAPHORE) && (v1 =? lockaddr) && (v2 =? ticket))
  end.

(** What it does to the task when it fires, apart from that. *)
Definition wakes (h : task_event_handler) (v0 v2 : Z) (t : task) : task :=
  match eh_kind h with
  | task_join_handler _ _ => set_blocked eventunb false t
  | task_nanos_handler _ _ => set_blocked nanounbl false t
  | task_timer100hz_handler _ _ => set_blocked timeunbl false t
  | task_timeout100hz_handler _ _ _ => t
  | task_mutex_handler _ _ ticket =>
    if (v0 =? TASK_EVENT_MUTEX) && (v2 =? ticket) then resource_acq 1 (set_blocked mtxconti false t) else t
  | task_semaphore_handler _ _ ticket =>
    if v0 =? TASK_EVENT_SEMAPHORE then set_blocked semacont false t else t
  end.

Definition handle (mine : bool) (h : task_event_handler) (v0 v1 v2 : Z) (t : task) : task :=
  if fires mine h v0 v1 v2 then snd (remove_event_handler (eh_ptr h) (wakes h v0 v2 t)) else t.

Definition handle_all (mine : bool) (v0 v1 v2 : Z) (t : task) : task :=
  foldl (λ t h, handle mine h v0 v1 v2 t) t (event_handlers t).

Lemma evolved_wakes h v0 v2 t : evolved t (wakes h v0 v2 t).
Proof.
  unfold wakes. destruct (eh_kind h); try case_match; try apply evolved_set_blocked; try reflexivity.
  etrans; [apply evolved_set_blocked|apply evolved_resource_acq].
Qed.

Lemma evolved_handle mine h v0 v1 v2 t : evolved t (handle mine h v0 v1 v2 t).
Proof.
  unfold handle. case_match; [|done]. etrans; [apply evolved_wakes|apply evolved_remove].
Qed.

Lemma evolved_handle_all mine v0 v1 v2 t : evolved t (handle_all mine v0 v1 v2 t).
Proof.
  unfold handle_all. generalize (event_handlers t) as hs. intros hs. revert t.
  induction hs as [|h hs IH]; intros t; simpl; [done|]. etrans; [apply evolved_handle|apply IH].
Qed.

(** The state after events have been raised, and semaphores released. *)
Definition with_raised (s : tasklist) (evs : list event_call) (lim : Z → Z) : tasklist :=
  Tasklist (reaper_sema s) (tick_counter s) (serial s) (multicpu s) (tasks s) (task_delete_prequeue s)
           (task_delete_queue s) (events_in_event s ++ evs) (do_when_out_of_lock s) (actions s) lim.

(** The list of tasks changes at one task, and events may be raised. *)
Definition touches (t t' : task) (s s' : tasklist) : Prop :=
  evolved t t' ∧ ∃ evs lim, s' = with_raised (upd (ptr t) (λ _, t') s) evs lim.

Lemma with_raised_nil s : with_raised s [] (sema_limits s) = s.
Proof. destruct s. unfold with_raised. simpl. by rewrite app_nil_r. Qed.

Lemma upd_const s t f :
  NoDup (ptr <$> tasks s) → t ∈ tasks s → upd (ptr t) f s = upd (ptr t) (λ _, f t) s.
Proof.
  intros Hn Ht. unfold upd. f_equal. apply upd_list_ext. intros u Hu E.
  f_equal. by eapply (NoDup_fmap_inj ptr).
Qed.

Lemma touches_upd s t f :
  NoDup (ptr <$> tasks s) → t ∈ tasks s → evolved t (f t) → touches t (f t) s (upd (ptr t) f s).
Proof.
  intros Hn Ht Hf. split; [done|]. exists [], (sema_limits (upd (ptr t) f s)). rewrite <- upd_const by done.
  by rewrite with_raised_nil.
Qed.

Lemma touches_refl s t : NoDup (ptr <$> tasks s) → t ∈ tasks s → touches t t s s.
Proof.
  intros Hn Ht. split; [done|]. exists [], (sema_limits s).
  assert (upd (ptr t) (λ _, t) s = s) as ->; [|by rewrite with_raised_nil]. unfold upd.
  rewrite upd_list_id; [by destruct s|]. intros u Hu E. by eapply (NoDup_fmap_inj ptr).
Qed.

Lemma touches_trans s s1 s2 t t1 t2 : touches t t1 s s1 → touches t1 t2 s1 s2 → touches t t2 s s2.
Proof.
  intros [E (evs & lim & ->)] [E' (evs' & lim' & ->)]. split; [by etrans|]. exists (evs ++ evs'), lim'.
  unfold upd, with_raised, with_tasks. simpl. f_equal; [|by rewrite app_assoc].
  rewrite (ev_ptr _ _ E). unfold upd_list. rewrite <- list_fmap_compose. apply list_fmap_ext.
  intros i u _. simpl. destruct (Z.eqb_spec (ptr u) (ptr t)) as [Hu|Hu].
  - by rewrite (ev_ptr _ _ E), Z.eqb_refl.
  - by rewrite (proj2 (Z.eqb_neq _ _)).
Qed.

Lemma touches_elem t t' s s' u :
  touches t t' s s' → u ∈ tasks s' → (u = t' ∧ ∃ v, v ∈ tasks s ∧ ptr v = ptr t) ∨ u ∈ tasks s ∧ ptr u ≠ ptr t.
Proof.
  intros [E (evs & lim & ->)]. simpl. rewrite elem_of_upd_list. intros (v & Hv & ->).
  destruct (Z.eqb_spec (ptr v) (ptr t)); eauto.
Qed.

Lemma touches_fmap {B} (g : task → B) t t' s s' :
  touches t t' s s' → NoDup (ptr <$> tasks s) → t ∈ tasks s → g t' = g t → g <$> tasks s' = g <$> tasks s.
Proof.
  intros [E (evs & lim & ->)] Hn Ht Hg. simpl. apply upd_list_fmap. intros u Hu Ep.
  rewrite Hg. f_equal. by eapply (NoDup_fmap_inj ptr).
Qed.

Lemma touches_in t t' s s' : touches t t' s s' → t ∈ tasks s → t' ∈ tasks s'.
Proof.
  intros [E (evs & lim & ->)] Ht. simpl. apply elem_of_upd_list. exists t. by rewrite Z.eqb_refl.
Qed.

Lemma touches_other t t' s s' u : touches t t' s s' → u ∈ tasks s → ptr u ≠ ptr t → u ∈ tasks s'.
Proof.
  intros [E (evs & lim & ->)] Hu Hne. simpl. apply elem_of_upd_list. exists u.
  by rewrite (proj2 (Z.eqb_neq _ _)).
Qed.

Lemma touches_multicpu t t' s s' : touches t t' s s' → multicpu s' = multicpu s.
Proof. by intros [E (evs & lim & ->)]. Qed.

(** A task of the new list and the task it comes from. *)
Lemma touches_from t t' s s' u :
  touches t t' s s' → NoDup (ptr <$> tasks s) → t ∈ tasks s → u ∈ tasks s' → ∃ v, v ∈ tasks s ∧ evolved v u.
Proof.
  intros T Hn Ht Hu. destruct (touches_elem _ _ _ _ _ T Hu) as [[-> _]|[Hu' _]]; [|by exists u].
  exists t. split; [done|apply T].
Qed.

(** What the scheduler tells tasks and their CPUs apart by. *)
Definition core (t : task) : Z * Z * bool * Z := (ptr t, id (bits t), running (bits t), cpu (bits t)).

Lemma core_from s s' t' :
  core <$> tasks s' = core <$> tasks s → t' ∈ tasks s' → ∃ t, t ∈ tasks s ∧ core t = core t'.
Proof.
  intros E Ht'. apply (list_elem_of_fmap_2 core) in Ht'. rewrite E in Ht'.
  apply list_elem_of_fmap in Ht' as (t & Ec & Ht). eauto.
Qed.

Lemma core_fmap {B} (g : Z * Z * bool * Z → B) s s' :
  core <$> tasks s' = core <$> tasks s → g ∘ core <$> tasks s' = g ∘ core <$> tasks s.
Proof. intros E. by rewrite !list_fmap_compose, E. Qed.

Lemma core_wf s s' :
  core <$> tasks s' = core <$> tasks s → multicpu s' = multicpu s → (∀ t, t ∈ tasks s' → task_ok t) →
  sched_wf s → sched_wf s'.
Proof.
  intros E Hm Hok [_ Hp Hi Hr H0]. constructor; [done| | | |].
  - change (NoDup ((λ '(p, _, _, _), p) ∘ core <$> tasks s')). by rewrite (core_fmap _ s s' E).
  - change (NoDup ((λ '(_, i, _, _), i) ∘ core <$> tasks s')). by rewrite (core_fmap _ s s' E).
  - intros u u' Hu Hu'. rewrite Hm.
    destruct (core_from s s' u E Hu) as (v & Hv & [= <- _ <- <-]).
    destruct (core_from s s' u' E Hu') as (v' & Hv' & [= <- _ <- <-]). eauto.
  - rewrite Hm. intros Hs u Hu. destruct (core_from s s' u E Hu) as (v & Hv & [= _ _ _ <-]). eauto.
Qed.

Lemma core_current c s s' r :
  sched_wf s → core <$> tasks s' = core <$> tasks s → multicpu s' = multicpu s →
  get_current_task_with_lock c s = Ret r →
  ∃ r', get_current_task_with_lock c s' = Ret r' ∧ core r' = core r.
Proof.
  intros W E Hm Hr. destruct (get_current_elem _ _ _ Hr) as [Hin Hon].
  destruct (get_current_some c s') as [r' Hr'].
  { destruct (core_from s' s r (eq_sym E) Hin) as (u & Hu & [= _ _ Hrun Hcpu]). exists u. split; [done|].
    unfold runs_on, cpu_num in *. by rewrite Hm, Hrun, Hcpu. }
  exists r'. split; [done|]. destruct (get_current_elem _ _ _ Hr') as [Hin' Hon'].
  destruct (core_from s s' r' E Hin') as (v & Hv & Ec). rewrite <- Ec. f_equal.
  injection Ec as _ _ Er Ecpu. unfold runs_on, cpu_num in *. rewrite Hm, <- Er, <- Ecpu in Hon'.
  apply andb_true_iff in Hon as [Hc%Z.eqb_eq Hrun], Hon' as [Hc'%Z.eqb_eq Hrun'].
  apply (NoDup_fmap_inj ptr (tasks s)); [apply W|done|done|].
  apply (wf_running _ W); try done. right. congruence.
Qed.

Lemma evolved_core_eq t t' : evolved t t' → core t' = core t.
Proof. intros (Hp & Hi & Hr & Hc)%evolved_core. unfold core. congruence. Qed.

Lemma touches_core t t' s s' :
  touches t t' s s' → NoDup (ptr <$> tasks s) → t ∈ tasks s → core <$> tasks s' = core <$> tasks s.
Proof. intros T Hn Ht. eapply touches_fmap; eauto. apply evolved_core_eq, T. Qed.

Lemma touches_wf t t' s s' : touches t t' s s' → t ∈ tasks s → sched_wf s → sched_wf s'.
Proof.
  intros T Ht W. apply (core_wf s); [by eapply touches_core; [|apply W|]|by eapply touches_multicpu| |done].
  intros u Hu. destruct (touches_from _ _ _ _ _ T (wf_ptrs _ W) Ht Hu) as (v & Hv & E).
  eapply task_ok_evolved; [exact E|]. by apply (wf_tasks _ W).
Qed.

Lemma evolved_runs c t t' : evolved t t' → runs_on c t' = runs_on c t.
Proof. intros (_ & _ & Hr & Hc)%evolved_core. unfold runs_on. congruence. Qed.

Lemma touches_cpu_num c t t' s s' : touches t t' s s' → cpu_num c s' = cpu_num c s.
Proof. intros T. unfold cpu_num. by rewrite (touches_multicpu _ _ _ _ T). Qed.

Lemma touches_current c t t' s s' :
  touches t t' s s' → NoDup (ptr <$> tasks s) → t ∈ tasks s → has_current c s → has_current c s'.
Proof.
  intros T Hn Ht (u & Hu & Hr). unfold has_current. rewrite (touches_cpu_num _ _ _ _ _ T).
  destruct (decide (ptr u = ptr t)) as [E|E].
  - assert (u = t) as -> by (by eapply (NoDup_fmap_inj ptr)). exists t'.
    split; [by eapply touches_in|]. rewrite (evolved_runs _ t); [done|apply T].
  - exists u. split; [by eapply touches_other|done].
Qed.

(** ** One handler *)

Lemma erase_handler_some p hs : p ∈ (eh_ptr <$> hs) → ∃ hs', erase_handler p hs = Some hs'.
Proof.
  induction hs as [|h hs IH]; simpl; [intros H; by apply elem_of_nil in H|].
  intros [->|H]%elem_of_cons; [rewrite Z.eqb_refl; eauto|].
  destruct (eh_ptr h =? p); [eauto|]. destruct (IH H) as [hs' ->]. simpl. eauto.
Qed.

Lemma remove_or_panic_spec p s t :
  NoDup (ptr <$> tasks s) → t ∈ tasks s → p ∈ (eh_ptr <$> event_handlers t) →
  ∃ s', remove_or_panic p (ptr t) s = Ret s' ∧ touches t (snd (remove_event_handler p t)) s s'.
Proof.
  intros Hn Ht Hp. unfold remove_or_panic. rewrite get_task_of by done. cbn [mbind outcome_bind].
  destruct (erase_handler_some p _ Hp) as [hs' E].
  assert (fst (remove_event_handler p t) = true) as -> by (unfold remove_event_handler; by rewrite E).
  eexists. split; [done|]. apply (touches_upd s t (λ t, snd (remove_event_handler p t))); [done|done|].
  apply evolved_remove.
Qed.

(** A task that is woken, and then loses the handler. *)
Lemma wake_remove_spec p f s t :
  NoDup (ptr <$> tasks s) → t ∈ tasks s → evolved t (f t) → event_handlers (f t) = event_handlers t →
  p ∈ (eh_ptr <$> event_handlers t) →
  ∃ s', remove_or_panic p (ptr t) (upd (ptr t) f s) = Ret s' ∧
        touches t (snd (remove_event_handler p (f t))) s s'.
Proof.
  intros Hn Ht Hf Hh Hp. pose proof (touches_upd s t f Hn Ht Hf) as T.
  destruct (remove_or_panic_spec p (upd (ptr t) f s) (f t)) as (s' & E & T').
  - rewrite (touches_fmap ptr _ _ _ _ T); [done..|apply Hf].
  - by eapply touches_in.
  - by rewrite Hh.
  - rewrite (ev_ptr _ _ Hf) in E. exists s'. split; [done|]. by eapply touches_trans.
Qed.

Lemma unblock_and_remove_spec n p s t :
  NoDup (ptr <$> tasks s) → t ∈ tasks s →
  touches t (snd (remove_event_handler p (set_blocked n false t))) s (unblock_and_remove n p (ptr t) s).
Proof.
  intros Hn Ht. pose proof (touches_upd s t _ Hn Ht (evolved_set_blocked n t)) as T.
  eapply touches_trans; [exact T|].
  apply (touches_upd (upd (ptr t) (set_blocked n false) s) (set_blocked n false t)
           (λ t, snd (remove_event_handler p t))).
  - by rewrite (touches_fmap ptr _ _ _ _ T).
  - by eapply touches_in.
  - apply evolved_remove.
Qed.

Section handler_event.

Context (c : Z) (s : tasklist) (t r : task) (h : task_event_handler).
Context (W : sched_wf s) (Ht : t ∈ tasks s) (Hh : h ∈ event_handlers t).
Context (Hr : get_current_task_with_lock c s = Ret r).

Lemma handler_own : get_task_with_lock (handler_task h) s = Ret t.
Proof.
  rewrite (ok_handlers t (wf_tasks _ W t Ht) h Hh). apply get_task_with_lock_of; [apply W|done].
Qed.

Lemma handler_ptr_in : eh_ptr h ∈ (eh_ptr <$> event_handlers t).
Proof. by apply list_elem_of_fmap_2. Qed.

Lemma handler_mine : (handler_task h =? id (bits r)) = true → r = t.
Proof.
  intros E%Z.eqb_eq. rewrite (ok_handlers t (wf_tasks _ W t Ht) h Hh) in E.
  destruct (get_current_elem _ _ _ Hr) as [Hin _].
  apply (NoDup_fmap_inj (id ∘ bits) (tasks s)); [apply W|done|done|by symmetry].
Qed.

(** The virtual call has the effect [handle] describes on the task the
    handler belongs to and does not panic. *)
Lemma handler_event_spec v0 v1 v2 :
  ∃ s', handler_event c h v0 v1 v2 s = Ret s' ∧
        touches t (handle (id (bits t) =? id (bits r)) h v0 v1 v2 t) s s'.
Proof.
  pose proof (wf_ptrs _ W) as Hn. pose proof handler_own as Ho. pose proof handler_ptr_in as Hp.
  pose proof handler_mine as Hm.
  assert (handler_task h = id (bits t)) as Hi by apply (ok_handlers t (wf_tasks _ W t Ht) h Hh).
  unfold handler_event, handle, fires, wakes.
  unfold handler_task in *. destruct h as [p k]; destruct k; simpl in *; subst.
  all: unfold join_event, nanos_event, timer100hz_event, timeout100hz_event, mutex_event, semaphore_event.
  all: rewrite ?Ho, ?Hr; cbn [mbind outcome_bind].
  - case_match; [|eauto using touches_refl]. eexists. split; [done|]. by apply unblock_and_remove_spec.
  - case_match; [|eauto using touches_refl]. eexists. split; [done|]. by apply unblock_and_remove_spec.
  - case_match; [|eauto using touches_refl]. eexists. split; [done|]. by apply unblock_and_remove_spec.
  - case_match; [|eauto using touches_refl]. eexists. split; [done|].
    split; [apply evolved_remove|]. rewrite upd_const by done. by eexists [_], _.
  - destruct (_ && _) eqn:E; cbn [orb].
    { apply andb_true_iff in E as [E1 E2]. specialize (Hm E2) as ->.
      apply Z.eqb_eq in E1. subst. apply remove_or_panic_spec; done. }
    destruct ((v0 =? TASK_EVENT_MUTEX) && (v1 =? lockaddr)) eqn:E2; cbn [andb]; [|eauto using touches_refl].
    destruct (_ || _) eqn:E3; [|eauto using touches_refl].
    apply andb_true_iff in E2 as [-> _]. cbn [andb]. destruct (v2 =? ticket_number).
    + set (s1 := upd (ptr t) (set_blocked mtxconti false) s).
      assert (touches t (set_blocked mtxconti false t) s s1) as T by (by apply touches_upd, evolved_set_blocked).
      destruct (wake_remove_spec p (resource_acq 1) s1 (set_blocked mtxconti false t)) as (s' & E4 & T').
      * by rewrite (touches_fmap ptr _ _ _ _ T).
      * by eapply touches_in.
      * apply evolved_resource_acq.
      * done.
      * done.
      * exists s'. split; [done|]. by eapply touches_trans.
    + by apply remove_or_panic_spec.
  - destruct (_ && _) eqn:E; cbn [orb].
    { apply andb_true_iff in E as [E1 E2]. specialize (Hm E2) as ->.
      apply Z.eqb_eq in E1. subst. by apply remove_or_panic_spec. }
    destruct ((v0 =? TASK_EVENT_SEMAPHORE) && (v1 =? lockaddr)) eqn:E2; cbn [andb]; [|eauto using touches_refl].
    destruct (v2 =? ticket_number); [|eauto using touches_refl].
    apply andb_true_iff in E2 as [-> _].
    apply (wake_remove_spec p (set_blocked semacont false)); by (done || apply evolved_set_blocked).
Qed.

End handler_event.

(** ** All handlers of a task *)

Lemma erase_handler_keeps p hs hs' h :
  erase_handler p hs = Some hs' → h ∈ hs → eh_ptr h ≠ p → h ∈ hs'.
Proof.
  revert hs'. induction hs as [|h' hs IH]; intros hs'; simpl; [done|].
  destruct (Z.eqb_spec (eh_ptr h') p) as [E|E].
  - intros [= <-] [->|H]%elem_of_cons Hne; done.
  - destruct (erase_handler p hs) as [hs''|]; [|done]. intros [= <-] [->|H]%elem_of_cons Hne.
    + left.
    + right. by apply IH.
Qed.

Lemma wakes_handlers h v0 v2 t : event_handlers (wakes h v0 v2 t) = event_handlers t.
Proof. unfold wakes. destruct (eh_kind h); try case_match; done. Qed.

Lemma handle_keeps mine h v0 v1 v2 t h' :
  h' ∈ event_handlers t → eh_ptr h' ≠ eh_ptr h → h' ∈ event_handlers (handle mine h v0 v1 v2 t).
Proof.
  intros H Hne. unfold handle. destruct (fires _ _ _ _ _); [|done]. unfold remove_event_handler.
  destruct (erase_handler _ _) eqn:E; simpl; rewrite ?wakes_handlers in *; [|done].
  by eapply erase_handler_keeps.
Qed.

Lemma touches_get_current c t t' s s' r :
  sched_wf s → t ∈ tasks s → touches t t' s s' → get_current_task_with_lock c s = Ret r →
  ∃ r', get_current_task_with_lock c s' = Ret r' ∧ id (bits r') = id (bits r).
Proof.
  intros W Ht T Hr.
  destruct (core_current c s s' r W) as (r' & Hr' & [= _ Hi _ _]); [|by eapply touches_multicpu|done|eauto].
  by eapply touches_core; [|apply W|].
Qed.

Lemma handlers_loop c v0 v1 v2 hs : ∀ s t r,
  sched_wf s → t ∈ tasks s → get_current_task_with_lock c s = Ret r →
  (∀ h, h ∈ hs → h ∈ event_handlers t) → NoDup (eh_ptr <$> hs) →
  ∃ s', foldM (λ h, handler_event c h v0 v1 v2) hs s = Ret s' ∧
        touches t (foldl (λ t h, handle (id (bits t) =? id (bits r)) h v0 v1 v2 t) t hs) s s'.
Proof.
  induction hs as [|h hs IH]; intros s t r W Ht Hr Hin Hnd; simpl.
  { exists s. split; [done|]. apply touches_refl; [apply W|done]. }
  apply NoDup_cons in Hnd as [Hh Hnd].
  destruct (handler_event_spec c s t r h W Ht (Hin h (list_elem_of_here _ _)) Hr v0 v1 v2) as (s1 & E1 & T1).
  rewrite E1. cbn [mbind outcome_bind].
  destruct (touches_get_current c _ _ _ _ r W Ht T1 Hr) as (r1 & Hr1 & Hid).
  destruct (IH s1 _ r1 (touches_wf _ _ _ _ T1 Ht W) (touches_in _ _ _ _ T1 Ht) Hr1) as (s' & E' & T').
  - intros h' Hh'. apply handle_keeps; [apply Hin; by right|]. intros E.
    destruct Hh. rewrite <- E. by apply list_elem_of_fmap_2.
  - done.
  - exists s'. split; [done|]. rewrite Hid in T'. by eapply touches_trans.
Qed.

Lemma foldl_mine c v0 v1 v2 hs : ∀ t,
  foldl (λ t h, handle (id (bits t) =? c) h v0 v1 v2 t) t hs =
  foldl (λ t' h, handle (id (bits t) =? c) h v0 v1 v2 t') t hs.
Proof.
  induction hs as [|h hs IH]; intros t; simpl; [done|]. rewrite IH.
  destruct (evolved_core _ _ (evolved_handle (id (bits t) =? c) h v0 v1 v2 t)) as (_ & -> & _). done.
Qed.

Lemma task_event_spec c v0 v1 v2 s t r :
  sched_wf s → t ∈ tasks s → get_current_task_with_lock c s = Ret r →
  ∃ s', task_event c (ptr t) v0 v1 v2 s = Ret s' ∧
        touches t (handle_all (id (bits t) =? id (bits r)) v0 v1 v2 t) s s'.
Proof.
  intros W Ht Hr. unfold task_event. rewrite get_task_of; [|apply W|done]. cbn [mbind outcome_bind].
  destruct (handlers_loop c v0 v1 v2 (event_handlers t) s t r W Ht Hr) as (s' & E & T).
  - done.
  - apply (ok_handler_ptrs _ (wf_tasks _ W t Ht)).
  - exists s'. split; [done|]. unfold handle_all. by rewrite foldl_mine in T.
Qed.

(** ** All tasks *)

(** The tasks whose addresses are in [l] have had the event. *)
Definition heard (r v0 v1 v2 : Z) (l : list Z) (t : task) : task :=
  if bool_decide (ptr t ∈ l) then handle_all (id (bits t) =? r) v0 v1 v2 t else t.

Lemma touches_heard c v0 v1 v2 t r s s' :
  NoDup (ptr <$> tasks s) → t ∈ tasks s →
  touches t (handle_all c v0 v1 v2 t) s s' → c = (id (bits t) =? r) →
  tasks s' = heard r v0 v1 v2 [ptr t] <$> tasks s.
Proof.
  intros Hn Ht [_ (evs & lim & ->)] ->. simpl. apply list_fmap_ext. intros i u Hu%list_elem_of_lookup_2.
  unfold heard. destruct (Z.eqb_spec (ptr u) (ptr t)) as [E|E].
  - rewrite bool_decide_eq_true_2 by (rewrite E; apply list_elem_of_here).
    assert (u = t) as -> by (by eapply (NoDup_fmap_inj ptr)). done.
  - rewrite bool_decide_eq_false_2; [done|]. by rewrite list_elem_of_singleton.
Qed.

(** Everything but the tasks, and what has been called and raised, is the
    same. *)
Definition same_queues (s s' : tasklist) : Prop :=
  reaper_sema s' = reaper_sema s ∧ serial s' = serial s ∧ multicpu s' = multicpu s ∧
  task_delete_prequeue s' = task_delete_prequeue s ∧ task_delete_queue s' = task_delete_queue s ∧
  do_when_out_of_lock s' = do_when_out_of_lock s.

#[export] Instance same_queues_preorder : PreOrder same_queues.
Proof.
  split; [done|]. unfold same_queues. intros s s1 s2 ? ?. destruct_and!. split_and!; congruence.
Qed.

Lemma touches_queues t t' s s' : touches t t' s s' → same_queues s s' ∧ tick_counter s' = tick_counter s.
Proof. by intros [_ (evs & lim & ->)]. Qed.

Lemma heard_ptr r v0 v1 v2 l t : ptr (heard r v0 v1 v2 l t) = ptr t.
Proof. unfold heard. case_match; [|done]. apply evolved_handle_all. Qed.

Lemma heard_cons r v0 v1 v2 p l (ts : list task) :
  p ∉ l → heard r v0 v1 v2 l <$> (heard r v0 v1 v2 [p] <$> ts) = heard r v0 v1 v2 (p :: l) <$> ts.
Proof.
  intros Hp. rewrite <- list_fmap_compose. apply list_fmap_ext. intros i t _. simpl.
  unfold heard at 1. rewrite heard_ptr. unfold heard.
  destruct (decide (ptr t = p)) as [E|E].
  - rewrite (bool_decide_eq_false_2 (ptr t ∈ l)) by congruence.
    rewrite !bool_decide_eq_true_2; [done|rewrite E; apply list_elem_of_here..].
  - rewrite (bool_decide_eq_false_2 (ptr t ∈ [p])) by (by rewrite list_elem_of_singleton).
    destruct (decide (ptr t ∈ l)).
    + rewrite !bool_decide_eq_true_2; [done|by right|done].
    + rewrite !bool_decide_eq_false_2; [done| |done]. rewrite elem_of_cons. tauto.
Qed.

Lemma tasks_loop c v0 v1 v2 l : ∀ s r,
  sched_wf s → get_current_task_with_lock c s = Ret r → NoDup l → (∀ p, p ∈ l → p ∈ (ptr <$> tasks s)) →
  ∃ s', foldM (λ p, task_event c p v0 v1 v2) l s = Ret s' ∧ sched_wf s' ∧ has_current c s' ∧
        tasks s' = heard (id (bits r)) v0 v1 v2 l <$> tasks s ∧
        same_queues s s' ∧ tick_counter s' = tick_counter s.
Proof.
  induction l as [|p l IH]; intros s r W Hr Hnd Hin; simpl.
  { exists s. split_and!; try done.
    - by exists r; apply get_current_elem.
    - rewrite <- (list_fmap_id (tasks s)) at 1. by apply list_fmap_ext. }
  apply NoDup_cons in Hnd as [Hp Hnd].
  destruct (proj1 (list_elem_of_fmap _ _ _) (Hin p (list_elem_of_here _ _))) as (t & -> & Ht).
  destruct (task_event_spec c v0 v1 v2 s t r W Ht Hr) as (s1 & E1 & T1). rewrite E1. cbn [mbind outcome_bind].
  pose proof (touches_heard _ v0 v1 v2 t (id (bits r)) s s1 (wf_ptrs _ W) Ht T1 eq_refl) as Hts.
  destruct (touches_get_current c _ _ _ _ r W Ht T1 Hr) as (r1 & Hr1 & Hid).
  destruct (IH s1 r1 (touches_wf _ _ _ _ T1 Ht W) Hr1 Hnd) as (s' & E' & W' & Hc & Hts' & Hq & Htk).
  - intros q Hq. rewrite (touches_fmap ptr _ _ _ _ T1); [|apply W|done|apply T1].
    apply Hin. by right.
  - destruct (touches_queues _ _ _ _ T1) as [Hq1 Htk1].
    exists s'. split_and!; try done.
    + by rewrite Hts', Hid, Hts, heard_cons.
    + by etrans.
    + congruence.
Qed.

(** ** What timeouts raise *)

(** The semaphore that a handler releases at the event. *)
Definition due (v0 v1 : Z) (h : task_event_handler) : list Z :=
  match eh_kind h with
  | task_timeout100hz_handler _ wakeup sema =>
    if (v0 =? TASK_EVENT_TIMER100HZ) && (wakeup <=? v1) then [sema] else []
  | _ => []
  end.

Definition due_semas (v0 v1 : Z) (ts : list task) : list Z := ts ≫= λ t, event_handlers t ≫= due v0 v1.

(** The semaphores are released in turn. *)
Definition release_all (l : list Z) (s : tasklist) : tasklist := foldl (λ s a, release_from_event a s) s l.

Definition same_events (s s' : tasklist) : Prop :=
  events_in_event s' = events_in_event s ∧ sema_limits s' = sema_limits s.

#[export] Instance same_events_equiv : Equivalence same_events.
Proof.
  split; [done|by intros s s' []|]. intros s s1 s2 [] []. split; congruence.
Qed.

Lemma release_all_same l s s' : same_events s s' → same_events (release_all l s) (release_all l s').
Proof.
  revert s s'. induction l as [|a l IH]; intros s s' H; [done|]. cbn [release_all foldl]. apply IH.
  destruct H as [He Hl]. split; cbn; by rewrite ?He, Hl.
Qed.

Lemma foldM_raises {A} (f : A → tasklist → outcome tasklist) (g : A → list Z) l s s' :
  (∀ x s s', x ∈ l → f x s = Ret s' → same_events (release_all (g x) s) s') →
  foldM f l s = Ret s' → same_events (release_all (l ≫= g) s) s'.
Proof.
  revert s. induction l as [|x l IH]; intros s Hf; simpl; [by intros [= <-]|].
  destruct (f x s) as [s1| | |] eqn:E; try done. cbn [mbind outcome_bind]. intros H.
  unfold release_all. rewrite foldl_app. etrans; [|apply (IH s1); [|exact H]].
  - apply release_all_same. apply Hf; [left|done].
  - intros y u u' Hy. apply Hf. by right.
Qed.

Lemma handler_event_raises c h v0 v1 v2 s s' :
  handler_event c h v0 v1 v2 s = Ret s' → same_events (release_all (due v0 v1 h) s) s'.
Proof.
  unfold handler_event, due. destruct h as [p k]; destruct k; simpl;
    unfold join_event, nanos_event, timer100hz_event, timeout100hz_event, mutex_event, semaphore_event,
      remove_or_panic, mbind, outcome_bind;
    repeat case_match; intros; simplify_eq; done.
Qed.

Lemma tasks_raise c v0 v1 v2 us : ∀ s r s',
  sched_wf s → get_current_task_with_lock c s = Ret r → NoDup (ptr <$> us) → (∀ t, t ∈ us → t ∈ tasks s) →
  foldM (λ p, task_event c p v0 v1 v2) (ptr <$> us) s = Ret s' →
  same_events (release_all (due_semas v0 v1 us) s) s'.
Proof.
  induction us as [|t us IH]; intros s r s' W Hr Hnd Hin; simpl; [by intros [= <-]|].
  apply NoDup_cons in Hnd as [Hp Hnd]. pose proof (Hin t (list_elem_of_here _ _)) as Ht.
  destruct (task_event_spec c v0 v1 v2 s t r W Ht Hr) as (s1 & E1 & T1). rewrite E1. cbn [mbind outcome_bind].
  destruct (touches_get_current c _ _ _ _ r W Ht T1 Hr) as (r1 & Hr1 & _). intros H.
  unfold due_semas, release_all. simpl. rewrite foldl_app.
  etrans; [|apply (IH s1 r1); [by eapply touches_wf|done|done| |exact H]].
  - apply release_all_same. unfold task_event in E1. rewrite get_task_of in E1 by (apply W || done).
    eapply foldM_raises; [|exact E1]. intros h u u' _. apply handler_event_raises.
  - intros u Hu. eapply touches_other; [done|apply Hin; by right|]. intros E. apply Hp. rewrite <- E.
    by apply list_elem_of_fmap_2.
Qed.

(** ** Events *)

(** What an event does to a task that does not run on the CPU of the event,
    or to the one that does, with its change of resources. *)
Definition after_event (r : task) (v0 v1 v2 res_acq : Z) (t : task) : task :=
  let t' := handle_all (id (bits t) =? id (bits r)) v0 v1 v2 t in
  if (res_acq =? 0) || negb (ptr t =? ptr r) then t' else resource_acq res_acq t'.

Lemma evolved_after_event r v0 v1 v2 res_acq t : evolved t (after_event r v0 v1 v2 res_acq t).
Proof.
  unfold after_event. case_match; [apply evolved_handle_all|].
  etrans; [apply evolved_handle_all|apply evolved_resource_acq].
Qed.

Lemma after_event_core r v0 v1 v2 res_acq (ts : list task) :
  core <$> (after_event r v0 v1 v2 res_acq <$> ts) = core <$> ts.
Proof.
  rewrite <- list_fmap_compose. apply list_fmap_ext. intros i t _. apply evolved_core_eq, evolved_after_event.
Qed.

Lemma wf_counters s a b c : sched_wf s → sched_wf (with_counters s a b c (multicpu s)).
Proof. by intros []; constructor. Qed.

Lemma wf_upd_evolved s t f :
  sched_wf s → t ∈ tasks s → evolved t (f t) → sched_wf (upd (ptr t) f s).
Proof. intros W Ht Hf. eapply touches_wf; [|exact Ht|done]. apply touches_upd; [apply W|done..]. Qed.

Lemma current_unique c s r t :
  sched_wf s → get_current_task_with_lock c s = Ret r → t ∈ tasks s → runs_on (cpu_num c s) t = true → t = r.
Proof.
  intros W Hr Ht Hon. destruct (get_current_elem _ _ _ Hr) as [Hin Hon']. unfold runs_on in *.
  apply andb_true_iff in Hon as [Hc%Z.eqb_eq Hrun], Hon' as [Hc'%Z.eqb_eq Hrun'].
  apply (NoDup_fmap_inj ptr (tasks s)); [apply W|done|done|].
  apply (wf_running _ W); try done. right. congruence.
Qed.

Lemma event_with_lock_spec c v0 v1 v2 res_acq s r :
  sched_wf s → get_current_task_with_lock c s = Ret r →
  ∃ s', event_with_lock c v0 v1 v2 res_acq s = Ret s' ∧ sched_wf s' ∧ has_current c s' ∧
        tasks s' = after_event r v0 v1 v2 res_acq <$> tasks s ∧ same_queues s s' ∧
        tick_counter s' = (if v0 =? TASK_EVENT_TIMER100HZ then v1 else tick_counter s) ∧
        same_events (release_all (due_semas v0 v1 (tasks s)) s) s'.
Proof.
  intros W Hr. unfold event_with_lock.
  set (s0 := if v0 =? TASK_EVENT_TIMER100HZ then _ else s).
  assert (sched_wf s0 ∧ get_current_task_with_lock c s0 = Ret r ∧ tasks s0 = tasks s ∧ same_queues s s0 ∧
          tick_counter s0 = (if v0 =? TASK_EVENT_TIMER100HZ then v1 else tick_counter s) ∧ same_events s s0)
    as (W0 & Hr0 & Ht0 & Hq0 & Htk0 & He0).
  { subst s0. case_match; split_and!; try done. by apply wf_counters. }
  destruct (tasks_loop c v0 v1 v2 (ptr <$> tasks s0) s0 r W0 Hr0 (wf_ptrs _ W0)) as
    (s1 & E1 & W1 & Hc1 & Hts1 & Hq1 & Htk1); [done|].
  assert (same_events (release_all (due_semas v0 v1 (tasks s)) s) s1) as He1.
  { rewrite <- Ht0. etrans; [by apply release_all_same|]. apply (tasks_raise c v0 v1 v2 (tasks s0) s0 r); [done|done|apply W0|done|done]. }
  rewrite E1. cbn [mbind outcome_bind].
  assert (tasks s1 = (λ t, handle_all (id (bits t) =? id (bits r)) v0 v1 v2 t) <$> tasks s) as Hts.
  { rewrite Hts1, Ht0. apply list_fmap_ext. intros i t Hi%list_elem_of_lookup_2. unfold heard.
    rewrite bool_decide_eq_true_2; [done|]. by apply list_elem_of_fmap_2. }
  destruct (res_acq =? 0) eqn:Era.
  { exists s1. split_and!; try done.
    - rewrite Hts. apply list_fmap_ext. intros i t _. unfold after_event. by rewrite Era.
    - by etrans.
    - congruence. }
  destruct (get_current_some c s1 Hc1) as [r1 Hr1]. rewrite Hr1. cbn [mbind outcome_bind].
  destruct (get_current_elem _ _ _ Hr1) as [Hin1 Hon1].
  assert (ptr r1 = ptr r) as Hp.
  { rewrite Hts in Hin1. apply list_elem_of_fmap in Hin1 as (u & -> & Hu).
    pose proof (evolved_handle_all (id (bits u) =? id (bits r)) v0 v1 v2 u) as E.
    rewrite (evolved_runs _ _ _ E) in Hon1. rewrite (ev_ptr _ _ E). f_equal.
    apply (current_unique c s r u W Hr Hu). unfold cpu_num in *.
    destruct Hq0 as (_ & _ & Hm0 & _), Hq1 as (_ & _ & Hm1 & _). by rewrite Hm1, Hm0 in Hon1. }
  eexists. split_and!; [done| | | | | |exact He1].
  - apply wf_upd_evolved; [done..|]. apply evolved_resource_acq.
  - eapply touches_current; [|apply W1|exact Hin1|done].
    apply touches_upd; [apply W1|done|apply evolved_resource_acq].
  - simpl. rewrite Hts, Hp. unfold upd_list. rewrite <- list_fmap_compose.
    apply list_fmap_ext. intros i t _. simpl. unfold after_event. rewrite Era. cbn [orb].
    rewrite (ev_ptr _ _ (evolved_handle_all _ _ _ _ _)). by destruct (ptr t =? ptr r).
  - by etrans; [exact Hq0|].
  - simpl. congruence.
Qed.

(** The tasks hear events one after another. *)
Definition hear_all (r : task) (evs : list event_call) (ts : list task) : list task :=
  foldl (λ ts e, after_event r (ev_v0 e) (ev_v1 e) (ev_v2 e) (s8 (ev_res_acq e)) <$> ts) ts evs.

Lemma after_event_current r r' v0 v1 v2 res_acq t :
  core r' = core r → after_event r' v0 v1 v2 res_acq t = after_event r v0 v1 v2 res_acq t.
Proof. intros [= Hp Hi _ _]. unfold after_event. by rewrite Hp, Hi. Qed.

Lemma hear_all_current r r' evs ts : core r' = core r → hear_all r' evs ts = hear_all r evs ts.
Proof.
  intros Hcore. unfold hear_all. revert ts. induction evs as [|e evs IH]; intros ts; [done|]. cbn [foldl].
  rewrite <- IH. f_equal. apply list_fmap_ext. intros k t _. by apply after_event_current.
Qed.

Lemma due_semas_nil v0 v1 ts : v0 ≠ TASK_EVENT_TIMER100HZ → due_semas v0 v1 ts = [].
Proof.
  intros H%Z.eqb_neq. assert (∀ hs, hs ≫= due v0 v1 = []) as Hd.
  { intros hs. induction hs as [|h hs IH]; [done|]. cbn [mbind list_bind]. rewrite IH, app_nil_r.
    unfold due. rewrite H. by destruct (eh_kind h). }
  unfold due_semas. induction ts as [|t ts IH]; [done|]. cbn [mbind list_bind]. by rewrite Hd, IH.
Qed.

(** Events of semaphores raise no others. *)
Definition sema_calls (evs : list event_call) : Prop := ∀ e, e ∈ evs → ev_v0 e = TASK_EVENT_SEMAPHORE.

Lemma release_all_calls l s : sema_calls (events_in_event s) → sema_calls (events_in_event (release_all l s)).
Proof.
  revert s. induction l as [|a l IH]; intros s H; [done|]. apply (IH (release_from_event a s)).
  intros e [He| ->%list_elem_of_singleton]%elem_of_app; [by apply H|done].
Qed.

Lemma events_fold_spec c evs : ∀ s r,
  sched_wf s → get_current_task_with_lock c s = Ret r → sema_calls evs →
  ∃ s', foldM (λ e, event_with_lock c (ev_v0 e) (ev_v1 e) (ev_v2 e) (s8 (ev_res_acq e))) evs s = Ret s' ∧
        sched_wf s' ∧ has_current c s' ∧ same_queues s s' ∧ core <$> tasks s' = core <$> tasks s ∧
        tasks s' = hear_all r evs (tasks s) ∧ same_events s s'.
Proof.
  induction evs as [|e evs IH]; intros s r W Hr Hevs.
  { exists s. split_and!; try done. by exists r; apply get_current_elem. }
  cbn [foldM].
  destruct (event_with_lock_spec c (ev_v0 e) (ev_v1 e) (ev_v2 e) (s8 (ev_res_acq e)) s r W Hr)
    as (s1 & E1 & W1 & Hc1 & Hts & Hq1 & _ & He1).
  rewrite due_semas_nil in He1 by (rewrite (Hevs e) by left; done). simpl in He1.
  assert (core <$> tasks s1 = core <$> tasks s) as Ec by (by rewrite Hts, after_event_core).
  destruct (core_current c s s1 r W Ec) as (r1 & Hr1 & Hcore); [apply Hq1|done|].
  rewrite E1. cbn [mbind outcome_bind].
  destruct (IH s1 r1 W1 Hr1) as (s' & E' & W' & Hc' & Hq' & Hp' & Hts' & He').
  { intros e' He'. apply Hevs. by right. }
  exists s'. split_and!; try done; [by etrans|congruence| |by etrans].
  rewrite Hts', Hts, (hear_all_current r r1); done.
Qed.

(** An event neither panics nor goes on for ever, and the events that
    timeouts raise are delivered too. *)
Lemma event_total c v0 v1 v2 res_acq s r :
  sched_wf s → get_current_task_with_lock c s = Ret r → events_in_event s = [] →
  ∃ s', event 1 c v0 v1 v2 res_acq s = Ret s' ∧ sched_wf s' ∧ has_current c s' ∧ events_in_event s' = [] ∧
        core <$> tasks s' = core <$> tasks s ∧ same_queues s s' ∧
        let released := release_all (due_semas v0 v1 (tasks s)) s in
        sema_limits s' = sema_limits released ∧
        tasks s' = hear_all r (events_in_event released) (after_event r v0 v1 v2 res_acq <$> tasks s).
Proof.
  intros W Hr Hev. unfold event.
  destruct (event_with_lock_spec c v0 v1 v2 res_acq s r W Hr) as (s1 & E1 & W1 & Hc1 & Hts & Hq1 & _ & [He Hl]).
  rewrite E1. cbn [mbind outcome_bind].
  assert (core <$> tasks s1 = core <$> tasks s) as Hp1 by (by rewrite Hts, after_event_core).
  destruct (core_current c s s1 r W Hp1) as (r1 & Hr1 & Hcore); [apply Hq1|done|].
  assert (sema_calls (events_in_event s1)) as Hs.
  { rewrite He. apply release_all_calls. rewrite Hev. intros e H. by apply elem_of_nil in H. }
  assert (sched_wf (with_events s1 [])) as W2 by (by destruct W1; constructor).
  cbn [drain_events]. rewrite He in Hs |- *. cbv zeta. set (released := release_all _ s) in *.
  destruct (events_in_event released) as [|e evs] eqn:E.
  { exists s1. by split_and!. }
  destruct (events_fold_spec c (e :: evs) (with_events s1 []) r1 W2 Hr1 Hs) as
    (s' & E' & W' & Hc' & Hq' & Hp' & Hts' & [He' Hl']).
  rewrite E'. cbn [mbind outcome_bind]. exists s'.
  cbn [events_in_event sema_limits tasks with_events] in *.
  split_and!; [by rewrite He'|done|done|done|congruence|etrans; [exact Hq1|exact Hq']|congruence|].
  by rewrite Hts', Hts, (hear_all_current r r1).
Qed.
