(* ===== verification/SchedSwitch.v ===== *)
(** Switching tasks: which task switch_tasks picks for a CPU, that the CPU
    then runs this task and no other, and that the registers of a task come
    back as they were. *)
From S2P Require Import Prelude Task Tasklist SchedInv.

Lemma filter_ext_in (P Q : task → bool) (l : list task) :
  (∀ t, t ∈ l → P t = Q t) → filter P l = filter Q l.
Proof.
  induction l as [|t l IH]; intros H; [done|]. rewrite !filter_cons, (H t) by left.
  rewrite IH; [done|]. intros u Hu. apply H. by right.
Qed.

(** * The pools *)

Section pools.

Context (multi : bool) (nanos : option Z) (cpu_no R : Z).

(** The task after its turn in the first loop: it has had the event of the
    clock, and its CPU has ended its stack quarantine.  [R] is the id of the
    task that runs. *)
Definition settle (t : task) : task :=
  let t := match nanos with
           | Some n => handle_all (id (bits t) =? R) TASK_EVENT_NANOTIME n cpu_no t
           | None => t
           end in
  if (negb multi || (cpu (bits t) =? cpu_no)) && stack_quarantine (bits t)
  then set_stack_quarantine false t else t.

(** The task that runs on this CPU. *)
Definition own (t : task) : bool := (negb multi || (cpu (bits t) =? cpu_no)) && running (bits t).

(** A task that this CPU may run next. *)
Definition candidate (t : task) : bool :=
  negb (multi && cpu_pinned (bits t) && negb (cpu (bits t) =? cpu_no)) &&
  eligible (if own t then Some (ptr t) else None) t.

Definition in_group (g : Z) (t : task) : bool := (priority_group (bits t) =? g) && candidate t.

Definition pools_of (l : list task) : pools :=
  Pools (ptr <$> last (filter own l)) (ptr <$> filter (in_group PRIO_GROUP_REALTIME) l)
        (ptr <$> filter (in_group PRIO_GROUP_NORMAL) l).

Lemma settle_core t : core (settle t) = core t.
Proof.
  unfold settle. destruct nanos as [n|]; case_match; try done.
  - rewrite <- (evolved_core_eq _ _ (evolved_handle_all (id (bits t) =? R) TASK_EVENT_NANOTIME n cpu_no t)).
    done.
  - apply evolved_core_eq, evolved_handle_all.
Qed.

Lemma settle_ptr t : ptr (settle t) = ptr t.
Proof. by injection (settle_core t). Qed.

Lemma settle_own t : own (settle t) = own t.
Proof. unfold own. injection (settle_core t) as _ _ Hr Hc. by rewrite Hr, Hc. Qed.

Lemma settle_ok t : task_ok t → task_ok (settle t).
Proof.
  intros H. unfold settle.
  assert (∀ u, task_ok u → task_ok (set_stack_quarantine false u)) as Hq by (by intros u []; constructor).
  destruct nanos as [n|]; case_match; eauto using task_ok_evolved, evolved_handle_all.
Qed.

Lemma upd_list_middle f (l l' : list task) t :
  NoDup (ptr <$> l ++ t :: l') → upd_list (ptr t) f (l ++ t :: l') = l ++ f t :: l'.
Proof.
  rewrite fmap_app, fmap_cons. intros (_ & H1 & [H2 _]%NoDup_cons)%NoDup_app.
  unfold upd_list. rewrite fmap_app, fmap_cons, Z.eqb_refl.
  fold (upd_list (ptr t) f l). fold (upd_list (ptr t) f l'). rewrite !upd_list_none; [done|done|].
  intros H. apply (H1 _ H). left.
Qed.

Lemma touches_middle t t' s s' l l' :
  touches t t' s s' → NoDup (ptr <$> tasks s) → tasks s = l ++ t :: l' → tasks s' = l ++ t' :: l'.
Proof. intros [_ (evs & lim & ->)] Hn E. simpl. rewrite E in *. by rewrite upd_list_middle. Qed.

(** The first loop so far: the state, and the pools of the tasks seen. *)
Record loop_at (s0 : tasklist) (l l' : list task) (ps : pools) (s : tasklist) : Prop := {
  la_wf : sched_wf s;
  la_multi : multicpu s = multi;
  la_tasks : tasks s = (settle <$> l) ++ l';
  la_current : ∃ r, get_current_task_with_lock cpu_no s = Ret r ∧ id (bits r) = R;
  la_pools : ps = pools_of (settle <$> l);
  la_queues : same_queues s0 s ∧ tick_counter s = tick_counter s0
}.

Lemma filter_snoc_bool (P : task → bool) l t :
  filter P (l ++ [t]) = filter P l ++ if P t then [t] else [].
Proof. rewrite filter_app, filter_cons. by destruct (P t). Qed.

Lemma last_snoc_filter (P : task → bool) l t :
  last (filter P (l ++ [t])) = if P t then Some t else last (filter P l).
Proof.
  rewrite filter_snoc_bool. destruct (P t); [apply last_snoc|by rewrite app_nil_r].
Qed.

(** The event of the clock for one task. *)
Lemma clock_event s0 l l' ps s t :
  loop_at s0 l (t :: l') ps s →
  ∃ s1 t1, (match nanos with
            | Some n => task_event cpu_no (ptr t) TASK_EVENT_NANOTIME n cpu_no s
            | None => Ret s
            end) = Ret s1 ∧
    t1 = match nanos with
         | Some n => handle_all (id (bits t) =? R) TASK_EVENT_NANOTIME n cpu_no t
         | None => t
         end ∧ touches t t1 s s1.
Proof.
  intros [W _ Ht (r & Hr & HR) _ _].
  assert (t ∈ tasks s) as Hin by (rewrite Ht; apply elem_of_app; right; left).
  destruct nanos as [n|].
  - destruct (task_event_spec cpu_no TASK_EVENT_NANOTIME n cpu_no s t r W Hin Hr) as (s1 & E & T).
    rewrite HR in T. eauto.
  - exists s, t. split_and!; [done..|]. apply touches_refl; [apply W|done].
Qed.

(** The task that runs on this CPU is the only one. *)
Lemma own_unique s t t' :
  sched_wf s → multicpu s = multi → t ∈ tasks s → t' ∈ tasks s → own t = true → own t' = true → t = t'.
Proof.
  intros W Hm Ht Ht' [Hc Hr]%andb_true_iff [Hc' Hr']%andb_true_iff.
  apply (NoDup_fmap_inj ptr (tasks s)); [apply W|done|done|]. apply (wf_running _ W); try done.
  rewrite Hm. destruct multi; [|by left]. right. simpl in *. lia.
Qed.

(** Eligible as the loop sees it and as [candidate] says. *)
Lemma eligible_own cur t :
  (own t = true → cur = Some (ptr t)) → (own t = false → cur ≠ Some (ptr t)) →
  eligible cur t = eligible (if own t then Some (ptr t) else None) t.
Proof.
  unfold eligible. destruct (own t); intros H1 H2.
  - by rewrite H1.
  - specialize (H2 eq_refl). by rewrite !(bool_decide_eq_false_2 (_ = Some _)).
Qed.

Lemma loop_next s0 l l' ps s t s2 :
  loop_at s0 l (t :: l') ps s → tasks s2 = (settle <$> l) ++ settle t :: l' → same_queues s s2 →
  tick_counter s2 = tick_counter s → loop_at s0 (l ++ [t]) l' (pools_of (settle <$> (l ++ [t]))) s2.
Proof.
  intros [W Hm Ht (r & Hr & HR) _ [Hq Htk]] E Hq2 Htk2.
  assert (core <$> tasks s2 = core <$> tasks s) as Ec.
  { rewrite E, Ht, !fmap_app, !fmap_cons. by rewrite settle_core. }
  assert (multicpu s2 = multicpu s) as Hm2 by apply Hq2.
  constructor.
  - apply (core_wf s); try done. intros u. rewrite E. intros [Hu|[->|Hu]%elem_of_cons]%elem_of_app.
    + apply (wf_tasks _ W). rewrite Ht. apply elem_of_app. by left.
    + apply settle_ok, (wf_tasks _ W). rewrite Ht. apply elem_of_app. right. left.
    + apply (wf_tasks _ W). rewrite Ht. apply elem_of_app. right. by right.
  - congruence.
  - rewrite E, fmap_app, <- app_assoc. done.
  - destruct (core_current cpu_no s s2 r W Ec Hm2 Hr) as (r2 & Hr2 & [= _ Hi _ _]).
    exists r2. split; [done|congruence].
  - done.
  - split; [by etrans|congruence].
Qed.

Lemma pools_snoc l t :
  pools_of (l ++ [t]) =
  Pools (if own t then Some (ptr t) else current_task (pools_of l))
        (task_pool (pools_of l) ++ if in_group PRIO_GROUP_REALTIME t then [ptr t] else [])
        (next_task_pool (pools_of l) ++ if in_group PRIO_GROUP_NORMAL t then [ptr t] else []).
Proof.
  unfold pools_of. rewrite last_snoc_filter, !filter_snoc_bool, !fmap_app. simpl.
  f_equal; [by destruct (own t)|f_equal; by case_match..].
Qed.

Lemma current_of_list l p : current_task (pools_of l) = Some p → p ∈ (ptr <$> l).
Proof.
  simpl. destruct (last (filter own l)) as [u|] eqn:E; [|done]. intros [= <-].
  apply elem_of_last, list_elem_of_filter in E as [_ Hu]. by apply list_elem_of_fmap_2.
Qed.

(** The end of the loop's body puts the task into its pool. *)
Lemma pool_add l t (s : tasklist) cur :
  ptr t ∉ (ptr <$> l) → cur = (if own t then Some (ptr t) else current_task (pools_of l)) →
  multi && cpu_pinned (bits t) && negb (cpu (bits t) =? cpu_no) = false →
  (if (priority_group (bits t) =? PRIO_GROUP_REALTIME) && eligible cur t
   then Ret (Pools cur (task_pool (pools_of l) ++ [ptr t]) (next_task_pool (pools_of l)), s)
   else if (priority_group (bits t) =? PRIO_GROUP_NORMAL) && eligible cur t
   then Ret (Pools cur (task_pool (pools_of l)) (next_task_pool (pools_of l) ++ [ptr t]), s)
   else Ret (Pools cur (task_pool (pools_of l)) (next_task_pool (pools_of l)), s))
  = Ret (pools_of (l ++ [t]), s).
Proof.
  intros Hl Hcur Hpin. rewrite pools_snoc, <- Hcur. unfold in_group, candidate. rewrite Hpin. cbn [negb andb].
  rewrite <- (eligible_own cur t).
  - destruct (eligible cur t); rewrite ?andb_false_r, ?andb_true_r; [|by rewrite !app_nil_r].
    destruct (Z.eqb_spec (priority_group (bits t)) PRIO_GROUP_REALTIME) as [->|_]; simpl; [by rewrite app_nil_r|].
    rewrite app_nil_r. destruct (priority_group (bits t) =? PRIO_GROUP_NORMAL); simpl; by rewrite ?app_nil_r.
  - intros H. by rewrite Hcur, H.
  - intros H. rewrite Hcur, H. intros Hc%current_of_list. done.
Qed.

Lemma pools_skip l t :
  multi && cpu_pinned (bits t) && negb (cpu (bits t) =? cpu_no) = true → pools_of (l ++ [t]) = pools_of l.
Proof.
  intros H. rewrite pools_snoc. unfold in_group, candidate, own. rewrite H. cbn [negb andb].
  rewrite !andb_false_r, !app_nil_r.
  apply andb_true_iff in H as [[-> _]%andb_true_iff ->%negb_true_iff]. done.
Qed.

Lemma pool_step_spec s0 l l' ps s t :
  loop_at s0 l (t :: l') ps s →
  ∃ ps' s', pool_step nanos cpu_no (ptr t) (ps, s) = Ret (ps', s') ∧ loop_at s0 (l ++ [t]) l' ps' s'.
Proof.
  intros L. destruct (clock_event _ _ _ _ _ _ L) as (s1 & t1 & E1 & Ht1 & T).
  pose proof L as [W Hm Ht Hc Hps Hq].
  assert (t ∈ tasks s) as Hin by (rewrite Ht; apply elem_of_app; right; left).
  pose proof (touches_middle _ _ _ _ _ _ T (wf_ptrs _ W) Ht) as Hts1.
  pose proof (touches_wf _ _ _ _ T Hin W) as W1. pose proof (touches_multicpu _ _ _ _ T) as Hm1.
  destruct (touches_queues _ _ _ _ T) as [Hq1 Htk1].
  assert (ptr t1 = ptr t) as Hp by apply T.
  pose proof (touches_in _ _ _ _ T Hin) as Hin1.
  assert (get_task (ptr t) s1 = Ret t1) as Hg by (rewrite <- Hp; apply get_task_of; [apply W1|done]).
  unfold pool_step. rewrite E1. cbn [mbind outcome_bind]. rewrite Hg. cbn [mbind outcome_bind].
  rewrite Hm1, Hm. set (mine := negb multi || (cpu (bits t1) =? cpu_no)).
  assert (settle t = if mine && stack_quarantine (bits t1) then set_stack_quarantine false t1 else t1) as Hst
    by (unfold settle; by rewrite <- Ht1).
  assert (multi && cpu_pinned (bits t1) && negb (cpu (bits t1) =? cpu_no) = negb mine && cpu_pinned (bits t1)) as Hpin.
  { unfold mine. destruct multi, (cpu (bits t1) =? cpu_no), (cpu_pinned (bits t1)); done. }
  destruct (negb mine && cpu_pinned (bits t1)) eqn:Hskip.
  - exists ps, s1. split; [done|]. apply andb_true_iff in Hskip as [Hmine%negb_true_iff _].
    rewrite Hmine in Hst. cbn [andb] in Hst.
    pose proof (loop_next s0 l l' ps s t s1 L) as Hl. rewrite fmap_app in Hl. simpl in Hl.
    rewrite pools_skip, <- Hps in Hl by (by rewrite Hst). apply Hl; [by rewrite Hst|done|done].
  - set (s2 := if mine && stack_quarantine (bits t1) then upd (ptr t) (set_stack_quarantine false) s1 else s1).
    assert (tasks s2 = (settle <$> l) ++ settle t :: l') as Hts2.
    { subst s2. rewrite Hst. destruct (mine && _); [|done]. simpl. rewrite Hts1, <- Hp. apply upd_list_middle.
      rewrite <- Hts1. apply W1. }
    assert (same_queues s s2 ∧ tick_counter s2 = tick_counter s) as [Hq2 Htk2] by (subst s2; by destruct (mine && _)).
    exists (pools_of (settle <$> (l ++ [t]))), s2. split; [|by eapply loop_next].
    rewrite <- Hst, Hps. rewrite fmap_app. simpl. rewrite <- (settle_ptr t). apply pool_add.
    + rewrite settle_ptr. intros H. pose proof (wf_ptrs _ W) as Hn. rewrite Ht, fmap_app, fmap_cons in Hn.
      apply NoDup_app in Hn as (_ & Hn & _). apply (Hn _ H). left.
    + rewrite Hst. unfold own.
      pose proof (ok_quarantine _ (wf_tasks _ W1 t1 Hin1)) as Hquar.
      destruct mine eqn:Hmine, (stack_quarantine (bits t1)) eqn:Hsq; simpl; fold mine; rewrite ?Hmine; try done.
      by rewrite Hquar.
    + rewrite Hst. destruct (mine && stack_quarantine (bits t1)); exact Hpin.
Qed.

Lemma pool_loop_spec s0 l' : ∀ l ps s,
  loop_at s0 l l' ps s →
  ∃ ps' s', pool_loop nanos cpu_no (ptr <$> l') (ps, s) = Ret (ps', s') ∧ loop_at s0 (l ++ l') [] ps' s'.
Proof.
  induction l' as [|t l' IH]; intros l ps s L.
  - exists ps, s. split; [done|]. by rewrite app_nil_r.
  - rewrite fmap_cons. cbn [pool_loop]. destruct (pool_step_spec _ _ _ _ _ _ L) as (ps1 & s1 & E & L1). rewrite E. cbn [mbind outcome_bind].
    destruct (IH _ _ _ L1) as (ps' & s' & E' & L'). exists ps', s'. split; [done|].
    by rewrite <- app_assoc in L'.
Qed.

(** * The pool of a priority group *)

Definition group_pool (s : tasklist) (g : Z) : list Z := ptr <$> filter (in_group g) (tasks s).

(** The state and the pools after the first loop. *)
Lemma pools_done s :
  sched_wf s → multicpu s = multi →
  (∃ r, get_current_task_with_lock cpu_no s = Ret r ∧ id (bits r) = R) →
  ∃ s1, pool_loop nanos cpu_no (ptr <$> tasks s) (Pools None [] [], s) = Ret (pools_of (tasks s1), s1) ∧
        sched_wf s1 ∧ multicpu s1 = multi ∧ tasks s1 = settle <$> tasks s ∧
        same_queues s s1 ∧ tick_counter s1 = tick_counter s.
Proof.
  intros W Hm Hr. destruct (pool_loop_spec s (tasks s) [] (Pools None [] []) s) as (ps & s1 & E & L).
  - by constructor.
  - destruct L as [W1 Hm1 Ht1 _ -> [Hq Htk]]. rewrite app_nil_r in Ht1. simpl in Ht1.
    exists s1. split_and!; try done. by rewrite Ht1.
Qed.

Lemma current_pools s r :
  sched_wf s → multicpu s = multi → get_current_task_with_lock cpu_no s = Ret r →
  current_task (pools_of (tasks s)) = Some (ptr r) ∧ own r = true.
Proof.
  intros W Hm Hr. destruct (get_current_elem _ _ _ Hr) as [Hin Hon].
  assert (own r = true) as Hown.
  { unfold runs_on, cpu_num, own in *. rewrite Hm in Hon. by destruct multi; [|apply andb_true_iff in Hon as [_ ->]]. }
  split; [|done]. simpl. destruct (last (filter own (tasks s))) as [u|] eqn:E.
  - apply elem_of_last, list_elem_of_filter in E as [Hu Hin'].
    rewrite (own_unique s r u W Hm Hin Hin' Hown); [done|]. by apply Is_true_true.
  - apply last_None in E. assert (r ∈ filter own (tasks s)) as H.
    { apply list_elem_of_filter. by rewrite Hown. }
    rewrite E in H. by apply elem_of_nil in H.
Qed.

Lemma low_pool_group s r g :
  sched_wf s → multicpu s = multi → r ∈ tasks s → own r = true →
  low_pool s cpu_no g (Some (ptr r)) = group_pool s g.
Proof.
  intros W Hm Hr Hown. unfold low_pool, group_pool. f_equal.
  apply filter_ext_in. intros t Ht. rewrite Hm. unfold in_group, candidate.
  rewrite <- (eligible_own (Some (ptr r)) t).
  - destruct (priority_group (bits t) =? g); rewrite ?andb_true_r, ?andb_false_r; done.
  - intros Ho. by rewrite (own_unique s t r).
  - intros Ho [= E]. assert (r = t) as -> by (eapply (NoDup_fmap_inj ptr); [apply W|..]; done). congruence.
Qed.
(** The pool is that of the highest group that has a candidate. *)
Lemma choose_pool_spec s r :
  sched_wf s → multicpu s = multi → get_current_task_with_lock cpu_no s = Ret r →
  match choose_pool s cpu_no (pools_of (tasks s)) with
  | Ret pool => ∃ g, PRIO_GROUP_IDLE ≤ g ≤ PRIO_GROUP_REALTIME ∧ pool = group_pool s g ∧ pool ≠ [] ∧
                     ∀ g', g < g' ≤ PRIO_GROUP_REALTIME → group_pool s g' = []
  | Panicked => ∀ g, PRIO_GROUP_IDLE ≤ g ≤ PRIO_GROUP_REALTIME → group_pool s g = []
  | _ => False
  end.
Proof.
  intros W Hm Hr. destruct (current_pools s r W Hm Hr) as [Hc Hown].
  destruct (get_current_elem _ _ _ Hr) as [Hin _].
  unfold choose_pool. rewrite Hc, !(low_pool_group s r) by done.
  unfold pools_of. cbn [task_pool next_task_pool].
  fold (group_pool s PRIO_GROUP_REALTIME). fold (group_pool s PRIO_GROUP_NORMAL).
  unfold PRIO_GROUP_IDLE, PRIO_GROUP_LOW, PRIO_GROUP_NORMAL, PRIO_GROUP_REALTIME.
  destruct (group_pool s 3) eqn:E3; [|eexists 3; split_and!; [lia..|by symmetry|done|lia]].
  destruct (group_pool s 2) eqn:E2;
    [|eexists 2; split_and!; [lia..|by symmetry|done|intros g Hg; by replace g with 3 by lia]].
  destruct (group_pool s 1) eqn:E1;
    [|eexists 1; split_and!; [lia..|by symmetry|done|]; intros g Hg; by assert (g = 2 ∨ g = 3) as [-> | ->] by lia].
  destruct (group_pool s 0) eqn:E0.
  - intros g Hg. by assert (g = 0 ∨ g = 1 ∨ g = 2 ∨ g = 3) as [->|[->|[->| ->]]] by lia.
  - eexists 0; split_and!; [lia..|by symmetry|done|]. intros g Hg.
    by assert (g = 1 ∨ g = 2 ∨ g = 3) as [->|[->| ->]] by lia.
Qed.

End pools.

(** * Points *)

(** The accounting changes the points of tasks, within their range. *)
Definition repoints (t t' : task) : Prop :=
  t' = t ∨ ∃ v, 0 ≤ v ≤ MAX_POINTS ∧ t' = set_points v t.

Lemma set_points_ok v t : 0 ≤ v ≤ MAX_POINTS → task_ok t → task_ok (set_points v t).
Proof.
  intros Hv []. constructor; simpl; try done. rewrite (proj2 (Z.leb_le _ _)) by lia. done.
Qed.

Lemma account_spec s r pool :
  sched_wf s → r ∈ tasks s →
  ∃ s' f, account (ptr r) pool s = Ret s' ∧ s' = with_tasks s (f <$> tasks s) ∧
          ∀ t, t ∈ tasks s → repoints t (f t).
Proof.
  intros W Hr. unfold account. rewrite get_task_of by (apply W || done). cbn [mbind outcome_bind].
  pose proof (ok_points _ (wf_tasks _ W r Hr)) as Hp.
  destruct (Z.eqb_spec (points (bits r)) MAX_POINTS) as [E|E].
  - destruct (bool_decide _).
    + eexists _, _. split_and!; [done..|]. intros t Ht. simpl.
      pose proof (ok_points _ (wf_tasks _ W t Ht)).
      destruct (_ && _) eqn:E'; [|by left]. apply andb_true_iff in E' as [_ ?%Z.ltb_lt].
      right. eexists. split; [|done]. lia.
    + exists s, (λ t, t). split_and!; [done| |by left]. rewrite list_fmap_id. by destruct s.
  - eexists _, _. split_and!; [done..|]. intros t Ht. simpl.
    destruct (ptr t =? ptr r); [|by left]. right. eexists. split; [|done]. lia.
Qed.

(** * The winner *)

Lemma winner_from s cur pool : ∀ w0,
  NoDup (ptr <$> tasks s) → (∀ p, p ∈ pool → p ∈ (ptr <$> tasks s)) → w0 ∈ tasks s →
  ∃ w, winner s cur pool (Some w0) = Ret (Some w) ∧ w ∈ tasks s ∧ (w = w0 ∨ ptr w ∈ pool) ∧
       ((∀ t, t ∈ tasks s → ptr t ∈ pool → biased_points cur t = points (bits t)) →
        points (bits w) ≤ points (bits w0) ∧
        ∀ t, t ∈ tasks s → ptr t ∈ pool → points (bits w) ≤ points (bits t)).
Proof.
  induction pool as [|p pool IH]; intros w0 Hn Hin Hw0; cbn [winner].
  { exists w0. split_and!; [done..|by left|]. intros _. split; [lia|]. intros t _ H. by apply elem_of_nil in H. }
  destruct (proj1 (list_elem_of_fmap _ _ _) (Hin p (list_elem_of_here _ _))) as (t & -> & Ht).
  rewrite get_task_of by done. cbn [mbind outcome_bind].
  set (w1 := if biased_points cur t <? points (bits w0) then t else w0).
  replace (if biased_points cur t <? points (bits w0) then Some t else Some w0) with (Some w1)
    by (subst w1; by case_match).
  assert (w1 ∈ tasks s) as Hw1 by (subst w1; by case_match).
  destruct (IH w1 Hn) as (w & E & Hw & Hor & Hmin); [intros q Hq; apply Hin; by right|done|].
  exists w. split_and!; try done.
  - destruct Hor as [->|H]; [|right; by right]. subst w1. case_match; [right; left|by left].
  - intros Hb. destruct Hmin as [H1 H2]; [intros u Hu Hp; apply Hb; [done|by right]|].
    specialize (Hb t Ht (list_elem_of_here _ _)).
    assert (points (bits w1) ≤ points (bits w0) ∧ points (bits w1) ≤ points (bits t)).
    { subst w1. destruct (Z.ltb_spec (biased_points cur t) (points (bits w0))); lia. }
    split; [lia|]. intros u Hu [E'|Hp]%elem_of_cons; [|by apply H2].
    assert (u = t) as -> by (by eapply (NoDup_fmap_inj ptr)). lia.
Qed.

(** The loop finds a task of the pool.  If no bias applies, it is one with
    the fewest points. *)
Lemma winner_spec s cur pool :
  NoDup (ptr <$> tasks s) → (∀ p, p ∈ pool → p ∈ (ptr <$> tasks s)) → pool ≠ [] →
  ∃ w, winner s cur pool None = Ret (Some w) ∧ w ∈ tasks s ∧ ptr w ∈ pool ∧
       ((∀ t, t ∈ tasks s → ptr t ∈ pool → biased_points cur t = points (bits t)) →
        ∀ t, t ∈ tasks s → ptr t ∈ pool → points (bits w) ≤ points (bits t)).
Proof.
  intros Hn Hin. destruct pool as [|p pool]; [done|]. intros _. cbn [winner].
  destruct (proj1 (list_elem_of_fmap _ _ _) (Hin p (list_elem_of_here _ _))) as (t & -> & Ht).
  rewrite get_task_of by done. cbn [mbind outcome_bind].
  destruct (winner_from s cur pool t Hn) as (w & E & Hw & Hor & Hmin); [intros q Hq; apply Hin; by right|done|].
  exists w. split_and!; try done.
  - destruct Hor as [->|H]; [left|by right].
  - intros Hb. destruct Hmin as [H1 H2]; [intros u Hu Hp; apply Hb; [done|by right]|].
    intros u Hu [E'|Hp]%elem_of_cons; [|by apply H2].
    assert (u = t) as -> by (by eapply (NoDup_fmap_inj ptr)). lia.
Qed.

(** * The switch *)

Definition leave_task (i : Interrupt) (t : task) : task :=
  clear_when_not_running
    (set_running_bit false
      (if end_ (bits t) then t else save_state i (set_stack_quarantine true t))).

Definition enter_task (multi : bool) (cpu_no : Z) (t : task) : task :=
  if multi then set_cpu cpu_no (set_running_bit true t) else set_running_bit true t.

(** The list after the switch from [r] to [w]. *)
Definition switched (i : Interrupt) (multi : bool) (cpu_no : Z) (r w : task) (ts : list task) : list task :=
  let ts := upd_list (ptr w) (enter_task multi cpu_no) (upd_list (ptr r) (leave_task i) ts) in
  if end_ (bits r) then filter (λ t, ptr t ≠ ptr r) ts else ts.

Lemma get_task_upd s t f :
  NoDup (ptr <$> tasks s) → t ∈ tasks s → ptr (f t) = ptr t → get_task (ptr t) (upd (ptr t) f s) = Ret (f t).
Proof.
  intros Hn Ht Hp. rewrite <- Hp at 1. apply get_task_of.
  - simpl. rewrite upd_list_fmap; [done|]. intros u Hu E.
    assert (u = t) as -> by (by eapply (NoDup_fmap_inj ptr)). done.
  - simpl. apply elem_of_upd_list. exists t. by rewrite Z.eqb_refl.
Qed.

Lemma get_task_upd_ne s t p f :
  NoDup (ptr <$> tasks s) → (∀ u, ptr (f u) = ptr u) → t ∈ tasks s → ptr t ≠ p → get_task (ptr t) (upd p f s) = Ret t.
Proof.
  intros Hn Hf Ht Hp. apply get_task_of.
  - simpl. by rewrite upd_list_fmap.
  - simpl. apply elem_of_upd_list. exists t. by rewrite (proj2 (Z.eqb_neq _ _)).
Qed.

Lemma filter_ptr_none p (ts : list task) : p ∉ (ptr <$> ts) → filter (λ t, ptr t ≠ p) ts = ts.
Proof.
  induction ts as [|u ts IH]; [done|]. rewrite fmap_cons, not_elem_of_cons. intros [Hu Hp].
  rewrite filter_cons_True by (intros E; by destruct Hu). by rewrite IH.
Qed.

Lemma delete_find p (ts : list task) : ∀ i t,
  NoDup (ptr <$> ts) → list_find (λ t, ptr t = p) ts = Some (i, t) → delete i ts = filter (λ t, ptr t ≠ p) ts.
Proof.
  induction ts as [|u ts IH]; intros i t; [done|]. rewrite fmap_cons. intros [Hu Hn]%NoDup_cons. simpl.
  destruct (decide (ptr u = p)) as [E|E].
  - intros [= <- <-]. rewrite filter_cons_False by tauto. simpl. symmetry. apply filter_ptr_none. by rewrite <- E.
  - destruct (list_find _ ts) as [[j v]|] eqn:F; [|done]. intros [= <- <-]. simpl.
    rewrite filter_cons_True by done. f_equal. by eapply IH.
Qed.

Lemma erase_task_spec ts t :
  NoDup (ptr <$> ts) → t ∈ ts → erase_task (ptr t) ts = Some (t, filter (λ u, ptr u ≠ ptr t) ts).
Proof.
  intros Hn Ht. unfold erase_task. destruct (list_find _ ts) as [[i u]|] eqn:E.
  - rewrite (delete_find _ _ _ _ Hn E). apply list_find_Some in E as (Hi & Hp & _).
    repeat f_equal. eapply (NoDup_fmap_inj ptr); eauto. by eapply list_elem_of_lookup_2.
  - apply list_find_None in E. rewrite Forall_forall in E. by destruct (E t Ht).
Qed.

Lemma leave_task_ptr i t : ptr (leave_task i t) = ptr t.
Proof. unfold leave_task. by destruct (end_ (bits t)). Qed.

Lemma enter_task_ptr multi c t : ptr (enter_task multi c t) = ptr t.
Proof. by destruct multi. Qed.

(** The state when [r] has left the CPU. *)
Lemma leave_spec i s r :
  NoDup (ptr <$> tasks s) → r ∈ tasks s →
  ∃ acts, set_not_running (ptr r)
            (if end_ (bits r) then s
             else upd (ptr r) (save_state i) (upd (ptr r) (set_stack_quarantine true) s)) =
          Ret (with_actions (upd (ptr r) (leave_task i) s) acts).
Proof.
  intros Hn Hr. unfold set_not_running. destruct (end_ (bits r)) eqn:E.
  - rewrite get_task_of by done. cbn [mbind outcome_bind]. eexists. f_equal.
    unfold upd, with_actions, with_tasks. simpl. f_equal. rewrite upd_list_compose by done.
    apply upd_list_ext. intros t Ht Hp.
    assert (t = r) as -> by (by eapply (NoDup_fmap_inj ptr)). unfold leave_task. by rewrite E.
  - assert (get_task (ptr r) (upd (ptr r) (save_state i) (upd (ptr r) (set_stack_quarantine true) s)) =
            Ret (save_state i (set_stack_quarantine true r))) as ->.
    { unfold upd at 1. simpl. rewrite upd_list_compose by done.
      apply (get_task_upd s r (save_state i ∘ set_stack_quarantine true)); done. }
    cbn [mbind outcome_bind]. eexists. f_equal.
    unfold upd, with_actions, with_tasks. simpl. f_equal. rewrite !upd_list_compose by done.
    apply upd_list_ext. intros t Ht Hp.
    assert (t = r) as -> by (by eapply (NoDup_fmap_inj ptr)). unfold leave_task. by rewrite E.
Qed.

Lemma switch_to_spec c i s r w :
  NoDup (ptr <$> tasks s) → r ∈ tasks s → w ∈ tasks s → ptr r ≠ ptr w →
  ∃ s', switch_to c (ptr r) (ptr w) i s = Ret (restore_state i w, s') ∧
        tasks s' = switched i (multicpu s) c r w (tasks s) ∧ multicpu s' = multicpu s ∧
        task_delete_prequeue s' = task_delete_prequeue s ++ (if end_ (bits r) then [leave_task i r] else []) ∧
        task_delete_queue s' = task_delete_queue s ∧ do_when_out_of_lock s' = do_when_out_of_lock s ∧
        events_in_event s' = events_in_event s.
Proof.
  intros Hn Hr Hw Hne. unfold switch_to. rewrite get_task_of by done. cbn [mbind outcome_bind].
  destruct (leave_spec i s r Hn Hr) as [acts E]. rewrite E. cbn [mbind outcome_bind].
  set (s1 := upd (ptr r) (leave_task i) s).
  assert (get_task (ptr w) (with_actions s1 acts) = Ret w) as Hg.
  { apply (get_task_upd_ne s w (ptr r)); try done. apply leave_task_ptr. }
  rewrite Hg. cbn [mbind outcome_bind]. unfold set_running. rewrite Hg. cbn [mbind outcome_bind].
  set (s2 := with_actions (upd (ptr w) (set_running_bit true) (with_actions s1 acts)) _).
  set (s3 := if multicpu s2 then upd (ptr w) (set_cpu c) s2 else s2).
  assert (tasks s3 = upd_list (ptr w) (enter_task (multicpu s) c) (upd_list (ptr r) (leave_task i) (tasks s)) ∧
          multicpu s3 = multicpu s ∧ task_delete_prequeue s3 = task_delete_prequeue s ∧
          task_delete_queue s3 = task_delete_queue s ∧ do_when_out_of_lock s3 = do_when_out_of_lock s ∧
          events_in_event s3 = events_in_event s) as (Ht3 & Hm3 & Hp3 & Hd3 & Ho3 & He3).
  { subst s3. change (multicpu s2) with (multicpu s). destruct (multicpu s) eqn:Hm; [|done].
    split_and!; try done. simpl. by rewrite upd_list_compose. }
  unfold switched. destruct (end_ (bits r)) eqn:Hend.
  - assert (NoDup (ptr <$> tasks s3)) as Hn3.
    { rewrite Ht3, !upd_list_fmap; [done|intros; apply leave_task_ptr|intros; apply enter_task_ptr]. }
    assert (leave_task i r ∈ tasks s3) as Hin3.
    { rewrite Ht3. apply elem_of_upd_list. exists (leave_task i r).
      rewrite leave_task_ptr, (proj2 (Z.eqb_neq _ _)) by done. split; [|done].
      apply elem_of_upd_list. exists r. by rewrite Z.eqb_refl. }
    unfold evict. rewrite <- (leave_task_ptr i r), erase_task_spec by done. cbn [mbind outcome_bind].
    eexists. split_and!; [done|cbn [tasks with_queues with_tasks]; by rewrite Ht3, !leave_task_ptr|done|cbn [task_delete_prequeue with_queues]; by rewrite Hp3|done..].
  - cbn [mbind outcome_bind]. exists s3. split_and!; try done. by rewrite app_nil_r.
Qed.

Definition switch_task (i : Interrupt) (multi : bool) (c : Z) (r w t : task) : task :=
  if ptr t =? ptr w then enter_task multi c t else if ptr t =? ptr r then leave_task i t else t.

Lemma switch_task_ptr i multi c r w t : ptr (switch_task i multi c r w t) = ptr t.
Proof.
  unfold switch_task. repeat case_match; [apply enter_task_ptr|apply leave_task_ptr|done].
Qed.

Lemma switch_task_id i multi c r w t : id (bits (switch_task i multi c r w t)) = id (bits t).
Proof.
  unfold switch_task, enter_task, leave_task. repeat case_match; done.
Qed.

Lemma switched_fmap i multi c r w ts :
  ptr r ≠ ptr w →
  upd_list (ptr w) (enter_task multi c) (upd_list (ptr r) (leave_task i) ts) = switch_task i multi c r w <$> ts.
Proof.
  intros Hne. unfold upd_list. rewrite <- list_fmap_compose. apply list_fmap_ext. intros k t _. simpl.
  unfold switch_task. destruct (Z.eqb_spec (ptr t) (ptr r)) as [E|E]; [|done].
  rewrite leave_task_ptr, E. by rewrite (proj2 (Z.eqb_neq _ _)).
Qed.

Lemma elem_of_switched i multi c r w ts t' :
  ptr r ≠ ptr w → t' ∈ switched i multi c r w ts →
  ∃ t, t ∈ ts ∧ t' = switch_task i multi c r w t ∧ (end_ (bits r) = true → ptr t ≠ ptr r).
Proof.
  intros Hne. unfold switched. rewrite switched_fmap by done. destruct (end_ (bits r)).
  - rewrite list_elem_of_filter, list_elem_of_fmap. intros [Hp (t & -> & Ht)].
    rewrite switch_task_ptr in Hp. eauto.
  - rewrite list_elem_of_fmap. intros (t & -> & Ht). exists t. split_and!; done.
Qed.

Lemma switched_sublist {B} (g : task → B) i multi c r w ts :
  ptr r ≠ ptr w → (∀ t, g (switch_task i multi c r w t) = g t) →
  g <$> switched i multi c r w ts `sublist_of` g <$> ts.
Proof.
  intros Hne Hg. unfold switched. rewrite switched_fmap by done.
  assert (g <$> (switch_task i multi c r w <$> ts) = g <$> ts) as E.
  { rewrite <- list_fmap_compose. apply list_fmap_ext. intros k t _. apply Hg. }
  rewrite <- E. destruct (end_ (bits r)); [|reflexivity]. apply fmap_sublist, sublist_filter.
Qed.

Lemma switch_task_ok i multi c r w t :
  task_ok t → (ptr t = ptr w → stack_quarantine (bits t) = false) → task_ok (switch_task i multi c r w t).
Proof.
  intros [] Hw. unfold switch_task, enter_task, leave_task.
  destruct (Z.eqb_spec (ptr t) (ptr w)) as [E|E]; [|repeat case_match; by constructor].
  specialize (Hw E). destruct multi; constructor; simpl; try done; by rewrite Hw.
Qed.

(** Who runs after the switch. *)
Lemma switch_task_running i multi c r w t :
  ptr t ≠ ptr w → running (bits (switch_task i multi c r w t)) = true →
  ptr t ≠ ptr r ∧ running (bits t) = true ∧ switch_task i multi c r w t = t.
Proof.
  intros Hne. unfold switch_task. rewrite (proj2 (Z.eqb_neq _ _)) by done.
  destruct (Z.eqb_spec (ptr t) (ptr r)); [|done]. unfold leave_task. by case_match.
Qed.

Section switched_wf.

Context (i : Interrupt) (c : Z) (s s' : tasklist) (r w : task).
Context (W : sched_wf s) (Hr : r ∈ tasks s) (Hw : w ∈ tasks s) (Hne : ptr r ≠ ptr w).
Context (Hown : own (multicpu s) c r = true) (Hq : stack_quarantine (bits w) = false).
Context (Hm : multicpu s' = multicpu s) (Ht : tasks s' = switched i (multicpu s) c r w (tasks s)).

Abbreviation F := (switch_task i (multicpu s) c r w).

(** No other task runs on this CPU. *)
Lemma others_elsewhere t :
  t ∈ tasks s → ptr t ≠ ptr r → running (bits t) = true → multicpu s = true ∧ cpu (bits t) ≠ c.
Proof.
  intros Hin Hp Hrun. unfold own in Hown. apply andb_true_iff in Hown as [Hc Hrr].
  destruct (multicpu s) eqn:E.
  - split; [done|]. intros Ec. destruct Hp. apply (wf_running _ W); try done. right. simpl in Hc. lia.
  - destruct Hp. apply (wf_running _ W); try done. by left.
Qed.

Lemma switched_wf : sched_wf s'.
Proof.
  constructor.
  - intros t'. rewrite Ht. intros (t & Hin & -> & _)%elem_of_switched; [|done].
    apply switch_task_ok; [by apply (wf_tasks _ W)|]. intros E.
    assert (t = w) as -> by (by eapply (NoDup_fmap_inj ptr); [apply W|..]). done.
  - rewrite Ht. eapply sublist_NoDup; [apply (wf_ptrs _ W)|].
    apply switched_sublist; [done|]. intros t. apply switch_task_ptr.
  - rewrite Ht. eapply sublist_NoDup; [apply (wf_ids _ W)|].
    apply switched_sublist; [done|]. intros t. apply switch_task_id.
  - intros t1' t2'. rewrite Ht, Hm.
    intros (t1 & H1 & -> & _)%elem_of_switched (t2 & H2 & -> & _)%elem_of_switched; [|done..].
    rewrite !switch_task_ptr. intros R1 R2 Hor.
    destruct (decide (ptr t1 = ptr w)) as [E1|E1], (decide (ptr t2 = ptr w)) as [E2|E2]; [congruence|..].
    + apply switch_task_running in R2 as (Hp2 & R2 & E); [|done]. rewrite E in Hor.
      destruct (others_elsewhere t2 H2 Hp2 R2) as [Hmu Hc]. destruct Hor as [?|Hor]; [congruence|].
      unfold switch_task, enter_task in Hor. rewrite E1, Z.eqb_refl, Hmu in Hor. simpl in Hor. congruence.
    + apply switch_task_running in R1 as (Hp1 & R1 & E); [|done]. rewrite E in Hor.
      destruct (others_elsewhere t1 H1 Hp1 R1) as [Hmu Hc]. destruct Hor as [?|Hor]; [congruence|].
      unfold switch_task, enter_task in Hor. rewrite E2, Z.eqb_refl, Hmu in Hor. simpl in Hor. congruence.
    + apply switch_task_running in R1 as (Hp1 & R1 & Eq1), R2 as (Hp2 & R2 & Eq2); [|done..].
      rewrite Eq1, Eq2 in Hor. by apply (wf_running _ W).
  - rewrite Hm, Ht. intros Hs t' (t & Hin & -> & _)%elem_of_switched; [|done].
    rewrite <- (wf_single _ W Hs t Hin). unfold switch_task, enter_task, leave_task. rewrite Hs.
    by repeat case_match.
Qed.

(** The task [w] runs. *)
Lemma switched_current : ∃ w', get_current_task_with_lock c s' = Ret w' ∧ w' = F w.
Proof.
  assert (F w ∈ tasks s') as Hin.
  { rewrite Ht. unfold switched. rewrite switched_fmap by done. destruct (end_ (bits r)).
    - apply list_elem_of_filter. rewrite switch_task_ptr. split; [done|]. by apply list_elem_of_fmap_2.
    - by apply list_elem_of_fmap_2. }
  assert (runs_on (cpu_num c s') (F w) = true) as Hon.
  { unfold runs_on, cpu_num, switch_task, enter_task. rewrite Z.eqb_refl, Hm.
    destruct (multicpu s) eqn:E; simpl; [by rewrite Z.eqb_refl|]. by rewrite (wf_single _ W E w Hw). }
  destruct (get_current_some c s') as [w' Hw']; [by exists (F w)|]. exists w'. split; [done|].
  symmetry. exact (current_unique c s' w' (F w) switched_wf Hw' Hin Hon).
Qed.

End switched_wf.

(** * switch_tasks *)

Lemma repoints_core t t' : repoints t t' → core t' = core t.
Proof. by intros [->|(v & _ & ->)]. Qed.

Lemma repoints_candidate multi c t t' :
  repoints t t' → candidate multi c t' = candidate multi c t ∧ priority_group (bits t') = priority_group (bits t) ∧
  stack_quarantine (bits t') = stack_quarantine (bits t) ∧ end_ (bits t') = end_ (bits t) ∧
  cpu_frame t' = cpu_frame t ∧ cpu_state t' = cpu_state t ∧ fpu_sse_state t' = fpu_sse_state t.
Proof. by intros [->|(v & _ & ->)]. Qed.

Lemma repoints_wf s f :
  sched_wf s → (∀ t, t ∈ tasks s → repoints t (f t)) → sched_wf (with_tasks s (f <$> tasks s)).
Proof.
  intros W Hf. apply (core_wf s); simpl; [|done| |done].
  - rewrite <- list_fmap_compose. apply list_fmap_ext. intros k t Hk%list_elem_of_lookup_2.
    apply repoints_core, Hf, Hk.
  - intros t' (t & -> & Ht)%list_elem_of_fmap. destruct (Hf t Ht) as [->|(v & Hv & ->)].
    + by apply (wf_tasks _ W).
    + apply set_points_ok; [done|]. by apply (wf_tasks _ W).
Qed.

(** A candidate neither has ended nor is in quarantine; it does not run
    unless it is the task of this CPU. *)
Lemma candidate_spec multi c t :
  candidate multi c t = true →
  blocked (bits t) = false ∧ end_ (bits t) = false ∧ stack_quarantine (bits t) = false ∧
  (running (bits t) = true → own multi c t = true) ∧
  (multi = true → cpu_pinned (bits t) = true → cpu (bits t) = c).
Proof.
  unfold candidate, eligible. intros [Hpin [[[Hb He]%andb_true_iff Hq]%andb_true_iff Hr]%andb_true_iff]%andb_true_iff.
  rewrite !negb_true_iff in *. split_and!; try done.
  - intros Hrun. destruct (own multi c t); [done|]. by rewrite Hrun in Hr.
  - intros -> Hp. rewrite Hp in Hpin. simpl in Hpin. lia.
Qed.

Lemma elem_of_group_pool multi c s g p :
  p ∈ group_pool multi c s g ↔ ∃ t, t ∈ tasks s ∧ ptr t = p ∧ priority_group (bits t) = g ∧ candidate multi c t = true.
Proof.
  unfold group_pool. rewrite list_elem_of_fmap. split.
  - intros (t & -> & [H Ht]%list_elem_of_filter). apply Is_true_true, andb_true_iff in H as [?%Z.eqb_eq ?]. eauto.
  - intros (t & Ht & <- & <- & Hc). exists t. split; [done|]. apply list_elem_of_filter. split; [|done].
    apply Is_true_true, andb_true_iff. split; [apply Z.eqb_refl|done].
Qed.

Lemma group_pool_nil multi c s :
  sched_wf s → (∀ g, PRIO_GROUP_IDLE ≤ g ≤ PRIO_GROUP_REALTIME → group_pool multi c s g = []) →
  ∀ t, t ∈ tasks s → candidate multi c t = false.
Proof.
  intros W H t Ht. destruct (candidate multi c t) eqn:E; [|done].
  pose proof (ok_priority _ (wf_tasks _ W t Ht)) as Hp.
  assert (ptr t ∈ group_pool multi c s (priority_group (bits t))) as Hin by (apply elem_of_group_pool; eauto).
  rewrite H in Hin by done. by apply elem_of_nil in Hin.
Qed.

(** What a switch from [r] to [w] leaves behind. *)
Record switch_done (i : Interrupt) (s : tasklist) (r w : task) (i' : Interrupt) (s' : tasklist) : Prop := {
  sd_regs : i' = if ptr w =? ptr r then i else restore_state i w;
  sd_left : ptr w ≠ ptr r → end_ (bits r) = false →
    ∃ r', r' ∈ tasks s' ∧ ptr r' = ptr r ∧ running (bits r') = false ∧ stack_quarantine (bits r') = true ∧
          cpu_frame r' = i_cpu_frame i ∧ cpu_state r' = i_frame i ∧ fpu_sse_state r' = i_fpu i;
  sd_ended : end_ (bits r) = true →
    ptr w ≠ ptr r ∧ ptr r ∉ (ptr <$> tasks s') ∧
    ∃ r', last (task_delete_prequeue s') = Some r' ∧ ptr r' = ptr r ∧ running (bits r') = false;
  sd_queue : task_delete_queue s' = task_delete_queue s ∧ multicpu s' = multicpu s;
  sd_others : ∀ t, t ∈ tasks s → ptr t ≠ ptr r → ptr t ≠ ptr w → ∃ t', t' ∈ tasks s' ∧ repoints t t'
}.

Lemma switched_keeps i multi c r w ts t :
  ptr r ≠ ptr w → t ∈ ts → (end_ (bits r) = true → ptr t ≠ ptr r) →
  switch_task i multi c r w t ∈ switched i multi c r w ts.
Proof.
  intros Hne Ht He. unfold switched. rewrite switched_fmap by done. destruct (end_ (bits r)).
  - apply list_elem_of_filter. rewrite switch_task_ptr. split; [auto|]. by apply list_elem_of_fmap_2.
  - by apply list_elem_of_fmap_2.
Qed.

Lemma switch_branch i c s r w :
  sched_wf s → r ∈ tasks s → w ∈ tasks s → get_current_task_with_lock c s = Ret r →
  own (multicpu s) c r = true → candidate (multicpu s) c w = true →
  ∃ i' s', (if ptr w =? ptr r then
              c ← get_task (ptr r) s; if end_ (bits c) then Panicked else Ret (i, s)
            else switch_to c (ptr r) (ptr w) i s) = Ret (i', s') ∧
    sched_wf s' ∧ (∃ w', get_current_task_with_lock c s' = Ret w' ∧ ptr w' = ptr w) ∧
    switch_done i s r w i' s'.
Proof.
  intros W Hr Hw Hc Hown Hcand. destruct (candidate_spec _ _ _ Hcand) as (_ & He & Hq & Hrun & _).
  destruct (Z.eqb_spec (ptr w) (ptr r)) as [E|E].
  - assert (w = r) as -> by (by eapply (NoDup_fmap_inj ptr); [apply W|..]).
    rewrite get_task_of by (apply W || done). cbn [mbind outcome_bind]. rewrite He.
    exists i, s. split_and!; [done|done|by exists r|]. constructor.
    + by rewrite Z.eqb_refl.
    + done.
    + congruence.
    + done.
    + intros t Ht _ _. exists t. split; [done|by left].
  - destruct (switch_to_spec c i s r w) as (s' & Es & Ht & Hm & Hpre & Hdel & _); [apply W|done..|].
    exists (restore_state i w), s'. split; [done|].
    assert (ptr r ≠ ptr w) as Hne by done. split; [eapply (switched_wf i c s s' r w); eassumption|]. split.
    { destruct (switched_current i c s s' r w) as (w' & Hw' & ->); try done.
      exists (switch_task i (multicpu s) c r w w). split; [done|apply switch_task_ptr]. }
    constructor.
    + by rewrite (proj2 (Z.eqb_neq _ _)).
    + intros _ Hend. exists (switch_task i (multicpu s) c r w r). rewrite Ht.
      split; [apply switched_keeps; [done..|congruence]|]. rewrite switch_task_ptr. split; [done|].
      unfold switch_task. rewrite (proj2 (Z.eqb_neq _ _)), Z.eqb_refl by done. unfold leave_task. by rewrite Hend.
    + intros Hend. split; [done|]. rewrite Ht, Hpre, Hend. split.
      * intros (t' & Hp & (t & _ & -> & Hne')%elem_of_switched)%list_elem_of_fmap; [|done].
        rewrite switch_task_ptr in Hp. by destruct (Hne' Hend).
      * exists (leave_task i r). rewrite last_snoc. split; [done|]. rewrite leave_task_ptr.
        split; [done|]. unfold leave_task. by case_match.
    + done.
    + intros t Hin Htr Htw. exists t. split; [|by left]. rewrite Ht.
      replace t with (switch_task i (multicpu s) c r w t); [by apply switched_keeps|].
      unfold switch_task. by rewrite !(proj2 (Z.eqb_neq _ _)).
Qed.

Lemma repoints_trans t t1 t2 : repoints t t1 → repoints t1 t2 → repoints t t2.
Proof.
  intros [->|(v & Hv & ->)] [->|(v' & Hv' & ->)]; [by left|right; eauto..].
Qed.

(** The same seen from before the accounting. *)
Lemma switch_done_repoints i s f r w i' s' :
  (∀ t, t ∈ tasks s → repoints t (f t)) → r ∈ tasks s → w ∈ tasks s →
  switch_done i (with_tasks s (f <$> tasks s)) (f r) (f w) i' s' → switch_done i s r w i' s'.
Proof.
  intros Hf Hr Hw [Hregs Hleft Hend Hdq Hoth].
  assert (∀ t, t ∈ tasks s → ptr (f t) = ptr t) as Hp by (intros t Ht; by injection (repoints_core _ _ (Hf t Ht))).
  destruct (repoints_candidate true 0 _ _ (Hf r Hr)) as (_ & _ & _ & He & _).
  destruct (repoints_candidate true 0 _ _ (Hf w Hw)) as (_ & _ & _ & _ & Hf1 & Hf2 & Hf3).
  rewrite (Hp r Hr), (Hp w Hw), ?He in *. constructor; try done.
  - rewrite Hregs. unfold restore_state. by rewrite Hf1, Hf2, Hf3.
  - intros t Ht Hr' Hw'. destruct (Hoth (f t)) as (t' & Hin & Ht'); [by apply list_elem_of_fmap_2| | |].
    + by rewrite Hp.
    + by rewrite Hp.
    + exists t'. split; [done|]. eapply repoints_trans; [by apply Hf|done].
Qed.

(** The rest of switch_tasks when the pool is known. *)
Lemma pick_from_pool i c s r g pool :
  sched_wf s → get_current_task_with_lock c s = Ret r → own (multicpu s) c r = true →
  pool = group_pool (multicpu s) c s g → pool ≠ [] →
  ∃ i' s' w,
    (s ← account (ptr r) pool s;
     w ← winner s (ptr r) pool None;
     match w with
     | None => OutOfBounds
     | Some w =>
       '(i, s) ← (if ptr w =? ptr r then c ← get_task (ptr r) s; if end_ (bits c) then Panicked else Ret (i, s)
                  else switch_to c (ptr r) (ptr w) i s);
       Ret (i, with_actions (with_out_of_lock s []) (call_function <$> do_when_out_of_lock s))
     end) = Ret (i', s') ∧
    sched_wf s' ∧ w ∈ tasks s ∧ candidate (multicpu s) c w = true ∧ priority_group (bits w) = g ∧
    (∃ w', get_current_task_with_lock c s' = Ret w' ∧ ptr w' = ptr w) ∧
    switch_done i s r w i' s'.
Proof.
  intros W Hr Hown Hpool Hne. destruct (get_current_elem _ _ _ Hr) as [Hin _].
  destruct (account_spec s r pool W Hin) as (s2 & f & E2 & -> & Hf). rewrite E2. cbn [mbind outcome_bind].
  set (s2 := with_tasks s (f <$> tasks s)). pose proof (repoints_wf s f W Hf) as W2. fold s2 in W2.
  assert (∀ t, t ∈ tasks s → ptr (f t) = ptr t) as Hp by (intros t Ht; by injection (repoints_core _ _ (Hf t Ht))).
  destruct (winner_spec s2 (ptr r) pool) as (w2 & Ew & Hw2 & Hwp & _); [apply W2| |done|].
  { intros p. rewrite Hpool. intros (t & Ht & <- & _)%elem_of_group_pool. rewrite <- (Hp t Ht).
    apply list_elem_of_fmap_2. simpl. by apply list_elem_of_fmap_2. }
  rewrite Ew. cbn [mbind outcome_bind]. simpl in Hw2. apply list_elem_of_fmap in Hw2 as (w & -> & Hw).
  rewrite Hp, Hpool in Hwp by done. apply elem_of_group_pool in Hwp as (w1 & Hw1 & Epw & Hg & Hcand).
  assert (w1 = w) as -> by (by eapply (NoDup_fmap_inj ptr); [apply W|..]).
  destruct (switch_branch i c s2 (f r) (f w)) as (i' & s3 & E3 & W3 & Hc3 & D); [done|by apply list_elem_of_fmap_2..| | | |].
  { assert (core <$> tasks s2 = core <$> tasks s) as Ec.
    { simpl. rewrite <- list_fmap_compose. apply list_fmap_ext. intros k t Hk%list_elem_of_lookup_2.
      by apply repoints_core, Hf. }
    destruct (core_current c s s2 r W Ec eq_refl Hr) as (r2 & Hr2 & Hcr). rewrite Hr2. f_equal.
    eapply (NoDup_fmap_inj ptr); [apply (wf_ptrs _ W2)|by apply (get_current_elem c)|by apply list_elem_of_fmap_2|].
    rewrite Hp by done. by injection Hcr. }
  { unfold own. simpl. injection (repoints_core _ _ (Hf r Hin)) as _ _ -> ->. done. }
  { by rewrite (proj1 (repoints_candidate _ _ _ _ (Hf w Hw))). }
  rewrite (Hp r Hin) in E3. rewrite E3. cbn [mbind outcome_bind].
  rewrite (Hp w Hw) in Hc3. apply switch_done_repoints in D; [|done..].
  eexists i', _, w. split_and!; try done.
  - by destruct W3; constructor.
  - by destruct D; constructor.
Qed.

Lemma switch_pick_spec nanos c i s r :
  sched_wf s → get_current_task_with_lock c s = Ret r →
  let settled := settle (multicpu s) nanos c (id (bits r)) in
  match switch_pick nanos c i s with
  | Ret (i', s') =>
    sched_wf s' ∧
    ∃ s1 w, tasks s1 = settled <$> tasks s ∧ same_queues s s1 ∧ sched_wf s1 ∧
      get_current_task_with_lock c s1 = Ret (settled r) ∧
      w ∈ tasks s1 ∧ candidate (multicpu s) c w = true ∧
      (∀ t, t ∈ tasks s1 → candidate (multicpu s) c t = true →
            priority_group (bits t) ≤ priority_group (bits w)) ∧
      (∃ w', get_current_task_with_lock c s' = Ret w' ∧ ptr w' = ptr w) ∧
      switch_done i s1 (settled r) w i' s'
  | Panicked => ∀ t, t ∈ tasks s → candidate (multicpu s) c (settled t) = false
  | _ => False
  end.
Proof.
  intros W Hr settled. unfold switch_pick.
  destruct (pools_done (multicpu s) nanos c (id (bits r)) s) as (s1 & E1 & W1 & Hm1 & Ht1 & Hq1 & _);
    [done|done|eauto|].
  rewrite E1. cbn [mbind outcome_bind]. fold settled in Ht1.
  assert (core <$> tasks s1 = core <$> tasks s) as Ec.
  { rewrite Ht1, <- list_fmap_compose. apply list_fmap_ext.
    intros k t _. simpl. apply settle_core. }
  destruct (core_current c s s1 r W Ec Hm1 Hr) as (r1 & Hr1 & Hcr).
  destruct (get_current_elem _ _ _ Hr1) as [Hin1 _].
  assert (r1 = settled r) as Er1.
  { eapply (NoDup_fmap_inj ptr); [apply (wf_ptrs _ W1)|done| |].
    - rewrite Ht1. apply list_elem_of_fmap_2. by apply (get_current_elem c).
    - unfold settled. rewrite settle_ptr. by injection Hcr. }
  destruct (current_pools (multicpu s) c s1 r1 W1 Hm1 Hr1) as [Hcur Hown].
  pose proof (choose_pool_spec (multicpu s) c s1 r1 W1 Hm1 Hr1) as Hpool.
  destruct (choose_pool _ _ _) as [pool| | |]; try done; cbn [mbind outcome_bind].
  2:{ intros t Ht. apply (group_pool_nil _ _ s1 W1); [done|]. rewrite Ht1. by apply list_elem_of_fmap_2. }
  destruct Hpool as (g & Hg & -> & Hne & Hhigh). rewrite Hcur.
  destruct (pick_from_pool i c s1 r1 g (group_pool (multicpu s) c s1 g)) as
    (i' & s' & w & E & W' & Hw & Hcand & Hprio & Hw' & D); rewrite ?Hm1; try done.
  rewrite E. split; [done|]. rewrite Hm1 in Hcand. exists s1, w. rewrite <- Er1.
  split_and!; try done; [apply Hq1..|].
  intros t Ht Hct. pose proof (ok_priority _ (wf_tasks _ W1 t Ht)) as Hrange. rewrite Hprio.
  destruct (Z.le_gt_cases (priority_group (bits t)) g); [done|].
  assert (ptr t ∈ group_pool (multicpu s) c s1 (priority_group (bits t))) as Hint by (apply elem_of_group_pool; eauto).
  rewrite Hhigh in Hint by lia. by apply elem_of_nil in Hint.
Qed.

Lemma core_has_current c s s' :
  core <$> tasks s' = core <$> tasks s → multicpu s' = multicpu s → has_current c s → has_current c s'.
Proof.
  intros E Hm (t & Ht & Hr). destruct (core_from s' s t (eq_sym E) Ht) as (u & Hu & [= _ _ Er Ec]).
  exists u. split; [done|]. unfold runs_on, cpu_num in *. by rewrite Hm, Er, Ec.
Qed.

(** The other CPUs go on with their tasks. *)
Lemma switch_others c c' i i' s1 s' r w :
  sched_wf s1 → get_current_task_with_lock c s1 = Ret r → w ∈ tasks s1 → candidate (multicpu s1) c w = true →
  has_current c s' → switch_done i s1 r w i' s' → has_current c' s1 → has_current c' s'.
Proof.
  intros W Hr Hw Hcand Hc [_ _ _ [_ Hm] Hoth] (t & Ht & Hon).
  destruct (get_current_elem _ _ _ Hr) as [Hin Hon'].
  assert (cpu_num c' s' = cpu_num c' s1 ∧ cpu_num c s' = cpu_num c s1) as [En En'] by (unfold cpu_num; by rewrite Hm).
  assert (t = r → has_current c' s') as Hsame.
  { intros ->. destruct Hc as (u & Hu & Hu'). exists u. split; [done|].
    apply andb_true_iff in Hon as [Ec%Z.eqb_eq _], Hon' as [Ec'%Z.eqb_eq _]. congruence. }
  destruct (decide (ptr t = ptr r)) as [E|E].
  { apply Hsame. by eapply (NoDup_fmap_inj ptr); [apply W|..]. }
  destruct (decide (ptr t = ptr w)) as [E'|E'].
  - assert (t = w) as -> by (by eapply (NoDup_fmap_inj ptr); [apply W|..]).
    destruct (candidate_spec _ _ _ Hcand) as (_ & _ & _ & Hrun & _).
    apply Hsame. apply (own_unique (multicpu s1) c s1); try done.
    + apply Hrun. by apply andb_true_iff in Hon as [_ ?].
    + by apply (current_pools (multicpu s1) c s1).
  - destruct (Hoth t Ht E E') as (t' & Ht' & [= _ _ Er Ec]%repoints_core). exists t'. split; [done|].
    unfold runs_on in *. by rewrite En, Er, Ec.
Qed.

(** ** Events during a switch *)

Lemma bind_inv {A B} (m : outcome A) (f : A → outcome B) y :
  (x ← m; f x) = Ret y → ∃ x, m = Ret x ∧ f x = Ret y.
Proof. destruct m as [x| | |]; try done. cbn. eauto. Qed.

Lemma task_event_quiet c p v0 v1 v2 s s' :
  v0 ≠ TASK_EVENT_TIMER100HZ → task_event c p v0 v1 v2 s = Ret s' → same_events s s'.
Proof.
  intros Hv (t & _ & E)%bind_inv. apply (foldM_raises _ (λ _, [])) in E.
  - assert (∀ hs : list task_event_handler, hs ≫= (λ _, []) = @nil Z) as Hn by (intros hs; by induction hs).
    by rewrite Hn in E.
  - intros h u u' _ H%handler_event_raises. revert H. unfold due. rewrite (proj2 (Z.eqb_neq _ _)) by done.
    by destruct (eh_kind h).
Qed.

Lemma tasks_quiet c v0 v1 v2 l s s' :
  v0 ≠ TASK_EVENT_TIMER100HZ → foldM (λ p, task_event c p v0 v1 v2) l s = Ret s' → same_events s s'.
Proof.
  intros Hv. revert s. induction l as [|p l IH]; intros s; cbn [foldM]; [by intros [= <-]|].
  intros (s1 & E & H%IH)%bind_inv. etrans; [|exact H]. by eapply task_event_quiet; [|exact E].
Qed.

Lemma pool_loop_quiet nanos c l : ∀ st st',
  pool_loop nanos c l st = Ret st' → same_events (snd st) (snd st').
Proof.
  induction l as [|p l IH]; intros [ps s] st'; cbn [pool_loop]; [by intros [= <-]|].
  intros (st1 & E & H%IH)%bind_inv. etrans; [|exact H]. clear -E. unfold pool_step in E.
  apply bind_inv in E as (s1 & E1 & (t & _ & E)%bind_inv).
  assert (same_events s s1) as Hs.
  { destruct nanos; [by eapply task_event_quiet; [|exact E1]|by injection E1 as <-]. }
  cbv zeta in E. repeat case_match; simplify_eq/=; done.
Qed.

Lemma switch_to_quiet c cur win i s i' s' : switch_to c cur win i s = Ret (i', s') → same_events s s'.
Proof.
  unfold switch_to, set_not_running, set_running, evict.
  intros (t & _ & (s1 & (t1 & _ & [= <-])%bind_inv & (w & _ & (s2 & (w1 & _ & [= <-])%bind_inv & H)%bind_inv)%bind_inv)%bind_inv)%bind_inv.
  apply bind_inv in H as (s3 & H3 & [= _ <-]). revert H3. cbn [multicpu with_tasks with_actions upd].
  repeat case_match; intros; simplify_eq/=; done.
Qed.

Lemma switch_pick_quiet nanos c i s i' s' : switch_pick nanos c i s = Ret (i', s') → same_events s s'.
Proof.
  unfold switch_pick. intros ([ps s1] & E1%pool_loop_quiet & (pool & _ & H)%bind_inv)%bind_inv.
  destruct (current_task ps) as [cur|]; [|done].
  apply bind_inv in H as (s2 & E2 & (w & _ & H)%bind_inv). destruct w as [w|]; [|done].
  apply bind_inv in H as ([i3 s3] & E3 & [= _ <-]).
  assert (same_events s1 s2) as Hs2.
  { apply bind_inv in E2 as (t & _ & E2). repeat case_match; by simplify_eq/=. }
  assert (same_events s2 s3) as Hs3.
  { destruct (_ =? _); [|by eapply switch_to_quiet]. apply bind_inv in E3 as (t & _ & E3).
    repeat case_match; by simplify_eq/=. }
  etrans; [exact E1|]. etrans; [exact Hs2|]. exact Hs3.
Qed.

(** ** Deletion and the reaper *)

Lemma reap_prequeue_wf c s : sched_wf s → sched_wf (fst (reap_prequeue c s)).
Proof. intros []. by constructor. Qed.

(** The first part of switch_tasks. *)
Lemma reap_spec c sema s :
  sched_wf s → has_current c s → events_in_event s = [] →
  ∃ s', (if snd (reap_prequeue c s) then reaper_release c sema (fst (reap_prequeue c s))
         else Ret (fst (reap_prequeue c s))) = Ret s' ∧
    sched_wf s' ∧ core <$> tasks s' = core <$> tasks s ∧ multicpu s' = multicpu s ∧ events_in_event s' = [] ∧
    task_delete_prequeue s' = filter (λ t, cpu (bits t) ≠ c) (task_delete_prequeue s) ∧
    task_delete_queue s' = task_delete_queue s ++ filter (λ t, cpu (bits t) = c) (task_delete_prequeue s).
Proof.
  intros W Hc He. pose proof (reap_prequeue_wf c s W) as W1. destruct (snd (reap_prequeue c s)).
  - unfold reaper_release. set (s1 := with_counters _ _ _ _ _).
    destruct (get_current_some c s1) as [r Hr]; [done|].
    destruct (event_total c TASK_EVENT_SEMAPHORE sema (u32 (reaper_sema (fst (reap_prequeue c s)) + 1)) 0 s1 r)
      as (s' & E & W' & _ & He' & Ec & (_ & _ & Hm & Hp & Hd & _) & _); [by apply wf_counters|done|done|].
    exists s'. by split_and!.
  - eexists. split_and!; done.
Qed.

Lemma switch_tasks_spec sema nanos c i s :
  sched_wf s → has_current c s → events_in_event s = [] →
  match switch_tasks sema nanos c i s with
  | Ret (i', s') =>
    sched_wf s' ∧ (∀ c', c' = c ∨ has_current c' s → has_current c' s') ∧ multicpu s' = multicpu s ∧
    events_in_event s' = [] ∧
    task_delete_queue s' = task_delete_queue s ++ filter (λ t, cpu (bits t) = c) (task_delete_prequeue s)
  | Panicked => True
  | _ => False
  end.
Proof.
  intros W Hc He. unfold switch_tasks. rewrite (surjective_pairing (reap_prequeue c s)).
  destruct (reap_spec c sema s W Hc He) as (s0 & E & W0 & Ec & Hm & He0 & _ & Hdel). rewrite E. cbn [mbind outcome_bind].
  destruct (get_current_some c s0) as [r Hr]; [by apply (core_has_current c s)|].
  pose proof (switch_pick_spec nanos c i s0 r W0 Hr) as P. cbv zeta in P.
  destruct (switch_pick nanos c i s0) as [[i' s']| | |] eqn:Ep; try done.
  apply switch_pick_quiet in Ep as [He' _].
  destruct P as (W' & s1 & w & Ht1 & Hq1 & W1 & Hr1 & Hw & Hcand & _ & (w' & Hw' & _) & D).
  assert (multicpu s1 = multicpu s0) as Hm1 by apply Hq1.
  assert (core <$> tasks s1 = core <$> tasks s) as Ec1.
  { rewrite <- Ec, Ht1, <- list_fmap_compose. apply list_fmap_ext. intros k t _. apply settle_core. }
  assert (has_current c s') as Hc' by (exists w'; by apply get_current_elem).
  pose proof (sd_queue _ _ _ _ _ _ D) as [Hq' Hm'].
  split_and!; [done| |congruence|congruence|].
  - intros c' [->|Hc2]; [done|]. eapply switch_others; [done|done|done| |done|done|]; [congruence|].
    apply (core_has_current c' s); [done|congruence|done].
  - destruct Hq1 as (_ & _ & _ & _ & Hd1 & _). congruence.
Qed.
