(* ===== verification/SchedSteps.v ===== *)
(** All operations of the scheduler as one step relation, and the invariant
    of the states it reaches: tasks keep their ids and addresses apart, and
    each CPU that has been started runs exactly one task. *)
From stdpp Require Import relations.
From S2P Require Import Prelude Task Tasklist SchedInv SchedSwitch.

Local Open Scope Z_scope.

(** * Ids *)

Lemma has_id_spec i ts : has_id i ts = true ↔ i ∈ (id ∘ bits <$> ts).
Proof.
  unfold has_id. rewrite existsb_exists, list_elem_of_fmap. split.
  - intros (t & Ht & E%Z.eqb_eq). exists t. split; [done|]. by apply list_elem_of_In.
  - intros (t & E & Ht). exists t. split; [by apply list_elem_of_In|]. by apply Z.eqb_eq.
Qed.

Lemma next_id_loop_ret fuel ser ts i :
  next_id_loop fuel ser ts = Ret i → i ∉ (id ∘ bits <$> ts) ∧ is_u 32 i.
Proof.
  revert ser. induction fuel as [|fuel IH]; intros ser; cbn [next_id_loop]; [done|].
  destruct (has_id (u32 (ser + 1)) ts) eqn:E; [apply IH|]. intros [= <-]. split; [|by apply is_u_wrap].
  intros H%has_id_spec. congruence.
Qed.

(** The ids the loop tries. *)
Lemma next_id_loop_tried fuel ser ts :
  (∃ i, next_id_loop fuel ser ts = Ret i) ∨
  ∀ j, (j < fuel)%nat → u32 (ser + 1 + Z.of_nat j) ∈ (id ∘ bits <$> ts).
Proof.
  revert ser. induction fuel as [|fuel IH]; intros ser; cbn [next_id_loop]; [right; lia|].
  destruct (has_id (u32 (ser + 1)) ts) eqn:E; [|eauto]. apply has_id_spec in E.
  destruct (IH (u32 (ser + 1))) as [?|H]; [by left|]. right. intros [|j] Hj.
  - by rewrite Z.add_0_r.
  - specialize (H j ltac:(lia)). replace (u32 (ser + 1 + Z.of_nat (S j))) with
      (u32 (u32 (ser + 1) + 1 + Z.of_nat j)); [done|].
    unfold wrap. rewrite <- (Z.add_assoc _ 1), Zplus_mod_idemp_l. f_equal. lia.
Qed.

Lemma next_id_total ser ts :
  Z.of_nat (length ts) < 2 ^ 32 → ∃ i, next_id_loop (S (length ts)) ser ts = Ret i.
Proof.
  intros Hl. destruct (next_id_loop_tried (S (length ts)) ser ts) as [?|H]; [done|]. exfalso.
  set (tried := (λ j, u32 (ser + 1 + Z.of_nat j)) <$> seq 0 (S (length ts))).
  assert (NoDup tried) as Hn.
  { apply NoDup_fmap_2_strong; [|apply NoDup_seq]. intros j j' Hj%elem_of_seq Hj'%elem_of_seq E.
    unfold wrap in E. pose proof (Z.div_mod (ser + 1 + Z.of_nat j) (2 ^ 32)).
    pose proof (Z.div_mod (ser + 1 + Z.of_nat j') (2 ^ 32)). nia. }
  assert (tried ⊆ (id ∘ bits <$> ts)) as Hs.
  { intros x (j & -> & Hj%elem_of_seq)%list_elem_of_fmap. apply H. lia. }
  apply (NoDup_submseteq _ _ Hn), submseteq_length in Hs. subst tried.
  rewrite !length_fmap, length_seq in Hs. lia.
Qed.

Lemma get_next_id_spec s :
  Z.of_nat (length (tasks s)) < 2 ^ 32 →
  ∃ i, get_next_id s = Ret (i, with_counters s (reaper_sema s) (tick_counter s) i (multicpu s)) ∧
       i ∉ (id ∘ bits <$> tasks s) ∧ is_u 32 i.
Proof.
  intros Hl. destruct (next_id_total (serial s) (tasks s) Hl) as [i E]. exists i.
  unfold get_next_id. rewrite E. cbn [mbind outcome_bind]. split; [done|]. by eapply next_id_loop_ret.
Qed.

(** * Lists of tasks that grow, shrink and change *)

Lemma wf_append s s' t :
  sched_wf s → task_ok t → ptr t ∉ (ptr <$> tasks s) → id (bits t) ∉ (id ∘ bits <$> tasks s) →
  (running (bits t) = true → ∀ u, u ∈ tasks s → running (bits u) = true →
     multicpu s = true ∧ cpu (bits u) ≠ cpu (bits t)) →
  (multicpu s = false → cpu (bits t) = 0) → tasks s' = tasks s ++ [t] → multicpu s' = multicpu s → sched_wf s'.
Proof.
  intros [Hok Hp Hi Hr H0] Ht Hpt Hit Hrt Hct Es Em.
  assert (∀ (A : Type) (l : list A) x, NoDup l → x ∉ l → NoDup (l ++ [x])) as Hsnoc.
  { intros A l x Hl Hx. apply NoDup_app. split_and!; [done| |apply NoDup_singleton].
    intros y Hy ->%list_elem_of_singleton. done. }
  constructor; rewrite ?Es, ?Em.
  - intros u [Hu| ->%list_elem_of_singleton]%elem_of_app; auto.
  - rewrite fmap_app. by apply Hsnoc.
  - rewrite fmap_app. by apply Hsnoc.
  - intros u u' [Hu| ->%list_elem_of_singleton]%elem_of_app [Hu'| ->%list_elem_of_singleton]%elem_of_app R R' Hor;
      try done; auto.
    + destruct (Hrt R' u Hu R) as [??]. destruct Hor; congruence.
    + destruct (Hrt R u' Hu' R') as [??]. destruct Hor; congruence.
  - intros Hm u [Hu| ->%list_elem_of_singleton]%elem_of_app; auto.
Qed.

Lemma wf_sublist s s' :
  sched_wf s → tasks s' `sublist_of` tasks s → multicpu s' = multicpu s → sched_wf s'.
Proof.
  intros [Hok Hp Hi Hr H0] Hs Hm.
  assert (∀ t, t ∈ tasks s' → t ∈ tasks s) as Hin by (intros t Ht; by eapply elem_of_sublist).
  constructor; rewrite ?Hm; eauto.
  - eapply sublist_NoDup; [exact Hp|]. by apply fmap_sublist.
  - eapply sublist_NoDup; [exact Hi|]. by apply fmap_sublist.
Qed.

(** A change to one task that keeps what tells it apart. *)
Lemma upd_core s t f :
  NoDup (ptr <$> tasks s) → t ∈ tasks s → core (f t) = core t → core <$> tasks (upd (ptr t) f s) = core <$> tasks s.
Proof.
  intros Hn Ht Hc. simpl. apply upd_list_fmap. intros u Hu E.
  assert (u = t) as -> by (by eapply (NoDup_fmap_inj ptr)). done.
Qed.

Lemma wf_upd s t f :
  sched_wf s → t ∈ tasks s → core (f t) = core t → task_ok (f t) → sched_wf (upd (ptr t) f s).
Proof.
  intros W Ht Hc Hok. apply (core_wf s); [apply upd_core; [apply W|done..]|done| |done].
  intros u. simpl. rewrite elem_of_upd_list. intros (v & Hv & ->).
  destruct (Z.eqb_spec (ptr v) (ptr t)) as [E|E]; [|by apply (wf_tasks _ W)].
  assert (v = t) as -> by (by eapply (NoDup_fmap_inj ptr); [apply W|..]). done.
Qed.

(** * The invariant *)

(** [cpus] are the CPUs that run a task; between two operations no event
    waits. *)
Record good (cpus : list Z) (s : tasklist) : Prop := {
  good_wf : sched_wf s;
  good_current : ∀ c, c ∈ cpus → has_current c s;
  good_quiet : events_in_event s = []
}.

Lemma good_core cpus s s' :
  good cpus s → core <$> tasks s' = core <$> tasks s → multicpu s' = multicpu s → events_in_event s' = [] →
  (∀ t, t ∈ tasks s' → task_ok t) → good cpus s'.
Proof.
  intros [W H _] E Hm He Hok. split; [by apply (core_wf s)| |done].
  intros c Hc. by apply (core_has_current c s); auto.
Qed.

Lemma good_upd cpus s t f :
  good cpus s → t ∈ tasks s → core (f t) = core t → task_ok (f t) → good cpus (upd (ptr t) f s).
Proof.
  intros G Ht Hc Hok. pose proof (good_wf _ _ G) as W. split; [by apply wf_upd| |apply G].
  intros c Hin. apply (core_has_current c s); [apply upd_core; [apply W|done..]|done|by apply G].
Qed.

(** Only what the invariant does not look at has changed. *)
Lemma good_same cpus s s' :
  good cpus s → tasks s' = tasks s → multicpu s' = multicpu s →
  events_in_event s' = events_in_event s → good cpus s'.
Proof.
  intros G E Hm He. apply (good_core cpus s); [done|by rewrite E|done|rewrite He; apply G|]. rewrite E. apply G.
Qed.

(** * New tasks *)

Lemma create_idle_spec cpus p c s :
  good cpus s → p ∉ (ptr <$> tasks s) → Z.of_nat (length (tasks s)) < 2 ^ 32 →
  (∀ u, u ∈ tasks s → running (bits u) = true → multicpu s = true ∧ cpu (bits u) ≠ c) →
  (multicpu s = false → c = 0) →
  ∃ pid s', create_current_idle_task p c s = Ret (pid, s') ∧ good (c :: cpus) s' ∧
            pid ∉ (id ∘ bits <$> tasks s).
Proof.
  intros [W Hcur He] Hp Hl Hnone Hc0. destruct (get_next_id_spec s Hl) as (i & E & Hi & _).
  unfold create_current_idle_task. rewrite E. cbn [mbind outcome_bind].
  set (t := set_cpu_pinned true _). eexists i, _. split; [done|]. split; [|done]. split; [| |done].
  - eapply (wf_append s _ t); try done.
    constructor; simpl; unfold PRIO_GROUP_IDLE, PRIO_GROUP_REALTIME, MAX_POINTS, MAX_RESOURCES; try done; try lia.
    + intros h Hh. by apply elem_of_nil in Hh.
    + constructor.
  - intros c' [->|Hc']%elem_of_cons.
    + eexists. split; [simpl; apply elem_of_app; right; apply list_elem_of_here|].
      unfold runs_on, cpu_num. simpl. destruct (multicpu s); [by rewrite Z.eqb_refl|]. by rewrite Hc0.
    + destruct (Hcur c' Hc') as (u & Hu & Hr). exists u. split; [|done]. simpl. apply elem_of_app. by left.
Qed.

Lemma start_multi_spec cpus b s :
  good cpus s → multicpu s = false → cpus ≠ [] → good [b] (start_multi_cpu b s).
Proof.
  intros [W Hcur He] Hm Hne. split; [| |done].
  - constructor; simpl.
    + intros t (u & -> & Hu)%list_elem_of_fmap. by destruct (wf_tasks _ W u Hu); constructor.
    + rewrite <- list_fmap_compose. apply W.
    + rewrite <- list_fmap_compose. apply W.
    + intros t t' (u & -> & Hu)%list_elem_of_fmap (u' & -> & Hu')%list_elem_of_fmap R R' _.
      apply (wf_running _ W u u'); [done..|by left].
    + done.
  - intros c ->%list_elem_of_singleton. destruct cpus as [|c0 cpus]; [done|].
    destruct (Hcur c0) as (t & Ht & Hr); [left|]. exists (set_cpu b t). simpl. split; [by apply list_elem_of_fmap_2|].
    apply andb_true_iff in Hr as [_ Hr]. unfold runs_on, cpu_num. simpl. by rewrite Z.eqb_refl.
Qed.

Lemma new_task_spec cpus p fpu sf cf rs s :
  good cpus s → p ∉ (ptr <$> tasks s) → Z.of_nat (length (tasks s)) + 1 < 2 ^ 32 →
  ∃ i s', new_task_state p fpu sf cf rs s = Ret (i, s') ∧ good cpus s' ∧ i ∉ (id ∘ bits <$> tasks s) ∧
          ∃ t, tasks s' = tasks s ++ [t] ∧ ptr t = p ∧ id (bits t) = i ∧ cpu_frame t = cf ∧ cpu_state t = sf ∧
               fpu_sse_state t = fpu ∧ task_resources t = rs ∧ blocked (bits t) = false ∧ running (bits t) = false.
Proof.
  intros [W Hcur He] Hp Hl. unfold new_task_state. set (t0 := make_task p cf sf fpu rs).
  destruct (get_next_id_spec (with_tasks s (tasks s ++ [t0]))) as (i & E & Hi & _).
  { simpl. rewrite length_app. simpl. lia. }
  rewrite E. cbn [mbind outcome_bind]. simpl in Hi. rewrite fmap_app, not_elem_of_app in Hi. destruct Hi as [Hi _].
  set (t := set_blocked newtask false (set_id i t0)).
  eexists i, _. split; [done|].
  assert (∀ f, upd_list p f (tasks s ++ [t0]) = tasks s ++ [f t0]) as Hupd.
  { intros f. unfold upd_list. rewrite fmap_app. fold (upd_list p f (tasks s)). rewrite upd_list_none by done.
    simpl. by rewrite Z.eqb_refl. }
  assert (tasks (upd p (set_blocked newtask false) (upd p (set_id i)
            (with_counters (with_tasks s (tasks s ++ [t0])) (reaper_sema s) (tick_counter s) i (multicpu s))))
          = tasks s ++ [t]) as Ht.
  { simpl. rewrite upd_list_compose by done. by rewrite Hupd. }
  split; [|split; [done|by exists t; split_and!]]. split; [| |done].
  - eapply (wf_append s _ t); try done. constructor; simpl; try done.
    + intros h Hh. by apply elem_of_nil in Hh.
    + constructor.
  - intros c Hc. destruct (Hcur c Hc) as (u & Hu & Hr). exists u. split; [|done].
    assert (u ∈ tasks s ++ [t]) as Hin by (apply elem_of_app; by left). rewrite <- Ht in Hin. exact Hin.
Qed.

(** * The end of tasks *)

Lemma foldM_app {A} (f : A → tasklist → outcome tasklist) l l' s :
  foldM f (l ++ l') s = (s ← foldM f l s; foldM f l' s).
Proof.
  revert s. induction l as [|x l IH]; intros s; [done|]. cbn [app foldM].
  destruct (f x s); try done. cbn [mbind outcome_bind]. apply IH.
Qed.

Lemma foldM_ext {A} (f g : A → tasklist → outcome tasklist) l s :
  (∀ x s, x ∈ l → f x s = g x s) → foldM f l s = foldM g l s.
Proof.
  revert s. induction l as [|x l IH]; intros s H; [done|]. cbn [foldM]. rewrite H by left.
  destruct (g x s); try done. cbn [mbind outcome_bind]. apply IH. intros y u Hy. apply H. by right.
Qed.

Lemma foldM_skip (f : Z → tasklist → outcome tasklist) p l s :
  foldM (λ q s, if q =? p then Ret s else f q s) l s = foldM f (filter (λ q, q ≠ p) l) s.
Proof.
  revert s. induction l as [|q l IH]; intros s; [done|]. cbn [foldM].
  destruct (Z.eqb_spec q p) as [E|E].
  - rewrite filter_cons_False by tauto. apply IH.
  - rewrite filter_cons_True by done. cbn [foldM]. destruct (f q s); try done. apply IH.
Qed.

(** Events to some of the tasks. *)
Lemma good_events cpus c v0 v1 v2 l s :
  good cpus s → c ∈ cpus → v0 ≠ TASK_EVENT_TIMER100HZ → NoDup l → (∀ p, p ∈ l → p ∈ (ptr <$> tasks s)) →
  ∃ s', foldM (λ p, task_event c p v0 v1 v2) l s = Ret s' ∧ good cpus s' ∧
        core <$> tasks s' = core <$> tasks s ∧ multicpu s' = multicpu s.
Proof.
  intros G Hc Hv Hnd Hin. destruct (get_current_some c s) as [r Hr]; [by apply G|].
  destruct (tasks_loop c v0 v1 v2 l s r (good_wf _ _ G) Hr Hnd Hin) as (s' & E & W' & _ & Hts & Hq & _).
  assert (core <$> tasks s' = core <$> tasks s) as Ec.
  { rewrite Hts, <- list_fmap_compose. apply list_fmap_ext. intros k t _. simpl. unfold heard.
    case_match; [apply evolved_core_eq, evolved_handle_all|done]. }
  assert (multicpu s' = multicpu s) as Hm by apply Hq.
  destruct (tasks_quiet _ _ _ _ _ _ _ Hv E) as [He _].
  exists s'. split_and!; try done. apply (good_core cpus s); [done..| |apply W']. rewrite He. apply G.
Qed.

Lemma find_current_spec c s :
  sched_wf s → has_current c s →
  ∃ t, find_current (cpu_num c s) s = Ret t ∧ t ∈ tasks s ∧ get_current_task_with_lock c s = Ret t.
Proof.
  intros W Hc. destruct (get_current_some c s Hc) as [r Hr]. destruct (get_current_elem _ _ _ Hr) as [Hin Hon].
  unfold find_current. destruct (list_find _ _) as [[i t]|] eqn:E.
  - apply list_find_Some in E as (Hi & Hrun & _). apply list_elem_of_lookup_2 in Hi.
    assert (t = r) as -> by (eapply (current_unique c s); try done; by apply Is_true_true). eauto.
  - apply list_find_None in E. rewrite Forall_forall in E. destruct (E r Hin). by rewrite Hon.
Qed.

Lemma end_current_spec cpus c s :
  good cpus s → c ∈ cpus →
  ∃ s', end_current c (cpu_num c s) s = Ret s' ∧ good cpus s' ∧ core <$> tasks s' = core <$> tasks s.
Proof.
  intros G Hc. pose proof (good_wf _ _ G) as W. unfold end_current.
  destruct (find_current_spec c s W) as (t & E & Ht & _); [by apply G|]. rewrite E. cbn [mbind outcome_bind].
  assert (good cpus (upd (ptr t) (set_end true) s)) as G1.
  { apply good_upd; try done. by destruct (wf_tasks _ W t Ht); constructor. }
  rewrite foldM_skip.
  destruct (good_events cpus c TASK_EVENT_EXIT (id (bits t)) 0
    (filter (λ q, q ≠ ptr t) (ptr <$> tasks (upd (ptr t) (set_end true) s)))
    (upd (ptr t) (set_end true) s) G1 Hc ltac:(done)) as (s' & E' & G' & Ec & _).
  - apply NoDup_filter, (wf_ptrs _ (good_wf _ _ G1)).
  - by intros p [_ Hp]%list_elem_of_filter.
  - exists s'. split_and!; [done..|]. rewrite Ec. apply upd_core; [apply W|done..].
Qed.

(** The CPUs that [t] does not run on keep their tasks. *)
Lemma terminate_spec cpus cpus' p s t :
  good cpus s → t ∈ tasks s → ptr t = p →
  (∀ c, c ∈ cpus' → c ∈ cpus ∧ runs_on (cpu_num c s) t = false) →
  terminate_blocked p s =
    (true, with_queues (with_tasks s (filter (λ u, ptr u ≠ p) (tasks s))) (task_delete_prequeue s ++ [t])
             (task_delete_queue s)) ∧
  good cpus' (snd (terminate_blocked p s)).
Proof.
  intros [W Hcur He] Ht <- Hsub. unfold terminate_blocked. rewrite (erase_task_spec _ t) by (apply W || done).
  split; [done|]. simpl. split; [| |done].
  - eapply (wf_sublist s); [done| |done]. simpl. apply sublist_filter.
  - intros c [Hc Hr]%Hsub. destruct (Hcur c Hc) as (u & Hu & Hon). exists u. split; [|done]. simpl.
    apply list_elem_of_filter. split; [|done]. intros E.
    assert (u = t) as -> by (by eapply (NoDup_fmap_inj ptr); [apply W|..]). congruence.
Qed.

Lemma filter_ptr_fmap p (ts : list task) :
  ptr <$> filter (λ u, ptr u ≠ p) ts = filter (λ q, q ≠ p) (ptr <$> ts).
Proof.
  induction ts as [|t ts IH]; [done|]. rewrite fmap_cons, !filter_cons.
  destruct (decide (ptr t ≠ p)); [by rewrite fmap_cons, IH|done].
Qed.

Lemma evict_spec cpus c p s t :
  good cpus s → c ∈ cpus → t ∈ tasks s → ptr t = p → running (bits t) = false →
  ∃ s', evict_task_with_lock c p s = Ret s' ∧ good cpus s' ∧ p ∉ (ptr <$> tasks s').
Proof.
  intros G Hc Ht Hp Hr. pose proof (good_wf _ _ G) as W. unfold evict_task_with_lock.
  rewrite <- Hp, get_task_of by (apply W || done). cbn [mbind outcome_bind].
  set (s0 := upd (ptr t) (set_end true) s).
  assert (good cpus s0) as G0 by (apply good_upd; try done; by destruct (wf_tasks _ W t Ht); constructor).
  assert (core <$> tasks s0 = core <$> tasks s) as Ec0 by (apply upd_core; [apply W|done..]).
  assert (ptr <$> tasks s0 = ptr <$> tasks s) as Ep0 by (by apply upd_list_fmap).
  destruct (list_elem_of_split (ptr <$> tasks s) (ptr t)) as (l1 & l2 & El); [by apply list_elem_of_fmap_2|].
  pose proof (wf_ptrs _ W) as Hn. rewrite El in Hn. apply NoDup_app in Hn as (Hn1 & Hd & [Hn2 Hn3]%NoDup_cons).
  assert (ptr t ∉ l1) as Hp1 by (intros H; apply (Hd _ H); left).
  rewrite El, foldM_app.
  set (ev := λ q, task_event c q TASK_EVENT_EXIT (id (bits t)) 0).
  rewrite (foldM_ext _ ev l1).
  2:{ intros q u Hq. rewrite (proj2 (Z.eqb_neq _ _)); [done|]. congruence. }
  destruct (good_events cpus c TASK_EVENT_EXIT (id (bits t)) 0 l1 s0 G0 Hc ltac:(done) Hn1) as (s1 & E1 & G1 & Ec1 & _).
  { intros q Hq. rewrite Ep0, El. apply elem_of_app. by left. }
  unfold ev. rewrite E1. cbn [mbind outcome_bind foldM]. rewrite Z.eqb_refl. cbn [mbind outcome_bind].
  destruct (core_from s1 s t) as (t1 & Ht1 & [= Hpt _ Hrt _]); [congruence|done|].
  destruct (terminate_spec cpus cpus (ptr t) s1 t1 G1 Ht1 Hpt) as [E2 G2].
  { intros c' Hc'. split; [done|]. unfold runs_on. by rewrite Hrt, Hr, andb_false_r. }
  set (s2 := snd (terminate_blocked (ptr t) s1)) in *.
  rewrite (foldM_ext _ ev l2).
  2:{ intros q u Hq. rewrite (proj2 (Z.eqb_neq _ _)); [done|]. congruence. }
  assert (ptr <$> tasks s1 = ptr <$> tasks s) as Ep1.
  { rewrite <- Ep0. apply (core_fmap (λ '(x, _, _, _), x) s0 s1 Ec1). }
  assert (ptr <$> tasks s2 = filter (λ q, q ≠ ptr t) (ptr <$> tasks s1)) as Ep2.
  { subst s2. rewrite E2. simpl. by rewrite filter_ptr_fmap. }
  destruct (good_events cpus c TASK_EVENT_EXIT (id (bits t)) 0 l2 s2 G2 Hc ltac:(done) Hn3) as (s3 & E3 & G3 & Ec3 & _).
  { intros q Hq. rewrite Ep2, Ep1, El. apply list_elem_of_filter. split; [congruence|].
    apply elem_of_app. right. by right. }
  exists s3. split_and!; [done..|].
  pose proof (core_fmap (λ '(x, _, _, _), x) s2 s3 Ec3) as Ep3. change (ptr <$> tasks s3 = ptr <$> tasks s2) in Ep3.
  rewrite Ep3, Ep2. intros [H _]%list_elem_of_filter. done.
Qed.

(** * Waiting *)

(** The address of a new handler. *)
Definition fresh_handler (eh : Z) (s : tasklist) : Prop :=
  ∀ t, t ∈ tasks s → eh ∉ (eh_ptr <$> event_handlers t).

Lemma add_handler_ok t h :
  task_ok t → handler_task h = id (bits t) → eh_ptr h ∉ (eh_ptr <$> event_handlers t) →
  task_ok (add_event_handler h t).
Proof.
  intros [] Hh Hf. constructor; simpl; try done.
  - intros h' [Hin| ->%list_elem_of_singleton]%elem_of_app; auto.
  - rewrite fmap_app. apply NoDup_app. split_and!; [done| |apply NoDup_singleton].
    intros x Hx ->%list_elem_of_singleton. done.
Qed.

Lemma set_blocked_ok n v t : task_ok t → task_ok (set_blocked n v t).
Proof. by intros []; constructor. Qed.

Lemma current_spec cpus c s :
  good cpus s → c ∈ cpus → ∃ t, get_current_task_with_lock c s = Ret t ∧ t ∈ tasks s ∧ task_ok t.
Proof.
  intros [W H] Hc. destruct (get_current_some c s (H c Hc)) as [t Ht]. exists t.
  destruct (get_current_elem _ _ _ Ht) as [Hin _]. split_and!; [done..|]. by apply (wf_tasks _ W).
Qed.

Lemma wait_with_spec cpus c eh k n s :
  good cpus s → c ∈ cpus → fresh_handler eh s → (∀ i, handler_task (Handler eh (k i)) = i) →
  ∃ s' t, wait_with c eh k n s = Ret s' ∧ good cpus s' ∧ get_current_task_with_lock c s = Ret t ∧
          s' = upd (ptr t) (λ u, set_blocked n true (add_event_handler (Handler eh (k (id (bits t)))) u)) s.
Proof.
  intros G Hc Hf Hk. destruct (current_spec cpus c s G Hc) as (t & E & Ht & Hok).
  unfold wait_with. rewrite E. cbn [mbind outcome_bind]. eexists _, t. split; [done|].
  assert (∀ f g, (∀ u, ptr (f u) = ptr u) → upd (ptr t) g (upd (ptr t) f s) = upd (ptr t) (λ u, g (f u)) s) as Hu.
  { intros f g Hp. unfold upd. simpl. by rewrite upd_list_compose. }
  rewrite Hu by done. split_and!; [|done..]. apply good_upd; [done..|].
  apply set_blocked_ok, add_handler_ok; [done|apply Hk|by apply Hf].
Qed.

Lemma sleep_specs cpus reliable c eh now x s :
  good cpus s → c ∈ cpus → fresh_handler eh s →
  (∃ s', ticks_millisleep c eh x s = Ret s' ∧ good cpus s') ∧
  (∃ s', tsc_nanosleep c eh now x s = Ret s' ∧ good cpus s') ∧
  (∃ s', millisleep reliable c eh now x s = Ret s' ∧ good cpus s') ∧
  (∃ s', sleep reliable c eh now x s = Ret s' ∧ good cpus s') ∧
  (∃ s', usleep reliable c eh now x s = Ret s' ∧ good cpus s') ∧
  (∃ s', nanosleep reliable c eh now x s = Ret s' ∧ good cpus s').
Proof.
  intros G Hc Hf.
  assert (∀ k n, (∀ i, handler_task (Handler eh (k i)) = i) → ∃ s', wait_with c eh k n s = Ret s' ∧ good cpus s') as Hw.
  { intros k n Hk. destruct (wait_with_spec cpus c eh k n s G Hc Hf Hk) as (s' & t & E & G' & _). eauto. }
  assert (∀ y, ∃ s', ticks_millisleep c eh y s = Ret s' ∧ good cpus s') as Ht by (intros y; by apply Hw).
  assert (∀ y, ∃ s', tsc_nanosleep c eh now y s = Ret s' ∧ good cpus s') as Hn by (intros y; by apply Hw).
  assert (∀ y, ∃ s', millisleep reliable c eh now y s = Ret s' ∧ good cpus s') as Hms.
  { intros y. unfold millisleep. destruct (_ || _); [apply Ht|apply Hn]. }
  split_and!; [apply Ht|apply Hn|apply Hms|apply Hms| |].
  - unfold usleep. destruct (_ || _); [|apply Hn]. destruct (_ =? _); [eauto|apply Ht].
  - unfold nanosleep. destruct reliable; [apply Hn|apply Hms].
Qed.

Lemma join_spec cpus c eh task_id s :
  good cpus s → c ∈ cpus → fresh_handler eh s → ∃ b s', join c eh task_id s = Ret (b, s') ∧ good cpus s'.
Proof.
  intros G Hc Hf. unfold join. destruct (current_spec cpus c s G Hc) as (t & E & _). rewrite E. cbn [mbind outcome_bind].
  destruct (get_nullable_task_with_lock task_id s) as [j|]; [|eauto]. destruct (end_ (bits j)); [eauto|].
  destruct (wait_with_spec cpus c eh (λ i, task_join_handler i task_id) taskjoin s G Hc Hf) as (s' & u & E' & G' & _); [done|].
  rewrite E'. cbn [mbind outcome_bind]. eauto.
Qed.

(** * Steps *)

(** The operations of the scheduler, each under its lock.  [cpus] are the
    CPUs that have been started and run a task.  The premises are those of
    the callers: new objects have addresses of their own, an idle task is
    made for a CPU that has no task yet, and a handler is registered for the
    task that waits.  page_fault and exception take the lock twice; the
    first time they only read.  terminate_blocked takes any task; a CPU that
    runs it is left without a task.  The limits of semaphores change by what
    their owners do. *)
Inductive sched_step : list Z * tasklist → list Z * tasklist → Prop :=
| step_idle cpus p c s pid s' :
    create_current_idle_task p c s = Ret (pid, s') →
    p ∉ (ptr <$> tasks s) → Z.of_nat (length (tasks s)) < 2 ^ 32 → (multicpu s = false → c = 0) →
    (∀ u, u ∈ tasks s → running (bits u) = true → multicpu s = true ∧ cpu (bits u) ≠ c) →
    sched_step (cpus, s) (c :: cpus, s')
| step_multi cpus b s :
    multicpu s = false → cpus ≠ [] → sched_step (cpus, s) ([b], start_multi_cpu b s)
| step_new_task cpus p fpu0 stack addr rip cs rdi rsi rdx rcx r8 r9 rs s i s' :
    new_task p fpu0 stack addr rip cs rdi rsi rdx rcx r8 r9 rs s = Ret (i, s') →
    p ∉ (ptr <$> tasks s) → Z.of_nat (length (tasks s)) + 1 < 2 ^ 32 →
    sched_step (cpus, s) (cpus, s')
| step_switch cpus c sema nanos i s i' s' :
    switch_tasks sema nanos c i s = Ret (i', s') → c ∈ cpus → sched_step (cpus, s) (cpus, s')
| step_exception cpus c handled sema nanos i s b i' s' :
    exception_end handled sema nanos c i s = Ret (b, i', s') → c ∈ cpus → sched_step (cpus, s) (cpus, s')
| step_page_fault cpus c handled sema nanos i s b i' s' :
    page_fault_end handled sema nanos c i s = Ret (b, i', s') → c ∈ cpus → sched_step (cpus, s) (cpus, s')
| step_exit cpus c s s' : exit c c s = Ret s' → c ∈ cpus → sched_step (cpus, s) (cpus, s')
| step_user_exit cpus c s s' : user_exit c s = Ret s' → c ∈ cpus → sched_step (cpus, s) (cpus, s')
| step_terminate cpus t s :
    t ∈ tasks s →
    sched_step (cpus, s) (filter (λ c, runs_on (cpu_num c s) t = false) cpus, snd (terminate_blocked (ptr t) s))
| step_when_not_running cpus c t f s s' :
    when_not_running c (ptr t) f s = Ret s' → c ∈ cpus → t ∈ tasks s → sched_step (cpus, s) (cpus, s')
| step_when_out_of_lock cpus f s : sched_step (cpus, s) (cpus, when_out_of_lock f s)
| step_reap cpus n s : sched_step (cpus, s) (cpus, snd (reap_take n s))
| step_delete cpus l s : sched_step (cpus, s) (cpus, reap_delete l s)
| step_join cpus c eh i s b s' :
    join c eh i s = Ret (b, s') → c ∈ cpus → fresh_handler eh s → sched_step (cpus, s) (cpus, s')
| step_millisleep cpus reliable c eh now ms s s' :
    millisleep reliable c eh now ms s = Ret s' → c ∈ cpus → fresh_handler eh s → sched_step (cpus, s) (cpus, s')
| step_usleep cpus reliable c eh now us s s' :
    usleep reliable c eh now us s = Ret s' → c ∈ cpus → fresh_handler eh s → sched_step (cpus, s) (cpus, s')
| step_nanosleep cpus reliable c eh now ns s s' :
    nanosleep reliable c eh now ns s = Ret s' → c ∈ cpus → fresh_handler eh s → sched_step (cpus, s) (cpus, s')
| step_timeout cpus c eh ms f s s' :
    set_timeout_millis c eh ms f s = Ret s' → c ∈ cpus → fresh_handler eh s → sched_step (cpus, s) (cpus, s')
| step_timeout_end cpus t eh s :
    t ∈ tasks s → sched_step (cpus, s) (cpus, timeout_ref_destroy (ptr t) eh s)
| step_add_handler cpus c h r s s' :
    add_task_event_handler c h s = Ret s' → c ∈ cpus → fresh_handler (eh_ptr h) s →
    get_current_task_with_lock c s = Ret r → handler_task h = id (bits r) → sched_step (cpus, s) (cpus, s')
| step_set_blocked cpus c n v r s s' :
    sched_set_blocked c n v r s = Ret s' → c ∈ cpus → sched_step (cpus, s) (cpus, s')
| step_event cpus c v0 v1 v2 r s s' :
    event 1 c v0 v1 v2 r s = Ret s' → c ∈ cpus → sched_step (cpus, s) (cpus, s')
| step_limit cpus a v s : sched_step (cpus, s) (cpus, with_limit s a v)
| step_clear_quarantines cpus c s : sched_step (cpus, s) (cpus, snd (clear_stack_quarantines c s))
| step_set_name cpus pid n s : sched_step (cpus, s) (cpus, snd (set_name_of pid n s))
| step_set_current_name cpus c n s s' :
    set_current_name c n s = Ret s' → c ∈ cpus → sched_step (cpus, s) (cpus, s')
| step_working_for cpus c i s s' :
    sched_set_working_for c i s = Ret s' → c ∈ cpus → sched_step (cpus, s) (cpus, s').

Lemma good_switch cpus sema nanos c i s i' s' :
  good cpus s → c ∈ cpus → switch_tasks sema nanos c i s = Ret (i', s') → good cpus s'.
Proof.
  intros [W H He] Hc E. pose proof (switch_tasks_spec sema nanos c i s W (H c Hc) He) as P. rewrite E in P.
  destruct P as (W' & Hc' & _ & He' & _). split; [done| |done]. intros d Hd. apply Hc'. right. auto.
Qed.

Lemma good_current_upd cpus c f s s' :
  good cpus s → c ∈ cpus → (t ← get_current_task_with_lock c s; Ret (upd (ptr t) f s)) = Ret s' →
  (∀ t, get_current_task_with_lock c s = Ret t → task_ok t → core (f t) = core t ∧ task_ok (f t)) → good cpus s'.
Proof.
  intros G Hc E Hf. destruct (current_spec cpus c s G Hc) as (t & Ht & Hin & Hok). rewrite Ht in E.
  injection E as <-. destruct (Hf t Ht Hok). by apply good_upd.
Qed.

Lemma good_event cpus c v0 v1 v2 r s s' :
  good cpus s → c ∈ cpus → event 1 c v0 v1 v2 r s = Ret s' → good cpus s'.
Proof.
  intros G Hc E. pose proof (good_wf _ _ G) as W.
  destruct (current_spec cpus c s G Hc) as (t & Ht & _).
  destruct (event_total c v0 v1 v2 r s t W Ht (good_quiet _ _ G)) as (s1 & E1 & W1 & _ & He & Ec & Hq & _).
  assert (s1 = s') as -> by congruence. by apply (good_core cpus s); [done|done|apply Hq|done|apply W1].
Qed.

Lemma good_when_not_running cpus c t f s s' :
  good cpus s → c ∈ cpus → t ∈ tasks s → when_not_running c (ptr t) f s = Ret s' → good cpus s'.
Proof.
  intros G Hc Ht. pose proof (good_wf _ _ G) as W. unfold when_not_running.
  rewrite get_task_of by (apply W || done). cbn [mbind outcome_bind].
  destruct (running (bits t)) eqn:R; cbn [negb].
  - intros [= <-]. apply good_upd; try done. by destruct (wf_tasks _ W t Ht); constructor.
  - assert (good cpus (with_actions s [call_function f])) as G1 by (by apply (good_same cpus s)).
    destruct (end_ (bits t)); [|by intros [= <-]]. intros E.
    destruct (evict_spec cpus c (ptr t) _ t G1 Hc Ht eq_refl R) as (s1 & E1 & G2 & _).
    by assert (s1 = s') as -> by congruence.
Qed.

Lemma good_timeout cpus c eh ms f s s' :
  good cpus s → c ∈ cpus → fresh_handler eh s → set_timeout_millis c eh ms f s = Ret s' → good cpus s'.
Proof.
  intros G Hc Hf. destruct (current_spec cpus c s G Hc) as (t & Ht & Hin & Hok).
  unfold set_timeout_millis. rewrite Ht. intros [= <-]. apply good_upd; [done..|].
  apply add_handler_ok; [done..|]. by apply Hf.
Qed.

Lemma good_clear cpus c s : good cpus s → good cpus (snd (clear_stack_quarantines c s)).
Proof.
  intros G. apply (good_core cpus s); [done| |done|apply G|]; simpl.
  - rewrite <- list_fmap_compose. apply list_fmap_ext. intros k t _. simpl. by case_match.
  - intros t' (t & -> & Ht)%list_elem_of_fmap. pose proof (wf_tasks _ (good_wf _ _ G) t Ht) as [].
    case_match; by constructor.
Qed.

Lemma good_set_name cpus pid n s : good cpus s → good cpus (snd (set_name_of pid n s)).
Proof.
  intros G. unfold set_name_of. destruct (list_find _ _) as [[i t]|] eqn:E; [|done]. simpl.
  apply list_find_Some in E as (Hi & _ & _). apply list_elem_of_lookup_2 in Hi. apply good_upd; try done.
  by destruct (wf_tasks _ (good_wf _ _ G) t Hi); constructor.
Qed.

Lemma good_exit cpus c s s' : good cpus s → c ∈ cpus → end_current c (cpu_num c s) s = Ret s' → good cpus s'.
Proof.
  intros G Hc E. destruct (end_current_spec cpus c s G Hc) as (s1 & E1 & G1 & _).
  by assert (s1 = s') as -> by congruence.
Qed.

Lemma good_faults cpus c handled sema nanos i s b i' s' :
  good cpus s → c ∈ cpus →
  page_fault_end handled sema nanos c i s = Ret (b, i', s') ∨
  exception_end handled sema nanos c i s = Ret (b, i', s') → good cpus s'.
Proof.
  intros G Hc. unfold page_fault_end, exception_end. pose proof (good_switch cpus sema nanos c i s) as P.
  destruct handled, (switch_tasks sema nanos c i s) as [[j u]| | |];
    cbn [mbind outcome_bind]; intros [H|H]; simplify_eq/=; eauto.
Qed.

Lemma sched_step_good cpus s cpus' s' :
  sched_step (cpus, s) (cpus', s') → good cpus s → good cpus' s'.
Proof.
  intros Hs G. pose proof (good_wf _ _ G) as W. inversion Hs; subst; clear Hs.
  - destruct (create_idle_spec cpus p c s) as (pid' & s1 & E & G' & _); try done. congruence.
  - by eapply start_multi_spec.
  - unfold new_task, new_task_regs, new_task_frames in *.
    edestruct (new_task_spec cpus' p) as (i' & s1 & E & G' & _); [done..|]. rewrite E in *. by simplify_eq.
  - by eapply good_switch.
  - by eapply good_faults; [| |right].
  - by eapply good_faults; [| |left].
  - by eapply good_exit.
  - by eapply good_exit.
  - apply (terminate_spec cpus _ (ptr t) s t); [done..|]. by intros c [? ?]%list_elem_of_filter.
  - by eapply good_when_not_running.
  - by apply (good_same cpus' s).
  - by apply (good_same cpus' s).
  - by apply (good_same cpus' s).
  - edestruct (join_spec cpus' c eh i s) as (b' & s1 & E & G'); [done..|]. congruence.
  - edestruct (sleep_specs cpus' reliable c eh now ms s) as (_ & _ & (s1 & E & G') & _); [done..|]. congruence.
  - edestruct (sleep_specs cpus' reliable c eh now us s) as (_ & _ & _ & _ & (s1 & E & G') & _); [done..|]. congruence.
  - edestruct (sleep_specs cpus' reliable c eh now ns s) as (_ & _ & _ & _ & _ & (s1 & E & G')); [done..|]. congruence.
  - by eapply good_timeout.
  - apply good_upd; [done|done|apply evolved_core_eq, evolved_remove|].
    eapply task_ok_evolved; [apply evolved_remove|by apply (wf_tasks _ W)].
  - eapply (good_current_upd cpus' c (add_event_handler h)); [done..|]. intros t Ht Hok. split; [done|].
    assert (t = r) as -> by congruence. apply add_handler_ok; [done..|].
    match goal with F : fresh_handler _ _ |- _ => apply F end. by apply (get_current_elem c).
  - eapply (good_current_upd cpus' c (set_blocked n v)); [done..|]. intros t _ Hok. split; [done|]. by apply set_blocked_ok.
  - by eapply good_event.
  - by apply (good_same cpus' s).
  - by apply good_clear.
  - by apply good_set_name.
  - eapply (good_current_upd cpus' c (set_name n)); [done..|]. intros t _ []. split; [done|]. by constructor.
  - eapply (good_current_upd cpus' c (set_working_for_task_id i)); [done..|]. intros t _ []. split; [done|]. by constructor.
Qed.

Lemma new_tasklist_good : good [] new_tasklist.
Proof.
  split; [constructor; simpl| |done].
  - intros t Ht. by apply elem_of_nil in Ht.
  - constructor.
  - constructor.
  - intros t t' Ht. by apply elem_of_nil in Ht.
  - intros _ t Ht. by apply elem_of_nil in Ht.
  - intros c Hc. by apply elem_of_nil in Hc.
Qed.

Lemma reachable_good st : rtc sched_step ([], new_tasklist) st → good (fst st) (snd st).
Proof.
  intros H. pattern st. eapply rtc_ind_r; [..|exact H]; [apply new_tasklist_good|].
  intros [cpus s] [cpus' s'] _ Hs G. by eapply sched_step_good.
Qed.
