(* ===== verification/SchedTheorems.v ===== *)
(** What the scheduler promises: the properties of its states, of the choice
    of the next task, of the delivery of events and of sleeping, with
    examples. *)
From stdpp Require Import relations.
From S2P Require Import Prelude Task Tasklist SchedInv SchedSwitch SchedSteps.

Local Open Scope Z_scope.

(** * Examples *)

Module SchedExamples.

Definition regs (n : Z) : Interrupt :=
  Intr (CpuFrame 0 n 8 0x202 n 0x10) (StackFrame 0 0 0 0 n 0 0 0 0 0 0 0 0 0 0 0 0 0 0 n) (FpuState n n n []).

Definition fpu0 : x86_fpu_state := FpuState 0x37F 0x1F80 0xFFFF [].

(** The idle task of CPU 0 and a kernel task. *)
Definition boot : outcome tasklist :=
  '(_, s) ← create_current_idle_task 100 0 new_tasklist;
  '(_, s) ← new_task 200 fpu0 900 0x8000 0x1000 8 1 2 3 4 5 6 [] s;
  Ret s.

Definition idle : task :=
  Task 100 zero_cpu_frame zero_stack_frame zero_fpu
    (TaskBits (get_64bit_str idleunbl) PRIO_GROUP_IDLE true false false false true 0 0 0 1 0) [] [] [] no_name.

Definition worker : task :=
  Task 200 (CpuFrame 0 0x1000 8 0x202 0x8000 0x10)
    (StackFrame 0x10 0x10 0x10 0x10 0 0 0 0 0 0 0 6 5 2 1 0x8000 3 4 0 0) (FpuState 0x37F 0x1F80 0xFFFF [])
    (TaskBits (get_64bit_str newtask) PRIO_GROUP_NORMAL false false false false false 0 0 0 2 0) [900] [] [] no_name.

Definition idle_list : tasklist := Tasklist (2 ^ 32 - 1) 0 1 false [idle] [] [] [] [] [] (λ _, 2 ^ 32 - 1).
Definition booted : tasklist := Tasklist (2 ^ 32 - 1) 0 2 false [idle; worker] [] [] [] [] [] (λ _, 2 ^ 32 - 1).

Lemma boot_booted : boot = Ret booted.
Proof. vm_compute. reflexivity. Qed.

Lemma boot_steps : rtc sched_step ([], new_tasklist) ([0], booted).
Proof.
  eapply rtc_l.
  - apply (step_idle [] 100 0 new_tasklist 1 idle_list); [vm_compute; reflexivity| |cbn; lia|done|].
    + cbn. apply not_elem_of_nil.
    + intros u Hu. by apply elem_of_nil in Hu.
  - apply rtc_once.
    apply (step_new_task [0] 200 fpu0 900 0x8000 0x1000 8 1 2 3 4 5 6 [] idle_list 2 booted).
    + vm_compute. reflexivity.
    + cbn. by intros ?%list_elem_of_singleton.
    + cbn. lia.
Qed.

Lemma booted_good : good [0] booted.
Proof. apply (reachable_good ([0], booted)), boot_steps. Qed.

Lemma booted_current : get_current_task_with_lock 0 booted = Ret idle.
Proof. vm_compute. reflexivity. Qed.

End SchedExamples.

(** * What the properties speak of *)

(** The CPUs that have been started and the state they have reached. *)
Definition reachable (st : list Z * tasklist) : Prop := rtc sched_step ([], new_tasklist) st.

(** CPU [c] may run [w], and no task it may run has a higher priority. *)
Definition best_candidate (multi : bool) (c : Z) (s : tasklist) (w : task) : Prop :=
  w ∈ tasks s ∧ candidate multi c w = true ∧
  ∀ t, t ∈ tasks s → candidate multi c t = true → priority_group (bits t) ≤ priority_group (bits w).

(** The tasks that CPU [c] has left are handed to the reaper. *)
Definition handed_to_reaper (c : Z) (s s' : tasklist) : Prop :=
  task_delete_queue s' = task_delete_queue s ++ filter (λ t, cpu (bits t) = c) (task_delete_prequeue s).

(** The tick of the timer that ends a sleep of [ms] milliseconds. *)
Definition wakeup_tick (ms : Z) (s : tasklist) : Z := tick_counter s + (ms / 10 + 1).

(** * The properties *)

Lemma terminate_current c s t :
  sched_wf s → t ∈ tasks s → runs_on (cpu_num c s) t = true →
  get_current_task_with_lock c (snd (terminate_blocked (ptr t) s)) = OutOfBounds.
Proof.
  intros W Ht Hr. destruct (get_current_some c s) as [r Hr']; [by exists t|].
  unfold terminate_blocked. rewrite (erase_task_spec _ t) by (apply W || done). unfold get_current_task_with_lock.
  cbn [snd tasks with_queues with_tasks]. destruct (last _) as [u|] eqn:E; [|done].
  apply elem_of_last, list_elem_of_filter in E as [Hu [Hne Hin]%list_elem_of_filter]. apply Is_true_true in Hu.
  destruct Hne. f_equal. transitivity r; [|symmetry]; by apply (current_unique c s).
Qed.



(** C2: switch_tasks, under its lock, for a CPU that runs the task [r]: it
    panics only if no task may run here, and otherwise keeps the invariant
    and runs a task that is not blocked, has not ended, is in no stack
    quarantine, is not pinned to or run by another CPU, and has the highest
    priority group among the tasks that may run here.  The registers are
    those the task left with; the registers of [r] are kept in [r], which
    goes into quarantine, or [r] leaves the list if it has ended. *)
Theorem switch_pick_correct (nanos : option Z) (c : Z) (i : Interrupt) (s : tasklist) (r : task) :
  sched_wf s → get_current_task_with_lock c s = Ret r →
  let settled := settle (multicpu s) nanos c (id (bits r)) in
  match switch_pick nanos c i s with
  | Ret (i', s') =>
    sched_wf s' ∧
    ∃ s1 w, tasks s1 = settled <$> tasks s ∧ best_candidate (multicpu s) c s1 w ∧
      (∃ w', get_current_task_with_lock c s' = Ret w' ∧ ptr w' = ptr w) ∧
      switch_done i s1 (settled r) w i' s'
  | Panicked => ∀ t, t ∈ tasks s → candidate (multicpu s) c (settled t) = false
  | _ => False
  end.
Proof.
  intros W Hr. pose proof (switch_pick_spec nanos c i s r W Hr) as P. cbv zeta in *.
  destruct (switch_pick nanos c i s) as [[i' s']| | |]; try done.
  destruct P as (W' & s1 & w & Ht & _ & _ & _ & P). split; [done|]. exists s1, w.
  destruct P as (? & ? & ? & ? & ?). by split_and!.
Qed.

Lemma switch_pick_correct_witness :
  ∃ i' s', switch_pick None 0 (SchedExamples.regs 7) SchedExamples.booted = Ret (i', s') ∧
    sched_wf s' ∧ rip (i_cpu_frame i') = 0x1000 ∧
    (∃ w', get_current_task_with_lock 0 s' = Ret w' ∧ ptr w' = 200).
Proof.
  pose proof (switch_pick_correct None 0 (SchedExamples.regs 7) SchedExamples.booted SchedExamples.idle
    (good_wf _ _ SchedExamples.booted_good) SchedExamples.booted_current) as H. cbv zeta in H.
  destruct (switch_pick None 0 (SchedExamples.regs 7) SchedExamples.booted) as [[i' s']| | |] eqn:E;
    [|vm_compute in E; discriminate E..].
  exists i', s'. split; [reflexivity|]. destruct H as [W _]. split; [exact W|].
  vm_compute in E. injection E as <- <-. split; [reflexivity|]. eexists. split; [vm_compute; reflexivity|reflexivity].
Defined.

(** switch_tasks as a whole: the tasks it hands to the reaper are those
    that had ended on this CPU before, whose stacks the CPU has left; every
    CPU goes on running one task; nothing but a lack of tasks to run makes
    it fail. *)
Theorem switch_tasks_safe (sema_addr : Z) (nanos : option Z) (c : Z) (i : Interrupt) (s : tasklist) :
  sched_wf s → has_current c s → events_in_event s = [] →
  match switch_tasks sema_addr nanos c i s with
  | Ret (i', s') =>
    sched_wf s' ∧ (∀ c', c' = c ∨ has_current c' s → has_current c' s') ∧ multicpu s' = multicpu s ∧
    events_in_event s' = [] ∧ handed_to_reaper c s s'
  | Panicked => True
  | _ => False
  end.
Proof. apply switch_tasks_spec. Qed.

Lemma switch_tasks_safe_witness :
  ∃ i' s', switch_tasks 0 None 0 (SchedExamples.regs 7) SchedExamples.booted = Ret (i', s') ∧ has_current 0 s'.
Proof.
  assert (has_current 0 SchedExamples.booted) as Hc.
  { apply (good_current [0] _ SchedExamples.booted_good), list_elem_of_here. }
  pose proof (switch_tasks_safe 0 None 0 (SchedExamples.regs 7) SchedExamples.booted
    (good_wf _ _ SchedExamples.booted_good) Hc eq_refl) as H.
  destruct (switch_tasks 0 None 0 (SchedExamples.regs 7) SchedExamples.booted) as [[i' s']| | |] eqn:E;
    [|vm_compute in E; discriminate E..].
  exists i', s'. split; [reflexivity|]. destruct H as (_ & H & _). apply H. left. reflexivity.
Defined.

Lemma release_all_events l s :
  (λ e, (ev_v0 e, ev_v1 e)) <$> events_in_event (release_all l s) =
  ((λ e, (ev_v0 e, ev_v1 e)) <$> events_in_event s) ++ (pair TASK_EVENT_SEMAPHORE <$> l).
Proof.
  revert s. induction l as [|a l IH]; intros s; [by rewrite app_nil_r|].
  change (release_all (a :: l) s) with (release_all l (release_from_event a s)). rewrite IH.
  simpl. by rewrite fmap_app, <- app_assoc.
Qed.

(** C17: An event that is raised on a CPU with a running task, when no other
    waits, always returns: no handler panics and no event is left.  Each task
    hears it once: its handlers act on the task they belong to, and those
    that fire are gone.  Each timeout that is due, and nothing else, releases
    its semaphore and so raises one event; these are then heard by all tasks
    in the order of the timeouts, and raise no more. *)
Theorem event_delivery (c v0 v1 v2 res_acq : Z) (s : tasklist) (r : task) :
  sched_wf s → get_current_task_with_lock c s = Ret r → events_in_event s = [] →
  let released := release_all (due_semas v0 v1 (tasks s)) s in
  let raised := events_in_event released in
  (λ e, (ev_v0 e, ev_v1 e)) <$> raised = pair TASK_EVENT_SEMAPHORE <$> due_semas v0 v1 (tasks s) ∧
  (v0 ≠ TASK_EVENT_TIMER100HZ → raised = []) ∧
  ∃ s', event 1 c v0 v1 v2 res_acq s = Ret s' ∧ sched_wf s' ∧ events_in_event s' = [] ∧
        core <$> tasks s' = core <$> tasks s ∧ sema_limits s' = sema_limits released ∧
        tasks s' = hear_all r raised (after_event r v0 v1 v2 res_acq <$> tasks s).
Proof.
  intros W Hr He released raised. split_and!.
  - subst raised released. by rewrite release_all_events, He.
  - intros Hv. subst raised released. by rewrite due_semas_nil.
  - destruct (event_total c v0 v1 v2 res_acq s r W Hr He) as (s' & E & W' & _ & He' & Ec & _ & Hl & Ht).
    by exists s'.
Qed.

(** A task that waits for the semaphore at 8192 until a timeout. *)
Definition timed_waiter : task :=
  add_event_handler (Handler 601 (task_timeout100hz_handler 1 5 8192))
    (add_event_handler (Handler 600 (task_semaphore_handler 1 8192 0)) (set_blocked semacont true SchedExamples.idle)).

Definition waiting_list : tasklist := with_tasks SchedExamples.booted [timed_waiter; SchedExamples.worker].

Lemma waiting_list_wf : sched_wf waiting_list.
Proof.
  destruct (good_wf _ _ SchedExamples.booted_good) as [Hok Hp Hi Hr H0]. constructor.
  - intros t [->|Ht]%elem_of_cons; [|apply Hok; by right].
    apply add_handler_ok; [apply add_handler_ok; [apply set_blocked_ok, Hok; left|done|]|done|];
      cbn; set_solver.
  - exact Hp.
  - exact Hi.
  - intros t t' [->|[->|Ht%elem_of_nil]%elem_of_cons]%elem_of_cons; [|done|done].
    by intros [->|[->|Ht%elem_of_nil]%elem_of_cons]%elem_of_cons.
  - intros _ t [->|[->|Ht%elem_of_nil]%elem_of_cons]%elem_of_cons; done.
Qed.

Lemma event_delivery_witness :
  ∃ s', event 1 0 TASK_EVENT_TIMER100HZ 5 0 0 waiting_list = Ret s' ∧ events_in_event s' = [] ∧
        sema_limits s' 8192 = 0 ∧ (λ t, (blocked (bits t), event_handlers t)) <$> tasks s' = [(false, []); (false, [])].
Proof.
  destruct (event_delivery 0 TASK_EVENT_TIMER100HZ 5 0 0 waiting_list timed_waiter waiting_list_wf eq_refl eq_refl)
    as (_ & _ & s' & E & _ & He & _ & Hl & Ht).
  exists s'. split; [exact E|]. split; [exact He|]. rewrite Hl, Ht. split; vm_compute; reflexivity.
Defined.

(** get_next_id returns, although it tries ids in a loop without a
    bound, as long as there are fewer than 2^32 tasks, and its id is that of
    no task. *)
Theorem get_next_id_terminates (s : tasklist) :
  Z.of_nat (length (tasks s)) < 2 ^ 32 →
  ∃ i s', get_next_id s = Ret (i, s') ∧ is_u 32 i ∧ serial s' = i ∧ tasks s' = tasks s ∧
          ∀ t, t ∈ tasks s → id (bits t) ≠ i.
Proof.
  intros Hl. destruct (get_next_id_spec s Hl) as (i & E & Hi & Hu). eexists i, _. split_and!; try done.
  intros t Ht <-. apply Hi. by apply (list_elem_of_fmap_2 (id ∘ bits)).
Qed.

Lemma get_next_id_terminates_witness :
  ∃ i s', get_next_id (with_counters SchedExamples.booted 0 0 (2 ^ 32 - 1) false) = Ret (i, s') ∧
          serial s' = i ∧ i = 0.
Proof.
  destruct (get_next_id_terminates (with_counters SchedExamples.booted 0 0 (2 ^ 32 - 1) false))
    as (i & s' & E & _ & Hs & _); [cbn; lia|].
  exists i, s'. split; [exact E|]. split; [exact Hs|]. vm_compute in E. injection E as <- _. reflexivity.
Defined.

(** ** Sleeping *)

(** The task [t] sleeps with the one handler [h], or has been woken. *)
Definition asleep (h : task_event_handler) (t u : task) : Prop :=
  ptr u = ptr t ∧ blocked (bits u) = true ∧ event_handlers u = [h].

Definition awake (t u : task) : Prop :=
  ptr u = ptr t ∧ blocked (bits u) = false ∧ event_handlers u = [].

(** Is it an event of the timer that ends a sleep until [wakeup]? *)
Definition late (wakeup : Z) (e : event_call) : bool :=
  (ev_v0 e =? TASK_EVENT_TIMER100HZ) && (wakeup <=? ev_v1 e).

Lemma after_event_same r v0 v1 v2 res_acq t u :
  handle_all (id (bits t) =? id (bits r)) v0 v1 v2 t = u → ptr u = ptr t →
  let u' := after_event r v0 v1 v2 res_acq t in
  ptr u' = ptr t ∧ blocked (bits u') = blocked (bits u) ∧ event_handlers u' = event_handlers u.
Proof. intros Hu Hp. unfold after_event. rewrite Hu. by case_match. Qed.

Lemma after_event_awake r v0 v1 v2 res_acq t u :
  awake t u → awake t (after_event r v0 v1 v2 res_acq u).
Proof.
  intros (Hp & Hb & Hh). destruct (after_event_same r v0 v1 v2 res_acq u u) as (Hp' & Hb' & Hh'); [|done|].
  - unfold handle_all. by rewrite Hh.
  - split_and!; congruence.
Qed.

Lemma after_event_asleep r e res_acq eh i wakeup t u :
  asleep (Handler eh (task_timer100hz_handler i wakeup)) t u →
  let u' := after_event r (ev_v0 e) (ev_v1 e) (ev_v2 e) res_acq u in
  if late wakeup e then awake t u' else asleep (Handler eh (task_timer100hz_handler i wakeup)) t u'.
Proof.
  intros (Hp & Hb & Hh). set (h := Handler eh _) in *.
  assert (handle_all (id (bits u) =? id (bits r)) (ev_v0 e) (ev_v1 e) (ev_v2 e) u =
          if late wakeup e then snd (remove_event_handler eh (set_blocked timeunbl false u)) else u) as Ha.
  { unfold handle_all. rewrite Hh. cbn [foldl]. unfold handle, fires. subst h. cbn [eh_kind eh_ptr].
    unfold late. by destruct (_ && _). }
  destruct (after_event_same r (ev_v0 e) (ev_v1 e) (ev_v2 e) res_acq u _ Ha) as (Hp' & Hb' & Hh').
  { destruct (late _ _); [|done]. apply (ev_ptr _ _ (evolved_remove eh (set_blocked timeunbl false u))). }
  cbv zeta. destruct (late _ _); split_and!; try congruence; rewrite ?Hb', ?Hh'.
  - unfold remove_event_handler. by case_match.
  - unfold remove_event_handler. change (event_handlers (set_blocked timeunbl false u)) with (event_handlers u).
    rewrite Hh. simpl. by rewrite Z.eqb_refl.
Qed.

Lemma hear_all_elem r evs (P : task → Prop) ts u :
  sema_calls evs → u ∈ ts → P u →
  (∀ e v, ev_v0 e = TASK_EVENT_SEMAPHORE → P v →
     P (after_event r (ev_v0 e) (ev_v1 e) (ev_v2 e) (s8 (ev_res_acq e)) v)) →
  ∃ u', u' ∈ hear_all r evs ts ∧ P u'.
Proof.
  intros Hs Hu HP Hstep. revert ts u Hs Hu HP. induction evs as [|e evs IH]; intros ts u Hs Hu HP; [by exists u|].
  apply (IH _ (after_event r (ev_v0 e) (ev_v1 e) (ev_v2 e) (s8 (ev_res_acq e)) u));
    [|by apply list_elem_of_fmap_2|apply Hstep; [apply Hs; left|done]].
  intros e' He'. apply Hs. by right.
Qed.

(** One event, for a task that sleeps. *)
Lemma event_asleep c e res_acq eh i wakeup t s u :
  sched_wf s → has_current c s → events_in_event s = [] →
  u ∈ tasks s → asleep (Handler eh (task_timer100hz_handler i wakeup)) t u →
  ∃ s' u', event 1 c (ev_v0 e) (ev_v1 e) (ev_v2 e) res_acq s = Ret s' ∧ sched_wf s' ∧ events_in_event s' = [] ∧
    core <$> tasks s' = core <$> tasks s ∧ multicpu s' = multicpu s ∧ u' ∈ tasks s' ∧
    if late wakeup e then awake t u' else asleep (Handler eh (task_timer100hz_handler i wakeup)) t u'.
Proof.
  intros W Hc He Hu Hs. destruct (get_current_some c s Hc) as [r Hr].
  destruct (event_total c (ev_v0 e) (ev_v1 e) (ev_v2 e) res_acq s r W Hr He)
    as (s' & E & W' & _ & He' & Ec & Hq & _ & Ht).
  pose proof (after_event_asleep r e res_acq eh i wakeup t u Hs) as Ha. cbv zeta in Ha.
  set (P := λ v, if late wakeup e then awake t v else asleep (Handler eh (task_timer100hz_handler i wakeup)) t v).
  destruct (hear_all_elem r (events_in_event (release_all (due_semas (ev_v0 e) (ev_v1 e) (tasks s)) s)) P
    (after_event r (ev_v0 e) (ev_v1 e) (ev_v2 e) res_acq <$> tasks s)
    (after_event r (ev_v0 e) (ev_v1 e) (ev_v2 e) res_acq u)) as (u' & Hu' & HP).
  - apply release_all_calls. rewrite He. intros x Hx. by apply elem_of_nil in Hx.
  - by apply list_elem_of_fmap_2.
  - done.
  - intros e' v He1 Hv. subst P. cbv beta in *. destruct (late wakeup e); [by apply after_event_awake|].
    pose proof (after_event_asleep r e' (s8 (ev_res_acq e')) eh i wakeup t v Hv) as H. cbv zeta in H.
    assert (late wakeup e' = false) as Hl by (unfold late; by rewrite He1). by rewrite Hl in H.
  - exists s', u'. rewrite <- Ht in Hu'. split_and!; try done. apply Hq.
Qed.

(** Events on CPUs, one after another. *)
Definition deliver (evs : list (Z * event_call)) (s : tasklist) : outcome tasklist :=
  foldM (λ ce, event 1 (fst ce) (ev_v0 (snd ce)) (ev_v1 (snd ce)) (ev_v2 (snd ce)) (s8 (ev_res_acq (snd ce)))) evs s.

Lemma deliver_asleep evs eh i wakeup t : ∀ s u,
  sched_wf s → events_in_event s = [] → (∀ ce, ce ∈ evs → has_current (fst ce) s ∧ late wakeup (snd ce) = false) →
  u ∈ tasks s → asleep (Handler eh (task_timer100hz_handler i wakeup)) t u →
  ∃ s' u', deliver evs s = Ret s' ∧ sched_wf s' ∧ events_in_event s' = [] ∧
    core <$> tasks s' = core <$> tasks s ∧ multicpu s' = multicpu s ∧ u' ∈ tasks s' ∧
    asleep (Handler eh (task_timer100hz_handler i wakeup)) t u'.
Proof.
  unfold deliver. induction evs as [|[c e] evs IH]; intros s u W He Hevs Hu Hs; [by exists s, u|]. cbn [foldM].
  destruct (Hevs (c, e) (list_elem_of_here _ _)) as [Hc Hl]. cbn [fst snd] in *.
  destruct (event_asleep c e (s8 (ev_res_acq e)) eh i wakeup t s u W Hc He Hu Hs)
    as (s1 & u1 & E & W1 & He1 & Ec & Hm & Hu1 & Hs1). rewrite Hl in Hs1.
  rewrite E. cbn [mbind outcome_bind]. destruct (IH s1 u1 W1 He1) as (s' & u' & E' & W' & He' & Ec' & Hm' & Hr');
    [|done|done|exists s', u'; split_and!; try done; try congruence; apply Hr'].
  intros ce Hce. destruct (Hevs ce) as [Hc' Hl']; [by right|]. split; [|done]. by apply (core_has_current _ s).
Qed.


