(* ===== verification/Mutex.v ===== *)
(** std::mutex of the kernel (kernel/concurrency/mutex.cpp): a ticket lock
    whose waiting tasks sleep until an event of the scheduler wakes them.

    A step is one access to the words of the lock or one call of the
    scheduler, which holds its own lock.  Of the scheduler the model has, for
    each task, whether it is blocked and its handler for the mutex; what an
    event does to a handler is [fires] of SchedInv.v. *)
From S2P Require Import Prelude Spinlock Task Tasklist SchedInv.

Local Open Scope Z_scope.

(** * Steps *)

(** Where a task is in lock and unlock. *)
Inductive mutex_pc :=
| MOut
| MTicket (k : Z)    (* lock: has its ticket, first look at the words *)
| MHandler (k : Z)   (* lock: makes its handler known *)
| MLook (k : Z)      (* lock: second look *)
| MBlock (k : Z)     (* lock: set_blocked("mtxlock", true) *)
| MAgain (k : Z)     (* lock: third look, with interrupts off *)
| MSleep (k : Z)     (* lock: the task switch and the loop *)
| MClear             (* lock: the event that removes the handler *)
| MUnblock           (* lock without waiting: set_blocked("mtxlco2", false) *)
| MHeld
| MEvent (v : Z).    (* unlock: has released, the event is to come *)

Record mthread := MThread { mpc : mutex_pc; mblocked : bool; mhandler : option Z }.

Record mutex_system := MSystem { mx_lock : spinlock; mx_threads : list mthread }.

(** The event TASK_EVENT_MUTEX with the ticket [v], at one task. *)
Definition mutex_hears (v : Z) (th : mthread) : mthread :=
  match mhandler th with
  | Some k =>
    if fires false (Handler 0 (task_mutex_handler 0 0 k)) TASK_EVENT_MUTEX 0 v
    then MThread (mpc th) (if v =? k then false else mblocked th) None
    else th
  | None => th
  end.

Definition set_thread (s : mutex_system) (t : nat) (th : mthread) : mutex_system :=
  MSystem (mx_lock s) (<[t := th]> (mx_threads s)).

(** The next step of task [t].  A task that sleeps goes on when it is not
    blocked; between MBlock and MAgain it runs with interrupts off. *)
Definition mutex_step (t : nat) (s : mutex_system) : option mutex_system :=
  th ← mx_threads s !! t;
  let l := mx_lock s in
  let to pc := Some (set_thread s t (MThread pc (mblocked th) (mhandler th))) in
  match mpc th with
  | MOut =>
    let '(k, l) := create_ticket l in
    Some (MSystem l (<[t := MThread (MTicket k) (mblocked th) (mhandler th)]> (mx_threads s)))
  | MTicket k => if k =? now_serving l then to MUnblock else to (MHandler k)
  | MHandler k => Some (set_thread s t (MThread (MLook k) (mblocked th) (Some k)))
  | MLook k => if k =? now_serving l then to (MSleep k) else to (MBlock k)
  | MBlock k => Some (set_thread s t (MThread (MAgain k) true (mhandler th)))
  | MAgain k =>
    if k =? now_serving l then Some (set_thread s t (MThread (MSleep k) false (mhandler th)))
    else to (MSleep k)
  | MSleep k =>
    if mblocked th then None
    else if k =? now_serving l then to MClear else to (MSleep k)
  | MClear => Some (set_thread s t (MThread MHeld (mblocked th) None))
  | MUnblock => Some (set_thread s t (MThread MHeld false (mhandler th)))
  | MHeld =>
    let l := release_ticket l in
    Some (MSystem l (<[t := MThread (MEvent (now_serving l)) (mblocked th) (mhandler th)]> (mx_threads s)))
  | MEvent v =>
    Some (MSystem l (mutex_hears v <$> <[t := MThread MOut (mblocked th) (mhandler th)]> (mx_threads s)))
  end.

Fixpoint mutex_run (ts : list nat) (s : mutex_system) : option mutex_system :=
  match ts with
  | [] => Some s
  | t :: ts => s' ← mutex_step t s; mutex_run ts s'
  end.

Definition mutex_init (n : nat) : mutex_system :=
  MSystem new_spinlock (replicate n (MThread MOut false None)).

(** * The ticket lock below *)

Definition abs_mpc (pc : mutex_pc) : lock_pc :=
  match pc with
  | MOut | MEvent _ => Out
  | MTicket k | MHandler k | MLook k | MBlock k | MAgain k | MSleep k => Wait k
  | MClear | MUnblock | MHeld => Hold
  end.

Definition abs_mutex (s : mutex_system) : raw_system :=
  RawSystem (mx_lock s) (abs_mpc ∘ mpc <$> mx_threads s).

Lemma mutex_hears_pc v th : mpc (mutex_hears v th) = mpc th.
Proof. unfold mutex_hears. by repeat case_match. Qed.

Lemma hears_pcs v (l : list mthread) : mpc <$> (mutex_hears v <$> l) = mpc <$> l.
Proof. rewrite <- list_fmap_compose. apply list_fmap_ext. intros i th _. apply mutex_hears_pc. Qed.

Lemma hears_abs v (l : list mthread) : abs_mpc ∘ mpc <$> (mutex_hears v <$> l) = abs_mpc ∘ mpc <$> l.
Proof. by rewrite !(list_fmap_compose mpc abs_mpc), hears_pcs. Qed.

(** Each step is one of the ticket lock or changes nothing there. *)
Lemma mutex_step_raw t s s' :
  mutex_step t s = Some s' → (∃ e, raw_step e (abs_mutex s) = Some (abs_mutex s')) ∨ abs_mutex s' = abs_mutex s.
Proof.
  unfold mutex_step. destruct (mx_threads s !! t) as [[pc b h]|] eqn:Et; [|done]. cbn [mbind option_bind].
  assert (raw_threads (abs_mutex s) !! t = Some (abs_mpc pc)) as Ea by (simpl; by rewrite list_lookup_fmap, Et).
  assert (∀ pc' b' h', abs_mpc pc' = abs_mpc pc → abs_mutex (set_thread s t (MThread pc' b' h')) = abs_mutex s) as Hsame.
  { intros pc' b' h' E. unfold abs_mutex, set_thread. simpl. f_equal. rewrite list_fmap_insert.
    apply list_insert_id. rewrite list_lookup_fmap, Et. simpl. by rewrite E. }
  assert (∀ pc' b' h' k, abs_mpc pc = Wait k → (k =? now_serving (mx_lock s)) = true → abs_mpc pc' = Hold →
    raw_step (Spin t) (abs_mutex s) = Some (abs_mutex (set_thread s t (MThread pc' b' h')))) as Hget.
  { intros pc' b' h' k E Hk E'. unfold raw_step. rewrite Ea, E. simpl. rewrite Hk. unfold abs_mutex, set_thread. simpl.
    by rewrite list_fmap_insert; simpl; rewrite E'. }
  destruct pc; simpl; try (intros [= <-]; right; by apply Hsame).
  - intros [= <-]. left. exists (Take t). unfold raw_step. rewrite Ea. simpl. unfold abs_mutex. simpl.
    by rewrite list_fmap_insert.
  - destruct (k =? _) eqn:Ek; intros [= <-]; [left; exists (Spin t); by eapply Hget|right; by apply Hsame].
  - destruct (k =? _) eqn:Ek; intros [= <-]; right; by apply Hsame.
  - destruct (k =? _) eqn:Ek; intros [= <-]; right; by apply Hsame.
  - destruct b; [done|].
    destruct (k =? _) eqn:Ek; intros [= <-]; [left; exists (Spin t); by eapply Hget|right; by apply Hsame].
  - intros [= <-]. left. exists (Release t). unfold raw_step. rewrite Ea. simpl. unfold abs_mutex. simpl.
    by rewrite list_fmap_insert.
  - intros [= <-]. right. unfold abs_mutex. simpl. rewrite hears_abs, list_fmap_insert. f_equal.
    apply list_insert_id. by rewrite list_lookup_fmap, Et.
Qed.

(** * The invariant

    [j] steps have been made, so that no ticket has wrapped around. *)

(** A handler that has not fired, and what wakes the task if it sleeps. *)
Definition thread_ok (serving : Z) (pcs : list mutex_pc) (th : mthread) : Prop :=
  match mpc th with
  | MOut | MUnblock | MHeld => mblocked th = false
  | MTicket _ | MHandler _ => mblocked th = false ∧ mhandler th = None
  | MEvent v => mblocked th = false ∧ 0 ≤ v ≤ serving
  | MLook k | MBlock k => mblocked th = false ∧ (serving < k → mhandler th = Some k)
  | MAgain k => serving < k → mhandler th = Some k
  | MSleep k => mblocked th = true →
                mhandler th = Some k ∧ (serving = k → ∃ u, pcs !! u = Some (MEvent k))
  | MClear => mblocked th = false
  end.

(** A handler waits for the ticket of its task. *)
Definition handler_ok (th : mthread) : Prop :=
  ∀ k, mhandler th = Some k → k < 0xF8000000 ∧ (abs_mpc (mpc th) = Wait k ∨ mpc th = MClear).

Record mutex_inv (n : nat) (j : Z) (s : mutex_system) : Prop := {
  mi_lock : ∃ f, lock_refines n (abs_mutex s) f;
  mi_tickets : 0 ≤ now_serving (mx_lock s) ≤ next_ticket (mx_lock s) ∧ next_ticket (mx_lock s) ≤ j;
  mi_handler : ∀ t th, mx_threads s !! t = Some th → handler_ok th;
  mi_thread : ∀ t th, mx_threads s !! t = Some th →
                thread_ok (now_serving (mx_lock s)) (mpc <$> mx_threads s) th
}.

Section mutex_inv.

Context (n : nat) (j : Z) (Hn : Z.of_nat n < 2 ^ 32) (Hj : 0 ≤ j < 0xF8000000).

Lemma tickets_queue s f :
  mutex_inv n j s → lock_refines n (abs_mutex s) f →
  next_ticket (mx_lock s) = now_serving (mx_lock s) + Z.of_nat (length (queue f)).
Proof.
  intros [_ Ht _ _] R. pose proof (lock_refines_length _ _ _ R). pose proof (lr_next _ _ _ R) as E. simpl in E.
  unfold wrap in E. pose proof (Z.div_mod (now_serving (mx_lock s) + Z.of_nat (length (queue f))) (2 ^ 32)). nia.
Qed.

Lemma wait_bounds s t th k :
  mutex_inv n j s → mx_threads s !! t = Some th → abs_mpc (mpc th) = Wait k →
  now_serving (mx_lock s) ≤ k < next_ticket (mx_lock s).
Proof.
  intros I Ht Hk. destruct (mi_lock _ _ _ I) as [f R]. pose proof (tickets_queue s f I R) as E.
  destruct (lr_pc _ _ _ R t (Wait k)) as (i & Hi & -> & _).
  { simpl. rewrite list_lookup_fmap, Ht. simpl. by rewrite Hk. }
  apply lookup_lt_Some in Hi. destruct (mi_tickets _ _ _ I). simpl.
  rewrite wrap_id; [|unfold is_u]; lia.
Qed.

Lemma hold_bounds s t th :
  mutex_inv n j s → mx_threads s !! t = Some th → abs_mpc (mpc th) = Hold →
  now_serving (mx_lock s) < next_ticket (mx_lock s).
Proof.
  intros I Ht Hk. destruct (mi_lock _ _ _ I) as [f R]. pose proof (tickets_queue s f I R) as E.
  destruct (lr_pc _ _ _ R t Hold) as [Hh _]; [simpl; rewrite list_lookup_fmap, Ht; simpl; by rewrite Hk|].
  destruct (queue f); [done|]. simpl in E. lia.
Qed.

(** Events that are to come stay so. *)
Lemma thread_ok_pcs sv (pcs pcs' : list mutex_pc) th :
  (∀ u k, pcs !! u = Some (MEvent k) → pcs' !! u = Some (MEvent k)) → thread_ok sv pcs th → thread_ok sv pcs' th.
Proof.
  intros H. unfold thread_ok. destruct (mpc th); try done. intros H1 Hb. destruct (H1 Hb) as [Hh H2].
  split; [done|]. intros E. destruct (H2 E) as [u Hu]. eauto.
Qed.

(** The next ticket is served, and its event is to come. *)
Lemma thread_ok_next sv (pcs pcs' : list mutex_pc) t th :
  pcs' !! t = Some (MEvent (sv + 1)) → thread_ok sv pcs th → thread_ok (sv + 1) pcs' th.
Proof.
  intros Ht. unfold thread_ok. destruct (mpc th); try (intros H; exact H).
  - intros [Hb Hh]. split; [exact Hb|]. intros. apply Hh. lia.
  - intros [Hb Hh]. split; [exact Hb|]. intros. apply Hh. lia.
  - intros Hh Hlt. apply Hh. lia.
  - intros H Hb. destruct (H Hb) as [Hh _]. split; [exact Hh|]. intros <-. by exists t.
  - intros [Hb Hv]. split; [exact Hb|]. lia.
Qed.

Lemma insert_pcs (ths : list mthread) t th th' u k :
  ths !! t = Some th → (∀ v, mpc th ≠ MEvent v) →
  (mpc <$> ths) !! u = Some (MEvent k) → (mpc <$> <[t := th']> ths) !! u = Some (MEvent k).
Proof.
  intros Ht Hne. rewrite !list_lookup_fmap. destruct (decide (u = t)) as [->|E].
  - rewrite Ht. intros [= E]. by destruct (Hne k).
  - by rewrite list_lookup_insert_ne.
Qed.

(** The part of the invariant about the words, after a step. *)
Lemma step_lock t s s' :
  mutex_inv n j s → mutex_step t s = Some s' → ∃ f, lock_refines n (abs_mutex s') f.
Proof.
  intros I Hs. destruct (mi_lock _ _ _ I) as [f R]. destruct (mutex_step_raw t s s' Hs) as [[e E]| ->]; [|eauto].
  pose proof (raw_step_fifo n _ f e Hn R) as R'. rewrite E in R'. destruct (fifo_step n e f); [eauto|done].
Qed.

(** Steps of a task that change nothing but its own state. *)
Lemma step_own t s th th' :
  mutex_inv n j s → mx_threads s !! t = Some th → (∀ v, mpc th ≠ MEvent v) →
  (∃ f, lock_refines n (abs_mutex (set_thread s t th')) f) → handler_ok th' →
  thread_ok (now_serving (mx_lock s)) (mpc <$> mx_threads s) th' → mutex_inv n (j + 1) (set_thread s t th').
Proof.
  intros I Ht Hne HR Hh' Hth'. destruct I as [_ Htk Hh Hth]. constructor; simpl; [done|lia| |].
  - intros u thu [(<- & <- & _)|[_ Hu]]%list_lookup_insert_Some; eauto.
  - intros u thu Hu. eapply thread_ok_pcs; [intros v k; by eapply insert_pcs|].
    apply list_lookup_insert_Some in Hu as [(<- & <- & _)|[_ Hu]]; eauto.
Qed.

Lemma step_take t s th s' :
  mutex_inv n j s → mx_threads s !! t = Some th → mpc th = MOut → mutex_step t s = Some s' → mutex_inv n (j + 1) s'.
Proof.
  intros I Ht Hpc Hs. pose proof (step_lock t s s' I Hs) as HR. destruct I as [_ Htk Hh Hth].
  unfold mutex_step in Hs. rewrite Ht in Hs. cbn [mbind option_bind] in Hs. rewrite Hpc in Hs. injection Hs as <-.
  pose proof (Hth t th Ht) as Hok. unfold thread_ok in Hok. rewrite Hpc in Hok.
  assert (mhandler th = None) as Hnone.
  { destruct (mhandler th) as [k|] eqn:E; [|done]. destruct (Hh t th Ht k E) as [_ Hw].
    rewrite Hpc in Hw. by destruct Hw. }
  constructor; simpl; [done| | |].
  - rewrite wrap_id; [|unfold is_u]; lia.
  - intros u thu [(<- & <- & _)|[_ Hu]]%list_lookup_insert_Some; [|eauto].
    intros k Hk. simpl in Hk. congruence.
  - intros u thu Hu. eapply thread_ok_pcs; [intros v k; eapply insert_pcs; [exact Ht|congruence]|].
    apply list_lookup_insert_Some in Hu as [(<- & <- & _)|[_ Hu]]; [by split|eauto].
Qed.

Lemma step_release t s th s' :
  mutex_inv n j s → mx_threads s !! t = Some th → mpc th = MHeld → mutex_step t s = Some s' → mutex_inv n (j + 1) s'.
Proof.
  intros I Ht Hpc Hs. pose proof (step_lock t s s' I Hs) as HR.
  assert (now_serving (mx_lock s) < next_ticket (mx_lock s)) as Hlt by (eapply hold_bounds; [done..|by rewrite Hpc]).
  destruct I as [_ Htk Hh Hth].
  unfold mutex_step in Hs. rewrite Ht in Hs. cbn [mbind option_bind] in Hs. rewrite Hpc in Hs. injection Hs as <-.
  pose proof (Hth t th Ht) as Hok. unfold thread_ok in Hok. rewrite Hpc in Hok.
  assert (u32 (now_serving (mx_lock s) + 1) = now_serving (mx_lock s) + 1) as E by (apply wrap_id; unfold is_u; lia).
  constructor; simpl; [done|lia| |].
  - intros u thu [(<- & <- & _)|[_ Hu]]%list_lookup_insert_Some; [|eauto].
    intros k Hk. specialize (Hh t th Ht k Hk). rewrite Hpc in Hh. by destruct Hh as [_ [?|?]].
  - intros u thu Hu. rewrite E.
    apply list_lookup_insert_Some in Hu as [(<- & <- & _)|[Hne Hu]]; [unfold thread_ok; simpl; split; [done|lia]|].
    apply (thread_ok_next _ (mpc <$> mx_threads s) _ t).
    + rewrite list_lookup_fmap, list_lookup_insert_eq; [done|]. by eapply lookup_lt_Some.
    + eauto.
Qed.

Lemma fires_ticket k v :
  k < 0xF8000000 → fires false (Handler 0 (task_mutex_handler 0 0 k)) TASK_EVENT_MUTEX 0 v = (k <=? v).
Proof. intros Hk. unfold fires. simpl. by rewrite (proj2 (Z.leb_gt 0xF8000000 k)), orb_false_r by lia. Qed.

(** The event of a ticket that has been served wakes the task whose turn it
    is and leaves the others alone. *)
Lemma hears_ok sv pcs pcs' v th :
  handler_ok th → (∀ k, abs_mpc (mpc th) = Wait k → sv ≤ k) → 0 ≤ v ≤ sv →
  (∀ u k, pcs !! u = Some (MEvent k) → pcs' !! u = Some (MEvent k) ∨ k = v) →
  thread_ok sv pcs th → thread_ok sv pcs' (mutex_hears v th).
Proof.
  intros Hh Hk Hv Hpcs Hok. unfold mutex_hears, thread_ok in *.
  destruct (mhandler th) as [h|] eqn:Eh.
  - destruct (Hh h Eh) as [Hh8 Hw]. rewrite fires_ticket by exact Hh8.
    destruct (Z.leb_spec h v) as [Hle|Hgt]; [destruct (Z.eqb_spec v h) as [Ev|Ev]|]; simpl.
    + destruct (mpc th) as [| | |k|k|k|k| | | |]; try exact Hok; try reflexivity.
      * destruct Hok as [_ Hok]. congruence.
      * destruct Hok as [_ Hok]. congruence.
      * destruct Hw as [[= ->]|Hw]; [|discriminate Hw]. split; [reflexivity|]. intros. exfalso. lia.
      * destruct Hw as [[= ->]|Hw]; [|discriminate Hw]. split; [reflexivity|]. intros. exfalso. lia.
      * destruct Hw as [[= ->]|Hw]; [|discriminate Hw]. intros. exfalso. lia.
      * intros Hb. discriminate Hb.
      * split; [reflexivity|apply Hok].
    + destruct Hw as [Hw|Hw]; [specialize (Hk h Hw); exfalso; lia|]. rewrite Hw in *. exact Hok.
    + destruct (mpc th) as [| | |k|k|k|k| | | |]; rewrite ?Eh in *; try exact Hok.
      intros Hb. destruct (Hok Hb) as [[= ->] Hp]. split; [reflexivity|]. intros E.
      destruct (Hp E) as [u Hu]. destruct (Hpcs u k Hu) as [?|?]; [by exists u|lia].
  - destruct (mpc th) as [| | |k|k|k|k| | | |]; rewrite ?Eh in *; try exact Hok.
    intros Hb. destruct (Hok Hb) as [Hc _]. discriminate Hc.
Qed.

Lemma step_event t s th v s' :
  mutex_inv n j s → mx_threads s !! t = Some th → mpc th = MEvent v → mutex_step t s = Some s' →
  mutex_inv n (j + 1) s'.
Proof.
  intros I Ht Hpc Hs. pose proof (step_lock t s s' I Hs) as HR. pose proof (wait_bounds s) as Hwb.
  pose proof I as [_ Htk Hh Hth].
  unfold mutex_step in Hs. rewrite Ht in Hs. cbn [mbind option_bind] in Hs. rewrite Hpc in Hs. injection Hs as <-.
  pose proof (Hth t th Ht) as Hok. unfold thread_ok in Hok. rewrite Hpc in Hok. destruct Hok as [Hb Hv].
  assert (mhandler th = None) as Hnone.
  { destruct (mhandler th) as [k|] eqn:E; [|done]. destruct (Hh t th Ht k E) as [_ Hw].
    rewrite Hpc in Hw. by destruct Hw. }
  constructor; simpl; [done|lia| |].
  - intros u thu' Hu. rewrite list_lookup_fmap in Hu.
    destruct (<[t := MThread MOut (mblocked th) (mhandler th)]> (mx_threads s) !! u) as [thu|] eqn:E; [|done].
    injection Hu as <-. intros k Hk. unfold mutex_hears in *.
    apply list_lookup_insert_Some in E as [(-> & <- & _)|[_ E]]; [simpl in Hk; by rewrite Hnone in Hk|].
    destruct (mhandler thu) as [h|] eqn:Eh; [|congruence]. destruct (fires _ _ _ _ _); [done|]. by apply (Hh u thu E).
  - intros u thu' Hu. rewrite list_lookup_fmap in Hu.
    destruct (<[t := MThread MOut (mblocked th) (mhandler th)]> (mx_threads s) !! u) as [thu|] eqn:E; [|done].
    injection Hu as <-.
    apply list_lookup_insert_Some in E as [(-> & <- & _)|[_ E]].
    { unfold mutex_hears. simpl. rewrite Hnone. exact Hb. }
    apply (hears_ok _ (mpc <$> mx_threads s)); [by eapply Hh| |done| |by eapply Hth].
    + intros k Hk. by destruct (Hwb u thu k I E Hk).
    + intros w k Hw. rewrite hears_pcs. destruct (decide (w = t)) as [->|Hne].
      * right. rewrite list_lookup_fmap, Ht in Hw. simpl in Hw. congruence.
      * left. rewrite list_lookup_fmap in *. by rewrite list_lookup_insert_ne.
Qed.

Lemma mutex_step_inv t s s' : mutex_inv n j s → mutex_step t s = Some s' → mutex_inv n (j + 1) s'.
Proof.
  intros I Hs. destruct (mx_threads s !! t) as [th|] eqn:Ht; [|unfold mutex_step in Hs; by rewrite Ht in Hs].
  destruct (mpc th) eqn:Hpc; [by eapply step_take| | | | | | | | |by eapply step_release|by eapply step_event].
  all: pose proof (step_lock t s s' I Hs) as HR.
  all: pose proof (mi_thread _ _ _ I t th Ht) as Hok; unfold thread_ok in Hok; rewrite Hpc in Hok.
  all: pose proof (mi_handler _ _ _ I t th Ht) as Hh; unfold handler_ok in Hh; rewrite Hpc in Hh.
  all: unfold mutex_step in Hs; rewrite Ht in Hs; cbn [mbind option_bind] in Hs; rewrite Hpc in Hs; cbv zeta in Hs.
  all: try (assert (now_serving (mx_lock s) ≤ k < next_ticket (mx_lock s)) as Hk
    by (eapply wait_bounds; [done..|by rewrite Hpc])).
  all: assert (∀ th', Some (set_thread s t th') = Some s' → handler_ok th' →
    thread_ok (now_serving (mx_lock s)) (mpc <$> mx_threads s) th' → mutex_inv n (j + 1) s') as Hown
    by (intros th' [= <-]; apply (step_own t s th); [done|done|congruence|done]).
  all: try (assert (∀ pc b, abs_mpc pc = Wait k ∨ pc = MClear → handler_ok (MThread pc b (mhandler th))) as Hw
    by (intros pc b Hpc' h Hx; destruct (Hh h Hx) as [? [[= <-]|?]]; done)).
  - destruct Hok as [Hb Hn']. destruct (k =? _); apply (Hown _ Hs); [intros ?; simpl; congruence|done| |by split].
    apply Hw. by left.
  - apply (Hown _ Hs); [|by split; [apply Hok|]].
    intros h [= <-]. pose proof (mi_tickets _ _ _ I). split; [lia|by left].
  - destruct Hok as [Hb Hh']. destruct (k =? _); apply (Hown _ Hs); [apply Hw; by left| |apply Hw; by left|by split].
    unfold thread_ok. simpl. rewrite Hb. intros [=].
  - apply (Hown _ Hs); [apply Hw; by left|exact (proj2 Hok)].
  - destruct (Z.eqb_spec k (now_serving (mx_lock s))) as [E|E]; apply (Hown _ Hs);
      [apply Hw; by left|intros [=]|apply Hw; by left|].
    intros _. split; [apply Hok; lia|]. intros E'. congruence.
  - destruct (mblocked th) eqn:Hb; [done|]. destruct (k =? _); apply (Hown _ Hs);
      [apply Hw; by right|done|apply Hw; by left|intros [=]].
  - apply (Hown _ Hs); [intros ? [=]|done].
  - apply (Hown _ Hs); [|done]. intros h Hx. by destruct (Hh h Hx) as [_ [?|?]].
Qed.

End mutex_inv.

Lemma mutex_init_inv n : mutex_inv n 0 (mutex_init n).
Proof.
  assert (abs_mutex (mutex_init n) = raw_init n) as E.
  { unfold abs_mutex, mutex_init, raw_init. simpl. f_equal. by rewrite fmap_replicate. }
  constructor.
  - rewrite E. eexists. apply lock_refines_init.
  - simpl. lia.
  - intros t th [-> _]%lookup_replicate. intros k [=].
  - intros t th [-> _]%lookup_replicate. done.
Qed.

Lemma mutex_run_inv n ts : ∀ j s s',
  Z.of_nat n < 2 ^ 32 → 0 ≤ j → j + Z.of_nat (length ts) < 0xF8000000 → mutex_inv n j s →
  mutex_run ts s = Some s' → mutex_inv n (j + Z.of_nat (length ts)) s'.
Proof.
  induction ts as [|t ts IH]; intros j s s' Hn Hj Hl I; cbn [mutex_run].
  - intros [= <-]. by replace (j + Z.of_nat (length (@nil nat))) with j by (simpl; lia).
  - destruct (mutex_step t s) as [s1|] eqn:E; [|done]. cbn [mbind option_bind length] in *. intros Hr.
    replace (j + Z.of_nat (S (length ts))) with (j + 1 + Z.of_nat (length ts)) by lia.
    eapply IH; [done|lia|lia| |exact Hr]. eapply mutex_step_inv; [done| |done|done]. lia.
Qed.

(** * The properties *)

(** C4: std::mutex in any interleaving of fewer than 2^32 tasks and fewer
    than 0xF8000000 steps: no two tasks hold it, and no wakeup is lost.  A
    task that sleeps has its handler registered, its turn has not passed, and
    when its turn has come the event that wakes it is under way. *)
Theorem mutex_no_lost_wakeup (n : nat) (ts : list nat) (s : mutex_system) :
  Z.of_nat n < 2 ^ 32 → Z.of_nat (length ts) < 0xF8000000 → mutex_run ts (mutex_init n) = Some s →
  (∀ t t' th th', mx_threads s !! t = Some th → mx_threads s !! t' = Some th' →
     abs_mpc (mpc th) = Hold → abs_mpc (mpc th') = Hold → t = t') ∧
  ∀ t th k, mx_threads s !! t = Some th → mpc th = MSleep k → mblocked th = true →
    mhandler th = Some k ∧ now_serving (mx_lock s) ≤ k ∧
    (now_serving (mx_lock s) = k → ∃ u thu, mx_threads s !! u = Some thu ∧ mpc thu = MEvent k).
Proof.
  intros Hn Hl Hr.
  assert (mutex_inv n (0 + Z.of_nat (length ts)) s) as I by (eapply mutex_run_inv; eauto using mutex_init_inv; lia).
  split.
  - intros t t' th th' Ht Ht' Hh Hh'. destruct (mi_lock _ _ _ I) as [f R].
    apply (hold_unique n _ f t t' R); simpl; rewrite list_lookup_fmap; [rewrite Ht|rewrite Ht']; simpl; congruence.
  - intros t th k Ht Hpc Hb. pose proof (mi_thread _ _ _ I t th Ht) as Hok. unfold thread_ok in Hok.
    rewrite Hpc in Hok. destruct (Hok Hb) as [Hh Hw]. split; [done|]. split.
    + eapply (wait_bounds n _ Hn); [|exact I|exact Ht|by rewrite Hpc]. lia.
    + intros E. destruct (Hw E) as [u Hu]. rewrite list_lookup_fmap in Hu. exists u.
      destruct (mx_threads s !! u) as [thu|]; [|done]. exists thu. split; [done|]. by injection Hu.
Qed.

(** Task 0 gets the lock, task 1 falls asleep, task 0 releases. *)
Definition sleep_run : list nat := [0; 0; 0; 1; 1; 1; 1; 1; 1; 0]%nat.

Lemma mutex_no_lost_wakeup_witness :
  ∃ s, mutex_run sleep_run (mutex_init 2) = Some s ∧ now_serving (mx_lock s) = 1 ∧
       ∃ u thu, mx_threads s !! u = Some thu ∧ mpc thu = MEvent 1.
Proof.
  assert (mutex_run sleep_run (mutex_init 2) =
    Some (MSystem (Spinlock 2 1) [MThread (MEvent 1) false None; MThread (MSleep 1) true (Some 1)])) as E
    by (vm_compute; reflexivity).
  destruct (mutex_no_lost_wakeup 2 sleep_run _ ltac:(lia) ltac:(simpl; lia) E) as [_ H].
  eexists. split; [exact E|]. split; [reflexivity|].
  destruct (H 1%nat (MThread (MSleep 1) true (Some 1)) 1 eq_refl eq_refl eq_refl) as (_ & _ & H'). exact (H' eq_refl).
Defined.

(** ** The wrap of the tickets *)

(** All tasks are outside, and the next ticket is [w]. *)
Definition idle_at (w : Z) : mutex_system := MSystem (Spinlock w w) (replicate 3 (MThread MOut false None)).

(** Task 0 locks and unlocks, [m] times. *)
Fixpoint rounds (m : nat) : list nat :=
  match m with O => [] | S m => rounds m ++ [0; 0; 0; 0; 0]%nat end.

Lemma mutex_run_app ts ts' s : mutex_run (ts ++ ts') s = (mutex_run ts s ≫= mutex_run ts').
Proof.
  revert s. induction ts as [|t ts IH]; intros s; [done|]. cbn [app mutex_run].
  destruct (mutex_step t s); [apply IH|done].
Qed.

Lemma one_round w : mutex_run [0; 0; 0; 0; 0]%nat (idle_at w) = Some (idle_at (u32 (w + 1))).
Proof. unfold mutex_run, mutex_step, idle_at. simpl. by rewrite Z.eqb_refl. Qed.

Lemma rounds_idle m : mutex_run (rounds m) (mutex_init 3) = Some (idle_at (u32 (Z.of_nat m))).
Proof.
  induction m as [|m IH]; [done|]. cbn [rounds]. rewrite mutex_run_app, IH. cbn [mbind option_bind].
  rewrite one_round. unfold wrap. rewrite Zplus_mod_idemp_l. do 4 f_equal; lia.
Qed.

(** A task that sleeps without a handler sleeps for ever. *)
Lemma sleeps_forever t th k ts : ∀ s s',
  mx_threads s !! t = Some th → mpc th = MSleep k → mblocked th = true → mhandler th = None →
  mutex_run ts s = Some s' → mx_threads s' !! t = Some th.
Proof.
  induction ts as [|u ts IH]; intros s s' Ht Hpc Hb Hh; cbn [mutex_run]; [by intros [= <-]|].
  destruct (mutex_step u s) as [s1|] eqn:E; [|done]. cbn [mbind option_bind]. intros Hr.
  eapply IH; [|done..|exact Hr]. unfold mutex_step in E.
  destruct (decide (u = t)) as [->|Hne]; [rewrite Ht in E; simpl in E; by rewrite Hpc, Hb in E|].
  destruct (mx_threads s !! u) as [thu|]; [|done]. cbn [mbind option_bind] in E.
  assert (∀ x, <[u := x]> (mx_threads s) !! t = Some th) as Hins by (intros x; by rewrite list_lookup_insert_ne).
  destruct (mpc thu); try (injection E as <-); try (destruct (_ =? _); injection E as <-); try apply Hins.
  - destruct (mblocked thu); [done|]. destruct (_ =? _); injection E as <-; apply Hins.
  - simpl. rewrite list_lookup_fmap, Hins. simpl. unfold mutex_hears. by rewrite Hh.
Qed.

(** The lock is taken with the ticket 2^32 - 2; two tasks fall asleep with
    the tickets 2^32 - 1 and 0; the lock is released, and again. *)
Definition wrap_run : list nat :=
  [0; 0; 0; 1; 1; 1; 1; 1; 1; 2; 2; 2; 2; 2; 2; 0; 0; 1; 1; 1; 1]%nat.

(** When the 32-bit tickets wrap around, std::mutex loses a wakeup: the
    event of the ticket 2^32 - 1 also removes the handler of a task that
    sleeps with the ticket 0, because 2^32 - 1 is the larger number.  The
    lock is then free and it is the task's turn, but it sleeps for ever. *)
Theorem mutex_wrap_loses_wakeup :
  ∃ ts s th, mutex_run ts (mutex_init 3) = Some s ∧
    mx_threads s = [MThread MOut false None; MThread MOut false None; th] ∧
    mpc th = MSleep (now_serving (mx_lock s)) ∧
    ∀ ts' s', mutex_run ts' s = Some s' → mx_threads s' !! 2%nat = Some th.
Proof.
  assert (∃ m, u32 (Z.of_nat m) = 2 ^ 32 - 2) as [m Hm].
  { exists (Z.to_nat (2 ^ 32 - 2)). rewrite Z2Nat.id; [reflexivity|lia]. }
  assert (mutex_run wrap_run (idle_at (2 ^ 32 - 2)) =
    Some (MSystem (Spinlock 1 0) [MThread MOut false None; MThread MOut false None; MThread (MSleep 0) true None]))
    as E by (vm_compute; reflexivity).
  exists (rounds m ++ wrap_run).
  eexists (MSystem (Spinlock 1 0) _), (MThread (MSleep 0) true None). split; [|split; [reflexivity|split; [reflexivity|]]].
  - rewrite mutex_run_app, rounds_idle, Hm. exact E.
  - intros ts' s' Hr. by eapply (sleeps_forever 2 _ 0); [..|exact Hr].
Qed.
