(* ===== verification/SharedPtr.v ===== *)
(** Shared pointers (include/std/memory.h: shared_ptr, weak_ptr, their
    container and weak_ptr_dir).

    The heap has the containers, the directories of weak pointers and a log
    of the objects that have been deleted; a pointer is an address and 0 is
    nullptr.  Variables of both kinds of pointers live in two maps.  An
    access to a container or directory that does not exist is
    [OutOfBounds].  [new] is given its address by the caller. *)
From S2P Require Import Prelude Spinlock.

Local Open Scope Z_scope.

(** * Data *)

Record weak_ptr_dir := WeakDir { dir_ref : Z; dir_xref : Z }.

Record shared_ptr_container := Container {
  c_ptr : Z;
  c_ref : Z;
  c_tickets : spinlock;   (* ticketgen, currentticket *)
  c_weak : Z
}.

Record sp_heap := SpHeap {
  containers : gmap Z shared_ptr_container;
  dirs : gmap Z weak_ptr_dir;
  deleted : list Z
}.

Record shared_ptr := SharedPtr { sp_container : Z; sp_ptr : Z }.

Record weak_ptr := WeakPtr { wp_weak : Z; wp_container : Z; wp_ptr : Z }.

Definition null_shared : shared_ptr := SharedPtr 0 0.
Definition null_weak : weak_ptr := WeakPtr 0 0 0.

Definition get_container (a : Z) (h : sp_heap) : outcome shared_ptr_container :=
  match containers h !! a with Some c => Ret c | None => OutOfBounds end.

Definition put_container (a : Z) (c : shared_ptr_container) (h : sp_heap) : sp_heap :=
  SpHeap (<[a := c]> (containers h)) (dirs h) (deleted h).

Definition get_dir (d : Z) (h : sp_heap) : outcome weak_ptr_dir :=
  match dirs h !! d with Some w => Ret w | None => OutOfBounds end.

Definition put_dir (d : Z) (w : weak_ptr_dir) (h : sp_heap) : sp_heap :=
  SpHeap (containers h) (<[d := w]> (dirs h)) (deleted h).

Definition delete_dir (d : Z) (h : sp_heap) : sp_heap :=
  SpHeap (containers h) (delete d (dirs h)) (deleted h).

(** * weak_ptr_dir *)

Definition new_weak_ptr_dir : weak_ptr_dir := WeakDir 1 1.

Definition dir_acquire (d : Z) (h : sp_heap) : outcome sp_heap :=
  w ← get_dir d h; Ret (put_dir d (WeakDir (u32 (dir_ref w + 1)) (dir_xref w)) h).

Definition dir_release (d : Z) (h : sp_heap) : outcome (Z * sp_heap) :=
  w ← get_dir d h;
  let r := u32 (dir_ref w - 1) in
  Ret (r, put_dir d (WeakDir r (dir_xref w)) h).

(** The loops around cmpxchg end in the first round when nothing else runs. *)
Definition dir_xacquire (d : Z) (h : sp_heap) : outcome (bool * sp_heap) :=
  w ← get_dir d h;
  if dir_xref w =? 0 then Ret (false, h)
  else Ret (true, put_dir d (WeakDir (dir_ref w) (u32 (dir_xref w + 1))) h).

Definition dir_xrelease_or_take_ownership (d : Z) (h : sp_heap) : outcome (bool * sp_heap) :=
  w ← get_dir d h;
  if dir_xref w <=? 1 then Ret (false, h)
  else Ret (true, put_dir d (WeakDir (dir_ref w) (u32 (dir_xref w - 1))) h).

Definition dir_xrelease (d : Z) (h : sp_heap) : outcome (Z * sp_heap) :=
  w ← get_dir d h;
  let x := u32 (dir_xref w - 1) in
  Ret (x, put_dir d (WeakDir (dir_ref w) x) h).

(** A reference of a weak pointer ends. *)
Definition dir_drop (d : Z) (h : sp_heap) : outcome sp_heap :=
  '(r, h) ← dir_release d h;
  Ret (if r =? 0 then delete_dir d h else h).

(** * shared_ptr_container *)

Definition new_container (p : Z) : shared_ptr_container := Container p 1 new_spinlock 0.

Definition set_weak (d : Z) (c : shared_ptr_container) : shared_ptr_container :=
  Container (c_ptr c) (c_ref c) (c_tickets c) d.

Definition container_acquire (a : Z) (h : sp_heap) : outcome sp_heap :=
  c ← get_container a h;
  Ret (put_container a (Container (c_ptr c) (u32 (c_ref c + 1)) (c_tickets c) (c_weak c)) h).

Definition container_release (a : Z) (h : sp_heap) : outcome (Z * sp_heap) :=
  c ← get_container a h;
  let xref := u32 (c_ref c - 1) in
  let c := Container (c_ptr c) xref (c_tickets c) (c_weak c) in
  let h := put_container a c h in
  if (xref =? 0) && negb (c_weak c =? 0) then
    '(x, h) ← dir_xrelease (c_weak c) h;
    if negb (x =? 0) then Ret (1, h)
    else
      h ← dir_drop (c_weak c) h;
      Ret (xref, put_container a (set_weak 0 c) h)
  else Ret (xref, h).

(** The ticket lock; it is free when nothing else runs. *)
Definition container_lock (a : Z) (h : sp_heap) : outcome sp_heap :=
  c ← get_container a h;
  let '(ticket, l) := create_ticket (c_tickets c) in
  if ticket =? now_serving l then Ret (put_container a (Container (c_ptr c) (c_ref c) l (c_weak c)) h)
  else OutOfFuel.

Definition container_unlock (a : Z) (h : sp_heap) : outcome sp_heap :=
  c ← get_container a h;
  Ret (put_container a (Container (c_ptr c) (c_ref c) (release_ticket (c_tickets c)) (c_weak c)) h).

(** delete container: the destructor deletes the object. *)
Definition container_delete (a : Z) (h : sp_heap) : outcome sp_heap :=
  c ← get_container a h;
  Ret (SpHeap (delete a (containers h)) (dirs h)
              (deleted h ++ if c_ptr c =? 0 then [] else [c_ptr c])).

(** * shared_ptr *)

Definition sh_acquire (x : shared_ptr) (h : sp_heap) : outcome sp_heap :=
  if sp_container x =? 0 then Ret h else container_acquire (sp_container x) h.

(** The destructor; the assignments do the same with the old container. *)
Definition sh_destroy (x : shared_ptr) (h : sp_heap) : outcome sp_heap :=
  if sp_container x =? 0 then Ret h
  else
    '(r, h) ← container_release (sp_container x) h;
    if r =? 0 then container_delete (sp_container x) h else Ret h.

Definition sh_new (p a : Z) (h : sp_heap) : shared_ptr * sp_heap :=
  (SharedPtr a p, put_container a (new_container p) h).

Definition sh_copy (x : shared_ptr) (h : sp_heap) : outcome (shared_ptr * sp_heap) :=
  h ← sh_acquire x h; Ret (x, h).

(** The new pointer and the one that is left. *)
Definition sh_move (x : shared_ptr) : shared_ptr * shared_ptr := (x, null_shared).

(** Conversion of pointers: nullptr stays nullptr. *)
Definition convert (conv : Z → Z) (p : Z) : Z := if p =? 0 then 0 else conv p.

Definition sh_copy_conv (conv : Z → Z) (x : shared_ptr) (h : sp_heap) : outcome (shared_ptr * sp_heap) :=
  let p := convert conv (sp_ptr x) in
  if negb (sp_container x =? 0) && negb (p =? 0) then
    h ← container_acquire (sp_container x) h; Ret (SharedPtr (sp_container x) p, h)
  else Ret (null_shared, h).

Definition sh_move_conv (conv : Z → Z) (x : shared_ptr) : shared_ptr * shared_ptr :=
  let p := convert conv (sp_ptr x) in
  if negb (p =? 0) then (SharedPtr (sp_container x) p, null_shared) else (null_shared, x).

Definition sh_assign (old x : shared_ptr) (h : sp_heap) : outcome (shared_ptr * sp_heap) :=
  h ← sh_acquire x h; h ← sh_destroy old h; Ret (x, h).

Definition sh_move_assign (old x : shared_ptr) (h : sp_heap) : outcome (shared_ptr * shared_ptr * sp_heap) :=
  h ← sh_destroy old h; Ret (x, null_shared, h).

Definition sh_assign_conv (conv : Z → Z) (old x : shared_ptr) (h : sp_heap) : outcome (shared_ptr * sp_heap) :=
  let p := convert conv (sp_ptr x) in
  let y := SharedPtr (if p =? 0 then 0 else sp_container x) p in
  h ← sh_acquire y h; h ← sh_destroy old h; Ret (y, h).

Definition sh_move_assign_conv (conv : Z → Z) (old x : shared_ptr) (h : sp_heap)
    : outcome (shared_ptr * shared_ptr * sp_heap) :=
  let '(y, rest) := sh_move_conv conv x in
  h ← sh_destroy old h; Ret (y, rest, h).

Definition sh_assign_ptr (old : shared_ptr) (p a : Z) (h : sp_heap) : outcome (shared_ptr * sp_heap) :=
  let '(x, h) := if p =? 0 then (null_shared, h) else sh_new p a h in
  h ← sh_destroy old h; Ret (x, h).

Definition use_count (x : shared_ptr) (h : sp_heap) : outcome Z :=
  if sp_container x =? 0 then Ret 0 else c ← get_container (sp_container x) h; Ret (c_ref c).

Definition sh_bool (x : shared_ptr) (h : sp_heap) : outcome bool :=
  if sp_container x =? 0 then Ret false
  else c ← get_container (sp_container x) h; Ret (negb (c_ptr c =? 0)).

(** dynamic_pointer_cast: [cast] is what dynamic_cast gives. *)
Definition sh_cast (cast : Z → Z) (x : shared_ptr) (h : sp_heap) : outcome (shared_ptr * sp_heap) :=
  '(cst, h) ← sh_copy_conv cast x h;
  '(y, h) ← sh_copy cst h;
  h ← sh_destroy cst h; Ret (y, h).

Definition sh_cast_move (cast : Z → Z) (x : shared_ptr) (h : sp_heap)
    : outcome (shared_ptr * shared_ptr * sp_heap) :=
  let '(cst, rest) := sh_move_conv cast x in
  '(y, h) ← sh_copy cst h;
  h ← sh_destroy cst h; Ret (y, rest, h).

(** * weak_ptr *)

Definition wk_acquire (w : weak_ptr) (h : sp_heap) : outcome sp_heap :=
  if wp_weak w =? 0 then Ret h else dir_acquire (wp_weak w) h.

Definition wk_destroy (w : weak_ptr) (h : sp_heap) : outcome sp_heap :=
  if wp_weak w =? 0 then Ret h else dir_drop (wp_weak w) h.

(** The directory of the container, which is made if there is none. *)
Definition container_dir (a d : Z) (h : sp_heap) : outcome (Z * sp_heap) :=
  h ← container_lock a h;
  c ← get_container a h;
  let h := if c_weak c =? 0 then put_container a (set_weak d c) (put_dir d new_weak_ptr_dir h) else h in
  h ← container_unlock a h;
  c ← get_container a h; Ret (c_weak c, h).

(** The constructor from a shared pointer, which is passed by value. *)
Definition wk_new (x : shared_ptr) (d : Z) (h : sp_heap) : outcome (weak_ptr * sp_heap) :=
  '(shared, h) ← sh_copy x h;
  b ← sh_bool shared h;
  '(w, h) ←
    (if (b : bool) then
       '(weak, h) ← container_dir (sp_container shared) d h;
       h ← dir_acquire weak h;
       Ret (WeakPtr weak (sp_container shared) (sp_ptr shared), h)
     else Ret (null_weak, h));
  h ← sh_destroy shared h; Ret (w, h).

Definition wk_copy (w : weak_ptr) (h : sp_heap) : outcome (weak_ptr * sp_heap) :=
  h ← wk_acquire w h; Ret (w, h).

Definition wk_move (w : weak_ptr) : weak_ptr * weak_ptr := (w, null_weak).

(** The old reference ends before the new one begins. *)
Definition wk_assign (old w : weak_ptr) (h : sp_heap) : outcome (weak_ptr * sp_heap) :=
  h ← wk_destroy old h; h ← wk_acquire w h; Ret (w, h).

Definition wk_move_assign (old w : weak_ptr) (h : sp_heap) : outcome (weak_ptr * weak_ptr * sp_heap) :=
  h ← wk_destroy old h; Ret (w, null_weak, h).

Definition wk_lock (w : weak_ptr) (h : sp_heap) : outcome (shared_ptr * sp_heap) :=
  if wp_weak w =? 0 then Ret (null_shared, h)
  else
    '(ok, h) ← dir_xacquire (wp_weak w) h;
    if negb ok then Ret (null_shared, h)
    else
      h ← container_acquire (wp_container w) h;
      '(_, h) ← dir_xrelease_or_take_ownership (wp_weak w) h;
      Ret (SharedPtr (wp_container w) (wp_ptr w), h).

(** * Variables *)

Record sp_state := SpState {
  sp_h : sp_heap;
  shareds : gmap nat shared_ptr;
  weaks : gmap nat weak_ptr
}.

Definition sp_init : sp_state := SpState (SpHeap ∅ ∅ []) ∅ ∅.

(** The operations: [v], [u] are shared and [w], [x] weak variables; [a] and
    [d] are the addresses [new] returns. *)
Inductive sp_op :=
| ShDefault (v : nat)
| ShNew (v : nat) (p a : Z)
| ShCopy (v u : nat)
| ShMove (v u : nat)
| ShCopyConv (conv : Z → Z) (v u : nat)
| ShMoveConv (conv : Z → Z) (v u : nat)
| ShAssign (v u : nat)
| ShMoveAssign (v u : nat)
| ShAssignConv (conv : Z → Z) (v u : nat)
| ShMoveAssignConv (conv : Z → Z) (v u : nat)
| ShAssignPtr (v : nat) (p a : Z)
| ShCast (cast : Z → Z) (v u : nat)
| ShCastMove (cast : Z → Z) (v u : nat)
| ShDestroy (v : nat)
| WkDefault (w : nat)
| WkNew (w v : nat) (d : Z)
| WkCopy (w x : nat)
| WkMove (w x : nat)
| WkAssign (w x : nat)
| WkMoveAssign (w x : nat)
| WkDestroy (w : nat)
| WkLock (v w : nat).

Definition get_shared (v : nat) (s : sp_state) : outcome shared_ptr :=
  match shareds s !! v with Some x => Ret x | None => OutOfBounds end.

Definition get_weak (w : nat) (s : sp_state) : outcome weak_ptr :=
  match weaks s !! w with Some x => Ret x | None => OutOfBounds end.

Definition with_shared (s : sp_state) (v : nat) (x : shared_ptr) (h : sp_heap) : sp_state :=
  SpState h (<[v := x]> (shareds s)) (weaks s).

Definition with_weak (s : sp_state) (w : nat) (x : weak_ptr) (h : sp_heap) : sp_state :=
  SpState h (shareds s) (<[w := x]> (weaks s)).

Definition sp_step (op : sp_op) (s : sp_state) : outcome sp_state :=
  let h := sp_h s in
  match op with
  | ShDefault v => Ret (with_shared s v null_shared h)
  | ShNew v p a => let '(x, h) := sh_new p a h in Ret (with_shared s v x h)
  | ShCopy v u => x ← get_shared u s; '(y, h) ← sh_copy x h; Ret (with_shared s v y h)
  | ShMove v u =>
    x ← get_shared u s;
    let '(y, rest) := sh_move x in Ret (with_shared (with_shared s u rest h) v y h)
  | ShCopyConv conv v u => x ← get_shared u s; '(y, h) ← sh_copy_conv conv x h; Ret (with_shared s v y h)
  | ShMoveConv conv v u =>
    x ← get_shared u s;
    let '(y, rest) := sh_move_conv conv x in Ret (with_shared (with_shared s u rest h) v y h)
  | ShAssign v u =>
    if bool_decide (v = u) then Ret s
    else old ← get_shared v s; x ← get_shared u s; '(y, h) ← sh_assign old x h; Ret (with_shared s v y h)
  | ShMoveAssign v u =>
    if bool_decide (v = u) then Ret s
    else old ← get_shared v s; x ← get_shared u s; '(y, rest, h) ← sh_move_assign old x h;
         Ret (with_shared (with_shared s u rest h) v y h)
  | ShAssignConv conv v u =>
    old ← get_shared v s; x ← get_shared u s; '(y, h) ← sh_assign_conv conv old x h; Ret (with_shared s v y h)
  | ShMoveAssignConv conv v u =>
    if bool_decide (v = u) then Ret s
    else old ← get_shared v s; x ← get_shared u s; '(y, rest, h) ← sh_move_assign_conv conv old x h;
         Ret (with_shared (with_shared s u rest h) v y h)
  | ShAssignPtr v p a =>
    old ← get_shared v s; '(y, h) ← sh_assign_ptr old p a h; Ret (with_shared s v y h)
  | ShCast cast v u => x ← get_shared u s; '(y, h) ← sh_cast cast x h; Ret (with_shared s v y h)
  | ShCastMove cast v u =>
    x ← get_shared u s; '(y, rest, h) ← sh_cast_move cast x h;
    Ret (with_shared (with_shared s u rest h) v y h)
  | ShDestroy v => x ← get_shared v s; h ← sh_destroy x h; Ret (SpState h (delete v (shareds s)) (weaks s))
  | WkDefault w => Ret (with_weak s w null_weak h)
  | WkNew w v d => x ← get_shared v s; '(y, h) ← wk_new x d h; Ret (with_weak s w y h)
  | WkCopy w x => y ← get_weak x s; '(y, h) ← wk_copy y h; Ret (with_weak s w y h)
  | WkMove w x =>
    y ← get_weak x s;
    let '(y, rest) := wk_move y in Ret (with_weak (with_weak s x rest h) w y h)
  | WkAssign w x =>
    if bool_decide (w = x) then Ret s
    else old ← get_weak w s; y ← get_weak x s; '(y, h) ← wk_assign old y h; Ret (with_weak s w y h)
  | WkMoveAssign w x =>
    if bool_decide (w = x) then Ret s
    else old ← get_weak w s; y ← get_weak x s; '(y, rest, h) ← wk_move_assign old y h;
         Ret (with_weak (with_weak s x rest h) w y h)
  | WkDestroy w => y ← get_weak w s; h ← wk_destroy y h; Ret (SpState h (shareds s) (delete w (weaks s)))
  | WkLock v w => y ← get_weak w s; '(x, h) ← wk_lock y h; Ret (with_shared s v x h)
  end.

Fixpoint sp_run (ops : list sp_op) (s : sp_state) : outcome sp_state :=
  match ops with
  | [] => Ret s
  | op :: ops => s ← sp_step op s; sp_run ops s
  end.
