(* ===== verification/SharedPtrInv.v ===== *)
(** The invariant of shared pointers: a container exists as long as a
    variable owns it and its counter is the number of owners; a directory
    exists as long as its container or a weak pointer refers to it. *)
From S2P Require Import Prelude Spinlock SharedPtr.

Local Open Scope Z_scope.

(** * Counting owners *)

Definition one (x : shared_ptr) (a : Z) : Z := if sp_container x =? a then 1 else 0.
Definition wone (x : weak_ptr) (d : Z) : Z := if wp_weak x =? d then 1 else 0.

Definition total {A} (f : A → Z) (m : gmap nat A) : Z := map_fold (λ _ x n, f x + n) 0 m.

Section total.

Context {A : Type} (f : A → Z).

Lemma total_insert (m : gmap nat A) v x : m !! v = None → total f (<[v := x]> m) = f x + total f m.
Proof. intros Hv. unfold total. apply (map_fold_insert_L (λ _ x n, f x + n) 0 v x m); [intros; lia|done]. Qed.

Lemma total_delete (m : gmap nat A) v x : m !! v = Some x → total f (delete v m) = total f m - f x.
Proof.
  intros Hv. rewrite <- (insert_delete_id m v x Hv) at 2. rewrite total_insert by apply lookup_delete_eq. lia.
Qed.

Lemma total_update (m : gmap nat A) v x y :
  m !! v = Some x → total f (<[v := y]> m) = total f m - f x + f y.
Proof.
  intros Hv. rewrite <- insert_delete_eq, total_insert by apply lookup_delete_eq.
  rewrite (total_delete m v x) by done. lia.
Qed.

Lemma total_ge (m : gmap nat A) v x : (∀ y, 0 ≤ f y) → m !! v = Some x → f x ≤ total f m.
Proof.
  intros Hf. revert v x. induction m as [|u y m Hu IH] using map_ind; intros v x.
  - by rewrite lookup_empty.
  - rewrite total_insert by done. intros [[<- ->]|[_ H]]%lookup_insert_Some.
    + clear IH. assert (0 ≤ total f m); [|lia].
      clear Hu. induction m as [|u' y' m Hu' IH] using map_ind; [done|].
      rewrite total_insert by done. specialize (Hf y'). lia.
    + specialize (IH v x H). specialize (Hf y). lia.
Qed.

Lemma total_le (m : gmap nat A) : (∀ y, f y ≤ 1) → total f m ≤ Z.of_nat (size m).
Proof.
  intros Hf. induction m as [|u y m Hu IH] using map_ind; [done|].
  rewrite total_insert, map_size_insert_None by done. specialize (Hf y). lia.
Qed.

Lemma total_pos (m : gmap nat A) : total f m ≠ 0 → ∃ v x, m !! v = Some x ∧ f x ≠ 0.
Proof.
  induction m as [|u y m Hu IH] using map_ind; [done|]. rewrite total_insert by done. intros H.
  destruct (decide (f y = 0)) as [E|E].
  - destruct IH as (v & x & Hv & Hx); [lia|]. exists v, x. split; [|done].
    rewrite lookup_insert_ne; congruence.
  - exists u, y. by rewrite lookup_insert_eq.
Qed.

End total.

Definition owners (s : sp_state) (a : Z) : Z := total (λ x, one x a) (shareds s).
Definition weak_owners (s : sp_state) (d : Z) : Z := total (λ x, wone x d) (weaks s).

Lemma one_range x a : 0 ≤ one x a ≤ 1.
Proof. unfold one. destruct (_ =? _); lia. Qed.

Lemma wone_range x a : 0 ≤ wone x a ≤ 1.
Proof. unfold wone. destruct (_ =? _); lia. Qed.

Lemma one_self x : one x (sp_container x) = 1.
Proof. unfold one. by rewrite Z.eqb_refl. Qed.

Lemma one_ne x a : a ≠ sp_container x → one x a = 0.
Proof. intros H. unfold one. by destruct (Z.eqb_spec (sp_container x) a); [subst|]. Qed.

(** * The invariant *)

Definition idle (l : spinlock) : Prop := next_ticket l = now_serving l ∧ is_u 32 (now_serving l).

(** The heap fits to [own a] owners of container [a] and [wown d] weak
    pointers with the directory [d]. *)
Record heap_ok (h : sp_heap) (own wown : Z → Z) : Prop := {
  ho_container : ∀ a c, containers h !! a = Some c →
    a ≠ 0 ∧ c_ref c = own a ∧ 0 < own a < 2 ^ 32 ∧ idle (c_tickets c);
  ho_owned : ∀ a, a ≠ 0 → own a ≠ 0 → is_Some (containers h !! a);
  ho_link : ∀ a c, containers h !! a = Some c → c_weak c ≠ 0 →
    ∃ w, dirs h !! c_weak c = Some w ∧ dir_xref w = 1;
  ho_inj : ∀ a a' c c', containers h !! a = Some c → containers h !! a' = Some c' →
    c_weak c = c_weak c' → c_weak c ≠ 0 → a = a';
  ho_dir : ∀ d w, dirs h !! d = Some w →
    d ≠ 0 ∧ dir_ref w = wown d + dir_xref w ∧ 0 < dir_ref w < 2 ^ 32 ∧ 0 ≤ wown d ∧
    (dir_xref w = 0 ∨ dir_xref w = 1 ∧ ∃ a c, containers h !! a = Some c ∧ c_weak c = d);
  ho_wowned : ∀ d, d ≠ 0 → wown d ≠ 0 → is_Some (dirs h !! d)
}.

Lemma heap_ok_ext h own own' wown wown' :
  heap_ok h own wown → (∀ a, a ≠ 0 → own a = own' a) → (∀ d, d ≠ 0 → wown d = wown' d) → heap_ok h own' wown'.
Proof.
  intros [Hc Ho Hl Hi Hd Hw] E E'. constructor; [|..|].
  - intros a c H. destruct (Hc a c H) as (? & ? & ? & ?). by rewrite <- (E a).
  - intros a Ha. rewrite <- (E a) by done. by apply Ho.
  - done.
  - done.
  - intros d w H. destruct (Hd d w H) as (? & ? & ? & ?). by rewrite <- (E' d).
  - intros d Hne. rewrite <- (E' d) by done. by apply Hw.
Qed.

(** What a heap may become in one operation: the container at [g] may go,
    and its object is then deleted; all others stay, and may get a directory
    that is new. *)
Record evolves (g : option Z) (h h' : sp_heap) : Prop := {
  ev_deleted : deleted h' = deleted h ++
    match g ≫= λ a, containers h !! a with
    | Some c => if c_ptr c =? 0 then [] else [c_ptr c]
    | None => []
    end;
  ev_stays : ∀ a c, containers h !! a = Some c →
    match containers h' !! a with
    | Some c' => g ≠ Some a ∧ c_ptr c' = c_ptr c ∧
                 (c_weak c' = c_weak c ∨ c_weak c = 0 ∧ dirs h !! c_weak c' = None)
    | None => g = Some a
    end;
  ev_new : ∀ a c', containers h' !! a = Some c' → containers h !! a = None →
    c_weak c' = 0 ∨ dirs h !! c_weak c' = None
}.

Lemma evolves_refl h : evolves None h h.
Proof.
  constructor; simpl; [by rewrite app_nil_r| |congruence].
  intros a c ->. by split_and!; [|..|left].
Qed.

Lemma evolves_trans g h1 h2 h3 :
  evolves None h1 h2 → evolves g h2 h3 → (∀ x, dirs h2 !! x = None → dirs h1 !! x = None) →
  (∀ a, g = Some a → is_Some (containers h1 !! a)) → evolves g h1 h3.
Proof.
  intros [D1 S1 N1] [D2 S2 N2] Hd Hg. constructor.
  - rewrite D2, D1. simpl. rewrite app_nil_r. f_equal. destruct g as [a|]; [|done]. simpl.
    destruct (Hg a eq_refl) as [c Hc]. specialize (S1 a c Hc). rewrite Hc.
    destruct (containers h2 !! a) as [c'|]; [|done]. by destruct S1 as (_ & -> & _).
  - intros a c Hc. specialize (S1 a c Hc). destruct (containers h2 !! a) as [c'|] eqn:E; [|done].
    specialize (S2 a c' E). destruct (containers h3 !! a) as [c''|] eqn:E3; [|done].
    destruct S1 as (_ & Hp & Hw), S2 as (? & Hp' & Hw'). split_and!; [done|congruence|].
    destruct Hw' as [->|[H0 Hn]]; [done|]. destruct Hw as [Hw|[Hw0 _]].
    + right. rewrite <- Hw. auto.
    + right. auto.
  - intros a c' Hc' Hn. destruct (containers h2 !! a) as [c2|] eqn:E; [|destruct (N2 a c' Hc' E); auto].
    specialize (S2 a c2 E). rewrite Hc' in S2. destruct S2 as (_ & _ & [->|[_ Hx]]); [|auto]. destruct (N1 a c2 E Hn); auto.
Qed.

(** * Operations on one container or directory *)

Definition upd_fn (f : Z → Z) (a n : Z) : Z → Z := λ x, if a =? x then n else f x.

Lemma upd_fn_eq f a n : upd_fn f a n a = n.
Proof. unfold upd_fn. by rewrite Z.eqb_refl. Qed.

Lemma upd_fn_ne f a n x : a ≠ x → upd_fn f a n x = f x.
Proof. unfold upd_fn. by intros ?%Z.eqb_neq; case_match. Qed.

(** The counter or the tickets of a container change. *)
Lemma put_container_ok h own wown a c c' :
  heap_ok h own wown → containers h !! a = Some c → c_weak c' = c_weak c → c_ptr c' = c_ptr c →
  idle (c_tickets c') → 0 < c_ref c' < 2 ^ 32 →
  heap_ok (put_container a c' h) (upd_fn own a (c_ref c')) wown ∧ evolves None h (put_container a c' h).
Proof.
  intros H Ha Hw Hp Hi Hr. pose proof H as [Hc Ho Hl Hj Hd Hwo]. destruct (Hc a c Ha) as (Ha0 & _).
  assert (∀ x c'', <[a := c']> (containers h) !! x = Some c'' →
          ∃ c0, containers h !! x = Some c0 ∧ c_weak c'' = c_weak c0) as Hback.
  { intros x c'' [[<- <-]|[_ E]]%lookup_insert_Some; eauto. }
  split; constructor; simpl.
  - intros x c'' [[<- <-]|[Hne E]]%lookup_insert_Some; [by rewrite upd_fn_eq|].
    rewrite upd_fn_ne by done. by apply Hc.
  - intros x Hx Hox. destruct (decide (a = x)) as [<-|Hne]; [by rewrite lookup_insert_eq; eauto|].
    rewrite lookup_insert_ne by done. rewrite upd_fn_ne in Hox by done. by apply Ho.
  - intros x c'' (c0 & E & ->)%Hback. eauto.
  - intros x x' c1 c2 (c3 & E & ->)%Hback (c4 & E' & ->)%Hback. eauto.
  - intros d w E. destruct (Hd d w E) as (? & ? & ? & ? & Hx). split_and!; try done; try lia.
    destruct Hx as [?|(? & x & c0 & Hx & Hxw)]; [by left|right]. split; [done|].
    destruct (decide (a = x)) as [<-|Hne].
    + exists a, c'. rewrite lookup_insert_eq. split; [done|congruence].
    + exists x, c0. by rewrite lookup_insert_ne.
  - done.
  - by rewrite app_nil_r.
  - intros x c0 E. destruct (decide (a = x)) as [<-|Hne].
    + rewrite lookup_insert_eq. split_and!; [done|congruence|left; congruence].
    + rewrite lookup_insert_ne, E by done. by split_and!; [|..|left].
  - intros x c0 [[<- <-]|[_ E]]%lookup_insert_Some; congruence.
Qed.

Lemma sh_acquire_ok h own wown x :
  heap_ok h own wown → (sp_container x ≠ 0 → 0 < own (sp_container x) < 2 ^ 32 - 1) →
  ∃ h', sh_acquire x h = Ret h' ∧ heap_ok h' (λ a, own a + one x a) wown ∧ evolves None h h' ∧
        dirs h' = dirs h.
Proof.
  intros H Hx. unfold sh_acquire. destruct (Z.eqb_spec (sp_container x) 0) as [E|E].
  - exists h. split_and!; [done| |apply evolves_refl|done].
    eapply heap_ok_ext; [exact H| |done]. intros a Ha. rewrite one_ne; [lia|congruence].
  - specialize (Hx E). destruct (ho_owned _ _ _ H (sp_container x) E) as [c Hc]; [lia|].
    destruct (ho_container _ _ _ H _ _ Hc) as (_ & Hr & _ & Hi).
    unfold container_acquire, get_container. rewrite Hc. cbn [mbind outcome_bind].
    assert (u32 (c_ref c + 1) = own (sp_container x) + 1) as Eu by (rewrite wrap_id; [lia|unfold is_u; lia]).
    eexists. split; [done|].
    destruct (put_container_ok h own wown (sp_container x) c
      (Container (c_ptr c) (u32 (c_ref c + 1)) (c_tickets c) (c_weak c))) as [H' Hev]; simpl; [done..|lia|].
    split_and!; [|exact Hev|done]. eapply heap_ok_ext; [exact H'| |done]. simpl. intros a _. rewrite Eu.
    unfold upd_fn, one. destruct (Z.eqb_spec (sp_container x) a) as [<-|]; lia.
Qed.

(** A container without owners goes, together with its share of the
    directory. *)
Lemma delete_ok h own wown a c ds :
  heap_ok h own wown → containers h !! a = Some c → own a = 1 →
  ds = (if c_weak c =? 0 then dirs h
        else if wown (c_weak c) =? 0 then delete (c_weak c) (dirs h)
        else <[c_weak c := WeakDir (wown (c_weak c)) 0]> (dirs h)) →
  heap_ok (SpHeap (delete a (containers h)) ds (deleted h ++ if c_ptr c =? 0 then [] else [c_ptr c]))
          (upd_fn own a 0) wown.
Proof.
  intros H Ha Hown ->. pose proof H as [Hc Ho Hl Hj Hd Hwo].
  assert (∀ d w, d ≠ c_weak c → (if c_weak c =? 0 then dirs h
        else if wown (c_weak c) =? 0 then delete (c_weak c) (dirs h)
        else <[c_weak c := WeakDir (wown (c_weak c)) 0]> (dirs h)) !! d = Some w ↔ dirs h !! d = Some w) as Hds.
  { intros d w Hd'. repeat case_match; [done|by rewrite lookup_delete_ne|by rewrite lookup_insert_ne]. }
  constructor; simpl.
  - intros x c' [Hne E]%lookup_delete_Some. rewrite upd_fn_ne by done. by apply Hc.
  - intros x Hx Hox. destruct (decide (a = x)) as [<-|Hne]; [by rewrite upd_fn_eq in Hox|].
    rewrite upd_fn_ne in Hox by done. rewrite lookup_delete_ne by done. by apply Ho.
  - intros x c' [Hne E]%lookup_delete_Some Hw. destruct (Hl x c' E Hw) as (w & Hw' & Hx).
    exists w. split; [|done]. apply Hds; [|done]. intros E'. apply Hne. symmetry. by eapply Hj.
  - intros x x' c1 c2 [_ E]%lookup_delete_Some [_ E']%lookup_delete_Some. eauto.
  - intros d w. destruct (decide (d = c_weak c)) as [->|Hne].
    + destruct (Z.eqb_spec (c_weak c) 0) as [E0|E0]; [intros E; by destruct (Hd _ _ E)|].
      destruct (Hl a c Ha E0) as (w0 & Hw0 & _). destruct (Hd _ _ Hw0) as (_ & ? & ? & ? & _).
      destruct (Z.eqb_spec (wown (c_weak c)) 0) as [E1|E1]; [by rewrite lookup_delete_eq|].
      rewrite lookup_insert_eq. intros [= <-]. simpl. assert (dir_xref w0 = 1) as Hx by
        (destruct (Hl a c Ha E0) as (w1 & ? & ?); congruence). split_and!; try done; try lia.
    + intros E%Hds; [|done]. destruct (Hd d w E) as (? & ? & ? & ? & Hx). split_and!; try done; try lia.
      destruct Hx as [?|(? & x & c0 & Hx & <-)]; [by left|right]. split; [done|]. exists x, c0.
      rewrite lookup_delete_ne; [done|congruence].
  - intros d Hd0 Hwd. destruct (decide (d = c_weak c)) as [->|Hne].
    + repeat case_match; bsimp; [done|done|rewrite lookup_insert_eq; eauto].
    + destruct (Hwo d Hd0 Hwd) as [w Hw]. exists w. by apply Hds.
Qed.

(** The last owner: release and delete, in one step. *)
Lemma release_last h own wown a c :
  heap_ok h own wown → containers h !! a = Some c → own a = 1 →
  sh_destroy (SharedPtr a (c_ptr c)) h =
  Ret (SpHeap (delete a (containers h))
         (if c_weak c =? 0 then dirs h
          else if wown (c_weak c) =? 0 then delete (c_weak c) (dirs h)
          else <[c_weak c := WeakDir (wown (c_weak c)) 0]> (dirs h))
         (deleted h ++ if c_ptr c =? 0 then [] else [c_ptr c])).
Proof.
  intros H Ha Hown. destruct (ho_container _ _ _ H a c Ha) as (Ha0 & Hr & _).
  unfold sh_destroy, container_release, get_container. cbn [sp_container].
  rewrite (proj2 (Z.eqb_neq a 0) Ha0), Ha. cbn [mbind outcome_bind c_weak].
  assert (u32 (c_ref c - 1) = 0) as -> by (rewrite Hr, Hown; done). rewrite Z.eqb_refl, andb_true_l.
  destruct (Z.eqb_spec (c_weak c) 0) as [E0|E0]; cbn [negb mbind outcome_bind].
  - unfold container_delete, get_container. cbn [put_container containers dirs deleted].
    rewrite Z.eqb_refl, lookup_insert_eq. cbn [mbind outcome_bind c_ptr]. by rewrite delete_insert_eq.
  - destruct (ho_link _ _ _ H a c Ha E0) as (w & Hw & Hx). destruct (ho_dir _ _ _ H _ _ Hw) as (_ & Hrw & Hb & _).
    unfold dir_drop, dir_xrelease, dir_release, get_dir. cbn [put_container dirs]. rewrite Hw.
    cbn [mbind outcome_bind]. rewrite Hx. change (u32 (1 - 1)) with 0. rewrite Z.eqb_refl.
    cbn [negb put_dir dirs]. rewrite lookup_insert_eq. cbn [mbind outcome_bind dir_ref dir_xref].
    rewrite (wrap_id 32 (dir_ref w - 1)) by (unfold is_u; lia).
    replace (dir_ref w - 1) with (wown (c_weak c)) by lia.
    unfold container_delete, get_container.
    destruct (wown (c_weak c) =? 0); cbn [delete_dir put_dir put_container containers dirs deleted];
      rewrite Z.eqb_refl, lookup_insert_eq; cbn [mbind outcome_bind c_ptr set_weak];
      by rewrite ?insert_insert_eq, !delete_insert_eq.
Qed.

Lemma sh_destroy_ok h own wown x :
  heap_ok h own wown → (sp_container x ≠ 0 → 0 < own (sp_container x)) →
  ∃ h', sh_destroy x h = Ret h' ∧ heap_ok h' (λ a, own a - one x a) wown ∧
        evolves (if negb (sp_container x =? 0) && (own (sp_container x) =? 1)
                 then Some (sp_container x) else None) h h'.
Proof.
  intros H Hx. destruct (Z.eqb_spec (sp_container x) 0) as [E|E]; cbn [negb andb].
  { exists h. unfold sh_destroy. rewrite E. split_and!; [done| |apply evolves_refl].
    eapply heap_ok_ext; [exact H| |done]. intros a Ha. rewrite one_ne; [lia|congruence]. }
  specialize (Hx E). destruct (ho_owned _ _ _ H (sp_container x) E) as [c Hc]; [lia|].
  destruct (ho_container _ _ _ H _ _ Hc) as (_ & Hr & Hb & Hi).
  destruct (Z.eqb_spec (own (sp_container x)) 1) as [E1|E1].
  - pose proof (release_last h own wown _ c H Hc E1) as Ed. unfold sh_destroy in *. cbn [sp_container] in Ed.
    rewrite Ed. eexists. split; [done|]. split.
    + eapply heap_ok_ext; [by eapply delete_ok| |done]. intros a _. unfold upd_fn, one.
      destruct (Z.eqb_spec (sp_container x) a) as [<-|]; lia.
    + constructor; simpl.
      * by rewrite Hc.
      * intros a c0 Ha. destruct (decide (sp_container x = a)) as [<-|Hne]; [by rewrite lookup_delete_eq|].
        rewrite lookup_delete_ne, Ha by done. split_and!; [congruence|done|by left].
      * intros a c' [_ Ha]%lookup_delete_Some. congruence.
  - unfold sh_destroy, container_release, get_container. rewrite (proj2 (Z.eqb_neq _ _) E), Hc.
    cbn [mbind outcome_bind c_weak]. rewrite (wrap_id 32 (c_ref c - 1)) by (unfold is_u; lia).
    rewrite (proj2 (Z.eqb_neq (c_ref c - 1) 0)) by lia. cbn [andb mbind outcome_bind].
    rewrite (proj2 (Z.eqb_neq (c_ref c - 1) 0)) by lia. eexists. split; [done|].
    destruct (put_container_ok h own wown (sp_container x) c
      (Container (c_ptr c) (c_ref c - 1) (c_tickets c) (c_weak c))) as [H' Hev]; simpl; [done..|lia|].
    split; [|exact Hev]. eapply heap_ok_ext; [exact H'| |done]. simpl. intros a _.
    unfold upd_fn, one. destruct (Z.eqb_spec (sp_container x) a) as [<-|]; lia.
Qed.

(** A new container with one owner. *)
Lemma sh_new_ok h own wown p a :
  heap_ok h own wown → a ≠ 0 → containers h !! a = None →
  heap_ok (put_container a (new_container p) h) (λ x, own x + one (SharedPtr a p) x) wown ∧
  evolves None h (put_container a (new_container p) h).
Proof.
  intros H Ha Hn. pose proof H as [Hc Ho Hl Hj Hd Hwo].
  assert (own a = 0) as Hz.
  { destruct (decide (own a = 0)) as [|Hne]; [done|]. destruct (Ho a Ha Hne). congruence. }
  split; constructor; simpl.
  - intros x c [[<- <-]|[Hne E]]%lookup_insert_Some.
    + unfold one. simpl. rewrite Z.eqb_refl, Hz. unfold idle, is_u. by simpl.
    + rewrite one_ne, Z.add_0_r by (simpl; congruence). by apply Hc.
  - intros x Hx Hox. destruct (decide (a = x)) as [<-|Hne]; [by rewrite lookup_insert_eq; eauto|].
    rewrite one_ne in Hox by (simpl; congruence). rewrite lookup_insert_ne by done. apply Ho; [done|lia].
  - intros x c [[<- <-]|[Hne E]]%lookup_insert_Some; [done|]. by eapply Hl.
  - intros x x' c1 c2 [[<- <-]|[Hne E]]%lookup_insert_Some [[<- <-]|[Hne' E']]%lookup_insert_Some; simpl;
      [done|congruence|done|eauto].
  - intros d w E. destruct (Hd d w E) as (? & ? & ? & ? & Hx). split_and!; try done; try lia.
    destruct Hx as [?|(? & x & c0 & Hx & Hxw)]; [by left|right]. split; [done|]. exists x, c0.
    rewrite lookup_insert_ne; [done|congruence].
  - done.
  - by rewrite app_nil_r.
  - intros x c0 E. rewrite lookup_insert_ne, E by congruence. by split_and!; [|..|left].
  - intros x c0 [[<- <-]|[_ E]]%lookup_insert_Some; [by left|congruence].
Qed.

(** The number of weak pointers in a directory changes. *)
Lemma put_dir_ok h own wown d w n :
  heap_ok h own wown → dirs h !! d = Some w → 0 ≤ n → 0 < n + dir_xref w < 2 ^ 32 →
  heap_ok (put_dir d (WeakDir (n + dir_xref w) (dir_xref w)) h) own (upd_fn wown d n).
Proof.
  intros H Hw Hn Hb. pose proof H as [Hc Ho Hl Hj Hd Hwo]. constructor; simpl; [done|done| |done| |].
  - intros a c Ha Hcw. destruct (Hl a c Ha Hcw) as (w' & Hw' & Hx). destruct (decide (d = c_weak c)) as [->|Hne].
    + rewrite lookup_insert_eq. eexists. split; [done|]. simpl. congruence.
    + rewrite lookup_insert_ne by done. eauto.
  - intros x w' [[<- <-]|[Hne E]]%lookup_insert_Some; simpl.
    + rewrite upd_fn_eq. destruct (Hd d w Hw) as (? & _ & _ & _ & Hx). split_and!; try done; lia.
    + rewrite upd_fn_ne by done. by apply Hd.
  - intros x Hx Hwx. destruct (decide (d = x)) as [<-|Hne]; [by rewrite lookup_insert_eq; eauto|].
    rewrite lookup_insert_ne by done. rewrite upd_fn_ne in Hwx by done. by apply Hwo.
Qed.

Lemma evolves_dirs h ds : evolves None h (SpHeap (containers h) ds (deleted h)).
Proof.
  constructor; simpl; [by rewrite app_nil_r| |congruence]. intros a c ->. by split_and!; [|..|left].
Qed.

Lemma dir_acquire_ok h own wown x :
  heap_ok h own wown → wp_weak x ≠ 0 → is_Some (dirs h !! wp_weak x) → wown (wp_weak x) < 2 ^ 32 - 2 →
  ∃ h', dir_acquire (wp_weak x) h = Ret h' ∧ heap_ok h' own (λ d, wown d + wone x d) ∧
        containers h' = containers h ∧ deleted h' = deleted h.
Proof.
  intros H E [w Hw] Hb. destruct (ho_dir _ _ _ H _ _ Hw) as (_ & Hr & Hrb & Hw0 & Hx).
  unfold dir_acquire, get_dir. rewrite Hw. cbn [mbind outcome_bind]. eexists. split; [done|].
  assert (u32 (dir_ref w + 1) = wown (wp_weak x) + 1 + dir_xref w) as -> by (rewrite wrap_id; [lia|unfold is_u; lia]).
  split; [|done]. eapply heap_ok_ext; [apply put_dir_ok; [exact H|exact Hw|lia|lia]|done|]. intros d _.
  unfold upd_fn, wone. destruct (Z.eqb_spec (wp_weak x) d) as [<-|]; lia.
Qed.

Lemma wk_acquire_ok h own wown x :
  heap_ok h own wown → (wp_weak x ≠ 0 → is_Some (dirs h !! wp_weak x) ∧ wown (wp_weak x) < 2 ^ 32 - 2) →
  ∃ h', wk_acquire x h = Ret h' ∧ heap_ok h' own (λ d, wown d + wone x d) ∧
        containers h' = containers h ∧ deleted h' = deleted h.
Proof.
  intros H Hx. unfold wk_acquire. destruct (Z.eqb_spec (wp_weak x) 0) as [E|E].
  - exists h. split_and!; [done| |done..]. eapply heap_ok_ext; [exact H|done|]. intros d Hd. unfold wone.
    destruct (Z.eqb_spec (wp_weak x) d); [congruence|lia].
  - destruct (Hx E). by apply dir_acquire_ok.
Qed.

Lemma wk_destroy_ok h own wown x :
  heap_ok h own wown → (wp_weak x ≠ 0 → 0 < wown (wp_weak x)) →
  ∃ h', wk_destroy x h = Ret h' ∧ heap_ok h' own (λ d, wown d - wone x d) ∧
        containers h' = containers h ∧ deleted h' = deleted h ∧
        ∀ d, d ≠ wp_weak x → dirs h' !! d = dirs h !! d.
Proof.
  intros H Hx. unfold wk_destroy. destruct (Z.eqb_spec (wp_weak x) 0) as [E|E].
  { exists h. split_and!; [done| |done..]. eapply heap_ok_ext; [exact H|done|]. intros d Hd. unfold wone.
    destruct (Z.eqb_spec (wp_weak x) d); [congruence|lia]. }
  specialize (Hx E). destruct (ho_wowned _ _ _ H _ E) as [w Hw]; [lia|].
  destruct (ho_dir _ _ _ H _ _ Hw) as (_ & Hr & Hrb & Hw0 & Hxr).
  unfold dir_drop, dir_release, get_dir. rewrite Hw. cbn [mbind outcome_bind].
  rewrite (wrap_id 32 (dir_ref w - 1)) by (unfold is_u; lia).
  destruct (Z.eqb_spec (dir_ref w - 1) 0) as [E1|E1]; eexists; (split; [done|]).
  - assert (dir_xref w = 0 ∧ wown (wp_weak x) = 1) as [Hx0 Hw1] by lia.
    split_and!; [|done|done|].
    2:{ intros d Hd. simpl. by rewrite lookup_delete_ne, lookup_insert_ne. }
    destruct H as [Hc Ho Hl Hj Hd Hwo]. constructor; simpl; [done|done| |done| |].
    + intros a c Ha Hcw. destruct (Hl a c Ha Hcw) as (w' & Hw' & Hx'). exists w'. split; [|done].
      rewrite lookup_delete_ne, lookup_insert_ne; [done|..]; intros E'; rewrite E' in *; congruence.
    + intros d w' [Hne Hd']%lookup_delete_Some. rewrite lookup_insert_ne in Hd' by done.
      unfold wone. rewrite (proj2 (Z.eqb_neq _ _) Hne), Z.sub_0_r. by apply Hd.
    + intros d Hd0. unfold wone. destruct (Z.eqb_spec (wp_weak x) d) as [<-|Hne]; [lia|].
      rewrite Z.sub_0_r, lookup_delete_ne, lookup_insert_ne by done. by apply Hwo.
  - split_and!; [|done|done|].
    2:{ intros d Hd. simpl. by rewrite lookup_insert_ne. }
    replace (dir_ref w - 1) with (wown (wp_weak x) - 1 + dir_xref w) by lia.
    eapply heap_ok_ext; [apply put_dir_ok; [exact H|exact Hw|lia|lia]|done|]. intros d _.
    unfold upd_fn, wone. destruct (Z.eqb_spec (wp_weak x) d) as [<-|]; lia.
Qed.

(** A container gets its directory. *)
Lemma new_dir_ok h own wown a c d :
  heap_ok h own wown → containers h !! a = Some c → c_weak c = 0 → d ≠ 0 → dirs h !! d = None →
  heap_ok (put_container a (set_weak d c) (put_dir d new_weak_ptr_dir h)) own wown ∧
  evolves None h (put_container a (set_weak d c) (put_dir d new_weak_ptr_dir h)).
Proof.
  intros H Ha Hc0 Hd0 Hn. pose proof H as [Hc Ho Hl Hj Hd Hwo].
  assert (wown d = 0) as Hz.
  { destruct (decide (wown d = 0)) as [|Hne]; [done|]. destruct (Hwo d Hd0 Hne). congruence. }
  assert (∀ x c', containers h !! x = Some c' → c_weak c' ≠ d) as Hnd.
  { intros x c' Hx <-. destruct (Hl x c' Hx Hd0) as (? & ? & _). congruence. }
  split; constructor; simpl.
  - intros x c' [[<- <-]|[Hne E]]%lookup_insert_Some; [by apply (Hc a c)|by apply Hc].
  - intros x Hx Hox. destruct (Ho x Hx Hox) as [c' Hc']. destruct (decide (a = x)) as [<-|Hne];
      [by rewrite lookup_insert_eq; eauto|]. rewrite lookup_insert_ne by done. eauto.
  - intros x c' [[<- <-]|[Hne E]]%lookup_insert_Some; simpl; intros Hw.
    + rewrite lookup_insert_eq. eauto.
    + rewrite lookup_insert_ne by (symmetry; by eapply Hnd). eauto.
  - intros x x' c1 c2 [[<- <-]|[Hne E]]%lookup_insert_Some [[<- <-]|[Hne' E']]%lookup_insert_Some; simpl; [done|..|eauto].
    + intros E1. by destruct (Hnd x' c2 E').
    + intros E1. by destruct (Hnd x c1 E).
  - intros x w [[<- <-]|[Hne E]]%lookup_insert_Some; simpl.
    + split_and!; [done|lia..|]. right. split; [done|]. exists a, (set_weak d c). by rewrite lookup_insert_eq.
    + destruct (Hd x w E) as (? & ? & ? & ? & Hx). split_and!; try done; try lia.
      destruct Hx as [?|(? & y & c0 & Hy & Hyw)]; [by left|right]. split; [done|]. exists y, c0.
      rewrite lookup_insert_ne; [done|]. intros <-. congruence.
  - intros x Hx Hwx. destruct (Hwo x Hx Hwx). rewrite lookup_insert_ne by congruence. eauto.
  - by rewrite app_nil_r.
  - intros x c0 E. destruct (decide (a = x)) as [<-|Hne].
    + rewrite lookup_insert_eq. simpl. rewrite Ha in E. injection E as <-. split_and!; [done|done|by right].
    + rewrite lookup_insert_ne, E by done. by split_and!; [|..|left].
  - intros x c0 [[<- <-]|[_ E]]%lookup_insert_Some; congruence.
Qed.
