(* ===== verification/SharedPtrTheorems.v ===== *)
(** Shared pointers: every operation keeps the invariant of
    SharedPtrInv.v, deletes an object exactly when its last owner goes, and
    weak pointers give the object out exactly as long as it has an owner. *)
From S2P Require Import Prelude Spinlock SharedPtr SharedPtrInv.

Local Open Scope Z_scope.

(** * Weak pointers *)

Lemma idle_turn l : idle l → idle (release_ticket (snd (create_ticket l))).
Proof.
  intros [E Hu]. unfold idle, create_ticket, release_ticket. simpl. rewrite E. split; [done|by apply is_u_wrap].
Qed.

Lemma container_dir_ok h own wown a c d :
  heap_ok h own wown → containers h !! a = Some c → d ≠ 0 → dirs h !! d = None →
  ∃ d' h' c', container_dir a d h = Ret (d', h') ∧ heap_ok h' own wown ∧ evolves None h h' ∧
    containers h' !! a = Some c' ∧ c_weak c' = d' ∧ d' ≠ 0 ∧ (∀ x, dirs h' !! x = None → dirs h !! x = None).
Proof.
  intros H Ha Hd0 Hd. destruct (ho_container _ _ _ H a c Ha) as (Ha0 & Hr & Hb & Hi).
  pose proof (idle_turn _ Hi) as Hi'. destruct Hi as [Et _].
  unfold container_dir, container_lock, get_container. rewrite Ha. cbn [mbind outcome_bind].
  unfold create_ticket in *. cbn [snd now_serving] in *. rewrite Et, Z.eqb_refl. rewrite Et in Hi'.
  cbn [mbind outcome_bind put_container containers]. rewrite lookup_insert_eq. cbn [mbind outcome_bind c_weak].
  unfold container_unlock, get_container.
  destruct (Z.eqb_spec (c_weak c) 0) as [E|E].
  - cbn [put_container put_dir containers dirs deleted set_weak c_ptr c_ref c_tickets c_weak].
    rewrite lookup_insert_eq. cbn [mbind outcome_bind c_ptr c_ref c_tickets c_weak put_container containers dirs deleted].
    rewrite lookup_insert_eq. cbn [mbind outcome_bind c_weak]. unfold put_container, put_dir, set_weak.
    cbn [containers dirs deleted c_ptr c_ref c_tickets c_weak]. rewrite !insert_insert_eq.
    destruct (new_dir_ok h own wown a c d H Ha E Hd0 Hd) as [H1 E1].
    edestruct (put_container_ok _ own wown a (set_weak d c)
      (Container (c_ptr c) (c_ref c) (release_ticket (Spinlock (u32 (now_serving (c_tickets c) + 1)) (now_serving (c_tickets c)))) d)
      H1) as [H2 E2]; [by apply lookup_insert_eq|done|done|done|simpl; lia|].
    unfold put_container, put_dir in *. cbn [containers dirs deleted] in *. rewrite insert_insert_eq in *.
    eexists d, _, _. split; [done|]. split_and!.
    + eapply heap_ok_ext; [exact H2| |done]. intros x _. unfold upd_fn. simpl.
      destruct (Z.eqb_spec a x) as [<-|]; congruence.
    + eapply evolves_trans; [exact E1|exact E2| |done]. simpl. intros x [? _]%lookup_insert_None. done.
    + apply lookup_insert_eq.
    + done.
    + done.
    + simpl. by intros x [? _]%lookup_insert_None.
  - unfold put_container. cbn [containers dirs deleted]. rewrite lookup_insert_eq. cbn [mbind outcome_bind c_ptr c_ref c_tickets c_weak containers dirs deleted put_container].
    rewrite lookup_insert_eq. cbn [mbind outcome_bind c_weak]. unfold put_container.
    cbn [containers dirs deleted]. rewrite !insert_insert_eq.
    edestruct (put_container_ok h own wown a c
      (Container (c_ptr c) (c_ref c) (release_ticket (Spinlock (u32 (now_serving (c_tickets c) + 1)) (now_serving (c_tickets c)))) (c_weak c))
      H Ha) as [H2 E2]; [done|done|done|simpl; lia|].
    eexists (c_weak c), _, _. split; [done|]. split_and!; [|exact E2|apply lookup_insert_eq|done..].
    eapply heap_ok_ext; [exact H2| |done]. intros x _. unfold upd_fn. simpl.
    destruct (Z.eqb_spec a x) as [<-|]; congruence.
Qed.

(** While the object lives, the container of a weak pointer is the one that
    has its directory. *)
Definition weak_ok (h : sp_heap) (x : weak_ptr) : Prop :=
  wp_weak x ≠ 0 → ∀ a c, containers h !! a = Some c → c_weak c = wp_weak x → a = wp_container x.

Lemma weak_ok_evolves g h h' x :
  evolves g h h' → (wp_weak x ≠ 0 → is_Some (dirs h !! wp_weak x)) → weak_ok h x → weak_ok h' x.
Proof.
  intros [_ S N] Hd Hx Hw a c' Ha E. destruct (Hd Hw) as [w Hw'].
  destruct (containers h !! a) as [c|] eqn:Ec.
  - specialize (S a c Ec). rewrite Ha in S. destruct S as (_ & _ & [E'|[_ E']]); [|congruence].
    apply (Hx Hw a c Ec). congruence.
  - destruct (N a c' Ha Ec) as [E'|E']; congruence.
Qed.

(** The end of a pointer whose container has other owners. *)
Lemma sh_destroy_temp h own wown x :
  heap_ok h (λ a, own a + one x a) wown → (sp_container x ≠ 0 → 0 < own (sp_container x)) →
  ∃ h', sh_destroy x h = Ret h' ∧ heap_ok h' own wown ∧ evolves None h h'.
Proof.
  intros H Hx. destruct (sh_destroy_ok h _ _ x H) as (h' & E' & H' & V).
  { intros E. rewrite one_self. specialize (Hx E). lia. }
  exists h'. split_and!; [done| |].
  - eapply heap_ok_ext; [exact H'| |done]. intros. simpl. lia.
  - destruct (Z.eqb_spec (sp_container x) 0) as [E|E]; [done|]. cbn [negb andb] in V. rewrite one_self in V.
    specialize (Hx E). by rewrite (proj2 (Z.eqb_neq (own (sp_container x) + 1) 1)) in V by lia.
Qed.

(** The part of the constructor of a weak pointer in its critical section. *)
Lemma wk_make_ok h own wown x c d :
  heap_ok h own wown → containers h !! sp_container x = Some c → d ≠ 0 → dirs h !! d = None →
  (∀ d, d ≠ 0 → wown d < 2 ^ 32 - 2) →
  ∃ d' h' h'' c', container_dir (sp_container x) d h = Ret (d', h') ∧ dir_acquire d' h' = Ret h'' ∧
    heap_ok h'' own (λ y, wown y + wone (WeakPtr d' (sp_container x) (sp_ptr x)) y) ∧ evolves None h h'' ∧
    containers h'' !! sp_container x = Some c' ∧ c_weak c' = d' ∧ d' ≠ 0 ∧
    (∀ y, dirs h'' !! y = None → dirs h !! y = None).
Proof.
  intros H Hc Hd0 Hd Hw.
  destruct (container_dir_ok h _ _ _ c d H Hc Hd0 Hd) as (d' & h2 & c2 & E2 & H2 & V2 & Hc2 & Ew & Hd' & Hds).
  destruct (dir_acquire_ok h2 _ _ (WeakPtr d' (sp_container x) (sp_ptr x)) H2) as (h4 & E4 & H4 & Ec4 & El4);
    [done| |by apply Hw|].
  { simpl. rewrite <- Ew. destruct (ho_link _ _ _ H2 _ _ Hc2) as (? & ? & _); [congruence|eauto]. }
  simpl in E4. exists d', h2, h4, c2. split_and!; try done.
  - destruct V2 as [D2 S2 N2]. constructor; [by rewrite El4|by rewrite Ec4|by rewrite Ec4].
  - by rewrite Ec4.
  - intros y Hy. apply Hds. revert E4 Hy. unfold dir_acquire, get_dir.
    destruct (dirs h2 !! d'); [|done]. cbn [mbind outcome_bind]. intros [= <-]. simpl.
    by intros [? _]%lookup_insert_None.
Qed.

(** The constructor of a weak pointer from the shared pointer [x]. *)
Lemma wk_new_ok h own wown x d :
  heap_ok h own wown → (sp_container x ≠ 0 → 0 < own (sp_container x) < 2 ^ 32 - 1) →
  d ≠ 0 → dirs h !! d = None → (∀ d, d ≠ 0 → wown d < 2 ^ 32 - 2) →
  ∃ w h', wk_new x d h = Ret (w, h') ∧ heap_ok h' own (λ d, wown d + wone w d) ∧ evolves None h h' ∧
    match containers h !! sp_container x with
    | Some c => if c_ptr c =? 0 then w = null_weak
                else wp_weak w ≠ 0 ∧ wp_container w = sp_container x ∧ wp_ptr w = sp_ptr x ∧
                     ∃ c', containers h' !! sp_container x = Some c' ∧ c_weak c' = wp_weak w
    | None => w = null_weak
    end.
Proof.
  intros H Hx Hd0 Hd Hw. unfold wk_new, sh_copy.
  destruct (sh_acquire_ok h own wown x H Hx) as (h1 & -> & H1 & V1 & Ed1). cbn [mbind outcome_bind].
  assert (∀ h2 wown', evolves None h1 h2 → heap_ok h2 (λ a, own a + one x a) wown' →
    (∀ y, dirs h2 !! y = None → dirs h1 !! y = None) →
    ∃ h3, sh_destroy x h2 = Ret h3 ∧ heap_ok h3 own wown' ∧ evolves None h h3 ∧ evolves None h2 h3) as Hend.
  { intros h2 wown' V2 H2 Hd2. destruct (sh_destroy_temp h2 own wown' x H2) as (h3 & ? & ? & ?); [intros; lia|].
    exists h3. split_and!; try done. eapply evolves_trans; [exact V1| |by rewrite Ed1|done].
    by eapply evolves_trans. }
  assert (∃ h3, sh_destroy x h1 = Ret h3 ∧ heap_ok h3 own (λ d, wown d + wone null_weak d) ∧ evolves None h h3)
    as (h3 & E3 & H3 & V3).
  { destruct (Hend h1 wown) as (h3 & ? & ? & ? & _); [apply evolves_refl|done..|].
    exists h3. split_and!; try done. eapply heap_ok_ext; [done|done|]. intros [] Hy; unfold wone; simpl; lia. }
  unfold sh_bool. destruct (Z.eqb_spec (sp_container x) 0) as [E|E].
  { cbn [mbind outcome_bind]. rewrite E3. cbn [mbind outcome_bind]. exists null_weak, h3. split_and!; try done.
    destruct (containers h !! _) as [c|] eqn:Ec; [|done]. by destruct (ho_container _ _ _ H _ _ Ec). }
  destruct (ho_owned _ _ _ H (sp_container x) E) as [c Hc]; [specialize (Hx E); lia|].
  pose proof (ev_stays _ _ _ V1 _ _ Hc) as S1. rewrite Hc. unfold get_container.
  destruct (containers h1 !! sp_container x) as [c1|] eqn:Hc1; [|done]. destruct S1 as (_ & Ep & _).
  cbn [mbind outcome_bind]. rewrite Ep. destruct (c_ptr c =? 0) eqn:E0; cbn [negb].
  { cbn [mbind outcome_bind]. rewrite E3. cbn [mbind outcome_bind]. by exists null_weak, h3. }
  destruct (wk_make_ok h1 _ _ x c1 d H1 Hc1 Hd0) as (d' & h2 & h4 & c4 & -> & E4 & H4 & V4 & Hc4 & Ew & Hd' & Hds);
    [by rewrite Ed1|done|]. cbn [mbind outcome_bind]. rewrite E4. cbn [mbind outcome_bind].
  destruct (Hend h4 _ V4 H4 Hds) as (h5 & -> & H5 & V5 & V45). cbn [mbind outcome_bind].
  eexists _, h5. split_and!; try done.
  pose proof (ev_stays _ _ _ V45 _ _ Hc4) as S. destruct (containers h5 !! _) as [c5|]; [|done].
  exists c5. split; [done|]. destruct S as (_ & _ & [->|[E' _]]); [done|congruence].
Qed.

(** The weak pointer refers to the object of container [a], which lives. *)
Definition refers (h : sp_heap) (w : weak_ptr) (a : Z) : Prop :=
  wp_weak w ≠ 0 ∧ ∃ c, containers h !! a = Some c ∧ c_weak c = wp_weak w.

Lemma wk_lock_ok h own wown w :
  heap_ok h own wown → weak_ok h w → (wp_weak w ≠ 0 → is_Some (dirs h !! wp_weak w)) →
  (∀ a, a ≠ 0 → own a < 2 ^ 32 - 1) →
  ∃ x h', wk_lock w h = Ret (x, h') ∧ heap_ok h' (λ a, own a + one x a) wown ∧ evolves None h h' ∧
    (refers h w (wp_container w) ∧ x = SharedPtr (wp_container w) (wp_ptr w) ∨
     (∀ a, ¬ refers h w a) ∧ x = null_shared).
Proof.
  intros H Hw Hd Hb.
  assert (heap_ok h (λ a, own a + one null_shared a) wown) as Hnull.
  { eapply heap_ok_ext; [exact H| |done]. intros a Ha. rewrite one_ne; [lia|done]. }
  unfold wk_lock. destruct (Z.eqb_spec (wp_weak w) 0) as [E|E].
  { eexists _, h. split_and!; [done|done|apply evolves_refl|]. right. split; [|done]. by intros a [? _]. }
  destruct (Hd E) as [dw Hdw]. unfold dir_xacquire, get_dir. rewrite Hdw. cbn [mbind outcome_bind].
  destruct (ho_dir _ _ _ H _ _ Hdw) as (_ & _ & _ & _ & [Hx|(Hx & a & c & Ha & Ec)]); rewrite Hx.
  { cbn [Z.eqb mbind outcome_bind negb]. eexists _, h. split_and!; [done|done|apply evolves_refl|]. right.
    split; [|done]. intros a [_ (c & Ha & Ec)]. rewrite <- Ec in *.
    destruct (ho_link _ _ _ H a c Ha E) as (w' & ? & ?). congruence. }
  pose proof (Hw E a c Ha Ec) as ->.
  change (1 =? 0) with false. cbn [negb mbind outcome_bind]. change (u32 (1 + 1)) with 2.
  destruct (ho_container _ _ _ H _ c Ha) as (Ha0 & Hr & Hrb & _).
  set (x := SharedPtr (wp_container w) (wp_ptr w)).
  destruct (sh_acquire_ok h own wown x H) as (h1 & E1 & H1 & V1 & Ed1).
  { intros _. specialize (Hb _ Ha0). simpl. lia. }
  revert E1. unfold sh_acquire, container_acquire, get_container. simpl sp_container.
  rewrite (proj2 (Z.eqb_neq _ _) Ha0). cbn [put_dir containers]. rewrite Ha. cbn [mbind outcome_bind]. intros [= <-].
  unfold dir_xrelease_or_take_ownership, get_dir. cbn [put_container put_dir containers dirs deleted].
  rewrite lookup_insert_eq. cbn [mbind outcome_bind dir_xref dir_ref]. change (2 <=? 1) with false. cbn [mbind outcome_bind].
  change (u32 (2 - 1)) with 1.
  assert (<[wp_weak w := WeakDir (dir_ref dw) 1]> (dirs h) = dirs h) as Eid.
  { apply insert_id. rewrite Hdw. destruct dw. simpl in *. congruence. }
  unfold put_dir, put_container in *. cbn [containers dirs deleted] in *. rewrite insert_insert_eq, Eid.
  eexists x, _. split; [reflexivity|]. split; [exact H1|]. split; [exact V1|]. left. split; [|done]. split; [done|].
  by exists c.
Qed.

(** * States *)

(** A pointer that is not null has an owner's share in a container. *)
Definition ptr_ok (x : shared_ptr) : Prop := sp_container x = 0 → sp_ptr x = 0.

Record sp_wf (s : sp_state) : Prop := {
  sw_heap : heap_ok (sp_h s) (owners s) (weak_owners s);
  sw_ptr : ∀ v x, shareds s !! v = Some x → ptr_ok x;
  sw_weak : ∀ w x, weaks s !! w = Some x → weak_ok (sp_h s) x ∧ (wp_weak x = 0 → wp_ptr x = 0)
}.

Definition fresh_container (a : Z) (s : sp_state) : Prop := a ≠ 0 ∧ containers (sp_h s) !! a = None.
Definition fresh_dir (d : Z) (s : sp_state) : Prop := d ≠ 0 ∧ dirs (sp_h s) !! d = None.

Definition new_shared (v : nat) (s : sp_state) : Prop := shareds s !! v = None.
Definition new_weak (w : nat) (s : sp_state) : Prop := weaks s !! w = None.
Definition is_shared (v : nat) (s : sp_state) : Prop := is_Some (shareds s !! v).
Definition is_weak (w : nat) (s : sp_state) : Prop := is_Some (weaks s !! w).

(** When an operation may be used: constructors make new variables, all
    others work on existing ones; [new] returns memory that is not in use;
    converting operations are between variables of different types. *)
Definition op_ok (op : sp_op) (s : sp_state) : Prop :=
  Z.of_nat (size (shareds s)) < 2 ^ 32 - 2 ∧ Z.of_nat (size (weaks s)) < 2 ^ 32 - 3 ∧
  match op with
  | ShDefault v => new_shared v s
  | ShNew v p a => new_shared v s ∧ fresh_container a s
  | ShCopy v u | ShMove v u | ShCopyConv _ v u | ShMoveConv _ v u | ShCast _ v u | ShCastMove _ v u =>
    new_shared v s ∧ is_shared u s
  | ShAssign v u | ShMoveAssign v u => is_shared v s ∧ is_shared u s
  | ShAssignConv _ v u | ShMoveAssignConv _ v u => is_shared v s ∧ is_shared u s ∧ v ≠ u
  | ShAssignPtr v p a => is_shared v s ∧ fresh_container a s
  | ShDestroy v => is_shared v s
  | WkDefault w => new_weak w s
  | WkNew w v d => new_weak w s ∧ is_shared v s ∧ fresh_dir d s
  | WkCopy w x | WkMove w x => new_weak w s ∧ is_weak x s
  | WkAssign w x | WkMoveAssign w x => is_weak w s ∧ is_weak x s
  | WkDestroy w => is_weak w s
  | WkLock v w => new_shared v s ∧ is_weak w s
  end.

Section state.

Context (s : sp_state) (W : sp_wf s).
Context (Hsize : Z.of_nat (size (shareds s)) < 2 ^ 32 - 2) (Hwsize : Z.of_nat (size (weaks s)) < 2 ^ 32 - 3).

Lemma owners_lt a : owners s a < 2 ^ 32 - 2.
Proof. unfold owners. pose proof (total_le (λ x, one x a) (shareds s) (λ y, proj2 (one_range y a))). lia. Qed.

Lemma weak_owners_lt d : weak_owners s d < 2 ^ 32 - 3.
Proof. unfold weak_owners. pose proof (total_le (λ x, wone x d) (weaks s) (λ y, proj2 (wone_range y d))). lia. Qed.

Lemma var_owns v x : shareds s !! v = Some x → 0 < owners s (sp_container x).
Proof.
  intros Hv. pose proof (total_ge (λ y, one y (sp_container x)) _ v x (λ y, proj1 (one_range _ _)) Hv) as H.
  simpl in H. rewrite one_self in H. unfold owners. lia.
Qed.

Lemma weak_var_owns w x : weaks s !! w = Some x → 0 < weak_owners s (wp_weak x).
Proof.
  intros Hw. pose proof (total_ge (λ y, wone y (wp_weak x)) _ w x (λ y, proj1 (wone_range _ _)) Hw) as H.
  simpl in H. unfold wone at 1 in H. rewrite Z.eqb_refl in H. unfold weak_owners. lia.
Qed.

Lemma weak_var_dir w x : weaks s !! w = Some x → wp_weak x ≠ 0 → is_Some (dirs (sp_h s) !! wp_weak x).
Proof. intros Hw E. apply (ho_wowned _ _ _ (sw_heap _ W)); [done|]. pose proof (weak_var_owns w x Hw). lia. Qed.

(** The weak variables stay as they are when the heap evolves. *)
Lemma weaks_stay g h' w x :
  evolves g (sp_h s) h' → weaks s !! w = Some x → weak_ok h' x ∧ (wp_weak x = 0 → wp_ptr x = 0).
Proof.
  intros V Hw. destruct (sw_weak _ W w x Hw) as [Hx ?]. split; [|done].
  eapply weak_ok_evolves; [exact V| |done]. by eapply weak_var_dir.
Qed.

(** The shared variables become [m]. *)
Lemma shared_vars g h' own' m :
  heap_ok h' own' (weak_owners s) → evolves g (sp_h s) h' →
  (∀ a, a ≠ 0 → own' a = total (λ x, one x a) m) → (∀ v x, m !! v = Some x → ptr_ok x) →
  sp_wf (SpState h' m (weaks s)).
Proof.
  intros H' V E Hm. constructor; simpl; [|done|].
  - by eapply heap_ok_ext.
  - intros w x. by eapply weaks_stay.
Qed.

Lemma shared_new g h' v y :
  new_shared v s → heap_ok h' (λ a, owners s a + one y a) (weak_owners s) → evolves g (sp_h s) h' → ptr_ok y →
  sp_wf (with_shared s v y h').
Proof.
  intros Hv H' V Hy. eapply shared_vars; [exact H'|exact V| |].
  - intros a _. rewrite (total_insert (λ x, one x a)) by done. unfold owners. lia.
  - intros u x [[<- <-]|[_ Hu]]%lookup_insert_Some; [done|]. by eapply (sw_ptr _ W).
Qed.

Lemma shared_set g h' v old y :
  shareds s !! v = Some old → heap_ok h' (λ a, owners s a + one y a - one old a) (weak_owners s) →
  evolves g (sp_h s) h' → ptr_ok y → sp_wf (with_shared s v y h').
Proof.
  intros Hv H' V Hy. eapply shared_vars; [exact H'|exact V| |].
  - intros a _. rewrite (total_update (λ x, one x a) _ v old) by done. unfold owners. lia.
  - intros u x [[<- <-]|[_ Hu]]%lookup_insert_Some; [done|]. by eapply (sw_ptr _ W).
Qed.

(** The value [x] of [u] is split into [y], which is new or replaces [old],
    and [rest]. *)
Lemma shared_move g h' v u x y rest (old : option shared_ptr) :
  shareds s !! v = old → shareds s !! u = Some x → v ≠ u →
  heap_ok h' (λ a, owners s a + one y a + one rest a - one x a - from_option (λ o, one o a) 0 old) (weak_owners s) →
  evolves g (sp_h s) h' → ptr_ok y → ptr_ok rest → sp_wf (with_shared (with_shared s u rest h') v y h').
Proof.
  intros Hv Hu Hne H' V Hy Hr. eapply shared_vars; [exact H'|exact V| |]; simpl.
  - intros a _. assert (<[u := rest]> (shareds s) !! v = old) as Hv' by (by rewrite lookup_insert_ne by done).
    destruct old as [o|]; simpl;
      [rewrite (total_update (λ x, one x a) _ v o) by done|rewrite (total_insert (λ x, one x a)) by done];
      rewrite (total_update (λ x, one x a) _ u x) by done; unfold owners; lia.
  - intros w z [[<- <-]|[_ [[<- <-]|[_ Hw]]%lookup_insert_Some]]%lookup_insert_Some; [done..|].
    by eapply (sw_ptr _ W).
Qed.

(** The weak variables become [m]. *)
Lemma weak_vars h' wown' m :
  heap_ok h' (owners s) wown' → (∀ d, d ≠ 0 → wown' d = total (λ x, wone x d) m) →
  (∀ w x, m !! w = Some x → weak_ok h' x ∧ (wp_weak x = 0 → wp_ptr x = 0)) →
  sp_wf (SpState h' (shareds s) m).
Proof.
  intros H' E Hm. constructor; simpl; [by eapply heap_ok_ext| |done]. apply (sw_ptr _ W).
Qed.

Lemma weak_new g h' w y :
  new_weak w s → heap_ok h' (owners s) (λ d, weak_owners s d + wone y d) → evolves g (sp_h s) h' →
  weak_ok h' y → (wp_weak y = 0 → wp_ptr y = 0) → sp_wf (with_weak s w y h').
Proof.
  intros Hw H' V Hy Hp. eapply weak_vars; [exact H'| |].
  - intros d _. rewrite (total_insert (λ x, wone x d)) by done. unfold weak_owners. lia.
  - intros u x [[<- <-]|[_ Hu]]%lookup_insert_Some; [done|]. by eapply weaks_stay.
Qed.

(** As [shared_move]; the pointer moved keeps its directory. *)
Lemma weak_move g h' w u y (old : option weak_ptr) :
  weaks s !! w = old → weaks s !! u = Some y → w ≠ u →
  heap_ok h' (owners s) (λ d, weak_owners s d - from_option (λ o, wone o d) 0 old) → evolves g (sp_h s) h' →
  sp_wf (with_weak (with_weak s u null_weak h') w y h').
Proof.
  intros Hw Hu Hne H' V. eapply weak_vars; [exact H'| |]; simpl.
  - intros d Hd. assert (wone null_weak d = 0) as Hz by (unfold wone; simpl; by destruct d).
    assert (<[u := null_weak]> (weaks s) !! w = old) as Hw' by (by rewrite lookup_insert_ne by done).
    destruct old as [o|]; simpl;
      [rewrite (total_update (λ x, wone x d) _ w o) by done|rewrite (total_insert (λ x, wone x d)) by done];
      rewrite (total_update (λ x, wone x d) _ u y) by done; unfold weak_owners; lia.
  - intros v z [[<- <-]|[_ [[<- <-]|[_ Hv]]%lookup_insert_Some]]%lookup_insert_Some; [|split; [by intros []|done]|];
      by eapply weaks_stay.
Qed.

End state.

(** * Operations on shared variables *)

Definition step_ok (op : sp_op) (s : sp_state) : Prop :=
  ∃ s' g, sp_step op s = Ret s' ∧ sp_wf s' ∧ evolves g (sp_h s) (sp_h s').

Section shared_steps.

Context (s : sp_state) (W : sp_wf s).
Context (Hsize : Z.of_nat (size (shareds s)) < 2 ^ 32 - 2).

Lemma var_bounds v x : shareds s !! v = Some x → 0 < owners s (sp_container x) < 2 ^ 32 - 2.
Proof. intros Hv. split; [by eapply var_owns|by apply owners_lt]. Qed.

Lemma null_owner own wown h : heap_ok h own wown → heap_ok h (λ a, own a + one null_shared a) wown.
Proof. intros H. eapply heap_ok_ext; [exact H| |done]. intros a Ha. rewrite one_ne; [lia|done]. Qed.

(** A pointer with the container of [x] is made from [x]. *)
Lemma var_acquire v x y :
  shareds s !! v = Some x → sp_container y = sp_container x ∨ sp_container y = 0 →
  ∃ h', sh_acquire y (sp_h s) = Ret h' ∧ heap_ok h' (λ a, owners s a + one y a) (weak_owners s) ∧
        evolves None (sp_h s) h' ∧ dirs h' = dirs (sp_h s).
Proof.
  intros Hv Hy. apply sh_acquire_ok; [apply W|]. intros E. destruct Hy as [->|]; [|done].
  pose proof (var_bounds v x Hv). lia.
Qed.

Lemma copy_conv_ok conv v x :
  shareds s !! v = Some x →
  ∃ y h', sh_copy_conv conv x (sp_h s) = Ret (y, h') ∧ heap_ok h' (λ a, owners s a + one y a) (weak_owners s) ∧
    evolves None (sp_h s) h' ∧ dirs h' = dirs (sp_h s) ∧ ptr_ok y ∧
    (sp_container y = sp_container x ∨ sp_container y = 0).
Proof.
  intros Hv. unfold sh_copy_conv. destruct (Z.eqb_spec (sp_container x) 0) as [E|E]; cbn [negb andb].
  - exists null_shared, (sp_h s). split_and!; [done| |apply evolves_refl|done|done|by right]. apply null_owner, W.
  - destruct (convert conv (sp_ptr x) =? 0); cbn [negb].
    + exists null_shared, (sp_h s). split_and!; [done| |apply evolves_refl|done|done|by right]. apply null_owner, W.
    + destruct (var_acquire v x (SharedPtr (sp_container x) (convert conv (sp_ptr x))) Hv) as (h' & E' & H' & V & D);
        [by left|]. unfold sh_acquire in E'. simpl in E'. rewrite (proj2 (Z.eqb_neq _ _) E) in E'.
      rewrite E'. cbn [mbind outcome_bind]. eexists _, h'. split_and!; [done|exact H'|done|done|intros E0; by destruct E|by left].
Qed.

(** dynamic_pointer_cast, after the cast itself: [cst] is copied and ends. *)
Lemma get_cast_ok h own wown cst :
  heap_ok h (λ a, own a + one cst a) wown → (sp_container cst ≠ 0 → 0 ≤ own (sp_container cst) < 2 ^ 32 - 2) →
  ∃ h', ('(y, h) ← sh_copy cst h; h ← sh_destroy cst h; Ret (y, h)) = Ret (cst, h') ∧
        heap_ok h' (λ a, own a + one cst a) wown ∧ evolves None h h'.
Proof.
  intros H Hb. unfold sh_copy.
  destruct (sh_acquire_ok h _ _ cst H) as (h1 & -> & H1 & V1 & D1).
  { intros E. rewrite one_self. specialize (Hb E). lia. }
  cbn [mbind outcome_bind]. destruct (sh_destroy_temp h1 _ _ cst H1) as (h2 & -> & H2 & V2).
  { intros E. rewrite one_self. specialize (Hb E). lia. }
  cbn [mbind outcome_bind]. exists h2. split_and!; [done|done|]. eapply evolves_trans; [done|done|by rewrite D1|done].
Qed.

(** The old value of a variable ends after the new one, [y], is there. *)
Lemma replace_ok v old y h1 :
  shareds s !! v = Some old → heap_ok h1 (λ a, owners s a + one y a) (weak_owners s) →
  evolves None (sp_h s) h1 → dirs h1 = dirs (sp_h s) → ptr_ok y →
  ∃ h2 g, sh_destroy old h1 = Ret h2 ∧ sp_wf (with_shared s v y h2) ∧ evolves g (sp_h s) h2.
Proof.
  intros Hv H1 V1 D1 Hy. destruct (sh_destroy_ok h1 _ _ old H1) as (h2 & E2 & H2 & V2).
  { intros E. pose proof (var_owns s v old Hv). pose proof (one_range y (sp_container old)). lia. }
  assert (evolves (if negb (sp_container old =? 0) && (owners s (sp_container old) + one y (sp_container old) =? 1)
                   then Some (sp_container old) else None) (sp_h s) h2) as V.
  { eapply evolves_trans; [exact V1|exact V2|by rewrite D1|]. intros a.
    destruct (Z.eqb_spec (sp_container old) 0) as [E|E]; cbn [negb andb]; [by intros [=]|]. destruct (_ + _ =? 1); [|by intros [=]]. intros [= <-].
    apply (ho_owned _ _ _ (sw_heap _ W)); [done|]. pose proof (var_owns s v old Hv). lia. }
  eexists h2, _. split_and!; [done| |exact V]. by eapply shared_set.
Qed.

(** The old value of [v] ends and the value of [u] is split. *)
Lemma replace_move_ok v u old x y rest :
  shareds s !! v = Some old → shareds s !! u = Some x → v ≠ u → ptr_ok y → ptr_ok rest →
  (∀ a, a ≠ 0 → one y a + one rest a = one x a) →
  ∃ h2 g, sh_destroy old (sp_h s) = Ret h2 ∧ sp_wf (with_shared (with_shared s u rest h2) v y h2) ∧
          evolves g (sp_h s) h2.
Proof.
  intros Hv Hu Hne Hy Hr Hsum. destruct (sh_destroy_ok (sp_h s) _ _ old (sw_heap _ W)) as (h2 & E2 & H2 & V2).
  { intros _. by eapply var_owns. }
  eexists h2, _. split_and!; [done| |exact V2].
  eapply (shared_move s W); [done..| |exact V2|done|done].
  eapply heap_ok_ext; [exact H2| |done]. intros a Ha. specialize (Hsum a Ha). simpl. lia.
Qed.

Lemma move_conv_ok conv v x :
  shareds s !! v = Some x →
  let '(y, rest) := sh_move_conv conv x in
  ptr_ok y ∧ ptr_ok rest ∧ (∀ a, a ≠ 0 → one y a + one rest a = one x a) ∧
  (sp_container y = sp_container x ∨ sp_container y = 0).
Proof.
  intros Hv. pose proof (sw_ptr _ W v x Hv) as Hx. unfold sh_move_conv, convert.
  assert (∀ a, a ≠ 0 → one null_shared a = 0) as Hz by (intros; by apply one_ne).
  destruct (Z.eqb_spec (sp_ptr x) 0) as [E|E]; [|destruct (Z.eqb_spec (conv (sp_ptr x)) 0)]; cbn [Z.eqb negb];
    split_and!; try done; try (intros a Ha; rewrite (Hz a Ha); unfold one; simpl; lia); try (by right); try (by left).
  intros E0. simpl in E0. by destruct E; apply Hx.
Qed.

(** Constructors of a variable [v]. *)
Lemma step_construct v y h' op :
  new_shared v s → heap_ok h' (λ a, owners s a + one y a) (weak_owners s) → evolves None (sp_h s) h' → ptr_ok y →
  sp_step op s = Ret (with_shared s v y h') → step_ok op s.
Proof. intros. eexists _, None. split_and!; [done| |done]. by eapply shared_new. Qed.

Lemma step_move_construct v u x y rest op :
  new_shared v s → shareds s !! u = Some x → ptr_ok y → ptr_ok rest →
  (∀ a, a ≠ 0 → one y a + one rest a = one x a) →
  sp_step op s = Ret (with_shared (with_shared s u rest (sp_h s)) v y (sp_h s)) → step_ok op s.
Proof.
  intros Hv Hu Hy Hr Hsum E. eexists _, None. split_and!; [done| |apply evolves_refl].
  eapply (shared_move s W None); [exact Hv|exact Hu| | |apply evolves_refl|done|done].
  - intros ->. unfold new_shared in Hv. congruence.
  - eapply heap_ok_ext; [apply W| |done]. intros a Ha. specialize (Hsum a Ha). simpl. lia.
Qed.

Lemma step_sh_construct op :
  match op with
  | ShDefault _ | ShNew _ _ _ | ShCopy _ _ | ShMove _ _ | ShCopyConv _ _ _ | ShMoveConv _ _ _ => op_ok op s
  | _ => False
  end → step_ok op s.
Proof.
  destruct op as [v|v p a|v u|v u|conv v u|conv v u| | | | | | | | | | | | | | | |]; try done; intros (_ & _ & H).
  - eapply step_construct; [exact H|apply null_owner, W|apply evolves_refl|done|done].
  - destruct H as (Hv & Ha & Hn). destruct (sh_new_ok (sp_h s) _ _ p a (sw_heap _ W) Ha Hn) as [H' V].
    eapply step_construct; [exact Hv|exact H'|exact V| |done]. by intros ?.
  - destruct H as (Hv & x & Hu). destruct (var_acquire u x x Hu) as (h' & E & H' & V & _); [by left|].
    eapply step_construct; [exact Hv|exact H'|exact V|by eapply (sw_ptr _ W)|].
    simpl. unfold get_shared. rewrite Hu. cbn [mbind outcome_bind]. unfold sh_copy. by rewrite E.
  - destruct H as (Hv & x & Hu). eapply (step_move_construct v u x x null_shared); [done..|by eapply (sw_ptr _ W)|done| |].
    + intros a Ha. rewrite (one_ne null_shared); [lia|done].
    + simpl. unfold get_shared. by rewrite Hu.
  - destruct H as (Hv & x & Hu). destruct (copy_conv_ok conv u x Hu) as (y & h' & E & H' & V & _ & Hy & _).
    eapply step_construct; [exact Hv|exact H'|exact V|done|].
    simpl. unfold get_shared. rewrite Hu. cbn [mbind outcome_bind]. by rewrite E.
  - destruct H as (Hv & x & Hu). pose proof (move_conv_ok conv u x Hu) as Hm.
    destruct (sh_move_conv conv x) as [y rest] eqn:E. destruct Hm as (Hy & Hr & Hsum & _).
    apply (step_move_construct v u x y rest); [done..|]. simpl. unfold get_shared. rewrite Hu. cbn [mbind outcome_bind].
    by rewrite E.
Qed.

Lemma step_sh_cast op :
  match op with ShCast _ _ _ | ShCastMove _ _ _ => op_ok op s | _ => False end → step_ok op s.
Proof.
  destruct op as [| | | | | | | | | | |conv v u|conv v u| | | | | | | | |]; try done; intros (_ & _ & H).
  - destruct H as (Hv & x & Hu). destruct (copy_conv_ok conv u x Hu) as (y & h' & E & H' & V & D & Hy & Hc).
    destruct (get_cast_ok h' _ _ y H') as (h2 & E2 & H2 & V2).
    { intros Hy0. destruct Hc as [->|]; [|done]. pose proof (var_bounds u x Hu). lia. }
    eapply step_construct; [exact Hv|exact H2| |done|].
    + eapply evolves_trans; [exact V|exact V2|by rewrite D|done].
    + simpl. unfold get_shared. rewrite Hu. cbn [mbind outcome_bind]. unfold sh_cast. rewrite E.
      cbn [mbind outcome_bind]. cbn [mbind outcome_bind] in E2. by rewrite E2.
  - destruct H as (Hv & x & Hu). pose proof (move_conv_ok conv u x Hu) as Hm.
    destruct (sh_move_conv conv x) as [y rest] eqn:E. destruct Hm as (Hy & Hr & Hsum & Hc).
    destruct (get_cast_ok (sp_h s) (λ a, owners s a - one y a) (weak_owners s) y) as (h2 & E2 & H2 & V2).
    { eapply heap_ok_ext; [apply W| |done]. intros. simpl. lia. }
    { intros Hy0. simpl. rewrite one_self. destruct Hc as [->|]; [|done]. pose proof (var_bounds u x Hu). lia. }
    exists (with_shared (with_shared s u rest h2) v y h2), None. split_and!; [| |exact V2].
    + simpl. unfold get_shared. rewrite Hu. cbn [mbind outcome_bind]. unfold sh_cast_move. rewrite E. revert E2.
      unfold sh_copy. destruct (sh_acquire y (sp_h s)) as [h1| | |]; try done. cbn [mbind outcome_bind].
      destruct (sh_destroy y h1); try done. by intros [= ->].
    + eapply (shared_move s W None); [exact Hv|exact Hu| | |exact V2|done|done].
      * intros ->. unfold new_shared in Hv. congruence.
      * eapply heap_ok_ext; [exact H2| |done]. intros a Ha. specialize (Hsum a Ha). simpl. lia.
Qed.

Lemma step_self op : sp_step op s = Ret s → step_ok op s.
Proof. intros E. exists s, None. split_and!; [done..|apply evolves_refl]. Qed.

Lemma step_sh_assign op :
  match op with ShAssign _ _ | ShAssignConv _ _ _ | ShAssignPtr _ _ _ => op_ok op s | _ => False end → step_ok op s.
Proof.
  destruct op as [| | | | | |v u| |conv v u| |v p a| | | | | | | | | | |]; try done; intros (_ & _ & H).
  - destruct (decide (v = u)) as [->|Hne]; [apply step_self; simpl; by rewrite bool_decide_eq_true_2|].
    destruct H as ([old Hv] & [x Hu]). destruct (var_acquire u x x Hu) as (h1 & E1 & H1 & V1 & D1); [by left|].
    destruct (replace_ok v old x h1 Hv H1 V1 D1) as (h2 & g & E2 & W2 & V2); [by eapply (sw_ptr _ W)|].
    exists (with_shared s v x h2), g. split_and!; [|done..]. simpl. rewrite bool_decide_eq_false_2 by done.
    unfold get_shared. rewrite Hv, Hu. cbn [mbind outcome_bind]. unfold sh_assign. rewrite E1.
    cbn [mbind outcome_bind]. by rewrite E2.
  - destruct H as ([old Hv] & [x Hu] & Hne). set (p := convert conv (sp_ptr x)).
    set (y := SharedPtr (if p =? 0 then 0 else sp_container x) p).
    destruct (var_acquire u x y Hu) as (h1 & E1 & H1 & V1 & D1); [unfold y; simpl; case_match; auto|].
    destruct (replace_ok v old y h1 Hv H1 V1 D1) as (h2 & g & E2 & W2 & V2).
    { pose proof (sw_ptr _ W u x Hu) as Hx. unfold y, ptr_ok. simpl. destruct (Z.eqb_spec p 0) as [|Hp]; [done|].
      intros E0. unfold p, convert. by rewrite (Hx E0). }
    exists (with_shared s v y h2), g. split_and!; [|done..]. simpl.
    unfold get_shared. rewrite Hv, Hu. cbn [mbind outcome_bind]. unfold sh_assign_conv. fold p y. rewrite E1.
    cbn [mbind outcome_bind]. by rewrite E2.
  - destruct H as ([old Hv] & Ha & Hn).
    assert (∃ y h1, (if p =? 0 then (null_shared, sp_h s) else sh_new p a (sp_h s)) = (y, h1) ∧
      heap_ok h1 (λ a, owners s a + one y a) (weak_owners s) ∧ evolves None (sp_h s) h1 ∧
      dirs h1 = dirs (sp_h s) ∧ ptr_ok y) as (y & h1 & E1 & H1 & V1 & D1 & Hy).
    { destruct (p =? 0).
      - eexists _, _. split_and!; [done|apply null_owner, W|apply evolves_refl|done|done].
      - destruct (sh_new_ok (sp_h s) _ _ p a (sw_heap _ W) Ha Hn). eexists _, _. split_and!; [done..|by intros ?]. }
    destruct (replace_ok v old y h1 Hv H1 V1 D1 Hy) as (h2 & g & E2 & W2 & V2).
    exists (with_shared s v y h2), g. split_and!; [|done..]. simpl. unfold get_shared. rewrite Hv.
    cbn [mbind outcome_bind]. unfold sh_assign_ptr. rewrite E1. by rewrite E2.
Qed.

Lemma step_sh_move_assign op :
  match op with ShMoveAssign _ _ | ShMoveAssignConv _ _ _ | ShDestroy _ => op_ok op s | _ => False end → step_ok op s.
Proof.
  destruct op as [| | | | | | |v u| |conv v u| | | |v| | | | | | | |]; try done; intros (_ & _ & H).
  - destruct (decide (v = u)) as [->|Hne]; [apply step_self; simpl; by rewrite bool_decide_eq_true_2|].
    destruct H as ([old Hv] & [x Hu]).
    destruct (replace_move_ok v u old x x null_shared Hv Hu Hne) as (h2 & g & E2 & W2 & V2);
      [by eapply (sw_ptr _ W)|done|intros a Ha; rewrite (one_ne null_shared); [lia|done]|].
    eexists _, g. split_and!; [|exact W2|exact V2]. simpl. rewrite bool_decide_eq_false_2 by done.
    unfold get_shared. rewrite Hv, Hu. cbn [mbind outcome_bind]. unfold sh_move_assign. by rewrite E2.
  - destruct H as ([old Hv] & [x Hu] & Hne). pose proof (move_conv_ok conv u x Hu) as Hm.
    destruct (sh_move_conv conv x) as [y rest] eqn:E. destruct Hm as (Hy & Hr & Hsum & _).
    destruct (replace_move_ok v u old x y rest Hv Hu Hne Hy Hr Hsum) as (h2 & g & E2 & W2 & V2).
    eexists _, g. split_and!; [|exact W2|exact V2]. simpl. rewrite bool_decide_eq_false_2 by done.
    unfold get_shared. rewrite Hv, Hu. cbn [mbind outcome_bind]. unfold sh_move_assign_conv. rewrite E. by rewrite E2.
  - destruct H as [x Hv]. destruct (sh_destroy_ok (sp_h s) _ _ x (sw_heap _ W)) as (h2 & E2 & H2 & V2).
    { intros _. by eapply var_owns. }
    exists (SpState h2 (delete v (shareds s)) (weaks s)). eexists. split_and!; [| |exact V2].
    + simpl. unfold get_shared. rewrite Hv. cbn [mbind outcome_bind]. rewrite E2. done.
    + eapply (shared_vars s W); [exact H2|exact V2| |].
      * intros a _. rewrite (total_delete (λ y, one y a) _ v x) by done. done.
      * intros u y [_ Hu]%lookup_delete_Some. by eapply (sw_ptr _ W).
Qed.

End shared_steps.

(** * Operations on weak variables *)

Section weak_steps.

Context (s : sp_state) (W : sp_wf s).
Context (Hsize : Z.of_nat (size (shareds s)) < 2 ^ 32 - 2) (Hwsize : Z.of_nat (size (weaks s)) < 2 ^ 32 - 3).

Lemma same_evolves h h' : containers h' = containers h → deleted h' = deleted h → evolves None h h'.
Proof. destruct h, h'. simpl. intros -> ->. apply evolves_dirs. Qed.

Lemma null_weak_owner own wown h : heap_ok h own wown → heap_ok h own (λ d, wown d + wone null_weak d).
Proof. intros H. eapply heap_ok_ext; [exact H|done|]. intros [] ?; unfold wone; simpl; lia. Qed.

Lemma step_weak_construct w y h' op :
  new_weak w s → heap_ok h' (owners s) (λ d, weak_owners s d + wone y d) → evolves None (sp_h s) h' →
  weak_ok h' y → (wp_weak y = 0 → wp_ptr y = 0) → sp_step op s = Ret (with_weak s w y h') → step_ok op s.
Proof. intros. eexists _, None. split_and!; [done| |done]. by eapply weak_new. Qed.

Lemma step_wk_construct op :
  match op with WkDefault _ | WkNew _ _ _ | WkCopy _ _ | WkMove _ _ => op_ok op s | _ => False end → step_ok op s.
Proof.
  assert (∀ h, weak_ok h null_weak) as Hnull by (by intros h []).
  destruct op as [| | | | | | | | | | | | | |w|w v d|w x|w x| | | |]; try done; intros (_ & _ & H).
  - eapply (step_weak_construct w null_weak); [exact H|apply null_weak_owner, W|apply evolves_refl|done..].
  - destruct H as (Hw & [x Hv] & Hd0 & Hd).
    destruct (wk_new_ok (sp_h s) _ _ x d (sw_heap _ W)) as (y & h' & E & H' & V & Hy); [|done|done| |].
    { intros _. pose proof (var_bounds s Hsize v x Hv). lia. }
    { intros d' _. pose proof (weak_owners_lt s Hwsize d'). lia. }
    assert (y = null_weak ∨ wp_weak y ≠ 0 ∧ wp_container y = sp_container x ∧
      ∃ c, containers h' !! sp_container x = Some c ∧ c_weak c = wp_weak y) as Hy'.
    { destruct (containers (sp_h s) !! sp_container x); [case_match; [by left|]|by left].
      destruct Hy as (? & ? & _ & ?). by right. }
    apply (step_weak_construct w y h'); [done|done|done| | |].
    + destruct Hy' as [->|(Hy0 & Hyc & c & Hc & Ec)]; [done|]. intros _ a c' Ha Ea. rewrite Hyc.
      apply (ho_inj _ _ _ H' a _ c' c); congruence.
    + destruct Hy' as [->|(Hy0 & _)]; [done|]. intros E0. congruence.
    + simpl. unfold get_shared. rewrite Hv. cbn [mbind outcome_bind]. by rewrite E.
  - destruct H as (Hw & y & Hx). destruct (sw_weak _ W x y Hx) as [Hy Hp].
    destruct (wk_acquire_ok (sp_h s) _ _ y (sw_heap _ W)) as (h' & E & H' & Ec & Ed).
    { intros E0. pose proof (weak_owners_lt s Hwsize (wp_weak y)). split; [by eapply weak_var_dir|lia]. }
    apply (step_weak_construct w y h'); [done|done|by apply same_evolves| |done|].
    + unfold weak_ok. by rewrite Ec.
    + simpl. unfold get_weak. rewrite Hx. cbn [mbind outcome_bind]. unfold wk_copy. by rewrite E.
  - destruct H as (Hw & y & Hx). eexists _, None. split_and!; [| |].
    + simpl. unfold get_weak. rewrite Hx. cbn [mbind outcome_bind wk_move]. reflexivity.
    + eapply (weak_move s W); [exact Hw|exact Hx| | |apply evolves_refl].
      * intros ->. unfold new_weak in Hw. congruence.
      * simpl. eapply heap_ok_ext; [apply W|done|]. intros. simpl. lia.
    + apply evolves_refl.
Qed.

(** The old value of a weak variable ends before the new one is there. *)
Lemma weak_end w old :
  weaks s !! w = Some old →
  ∃ h', wk_destroy old (sp_h s) = Ret h' ∧ heap_ok h' (owners s) (λ d, weak_owners s d - wone old d) ∧
        containers h' = containers (sp_h s) ∧ deleted h' = deleted (sp_h s).
Proof.
  intros Hw. destruct (wk_destroy_ok (sp_h s) _ _ old (sw_heap _ W)) as (h' & ? & ? & ? & ? & _); [|eauto].
  intros _. by eapply weak_var_owns.
Qed.

(** A second variable with the same directory keeps it. *)
Lemma weak_owns_two w x old y :
  weaks s !! w = Some old → weaks s !! x = Some y → w ≠ x →
  0 < weak_owners s (wp_weak y) - wone old (wp_weak y).
Proof.
  intros Hw Hx Hne. unfold weak_owners. rewrite <- (total_delete (λ z, wone z (wp_weak y)) _ w old) by done.
  pose proof (total_ge (λ z, wone z (wp_weak y)) (delete w (weaks s)) x y (λ z, proj1 (wone_range _ _))) as H.
  rewrite lookup_delete_ne in H by done. specialize (H Hx). simpl in H. unfold wone at 1 in H.
  rewrite Z.eqb_refl in H. lia.
Qed.

Lemma step_wk_assign op :
  match op with WkAssign _ _ | WkMoveAssign _ _ | WkDestroy _ => op_ok op s | _ => False end → step_ok op s.
Proof.
  destruct op as [| | | | | | | | | | | | | | | | | |w x|w x|w|]; try done; intros (_ & _ & H).
  - destruct (decide (w = x)) as [->|Hne]; [apply step_self; [done|]; simpl; by rewrite bool_decide_eq_true_2|].
    destruct H as ([old Hw] & [y Hx]). destruct (weak_end w old Hw) as (h1 & E1 & H1 & Ec1 & Ed1).
    destruct (sw_weak _ W x y Hx) as [Hy Hp]. pose proof (weak_owns_two w x old y Hw Hx Hne) as H2.
    destruct (wk_acquire_ok h1 _ _ y H1) as (h2 & E2 & H3 & Ec2 & Ed2).
    { intros E0. split; [apply (ho_wowned _ _ _ H1); [done|lia]|].
      pose proof (weak_owners_lt s Hwsize (wp_weak y)). pose proof (wone_range old (wp_weak y)). lia. }
    rewrite Ec1 in Ec2. rewrite Ed1 in Ed2. pose proof (same_evolves _ _ Ec2 Ed2) as V.
    exists (with_weak s w y h2), None. split_and!; [| |done].
    + simpl. rewrite bool_decide_eq_false_2 by done. unfold get_weak. rewrite Hw, Hx. cbn [mbind outcome_bind].
      unfold wk_assign. rewrite E1. cbn [mbind outcome_bind]. by rewrite E2.
    + eapply (weak_vars s W); [exact H3| |].
      * intros d _. rewrite (total_update (λ z, wone z d) _ w old) by done. done.
      * intros u z [[<- <-]|[_ Hu]]%lookup_insert_Some; by eapply (weaks_stay s W).
  - destruct (decide (w = x)) as [->|Hne]; [apply step_self; [done|]; simpl; by rewrite bool_decide_eq_true_2|].
    destruct H as ([old Hw] & [y Hx]). destruct (weak_end w old Hw) as (h1 & E1 & H1 & Ec1 & Ed1).
    pose proof (same_evolves _ _ Ec1 Ed1) as V. eexists _, None. split_and!; [| |].
    + simpl. rewrite bool_decide_eq_false_2 by done. unfold get_weak. rewrite Hw, Hx. cbn [mbind outcome_bind].
      unfold wk_move_assign. rewrite E1. cbn [mbind outcome_bind]. reflexivity.
    + by eapply (weak_move s W).
    + exact V.
  - destruct H as [y Hw]. destruct (weak_end w y Hw) as (h1 & E1 & H1 & Ec1 & Ed1).
    pose proof (same_evolves _ _ Ec1 Ed1) as V.
    exists (SpState h1 (shareds s) (delete w (weaks s))), None. split_and!; [| |exact V].
    + simpl. unfold get_weak. rewrite Hw. cbn [mbind outcome_bind]. by rewrite E1.
    + eapply (weak_vars s W); [exact H1| |].
      * intros d _. by rewrite (total_delete (λ z, wone z d) _ w y) by done.
      * intros u z [_ Hu]%lookup_delete_Some. by eapply (weaks_stay s W).
Qed.

(** lock of a weak pointer: it gives the object exactly if it lives. *)
Lemma step_wk_lock v w y :
  new_shared v s → weaks s !! w = Some y →
  ∃ x h', sp_step (WkLock v w) s = Ret (with_shared s v x h') ∧ sp_wf (with_shared s v x h') ∧
    evolves None (sp_h s) h' ∧
    (refers (sp_h s) y (wp_container y) ∧ x = SharedPtr (wp_container y) (wp_ptr y) ∨
     (∀ a, ¬ refers (sp_h s) y a) ∧ x = null_shared).
Proof.
  intros Hv Hw. destruct (sw_weak _ W w y Hw) as [Hy Hp].
  destruct (wk_lock_ok (sp_h s) _ _ y (sw_heap _ W) Hy) as (x & h' & E & H' & V & Hx).
  { by eapply weak_var_dir. }
  { intros a _. pose proof (owners_lt s Hsize a). lia. }
  exists x, h'. split_and!; [| |done|done].
  - simpl. unfold get_weak. rewrite Hw. cbn [mbind outcome_bind]. by rewrite E.
  - eapply (shared_new s W); [done|done|done|]. destruct Hx as [[(_ & c & Hc & _) ->]|[_ ->]]; [|done].
    intros E0. simpl in E0. by destruct (ho_container _ _ _ (sw_heap _ W) _ _ Hc).
Qed.

End weak_steps.

Lemma sp_step_ok op s : sp_wf s → op_ok op s → step_ok op s.
Proof.
  intros W Hop. pose proof Hop as (Hs & Hw & H).
  destruct op; match goal with |- step_ok ?o _ =>
    first [exact (step_sh_construct s W Hs o Hop) | exact (step_sh_cast s W Hs o Hop)
          | exact (step_sh_assign s W Hs o Hop) | exact (step_sh_move_assign s W o Hop)
          | exact (step_wk_construct s W Hs Hw o Hop) | exact (step_wk_assign s W Hw o Hop) | idtac] end.
  destruct H as (Hv & y & Hy). destruct (step_wk_lock s W Hs v w y Hv Hy) as (x & h' & E & W' & V & _).
  eexists _, None. exact (conj E (conj W' V)).
Qed.

(** * The properties *)

(** In a well-formed state the containers are those that have owners. *)
Lemma alive_owned s a : sp_wf s → a ≠ 0 → 0 < owners s a ↔ is_Some (containers (sp_h s) !! a).
Proof.
  intros W Ha. split; [intros; apply (ho_owned _ _ _ (sw_heap _ W)); [done|lia]|].
  intros [c Hc]. destruct (ho_container _ _ _ (sw_heap _ W) _ _ Hc) as (_ & _ & ? & _). lia.
Qed.

Lemma owners_zero s a : sp_wf s → a ≠ 0 → containers (sp_h s) !! a = None → owners s a = 0.
Proof.
  intros W Ha Hn. destruct (decide (owners s a = 0)) as [|Hne]; [done|].
  destruct (ho_owned _ _ _ (sw_heap _ W) a Ha Hne). congruence.
Qed.

(** The object of the container at [a]. *)
Definition object (s : sp_state) (a : Z) : list Z :=
  match containers (sp_h s) !! a with
  | Some c => if c_ptr c =? 0 then [] else [c_ptr c]
  | None => []
  end.

(** C13: Every operation on shared and weak pointers returns without touching
    memory that is gone, and keeps the invariant: the counter of a container
    is the number of its owners.  It deletes an object exactly if the last
    owner of it goes with this operation, and no other object. *)
Theorem shared_ptr_step (op : sp_op) (s : sp_state) :
  sp_wf s → op_ok op s →
  ∃ s', sp_step op s = Ret s' ∧ sp_wf s' ∧
    (∀ v x, shareds s' !! v = Some x → use_count x (sp_h s') = Ret (if sp_container x =? 0 then 0 else owners s' (sp_container x))) ∧
    ((deleted (sp_h s') = deleted (sp_h s) ∧ ∀ a, a ≠ 0 → 0 < owners s a → 0 < owners s' a) ∨
     ∃ a, 0 < owners s a ∧ owners s' a = 0 ∧ deleted (sp_h s') = deleted (sp_h s) ++ object s a ∧
          ∀ b, b ≠ 0 → b ≠ a → 0 < owners s b → 0 < owners s' b).
Proof.
  intros W Hop. destruct (sp_step_ok op s W Hop) as (s' & g & E & W' & [D S N]). exists s'. split_and!; [done|done| |].
  - intros v x Hv. unfold use_count. destruct (Z.eqb_spec (sp_container x) 0) as [|Hx]; [done|].
    pose proof (var_owns s' v x Hv) as Ho. apply (alive_owned s' _ W' Hx) in Ho as [c Hc].
    unfold get_container. rewrite Hc. cbn [mbind outcome_bind].
    by destruct (ho_container _ _ _ (sw_heap _ W') _ _ Hc) as (_ & -> & _).
  - assert (∀ b, b ≠ 0 → g ≠ Some b → 0 < owners s b → 0 < owners s' b) as Hstay.
    { intros b Hb Hg [c Hc]%alive_owned; [|done..]. specialize (S b c Hc). apply alive_owned; [done..|].
      destruct (containers (sp_h s') !! b); [eauto|done]. }
    destruct g as [a|]; [|left; split; [simpl in D; by rewrite app_nil_r in D|naive_solver]].
    unfold object. simpl in D. destruct (containers (sp_h s) !! a) as [c|] eqn:Hc.
    + right. exists a. destruct (ho_container _ _ _ (sw_heap _ W) _ _ Hc) as (Ha & _ & Ho & _). rewrite Hc. split_and!; [lia| |done|].
      * apply owners_zero; [done..|]. specialize (S a c Hc). by destruct (containers (sp_h s') !! a) as [c'|]; [destruct S|].
      * intros b Hb Hne. apply Hstay; [done|congruence].
    + left. split; [by rewrite app_nil_r in D|]. intros b Hb Ho. apply Hstay; [done| |done]. intros [= <-].
      apply (alive_owned s a W Hb) in Ho as [? ?]. congruence.
Qed.

Lemma new_weak_refers s s' w v d x :
  sp_wf s → op_ok (WkNew w v d) s → sp_step (WkNew w v d) s = Ret s' → shareds s !! v = Some x →
  object s (sp_container x) ≠ [] →
  ∃ y, weaks s' !! w = Some y ∧ ∀ a, refers (sp_h s') y a ↔ a = sp_container x.
Proof.
  intros W (Hs & Hws & Hw & _ & Hd0 & Hd) E Hv Ho.
  destruct (wk_new_ok (sp_h s) _ _ x d (sw_heap _ W)) as (y & h' & E' & H' & _ & Hy); [|done|done| |].
  { intros _. pose proof (var_bounds s Hs v x Hv). lia. }
  { intros d' _. pose proof (weak_owners_lt s Hws d'). lia. }
  simpl in E. unfold get_shared in E. rewrite Hv in E. cbn [mbind outcome_bind] in E. rewrite E' in E. injection E as <-.
  exists y. split; [apply lookup_insert_eq|]. unfold object in Ho.
  destruct (containers (sp_h s) !! sp_container x) as [c|]; [|done]. destruct (c_ptr c =? 0); [done|].
  destruct Hy as (Hy & _ & _ & c' & Hc' & Ec'). intros a. split.
  - intros (_ & c2 & Hc2 & Ec2). apply (ho_inj _ _ _ H' a _ c2 c'); [exact Hc2|exact Hc'|congruence..].
  - intros ->. split; [done|]. by exists c'.
Qed.

(** C30: A weak pointer follows its object: an operation that does not change
    it leaves it referring to the same object as long as this has an owner
    and to none afterwards, even if the memory of the container is used
    again; one made from a shared pointer to an object refers to this
    object; and lock returns an owner of the object it refers to, or the
    null pointer if there is none. *)
Theorem weak_ptr_tracks (op : sp_op) (s s' : sp_state) :
  sp_wf s → op_ok op s → sp_step op s = Ret s' →
  (∀ w y a, weaks s !! w = Some y → weaks s' !! w = Some y →
     refers (sp_h s') y a ↔ refers (sp_h s) y a ∧ 0 < owners s' a) ∧
  match op with
  | WkNew w v _ => ∀ x, shareds s !! v = Some x → object s (sp_container x) ≠ [] →
      ∃ y, weaks s' !! w = Some y ∧ ∀ a, refers (sp_h s') y a ↔ a = sp_container x
  | WkLock v w => ∀ y, weaks s !! w = Some y →
      (∃ a, refers (sp_h s) y a ∧ shareds s' !! v = Some (SharedPtr a (wp_ptr y)) ∧ owners s' a = owners s a + 1) ∨
      (∀ a, ¬ refers (sp_h s) y a) ∧ shareds s' !! v = Some null_shared
  | _ => True
  end.
Proof.
  intros W Hop E. split.
  - intros w y a Hw Hw'. destruct (sp_step_ok op s W Hop) as (s1 & g & E1 & W' & [D S N]).
    rewrite E in E1. injection E1 as <-. split.
    + intros (Hy & c' & Hc' & Ec). assert (a ≠ 0) as Ha by (by destruct (ho_container _ _ _ (sw_heap _ W') _ _ Hc')).
      split; [|apply alive_owned; eauto]. split; [done|].
      destruct (weak_var_dir s W w y Hw Hy) as [wd Hwd]. destruct (containers (sp_h s) !! a) as [c|] eqn:Hc.
      * exists c. split; [done|]. specialize (S a c Hc). rewrite Hc' in S. destruct S as (_ & _ & [?|[_ ?]]); congruence.
      * destruct (N a c' Hc' Hc); congruence.
    + intros ((Hy & c & Hc & Ec) & Ho). assert (a ≠ 0) as Ha by (by destruct (ho_container _ _ _ (sw_heap _ W) _ _ Hc)).
      apply (alive_owned s' a W' Ha) in Ho as [c' Hc']. split; [done|]. exists c'. split; [done|].
      specialize (S a c Hc). rewrite Hc' in S. destruct S as (_ & _ & [?|[? _]]); congruence.
  - destruct op as [| | | | | | | | | | | | | | |w v d| | | | | |v w]; try exact I; destruct Hop as (Hs & Hws & H).
    + intros x Hv Ho. by eapply (new_weak_refers s s' w v d x W (conj Hs (conj Hws H))).
    + intros y Hy. destruct H as (Hv & _).
      destruct (step_wk_lock s W Hs v w y Hv Hy) as (x & h' & E' & W' & V & Hx).
      rewrite E in E'. injection E' as ->. destruct Hx as [[Hr ->]|[Hr ->]].
      * left. exists (wp_container y). split; [done|]. split; [apply lookup_insert_eq|].
        unfold owners. simpl. rewrite (total_insert (λ x, one x (wp_container y))) by done.
        unfold one at 1. simpl. rewrite Z.eqb_refl. lia.
      * right. split; [done|]. apply lookup_insert_eq.
Qed.

(** Every operation of the list is used as it may be. *)
Fixpoint run_ok (ops : list sp_op) (s : sp_state) : Prop :=
  match ops with
  | [] => True
  | op :: ops => op_ok op s ∧ match sp_step op s with Ret s => run_ok ops s | _ => True end
  end.

Lemma sp_init_wf : sp_wf sp_init.
Proof.
  constructor; simpl; [|by intros v x; rewrite lookup_empty..].
  constructor; simpl; intros; try (by rewrite lookup_empty in *); done.
Qed.

Lemma sp_run_wf ops : ∀ s, sp_wf s → run_ok ops s → ∃ s', sp_run ops s = Ret s' ∧ sp_wf s'.
Proof.
  induction ops as [|op ops IH]; intros s W; simpl; [by exists s|]. intros [Hop Hr].
  destruct (sp_step_ok op s W Hop) as (s1 & g & E & W1 & _). rewrite E in *. by apply IH.
Qed.

(** A program that uses shared and weak pointers as they may be used
    never touches memory that is gone; each pointer that is not null belongs
    to a container that exists; and when all variables are gone, no container
    and no directory is left. *)
Theorem shared_ptr_safe (ops : list sp_op) :
  run_ok ops sp_init →
  ∃ s, sp_run ops sp_init = Ret s ∧
    (∀ v x, shareds s !! v = Some x → sp_ptr x ≠ 0 → is_Some (containers (sp_h s) !! sp_container x)) ∧
    (shareds s = ∅ → weaks s = ∅ → containers (sp_h s) = ∅ ∧ dirs (sp_h s) = ∅).
Proof.
  intros Hr. destruct (sp_run_wf ops sp_init sp_init_wf Hr) as (s & E & W). exists s. split_and!; [done| |].
  - intros v x Hv Hp. assert (sp_container x ≠ 0) as Hx by (intros Hx; by destruct Hp, (sw_ptr _ W v x Hv)).
    apply alive_owned; [done..|]. by eapply var_owns.
  - intros Es Ew. assert (containers (sp_h s) = ∅) as Ec.
    { apply map_empty. intros a. destruct (containers (sp_h s) !! a) as [c|] eqn:Hc; [|done].
      destruct (ho_container _ _ _ (sw_heap _ W) _ _ Hc) as (_ & _ & Ho & _). unfold owners in Ho. rewrite Es in Ho.
      change (total (λ x, one x a) ∅) with 0 in Ho. lia. }
    split; [done|]. apply map_empty. intros d. destruct (dirs (sp_h s) !! d) as [w|] eqn:Hd; [|done].
    destruct (ho_dir _ _ _ (sw_heap _ W) _ _ Hd) as (_ & Hr' & Hb & _ & Hx). unfold weak_owners in Hr'. rewrite Ew in Hr'.
    change (total (λ x, wone x d) ∅) with 0 in Hr'. destruct Hx as [Hx|(_ & a & c & Hc & _)]; [lia|].
    by rewrite Ec, lookup_empty in Hc.
Qed.

(** * Examples *)

(** An object with two owners and a weak pointer; the owners go, and lock
    then fails. *)
Definition example_ops : list sp_op :=
  [ShNew 0 100 16; ShCopy 1 0; WkNew 0 1 32; ShDestroy 0; WkLock 2 0; ShDestroy 1; ShDestroy 2; WkLock 3 0].

Lemma example_run_ok : run_ok example_ops sp_init.
Proof.
  unfold example_ops, run_ok, op_ok, new_shared, is_shared, fresh_container, fresh_dir, new_weak, is_weak.
  vm_compute. repeat split; try discriminate; eauto.
Qed.

Lemma shared_ptr_safe_witness :
  ∃ s, sp_run example_ops sp_init = Ret s ∧ deleted (sp_h s) = [100] ∧ shareds s !! 3%nat = Some null_shared ∧
    ∀ v x, shareds s !! v = Some x → sp_ptr x ≠ 0 → is_Some (containers (sp_h s) !! sp_container x).
Proof.
  destruct (shared_ptr_safe example_ops example_run_ok) as (s & E & H & _). exists s. split; [exact E|].
  assert (∃ s', sp_run example_ops sp_init = Ret s' ∧ deleted (sp_h s') = [100] ∧
                shareds s' !! 3%nat = Some null_shared) as (s' & E' & H1 & H2).
  { eexists. split; [vm_compute; reflexivity|]. split; vm_compute; reflexivity. }
  rewrite E in E'. injection E' as <-. exact (conj H1 (conj H2 H)).
Defined.

(** The state before the last owner goes. *)
Definition example_state : sp_state :=
  match sp_run (take 6 example_ops) sp_init with Ret s => s | _ => sp_init end.

Lemma example_state_wf : sp_wf example_state.
Proof.
  destruct (sp_run_wf (take 6 example_ops) sp_init sp_init_wf) as (s & E & W).
  - unfold example_ops, run_ok, op_ok, new_shared, is_shared, fresh_container, fresh_dir, new_weak, is_weak.
    vm_compute. repeat split; try discriminate; eauto.
  - unfold example_state. by rewrite E.
Qed.

Lemma example_destroy_ok : op_ok (ShDestroy 2) example_state.
Proof. unfold op_ok, is_shared. vm_compute. repeat split; eauto. Qed.

Lemma shared_ptr_step_witness :
  ∃ s', sp_step (ShDestroy 2) example_state = Ret s' ∧ deleted (sp_h s') = [100] ∧ sp_wf s'.
Proof.
  destruct (shared_ptr_step (ShDestroy 2) example_state example_state_wf example_destroy_ok) as (s' & E & W & _).
  exists s'. split; [exact E|]. split; [|exact W].
  assert (∃ s1, sp_step (ShDestroy 2) example_state = Ret s1 ∧ deleted (sp_h s1) = [100]) as (s1 & E1 & H1).
  { eexists. split; vm_compute; reflexivity. }
  rewrite E in E1. injection E1 as <-. exact H1.
Defined.

Lemma example_lock_ok : op_ok (WkLock 3 0) example_state.
Proof. unfold op_ok, new_shared, is_weak. vm_compute. repeat split; eauto. Qed.

Lemma weak_ptr_tracks_witness :
  ∃ s' y, sp_step (WkLock 3 0) example_state = Ret s' ∧ weaks example_state !! 0%nat = Some y ∧
    ∃ a, refers (sp_h example_state) y a ∧ shareds s' !! 3%nat = Some (SharedPtr a (wp_ptr y)).
Proof.
  assert (∃ s', sp_step (WkLock 3 0) example_state = Ret s' ∧ shareds s' !! 3%nat = Some (SharedPtr 16 100))
    as (s' & E & H3) by (eexists; split; vm_compute; reflexivity).
  assert (weaks example_state !! 0%nat = Some (WeakPtr 32 16 100)) as Hy by (vm_compute; reflexivity).
  exists s', (WeakPtr 32 16 100). split; [exact E|]. split; [exact Hy|].
  destruct (weak_ptr_tracks (WkLock 3 0) example_state s' example_state_wf example_lock_ok E) as [_ Hl].
  destruct (Hl _ Hy) as [(a & Ha & Hs & _)|[_ Hn]]; [exists a; exact (conj Ha Hs)|].
  rewrite H3 in Hn. discriminate Hn.
Defined.
