(* ===== verification/SharedPtrRace.v ===== *)
(** Shared pointers of several threads (include/std/memory.h): the
    instructions on the counters of one container and its directory of weak
    pointers, interleaved.

    Each thread has a weak pointer, if there are any ([rc_weak]), and may
    have a shared pointer.  A step is one access to a counter; an access to
    the container after its deletion is [OutOfBounds]. *)
From S2P Require Import Prelude SharedPtr.

Local Open Scope Z_scope.

(** * Steps *)

(** Where a thread is in ~shared_ptr and weak_ptr::lock. *)
Inductive rc_pc :=
| NoPtr
| HasPtr
| Releasing            (* release: ref is 0, xrelease is next *)
| Deleting             (* the container is to be deleted *)
| XReading             (* lock: xacquire reads xref *)
| XSwapping (x : Z)    (* lock: xacquire compares and swaps *)
| Locking              (* lock: container->acquire is next *)
| Locked               (* lock: xrelease_or_take_ownership reads xref *)
| LockedSwapping (x : Z).

#[export] Instance rc_pc_eq : EqDecision rc_pc.
Proof. solve_decision. Defined.

Record rc_system := RcSystem {
  rc_ref : Z;
  rc_xref : Z;
  rc_weak : bool;
  rc_alive : bool;
  rc_threads : list rc_pc
}.

Inductive rc_action :=
| RcGo                 (* the next instruction *)
| RcDrop               (* the shared pointer ends *)
| RcLock               (* lock of the weak pointer *)
| RcCopy (u : nat).    (* the shared pointer is copied to one of thread [u] *)

Definition rc_set (t : nat) (pc : rc_pc) (s : rc_system) : rc_system :=
  RcSystem (rc_ref s) (rc_xref s) (rc_weak s) (rc_alive s) (<[t := pc]> (rc_threads s)).

Definition set_ref (r : Z) (s : rc_system) : rc_system :=
  RcSystem r (rc_xref s) (rc_weak s) (rc_alive s) (rc_threads s).

Definition set_xref (x : Z) (s : rc_system) : rc_system :=
  RcSystem (rc_ref s) x (rc_weak s) (rc_alive s) (rc_threads s).

(** An access to the container. *)
Definition touch (s s' : rc_system) : outcome rc_system :=
  if rc_alive s then Ret s' else OutOfBounds.

(** Actions that a thread cannot take change nothing. *)
Definition rc_step (t : nat) (a : rc_action) (s : rc_system) : outcome rc_system :=
  match rc_threads s !! t, a with
  | Some HasPtr, RcCopy u =>
    if bool_decide (rc_threads s !! u = Some NoPtr)
    then touch s (rc_set u HasPtr (set_ref (u32 (rc_ref s + 1)) s)) else Ret s
  | Some HasPtr, RcDrop =>
    let r := u32 (rc_ref s - 1) in
    touch s (rc_set t (if r =? 0 then if rc_weak s then Releasing else Deleting else NoPtr) (set_ref r s))
  | Some Releasing, RcGo =>
    let x := u32 (rc_xref s - 1) in
    Ret (rc_set t (if x =? 0 then Deleting else NoPtr) (set_xref x s))
  | Some Deleting, RcGo =>
    touch s (RcSystem (rc_ref s) (rc_xref s) (rc_weak s) false (<[t := NoPtr]> (rc_threads s)))
  | Some NoPtr, RcLock => if rc_weak s then Ret (rc_set t XReading s) else Ret s
  | Some XReading, RcGo => Ret (rc_set t (if rc_xref s =? 0 then NoPtr else XSwapping (rc_xref s)) s)
  | Some (XSwapping x), RcGo =>
    if rc_xref s =? x then Ret (rc_set t Locking (set_xref (u32 (x + 1)) s)) else Ret (rc_set t XReading s)
  | Some Locking, RcGo => touch s (rc_set t Locked (set_ref (u32 (rc_ref s + 1)) s))
  | Some Locked, RcGo => Ret (rc_set t (if rc_xref s <=? 1 then HasPtr else LockedSwapping (rc_xref s)) s)
  | Some (LockedSwapping x), RcGo =>
    if rc_xref s =? x then Ret (rc_set t HasPtr (set_xref (u32 (x - 1)) s)) else Ret (rc_set t Locked s)
  | _, _ => Ret s
  end.

Fixpoint rc_run (l : list (nat * rc_action)) (s : rc_system) : outcome rc_system :=
  match l with
  | [] => Ret s
  | (t, a) :: l => s ← rc_step t a s; rc_run l s
  end.

(** [n] threads, of which the first has made the shared pointer. *)
Definition rc_init (weak : bool) (n : nat) : rc_system :=
  RcSystem 1 1 weak true (HasPtr :: replicate n NoPtr).

(** * Without weak pointers *)

Definition count_pc (pc : rc_pc) (l : list rc_pc) : Z := Z.of_nat (length (filter (pc =.) l)).

Lemma count_insert pc pc' l t old :
  l !! t = Some old →
  count_pc pc (<[t := pc']> l) =
  count_pc pc l + (if bool_decide (pc = pc') then 1 else 0) - (if bool_decide (pc = old) then 1 else 0).
Proof.
  intros Ht. unfold count_pc. rewrite (insert_take_drop l t pc') by (by eapply lookup_lt_Some).
  replace (filter (pc =.) l) with (filter (pc =.) (take t l ++ old :: drop (S t) l))
    by (f_equal; by apply take_drop_middle). rewrite !filter_app, !filter_cons.
  repeat case_bool_decide; repeat case_decide; simplify_eq; rewrite ?length_app; simpl; lia.
Qed.

Lemma count_pos pc l t : l !! t = Some pc → 0 < count_pc pc l.
Proof.
  intros Ht. unfold count_pc. assert (pc ∈ filter (pc =.) l) as Hin.
  { apply list_elem_of_filter. split; [done|]. by eapply list_elem_of_lookup_2. }
  destruct (filter (pc =.) l); [by apply not_elem_of_nil in Hin|]. simpl. lia.
Qed.

Lemma count_le pc l : 0 ≤ count_pc pc l ≤ Z.of_nat (length l).
Proof. unfold count_pc. pose proof (length_filter (pc =.) l). lia. Qed.

(** The counter is the number of owners until the last one has gone; then
    one thread deletes the container, once. *)
Record rc_inv (n : nat) (s : rc_system) : Prop := {
  ri_weak : rc_weak s = false;
  ri_length : length (rc_threads s) = S n;
  ri_pcs : Forall (λ pc, pc = NoPtr ∨ pc = HasPtr ∨ pc = Deleting) (rc_threads s);
  ri_ref : rc_ref s = count_pc HasPtr (rc_threads s);
  ri_del : count_pc Deleting (rc_threads s) = if rc_alive s && (rc_ref s =? 0) then 1 else 0;
  ri_alive : rc_alive s = false → rc_ref s = 0
}.

Section no_weak.

Context (n : nat) (Hn : Z.of_nat (S n) < 2 ^ 32).

Lemma rc_step_inv t a s : rc_inv n s → ∃ s', rc_step t a s = Ret s' ∧ rc_inv n s'.
Proof.
  intros I. pose proof I as [Hw Hl Hp Hr Hd Ha]. unfold rc_step.
  destruct (rc_threads s !! t) as [pc|] eqn:Ht; [|by exists s].
  pose proof (Forall_lookup_1 _ _ _ _ Hp Ht) as Hpc. pose proof (count_le HasPtr (rc_threads s)) as Hb.
  assert (∀ pc' r u old, rc_threads s !! u = Some old → (pc' = NoPtr ∨ pc' = HasPtr ∨ pc' = Deleting) →
    r = count_pc HasPtr (<[u := pc']> (rc_threads s)) →
    count_pc Deleting (<[u := pc']> (rc_threads s)) = (if r =? 0 then 1 else 0) → rc_alive s = true →
    rc_inv n (rc_set u pc' (set_ref r s))) as Hset.
  { intros pc' r u old Hu Hpc' Er Ed Eal. constructor; simpl; [done|by rewrite length_insert|by apply Forall_insert|done| |].
    - by rewrite Eal.
    - congruence. }
  destruct Hpc as [-> | [-> | ->]].
  - destruct a; rewrite ?Hw; by exists s.
  - pose proof (count_pos _ _ _ Ht) as Hpos.
    assert (rc_alive s = true) as Hal by (destruct (rc_alive s); [done|specialize (Ha eq_refl); lia]).
    rewrite Hal, (proj2 (Z.eqb_neq (rc_ref s) 0)) in Hd by lia. simpl in Hd. unfold touch. rewrite Hal.
    destruct a as [| | |u]; [by exists s| |by exists s|].
    + rewrite Hw, Hr, (wrap_id 32) by (unfold is_u; lia). eexists. split; [done|].
      apply (Hset _ _ t HasPtr); [done|destruct (_ =? 0); auto| | |done].
      * rewrite (count_insert _ _ _ t HasPtr Ht). destruct (_ =? 0); repeat case_bool_decide; try done; lia.
      * rewrite (count_insert _ _ _ t HasPtr Ht). destruct (_ =? 0); repeat case_bool_decide; try done; lia.
    + case_bool_decide as Hu; [|by exists s]. pose proof (count_insert HasPtr HasPtr _ u NoPtr Hu) as E1.
      pose proof (count_insert Deleting HasPtr _ u NoPtr Hu) as E2. repeat case_bool_decide; try done.
      pose proof (count_le HasPtr (<[u := HasPtr]> (rc_threads s))) as Hb'. rewrite length_insert in Hb'.
      rewrite Hr, (wrap_id 32) by (unfold is_u; lia). eexists. split; [done|].
      apply (Hset _ _ u NoPtr); [done|auto|lia| |done]. rewrite (proj2 (Z.eqb_neq _ 0)); lia.
  - pose proof (count_pos _ _ _ Ht) as Hpos. destruct (rc_alive s) eqn:Hal; [|rewrite andb_false_l in Hd; lia].
    destruct a; try (by exists s). unfold touch. rewrite Hal. eexists. split; [done|].
    rewrite andb_true_l in Hd. destruct (Z.eqb_spec (rc_ref s) 0) as [Er|]; [|lia].
    constructor; simpl; [done|by rewrite length_insert|apply Forall_insert; auto| | |done].
    + rewrite (count_insert _ _ _ t Deleting Ht). repeat case_bool_decide; try done. lia.
    + rewrite (count_insert _ _ _ t Deleting Ht). repeat case_bool_decide; try done. lia.
Qed.

Lemma rc_run_inv l : ∀ s, rc_inv n s → ∃ s', rc_run l s = Ret s' ∧ rc_inv n s'.
Proof.
  induction l as [|[t a] l IH]; intros s I; simpl; [by exists s|].
  destruct (rc_step_inv t a s I) as (s1 & -> & I1). cbn [mbind outcome_bind]. by apply IH.
Qed.

End no_weak.

Lemma count_replicate pc pc' n : count_pc pc (replicate n pc') = if bool_decide (pc = pc') then Z.of_nat n else 0.
Proof.
  unfold count_pc. induction n as [|n IH]; simpl; [by case_match|].
  rewrite filter_cons. case_decide; case_bool_decide; try done. simpl. lia.
Qed.

Lemma rc_init_inv n : rc_inv n (rc_init false n).
Proof.
  constructor; simpl; [done|by rewrite length_replicate| | | |done].
  - constructor; [auto|]. apply Forall_replicate. auto.
  - unfold count_pc. rewrite filter_cons_True by done. simpl. fold (count_pc HasPtr (replicate n NoPtr)).
    rewrite Nat2Z.inj_succ. change (Z.of_nat _) with (count_pc HasPtr (replicate n NoPtr)). by rewrite count_replicate.
  - unfold count_pc. rewrite filter_cons_False by done. fold (count_pc Deleting (replicate n NoPtr)).
    by rewrite count_replicate.
Qed.

(** * The properties *)

(** C39: Without weak pointers shared pointers are safe in any interleaving of
    fewer than 2^32 threads: no thread touches the container after its
    deletion, the container lives as long as a thread has a pointer to it,
    and when the last pointer has gone exactly one thread deletes it, once. *)
Theorem shared_ptr_threads_safe (n : nat) (l : list (nat * rc_action)) :
  Z.of_nat (S n) < 2 ^ 32 →
  ∃ s, rc_run l (rc_init false n) = Ret s ∧ rc_ref s = count_pc HasPtr (rc_threads s) ∧
    (0 < count_pc HasPtr (rc_threads s) → rc_alive s = true) ∧
    (count_pc HasPtr (rc_threads s) = 0 →
     count_pc Deleting (rc_threads s) = if rc_alive s then 1 else 0).
Proof.
  intros Hn. destruct (rc_run_inv n Hn l (rc_init false n) (rc_init_inv n)) as (s & E & [_ _ _ Hr Hd Ha]).
  exists s. split_and!; [done|done| |].
  - intros Hp. destruct (rc_alive s); [done|]. specialize (Ha eq_refl). lia.
  - intros H0. rewrite Hd, Hr, H0. by destruct (rc_alive s).
Qed.

Lemma shared_ptr_threads_safe_witness :
  ∃ s, rc_run [(0, RcCopy 1); (0, RcDrop); (1, RcDrop); (1, RcGo)]%nat (rc_init false 1) = Ret s ∧
       rc_alive s = false ∧ rc_ref s = count_pc HasPtr (rc_threads s).
Proof.
  destruct (shared_ptr_threads_safe 1 [(0, RcCopy 1); (0, RcDrop); (1, RcDrop); (1, RcGo)]%nat) as (s & E & H & _);
    [vm_compute; reflexivity|]. exists s. split; [exact E|]. split; [|exact H].
  vm_compute in E. injection E as <-. reflexivity.
Defined.

(** The last owner stops between the two counters, and the other thread
    locks its weak pointer in between. *)
Definition race : list (nat * rc_action) :=
  [(0, RcDrop); (1, RcLock); (1, RcGo); (1, RcGo); (1, RcGo); (1, RcGo); (1, RcGo); (0, RcGo); (0, RcGo)]%nat.

(** Two threads lock at once; the first takes the share of the owner that
    goes, the second is left with a container that is deleted. *)
Definition race2 : list (nat * rc_action) :=
  [(1, RcLock); (1, RcGo); (1, RcGo); (2, RcLock); (2, RcGo); (2, RcGo); (0, RcDrop); (0, RcGo);
   (1, RcGo); (1, RcGo); (1, RcGo); (1, RcDrop); (1, RcGo); (1, RcGo)]%nat.

(** An example: weak_ptr::lock races with the end of the last shared pointer: the
    thread gets a shared pointer whose container the other thread then
    deletes.  Two locks at the same time as this end go wrong as well: the
    second one counts up in a container that is deleted. *)
Example weak_lock_race :
  (∃ s, rc_run race (rc_init true 1) = Ret s ∧ rc_alive s = false ∧ rc_threads s = [NoPtr; HasPtr] ∧
        rc_step 1 RcDrop s = OutOfBounds) ∧
  ∃ s, rc_run race2 (rc_init true 2) = Ret s ∧ rc_threads s = [NoPtr; NoPtr; Locking] ∧
       rc_step 2 RcGo s = OutOfBounds.
Proof. split; eexists; (split; [vm_compute; reflexivity|]); by vm_compute. Qed.
