(* ===== verification/Semaphore.v ===== *)
(** raw_semaphore of x86-64 (kernel/arch/x86_64/raw_semaphore.cpp): two words,
    the next ticket and the limit.  acquire takes a ticket and sleeps while
    the limit is below it; release raises the limit and sends the event that
    wakes the task with the ticket it has reached.

    A step is one access to the words or one call of the scheduler.  Of the
    scheduler the model has, for each task, whether it is blocked and its
    handler for the semaphore; what an event does to a handler is [fires] of
    SchedInv.v. *)
From S2P Require Import Prelude Task Tasklist SchedInv.

Local Open Scope Z_scope.

(** * The words *)

Record raw_semaphore := Sema { sem_next : Z; sem_limit : Z }.

Definition new_semaphore (count : Z) : raw_semaphore := Sema 0 (u32 count).

Definition sem_create_ticket (l : raw_semaphore) : Z * raw_semaphore :=
  (sem_next l, Sema (u32 (sem_next l + 1)) (sem_limit l)).

(** The instruction cmpxchg leaves the value it found in the register if it
    fails; the result compares this value with the ticket. *)
Definition sem_try_acquire_ticket (ticket : Z) (l : raw_semaphore) : bool * raw_semaphore :=
  let rax := u32 (ticket - 1) in
  if sem_next l =? rax then (u32 (rax + 1) =? ticket, Sema ticket (sem_limit l))
  else (sem_next l =? ticket, l).

Definition sem_release_ticket (l : raw_semaphore) : Z * raw_semaphore :=
  (u32 (sem_limit l + 1), Sema (sem_next l) (u32 (sem_limit l + 1))).

(** May the ticket pass?  The difference of the words as a signed number. *)
Definition sem_passes (ticket : Z) (l : raw_semaphore) : bool :=
  u32 (sem_limit l - ticket) <? 0x80000000.

(** * Steps *)

(** Where a task is. *)
Inductive sem_pc :=
| SOut
| SLook (k : Z)      (* acquire: has its ticket, looks at the limit *)
| SHandler (k : Z)   (* acquire: makes its handler known *)
| SLook2 (k : Z)     (* acquire: second look *)
| SBlock (k : Z)     (* acquire: set_blocked("semaacq", true) *)
| SAgain (k : Z)     (* acquire: third look, with interrupts off *)
| SSleep (k : Z)     (* acquire: the task switch and the loop *)
| SClear (k : Z)     (* acquire: the event that removes the handler *)
| SEvent (v : Z)     (* release: the event is to come *)
| STryLimit          (* try_acquire: reads the limit *)
| STryNext (lim : Z) (* try_acquire: reads the next ticket *)
| STrySwap (tic : Z) (* try_acquire: compares and swaps *).

Record sem_thread := SThread { spc : sem_pc; sblocked : bool; shandler : option Z }.

(** [ss_acquired] and [ss_tried] count the calls of acquire and try_acquire
    that have succeeded, [ss_released] those of release. *)
Record sem_system := SSystem {
  ss_words : raw_semaphore;
  ss_threads : list sem_thread;
  ss_acquired : Z;
  ss_tried : Z;
  ss_released : Z
}.

(** What a task begins when it is outside. *)
Inductive sem_call := SemAcquire | SemTryAcquire | SemRelease.

Definition sem_hears (v : Z) (th : sem_thread) : sem_thread :=
  match shandler th with
  | Some k =>
    if fires false (Handler 0 (task_semaphore_handler 0 0 k)) TASK_EVENT_SEMAPHORE 0 v
    then SThread (spc th) false None else th
  | None => th
  end.

Definition set_sem_thread (s : sem_system) (t : nat) (th : sem_thread) : sem_system :=
  SSystem (ss_words s) (<[t := th]> (ss_threads s)) (ss_acquired s) (ss_tried s) (ss_released s).

Definition set_words (s : sem_system) (l : raw_semaphore) : sem_system :=
  SSystem l (ss_threads s) (ss_acquired s) (ss_tried s) (ss_released s).

Definition count_acquired (s : sem_system) : sem_system :=
  SSystem (ss_words s) (ss_threads s) (ss_acquired s + 1) (ss_tried s) (ss_released s).

Definition count_tried (s : sem_system) : sem_system :=
  SSystem (ss_words s) (ss_threads s) (ss_acquired s) (ss_tried s + 1) (ss_released s).

Definition count_released (s : sem_system) : sem_system :=
  SSystem (ss_words s) (ss_threads s) (ss_acquired s) (ss_tried s) (ss_released s + 1).

(** The next step of task [t], which begins [c] if it is outside. *)
Definition sem_step (t : nat) (c : sem_call) (s : sem_system) : option sem_system :=
  th ← ss_threads s !! t;
  let l := ss_words s in
  let to s pc := set_sem_thread s t (SThread pc (sblocked th) (shandler th)) in
  match spc th with
  | SOut =>
    match c with
    | SemAcquire => let '(k, l) := sem_create_ticket l in Some (to (set_words s l) (SLook k))
    | SemTryAcquire => Some (to s STryLimit)
    | SemRelease => let '(v, l) := sem_release_ticket l in Some (to (count_released (set_words s l)) (SEvent v))
    end
  | SLook k => Some (if sem_passes k l then to (count_acquired s) SOut else to s (SHandler k))
  | SHandler k => Some (set_sem_thread s t (SThread (SLook2 k) (sblocked th) (Some k)))
  | SLook2 k => Some (if sem_passes k l then to s (SSleep k) else to s (SBlock k))
  | SBlock k => Some (set_sem_thread s t (SThread (SAgain k) true (shandler th)))
  | SAgain k =>
    Some (if sem_passes k l then set_sem_thread s t (SThread (SSleep k) false (shandler th)) else to s (SSleep k))
  | SSleep k =>
    if sblocked th then None else Some (if sem_passes k l then to s (SClear k) else s)
  | SClear k => Some (set_sem_thread (count_acquired s) t (SThread SOut (sblocked th) None))
  | SEvent v =>
    let s := to s SOut in
    Some (SSystem (ss_words s) (sem_hears v <$> ss_threads s) (ss_acquired s) (ss_tried s) (ss_released s))
  | STryLimit => Some (to s (STryNext (sem_limit l)))
  | STryNext lim =>
    let diff := u32 (lim - sem_next l) in
    Some (if (diff =? 0) || (0x80000000 <=? diff) then to s SOut else to s (STrySwap (sem_next l)))
  | STrySwap tic =>
    let '(ok, l) := sem_try_acquire_ticket (u32 (tic + 1)) l in
    Some (if ok then to (count_tried (set_words s l)) SOut else to (set_words s l) STryLimit)
  end.

Fixpoint sem_run (ts : list (nat * sem_call)) (s : sem_system) : option sem_system :=
  match ts with
  | [] => Some s
  | (t, c) :: ts => s' ← sem_step t c s; sem_run ts s'
  end.

Definition sem_init (count : Z) (n : nat) : sem_system :=
  SSystem (new_semaphore count) (replicate n (SThread SOut false None)) 0 0 0.

(** * The invariant

    [lim] is the limit as a number that does not wrap around, and [j] a bound
    on it and on the tickets. *)

(** The ticket a task waits with. *)
Definition pending (pc : sem_pc) : option Z :=
  match pc with
  | SLook k | SHandler k | SLook2 k | SBlock k | SAgain k | SSleep k | SClear k => Some k
  | _ => None
  end.

Definition pendings (ths : list sem_thread) : list Z := omap (λ th, pending (spc th)) ths.

Definition sem_thread_ok (lim : Z) (pcs : list sem_pc) (th : sem_thread) : Prop :=
  match spc th with
  | SOut | STryLimit => sblocked th = false
  | STryNext w => sblocked th = false ∧ ∃ lim', -1 ≤ lim' ≤ lim ∧ w = u32 lim'
  | STrySwap tic => sblocked th = false ∧ 0 ≤ tic ≤ lim
  | SLook _ | SHandler _ => sblocked th = false ∧ shandler th = None
  | SLook2 k | SBlock k => sblocked th = false ∧ (lim < k → shandler th = Some k)
  | SAgain k => lim < k → shandler th = Some k
  | SSleep k => sblocked th = true →
                shandler th = Some k ∧ (k ≤ lim → ∃ u, pcs !! u = Some (SEvent k))
  | SClear k => sblocked th = false ∧ k ≤ lim
  | SEvent v => sblocked th = false ∧ 0 ≤ v ≤ lim
  end.

Definition sem_handler_ok (th : sem_thread) : Prop :=
  ∀ k, shandler th = Some k → pending (spc th) = Some k.

Record sem_inv (count j : Z) (s : sem_system) : Prop := {
  si_limit : sem_limit (ss_words s) = u32 (count + ss_released s);
  si_next : 0 ≤ sem_next (ss_words s) ≤ j;
  si_released : 0 ≤ ss_released s ≤ j;
  si_nodup : NoDup (pendings (ss_threads s));
  si_pending : ∀ k, k ∈ pendings (ss_threads s) → 0 ≤ k < sem_next (ss_words s);
  si_passed : ∀ k, 0 ≤ k < sem_next (ss_words s) → k ∉ pendings (ss_threads s) → k ≤ count + ss_released s;
  si_acquired : ss_acquired s ≤ sem_next (ss_words s) - Z.of_nat (length (pendings (ss_threads s)))
                ≤ ss_acquired s + ss_tried s;
  si_handler : ∀ t th, ss_threads s !! t = Some th → sem_handler_ok th;
  si_thread : ∀ t th, ss_threads s !! t = Some th →
    sem_thread_ok (count + ss_released s) (spc <$> ss_threads s) th
}.

(** ** Pending tickets *)

Definition opt_list (o : option Z) : list Z := match o with Some k => [k] | None => [] end.

Lemma pendings_middle ths t th :
  ths !! t = Some th →
  pendings ths ≡ₚ opt_list (pending (spc th)) ++ pendings (delete t ths).
Proof.
  intros Ht. rewrite <- (take_drop_middle ths t th Ht) at 1. rewrite delete_take_drop. unfold pendings.
  rewrite !omap_app. simpl. destruct (pending (spc th)) as [k|]; simpl; [|done].
  by rewrite Permutation_middle.
Qed.

Lemma pendings_insert ths t th th' :
  ths !! t = Some th →
  pendings (<[t := th']> ths) ≡ₚ opt_list (pending (spc th')) ++ pendings (delete t ths).
Proof.
  intros Ht. rewrite insert_take_drop by (by eapply lookup_lt_Some). rewrite delete_take_drop. unfold pendings.
  rewrite !omap_app. simpl. destruct (pending (spc th')) as [k|]; simpl; [|done].
  by rewrite Permutation_middle.
Qed.

Lemma pendings_same ths t th th' :
  ths !! t = Some th → pending (spc th') = pending (spc th) → pendings (<[t := th']> ths) ≡ₚ pendings ths.
Proof. intros Ht E. by rewrite (pendings_insert ths t th), (pendings_middle ths t th), E. Qed.

Lemma pendings_hears v ths : pendings (sem_hears v <$> ths) = pendings ths.
Proof.
  induction ths as [|th ths IH]; [done|].
  change (pendings (sem_hears v <$> th :: ths)) with
    (match pending (spc (sem_hears v th)) with
     | Some k => k :: pendings (sem_hears v <$> ths) | None => pendings (sem_hears v <$> ths) end).
  rewrite IH. assert (spc (sem_hears v th) = spc th) as -> by (unfold sem_hears; by repeat case_match). done.
Qed.

(** ** The words as numbers *)

Section sem_inv.

Context (count j : Z) (Hcount : -1 ≤ count) (Hj : 0 ≤ j) (Hbound : count + j < 2 ^ 31 - 1 ∧ j < 2 ^ 31 - 1).

Lemma passes_spec s k :
  sem_inv count j s → 0 ≤ k < 2 ^ 31 → sem_passes k (ss_words s) = (k <=? count + ss_released s).
Proof.
  intros I Hk. unfold sem_passes. rewrite (si_limit _ _ _ I). pose proof (si_released _ _ _ I).
  set (lim := count + ss_released s). assert (-1 ≤ lim < 2 ^ 31) as Hl by (unfold lim; lia).
  assert (u32 (u32 lim - k) = u32 (lim - k)) as ->.
  { unfold wrap. by rewrite Zminus_mod_idemp_l. }
  unfold wrap. destruct (Z.leb_spec k lim) as [Hle|Hlt].
  - rewrite Z.mod_small by lia. apply Z.ltb_lt. lia.
  - rewrite <- (Z_mod_plus_full (lim - k) 1), Z.mod_small by lia. apply Z.ltb_ge. lia.
Qed.

Lemma sem_thread_mono lim lim' (pcs pcs' : list sem_pc) th :
  lim ≤ lim' ≤ lim + 1 → (∀ u k, pcs !! u = Some (SEvent k) → pcs' !! u = Some (SEvent k)) →
  (lim' ≠ lim → ∃ u, pcs' !! u = Some (SEvent lim')) →
  sem_thread_ok lim pcs th → sem_thread_ok lim' pcs' th.
Proof.
  intros Hl Hp Hnew. unfold sem_thread_ok. destruct (spc th) as [|k|k|k|k|k|k|k|v| |w|tic]; try done.
  - intros [Hb Hh]. split; [done|]. intros. apply Hh. lia.
  - intros [Hb Hh]. split; [done|]. intros. apply Hh. lia.
  - intros Hh Hlt. apply Hh. lia.
  - intros H Hb. destruct (H Hb) as [Hh He]. split; [done|]. intros Hk.
    destruct (decide (k ≤ lim)) as [Hkl|Hkl]; [destruct (He Hkl) as [u Hu]; eauto|].
    destruct Hnew as [u Hu]; [lia|]. exists u. by replace k with lim' by lia.
  - intros [Hb Hk]. split; [done|lia].
  - intros [Hb Hk]. split; [done|lia].
  - intros (Hb & lim1 & Hl1 & ->). split; [done|]. exists lim1. split; [lia|done].
  - intros [Hb Hk]. split; [done|lia].
Qed.

Lemma insert_events (ths : list sem_thread) t th th' u k :
  ths !! t = Some th → (∀ v, spc th ≠ SEvent v) →
  (spc <$> ths) !! u = Some (SEvent k) → (spc <$> <[t := th']> ths) !! u = Some (SEvent k).
Proof.
  intros Ht Hne. rewrite !list_lookup_fmap. destruct (decide (u = t)) as [->|E].
  - rewrite Ht. intros [= E]. by destruct (Hne k).
  - by rewrite list_lookup_insert_ne.
Qed.

(** What a step of task [t] leaves to show of the tasks: [th] becomes [th']
    and the limit [lim'] is the old one or the next. *)
Lemma step_tasks s t th th' lim' :
  sem_inv count j s → ss_threads s !! t = Some th → (∀ v, spc th ≠ SEvent v) →
  count + ss_released s ≤ lim' ≤ count + ss_released s + 1 →
  (lim' ≠ count + ss_released s → spc th' = SEvent lim') →
  sem_handler_ok th' → sem_thread_ok lim' (spc <$> <[t := th']> (ss_threads s)) th' →
  ∀ u thu, <[t := th']> (ss_threads s) !! u = Some thu →
    sem_handler_ok thu ∧ sem_thread_ok lim' (spc <$> <[t := th']> (ss_threads s)) thu.
Proof.
  intros I Ht Hne Hl Hev Hh' Hth' u thu Hu.
  apply list_lookup_insert_Some in Hu as [(<- & <- & _)|[_ Hu]]; [done|]. split; [by eapply (si_handler _ _ _ I)|].
  eapply sem_thread_mono; [exact Hl| | |by eapply (si_thread _ _ _ I)].
  - intros v k. by eapply insert_events.
  - intros Hne'. exists t. rewrite list_lookup_fmap, list_lookup_insert_eq by (by eapply lookup_lt_Some). simpl.
    by rewrite Hev.
Qed.

(** A step that changes nothing but the state of its task, or in which
    try_acquire returns true without a ticket of its own. *)
Lemma sem_step_own s t th th' d :
  sem_inv count j s → ss_threads s !! t = Some th → (∀ v, spc th ≠ SEvent v) →
  pending (spc th') = pending (spc th) → 0 ≤ d → sem_handler_ok th' →
  sem_thread_ok (count + ss_released s) (spc <$> <[t := th']> (ss_threads s)) th' →
  sem_inv count (j + 1) (SSystem (ss_words s) (<[t := th']> (ss_threads s)) (ss_acquired s) (ss_tried s + d) (ss_released s)).
Proof.
  intros I Ht Hne Hp Hd Hh' Hth'. pose proof (pendings_same (ss_threads s) t th th' Ht Hp) as E.
  pose proof (step_tasks s t th th' (count + ss_released s) I Ht Hne ltac:(lia) ltac:(done) Hh' Hth') as Ho.
  destruct I as [Il In Ir Ind Ip Ips Ia _ _]. constructor; simpl; [done|lia|lia|by rewrite E| | | |by apply Ho|by apply Ho].
  - intros k. rewrite E. apply Ip.
  - intros k. rewrite E. apply Ips.
  - rewrite E. lia.
Qed.

(** A ticket has passed. *)
Lemma step_pass s t th th' k :
  sem_inv count j s → ss_threads s !! t = Some th → pending (spc th) = Some k → pending (spc th') = None →
  k ≤ count + ss_released s → sem_handler_ok th' →
  sem_thread_ok (count + ss_released s) (spc <$> <[t := th']> (ss_threads s)) th' →
  sem_inv count (j + 1) (set_sem_thread (count_acquired s) t th').
Proof.
  intros I Ht Hk Hn Hle Hh' Hth'.
  assert (∀ v, spc th ≠ SEvent v) as Hne by (intros v E; by rewrite E in Hk).
  pose proof (step_tasks s t th th' (count + ss_released s) I Ht Hne ltac:(lia) ltac:(done) Hh' Hth') as Ho.
  pose proof (pendings_insert (ss_threads s) t th th' Ht) as E'. rewrite Hn in E'. simpl in E'.
  pose proof (pendings_middle (ss_threads s) t th Ht) as E. rewrite Hk in E. simpl in E.
  destruct I as [Il In Ir Ind Ip Ips Ia _ _]. rewrite E in Ind, Ia. simpl in Ia. apply NoDup_cons in Ind as [Hnk Ind].
  constructor; simpl; [done|lia|lia|by rewrite E'| | | |by apply Ho|by apply Ho].
  - intros k'. rewrite E'. intros Hin. apply Ip. rewrite E. by right.
  - intros k' Hk'. rewrite E'. intros Hin. destruct (decide (k' = k)) as [->|Hne']; [done|]. apply Ips; [done|].
    rewrite E. by intros [?|?]%elem_of_cons.
  - rewrite E'. lia.
Qed.

(** A ticket is taken: by acquire, whose task then waits with it, or by
    try_acquire, if it is below the limit. *)
Lemma sem_step_take s t th th' d :
  sem_inv count j s → ss_threads s !! t = Some th → (∀ v, spc th ≠ SEvent v) → pending (spc th) = None →
  (pending (spc th') = Some (sem_next (ss_words s)) ∧ d = 0 ∨
   pending (spc th') = None ∧ sem_next (ss_words s) ≤ count + ss_released s ∧ d = 1) →
  sem_handler_ok th' → sem_thread_ok (count + ss_released s) (spc <$> <[t := th']> (ss_threads s)) th' →
  sem_inv count (j + 1) (SSystem (Sema (u32 (sem_next (ss_words s) + 1)) (sem_limit (ss_words s)))
                                 (<[t := th']> (ss_threads s)) (ss_acquired s) (ss_tried s + d) (ss_released s)).
Proof.
  intros I Ht Hne Hn Hd Hh' Hth'.
  pose proof (step_tasks s t th th' (count + ss_released s) I Ht Hne ltac:(lia) ltac:(done) Hh' Hth') as Ho.
  pose proof (pendings_insert (ss_threads s) t th th' Ht) as E'.
  pose proof (pendings_middle (ss_threads s) t th Ht) as E. rewrite Hn in E. simpl in E. rewrite <- E in E'.
  destruct I as [Il In Ir Ind Ip Ips Ia _ _].
  assert (sem_next (ss_words s) ∉ pendings (ss_threads s)) as Hnew by (intros H%Ip; lia).
  rewrite (wrap_id 32) by (unfold is_u; lia).
  constructor; simpl; [done|lia|lia| | | | |by apply Ho|by apply Ho].
  - rewrite E'. destruct Hd as [[-> _]|[-> _]]; simpl; [by apply NoDup_cons|done].
  - intros k. rewrite E'. destruct Hd as [[-> _]|[-> _]]; simpl.
    + intros [->|Hk%Ip]%elem_of_cons; lia.
    + intros Hk%Ip. lia.
  - intros k Hk. rewrite E'. destruct Hd as [[-> _]|(-> & Hle & _)]; simpl; intros Hin.
    + apply not_elem_of_cons in Hin as [Hk' Hin]. apply Ips; [lia|done].
    + destruct (decide (k = sem_next (ss_words s))) as [->|]; [done|]. apply Ips; [lia|done].
  - rewrite E'. destruct Hd as [[-> ->]|(-> & _ & ->)]; simpl; lia.
Qed.

Lemma sem_step_release s t th :
  sem_inv count j s → ss_threads s !! t = Some th → spc th = SOut →
  sem_inv count (j + 1) (SSystem (Sema (sem_next (ss_words s)) (u32 (sem_limit (ss_words s) + 1)))
    (<[t := SThread (SEvent (u32 (sem_limit (ss_words s) + 1))) (sblocked th) (shandler th)]> (ss_threads s))
    (ss_acquired s) (ss_tried s) (ss_released s + 1)).
Proof.
  intros I Ht Hpc. pose proof (si_released _ _ _ I).
  assert (u32 (sem_limit (ss_words s) + 1) = count + ss_released s + 1) as ->.
  { rewrite (si_limit _ _ _ I). unfold wrap. rewrite Zplus_mod_idemp_l. apply Z.mod_small. lia. }
  set (th' := SThread (SEvent (count + ss_released s + 1)) (sblocked th) (shandler th)).
  pose proof (si_thread _ _ _ I t th Ht) as Hok. unfold sem_thread_ok in Hok. rewrite Hpc in Hok.
  pose proof (si_handler _ _ _ I t th Ht) as Hh. unfold sem_handler_ok in Hh. rewrite Hpc in Hh.
  assert (∀ v, spc th ≠ SEvent v) as Hne by (intros v E; congruence).
  pose proof (step_tasks s t th th' (count + ss_released s + 1) I Ht Hne ltac:(lia) ltac:(done)) as Ho.
  pose proof (pendings_same (ss_threads s) t th th' Ht) as E. rewrite Hpc in E. specialize (E eq_refl).
  assert (sem_handler_ok th') as Hh' by (intros k Hk; specialize (Hh k Hk); done).
  assert (∀ pcs, sem_thread_ok (count + ss_released s + 1) pcs th') as Hth'
    by (intros pcs; unfold sem_thread_ok; simpl; split; [done|lia]).
  specialize (Ho Hh' (Hth' _)). destruct I as [Il In Ir Ind Ip Ips Ia _ _].
  replace (count + (ss_released s + 1)) with (count + ss_released s + 1) in * by lia.
  constructor; simpl; rewrite ?Z.add_assoc; [|lia|lia|by rewrite E| | | |by apply Ho|by apply Ho].
  - symmetry. apply wrap_id. unfold is_u. lia.
  - intros k. rewrite E. apply Ip.
  - intros k Hk. rewrite E. intros Hin. specialize (Ips k Hk Hin). lia.
  - rewrite E. lia.
Qed.

Lemma sem_fires k v :
  fires false (Handler 0 (task_semaphore_handler 0 0 k)) TASK_EVENT_SEMAPHORE 0 v = (v =? k).
Proof. done. Qed.

Lemma sem_hears_ok lim (pcs pcs' : list sem_pc) v th :
  v ≤ lim → (∀ u k, pcs !! u = Some (SEvent k) → pcs' !! u = Some (SEvent k) ∨ k = v) →
  sem_handler_ok th → sem_thread_ok lim pcs th →
  sem_handler_ok (sem_hears v th) ∧ sem_thread_ok lim pcs' (sem_hears v th).
Proof.
  intros Hv Hp Hh Hok. unfold sem_hears. destruct (shandler th) as [k|] eqn:Ek; [rewrite sem_fires; destruct (Z.eqb_spec v k) as [<-|Hne]|].
  - specialize (Hh v Ek). split; [done|]. unfold sem_thread_ok in *. simpl.
    destruct (spc th) as [|k|k|k|k|k|k|k|u| |w|tic]; try done; injection Hh as ->.
    + split; [done|]. intros ?. lia.
    + split; [done|]. intros ?. lia.
    + intros ?. lia.
    + by split; [|apply Hok].
  - split; [done|]. unfold sem_thread_ok in *. destruct (spc th) as [|k'|k'|k'|k'|k'|k'|k'|u| |w|tic]; try done.
    intros Hb. destruct (Hok Hb) as [Hs He]. split; [done|]. intros Hk. destruct (He Hk) as [u Hu].
    destruct (Hp u k' Hu) as [?|?]; [by exists u|congruence].
  - split; [done|]. unfold sem_thread_ok in *. destruct (spc th) as [|k'|k'|k'|k'|k'|k'|k'|u| |w|tic]; try done.
    intros Hb. destruct (Hok Hb) as [Hs _]. congruence.
Qed.

Lemma sem_step_event s t th v :
  sem_inv count j s → ss_threads s !! t = Some th → spc th = SEvent v →
  sem_inv count (j + 1) (SSystem (ss_words s)
    (sem_hears v <$> <[t := SThread SOut (sblocked th) (shandler th)]> (ss_threads s))
    (ss_acquired s) (ss_tried s) (ss_released s)).
Proof.
  intros I Ht Hpc. set (th' := SThread SOut (sblocked th) (shandler th)).
  pose proof (si_thread _ _ _ I t th Ht) as Hok. unfold sem_thread_ok in Hok. rewrite Hpc in Hok. destruct Hok as [Hb Hv].
  pose proof (si_handler _ _ _ I t th Ht) as Hh. unfold sem_handler_ok in Hh. rewrite Hpc in Hh.
  pose proof (pendings_same (ss_threads s) t th th' Ht) as E. rewrite Hpc in E. specialize (E eq_refl).
  assert (∀ u thu, (sem_hears v <$> <[t := th']> (ss_threads s)) !! u = Some thu →
    sem_handler_ok thu ∧
    sem_thread_ok (count + ss_released s) (spc <$> (sem_hears v <$> <[t := th']> (ss_threads s))) thu) as Ho.
  { assert (spc <$> (sem_hears v <$> <[t := th']> (ss_threads s)) = spc <$> <[t := th']> (ss_threads s)) as ->.
    { rewrite <- list_fmap_compose. apply list_fmap_ext. intros i x _. unfold sem_hears. simpl. by repeat case_match. }
    intros u thu Hu. rewrite list_lookup_fmap in Hu.
    destruct (<[t := th']> (ss_threads s) !! u) as [x|] eqn:Ex; [|done]. injection Hu as <-.
    apply (sem_hears_ok _ (spc <$> ss_threads s)); [lia| | |].
    - intros w k. rewrite !list_lookup_fmap. destruct (decide (w = t)) as [->|Hne].
      + rewrite Ht. simpl. intros [= E']. right. congruence.
      + rewrite list_lookup_insert_ne by done. by left.
    - apply list_lookup_insert_Some in Ex as [(<- & <- & _)|[_ Ex]]; [|by eapply (si_handler _ _ _ I)].
      intros k Hk. specialize (Hh k Hk). done.
    - apply list_lookup_insert_Some in Ex as [(<- & <- & _)|[_ Ex]]; [done|by eapply (si_thread _ _ _ I)]. }
  destruct I as [Il In Ir Ind Ip Ips Ia _ _].
  constructor; simpl; rewrite ?pendings_hears; [done|lia|lia|by rewrite E| | |by rewrite E; lia|by apply Ho|by apply Ho].
  - intros k. rewrite E. apply Ip.
  - intros k. rewrite E. apply Ips.
Qed.

Lemma try_tickets tic :
  0 ≤ tic < 2 ^ 31 → u32 (u32 (tic + 1) - 1) = tic ∧ u32 (tic + 1) = tic + 1.
Proof. intros H. rewrite !(wrap_id 32) by (unfold is_u; rewrite ?(wrap_id 32); unfold is_u; lia). lia. Qed.

(** The differences of try_acquire: the ticket is below the limit read. *)
Lemma try_diff lim next :
  -1 ≤ lim < 2 ^ 31 - 1 → 0 ≤ next < 2 ^ 31 → u32 (u32 lim - next) ≠ 0 → u32 (u32 lim - next) < 0x80000000 → next < lim.
Proof.
  intros Hl Hn. replace (u32 (u32 lim - next)) with (u32 (lim - next)) by (unfold wrap; by rewrite Zminus_mod_idemp_l).
  intros H0 H1. destruct (decide (next < lim)) as [|Hge]; [done|]. exfalso.
  destruct (decide (next = lim)) as [->|Hne]; [by rewrite Z.sub_diag in H0|].
  unfold wrap in H1. rewrite <- (Z_mod_plus_full (lim - next) 1), Z.mod_small in H1; lia.
Qed.

Lemma pending_pass s t th k :
  sem_inv count j s → ss_threads s !! t = Some th → pending (spc th) = Some k →
  0 ≤ k < 2 ^ 31 ∧ sem_passes k (ss_words s) = (k <=? count + ss_released s).
Proof.
  intros I Ht Hk. assert (k ∈ pendings (ss_threads s)) as Hin.
  { apply list_elem_of_omap. exists th. split; [by eapply list_elem_of_lookup_2|done]. }
  apply (si_pending _ _ _ I) in Hin. pose proof (si_next _ _ _ I). split; [lia|]. apply passes_spec; [done|lia].
Qed.

(** The steps of acquire after it has its ticket. *)
Lemma step_acquire t c s s' th k :
  sem_inv count j s → ss_threads s !! t = Some th → pending (spc th) = Some k → sem_step t c s = Some s' →
  sem_inv count (j + 1) s'.
Proof.
  intros I Ht Hk. unfold sem_step. rewrite Ht. cbn [mbind option_bind].
  pose proof (si_thread _ _ _ I t th Ht) as Hok. pose proof (si_handler _ _ _ I t th Ht) as Hh.
  destruct (pending_pass s t th k I Ht Hk) as [Hk0 Hp].
  assert (∀ v, spc th ≠ SEvent v) as Hne by (intros v E; by rewrite E in Hk).
  assert (∀ th', pending (spc th') = Some k → sem_handler_ok th' →
    (∀ pcs, sem_thread_ok (count + ss_released s) pcs th') →
    sem_inv count (j + 1) (set_sem_thread s t th')) as Hown.
  { intros th' Hp' Hh' Hth'. rewrite <- Hk in Hp'.
    pose proof (sem_step_own s t th th' 0 I Ht Hne Hp' ltac:(done) Hh' (Hth' _)) as H'. by rewrite Z.add_0_r in H'. }
  assert (∀ th', pending (spc th') = None → k ≤ count + ss_released s → sem_handler_ok th' →
    (∀ pcs, sem_thread_ok (count + ss_released s) pcs th') →
    sem_inv count (j + 1) (set_sem_thread (count_acquired s) t th')) as Hdone
    by (intros; by eapply step_pass).
  unfold sem_thread_ok in Hok. unfold sem_handler_ok in Hh.
  destruct (spc th) as [|k'|k'|k'|k'|k'|k'|k'|u| |w|tic] eqn:Hpc; try done; injection Hk as ->; cbv zeta; rewrite ?Hp.
  - destruct Hok as [Hb Hn]. destruct (Z.leb_spec k (count + ss_released s)); intros [= <-].
    + apply Hdone; [done|done|by intros ?; simpl; rewrite Hn|done].
    + apply Hown; [done|by intros ?; simpl; rewrite Hn|by split].
  - intros [= <-]. apply Hown; [done|by intros ? [= <-]|]. intros pcs. by split; [apply Hok|].
  - destruct (Z.leb_spec k (count + ss_released s)); intros [= <-]; (apply Hown; [done|exact Hh|]); [|done].
    intros pcs. unfold sem_thread_ok. simpl. rewrite (proj1 Hok). done.
  - intros [= <-]. apply Hown; [done|exact Hh|]. intros pcs. exact (proj2 Hok).
  - destruct (Z.leb_spec k (count + ss_released s)); intros [= <-]; (apply Hown; [done|exact Hh|]); [done|].
    intros pcs Hb. split; [by apply Hok|]. simpl. lia.
  - destruct (sblocked th) eqn:Eb; [done|]. destruct (Z.leb_spec k (count + ss_released s)); intros [= <-].
    + apply Hown; [done|exact Hh|by split].
    + assert (s = set_sem_thread s t th) as -> by (destruct s; unfold set_sem_thread; simpl in *; by rewrite list_insert_id).
      apply Hown; [by rewrite Hpc|intros ? ?; rewrite Hpc; by apply Hh|]. intros pcs. unfold sem_thread_ok. rewrite Hpc, Eb. done.
  - intros [= <-]. destruct Hok as [Hb Hle]. apply Hdone; [done|done|by intros ?|done].
Qed.

(** The other steps. *)
Lemma step_other t c s s' th :
  sem_inv count j s → ss_threads s !! t = Some th → pending (spc th) = None → sem_step t c s = Some s' →
  sem_inv count (j + 1) s'.
Proof.
  intros I Ht Hk. unfold sem_step. rewrite Ht. cbn [mbind option_bind].
  pose proof (si_thread _ _ _ I t th Ht) as Hok. pose proof (si_handler _ _ _ I t th Ht) as Hh.
  pose proof (si_next _ _ _ I) as Hnx. pose proof (si_released _ _ _ I) as Hr.
  assert (shandler th = None) as Hn.
  { destruct (shandler th) as [k|] eqn:E; [|done]. specialize (Hh k E). congruence. }
  assert (∀ pc b, sem_handler_ok (SThread pc b (shandler th))) as Hh' by (intros pc b k; simpl; congruence).
  assert (∀ th' d, (∀ v, spc th ≠ SEvent v) → pending (spc th') = None → 0 ≤ d → sem_handler_ok th' →
    (∀ pcs, sem_thread_ok (count + ss_released s) pcs th') →
    sem_inv count (j + 1) (SSystem (ss_words s) (<[t := th']> (ss_threads s)) (ss_acquired s) (ss_tried s + d) (ss_released s))) as Hown.
  { intros th' d Hne Hp' Hd Hh2 Hth'. rewrite <- Hk in Hp'. by eapply sem_step_own. }
  pose proof (λ th' Hne Hp', Hown th' 0 Hne Hp' ltac:(done)) as Hown0.
  unfold sem_thread_ok in Hok. destruct (spc th) as [| | | | | | | |v| |w|tic] eqn:Hpc; try done.
  - destruct c; intros [= <-].
    + pose proof (sem_step_take s t th (SThread (SLook (sem_next (ss_words s))) (sblocked th) (shandler th)) 0) as H.
      rewrite Z.add_0_r in H. apply H; [done|done|congruence|by rewrite Hpc|by left|done|]. by rewrite Hn.
    + specialize (Hown0 (SThread STryLimit (sblocked th) (shandler th))). rewrite Z.add_0_r in Hown0. by apply Hown0.
    + by apply (sem_step_release s t th).
  - intros [= <-]. by apply (sem_step_event s t th v).
  - intros [= <-]. specialize (Hown0 (SThread (STryNext (sem_limit (ss_words s))) (sblocked th) (shandler th))).
    rewrite Z.add_0_r in Hown0. apply Hown0; [done|done|done|]. split; [done|].
    exists (count + ss_released s). split; [lia|]. apply (si_limit _ _ _ I).
  - destruct Hok as (Hb & lim' & Hl & ->). intros [= <-].
    destruct (Z.eqb_spec (u32 (u32 lim' - sem_next (ss_words s))) 0) as [|Hd0];
      [|destruct (Z.leb_spec 0x80000000 (u32 (u32 lim' - sem_next (ss_words s)))) as [|Hd1]]; simpl.
    1,2: specialize (Hown0 (SThread SOut (sblocked th) (shandler th))); rewrite Z.add_0_r in Hown0; by apply Hown0.
    specialize (Hown0 (SThread (STrySwap (sem_next (ss_words s))) (sblocked th) (shandler th))).
    rewrite Z.add_0_r in Hown0. apply Hown0; [done|done|done|]. split; [done|]. simpl.
    assert (sem_next (ss_words s) < lim') by (apply try_diff; lia). lia.
  - destruct Hok as [Hb Hl]. unfold sem_try_acquire_ticket. destruct (try_tickets tic) as [E1 E2]; [lia|]. rewrite E1, E2.
    destruct (Z.eqb_spec (sem_next (ss_words s)) tic) as [E|E].
    + rewrite Z.eqb_refl. intros [= <-]. subst tic. rewrite <- E2.
      apply (sem_step_take s t th); [done|done|congruence|by rewrite Hpc|right; split_and!; [done|lia|done]|done|done].
    + destruct (sem_next (ss_words s) =? tic + 1); intros [= <-].
      * by apply (Hown (SThread SOut (sblocked th) (shandler th)) 1).
      * specialize (Hown0 (SThread STryLimit (sblocked th) (shandler th))). rewrite Z.add_0_r in Hown0. by apply Hown0.
Qed.

Lemma sem_step_inv t c s s' : sem_inv count j s → sem_step t c s = Some s' → sem_inv count (j + 1) s'.
Proof.
  intros I Hs. destruct (ss_threads s !! t) as [th|] eqn:Ht; [|unfold sem_step in Hs; by rewrite Ht in Hs].
  destruct (pending (spc th)) eqn:Hk; [by eapply step_acquire|by eapply step_other].
Qed.

End sem_inv.

Lemma sem_init_inv count n : sem_inv count 0 (sem_init count n).
Proof.
  assert (pendings (ss_threads (sem_init count n)) = []) as E.
  { simpl. induction n as [|n IH]; [done|exact IH]. }
  constructor; rewrite ?E; simpl; rewrite ?Z.add_0_r; try done; try lia.
  - constructor.
  - by intros k ?%not_elem_of_nil.
  - by intros t th [-> _]%lookup_replicate.
  - by intros t th [-> _]%lookup_replicate.
Qed.

Lemma sem_run_inv count ts : ∀ j s s',
  -1 ≤ count → 0 ≤ j → count + j + Z.of_nat (length ts) < 2 ^ 31 - 1 → j + Z.of_nat (length ts) < 2 ^ 31 - 1 →
  sem_inv count j s → sem_run ts s = Some s' → sem_inv count (j + Z.of_nat (length ts)) s'.
Proof.
  induction ts as [|[t c] ts IH]; intros j s s' Hc Hj Hl Hl' I; cbn [sem_run].
  - intros [= <-]. by replace (j + Z.of_nat (length (@nil (nat * sem_call)))) with j by (simpl; lia).
  - destruct (sem_step t c s) as [s1|] eqn:E; [|done]. cbn [mbind option_bind length] in *. intros Hr.
    replace (j + Z.of_nat (S (length ts))) with (j + 1 + Z.of_nat (length ts)) by lia.
    eapply IH; [done|lia|lia|lia| |exact Hr]. eapply (sem_step_inv count j Hc); [lia|exact I|exact E].
Qed.

(** Tickets that have passed are at most the limit. *)
Lemma passed_bound count j s :
  sem_inv count j s → -1 ≤ count → ss_acquired s ≤ count + 1 + ss_released s.
Proof.
  intros I Hc. pose proof (si_released _ _ _ I). pose proof (si_next _ _ _ I) as Hn.
  assert (seqZ 0 (sem_next (ss_words s)) ⊆+ pendings (ss_threads s) ++ seqZ 0 (count + ss_released s + 1)) as Hs.
  { apply NoDup_submseteq; [apply NoDup_seqZ|]. intros k Hk%elem_of_seqZ. apply elem_of_app.
    destruct (decide (k ∈ pendings (ss_threads s))) as [|Hk']; [by left|right].
    apply elem_of_seqZ. pose proof (si_passed _ _ _ I k ltac:(lia) Hk'). lia. }
  apply submseteq_length in Hs. rewrite length_app, !length_seqZ in Hs. pose proof (si_acquired _ _ _ I). lia.
Qed.

(** When all tickets that wait are above the limit, those up to the limit
    have all been used. *)
Lemma waiting_bound count j s k :
  sem_inv count j s → -1 ≤ count → k ∈ pendings (ss_threads s) →
  (∀ k, k ∈ pendings (ss_threads s) → count + ss_released s < k) →
  count + 1 + ss_released s ≤ ss_acquired s + ss_tried s.
Proof.
  intros I Hc Hk Ha. pose proof (si_released _ _ _ I). pose proof (si_next _ _ _ I) as Hn.
  pose proof (Ha k Hk). pose proof (si_pending _ _ _ I k Hk).
  assert (seqZ 0 (count + ss_released s + 1) ++ pendings (ss_threads s) ⊆+ seqZ 0 (sem_next (ss_words s))) as Hs.
  { apply NoDup_submseteq.
    - apply NoDup_app. split_and!; [apply NoDup_seqZ| |apply (si_nodup _ _ _ I)].
      intros x Hx%elem_of_seqZ Hx'%Ha. lia.
    - intros x [Hx%elem_of_seqZ|Hx%(si_pending _ _ _ I)]%elem_of_app; apply elem_of_seqZ; lia. }
  apply submseteq_length in Hs. rewrite length_app, !length_seqZ in Hs. pose proof (si_acquired _ _ _ I). lia.
Qed.

Lemma pendings_lookup (ths : list sem_thread) k :
  k ∈ pendings ths → ∃ t th, ths !! t = Some th ∧ pending (spc th) = Some k.
Proof.
  intros (th & Hth & Hk)%list_elem_of_omap. apply list_elem_of_lookup in Hth as [t Ht]. eauto.
Qed.

(** * The properties *)

(** C14: raw_semaphore in any interleaving of acquire, try_acquire and
    release, as long as the words stay below 2^31: acquire has succeeded at
    most count + 1 times more often than release was called.  A task that
    sleeps has its handler registered, and if its ticket may pass, the event
    that wakes it is under way.  If all tasks that are not outside sleep,
    then all count + 1 units and those released are used up. *)
Theorem semaphore_correct (count : Z) (n : nat) (ts : list (nat * sem_call)) (s : sem_system) :
  -1 ≤ count → count + Z.of_nat (length ts) < 2 ^ 31 - 1 → Z.of_nat (length ts) < 2 ^ 31 - 1 →
  sem_run ts (sem_init count n) = Some s →
  ss_acquired s ≤ count + 1 + ss_released s ∧
  (∀ t th k, ss_threads s !! t = Some th → spc th = SSleep k → sblocked th = true →
     shandler th = Some k ∧
     (k ≤ count + ss_released s → ∃ u thu, ss_threads s !! u = Some thu ∧ spc thu = SEvent k)) ∧
  ((∀ t th, ss_threads s !! t = Some th → spc th = SOut ∨ ∃ k, spc th = SSleep k ∧ sblocked th = true) →
   (∃ t th k, ss_threads s !! t = Some th ∧ spc th = SSleep k) →
   count + 1 + ss_released s ≤ ss_acquired s + ss_tried s).
Proof.
  intros Hc Hl Hl' Hr.
  assert (sem_inv count (0 + Z.of_nat (length ts)) s) as I.
  { eapply sem_run_inv; [done|done|lia|lia|apply sem_init_inv|done]. }
  assert (∀ t th k, ss_threads s !! t = Some th → spc th = SSleep k → sblocked th = true →
     shandler th = Some k ∧
     (k ≤ count + ss_released s → ∃ u thu, ss_threads s !! u = Some thu ∧ spc thu = SEvent k)) as Hsl.
  { intros t th k Ht Hk Hb. pose proof (si_thread _ _ _ I t th Ht) as Hok. unfold sem_thread_ok in Hok.
    rewrite Hk in Hok. destruct (Hok Hb) as [Hh He]. split; [done|]. intros Hle. destruct (He Hle) as [u Hu].
    rewrite list_lookup_fmap in Hu. destruct (ss_threads s !! u) as [thu|] eqn:Eu; [|done]. injection Hu as Hu.
    by exists u, thu. }
  split; [by eapply passed_bound|]. split; [done|]. intros Hall (t & th & k & Ht & Hk).
  eapply (waiting_bound count _ s k); [exact I|done| |].
  - apply list_elem_of_omap. exists th. split; [by eapply list_elem_of_lookup_2|by rewrite Hk].
  - intros k' (t' & th' & Ht' & Hk')%pendings_lookup. destruct (Hall t' th' Ht') as [E|(k2 & E & Hb)]; rewrite E in Hk'; [done|].
    injection Hk' as ->. destruct (Hsl t' th' k' Ht' E Hb) as [_ He]. destruct (decide (k' ≤ count + ss_released s)) as [Hle|]; [|lia].
    destruct (He Hle) as (u & thu & Hu & Eu). destruct (Hall u thu Hu) as [E'|(? & E' & _)]; congruence.
Qed.

(** Task 0 uses up the one unit, task 1 falls asleep. *)
Definition sem_example : list (nat * sem_call) :=
  [(0, SemAcquire); (0, SemAcquire); (1, SemAcquire); (1, SemAcquire); (1, SemAcquire); (1, SemAcquire);
   (1, SemAcquire); (1, SemAcquire)]%nat.

Lemma semaphore_correct_witness :
  ∃ s, sem_run sem_example (sem_init 0 2) = Some s ∧ ss_acquired s ≤ 1 ∧
    (ss_threads s !! 1%nat = Some (SThread (SSleep 1) true (Some 1))).
Proof.
  assert (∃ s, sem_run sem_example (sem_init 0 2) = Some s ∧ ss_released s = 0 ∧
    ss_threads s !! 1%nat = Some (SThread (SSleep 1) true (Some 1))) as (s & E & Hr & Ht)
    by (eexists; split; [vm_compute; reflexivity|]; split; vm_compute; reflexivity).
  exists s. split; [exact E|].
  destruct (semaphore_correct 0 2 sem_example s) as (H & _); [lia|vm_compute; reflexivity|vm_compute; reflexivity|exact E|].
  split; [|exact Ht]. rewrite Hr in H. exact H.
Defined.

(** Two tasks read the words, then both compare and swap. *)
Definition try_race : list (nat * sem_call) :=
  [(0, SemTryAcquire); (0, SemTryAcquire); (0, SemTryAcquire); (1, SemTryAcquire); (1, SemTryAcquire);
   (1, SemTryAcquire); (0, SemTryAcquire); (1, SemTryAcquire)]%nat.

(** try_acquire compares the value found with the ticket after a failed
    exchange: when another task has just taken the ticket, the two are equal
    and both calls return true for a single unit.  The two ways to acquire
    also differ in what the count means: with a count of 0, try_acquire never
    succeeds but acquire does. *)
Theorem try_acquire_race :
  (∃ s, sem_run try_race (sem_init 1 2) = Some s ∧ ss_tried s = 2 ∧ ss_words s = Sema 1 1) ∧
  (∃ s, sem_run [(0, SemTryAcquire); (0, SemTryAcquire); (0, SemTryAcquire)]%nat (sem_init 0 1) = Some s ∧
        ss_tried s = 0 ∧ ss_threads s = [SThread SOut false None]) ∧
  ∃ s, sem_run [(0, SemAcquire); (0, SemAcquire)]%nat (sem_init 0 1) = Some s ∧ ss_acquired s = 1.
Proof. split_and!; eexists; (split; [vm_compute; reflexivity|]); by vm_compute. Qed.
