(* ===== verification/MulSemaphore.v ===== *)
(** mul_semaphore (kernel/concurrency/mul_semaphore.cpp): a counter of
    releases and a queue of waiting tasks, each with a raw_semaphore of its
    own that release or a timeout raises.

    A step is one section under the lock, one call of new or delete, or the
    return of the wait for the task's own semaphore (Semaphore.v).  An access
    to a slot that has been deleted is [OutOfBounds]. *)
From S2P Require Import Prelude Semaphore.

Local Open Scope Z_scope.

(** * Steps *)

(** class waiting_mul_semaphore; [slot_armed]: the timeout is still to come. *)
Record waiting_mul_semaphore := Slot { slot_sem : raw_semaphore; slot_armed : bool }.

(** Where a task is in acquire. *)
Inductive mul_pc :=
| MulOut
| MulNew               (* no release is stored: makes its slot *)
| MulQueue (a : Z)     (* second section: queues the slot *)
| MulWait (a : Z)      (* slot->acquire() *)
| MulRemove (a : Z)    (* third section: takes the slot out of the queue *)
| MulDelete (a : Z).

(** [mul_stored], [mul_taken] and [mul_handed] count the releases that were
    made, taken from the counter by acquire, and handed to a waiting task. *)
Record mul_semaphore := MulSem {
  mul_waiting : list Z;
  mul_release_count : Z;
  mul_slots : gmap Z waiting_mul_semaphore;
  mul_tasks : list mul_pc;
  mul_released : Z;
  mul_taken : Z;
  mul_handed : Z
}.

Inductive mul_call :=
| MulAcquire (a : Z)   (* a step of acquire; [new] returns [a] *)
| MulRelease
| MulTimeout (a : Z).  (* the timer: the timeout of slot [a] *)

Definition mul_set (t : nat) (pc : mul_pc) (s : mul_semaphore) : mul_semaphore :=
  MulSem (mul_waiting s) (mul_release_count s) (mul_slots s) (<[t := pc]> (mul_tasks s))
         (mul_released s) (mul_taken s) (mul_handed s).

Definition mul_set_slots (m : gmap Z waiting_mul_semaphore) (s : mul_semaphore) : mul_semaphore :=
  MulSem (mul_waiting s) (mul_release_count s) m (mul_tasks s) (mul_released s) (mul_taken s) (mul_handed s).

Definition mul_set_waiting (l : list Z) (s : mul_semaphore) : mul_semaphore :=
  MulSem l (mul_release_count s) (mul_slots s) (mul_tasks s) (mul_released s) (mul_taken s) (mul_handed s).

(** A stored release is taken. *)
Definition mul_take (s : mul_semaphore) : mul_semaphore :=
  MulSem (mul_waiting s) (u32 (mul_release_count s - 1)) (mul_slots s) (mul_tasks s)
         (mul_released s) (mul_taken s + 1) (mul_handed s).

Definition new_slot : waiting_mul_semaphore := Slot (new_semaphore (-1)) true.

Definition slot_release (x : waiting_mul_semaphore) : waiting_mul_semaphore :=
  Slot (snd (sem_release_ticket (slot_sem x))) (slot_armed x).

(** The timeout is called once. *)
Definition slot_timeout (x : waiting_mul_semaphore) : waiting_mul_semaphore :=
  if slot_armed x then Slot (snd (sem_release_ticket (slot_sem x))) false else x.

(** A step of acquire; the first ticket of a slot is 0. *)
Definition mul_acquire (t : nat) (pc : mul_pc) (fresh : Z) (s : mul_semaphore) : outcome mul_semaphore :=
  match pc with
  | MulOut =>
    if 0 <? mul_release_count s then Ret (mul_take s) else Ret (mul_set t MulNew s)
  | MulNew => Ret (mul_set t (MulQueue fresh) (mul_set_slots (<[fresh := new_slot]> (mul_slots s)) s))
  | MulQueue a =>
    if mul_release_count s =? 0 then Ret (mul_set t (MulWait a) (mul_set_waiting (mul_waiting s ++ [a]) s))
    else Ret (mul_set t (MulDelete a) (mul_take s))
  | MulWait a =>
    match mul_slots s !! a with
    | Some x => Ret (if sem_passes 0 (slot_sem x) then mul_set t (MulRemove a) s else s)
    | None => OutOfBounds
    end
  | MulRemove a =>
    Ret (mul_set t (MulDelete a) (mul_set_waiting
      (match list_find (λ b, b = a) (mul_waiting s) with
       | Some (i, _) => delete i (mul_waiting s) | None => mul_waiting s end) s))
  | MulDelete a =>
    match mul_slots s !! a with
    | Some _ => Ret (mul_set t MulOut (mul_set_slots (delete a (mul_slots s)) s))
    | None => OutOfBounds
    end
  end.

Definition mul_release (s : mul_semaphore) : outcome mul_semaphore :=
  match mul_waiting s with
  | a :: l =>
    match mul_slots s !! a with
    | Some x => Ret (MulSem l (mul_release_count s) (<[a := slot_release x]> (mul_slots s)) (mul_tasks s)
                            (mul_released s + 1) (mul_taken s) (mul_handed s + 1))
    | None => OutOfBounds
    end
  | [] => Ret (MulSem [] (u32 (mul_release_count s + 1)) (mul_slots s) (mul_tasks s)
                      (mul_released s + 1) (mul_taken s) (mul_handed s))
  end.

Definition mul_step (t : nat) (c : mul_call) (s : mul_semaphore) : outcome mul_semaphore :=
  match c with
  | MulAcquire fresh =>
    match mul_tasks s !! t with Some pc => mul_acquire t pc fresh s | None => Ret s end
  | MulRelease => match mul_tasks s !! t with Some MulOut => mul_release s | _ => Ret s end
  | MulTimeout a =>
    match mul_slots s !! a with
    | Some x => Ret (mul_set_slots (<[a := slot_timeout x]> (mul_slots s)) s)
    | None => Ret s
    end
  end.

Fixpoint mul_run (l : list (nat * mul_call)) (s : mul_semaphore) : outcome mul_semaphore :=
  match l with
  | [] => Ret s
  | (t, c) :: l => s ← mul_step t c s; mul_run l s
  end.

Definition mul_init (n : nat) : mul_semaphore := MulSem [] 0 ∅ (replicate n MulOut) 0 0 0.

(** * The invariant *)

(** The slot a task has. *)
Definition slot_of (pc : mul_pc) : option Z :=
  match pc with
  | MulOut | MulNew => None
  | MulQueue a | MulWait a | MulRemove a | MulDelete a => Some a
  end.

(** May the slot be in the queue? *)
Definition queued (pc : mul_pc) : bool :=
  match pc with MulWait _ | MulRemove _ => true | _ => false end.

(** The limit of a slot that release has raised [r] times. *)
Definition slot_ok (r : Z) (x : waiting_mul_semaphore) : Prop :=
  sem_next (slot_sem x) = 0 ∧
  sem_limit (slot_sem x) = u32 (r - (if slot_armed x then 1 else 0)).

Record mul_inv (j : Z) (s : mul_semaphore) : Prop := {
  mu_slots : ∀ t t' pc pc' a, mul_tasks s !! t = Some pc → mul_tasks s !! t' = Some pc' →
    slot_of pc = Some a → slot_of pc' = Some a → t = t';
  mu_task : ∀ t pc a, mul_tasks s !! t = Some pc → slot_of pc = Some a →
    ∃ x, mul_slots s !! a = Some x ∧
      (queued pc = false → a ∉ mul_waiting s) ∧
      match pc with
      | MulQueue _ => slot_ok 0 x
      | MulWait _ => slot_ok (if bool_decide (a ∈ mul_waiting s) then 0 else 1) x
      | _ => ∃ r, 0 ≤ r ≤ 1 ∧ slot_ok r x ∧ (a ∈ mul_waiting s → r = 0)
      end;
  mu_waiting : ∀ a, a ∈ mul_waiting s → ∃ t pc, mul_tasks s !! t = Some pc ∧ slot_of pc = Some a ∧ queued pc = true;
  mu_nodup : NoDup (mul_waiting s);
  mu_dom : ∀ a x, mul_slots s !! a = Some x → ∃ t pc, mul_tasks s !! t = Some pc ∧ slot_of pc = Some a;
  mu_count : mul_waiting s ≠ [] → mul_release_count s = 0;
  mu_sum : mul_released s = mul_release_count s + mul_taken s + mul_handed s;
  mu_range : 0 ≤ mul_release_count s ≤ j
}.

Lemma slot_release_ok x : slot_ok 0 x → slot_ok 1 (slot_release x).
Proof.
  intros [Hn Hl]. unfold slot_ok, slot_release. simpl. split; [done|]. rewrite Hl. by destruct (slot_armed x).
Qed.

Lemma slot_timeout_ok r x : slot_ok r x → 0 ≤ r ≤ 1 → slot_ok r (slot_timeout x).
Proof.
  intros [Hn Hl] Hr. unfold slot_timeout. destruct (slot_armed x) eqn:Ea; [|by split; rewrite ?Ea].
  unfold slot_ok. simpl. split; [done|]. rewrite Hl. unfold wrap. rewrite Zplus_mod_idemp_l. f_equal. lia.
Qed.

(** A slot that release has raised lets its task pass. *)
Lemma slot_raised_passes x : slot_ok 1 x → sem_passes 0 (slot_sem x) = true.
Proof. intros [Hn Hl]. unfold sem_passes. rewrite Hl. by destruct (slot_armed x). Qed.

Section mul_inv.

Context (j : Z) (Hj : 0 ≤ j < 2 ^ 32 - 1).

Lemma task_slot s t pc a : mul_inv j s → mul_tasks s !! t = Some pc → slot_of pc = Some a → is_Some (mul_slots s !! a).
Proof. intros I Ht Ha. destruct (mu_task _ _ I t pc a Ht Ha) as (x & ? & _). eauto. Qed.

(** Task [t] goes from [pc] to [pc'] with the same slot, which it may have
    put into or taken from the queue; [l] is the queue then. *)
Lemma mul_move s t pc pc' a l :
  mul_inv j s → mul_tasks s !! t = Some pc → slot_of pc = Some a → slot_of pc' = Some a →
  (∀ b, b ≠ a → b ∈ l ↔ b ∈ mul_waiting s) → (a ∈ l → queued pc' = true) → NoDup l →
  (l ≠ [] → mul_release_count s = 0) →
  (∀ x, mul_slots s !! a = Some x →
     match pc' with
     | MulQueue _ => slot_ok 0 x
     | MulWait _ => slot_ok (if bool_decide (a ∈ l) then 0 else 1) x
     | _ => ∃ r, 0 ≤ r ≤ 1 ∧ slot_ok r x ∧ (a ∈ l → r = 0)
     end) →
  mul_inv (j + 1) (mul_set t pc' (mul_set_waiting l s)).
Proof.
  intros I Ht Ha Ha' Hl Hq Hnd Hc Hx. pose proof (mu_slots _ _ I) as Hinj.
  assert (∀ u pcu b, u ≠ t → mul_tasks s !! u = Some pcu → slot_of pcu = Some b → b ≠ a) as Hother.
  { intros u pcu b Hne Hu Hb ->. by destruct Hne, (Hinj u t pcu pc a). }
  constructor; simpl; [| | |done| |done|apply (mu_sum _ _ I)|pose proof (mu_range _ _ I); lia].
  - intros u u' p p' b [(<- & <- & _)|[Hne Hu]]%list_lookup_insert_Some [(<- & <- & _)|[Hne' Hu']]%list_lookup_insert_Some;
      [done| | |by apply Hinj].
    + intros Hb Hb'. assert (b = a) as -> by congruence. by destruct (Hother u' p' a).
    + intros Hb Hb'. assert (b = a) as -> by congruence. by destruct (Hother u p a).
  - intros u p b [(<- & <- & _)|[Hne Hu]]%list_lookup_insert_Some Hb.
    + assert (b = a) as -> by congruence. destruct (task_slot s t pc a I Ht Ha) as [x Ex]. exists x. split; [done|].
      split; [|by apply Hx]. intros Hf Hin%Hq. congruence.
    + destruct (mu_task _ _ I u p b Hu Hb) as (x & Ex & Hnq & Hp). exists x. split; [done|].
      assert (b ≠ a) as Hba by (by eapply Hother). split; [by rewrite Hl|].
      destruct p; try done; [|setoid_rewrite Hl; [done|congruence]..].
      injection Hb as ->. replace (bool_decide (b ∈ l)) with (bool_decide (b ∈ mul_waiting s)); [done|].
      apply bool_decide_ext. by rewrite Hl.
  - intros b Hb. destruct (decide (b = a)) as [->|Hba].
    + exists t, pc'. rewrite list_lookup_insert_eq by (by eapply lookup_lt_Some). split_and!; [done|done|by apply Hq].
    + apply Hl in Hb; [|done]. destruct (mu_waiting _ _ I b Hb) as (u & p & Hu & Hb' & Hqp). exists u, p.
      rewrite list_lookup_insert_ne; [done|]. intros <-. congruence.
  - intros b x Hb. destruct (mu_dom _ _ I b x Hb) as (u & p & Hu & Hb'). destruct (decide (u = t)) as [->|Hne].
    + exists t, pc'. rewrite list_lookup_insert_eq by (by eapply lookup_lt_Some). split; [done|congruence].
    + exists u, p. by rewrite list_lookup_insert_ne.
Qed.

Lemma mul_inv_mono s : mul_inv j s → mul_inv (j + 1) s.
Proof. intros []. constructor; [done..|lia]. Qed.

Lemma mul_take_inv s : mul_inv j s → 0 < mul_release_count s → mul_inv j (mul_take s).
Proof.
  intros I Hp. pose proof (mu_count _ _ I) as Hc. pose proof (mu_range _ _ I).
  assert (u32 (mul_release_count s - 1) = mul_release_count s - 1) as E by (apply wrap_id; unfold is_u; lia).
  destruct I as [H1 H2 H3 H4 H5 H6 H7 H8]. constructor; simpl; rewrite ?E; try done; [|lia|lia].
  intros Hw. specialize (Hc Hw). lia.
Qed.

(** A task without a slot. *)
Lemma mul_idle s t pc pc' :
  mul_inv j s → mul_tasks s !! t = Some pc → slot_of pc = None → slot_of pc' = None →
  mul_inv (j + 1) (mul_set t pc' s).
Proof.
  intros I Ht Hn Hn'. constructor; simpl;
    [| | |apply (mu_nodup _ _ I)| |apply (mu_count _ _ I)|apply (mu_sum _ _ I)|pose proof (mu_range _ _ I); lia].
  - intros u u' p p' b [(<- & <- & _)|[Hne Hu]]%list_lookup_insert_Some [(<- & <- & _)|[Hne' Hu']]%list_lookup_insert_Some;
      [congruence..|by apply (mu_slots _ _ I)].
  - intros u p b [(<- & <- & _)|[Hne Hu]]%list_lookup_insert_Some; [congruence|]. by apply (mu_task _ _ I u).
  - intros b Hb. destruct (mu_waiting _ _ I b Hb) as (u & p & Hu & Hb' & Hq). exists u, p.
    rewrite list_lookup_insert_ne; [done|]. intros <-. congruence.
  - intros b x Hb. destruct (mu_dom _ _ I b x Hb) as (u & p & Hu & Hb'). exists u, p.
    rewrite list_lookup_insert_ne; [done|]. intros <-. congruence.
Qed.

Lemma not_waiting s a : mul_inv j s → mul_slots s !! a = None → a ∉ mul_waiting s.
Proof.
  intros I Hn Hin. destruct (mu_waiting _ _ I a Hin) as (t & pc & Ht & Ha & _).
  destruct (task_slot s t pc a I Ht Ha). congruence.
Qed.

Lemma mul_new s t a :
  mul_inv j s → mul_tasks s !! t = Some MulNew → mul_slots s !! a = None →
  mul_inv (j + 1) (mul_set t (MulQueue a) (mul_set_slots (<[a := new_slot]> (mul_slots s)) s)).
Proof.
  intros I Ht Hn. pose proof (not_waiting s a I Hn) as Hw.
  assert (∀ u p b, mul_tasks s !! u = Some p → slot_of p = Some b → b ≠ a) as Hother.
  { intros u p b Hu Hb ->. destruct (task_slot s u p a I Hu Hb). congruence. }
  constructor; simpl;
    [| | |apply (mu_nodup _ _ I)| |apply (mu_count _ _ I)|apply (mu_sum _ _ I)|pose proof (mu_range _ _ I); lia].
  - intros u u' p p' b [(<- & <- & _)|[Hne Hu]]%list_lookup_insert_Some [(<- & <- & _)|[Hne' Hu']]%list_lookup_insert_Some;
      [done| | |by apply (mu_slots _ _ I)]; simpl.
    + intros [= <-] Hb. by destruct (Hother u' p' a).
    + intros Hb [= <-]. by destruct (Hother u p a).
  - intros u p b [(<- & <- & _)|[Hne Hu]]%list_lookup_insert_Some; simpl.
    + intros [= <-]. exists new_slot. rewrite lookup_insert_eq. done.
    + intros Hb. rewrite lookup_insert_ne by (symmetry; by eapply Hother). by apply (mu_task _ _ I u).
  - intros b Hb. destruct (mu_waiting _ _ I b Hb) as (u & p & Hu & Hb' & Hq). exists u, p.
    rewrite list_lookup_insert_ne; [done|]. intros <-. by assert (p = MulNew) as -> by congruence.
  - intros b x [[<- <-]|[Hne Hb]]%lookup_insert_Some.
    + exists t, (MulQueue a). rewrite list_lookup_insert_eq by (by eapply lookup_lt_Some). done.
    + destruct (mu_dom _ _ I b x Hb) as (u & p & Hu & Hb'). exists u, p.
      rewrite list_lookup_insert_ne; [done|]. intros <-. by assert (p = MulNew) as -> by congruence.
Qed.

Lemma mul_delete s t a :
  mul_inv j s → mul_tasks s !! t = Some (MulDelete a) →
  mul_inv (j + 1) (mul_set t MulOut (mul_set_slots (delete a (mul_slots s)) s)).
Proof.
  intros I Ht. destruct (mu_task _ _ I t _ a Ht eq_refl) as (x0 & _ & Hw & _). specialize (Hw eq_refl).
  assert (∀ u p b, u ≠ t → mul_tasks s !! u = Some p → slot_of p = Some b → b ≠ a) as Hother.
  { intros u p b Hne Hu Hb ->. by destruct Hne, (mu_slots _ _ I u t p (MulDelete a) a). }
  constructor; simpl;
    [| | |apply (mu_nodup _ _ I)| |apply (mu_count _ _ I)|apply (mu_sum _ _ I)|pose proof (mu_range _ _ I); lia].
  - intros u u' p p' b [(<- & <- & _)|[Hne Hu]]%list_lookup_insert_Some [(<- & <- & _)|[Hne' Hu']]%list_lookup_insert_Some;
      [done..|by apply (mu_slots _ _ I)].
  - intros u p b [(<- & <- & _)|[Hne Hu]]%list_lookup_insert_Some; [done|]. intros Hb.
    rewrite lookup_delete_ne by (symmetry; by eapply (Hother u)). by apply (mu_task _ _ I u).
  - intros b Hb. destruct (mu_waiting _ _ I b Hb) as (u & p & Hu & Hb' & Hq). exists u, p.
    rewrite list_lookup_insert_ne; [done|]. intros <-. by assert (p = MulDelete a) as -> by congruence.
  - intros b x [Hne Hb]%lookup_delete_Some. destruct (mu_dom _ _ I b x Hb) as (u & p & Hu & Hb'). exists u, p.
    rewrite list_lookup_insert_ne; [done|]. intros <-. assert (p = MulDelete a) as -> by congruence. simpl in Hb'. congruence.
Qed.

(** The slot [a] changes to [x']; [l] is the queue then. *)
Lemma mul_slot s a x x' l d :
  mul_inv j s → mul_slots s !! a = Some x → (∀ b, b ≠ a → b ∈ l ↔ b ∈ mul_waiting s) → NoDup l →
  (l ≠ [] → mul_waiting s ≠ []) → (a ∈ l → a ∈ mul_waiting s) →
  (slot_ok 0 x → slot_ok (if bool_decide (a ∈ mul_waiting s) then if bool_decide (a ∈ l) then 0 else 1 else 0) x') →
  (slot_ok 1 x → a ∉ mul_waiting s → slot_ok 1 x') →
  mul_inv (j + 1) (MulSem l (mul_release_count s) (<[a := x']> (mul_slots s)) (mul_tasks s)
                          (mul_released s + d) (mul_taken s) (mul_handed s + d)).
Proof.
  intros I Hx Hl Hnd Hne Ha H0 H1. constructor; simpl;
    [apply (mu_slots _ _ I)| | |done| | |pose proof (mu_sum _ _ I); lia|pose proof (mu_range _ _ I); lia].
  - intros t pc b Ht Hb. destruct (mu_task _ _ I t pc b Ht Hb) as (y & Hy & Hq & Hp).
    destruct (decide (b = a)) as [->|Hba].
    + assert (y = x) as -> by congruence. exists x'. rewrite lookup_insert_eq. split; [done|]. split; [intros Hf Hin; by apply (Hq Hf), Ha|].
      destruct pc; try done.
      * specialize (Hq eq_refl). rewrite bool_decide_eq_false_2 in H0 by done. by apply H0.
      * destruct (bool_decide_reflect (a ∈ mul_waiting s)) as [Hw|Hw].
        -- by apply H0.
        -- rewrite bool_decide_eq_false_2 by auto. by apply H1.
      * destruct Hp as (r & Hr & Hrx & Hw0). destruct (bool_decide_reflect (a ∈ mul_waiting s)) as [Hw|Hw].
        -- rewrite Hw0 in Hrx by done. specialize (H0 Hrx). eexists. split; [|split; [exact H0|]]; by case_bool_decide.
        -- exists r. split; [done|]. split; [|intros ?%Ha; done].
           assert (r = 0 ∨ r = 1) as [-> | ->] by lia; auto.
      * specialize (Hq eq_refl). destruct Hp as (r & Hr & Hrx & Hw0). rewrite bool_decide_eq_false_2 in H0 by done.
        exists r. split; [done|]. split; [|intros ?%Ha; done]. assert (r = 0 ∨ r = 1) as [-> | ->] by lia; auto.
    + exists y. rewrite lookup_insert_ne by done. split; [done|]. split; [by rewrite Hl|].
      destruct pc; try done; [|setoid_rewrite Hl; [done|congruence]..]. injection Hb as ->.
      replace (bool_decide (b ∈ l)) with (bool_decide (b ∈ mul_waiting s)); [done|]. apply bool_decide_ext. by rewrite Hl.
  - intros b Hb. apply (mu_waiting _ _ I). destruct (decide (b = a)) as [->|]; [auto|by apply Hl].
  - intros b y [[<- <-]|[_ Hb]]%lookup_insert_Some; by eapply (mu_dom _ _ I).
  - intros Hw. by apply (mu_count _ _ I), Hne.
Qed.

(** [new] returns memory that is not in use. *)
Definition mul_call_ok (t : nat) (c : mul_call) (s : mul_semaphore) : Prop :=
  match c with
  | MulAcquire a => mul_tasks s !! t = Some MulNew → mul_slots s !! a = None
  | _ => True
  end.

Lemma mul_acquire_inv s t pc a :
  mul_inv j s → mul_tasks s !! t = Some pc → mul_call_ok t (MulAcquire a) s →
  ∃ s', mul_acquire t pc a s = Ret s' ∧ mul_inv (j + 1) s'.
Proof.
  intros I Ht Hok. pose proof (mu_range _ _ I) as Hr. unfold mul_acquire. destruct pc as [| |b|b|b|b].
  - destruct (Z.ltb_spec 0 (mul_release_count s)); eexists; (split; [done|]).
    + by apply mul_inv_mono, mul_take_inv.
    + by eapply mul_idle.
  - eexists. split; [done|]. apply mul_new; [done|done|by apply Hok].
  - destruct (mu_task _ _ I t _ b Ht eq_refl) as (x & Hx & Hq & Hp). specialize (Hq eq_refl).
    destruct (Z.eqb_spec (mul_release_count s) 0) as [E|E]; eexists; (split; [done|]).
    + apply (mul_move s t (MulQueue b) _ b); [done..| | | |done|].
      * intros b' Hb'. rewrite elem_of_app, list_elem_of_singleton. tauto.
      * done.
      * apply NoDup_app. split_and!; [apply (mu_nodup _ _ I)| |apply NoDup_singleton].
        intros b' Hb' ->%list_elem_of_singleton. done.
      * intros y Hy. rewrite bool_decide_eq_true_2 by (apply elem_of_app; right; by apply list_elem_of_singleton).
        congruence.
    + assert (mul_inv j (mul_take s)) as I' by (apply mul_take_inv; [done|lia]).
      apply (mul_move (mul_take s) t (MulQueue b) (MulDelete b) b (mul_waiting s)); [done..|by intros ?| | |].
      * apply (mu_nodup _ _ I).
      * apply (mu_count _ _ I').
      * intros y Hy. simpl in Hy. exists 0. split; [lia|]. split; [congruence|done].
  - destruct (mu_task _ _ I t _ b Ht eq_refl) as (x & Hx & _ & Hp). rewrite Hx. eexists. split; [done|].
    destruct (sem_passes 0 (slot_sem x)); [|by apply mul_inv_mono].
    apply (mul_move s t (MulWait b) (MulRemove b) b (mul_waiting s)); [done..|apply (mu_nodup _ _ I)|apply (mu_count _ _ I)|].
    intros y Hy. assert (y = x) as -> by congruence. eexists. split; [|split; [exact Hp|]]; by case_bool_decide.
  - destruct (mu_task _ _ I t _ b Ht eq_refl) as (x & Hx & _ & r & Hr' & Hrx & _). eexists. split; [done|].
    pose proof (mu_nodup _ _ I) as Hnd. pose proof (mu_count _ _ I) as Hc.
    assert (∀ l, (∀ b', b' ≠ b → b' ∈ l ↔ b' ∈ mul_waiting s) → b ∉ l → NoDup l → (l ≠ [] → mul_waiting s ≠ []) →
      mul_inv (j + 1) (mul_set t (MulDelete b) (mul_set_waiting l s))) as Hmove.
    { intros l Hl Hb Hndl Hne. apply (mul_move s t (MulRemove b) _ b); [done..| |by auto|].
      - done.
      - intros y Hy. exists r. split; [done|]. split; [congruence|done]. }
    destruct (list_find (λ b', b' = b) (mul_waiting s)) as [[i y]|] eqn:Ef.
    + apply list_find_Some in Ef as (Hi & -> & _). pose proof (delete_Permutation _ _ _ Hi) as Ep.
      rewrite Ep in Hnd. apply NoDup_cons in Hnd as [Hni Hnd]. apply Hmove; [|done|done|by destruct (mul_waiting s)].
      intros b' Hb'. assert (b' ∈ mul_waiting s ↔ b' = b ∨ b' ∈ delete i (mul_waiting s)) as ->; [|tauto].
      by rewrite <- elem_of_cons, <- Ep.
    + apply Hmove; [done| |done|done]. apply list_find_None in Ef. rewrite Forall_forall in Ef. intros Hin. by apply (Ef b).
  - destruct (task_slot s t _ b I Ht eq_refl) as [x Hx]. rewrite Hx. eexists. split; [done|]. by apply mul_delete.
Qed.

Lemma mul_step_inv s t c :
  mul_inv j s → mul_call_ok t c s → ∃ s', mul_step t c s = Ret s' ∧ mul_inv (j + 1) s'.
Proof.
  intros I Hok. unfold mul_step. destruct c as [a| |a].
  - destruct (mul_tasks s !! t) as [pc|] eqn:Ht; [by apply mul_acquire_inv|]. exists s. split; [done|by apply mul_inv_mono].
  - assert (∃ s', mul_release s = Ret s' ∧ mul_inv (j + 1) s') as Hrel.
    { unfold mul_release. destruct (mul_waiting s) as [|a l] eqn:Ew.
      - eexists. split; [done|]. pose proof (mu_range _ _ I).
        assert (u32 (mul_release_count s + 1) = mul_release_count s + 1) as E by (apply wrap_id; unfold is_u; lia).
        destruct I as [H1 H2 H3 H4 H5 H6 H7 H8]. rewrite Ew in *. constructor; simpl; rewrite ?E; try done; lia.
      - destruct (mu_waiting _ _ I a) as (u & p & Hu & Ha & Hq); [rewrite Ew; by left|].
        destruct (task_slot s u p a I Hu Ha) as [x Hx]. rewrite Hx. eexists. split; [done|].
        pose proof (mu_nodup _ _ I) as Hnd. rewrite Ew in Hnd. apply NoDup_cons in Hnd as [Hna Hnd].
        apply (mul_slot s a x); [done|done| |done|by rewrite Ew|done| |].
        + intros b Hb. rewrite Ew, elem_of_cons. tauto.
        + intros H0. rewrite bool_decide_eq_true_2 by (rewrite Ew; by left). rewrite bool_decide_eq_false_2 by done.
          by apply slot_release_ok.
        + intros _ Hn. destruct Hn. rewrite Ew. by left. }
    destruct (mul_tasks s !! t) as [[]|]; try exact Hrel; exists s; (split; [done|by apply mul_inv_mono]).
  - destruct (mul_slots s !! a) as [x|] eqn:Hx; [|exists s; split; [done|by apply mul_inv_mono]].
    eexists. split; [done|].
    pose proof (mul_slot s a x (slot_timeout x) (mul_waiting s) 0 I Hx) as H. rewrite !Z.add_0_r in H.
    apply H; [done|apply (mu_nodup _ _ I)|done|done| |].
    + intros H0. by repeat case_bool_decide; apply slot_timeout_ok.
    + intros H1 _. by apply slot_timeout_ok.
Qed.

End mul_inv.

Lemma mul_init_inv n : mul_inv 0 (mul_init n).
Proof.
  constructor; simpl; try done.
  - by intros t t' pc pc' a [-> _]%lookup_replicate.
  - by intros t pc a [-> _]%lookup_replicate.
  - by intros a ?%not_elem_of_nil.
  - apply NoDup_nil_2.
Qed.

(** Every [new] of the run returns memory that is not in use. *)
Fixpoint mul_run_ok (l : list (nat * mul_call)) (s : mul_semaphore) : Prop :=
  match l with
  | [] => True
  | (t, c) :: l => mul_call_ok t c s ∧ match mul_step t c s with Ret s => mul_run_ok l s | _ => True end
  end.

Lemma mul_run_inv l : ∀ j s,
  0 ≤ j → j + Z.of_nat (length l) < 2 ^ 32 - 1 → mul_inv j s → mul_run_ok l s →
  ∃ s', mul_run l s = Ret s' ∧ mul_inv (j + Z.of_nat (length l)) s'.
Proof.
  induction l as [|[t c] l IH]; intros j s Hj Hl I; cbn [mul_run mul_run_ok].
  - intros _. exists s. by replace (j + Z.of_nat (length (@nil (nat * mul_call)))) with j by (simpl; lia).
  - intros [Hok Hr]. cbn [length] in *. destruct (mul_step_inv j ltac:(lia) s t c I Hok) as (s1 & E & I1).
    rewrite E in *. cbn [mbind outcome_bind].
    replace (j + Z.of_nat (S (length l))) with (j + 1 + Z.of_nat (length l)) by lia. by apply IH; [lia|lia|..].
Qed.

(** * The properties *)

(** C16: mul_semaphore in any interleaving of acquire, release and timeouts:
    no task touches a slot that is gone, although slots are shared between
    the task that waits, release and the timer.  Each release is either
    stored, or taken by one acquire, or handed to one waiting task; none is
    stored while a task is in the queue; and a task that waits and is no
    longer in the queue has its own semaphore raised, so that it goes on. *)
Theorem mul_semaphore_correct (n : nat) (l : list (nat * mul_call)) :
  Z.of_nat (length l) < 2 ^ 32 - 1 → mul_run_ok l (mul_init n) →
  ∃ s, mul_run l (mul_init n) = Ret s ∧
    mul_released s = mul_release_count s + mul_taken s + mul_handed s ∧
    (mul_waiting s ≠ [] → mul_release_count s = 0) ∧
    ∀ t a, mul_tasks s !! t = Some (MulWait a) →
      ∃ x, mul_slots s !! a = Some x ∧ (a ∈ mul_waiting s ∨ sem_passes 0 (slot_sem x) = true).
Proof.
  intros Hl Hok. destruct (mul_run_inv l 0 (mul_init n)) as (s & E & I); [done|lia|apply mul_init_inv|done|].
  exists s. split; [done|]. split; [apply (mu_sum _ _ I)|]. split; [apply (mu_count _ _ I)|].
  intros t a Ht. destruct (mu_task _ _ I t _ a Ht eq_refl) as (x & Hx & _ & Hp). exists x. split; [done|].
  case_bool_decide; [by left|]. right. by apply slot_raised_passes.
Qed.

(** Task 0 waits, task 1 releases; the timeout comes as well. *)
Definition mul_example : list (nat * mul_call) :=
  [(0, MulAcquire 16); (0, MulAcquire 16); (0, MulAcquire 16); (1, MulRelease); (1, MulTimeout 16)]%nat.

Lemma mul_semaphore_correct_witness :
  ∃ s, mul_run mul_example (mul_init 2) = Ret s ∧ mul_handed s = 1 ∧
    ∃ x, mul_slots s !! 16 = Some x ∧ (16 ∈ mul_waiting s ∨ sem_passes 0 (slot_sem x) = true).
Proof.
  assert (mul_run_ok mul_example (mul_init 2)) as Hok by (vm_compute; repeat split; intros; congruence).
  destruct (mul_semaphore_correct 2 mul_example) as (s & E & _ & _ & H); [vm_compute; reflexivity|exact Hok|].
  exists s. split; [exact E|].
  assert (∃ s', mul_run mul_example (mul_init 2) = Ret s' ∧ mul_handed s' = 1 ∧
    mul_tasks s' !! 0%nat = Some (MulWait 16)) as (s' & E' & H1 & H2)
    by (eexists; split; [vm_compute; reflexivity|]; split; vm_compute; reflexivity).
  rewrite E in E'. injection E' as <-. split; [exact H1|]. exact (H 0%nat 16 H2).
Defined.
