(* ===== verification/Signals.v ===== *)
(** Signals of a process: the set of signals of include/signal.h and the
    operations of class Process on its mask, its pending signals and its
    actions (kernel/exec/process.cpp).

    A set is the array of two 32-bit words of the code.  Where the code copies
    a set with memcpy, the words are taken apart into their bytes in the
    order of the machine.  Each operation of Process runs under the lock of the
    process and is one step. *)
From S2P Require Import Prelude.

Local Open Scope Z_scope.

(** * The set of signals *)

Definition SIGNALSET_MAX : Z := 64.
Definition EINVAL : Z := 22.

(** struct __sigset_t *)
Notation sigset_t := (list Z) (only parsing).

Definition sig_empty : sigset_t := [0; 0].

Definition sig_not (s : sigset_t) : sigset_t := (fun v => u32 (Z.lnot v)) <$> s.

Definition sig_and (s other : sigset_t) : sigset_t := zip_with Z.land s other.

(** Set; Clear is [sig_set signal false] without its result. *)
Definition sig_set (signal : Z) (value : bool) (s : sigset_t) : outcome (Z * sigset_t) :=
  if (signal <? 1) || (SIGNALSET_MAX <? signal) then Ret (- EINVAL, s) else
  let signal := signal - 1 in
  let bit := Z.land signal 31 in
  let i := signal / 32 in
  ref ← rd s i;
  let check := u32 (Z.shiftl 1 bit) in
  let mask := u32 (Z.lnot check) in
  let check := if value then check else 0 in
  s' ← wr s i (Z.lor (Z.land ref mask) check);
  Ret (0, s').

Definition sig_clear (signal : Z) (s : sigset_t) : outcome sigset_t := snd <$> sig_set signal false s.

Definition sig_test (signal : Z) (s : sigset_t) : outcome bool :=
  if (signal <? 1) || (SIGNALSET_MAX <? signal) then Ret false else
  let signal := signal - 1 in
  let bit := Z.land signal 31 in
  ref ← rd s (signal / 32);
  Ret (negb (Z.land ref (u32 (Z.shiftl 1 bit)) =? 0)).

(** The loop of First over the bits of a word that is not 0. *)
Fixpoint first_bit (fuel : nat) (value bit : Z) : outcome Z :=
  if negb (Z.land value 1 =? 0) then Ret bit else
  match fuel with
  | O => OutOfFuel
  | S fuel => first_bit fuel (Z.shiftr value 1) (bit + 1)
  end.

Fixpoint first_loop (i : Z) (words : list Z) : outcome Z :=
  match words with
  | [] => Ret (-1)
  | value :: words =>
      if value =? 0 then first_loop (i + 1) words
      else bit ← first_bit 32 value 0; Ret (i * 32 + bit + 1)
  end.

Definition sig_first (s : sigset_t) : outcome Z := first_loop 0 s.

(** * The signals of a process *)

Definition SIG_BLOCK : Z := 0.
Definition SIG_UNBLOCK : Z := 1.
Definition SIG_SETMASK : Z := 2.
Definition SIGKILL : Z := 9.

Definition SA_SIGINFO : Z := 4.
Definition SA_UNSUPPORTED : Z := 0x400.
Definition SA_RESTORER : Z := 0x4000000.
Definition sigactionSupportMask : Z := Z.lor SA_SIGINFO SA_RESTORER.

(** struct sigaction; the two handlers are one union. *)
Record sigaction := Sigaction {
  sa_handler : Z;
  sa_flags : Z;
  sa_restorer : Z;
  sa_mask : sigset_t
}.

Definition sigaction_zero : sigaction := Sigaction 0 0 0 sig_empty.

(** The part of class Process that concerns signals; [sigactions] are the
    records of the signals that have an action. *)
Record signals := Signals {
  sigmask : sigset_t;
  sigpending : sigset_t;
  sigactions : list (Z * sigaction);
  killed : bool
}.

(** The bytes of a set in memory, and the set that is read from bytes. *)
Definition set_bytes (s : sigset_t) : list Z := concat (Z_to_little_endian 4 8 <$> s).
Definition bytes_set (bs : list Z) : sigset_t :=
  [little_endian_to_Z 8 (take 4 bs); little_endian_to_Z 8 (take 4 (drop 4 bs))].

Definition copy_bytes (dst src : list Z) (n : Z) : outcome (list Z) :=
  let n := Z.to_nat n in
  if (n <=? length dst)%nat && (n <=? length src)%nat then Ret (take n src ++ drop n dst)
  else OutOfBounds.

(** The switch of sigprocmask. *)
Definition change_mask (how : Z) (set : option (list Z)) (sigsetsize : Z) (mask : sigset_t)
    : outcome sigset_t :=
  match set with
  | None => Ret mask
  | Some set =>
      if how =? SIG_SETMASK then bytes_set <$> copy_bytes (set_bytes mask) set sigsetsize
      else
        tmp ← copy_bytes (set_bytes sig_empty) set sigsetsize;
        Ret (if how =? SIG_BLOCK then zip_with Z.lor mask (bytes_set tmp)
             else zip_with (fun m t => Z.land m (u32 (Z.lnot t))) mask (bytes_set tmp))
  end.

(** Process::sigprocmask; [set] and [oldset] are the bytes at the addresses
    that were passed, if they were, and the result has the new bytes at
    [oldset]. *)
Definition sigprocmask (how : Z) (set oldset : option (list Z)) (sigsetsize : Z) (st : signals)
    : outcome (Z * option (list Z) * signals) :=
  if (sigsetsize <? 0) || (8 <? sigsetsize) then Ret (- EINVAL, oldset, st) else
  if negb (how =? SIG_BLOCK) && negb (how =? SIG_UNBLOCK) && negb (how =? SIG_SETMASK)
  then Ret (- EINVAL, oldset, st) else
  oldset_tmp ← match oldset with
    | Some _ => copy_bytes (set_bytes sig_empty) (set_bytes (sigmask st)) sigsetsize
    | None => Ret (set_bytes sig_empty)
    end;
  mask ← change_mask how set sigsetsize (sigmask st);
  old ← match oldset with
    | Some o => Some <$> copy_bytes o oldset_tmp sigsetsize
    | None => Ret None
    end;
  Ret (0, old, Signals mask (sigpending st) (sigactions st) (killed st)).

Definition supported_flags (act : sigaction) : sigaction :=
  if Z.land (sa_flags act) SA_UNSUPPORTED =? 0 then act
  else Sigaction (sa_handler act) (Z.land (sa_flags act) sigactionSupportMask)
         (sa_restorer act) (sa_mask act).

(** The loop of sigaction over the records: the record of the signal, if
    there is one, and the records with its action replaced. *)
Fixpoint find_sigaction (signal : Z) (act : option sigaction) (recs : list (Z * sigaction))
    : option (sigaction * list (Z * sigaction)) :=
  match recs with
  | [] => None
  | (n, rec) :: recs =>
      if n =? signal then
        Some (rec, (n, match act with Some act => supported_flags act | None => rec end) :: recs)
      else
        match find_sigaction signal act recs with
        | Some (old, recs') => Some (old, (n, rec) :: recs')
        | None => None
        end
  end.

(** Process::sigaction; the result is always 0.  [oact] says whether the
    address for the old action was passed. *)
Definition set_sigaction (signal : Z) (act : option sigaction) (oact : bool) (st : signals)
    : option sigaction * signals :=
  match find_sigaction signal act (sigactions st) with
  | Some (old, recs) =>
      (if oact then Some old else None, Signals (sigmask st) (sigpending st) recs (killed st))
  | None =>
      (if oact then Some sigaction_zero else None,
       match act with
       | Some act =>
           Signals (sigmask st) (sigpending st) (sigactions st ++ [(signal, supported_flags act)])
             (killed st)
       | None => st
       end)
  end.

Fixpoint lookup_sigaction (signal : Z) (recs : list (Z * sigaction)) : option sigaction :=
  match recs with
  | [] => None
  | (n, rec) :: recs => if n =? signal then Some rec else lookup_sigaction signal recs
  end.

Definition GetSigaction (signal : Z) (st : signals) : option sigaction :=
  lookup_sigaction signal (sigactions st).

Definition set_pending (pending : sigset_t) (st : signals) : signals :=
  Signals (sigmask st) pending (sigactions st) (killed st).

(** Process::setsignal *)
Definition setsignal (signal : Z) (st : signals) : outcome (Z * signals) :=
  '(err, pending) ← sig_set signal true (sigpending st);
  let st := set_pending pending st in
  if err =? 0 then
    masked ← sig_test signal (sigmask st);
    Ret (if negb masked then 1 else 0, st)
  else Ret (err, st).

(** Process::HasPendingSignalOrKill *)
Definition HasPendingSignalOrKill (st : signals) : outcome bool :=
  kill ← sig_test SIGKILL (sigpending st);
  if killed st || kill then Ret true else
  let sigs := sig_and (sigpending st) (sig_not (sigmask st)) in
  sig ← sig_first (sigpending st);
  Ret (negb (sig =? -1)).

(** Process::GetAndClearSigpending *)
Definition GetAndClearSigpending (st : signals) : outcome (Z * signals) :=
  kill ← sig_test SIGKILL (sigpending st);
  if kill : bool then Ret (SIGKILL, st) else
  let sigs := sig_and (sigpending st) (sig_not (sigmask st)) in
  sig ← sig_first sigs;
  if negb (sig =? -1) then
    pending ← sig_clear sig (sigpending st);
    Ret (sig, set_pending pending st)
  else Ret (sig, st).

(** Process::SetKilled *)
Definition SetKilled (st : signals) : signals :=
  Signals (sigmask st) (sigpending st) (sigactions st) true.

(** * The set as a set *)

Definition sig_valid (k : Z) : bool := (1 <=? k) && (k <=? SIGNALSET_MAX).

Definition sig_in (s : sigset_t) (k : Z) : bool :=
  sig_valid k &&
  match s !! Z.to_nat ((k - 1) / 32) with
  | Some v => Z.testbit v ((k - 1) mod 32)
  | None => false
  end.

Definition sigset_ok (s : sigset_t) : Prop := length s = 2%nat ∧ Forall (is_u 32) s.

(** The signals of a set, in ascending order. *)
Definition members (s : sigset_t) : list Z := filter (fun k => sig_in s k = true) (seqZ 1 64).

Lemma sig_valid_spec k : sig_valid k = true ↔ 1 ≤ k ≤ 64.
Proof. unfold sig_valid, SIGNALSET_MAX. rewrite andb_true_iff, !Z.leb_le. done. Qed.

Lemma sig_invalid_test k : ((k <? 1) || (SIGNALSET_MAX <? k)) = negb (sig_valid k).
Proof.
  unfold sig_valid, SIGNALSET_MAX.
  destruct (Z.ltb_spec k 1), (Z.ltb_spec 64 k), (Z.leb_spec 1 k), (Z.leb_spec k 64); done || lia.
Qed.

(** The word of a signal. *)
Lemma sig_word s k :
  sigset_ok s → sig_valid k = true →
  ∃ v, s !! Z.to_nat ((k - 1) / 32) = Some v ∧ is_u 32 v ∧ rd s ((k - 1) / 32) = Ret v.
Proof.
  intros [Hl Hw] Hk%sig_valid_spec.
  destruct (lookup_lt_is_Some_2 s (Z.to_nat ((k - 1) / 32))) as [v Hv].
  { rewrite Hl. assert ((k - 1) / 32 < 2) by (apply Z.div_lt_upper_bound; lia). lia. }
  exists v. split_and!; [done | by eapply Forall_lookup_1 | by apply rd_Some].
Qed.

Lemma sig_bit_range k : 0 ≤ (k - 1) mod 32 < 32.
Proof. apply Z.mod_pos_bound. lia. Qed.

Lemma u32_shl1 b : 0 ≤ b < 32 → u32 (Z.shiftl 1 b) = Z.shiftl 1 b.
Proof.
  intros Hb. apply wrap_id. rewrite Z.shiftl_1_l. split; [apply Z.pow_nonneg; lia |].
  apply Z.pow_lt_mono_r; lia.
Qed.

Lemma sig_test_spec s k : sigset_ok s → sig_test k s = Ret (sig_in s k).
Proof.
  intros Hs. unfold sig_test, sig_in. rewrite sig_invalid_test.
  destruct (sig_valid k) eqn:Hk; cbn [negb andb]; [| done].
  destruct (sig_word s k Hs Hk) as (v & Hv & _ & Hr). rewrite Hr, Hv. cbn [mbind outcome_bind].
  rewrite land_31. pose proof (sig_bit_range k).
  rewrite u32_shl1 by done. by rewrite land_shl1_eqb, negb_involutive by lia.
Qed.

(** Two signals in the same word with the same bit are the same. *)
Lemma sig_index_inj j k :
  sig_valid j = true → sig_valid k = true →
  Z.to_nat ((j - 1) / 32) = Z.to_nat ((k - 1) / 32) → (j - 1) mod 32 = (k - 1) mod 32 → j = k.
Proof.
  intros Hj%sig_valid_spec Hk%sig_valid_spec Hd Hm.
  pose proof (Z.div_mod (j - 1) 32). pose proof (Z.div_mod (k - 1) 32).
  assert (0 ≤ (j - 1) / 32) by (apply Z.div_pos; lia).
  assert (0 ≤ (k - 1) / 32) by (apply Z.div_pos; lia). lia.
Qed.

Lemma set_word_bit v b x i :
  0 ≤ b < 32 → 0 ≤ i < 32 →
  Z.testbit (Z.lor (Z.land v (u32 (Z.lnot (Z.shiftl 1 b)))) (if x : bool then Z.shiftl 1 b else 0)) i =
  if i =? b then x else Z.testbit v i.
Proof.
  intros Hb Hi.
  rewrite Z.lor_spec, Z.land_spec, wrap_spec, Z.lnot_spec, testbit_shl1 by lia.
  replace (i <? 32) with true by (symmetry; apply Z.ltb_lt; lia). cbn [andb].
  destruct x; rewrite ?testbit_shl1, ?Z.testbit_0_l by lia; destruct (Z.eqb_spec i b);
    simpl; by rewrite ?andb_false_r, ?andb_true_r, ?orb_true_r, ?orb_false_r.
Qed.

Lemma sig_set_spec s k x :
  sigset_ok s → sig_valid k = true →
  ∃ s', sig_set k x s = Ret (0, s') ∧ sigset_ok s' ∧
    ∀ j, sig_in s' j = if j =? k then x else sig_in s j.
Proof.
  intros Hs Hk. unfold sig_set. rewrite sig_invalid_test, Hk. cbn [negb].
  destruct (sig_word s k Hs Hk) as (v & Hv & Hu & Hr). rewrite Hr. cbn [mbind outcome_bind].
  rewrite land_31. pose proof (sig_bit_range k) as Hb. rewrite u32_shl1 by done.
  unfold wr. rewrite Hv. cbn [mbind outcome_bind]. eexists; split_and!; [done | |].
  - destruct Hs as [Hl Hw]. split; [by rewrite length_insert |]. apply Forall_insert; [done |].
    apply is_u_lor; [done | apply is_u_land; [done | done | apply wrap_range; lia] |].
    destruct x; [| done]. rewrite <- u32_shl1 by done. by apply wrap_range.
  - intros j. unfold sig_in. destruct (sig_valid j) eqn:Hj; cbn [andb].
    2: { destruct (Z.eqb_spec j k) as [-> |]; congruence. }
    destruct (decide (Z.to_nat ((j - 1) / 32) = Z.to_nat ((k - 1) / 32))) as [E | E].
    + rewrite E, list_lookup_insert_eq by (by eapply lookup_lt_Some). rewrite Hv.
      pose proof (sig_bit_range j). rewrite set_word_bit by lia.
      destruct (Z.eqb_spec ((j - 1) mod 32) ((k - 1) mod 32)) as [Em | Em], (Z.eqb_spec j k) as [-> | Hn];
        try done. by destruct Hn; apply sig_index_inj.
    + rewrite list_lookup_insert_ne by done. destruct (Z.eqb_spec j k) as [-> |]; done.
Qed.

Lemma sig_set_invalid s k x : sig_valid k = false → sig_set k x s = Ret (- EINVAL, s).
Proof. intros Hk. unfold sig_set. by rewrite sig_invalid_test, Hk. Qed.

Lemma sig_not_ok s : sigset_ok s → sigset_ok (sig_not s).
Proof.
  intros [Hl Hw]. split; [by unfold sig_not; rewrite length_fmap |].
  apply Forall_fmap, Forall_true. intros. by apply wrap_range.
Qed.

Lemma sig_not_in s k : sigset_ok s → sig_in (sig_not s) k = sig_valid k && negb (sig_in s k).
Proof.
  intros Hs. unfold sig_in, sig_not. destruct (sig_valid k) eqn:Hk; [| done]. cbn [andb].
  destruct (sig_word s k Hs Hk) as (v & Hv & _ & _). rewrite list_lookup_fmap, Hv. cbn.
  pose proof (sig_bit_range k). rewrite wrap_spec, Z.lnot_spec by lia.
  by replace (_ <? 32) with true by (symmetry; apply Z.ltb_lt; lia).
Qed.

Lemma sig_zip_ok f s s' :
  (∀ x y, is_u 32 x → is_u 32 y → is_u 32 (f x y)) →
  sigset_ok s → sigset_ok s' → sigset_ok (zip_with f s s').
Proof.
  intros Hf [Hl Hw] [Hl' Hw']. split; [rewrite length_zip_with; lia |].
  apply Forall_lookup_2. intros i z Hz. apply lookup_zip_with_Some in Hz as (x & y & -> & Hx & Hy).
  rewrite Forall_lookup in Hw, Hw'. eauto.
Qed.

(** A word-wise operation that is bit-wise. *)
Lemma sig_zip_in f g s s' k :
  (∀ x y i, 0 ≤ i < 32 → Z.testbit (f x y) i = g (Z.testbit x i) (Z.testbit y i)) →
  sigset_ok s → sigset_ok s' →
  sig_in (zip_with f s s') k = sig_valid k && g (sig_in s k) (sig_in s' k).
Proof.
  intros Hf Hs Hs'. unfold sig_in. destruct (sig_valid k) eqn:Hk; [| done]. cbn [andb].
  destruct (sig_word s k Hs Hk) as (v & Hv & _). destruct (sig_word s' k Hs' Hk) as (v' & Hv' & _).
  rewrite lookup_zip_with, Hv, Hv'. cbn. pose proof (sig_bit_range k). by rewrite Hf by lia.
Qed.

Lemma sig_and_ok s s' : sigset_ok s → sigset_ok s' → sigset_ok (sig_and s s').
Proof. apply sig_zip_ok. intros x y Hx [Hy _]. by apply is_u_land. Qed.

Lemma sig_in_valid s k : sig_in s k = true → sig_valid k = true.
Proof. unfold sig_in. by intros [? _]%andb_prop. Qed.

Lemma sig_and_in s s' k :
  sigset_ok s → sigset_ok s' → sig_in (sig_and s s') k = sig_in s k && sig_in s' k.
Proof.
  intros Hs Hs'. unfold sig_and. rewrite (sig_zip_in _ andb) by (done || intros; by rewrite Z.land_spec).
  destruct (sig_in s k) eqn:E; [by rewrite (sig_in_valid s k E) | by rewrite andb_false_r].
Qed.

(** ** First *)

Lemma first_bit_spec w v bit :
  v ≠ 0 → is_u (Z.of_nat w) v →
  ∃ n, first_bit w v bit = Ret (bit + n) ∧ 0 ≤ n < Z.of_nat w ∧ Z.testbit v n = true ∧
    ∀ i, 0 ≤ i < n → Z.testbit v i = false.
Proof.
  revert v bit. induction w as [| w IH]; intros v bit Hv Hu; [unfold is_u in Hu; simpl in Hu; lia |].
  cbn [first_bit]. change 1 with (Z.shiftl 1 0). rewrite land_shl1_eqb, negb_involutive by done.
  destruct (Z.testbit v 0) eqn:E0.
  { exists 0. rewrite Z.add_0_r. split_and!; try done; intros; lia. }
  assert (Z.testbit v 0 = Z.odd v) as Eo by (apply Z.bit0_odd). rewrite E0 in Eo.
  change (Z.shiftl 1 0) with 1. rewrite Z.shiftr_div_pow2 by lia. change (2 ^ 1) with 2.
  assert (v = 2 * (v / 2)) as Ed.
  { rewrite (Z.div_mod v 2) at 1 by lia. rewrite Zmod_odd, <- Eo. lia. }
  destruct (IH (v / 2) (bit + 1)) as (n & Hf & Hn & Ht & Hb).
  { intros E. rewrite E in Ed. lia. }
  { unfold is_u in *. rewrite Nat2Z.inj_succ, Z.pow_succ_r in Hu by lia. lia. }
  assert (∀ i, 0 ≤ i → Z.testbit v (i + 1) = Z.testbit (v / 2) i) as Hs.
  { intros i Hi. rewrite <- Z.div2_div, Z.div2_spec. by rewrite Z.shiftr_spec by lia. }
  exists (n + 1). rewrite Hf. split_and!; [f_equal; lia | lia | lia | rewrite Hs by lia; done |].
  intros i Hi. destruct (decide (i = 0)) as [-> |]; [done |].
  replace i with ((i - 1) + 1) by lia. rewrite Hs by lia. apply Hb. lia.
Qed.

Definition is_first (s : sigset_t) (r : Z) : Prop :=
  (r = -1 ∧ ∀ k, sig_in s k = false) ∨
  (sig_in s r = true ∧ ∀ j, j < r → sig_in s j = false).

Lemma sig_in_low s0 s1 k : 1 ≤ k ≤ 32 → sig_in [s0; s1] k = Z.testbit s0 (k - 1).
Proof.
  intros Hk. unfold sig_in. rewrite (proj2 (sig_valid_spec k)) by lia.
  rewrite Z.div_small, Z.mod_small by lia. done.
Qed.

Lemma sig_in_high s0 s1 k : 33 ≤ k ≤ 64 → sig_in [s0; s1] k = Z.testbit s1 (k - 33).
Proof.
  intros Hk. unfold sig_in. rewrite (proj2 (sig_valid_spec k)) by lia.
  replace ((k - 1) / 32) with 1 by (apply Z.div_unique with (k - 33); lia).
  replace ((k - 1) mod 32) with (k - 33) by (apply Z.mod_unique with 1; lia). done.
Qed.

Lemma sig_in_range s k : sig_in s k = true → 1 ≤ k ≤ 64.
Proof. intros H%sig_in_valid. by apply sig_valid_spec. Qed.

(** A set is where its signals are. *)
Lemma sig_in_cases s k : sig_in s k = false ∨ 1 ≤ k ≤ 32 ∨ 33 ≤ k ≤ 64.
Proof.
  destruct (sig_in s k) eqn:E; [right | by left]. apply sig_in_range in E. lia.
Qed.

Lemma sig_first_spec s : sigset_ok s → ∃ r, sig_first s = Ret r ∧ is_first s r.
Proof.
  intros [Hl Hw]. destruct s as [| s0 [| s1 [|]]]; try done.
  apply Forall_cons in Hw as [H0 Hw]. apply Forall_cons in Hw as [H1 _].
  unfold sig_first. cbn [first_loop]. destruct (Z.eqb_spec s0 0) as [-> | E0].
  - destruct (Z.eqb_spec s1 0) as [-> | E1].
    { exists (-1). split; [done |]. left. split; [done |]. intros k.
      destruct (sig_in_cases [0; 0] k) as [| [|]]; [done | |];
        rewrite ?sig_in_low, ?sig_in_high by done; apply Z.testbit_0_l. }
    destruct (first_bit_spec 32 s1 0 E1 H1) as (n & -> & Hn & Ht & Hb). cbn [mbind outcome_bind].
    eexists; split; [done |]. right. split.
    { rewrite sig_in_high by lia. rewrite <- Ht. f_equal. lia. }
    intros j Hj. destruct (sig_in_cases [0; s1] j) as [| [|]]; [done | |].
    + rewrite sig_in_low by lia. apply Z.testbit_0_l.
    + rewrite sig_in_high by lia. apply Hb. lia.
  - destruct (first_bit_spec 32 s0 0 E0 H0) as (n & -> & Hn & Ht & Hb). cbn [mbind outcome_bind].
    eexists; split; [done |]. right. split.
    { rewrite sig_in_low by lia. rewrite <- Ht. f_equal. lia. }
    intros j Hj. destruct (sig_in_cases [s0; s1] j) as [| [|]]; [done | | lia].
    rewrite sig_in_low by lia. apply Hb. lia.
Qed.

(** ** The members in order *)

Lemma filter_none (P : Z → Prop) `{∀ k, Decision (P k)} l : (∀ k, k ∈ l → ¬ P k) → filter P l = [].
Proof.
  intros Hl. induction l as [| x l IH]; [done |].
  rewrite filter_cons_False by (apply Hl; left). apply IH. intros k Hk. apply Hl. by right.
Qed.

(** First is the head of the members. *)
Lemma members_first s r :
  is_first s r →
  (r = -1 ∧ members s = []) ∨
  (1 ≤ r ≤ 64 ∧ ∃ rest, members s = r :: rest).
Proof.
  unfold members. intros [[-> Hn] | [Hr Hl]].
  - left. split; [done |]. apply filter_none. intros k _. by rewrite Hn.
  - right. pose proof (sig_in_range s r Hr). split; [done |].
    replace 64 with ((r - 1) + (1 + (64 - r))) by lia.
    rewrite (seqZ_app 1 (r - 1)), filter_app by lia. rewrite filter_none.
    2: { intros k Hk%elem_of_seqZ. rewrite Hl by lia. done. }
    replace (1 + (r - 1)) with r by lia. rewrite seqZ_cons by lia.
    rewrite filter_cons_True by done. by eexists.
Qed.

(** Taking one element out of the set takes it out of the list. *)
Lemma members_remove s s' x rest :
  (∀ k, sig_in s' k = if k =? x then false else sig_in s k) →
  members s = x :: rest → members s' = rest.
Proof.
  intros Hs' Hm. assert (members s' = filter (fun k => k ≠ x) (members s)) as ->.
  { unfold members. rewrite list_filter_filter. apply list_filter_iff. intros k. rewrite Hs'.
    destruct (Z.eqb_spec k x); [split; [done | by intros []] | split; [by split | by intros []]]. }
  assert (NoDup (members s)) as Hnd by (apply NoDup_filter, NoDup_seqZ).
  rewrite Hm in Hnd |- *. apply NoDup_cons in Hnd as [Hx _].
  rewrite filter_cons_False by naive_solver.
  assert (∀ k, k ∈ rest → k ≠ x) as Hne by (intros k Hk ->; done). clear -Hne.
  induction rest as [| y rest IH]; [done |]. rewrite filter_cons_True by (apply Hne; left).
  f_equal. apply IH. intros k Hk. apply Hne. by right.
Qed.

(** the set of signals is a set: Test, Set, the complement and the
    intersection act on each of the 64 signals as on the members of a set, a
    signal outside that range is refused, and First is the lowest member or
    -1 for the empty set. *)
Theorem sigset_correct (s s' : sigset_t) :
  sigset_ok s → sigset_ok s' →
  (∀ k, sig_test k s = Ret (sig_in s k)) ∧
  (∀ k x, sig_valid k = true → ∃ t, sig_set k x s = Ret (0, t) ∧ sigset_ok t ∧
     ∀ j, sig_in t j = if j =? k then x else sig_in s j) ∧
  (∀ k x, sig_valid k = false → sig_set k x s = Ret (- EINVAL, s)) ∧
  sigset_ok (sig_not s) ∧ (∀ k, sig_in (sig_not s) k = sig_valid k && negb (sig_in s k)) ∧
  sigset_ok (sig_and s s') ∧ (∀ k, sig_in (sig_and s s') k = sig_in s k && sig_in s' k) ∧
  sig_first s = Ret (default (-1) (head (members s))).
Proof.
  intros Hs Hs'. split_and!; auto using sig_test_spec, sig_set_spec, sig_set_invalid, sig_not_ok,
    sig_not_in, sig_and_ok, sig_and_in.
  destruct (sig_first_spec s Hs) as (r & -> & Hr).
  by destruct (members_first s r Hr) as [[-> ->] | (_ & rest & ->)].
Qed.

Lemma sigset_correct_witness :
  sig_first [0; 6] = Ret 34 ∧ members [0; 6] = [34; 35].
Proof.
  destruct (sigset_correct [0; 6] [0; 0]) as (_ & _ & _ & _ & _ & _ & _ & E).
  - split; [done | by repeat constructor].
  - split; [done | by repeat constructor].
  - split; [rewrite E |]; by vm_compute.
Defined.

(** * Delivery *)

Definition signals_ok (st : signals) : Prop := sigset_ok (sigmask st) ∧ sigset_ok (sigpending st).

(** The signals that are to be delivered. *)
Definition deliverable (st : signals) : sigset_t := sig_and (sigpending st) (sig_not (sigmask st)).

(** The caller of GetAndClearSigpending takes signals until there is none. *)
Fixpoint deliver_all (fuel : nat) (st : signals) : outcome (list Z * signals) :=
  '(sig, st) ← GetAndClearSigpending st;
  if sig =? -1 then Ret ([], st) else
  match fuel with
  | O => OutOfFuel
  | S fuel => '(sigs, st) ← deliver_all fuel st; Ret (sig :: sigs, st)
  end.

(** setsignal for each of a list of numbers. *)
Fixpoint raise_all (l : list Z) (st : signals) : outcome (list Z * signals) :=
  match l with
  | [] => Ret ([], st)
  | k :: l => '(r, st) ← setsignal k st; '(rs, st) ← raise_all l st; Ret (r :: rs, st)
  end.

Lemma deliverable_in st k :
  signals_ok st → sig_in (deliverable st) k = sig_in (sigpending st) k && negb (sig_in (sigmask st) k).
Proof.
  intros [Hm Hp]. unfold deliverable. rewrite sig_and_in, sig_not_in by auto using sig_not_ok.
  destruct (sig_in (sigpending st) k) eqn:E; [| done]. by rewrite (sig_in_valid _ _ E).
Qed.

Lemma deliverable_ok st : signals_ok st → sigset_ok (deliverable st).
Proof. intros [Hm Hp]. unfold deliverable. auto using sig_and_ok, sig_not_ok. Qed.

Lemma get_and_clear_spec st :
  signals_ok st → sig_in (sigpending st) SIGKILL = false →
  (members (deliverable st) = [] ∧ GetAndClearSigpending st = Ret (-1, st)) ∨
  (∃ r rest p, members (deliverable st) = r :: rest ∧ 1 ≤ r ≤ 64 ∧ sigset_ok p ∧
     GetAndClearSigpending st = Ret (r, set_pending p st) ∧
     ∀ j, sig_in p j = if j =? r then false else sig_in (sigpending st) j).
Proof.
  intros Hok Hk. unfold GetAndClearSigpending. fold (deliverable st).
  rewrite sig_test_spec, Hk by apply Hok. cbn [mbind outcome_bind].
  destruct (sig_first_spec _ (deliverable_ok st Hok)) as (r & -> & Hr). cbn [mbind outcome_bind].
  destruct (members_first _ _ Hr) as [[-> Hm] | (Hr' & rest & Hm)]; [by left | right].
  replace (r =? -1) with false by (symmetry; apply Z.eqb_neq; lia). cbn [negb].
  destruct (sig_set_spec (sigpending st) r false) as (p & Hp & Hpok & Hin);
    [apply Hok | by apply sig_valid_spec |].
  unfold sig_clear. rewrite Hp. cbn. exists r, rest, p. done.
Qed.

Lemma members_in s k : k ∈ members s ↔ sig_in s k = true.
Proof.
  unfold members. rewrite list_elem_of_filter, elem_of_seqZ. split; [by intros [] |].
  intros Hk. pose proof (sig_in_range s k Hk). split; [done | lia].
Qed.

Lemma nothing_deliverable st :
  signals_ok st → members (deliverable st) = [] →
  ∀ k, sig_in (sigpending st) k = sig_in (sigpending st) k && sig_in (sigmask st) k.
Proof.
  intros Hok Hm k. pose proof (deliverable_in st k Hok) as Hd.
  destruct (sig_in (deliverable st) k) eqn:E; [apply members_in in E; rewrite Hm in E; by apply not_elem_of_nil in E |].
  by destruct (sig_in (sigpending st) k), (sig_in (sigmask st) k).
Qed.

Lemma deliver_all_spec fuel st :
  signals_ok st → sig_in (sigpending st) SIGKILL = false →
  (length (members (deliverable st)) ≤ fuel)%nat →
  ∃ p, deliver_all fuel st = Ret (members (deliverable st), set_pending p st) ∧ sigset_ok p ∧
    ∀ k, sig_in p k = sig_in (sigpending st) k && sig_in (sigmask st) k.
Proof.
  revert st. induction fuel as [| fuel IH]; intros st Hok Hk Hlen;
    destruct (get_and_clear_spec st Hok Hk) as [[Hm Hg] | (r & rest & p & Hm & Hr & Hp & Hg & Hin)];
    cbn [deliver_all]; rewrite Hg; cbn [mbind outcome_bind].
  1, 3: rewrite Hm; exists (sigpending st); split_and!; [by destruct st | apply Hok |];
    by apply nothing_deliverable.
  1: rewrite Hm in Hlen; simpl in Hlen; lia.
  replace (r =? -1) with false by (symmetry; apply Z.eqb_neq; lia).
  set (st' := set_pending p st). assert (signals_ok st') as Hok' by (split; [apply Hok | done]).
  assert (members (deliverable st') = rest) as Hm'.
  { eapply members_remove; [| exact Hm]. intros k. rewrite !deliverable_in by done.
    change (sigpending st') with p. change (sigmask st') with (sigmask st). rewrite Hin.
    by destruct (Z.eqb_spec k r). }
  destruct (IH st' Hok') as (p' & Hd & Hp' & Hin').
  { change (sigpending st') with p. rewrite Hin, Hk. by destruct (SIGKILL =? r). }
  { rewrite Hm'. rewrite Hm in Hlen. simpl in Hlen. lia. }
  rewrite Hd. cbn [mbind outcome_bind]. rewrite Hm', Hm. exists p'. split_and!; [done.. |].
  intros k. rewrite Hin'. change (sigpending st') with p. change (sigmask st') with (sigmask st).
  rewrite Hin. destruct (Z.eqb_spec k r) as [-> |]; [| done].
  assert (sig_in (deliverable st) r = true) as Hdr.
  { apply members_in. rewrite Hm. left. }
  rewrite deliverable_in in Hdr by done.
  destruct (sig_in (sigmask st) r); [by rewrite andb_false_r in Hdr | by rewrite !andb_false_r].
Qed.

Lemma raise_all_spec l st :
  signals_ok st →
  ∃ rs p, raise_all l st = Ret (rs, set_pending p st) ∧ sigset_ok p ∧
    (∀ k, sig_in p k = sig_in (sigpending st) k || (sig_valid k && bool_decide (k ∈ l))) ∧
    rs = (fun k => if sig_valid k then if sig_in (sigmask st) k then 0 else 1 else - EINVAL) <$> l.
Proof.
  revert st. induction l as [| x l IH]; intros st Hok.
  { exists [], (sigpending st). split_and!; [by destruct st | apply Hok | | done].
    intros k. rewrite bool_decide_false by apply not_elem_of_nil. by rewrite andb_false_r, orb_false_r. }
  cbn [raise_all]. unfold setsignal. destruct (sig_valid x) eqn:Hx.
  - destruct (sig_set_spec (sigpending st) x true) as (p & -> & Hp & Hin); [apply Hok | done |].
    cbn [mbind outcome_bind]. rewrite Z.eqb_refl. rewrite sig_test_spec by apply Hok.
    cbn [mbind outcome_bind].
    destruct (IH (set_pending p st)) as (rs & q & -> & Hq & Hqin & Hrs); [split; [apply Hok | done] |].
    cbn [mbind outcome_bind]. eexists _, q. split_and!; [done | done | |].
    + intros k. rewrite Hqin. change (sigpending (set_pending p st)) with p. rewrite Hin.
      rewrite (bool_decide_ext (k ∈ x :: l) (k = x ∨ k ∈ l)) by apply elem_of_cons.
      rewrite bool_decide_or. destruct (Z.eqb_spec k x) as [-> |].
      * rewrite Hx, (bool_decide_true (x = x)) by done. by rewrite orb_true_r.
      * by rewrite (bool_decide_false (k = x)) by done.
    + rewrite Hrs. rewrite fmap_cons, Hx. f_equal. by destruct (sig_in (sigmask _) x).
  - rewrite sig_set_invalid by done. cbn [mbind outcome_bind].
    change (- EINVAL =? 0) with false. cbn [mbind outcome_bind].
    destruct (IH (set_pending (sigpending st) st)) as (rs & q & -> & Hq & Hqin & Hrs);
      [split; apply Hok |].
    cbn [mbind outcome_bind]. eexists _, q. split_and!; [done | done | |].
    + intros k. rewrite Hqin. change (sigpending (set_pending (sigpending st) st)) with (sigpending st).
      f_equal. rewrite (bool_decide_ext (k ∈ x :: l) (k = x ∨ k ∈ l)) by apply elem_of_cons.
      rewrite bool_decide_or. destruct (decide (k = x)) as [-> |]; [by rewrite Hx |].
      by rewrite (bool_decide_false (k = x)) by done.
    + rewrite Hrs. by rewrite fmap_cons, Hx.
Qed.

(** C31: raising any signals makes exactly those pending that are valid, beside
    those that were; each setsignal answers 1 for a signal that is not masked, 0
    for one that is and -EINVAL for a number that is no signal.  Unless SIGKILL
    is then pending, GetAndClearSigpending hands out, in ascending order and
    each once, all that are pending and not masked, and those that are masked
    stay pending.  If SIGKILL is pending, masked or not, GetAndClearSigpending
    returns SIGKILL and changes nothing, so that every later call does the same
    and no other signal is handed out. *)
Theorem signals_delivered (st : signals) (raised : list Z) :
  signals_ok st →
  ∃ rs p, raise_all raised st = Ret (rs, set_pending p st) ∧ sigset_ok p ∧
    rs = (fun k => if sig_valid k then if sig_in (sigmask st) k then 0 else 1 else - EINVAL) <$> raised ∧
    (∀ k, sig_in p k = sig_in (sigpending st) k || (sig_valid k && bool_decide (k ∈ raised))) ∧
    if sig_in p SIGKILL then
      GetAndClearSigpending (set_pending p st) = Ret (SIGKILL, set_pending p st)
    else
      ∃ q, deliver_all 64 (set_pending p st) =
             Ret (filter (fun k => sig_in p k = true ∧ sig_in (sigmask st) k = false) (seqZ 1 64),
                  set_pending q st) ∧
        sigset_ok q ∧ ∀ k, sig_in q k = sig_in p k && sig_in (sigmask st) k.
Proof.
  intros Hok. destruct (raise_all_spec raised st Hok) as (rs & p & Hr & Hp & Hin & Hrs).
  exists rs, p. split_and!; [done.. |].
  assert (signals_ok (set_pending p st)) as Hok' by (split; [apply Hok | done]).
  destruct (sig_in p SIGKILL) eqn:Hk.
  - unfold GetAndClearSigpending. change (sigpending (set_pending p st)) with p.
    by rewrite sig_test_spec, Hk.
  - destruct (deliver_all_spec 64 (set_pending p st) Hok' Hk) as (q & Hd & Hq & Hqin).
    { unfold members. etrans; [apply length_filter |]. by rewrite length_seqZ. }
    exists q. split_and!; [| done | done]. rewrite Hd. do 2 f_equal.
    apply list_filter_iff. intros k. rewrite deliverable_in by done.
    change (sigpending (set_pending p st)) with p. change (sigmask (set_pending p st)) with (sigmask st).
    destruct (sig_in p k), (sig_in (sigmask st) k); cbn; split; by try intros [].
Qed.

Lemma signals_delivered_witness :
  deliver_all 64 (Signals [0x400; 0] [0x440; 0x20] [] false) =
  Ret ([7; 38], Signals [0x400; 0] [0x400; 0] [] false).
Proof.
  destruct (signals_delivered (Signals [0x400; 0] [0x400; 0] [] false) [7; 38; 11; 99])
    as (rs & p & Hr & _ & _ & _ & Hd).
  - split; (split; [done | by repeat constructor]).
  - vm_compute in Hr. injection Hr as <- <-. destruct Hd as (q & E & _). vm_compute in E.
    injection E as Eq. by vm_compute.
Defined.

(** HasPendingSignalOrKill does not look at the mask: it answers true
    whenever any signal is pending, so that with only masked signals pending it
    answers true while GetAndClearSigpending has nothing to hand out. *)
Theorem has_pending_ignores_mask (st : signals) :
  signals_ok st →
  HasPendingSignalOrKill st =
    Ret (killed st || negb (bool_decide (members (sigpending st) = []))) ∧
  (sig_in (sigpending st) SIGKILL = false → members (sigpending st) ≠ [] →
   (∀ k, sig_in (sigpending st) k = true → sig_in (sigmask st) k = true) →
   HasPendingSignalOrKill st = Ret true ∧ GetAndClearSigpending st = Ret (-1, st)).
Proof.
  intros Hok. assert (HasPendingSignalOrKill st =
    Ret (killed st || negb (bool_decide (members (sigpending st) = [])))) as Hh.
  { unfold HasPendingSignalOrKill. rewrite sig_test_spec by apply Hok. cbn [mbind outcome_bind].
    destruct (killed st); [done |]. cbn [orb]. destruct (sig_in (sigpending st) SIGKILL) eqn:Hk.
    { apply members_in in Hk. rewrite bool_decide_false; [done |]. intros E. rewrite E in Hk.
      by apply not_elem_of_nil in Hk. }
    destruct (sig_first_spec (sigpending st)) as (r & -> & Hr); [apply Hok |]. cbn [mbind outcome_bind].
    destruct (members_first _ _ Hr) as [[-> ->] | (Hr' & rest & ->)]; [done |].
    by replace (r =? -1) with false by (symmetry; apply Z.eqb_neq; lia). }
  split; [done |]. intros Hk Hne Hm. split.
  - rewrite Hh, bool_decide_false by done. by rewrite orb_true_r.
  - destruct (get_and_clear_spec st Hok Hk) as [[_ ->] | (r & rest & p & Hd & _)]; [done |].
    assert (r ∈ members (deliverable st)) as Hr%members_in by (rewrite Hd; left).
    rewrite deliverable_in in Hr by done. apply andb_prop in Hr as [H1 H2].
    by rewrite (Hm r H1) in H2.
Qed.

Lemma has_pending_ignores_mask_witness :
  HasPendingSignalOrKill (Signals [0x400; 0] [0x400; 0] [] false) = Ret true ∧
  GetAndClearSigpending (Signals [0x400; 0] [0x400; 0] [] false) =
    Ret (-1, Signals [0x400; 0] [0x400; 0] [] false).
Proof.
  destruct (has_pending_ignores_mask (Signals [0x400; 0] [0x400; 0] [] false)) as [_ H].
  - split; (split; [done | by repeat constructor]).
  - apply H; [done | by vm_compute | done].
Defined.

(** * The mask *)

(** Whether a signal is in a set that is given by its bytes. *)
Definition byte_in (bs : list Z) (k : Z) : bool :=
  match bs !! Z.to_nat ((k - 1) / 8) with
  | Some b => Z.testbit b ((k - 1) mod 8)
  | None => false
  end.

Definition bytes_ok (n : Z) (bs : list Z) : Prop := n ≤ Z.of_nat (length bs) ∧ Forall (is_u 8) bs.

Lemma bytes_set_ok bs : Forall (is_u 8) bs → length bs = 8%nat → sigset_ok (bytes_set bs).
Proof.
  intros Hb Hl. split; [done |]. unfold bytes_set.
  assert (∀ l, Forall (is_u 8) l → length l = 4%nat → is_u 32 (little_endian_to_Z 8 l)) as Hw.
  { intros l Hf Hll. pose proof (little_endian_to_Z_bound 8 l) as Hx. rewrite Hll in Hx.
    by apply Hx. }
  repeat constructor; apply Hw; auto using Forall_take, Forall_drop;
    rewrite ?length_take, ?length_drop; lia.
Qed.

Lemma bytes_set_in bs k :
  Forall (is_u 8) bs → length bs = 8%nat → sig_valid k = true → sig_in (bytes_set bs) k = byte_in bs k.
Proof.
  intros Hf Hl Hk%sig_valid_spec. unfold byte_in.
  assert (0 ≤ (k - 1) / 8 < 8) by (split; [apply Z.div_pos | apply Z.div_lt_upper_bound]; lia).
  destruct (lookup_lt_is_Some_2 bs (Z.to_nat ((k - 1) / 8))) as [b Hb]; [lia |]. rewrite Hb.
  unfold bytes_set. destruct (decide (k ≤ 32)).
  - rewrite sig_in_low by lia.
    assert ((k - 1) / 8 < 4) by (apply Z.div_lt_upper_bound; lia).
    apply little_endian_to_Z_spec; [lia | lia | by apply Forall_take |].
    rewrite lookup_take_lt by lia. done.
  - rewrite sig_in_high by lia.
    assert ((k - 33) / 8 = (k - 1) / 8 - 4) as Ed.
    { replace (k - 1) with ((k - 33) + 4 * 8) by lia. rewrite Z.div_add by lia. lia. }
    assert (4 ≤ (k - 1) / 8) by (apply Z.div_le_lower_bound; lia).
    replace ((k - 1) mod 8) with ((k - 33) mod 8).
    2: { replace (k - 1) with ((k - 33) + 4 * 8) by lia. by rewrite Z.mod_add by lia. }
    apply little_endian_to_Z_spec; [lia | lia | by apply Forall_take, Forall_drop |].
    rewrite lookup_take_lt by lia. rewrite lookup_drop. rewrite Ed. rewrite <- Hb. f_equal. lia.
Qed.

Lemma set_bytes_ok s : sigset_ok s → length (set_bytes s) = 8%nat ∧ Forall (is_u 8) (set_bytes s).
Proof.
  intros [Hl Hw]. destruct s as [| s0 [| s1 [|]]]; try done. unfold set_bytes. cbn.
  rewrite app_nil_r, length_app.
  pose proof (length_Z_to_little_endian 4 8 s0). pose proof (length_Z_to_little_endian 4 8 s1).
  split; [lia |]. apply Forall_app. split; by apply Z_to_little_endian_bound.
Qed.

Lemma bytes_set_bytes s : sigset_ok s → bytes_set (set_bytes s) = s.
Proof.
  intros [Hl Hw]. destruct s as [| s0 [| s1 [|]]]; try done.
  apply Forall_cons in Hw as [H0 Hw]. apply Forall_cons in Hw as [H1 _].
  unfold bytes_set, set_bytes. cbn. rewrite app_nil_r.
  pose proof (length_Z_to_little_endian 4 8 s0). pose proof (length_Z_to_little_endian 4 8 s1).
  rewrite take_app_length', drop_app_length', take_ge by lia.
  rewrite !little_endian_to_Z_to_little_endian by lia.
  by rewrite (Z.mod_small s0), (Z.mod_small s1).
Qed.

Lemma set_bytes_in s k : sigset_ok s → sig_valid k = true → byte_in (set_bytes s) k = sig_in s k.
Proof.
  intros Hs Hk. destruct (set_bytes_ok s Hs) as [Hl Hf].
  by rewrite <- bytes_set_in, bytes_set_bytes.
Qed.

Lemma copy_bytes_spec dst src n :
  0 ≤ n → bytes_ok n dst → bytes_ok n src →
  ∃ bs, copy_bytes dst src n = Ret bs ∧ length bs = length dst ∧ Forall (is_u 8) bs ∧
    drop (Z.to_nat n) bs = drop (Z.to_nat n) dst ∧
    ∀ k, 1 ≤ k → byte_in bs k = if k <=? 8 * n then byte_in src k else byte_in dst k.
Proof.
  intros Hn [Hd Hdf] [Hs Hsf]. unfold copy_bytes.
  rewrite (proj2 (Nat.leb_le _ _)) by lia. rewrite (proj2 (Nat.leb_le _ _)) by lia. cbn [andb].
  eexists; split_and!; [done | | | |].
  - rewrite length_app, length_take, length_drop. lia.
  - apply Forall_app; auto using Forall_take, Forall_drop.
  - rewrite drop_app_length'; [done |]. rewrite length_take. lia.
  - intros k Hk. unfold byte_in. assert (0 ≤ (k - 1) / 8) by (apply Z.div_pos; lia).
    pose proof (Z.div_mod (k - 1) 8). pose proof (Z.mod_pos_bound (k - 1) 8).
    destruct (Z.leb_spec k (8 * n)).
    + rewrite lookup_app_l by (rewrite length_take; lia). by rewrite lookup_take_lt by lia.
    + rewrite lookup_app_r by (rewrite length_take; lia). rewrite lookup_drop, length_take.
      by replace (Z.to_nat n + (Z.to_nat ((k - 1) / 8) - Z.to_nat n `min` length src))%nat
        with (Z.to_nat ((k - 1) / 8)) by lia.
Qed.

(** What sigprocmask makes of one signal of the mask. *)
Definition new_mask_bit (how : Z) (old new : bool) : bool :=
  if how =? SIG_BLOCK then old || new else if how =? SIG_UNBLOCK then old && negb new else new.

(** The bytes of a set, copied over an empty one, as a set. *)
Lemma copied_set dst src n :
  0 ≤ n ≤ 8 → sigset_ok dst → bytes_ok n src →
  ∃ bs, copy_bytes (set_bytes dst) src n = Ret bs ∧ sigset_ok (bytes_set bs) ∧
    ∀ k, sig_valid k = true →
      sig_in (bytes_set bs) k = if k <=? 8 * n then byte_in src k else sig_in dst k.
Proof.
  intros Hn Hdst Hsrc. destruct (set_bytes_ok dst Hdst) as [Hl Hf].
  destruct (copy_bytes_spec (set_bytes dst) src n) as (bs & Hc & Hlb & Hfb & _ & Hin);
    [lia | split; [lia | done] | done |].
  rewrite Hl in Hlb. exists bs. split_and!; [done | by apply bytes_set_ok |].
  intros k Hk. rewrite bytes_set_in by done. pose proof (proj1 (sig_valid_spec k) Hk).
  rewrite Hin by lia. by rewrite set_bytes_in.
Qed.

Lemma sig_empty_ok : sigset_ok sig_empty.
Proof. split; [done | by repeat constructor]. Qed.

Lemma sig_empty_in k : sig_in sig_empty k = false.
Proof.
  destruct (sig_in_cases sig_empty k) as [| [|]]; [done | |];
    unfold sig_empty; rewrite ?sig_in_low, ?sig_in_high by done; apply Z.testbit_0_l.
Qed.

Lemma change_mask_spec how set n mask :
  how = SIG_BLOCK ∨ how = SIG_UNBLOCK ∨ how = SIG_SETMASK →
  0 ≤ n ≤ 8 → sigset_ok mask → (∀ b, set = Some b → bytes_ok n b) →
  ∃ m, change_mask how set n mask = Ret m ∧ sigset_ok m ∧
    ∀ k, sig_valid k = true → sig_in m k =
      match set with
      | Some b => if k <=? 8 * n then new_mask_bit how (sig_in mask k) (byte_in b k) else sig_in mask k
      | None => sig_in mask k
      end.
Proof.
  intros Hhow Hn Hmask Hset. unfold change_mask. destruct set as [b |]; [| by exists mask].
  specialize (Hset b eq_refl). destruct (copied_set mask b n Hn Hmask Hset) as (bs & Hc & Hok & Hin).
  destruct (copied_set sig_empty b n Hn sig_empty_ok Hset) as (es & Hce & Heok & Hein).
  destruct Hhow as [-> | [-> | ->]]; cbn [Z.eqb SIG_SETMASK SIG_BLOCK SIG_UNBLOCK Pos.eqb].
  - rewrite Hce. cbn [mbind outcome_bind]. eexists; split_and!; [done | |].
    + apply sig_zip_ok; [| done..]. intros. by apply is_u_lor.
    + intros k Hk. rewrite (sig_zip_in _ orb), Hk by (done || intros; by rewrite Z.lor_spec).
      rewrite Hein, sig_empty_in by done. cbn. destruct (k <=? _); [done | by rewrite orb_false_r].
  - rewrite Hce. cbn [mbind outcome_bind]. eexists; split_and!; [done | |].
    + apply sig_zip_ok; [| done..]. intros. apply is_u_land; [done | done | by apply wrap_range].
    + intros k Hk. rewrite (sig_zip_in _ (fun x y => x && negb y)), Hk; [| | done..].
      2: { intros x y i Hi. rewrite Z.land_spec, wrap_spec, Z.lnot_spec by lia.
           by replace (i <? 32) with true by (symmetry; apply Z.ltb_lt; lia). }
      rewrite Hein, sig_empty_in by done. cbn. destruct (k <=? _); [done | by rewrite andb_true_r].
  - rewrite Hc. cbn. by exists (bytes_set bs).
Qed.

(** The bytes that sigprocmask leaves at [oldset]. *)
Definition old_bytes (n : Z) (mask : sigset_t) (before after : option (list Z)) : Prop :=
  match before, after with
  | None, None => True
  | Some o, Some o' =>
      length o' = length o ∧ drop (Z.to_nat n) o' = drop (Z.to_nat n) o ∧
      ∀ k, 1 ≤ k ≤ 8 * n → byte_in o' k = sig_in mask k
  | _, _ => False
  end.

(** sigprocmask adds, removes or sets exactly the signals that the given
    bytes cover and leaves the others of the mask alone, returns the old mask
    in the bytes at the old set and touches none behind them; with a size above
    that of the set or an unknown request it returns -EINVAL and changes
    nothing. *)
Theorem sigprocmask_correct (how n : Z) (set oldset : option (list Z)) (st : signals) :
  signals_ok st → 0 ≤ n →
  (∀ b, set = Some b → bytes_ok n b) → (∀ b, oldset = Some b → bytes_ok n b) →
  if decide (n ≤ 8 ∧ (how = SIG_BLOCK ∨ how = SIG_UNBLOCK ∨ how = SIG_SETMASK)) then
    ∃ m old, sigprocmask how set oldset n st =
        Ret (0, old, Signals m (sigpending st) (sigactions st) (killed st)) ∧
      sigset_ok m ∧ old_bytes n (sigmask st) oldset old ∧
      ∀ k, sig_valid k = true → sig_in m k =
        match set with
        | Some b => if k <=? 8 * n then new_mask_bit how (sig_in (sigmask st) k) (byte_in b k)
                    else sig_in (sigmask st) k
        | None => sig_in (sigmask st) k
        end
  else sigprocmask how set oldset n st = Ret (- EINVAL, oldset, st).
Proof.
  intros [Hm Hp] Hn Hset Hold. unfold sigprocmask.
  replace (n <? 0) with false by (symmetry; apply Z.ltb_ge; lia). cbn [orb].
  case_decide as Hd.
  2: { destruct (Z.ltb_spec 8 n); [done |].
       by destruct (Z.eqb_spec how SIG_BLOCK), (Z.eqb_spec how SIG_UNBLOCK), (Z.eqb_spec how SIG_SETMASK);
         try (destruct Hd; split; [lia | by auto]). }
  destruct Hd as [Hn8 Hhow]. replace (8 <? n) with false by (symmetry; apply Z.ltb_ge; lia).
  assert (negb (how =? SIG_BLOCK) && negb (how =? SIG_UNBLOCK) && negb (how =? SIG_SETMASK) = false) as ->.
  { by destruct Hhow as [-> | [-> | ->]]. }
  destruct (change_mask_spec how set n (sigmask st)) as (m & -> & Hmok & Hin); [done | lia | done | done |].
  destruct (set_bytes_ok (sigmask st) Hm) as [Hl Hf].
  destruct oldset as [o |]; [| cbn [mbind outcome_bind]; by exists m, None].
  destruct (copied_set sig_empty (set_bytes (sigmask st)) n) as (t & Ht & _ & _);
    [lia | apply sig_empty_ok | split; [lia | done] |].
  destruct (copy_bytes_spec (set_bytes sig_empty) (set_bytes (sigmask st)) n) as (t' & Ht' & Htl & Htf & _ & Hti);
    [lia | split; [vm_compute length; lia | by repeat constructor] | split; [lia | done] |].
  rewrite Ht'. cbn [mbind outcome_bind]. change (length (set_bytes sig_empty)) with 8%nat in Htl.
  destruct (copy_bytes_spec o t' n) as (o' & -> & Hol & _ & Hod & Hoi);
    [lia | by apply Hold | split; [lia | done] |].
  cbn. exists m, (Some o'). split_and!; [done.. | | done]. intros k Hk.
  rewrite Hoi, Hti by lia. replace (k <=? 8 * n) with true by (symmetry; apply Z.leb_le; lia).
  apply set_bytes_in; [done |]. apply sig_valid_spec. lia.
Qed.

Lemma sigprocmask_correct_witness :
  sigprocmask SIG_SETMASK (Some [1]) (Some [7; 9]) 1 (Signals [0x302; 0] [0; 0] [] false) =
  Ret (0, Some [2; 9], Signals [0x301; 0] [0; 0] [] false).
Proof.
  pose proof (sigprocmask_correct SIG_SETMASK 1 (Some [1]) (Some [7; 9])
    (Signals [0x302; 0] [0; 0] [] false)) as H.
  rewrite decide_True in H by (split; [lia | by right; right]).
  destruct H as (m & old & E & _).
  - split; (split; [done | by repeat constructor]).
  - done.
  - intros b [= <-]. split; [done | by repeat constructor].
  - intros b [= <-]. split; [done | by repeat constructor].
  - vm_compute in E. injection E as <- <-. by vm_compute.
Defined.

(** * The actions *)

Lemma lookup_sigaction_app signal recs recs' :
  lookup_sigaction signal (recs ++ recs') =
  match lookup_sigaction signal recs with
  | Some a => Some a
  | None => lookup_sigaction signal recs'
  end.
Proof.
  induction recs as [| [n a] recs IH]; [done |]. cbn. by destruct (n =? signal).
Qed.

Lemma lookup_sigaction_elem signal recs :
  is_Some (lookup_sigaction signal recs) ↔ signal ∈ recs.*1.
Proof.
  induction recs as [| [n a] recs IH]; cbn.
  { split; [by intros [] | by intros ?%not_elem_of_nil]. }
  rewrite elem_of_cons. destruct (Z.eqb_spec n signal) as [-> |].
  - split; [by left | by eexists].
  - rewrite IH. split; [by right | intros [-> |]; done].
Qed.

Lemma find_sigaction_spec signal act recs :
  match find_sigaction signal act recs with
  | Some (old, recs') =>
      lookup_sigaction signal recs = Some old ∧ recs'.*1 = recs.*1 ∧
      ∀ k, lookup_sigaction k recs' =
        if k =? signal then Some (match act with Some act => supported_flags act | None => old end)
        else lookup_sigaction k recs
  | None => lookup_sigaction signal recs = None
  end.
Proof.
  induction recs as [| [n a] recs IH]; [done |]. cbn. destruct (Z.eqb_spec n signal) as [-> | Hn].
  { split_and!; [done.. |]. intros k. cbn. rewrite (Z.eqb_sym signal k). by destruct (Z.eqb_spec k signal). }
  destruct (find_sigaction signal act recs) as [[old recs'] |]; [| done].
  destruct IH as (Hl & H1 & Hk). split_and!; [done | cbn; by rewrite H1 |].
  intros k. cbn. rewrite Hk. destruct (Z.eqb_spec n k) as [-> |]; [| done].
  by destruct (Z.eqb_spec k signal).
Qed.

(** the actions form a map from signals: sigaction returns the action
    the signal had, or a zeroed one, installs the new one with the flags that
    are supported when it asks for that, leaves the actions of all other
    signals alone and never makes a second record for a signal. *)
Theorem sigaction_correct (signal : Z) (act : option sigaction) (oact : bool) (st : signals) :
  NoDup (sigactions st).*1 →
  let '(old, st') := set_sigaction signal act oact st in
  old = (if oact then Some (default sigaction_zero (GetSigaction signal st)) else None) ∧
  NoDup (sigactions st').*1 ∧
  sigmask st' = sigmask st ∧ sigpending st' = sigpending st ∧ killed st' = killed st ∧
  ∀ k, GetSigaction k st' =
    if k =? signal then
      match act with Some a => Some (supported_flags a) | None => GetSigaction signal st end
    else GetSigaction k st.
Proof.
  intros Hnd. unfold set_sigaction, GetSigaction.
  pose proof (find_sigaction_spec signal act (sigactions st)) as Hf.
  destruct (find_sigaction signal act (sigactions st)) as [[old recs'] |].
  - destruct Hf as (Hl & H1 & Hk). rewrite Hl. cbn. rewrite H1. split_and!; [done.. |].
    intros k. rewrite Hk. destruct (k =? signal); [| done]. by destruct act.
  - rewrite Hf. cbn. destruct act as [a |].
    2: { split_and!; try done. intros k. destruct (Z.eqb_spec k signal) as [-> |]; done. }
    cbn. split_and!; try done.
    + rewrite fmap_app. apply NoDup_app. split_and!; [done | | apply NoDup_singleton].
      intros k [a' Ha]%lookup_sigaction_elem E%list_elem_of_singleton. cbn in E. congruence.
    + intros k. rewrite lookup_sigaction_app. cbn. rewrite (Z.eqb_sym signal k).
      destruct (Z.eqb_spec k signal) as [-> |]; [by rewrite Hf |]. by destruct (lookup_sigaction k _).
Qed.

Lemma sigaction_correct_witness :
  GetSigaction 2 (snd (set_sigaction 2 (Some (Sigaction 0x1000 0x407 0 [0; 0])) true
    (Signals [0; 0] [0; 0] [(15, sigaction_zero)] false))) = Some (Sigaction 0x1000 4 0 [0; 0]).
Proof.
  pose proof (sigaction_correct 2 (Some (Sigaction 0x1000 0x407 0 [0; 0])) true
    (Signals [0; 0] [0; 0] [(15, sigaction_zero)] false)) as H.
  destruct (set_sigaction _ _ _ _) as [old st']. destruct H as (_ & _ & _ & _ & _ & Hk).
  - apply NoDup_singleton.
  - cbn [snd]. by rewrite Hk.
Defined.
