(* ===== verification/ProcTables.v ===== *)
(** Tables of a process (kernel/exec/process.cpp): process numbers, the
    results of children, file descriptors, resource limits and the functions
    that abort a blocked thread.

    Each operation runs under a lock and is one step.  A std::function is the
    number of the function; the calls that are made outside of the lock are in
    the result. *)
From stdpp Require Import sorting.
From S2P Require Import Prelude Signals.

Local Open Scope Z_scope.

(** * Process numbers *)

Definition pid_max : Z := 2 ^ 31 - 1.

(** The conversion to a signed number of 32 bits. *)
Definition s32 (x : Z) : Z := wrap 32 (x + 2 ^ 31) - 2 ^ 31.

Record pid_state := PidState { pids : list Z; next_pid : Z }.

(** The loop of FindNextPid; [None]: it starts again with 1. *)
Fixpoint pid_scan (next : Z) (l : list Z) : option (Z * Z) :=
  match l with
  | [] => Some (next, s32 (next + 1))
  | p :: l =>
      if next <? p then Some (next, s32 (next + 1)) else
      if next =? p then
        let next := s32 (next + 1) in
        if (next <? 1) || (pid_max <? next) then None else pid_scan next l
      else pid_scan next l
  end.

Fixpoint FindNextPid (fuel : nat) (next : Z) (l : list Z) : outcome (Z * Z) :=
  match pid_scan next l with
  | Some r => Ret r
  | None => match fuel with O => OutOfFuel | S fuel => FindNextPid fuel 1 l end
  end.

(** The loop of AllocPid that inserts [pid]; [pids] has [numPids] entries and
    one more at its end. *)
Definition pid_insert (numPids pid : Z) (pids : list Z) : outcome (list Z) :=
  insert_before Z.ltb (Z.to_nat numPids) 0 numPids pid pids.

Definition AllocPid (st : pid_state) : outcome (Z * pid_state) :=
  '(pid, next) ← FindNextPid 1 (next_pid st) (pids st);
  let numPids := Z.of_nat (length (pids st)) in
  pids ← pid_insert numPids pid (pids st ++ [0]);
  Ret (pid, PidState pids next).

(** The process group: getpgrp, setpgid and getpgid of process [this]. *)
Definition EPERM : Z := 1.

Definition setpgid (this pgrp pid pgid : Z) : Z * Z :=
  if (pid =? 0) || (pid =? this) then
    if (pgid =? 0) || (pgid =? this) then (0, this) else (- EINVAL, pgrp)
  else (- EPERM, pgrp).

Definition getpgid (this pgrp pid : Z) : Z :=
  if (pid =? 0) || (pid =? this) then pgrp else - EPERM.

(** * Children and exit *)

Record child_result := ChildResult { cr_result : Z; cr_pid : Z }.

(** The members of class Process for exits. *)
Record exits := Exits {
  exitNotifications : list Z;
  childExitNotifications : list Z;
  childResults : list child_result;
  exitCode : Z
}.

(** ChildExitNotification: the function to call, if any. *)
Definition ChildExitNotification (cpid status : Z) (st : exits) : option (Z * child_result) * exits :=
  match childExitNotifications st with
  | [] =>
      (None, Exits (exitNotifications st) [] (childResults st ++ [ChildResult status cpid]) (exitCode st))
  | notify :: rest =>
      (Some (notify, ChildResult status cpid),
       Exits (exitNotifications st) rest (childResults st) (exitCode st))
  end.

(** WaitForAnyChild: the immediate result, if there is one. *)
Definition WaitForAnyChild (orAsync : Z) (st : exits) : option child_result * exits :=
  match childResults st with
  | [] => (None, Exits (exitNotifications st) (childExitNotifications st ++ [orAsync]) [] (exitCode st))
  | r :: rest => (Some r, Exits (exitNotifications st) (childExitNotifications st) rest (exitCode st))
  end.

Definition RegisterExitNotification (func : Z) (st : exits) : exits :=
  Exits (exitNotifications st ++ [func]) (childExitNotifications st) (childResults st) (exitCode st).

Definition SetExitCode (code : Z) (st : exits) : exits :=
  Exits (exitNotifications st) (childExitNotifications st) (childResults st) code.

(** ~Process: the calls of the exit notifications, then the parent is told. *)
Definition destroy_process (pid : Z) (st : exits) (parent : option exits)
    : list (Z * Z) * option (Z * child_result) * option exits :=
  let calls := (fun en => (en, exitCode st)) <$> exitNotifications st in
  match parent with
  | Some parent =>
      let '(notified, parent) := ChildExitNotification pid (exitCode st) parent in
      (calls, notified, Some parent)
  | None => (calls, None, None)
  end.

(** * File descriptors *)

Record FileDescriptor := FileDesc { fd_fd : Z; fd_openFlags : Z; fd_handler : Z }.

Fixpoint get_file_descriptor (fd : Z) (l : list FileDescriptor) : option FileDescriptor :=
  match l with
  | [] => None
  | desc :: l => if fd_fd desc =? fd then Some desc else get_file_descriptor fd l
  end.

Fixpoint has_file_descriptor (fd : Z) (l : list FileDescriptor) : bool :=
  match l with
  | [] => false
  | desc :: l => if fd_fd desc =? fd then true else has_file_descriptor fd l
  end.

(** The loop that looks for the lowest number. *)
Fixpoint free_fd (fuel : nat) (fd : Z) (l : list FileDescriptor) : outcome Z :=
  if has_file_descriptor fd l then
    match fuel with O => OutOfFuel | S fuel => free_fd fuel (fd + 1) l end
  else Ret fd.

Definition create_file_descriptor (openFlags handler : Z) (l : list FileDescriptor)
    : outcome (FileDescriptor * list FileDescriptor) :=
  fd ← free_fd (length l) 0 l;
  let desc := FileDesc fd openFlags handler in
  Ret (desc, l ++ [desc]).

(** The overload that takes the number. *)
Definition create_file_descriptor_at (openFlags handler fd : Z) (l : list FileDescriptor)
    : option FileDescriptor * list FileDescriptor :=
  if has_file_descriptor fd l then (None, l) else
  let desc := FileDesc fd openFlags handler in
  (Some desc, l ++ [desc]).

Fixpoint close_file_descriptor (fd : Z) (l : list FileDescriptor) : bool * list FileDescriptor :=
  match l with
  | [] => (false, [])
  | desc :: l =>
      if fd_fd desc =? fd then (true, l) else
      let '(r, l') := close_file_descriptor fd l in (r, desc :: l')
  end.

(** * Resource limits *)

Record rlimit := Rlimit { rlim_cur : Z; rlim_max : Z }.

Definition rlim_INFINITY : Z := u64 (-1).

(** struct RLimits: a limit for each of its members. *)
Inductive rlimit_field :=
| AddressSpace | CoreSize | Cpu | Data | FileSize | Locks | Memlocks | Msgqueue
| Nice | Nofile | Rss | Rtprio | Rttime | Sigpending | Stack | Nproc.

#[export] Instance rlimit_field_eq : EqDecision rlimit_field.
Proof. solve_decision. Defined.

Definition RLimits : Type := rlimit_field → rlimit.

Definition default_rlimits : RLimits := fun f =>
  let v := match f with
    | AddressSpace => 64 * 1024 * 1024 * 1024
    | CoreSize => 1 * 1024 * 1024 * 1024
    | Cpu => rlim_INFINITY
    | Data => 64 * 1024 * 1024 * 1024
    | FileSize => rlim_INFINITY
    | Locks => 65536
    | Memlocks => 64 * 1024 * 1024 * 1024
    | Msgqueue => 32768
    | Nice => 40
    | Nofile => 32768
    | Rss => 64 * 1024 * 1024 * 1024
    | Rtprio => 99
    | Rttime => 60 * 1000000
    | Sigpending => 512
    | Stack => 16 * 1024 * 1024
    | Nproc => 32768
    end in
  Rlimit v v.

(** The numbers of include/sys/resource.h and the member that the switch of
    setrlimit and of getrlimit takes for each. *)
Definition resource_field (resource : Z) : option rlimit_field :=
  match resource with
  | 0 => Some Cpu          (* RLIMIT_CPU *)
  | 1 => Some FileSize     (* RLIMIT_FSIZE *)
  | 2 => Some Data         (* RLIMIT_DATA *)
  | 3 => Some Stack        (* RLIMIT_STACK *)
  | 4 => Some CoreSize     (* RLIMIT_CORE *)
  | 5 => Some Rss          (* RLIMIT_RSS *)
  | 6 => Some Nproc        (* RLIMIT_NPROC *)
  | 7 => Some Nofile       (* RLIMIT_NOFILE *)
  | 8 => Some Memlocks     (* RLIMIT_MEMLOCK *)
  | 9 => Some AddressSpace (* RLIMIT_AS *)
  | 10 => Some Locks       (* RLIMIT_LOCKS *)
  | 11 => Some Sigpending  (* RLIMIT_SIGPENDING *)
  | 12 => Some Msgqueue    (* RLIMIT_MSGQUEUE *)
  | 13 => Some Nice        (* RLIMIT_NICE *)
  | 14 => Some Rtprio      (* RLIMIT_RTPRIO *)
  | 15 => Some Rttime      (* RLIMIT_RTTIME *)
  | _ => None
  end.

(** setrlimit(rlimit &, const rlimit &) *)
Definition setrlimit_one (lim val : rlimit) : Z * rlimit :=
  if (rlim_max lim <? rlim_max val) || (rlim_max lim <? rlim_cur val) then (- EPERM, lim) else
  if (rlim_max val =? rlim_INFINITY) && negb (rlim_max lim =? rlim_INFINITY) then (- EPERM, lim) else
  if (rlim_cur val =? rlim_INFINITY) && negb (rlim_max lim =? rlim_INFINITY) then (- EPERM, lim) else
  (0, val).

Definition setrlimit (resource : Z) (val : rlimit) (rlimits : RLimits) : Z * RLimits :=
  match resource_field resource with
  | Some f =>
      let '(r, lim) := setrlimit_one (rlimits f) val in
      (r, fun g => if decide (g = f) then lim else rlimits g)
  | None => (- EINVAL, rlimits)
  end.

Definition getrlimit (resource : Z) (rlimits : RLimits) : Z + rlimit :=
  match resource_field resource with
  | Some f => inr (rlimits f)
  | None => inl (- EINVAL)
  end.

(** * Functions that abort *)

Record aborters := Aborters { aborterFunc : list (Z * Z); aborterFuncHandle : Z }.

(** Process::AborterFunc; the entries are handles and functions. *)
Definition AborterFunc (func : Z) (st : aborters) : Z * aborters :=
  let handle := s32 (aborterFuncHandle st + 1) in
  (handle, Aborters (aborterFunc st ++ [(handle, func)]) handle).

Fixpoint erase_aborter (handle : Z) (l : list (Z * Z)) : list (Z * Z) :=
  match l with
  | [] => []
  | (h, f) :: l => if h =? handle then l else (h, f) :: erase_aborter handle l
  end.

Definition ClearAborterFunc (handle : Z) (st : aborters) : aborters :=
  Aborters (erase_aborter handle (aborterFunc st)) (aborterFuncHandle st).

(** CallAbort and CallAbortAll: the functions that are called. *)
Definition CallAbort (st : aborters) : list Z := take 1 (aborterFunc st).*2.
Definition CallAbortAll (st : aborters) : list Z := (aborterFunc st).*2.

(** A ProcThread: its function and the handle of that in the process. *)
Record thread_aborter := ThreadAborter { ta_func : option Z; ta_handle : Z }.

Definition thread_AborterFunc (func : Z) (t : thread_aborter) (st : aborters)
    : thread_aborter * aborters :=
  let '(handle, st) := AborterFunc func st in
  (ThreadAborter (Some func) handle, ClearAborterFunc (ta_handle t) st).

Definition thread_ClearAborterFunc (t : thread_aborter) (st : aborters) : thread_aborter * aborters :=
  (ThreadAborter None (ta_handle t), ClearAborterFunc (ta_handle t) st).

(** * Process numbers are fresh *)

Definition pid_ok (st : pid_state) : Prop :=
  StronglySorted Z.lt (pids st) ∧ Forall (fun p => 1 ≤ p ≤ pid_max) (pids st) ∧
  1 ≤ next_pid st ≤ pid_max.

Lemma s32_id x : - 2 ^ 31 ≤ x < 2 ^ 31 → s32 x = x.
Proof. intros Hx. unfold s32. rewrite wrap_id; [lia | unfold is_u; lia]. Qed.

Lemma s32_max : s32 (pid_max + 1) = - 2 ^ 31.
Proof. by vm_compute. Qed.

(** The loop from [next]: a number that is not in use and not below [next],
    or every number from [next] to the highest is in use. *)
Lemma pid_scan_spec next l :
  StronglySorted Z.lt l → Forall (fun p => 1 ≤ p ≤ pid_max) l → 1 ≤ next ≤ pid_max →
  match pid_scan next l with
  | Some (pid, next') => next ≤ pid ≤ pid_max ∧ pid ∉ l ∧ next' = s32 (pid + 1)
  | None => (Z.to_nat (pid_max - next + 1) ≤ length l)%nat
  end.
Proof.
  revert next. induction l as [| p l IH]; intros next Hs Hf Hn; cbn [pid_scan length].
  { split_and!; [lia | lia | apply not_elem_of_nil | done]. }
  apply StronglySorted_inv in Hs as [Hs Hp]. apply Forall_cons in Hf as [Hpm Hf].
  destruct (Z.ltb_spec next p).
  { split_and!; [lia | lia | | done]. intros [-> | Hi]%elem_of_cons; [lia |].
    rewrite Forall_forall in Hp. specialize (Hp _ Hi). lia. }
  destruct (Z.eqb_spec next p) as [<- | Hne].
  - destruct (decide (next = pid_max)) as [-> | Hmax].
    { rewrite s32_max. change ((- 2 ^ 31 <? 1) || (pid_max <? - 2 ^ 31)) with true. cbv iota. lia. }
    rewrite s32_id by (unfold pid_max in *; lia).
    replace ((next + 1 <? 1) || (pid_max <? next + 1)) with false
      by (symmetry; apply orb_false_iff; split; apply Z.ltb_ge; unfold pid_max in *; lia).
    specialize (IH (next + 1) Hs Hf). destruct (pid_scan (next + 1) l) as [[pid next'] |].
    + destruct IH as (? & ? & ?); [lia |]. split_and!; [lia | lia | | done].
      intros [-> | ?]%elem_of_cons; [lia | done].
    + assert (Z.to_nat (pid_max - (next + 1) + 1) ≤ length l)%nat by (apply IH; lia). lia.
  - specialize (IH next Hs Hf Hn). destruct (pid_scan next l) as [[pid next'] |]; [| lia].
    destruct IH as (? & ? & ?). split_and!; [lia | lia | | done].
    intros [-> | ?]%elem_of_cons; [lia | done].
Qed.

Lemma FindNextPid_spec st :
  pid_ok st → Z.of_nat (length (pids st)) < pid_max →
  ∃ pid, FindNextPid 1 (next_pid st) (pids st) = Ret (pid, s32 (pid + 1)) ∧
    1 ≤ pid ≤ pid_max ∧ pid ∉ pids st.
Proof.
  intros (Hs & Hf & Hn) Hlen. cbn [FindNextPid].
  pose proof (pid_scan_spec (next_pid st) (pids st) Hs Hf Hn) as H1.
  destruct (pid_scan (next_pid st) (pids st)) as [[pid next'] |].
  { destruct H1 as (? & ? & ->). exists pid. split_and!; [done | lia | lia | done]. }
  pose proof (pid_scan_spec 1 (pids st) Hs Hf) as H2.
  destruct (pid_scan 1 (pids st)) as [[pid next'] |].
  - destruct H2 as (? & ? & ->); [unfold pid_max; lia |]. exists pid. split_and!; [done | lia | lia | done].
  - assert (Z.to_nat (pid_max - 1 + 1) ≤ length (pids st))%nat by (apply H2; unfold pid_max; lia). lia.
Qed.

Lemma pid_insert_spec b pid :
  pid ∉ b → StronglySorted Z.lt b →
  ∃ c d, b = c ++ d ∧ Forall (fun p => p < pid) c ∧ Forall (fun p => pid < p) d ∧
    pid_insert (Z.of_nat (length b)) pid (b ++ [0]) = Ret (c ++ pid :: d).
Proof.
  intros Hb Hs. unfold pid_insert. rewrite Nat2Z.id.
  destruct (insert_before_spec Z.ltb [] b pid 0 (length b)) as (c & d & -> & Hc & Hd & He); [done |].
  exists c, d. split_and!; [done | | | exact He].
  - rewrite Forall_forall in Hc |- *. intros p Hp. specialize (Hc p Hp). bsimp.
    assert (p ≠ pid) by (intros ->; apply Hb, elem_of_app; by left). lia.
  - destruct d as [| y d]; [constructor |]. bsimp. apply StronglySorted_app_1_r in Hs.
    apply StronglySorted_inv in Hs as [_ Hy]. constructor; [done |].
    eapply Forall_impl; [exact Hy |]. cbn. lia.
Qed.

Lemma sorted_app a b :
  StronglySorted Z.lt (a ++ b) ↔
  StronglySorted Z.lt a ∧ StronglySorted Z.lt b ∧ Forall (fun x => Forall (fun y => x < y) b) a.
Proof.
  induction a as [| x a IH]; cbn.
  { split; [intros; split_and!; [constructor | done | constructor] | by intros (_ & ? & _)]. }
  split.
  - intros [Hs Hx]%StronglySorted_inv. apply IH in Hs as (? & ? & ?). apply Forall_app in Hx as [? ?].
    split_and!; [by constructor | done | by constructor].
  - intros ([? ?]%StronglySorted_inv & ? & [? ?]%Forall_cons). constructor; [by apply IH |].
    by apply Forall_app.
Qed.

Lemma AllocPid_spec st :
  pid_ok st → Z.of_nat (length (pids st)) < pid_max →
  ∃ pid l, AllocPid st = Ret (pid, PidState l (s32 (pid + 1))) ∧
    1 ≤ pid ≤ pid_max ∧ pid ∉ pids st ∧ l ≡ₚ pid :: pids st ∧ StronglySorted Z.lt l ∧
    FindNextPid 1 (next_pid st) (pids st) = Ret (pid, s32 (pid + 1)).
Proof.
  intros Hok Hlen. destruct (FindNextPid_spec st Hok Hlen) as (pid & Hf & Hp & Hn).
  destruct Hok as (Hs & Hf' & _). unfold AllocPid. rewrite Hf. cbn [mbind outcome_bind].
  destruct (pid_insert_spec (pids st) pid) as (c & d & E & Hc & Hd & He); [done | done |]. rewrite He. cbn [mbind outcome_bind]. rewrite E in Hs.
  exists pid, (c ++ pid :: d). split_and!; [done | lia | lia | done | | | done].
  - by rewrite E, <- Permutation_middle.
  - apply sorted_app in Hs as (Hsc & Hsd & Hcd). apply sorted_app. split_and!; [done | by constructor |].
    rewrite Forall_forall in Hc, Hcd |- *. intros x Hx. constructor; [by apply Hc | by apply Hcd].
Qed.

(** process numbers are fresh: AllocPid terminates with a number between
    1 and the highest that no process has, and enters it into the table, which
    stays in ascending order, holes of the table included.  Behind the highest
    number the counter has overflowed: the range is tested only where a number
    in use is skipped, and the next number handed out is negative. *)
Theorem pid_alloc_correct (st : pid_state) :
  pid_ok st → Z.of_nat (length (pids st)) < pid_max →
  ∃ pid st', AllocPid st = Ret (pid, st') ∧
    1 ≤ pid ≤ pid_max ∧ pid ∉ pids st ∧ pids st' ≡ₚ pid :: pids st ∧
    (pid < pid_max → pid_ok st' ∧ next_pid st' = pid + 1) ∧
    (pid = pid_max → ∃ st'', AllocPid st' = Ret (- 2 ^ 31, st'')).
Proof.
  intros Hok Hlen. destruct (AllocPid_spec st Hok Hlen) as (pid & l & Ha & Hp & Hn & Hl & Hs & _).
  destruct Hok as (_ & Hf & _).
  assert (Forall (fun p => 1 ≤ p ≤ pid_max) l) as Hfl by (rewrite Hl; by constructor).
  exists pid, (PidState l (s32 (pid + 1))). split_and!; [done | lia | lia | done | done | |].
  - intros Hlt. rewrite s32_id by (unfold pid_max in *; lia).
    split; [| done]. split_and!; cbn; [done | done | lia | lia].
  - intros ->. rewrite s32_max. unfold AllocPid. cbn [pids next_pid].
    assert (∃ p l', l = p :: l') as (p & l' & ->).
    { destruct l as [| p l']; [| by eauto]. by apply Permutation_nil_cons in Hl. }
    assert (FindNextPid 1 (- 2 ^ 31) (p :: l') = Ret (- 2 ^ 31, s32 (- 2 ^ 31 + 1))) as ->.
    { apply Forall_cons in Hfl as [Hp1 _]. cbn [FindNextPid pid_scan].
      by rewrite (proj2 (Z.ltb_lt _ _)) by lia. }
    cbn [mbind outcome_bind].
    destruct (pid_insert_spec (p :: l') (- 2 ^ 31)) as (c & d & E & _ & _ & He); [| done |].
    { intros Hi. rewrite Forall_forall in Hfl. specialize (Hfl _ Hi). lia. }
    rewrite He. by eexists.
Qed.

Lemma pid_alloc_correct_witness :
  AllocPid (PidState [1; 2; 4] 1) = Ret (3, PidState [1; 2; 3; 4] 4).
Proof.
  destruct (pid_alloc_correct (PidState [1; 2; 4] 1)) as (pid & st' & E & _).
  - split_and!; cbn; [by repeat constructor | by repeat constructor | lia | unfold pid_max; lia].
  - done.
  - vm_compute in E. injection E as <- <-. by vm_compute.
Defined.

(** * Every child is waited for once *)

Inductive exit_event := ChildExits (pid status : Z) | Waits (orAsync : Z).

(** A wait paired with the result it gets, at once or later. *)
Definition exit_step (e : exit_event) (st : exits) : list (Z * child_result) * exits :=
  match e with
  | ChildExits pid status =>
      let '(call, st) := ChildExitNotification pid status st in
      (match call with Some c => [c] | None => [] end, st)
  | Waits orAsync =>
      let '(now, st) := WaitForAnyChild orAsync st in
      (match now with Some r => [(orAsync, r)] | None => [] end, st)
  end.

Fixpoint exit_run (es : list exit_event) (st : exits) : list (Z * child_result) * exits :=
  match es with
  | [] => ([], st)
  | e :: es =>
      let '(out, st) := exit_step e st in
      let '(outs, st) := exit_run es st in
      (out ++ outs, st)
  end.

Definition exits_of (es : list exit_event) : list child_result :=
  omap (fun e => match e with ChildExits pid status => Some (ChildResult status pid) | _ => None end) es.
Definition waits_of (es : list exit_event) : list Z :=
  omap (fun e => match e with Waits w => Some w | _ => None end) es.

(** What is left over of the waits and of the results. *)
Lemma exit_run_spec es st :
  childExitNotifications st = [] ∨ childResults st = [] →
  let ws := childExitNotifications st ++ waits_of es in
  let rs := childResults st ++ exits_of es in
  let '(outs, st') := exit_run es st in
  outs = zip ws rs ∧ childExitNotifications st' = drop (length rs) ws ∧
  childResults st' = drop (length ws) rs ∧
  exitNotifications st' = exitNotifications st ∧ exitCode st' = exitCode st.
Proof.
  revert st. induction es as [| e es IH]; intros [en ws rs code] Hst; cbn in Hst.
  { cbn. rewrite !app_nil_r. destruct Hst as [-> | ->]; cbn; rewrite ?zip_with_nil_r, ?drop_nil; done. }
  destruct e as [pid status | w]; cbn [exit_run exit_step ChildExitNotification WaitForAnyChild
    childExitNotifications childResults exitNotifications exitCode waits_of exits_of omap list_omap].
  - destruct ws as [| w ws]; cbn.
    + specialize (IH (Exits en [] (rs ++ [ChildResult status pid]) code)). cbn in IH.
      destruct (exit_run es _) as [outs st']. rewrite <- (assoc_L (++)) in IH. apply IH. by left.
    + destruct Hst as [| ->]; [done |]. specialize (IH (Exits en ws [] code)). cbn in IH |- *.
      destruct (exit_run es _) as [outs st']. destruct IH as (-> & -> & -> & -> & ->); [by right |]. done.
  - destruct rs as [| r rs]; cbn.
    + specialize (IH (Exits en (ws ++ [w]) [] code)). cbn in IH.
      destruct (exit_run es _) as [outs st']. rewrite <- (assoc_L (++)) in IH. apply IH. by right.
    + destruct Hst as [-> |]; [| done]. specialize (IH (Exits en [] rs code)). cbn in IH |- *.
      destruct (exit_run es _) as [outs st']. destruct IH as (-> & -> & -> & -> & ->); [by left |]. done.
Qed.

(** every exit of a child answers exactly one wait: in any order of
    exits and waits the n-th exit goes to the n-th wait, whichever comes first,
    and what is left is the waits or the results beyond that. *)
Theorem child_waits_correct (es : list exit_event) (en : list Z) (code : Z) :
  let '(outs, st') := exit_run es (Exits en [] [] code) in
  outs = zip (waits_of es) (exits_of es) ∧
  childExitNotifications st' = drop (length (exits_of es)) (waits_of es) ∧
  childResults st' = drop (length (waits_of es)) (exits_of es).
Proof.
  pose proof (exit_run_spec es (Exits en [] [] code) (or_introl eq_refl)) as H. cbn in H.
  destruct (exit_run es _) as [outs st']. by destruct H as (-> & -> & -> & _).
Qed.

(** * File descriptors *)

Lemma get_file_descriptor_elem fd l d :
  get_file_descriptor fd l = Some d → d ∈ l ∧ fd_fd d = fd.
Proof.
  induction l as [| x l IH]; [done |]. cbn. destruct (Z.eqb_spec (fd_fd x) fd).
  - intros [= <-]. split; [left | done].
  - intros [? ?]%IH. split; [by right | done].
Qed.

Lemma has_file_descriptor_elem fd l : has_file_descriptor fd l = true ↔ fd ∈ fd_fd <$> l.
Proof.
  induction l as [| x l IH]; cbn.
  { split; [done | by intros ?%not_elem_of_nil]. }
  rewrite elem_of_cons. destruct (Z.eqb_spec (fd_fd x) fd) as [<- | Hne]; [by split; [left |] |].
  rewrite IH. split; [by right | by intros [E |]; [destruct Hne |]].
Qed.

Lemma has_get fd l : has_file_descriptor fd l = bool_decide (is_Some (get_file_descriptor fd l)).
Proof.
  induction l as [| x l IH]; [done |]. cbn. by destruct (fd_fd x =? fd).
Qed.

Lemma get_file_descriptor_app fd l l' :
  get_file_descriptor fd (l ++ l') =
  match get_file_descriptor fd l with Some d => Some d | None => get_file_descriptor fd l' end.
Proof. induction l as [| x l IH]; [done |]. cbn. by destruct (fd_fd x =? fd). Qed.

(** The numbers below [fd] that are in use are at most as many as there are
    descriptors, so the loop ends. *)
Lemma free_fd_spec fuel fd l :
  0 ≤ fd → (∀ k, 0 ≤ k < fd → k ∈ fd_fd <$> l) → Z.of_nat (length l) ≤ fd + Z.of_nat fuel →
  ∃ r, free_fd fuel fd l = Ret r ∧ 0 ≤ r ∧ r ∉ fd_fd <$> l ∧ ∀ k, 0 ≤ k < r → k ∈ fd_fd <$> l.
Proof.
  revert fd. induction fuel as [| fuel IH]; intros fd Hfd Hall Hlen; cbn [free_fd];
    destruct (has_file_descriptor fd l) eqn:Hh.
  2, 4: exists fd; split_and!; [done | done | | done]; intros Hi%has_file_descriptor_elem; congruence.
  - exfalso. apply has_file_descriptor_elem in Hh.
    assert (seqZ 0 (fd + 1) ⊆+ fd_fd <$> l) as Hsub%submseteq_length.
    { apply NoDup_submseteq; [apply NoDup_seqZ |]. intros k Hk%elem_of_seqZ.
      destruct (decide (k = fd)) as [-> |]; [done |]. apply Hall. lia. }
    rewrite length_seqZ, length_fmap in Hsub. lia.
  - apply has_file_descriptor_elem in Hh. apply IH; [lia | | lia].
    intros k Hk. destruct (decide (k = fd)) as [-> |]; [done |]. apply Hall. lia.
Qed.

Lemma close_file_descriptor_spec fd l :
  NoDup (fd_fd <$> l) →
  let '(r, l') := close_file_descriptor fd l in
  r = has_file_descriptor fd l ∧ l' = filter (fun d => fd_fd d ≠ fd) l.
Proof.
  induction l as [| x l IH]; [done |]. cbn [fmap list_fmap]. intros [Hx Hnd]%NoDup_cons.
  cbn [close_file_descriptor has_file_descriptor].
  destruct (Z.eqb_spec (fd_fd x) fd) as [<- | Hne].
  - split; [done |]. rewrite filter_cons_False by naive_solver.
    symmetry. clear IH Hnd. induction l as [| y l IH]; [done |]. cbn in Hx.
    apply not_elem_of_cons in Hx as [? ?]. rewrite filter_cons_True by naive_solver.
    f_equal. by apply IH.
  - specialize (IH Hnd). destruct (close_file_descriptor fd l) as [r l']. destruct IH as [-> ->].
    by rewrite filter_cons_True.
Qed.

Lemma fd_add_NoDup l d :
  NoDup (fd_fd <$> l) → fd_fd d ∉ fd_fd <$> l → NoDup (fd_fd <$> (l ++ [d])).
Proof.
  intros Hnd Hn. rewrite fmap_app. apply NoDup_app. split_and!; [done | | apply NoDup_singleton].
  by intros x Hx ->%list_elem_of_singleton.
Qed.

Lemma fd_add_get l d k :
  has_file_descriptor (fd_fd d) l = false →
  get_file_descriptor k (l ++ [d]) = if k =? fd_fd d then Some d else get_file_descriptor k l.
Proof.
  intros Hn. rewrite get_file_descriptor_app. cbn. rewrite (Z.eqb_sym (fd_fd d) k).
  destruct (Z.eqb_spec k (fd_fd d)) as [-> |]; [| by destruct (get_file_descriptor k l)].
  rewrite has_get in Hn. apply bool_decide_eq_false in Hn.
  destruct (get_file_descriptor (fd_fd d) l); [by destruct Hn | done].
Qed.

Lemma fd_filter_NoDup fd l :
  NoDup (fd_fd <$> l) → NoDup (fd_fd <$> filter (fun d => fd_fd d ≠ fd) l).
Proof.
  intros Hnd. eapply sublist_NoDup; [exact Hnd |]. apply fmap_sublist. apply sublist_filter.
Qed.

Lemma fd_filter_get fd l k :
  get_file_descriptor k (filter (fun d => fd_fd d ≠ fd) l) =
  if k =? fd then None else get_file_descriptor k l.
Proof.
  induction l as [| x l IH]; [by destruct (k =? fd) |]. destruct (decide (fd_fd x = fd)) as [E | Hne].
  - rewrite filter_cons_False by naive_solver. rewrite IH. cbn.
    destruct (Z.eqb_spec k fd), (Z.eqb_spec (fd_fd x) k); try done. congruence.
  - rewrite filter_cons_True by done. cbn. rewrite IH.
    destruct (Z.eqb_spec k fd), (Z.eqb_spec (fd_fd x) k); try done. congruence.
Qed.

(** the descriptors of a process form a map from numbers.  Opening takes
    the lowest number that is free, opening at a number succeeds exactly if it
    is free, closing removes exactly the descriptor of that number, and no two
    descriptors ever have the same. *)
Theorem file_descriptors_correct (l : list FileDescriptor) (flags h fd : Z) :
  NoDup (fd_fd <$> l) → Forall (fun d => 0 ≤ fd_fd d) l → 0 ≤ fd →
  (∃ d, create_file_descriptor flags h l = Ret (d, l ++ [d]) ∧ 0 ≤ fd_fd d ∧
     NoDup (fd_fd <$> (l ++ [d])) ∧
     (∀ k, 0 ≤ k < fd_fd d → is_Some (get_file_descriptor k l)) ∧
     ∀ k, get_file_descriptor k (l ++ [d]) = if k =? fd_fd d then Some d else get_file_descriptor k l) ∧
  (let '(d, l') := create_file_descriptor_at flags h fd l in
   NoDup (fd_fd <$> l') ∧
   (d = None ↔ is_Some (get_file_descriptor fd l)) ∧
   ∀ k, get_file_descriptor k l' =
     if (k =? fd) && bool_decide (d ≠ None) then Some (FileDesc fd flags h) else get_file_descriptor k l) ∧
  (let '(r, l') := close_file_descriptor fd l in
   NoDup (fd_fd <$> l') ∧ r = bool_decide (is_Some (get_file_descriptor fd l)) ∧
   ∀ k, get_file_descriptor k l' = if k =? fd then None else get_file_descriptor k l).
Proof.
  intros Hnd Hpos Hfd. split_and!.
  - destruct (free_fd_spec (length l) 0 l) as (r & Hr & Hr0 & Hrn & Hlow); [lia | lia | lia |].
    unfold create_file_descriptor. rewrite Hr. cbn [mbind outcome_bind].
    eexists; split_and!; [done | done | by apply fd_add_NoDup | |].
    + intros k Hk%Hlow%has_file_descriptor_elem. rewrite has_get in Hk. by apply bool_decide_eq_true in Hk.
    + intros k. apply fd_add_get. cbn. rewrite <- has_file_descriptor_elem in Hrn.
      by destruct (has_file_descriptor r l).
  - unfold create_file_descriptor_at. destruct (has_file_descriptor fd l) eqn:Hh.
    + rewrite has_get in Hh. apply bool_decide_eq_true in Hh.
      split_and!; [done | done |]. intros k. by rewrite andb_false_r.
    + split_and!.
      * apply fd_add_NoDup; [done |]. intros Hi%has_file_descriptor_elem. cbn in Hi. congruence.
      * rewrite has_get in Hh. apply bool_decide_eq_false in Hh. by split.
      * intros k. rewrite fd_add_get by done. by rewrite andb_true_r.
  - pose proof (close_file_descriptor_spec fd l Hnd) as Hc.
    destruct (close_file_descriptor fd l) as [r l']. destruct Hc as [-> ->]. split_and!.
    + by apply fd_filter_NoDup.
    + apply has_get.
    + intros k. apply fd_filter_get.
Qed.

Lemma file_descriptors_correct_witness :
  create_file_descriptor 2 7 [FileDesc 0 0 1; FileDesc 2 0 2; FileDesc 1 0 3; FileDesc 4 0 4] =
  Ret (FileDesc 3 2 7,
       [FileDesc 0 0 1; FileDesc 2 0 2; FileDesc 1 0 3; FileDesc 4 0 4; FileDesc 3 2 7]).
Proof.
  destruct (file_descriptors_correct
    [FileDesc 0 0 1; FileDesc 2 0 2; FileDesc 1 0 3; FileDesc 4 0 4] 2 7 0) as [(d & E & _) _].
  - by apply (bool_decide_unpack _).
  - by repeat constructor.
  - done.
  - vm_compute in E. injection E as <-. by vm_compute.
Defined.

(** * Resource limits *)

Definition rlimit_ok (l : rlimit) : Prop := is_u 64 (rlim_cur l) ∧ is_u 64 (rlim_max l).

Lemma setrlimit_one_spec lim val :
  rlimit_ok lim → rlimit_ok val →
  setrlimit_one lim val =
    if decide (rlim_max val ≤ rlim_max lim ∧ rlim_cur val ≤ rlim_max lim) then (0, val)
    else (- EPERM, lim).
Proof.
  intros [_ Hl] [Hc Hm]. unfold setrlimit_one, rlim_INFINITY.
  change (u64 (-1)) with (2 ^ 64 - 1). unfold is_u in *.
  destruct (Z.ltb_spec (rlim_max lim) (rlim_max val)), (Z.ltb_spec (rlim_max lim) (rlim_cur val));
    cbn [orb]; case_decide; try lia; try done.
  destruct (Z.eqb_spec (rlim_max val) (2 ^ 64 - 1)), (Z.eqb_spec (rlim_max lim) (2 ^ 64 - 1)),
    (Z.eqb_spec (rlim_cur val) (2 ^ 64 - 1)); cbn [andb negb]; done || lia.
Qed.

Definition setrlimits (calls : list (Z * rlimit)) (r : RLimits) : RLimits :=
  foldl (fun r c => snd (setrlimit (fst c) (snd c) r)) r calls.

Lemma setrlimit_spec resource val r :
  (∀ f, rlimit_ok (r f)) → rlimit_ok val →
  let '(e, r') := setrlimit resource val r in
  (∀ f, rlimit_ok (r' f)) ∧
  match resource_field resource with
  | None => e = - EINVAL ∧ r' = r
  | Some f =>
      (∀ g, g ≠ f → r' g = r g) ∧
      if decide (rlim_max val ≤ rlim_max (r f) ∧ rlim_cur val ≤ rlim_max (r f))
      then e = 0 ∧ r' f = val else e = - EPERM ∧ r' f = r f
  end.
Proof.
  intros Hr Hv. unfold setrlimit. destruct (resource_field resource) as [f |]; [| done].
  rewrite setrlimit_one_spec by done. case_decide; (split; [intros g; by case_decide |]);
    (split; [intros g Hg; by rewrite decide_False |]); by rewrite decide_True.
Qed.

(** setrlimit accepts a limit exactly if neither of its values is above
    the hard limit in force (a soft limit above the new hard limit is accepted
    too), getrlimit then returns it, a refused call or an unknown resource
    changes nothing, and over any calls no hard limit rises and no soft limit
    comes above the hard limit of the start. *)
Theorem rlimits_correct (r : RLimits) (resource : Z) (val : rlimit) (calls : list (Z * rlimit)) :
  (∀ f, rlimit_ok (r f)) → rlimit_ok val → Forall (fun c => rlimit_ok (snd c)) calls →
  (let '(e, r') := setrlimit resource val r in
   (e = 0 → getrlimit resource r' = inr val) ∧ (e ≠ 0 → ∀ f, r' f = r f) ∧
   (e = 0 ↔ ∃ lim, getrlimit resource r = inr lim ∧
      rlim_max val ≤ rlim_max lim ∧ rlim_cur val ≤ rlim_max lim) ∧
   ∀ other, resource_field other ≠ resource_field resource → getrlimit other r' = getrlimit other r) ∧
  (∀ f, rlim_max (setrlimits calls r f) ≤ rlim_max (r f) ∧
     rlim_cur (setrlimits calls r f) ≤ Z.max (rlim_cur (r f)) (rlim_max (r f))).
Proof.
  intros Hr Hv Hcalls. split.
  - pose proof (setrlimit_spec resource val r Hr Hv) as H. unfold getrlimit.
    destruct (setrlimit resource val r) as [e r']. destruct H as [_ H].
    destruct (resource_field resource) as [f |].
    2: { destruct H as [-> ->]. split_and!; [done.. | | done]. split; [done | by intros (? & ? & _)]. }
    destruct H as [Hg H]. case_decide as Hd; destruct H as [-> Hf]; rewrite Hf.
    + split_and!; [done | done | split; [by eexists | done] |].
      intros other Ho. destruct (resource_field other) as [g |]; [| done]. rewrite Hg; congruence.
    + split_and!; [done | | split; [done |] |].
      * intros _ g. destruct (decide (g = f)) as [-> |]; auto.
      * by intros (lim & [= <-] & ?).
      * intros other Ho. destruct (resource_field other) as [g |]; [| done]. rewrite Hg; congruence.
  - clear val Hv. revert r Hr. induction calls as [| [res val] calls IH]; intros r Hr f; [cbn; lia |].
    apply Forall_cons in Hcalls as [Hv Hcalls]. cbn in Hv.
    change (setrlimits ((res, val) :: calls) r) with (setrlimits calls (snd (setrlimit res val r))).
    pose proof (setrlimit_spec res val r Hr Hv) as H.
    destruct (setrlimit res val r) as [e r']. destruct H as [Hr' H]. cbn [snd].
    specialize (IH Hcalls r' Hr' f). destruct (resource_field res) as [g |]; [| by destruct H as [-> ->]].
    destruct H as [Hg H]. destruct (decide (f = g)) as [-> |]; [| by rewrite Hg in IH].
    case_decide; destruct H as [_ H]; rewrite H in IH; lia.
Qed.

Lemma default_rlimits_ok f : rlimit_ok (default_rlimits f).
Proof. split; destruct f; by vm_compute. Qed.

Lemma rlimits_correct_witness :
  fst (setrlimit 7 (Rlimit 100 50) default_rlimits) = 0 ∧
  rlim_max (setrlimits [(7, Rlimit 10 20); (7, Rlimit 10 30)] default_rlimits Nofile) ≤ 32768.
Proof.
  destruct (rlimits_correct default_rlimits 7 (Rlimit 100 50) [(7, Rlimit 10 20); (7, Rlimit 10 30)])
    as [_ H].
  - apply default_rlimits_ok.
  - by split.
  - by repeat constructor.
  - split; [done |]. apply (H Nofile).
Defined.

(** * Functions that abort *)

(** Handles are different, positive and not above the counter. *)
Definition aborters_ok (st : aborters) : Prop :=
  NoDup (aborterFunc st).*1 ∧ Forall (fun h => 0 < h ≤ aborterFuncHandle st) (aborterFunc st).*1 ∧
  0 ≤ aborterFuncHandle st.

Lemma erase_aborter_fresh h l : h ∉ l.*1 → erase_aborter h l = l.
Proof.
  induction l as [| [h' f] l IH]; [done |]. cbn. intros [? ?]%not_elem_of_cons.
  destruct (Z.eqb_spec h' h); [congruence |]. by rewrite IH.
Qed.

Lemma erase_aborter_filter h l : NoDup l.*1 → erase_aborter h l = filter (fun e => e.1 ≠ h) l.
Proof.
  induction l as [| [h' f] l IH]; [done |]. cbn [fmap list_fmap fst]. intros [Hn Hnd]%NoDup_cons.
  cbn [erase_aborter]. destruct (Z.eqb_spec h' h) as [-> | Hne].
  - rewrite filter_cons_False by (cbn; naive_solver). rewrite <- IH by done.
    by rewrite erase_aborter_fresh.
  - rewrite filter_cons_True by done. by rewrite IH.
Qed.

(** a thread of a process has at most one function registered for its
    abort.  Registering gives a handle no other entry has, appends the function
    and takes out exactly the entry of the thread's old handle; clearing takes
    out exactly that; the entries of other threads stay in order, and
    CallAbortAll calls all of them. *)
Theorem aborters_correct (st : aborters) (t : thread_aborter) (func : Z) :
  aborters_ok st → aborterFuncHandle st < 2 ^ 31 - 1 → ta_handle t ≤ aborterFuncHandle st →
  (let '(t', st') := thread_AborterFunc func t st in
   aborters_ok st' ∧ ta_handle t' ∉ (aborterFunc st).*1 ∧ ta_func t' = Some func ∧
   aborterFunc st' = filter (fun e => e.1 ≠ ta_handle t) (aborterFunc st) ++ [(ta_handle t', func)] ∧
   func ∈ CallAbortAll st') ∧
  (let '(t', st') := thread_ClearAborterFunc t st in
   aborters_ok st' ∧ ta_func t' = None ∧
   aborterFunc st' = filter (fun e => e.1 ≠ ta_handle t) (aborterFunc st)).
Proof.
  intros (Hnd & Hf & H0) Hlt Ht.
  assert (∀ h, aborters_ok (Aborters (filter (fun e => e.1 ≠ h) (aborterFunc st)) (aborterFuncHandle st))) as Hok.
  { intros h. split_and!; cbn; [| | done].
    - eapply sublist_NoDup; [exact Hnd |]. apply fmap_sublist, sublist_filter.
    - rewrite Forall_forall in Hf |- *. intros x Hx. apply Hf.
      apply list_elem_of_fmap in Hx as (e & -> & [_ He]%list_elem_of_filter).
      apply list_elem_of_fmap. by eexists. }
  split.
  - unfold thread_AborterFunc, AborterFunc, ClearAborterFunc. cbn [aborterFunc aborterFuncHandle].
    rewrite s32_id by lia. set (h := aborterFuncHandle st + 1). cbn [ta_handle ta_func aborterFunc].
    assert (h ∉ (aborterFunc st).*1) as Hh.
    { intros Hi. rewrite Forall_forall in Hf. specialize (Hf _ Hi). unfold h in *. lia. }
    assert (NoDup (aborterFunc st ++ [(h, func)]).*1) as Hnd'.
    { rewrite fmap_app. apply NoDup_app. split_and!; [done | | apply NoDup_singleton].
      by intros x Hx ->%list_elem_of_singleton. }
    assert (erase_aborter (ta_handle t) (aborterFunc st ++ [(h, func)]) =
      filter (fun e => e.1 ≠ ta_handle t) (aborterFunc st) ++ [(h, func)]) as E.
    { rewrite erase_aborter_filter, filter_app by done. f_equal.
      rewrite filter_cons_True; [done |]. cbn. unfold h. lia. }
    rewrite E. split_and!; [| done | done | done |].
    + destruct (Hok (ta_handle t)) as (Hn1 & Hn2 & _). cbn in Hn1, Hn2. split_and!; cbn.
      * rewrite <- E. rewrite erase_aborter_filter by done.
        eapply sublist_NoDup; [exact Hnd' |]. apply fmap_sublist, sublist_filter.
      * rewrite fmap_app. apply Forall_app. split; [| repeat constructor; unfold h; cbn; lia].
        eapply Forall_impl; [exact Hn2 |]. cbn. unfold h. lia.
      * unfold h. lia.
    + unfold CallAbortAll. cbn. rewrite fmap_app. apply elem_of_app. right. left.
  - unfold thread_ClearAborterFunc, ClearAborterFunc. rewrite erase_aborter_filter by done.
    split_and!; [apply Hok | done | done].
Qed.

Lemma aborters_correct_witness :
  thread_AborterFunc 9 (ThreadAborter (Some 7) 1) (Aborters [(1, 7); (2, 8)] 2) =
  (ThreadAborter (Some 9) 3, Aborters [(2, 8); (3, 9)] 3).
Proof.
  destruct (aborters_correct (Aborters [(1, 7); (2, 8)] 2) (ThreadAborter (Some 7) 1) 9) as [H _].
  - split_and!; [by apply (bool_decide_unpack _) | by repeat constructor | done].
  - done.
  - done.
  - vm_compute in H. by vm_compute.
Defined.
