(* ===== verification/ProcMem.v ===== *)
(** The memory map of a process (kernel/exec/process.cpp, include/exec/process.h):
    the list of MemMapping objects, the search for free address space, and
    the removal of a range with the snapshots that delay the release of its
    pages.

    Page numbers are 32 bits wide as in the code.  Each operation runs under
    the lock of the process and is one step. *)
From stdpp Require Import sorting.
From S2P Require Import Prelude VPageAlloc.

Local Open Scope Z_scope.

(** * Mappings *)

(** struct PhysMapping; [pm_data] is the page of a file it refers to,
    [pm_cow] the physical page that it shares for copy on write. *)
Record PhysMapping := PhysMap {
  pm_data : option Z;
  pm_cow : option Z;
  pm_phys_page : Z;
  pm_page : Z
}.

(** class MemMapping; [mm_image] is the file. *)
Record MemMapping := MemMap {
  mm_image : option Z;
  mm_pagenum : Z;
  mm_pages : Z;
  mm_image_skip_pages : Z;
  mm_load : Z;
  mm_read : bool;
  mm_cow : bool;
  mm_binary_mapping : bool;
  mm_mappings : list PhysMapping
}.

(** MemMapping::Create with a file and a range. *)
Definition new_mapping (image : option Z) (pagenum pages image_skip_pages load : Z)
    (cow binaryMapping : bool) : MemMapping :=
  MemMap image pagenum pages image_skip_pages load true cow binaryMapping [].

(** CopyAttributes from [src], and the list of pages. *)
Definition with_pages (src : MemMapping) (pagenum pages : Z) (l : list PhysMapping) : MemMapping :=
  MemMap (mm_image src) pagenum pages (mm_image_skip_pages src) (mm_load src) (mm_read src)
    (mm_cow src) (mm_binary_mapping src) l.

(** [pagenum + pages], in the width of the code. *)
Definition mm_end (m : MemMapping) : Z := u32 (mm_pagenum m + mm_pages m).

(** ~MemMapping: the addresses that are freed. *)
Definition mapping_frees (m : MemMapping) : list Z :=
  omap (fun p => match pm_data p, pm_cow p with
                 | None, None => Some (pm_phys_page p)
                 | _, _ => None
                 end) (mm_mappings m).

(** class DeferredReleasePage; the address is stored in 32 bits. *)
Record DeferredReleasePage := Deferred {
  dr_pagenum : Z;
  dr_data : option Z;
  dr_cow : option Z
}.

Definition deferred_of (p : PhysMapping) : DeferredReleasePage :=
  Deferred (u32 (pm_phys_page p)) (pm_data p) (pm_cow p).

(** ~DeferredReleasePage: the address that is freed. *)
Definition deferred_free (d : DeferredReleasePage) : option Z :=
  match dr_data d, dr_cow d with
  | None, None => if dr_pagenum d =? 0 then None else Some (u64 (Z.shiftl (dr_pagenum d) 12))
  | _, _ => None
  end.

(** * Overlap *)

Fixpoint CheckMapOverlap (pagenum pages : Z) (l : list MemMapping) : bool :=
  match l with
  | [] => true
  | m :: l =>
      let overlap_page := if pagenum <? mm_pagenum m then mm_pagenum m else pagenum in
      let overlap_end := mm_end m in
      let other_end := u32 (pagenum + pages) in
      let overlap_end := if other_end <? overlap_end then other_end else overlap_end in
      if overlap_page <? overlap_end then false else CheckMapOverlap pagenum pages l
  end.

(** struct MemoryArea *)
Record MemoryArea := Area { area_start : Z; area_end : Z }.

Definition area_Length (a : MemoryArea) : Z := u32 (area_end a - area_start a).

Definition area_Combine (a other : MemoryArea) : MemoryArea :=
  Area (if area_start a <? area_start other then area_start a else area_start other)
       (if area_end other <? area_end a then area_end a else area_end other).

Definition area_Overlaps (a other : MemoryArea) : bool :=
  area_Length (area_Combine a other) <? u32 (area_Length a + area_Length other).

Definition mapping_area (m : MemMapping) : MemoryArea := Area (mm_pagenum m) (mm_end m).

Fixpoint map_IsFree_loop (area : MemoryArea) (l : list MemMapping) : bool :=
  match l with
  | [] => true
  | m :: l => if area_Overlaps area (mapping_area m) then false else map_IsFree_loop area l
  end.

Definition map_IsFree (pagenum pages : Z) (l : list MemMapping) : bool :=
  map_IsFree_loop (Area pagenum (u32 (pagenum + pages))) l.

Definition lowLim : Z := u32 (Z.shiftl PMLT4_USERSPACE_HIGH_START (9 + 9 + 9)).
Definition highLimBase : Z := Z.shiftl PMLT4_USERSPACE_HIGH_END (9 + 9 + 9).
Definition highLim : Z := if highLimBase <? 0x100000000 then highLimBase else 0xFFFFFFFF.

Definition IsInRange (pagenum pages : Z) : bool :=
  let start := pagenum in
  let end_ := pagenum + pages in
  if start <? lowLim then false else (lowLim <=? start) && (end_ <=? highLim).

(** * Removal of a range *)

(** What the loops over the pages of a mapping do with a page. *)
Inductive page_fate := KeepPage | ReleasePage | MovePage.

Fixpoint sort_pages (fate : Z → page_fate) (l : list PhysMapping)
    : list PhysMapping * list DeferredReleasePage * list PhysMapping :=
  match l with
  | [] => ([], [], [])
  | check :: l =>
      let '(kept, released, moved) := sort_pages fate l in
      match fate (pm_page check) with
      | KeepPage => (check :: kept, released, moved)
      | ReleasePage => (kept, deferred_of check :: released, moved)
      | MovePage => (kept, released, check :: moved)
      end
  end.

(** The body of the loop of ClearRange: what is left of the mapping in its
    place, the mapping that is split off, the pages to be released, and the
    addresses that the destructor of a dropped mapping frees. *)
Record cleared := Cleared {
  cl_kept : option MemMapping;
  cl_new : option MemMapping;
  cl_release : list DeferredReleasePage;
  cl_freed : list Z
}.

Definition clear_mapping (pagenum pages : Z) (m : MemMapping) : cleared :=
  let overlap_page := if pagenum <? mm_pagenum m then mm_pagenum m else pagenum in
  let other_end := u32 (pagenum + pages) in
  let overlap_end := if other_end <? mm_end m then other_end else mm_end m in
  if overlap_page <? overlap_end then
    let mapping_end := mm_end m in
    if mm_pagenum m <? overlap_page then
      if overlap_end <? mapping_end then
        let '(kept, released, moved) :=
          sort_pages (fun p => if overlap_page <=? p then
                                 if p <? overlap_end then ReleasePage else MovePage
                               else KeepPage) (mm_mappings m) in
        Cleared (Some (with_pages m (mm_pagenum m) (u32 (overlap_page - mm_pagenum m)) kept))
          (Some (with_pages m overlap_end (u32 (mm_pages m - u32 (overlap_end - mm_pagenum m))) moved))
          released []
      else
        let '(kept, released, _) :=
          sort_pages (fun p => if overlap_page <=? p then ReleasePage else KeepPage) (mm_mappings m) in
        Cleared (Some (with_pages m (mm_pagenum m) (u32 (overlap_page - mm_pagenum m)) kept))
          None released []
    else if overlap_end <? mapping_end then
      let '(kept, released, _) :=
        sort_pages (fun p => if p <? overlap_end then ReleasePage else KeepPage) (mm_mappings m) in
      Cleared (Some (with_pages m overlap_end (u32 (mapping_end - overlap_end)) kept)) None released []
    else Cleared None None [] (mapping_frees m)
  else Cleared (Some m) None [] [].

(** ClearRange up to the snapshots: the new list, the pages to be released
    and the addresses freed at once. *)
Definition clear_range (pagenum pages : Z) (l : list MemMapping)
    : list MemMapping * list DeferredReleasePage * list Z :=
  let cs := clear_mapping pagenum pages <$> l in
  (omap cl_kept cs ++ omap cl_new cs, concat (cl_release <$> cs), concat (cl_freed <$> cs)).

(** ** Snapshots *)

(** struct MemoryMapSnapshot; the pages of one ClearRange are a shared
    vector, here its address. *)
Record MemoryMapSnapshot := Snapshot {
  sn_deferredRelease : list Z;
  sn_serial : Z
}.

(** The snapshots of a process. *)
Record snapshots := Snapshots {
  memoryMapSnapshots : list MemoryMapSnapshot;
  memoryMapSerial : Z
}.

(** The end of ClearRange: the last snapshot holds the pages, too. *)
Definition defer_release (release : Z) (s : snapshots) : snapshots :=
  match last (memoryMapSnapshots s) with
  | Some sn =>
      Snapshots (take (length (memoryMapSnapshots s) - 1) (memoryMapSnapshots s) ++
                 [Snapshot (sn_deferredRelease sn ++ [release]) (sn_serial sn)]) (memoryMapSerial s)
  | None => s
  end.

(** ClearRange; [release] is the address of the vector of the pages. *)
Definition ClearRange (release pagenum pages : Z) (l : list MemMapping) (s : snapshots)
    : list MemMapping * snapshots * list DeferredReleasePage * list Z :=
  let '(l, pages, freed) := clear_range pagenum pages l in
  (l, defer_release release s, pages, freed).

(** The constructor of MemoryMapSnapshotBarrier. *)
Definition snapshot_barrier (s : snapshots) : Z * snapshots :=
  let serial := memoryMapSerial s + 1 in
  (serial, Snapshots (memoryMapSnapshots s ++ [Snapshot [] serial]) serial).

(** The loop of Release behind the first snapshot, which is [previous]. *)
Fixpoint release_snapshot (serial : Z) (previous : MemoryMapSnapshot) (l : list MemoryMapSnapshot)
    : list MemoryMapSnapshot :=
  match l with
  | [] => [previous]
  | sn :: l =>
      if sn_serial sn =? serial then
        Snapshot (sn_deferredRelease previous ++ sn_deferredRelease sn) (sn_serial previous) :: l
      else previous :: release_snapshot serial sn l
  end.

(** MemoryMapSnapshotBarrier::Release of a valid barrier. *)
Definition barrier_Release (serial : Z) (s : snapshots) : snapshots :=
  match memoryMapSnapshots s with
  | [] => s
  | sn :: l =>
      if sn_serial sn =? serial then Snapshots l (memoryMapSerial s)
      else Snapshots (release_snapshot serial sn l) (memoryMapSerial s)
  end.

(** * Free address space *)

(** The inner loop of FindFreeMemoryAreas: areas that overlap are merged
    into [area]. *)
Fixpoint merge_areas (area : MemoryArea) (l : list MemoryArea) : MemoryArea * list MemoryArea :=
  match l with
  | [] => (area, [])
  | a :: l =>
      if area_Overlaps a area then merge_areas (area_Combine a area) l
      else let '(area, l) := merge_areas area l in (area, a :: l)
  end.

Fixpoint used_areas (l : list MemMapping) (areas : list MemoryArea) : outcome (list MemoryArea) :=
  match l with
  | [] => Ret areas
  | m :: l =>
      let '(area, areas) := merge_areas (mapping_area m) areas in
      areas ← insert_before (fun a b => area_start a <? area_start b) (length areas) 0
                (Z.of_nat (length areas)) area (areas ++ [Area 0 0]);
      used_areas l areas
  end.

Fixpoint free_areas (start : Z) (l : list MemoryArea) : list MemoryArea :=
  match l with
  | [] => if start <? highLim then [Area start highLim] else []
  | a :: l =>
      (if start <? area_start a then [Area start (area_start a)] else []) ++
      free_areas (if start <? area_end a then area_end a else start) l
  end.

Definition FindFreeMemoryAreas (l : list MemMapping) : outcome (list MemoryArea) :=
  used ← used_areas l [];
  Ret (free_areas lowLim used).

(** The loops that choose an area; [better] says whether an area replaces the
    one chosen so far. *)
Fixpoint choose_area (better : MemoryArea → MemoryArea → bool) (pages : Z)
    (best : option MemoryArea) (l : list MemoryArea) : option MemoryArea :=
  match l with
  | [] => best
  | a :: l =>
      let best :=
        if pages <=? u32 (area_end a - area_start a) then
          match best with
          | None => Some a
          | Some b => if better a b then Some a else Some b
          end
        else best in
      choose_area better pages best l
  end.

Definition FindFreeStart (pages : Z) (l : list MemMapping) : outcome Z :=
  freemem ← FindFreeMemoryAreas l;
  Ret match choose_area (fun a b => area_start a <? area_start b) pages None freemem with
      | Some a => area_start a
      | None => 0
      end.

Definition FindFree (pages : Z) (l : list MemMapping) : outcome Z :=
  freemem ← FindFreeMemoryAreas l;
  Ret match choose_area (fun a b => u32 (area_end a - area_start a) <? u32 (area_end b - area_start b))
              pages None freemem with
      | Some a => u32 (area_end a - pages)
      | None => 0
      end.

(** * Well-formed maps *)

(** A page is in a mapping. *)
Definition mm_covers (m : MemMapping) (p : Z) : Prop := mm_pagenum m ≤ p < mm_pagenum m + mm_pages m.

(** A mapping is a range of 32-bit page numbers that is not empty, shorter than
    half of them, and the pages that are present are in it. *)
Record mapping_ok (m : MemMapping) : Prop := {
  mo_start : 0 ≤ mm_pagenum m;
  mo_pages : 1 ≤ mm_pages m < 2 ^ 31;
  mo_end : mm_pagenum m + mm_pages m < 2 ^ 32;
  mo_phys : Forall (fun p => mm_covers m (pm_page p)) (mm_mappings m)
}.

Definition apart (m m' : MemMapping) : Prop :=
  mm_pagenum m + mm_pages m ≤ mm_pagenum m' ∨ mm_pagenum m' + mm_pages m' ≤ mm_pagenum m.

(** The map of a process: mappings that do not overlap. *)
Definition map_ok (l : list MemMapping) : Prop := Forall mapping_ok l ∧ ForallOrdPairs apart l.

(** The mapping of a page, as resolve_page and readable look for it. *)
Definition find_mapping (p : Z) (l : list MemMapping) : option MemMapping :=
  snd <$> list_find (fun m => mm_pagenum m ≤ p ∧ p < mm_end m) l.

Lemma mm_end_ok m : mapping_ok m → mm_end m = mm_pagenum m + mm_pages m.
Proof. intros [? ? ? ?]. unfold mm_end. apply wrap_id. unfold is_u. lia. Qed.

(** ** Lists without overlap *)

Lemma pairs_app {A} (R : A → A → Prop) l l' :
  ForallOrdPairs R (l ++ l') ↔
  ForallOrdPairs R l ∧ ForallOrdPairs R l' ∧ Forall (fun x => Forall (R x) l') l.
Proof.
  induction l as [| x l IH]; cbn.
  { split; [intros; split_and!; [constructor | done | constructor] | by intros (_ & ? & _)]. }
  split.
  - intros H. inversion H as [| ? ? Hx Hl]; subst. apply Forall_app in Hx as [? ?].
    apply IH in Hl as (? & ? & ?). split_and!; [by constructor | done | by constructor].
  - intros (H & ? & [? ?]%Forall_cons). inversion H; subst. constructor; [by apply Forall_app |].
    by apply IH.
Qed.

Lemma pairs_perm {A} (R : A → A → Prop) `{!Symmetric R} l l' :
  l ≡ₚ l' → ForallOrdPairs R l → ForallOrdPairs R l'.
Proof.
  induction 1 as [| x l l' Hp IH | x y l | l1 l2 l3 _ IH1 _ IH2]; intros H; [done | | | by auto].
  - inversion H; subst. constructor; [by rewrite <- Hp | by apply IH].
  - inversion H as [| ? ? Hx Hl]; subst. apply Forall_cons in Hx as [? ?]. inversion Hl; subst.
    repeat constructor; done.
Qed.

Lemma pairs_bind {A} (R : A → A → Prop) (f : A → list A) l :
  (∀ x, x ∈ l → ForallOrdPairs R (f x)) →
  (∀ x y a b, R x y → a ∈ f x → b ∈ f y → R a b) →
  ForallOrdPairs R l → ForallOrdPairs R (l ≫= f).
Proof.
  intros Hf HR. induction 1 as [| x l Hx Hl IH]; [constructor |]. cbn. apply pairs_app. split_and!.
  - apply Hf. left.
  - apply IH. intros y Hy. apply Hf. by right.
  - apply Forall_forall. intros a Ha. apply Forall_forall. intros b (y & Hb & Hy)%list_elem_of_bind.
    eapply HR; [| exact Ha | exact Hb]. by rewrite Forall_forall in Hx; apply Hx.
Qed.

Lemma pairs_elem {A} (R : A → A → Prop) `{!Symmetric R} l x y :
  ForallOrdPairs R l → x ∈ l → y ∈ l → x = y ∨ R x y.
Proof.
  induction 1 as [| z l Hz Hl IH]; [by intros ?%not_elem_of_nil |]. rewrite Forall_forall in Hz.
  intros [-> | Hx]%elem_of_cons [-> | Hy]%elem_of_cons; [by left | right; auto | right; symmetry; auto | auto].
Qed.

#[export] Instance apart_symmetric : Symmetric apart.
Proof. intros m m' [? | ?]; [by right | by left]. Qed.

Lemma map_ok_unique l m m' p :
  map_ok l → m ∈ l → m' ∈ l → mm_covers m p → mm_covers m' p → m = m'.
Proof.
  intros [_ Hp] Hm Hm' Hc Hc'. destruct (pairs_elem apart l m m' Hp Hm Hm') as [| [?|?]]; [done | |];
    unfold mm_covers in *; lia.
Qed.

Lemma find_mapping_spec p l m :
  map_ok l → find_mapping p l = Some m ↔ m ∈ l ∧ mm_covers m p.
Proof.
  intros Hok. pose proof Hok as [Hall _]. rewrite Forall_forall in Hall. unfold find_mapping. split.
  - destruct (list_find _ l) as [[i m'] |] eqn:E; [| done]. intros [= <-].
    apply list_find_Some in E as (Hi & Hm & _). apply list_elem_of_lookup_2 in Hi.
    split; [done |]. cbn in Hm. rewrite mm_end_ok in Hm by auto. exact Hm.
  - intros [Hm Hc]. destruct (list_find _ l) as [[i m'] |] eqn:E.
    + apply list_find_Some in E as (Hi & Hm' & _). apply list_elem_of_lookup_2 in Hi. cbn. f_equal.
      rewrite mm_end_ok in Hm' by auto. by eapply (map_ok_unique l m' m p).
    + apply list_find_None in E. rewrite Forall_forall in E. destruct (E m Hm).
      rewrite mm_end_ok by auto. exact Hc.
Qed.

Lemma find_mapping_none p l :
  map_ok l → find_mapping p l = None ↔ ∀ m, m ∈ l → ¬ mm_covers m p.
Proof.
  intros Hok. split.
  - intros Hn m Hm Hc. assert (find_mapping p l = Some m) by (by apply find_mapping_spec). congruence.
  - intros Hn. destruct (find_mapping p l) as [m |] eqn:E; [| done].
    apply find_mapping_spec in E as [Hm Hc]; [| done]. by destruct (Hn m Hm).
Qed.

(** ** Overlap *)

Lemma max_if a b : (if a <? b then b else a) = Z.max a b.
Proof. destruct (Z.ltb_spec a b); lia. Qed.

Lemma min_if a b : (if a <? b then a else b) = Z.min a b.
Proof. destruct (Z.ltb_spec a b); lia. Qed.

Lemma CheckMapOverlap_spec pagenum pages l :
  Forall mapping_ok l → 0 ≤ pagenum → 0 ≤ pages → pagenum + pages < 2 ^ 32 →
  CheckMapOverlap pagenum pages l = true ↔
  ∀ p, pagenum ≤ p < pagenum + pages → ∀ m, m ∈ l → ¬ mm_covers m p.
Proof.
  intros Hall Hp Hn He. induction Hall as [| m l Hm Hall IH]; cbn [CheckMapOverlap].
  { split; [by intros _ p _ m ?%not_elem_of_nil | done]. }
  rewrite mm_end_ok, (wrap_id 32 (pagenum + pages)) by (done || unfold is_u; lia).
  rewrite max_if, min_if. pose proof (mo_pages m Hm). unfold mm_covers in *.
  ztest; split.
  - done.
  - intros Hf. exfalso. apply (Hf (Z.max pagenum (mm_pagenum m)) ltac:(lia) m ltac:(left)). lia.
  - intros Hc p Hr m' [-> | Hm']%elem_of_cons; [lia |]. by eapply IH.
  - intros Hf. apply IH. intros p Hr m' Hm'. eapply Hf; [done | by right].
Qed.

(** An area of at most half of the page numbers. *)
Definition area_ok (a : MemoryArea) : Prop :=
  0 ≤ area_start a ≤ area_end a ∧ area_end a < 2 ^ 32 ∧ area_end a - area_start a < 2 ^ 31.

Lemma area_Overlaps_spec a b :
  area_ok a → area_ok b →
  area_Overlaps a b =
  (Z.max (area_start a) (area_start b) <? Z.min (area_end a) (area_end b)).
Proof.
  intros (? & ? & ?) (? & ? & ?). unfold area_Overlaps, area_Length, area_Combine. cbn [area_start area_end].
  rewrite min_if, max_if.
  rewrite (wrap_id 32 (area_end a - area_start a)), (wrap_id 32 (area_end b - area_start b))
    by (unfold is_u; lia).
  rewrite !(wrap_id 32) by (unfold is_u; lia).
  destruct (Z.ltb_spec (Z.max (area_end b) (area_end a) - Z.min (area_start a) (area_start b))
    (area_end a - area_start a + (area_end b - area_start b))),
    (Z.ltb_spec (Z.max (area_start a) (area_start b)) (Z.min (area_end a) (area_end b))); done || lia.
Qed.

Lemma mapping_area_ok m : mapping_ok m → area_ok (mapping_area m).
Proof.
  intros Hm. unfold area_ok, mapping_area. cbn. rewrite mm_end_ok by done. destruct Hm. lia.
Qed.

Lemma map_IsFree_loop_spec pagenum pages l :
  Forall mapping_ok l → 0 ≤ pagenum → 0 ≤ pages < 2 ^ 31 → pagenum + pages < 2 ^ 32 →
  map_IsFree pagenum pages l = CheckMapOverlap pagenum pages l.
Proof.
  intros Hall Hp Hn He. unfold map_IsFree. rewrite wrap_id by (unfold is_u; lia).
  induction Hall as [| m l Hm Hall IH]; [done |]. cbn [map_IsFree_loop CheckMapOverlap].
  rewrite area_Overlaps_spec; [| unfold area_ok; cbn; lia | by apply mapping_area_ok].
  rewrite (wrap_id 32 (pagenum + pages)) by (unfold is_u; lia). rewrite max_if, min_if, IH.
  done.
Qed.

(** ** Clearing one mapping *)

#[export] Instance page_fate_eq : EqDecision page_fate.
Proof. solve_decision. Defined.

Lemma sort_pages_spec fate l :
  sort_pages fate l =
    (filter (fun p => fate (pm_page p) = KeepPage) l,
     deferred_of <$> filter (fun p => fate (pm_page p) = ReleasePage) l,
     filter (fun p => fate (pm_page p) = MovePage) l).
Proof.
  induction l as [| x l IH]; [done |]. cbn [sort_pages]. rewrite IH.
  destruct (fate (pm_page x)) eqn:E.
  - rewrite filter_cons_True, !filter_cons_False by congruence. done.
  - rewrite (filter_cons_False (fun p => fate (pm_page p) = KeepPage)),
      filter_cons_True, filter_cons_False by congruence. done.
  - rewrite (filter_cons_False (fun p => fate (pm_page p) = KeepPage)),
      (filter_cons_False (fun p => fate (pm_page p) = ReleasePage)), filter_cons_True by congruence. done.
Qed.

(** The entries of one page. *)
Definition page_entries (m : MemMapping) (p : Z) : list PhysMapping :=
  filter (fun e => pm_page e = p) (mm_mappings m).

(** What the pages of a mapping have in common. *)
Definition mm_attrs (m : MemMapping) : option Z * Z * bool * bool * bool :=
  (mm_image m, mm_load m, mm_read m, mm_cow m, mm_binary_mapping m).

(** [x] is a part of [m] that has the pages of [m] in its range. *)
Record part_of (m x : MemMapping) : Prop := {
  po_ok : mapping_ok x;
  po_attrs : mm_attrs x = mm_attrs m;
  po_skip : mm_image_skip_pages x = mm_image_skip_pages m;
  po_start : mm_pagenum m ≤ mm_pagenum x;
  po_end : mm_pagenum x + mm_pages x ≤ mm_pagenum m + mm_pages m;
  po_entries : ∀ p, mm_covers x p → page_entries x p = page_entries m p
}.

Lemma filter_entries (P : PhysMapping → Prop) `{∀ e, Decision (P e)} (l : list PhysMapping) p :
  (∀ e, pm_page e = p → P e) →
  filter (fun e => pm_page e = p) (filter P l) = filter (fun e => pm_page e = p) l.
Proof.
  intros HP. rewrite list_filter_filter. apply list_filter_iff. intros e. split; [by intros [] |].
  intros E. split; [done | by apply HP].
Qed.

Lemma part_of_intro m start n (Q : Z → Prop) `{∀ q, Decision (Q q)} :
  mapping_ok m → mm_pagenum m ≤ start → 1 ≤ n → start + n ≤ mm_pagenum m + mm_pages m →
  (∀ q, mm_covers m q → Q q ↔ start ≤ q < start + n) →
  part_of m (with_pages m start n (filter (fun e => Q (pm_page e)) (mm_mappings m))).
Proof.
  intros Hm Hs Hn He HQ. destruct Hm as [? ? ? Hf]. split; cbn; try done.
  - split; cbn; try lia. rewrite Forall_forall in Hf. apply Forall_forall.
    intros e [He1 He2]%list_elem_of_filter. unfold mm_covers. cbn. apply HQ; [by apply Hf | done].
  - intros p Hp. unfold page_entries, mm_covers in *. cbn in *. apply filter_entries.
    intros e ->. apply HQ; lia.
Qed.

Definition cl_parts (c : cleared) : list MemMapping := option_list (cl_kept c) ++ option_list (cl_new c).

(** The addresses and deferred pages of the entries in a range. *)
Definition in_range (a e p : Z) : Prop := a ≤ p < e.
#[export] Instance in_range_dec a e p : Decision (in_range a e p).
Proof. unfold in_range. apply _. Defined.

(** The range contains all of a mapping. *)
Definition wholly (a e : Z) (m : MemMapping) : Prop :=
  a ≤ mm_pagenum m ∧ mm_pagenum m + mm_pages m ≤ e.
#[export] Instance wholly_dec a e m : Decision (wholly a e m).
Proof. unfold wholly. apply _. Defined.

Definition range_entries (a e : Z) (m : MemMapping) : list PhysMapping :=
  filter (fun x => in_range a e (pm_page x)) (mm_mappings m).

Record clear_spec (a e : Z) (m : MemMapping) (c : cleared) : Prop := {
  cs_parts : Forall (part_of m) (cl_parts c);
  cs_apart : ForallOrdPairs apart (cl_parts c);
  cs_covers : ∀ p, (∃ x, x ∈ cl_parts c ∧ mm_covers x p) ↔ mm_covers m p ∧ ¬ in_range a e p;
  cs_release :
    if decide (wholly a e m) then cl_release c = [] ∧ cl_freed c = mapping_frees m
    else cl_freed c = [] ∧ cl_release c = deferred_of <$> range_entries a e m;
  cs_start : ∀ x, x ∈ cl_parts c → mm_pagenum x = mm_pagenum m ∨ mm_pagenum x = e
}.

Lemma filter_pages (P Q : Z → Prop) `{∀ q, Decision (P q), ∀ q, Decision (Q q)} m :
  mapping_ok m → (∀ q, mm_covers m q → P q ↔ Q q) →
  filter (fun x => P (pm_page x)) (mm_mappings m) = filter (fun x => Q (pm_page x)) (mm_mappings m).
Proof.
  intros [_ _ _ Hf] HPQ. induction Hf as [| x l Hx Hf IH]; [done |].
  destruct (decide (P (pm_page x))) as [HP | HP].
  - rewrite !filter_cons_True by (try done; by apply HPQ). by rewrite IH.
  - rewrite !filter_cons_False by (try done; by rewrite <- HPQ). by rewrite IH.
Qed.

Lemma filter_nothing {A} (P : A → Prop) `{∀ x, Decision (P x)} (l : list A) : Forall (fun x => ¬ P x) l → filter P l = [].
Proof. induction 1; [done |]. by rewrite filter_cons_False. Qed.

(** The three ways to cut a mapping. *)
Definition fate_middle (a e q : Z) : page_fate :=
  if a <=? q then if q <? e then ReleasePage else MovePage else KeepPage.
Definition fate_tail (a q : Z) : page_fate := if a <=? q then ReleasePage else KeepPage.
Definition fate_head (e q : Z) : page_fate := if q <? e then ReleasePage else KeepPage.

Ltac fates := unfold fate_middle, fate_tail, fate_head; repeat ztest; split; (done || lia).

Section ClearMapping.
Context (a e : Z) (m : MemMapping) (Hm : mapping_ok m).
Let s := mm_pagenum m.
Let t := mm_pagenum m + mm_pages m.
Let keep P `{∀ q, Decision (P q)} := filter (fun x => P (pm_page x)) (mm_mappings m).

Lemma clear_middle :
  s < a → e < t → a < e →
  clear_spec a e m (Cleared
    (Some (with_pages m s (a - s) (keep (fun q => fate_middle a e q = KeepPage))))
    (Some (with_pages m e (t - e) (keep (fun q => fate_middle a e q = MovePage))))
    (deferred_of <$> keep (fun q => fate_middle a e q = ReleasePage)) []).
Proof.
  intros Hs Ht Hae. subst s t.
  split; cbn [cl_parts cl_kept cl_new cl_release cl_freed option_list app].
  - repeat constructor; apply part_of_intro; try done; try lia; intros q Hq; unfold mm_covers in Hq; fates.
  - repeat constructor. cbn. lia.
  - intros p. split.
    + intros (x & [-> | ->%list_elem_of_singleton]%elem_of_cons & Hx);
        unfold mm_covers, in_range in *; cbn in Hx; lia.
    + intros [Hp Hr]. unfold mm_covers, in_range in *. destruct (decide (p < a)).
      * eexists. split; [left |]. cbn. lia.
      * eexists. split; [right; left |]. cbn. lia.
  - rewrite decide_False by (unfold wholly; lia). split; [done |]. f_equal.
    apply filter_pages; [done |]. intros q Hq. unfold mm_covers, in_range in *. fates.
  - intros x Hx. repeat (apply elem_of_cons in Hx as [-> | Hx]); cbn;
      [auto.. | by apply not_elem_of_nil in Hx].
Qed.

Lemma clear_tail :
  s < a → a < t → t ≤ e →
  clear_spec a e m (Cleared
    (Some (with_pages m s (a - s) (keep (fun q => fate_tail a q = KeepPage))))
    None (deferred_of <$> keep (fun q => fate_tail a q = ReleasePage)) []).
Proof.
  intros Hs Ht Hae. subst s t.
  split; cbn [cl_parts cl_kept cl_new cl_release cl_freed option_list app].
  - repeat constructor; apply part_of_intro; try done; try lia; intros q Hq; unfold mm_covers in Hq; fates.
  - repeat constructor.
  - intros p. split.
    + intros (x & ->%list_elem_of_singleton & Hx); unfold mm_covers, in_range in *; cbn in Hx; lia.
    + intros [Hp Hr]. unfold mm_covers, in_range in *. eexists. split; [left |]. cbn. lia.
  - rewrite decide_False by (unfold wholly; lia). split; [done |]. f_equal.
    apply filter_pages; [done |]. intros q Hq. unfold mm_covers, in_range in *. fates.
  - intros x Hx. repeat (apply elem_of_cons in Hx as [-> | Hx]); cbn;
      [auto.. | by apply not_elem_of_nil in Hx].
Qed.

Lemma clear_head :
  a ≤ s → s < e → e < t →
  clear_spec a e m (Cleared
    (Some (with_pages m e (t - e) (keep (fun q => fate_head e q = KeepPage))))
    None (deferred_of <$> keep (fun q => fate_head e q = ReleasePage)) []).
Proof.
  intros Hs Ht Hae. subst s t.
  split; cbn [cl_parts cl_kept cl_new cl_release cl_freed option_list app].
  - repeat constructor; apply part_of_intro; try done; try lia; intros q Hq; unfold mm_covers in Hq; fates.
  - repeat constructor.
  - intros p. split.
    + intros (x & ->%list_elem_of_singleton & Hx); unfold mm_covers, in_range in *; cbn in Hx; lia.
    + intros [Hp Hr]. unfold mm_covers, in_range in *. eexists. split; [left |]. cbn. lia.
  - rewrite decide_False by (unfold wholly; lia). split; [done |]. f_equal.
    apply filter_pages; [done |]. intros q Hq. unfold mm_covers, in_range in *. fates.
  - intros x Hx. repeat (apply elem_of_cons in Hx as [-> | Hx]); cbn;
      [auto.. | by apply not_elem_of_nil in Hx].
Qed.

Lemma clear_all :
  a ≤ s → t ≤ e → clear_spec a e m (Cleared None None [] (mapping_frees m)).
Proof.
  intros Hs Ht. subst s t. split; cbn [cl_parts cl_kept cl_new cl_release cl_freed option_list app].
  - constructor.
  - constructor.
  - intros p. split; [by intros (x & ?%not_elem_of_nil & _) |].
    intros [Hp []]. unfold mm_covers, in_range in *. lia.
  - by rewrite decide_True.
  - by intros x ?%not_elem_of_nil.
Qed.

Lemma clear_none :
  e ≤ a ∨ t ≤ a ∨ e ≤ s → clear_spec a e m (Cleared (Some m) None [] []).
Proof.
  intros Hs. subst s t. split; cbn [cl_parts cl_kept cl_new cl_release cl_freed option_list app].
  - repeat constructor; done || apply Hm.
  - repeat constructor.
  - intros p. split.
    + intros (x & ->%list_elem_of_singleton & Hx). unfold mm_covers, in_range in *. lia.
    + intros [Hp Hr]. exists m. split; [left | done].
  - pose proof (mo_pages m Hm). rewrite decide_False by (unfold wholly; lia). split; [done |].
    unfold range_entries. rewrite filter_nothing; [done |].
    eapply Forall_impl; [apply (mo_phys m Hm) |]. cbn. unfold mm_covers, in_range. lia.
  - intros x ->%list_elem_of_singleton. by left.
Qed.

End ClearMapping.

Lemma clear_mapping_spec pagenum pages m :
  mapping_ok m → 0 ≤ pagenum → 0 ≤ pages → pagenum + pages < 2 ^ 32 →
  clear_spec pagenum (pagenum + pages) m (clear_mapping pagenum pages m).
Proof.
  intros Hm Hp Hn He. unfold clear_mapping. rewrite mm_end_ok by done.
  rewrite (wrap_id 32 (pagenum + pages)) by (unfold is_u; lia). rewrite max_if, min_if.
  pose proof (mo_start m Hm). pose proof (mo_pages m Hm). pose proof (mo_end m Hm).
  rewrite !sort_pages_spec. cbv zeta.
  destruct (Z.ltb_spec (Z.max pagenum (mm_pagenum m)) (Z.min (pagenum + pages) (mm_pagenum m + mm_pages m))).
  2: { apply clear_none; [done | lia]. }
  destruct (Z.ltb_spec (mm_pagenum m) (Z.max pagenum (mm_pagenum m))),
    (Z.ltb_spec (Z.min (pagenum + pages) (mm_pagenum m + mm_pages m)) (mm_pagenum m + mm_pages m)).
  - rewrite Z.max_l, Z.min_l by lia.
    rewrite (wrap_id 32 (pagenum - _)), (wrap_id 32 (pagenum + pages - _)), (wrap_id 32 (mm_pages m - _))
      by (unfold is_u; lia).
    replace (mm_pages m - (pagenum + pages - mm_pagenum m))
      with (mm_pagenum m + mm_pages m - (pagenum + pages)) by lia.
    apply (clear_middle pagenum (pagenum + pages) m Hm); lia.
  - rewrite Z.max_l, (wrap_id 32 (pagenum - _)) by (unfold is_u; lia). apply (clear_tail pagenum (pagenum + pages) m Hm); lia.
  - rewrite Z.min_l, (wrap_id 32 (_ - (pagenum + pages))) by (unfold is_u; lia). apply (clear_head pagenum (pagenum + pages) m Hm); lia.
  - apply clear_all; lia.
Qed.

(** ** Clearing a range of the map *)

(** What a process sees of a page: the attributes of its mapping and its
    entries. *)
Definition page_view (l : list MemMapping) (p : Z)
    : option ((option Z * Z * bool * bool * bool) * list PhysMapping) :=
  (fun m => (mm_attrs m, page_entries m p)) <$> find_mapping p l.

(** The page of the file that a page is loaded from. *)
Definition file_page (m : MemMapping) (p : Z) : Z := u32 (mm_image_skip_pages m + u32 (p - mm_pagenum m)).

Lemma omap_parts (f : MemMapping → cleared) l :
  omap cl_kept (f <$> l) ++ omap cl_new (f <$> l) ≡ₚ l ≫= (fun m => cl_parts (f m)).
Proof.
  induction l as [| m l IH]; [done |]. cbn [fmap list_fmap omap list_omap mbind list_bind].
  unfold cl_parts at 1. rewrite <- IH.
  destruct (cl_kept (f m)), (cl_new (f m)); cbn [option_list app].
  - rewrite <- Permutation_middle. done.
  - done.
  - by rewrite <- Permutation_middle.
  - done.
Qed.

Lemma map_ok_perm l l' : l ≡ₚ l' → map_ok l → map_ok l'.
Proof.
  intros Hp [Hall Hap]. split; [by rewrite <- Hp | by eapply pairs_perm; [apply _ | |]].
Qed.

(** The parts of the mappings form a map, and a page that is left is in a
    part of its mapping. *)
Lemma cut_map_ok (f : MemMapping → cleared) a e l :
  map_ok l → (∀ m, m ∈ l → clear_spec a e m (f m)) →
  map_ok (l ≫= (fun m => cl_parts (f m))).
Proof.
  intros [Hall Hap] Hf. split.
  - apply Forall_forall. intros x (m & Hx & Hm)%list_elem_of_bind.
    pose proof (cs_parts _ _ _ _ (Hf m Hm)) as Hp. rewrite Forall_forall in Hp. apply (Hp x Hx).
  - clear Hall. assert (∀ m x, m ∈ l → x ∈ cl_parts (f m) → part_of m x) as Hpart.
    { intros m x Hm Hx. pose proof (cs_parts _ _ _ _ (Hf m Hm)) as Hp.
      rewrite Forall_forall in Hp. by apply Hp. }
    assert (∀ m, m ∈ l → ForallOrdPairs apart (cl_parts (f m))) as Hone by (intros m Hm; apply (Hf m Hm)).
    clear Hf. induction Hap as [| m l Hm Hap IH]; [constructor |]. cbn. apply pairs_app. split_and!.
    + apply Hone. left.
    + apply IH; intros; [apply Hpart | apply Hone]; try done; by right.
    + apply Forall_forall. intros x Hx. apply Forall_forall. intros y (m' & Hy & Hm')%list_elem_of_bind.
      rewrite Forall_forall in Hm. specialize (Hm m' Hm').
      destruct (Hpart m x ltac:(left) Hx), (Hpart m' y ltac:(by right) Hy). unfold apart in *. lia.
Qed.

Lemma find_mapping_perm p l l' : map_ok l → l ≡ₚ l' → find_mapping p l = find_mapping p l'.
Proof.
  intros Hok Hp. pose proof (map_ok_perm _ _ Hp Hok) as Hok'. apply option_eq. intros m.
  rewrite !find_mapping_spec by done. by rewrite Hp.
Qed.

(** The mapping of a page after the cut: none in the range, and else the part
    of the mapping before that has the page. *)
Lemma find_cut (f : MemMapping → cleared) a e l p :
  map_ok l → (∀ m, m ∈ l → clear_spec a e m (f m)) →
  match find_mapping p (l ≫= (fun m => cl_parts (f m))) with
  | None => in_range a e p ∨ find_mapping p l = None
  | Some x => ¬ in_range a e p ∧ ∃ m, find_mapping p l = Some m ∧ part_of m x ∧ mm_covers x p ∧
      x ∈ cl_parts (f m)
  end.
Proof.
  intros Hok Hf. pose proof (cut_map_ok f a e l Hok Hf) as Hok'.
  destruct (find_mapping p (l ≫= _)) as [x |] eqn:E.
  - apply find_mapping_spec in E as [(m & Hx & Hm)%list_elem_of_bind Hc]; [| done].
    destruct (Hf m Hm) as [Hparts _ Hcov _ _]. destruct (proj1 (Hcov p)) as [Hcm Hr]; [by eexists |].
    rewrite Forall_forall in Hparts. split; [done |]. exists m. split_and!; auto.
    by apply find_mapping_spec.
  - destruct (decide (in_range a e p)) as [| Hr]; [by left | right].
    destruct (find_mapping p l) as [m |] eqn:Em; [| done].
    apply find_mapping_spec in Em as [Hm Hc]; [| done].
    destruct (proj2 (cs_covers _ _ _ _ (Hf m Hm) p)) as (x & Hx & Hxc); [done |].
    rewrite find_mapping_none in E by done. destruct (E x); [| done].
    apply list_elem_of_bind. by exists m.
Qed.

Lemma clear_range_ok pagenum pages l :
  map_ok l → 0 ≤ pagenum → 0 ≤ pages → pagenum + pages < 2 ^ 32 →
  (∀ m, m ∈ l → clear_spec pagenum (pagenum + pages) m (clear_mapping pagenum pages m)).
Proof.
  intros [Hall _] Hp Hn He m Hm. rewrite Forall_forall in Hall. apply clear_mapping_spec; auto.
Qed.

(** ClearRange removes exactly the pages of the range.  The mappings stay
    apart; no page of the range is mapped any more and every other page has
    the attributes and the entries it had.  The entries that are removed are all
    accounted for: those of mappings that lie in the range are freed with the
    mapping, those of mappings that are cut are handed to the deferred release,
    in order and each once. *)
Theorem clear_range_correct (pagenum pages : Z) (l : list MemMapping) :
  map_ok l → 0 ≤ pagenum → 0 ≤ pages → pagenum + pages < 2 ^ 32 →
  let e := pagenum + pages in
  let '(l', release, freed) := clear_range pagenum pages l in
  map_ok l' ∧
  (∀ p, page_view l' p = if decide (in_range pagenum e p) then None else page_view l p) ∧
  release = deferred_of <$>
    (l ≫= fun m => if decide (wholly pagenum e m) then [] else range_entries pagenum e m) ∧
  freed = (l ≫= fun m => if decide (wholly pagenum e m) then mapping_frees m else []).
Proof.
  intros Hok Hp Hn He e. pose proof (clear_range_ok pagenum pages l Hok Hp Hn He) as Hf. fold e in Hf.
  unfold clear_range. pose proof (omap_parts (clear_mapping pagenum pages) l) as Hperm.
  pose proof (cut_map_ok _ _ _ _ Hok Hf) as Hcut. split_and!.
  - by eapply map_ok_perm; [symmetry |].
  - intros p. unfold page_view. rewrite (find_mapping_perm p _ _ (map_ok_perm _ _ (symmetry Hperm) Hcut) Hperm).
    pose proof (find_cut _ _ _ _ p Hok Hf) as Hc. destruct (find_mapping p (l ≫= _)) as [x |].
    + destruct Hc as (Hr & m & -> & Hpart & Hxc & _). rewrite decide_False by done. cbn. f_equal.
      destruct Hpart as [_ -> _ _ _ Hent]. by rewrite Hent.
    + case_decide; [done |]. destruct Hc as [| ->]; done.
  - clear Hperm Hcut Hok. induction l as [| m l IH]; [done |].
    cbn [fmap list_fmap concat mbind list_bind]. rewrite IH by (intros; apply Hf; by right).
    rewrite fmap_app. f_equal. pose proof (cs_release _ _ _ _ (Hf m ltac:(left))) as Hr.
    case_decide; by destruct Hr as [? ?].
  - clear Hperm Hcut Hok. induction l as [| m l IH]; [done |].
    cbn [fmap list_fmap concat mbind list_bind]. rewrite IH by (intros; apply Hf; by right).
    f_equal. pose proof (cs_release _ _ _ _ (Hf m ltac:(left))) as Hr.
    case_decide; by destruct Hr as [? ?].
Qed.

(** A private page, one of a file and one that is shared. *)
Definition example_map : list MemMapping :=
  [ MemMap None 0x80000000 16 0 0 true false false
      [PhysMap None None 0x7000 0x80000003; PhysMap None None 0x9000 0x80000008];
    MemMap (Some 1) 0x80000010 4 10 0 true true false [PhysMap (Some 5) None 0 0x80000011] ].

Lemma example_map_ok : map_ok example_map.
Proof.
  split.
  - constructor; [| constructor; [| constructor]]; split; cbn; try lia;
      unfold mm_covers; cbn; repeat constructor; cbn; lia.
  - repeat constructor; cbn; lia.
Qed.

Lemma clear_range_correct_witness :
  page_view (fst (fst (clear_range 0x80000002 4 example_map))) 0x80000003 = None ∧
  page_view (fst (fst (clear_range 0x80000002 4 example_map))) 0x80000008 = page_view example_map 0x80000008.
Proof.
  pose proof (clear_range_correct 0x80000002 4 example_map) as H. cbv zeta in H.
  destruct (clear_range 0x80000002 4 example_map) as [[l' release] freed].
  destruct H as (_ & H & _); [apply example_map_ok | done | done | done |].
  cbn [fst]. rewrite !H. by vm_compute.
Defined.

(** the deferred release of ClearRange frees the wrong memory.  The byte
    address of a page is stored as a 32-bit page number, so for every private
    page of a mapping that is cut, at an address below 2^40, the address
    that is freed is not the address of the page: the page is lost, and if the
    lower half of the address is not 0, a page of somebody else is freed. *)
Theorem deferred_release_wrong (p : PhysMapping) :
  pm_data p = None → pm_cow p = None → 0 < pm_phys_page p < 2 ^ 40 →
  deferred_free (deferred_of p) =
    (if u32 (pm_phys_page p) =? 0 then None else Some (u32 (pm_phys_page p) * 4096)) ∧
  deferred_free (deferred_of p) ≠ Some (pm_phys_page p).
Proof.
  intros Hd Hc Hp. unfold deferred_free, deferred_of. cbn [dr_data dr_cow dr_pagenum]. rewrite Hd, Hc.
  assert (0 ≤ u32 (pm_phys_page p) < 2 ^ 32) as Hu by (by apply wrap_range).
  rewrite Z.shiftl_mul_pow2, (wrap_id 64) by (unfold is_u; lia). change (2 ^ 12) with 4096.
  split; [done |]. destruct (u32 (pm_phys_page p) =? 0); [done |]. intros [= E].
  unfold wrap in E, Hu. pose proof (Z.div_mod (pm_phys_page p) (2 ^ 32)).
  assert (0 ≤ pm_phys_page p / 2 ^ 32 < 256) by
    (split; [apply Z.div_pos; lia | apply Z.div_lt_upper_bound; lia]).
  lia.
Qed.

Lemma deferred_release_wrong_witness :
  deferred_free (deferred_of (PhysMap None None 0x7000 0x80000003)) = Some 0x7000000.
Proof.
  destruct (deferred_release_wrong (PhysMap None None 0x7000 0x80000003)) as [E _];
    [done | done | cbn; lia |]. rewrite E. by vm_compute.
Defined.

(** ClearRange shifts the file under the pages behind the range.  When
    the front of a mapping of a file, or a range in its middle, is removed, the
    pages behind the range are loaded from pages of the file that are earlier
    by the number of pages between the old and the new start. *)
Theorem clear_range_shifts_file (pagenum pages p : Z) (l : list MemMapping) (m : MemMapping) :
  map_ok l → 0 ≤ pagenum → 0 ≤ pages → pagenum + pages < 2 ^ 32 →
  find_mapping p l = Some m → mm_pagenum m < pagenum + pages ≤ p → pagenum < mm_pagenum m + mm_pages m →
  0 < pages → 0 ≤ mm_image_skip_pages m → mm_image_skip_pages m + mm_pages m < 2 ^ 32 →
  let '(l', _, _) := clear_range pagenum pages l in
  ∃ x, find_mapping p l' = Some x ∧ mm_image x = mm_image m ∧
    file_page x p = file_page m p - (pagenum + pages - mm_pagenum m).
Proof.
  intros Hok Hp Hn He Hm Hcut Ho Hpos Hs Hs2.
  pose proof (clear_range_ok pagenum pages l Hok Hp Hn He) as Hf. unfold clear_range.
  pose proof (omap_parts (clear_mapping pagenum pages) l) as Hperm.
  pose proof (cut_map_ok _ _ _ _ Hok Hf) as Hcutok.
  rewrite (find_mapping_perm p _ _ (map_ok_perm _ _ (symmetry Hperm) Hcutok) Hperm).
  pose proof (find_cut _ _ _ _ p Hok Hf) as Hc. destruct (find_mapping p (l ≫= _)) as [x |].
  2: { destruct Hc as [Hr | Hx]; [unfold in_range in Hr; lia | congruence]. }
  destruct Hc as (_ & m' & Hm' & Hpart & Hxc & Hx). rewrite Hm in Hm'. injection Hm' as <-.
  assert (m ∈ l) as Hml by (by apply find_mapping_spec in Hm as [? _]).
  assert (mm_covers m p) as Hmc by (by apply find_mapping_spec in Hm as [_ ?]).
  assert (mm_pagenum x = pagenum + pages) as Ex.
  { destruct (cs_start _ _ _ _ (Hf m Hml) x Hx) as [Es |]; [| done]. exfalso.
    assert (mm_covers x (Z.max pagenum (mm_pagenum m))) as Hbad
      by (unfold mm_covers in *; rewrite Es in *; lia).
    destruct (proj1 (cs_covers _ _ _ _ (Hf m Hml) (Z.max pagenum (mm_pagenum m)))) as [_ Hr];
      [by exists x |]. unfold in_range in Hr. lia. }
  exists x. destruct Hpart as [_ Hat Hsk _ _ _]. injection Hat as Hi _ _ _ _.
  split_and!; [done | done |]. unfold file_page. rewrite Hsk, Ex. unfold mm_covers in *.
  assert (mapping_ok m) as [? ? ? _] by (destruct Hok as [Hall _]; rewrite Forall_forall in Hall; auto).
  rewrite (wrap_id 32 (p - (pagenum + pages))), (wrap_id 32 (p - mm_pagenum m)) by (unfold is_u; lia).
  rewrite !(wrap_id 32) by (unfold is_u; lia). lia.
Qed.

Lemma clear_range_shifts_file_witness :
  let l' := fst (fst (clear_range 0x80000010 2 example_map)) in
  (fun m => file_page m 0x80000013) <$> find_mapping 0x80000013 example_map = Some 13 ∧
  (fun m => file_page m 0x80000013) <$> find_mapping 0x80000013 l' = Some 11.
Proof.
  pose proof (clear_range_shifts_file 0x80000010 2 0x80000013 example_map
    (MemMap (Some 1) 0x80000010 4 10 0 true true false [PhysMap (Some 5) None 0 0x80000011])) as H.
  split; [by vm_compute |].
  destruct (clear_range 0x80000010 2 example_map) as [[l' release] freed]. cbn [fst].
  destruct H as (x & E & _ & Hx); try done; try (cbn; lia); [apply example_map_ok |].
  rewrite E. cbn [fmap option_fmap option_map]. rewrite Hx. by vm_compute.
Defined.
