(* ===== verification/ProcMemTheorems.v ===== *)
(** Properties of the memory map of a process: the search for free address
    space, and the snapshots that keep the pages of a removed range until the
    threads that may still use them have left. *)
From stdpp Require Import sorting.
From S2P Require Import Prelude ProcMem.

Local Open Scope Z_scope.

(** * Free address space *)

(** Areas in ascending order that do not overlap. *)
Definition area_before (a b : MemoryArea) : Prop := area_end a ≤ area_start b.

Definition area_has (a : MemoryArea) (p : Z) : Prop := area_start a ≤ p < area_end a.

Definition area_full (a : MemoryArea) : Prop := area_ok a ∧ area_start a < area_end a.

Lemma highLim_eq : highLim = 0xFFFFFFFF.
Proof. by vm_compute. Qed.

Lemma lowLim_eq : lowLim = 0x80000000.
Proof. by vm_compute. Qed.

Lemma merge_areas_none area l :
  Forall (fun a => area_Overlaps a area = false) l → merge_areas area l = (area, l).
Proof. induction 1 as [| a l Ha Hl IH]; [done |]. cbn [merge_areas]. by rewrite Ha, IH. Qed.

(** Inserting an area that is apart from the others. *)
Lemma insert_area area l :
  area_full area → Forall area_full l → StronglySorted area_before l →
  Forall (fun a => area_before a area ∨ area_before area a) l →
  ∃ l', insert_before (fun a b => area_start a <? area_start b) (length l) 0
          (Z.of_nat (length l)) area (l ++ [Area 0 0]) = Ret l' ∧
    l' ≡ₚ area :: l ∧ StronglySorted area_before l'.
Proof.
  intros Harea Hall Hs Hap.
  destruct (insert_before_spec (fun a b => area_start a <? area_start b) [] l area (Area 0 0) (length l))
    as (c & d & -> & Hc & Hd & He); [done |].
  exists (c ++ area :: d). split_and!; [exact He | by rewrite <- Permutation_middle |].
  clear He. apply Forall_app in Hap as [Hap1 Hap2]. apply Forall_app in Hall as [Hall1 Hall2].
  destruct Harea as [_ Hne]. unfold area_full, area_before in *.
  induction Hc as [| y c Hy Hc IH]; cbn [app] in *.
  - constructor; [done |]. destruct d as [| y d]; [constructor |]. bsimp.
    apply StronglySorted_inv in Hs as [_ Hyd]. apply Forall_cons in Hap2 as [Hy _].
    apply Forall_cons in Hall2 as [[_ Hyne] _].
    constructor; [lia |]. eapply Forall_impl; [exact Hyd |]. cbn. lia.
  - apply StronglySorted_inv in Hs as [Hs Hyd]. apply Forall_cons in Hap1 as [Hy1 Hap1].
    apply Forall_cons in Hall1 as [[_ Hyne] Hall1]. bsimp. constructor; [by apply IH |].
    apply Forall_app in Hyd as [? ?]. apply Forall_app. split; [done |]. constructor; [lia | done].
Qed.

Lemma area_of_mapping m : mapping_ok m → area_full (mapping_area m).
Proof.
  intros Hm. split; [by apply mapping_area_ok |]. cbn. rewrite mm_end_ok by done. destruct Hm. lia.
Qed.

Lemma apart_areas m m' :
  mapping_ok m → mapping_ok m' → apart m m' →
  area_before (mapping_area m) (mapping_area m') ∨ area_before (mapping_area m') (mapping_area m).
Proof.
  intros Hm Hm' Ha. unfold area_before. cbn. rewrite !mm_end_ok by done. exact Ha.
Qed.

Lemma used_areas_spec l seen areas :
  map_ok (seen ++ l) → areas ≡ₚ mapping_area <$> seen → StronglySorted area_before areas →
  ∃ used, used_areas l areas = Ret used ∧ used ≡ₚ mapping_area <$> (seen ++ l) ∧
    StronglySorted area_before used.
Proof.
  revert seen areas. induction l as [| m l IH]; intros seen areas Hok Hperm Hs; cbn [used_areas].
  { exists areas. by rewrite app_nil_r. }
  pose proof Hok as [Hall Hap]. apply Forall_app in Hall as [Hseen [Hm Hl]%Forall_cons].
  apply pairs_app in Hap as (_ & _ & Hcross).
  assert (Forall (fun a => area_before a (mapping_area m) ∨ area_before (mapping_area m) a) areas) as Hsep.
  { rewrite Hperm. apply Forall_fmap, Forall_forall. intros m' Hm'. cbn.
    rewrite Forall_forall in Hcross, Hseen. specialize (Hcross m' Hm').
    apply Forall_cons in Hcross as [Hx _]. apply apart_areas; auto. }
  assert (Forall area_full areas) as Hfull.
  { rewrite Hperm. apply Forall_fmap. eapply Forall_impl; [exact Hseen |]. apply area_of_mapping. }
  rewrite merge_areas_none.
  2: { rewrite Forall_forall in Hsep, Hfull |- *. intros a Ha. destruct (Hfull a Ha) as [Hok1 ?].
       destruct (area_of_mapping m Hm) as [? ?]. specialize (Hsep a Ha). unfold area_before in *.
       rewrite area_Overlaps_spec by done. apply Z.ltb_ge. lia. }
  destruct (insert_area (mapping_area m) areas) as (l' & -> & Hp' & Hs'); try done;
    [by apply area_of_mapping |]. cbn [mbind outcome_bind].
  destruct (IH (seen ++ [m]) l') as (used & Hu & Hpu & Hsu); [by rewrite <- (assoc_L (++)) | | done |].
  { rewrite Hp', fmap_app. cbn. rewrite <- Permutation_cons_append. by f_equiv. }
  exists used. rewrite <- (assoc_L (++)) in Hpu. done.
Qed.

(** The gaps between areas in order: they are free, and every free interval
    lies in one of them. *)
Lemma free_areas_spec start l :
  StronglySorted area_before l → Forall area_full l → 0 ≤ start →
  (∀ g, g ∈ free_areas start l → start ≤ area_start g < area_end g ∧ area_end g ≤ highLim ∧
     ∀ p a, area_has g p → a ∈ l → ¬ area_has a p) ∧
  (∀ x y, start ≤ x < y → y ≤ highLim → (∀ p a, x ≤ p < y → a ∈ l → ¬ area_has a p) →
     ∃ g, g ∈ free_areas start l ∧ area_start g ≤ x ∧ y ≤ area_end g).
Proof.
  intros Hs. revert start. induction Hs as [| a l Hs IH Ha]; intros start Hfull Hstart; cbn [free_areas].
  { split.
    - intros g. ztest; [| by intros ?%not_elem_of_nil]. intros ->%list_elem_of_singleton. cbn.
      split_and!; [lia.. |]. by intros p a _ ?%not_elem_of_nil.
    - intros x y Hxy Hy _. exists (Area start highLim). rewrite (proj2 (Z.ltb_lt _ _)) by lia.
      split; [left | cbn; lia]. }
  apply Forall_cons in Hfull as [[(? & ? & ?) Hne] Hfull]. rewrite max_if.
  destruct (IH (Z.max start (area_end a)) Hfull ltac:(lia)) as [IH1 IH2].
  unfold area_before, area_has in *. rewrite Forall_forall in Ha. split.
  - intros g [Hg | Hg]%elem_of_app.
    + revert Hg. ztest; [| by intros ?%not_elem_of_nil]. intros ->%list_elem_of_singleton. cbn.
      split_and!; [lia | lia | rewrite highLim_eq; lia |].
      intros p b Hp [-> | Hb]%elem_of_cons; [lia |]. specialize (Ha b Hb). lia.
    + destruct (IH1 g Hg) as (? & ? & Hfree). split_and!; [lia | lia | done |].
      intros p b Hp [-> | Hb]%elem_of_cons; [lia | by eapply Hfree].
  - intros x y Hxy Hy Hfree. destruct (decide (y ≤ area_start a)).
    + exists (Area start (area_start a)). rewrite (proj2 (Z.ltb_lt _ _)) by lia.
      split; [left | cbn; lia].
    + assert (area_end a ≤ x).
      { destruct (decide (area_end a ≤ x)); [done |]. exfalso.
        eapply (Hfree (Z.max x (area_start a)) a); [lia | left | lia]. }
      destruct (IH2 x y) as (g & Hg & ?); [lia | done | |].
      { intros p b Hp Hb. apply Hfree; [done | by right]. }
      exists g. split; [apply elem_of_app; by right | done].
Qed.

Lemma choose_area_spec (key : MemoryArea → Z) pages best l :
  let r := choose_area (fun a b => key a <? key b) pages best l in
  let fits a := pages ≤ u32 (area_end a - area_start a) in
  (r = None → best = None ∧ ∀ a, a ∈ l → ¬ fits a) ∧
  (∀ a, r = Some a → (best = Some a ∨ (a ∈ l ∧ fits a)) ∧
     (∀ b, best = Some b → key a ≤ key b) ∧ ∀ b, b ∈ l → fits b → key a ≤ key b).
Proof.
  revert best. induction l as [| x l IH]; intros best; cbn [choose_area]; cbv zeta.
  { split; [intros ->; split; [done |]; by intros a ?%not_elem_of_nil |].
    intros a ->. split_and!; [by left | intros b [= ->]; lia | by intros b ?%not_elem_of_nil]. }
  set (fits a := pages ≤ u32 (area_end a - area_start a)).
  set (best' := if pages <=? u32 (area_end x - area_start x) then
    match best with None => Some x | Some b => if key x <? key b then Some x else Some b end else best).
  destruct (IH best') as [H1 H2]. cbv zeta in H1, H2. fold fits in H1, H2.
  assert ((best' = None → best = None ∧ ¬ fits x) ∧
    (∀ a, best' = Some a → (best = Some a ∨ (a = x ∧ fits x)) ∧
       (∀ b, best = Some b → key a ≤ key b) ∧ (fits x → key a ≤ key x))) as [Hn Hb].
  { unfold best', fits. destruct (Z.leb_spec pages (u32 (area_end x - area_start x))).
    - destruct best as [b |]; [destruct (Z.ltb_spec (key x) (key b)) |]; (split; [done |]); intros a [= <-].
      + split_and!; [by right | intros ? [= <-]; lia | lia].
      + split_and!; [by left | intros ? [= <-]; lia | lia].
      + split_and!; [by right | done | lia].
    - split; [intros ->; split; [done | lia] |]. intros a ->.
      split_and!; [by left | intros ? [= <-]; lia | lia]. }
  split.
  - intros Hr. destruct (H1 Hr) as [Hb' Hl]. destruct (Hn Hb') as [-> Hx]. split; [done |].
    intros a [-> | Ha]%elem_of_cons; auto.
  - intros a Hr. destruct (H2 a Hr) as (Hin & Hle & Hl).
    assert (∀ b, best' = Some b → (∀ b0, best = Some b0 → key a ≤ key b0) ∧ (fits x → key a ≤ key x)) as Hall.
    { intros b Eb. destruct (Hb b Eb) as (_ & Hb1 & Hb2). specialize (Hle b Eb). split.
      - intros b0 E0. specialize (Hb1 b0 E0). lia.
      - intros Hf. specialize (Hb2 Hf). lia. }
    assert (best' = None → best = None ∧ ¬ fits x) as Hn' by done.
    split_and!.
    + destruct Hin as [Hin | [Hin Hf]]; [| right; split; [by right | done]].
      destruct (Hb a Hin) as ([| [-> Hf]] & _); [by left | right; split; [left | done]].
    + intros b E. destruct best' as [b' |]; [by eapply Hall | destruct (Hn' eq_refl); congruence].
    + intros b [-> | Hb']%elem_of_cons Hf; [| by apply Hl].
      destruct best' as [b' |]; [by eapply Hall | by destruct (Hn' eq_refl)].
Qed.

(** [pages] pages from [x] on are in the range for user mappings and not
    mapped. *)
Definition free_at (l : list MemMapping) (pages x : Z) : Prop :=
  lowLim ≤ x ∧ x + pages ≤ highLim ∧ ∀ p, x ≤ p < x + pages → find_mapping p l = None.

(** The free areas of a map: [free_at] is lying in one of them. *)
Lemma FindFreeMemoryAreas_spec l :
  map_ok l →
  ∃ fr, FindFreeMemoryAreas l = Ret fr ∧
    Forall (fun g => lowLim ≤ area_start g < area_end g ∧ area_end g ≤ highLim) fr ∧
    ∀ pages x, 0 < pages →
      free_at l pages x ↔ ∃ g, g ∈ fr ∧ area_start g ≤ x ∧ x + pages ≤ area_end g.
Proof.
  intros Hok. destruct (used_areas_spec l [] []) as (used & Hu & Hp & Hs);
    [done | done | constructor |]. cbn [app] in Hp.
  unfold FindFreeMemoryAreas. rewrite Hu. cbn [mbind outcome_bind].
  assert (Forall area_full used) as Hfull.
  { rewrite Hp. apply Forall_fmap. eapply Forall_impl; [apply Hok |]. apply area_of_mapping. }
  assert (∀ p, find_mapping p l = None ↔ ∀ a, a ∈ used → ¬ area_has a p) as Hnone.
  { intros p. rewrite find_mapping_none by done. destruct Hok as [Hall _]. rewrite Forall_forall in Hall.
    assert (∀ m, m ∈ l → mm_covers m p ↔ area_has (mapping_area m) p) as Hc.
    { intros m Hm. unfold area_has. cbn. by rewrite mm_end_ok by auto. }
    split.
    - intros Hn a Ha. rewrite Hp in Ha. apply list_elem_of_fmap in Ha as (m & -> & Hm).
      rewrite <- Hc by done. by apply Hn.
    - intros Hn m Hm. rewrite Hc by done. apply Hn. rewrite Hp. apply list_elem_of_fmap. by exists m. }
  destruct (free_areas_spec lowLim used Hs Hfull) as [H1 H2]; [by rewrite lowLim_eq |].
  exists (free_areas lowLim used). split_and!; [done | |].
  - apply Forall_forall. intros g Hg. destruct (H1 g Hg) as (? & ? & _). done.
  - intros pages x Hpos. split.
    + intros (Hlo & Hhi & Hfree). apply H2; [lia | done |].
      intros p a Hr Ha. apply (proj1 (Hnone p)); [| done]. apply Hfree. lia.
    + intros (g & Hg & Hx & Hy). destruct (H1 g Hg) as (? & ? & Hfree).
      split_and!; [lia | lia |]. intros p Hr. apply Hnone. intros a Ha. eapply Hfree; [| done].
      unfold area_has. lia.
Qed.

(** the search for address space is sound and complete.  FindFree and
    FindFreeStart return 0 exactly if there is no run of that many free pages
    between the limits; else the pages at the address returned are free and
    within the limits, so that IsInRange, IsFree and the test of Map accept
    them, and FindFreeStart returns the lowest such address. *)
Theorem find_free_correct (l : list MemMapping) (pages : Z) :
  map_ok l → 1 ≤ pages < 2 ^ 31 →
  ∃ r s, FindFree pages l = Ret r ∧ FindFreeStart pages l = Ret s ∧
    ((r = 0 ∧ s = 0 ∧ ∀ x, ¬ free_at l pages x) ∨
     (free_at l pages r ∧ free_at l pages s ∧ (∀ x, free_at l pages x → s ≤ x) ∧
      IsInRange r pages = true ∧ map_IsFree r pages l = true ∧ CheckMapOverlap r pages l = true)).
Proof.
  intros Hok Hn. destruct (FindFreeMemoryAreas_spec l Hok) as (fr & Hf & Hall & Hfree).
  unfold FindFree, FindFreeStart. rewrite Hf. cbn [mbind outcome_bind].
  rewrite lowLim_eq, highLim_eq in Hall.
  assert (∀ g, g ∈ fr → u32 (area_end g - area_start g) = area_end g - area_start g) as Hlen.
  { intros g Hg. rewrite Forall_forall in Hall. specialize (Hall g Hg). apply wrap_id. unfold is_u. lia. }
  destruct (choose_area_spec (fun a => u32 (area_end a - area_start a)) pages None fr) as [Hr1 Hr2].
  destruct (choose_area_spec area_start pages None fr) as [Hs1 Hs2]. cbv zeta in *.
  eexists _, _. split; [done |]. split; [done |].
  destruct (choose_area (fun a b => area_start a <? area_start b) pages None fr) as [s |] eqn:Es.
  - right. destruct (Hs2 s eq_refl) as ([| [Hs Hsf]] & _ & Hmin); [done |].
    destruct (choose_area _ pages None fr) as [r |] eqn:Er in |- *.
    2: { destruct (Hr1 Er) as [_ Hno]. by destruct (Hno s Hs). }
    destruct (Hr2 r Er) as ([| [Hr Hrf]] & _); [done |].
    rewrite Forall_forall in Hall. pose proof (Hall r Hr) as Hra. pose proof (Hall s Hs) as Hsa.
    rewrite (Hlen s Hs) in Hsf. rewrite (Hlen r Hr) in Hrf.
    rewrite (wrap_id 32 (area_end r - pages)) by (unfold is_u; lia).
    assert (free_at l pages (area_end r - pages)) as Hfr.
    { apply Hfree; [lia |]. exists r. split; [done | lia]. }
    assert (CheckMapOverlap (area_end r - pages) pages l = true) as Hchk.
    { apply CheckMapOverlap_spec; [apply Hok | lia.. |]. intros p Hp.
      apply find_mapping_none; [done |]. apply Hfr. done. }
    split_and!; [done | | | | | done].
    + apply Hfree; [lia |]. exists s. split; [done | lia].
    + intros x Hx. apply Hfree in Hx as (g & Hg & Hgx & Hgy); [| lia].
      assert (area_start s ≤ area_start g); [| lia]. apply Hmin; [done |]. rewrite (Hlen g Hg). lia.
    + destruct Hfr as (? & ? & _). unfold IsInRange. rewrite (proj2 (Z.ltb_ge _ _)) by done.
      apply andb_true_iff. rewrite !Z.leb_le. done.
    + rewrite map_IsFree_loop_spec; [done | apply Hok | lia.. ].
  - left. destruct (Hs1 eq_refl) as [_ Hno].
    destruct (choose_area _ pages None fr) as [r |] eqn:Er in |- *.
    { destruct (Hr2 r Er) as ([| [Hr Hrf]] & _); [done | by destruct (Hno r Hr)]. }
    split_and!; [done | done |]. intros x (g & Hg & Hgx & Hgy)%Hfree; [| lia].
    destruct (Hno g Hg). rewrite (Hlen g Hg). lia.
Qed.

Lemma find_free_correct_witness :
  FindFreeStart 3 example_map = Ret 0x80000014 ∧ FindFree 3 example_map = Ret 0xFFFFFFFC.
Proof.
  destruct (find_free_correct example_map 3) as (r & s & Hr & Hs & _); [apply example_map_ok | lia |].
  vm_compute in Hr, Hs. injection Hr as <-. injection Hs as <-. split; by vm_compute.
Defined.

(** * Snapshots *)

(** A thread enters user mode, or leaves it; a range is cleared whose pages
    are the vector [release]. *)
Inductive snap_event := SnapEnter | SnapLeave (serial : Z) | SnapClear (release : Z).

Definition snap_step (e : snap_event) (s : snapshots) : snapshots :=
  match e with
  | SnapEnter => snd (snapshot_barrier s)
  | SnapLeave serial => barrier_Release serial s
  | SnapClear release => defer_release release s
  end.

Definition snap_run (es : list snap_event) (s : snapshots) : snapshots :=
  foldl (fun s e => snap_step e s) s es.

(** The serials of the threads that are in user mode. *)
Definition live (s : snapshots) : list Z := sn_serial <$> memoryMapSnapshots s.

(** A vector is referenced by a snapshot. *)
Definition held (release : Z) (s : snapshots) : Prop :=
  ∃ sn, sn ∈ memoryMapSnapshots s ∧ release ∈ sn_deferredRelease sn.

Definition snap_sorted (l : list MemoryMapSnapshot) : Prop :=
  StronglySorted (fun a b => sn_serial a < sn_serial b) l.

Definition serials_ok (s : snapshots) : Prop :=
  snap_sorted (memoryMapSnapshots s) ∧
  Forall (fun sn => sn_serial sn ≤ memoryMapSerial s) (memoryMapSnapshots s).

Section Held.
Context (b k : Z).

(** The vector [b] is held by the last of the snapshots up to serial [k]. *)
Definition last_up_to (serial : Z) (next : option MemoryMapSnapshot) : Prop :=
  serial ≤ k ∧ match next with Some sn => k < sn_serial sn | None => True end.

Fixpoint held_ok (l : list MemoryMapSnapshot) : Prop :=
  match l with
  | [] => True
  | sn :: l => (b ∈ sn_deferredRelease sn ↔ last_up_to (sn_serial sn) (head l)) ∧ held_ok l
  end.

Lemma held_ok_spec l :
  snap_sorted l → held_ok l →
  (∃ sn, sn ∈ l ∧ b ∈ sn_deferredRelease sn) ↔ ∃ sn, sn ∈ l ∧ sn_serial sn ≤ k.
Proof.
  intros Hs. induction Hs as [| sn l Hs IH Hsn]; cbn; [by split; intros (? & ?%not_elem_of_nil & _) |].
  intros [Hb Hok]. split.
  - intros (x & [-> | Hx]%elem_of_cons & Hbx).
    + exists sn. split; [left |]. by apply Hb in Hbx as [? _].
    + destruct (proj1 (IH Hok)) as (y & Hy & ?); [by exists x |]. exists y. split; [by right | done].
  - intros (x & Hx & Hk). destruct l as [| y l].
    { apply list_elem_of_singleton in Hx as ->. exists sn. split; [left |]. by apply Hb. }
    destruct (decide (sn_serial y ≤ k)).
    { destruct (proj2 (IH Hok)) as (z & ? & ?); [exists y; split; [left | done] |].
      exists z. split; [by right | done]. }
    exists sn. split; [left |]. apply Hb. apply elem_of_cons in Hx as [-> | Hx]; [split; [done | cbn; lia] |].
    exfalso. apply StronglySorted_inv in Hs as [_ Hy]. rewrite Forall_forall in Hy.
    apply elem_of_cons in Hx as [-> | Hx]; [lia |]. specialize (Hy x Hx). lia.
Qed.

(** Only the serials and whether [b] is held matter. *)
Lemma held_ok_same l l' :
  Forall2 (fun sn sn' => sn_serial sn = sn_serial sn' ∧
    (b ∈ sn_deferredRelease sn ↔ b ∈ sn_deferredRelease sn')) l l' →
  held_ok l → held_ok l'.
Proof.
  induction 1 as [| sn sn' l l' [Hs Hb] Hl IH]; [done |]. cbn. intros [H Hok]. split; [| by apply IH].
  rewrite <- Hb, H, <- Hs. destruct Hl as [| y y' l l' [Hy _] _]; [done |].
  unfold last_up_to. cbn. by rewrite Hy.
Qed.

Lemma held_ok_enter l serial : k < serial → held_ok l → held_ok (l ++ [Snapshot [] serial]).
Proof.
  intros Hk. induction l as [| sn l IH]; cbn.
  - intros _. split; [| done]. split; [by intros ?%not_elem_of_nil |]. intros [? _]. cbn in *. lia.
  - intros [Hb Hok]. split; [| by apply IH]. rewrite Hb. destruct l; [| done].
    unfold last_up_to. cbn. split; intros [? _]; done.
Qed.

Lemma held_ok_release serial previous l :
  snap_sorted (previous :: l) → held_ok (previous :: l) →
  held_ok (release_snapshot serial previous l) ∧
  sn_serial <$> head (release_snapshot serial previous l) = Some (sn_serial previous).
Proof.
  revert previous. induction l as [| sn l IH]; intros previous Hs Hok; [done |].
  apply StronglySorted_inv in Hs as [Hs Hp]. destruct Hok as [Hb Hok]. cbn [release_snapshot].
  destruct (Z.eqb_spec (sn_serial sn) serial) as [_ | _].
  - split; [| done]. cbn [held_ok sn_deferredRelease sn_serial]. destruct Hok as [Hb' Hok]. split; [| done].
    rewrite elem_of_app, Hb, Hb'. unfold last_up_to. cbn [head].
    apply Forall_cons in Hp as [? _]. apply StronglySorted_inv in Hs as [_ Hh].
    destruct l as [| z l]; cbn [head].
    + destruct (decide (k < sn_serial sn)); split; [intros [?|?] | | intros [?|?] |]; lia.
    + apply Forall_cons in Hh as [? _]. lia.
  - destruct (IH sn Hs Hok) as [IH1 IH2]. split; [| done]. cbn [held_ok]. split; [| done].
    rewrite Hb. cbn [head]. destruct (release_snapshot serial sn l) as [| z l']; [done |].
    cbn in IH2. injection IH2 as E. unfold last_up_to. cbn [head]. by rewrite E.
Qed.

End Held.

(** Release takes the serial out of the list and keeps the others in order. *)
Lemma release_live serial previous l :
  snap_sorted (previous :: l) → sn_serial previous ≠ serial →
  sn_serial <$> release_snapshot serial previous l =
  filter (fun x => x ≠ serial) (sn_serial <$> (previous :: l)).
Proof.
  revert previous. induction l as [| sn l IH]; intros previous Hs Hne.
  { cbn [release_snapshot fmap list_fmap]. by rewrite filter_cons_True. }
  apply StronglySorted_inv in Hs as [Hs _]. cbn [release_snapshot].
  destruct (Z.eqb_spec (sn_serial sn) serial) as [E | Hne'].
  - rewrite !fmap_cons, filter_cons_True by done. f_equal. rewrite filter_cons_False by (cbn; congruence).
    cbn. symmetry. apply StronglySorted_inv in Hs as [_ Hl]. rewrite E in Hl. clear IH.
    induction Hl as [| x l Hx Hl IHl]; [done |]. cbn [fmap list_fmap].
    rewrite filter_cons_True by (cbn in Hx; lia). by rewrite IHl.
  - rewrite (fmap_cons _ previous), (fmap_cons _ previous), filter_cons_True by done.
    f_equal. by apply IH.
Qed.

(** ** Steps *)

(** The state with respect to a vector [b] cleared at serial [k], when the
    threads [was] were in user mode. *)
Record snap_inv (b k : Z) (was : list Z) (s : snapshots) : Prop := {
  si_serials : serials_ok s;
  si_held : held_ok b k (memoryMapSnapshots s);
  si_was : ∀ x, x ∈ live s → x ≤ k → x ∈ was;
  si_k : k ≤ memoryMapSerial s
}.

Lemma sorted_live l : snap_sorted l ↔ StronglySorted Z.lt (sn_serial <$> l).
Proof.
  induction l as [| sn l IH]; cbn; [split; constructor |].
  split; intros [H1 H2]%StronglySorted_inv.
  - constructor; [by apply IH |]. apply Forall_fmap. exact H2.
  - constructor; [by apply IH |]. exact (proj1 (Forall_fmap sn_serial (Z.lt (sn_serial sn)) l) H2).
Qed.

Lemma serials_ok_enter s : serials_ok s → serials_ok (snd (snapshot_barrier s)).
Proof.
  intros [Hs Hall]. split; cbn.
  - apply sorted_live. rewrite fmap_app. apply sorted_live in Hs. clear -Hs Hall.
    induction (memoryMapSnapshots s) as [| sn l IH]; [repeat constructor |]. cbn in *.
    apply StronglySorted_inv in Hs as [Hs Hsn]. apply Forall_cons in Hall as [Hle Hall].
    constructor; [by apply IH |]. apply Forall_app. split; [done | repeat constructor; lia].
  - apply Forall_app. split; [| repeat constructor; cbn; lia].
    eapply Forall_impl; [exact Hall |]. cbn. lia.
Qed.

Lemma release_live_all serial s :
  serials_ok s →
  live (barrier_Release serial s) = filter (fun x => x ≠ serial) (live s) ∧
  memoryMapSerial (barrier_Release serial s) = memoryMapSerial s.
Proof.
  intros [Hs _]. unfold barrier_Release, live. destruct (memoryMapSnapshots s) as [| sn l] eqn:E.
  { by rewrite E. }
  destruct (Z.eqb_spec (sn_serial sn) serial) as [Es | Hne]; cbn [memoryMapSnapshots memoryMapSerial].
  - split; [| done]. rewrite fmap_cons, filter_cons_False by naive_solver.
    apply StronglySorted_inv in Hs as [_ Hl]. rewrite Es in Hl. clear E.
    induction Hl as [| x l Hx Hl IHl]; [done |]. cbn [fmap list_fmap].
    rewrite filter_cons_True by lia. by rewrite <- IHl.
  - split; [| done]. by apply release_live.
Qed.

Lemma serials_ok_leave serial s : serials_ok s → serials_ok (barrier_Release serial s).
Proof.
  intros Hs. destruct (release_live_all serial s Hs) as [Hl Hm]. destruct Hs as [Hs Hall]. split.
  - apply sorted_live. change (StronglySorted Z.lt (live (barrier_Release serial s))). rewrite Hl.
    apply sorted_live in Hs. fold (live s) in Hs. clear -Hs.
    induction Hs as [| x l Hs IH Hx]; [constructor |]. destruct (decide (x = serial)).
    + by rewrite filter_cons_False by naive_solver.
    + rewrite filter_cons_True by done. constructor; [done |]. rewrite Forall_forall in Hx |- *.
      intros y [_ Hy]%list_elem_of_filter. by apply Hx.
  - rewrite Hm. apply Forall_forall. intros sn Hsn.
    assert (sn_serial sn ∈ live (barrier_Release serial s)) as Hi by (by apply list_elem_of_fmap_2).
    rewrite Hl in Hi. apply list_elem_of_filter in Hi as [_ (sn' & -> & Hi)%list_elem_of_fmap].
    rewrite Forall_forall in Hall. by apply Hall.
Qed.

(** Adding a vector to the last snapshot changes no serial. *)
Lemma defer_release_spec r s :
  memoryMapSerial (defer_release r s) = memoryMapSerial s ∧
  ((memoryMapSnapshots s = [] ∧ defer_release r s = s) ∨
   ∃ l sn, memoryMapSnapshots s = l ++ [sn] ∧
     memoryMapSnapshots (defer_release r s) =
     l ++ [Snapshot (sn_deferredRelease sn ++ [r]) (sn_serial sn)]).
Proof.
  unfold defer_release. destruct (last (memoryMapSnapshots s)) as [sn |] eqn:E.
  - split; [done |]. right. apply last_Some in E as [l El]. exists l, sn. split; [done |]. rewrite El. cbn.
    rewrite length_app. cbn. by replace (length l + 1 - 1)%nat with (length l) by lia; rewrite take_app_length.
  - split; [done |]. left. apply last_None in E. done.
Qed.

Lemma defer_live r s : live (defer_release r s) = live s.
Proof.
  unfold live. destruct (defer_release_spec r s) as [_ [[_ ->] | (l & sn & -> & ->)]]; [done |].
  by rewrite !fmap_app.
Qed.

Lemma serials_ok_defer r s : serials_ok s → serials_ok (defer_release r s).
Proof.
  intros [Hs Hall]. split.
  - apply sorted_live. change (StronglySorted Z.lt (live (defer_release r s))). rewrite defer_live.
    by apply sorted_live in Hs.
  - destruct (defer_release_spec r s) as [-> [[_ ->] | (l & sn & E & ->)]]; [done |].
    rewrite E in Hall. apply Forall_app in Hall as [? [? _]%Forall_cons].
    apply Forall_app. split; [done | by repeat constructor].
Qed.

Lemma held_ok_defer_other b k r s :
  r ≠ b → held_ok b k (memoryMapSnapshots s) → held_ok b k (memoryMapSnapshots (defer_release r s)).
Proof.
  intros Hr. destruct (defer_release_spec r s) as [_ [[_ ->] | (l & sn & -> & ->)]]; [done |].
  apply held_ok_same. apply Forall2_app.
  - clear. induction l; constructor; done.
  - constructor; [| constructor]. cbn. split; [done |]. rewrite elem_of_app, list_elem_of_singleton.
    split; [by left | intros [|]; congruence || done].
Qed.

Lemma snap_step_inv b k was e s :
  snap_inv b k was s → e ≠ SnapClear b → snap_inv b k was (snap_step e s).
Proof.
  intros [Hser Hheld Hwas Hk] He. destruct e as [| serial | r]; cbn [snap_step].
  - split; [by apply serials_ok_enter | | |]; cbn.
    + apply held_ok_enter; [lia | done].
    + intros x. unfold live. cbn. rewrite fmap_app, elem_of_app. intros [Hx | Hx%list_elem_of_singleton] Hxk.
      * by apply Hwas.
      * cbn in Hx. lia.
    + lia.
  - destruct (release_live_all serial s Hser) as [Hl Hm].
    split; [by apply serials_ok_leave | | | by rewrite Hm].
    + unfold barrier_Release. destruct Hser as [Hs _].
      destruct (memoryMapSnapshots s) as [| sn l] eqn:E; [by rewrite E |].
      destruct (sn_serial sn =? serial); [by destruct Hheld | by apply held_ok_release].
    + intros x Hx. rewrite Hl in Hx. apply list_elem_of_filter in Hx as [_ Hx]. by apply Hwas.
  - assert (r ≠ b) by congruence.
    split; [by apply serials_ok_defer | by apply held_ok_defer_other | by rewrite defer_live |].
    by rewrite (proj1 (defer_release_spec r s)).
Qed.

Lemma snap_run_inv b k was es s :
  snap_inv b k was s → SnapClear b ∉ es → snap_inv b k was (snap_run es s).
Proof.
  revert s. induction es as [| e es IH]; intros s Hinv Hes; [done |].
  apply not_elem_of_cons in Hes as [? ?]. cbn. apply IH; [| done]. apply snap_step_inv; [done | congruence].
Qed.

(** The vectors that the snapshots hold. *)
Definition all_held (l : list MemoryMapSnapshot) : list Z := l ≫= sn_deferredRelease.

Lemma held_all b s : held b s ↔ b ∈ all_held (memoryMapSnapshots s).
Proof.
  unfold held, all_held. rewrite list_elem_of_bind. split; intros (sn & ? & ?); by exists sn.
Qed.

Lemma release_all_held serial previous l :
  all_held (release_snapshot serial previous l) = all_held (previous :: l).
Proof.
  revert previous. induction l as [| sn l IH]; intros previous; [done |]. cbn [release_snapshot].
  destruct (sn_serial sn =? serial); unfold all_held in *; cbn [mbind list_bind sn_deferredRelease].
  - by rewrite <- (assoc_L (++)).
  - by rewrite IH.
Qed.

(** A vector is held only if it has been cleared. *)
Lemma held_step b e s : held b (snap_step e s) → held b s ∨ e = SnapClear b.
Proof.
  rewrite !held_all. destruct e as [| serial | r]; cbn [snap_step].
  - cbn. unfold all_held. rewrite bind_app. cbn. rewrite app_nil_r. by left.
  - unfold barrier_Release. destruct (memoryMapSnapshots s) as [| sn l] eqn:E; [rewrite E; by left |].
    destruct (sn_serial sn =? serial); cbn [memoryMapSnapshots].
    + left. unfold all_held in *. cbn. apply elem_of_app. by right.
    + rewrite release_all_held. by left.
  - destruct (defer_release_spec r s) as [_ [[E ->] | (l & sn & -> & ->)]]; [by left |].
    unfold all_held. rewrite !bind_app, !elem_of_app. cbn. rewrite !app_nil_r, elem_of_app.
    intros [? | [? | ->%list_elem_of_singleton]]; [by left; left | by left; right | by right].
Qed.

Lemma snap_run_fresh b es s :
  serials_ok s → ¬ held b s → SnapClear b ∉ es →
  serials_ok (snap_run es s) ∧ ¬ held b (snap_run es s).
Proof.
  revert s. induction es as [| e es IH]; intros s Hs Hn Hes; [done |].
  apply not_elem_of_cons in Hes as [Hne Hes]. cbn. apply IH; [| | done].
  - destruct e; cbn [snap_step]; auto using serials_ok_enter, serials_ok_leave, serials_ok_defer.
  - intros [|]%held_step; congruence || done.
Qed.

Lemma clear_inv b s :
  serials_ok s → ¬ held b s → snap_inv b (memoryMapSerial s) (live s) (defer_release b s).
Proof.
  intros Hser Hn. split; [by apply serials_ok_defer | | by rewrite defer_live |].
  2: by rewrite (proj1 (defer_release_spec b s)).
  destruct (defer_release_spec b s) as [_ [[E ->] | (l & sn & E & ->)]]; [by rewrite E |].
  destruct Hser as [_ Hall]. rewrite E in Hall. unfold held in Hn. rewrite E in Hn.
  apply Forall_app in Hall as [Hall [Hsn _]%Forall_cons]. clear E. induction l as [| x l IH]; cbn.
  - split; [| done]. rewrite elem_of_app. split; [by split |]. intros _. right. apply list_elem_of_singleton. done.
  - apply Forall_cons in Hall as [Hx Hall]. split.
    + split; [intros Hb; destruct Hn; exists x; split; [left | done] |].
      intros [_ Hnext]. exfalso. destruct l as [| y l]; cbn in Hnext; [lia |].
      apply Forall_cons in Hall as [? _]. lia.
    + apply IH; [done |]. intros (y & Hy & Hb). apply Hn. exists y. split; [by right | done].
Qed.

(** the pages of a removed range are kept exactly as long as they may be
    in use.  A range is cleared after any history; whatever happens next, the
    snapshots hold its pages if and only if some thread that was in user mode
    when it was cleared has not left it since.  So they are neither released
    under such a thread nor kept after the last one. *)
Theorem deferred_release_exact (es1 es2 : list snap_event) (b : Z) :
  SnapClear b ∉ es1 → SnapClear b ∉ es2 →
  let s0 := snap_run es1 (Snapshots [] 0) in
  let s1 := snap_run es2 (defer_release b s0) in
  held b s1 ↔ ∃ serial, serial ∈ live s0 ∧ serial ∈ live s1.
Proof.
  intros H1 H2 s0 s1. destruct (snap_run_fresh b es1 (Snapshots [] 0)) as [Hser Hn]; [| | done |].
  { split; constructor. }
  { by intros (sn & ?%not_elem_of_nil & _). }
  destruct (snap_run_inv b _ _ es2 _ (clear_inv b s0 Hser Hn) H2) as [[Hs _] Hheld Hwas _].
  fold s1 in Hs, Hheld, Hwas. unfold held. rewrite (held_ok_spec _ _ _ Hs Hheld). split.
  - intros (sn & Hsn & Hk). exists (sn_serial sn).
    assert (sn_serial sn ∈ live s1) by (by apply list_elem_of_fmap_2). split; [by apply Hwas | done].
  - intros (serial & Hx & (sn & -> & Hsn)%list_elem_of_fmap). exists sn. split; [done |].
    destruct Hser as [_ Hall]. apply list_elem_of_fmap in Hx as (sn' & -> & Hsn').
    rewrite Forall_forall in Hall. by apply Hall.
Qed.

Lemma deferred_release_exact_witness :
  held 7 (snap_run [SnapLeave 2; SnapEnter] (defer_release 7 (snap_run [SnapEnter; SnapEnter] (Snapshots [] 0)))) ∧
  ¬ held 7 (snap_run [SnapLeave 2; SnapEnter; SnapLeave 1]
              (defer_release 7 (snap_run [SnapEnter; SnapEnter] (Snapshots [] 0)))).
Proof.
  split.
  - apply (deferred_release_exact [SnapEnter; SnapEnter] [SnapLeave 2; SnapEnter] 7).
    + intros H. repeat (apply elem_of_cons in H as [H | H]; [done |]). by apply not_elem_of_nil in H.
    + intros H. repeat (apply elem_of_cons in H as [H | H]; [done |]). by apply not_elem_of_nil in H.
    + exists 1. split; vm_compute; [left | left].
  - intros H. apply (deferred_release_exact [SnapEnter; SnapEnter] [SnapLeave 2; SnapEnter; SnapLeave 1] 7) in H
      as (serial & Hx & Hy).
    + vm_compute in Hx, Hy. apply list_elem_of_singleton in Hy as ->.
      repeat (apply elem_of_cons in Hx as [Hx | Hx]; [done |]). by apply not_elem_of_nil in Hx.
    + intros H'. repeat (apply elem_of_cons in H' as [H' | H']; [done |]). by apply not_elem_of_nil in H'.
    + intros H'. repeat (apply elem_of_cons in H' as [H' | H']; [done |]). by apply not_elem_of_nil in H'.
Defined.
