(* ===== verification/Frames.v ===== *)
(** Physical page frames for the address spaces of processes: what they
    need of ppagealloc(PAGESIZE) and ppagefree(addr, PAGESIZE), and that the
    physical page allocator of PPageAlloc.v provides it on machines with up to
    4 GiB of memory. *)
From S2P Require Import Prelude PhysPageMap PPageAlloc PageAlloc.

Local Open Scope Z_scope.

Definition PAGESIZE : Z := 4096.

(** The address of a page of physical memory below 4 GiB, other than page 0. *)
Definition is_frame (p : Z) : Prop := ∃ n, p = PAGESIZE * n ∧ 0 < n < 2 ^ 20.

Class FrameAllocator (A : Type) := {
  alloc_frame : A → outcome (Z * A);
  free_frame : Z → A → outcome A
}.

Class FrameAllocatorLaws (A : Type) `{FrameAllocator A} := {
  frames_ok : A → Prop;
  frame_used : A → Z → Prop;
  alloc_frame_law : ∀ a, frames_ok a →
    ∃ p a', alloc_frame a = Ret (p, a') ∧ frames_ok a' ∧
      ((p = 0 ∧ a' = a) ∨
       (is_frame p ∧ ¬ frame_used a p ∧ ∀ q, is_frame q → frame_used a' q ↔ frame_used a q ∨ q = p));
  free_frame_law : ∀ a p, frames_ok a → is_frame p → frame_used a p →
    ∃ a', free_frame p a = Ret a' ∧ frames_ok a' ∧
      ∀ q, is_frame q → frame_used a' q ↔ frame_used a q ∧ q ≠ p
}.

Section PhysicalAllocator.
Context {M : Type} `{PhyspageMapManaged M}.

#[export] Instance ppage_frames : FrameAllocator (ppage_state (M := M)) := {|
  alloc_frame := ppagealloc PAGESIZE;
  free_frame p := ppagefree p PAGESIZE
|}.

Context `{!PhyspageMapLaws M}.

Definition ppage_frames_ok (st : ppage_state (M := M)) : Prop :=
  pm_wf (physp st) ∧ (pm_base (physp st) = 0 → pm_used (physp st) 0 = true) ∧
  pm_max (physp st) ≤ 2 ^ 20.

Definition ppage_frame_used (st : ppage_state (M := M)) (p : Z) : Prop :=
  pm_used (physp st) (p / PAGESIZE) = true ∧
  pm_base (physp st) ≤ p / PAGESIZE < pm_max (physp st).

Lemma frame_page n : PAGESIZE * n / PAGESIZE = n.
Proof. rewrite Z.mul_comm. by apply Z.div_mul. Qed.

Lemma ppage_alloc_law st :
  ppage_frames_ok st →
  ∃ p st', ppagealloc PAGESIZE st = Ret (p, st') ∧ ppage_frames_ok st' ∧
    ((p = 0 ∧ st' = st) ∨
     (is_frame p ∧ ¬ ppage_frame_used st p ∧
      ∀ q, is_frame q → ppage_frame_used st' q ↔ ppage_frame_used st q ∨ q = p)).
Proof.
  intros (W & H0 & Hmax). unfold ppagealloc.
  destruct (ppagealloc_locked_spec st PAGESIZE) as (a & st' & E & R); [done.. |].
  change ((PAGESIZE + 4095) / 4096) with 1 in R. exists a, st'. split; [done |].
  destruct R as [(p & -> & Hp & Hlo & Hr & _ & (W' & B & X & U) & _) | (-> & -> & _)].
  2: { split; [done | by left]. }
  destruct (free_run_tracked _ p 1 W) as [Hpb Hpm]; [lia | done |].
  split.
  { split_and!; [done | | lia]. intros Hb. rewrite B in Hb. rewrite U by done. by rewrite H0. }
  right. change (4096 * p) with (PAGESIZE * p).
  split_and!; [exists p; split; [done | lia] | |].
  - intros [Hu _]. rewrite frame_page in Hu. rewrite (Hr p) in Hu by lia. done.
  - intros q (n & -> & Hn). unfold ppage_frame_used. rewrite !frame_page, U, B, X by (unfold is_u; lia).
    unfold PhyspageMap.in_range. destruct (decide (n = p)) as [-> |].
    + split; [by right |]. intros _. split; [| lia]. rewrite orb_true_iff. right. lia.
    + replace ((p <=? n) && (n <? p + 1)) with false by lia. rewrite orb_false_r.
      split; [by left |]. intros [| E']; [done |]. unfold PAGESIZE in E'. lia.
Qed.

Lemma ppage_free_law st p :
  ppage_frames_ok st → is_frame p → ppage_frame_used st p →
  ∃ st', ppagefree p PAGESIZE st = Ret st' ∧ ppage_frames_ok st' ∧
    ∀ q, is_frame q → ppage_frame_used st' q ↔ ppage_frame_used st q ∧ q ≠ p.
Proof.
  intros (W & H0 & Hmax) (n & -> & Hn) [Hu Hlt]. rewrite frame_page in Hu, Hlt.
  destruct (ppagefree_spec st (PAGESIZE * n) PAGESIZE) as [Hok _];
    [done | unfold is_u, PAGESIZE; lia | done | done |].
  change (PAGESIZE * n / 4096) with (PAGESIZE * n / PAGESIZE) in Hok. rewrite frame_page in Hok.
  change ((PAGESIZE + 4095) / 4096) with 1 in Hok.
  destruct Hok as (m' & E & W' & B & X & U).
  { intros q Hq. replace q with n by lia. split; [done | lia]. }
  eexists; split; [exact E |]. split.
  - split_and!; [done | | cbn; lia]. cbn. rewrite B. intros Hb.
    rewrite U by (unfold is_u; lia). rewrite H0 by done. cbn [andb]. unfold PhyspageMap.in_range.
    replace (n <=? 0) with false by lia. done.
  - intros q (k & -> & Hk). unfold ppage_frame_used. cbn [physp]. rewrite !frame_page, B, X.
    destruct (decide (pm_base (physp st) ≤ k < pm_max (physp st))); [| tauto].
    rewrite U by (unfold is_u; lia). unfold PhyspageMap.in_range.
    assert (PAGESIZE * k ≠ PAGESIZE * n ↔ k ≠ n) as -> by (unfold PAGESIZE; lia).
    rewrite andb_true_iff. assert (negb ((n <=? k) && (k <? n + 1)) = true ↔ k ≠ n) as -> by lia.
    tauto.
Qed.

#[export] Instance ppage_frames_laws : FrameAllocatorLaws (ppage_state (M := M)) := {|
  frames_ok := ppage_frames_ok;
  frame_used := ppage_frame_used;
  alloc_frame_law := ppage_alloc_law;
  free_frame_law := ppage_free_law
|}.

End PhysicalAllocator.
