(* ===== verification/ProcPages.v ===== *)
(** The page tables of a process (kernel/exec/process.cpp): the roots that
    class PagetableRoot owns, the walk of Process::Pageentry, which makes the
    tables it misses, and Process::task_enter, which hangs the roots into the
    page table of the CPU.

    A process has roots of two kinds: a root of the low address space is a
    page directory for 1 GiB, one of the high address space a table for 512 GiB
    with two more levels below.  The tables are frames of physical memory;
    vmem, through which the code reaches them, is the subject of PageWalk.v,
    and an access through it is here an access to the frame. *)
From S2P Require Import Prelude BitField PageEntry VPageAlloc Frames.

Local Open Scope Z_scope.

(** class PagetableRoot; [branches] is the frame [pr_physpage]. *)
Record PagetableRoot := PtRoot {
  pr_physpage : Z;
  pr_addr : Z;
  pr_twolevel : bool
}.


Section ProcPages.
Context {A : Type} `{FrameAllocator A}.

(** The tables of a process and the allocator of frames. *)
Record user_pages := UserPages {
  up_low : list PagetableRoot;
  up_high : list PagetableRoot;
  up_tables : gmap Z (list Z);
  up_frames : A
}.

Definition set_tables (t : gmap Z (list Z)) (u : user_pages) : user_pages :=
  UserPages (up_low u) (up_high u) t (up_frames u).

(** * Access to tables *)

(** An entry of the table in a frame; a frame that is no table is
    [OutOfBounds]. *)
Definition read_entry (u : user_pages) (phys i : Z) : outcome Z :=
  match up_tables u !! phys with
  | Some t => rd t i
  | None => OutOfBounds
  end.

Definition write_entry (u : user_pages) (phys i v : Z) : outcome user_pages :=
  match up_tables u !! phys with
  | Some t => t ← wr t i v; Ret (set_tables (<[phys := t]> (up_tables u)) u)
  | None => OutOfBounds
  end.

(** [branches] of a root: without a frame its address is not mapped. *)
Definition branches (r : PagetableRoot) : outcome Z :=
  if pr_physpage r =? 0 then Panicked else Ret (pr_physpage r).

Definition zero_table : list Z := replicate 512 0.

(** ppagealloc and, for a frame, the table cleared with bzero. *)
Definition alloc_table (u : user_pages) : outcome (Z * user_pages) :=
  '(phys, a) ← alloc_frame (up_frames u);
  Ret (phys, if phys =? 0 then UserPages (up_low u) (up_high u) (up_tables u) a
             else UserPages (up_low u) (up_high u) (<[phys := zero_table]> (up_tables u)) a).

(** The search for a root by its address. *)
Fixpoint find_root (addr : Z) (l : list PagetableRoot) : option PagetableRoot :=
  match l with
  | [] => None
  | r :: l => if pr_addr r =? addr then Some r else find_root addr l
  end.

(** The entry for a table below. *)
Definition directory_entry (phys e : Z) : Z :=
  let e := bf_set pe_present 1 e in
  let e := bf_set pe_writeable 1 e in
  let e := bf_set pe_user_access 1 e in
  let e := bf_set pe_page_ppn (Z.shiftr phys 12) e in
  bf_set pe_execution_disabled 0 e.

(** The address of the table below; in 64 bits, and as the code computes it for
    the last level of the high address space, in 32. *)
Definition table_addr (e : Z) : Z := u64 (Z.shiftl (bf_get pe_page_ppn e) 12).
Definition table_addr32 (e : Z) : Z := u32 (Z.shiftl (bf_get pe_page_ppn e) 12).

(** The table below entry [i] of the table at [phys], made if it is missing;
    [None] if there is no memory for it. *)
Definition table_below (addr : Z → Z) (phys i : Z) (u : user_pages) : outcome (option Z * user_pages) :=
  e ← read_entry u phys i;
  if bf_get pe_page_ppn e =? 0 then
    '(frame, a) ← alloc_frame (up_frames u);
    let u := UserPages (up_low u) (up_high u) (up_tables u) a in
    if frame =? 0 then Ret (None, u) else
    let e := directory_entry frame e in
    u ← write_entry u phys i e;
    Ret (Some (addr e), set_tables (<[addr e := zero_table]> (up_tables u)) u)
  else Ret (Some (addr e), u).

(** ** PagetableRoot *)

Definition new_root (addr : Z) (twolevel : bool) (u : user_pages) : outcome (PagetableRoot * user_pages) :=
  '(phys, u) ← alloc_table u;
  Ret (PtRoot phys addr twolevel, u).

(** * Process::Pageentry *)

Definition update_entry (phys i : Z) (func : Z → Z) (u : user_pages) : outcome user_pages :=
  e ← read_entry u phys i;
  write_entry u phys i (func e).

(** The search for the root of a page, which is made if it is missing. *)
Definition get_low_root (lowRoot : Z) (u : user_pages) : outcome (PagetableRoot * user_pages) :=
  match find_root lowRoot (up_low u) with
  | Some r => Ret (r, u)
  | None =>
      '(r, u) ← new_root lowRoot false u;
      Ret (r, UserPages (up_low u ++ [r]) (up_high u) (up_tables u) (up_frames u))
  end.

Definition get_high_root (index : Z) (u : user_pages) : outcome (PagetableRoot * user_pages) :=
  match find_root index (up_high u) with
  | Some r => Ret (r, u)
  | None =>
      '(r, u) ← new_root index true u;
      Ret (r, UserPages (up_low u) (up_high u ++ [r]) (up_tables u) (up_frames u))
  end.

(** Pageentry(pagenum, func) *)
Definition Pageentry (pagenum : Z) (func : Z → Z) (u : user_pages) : outcome (bool * user_pages) :=
  if Z.shiftr pagenum 27 <? PMLT4_USERSPACE_HIGH_START then
    let lowRoot := Z.shiftr pagenum 18 in
    if USERSPACE_LOW_END <=? lowRoot then Ret (false, u) else
    '(root, u) ← get_low_root lowRoot u;
    let pageoff := Z.land pagenum 0x3FFFF in
    let index := Z.shiftr pageoff 9 in
    b ← branches root;
    '(table, u) ← table_below table_addr b index u;
    match table with
    | None => Ret (false, u)
    | Some table => u ← update_entry table (Z.land pageoff 0x1FF) func u; Ret (true, u)
    end
  else
    let pageoff := Z.land pagenum 0x7FFFFFF in
    let index := Z.shiftr pagenum 27 in
    if PMLT4_USERSPACE_HIGH_END <=? index then Ret (false, u) else
    '(root, u) ← get_high_root index u;
    let index := Z.shiftr pageoff 18 in
    b ← branches root;
    '(table, u) ← table_below table_addr b index u;
    match table with
    | None => Ret (false, u)
    | Some table =>
        let pageoff := Z.land pageoff 0x3FFFF in
        let index := Z.shiftr pageoff 9 in
        '(table, u) ← table_below table_addr32 table index u;
        match table with
        | None => Ret (false, u)
        | Some table => u ← update_entry table (Z.land pageoff 0x1FF) func u; Ret (true, u)
        end
    end.

(** The read of the table below an entry in the lookup. *)
Definition table_of (e : Z) : option Z :=
  if bf_get pe_page_ppn e =? 0 then None else Some (table_addr e).

(** Pageentry(pagenum) *)
Definition get_Pageentry (pagenum : Z) (u : user_pages) : outcome (option Z) :=
  if Z.shiftr pagenum 27 <? PMLT4_USERSPACE_HIGH_START then
    let lowRoot := Z.shiftr pagenum 18 in
    if USERSPACE_LOW_END <=? lowRoot then Ret None else
    match find_root lowRoot (up_low u) with
    | None => Ret None
    | Some root =>
        let pageoff := Z.land pagenum 0x3FFFF in
        b ← branches root;
        b1 ← read_entry u b (Z.shiftr pageoff 9);
        match table_of b1 with
        | None => Ret None
        | Some table => Some <$> read_entry u table (Z.land pageoff 0x1FF)
        end
    end
  else
    let pageoff := Z.land pagenum 0x7FFFFFF in
    let index := Z.shiftr pagenum 27 in
    if PMLT4_USERSPACE_HIGH_END - PMLT4_USERSPACE_HIGH_START <=? index then Ret None else
    match find_root index (up_high u) with
    | None => Ret None
    | Some root =>
        b ← branches root;
        b1 ← read_entry u b (Z.shiftr pageoff 18);
        match table_of b1 with
        | None => Ret None
        | Some table =>
            let pageoff := Z.land pageoff 0x3FFFF in
            b2 ← read_entry u table (Z.shiftr pageoff 9);
            match table_of b2 with
            | None => Ret None
            | Some table => Some <$> read_entry u table (Z.land pageoff 0x1FF)
            end
        end
    end.

(** Process::phys_addr *)
Definition phys_addr (addr : Z) (u : user_pages) : outcome Z :=
  let vpage := Z.shiftr addr 12 in
  let vpagerange := u32 vpage in
  if negb (vpage =? vpagerange) then Ret 0 else
  pe ← get_Pageentry vpagerange u;
  match pe with
  | None => Ret 0
  | Some pe =>
      if bf_flag pe_present pe then Ret (u64 (Z.shiftl (bf_get pe_page_ppn pe) 12)) else Ret 0
  end.

(** * Process::task_enter *)

Definition root_entry (r : PagetableRoot) (pe : Z) : Z :=
  let pe := bf_set pe_present 1 pe in
  let pe := bf_set pe_writeable 1 pe in
  let pe := bf_set pe_user_access 1 pe in
  let pe := bf_set pe_write_through 0 pe in
  let pe := bf_set pe_cache_disabled 0 pe in
  let pe := bf_set pe_accessed 0 pe in
  let pe := bf_set pe_dirty 0 pe in
  let pe := bf_set pe_size 0 pe in
  let pe := bf_set pe_global 0 pe in
  let pe := bf_set pe_ignored2 0 pe in
  let pe := bf_set pe_os_virt_avail 0 pe in
  let pe := bf_set pe_page_ppn (Z.shiftr (pr_physpage r) 12) pe in
  let pe := bf_set pe_reserved1 0 pe in
  let pe := bf_set pe_os_virt_start 0 pe in
  let pe := bf_set pe_ignored3 0 pe in
  bf_set pe_execution_disabled 0 pe.

(** The two tables of the CPU that task_enter writes: the root table and the
    table below its first entry. *)
Record cpu_tables := CpuTables { ct_root : list Z; ct_low : list Z }.

Fixpoint enter_low (l : list PagetableRoot) (ptl3 : list Z) : outcome (list Z) :=
  match l with
  | [] => Ret ptl3
  | r :: l =>
      pe ← rd ptl3 (pr_addr r);
      ptl3 ← wr ptl3 (pr_addr r) (root_entry r pe);
      enter_low l ptl3
  end.

Fixpoint enter_high (l : list PagetableRoot) (pt : list Z) : outcome (list Z) :=
  match l with
  | [] => Ret pt
  | r :: l =>
      if (pr_addr r <? PMLT4_USERSPACE_HIGH_START) || (PMLT4_USERSPACE_HIGH_END <=? pr_addr r)
      then enter_high l pt
      else
        pe ← rd pt (pr_addr r);
        pt ← wr pt (pr_addr r) (root_entry r pe);
        enter_high l pt
  end.

Definition task_enter (u : user_pages) (c : cpu_tables) : outcome cpu_tables :=
  low ← enter_low (up_low u) (ct_low c);
  root ← enter_high (up_high u) (ct_root c);
  Ret (CpuTables root low).

(** ~PagetableRoot: the frames that are freed, in order. *)
Definition sizeOfUserspaceRoots : Z := 512 - PMLT4_USERSPACE_HIGH_START.

Definition destroy_branch (twolevel : bool) (u : user_pages) (b1 : Z) : outcome (list Z) :=
  if bf_get pe_page_ppn b1 =? 0 then Ret [] else
  below ← (if twolevel then
             mapM (fun j => b2 ← read_entry u (table_addr b1) j;
                            Ret (if negb (bf_get pe_page_ppn b2 =? 0) then [table_addr b2] else []))
               (seqZ 0 512)
           else Ret []);
  Ret (concat below ++ [table_addr b1]).

Definition destroy_root (r : PagetableRoot) (u : user_pages) : outcome (list Z) :=
  if pr_physpage r =? 0 then Ret [] else
  freed ← mapM (fun i => b1 ← read_entry u (pr_physpage r) i; destroy_branch (pr_twolevel r) u b1)
            (seqZ 0 sizeOfUserspaceRoots);
  Ret (concat freed ++ [pr_physpage r]).

End ProcPages.

Arguments user_pages A : clear implicits.

(** * Tables as trees *)

(** The table that a path of indices leads to, and the entry there; a page
    without tables has the entry 0. *)
Definition below_addr (e : Z) : Z := PAGESIZE * bf_get pe_page_ppn e.

Fixpoint walk (tbl : gmap Z (list Z)) (t : Z) (path : list Z) : option Z :=
  match path with
  | [] => Some t
  | i :: path =>
      match tbl !! t ≫= (.!! Z.to_nat i) with
      | Some e => if bf_get pe_page_ppn e =? 0 then None else walk tbl (below_addr e) path
      | None => None
      end
  end.

Definition entry_at (tbl : gmap Z (list Z)) (t : Z) (path : list Z) (i : Z) : Z :=
  match walk tbl t path with
  | Some t => default 0 (tbl !! t ≫= (.!! Z.to_nat i))
  | None => 0
  end.

Definition table_ok (l : list Z) : Prop := length l = 512%nat ∧ Forall (is_u 64) l.

Definition index_ok (i : Z) : Prop := 0 ≤ i < 512.

(** Every table has one place: the number of levels below it and the
    indices that lead to it, the first of which name its root. *)
Abbreviation places := (gmap Z (nat * list Z)).

Record tree_ok (own : places) (tbl : gmap Z (list Z)) : Prop := {
  tr_table : ∀ t x, own !! t = Some x → is_frame t ∧ ∃ l, tbl !! t = Some l ∧ table_ok l;
  tr_below : ∀ t n k l i e, own !! t = Some (S n, k) → tbl !! t = Some l → l !! i = Some e →
    bf_get pe_page_ppn e ≠ 0 → own !! below_addr e = Some (n, k ++ [Z.of_nat i]) ∧ bf_get pe_present e = 1;
  tr_absent : ∀ t n k l i e, own !! t = Some (S n, k) → tbl !! t = Some l → l !! i = Some e →
    bf_get pe_page_ppn e = 0 → bf_get pe_present e = 0
}.

Lemma zero_table_lookup i : (zero_table !! i : option Z) = None ∨ (zero_table !! i : option Z) = Some 0.
Proof.
  destruct ((zero_table !! i : option Z)) as [x |] eqn:E; [| by left]. right.
  by apply lookup_replicate in E as [-> _].
Qed.

Lemma user_zero_table_ok : table_ok zero_table.
Proof. split; [apply length_replicate | by apply Forall_replicate]. Qed.

(** Below a cleared table there is nothing. *)
Lemma entry_at_zero tbl t path i : tbl !! t = Some zero_table → entry_at tbl t path i = 0.
Proof.
  intros Ht. unfold entry_at. destruct path as [| j path]; cbn [walk].
  - rewrite Ht. cbn [mbind option_bind]. by destruct (zero_table_lookup (Z.to_nat i)) as [-> | ->].
  - rewrite Ht. cbn [mbind option_bind]. by destruct (zero_table_lookup (Z.to_nat j)) as [-> | ->].
Qed.

Section Trees.
Context (own : places) (tbl : gmap Z (list Z)) (Hok : tree_ok own tbl).

(** One step of the walk. *)
Lemma entry_at_step t n k i path j :
  own !! t = Some (S n, k) → index_ok i →
  ∃ l e, tbl !! t = Some l ∧ l !! Z.to_nat i = Some e ∧
    entry_at tbl t (i :: path) j =
      (if bf_get pe_page_ppn e =? 0 then 0 else entry_at tbl (below_addr e) path j) ∧
    (bf_get pe_page_ppn e ≠ 0 → own !! below_addr e = Some (n, k ++ [i])).
Proof.
  intros Ht Hi. destruct (tr_table _ _ Hok _ _ Ht) as (_ & l & Hl & [Hlen _]).
  destruct (lookup_lt_is_Some_2 l (Z.to_nat i)) as [e He]; [unfold index_ok in Hi; lia |].
  exists l, e. split_and!; [done | done | |].
  - unfold entry_at. cbn [walk]. rewrite Hl. cbn [mbind option_bind]. rewrite He.
    by destruct (bf_get pe_page_ppn e =? 0).
  - intros Hp. destruct (tr_below _ _ Hok _ _ _ _ _ _ Ht Hl He Hp) as [E _].
    rewrite E. by rewrite Z2Nat.id by (unfold index_ok in Hi; lia).
Qed.

(** A new table below an entry that had none changes no entry. *)
Lemma entry_at_link t n k l i e e' t' :
  own !! t = Some (S n, k) → tbl !! t = Some l → l !! i = Some e → bf_get pe_page_ppn e = 0 →
  own !! t' = None → below_addr e' = t' → t' ≠ 0 →
  let tbl' := <[t' := zero_table]> (<[t := <[i := e']> l]> tbl) in
  ∀ r m q path j, own !! r = Some (m, q) → length path = m → Forall index_ok path →
    entry_at tbl' r path j = entry_at tbl r path j.
Proof.
  intros Ht Hl He Hp Ht' He' Hne tbl' r m q path j. revert r m q.
  assert (∀ r, own !! r ≠ None → r ≠ t → tbl' !! r = tbl !! r) as Hsame.
  { intros r Hr Hrt. unfold tbl'. rewrite !lookup_insert_ne by congruence. done. }
  assert (tbl' !! t = Some (<[i := e']> l)) as Htt.
  { unfold tbl'. rewrite lookup_insert_ne by congruence. apply lookup_insert_eq. }
  assert (tbl' !! t' = Some zero_table) as Ht'z by apply lookup_insert_eq.
  induction path as [| x path IH]; intros r m q Hr Hlen Hix.
  - cbn in Hlen. subst m. assert (r ≠ t) by congruence. unfold entry_at. cbn [walk].
    by rewrite Hsame by congruence.
  - destruct m as [| m]; [done |]. apply Forall_cons in Hix as [Hx Hix]. injection Hlen as Hlen.
    destruct (entry_at_step r m q x path j Hr Hx) as (l0 & e0 & Hl0 & He0 & Es & Hsub). rewrite Es.
    destruct (decide (r = t)) as [-> | Hrt].
    + rewrite Hl in Hl0. injection Hl0 as <-. destruct (decide (Z.to_nat x = i)) as [E | Hxi].
      * subst i. rewrite He in He0. injection He0 as <-. rewrite Hp. cbn [Z.eqb].
        unfold entry_at. cbn [walk]. rewrite Htt. cbn [mbind option_bind].
        rewrite list_lookup_insert_eq by (by eapply lookup_lt_Some).
        destruct (bf_get pe_page_ppn e' =? 0); [done |]. rewrite He'.
        exact (entry_at_zero tbl' t' path j Ht'z).
      * unfold entry_at at 1. cbn [walk]. rewrite Htt. cbn [mbind option_bind]. rewrite list_lookup_insert_ne by done.
        rewrite He0. destruct (Z.eqb_spec (bf_get pe_page_ppn e0) 0); [done |].
        apply (IH (below_addr e0) m (q ++ [x])); [by apply Hsub | done | done].
    + unfold entry_at at 1. cbn [walk]. rewrite Hsame, Hl0 by congruence.
      cbn [mbind option_bind]. rewrite He0.
      destruct (Z.eqb_spec (bf_get pe_page_ppn e0) 0); [done |].
      apply (IH (below_addr e0) m (q ++ [x])); [by apply Hsub | done | done].
Qed.

Lemma walk_own r m q path t :
  own !! r = Some (m, q) → length path = m → Forall index_ok path →
  walk tbl r path = Some t → own !! t = Some (0%nat, q ++ path).
Proof.
  revert r m q. induction path as [| x path IH]; intros r m q Hr Hlen Hix; cbn [walk].
  { cbn in Hlen. subst m. intros [= ->]. by rewrite app_nil_r. }
  destruct m as [| m]; [done |]. apply Forall_cons in Hix as [Hx Hix]. injection Hlen as Hlen.
  destruct (entry_at_step r m q x path 0 Hr Hx) as (l & e & Hl & He & _ & Hsub).
  rewrite Hl. cbn [mbind option_bind]. rewrite He. destruct (Z.eqb_spec (bf_get pe_page_ppn e) 0); [done |].
  intros Hw. rewrite (IH _ _ _ (Hsub ltac:(done)) Hlen Hix Hw). by rewrite <- (assoc_L (++)).
Qed.

(** Writing an entry of a table of the last level. *)
Lemma walk_write t k l' :
  own !! t = Some (0%nat, k) →
  ∀ r m q path, own !! r = Some (m, q) → length path = m → Forall index_ok path →
    walk (<[t := l']> tbl) r path = walk tbl r path.
Proof.
  intros Ht r m q path. revert r m q. induction path as [| x path IH]; intros r m q Hr Hlen Hix; [done |].
  destruct m as [| m]; [done |]. apply Forall_cons in Hix as [Hx Hix]. injection Hlen as Hlen.
  destruct (entry_at_step r m q x path 0 Hr Hx) as (l & e & Hl & He & _ & Hsub). cbn [walk].
  rewrite lookup_insert_ne by congruence. rewrite Hl. cbn [mbind option_bind]. rewrite He.
  destruct (Z.eqb_spec (bf_get pe_page_ppn e) 0); [done |]. eapply IH; [by apply Hsub | done | done].
Qed.

Lemma entry_at_write t k l i v :
  own !! t = Some (0%nat, k) → tbl !! t = Some l → index_ok i →
  ∀ r m q path j, own !! r = Some (m, q) → length path = m → Forall index_ok path → index_ok j →
    entry_at (<[t := <[Z.to_nat i := v]> l]> tbl) r path j =
    if decide (walk tbl r path = Some t ∧ j = i) then v else entry_at tbl r path j.
Proof.
  intros Ht Hl Hi r m q path j Hr Hlen Hix Hj. unfold entry_at.
  rewrite (walk_write t k _ Ht r m q path Hr Hlen Hix).
  destruct (walk tbl r path) as [t0 |] eqn:Hw; [| by rewrite decide_False by (by intros [])].
  destruct (decide (t0 = t)) as [-> | Hne].
  - rewrite lookup_insert_eq, Hl. cbn [mbind option_bind]. destruct (decide (j = i)) as [-> | Hji].
    + rewrite decide_True by done. destruct (tr_table _ _ Hok _ _ Ht) as (_ & l0 & Hl0 & [Hlen0 _]).
      rewrite Hl in Hl0. injection Hl0 as <-.
      by rewrite list_lookup_insert_eq by (unfold index_ok in Hi; lia).
    + rewrite decide_False by (by intros []). unfold index_ok in *.
      by rewrite list_lookup_insert_ne by lia.
  - rewrite decide_False by (intros [[=] _]; done). by rewrite lookup_insert_ne.
Qed.

End Trees.

Section Pages.
Context {A : Type} `{FrameAllocatorLaws A}.
Implicit Types (u : user_pages A) (own : places).

(** The roots of the two kinds: one for each address, in its range. *)
Record roots_ok own (low high : list PagetableRoot) : Prop := {
  ro_low : ∀ r, r ∈ low → own !! pr_physpage r = Some (1%nat, [0; pr_addr r]) ∧ 0 ≤ pr_addr r < 3;
  ro_high : ∀ r, r ∈ high → own !! pr_physpage r = Some (2%nat, [1; pr_addr r]) ∧ 16 ≤ pr_addr r < 32;
  ro_low_once : NoDup (pr_addr <$> low);
  ro_high_once : NoDup (pr_addr <$> high)
}.

(** The tables of a process are a tree of frames in use below its roots. *)
Record pages_ok own u : Prop := {
  pg_frames : frames_ok (up_frames u);
  pg_tree : tree_ok own (up_tables u);
  pg_used : ∀ t x, own !! t = Some x → frame_used (up_frames u) t;
  pg_roots : roots_ok own (up_low u) (up_high u)
}.

Lemma roots_ok_more own own' low high : own ⊆ own' → roots_ok own low high → roots_ok own' low high.
Proof.
  intros Hs [Hl Hh ? ?]. split; try done.
  - intros r Hr. destruct (Hl r Hr). split; [by eapply lookup_weaken | done].
  - intros r Hr. destruct (Hh r Hr). split; [by eapply lookup_weaken | done].
Qed.

(** Frames stay in use, and the new tables are in frames that were not. *)
Record grows own u own' u' : Prop := {
  gr_own : own ⊆ own';
  gr_used : ∀ q, is_frame q → frame_used (up_frames u) q → frame_used (up_frames u') q;
  gr_new : ∀ t x, own' !! t = Some x → own !! t = None → is_frame t ∧ ¬ frame_used (up_frames u) t;
  gr_low : up_low u ⊆ up_low u';
  gr_high : up_high u ⊆ up_high u'
}.

Lemma grows_same own u u' :
  up_frames u' = up_frames u → up_low u' = up_low u → up_high u' = up_high u → grows own u own u'.
Proof. intros E El Eh. split; [done | by rewrite E | congruence | by rewrite El | by rewrite Eh]. Qed.

Lemma grows_trans own u own1 u1 own2 u2 :
  grows own u own1 u1 → grows own1 u1 own2 u2 → grows own u own2 u2.
Proof.
  intros [A1 A2 A3 A4 A5] [B1 B2 B3 B4 B5]. split; [by etrans | auto | | by etrans | by etrans]. intros t x Ht Hn.
  destruct (own1 !! t) as [y |] eqn:E; [by eapply A3 |].
  destruct (B3 t x Ht E) as [Hf Hu]. split; [done |]. intros ?. apply Hu. auto.
Qed.

Lemma grows_insert own u p x u' :
  own !! p = None → is_frame p → ¬ frame_used (up_frames u) p →
  (∀ q, is_frame q → frame_used (up_frames u') q ↔ frame_used (up_frames u) q ∨ q = p) →
  up_low u ⊆ up_low u' → up_high u ⊆ up_high u' → grows own u (<[p := x]> own) u'.
Proof.
  intros Hn Hf Hu Hq Hl Hh. split; [by apply insert_subseteq | | | done | done].
  - intros q Hqf ?. apply Hq; [done | by left].
  - intros t y [[<- _] | [_ ?]]%lookup_insert_Some Ht; [done | congruence].
Qed.

(** More tables, with the entries as before. *)
Record more_tables own u own' u' : Prop := {
  mt_ok : pages_ok own' u';
  mt_own : grows own u own' u';
  mt_low : up_low u' = up_low u;
  mt_high : up_high u' = up_high u;
  mt_entries : ∀ r m q path j, own !! r = Some (m, q) → length path = m → Forall index_ok path →
    entry_at (up_tables u') r path j = entry_at (up_tables u) r path j;
  mt_step : ∀ r x i t, own !! r = Some x → walk (up_tables u) r [i] = Some t →
    walk (up_tables u') r [i] = Some t
}.

Lemma directory_entry_ppn n e :
  0 < n < 2 ^ 20 → bf_get pe_page_ppn (directory_entry (PAGESIZE * n) e) = n ∧
  bf_get pe_present (directory_entry (PAGESIZE * n) e) = 1.
Proof.
  intros Hn. unfold directory_entry. fields. cbn [bf_bits pe_page_ppn pe_present].
  rewrite Z.shiftr_div_pow2 by lia. change (2 ^ 12) with PAGESIZE. rewrite frame_page.
  rewrite wrap_id by (unfold is_u; lia). done.
Qed.

Lemma directory_entry_u phys e : is_u 64 e → is_u 64 (directory_entry phys e).
Proof.
  intros [He _]. unfold directory_entry. repeat (apply set_is_u). 
  repeat match goal with |- 0 ≤ bf_set ?f ?x ?v => apply (set_is_u f x v) end. done.
Qed.

Lemma table_addr_frame e :
  is_frame (below_addr e) → table_addr e = below_addr e ∧ table_addr32 e = below_addr e.
Proof.
  intros (n & E & Hn). unfold table_addr, table_addr32, below_addr in *.
  assert (bf_get pe_page_ppn e = n) as -> by (unfold PAGESIZE in E; lia).
  rewrite Z.shiftl_mul_pow2 by lia. change (2 ^ 12) with PAGESIZE. rewrite (Z.mul_comm n).
  rewrite !wrap_id by (unfold is_u, PAGESIZE; lia). done.
Qed.

Lemma frame_not_0 p : is_frame p → p ≠ 0.
Proof. intros (n & -> & Hn). unfold PAGESIZE. lia. Qed.

(** A new frame is no table yet. *)
Lemma fresh_place own u p : pages_ok own u → ¬ frame_used (up_frames u) p → own !! p = None.
Proof.
  intros Hu Hp. destruct (own !! p) as [x |] eqn:E; [| done]. by destruct (Hp (pg_used _ _ Hu _ _ E)).
Qed.

(** The tree with a cleared table at a new place. *)
Lemma tree_ok_fresh own tbl t x :
  tree_ok own tbl → own !! t = None → is_frame t → tree_ok (<[t := x]> own) (<[t := zero_table]> tbl).
Proof.
  intros [H1 H2 H3] Hn Hf. split.
  - intros t0 x0 [[<- <-] | [Hne Ho]]%lookup_insert_Some.
    + split; [done |]. exists zero_table. split; [apply lookup_insert_eq | apply user_zero_table_ok].
    + rewrite lookup_insert_ne by done. by eapply H1.
  - intros t0 n k l i e [[<- ->] | [Hne Ho]]%lookup_insert_Some.
    + rewrite lookup_insert_eq. intros [= <-] He Hp.
      destruct (zero_table_lookup i) as [E | E]; rewrite E in He; [done |]. injection He as <-. done.
    + rewrite lookup_insert_ne by done. intros Hl He Hp. destruct (H2 _ _ _ _ _ _ Ho Hl He Hp) as [E Hpr].
      split; [| done]. rewrite lookup_insert_ne; [done |]. congruence.
  - intros t0 n k l i e [[<- ->] | [Hne Ho]]%lookup_insert_Some.
    + rewrite lookup_insert_eq. intros [= <-] He Hp.
      destruct (zero_table_lookup i) as [E | E]; rewrite E in He; [done |]. by injection He as <-.
    + rewrite lookup_insert_ne by done. by apply (H3 _ _ _ _ _ _ Ho).
Qed.

(** The tree with a new table below an entry. *)
Lemma tree_ok_link own tbl t n k l i e' t' :
  tree_ok own tbl → own !! t = Some (S n, k) → tbl !! t = Some l → (i < length l)%nat →
  own !! t' = None → is_frame t' → below_addr e' = t' → bf_get pe_present e' = 1 → is_u 64 e' →
  tree_ok (<[t' := (n, k ++ [Z.of_nat i])]> own) (<[t' := zero_table]> (<[t := <[i := e']> l]> tbl)).
Proof.
  intros Hok Ht Hl Hi Hn Hf He' Hpr Hu. pose proof Hok as [H1 H2 H3].
  destruct (H1 _ _ Ht) as (Hft & l0 & Hl0 & [Hlen Hall]). rewrite Hl in Hl0. injection Hl0 as <-.
  apply tree_ok_fresh with (t := t') (x := (n, k ++ [Z.of_nat i])) in Hok as [F1 F2 F3]; [| done | done].
  assert (t ≠ t') as Htt by congruence. split.
  - intros t0 x0 Ho. destruct (decide (t0 = t)) as [-> | Hne].
    + split; [done |]. exists (<[i := e']> l). rewrite lookup_insert_ne, lookup_insert_eq by done.
      split; [done |]. split; [by rewrite length_insert |]. by apply Forall_insert.
    + destruct (F1 t0 x0 Ho) as (? & l1 & Hl1 & ?). split; [done |]. exists l1. split; [| done].
      destruct (decide (t0 = t')) as [-> |]; [by rewrite lookup_insert_eq in Hl1 |- * |].
      rewrite lookup_insert_ne in Hl1 |- * by done. by rewrite lookup_insert_ne by done.
  - intros t0 n0 k0 l1 j e Ho Hl1 He Hp. destruct (decide (t0 = t)) as [-> | Hne].
    + rewrite lookup_insert_ne, lookup_insert_eq in Hl1 by done. injection Hl1 as <-.
      rewrite lookup_insert_ne, Ht in Ho by done. injection Ho as <- <-.
      destruct (decide (j = i)) as [-> |].
      * rewrite list_lookup_insert_eq in He by done. injection He as <-. rewrite He'.
        split; [apply lookup_insert_eq | done].
      * rewrite list_lookup_insert_ne in He by done.
        destruct (H2 _ _ _ _ _ _ Ht Hl He Hp) as [E ?]. split; [| done].
        rewrite lookup_insert_ne; [done | congruence].
    + eapply F2; [exact Ho | | exact He | exact Hp].
      destruct (decide (t0 = t')) as [-> |]; [by rewrite lookup_insert_eq in Hl1 |- * |].
      rewrite lookup_insert_ne in Hl1 |- * by done. by rewrite lookup_insert_ne in Hl1 by done.
  - intros t0 n0 k0 l1 j e Ho Hl1 He Hp. destruct (decide (t0 = t)) as [-> | Hne].
    + rewrite lookup_insert_ne, lookup_insert_eq in Hl1 by done. injection Hl1 as <-.
      destruct (decide (j = i)) as [-> |].
      * rewrite list_lookup_insert_eq in He by done. injection He as <-.
        destruct (frame_not_0 t' Hf). rewrite <- He'. unfold below_addr. rewrite Hp. by rewrite Z.mul_0_r.
      * rewrite list_lookup_insert_ne in He by done. by apply (H3 _ _ _ _ _ _ Ht Hl He).
    + eapply F3; [exact Ho | | exact He | exact Hp].
      destruct (decide (t0 = t')) as [-> |]; [by rewrite lookup_insert_eq in Hl1 |- * |].
      rewrite lookup_insert_ne in Hl1 |- * by done. by rewrite lookup_insert_ne in Hl1 by done.
Qed.

(** New frames keep the frames in use. *)
Lemma pages_ok_more own own' u low high tbl' a' p x :
  pages_ok own u → frames_ok a' → is_frame p →
  (∀ q, is_frame q → frame_used a' q ↔ frame_used (up_frames u) q ∨ q = p) →
  own' = <[p := x]> own → own !! p = None → tree_ok own' tbl' → roots_ok own' low high →
  pages_ok own' (UserPages low high tbl' a').
Proof.
  intros [Hf Htr Hus Hro] Hfa Hp Hq -> Hn Ht' Hroots. split; cbn; try done.
  intros t y [[<- <-] | [Hne Ho]]%lookup_insert_Some.
  - apply Hq; [done | by right].
  - apply Hq; [by apply (tr_table _ _ Htr _ _ Ho) | left; by eapply Hus].
Qed.

Lemma lookup_fresh own p x q y : own !! p = None → own !! q = Some y → <[p := x]> own !! q = Some y.
Proof. intros Hp Hq. rewrite lookup_insert_ne; [done | congruence]. Qed.

(** The link to a frame that has just been allocated. *)
Lemma link_frame own u t n k l i e nn a' :
  pages_ok own u → own !! t = Some (S n, k) → index_ok i → up_tables u !! t = Some l →
  l !! Z.to_nat i = Some e → bf_get pe_page_ppn e = 0 → frames_ok a' → 0 < nn < 2 ^ 20 →
  ¬ frame_used (up_frames u) (PAGESIZE * nn) →
  (∀ q, is_frame q → frame_used a' q ↔ frame_used (up_frames u) q ∨ q = PAGESIZE * nn) →
  let p := PAGESIZE * nn in
  let e' := directory_entry p e in
  let u' := UserPages (up_low u) (up_high u)
    (<[p := zero_table]> (<[t := <[Z.to_nat i := e']> l]> (up_tables u))) a' in
  more_tables own u (<[p := (n, k ++ [i])]> own) u' ∧ below_addr e' = p ∧
  walk (up_tables u') t [i] = Some p.
Proof.
  intros Hu Ht Hi Hl He Hp Hfa Hnn Hpn Hq p e' u'. pose proof Hu as [Hf Htr Hus Hro].
  assert (is_frame p) as Hpf by (by exists nn).
  assert (Z.of_nat (Z.to_nat i) = i) as Hii by (unfold index_ok in Hi; lia).
  destruct (directory_entry_ppn nn e Hnn) as [Eppn Epr].
  assert (below_addr e' = p) as Eb by (unfold below_addr, e', p; by rewrite Eppn).
  pose proof (fresh_place own u _ Hu Hpn) as Hfresh. fold p in Hfresh.
  assert (p ≠ t) as Hpt by (intros E; rewrite E in Hfresh; congruence).
  destruct (tr_table _ _ Htr _ _ Ht) as (_ & l0 & Hl0 & [Hlen Hall]).
  rewrite Hl in Hl0. injection Hl0 as <-.
  assert (is_u 64 e') as Hue by (apply directory_entry_u; by eapply Forall_lookup_1).
  pose proof (tree_ok_link own (up_tables u) t n k l (Z.to_nat i) e' p Htr Ht Hl
    ltac:(by eapply lookup_lt_Some) Hfresh Hpf Eb Epr Hue) as Htree. rewrite Hii in Htree.
  split_and!; [| done |].
  - split; [| by apply grows_insert | done | done | |].
    + eapply pages_ok_more; try done. eapply roots_ok_more; [by apply insert_subseteq | done].
    + intros r m q path j Hr Hlp Hix. eapply entry_at_link; try done. by apply frame_not_0.
    + intros r x j t0 Hr. cbn [walk up_tables u'].
      rewrite (lookup_insert_ne _ p) by congruence. destruct (decide (r = t)) as [-> | Hrt].
      * rewrite lookup_insert_eq, Hl. cbn [mbind option_bind].
        destruct (decide (Z.to_nat i = Z.to_nat j)) as [<- |]; [by rewrite He, Hp |].
        by rewrite list_lookup_insert_ne.
      * by rewrite lookup_insert_ne.
  - cbn [walk up_tables u']. rewrite lookup_insert_ne, lookup_insert_eq by done.
    cbn [mbind option_bind]. rewrite list_lookup_insert_eq by (by eapply lookup_lt_Some).
    rewrite Eb. change (bf_get pe_page_ppn e') with (bf_get pe_page_ppn (directory_entry (PAGESIZE * nn) e)).
    rewrite Eppn. by rewrite (proj2 (Z.eqb_neq _ _)) by lia.
Qed.

(** There is no free frame. *)
Definition no_frame u : Prop := alloc_frame (up_frames u) = Ret (0, up_frames u).

Lemma table_below_spec own u addr t n k i :
  pages_ok own u → own !! t = Some (S n, k) → index_ok i → addr = table_addr ∨ addr = table_addr32 →
  (table_below addr t i u = Ret (None, u) ∧ no_frame u ∧ walk (up_tables u) t [i] = None) ∨
  ∃ t' u' own', table_below addr t i u = Ret (Some t', u') ∧ more_tables own u own' u' ∧
    own' !! t' = Some (n, k ++ [i]) ∧ walk (up_tables u') t [i] = Some t'.
Proof.
  intros Hu Ht Hi Haddr. pose proof Hu as [Hf Htr Hus Hro].
  destruct (tr_table _ _ Htr _ _ Ht) as (_ & l & Hl & [Hlen Hall]).
  destruct (lookup_lt_is_Some_2 l (Z.to_nat i)) as [e He]; [unfold index_ok in Hi; lia |].
  unfold table_below, read_entry. rewrite Hl. unfold rd. rewrite He. cbn [mbind outcome_bind].
  destruct (Z.eqb_spec (bf_get pe_page_ppn e) 0) as [Hp | Hp].
  - destruct (alloc_frame_law (up_frames u) Hf) as (p & a' & Ha & Hfa & Hcase).
    rewrite Ha. cbn [mbind outcome_bind].
    destruct Hcase as [[-> ->] | (Hpf & Hpn & Hq)].
    { left. destruct u. split_and!; [done | done |]. cbn [walk]. rewrite Hl. cbn [mbind option_bind].
      rewrite He. by rewrite Hp. }
    right. rewrite (proj2 (Z.eqb_neq _ _) (frame_not_0 p Hpf)). unfold write_entry. cbn [up_tables].
    rewrite Hl. unfold wr. rewrite He. cbn [mbind outcome_bind]. pose proof Hpf as (nn & -> & Hnn).
    destruct (link_frame own u t n k l i e nn a') as (Hm & Eb & Hw); [done.. |].
    destruct (table_addr_frame (directory_entry (PAGESIZE * nn) e)) as [E1 E2]; [by rewrite Eb |].
    assert (addr (directory_entry (PAGESIZE * nn) e) = PAGESIZE * nn) as ->
      by (destruct Haddr as [-> | ->]; congruence).
    eexists (PAGESIZE * nn), _, (<[PAGESIZE * nn := (n, k ++ [i])]> own).
    split_and!; [done | exact Hm | apply lookup_insert_eq | exact Hw].
  - right. destruct (tr_below _ _ Htr _ _ _ _ _ _ Ht Hl He Hp) as [E _].
    rewrite Z2Nat.id in E by (unfold index_ok in Hi; lia).
    destruct (table_addr_frame e) as [E1 E2]; [by apply (tr_table _ _ Htr _ _ E) |].
    exists (below_addr e), u, own. split_and!; [destruct Haddr as [-> | ->]; congruence | | done |].
    { split; try done. by apply grows_same. }
    cbn [walk]. rewrite Hl. cbn [mbind option_bind]. rewrite He. by rewrite (proj2 (Z.eqb_neq _ _)).
Qed.

End Pages.
