(* ===== verification/ProcPagesTheorems.v ===== *)
(** Properties of the page tables of a process: Pageentry is an array of
    entries indexed by the page number, task_enter makes the CPU see the
    entries of the process, and where it shows those of another; the
    destructor of a root and what it forgets. *)
From S2P Require Import Prelude PhysPageMap PPageAlloc BitField PageEntry VPageAlloc Frames ProcPages.

Local Open Scope Z_scope.

(** * Pages and their place *)

(** The page numbers of user memory. *)
Definition user_page (pn : Z) : Prop := 0 ≤ pn < 2 ^ 32 ∧ (pn < 3 * 2 ^ 18 ∨ 2 ^ 31 ≤ pn).

Definition low_page (pn : Z) : bool := Z.shiftr pn 27 <? PMLT4_USERSPACE_HIGH_START.

Definition root_key (pn : Z) : list Z :=
  if low_page pn then [0; Z.shiftr pn 18] else [1; Z.shiftr pn 27].

(** The indices below the root. *)
Definition page_path (pn : Z) : list Z :=
  if low_page pn then [Z.shiftr (Z.land pn 0x3FFFF) 9]
  else [Z.shiftr (Z.land pn 0x7FFFFFF) 18; Z.shiftr (Z.land (Z.land pn 0x7FFFFFF) 0x3FFFF) 9].

Definition page_index (pn : Z) : Z := pn mod 512.

Lemma land_ones_mod k x : 0 ≤ k → Z.land x (Z.ones k) = x mod 2 ^ k.
Proof. apply Z.land_ones. Qed.

Lemma page_path_div pn :
  page_path pn =
  if low_page pn then [pn mod 2 ^ 18 / 2 ^ 9] else [pn mod 2 ^ 27 / 2 ^ 18; pn mod 2 ^ 18 / 2 ^ 9].
Proof.
  unfold page_path. change 0x3FFFF with (Z.ones 18). change 0x7FFFFFF with (Z.ones 27).
  rewrite !Z.land_ones, !Z.shiftr_div_pow2 by lia.
  assert ((pn mod 2 ^ 27) mod 2 ^ 18 = pn mod 2 ^ 18) as ->; [| done].
  apply Z.mod_mod_divide. by exists (2 ^ 9).
Qed.

Lemma low_page_spec pn : 0 ≤ pn → low_page pn = (pn <? 2 ^ 31).
Proof.
  intros Hp. unfold low_page, PMLT4_USERSPACE_HIGH_START. rewrite Z.shiftr_div_pow2 by lia.
  pose proof (Z.div_mod pn (2 ^ 27)). pose proof (Z.mod_pos_bound pn (2 ^ 27)).
  destruct (Z.ltb_spec (pn / 2 ^ 27) 0x10), (Z.ltb_spec pn (2 ^ 31)); done || lia.
Qed.

Lemma page_path_ok pn : Forall index_ok (page_path pn).
Proof.
  rewrite page_path_div. unfold index_ok.
  assert (∀ a b x, 0 ≤ a → 0 < b → 0 ≤ x mod (2 ^ a * 2 ^ b) / 2 ^ a < 2 ^ b) as Hb.
  { intros a b x Ha Hb. pose proof (Z.pow_pos_nonneg 2 a). pose proof (Z.pow_pos_nonneg 2 b).
    pose proof (Z.mod_pos_bound x (2 ^ a * 2 ^ b)). split; [apply Z.div_pos; nia |].
    apply Z.div_lt_upper_bound; nia. }
  destruct (low_page pn); repeat constructor.
  - apply (Hb 9 9 pn); lia.
  - apply (Hb 9 9 pn); lia.
  - apply (Hb 18 9 pn); lia.
  - apply (Hb 18 9 pn); lia.
  - apply (Hb 9 9 pn); lia.
  - apply (Hb 9 9 pn); lia.
Qed.

Lemma page_index_ok pn : index_ok (page_index pn).
Proof. unfold index_ok, page_index. apply Z.mod_pos_bound. lia. Qed.

(** A page is determined by its place. *)
Lemma page_inj pn pn' :
  0 ≤ pn → 0 ≤ pn' → root_key pn ++ page_path pn = root_key pn' ++ page_path pn' →
  page_index pn = page_index pn' → pn = pn'.
Proof.
  intros Hp Hp'. rewrite !page_path_div. unfold root_key, page_index.
  rewrite !Z.shiftr_div_pow2 by lia. change 512 with (2 ^ 9).
  assert (∀ x, x mod 2 ^ 18 = x mod 2 ^ 18 / 2 ^ 9 * 2 ^ 9 + x mod 2 ^ 9) as H18.
  { intros x. pose proof (Z.div_mod (x mod 2 ^ 18) (2 ^ 9)).
    rewrite (Z.mod_mod_divide x (2 ^ 18) (2 ^ 9)) in * by (by exists (2 ^ 9)). lia. }
  assert (∀ x, x mod 2 ^ 27 = x mod 2 ^ 27 / 2 ^ 18 * 2 ^ 18 + x mod 2 ^ 18) as H27.
  { intros x. pose proof (Z.div_mod (x mod 2 ^ 27) (2 ^ 18)).
    rewrite (Z.mod_mod_divide x (2 ^ 27) (2 ^ 18)) in * by (by exists (2 ^ 9)). lia. }
  pose proof (Z.div_mod pn (2 ^ 18)). pose proof (Z.div_mod pn' (2 ^ 18)).
  pose proof (Z.div_mod pn (2 ^ 27)). pose proof (Z.div_mod pn' (2 ^ 27)).
  pose proof (H18 pn). pose proof (H18 pn'). pose proof (H27 pn). pose proof (H27 pn').
  destruct (low_page pn), (low_page pn'); cbn [app]; intros E Ei; try done; injection E; intros; lia.
Qed.

Section Theorems.
Context {A : Type} `{FrameAllocatorLaws A}.
Implicit Types (u : user_pages A) (own : places).

Definition user_root u (pn : Z) : option PagetableRoot :=
  if low_page pn then find_root (Z.shiftr pn 18) (up_low u) else find_root (Z.shiftr pn 27) (up_high u).

(** The entry of a page: what its tables say, or 0 without tables. *)
Definition user_entry u (pn : Z) : Z :=
  match user_root u pn with
  | Some r => entry_at (up_tables u) (pr_physpage r) (page_path pn) (page_index pn)
  | None => 0
  end.

Lemma find_root_spec a l r : find_root a l = Some r → r ∈ l ∧ pr_addr r = a.
Proof.
  induction l as [| x l IH]; [done |]. cbn. destruct (Z.eqb_spec (pr_addr x) a).
  - intros [= <-]. split; [left | done].
  - intros [? ?]%IH. split; [by right | done].
Qed.

Lemma find_root_app a l r :
  find_root a (l ++ [r]) =
  match find_root a l with Some x => Some x | None => if pr_addr r =? a then Some r else None end.
Proof. induction l as [| x l IH]; [done |]. cbn. by destruct (pr_addr x =? a). Qed.

Lemma find_root_none a l : find_root a l = None → a ∉ pr_addr <$> l.
Proof.
  induction l as [| x l IH]; cbn; [intros _; apply not_elem_of_nil |].
  destruct (Z.eqb_spec (pr_addr x) a); [done |]. intros Hn. apply not_elem_of_cons. auto.
Qed.

Lemma user_root_own own u pn r :
  pages_ok own u → user_root u pn = Some r →
  own !! pr_physpage r = Some (length (page_path pn), root_key pn).
Proof.
  intros Hu. unfold user_root, page_path, root_key. destruct (low_page pn); intros [Hr <-]%find_root_spec.
  - by apply (ro_low _ _ _ (pg_roots _ _ Hu)).
  - by apply (ro_high _ _ _ (pg_roots _ _ Hu)).
Qed.

(** Entries depend on the roots and on what is below them. *)
Lemma user_entry_same own u u' :
  pages_ok own u → up_low u' = up_low u → up_high u' = up_high u →
  (∀ r m q path j, own !! r = Some (m, q) → length path = m → Forall index_ok path →
     entry_at (up_tables u') r path j = entry_at (up_tables u) r path j) →
  ∀ pn, user_entry u' pn = user_entry u pn.
Proof.
  intros Hu Hl Hh He pn. unfold user_entry.
  assert (user_root u' pn = user_root u pn) as -> by (unfold user_root; by rewrite Hl, Hh).
  destruct (user_root u pn) as [r |] eqn:E; [| done].
  eapply He; [by eapply user_root_own | done | apply page_path_ok].
Qed.

(** ** The root of a page *)

(** A frame that is no table does not matter. *)
Lemma entry_at_fresh own tbl t l r m q path j :
  tree_ok own tbl → own !! t = None → own !! r = Some (m, q) → length path = m → Forall index_ok path →
  entry_at (<[t := l]> tbl) r path j = entry_at tbl r path j.
Proof.
  intros Hok Ht. revert r m q. induction path as [| x path IH]; intros r m q Hr Hlen Hix.
  { unfold entry_at. cbn [walk]. by rewrite lookup_insert_ne by congruence. }
  destruct m as [| m]; [done |]. apply Forall_cons in Hix as [Hx Hix]. injection Hlen as Hlen.
  destruct (entry_at_step own tbl Hok r m q x path j Hr Hx) as (l0 & e & Hl & He & -> & Hsub).
  unfold entry_at at 1. cbn [walk]. rewrite lookup_insert_ne, Hl by congruence.
  cbn [mbind option_bind]. rewrite He. destruct (Z.eqb_spec (bf_get pe_page_ppn e) 0); [done |].
  eapply (IH (below_addr e)); [by apply Hsub | done | done].
Qed.

Lemma new_root_spec own u a two k :
  pages_ok own u →
  (∃ u', new_root a two u = Ret (PtRoot 0 a two, u') ∧ no_frame u) ∨
  ∃ p a', new_root a two u =
      Ret (PtRoot p a two, UserPages (up_low u) (up_high u) (<[p := zero_table]> (up_tables u)) a') ∧
    own !! p = None ∧ is_frame p ∧ ¬ frame_used (up_frames u) p ∧
    (∀ q, is_frame q → frame_used a' q ↔ frame_used (up_frames u) q ∨ q = p) ∧ tree_ok (<[p := k]> own) (<[p := zero_table]> (up_tables u)) ∧
    ∀ low high, roots_ok (<[p := k]> own) low high →
      pages_ok (<[p := k]> own) (UserPages low high (<[p := zero_table]> (up_tables u)) a').
Proof.
  intros Hu. destruct (alloc_frame_law (up_frames u) (pg_frames _ _ Hu)) as (p & a' & Ha & Hfa & Hcase).
  unfold new_root, alloc_table. rewrite Ha. cbn [mbind outcome_bind].
  destruct Hcase as [[-> ->] | (Hpf & Hpn & Hq)]; [left; by eexists | right].
  rewrite (proj2 (Z.eqb_neq _ _) (frame_not_0 p Hpf)).
  pose proof (fresh_place own u _ Hu Hpn) as Hfresh.
  pose proof (tree_ok_fresh own (up_tables u) p k (pg_tree _ _ Hu) Hfresh Hpf) as Htree.
  exists p, a'. split_and!; [done.. |]. intros low high Hroots. by eapply pages_ok_more.
Qed.

(** The root of the page is there, at its place, and no entry has changed. *)
Definition rooted own u own' u' (root : PagetableRoot) (pn : Z) : Prop :=
  pages_ok own' u' ∧ grows own u own' u' ∧ user_root u' pn = Some root ∧
  ∀ pn', user_entry u' pn' = user_entry u pn'.

Lemma rooted_new own u low high p a' pn root :
  pages_ok own u → own !! p = None → pr_physpage root = p → user_root u pn = None →
  is_frame p → ¬ frame_used (up_frames u) p →
  (∀ q, is_frame q → frame_used a' q ↔ frame_used (up_frames u) q ∨ q = p) →
  let u' := UserPages low high (<[p := zero_table]> (up_tables u)) a' in
  pages_ok (<[p := (length (page_path pn), root_key pn)]> own) u' →
  (∀ pn', user_root u' pn' = if decide (root_key pn' = root_key pn) then Some root else user_root u pn') →
  up_low u ⊆ low → up_high u ⊆ high →
  rooted own u (<[p := (length (page_path pn), root_key pn)]> own) u' root pn.
Proof.
  intros Hu Hp <- Hn Hpf Hpu Hq u' Hu' Hr Hl Hh. split_and!; [done | by apply grows_insert | |].
  - by rewrite Hr, decide_True.
  - intros pn'. unfold user_entry. rewrite Hr. case_decide as Hk.
    + cbn [up_tables u']. rewrite entry_at_zero by apply lookup_insert_eq.
      assert (user_root u pn' = user_root u pn) as ->; [| by rewrite Hn].
      unfold root_key, user_root in *. destruct (low_page pn), (low_page pn'); congruence.
    + destruct (user_root u pn') as [r |] eqn:E; [| done]. cbn [up_tables u'].
      eapply entry_at_fresh; [by apply (pg_tree _ _ Hu) | done | by eapply user_root_own | done |].
      apply page_path_ok.
Qed.

(** The roots with a new one behind them. *)
Lemma roots_ok_low own low high p a k :
  own !! p = None → roots_ok own low high → find_root a low = None → k = (1%nat, [0; a]) → 0 ≤ a < 3 →
  roots_ok (<[p := k]> own) (low ++ [PtRoot p a false]) high.
Proof.
  intros Hp Hr Hn -> Ha. apply (roots_ok_more own (<[p := (1%nat, [0; a])]> own)) in Hr as [Hl Hh H1 H2];
    [| by apply insert_subseteq]. split; try done.
  - intros r [? | ->%list_elem_of_singleton]%elem_of_app; [by apply Hl |].
    split; [apply lookup_insert_eq | done].
  - rewrite fmap_app. apply NoDup_app. split_and!; [done | | apply NoDup_singleton].
    intros x Hx ->%list_elem_of_singleton. by apply find_root_none in Hx.
Qed.

Lemma roots_ok_high own low high p a k :
  own !! p = None → roots_ok own low high → find_root a high = None → k = (2%nat, [1; a]) → 16 ≤ a < 32 →
  roots_ok (<[p := k]> own) low (high ++ [PtRoot p a true]).
Proof.
  intros Hp Hr Hn -> Ha. apply (roots_ok_more own (<[p := (2%nat, [1; a])]> own)) in Hr as [Hl Hh H1 H2];
    [| by apply insert_subseteq]. split; try done.
  - intros r [? | ->%list_elem_of_singleton]%elem_of_app; [by apply Hh |].
    split; [apply lookup_insert_eq | done].
  - rewrite fmap_app. apply NoDup_app. split_and!; [done | | apply NoDup_singleton].
    intros x Hx ->%list_elem_of_singleton. by apply find_root_none in Hx.
Qed.

Lemma get_low_root_spec own u pn :
  pages_ok own u → low_page pn = true → 0 ≤ Z.shiftr pn 18 < 3 →
  (∃ r u', get_low_root (Z.shiftr pn 18) u = Ret (r, u') ∧ pr_physpage r = 0 ∧
     user_root u pn = None ∧ no_frame u) ∨
  ∃ root u' own', get_low_root (Z.shiftr pn 18) u = Ret (root, u') ∧ rooted own u own' u' root pn.
Proof.
  intros Hu Hlow Hrange. unfold get_low_root.
  assert (user_root u pn = find_root (Z.shiftr pn 18) (up_low u)) as Hroot by (unfold user_root; by rewrite Hlow).
  destruct (find_root (Z.shiftr pn 18) (up_low u)) as [r |] eqn:Hf.
  { right. exists r, u, own. split; [done |]. split_and!; try done. by apply grows_same. }
  destruct (new_root_spec own u (Z.shiftr pn 18) false (length (page_path pn), root_key pn) Hu)
    as [(u' & -> & Hno) | (p & a' & -> & Hp & Hpf & Hpu & Hq & _ & Hok)].
  { left. cbn [mbind outcome_bind]. eexists _, _. by split_and!. }
  right. cbn [mbind outcome_bind]. eexists _, _, _. split; [done |]. apply rooted_new; try done.
  - apply Hok. apply roots_ok_low; try done; [apply (pg_roots _ _ Hu) |].
    unfold page_path, root_key. by rewrite Hlow.
  - intros pn'. unfold user_root, root_key. cbn [up_low up_high]. rewrite Hlow.
    destruct (low_page pn'); [| by rewrite decide_False]. rewrite find_root_app. cbn [pr_addr].
    destruct (Z.eqb_spec (Z.shiftr pn 18) (Z.shiftr pn' 18)) as [E | Hne].
    * rewrite <- E, decide_True by done. by rewrite Hf.
    * rewrite decide_False by congruence. by destruct (find_root (Z.shiftr pn' 18) (up_low u)).
  - intros x Hx. apply elem_of_app. by left.
Qed.

Lemma get_high_root_spec own u pn :
  pages_ok own u → low_page pn = false → 16 ≤ Z.shiftr pn 27 < 32 →
  (∃ r u', get_high_root (Z.shiftr pn 27) u = Ret (r, u') ∧ pr_physpage r = 0 ∧
     user_root u pn = None ∧ no_frame u) ∨
  ∃ root u' own', get_high_root (Z.shiftr pn 27) u = Ret (root, u') ∧ rooted own u own' u' root pn.
Proof.
  intros Hu Hlow Hrange. unfold get_high_root.
  assert (user_root u pn = find_root (Z.shiftr pn 27) (up_high u)) as Hroot by (unfold user_root; by rewrite Hlow).
  destruct (find_root (Z.shiftr pn 27) (up_high u)) as [r |] eqn:Hf.
  { right. exists r, u, own. split; [done |]. split_and!; try done. by apply grows_same. }
  destruct (new_root_spec own u (Z.shiftr pn 27) true (length (page_path pn), root_key pn) Hu)
    as [(u' & -> & Hno) | (p & a' & -> & Hp & Hpf & Hpu & Hq & _ & Hok)].
  { left. cbn [mbind outcome_bind]. eexists _, _. by split_and!. }
  right. cbn [mbind outcome_bind]. eexists _, _, _. split; [done |]. apply rooted_new; try done.
  - apply Hok. apply roots_ok_high; try done; [apply (pg_roots _ _ Hu) |].
    unfold page_path, root_key. by rewrite Hlow.
  - intros pn'. unfold user_root, root_key. cbn [up_low up_high]. rewrite Hlow.
    destruct (low_page pn'); [by rewrite decide_False |]. rewrite find_root_app. cbn [pr_addr].
    destruct (Z.eqb_spec (Z.shiftr pn 27) (Z.shiftr pn' 27)) as [E | Hne].
    * rewrite <- E, decide_True by done. by rewrite Hf.
    * rewrite decide_False by congruence. by destruct (find_root (Z.shiftr pn' 27) (up_high u)).
  - intros x Hx. apply elem_of_app. by left.
Qed.

(** ** The entry of a page *)

Lemma update_entry_spec own u t k i f :
  pages_ok own u → own !! t = Some (0%nat, k) → index_ok i → (∀ e, is_u 64 e → is_u 64 (f e)) →
  ∃ u' l, update_entry t i f u = Ret u' ∧ pages_ok own u' ∧ up_low u' = up_low u ∧ up_high u' = up_high u ∧
    up_frames u' = up_frames u ∧ up_tables u !! t = Some l ∧
    up_tables u' = <[t := <[Z.to_nat i := f (default 0 (l !! Z.to_nat i))]> l]> (up_tables u).
Proof.
  intros Hu Ht Hi Hf. destruct (tr_table _ _ (pg_tree _ _ Hu) _ _ Ht) as (Hft & l & Hl & [Hlen Hall]).
  destruct (lookup_lt_is_Some_2 l (Z.to_nat i)) as [e He]; [unfold index_ok in Hi; lia |].
  unfold update_entry, read_entry, write_entry. rewrite Hl. unfold rd, wr. rewrite He.
  cbn [mbind outcome_bind]. eexists _, l. split_and!; [done | | done | done | done | done | by rewrite He].
  destruct Hu as [Hfr [H1 H2 H3] Hus Hro]. split; cbn; try done. split.
  - intros t0 x Ho. destruct (decide (t0 = t)) as [-> | Hne].
    + split; [done |]. rewrite lookup_insert_eq. eexists; split; [done |].
      split; [by rewrite length_insert |]. apply Forall_insert; [done |]. apply Hf.
      by eapply Forall_lookup_1.
    + rewrite lookup_insert_ne by done. by eapply H1.
  - intros t0 n k0 l0 j e0 Ho. rewrite lookup_insert_ne by congruence. by apply H2.
  - intros t0 n k0 l0 j e0 Ho. rewrite lookup_insert_ne by congruence. by eapply H3.
Qed.

(** Writing the entry of [pn] in its table of the last level. *)
Lemma write_user_page own u u1 root t pn f :
  pages_ok own u1 → user_root u1 pn = Some root → (∀ pn', user_entry u1 pn' = user_entry u pn') →
  walk (up_tables u1) (pr_physpage root) (page_path pn) = Some t → 0 ≤ pn →
  (∀ e, is_u 64 e → is_u 64 (f e)) →
  ∃ u', update_entry t (page_index pn) f u1 = Ret u' ∧ pages_ok own u' ∧ up_frames u' = up_frames u1 ∧
    up_low u' = up_low u1 ∧ up_high u' = up_high u1 ∧
    ∀ pn', 0 ≤ pn' → user_entry u' pn' = if decide (pn' = pn) then f (user_entry u pn) else user_entry u pn'.
Proof.
  intros Hu1 Hroot Hsame Hw Hp Hf. pose proof (user_root_own _ _ _ _ Hu1 Hroot) as Ho.
  pose proof (walk_own _ _ (pg_tree _ _ Hu1) _ _ _ _ _ Ho eq_refl (page_path_ok pn) Hw) as Ht.
  destruct (update_entry_spec own u1 t _ (page_index pn) f Hu1 Ht (page_index_ok pn) Hf)
    as (u' & l & Hup & Hu' & Hlow & Hhigh & Hfr & Hl & Htbl).
  exists u'. split_and!; [done.. |]. intros pn' Hp'. rewrite <- !Hsame. unfold user_entry.
  assert (user_root u' pn' = user_root u1 pn') as -> by (unfold user_root; by rewrite Hlow, Hhigh).
  assert (f (default 0 (l !! Z.to_nat (page_index pn))) =
    f (entry_at (up_tables u1) (pr_physpage root) (page_path pn) (page_index pn))) as Ef.
  { unfold entry_at. rewrite Hw, Hl. done. }
  rewrite Htbl, Ef, Hroot. destruct (user_root u1 pn') as [r |] eqn:Er.
  2: { rewrite decide_False; [done |]. intros ->. congruence. }
  pose proof (user_root_own _ _ _ _ Hu1 Er) as Ho'.
  rewrite (entry_at_write _ _ (pg_tree _ _ Hu1) t _ l (page_index pn) _ Ht Hl (page_index_ok pn)
    _ _ _ (page_path pn') (page_index pn') Ho' eq_refl (page_path_ok pn') (page_index_ok pn')).
  destruct (decide (pn' = pn)) as [-> | Hne].
  - rewrite Hroot in Er. injection Er as <-. by rewrite decide_True.
  - rewrite decide_False; [done |]. intros [Hw' Hi]. apply Hne.
    pose proof (walk_own _ _ (pg_tree _ _ Hu1) _ _ _ _ _ Ho' eq_refl (page_path_ok pn') Hw') as Ht'.
    rewrite Ht in Ht'. apply (f_equal (fmap snd)) in Ht'. cbn [fmap option_fmap option_map snd] in Ht'.
    apply (inj Some) in Ht'. by apply page_inj.
Qed.

(** The outcome of Pageentry on page [pn]. *)
Definition pageentry_done own u (pn : Z) (f : Z → Z) (r : outcome (bool * user_pages A)) : Prop :=
  (r = Panicked ∧ user_root u pn = None ∧ no_frame u) ∨
  ∃ b u' own', r = Ret (b, u') ∧ pages_ok own' u' ∧ grows own u own' u' ∧
    (b = false → no_frame u' ∧ user_entry u pn = 0) ∧
    ∀ pn', 0 ≤ pn' →
      user_entry u' pn' = if b && bool_decide (pn' = pn) then f (user_entry u pn) else user_entry u pn'.

Lemma more_entries own u own' u' pn :
  pages_ok own u → more_tables own u own' u' → user_entry u' pn = user_entry u pn.
Proof. intros Hu [_ _ Hl Hh He]. by eapply user_entry_same. Qed.

Lemma more_root own u own' u' pn : more_tables own u own' u' → user_root u' pn = user_root u pn.
Proof. intros [_ _ Hl Hh _ _]. unfold user_root. by rewrite Hl, Hh. Qed.

Lemma page_index_land pn : Z.land (Z.land pn 0x3FFFF) 0x1FF = page_index pn.
Proof.
  unfold page_index. change 0x3FFFF with (Z.ones 18). change 0x1FF with (Z.ones 9).
  rewrite !Z.land_ones by lia. apply Z.mod_mod_divide. by exists (2 ^ 9).
Qed.

(** The last step, once the table of the page is there. *)
Lemma finish_page own u own1 u1 root t pn f :
  pages_ok own1 u1 → grows own u own1 u1 → user_root u1 pn = Some root →
  (∀ pn', user_entry u1 pn' = user_entry u pn') →
  walk (up_tables u1) (pr_physpage root) (page_path pn) = Some t → 0 ≤ pn →
  (∀ e, is_u 64 e → is_u 64 (f e)) →
  pageentry_done own u pn f (u ← update_entry t (page_index pn) f u1; Ret (true, u)).
Proof.
  intros Hu1 Hsub Hroot Hsame Hw Hp Hf.
  destruct (write_user_page own1 u u1 root t pn f) as (u' & -> & Hu' & Hfr & Hl & Hh & He); try done.
  cbn [mbind outcome_bind]. right. exists true, u', own1. split_and!; try done.
  { eapply grows_trans; [done | by apply grows_same]. }
  intros pn' Hp'. rewrite He by done. cbn [andb]. by destruct (decide (pn' = pn)), (bool_decide_reflect (pn' = pn)).
Qed.

(** The table that holds the entry of a page. *)
Definition leaf_table u (pn : Z) : option Z :=
  user_root u pn ≫= fun r => walk (up_tables u) (pr_physpage r) (page_path pn).

Lemma leaf_none u pn : leaf_table u pn = None → user_entry u pn = 0.
Proof.
  unfold leaf_table, user_entry, entry_at. destruct (user_root u pn) as [r |]; [| done].
  cbn [mbind option_bind]. by intros ->.
Qed.

Lemma walk_none tbl t i path : walk tbl t [i] = None → walk tbl t (i :: path) = None.
Proof. cbn [walk]. destruct (tbl !! t ≫= _) as [e |]; [| done]. by destruct (_ =? 0). Qed.

(** No memory for a table. *)
Lemma no_table own u own1 u1 pn f :
  pages_ok own1 u1 → grows own u own1 u1 → (∀ pn', user_entry u1 pn' = user_entry u pn') → no_frame u1 →
  leaf_table u1 pn = None → pageentry_done own u pn f (Ret (false, u1)).
Proof.
  intros Hu1 Hsub Hsame Hno Hleaf. right. exists false, u1, own1. split_and!; try done.
  intros _. split; [done |]. rewrite <- Hsame. by apply leaf_none.
Qed.

Lemma walk_cons tbl t i t' path : walk tbl t [i] = Some t' → walk tbl t (i :: path) = walk tbl t' path.
Proof.
  cbn [walk]. destruct (tbl !! t ≫= _) as [e |]; [| done]. by destruct (_ =? 0); [| intros [= ->]].
Qed.

Lemma page_index_land_high pn : Z.land (Z.land (Z.land pn 0x7FFFFFF) 0x3FFFF) 0x1FF = page_index pn.
Proof.
  rewrite <- (page_index_land pn). f_equal. rewrite <- Z.land_assoc. by f_equal.
Qed.

Lemma branches_owned own u root pn :
  pages_ok own u → user_root u pn = Some root → branches root = Ret (pr_physpage root).
Proof.
  intros Hu Hr. pose proof (user_root_own _ _ _ _ Hu Hr) as Ho. unfold branches.
  destruct (tr_table _ _ (pg_tree _ _ Hu) _ _ Ho) as [Hf _].
  by rewrite (proj2 (Z.eqb_neq _ _) (frame_not_0 _ Hf)).
Qed.

Lemma Pageentry_low own u pn f :
  pages_ok own u → user_page pn → low_page pn = true → (∀ e, is_u 64 e → is_u 64 (f e)) →
  pageentry_done own u pn f (Pageentry pn f u).
Proof.
  intros Hu [Hp Hus] Hlow Hf. unfold Pageentry. fold (low_page pn). rewrite Hlow.
  rewrite low_page_spec in Hlow by lia. bsimp.
  assert (Z.shiftr pn 18 < 3) by (rewrite Z.shiftr_div_pow2 by lia; apply Z.div_lt_upper_bound; lia).
  rewrite (proj2 (Z.leb_gt _ _)) by done.
  assert (low_page pn = true) as Hlow' by (rewrite low_page_spec by lia; by apply Z.ltb_lt).
  assert (0 ≤ Z.shiftr pn 18) by (rewrite Z.shiftr_div_pow2 by lia; apply Z.div_pos; lia).
  destruct (get_low_root_spec own u pn Hu Hlow' ltac:(lia)) as
    [(r & u1 & -> & Hr0 & Hn & Hno) | (root & u1 & own1 & -> & Hu1 & Hsub1 & Hroot & Hsame)].
  { left. cbn [mbind outcome_bind]. unfold branches. by rewrite Hr0. }
  cbn [mbind outcome_bind]. rewrite (branches_owned _ _ _ _ Hu1 Hroot). cbn [mbind outcome_bind].
  pose proof (user_root_own _ _ _ _ Hu1 Hroot) as Ho. pose proof (page_path_ok pn) as Hix.
  assert (page_path pn = [Z.shiftr (Z.land pn 0x3FFFF) 9]) as Epath by (unfold page_path; by rewrite Hlow').
  rewrite Epath in Ho, Hix. apply Forall_cons in Hix as [Hix _].
  destruct (table_below_spec own1 u1 table_addr _ _ _ _ Hu1 Ho Hix (or_introl eq_refl))
    as [(-> & Hno & Hnone) | (t & u2 & own2 & -> & Hm & Ht & Hw)]; cbn [mbind outcome_bind].
  { eapply no_table; try done. unfold leaf_table. rewrite Hroot, Epath. done. }
  rewrite page_index_land. eapply finish_page; [apply Hm | | | | by rewrite Epath | lia | done].
  - eapply grows_trans; [exact Hsub1 | apply Hm].
  - rewrite (more_root _ _ _ _ pn Hm). exact Hroot.
  - intros pn'. rewrite (more_entries _ _ _ _ pn' Hu1 Hm). apply Hsame.
Qed.

Lemma Pageentry_high own u pn f :
  pages_ok own u → user_page pn → low_page pn = false → (∀ e, is_u 64 e → is_u 64 (f e)) →
  pageentry_done own u pn f (Pageentry pn f u).
Proof.
  intros Hu [Hp Hus] Hlow Hf. unfold Pageentry. fold (low_page pn). rewrite Hlow.
  assert (Z.shiftr pn 27 < 32) by (rewrite Z.shiftr_div_pow2 by lia; apply Z.div_lt_upper_bound; lia).
  rewrite (proj2 (Z.leb_gt _ _)) by (unfold PMLT4_USERSPACE_HIGH_END; lia).
  assert (16 ≤ Z.shiftr pn 27).
  { unfold low_page, PMLT4_USERSPACE_HIGH_START in Hlow. by bsimp. }
  destruct (get_high_root_spec own u pn Hu Hlow ltac:(lia)) as
    [(r & u1 & -> & Hr0 & Hn & Hno) | (root & u1 & own1 & -> & Hu1 & Hsub1 & Hroot & Hsame)].
  { left. cbn [mbind outcome_bind]. unfold branches. by rewrite Hr0. }
  cbn [mbind outcome_bind]. rewrite (branches_owned _ _ _ _ Hu1 Hroot). cbn [mbind outcome_bind].
  pose proof (user_root_own _ _ _ _ Hu1 Hroot) as Ho. pose proof (page_path_ok pn) as Hix.
  assert (page_path pn = [Z.shiftr (Z.land pn 0x7FFFFFF) 18;
    Z.shiftr (Z.land (Z.land pn 0x7FFFFFF) 0x3FFFF) 9]) as Epath by (unfold page_path; by rewrite Hlow).
  rewrite Epath in Ho, Hix. apply Forall_cons in Hix as [Hix1 Hix]. apply Forall_cons in Hix as [Hix2 _].
  destruct (table_below_spec own1 u1 table_addr _ _ _ _ Hu1 Ho Hix1 (or_introl eq_refl))
    as [(-> & Hno & Hnone) | (t & u2 & own2 & -> & Hm & Ht & Hw)]; cbn [mbind outcome_bind].
  { eapply no_table; try done. unfold leaf_table. rewrite Hroot, Epath. by apply walk_none. }
  assert (grows own u own2 u2) as Hsub2 by (eapply grows_trans; [exact Hsub1 | apply Hm]).
  assert (∀ pn', user_entry u2 pn' = user_entry u pn') as Hsame2
    by (intros pn'; rewrite (more_entries _ _ _ _ pn' Hu1 Hm); apply Hsame).
  assert (pages_ok own2 u2) as Hu2 by apply Hm.
  destruct (table_below_spec own2 u2 table_addr32 _ _ _ _ Hu2 Ht Hix2 (or_intror eq_refl))
    as [(-> & Hno & Hnone) | (t2 & u3 & own3 & -> & Hm3 & Ht3 & Hw3)]; cbn [mbind outcome_bind].
  { eapply no_table; try done. unfold leaf_table. rewrite (more_root _ _ _ _ pn Hm), Hroot, Epath.
    cbn [mbind option_bind]. by rewrite (walk_cons _ _ _ t). }
  rewrite page_index_land_high. eapply finish_page; [apply Hm3 | | | | rewrite Epath | lia | done].
  - eapply grows_trans; [exact Hsub2 | apply Hm3].
  - rewrite (more_root _ _ _ _ pn Hm3), (more_root _ _ _ _ pn Hm). exact Hroot.
  - intros pn'. rewrite (more_entries _ _ _ _ pn' Hu2 Hm3). apply Hsame2.
  - rewrite (walk_cons _ _ _ t); [done |]. eapply (mt_step _ _ _ _ Hm3); [| exact Hw].
    eapply lookup_weaken; [exact Ho | apply (gr_own _ _ _ _ (mt_own _ _ _ _ Hm))].
Qed.

(** ** The lookup *)

Lemma read_entry_own own u t x i :
  pages_ok own u → own !! t = Some x → index_ok i →
  ∃ l e, read_entry u t i = Ret e ∧ up_tables u !! t = Some l ∧ l !! Z.to_nat i = Some e.
Proof.
  intros Hu Ht Hi. destruct (tr_table _ _ (pg_tree _ _ Hu) _ _ Ht) as (_ & l & Hl & [Hlen _]).
  destruct (lookup_lt_is_Some_2 l (Z.to_nat i)) as [e He]; [unfold index_ok in Hi; lia |].
  exists l, e. unfold read_entry. rewrite Hl. unfold rd. by rewrite He.
Qed.

Lemma table_of_walk own u t n k i :
  pages_ok own u → own !! t = Some (S n, k) → index_ok i →
  ∃ e, read_entry u t i = Ret e ∧ table_of e = walk (up_tables u) t [i] ∧
    ∀ t', table_of e = Some t' → own !! t' = Some (n, k ++ [i]).
Proof.
  intros Hu Ht Hi. destruct (read_entry_own own u t _ i Hu Ht Hi) as (l & e & Hr & Hl & He).
  exists e. split; [done |]. unfold table_of. cbn [walk]. rewrite Hl. cbn [mbind option_bind]. rewrite He.
  destruct (Z.eqb_spec (bf_get pe_page_ppn e) 0) as [| Hp]; [by split |].
  destruct (tr_below _ _ (pg_tree _ _ Hu) _ _ _ _ _ _ Ht Hl He Hp) as [E _].
  destruct (tr_table _ _ (pg_tree _ _ Hu) _ _ E) as [Hf _].
  destruct (table_addr_frame e Hf) as [-> _]. split; [done |]. intros t' [= <-]. rewrite E.
  by rewrite Z2Nat.id by (unfold index_ok in Hi; lia).
Qed.

Lemma read_leaf own u t k pn :
  pages_ok own u → own !! t = Some (0%nat, k) → leaf_table u pn = Some t →
  Some <$> read_entry u t (page_index pn) = Ret (Some (user_entry u pn)).
Proof.
  intros Hu Ht Hleaf. destruct (read_entry_own own u t _ _ Hu Ht (page_index_ok pn)) as (l & e & -> & Hl & He).
  unfold leaf_table in Hleaf. unfold user_entry, entry_at.
  destruct (user_root u pn) as [r |]; [| done]. cbn [mbind option_bind] in Hleaf. rewrite Hleaf, Hl.
  cbn [mbind option_bind]. by rewrite He.
Qed.

Lemma get_Pageentry_low own u pn :
  pages_ok own u → user_page pn → low_page pn = true →
  get_Pageentry pn u = Ret (if leaf_table u pn then Some (user_entry u pn) else None).
Proof.
  intros Hu [Hp Hus] Hlow. unfold get_Pageentry. fold (low_page pn). rewrite Hlow.
  pose proof Hlow as Hlow'. rewrite low_page_spec in Hlow' by lia. bsimp.
  assert (Z.shiftr pn 18 < 3) by (rewrite Z.shiftr_div_pow2 by lia; apply Z.div_lt_upper_bound; lia).
  rewrite (proj2 (Z.leb_gt _ _)) by done.
  assert (user_root u pn = find_root (Z.shiftr pn 18) (up_low u)) as Hroot by (unfold user_root; by rewrite Hlow).
  unfold leaf_table. rewrite Hroot. destruct (find_root _ _) as [r |]; [| done].
  rewrite (branches_owned _ _ _ _ Hu Hroot). cbn [mbind outcome_bind option_bind].
  pose proof (user_root_own _ _ _ _ Hu Hroot) as Ho. pose proof (page_path_ok pn) as Hix.
  assert (page_path pn = [Z.shiftr (Z.land pn 0x3FFFF) 9]) as Epath by (unfold page_path; by rewrite Hlow).
  rewrite Epath in Ho, Hix |- *. apply Forall_cons in Hix as [Hix _].
  destruct (table_of_walk own u _ _ _ _ Hu Ho Hix) as (e & -> & Hw & Hown). cbn [mbind outcome_bind].
  rewrite <- Hw. destruct (table_of e) as [t |] eqn:Et; [| done]. rewrite page_index_land.
  eapply read_leaf; [done | by apply Hown |]. unfold leaf_table. rewrite Hroot, Epath. cbn [mbind option_bind].
  by rewrite <- Hw.
Qed.

Lemma get_Pageentry_high own u pn :
  pages_ok own u → user_page pn → low_page pn = false →
  get_Pageentry pn u = Ret (if leaf_table u pn then Some (user_entry u pn) else None).
Proof.
  intros Hu [Hp Hus] Hlow. unfold get_Pageentry. fold (low_page pn). rewrite Hlow.
  assert (Z.shiftr pn 27 < 32) by (rewrite Z.shiftr_div_pow2 by lia; apply Z.div_lt_upper_bound; lia).
  rewrite (proj2 (Z.leb_gt _ _)) by (unfold PMLT4_USERSPACE_HIGH_END, PMLT4_USERSPACE_HIGH_START; lia).
  assert (user_root u pn = find_root (Z.shiftr pn 27) (up_high u)) as Hroot by (unfold user_root; by rewrite Hlow).
  unfold leaf_table. rewrite Hroot. destruct (find_root _ _) as [r |]; [| done].
  rewrite (branches_owned _ _ _ _ Hu Hroot). cbn [mbind outcome_bind option_bind].
  pose proof (user_root_own _ _ _ _ Hu Hroot) as Ho. pose proof (page_path_ok pn) as Hix.
  assert (page_path pn = [Z.shiftr (Z.land pn 0x7FFFFFF) 18;
    Z.shiftr (Z.land (Z.land pn 0x7FFFFFF) 0x3FFFF) 9]) as Epath by (unfold page_path; by rewrite Hlow).
  rewrite Epath in Ho, Hix |- *. apply Forall_cons in Hix as [Hix1 Hix]. apply Forall_cons in Hix as [Hix2 _].
  destruct (table_of_walk own u _ _ _ _ Hu Ho Hix1) as (e & -> & Hw & Hown). cbn [mbind outcome_bind].
  destruct (table_of e) as [t |] eqn:Et; [| by rewrite (walk_none _ _ _ _ (eq_sym Hw))].
  rewrite (walk_cons _ _ _ t) by done.
  destruct (table_of_walk own u t _ _ _ Hu (Hown t eq_refl) Hix2) as (e2 & -> & Hw2 & Hown2).
  cbn [mbind outcome_bind]. rewrite <- Hw2. destruct (table_of e2) as [t2 |] eqn:Et2; [| done].
  rewrite page_index_land_high. eapply read_leaf; [done | by apply Hown2 |].
  unfold leaf_table. rewrite Hroot, Epath. cbn [mbind option_bind]. by rewrite (walk_cons _ _ _ t).
Qed.

Lemma get_Pageentry_spec own u pn :
  pages_ok own u → user_page pn →
  get_Pageentry pn u = Ret (if leaf_table u pn then Some (user_entry u pn) else None).
Proof.
  intros. destruct (low_page pn) eqn:?; [by eapply get_Pageentry_low | by eapply get_Pageentry_high].
Qed.

(** The frame of a page, or 0. *)
Definition frame_of u (pn : Z) : Z :=
  if bf_flag pe_present (user_entry u pn) then below_addr (user_entry u pn) else 0.

Lemma ppn_range e : 0 ≤ bf_get pe_page_ppn e < 2 ^ 32.
Proof. unfold bf_get. apply (wrap_range 32). lia. Qed.

Lemma phys_addr_spec own u pn off :
  pages_ok own u → user_page pn → 0 ≤ off < 4096 → phys_addr (4096 * pn + off) u = Ret (frame_of u pn).
Proof.
  intros Hu Hp Ho. unfold phys_addr. rewrite Z.shiftr_div_pow2 by lia. change (2 ^ 12) with 4096.
  rewrite (Z.mul_comm 4096), Z.div_add_l, (Z.div_small off), Z.add_0_r by lia.
  rewrite wrap_id by (unfold is_u, user_page in *; lia). rewrite Z.eqb_refl. cbn [negb].
  rewrite (get_Pageentry_spec own) by done. cbn [mbind outcome_bind]. unfold frame_of.
  destruct (leaf_table u pn) eqn:E; [| by rewrite (leaf_none u pn E)].
  destruct (bf_flag _ _); [| done]. pose proof (ppn_range (user_entry u pn)).
  rewrite Z.shiftl_mul_pow2 by lia. change (2 ^ 12) with 4096.
  rewrite wrap_id by (unfold is_u; lia). unfold below_addr, PAGESIZE. by rewrite Z.mul_comm.
Qed.

(** C29: the tables of a process are an array of entries.  For a page of user
    memory, Pageentry applies the function to the entry of that page and to no
    other, making the tables it needs, whose entries are 0; the tables stay a
    tree of frames that are in use and each at one place.  It returns false with
    all entries as before if there is no frame for a table, and the kernel
    faults if there is none for a root.  The other overload returns the entry, or
    nothing where there is no table.  phys_addr of an address in the page gives
    the frame of the entry, or 0 if it is not present, and 0 for all addresses
    from 2^44 on.  The frame allocator hands out frames below 4 GiB, which is
    as much memory as the code can keep tables in. *)
Theorem pageentry_correct own u (pn : Z) (f : Z → Z) :
  pages_ok own u → user_page pn → (∀ e, is_u 64 e → is_u 64 (f e)) →
  pageentry_done own u pn f (Pageentry pn f u) ∧
  get_Pageentry pn u = Ret (if leaf_table u pn then Some (user_entry u pn) else None) ∧
  (∀ off, 0 ≤ off < 4096 → phys_addr (4096 * pn + off) u = Ret (frame_of u pn)) ∧
  ∀ addr, 2 ^ 44 ≤ addr < 2 ^ 64 → phys_addr addr u = Ret 0.
Proof.
  intros Hu Hp Hf. split_and!.
  - destruct (low_page pn) eqn:Hlow; [by apply Pageentry_low | by apply Pageentry_high].
  - by eapply get_Pageentry_spec.
  - intros off Ho. by eapply phys_addr_spec.
  - intros addr Ha. unfold phys_addr. rewrite Z.shiftr_div_pow2 by lia.
    assert (2 ^ 32 ≤ addr / 2 ^ 12) by (apply Z.div_le_lower_bound; lia).
    pose proof (wrap_range 32 (addr / 2 ^ 12) ltac:(lia)).
    by rewrite (proj2 (Z.eqb_neq _ _)) by lia.
Qed.

(** * task_enter *)

(** What the CPU finds for a page: it follows entries that are present. *)
Fixpoint follow (tbl : gmap Z (list Z)) (e : Z) (path : list Z) : option Z :=
  match path with
  | [] => Some e
  | i :: path =>
      if bf_get pe_present e =? 1 then
        e' ← tbl !! below_addr e ≫= (.!! Z.to_nat i); follow tbl e' path
      else None
  end.

Definition cpu_entry (c : cpu_tables) (tbl : gmap Z (list Z)) (pn : Z) : option Z :=
  e ← (if low_page pn then ct_low c !! Z.to_nat (Z.shiftr pn 18) else ct_root c !! Z.to_nat (Z.shiftr pn 27));
  follow tbl e (page_path pn ++ [page_index pn]).

Lemma follow_walk own tbl e r n k path t i x :
  tree_ok own tbl → own !! r = Some (n, k) → length path = n → Forall index_ok path →
  below_addr e = r → bf_get pe_present e = 1 → walk tbl r path = Some t →
  tbl !! t ≫= (.!! Z.to_nat i) = Some x → follow tbl e (path ++ [i]) = Some x.
Proof.
  intros Hok. revert e r n k. induction path as [| j path IH]; intros e r n k Hr Hlen Hix <- Hpr Hw Hx.
  { injection Hw as <-. cbn [app follow]. rewrite Hpr. cbn [Z.eqb Pos.eqb].
    destruct (tbl !! _ ≫= _); [| done]. done. }
  destruct n as [| n]; [done |]. apply Forall_cons in Hix as [Hj Hix]. injection Hlen as Hlen.
  destruct (entry_at_step own tbl Hok _ n k j [] 0 Hr Hj) as (l & e' & Hl & He & _ & Hown).
  cbn [app follow]. rewrite Hpr. cbn [Z.eqb Pos.eqb]. cbn [walk] in Hw. rewrite Hl in Hw |- *.
  cbn [mbind option_bind] in *. rewrite He in Hw |- *.
  destruct (Z.eqb_spec (bf_get pe_page_ppn e') 0) as [| Hp]; [done |].
  eapply IH; [by apply Hown | done | done | done | | done | done].
  by destruct (tr_below _ _ Hok _ _ _ _ _ _ Hr Hl He Hp).
Qed.

Lemma root_entry_spec r pe :
  is_frame (pr_physpage r) →
  below_addr (root_entry r pe) = pr_physpage r ∧ bf_get pe_present (root_entry r pe) = 1.
Proof.
  intros (n & E & Hn). unfold below_addr, root_entry. rewrite E. fields. cbn [bf_bits pe_page_ppn pe_present].
  rewrite Z.shiftr_div_pow2 by lia. change (2 ^ 12) with PAGESIZE. rewrite frame_page.
  by rewrite wrap_id by (unfold is_u; lia).
Qed.

(** The entries after the roots have been hung in. *)
Definition entered (l : list PagetableRoot) (pt pt' : list Z) : Prop :=
  length pt' = length pt ∧
  ∀ a, 0 ≤ a → pt' !! Z.to_nat a =
    match find_root a l with Some r => root_entry r <$> pt !! Z.to_nat a | None => pt !! Z.to_nat a end.

Lemma entered_cons r l pt pe pt' :
  0 ≤ pr_addr r → pt !! Z.to_nat (pr_addr r) = Some pe → pr_addr r ∉ pr_addr <$> l →
  entered l (<[Z.to_nat (pr_addr r) := root_entry r pe]> pt) pt' → entered (r :: l) pt pt'.
Proof.
  intros Hr Hpe Hn [Hlen He]. split; [by rewrite Hlen, length_insert |]. intros a Ha. rewrite He by done.
  cbn [find_root]. destruct (Z.eqb_spec (pr_addr r) a) as [<- | Hne].
  - destruct (find_root (pr_addr r) l) as [r' |] eqn:E.
    + destruct (find_root_spec _ _ _ E) as [Hin Ea]. destruct Hn. rewrite <- Ea. by apply list_elem_of_fmap_2.
    + rewrite list_lookup_insert_eq by (by eapply lookup_lt_Some). by rewrite Hpe.
  - by rewrite list_lookup_insert_ne by lia.
Qed.

Lemma entered_nil pt : entered [] pt pt.
Proof. by split. Qed.

Lemma enter_low_spec l pt :
  NoDup (pr_addr <$> l) → (∀ r, r ∈ l → 0 ≤ pr_addr r < Z.of_nat (length pt)) →
  ∃ pt', enter_low l pt = Ret pt' ∧ entered l pt pt'.
Proof.
  revert pt. induction l as [| r l IH]; intros pt; cbn [fmap list_fmap enter_low].
  { intros _ _. exists pt. split; [done | apply entered_nil]. }
  intros [Hn Hd]%NoDup_cons Hr. destruct (Hr r) as [H1 H2]; [left |].
  destruct (lookup_lt_is_Some_2 pt (Z.to_nat (pr_addr r))) as [pe Hpe]; [lia |].
  unfold rd, wr. rewrite Hpe. cbn [mbind outcome_bind].
  destruct (IH (<[Z.to_nat (pr_addr r) := root_entry r pe]> pt)) as (pt' & -> & He); [done | |].
  { intros r' Hr'. rewrite length_insert. apply Hr. by right. }
  exists pt'. split; [done |]. by eapply entered_cons.
Qed.

Lemma enter_high_low l pt :
  (∀ r, r ∈ l → PMLT4_USERSPACE_HIGH_START ≤ pr_addr r < PMLT4_USERSPACE_HIGH_END) →
  enter_high l pt = enter_low l pt.
Proof.
  revert pt. induction l as [| r l IH]; intros pt Hr; [done |]. cbn [enter_high enter_low].
  destruct (Hr r) as [H1 H2]; [left |].
  replace (_ || _) with false by lia. destruct (rd pt (pr_addr r)) as [e | | |]; try done.
  cbn [mbind outcome_bind]. destruct (wr pt (pr_addr r) _); try done. cbn [mbind outcome_bind].
  apply IH. intros r' ?. apply Hr. by right.
Qed.

Lemma task_enter_spec own u c :
  pages_ok own u → length (ct_root c) = 512%nat → length (ct_low c) = 512%nat →
  ∃ c', task_enter u c = Ret c' ∧ entered (up_low u) (ct_low c) (ct_low c') ∧
    entered (up_high u) (ct_root c) (ct_root c').
Proof.
  intros Hu H1 H2. destruct (pg_roots _ _ Hu) as [Hl Hh Hlo Hho]. unfold task_enter.
  destruct (enter_low_spec (up_low u) (ct_low c) Hlo) as (low & -> & Hlow).
  { intros r Hr. destruct (Hl r Hr). rewrite H2. lia. }
  cbn [mbind outcome_bind]. rewrite enter_high_low.
  2: { intros r Hr. destruct (Hh r Hr). unfold PMLT4_USERSPACE_HIGH_START, PMLT4_USERSPACE_HIGH_END. lia. }
  destruct (enter_low_spec (up_high u) (ct_root c) Hho) as (root & -> & Hroot).
  { intros r Hr. destruct (Hh r Hr). rewrite H1. lia. }
  cbn [mbind outcome_bind]. by eexists.
Qed.

(** The entry of the CPU through which it reaches a page. *)
Definition cpu_root (c : cpu_tables) (pn : Z) : option Z :=
  if low_page pn then ct_low c !! Z.to_nat (Z.shiftr pn 18) else ct_root c !! Z.to_nat (Z.shiftr pn 27).

Lemma cpu_root_entered u c c' pn :
  entered (up_low u) (ct_low c) (ct_low c') → entered (up_high u) (ct_root c) (ct_root c') → 0 ≤ pn →
  cpu_root c' pn = match user_root u pn with Some r => root_entry r <$> cpu_root c pn | None => cpu_root c pn end.
Proof.
  intros [_ H1] [_ H2] Hp. unfold cpu_root, user_root.
  destruct (low_page pn); [apply H1 | apply H2]; by apply Z.shiftr_nonneg.
Qed.

Lemma cpu_root_some c pn :
  length (ct_root c) = 512%nat → length (ct_low c) = 512%nat → user_page pn → is_Some (cpu_root c pn).
Proof.
  intros H1 H2 [Hp Hus]. unfold cpu_root. destruct (low_page pn) eqn:Hlow; apply lookup_lt_is_Some_2.
  - rewrite low_page_spec in Hlow by lia. bsimp. rewrite H2, Z.shiftr_div_pow2 by lia.
    assert (pn / 2 ^ 18 < 3) by (apply Z.div_lt_upper_bound; lia). lia.
  - rewrite H1, Z.shiftr_div_pow2 by lia.
    assert (pn / 2 ^ 27 < 32) by (apply Z.div_lt_upper_bound; lia). lia.
Qed.

Lemma cpu_sees own u c c' pn t :
  pages_ok own u → length (ct_root c) = 512%nat → length (ct_low c) = 512%nat → user_page pn →
  entered (up_low u) (ct_low c) (ct_low c') → entered (up_high u) (ct_root c) (ct_root c') →
  leaf_table u pn = Some t → cpu_entry c' (up_tables u) pn = Some (user_entry u pn).
Proof.
  intros Hu H1 H2 Hp Hl Hh Hleaf. destruct (cpu_root_some c pn H1 H2 Hp) as [pe Hpe].
  pose proof (cpu_root_entered u c c' pn Hl Hh (proj1 (proj1 Hp))) as Hc. unfold leaf_table in Hleaf.
  unfold user_entry, entry_at. destruct (user_root u pn) as [r |] eqn:Hr; [| done].
  cbn [mbind option_bind] in Hleaf. rewrite Hleaf.
  pose proof (user_root_own _ _ _ _ Hu Hr) as Ho.
  destruct (tr_table _ _ (pg_tree _ _ Hu) _ _ Ho) as [Hf _]. destruct (root_entry_spec r pe Hf) as [Eb Epr].
  pose proof (walk_own _ _ (pg_tree _ _ Hu) _ _ _ _ _ Ho eq_refl (page_path_ok pn) Hleaf) as Ht.
  destruct (read_entry_own own u t _ _ Hu Ht (page_index_ok pn)) as (l & e & _ & Hle & He).
  unfold cpu_entry. fold (cpu_root c' pn). rewrite Hc, Hpe. cbn [fmap option_fmap option_map mbind option_bind].
  rewrite (follow_walk own _ _ _ _ _ _ t (page_index pn) e (pg_tree _ _ Hu) Ho eq_refl
    (page_path_ok pn) Eb Epr Hleaf); [| by rewrite Hle].
  rewrite Hle. cbn [mbind option_bind]. by rewrite He.
Qed.

(** after task_enter the CPU finds, for each page of user memory that the
    process has a table for, the entry of the process. *)
Theorem task_enter_correct own u (c : cpu_tables) :
  pages_ok own u → length (ct_root c) = 512%nat → length (ct_low c) = 512%nat →
  ∃ c', task_enter u c = Ret c' ∧
    ∀ pn t, user_page pn → leaf_table u pn = Some t →
      cpu_entry c' (up_tables u) pn = Some (user_entry u pn).
Proof.
  intros Hu H1 H2. destruct (task_enter_spec own u c Hu H1 H2) as (c' & -> & Hl & Hh).
  exists c'. split; [done |]. intros pn t Hp Hleaf. by apply (cpu_sees own u c c' pn t).
Qed.

(** task_enter leaves the tables of the process that ran before where the new
    one has none: when process [ua] ran and [ub] is entered, the CPU still
    finds the entry of [ua] for every page in a part of the address space
    that [ub] has no root for. *)
Theorem task_enter_leaks own ua own' ub (c : cpu_tables) :
  pages_ok own ua → pages_ok own' ub → length (ct_root c) = 512%nat → length (ct_low c) = 512%nat →
  ∃ c1 c2, task_enter ua c = Ret c1 ∧ task_enter ub c1 = Ret c2 ∧
    ∀ pn t, user_page pn → leaf_table ua pn = Some t → user_root ub pn = None →
      cpu_entry c2 (up_tables ua) pn = Some (user_entry ua pn).
Proof.
  intros Ha Hb H1 H2. destruct (task_enter_spec own ua c Ha H1 H2) as (c1 & -> & Hl1 & Hh1).
  destruct (task_enter_spec own' ub c1 Hb) as (c2 & E2 & Hl2 & Hh2).
  { destruct Hh1. congruence. }
  { destruct Hl1. congruence. }
  exists c1, c2. split_and!; [done | done |]. intros pn t Hp Hleaf Hn.
  rewrite <- (cpu_sees own ua c c1 pn t) by done. unfold cpu_entry. fold (cpu_root c1 pn) (cpu_root c2 pn).
  rewrite (cpu_root_entered ub c1 c2 pn Hl2 Hh2) by (apply Hp). by rewrite Hn.
Qed.

(** * The destructor of a root *)

Lemma mapM_ret {X Y} (f : X → outcome Y) (g : X → Y) l :
  (∀ x, x ∈ l → f x = Ret (g x)) → mapM f l = Ret (g <$> l).
Proof.
  induction l as [| x l IH]; intros Hf; [done |]. cbn [mapM fmap list_fmap].
  rewrite Hf by left. cbn [mbind outcome_bind]. rewrite IH; [done |]. intros y ?. apply Hf. by right.
Qed.

Lemma concat_fmap {X Y} (g : X → list Y) l : concat (g <$> l) = l ≫= g.
Proof. induction l as [| x l IH]; [done |]. cbn. by rewrite IH. Qed.

Lemma walk_place own tbl r n k path t :
  tree_ok own tbl → own !! r = Some (n, k) → (length path ≤ n)%nat → Forall index_ok path →
  walk tbl r path = Some t → own !! t = Some ((n - length path)%nat, k ++ path).
Proof.
  intros Hok. revert r n k. induction path as [| i path IH]; intros r n k Hr Hlen Hix.
  { intros [= <-]. cbn. by rewrite app_nil_r, Nat.sub_0_r. }
  destruct n as [| n]; [cbn in Hlen; lia |]. apply Forall_cons in Hix as [Hi Hix].
  destruct (entry_at_step own tbl Hok r n k i [] 0 Hr Hi) as (l & e & Hl & He & _ & Hown).
  cbn [walk]. rewrite Hl. cbn [mbind option_bind]. rewrite He.
  destruct (Z.eqb_spec (bf_get pe_page_ppn e) 0) as [| Hp]; [done |]. intros Hw.
  rewrite (IH _ _ _ (Hown Hp) ltac:(cbn in Hlen; lia) Hix Hw). by rewrite <- (assoc_L (++)).
Qed.

(** The tables below an index of a root, and a root's own. *)
Definition tables_below (tbl : gmap Z (list Z)) (t : Z) : list Z :=
  seqZ 0 512 ≫= fun j => option_list (walk tbl t [j]).

Definition branch_tables (twolevel : bool) (tbl : gmap Z (list Z)) (root i : Z) : list Z :=
  match walk tbl root [i] with
  | None => []
  | Some t => (if twolevel then tables_below tbl t else []) ++ [t]
  end.

Lemma destroy_branch_spec own u r n k i e (two : bool) :
  pages_ok own u → own !! r = Some (S n, k) → (two = true → n = 1%nat) → index_ok i →
  read_entry u r i = Ret e →
  destroy_branch two u e = Ret (branch_tables two (up_tables u) r i).
Proof.
  intros Hu Hr Htwo Hi He. destruct (table_of_walk own u r n k i Hu Hr Hi) as (e' & He' & Hw & Hown).
  rewrite He in He'. injection He' as <-. unfold destroy_branch, branch_tables. rewrite <- Hw.
  unfold table_of in *. destruct (bf_get pe_page_ppn e =? 0); [done |].
  specialize (Hown _ eq_refl). destruct two; [| done]. rewrite Htwo in Hown by done.
  rewrite (mapM_ret _ (fun j => option_list (walk (up_tables u) (table_addr e) [j]))).
  - cbn [mbind outcome_bind]. by rewrite concat_fmap.
  - intros j Hj%elem_of_seqZ. destruct (table_of_walk own u _ _ _ j Hu Hown) as (e2 & -> & <- & _); [done |].
    cbn [mbind outcome_bind]. unfold table_of. by destruct (bf_get pe_page_ppn e2 =? 0).
Qed.

Lemma destroy_root_spec own u r n k :
  pages_ok own u → own !! pr_physpage r = Some (S n, k) → (pr_twolevel r = true → n = 1%nat) →
  destroy_root r u =
    Ret ((seqZ 0 sizeOfUserspaceRoots ≫= branch_tables (pr_twolevel r) (up_tables u) (pr_physpage r)) ++
         [pr_physpage r]).
Proof.
  intros Hu Hr Htwo. unfold destroy_root. destruct (tr_table _ _ (pg_tree _ _ Hu) _ _ Hr) as [Hf _].
  rewrite (proj2 (Z.eqb_neq _ _) (frame_not_0 _ Hf)).
  rewrite (mapM_ret _ (branch_tables (pr_twolevel r) (up_tables u) (pr_physpage r))).
  - cbn [mbind outcome_bind]. by rewrite concat_fmap.
  - intros i Hi%elem_of_seqZ. change sizeOfUserspaceRoots with 496 in Hi.
    assert (index_ok i) as Hix by (unfold index_ok; lia).
    destruct (read_entry_own own u _ _ i Hu Hr Hix) as (_ & e & He & _ & _). rewrite He.
    cbn [mbind outcome_bind]. by eapply destroy_branch_spec.
Qed.

Lemma elem_of_tables_below tbl t x :
  x ∈ tables_below tbl t ↔ ∃ j, index_ok j ∧ walk tbl t [j] = Some x.
Proof.
  unfold tables_below. rewrite list_elem_of_bind. split.
  - intros (j & Hx & Hj%elem_of_seqZ). exists j. split; [done |].
    destruct (walk tbl t [j]); [by apply list_elem_of_singleton in Hx as -> | by apply elem_of_nil in Hx].
  - intros (j & Hj & Hw). exists j. rewrite elem_of_seqZ, Hw. split; [by apply list_elem_of_singleton | done].
Qed.

Lemma elem_of_branch_tables tbl r i x :
  x ∈ branch_tables true tbl r i ↔
  ∃ path, (path = [] ∨ ∃ j, index_ok j ∧ path = [j]) ∧ walk tbl r (i :: path) = Some x.
Proof.
  unfold branch_tables. destruct (walk tbl r [i]) as [t |] eqn:Hw.
  - rewrite elem_of_app, elem_of_tables_below, list_elem_of_singleton. split.
    + intros [(j & Hj & Hx) | ->]; [| exists []; by split; [left |]].
      exists [j]. split; [right; by exists j |]. by rewrite (walk_cons _ _ _ t).
    + intros (path & [-> | (j & Hj & ->)] & Hx); [right; congruence | left]. exists j. split; [done |].
      by rewrite (walk_cons _ _ _ t) in Hx.
  - rewrite elem_of_nil. split; [done |]. intros (path & _ & Hx). by rewrite walk_none in Hx.
Qed.

(** the destructor of a root of the high address space frees the root and
    the tables below its first 496 entries, but never those below the other
    16: the loop stops at 512 - PMLT4_USERSPACE_HIGH_START, though all the
    entries of a root belong to user space. *)
Theorem destroy_root_leaks own u r :
  pages_ok own u → r ∈ up_high u → pr_twolevel r = true →
  ∃ freed, destroy_root r u = Ret freed ∧ pr_physpage r ∈ freed ∧
    ∀ i path t, index_ok i → (path = [] ∨ ∃ j, index_ok j ∧ path = [j]) →
      walk (up_tables u) (pr_physpage r) (i :: path) = Some t → t ∈ freed ↔ i < 496.
Proof.
  intros Hu Hr Htwo. destruct (ro_high _ _ _ (pg_roots _ _ Hu) r Hr) as [Ho _].
  rewrite (destroy_root_spec own u r 1 _ Hu Ho), Htwo by done. change sizeOfUserspaceRoots with 496.
  eexists. split; [done |].
  split; [apply elem_of_app; right; by apply list_elem_of_singleton |].
  assert (∀ i path t, index_ok i → (path = [] ∨ ∃ j, index_ok j ∧ path = [j]) →
    walk (up_tables u) (pr_physpage r) (i :: path) = Some t →
    ∃ n, own !! t = Some (n, [1; pr_addr r] ++ i :: path)) as Hplace.
  { intros i path t Hi Hpath Hw. eexists.
    apply (walk_place _ _ _ _ _ _ _ (pg_tree _ _ Hu) Ho); [| | exact Hw].
    - by destruct Hpath as [-> | (j & ? & ->)]; cbn; lia.
    - apply Forall_cons. split; [done |]. destruct Hpath as [-> | (j & ? & ->)]; [constructor | by apply Forall_singleton]. }
  intros i path t Hi Hpath Hw. rewrite elem_of_app, list_elem_of_bind, list_elem_of_singleton.
  destruct (Hplace i path t Hi Hpath Hw) as (m & Ht). split.
  - intros [(i' & Hx & Hi'%elem_of_seqZ) | ->]; [| rewrite Ho in Ht; discriminate].
    apply elem_of_branch_tables in Hx as (path' & Hpath' & Hw').
    destruct (Hplace i' path' t) as (m' & Ht'); [unfold index_ok; lia | done | done |].
    rewrite Ht in Ht'. apply (f_equal (fmap snd)) in Ht'. cbn in Ht'. injection Ht' as -> _. lia.
  - intros Hlt. left. exists i. split; [| apply elem_of_seqZ; unfold index_ok in Hi; lia].
    apply elem_of_branch_tables. by exists path.
Qed.

End Theorems.

(** ** Witnesses *)

Import PPageAlloc.Examples.

(** A process with a root in each part of its address space: what Pageentry
    makes of an empty one. *)
Definition boot_user : user_pages (ppage_state (M := simple_physpagemap_managed)) :=
  UserPages [] [] ∅ boot_state.

Lemma boot_user_ok : pages_ok ∅ boot_user.
Proof.
  split; cbn; [| by split | done | by split; cbn; [intros r ?%elem_of_nil.. | constructor | constructor]].
  split_and!; [apply boot_map_wf | done | done].
Qed.

Definition top_user : user_pages (ppage_state (M := simple_physpagemap_managed)) :=
  match Pageentry (2 ^ 32 - 1) (fun _ => 0x12007) boot_user with Ret (_, u) => u | _ => boot_user end.

Lemma top_user_ok : ∃ own, pages_ok own top_user.
Proof.
  destruct (Pageentry_high ∅ boot_user (2 ^ 32 - 1) (fun _ => 0x12007) boot_user_ok) as
    [(E & _) | (b & u' & own' & E & Hu & _)]; [split; [lia | by right] | done | | |].
  - intros e _. by unfold is_u.
  - exists ∅. unfold top_user. rewrite E. apply boot_user_ok.
  - exists own'. unfold top_user. by rewrite E.
Qed.

Lemma pageentry_correct_witness :
  pageentry_done ∅ boot_user (2 ^ 32 - 1) (fun _ => 0x12007)
    (Pageentry (2 ^ 32 - 1) (fun _ => 0x12007) boot_user) ∧
  get_Pageentry (2 ^ 32 - 1) boot_user = Ret None.
Proof.
  destruct (pageentry_correct ∅ boot_user (2 ^ 32 - 1) (fun _ => 0x12007)) as (H1 & H2 & _);
    [apply boot_user_ok | split; [lia | by right] | intros e _; by unfold is_u | by split].
Defined.

Definition zero_cpu : cpu_tables := CpuTables zero_table zero_table.

Lemma task_enter_correct_witness :
  ∃ c', task_enter top_user zero_cpu = Ret c' ∧ cpu_entry c' (up_tables top_user) (2 ^ 32 - 1) = Some 0x12007.
Proof.
  destruct top_user_ok as [own Hu].
  destruct (task_enter_correct own top_user zero_cpu Hu) as (c' & E & Hc); [done | done |].
  exists c'. split; [done |]. rewrite (Hc (2 ^ 32 - 1) 73728); [by vm_compute | split; [lia | by right] |].
  by vm_compute.
Defined.

Lemma task_enter_leaks_witness :
  ∃ c1 c2, task_enter top_user zero_cpu = Ret c1 ∧ task_enter boot_user c1 = Ret c2 ∧
    cpu_entry c2 (up_tables top_user) (2 ^ 32 - 1) = Some 0x12007.
Proof.
  destruct top_user_ok as [own Hu].
  destruct (task_enter_leaks own top_user ∅ boot_user zero_cpu Hu boot_user_ok) as (c1 & c2 & E1 & E2 & Hc);
    [done | done |].
  exists c1, c2. split_and!; [done | done |].
  rewrite (Hc (2 ^ 32 - 1) 73728); [by vm_compute | split; [lia | by right] | by vm_compute | by vm_compute].
Defined.

Lemma destroy_root_leaks_witness :
  ∃ freed, destroy_root (PtRoot 65536 31 true) top_user = Ret freed ∧ 65536 ∈ freed ∧ (73728 ∈ freed ↔ False).
Proof.
  destruct top_user_ok as [own Hu].
  destruct (destroy_root_leaks own top_user (PtRoot 65536 31 true) Hu) as (freed & E & Hin & Hf);
    [by vm_compute; left | done |].
  exists freed. split_and!; [exact E | exact Hin |]. clear E Hin Hu.
  assert (walk (up_tables top_user) 65536 [511; 511] = Some 73728) as Hw by (by vm_compute).
  assert (index_ok 511) as Hi by (clear; unfold index_ok; lia).
  rewrite (Hf 511 [511] 73728 Hi (or_intror (ex_intro _ 511 (conj Hi eq_refl))) Hw). clear. lia.
Defined.
