(* ===== verification/ProcVm.v ===== *)
(** The address space of a process (kernel/exec/process.cpp): the operations
    that change its memory map, its page tables and the pages behind them
    together: Map, DisableRange, Protect, brk, TearDownMemory, WriteProtectCow
    and Clone.  The page faults are in ProcFault.v.

    The map is that of ProcMem.v, the tables those of ProcPages.v.  An object
    of class CowPageRef is the page it holds, with the number of shared
    pointers to it; a page of a file (filepage_ref) is its physical address.
    Each operation runs under the lock of the process and is one step. *)
From S2P Require Import Prelude BitField PageEntry VPageAlloc Signals Frames ProcMem ProcPages.

Local Open Scope Z_scope.

Definition PROT_NONE : Z := 0.
Definition PROT_READ : Z := 1.
Definition PROT_WRITE : Z := 2.
Definition PROT_EXEC : Z := 4.

(** The entry of a page that is to be filled on its first use. *)
Definition fresh_entry (writeable execution_disabled : Z) (pe : Z) : Z :=
  let pe := bf_set pe_present 0 pe in
  let pe := bf_set pe_writeable writeable pe in
  let pe := bf_set pe_user_access 1 pe in
  let pe := bf_set pe_write_through 0 pe in
  let pe := bf_set pe_cache_disabled 0 pe in
  let pe := bf_set pe_accessed 0 pe in
  let pe := bf_set pe_dirty 0 pe in
  let pe := bf_set pe_size 0 pe in
  let pe := bf_set pe_global 0 pe in
  let pe := bf_set pe_ignored2 0 pe in
  let pe := bf_set pe_os_virt_avail 0 pe in
  let pe := bf_set pe_page_ppn 0 pe in
  let pe := bf_set pe_reserved1 0 pe in
  let pe := bf_set pe_os_virt_start 0 pe in
  let pe := bf_set pe_ignored3 0 pe in
  bf_set pe_execution_disabled execution_disabled pe.

(** [for (p = 0; p < pages; p++)] with [pagenum + p]. *)
Definition page_range (pagenum pages : Z) : list Z :=
  (fun p => u32 (pagenum + p)) <$> seqZ 0 pages.

(** * Protect, on the map *)

(** The part of a mapping that is in the range. *)
Definition prot_range (pagenum pages : Z) (m : MemMapping) : option (Z * Z) :=
  let ol_start := if mm_pagenum m <? pagenum then pagenum else mm_pagenum m in
  let ol_end := if u32 (pagenum + pages) <? mm_end m then u32 (pagenum + pages) else mm_end m in
  if ol_end <=? ol_start then None else Some (ol_start, ol_end).

Definition covered (pagenum pages : Z) (l : list MemMapping) : Z :=
  foldl (fun n m => match prot_range pagenum pages m with
                    | Some (s, e) => u32 (n + u32 (e - s))
                    | None => n
                    end) 0 l.

Definition entries_in (start len : Z) (l : list PhysMapping) : list PhysMapping :=
  filter (fun p => start ≤ pm_page p ∧ pm_page p < u32 (start + len)) l.

Definition entries_out (start len : Z) (l : list PhysMapping) : list PhysMapping :=
  filter (fun p => ¬ (start ≤ pm_page p ∧ pm_page p < u32 (start + len))) l.

(** The part in front of the range and the rest. *)
Definition split_front (start : Z) (m : MemMapping) : option MemMapping * MemMapping :=
  if mm_pagenum m <? start then
    let size := u32 (start - mm_pagenum m) in
    (Some (with_pages m (mm_pagenum m) size (entries_in (mm_pagenum m) size (mm_mappings m))),
     MemMap (mm_image m) start (u32 (mm_pages m - size))
       (if mm_image m then u32 (mm_image_skip_pages m + size) else mm_image_skip_pages m)
       (mm_load m) (mm_read m) (mm_cow m) (mm_binary_mapping m)
       (entries_out (mm_pagenum m) size (mm_mappings m)))
  else (None, m).

(** The part behind the range; Create makes it readable. *)
Definition split_back (stop : Z) (m : MemMapping) : MemMapping * option MemMapping :=
  if stop <? mm_end m then
    let size1 := u32 (stop - mm_pagenum m) in
    let size2 := u32 (mm_pages m - size1) in
    let start := u32 (mm_pagenum m + size1) in
    (with_pages m (mm_pagenum m) size1 (entries_out start size2 (mm_mappings m)),
     Some (MemMap (mm_image m) start size2 (u32 (mm_image_skip_pages m + size1)) 0 true (mm_cow m)
             (mm_binary_mapping m) (entries_in start size2 (mm_mappings m))))
  else (m, None).

Definition set_access (read cow : bool) (m : MemMapping) : MemMapping :=
  MemMap (mm_image m) (mm_pagenum m) (mm_pages m) (mm_image_skip_pages m) (mm_load m) read cow
    (mm_binary_mapping m) (mm_mappings m).

(** [for (p = mapping->pagenum; p < end; p++)] *)
Definition mapping_range (m : MemMapping) : list Z := seqZ (mm_pagenum m) (mm_end m - mm_pagenum m).

(** The first record of a page. *)
Fixpoint find_page (page : Z) (l : list PhysMapping) : option PhysMapping :=
  match l with
  | [] => None
  | p :: l => if pm_page p =? page then Some p else find_page page l
  end.

Definition is_shared (p : PhysMapping) : bool :=
  match pm_data p, pm_cow p with None, None => false | _, _ => true end.

(** Whether PROT_READ | PROT_WRITE makes the page writeable at once. *)
Definition writes_now (l : list PhysMapping) (page : Z) : bool :=
  match find_page page l with
  | Some p => negb (is_shared p) && negb (pm_phys_page p =? 0)
  | None => true
  end.

(** Whether a page of the range is shared. *)
Definition shares_page (l : list PhysMapping) (page : Z) : bool :=
  match find_page page l with
  | Some p => is_shared p
  | None => false
  end.

Section ProcVm.
Context {A : Type} `{FrameAllocator A}.

(** The address space and what it shares with others: physical memory, the
    reference counts of the pages for copy on write, the allocator. *)
Record address_space := AddressSpace {
  as_map : list MemMapping;
  as_pages : user_pages A;
  as_mem : gmap Z (list Z);
  as_cows : gmap Z nat;
  as_brk : Z
}.

Definition set_map (l : list MemMapping) (v : address_space) : address_space :=
  AddressSpace l (as_pages v) (as_mem v) (as_cows v) (as_brk v).
Definition set_pages (u : user_pages A) (v : address_space) : address_space :=
  AddressSpace (as_map v) u (as_mem v) (as_cows v) (as_brk v).
Definition set_mem (m : gmap Z (list Z)) (v : address_space) : address_space :=
  AddressSpace (as_map v) (as_pages v) m (as_cows v) (as_brk v).
Definition set_cows (c : gmap Z nat) (v : address_space) : address_space :=
  AddressSpace (as_map v) (as_pages v) (as_mem v) c (as_brk v).
Definition set_brk (b : Z) (v : address_space) : address_space :=
  AddressSpace (as_map v) (as_pages v) (as_mem v) (as_cows v) b.

Definition with_frames (a : A) (u : user_pages A) : user_pages A :=
  UserPages (up_low u) (up_high u) (up_tables u) a.

(** ppagefree of a page. *)
Definition free_page (phys : Z) (v : address_space) : outcome address_space :=
  a ← free_frame phys (up_frames (as_pages v));
  Ret (set_pages (with_frames a (as_pages v)) v).

(** A shared pointer to a CowPageRef goes. *)
Definition drop_cow (phys : Z) (v : address_space) : outcome address_space :=
  match as_cows v !! phys with
  | Some (S (S n)) => Ret (set_cows (<[phys := S n]> (as_cows v)) v)
  | _ => free_page phys (set_cows (delete phys (as_cows v)) v)
  end.

(** A PhysMapping is destroyed by ~MemMapping. *)
Definition drop_page (p : PhysMapping) (v : address_space) : outcome address_space :=
  match pm_data p, pm_cow p with
  | None, None => free_page (pm_phys_page p) v
  | _, Some c => drop_cow c v
  | Some _, None => Ret v
  end.

Fixpoint drop_pages (l : list PhysMapping) (v : address_space) : outcome address_space :=
  match l with
  | [] => Ret v
  | p :: l => v ← drop_page p v; drop_pages l v
  end.

(** * Map *)

(** Pageentry on each page until one fails. *)
Fixpoint map_each (func : Z → Z) (ps : list Z) (u : user_pages A) : outcome (bool * user_pages A) :=
  match ps with
  | [] => Ret (true, u)
  | p :: ps =>
      '(ok, u) ← Pageentry p func u;
      if (ok : bool) then map_each func ps u else Ret (false, u)
  end.

(** Pageentry on each page, whatever it returns. *)
Fixpoint change_each (func : Z → Z) (ps : list Z) (u : user_pages A) : outcome (user_pages A) :=
  match ps with
  | [] => Ret u
  | p :: ps => '(_, u) ← Pageentry p func u; change_each func ps u
  end.

Definition Map_with (m : MemMapping) (func : Z → Z) (v : address_space) : outcome (bool * address_space) :=
  if negb (CheckMapOverlap (mm_pagenum m) (mm_pages m) (as_map v)) then Ret (false, v) else
  '(ok, u) ← map_each func (page_range (mm_pagenum m) (mm_pages m)) (as_pages v);
  Ret (ok, set_pages u (set_map (as_map v ++ [m]) v)).

(** Map of a file. *)
Definition Map_file (image : option Z) (pagenum pages image_skip_pages load : Z)
    (write execute copyOnWrite binaryMap : bool) : address_space → outcome (bool * address_space) :=
  Map_with (new_mapping image pagenum pages image_skip_pages load (write && copyOnWrite) binaryMap)
    (fresh_entry 0 (if execute then 0 else 1)).

(** Map of memory on demand. *)
Definition Map_anon (pagenum pages : Z) (binaryMap : bool) : address_space → outcome (bool * address_space) :=
  Map_with (new_mapping None pagenum pages 0 0 false binaryMap) (fresh_entry 1 0).

Definition DisableRange (pagenum pages : Z) (v : address_space) : outcome address_space :=
  u ← change_each (bf_set pe_present 0) (page_range pagenum pages) (as_pages v);
  Ret (set_pages u v).

(** * TearDownMemory *)

Definition clear_entry (pe : Z) : Z :=
  let pe := bf_set pe_present 0 pe in
  let pe := bf_set pe_writeable 0 pe in
  let pe := bf_set pe_execution_disabled 1 pe in
  bf_set pe_page_ppn 0 pe.

Definition map_phys (l : list MemMapping) : list PhysMapping := l ≫= mm_mappings.

Definition TearDownMemory (v : address_space) : outcome address_space :=
  u ← change_each clear_entry (pm_page <$> map_phys (as_map v)) (as_pages v);
  drop_pages (map_phys (as_map v)) (set_map [] (set_pages u v)).

(** * Protect *)

Definition prot_entry (prot pe : Z) : Z :=
  let pe := bf_set pe_execution_disabled 1 pe in
  if prot =? Z.lor PROT_READ PROT_WRITE then bf_set pe_writeable 1 pe else
  let pe := bf_set pe_writeable 0 pe in
  if prot =? PROT_READ then pe else bf_set pe_present 0 pe.

(** The middle part of a mapping gets its protection. *)
Definition protect_mapping (prot : Z) (m : MemMapping) (u : user_pages A)
    : outcome (option MemMapping * user_pages A) :=
  if prot =? Z.lor PROT_READ PROT_WRITE then
    u ← change_each (prot_entry prot) (filter (fun p => writes_now (mm_mappings m) p = true) (mapping_range m)) u;
    Ret (Some (set_access true (existsb (shares_page (mm_mappings m)) (mapping_range m)) m), u)
  else if prot =? PROT_READ then
    u ← change_each (prot_entry prot) (mapping_range m) u;
    Ret (Some (set_access true false m), u)
  else if prot =? PROT_NONE then
    u ← change_each (prot_entry prot) (mapping_range m) u;
    Ret (Some (set_access false false m), u)
  else Ret (None, u).

(** The mappings in order: the list with the middle parts in place, the new
    mappings, and whether the protection was one of the three. *)
Fixpoint protect_loop (pagenum pages prot : Z) (l : list MemMapping) (u : user_pages A)
    : outcome (list MemMapping * list MemMapping * bool * user_pages A) :=
  match l with
  | [] => Ret ([], [], true, u)
  | m :: l =>
      match prot_range pagenum pages m with
      | None =>
          '(l, new, ok, u) ← protect_loop pagenum pages prot l u;
          Ret (m :: l, new, ok, u)
      | Some (s, e) =>
          let '(front, m) := split_front s m in
          let '(m, back) := split_back e m in
          let parts := option_list front ++ option_list back in
          '(m', u) ← protect_mapping prot m u;
          match m' with
          | None => Ret (m :: l, parts, false, u)
          | Some m =>
              '(l, new, ok, u) ← protect_loop pagenum pages prot l u;
              Ret (m :: l, parts ++ new, ok, u)
          end
      end
  end.

Definition Protect (pagenum pages prot : Z) (v : address_space) : outcome (Z * address_space) :=
  if covered pagenum pages (as_map v) <? pages then Ret (- EINVAL, v) else
  '(l, new, ok, u) ← protect_loop pagenum pages prot (as_map v) (as_pages v);
  Ret ((if (ok : bool) then 0 else - EINVAL), set_pages u (set_map (l ++ new) v)).

(** * WriteProtectCow and Clone *)

(** The page becomes read only; whether it was writeable. *)
Definition write_protect (page : Z) (u : user_pages A) : outcome (bool * user_pages A) :=
  e ← get_Pageentry page u;
  '(_, u) ← Pageentry page (bf_set pe_writeable 0) u;
  Ret (match e with Some e => bf_flag pe_writeable e | None => false end, u).

(** The record of a page in the parent and, if any, in the child, with the
    counts of the shared pointers. *)
Definition share_page (wasWriteable : bool) (p : PhysMapping) (c : gmap Z nat)
    : PhysMapping * option PhysMapping * gmap Z nat :=
  if wasWriteable || is_shared p then
    let '(p, c) :=
      if negb (pm_phys_page p =? 0) && negb (is_shared p)
      then (PhysMap (pm_data p) (Some (pm_phys_page p)) 0 (pm_page p), <[pm_phys_page p := 1%nat]> c)
      else (p, c) in
    (p, Some p, match pm_cow p with Some x => <[x := S (default 0%nat (c !! x))]> c | None => c end)
  else (p, None, c).

Fixpoint share_pages (l : list PhysMapping) (u : user_pages A) (c : gmap Z nat)
    : outcome (list PhysMapping * list PhysMapping * user_pages A * gmap Z nat) :=
  match l with
  | [] => Ret ([], [], u, c)
  | p :: l =>
      '(was, u) ← write_protect (pm_page p) u;
      let '(p, child, c) := share_page was p c in
      '(l, cl, u, c) ← share_pages l u c;
      Ret (p :: l, option_list child ++ cl, u, c)
  end.

Definition with_mappings (m : MemMapping) (l : list PhysMapping) : MemMapping :=
  MemMap (mm_image m) (mm_pagenum m) (mm_pages m) (mm_image_skip_pages m) (mm_load m) (mm_read m)
    (mm_cow m) (mm_binary_mapping m) l.

Fixpoint WriteProtectCow (l : list MemMapping) (u : user_pages A) (c : gmap Z nat)
    : outcome (list MemMapping * list MemMapping * user_pages A * gmap Z nat) :=
  match l with
  | [] => Ret ([], [], u, c)
  | m :: l =>
      '(ps, cps, u, c) ← share_pages (mm_mappings m) u c;
      '(l, cl, u, c) ← WriteProtectCow l u c;
      Ret (with_mappings m ps :: l, with_mappings m cps :: cl, u, c)
  end.

(** The entries of the parent are copied. *)
Fixpoint copy_entries (parent : user_pages A) (ps : list Z) (child : user_pages A) : outcome (user_pages A) :=
  match ps with
  | [] => Ret child
  | p :: ps =>
      e ← get_Pageentry p parent;
      match e with
      | Some e => '(_, child) ← Pageentry p (fun _ => e) child; copy_entries parent ps child
      | None => copy_entries parent ps child
      end
  end.

(** Clone: the parent and the child, which share memory, counts and frames. *)
Definition Clone (v : address_space) : outcome (address_space * address_space) :=
  '(l, cl, u, c) ← WriteProtectCow (as_map v) (as_pages v) (as_cows v);
  child ← copy_entries u (cl ≫= fun m => wrap 32 <$> seqZ (mm_pagenum m) (mm_pages m)) (UserPages [] [] ∅ (up_frames u));
  Ret (AddressSpace l (with_frames (up_frames child) u) (as_mem v) c (as_brk v),
       AddressSpace cl child (as_mem v) c (as_brk v)).

(** * brk *)

(** The mapping of the program that ends last. *)
Fixpoint brk_mapping (l : list MemMapping) (i : nat) (best : option (nat * MemMapping))
    : option (nat * MemMapping) :=
  match l with
  | [] => best
  | m :: l =>
      brk_mapping l (S i)
        (if negb (mm_binary_mapping m) then best else
         match best with
         | None => Some (i, m)
         | Some (j, b) => if mm_end b <? mm_end m then Some (i, m) else best
         end)
  end.

Definition set_mapping (i : nat) (m : MemMapping) (v : address_space) : address_space :=
  set_map (<[i := m]> (as_map v)) v.

Definition resize (m : MemMapping) (pages : Z) : MemMapping :=
  with_pages m (mm_pagenum m) pages (mm_mappings m).

(** The new break for a request [brk_addr], from the break as it is. *)
Definition new_break (brk_addr end_addr program_brk : Z) : Z :=
  let addr := if end_addr - program_brk <=? PAGESIZE then program_brk else end_addr in
  if brk_addr <=? 0 then u64 (addr + brk_addr) else u64 (addr + (brk_addr - addr)).

(** The pages behind the new end go, one after the other. *)
Fixpoint brk_shrink (ps : list Z) (i : nat) (v : address_space) : outcome (bool * address_space) :=
  match ps with
  | [] => Ret (true, v)
  | p :: ps =>
      '(ok, u) ← Pageentry (u32 p) (bf_set pe_present 0) (as_pages v);
      let v := set_pages u v in
      if negb ok then Ret (false, v) else
      match as_map v !! i with
      | None => OutOfBounds
      | Some m =>
          v ← foldl (fun v q => v ← v; free_page (pm_phys_page q) v) (Ret v)
                (filter (fun q => pm_page q = p) (mm_mappings m));
          brk_shrink ps i (set_mapping i (with_mappings m (filter (fun q => pm_page q ≠ p) (mm_mappings m))) v)
      end
  end.

Definition brk (brk_addr : Z) (v : address_space) : outcome (option Z * address_space) :=
  let highEnd := Z.shiftl PMLT4_USERSPACE_HIGH_END (9 + 9 + 9 + 12) in
  let lowEnd := Z.shiftl USERSPACE_LOW_END (9 + 9 + 12) in
  match brk_mapping (as_map v) 0 None with
  | None => Ret (None, v)
  | Some (i, m) =>
      if mm_image m then Ret (None, v) else
      let endpage := mm_pagenum m + mm_pages m in
      let end_addr := Z.shiftl endpage 12 in
      if end_addr <? as_brk v then Ret (None, v) else
      let addr := new_break brk_addr end_addr (as_brk v) in
      if highEnd <? addr then Ret (None, v) else
      if (end_addr <=? lowEnd) && (lowEnd <? addr) then Ret (None, v) else
      let page := Z.shiftr addr 12 + (if Z.land addr (PAGESIZE - 1) =? 0 then 0 else 1) in
      if page <=? mm_pagenum m then Ret (None, v) else
      if endpage =? page then Ret (Some addr, set_brk addr v) else
      if endpage <? page then
        if negb (CheckMapOverlap (u32 endpage) (u32 (page - endpage)) (as_map v)) then Ret (None, v) else
        let w := set_mapping i (resize m (u32 (page - mm_pagenum m))) v in
        '(ok, u) ← map_each (fresh_entry 1 0) (wrap 32 <$> seqZ endpage (page - endpage)) (as_pages v);
        if (ok : bool) then Ret (Some addr, set_brk addr (set_pages u w)) else Ret (None, set_pages u v)
      else
        let w := set_mapping i (resize m (u32 (page - mm_pagenum m))) v in
        '(ok, w) ← brk_shrink (seqZ page (endpage - page)) i w;
        if (ok : bool) then Ret (Some addr, set_brk addr w) else
        match as_map w !! i with
        | None => OutOfBounds
        | Some m' => Ret (None, set_mapping i (resize m' (u32 (endpage - mm_pagenum m'))) w)
        end
  end.

End ProcVm.

Arguments address_space A : clear implicits.
