(* ===== verification/ProcFault.v ===== *)
(** The page faults of a process (kernel/exec/process.cpp): readable,
    sync_resolve_page, resolve_page and resolve_write_page, with the walk from
    the roots to the entry of a page that they have in common, and
    resolve_write, which makes a range of user memory writeable for the kernel.

    Each runs under the lock of the process.  resolve_page gives up the lock
    while it reads a file; it is modelled as one step, in which the file is
    read but the address space does not change meanwhile. *)
From S2P Require Import Prelude BitField PageEntry VPageAlloc Frames ProcMem ProcPages ProcVm.

Local Open Scope Z_scope.

Definition highRelocationOffset : Z := Z.shiftl PMLT4_USERSPACE_HIGH_START (9 + 9 + 9 + 12).
Definition lowUserpaceMax : Z := Z.shiftl USERSPACE_LOW_END (9 + 9 + 12).

(** Not within the limits of user memory. *)
Definition outside (fault_addr : Z) : bool :=
  (fault_addr <? highRelocationOffset) && (lowUserpaceMax <=? fault_addr).

Definition fault_page (fault_addr : Z) : Z := u32 (Z.shiftr fault_addr 12).

Inductive ResolveWrite := RW_ERROR | WAS_WRITEABLE | MADE_WRITEABLE.

Definition zero_page : list Z := replicate 4096 0.

(** The first mapping of a page is changed. *)
Fixpoint update_mapping (page : Z) (f : MemMapping → MemMapping) (l : list MemMapping) : list MemMapping :=
  match l with
  | [] => []
  | m :: l =>
      if (mm_pagenum m <=? page) && (page <? mm_end m) then f m :: l else m :: update_mapping page f l
  end.

Definition push_page (p : PhysMapping) (m : MemMapping) : MemMapping :=
  with_mappings m (mm_mappings m ++ [p]).

(** The first record of a page that is shared, and its change. *)
Fixpoint find_shared (page : Z) (l : list PhysMapping) : option PhysMapping :=
  match l with
  | [] => None
  | p :: l => if (pm_page p =? page) && is_shared p then Some p else find_shared page l
  end.

Fixpoint update_shared (page : Z) (f : PhysMapping → PhysMapping) (l : list PhysMapping) : list PhysMapping :=
  match l with
  | [] => []
  | p :: l => if (pm_page p =? page) && is_shared p then f p :: l else p :: update_shared page f l
  end.

(** The entry of a page that becomes present. *)
Definition present_entry (phys : Z) (private cow : bool) (b3 : Z) : Z :=
  let b3 := bf_set pe_page_ppn (Z.shiftr phys 12) b3 in
  let b3 := bf_set pe_present 1 b3 in
  let b3 := bf_set pe_user_access 1 b3 in
  if bf_flag pe_execution_disabled b3 && private && cow then bf_set pe_writeable 1 b3 else b3.

(** The entry after the copy of a page of a file, and of a page shared by fork. *)
Definition copied_data_entry (phys b3 : Z) : Z :=
  let b3 := bf_set pe_user_access 1 b3 in
  let b3 := bf_set pe_page_ppn (Z.shiftr phys 12) b3 in
  let b3 := bf_set pe_writeable 1 b3 in
  let b3 := bf_set pe_execution_disabled 1 b3 in
  bf_set pe_present 1 b3.

Definition copied_cow_entry (phys b3 : Z) : Z :=
  bf_set pe_writeable 1 (bf_set pe_page_ppn (Z.shiftr phys 12) b3).

Section ProcFault.
Context {A : Type} `{FrameAllocator A}.
Implicit Types (v : address_space A) (u : user_pages A).

(** * The entry of a page *)

(** The table below an entry that is present. *)
Definition present_table (e : Z) : option Z :=
  if bf_flag pe_present e then Some (table_addr e) else None.

(** The table of the page; [None] if there is no root or a table on the way is
    not present. *)
Definition page_table_of (fault_addr page : Z) u : outcome (option Z) :=
  if fault_addr <? highRelocationOffset then
    match find_root (u16 (Z.shiftr page (9 + 9))) (up_low u) with
    | None => Ret None
    | Some root =>
        b ← branches root;
        b2 ← read_entry u b (Z.land (Z.shiftr page 9) 511);
        Ret (present_table b2)
    end
  else
    match find_root (u16 (Z.shiftr page (9 + 9 + 9))) (up_high u) with
    | None => Ret None
    | Some root =>
        b ← branches root;
        b1 ← read_entry u b (Z.land (Z.shiftr page (9 + 9)) 511);
        match present_table b1 with
        | None => Ret None
        | Some table =>
            b2 ← read_entry u table (Z.land (Z.shiftr page 9) 511);
            Ret (present_table b2)
        end
    end.

(** readable computes the address of the root of the low address space, and of
    its table, in its own way. *)
Definition readable_table_of (addr page : Z) u : outcome (option Z) :=
  let rootAddr := u16 (Z.shiftr page (9 + 9 + 9)) in
  if addr <? highRelocationOffset then
    match find_root rootAddr (up_low u) with
    | None => Ret None
    | Some root =>
        b ← branches root;
        b2 ← read_entry u b (Z.land (Z.shiftr page 9) 511);
        Ret (if bf_flag pe_present b2 then Some (table_addr32 b2) else None)
    end
  else page_table_of addr page u.

Definition readable (addr : Z) v : outcome bool :=
  if outside addr then Ret false else
  let page := fault_page addr in
  match find_mapping page (as_map v) with
  | None => Ret false
  | Some _ =>
      t ← readable_table_of addr page (as_pages v);
      match t with
      | None => Ret false
      | Some table =>
          b3 ← read_entry (as_pages v) table (Z.land page 511);
          Ret (bf_flag pe_present b3 && bf_flag pe_user_access b3)
      end
  end.

(** * Copy on write *)

(** ppagealloc and a copy of page [src]; 0 without memory. *)
Definition copy_page (src : Z) v : outcome (Z * address_space A) :=
  '(phys, a) ← alloc_frame (up_frames (as_pages v));
  let v := set_pages (with_frames a (as_pages v)) v in
  if phys =? 0 then Ret (0, v) else
  match as_mem v !! src with
  | Some bytes => Ret (phys, set_mem (<[phys := bytes]> (as_mem v)) v)
  | None => OutOfBounds
  end.

Definition write_b3 (table page : Z) (f : Z → Z) v : outcome (address_space A) :=
  u ← update_entry table (Z.land page 511) f (as_pages v);
  Ret (set_pages u v).

Definition change_record (page : Z) (f : PhysMapping → PhysMapping) v : address_space A :=
  set_map (update_mapping page (fun m => with_mappings m (update_shared page f (mm_mappings m))) (as_map v)) v.

(** A page of a file or a page shared by fork becomes a page of its own; false
    if the page cannot be written. *)
Definition own_page (table page : Z) (mapping : MemMapping) v : outcome (bool * address_space A) :=
  match find_shared page (mm_mappings mapping) with
  | None => Ret (false, v)
  | Some p =>
      match pm_data p, pm_cow p with
      | Some data, _ =>
          if negb (mm_cow mapping) then Ret (false, v) else
          '(phys, v) ← copy_page data v;
          if phys =? 0 then Ret (false, v) else
          v ← write_b3 table page (copied_data_entry phys) v;
          Ret (true, change_record page (fun q => PhysMap None (pm_cow q) phys (pm_page q)) v)
      | None, Some cow =>
          '(phys, v) ← copy_page cow v;
          if phys =? 0 then Ret (false, v) else
          v ← write_b3 table page (copied_cow_entry phys) v;
          v ← drop_cow cow v;
          Ret (true, change_record page (fun q => PhysMap (pm_data q) None phys (pm_page q)) v)
      | None, None => Ret (false, v)
      end
  end.

(** * sync_resolve_page *)

(** The page becomes present, with a record in the mapping if it is new.  The
    second search for the mapping and the root finds the same ones; of its tests
    only that for a page of a file in a mapping without a file can fail. *)
Definition show_page (table page : Z) (mapping : MemMapping) (pre_existing : bool) (phys : Z)
    (loaded : option Z) v : outcome (bool * address_space A) :=
  match mm_image mapping, loaded with
  | None, Some _ => Ret (false, v)
  | _, _ =>
      let v := if pre_existing then v else
        set_map (update_mapping page (push_page (PhysMap loaded None phys page)) (as_map v)) v in
      v ← write_b3 table page
            (present_entry phys (match loaded with None => true | Some _ => false end) (mm_cow mapping)) v;
      Ret (true, v)
  end.

(** A cleared page from ppagealloc; 0 without memory. *)
Definition clear_page v : outcome (Z * address_space A) :=
  '(phys, a) ← alloc_frame (up_frames (as_pages v));
  let v := set_pages (with_frames a (as_pages v)) v in
  Ret (phys, if phys =? 0 then v else set_mem (<[phys := zero_page]> (as_mem v)) v).

(** What is known of a page that is not present: its address, or 0, and the
    page of the file. *)
Definition known_page (page : Z) (mapping : MemMapping) : Z * option Z :=
  match find_page page (mm_mappings mapping) with
  | Some p => (pm_phys_page p, pm_data p)
  | None => (0, None)
  end.

(** The mapping and the table of the page at an address. *)
Definition fault_place (fault_addr : Z) v : outcome (option (MemMapping * Z)) :=
  if outside fault_addr then Ret None else
  match find_mapping (fault_page fault_addr) (as_map v) with
  | None => Ret None
  | Some mapping =>
      t ← page_table_of fault_addr (fault_page fault_addr) (as_pages v);
      Ret (match t with Some table => Some (mapping, table) | None => None end)
  end.

Definition sync_resolve_page (fault_addr : Z) v : outcome (bool * address_space A) :=
  let page := fault_page fault_addr in
  place ← fault_place fault_addr v;
  match place with
  | None => Ret (false, v)
  | Some (mapping, table) =>
      if negb (mm_read mapping) then Ret (false, v) else
      b3 ← read_entry (as_pages v) table (Z.land page 511);
      if bf_flag pe_present b3 then own_page table page mapping v else
      let '(phys, loaded) := known_page page mapping in
      if phys =? 0 then
        if mm_image mapping then Ret (false, v) else
        '(phys, v) ← clear_page v;
        if phys =? 0 then Ret (false, v) else show_page table page mapping false phys loaded v
      else show_page table page mapping true phys loaded v
  end.

(** * resolve_page *)

(** The first [load] bytes of a page and zeroes behind them. *)
Definition cut_page (load : Z) (bytes : list Z) : list Z :=
  take (Z.to_nat load) bytes ++ replicate (4096 - Z.to_nat load) 0.

(** GetPage of a file: the address of the page with its content, which is in
    memory from then on, or [None] if it cannot be read. *)
Context (GetPage : Z → Z → option (Z * list Z)).

Definition load_page (image physpage load : Z) v : outcome (option (Z * option Z) * address_space A) :=
  match GetPage image physpage with
  | None => Ret (None, v)
  | Some (phys, bytes) =>
      let v := set_mem (<[phys := bytes]> (as_mem v)) v in
      if load =? 0 then Ret (if phys =? 0 then None else Some (phys, Some phys), v) else
      '(copy, a) ← alloc_frame (up_frames (as_pages v));
      let v := set_pages (with_frames a (as_pages v)) v in
      if copy =? 0 then Ret (None, v) else
      Ret (Some (copy, None), set_mem (<[copy := cut_page load bytes]> (as_mem v)) v)
  end.

Definition resolve_page (fault_addr : Z) v : outcome (bool * address_space A) :=
  let page := fault_page fault_addr in
  place ← fault_place fault_addr v;
  match place with
  | None => Ret (false, v)
  | Some (mapping, table) =>
      if negb (mm_read mapping) then Ret (false, v) else
      b3 ← read_entry (as_pages v) table (Z.land page 511);
      if bf_flag pe_present b3 then Ret (false, v) else
      if negb ((known_page page mapping).1 =? 0) then Ret (false, v) else
      match mm_image mapping with
      | None => Ret (false, v)
      | Some image =>
          let physpage := u32 (mm_image_skip_pages mapping + u32 (page - mm_pagenum mapping)) in
          '(loaded, v) ← load_page image physpage (mm_load mapping) v;
          match loaded with
          | None => Ret (false, v)
          | Some (phys, data) => show_page table page mapping false phys data v
          end
      end
  end.

(** * resolve_write_page *)

Definition resolve_write_page (fault_addr : Z) v : outcome (ResolveWrite * address_space A) :=
  let page := fault_page fault_addr in
  if outside fault_addr then Ret (RW_ERROR, v) else
  match find_mapping page (as_map v) with
  | None => Ret (RW_ERROR, v)
  | Some mapping =>
      if negb (mm_cow mapping) && (if mm_image mapping then true else false) then Ret (RW_ERROR, v) else
      t ← page_table_of fault_addr page (as_pages v);
      match t with
      | None => Ret (RW_ERROR, v)
      | Some table =>
          b3 ← read_entry (as_pages v) table (Z.land page 511);
          if negb (bf_flag pe_present b3) then Ret (RW_ERROR, v) else
          if bf_flag pe_writeable b3 then Ret (WAS_WRITEABLE, v) else
          '(ok, v) ← own_page table page mapping v;
          Ret (if (ok : bool) then MADE_WRITEABLE else RW_ERROR, v)
      end
  end.

(** * resolve_write *)

Fixpoint resolve_write_loop (fuel : nat) (addr stop : Z) v : outcome (bool * address_space A) :=
  match fuel with
  | O => OutOfFuel
  | S fuel =>
      '(res, v) ← resolve_write_page addr v;
      match res with
      | RW_ERROR => Ret (false, v)
      | _ =>
          let addr := u64 (addr + 4096) in
          let next_addr := Z.land addr (Z.lnot 4095) in
          if stop <=? next_addr then Ret (true, v) else resolve_write_loop fuel addr stop v
      end
  end.

(** A round for each page; [len / 4096 + 2] are enough. *)
Definition resolve_write (addr len : Z) v : outcome (bool * address_space A) :=
  let stop := u64 (addr + len) in
  if addr =? stop then Ret (true, v) else
  resolve_write_loop (Z.to_nat (len / 4096 + 2)) addr stop v.

End ProcFault.
