(* ===== verification/ProcVmInv.v ===== *)
(** The invariant of an address space: what its page tables say agrees with its
    map, a page that can be written belongs to the process alone, and the
    pages that others hold are not touched. *)
From S2P Require Import Prelude BitField PageEntry VPageAlloc Frames ProcMem ProcPages ProcPagesTheorems ProcVm ProcFault.

Local Open Scope Z_scope.

(** * Changing entries *)

Definition page_number (pn : Z) : Prop := 0 ≤ pn < 2 ^ 32.

Section Entries.
Context {A : Type} `{FrameAllocatorLaws A}.
Implicit Types (u : user_pages A) (own : places).

Definition preserves_u64 (f : Z → Z) : Prop := ∀ e, is_u 64 e → is_u 64 (f e).

(** Between the two parts of user memory there is nothing. *)
Lemma not_user_page pn : page_number pn → ¬ user_page pn → 3 * 2 ^ 18 ≤ pn < 2 ^ 31.
Proof. unfold page_number, user_page. lia. Qed.

Lemma Pageentry_outside pn f u : page_number pn → ¬ user_page pn → Pageentry pn f u = Ret (false, u).
Proof.
  intros Hp Hn. pose proof (not_user_page pn Hp Hn). unfold Pageentry. fold (low_page pn).
  rewrite low_page_spec by lia. rewrite (proj2 (Z.ltb_lt _ _)) by lia.
  assert (3 ≤ Z.shiftr pn 18) by (rewrite Z.shiftr_div_pow2 by lia; apply Z.div_le_lower_bound; lia).
  by rewrite (proj2 (Z.leb_le _ _)).
Qed.

Lemma user_entry_outside own u pn :
  pages_ok own u → page_number pn → ¬ user_page pn → user_entry u pn = 0.
Proof.
  intros Hu Hp Hn. pose proof (not_user_page pn Hp Hn). unfold user_entry, user_root.
  rewrite low_page_spec by lia. rewrite (proj2 (Z.ltb_lt _ _)) by lia.
  destruct (find_root _ _) as [r |] eqn:E; [| done]. apply find_root_spec in E as [Hin Ha].
  destruct (ro_low _ _ _ (pg_roots _ _ Hu) r Hin) as [_ Hr]. rewrite Ha in Hr.
  assert (3 ≤ Z.shiftr pn 18) by (rewrite Z.shiftr_div_pow2 by lia; apply Z.div_le_lower_bound; lia). lia.
Qed.

Lemma root_grows own u own' u' pn : grows own u own' u' → user_root u' pn = None → user_root u pn = None.
Proof.
  intros [_ _ _ Hl Hh]. unfold user_root.
  assert (∀ a l l', l ⊆ l' → find_root a l' = None → find_root a l = None) as Hfind.
  { intros a l l' Hsub Hn. destruct (find_root a l) as [r |] eqn:E; [| done]. apply find_root_spec in E as [Hr <-].
    apply Hsub in Hr. destruct (find_root_none (pr_addr r) l' Hn).
    by apply list_elem_of_fmap_2. }
  destruct (low_page pn); by apply Hfind.
Qed.

(** The entry of one page changes, unless it has no table and gets none. *)
Lemma Pageentry_any own u pn f :
  pages_ok own u → page_number pn → preserves_u64 f →
  (Pageentry pn f u = Panicked ∧ user_root u pn = None ∧ no_frame u) ∨
  ∃ b u' own', Pageentry pn f u = Ret (b, u') ∧ pages_ok own' u' ∧ grows own u own' u' ∧
    (b = false → user_entry u pn = 0) ∧
    ∀ pn', 0 ≤ pn' →
      user_entry u' pn' = if b && bool_decide (pn' = pn) then f (user_entry u pn) else user_entry u pn'.
Proof.
  intros Hu Hp Hf. destruct (decide (user_page pn)) as [Hus | Hus].
  - assert (pageentry_done own u pn f (Pageentry pn f u)) as [(E & Hn & Hno) | (b & u' & own' & E & Hr)].
    { destruct (low_page pn) eqn:?; [by apply Pageentry_low | by apply Pageentry_high]. }
    + by left.
    + right. exists b, u', own'. destruct Hr as (H1 & H2 & H3 & H4). split_and!; try done. intros E'. by apply H3.
  - right. exists false, u, own. rewrite Pageentry_outside by done. split_and!; try done.
    + by apply grows_same.
    + intros _. by eapply user_entry_outside.
Qed.

(** The entries of the pages in [ps] are changed by [f], those without a table
    may stay 0. *)
Definition changed (f : Z → Z) (ps : list Z) u u' : Prop :=
  ∀ pn, 0 ≤ pn →
    (pn ∉ ps → user_entry u' pn = user_entry u pn) ∧
    (pn ∈ ps → user_entry u' pn = f (user_entry u pn) ∨ user_entry u pn = 0 ∧ user_entry u' pn = 0).

Lemma change_each_spec own u ps f :
  pages_ok own u → Forall page_number ps → NoDup ps → preserves_u64 f →
  (change_each f ps u = Panicked ∧ ∃ pn, pn ∈ ps ∧ user_root u pn = None) ∨
  ∃ u' own', change_each f ps u = Ret u' ∧ pages_ok own' u' ∧ grows own u own' u' ∧ changed f ps u u'.
Proof.
  revert own u. induction ps as [| p ps IH]; intros own u Hu Hw Hnd Hf.
  { right. exists u, own. split_and!; [done | done | by apply grows_same |]. intros pn _. split; [done |].
    by intros ?%elem_of_nil. }
  apply Forall_cons in Hw as [Hp Hw]. apply NoDup_cons in Hnd as [Hnp Hnd]. cbn [change_each].
  destruct (Pageentry_any own u p f Hu Hp Hf) as [(-> & Hn & _) | (b & u1 & own1 & -> & Hu1 & Hg1 & Hb & He)].
  { left. split; [done |]. exists p. split; [left | done]. }
  cbn [mbind outcome_bind]. destruct (IH own1 u1 Hu1 Hw Hnd Hf) as [(-> & q & Hq & Hn) | (u2 & own2 & -> & Hu2 & Hg2 & Hc)].
  { left. split; [done |]. exists q. split; [by right | by eapply root_grows]. }
  right. exists u2, own2. split_and!; [done | done | by eapply grows_trans |].
  intros pn Hpn. destruct (Hc pn Hpn) as [Hout Hin]. rewrite He in Hout, Hin by done. split.
  - intros [Hne Hni]%not_elem_of_cons. rewrite Hout by done.
    rewrite bool_decide_false by done. by rewrite andb_false_r.
  - intros [-> | Hi]%elem_of_cons.
    + rewrite Hout by done. rewrite bool_decide_true by done. rewrite andb_true_r.
      destruct b; [by left | right]. by rewrite Hb.
    + rewrite bool_decide_false in Hin by (intros ->; done). rewrite andb_false_r in Hin. by apply Hin.
Qed.

Lemma map_each_spec own u ps f :
  pages_ok own u → Forall page_number ps → NoDup ps → preserves_u64 f →
  (map_each f ps u = Panicked ∧ ∃ pn, pn ∈ ps ∧ user_root u pn = None) ∨
  ∃ b u' own' done, map_each f ps u = Ret (b, u') ∧ pages_ok own' u' ∧ grows own u own' u' ∧
    (b = true → done = ps) ∧ done `prefix_of` ps ∧
    ∀ pn, 0 ≤ pn → user_entry u' pn = if decide (pn ∈ done) then f (user_entry u pn) else user_entry u pn.
Proof.
  revert own u. induction ps as [| p ps IH]; intros own u Hu Hw Hnd Hf.
  { right. exists true, u, own, []. split_and!; try done. by apply grows_same. }
  apply Forall_cons in Hw as [Hp Hw]. apply NoDup_cons in Hnd as [Hnp Hnd]. cbn [map_each].
  destruct (Pageentry_any own u p f Hu Hp Hf) as [(-> & Hn & _) | (b & u1 & own1 & -> & Hu1 & Hg1 & Hb & He)].
  { left. split; [done |]. exists p. split; [left | done]. }
  cbn [mbind outcome_bind]. destruct b.
  2: { right. exists false, u1, own1, []. split_and!; try done. apply prefix_nil. }
  destruct (IH own1 u1 Hu1 Hw Hnd Hf) as [(-> & q & Hq & Hn) | (b & u2 & own2 & dn & -> & Hu2 & Hg2 & Hb2 & Hpre & Hc)].
  { left. split; [done |]. exists q. split; [by right | by eapply root_grows]. }
  right. exists b, u2, own2, (p :: dn). split_and!; [done | done | by eapply grows_trans | | |].
  - intros ->. by rewrite Hb2.
  - by apply prefix_cons.
  - intros pn Hpn. rewrite Hc, He by done. cbn [andb].
    assert (p ∉ dn) by (intros ?; destruct Hnp, Hpre as [k ->]; apply elem_of_app; by left).
    destruct (bool_decide_reflect (pn = p)) as [-> | Hne].
    + destruct (decide (p ∈ dn)); [done |]. destruct (decide (p ∈ p :: dn)) as [| []]; [done | left].
    + destruct (decide (pn ∈ p :: dn)) as [[]%elem_of_cons | Hn]; [done | by rewrite decide_True |].
      rewrite decide_False; [done |]. intros ?. apply Hn. by right.
Qed.

End Entries.

(** * The invariant *)

(** The page behind a record. *)
Definition backing (p : PhysMapping) : Z :=
  match pm_data p with
  | Some d => d
  | None => match pm_cow p with Some c => c | None => pm_phys_page p end
  end.

(** The shape of a record: a page of a file, a page shared by fork, or a page of
    the process. *)
Definition record_ok (p : PhysMapping) : Prop :=
  match pm_data p, pm_cow p with
  | Some d, None => pm_phys_page p = d
  | None, Some _ => pm_phys_page p = 0
  | None, None => True
  | Some _, Some _ => False
  end.

Definition cow_refs (c : Z) (l : list PhysMapping) : nat := length (filter (fun p => pm_cow p = Some c) l).

Definition entry_present (e : Z) : Prop := bf_get pe_present e = 1.
Definition entry_writeable (e : Z) : Prop := bf_get pe_writeable e = 1.

Section Invariant.
Context {A : Type} `{FrameAllocatorLaws A}.
(** The frames that other processes hold, how many of their records refer to a
    page shared by fork, and the frames of the page cache. *)
Context (others : Z → Prop) (other_refs : Z → nat) (cached : Z → Prop).
Implicit Types (v : address_space A) (own : places) (l : list MemMapping).

Definition entry_of v (pn : Z) : Z := user_entry (as_pages v) pn.

Definition foreign (f : Z) : Prop := others f ∨ cached f.

(** A frame with the content of a page: in use and no table. *)
Definition page_frame own (u : user_pages A) (mem : gmap Z (list Z)) (f : Z) : Prop :=
  is_frame f ∧ frame_used (up_frames u) f ∧ own !! f = None ∧ is_Some (mem !! f).

(** The records of the map: one for a page, a page of the process is nobody
    else's, and the counts of the pages shared by fork are right. *)
Record flat_ok (ps : list PhysMapping) (cows : gmap Z nat) : Prop := {
  fo_once : NoDup (pm_page <$> ps);
  fo_record : ∀ p, p ∈ ps → record_ok p;
  fo_cached : ∀ p d, p ∈ ps → pm_data p = Some d → cached d;
  fo_alone : ∀ p q, p ∈ ps → q ∈ ps → is_shared p = false → backing p = backing q → p = q;
  fo_private : ∀ p, p ∈ ps → is_shared p = false → ¬ foreign (backing p);
  fo_cows : ∀ p c, p ∈ ps → pm_cow p = Some c →
    cows !! c = Some (cow_refs c ps + other_refs c)%nat ∧ ¬ cached c ∧ (others c → other_refs c ≠ 0%nat)
}.

Record records_ok (l : list MemMapping) (cows : gmap Z nat) : Prop := {
  ro_flat : flat_ok (map_phys l) cows;
  ro_image : ∀ m p, m ∈ l → p ∈ mm_mappings m → pm_data p ≠ None → mm_image m ≠ None
}.

(** The entries agree with the records. *)
Record entries_ok (l : list MemMapping) (ent : Z → Z) : Prop := {
  eo_present : ∀ pn, 0 ≤ pn → entry_present (ent pn) →
    ∃ p, p ∈ map_phys l ∧ pm_page p = pn ∧ below_addr (ent pn) = backing p ∧
      (entry_writeable (ent pn) → is_shared p = false);
  eo_cow : ∀ p, p ∈ map_phys l → pm_cow p ≠ None → entry_present (ent (pm_page p));
  eo_file : ∀ m pn, m ∈ l → mm_image m ≠ None → mm_covers m pn →
    (∀ p, p ∈ mm_mappings m → pm_page p = pn → is_shared p = true) → ¬ entry_writeable (ent pn)
}.

Record vm_ok own v : Prop := {
  vo_pages : pages_ok own (as_pages v);
  vo_map : map_ok (as_map v);
  vo_records : records_ok (as_map v) (as_cows v);
  vo_frame : ∀ p, p ∈ map_phys (as_map v) → page_frame own (as_pages v) (as_mem v) (backing p);
  vo_foreign : ∀ f, foreign f → page_frame own (as_pages v) (as_mem v) f;
  vo_entries : entries_ok (as_map v) (entry_of v)
}.

(** The memory of the others is as before. *)
Definition untouched v v' : Prop := ∀ f, foreign f → as_mem v' !! f = as_mem v !! f.

Lemma page_frame_grows own own' u u' mem f :
  grows own u own' u' → page_frame own u mem f → page_frame own' u' mem f.
Proof.
  intros [G1 G2 G3 _ _] (Hf & Hu & Ho & Hm). split_and!; [done | auto | | done].
  destruct (own' !! f) as [x |] eqn:E; [| done]. by destruct (G3 f x E Ho).
Qed.

Lemma elem_of_map_phys l p : p ∈ map_phys l ↔ ∃ m, m ∈ l ∧ p ∈ mm_mappings m.
Proof. unfold map_phys. rewrite list_elem_of_bind. split; intros (m & ? & ?); by exists m. Qed.

(** The page of a record is in its mapping. *)
Lemma record_covered l m p : map_ok l → m ∈ l → p ∈ mm_mappings m → mm_covers m (pm_page p).
Proof.
  intros [Hall _] Hm Hp. rewrite Forall_forall in Hall. pose proof (mo_phys m (Hall m Hm)) as Hph.
  rewrite Forall_forall in Hph. by apply Hph.
Qed.

(** Only entries and tables change. *)
Lemma vm_ok_entries own own' v u' l :
  vm_ok own v → pages_ok own' u' → grows own (as_pages v) own' u' →
  map_ok l → records_ok l (as_cows v) → map_phys l ≡ₚ map_phys (as_map v) →
  entries_ok l (user_entry u') → vm_ok own' (set_pages u' (set_map l v)).
Proof.
  intros [V1 V2 V3 V4 V5 V6] Hu' Hg Hl Hr Hph He.
  split; cbn [as_map as_pages as_mem as_cows set_pages set_map]; try done.
  - intros p Hp. rewrite Hph in Hp. eapply page_frame_grows; [done | by apply V4].
  - intros f Hf. eapply page_frame_grows; [done | by apply V5].
Qed.

(** ** Map *)

Lemma page_range_seqZ pagenum pages :
  0 ≤ pagenum → pagenum + pages < 2 ^ 32 → page_range pagenum pages = seqZ pagenum pages.
Proof.
  intros H1 H2. unfold page_range, seqZ. rewrite <- list_fmap_compose. apply list_fmap_ext.
  intros i x Hx%lookup_seq. cbn. rewrite wrap_id; [lia |]. unfold is_u. lia.
Qed.

Lemma map_phys_app l l' : map_phys (l ++ l') = map_phys l ++ map_phys l'.
Proof. apply bind_app. Qed.

Lemma fresh_entry_spec w xd e :
  bf_get pe_present (fresh_entry w xd e) = 0 ∧ bf_get pe_writeable (fresh_entry w xd e) = wrap 1 w.
Proof. unfold fresh_entry. split; by fields. Qed.

Lemma fresh_entry_u w xd : preserves_u64 (fresh_entry w xd).
Proof.
  intros e [He _]. unfold fresh_entry. repeat apply set_is_u.
  repeat match goal with |- 0 ≤ bf_set ?f ?x ?v => apply (set_is_u f x v) end. done.
Qed.

Lemma map_ok_snoc l m :
  map_ok l → mapping_ok m → (∀ p, mm_covers m p → ∀ m', m' ∈ l → ¬ mm_covers m' p) → map_ok (l ++ [m]).
Proof.
  intros [Hall Hpairs] Hm Hno. split; [apply Forall_app; by split; [| apply Forall_singleton] |].
  apply pairs_app. split_and!; [done | repeat constructor |].
  apply Forall_forall. intros x Hx. apply Forall_singleton. rewrite Forall_forall in Hall.
  pose proof (Hall x Hx) as Hxo. destruct Hxo as [? ? ? _], Hm as [? ? ? _]. unfold apart.
  destruct (decide (mm_pagenum x + mm_pages x ≤ mm_pagenum m)); [by left |].
  destruct (decide (mm_pagenum m + mm_pages m ≤ mm_pagenum x)); [by right |].
  exfalso. apply (Hno (Z.max (mm_pagenum x) (mm_pagenum m)) ltac:(unfold mm_covers; lia) x Hx).
  unfold mm_covers. lia.
Qed.

Lemma entries_ok_snoc l m ent ent' w :
  map_ok l → entries_ok l ent → mm_mappings m = [] → (mm_image m ≠ None → w = 0) →
  (∀ p, mm_covers m p → ∀ m', m' ∈ l → ¬ mm_covers m' p) →
  (∀ pn, 0 ≤ pn → ¬ mm_covers m pn → ent' pn = ent pn) →
  (∀ pn, mm_covers m pn → 0 ≤ pn ∧ bf_get pe_present (ent' pn) = 0 ∧ bf_get pe_writeable (ent' pn) = wrap 1 w) →
  entries_ok (l ++ [m]) ent'.
Proof.
  intros Hl [E1 E2 E3] Hnil Hw Hno Hout Hin.
  assert (map_phys (l ++ [m]) = map_phys l) as Hph.
  { rewrite map_phys_app. unfold map_phys at 2. cbn. by rewrite Hnil, !app_nil_r. }
  assert (∀ m' p, m' ∈ l → mm_covers m' p → 0 ≤ p ∧ ¬ mm_covers m p) as Hdis.
  { intros m' p Hm' Hc. destruct Hl as [Hall _]. rewrite Forall_forall in Hall. destruct (Hall m' Hm').
    split; [unfold mm_covers in Hc; lia |]. intros Hcm. by destruct (Hno p Hcm m' Hm'). }
  split; rewrite ?Hph.
  - intros pn Hpn Hp. destruct (decide (mm_pagenum m ≤ pn < mm_pagenum m + mm_pages m)) as [Hc | Hc].
    + destruct (Hin pn Hc) as (_ & Hz & _). unfold entry_present in Hp. congruence.
    + rewrite Hout in Hp |- * by done. by apply E1.
  - intros p Hp Hc. pose proof Hp as (m' & Hm' & Hpm)%elem_of_map_phys.
    destruct (Hdis m' (pm_page p) Hm') as [? ?]; [by eapply record_covered |]. rewrite Hout by done. by apply E2.
  - intros m' pn [Hm' | ->%list_elem_of_singleton]%elem_of_app Himg Hc Hsh.
    + destruct (Hdis m' pn Hm' Hc). rewrite Hout by done. by eapply E3.
    + destruct (Hin pn Hc) as (_ & _ & Ew). unfold entry_writeable. rewrite Ew, Hw by done. done.
Qed.

Lemma records_ok_snoc l m cows :
  records_ok l cows → mm_mappings m = [] → records_ok (l ++ [m]) cows.
Proof.
  intros [R1 R3] Hnil. assert (map_phys (l ++ [m]) = map_phys l) as Hph.
  { rewrite map_phys_app. unfold map_phys at 2. cbn. by rewrite Hnil, !app_nil_r. }
  split; rewrite ?Hph; try done.
  intros m' p [Hm' | ->%list_elem_of_singleton]%elem_of_app Hp; [by eapply R3 |]. rewrite Hnil in Hp. 
  by apply elem_of_nil in Hp.
Qed.

Lemma Map_with_ok own v m w xd :
  vm_ok own v → mapping_ok m → mm_mappings m = [] → (mm_image m ≠ None → w = 0) →
  (Map_with m (fresh_entry w xd) v = Panicked ∧ ∃ pn, mm_covers m pn ∧ user_root (as_pages v) pn = None) ∨
  Map_with m (fresh_entry w xd) v = Ret (false, v) ∧ CheckMapOverlap (mm_pagenum m) (mm_pages m) (as_map v) = false ∨
  ∃ b u', Map_with m (fresh_entry w xd) v = Ret (b, set_pages u' (set_map (as_map v ++ [m]) v)) ∧
    (b = true → ∃ own', vm_ok own' (set_pages u' (set_map (as_map v ++ [m]) v)) ∧
      ∀ pn, 0 ≤ pn → user_entry u' pn =
        if decide (mm_pagenum m ≤ pn < mm_pagenum m + mm_pages m) then fresh_entry w xd (entry_of v pn)
        else entry_of v pn).
Proof.
  intros Hv Hm Hnil Hw. pose proof Hv as [V1 V2 V3 V4 V5 V6]. pose proof Hm as [M1 M2 M3 _].
  unfold Map_with. destruct (CheckMapOverlap _ _ _) eqn:Hov; cbn [negb]; [| right; by left].
  pose proof (proj1 (CheckMapOverlap_spec (mm_pagenum m) (mm_pages m) (as_map v) (proj1 V2) M1 ltac:(lia) M3) Hov) as Hno.
  rewrite page_range_seqZ by lia.
  destruct (map_each_spec own (as_pages v) (seqZ (mm_pagenum m) (mm_pages m)) (fresh_entry w xd) V1)
    as [(-> & q & Hq%elem_of_seqZ & Hn) | (b & u' & own' & dn & -> & Hu' & Hg & Hb & _ & He)];
    [| apply NoDup_seqZ | apply fresh_entry_u | left; split; [done | by exists q] |].
  { apply Forall_forall. intros p Hp%elem_of_seqZ. unfold page_number. lia. }
  right. right. cbn [mbind outcome_bind]. exists b, u'. split; [done |]. intros ->. rewrite Hb in He by done.
  assert (∀ pn, 0 ≤ pn → user_entry u' pn =
    if decide (mm_pagenum m ≤ pn < mm_pagenum m + mm_pages m) then fresh_entry w xd (entry_of v pn)
    else entry_of v pn) as He'.
  { intros pn Hpn. rewrite He by done. unfold entry_of.
    destruct (decide (pn ∈ _)) as [Hin | Hin], (decide _) as [Hc | Hc]; try done; rewrite elem_of_seqZ in Hin; done. }
  exists own'. split; [| done].
  apply vm_ok_entries with (own := own); [done | done | done | | | |].
  - apply map_ok_snoc; [done | done |]. intros p Hp. by apply Hno.
  - by apply records_ok_snoc.
  - rewrite map_phys_app. unfold map_phys at 2. cbn. by rewrite Hnil, !app_nil_r.
  - eapply (entries_ok_snoc _ _ (entry_of v) _ w); try done.
    + intros pn Hpn Hc. rewrite He' by done. by rewrite decide_False.
    + intros pn Hc. unfold mm_covers in Hc. rewrite He' by lia. rewrite decide_True by done.
      split; [lia | apply fresh_entry_spec].
Qed.

End Invariant.
