(* ===== verification/ProcVmExamples.v ===== *)
(** Address spaces that the examples of the theorems about page faults and
    mprotect use: one with memory on demand, one with a file. *)
From S2P Require Import Prelude BitField PageEntry VPageAlloc PhysPageMap PPageAlloc Frames ProcMem ProcPages ProcPagesTheorems ProcVm ProcFault ProcVmInv.
Import PPageAlloc.Examples.

Local Open Scope Z_scope.

(** A page of the page cache: the first that the allocator gives. *)
Definition cache_page : Z := 65536.
Definition file_bytes : list Z := replicate 4096 7.

Definition is_cache_page (f : Z) : Prop := f = cache_page.
Definition nobody (_ : Z) : Prop := False.
Definition no_refs (_ : Z) : nat := 0.

Definition cache_user : user_pages (ppage_state (M := simple_physpagemap_managed)) :=
  UserPages [] [] ∅ (match alloc_frame boot_state with Ret (_, a) => a | _ => boot_state end).

Definition empty_space : address_space (ppage_state (M := simple_physpagemap_managed)) :=
  AddressSpace [] cache_user {[ cache_page := file_bytes ]} ∅ 0.

Lemma empty_space_ok : vm_ok nobody no_refs is_cache_page ∅ empty_space.
Proof.
  assert (frames_ok boot_state) as Hb by (split_and!; [apply boot_map_wf | done | done]).
  destruct (alloc_frame_law boot_state Hb) as (p & a' & E & Ha & Hcase).
  assert (p = cache_page) as ->.
  { assert (match alloc_frame boot_state with Ret (p, _) => p | _ => 0 end = cache_page) as E' by (by vm_compute).
    by rewrite E in E'. }
  destruct Hcase as [[? _] | (Hf & _ & Hq)]; [done |].
  assert (up_frames cache_user = a') as Eu by (unfold cache_user; cbn [up_frames]; by rewrite E).
  assert (frame_used a' cache_page) as Hused by (apply Hq; [done | by right]).
  split.
  - split; cbn [up_low up_high up_tables as_pages empty_space cache_user]; [| by split | done | ].
    + change (frames_ok (up_frames cache_user)). by rewrite Eu.
    + by split; cbn; [intros r ?%elem_of_nil.. | constructor | constructor].
  - by split; constructor.
  - split; [| by intros m p ?%elem_of_nil].
    split; cbn; try (by intros p ?%elem_of_nil); [constructor | by intros p d ?%elem_of_nil | by intros p q ?%elem_of_nil | by intros p c ?%elem_of_nil].
  - by intros p ?%elem_of_nil.
  - intros f [[] | ->]. split_and!; [done | | done |].
    { change (frame_used (up_frames cache_user) cache_page). by rewrite Eu. }
    exists file_bytes. by apply lookup_singleton_Some.
  - split; [| by intros p ?%elem_of_nil | by intros m pn ?%elem_of_nil].
    intros pn _ Hp. unfold entry_of, user_entry, user_root in Hp. by destruct (low_page pn).
Qed.

Definition space_after {R} (r : outcome (R * address_space (ppage_state (M := simple_physpagemap_managed)))) :
    address_space (ppage_state (M := simple_physpagemap_managed)) :=
  match r with Ret (_, v) => v | _ => empty_space end.

Definition succeeds {R} (r : outcome (bool * R)) : bool := match r with Ret (b, _) => b | _ => false end.

(** Four pages of memory on demand from page 2^31 on. *)
Definition anon_space := space_after (Map_anon (2 ^ 31) 4 false empty_space).

(** Page 3 of file 9, copied on write, of which 100 bytes are shown. *)
Definition file_space := space_after (Map_file (Some 9) (2 ^ 31) 1 3 100 true false true false empty_space).

Lemma mapped_space_ok m w xd :
  mapping_ok m → mm_mappings m = [] → (mm_image m ≠ None → w = 0) →
  succeeds (Map_with m (fresh_entry w xd) empty_space) = true →
  ∃ own, vm_ok nobody no_refs is_cache_page own (space_after (Map_with m (fresh_entry w xd) empty_space)).
Proof.
  intros Hm Hnil Hw Hs.
  destruct (Map_with_ok nobody no_refs is_cache_page ∅ empty_space m w xd empty_space_ok Hm Hnil Hw)
    as [[E _] | [[E _] | (b & u' & E & Hb)]]; rewrite E in Hs |- *; cbn in Hs; try done.
  destruct (Hb Hs) as (own' & Hv & _). by exists own'.
Qed.

Lemma anon_space_ok : ∃ own, vm_ok nobody no_refs is_cache_page own anon_space.
Proof. apply mapped_space_ok; [split; cbn; [lia.. | constructor] | done | done | by vm_compute]. Qed.

Lemma file_space_ok : ∃ own, vm_ok nobody no_refs is_cache_page own file_space.
Proof. apply mapped_space_ok; [split; cbn; [lia.. | constructor] | done | done | by vm_compute]. Qed.
