(* ===== verification/ProcFaultInv.v ===== *)
(** The page faults keep the invariant of an address space: the walk to the
    entry of a page, the change of one record of the map, and the pages that
    the faults make present. *)
From S2P Require Import Prelude BitField PageEntry VPageAlloc Frames ProcMem ProcPages ProcPagesTheorems ProcVm ProcFault ProcVmInv.

Local Open Scope Z_scope.

(** * One mapping changes its records *)

Definition same_range (m m' : MemMapping) : Prop :=
  mm_pagenum m' = mm_pagenum m ∧ mm_pages m' = mm_pages m ∧ mm_image m' = mm_image m.

Lemma with_mappings_range m ps : same_range m (with_mappings m ps).
Proof. done. Qed.

(** The mapping of a page, which is the one that is changed. *)
Lemma update_mapping_split l page m f :
  map_ok l → m ∈ l → mm_covers m page →
  ∃ l1 l2, l = l1 ++ m :: l2 ∧ update_mapping page f l = l1 ++ f m :: l2.
Proof.
  intros [Hall Hpairs]. induction l as [| x l IH]; intros Hm Hc; [by apply elem_of_nil in Hm |].
  apply Forall_cons in Hall as [Hx Hall]. cbn [update_mapping]. rewrite mm_end_ok by done.
  destruct (decide (mm_covers x page)) as [Hxc | Hxc].
  - assert (x = m) as ->.
    { apply elem_of_cons in Hm as [-> | Hm]; [done |]. eapply (map_ok_unique (x :: l)); try done.
      - by split; [constructor |].
      - left.
      - by right. }
    unfold mm_covers in Hxc. exists [], l. split; [done |]. cbn [app].
    by rewrite (proj2 (Z.leb_le _ _)), (proj2 (Z.ltb_lt _ _)) by lia.
  - apply elem_of_cons in Hm as [-> | Hm]; [done |]. inversion Hpairs as [| ? ? _ Hpairs']; subst.
    destruct (IH Hall Hpairs' Hm Hc) as (l1 & l2 & -> & E). exists (x :: l1), l2. split; [done |].
    rewrite E. unfold mm_covers in Hxc.
    destruct (Z.leb_spec (mm_pagenum x) page), (Z.ltb_spec page (mm_pagenum x + mm_pages x)); try done. lia.
Qed.

Lemma map_ok_edit l1 m m' l2 :
  map_ok (l1 ++ m :: l2) → same_range m m' → Forall (fun p => mm_covers m (pm_page p)) (mm_mappings m') →
  map_ok (l1 ++ m' :: l2).
Proof.
  intros [Hall Hpairs] (E1 & E2 & _) Hin. apply Forall_app in Hall as [H1 [Hm H2]%Forall_cons].
  split.
  - apply Forall_app. split; [done |]. apply Forall_cons. split; [| done].
    destruct Hm as [? ? ? _]. split; rewrite ?E1, ?E2; [done.. |]. unfold mm_covers in *. by rewrite E1, E2.
  - apply pairs_app in Hpairs as (P1 & P2 & P3). inversion P2 as [| ? ? Q1 Q2]; subst.
    apply pairs_app. split_and!; [done | constructor; [| done] |].
    + eapply Forall_impl; [exact Q1 |]. intros y. unfold apart. by rewrite E1, E2.
    + eapply Forall_impl; [exact P3 |]. intros y [Hy Hy2]%Forall_cons. constructor; [| done].
      unfold apart in *. by rewrite E1, E2.
Qed.

Lemma map_phys_edit l1 m l2 : map_phys (l1 ++ m :: l2) ≡ₚ mm_mappings m ++ map_phys l1 ++ map_phys l2.
Proof.
  rewrite map_phys_app. change (map_phys (m :: l2)) with (mm_mappings m ++ map_phys l2).
  rewrite !(assoc_L (++)). by rewrite (Permutation_app_comm (map_phys l1)).
Qed.

(** The first record that is shared. *)
Lemma update_shared_split page f ps p :
  find_shared page ps = Some p →
  pm_page p = page ∧ is_shared p = true ∧
  ∃ a b, ps = a ++ p :: b ∧ update_shared page f ps = a ++ f p :: b.
Proof.
  induction ps as [| q ps IH]; [done |]. cbn [find_shared update_shared].
  destruct ((pm_page q =? page) && is_shared q) eqn:E.
  - intros [= <-]. bsimp. split_and!; [done | done |]. by exists [], ps.
  - intros (? & ? & a & b & -> & ->)%IH. split_and!; [done | done |]. by exists (q :: a), b.
Qed.

Lemma find_page_spec page ps p : find_page page ps = Some p → p ∈ ps ∧ pm_page p = page.
Proof.
  induction ps as [| q ps IH]; [done |]. cbn. destruct (Z.eqb_spec (pm_page q) page).
  - intros [= <-]. split; [left | done].
  - intros [? ?]%IH. split; [by right | done].
Qed.

Lemma find_page_none page ps : find_page page ps = None → ∀ p, p ∈ ps → pm_page p ≠ page.
Proof.
  induction ps as [| q ps IH]; cbn; [intros _ p ?%elem_of_nil; done |].
  destruct (Z.eqb_spec (pm_page q) page); [done |]. intros Hn p [-> | Hp]%elem_of_cons; auto.
Qed.

(** * Records *)

Lemma cow_refs_cons c p ps :
  cow_refs c (p :: ps) = ((if decide (pm_cow p = Some c) then 1 else 0) + cow_refs c ps)%nat.
Proof. unfold cow_refs. rewrite filter_cons. by case_decide. Qed.

#[export] Instance cow_refs_perm c : Proper ((≡ₚ) ==> (=)) (cow_refs c).
Proof. intros ps ps' Hp. unfold cow_refs. by rewrite Hp. Qed.

Lemma cow_refs_elem c p ps : p ∈ ps → pm_cow p = Some c → cow_refs c ps ≠ 0%nat.
Proof.
  intros [k Hk]%elem_of_Permutation Hc. rewrite Hk, cow_refs_cons, decide_True by done. done.
Qed.

Section Records.
Context (others : Z → Prop) (other_refs : Z → nat) (cached : Z → Prop).
Abbreviation flat_ok := (flat_ok others other_refs cached).
Abbreviation foreign := (foreign others cached).

Lemma flat_ok_perm ps ps' cows : ps ≡ₚ ps' → flat_ok ps cows → flat_ok ps' cows.
Proof.
  intros Hp [F1 F2 F3 F4 F5 F6]. split.
  - by rewrite <- Hp.
  - intros p. rewrite <- Hp. apply F2.
  - intros p d. rewrite <- Hp. apply F3.
  - intros p q. rewrite <- Hp. apply F4.
  - intros p. rewrite <- Hp. apply F5.
  - intros p c. rewrite <- Hp. apply F6.
Qed.

(** A record that does not count goes. *)
Lemma flat_ok_drop p ps cows : flat_ok (p :: ps) cows → pm_cow p = None → flat_ok ps cows.
Proof.
  intros [F1 F2 F3 F4 F5 F6] Hc. split.
  - by apply NoDup_cons in F1 as [_ ?].
  - intros q Hq. apply F2. by right.
  - intros q d Hq. apply F3. by right.
  - intros q r Hq Hr. apply F4; by right.
  - intros q Hq. apply F5. by right.
  - intros q c Hq Hqc. destruct (F6 q c) as (E & ?); [by right | done |].
    rewrite cow_refs_cons, decide_False in E by congruence. done.
Qed.

(** A record of a page shared by fork goes. *)
Lemma flat_ok_drop_cow p c n ps cows cows' :
  flat_ok (p :: ps) cows → pm_cow p = Some c → cows !! c = Some n →
  cows' !! c = (if decide (n = 1)%nat then None else Some (n - 1)%nat) →
  (∀ x, x ≠ c → cows' !! x = cows !! x) → flat_ok ps cows'.
Proof.
  intros [F1 F2 F3 F4 F5 F6] Hc Hn Hc' Hx. split.
  - by apply NoDup_cons in F1 as [_ ?].
  - intros q Hq. apply F2. by right.
  - intros q d Hq. apply F3. by right.
  - intros q r Hq Hr. apply F4; by right.
  - intros q Hq. apply F5. by right.
  - intros q x Hq Hqx. destruct (F6 q x) as (E & ?); [by right | done |]. split; [| done].
    rewrite cow_refs_cons in E. destruct (decide (x = c)) as [-> | Hne].
    + rewrite decide_True in E by done. rewrite Hn in E. injection E as ->. rewrite Hc'.
      pose proof (cow_refs_elem c q ps Hq Hqx). rewrite decide_False by lia. f_equal. lia.
    + rewrite Hx by done. by rewrite decide_False in E by congruence.
Qed.

(** A new record, of a page of the process or of a file. *)
Lemma flat_ok_add r ps cows :
  flat_ok ps cows → pm_page r ∉ pm_page <$> ps → record_ok r → pm_cow r = None →
  (∀ d, pm_data r = Some d → cached d) →
  (is_shared r = false → ¬ foreign (backing r) ∧ ∀ q, q ∈ ps → backing q ≠ backing r) →
  flat_ok (r :: ps) cows.
Proof.
  intros [F1 F2 F3 F4 F5 F6] Hpg Hr Hc Hd Hp. split.
  - cbn. by apply NoDup_cons.
  - intros q [-> | Hq]%elem_of_cons; auto.
  - intros q d [-> | Hq]%elem_of_cons; [apply Hd | by apply F3].
  - intros p q [-> | Hq]%elem_of_cons [-> | Hq']%elem_of_cons Hsh E; auto.
    + destruct (Hp Hsh) as [_ Hx]. by destruct (Hx q Hq').
    + destruct (is_shared r) eqn:Hrs.
      * destruct (pm_data r) as [d |] eqn:Ed.
        -- destruct (F5 p Hq Hsh). right. rewrite E. unfold backing. rewrite Ed. by apply Hd.
        -- unfold is_shared in Hrs. rewrite Ed, Hc in Hrs. done.
      * destruct (Hp eq_refl) as [_ Hx]. by destruct (Hx p Hq).
  - intros q [-> | Hq]%elem_of_cons Hsh; [by apply Hp | by apply F5].
  - intros q c [-> | Hq]%elem_of_cons Hqc; [congruence |].
    rewrite cow_refs_cons, decide_False by congruence. by eapply F6.
Qed.

End Records.

(** * The entry of the page at an address *)

Section Walk.
Context {A : Type} `{FrameAllocatorLaws A}.
Implicit Types (u : user_pages A) (own : places).

Lemma fault_page_ok addr :
  0 ≤ addr < 2 ^ 44 → outside addr = false →
  fault_page addr = addr / 4096 ∧ user_page (fault_page addr) ∧
  low_page (fault_page addr) = (addr <? highRelocationOffset).
Proof.
  intros Ha Ho. unfold fault_page. rewrite Z.shiftr_div_pow2 by lia. change (2 ^ 12) with 4096.
  pose proof (Z.div_mod addr 4096). pose proof (Z.mod_pos_bound addr 4096).
  assert (0 ≤ addr / 4096 < 2 ^ 32) by (split; [apply Z.div_pos | apply Z.div_lt_upper_bound]; lia).
  rewrite wrap_id by (unfold is_u; lia). unfold outside in Ho. apply andb_false_iff in Ho.
  rewrite Z.ltb_ge, Z.leb_gt in Ho.
  change highRelocationOffset with (2 ^ 43) in *. change lowUserpaceMax with (3 * 2 ^ 30) in *.
  split_and!; [done | split; [lia |] |].
  - destruct Ho; [right | left]; lia.
  - rewrite low_page_spec by lia. destruct (Z.ltb_spec (addr / 4096) (2 ^ 31)), (Z.ltb_spec addr (2 ^ 43)); done || lia.
Qed.

Lemma land_511 x : Z.land x 511 = x mod 512.
Proof. change 511 with (Z.ones 9). by rewrite Z.land_ones by lia. Qed.

Lemma page_index_511 pn : Z.land pn 511 = page_index pn.
Proof. apply land_511. Qed.

(** The indices of the fault handlers are those of Pageentry. *)
Lemma mid_index pn k : 0 ≤ k → (pn / 2 ^ k) mod 512 = pn mod 2 ^ (k + 9) / 2 ^ k.
Proof.
  intros Hk. rewrite Z.pow_add_r by lia. change (2 ^ 9) with 512.
  assert (0 < 2 ^ k) by (apply Z.pow_pos_nonneg; lia).
  rewrite Z.rem_mul_r by lia. rewrite (Z.mul_comm (2 ^ k)), Z.div_add by lia.
  rewrite (Z.div_small (pn mod 2 ^ k)) by (apply Z.mod_pos_bound; lia). done.
Qed.

Lemma present_table_of own u t n k i e :
  pages_ok own u → own !! t = Some (S n, k) → index_ok i → read_entry u t i = Ret e →
  present_table e = table_of e.
Proof.
  intros Hu Ht Hi He. destruct (read_entry_own own u t _ i Hu Ht Hi) as (l & e' & E & Hl & Hle).
  rewrite He in E. injection E as <-. unfold present_table, table_of, bf_flag.
  destruct (Z.eqb_spec (bf_get pe_page_ppn e) 0) as [Hz | Hz].
  - by rewrite (tr_absent _ _ (pg_tree _ _ Hu) _ _ _ _ _ _ Ht Hl Hle Hz).
  - destruct (tr_below _ _ (pg_tree _ _ Hu) _ _ _ _ _ _ Ht Hl Hle Hz) as [_ ->]. done.
Qed.

Lemma present_walk own u t n k i :
  pages_ok own u → own !! t = Some (S n, k) → index_ok i →
  ∃ e, read_entry u t i = Ret e ∧ present_table e = walk (up_tables u) t [i] ∧
    ∀ t', walk (up_tables u) t [i] = Some t' → own !! t' = Some (n, k ++ [i]).
Proof.
  intros Hu Ht Hi. destruct (table_of_walk own u t n k i Hu Ht Hi) as (e & He & Hw & Hown).
  exists e. rewrite (present_table_of own u t n k i e Hu Ht Hi He). split_and!; [done | done |].
  intros t'. rewrite <- Hw. apply Hown.
Qed.

Lemma page_table_of_spec own u addr :
  pages_ok own u → 0 ≤ addr < 2 ^ 44 → outside addr = false →
  page_table_of addr (fault_page addr) u = Ret (leaf_table u (fault_page addr)).
Proof.
  intros Hu Ha Ho. destruct (fault_page_ok addr Ha Ho) as (_ & [Hp Hus] & Hlow).
  set (pn := fault_page addr) in *. unfold page_table_of. rewrite <- Hlow.
  unfold leaf_table. rewrite !land_511, !Z.shiftr_div_pow2 by lia. rewrite !mid_index by lia.
  pose proof (page_path_ok pn) as Hix. pose proof (page_path_div pn) as Epath. unfold user_root.
  destruct (low_page pn) eqn:El; rewrite Epath in Hix |- *.
  - assert (user_root u pn = find_root (Z.shiftr pn 18) (up_low u)) as Hroot by (unfold user_root; by rewrite El).
    rewrite low_page_spec in El by lia. bsimp. rewrite Z.shiftr_div_pow2 in * by lia.
    assert (0 ≤ pn / 2 ^ 18 < 3) by (split; [apply Z.div_pos | apply Z.div_lt_upper_bound]; lia).
    change (9 + 9) with 18. rewrite wrap_id by (unfold is_u; lia).
    destruct (find_root _ _) as [r |]; [| done]. rewrite (branches_owned _ _ _ _ Hu Hroot).
    pose proof (user_root_own _ _ _ _ Hu Hroot) as Hown. rewrite Epath in Hown.
    apply Forall_cons in Hix as [Hi _]. cbn [mbind outcome_bind option_bind].
    destruct (present_walk own u _ _ _ _ Hu Hown Hi) as (e & -> & Hw & _). cbn [mbind outcome_bind]. by rewrite Hw.
  - assert (user_root u pn = find_root (Z.shiftr pn 27) (up_high u)) as Hroot by (unfold user_root; by rewrite El).
    rewrite low_page_spec in El by lia. bsimp. rewrite Z.shiftr_div_pow2 in * by lia.
    assert (0 ≤ pn / 2 ^ 27 < 32) by (split; [apply Z.div_pos | apply Z.div_lt_upper_bound]; lia).
    change (9 + 9 + 9) with 27. rewrite wrap_id by (unfold is_u; lia).
    destruct (find_root _ _) as [r |]; [| done]. rewrite (branches_owned _ _ _ _ Hu Hroot).
    pose proof (user_root_own _ _ _ _ Hu Hroot) as Hown. rewrite Epath in Hown.
    apply Forall_cons in Hix as [Hi1 Hix]. apply Forall_cons in Hix as [Hi2 _].
    cbn [mbind outcome_bind option_bind].
    change (9 + 9) with 18. change (18 + 9) with 27.
    destruct (present_walk own u _ _ _ _ Hu Hown Hi1) as (e & -> & Hw & Hown1). cbn [mbind outcome_bind]. rewrite Hw.
    destruct (walk (up_tables u) (pr_physpage r) [_]) as [t |] eqn:Ew; [| by rewrite walk_none].
    rewrite (walk_cons _ _ _ t) by done.
    destruct (present_walk own u t _ _ _ Hu (Hown1 t eq_refl) Hi2) as (e2 & -> & Hw2 & _).
    cbn [mbind outcome_bind]. by rewrite Hw2.
Qed.

(** Reading and writing the entry in its table. *)
Lemma leaf_own own u pn t :
  pages_ok own u → leaf_table u pn = Some t → ∃ k, own !! t = Some (0%nat, k).
Proof.
  intros Hu Hleaf. unfold leaf_table in Hleaf. destruct (user_root u pn) as [r |] eqn:Hr; [| done].
  cbn [mbind option_bind] in Hleaf. pose proof (user_root_own _ _ _ _ Hu Hr) as Ho.
  eexists. exact (walk_own _ _ (pg_tree _ _ Hu) _ _ _ _ _ Ho eq_refl (page_path_ok pn) Hleaf).
Qed.

Lemma read_leaf_entry own u pn t :
  pages_ok own u → leaf_table u pn = Some t → read_entry u t (Z.land pn 511) = Ret (user_entry u pn).
Proof.
  intros Hu Hleaf. destruct (leaf_own own u pn t Hu Hleaf) as [k Ht]. rewrite page_index_511.
  pose proof (read_leaf own u t k pn Hu Ht Hleaf) as E.
  destruct (read_entry u t (page_index pn)) as [e | | |]; try done. by injection E as ->.
Qed.

Lemma write_user_leaf own u pn t f :
  pages_ok own u → leaf_table u pn = Some t → 0 ≤ pn → preserves_u64 f →
  ∃ u', update_entry t (Z.land pn 511) f u = Ret u' ∧ pages_ok own u' ∧ up_frames u' = up_frames u ∧
    ∀ pn', 0 ≤ pn' → user_entry u' pn' = if decide (pn' = pn) then f (user_entry u pn) else user_entry u pn'.
Proof.
  intros Hu Hleaf Hp Hf. rewrite page_index_511. unfold leaf_table in Hleaf.
  destruct (user_root u pn) as [r |] eqn:Hr; [| done].
  destruct (write_user_page own u u r t pn f) as (u' & ? & ? & ? & _ & _ & ?); try done. by exists u'.
Qed.

End Walk.

(** * A page becomes present *)

Section Faults.
Context {A : Type} `{FrameAllocatorLaws A}.
Context (others : Z → Prop) (other_refs : Z → nat) (cached : Z → Prop).
Implicit Types (v : address_space A) (own : places) (l : list MemMapping).
Abbreviation vm_ok := (vm_ok others other_refs cached).
Abbreviation records_ok := (records_ok others other_refs cached).
Abbreviation flat_ok := (flat_ok others other_refs cached).
Abbreviation foreign := (foreign others cached).
Abbreviation untouched := (untouched others cached).

(** The mapping [m] of [l] becomes [m'], with the record [r] of page [pn] instead
    of [old]. *)
Record edit l l' (m m' : MemMapping) (pn : Z) (old rest : list PhysMapping) (r : PhysMapping) : Prop := {
  ed_split : ∃ l1 l2, l = l1 ++ m :: l2 ∧ l' = l1 ++ m' :: l2;
  ed_range : same_range m m';
  ed_covers : mm_covers m pn;
  ed_before : mm_mappings m ≡ₚ old ++ rest;
  ed_after : mm_mappings m' ≡ₚ r :: rest;
  ed_old : ∀ p, p ∈ old → pm_page p = pn;
  ed_page : pm_page r = pn
}.

Lemma edit_phys l l' m m' pn old rest r :
  edit l l' m m' pn old rest r → ∃ ps, map_phys l ≡ₚ old ++ ps ∧ map_phys l' ≡ₚ r :: ps ∧ ∀ p, p ∈ rest → p ∈ ps.
Proof.
  intros [(l1 & l2 & -> & ->) _ _ Hb Ha _ _]. exists (rest ++ map_phys l1 ++ map_phys l2).
  rewrite !map_phys_edit, Hb, Ha. split_and!; [by rewrite <- (assoc_L (++)) | done |].
  intros p Hp. apply elem_of_app. by left.
Qed.

Lemma edit_map_ok l l' m m' pn old rest r :
  map_ok l → edit l l' m m' pn old rest r → map_ok l'.
Proof.
  intros Hl [(l1 & l2 & -> & ->) Hr Hc Hb Ha _ Hpg]. eapply map_ok_edit; [done | done |].
  rewrite Ha. apply Forall_cons. split; [by rewrite Hpg |].
  assert (mapping_ok m) as [_ _ _ Hph].
  { destruct Hl as [Hall _]. apply Forall_app in Hall as [_ [? _]%Forall_cons]. done. }
  rewrite Hb in Hph. by apply Forall_app in Hph as [_ ?].
Qed.

(** The page of the edit has no record in the rest. *)
Lemma edit_other l l' m m' pn old rest r p cows :
  edit l l' m m' pn old rest r → flat_ok (map_phys l') cows → p ∈ map_phys l' → pm_page p = pn → p = r.
Proof.
  intros He Hf Hp Hpg. destruct (edit_phys _ _ _ _ _ _ _ _ He) as (ps & _ & Hl' & _).
  pose proof (fo_once _ _ _ _ _ Hf) as Hnd. rewrite Hl' in Hnd, Hp. apply NoDup_cons in Hnd as [Hnd _].
  apply elem_of_cons in Hp as [-> | Hp]; [done |]. destruct Hnd.
  rewrite (ed_page _ _ _ _ _ _ _ _ He), <- Hpg. by apply list_elem_of_fmap_2.
Qed.

Lemma edit_image_ok l l' m m' pn old rest r cows cows' :
  records_ok l cows → edit l l' m m' pn old rest r → flat_ok (map_phys l') cows' →
  (pm_data r ≠ None → mm_image m ≠ None) → records_ok l' cows'.
Proof.
  intros [_ Himg] [(l1 & l2 & -> & ->) (_ & _ & Ei) _ Hb Ha _ _] Hf Hr. split; [done |].
  intros x p. rewrite elem_of_app, elem_of_cons. intros [Hx | [-> | Hx]] Hp Hd.
  - eapply Himg; [| done | done]. apply elem_of_app. by left.
  - rewrite Ei. rewrite Ha in Hp. apply elem_of_cons in Hp as [-> | Hp]; [by apply Hr |].
    eapply (Himg m p); [apply elem_of_app; right; left | | done]. rewrite Hb. apply elem_of_app. by right.
  - eapply Himg; [| done | done]. apply elem_of_app. right. by right.
Qed.

Lemma edit_entries_ok l l' m m' pn old rest r cows ent ent' :
  map_ok l → entries_ok l ent → edit l l' m m' pn old rest r → flat_ok (map_phys l') cows → pm_cow r = None →
  (∀ pn', 0 ≤ pn' → pn' ≠ pn → ent' pn' = ent pn') →
  entry_present (ent' pn) → below_addr (ent' pn) = backing r →
  (entry_writeable (ent' pn) → is_shared r = false) → entries_ok l' ent'.
Proof.
  intros Hl [E1 E2 E3] He Hf Hrc Hsame Hpr Hba Hw.
  pose proof (edit_map_ok _ _ _ _ _ _ _ _ Hl He) as Hl'.
  destruct (edit_phys _ _ _ _ _ _ _ _ He) as (ps & Hp & Hp' & Hrest). split.
  - intros pn' H0' Hpr'. destruct (decide (pn' = pn)) as [-> | Hne].
    { exists r. rewrite Hp'. split_and!; [left | apply (ed_page _ _ _ _ _ _ _ _ He) | done | done]. }
    rewrite Hsame in * by done. destruct (E1 pn' H0' Hpr') as (p & Hin & Hpg & Hx). exists p.
    split; [| done]. rewrite Hp' . rewrite Hp in Hin. apply elem_of_app in Hin as [Hin | Hin]; [| by right].
    destruct Hne. rewrite <- Hpg. by apply (ed_old _ _ _ _ _ _ _ _ He).
  - intros p Hin Hc. assert (pm_page p ≠ pn) as Hne.
    { intros Hpg. destruct Hc. by rewrite (edit_other _ _ _ _ _ _ _ _ _ _ He Hf Hin Hpg). }
    pose proof Hin as (x & Hx & Hpx)%elem_of_map_phys.
    assert (0 ≤ pm_page p).
    { pose proof (record_covered _ _ _ Hl' Hx Hpx) as Hcv. destruct Hl' as [Hall _].
      rewrite Forall_forall in Hall. destruct (Hall x Hx). unfold mm_covers in Hcv. lia. }
    rewrite Hsame by done. apply E2; [| done]. rewrite Hp' in Hin. rewrite Hp.
    apply elem_of_cons in Hin as [-> | Hin]; [| apply elem_of_app; by right].
    by destruct Hne, (ed_page _ _ _ _ _ _ _ _ He).
  - intros x pn' Hx Himg Hc Hsh. destruct (ed_split _ _ _ _ _ _ _ _ He) as (l1 & l2 & -> & ->).
    destruct (ed_range _ _ _ _ _ _ _ _ He) as (R1 & R2 & R3).
    destruct (decide (pn' = pn)) as [-> | Hne].
    + assert (x = m') as ->.
      { eapply (map_ok_unique _ x m' pn Hl' Hx); [apply elem_of_app; right; left | done |].
        pose proof (ed_covers _ _ _ _ _ _ _ _ He). unfold mm_covers in *. lia. }
      intros Hwr. specialize (Hw Hwr). specialize (Hsh r). rewrite Hw in Hsh.
      discriminate Hsh; [| apply (ed_page _ _ _ _ _ _ _ _ He)].
      rewrite (ed_after _ _ _ _ _ _ _ _ He). left.
    + assert (0 ≤ pn').
      { destruct Hl' as [Hall _]. rewrite Forall_forall in Hall. destruct (Hall x Hx). unfold mm_covers in Hc. lia. }
      rewrite Hsame by done. apply elem_of_app in Hx as [Hx | [-> | Hx]%elem_of_cons].
      * eapply E3; [apply elem_of_app; by left | done..].
      * apply (E3 m pn'); [apply elem_of_app; right; left | by rewrite <- R3 | unfold mm_covers in *; lia |].
        intros p Hpm Hpg. apply Hsh; [| done]. rewrite (ed_after _ _ _ _ _ _ _ _ He).
        rewrite (ed_before _ _ _ _ _ _ _ _ He) in Hpm. apply elem_of_app in Hpm as [Hpm | Hpm]; [| by right].
        destruct Hne. rewrite <- Hpg. by apply (ed_old _ _ _ _ _ _ _ _ He).
      * eapply E3; [apply elem_of_app; right; by right | done..].
Qed.

(** ** New frames *)

Lemma with_frames_same (u : user_pages A) : with_frames (up_frames u) u = u.
Proof. by destruct u. Qed.

(** A new frame with some content is nobody's. *)
Lemma vm_ok_alloc own v phys a' bytes :
  vm_ok own v → alloc_frame (up_frames (as_pages v)) = Ret (phys, a') → phys ≠ 0 →
  let v' := set_mem (<[phys := bytes]> (as_mem v)) (set_pages (with_frames a' (as_pages v)) v) in
  vm_ok own v' ∧ page_frame own (as_pages v') (as_mem v') phys ∧ ¬ foreign phys ∧
  (∀ p, p ∈ map_phys (as_map v) → backing p ≠ phys) ∧ untouched v v' ∧ ¬ frame_used (up_frames (as_pages v)) phys.
Proof.
  intros [V1 V2 V3 V4 V5 V6] Ha Hne v'.
  destruct (alloc_frame_law _ (pg_frames _ _ V1)) as (p & a & Ha' & Hfa & Hcase).
  rewrite Ha in Ha'. injection Ha' as <- <-. destruct Hcase as [[-> _] | (Hf & Hnu & Hq)]; [done |].
  assert (grows own (as_pages v) own (as_pages v')) as Hg.
  { split; [done | | congruence | done | done]. intros q Hqf ?. apply Hq; [done | by left]. }
  assert (pages_ok own (as_pages v')) as Hu'.
  { destruct V1 as [? ? Hus ?]. split; cbn; try done. intros t x Ht. apply Hq.
    - by apply (tr_table _ _ pg_tree _ _ Ht).
    - left. by eapply Hus. }
  assert (∀ f, page_frame own (as_pages v) (as_mem v) f → f ≠ phys ∧ page_frame own (as_pages v') (as_mem v') f) as Hpf.
  { intros f Hpf. assert (f ≠ phys) as Hne' by (intros ->; by destruct Hnu, Hpf as (_ & ? & _)).
    split; [done |]. apply (page_frame_grows _ _ _ _ _ _ Hg) in Hpf as (? & ? & ? & ?). split_and!; try done.
    cbn. by rewrite lookup_insert_ne. }
  split_and!; try done.
  - split; cbn [v' as_map as_cows set_mem set_pages]; try done.
    + intros q Hqi. by apply Hpf, V4.
    + intros f Hff. by apply Hpf, V5.
  - split_and!; [done | apply Hq; [done | by right] | exact (fresh_place own (as_pages v) phys V1 Hnu) |].
    cbn. by rewrite lookup_insert_eq.
  - intros Hff. by destruct (Hpf phys (V5 _ Hff)).
  - intros q Hqi. by apply Hpf, V4.
  - intros f Hff. cbn. rewrite lookup_insert_ne; [done |]. by destruct (Hpf f (V5 _ Hff)) as [? _].
Qed.

(** ** The entry of a page that is shown *)

Lemma frame_ppn phys : is_frame phys → PAGESIZE * wrap 28 (Z.shiftr phys 12) = phys.
Proof.
  intros (n & -> & Hn). rewrite Z.shiftr_div_pow2 by lia. change (2 ^ 12) with PAGESIZE.
  rewrite frame_page. by rewrite wrap_id by (unfold is_u; lia).
Qed.

Lemma present_entry_spec phys (private cow : bool) e :
  is_frame phys →
  entry_present (present_entry phys private cow e) ∧ below_addr (present_entry phys private cow e) = phys ∧
  (entry_writeable (present_entry phys private cow e) → private = true ∨ entry_writeable e).
Proof.
  intros Hf. unfold present_entry, entry_present, entry_writeable, below_addr.
  destruct (bf_flag pe_execution_disabled _ && private && cow) eqn:E; fields; cbn [bf_bits pe_page_ppn];
    rewrite ?frame_ppn by done.
  - split_and!; [done | done |]. intros _. left. by destruct private; [| rewrite andb_false_r in E].
  - split_and!; [done | done | by right].
Qed.

Lemma present_entry_u phys private cow : preserves_u64 (present_entry phys private cow).
Proof.
  intros e [He _]. unfold present_entry. destruct (_ && _ && _); repeat apply set_is_u;
    repeat match goal with |- 0 ≤ bf_set ?f ?x ?v => apply (set_is_u f x v) end; done.
Qed.

(** The mapping of page [pn] gets the record of a page, the entry shows it. *)
Lemma show_record own v l' m m' pn old rest r t f :
  vm_ok own v → edit (as_map v) l' m m' pn old rest r → flat_ok (map_phys l') (as_cows v) → pm_cow r = None →
  (pm_data r ≠ None → mm_image m ≠ None) → page_frame own (as_pages v) (as_mem v) (backing r) →
  (∀ p, p ∈ map_phys l' → p ∈ map_phys (as_map v) ∨ p = r) →
  leaf_table (as_pages v) pn = Some t → preserves_u64 f → 0 ≤ pn →
  entry_present (f (entry_of v pn)) → below_addr (f (entry_of v pn)) = backing r →
  (entry_writeable (f (entry_of v pn)) → is_shared r = false) →
  ∃ u', update_entry t (Z.land pn 511) f (as_pages v) = Ret u' ∧
    vm_ok own (set_pages u' (set_map l' v)) ∧ up_frames u' = up_frames (as_pages v) ∧
    ∀ pn', 0 ≤ pn' → user_entry u' pn' = if decide (pn' = pn) then f (entry_of v pn) else entry_of v pn'.
Proof.
  intros [V1 V2 V3 V4 V5 V6] He Hf Hrc Hrd Hrf Hin Hleaf Hfu Hpn Hpr Hba Hw.
  destruct (write_user_leaf own (as_pages v) pn t f V1 Hleaf Hpn Hfu) as (u' & -> & Hu' & Hfr & Hent).
  exists u'. split_and!; try done.
  assert (∀ g, page_frame own (as_pages v) (as_mem v) g → page_frame own u' (as_mem v) g) as Hpf.
  { intros g. unfold page_frame. by rewrite Hfr. }
  split; cbn [as_map as_pages as_mem as_cows set_pages set_map]; try done.
  - by eapply edit_map_ok.
  - by eapply edit_image_ok.
  - intros p [Hp | ->]%Hin; apply Hpf; [by apply V4 | done].
  - intros g Hg. by apply Hpf, V5.
  - unfold entry_of. cbn [as_pages set_pages set_map]. eapply edit_entries_ok; try done; unfold entry_of in *.
    + intros pn' H0' Hne. rewrite Hent by done. by rewrite decide_False.
    + rewrite Hent by done. by rewrite decide_True.
    + rewrite Hent by done. by rewrite decide_True.
    + rewrite Hent by done. by rewrite decide_True.
Qed.

(** ** Pages shared by fork *)

(** What a pointer less to a page leaves of the frames and the counts. *)
Lemma drop_cow_spec own v c n :
  pages_ok own (as_pages v) → as_cows v !! c = Some n → n ≠ 0%nat →
  is_frame c → frame_used (up_frames (as_pages v)) c → own !! c = None →
  ∃ a' cows', drop_cow c v =
      Ret (AddressSpace (as_map v) (with_frames a' (as_pages v)) (as_mem v) cows' (as_brk v)) ∧
    pages_ok own (with_frames a' (as_pages v)) ∧
    (∀ mem f, page_frame own (as_pages v) mem f → (n = 1%nat → f ≠ c) →
       page_frame own (with_frames a' (as_pages v)) mem f) ∧
    cows' !! c = (if decide (n = 1)%nat then None else Some (n - 1)%nat) ∧
    ∀ x, x ≠ c → cows' !! x = as_cows v !! x.
Proof.
  intros Hu Hc Hn Hf Hus Ho. unfold drop_cow. rewrite Hc. destruct n as [| [| n]]; [done | |].
  - unfold free_page. cbn [set_cows as_pages].
    destruct (free_frame_law _ c (pg_frames _ _ Hu) Hf Hus) as (a' & -> & Hfa & Hq).
    cbn [mbind outcome_bind]. exists a', (delete c (as_cows v)). split_and!; [done | | | |].
    + destruct Hu as [U1 U2 U3 U4]. split; cbn; try done. intros t x Ht. apply Hq.
      * by apply (tr_table _ _ U2 _ _ Ht).
      * split; [by eapply U3 | congruence].
    + intros mem f (P1 & P2 & P3 & P4) Hne. split_and!; try done. cbn. apply Hq; [done |]. split; [done | by apply Hne].
    + by rewrite lookup_delete_eq.
    + intros x Hx. by rewrite lookup_delete_ne.
  - exists (up_frames (as_pages v)), (<[c := S n]> (as_cows v)). rewrite with_frames_same.
    split_and!; [done | done | done | |].
    + by rewrite lookup_insert_eq, decide_False.
    + intros x Hx. by rewrite lookup_insert_ne.
Qed.

(** The frames of the map and of the others when a pointer to [c] goes. *)
Lemma cow_frame_apart own v p c ps :
  vm_ok own v → map_phys (as_map v) ≡ₚ p :: ps → pm_cow p = Some c →
  ∃ n, as_cows v !! c = Some n ∧ n ≠ 0%nat ∧ page_frame own (as_pages v) (as_mem v) c ∧
    (n = 1%nat → ∀ f, foreign f ∨ (∃ q, q ∈ ps ∧ f = backing q) → f ≠ c).
Proof.
  intros [V1 V2 [Hflat _] V4 V5 V6] Hps Hc. apply (flat_ok_perm _ _ _ _ _ _ Hps) in Hflat as [F1 F2 F3 F4 F5 F6].
  assert (p ∈ p :: ps) as Hp by left. destruct (F6 p c Hp Hc) as (En & Hca & Ho).
  assert (pm_data p = None) as Hd.
  { pose proof (F2 p Hp) as Hr. unfold record_ok in Hr. rewrite Hc in Hr. by destruct (pm_data p). }
  assert (backing p = c) as Hb by (unfold backing; by rewrite Hd, Hc).
  rewrite cow_refs_cons, decide_True in En by done.
  eexists. split; [exact En |]. split; [done |]. split.
  { rewrite <- Hb. apply V4. rewrite Hps. left. }
  intros Hn f Hf ->. destruct Hf as [[Hf | Hf] | (q & Hq & E)].
  - specialize (Ho Hf). lia.
  - done.
  - assert (q ∈ p :: ps) as Hq' by (by right). destruct (is_shared q) eqn:Hsh.
    + destruct (pm_data q) as [d |] eqn:Ed.
      * apply Hca. rewrite E. unfold backing. rewrite Ed. by eapply F3.
      * unfold is_shared in Hsh. rewrite Ed in Hsh. destruct (pm_cow q) as [c' |] eqn:Ec; [| done].
        unfold backing in E. rewrite Ed, Ec in E. subst c'. pose proof (cow_refs_elem c q ps Hq Ec). lia.
    + assert (q = p) as -> by (apply F4; [done | done | done | congruence]).
      unfold is_shared in Hsh. by rewrite Hd, Hc in Hsh.
Qed.

Lemma copied_data_spec phys e :
  is_frame phys →
  entry_present (copied_data_entry phys e) ∧ below_addr (copied_data_entry phys e) = phys ∧
  entry_writeable (copied_data_entry phys e).
Proof.
  intros Hf. unfold copied_data_entry, entry_present, entry_writeable, below_addr. fields.
  cbn [bf_bits pe_page_ppn]. by rewrite frame_ppn.
Qed.

Lemma copied_cow_spec phys e :
  is_frame phys →
  bf_get pe_present (copied_cow_entry phys e) = bf_get pe_present e ∧
  below_addr (copied_cow_entry phys e) = phys ∧ entry_writeable (copied_cow_entry phys e).
Proof.
  intros Hf. unfold copied_cow_entry, entry_writeable, below_addr. fields.
  cbn [bf_bits pe_page_ppn]. by rewrite frame_ppn.
Qed.

Lemma copied_data_u phys : preserves_u64 (copied_data_entry phys).
Proof.
  intros e [He _]. unfold copied_data_entry. repeat apply set_is_u;
    repeat match goal with |- 0 ≤ bf_set ?f ?x ?v => apply (set_is_u f x v) end; done.
Qed.

Lemma copied_cow_u phys : preserves_u64 (copied_cow_entry phys).
Proof.
  intros e [He _]. unfold copied_cow_entry. repeat apply set_is_u;
    repeat match goal with |- 0 ≤ bf_set ?f ?x ?v => apply (set_is_u f x v) end; done.
Qed.

(** * Copy on write *)

(** What the process finds in a page. *)
Definition user_read v (pn : Z) : option (list Z) :=
  if bf_get pe_present (entry_of v pn) =? 1 then as_mem v !! below_addr (entry_of v pn) else None.

(** The outcome of a change of page [pn]: the invariant, the memory of the others
    and the other pages stay. *)
Record page_changed own v (pn : Z) v' : Prop := {
  pc_ok : vm_ok own v';
  pc_untouched : untouched v v';
  pc_entries : ∀ pn', 0 ≤ pn' → pn' ≠ pn → entry_of v' pn' = entry_of v pn';
  pc_reads : ∀ pn', 0 ≤ pn' → pn' ≠ pn → user_read v' pn' = user_read v pn'
}.

Lemma page_changed_same own v pn : vm_ok own v → page_changed own v pn v.
Proof. intros. by split. Qed.

(** Reads depend on the entries and on the frames that are in use. *)
Lemma same_reads own v v' pn :
  vm_ok own v → 0 ≤ pn → entry_of v' pn = entry_of v pn →
  (∀ f, page_frame own (as_pages v) (as_mem v) f → as_mem v' !! f = as_mem v !! f) →
  user_read v' pn = user_read v pn.
Proof.
  intros [V1 V2 V3 V4 V5 [E1 _ _]] Hpn He Hm. unfold user_read. rewrite He.
  destruct (Z.eqb_spec (bf_get pe_present (entry_of v pn)) 1) as [Hp |]; [| done].
  destruct (E1 pn Hpn Hp) as (p & Hin & _ & -> & _). by apply Hm, V4.
Qed.

(** The copy of a shared page [src] into a new frame. *)
Lemma copy_page_spec own v src :
  vm_ok own v → page_frame own (as_pages v) (as_mem v) src →
  copy_page src v = Ret (0, v) ∨
  ∃ phys bytes a', copy_page src v =
      Ret (phys, set_mem (<[phys := bytes]> (as_mem v)) (set_pages (with_frames a' (as_pages v)) v)) ∧
    alloc_frame (up_frames (as_pages v)) = Ret (phys, a') ∧ phys ≠ 0 ∧ as_mem v !! src = Some bytes.
Proof.
  intros Hv Hsrc. pose proof Hv as [V1 _ _ _ _ _]. unfold copy_page.
  destruct (alloc_frame_law _ (pg_frames _ _ V1)) as (phys & a & Ha & _ & Hcase). rewrite Ha. cbn [mbind outcome_bind].
  destruct Hcase as [[-> ->] | (Hf & _ & _)].
  - left. cbn [Z.eqb]. rewrite with_frames_same. by destruct v.
  - right. rewrite (proj2 (Z.eqb_neq _ _) (frame_not_0 _ Hf)). cbn [as_mem set_pages].
    destruct Hsrc as (_ & _ & _ & [bytes Hb]). rewrite Hb. exists phys, bytes, a.
    split_and!; [done | done | by apply frame_not_0 | done].
Qed.

(** The record of a shared page becomes one of a page of the process. *)
Lemma edit_shared v m pn p (f : PhysMapping → PhysMapping) :
  map_ok (as_map v) → m ∈ as_map v → mm_covers m pn → find_shared pn (mm_mappings m) = Some p →
  pm_page (f p) = pn →
  ∃ m' rest, edit (as_map v) (as_map (change_record pn f v)) m m' pn [p] rest (f p).
Proof.
  intros Hl Hm Hc Hp Hf. destruct (update_shared_split pn f _ p Hp) as (Hpg & _ & a & b & Ha & Hb).
  exists (with_mappings m (update_shared pn f (mm_mappings m))), (a ++ b).
  destruct (update_mapping_split (as_map v) pn m (fun m => with_mappings m (update_shared pn f (mm_mappings m)))
    Hl Hm Hc) as (l1 & l2 & El & El'). split; try done.
  - by exists l1, l2.
  - rewrite Ha. by rewrite <- Permutation_middle.
  - cbn [mm_mappings with_mappings]. rewrite Hb. by rewrite <- Permutation_middle.
  - by intros q ->%list_elem_of_singleton.
Qed.

(** The records with a fresh page instead of the shared one. *)
Lemma flat_ok_fresh ps p r cows :
  flat_ok ps cows → pm_page r = pm_page p → pm_page p ∉ pm_page <$> ps →
  is_shared r = false → ¬ foreign (backing r) → (∀ q, q ∈ ps → backing q ≠ backing r) → flat_ok (r :: ps) cows.
Proof.
  intros Hf Hpg Hn Hsh Hfo Hb. unfold is_shared in Hsh.
  destruct (pm_data r) eqn:Ed; [done |]. destruct (pm_cow r) eqn:Ec; [done |].
  apply flat_ok_add; try done; [by rewrite Hpg | |].
  - unfold record_ok. by rewrite Ed, Ec.
  - by rewrite Ed.
Qed.

(** The page that a process reads is that of its record. *)
Lemma present_record own v pn p :
  vm_ok own v → 0 ≤ pn → entry_present (entry_of v pn) → p ∈ map_phys (as_map v) → pm_page p = pn →
  below_addr (entry_of v pn) = backing p ∧ user_read v pn = as_mem v !! backing p.
Proof.
  intros [_ _ [Hflat _] _ _ [E1 _ _]] Hpn Hpr Hp Hpg. destruct (E1 pn Hpn Hpr) as (q & Hq & Hqg & Hb & _).
  assert (q = p) as ->.
  { pose proof (fo_once _ _ _ _ _ Hflat) as Hnd. apply elem_of_Permutation in Hp as [k Hk]. rewrite Hk in Hnd, Hq.
    apply elem_of_cons in Hq as [-> | Hq]; [done |]. apply NoDup_cons in Hnd as [Hnd _]. destruct Hnd.
    rewrite Hpg, <- Hqg. by apply list_elem_of_fmap_2. }
  split; [done |]. unfold user_read. rewrite Hpr, Hb. done.
Qed.

Lemma find_shared_elem pn ps p : find_shared pn ps = Some p → p ∈ ps ∧ pm_page p = pn ∧ is_shared p = true.
Proof.
  intros Hp. destruct (update_shared_split pn id ps p Hp) as (? & ? & a & b & -> & _).
  split; [| done]. apply elem_of_app. right. left.
Qed.

(** The page is the process' own and has the content it had. *)
Record owned own v (pn : Z) v' : Prop := {
  ow_changed : page_changed own v pn v';
  ow_present : entry_present (entry_of v' pn);
  ow_writeable : entry_writeable (entry_of v' pn);
  ow_read : user_read v' pn = user_read v pn
}.

(** The state with the copy in the new frame [phys] and the entry changed by [f]. *)
Section OwnPage.
Context (own : places) (v : address_space A) (m : MemMapping) (t pn : Z) (p : PhysMapping).
Context (g : PhysMapping → PhysMapping) (phys : Z) (a' : A) (bytes : list Z) (f : Z → Z).
Context (Hv : vm_ok own v) (Hm : m ∈ as_map v) (Hc : mm_covers m pn) (Hpn : 0 ≤ pn).
Context (Hleaf : leaf_table (as_pages v) pn = Some t) (Hpr : entry_present (entry_of v pn)).
Context (Hp : find_shared pn (mm_mappings m) = Some p) (Hbytes : as_mem v !! backing p = Some bytes).
Context (Ha : alloc_frame (up_frames (as_pages v)) = Ret (phys, a')) (Hne : phys ≠ 0).
Context (Hg : g p = PhysMap None None phys pn).
Context (Hfu : preserves_u64 f) (Hfp : entry_present (f (entry_of v pn))).
Context (Hfb : below_addr (f (entry_of v pn)) = phys) (Hfw : entry_writeable (f (entry_of v pn))).

Let v1 : address_space A := set_mem (<[phys := bytes]> (as_mem v)) (set_pages (with_frames a' (as_pages v)) v).

Lemma own_page_written :
  ∃ u', update_entry t (Z.land pn 511) f (as_pages v1) = Ret u' ∧ pages_ok own u' ∧ up_frames u' = a' ∧
    ∀ pn', 0 ≤ pn' → user_entry u' pn' = if decide (pn' = pn) then f (entry_of v pn) else entry_of v pn'.
Proof.
  destruct (vm_ok_alloc own v phys a' bytes Hv Ha Hne) as (Hv1 & _). fold v1 in Hv1.
  exact (write_user_leaf own (as_pages v1) pn t f (vo_pages _ _ _ _ _ Hv1) Hleaf Hpn Hfu).
Qed.

Lemma own_page_records :
  ∃ m' rest ps, edit (as_map v) (as_map (change_record pn g v)) m m' pn [p] rest (g p) ∧
    map_phys (as_map v) ≡ₚ p :: ps ∧ map_phys (as_map (change_record pn g v)) ≡ₚ g p :: ps ∧
    ∀ cows', flat_ok ps cows' → flat_ok (map_phys (as_map (change_record pn g v))) cows'.
Proof.
  destruct (find_shared_elem _ _ _ Hp) as (Hpm & Hpg & Hsh).
  destruct (vm_ok_alloc own v phys a' bytes Hv Ha Hne) as (_ & _ & Hnf & Hnb & _).
  destruct (edit_shared v m pn p g (vo_map _ _ _ _ _ Hv) Hm Hc Hp) as (m' & rest & He); [by rewrite Hg |].
  destruct (edit_phys _ _ _ _ _ _ _ _ He) as (ps & Hps & Hps' & _).
  exists m', rest, ps. split_and!; [done | done | done |]. intros cows' Hf.
  eapply flat_ok_perm; [symmetry; exact Hps' |].
  assert (backing (g p) = phys) as Hbr by (by rewrite Hg).
  eapply (flat_ok_fresh _ p); [done | by rewrite Hg | | by rewrite Hg | by rewrite Hbr |].
  - pose proof (ro_flat _ _ _ _ _ (vo_records _ _ _ _ _ Hv)) as Hfl.
    apply (flat_ok_perm _ _ _ _ _ _ Hps) in Hfl. by apply fo_once in Hfl as [? _]%NoDup_cons.
  - intros q Hq. rewrite Hbr. apply Hnb. rewrite Hps. by right.
Qed.

Lemma own_page_done u' a'' cows' ps :
  pages_ok own (with_frames a'' u') → up_frames u' = a' →
  (∀ pn', 0 ≤ pn' → user_entry u' pn' = if decide (pn' = pn) then f (entry_of v pn) else entry_of v pn') →
  map_phys (as_map v) ≡ₚ p :: ps → flat_ok ps cows' →
  (∀ x, x = phys ∨ foreign x ∨ (∃ q, q ∈ ps ∧ x = backing q) →
     page_frame own (as_pages v1) (as_mem v1) x → page_frame own (with_frames a'' u') (as_mem v1) x) →
  owned own v pn (AddressSpace (as_map (change_record pn g v)) (with_frames a'' u') (as_mem v1) cows' (as_brk v)).
Proof.
  intros Hu' Hfr Hent Hps Hfl Hpf.
  destruct (vm_ok_alloc own v phys a' bytes Hv Ha Hne) as (Hv1 & Hph & Hnf & Hnb & Hun & Hnu).
  fold v1 in Hv1, Hph, Hun.
  destruct own_page_records as (m' & rest & ps' & He & Hps1 & Hps' & Hflat).
  assert (ps ≡ₚ ps') as Eps by (apply (Permutation_cons_inv (a := p)); by rewrite <- Hps, <- Hps1).
  specialize (Hflat cows' (flat_ok_perm _ _ _ _ _ _ Eps Hfl)). set (v' := AddressSpace _ _ _ _ _).
  assert (∀ pn', 0 ≤ pn' → entry_of v' pn' = if decide (pn' = pn) then f (entry_of v pn) else entry_of v pn') as Hent' by exact Hent.
  assert (entry_of v' pn = f (entry_of v pn)) as Epn by (rewrite Hent' by done; by rewrite decide_True).
  assert (∀ x, page_frame own (as_pages v) (as_mem v) x → as_mem v' !! x = as_mem v !! x) as Hmem.
  { intros x (_ & Hx & _ & _). cbn. apply lookup_insert_ne. by intros <-. }
  assert (vm_ok own v') as Hv'.
  { split; cbn [v' as_map as_pages as_mem as_cows]; try done.
    - eapply edit_map_ok; [apply (vo_map _ _ _ _ _ Hv) | exact He].
    - eapply edit_image_ok; [apply (vo_records _ _ _ _ _ Hv) | exact He | done | by rewrite Hg].
    - intros q Hq. rewrite Hps' in Hq. apply elem_of_cons in Hq as [-> | Hq].
      + rewrite Hg. apply Hpf; [by left | done].
      + apply Hpf; [right; right; exists q; by rewrite Eps |]. apply (vo_frame _ _ _ _ _ Hv1).
        change (as_map v1) with (as_map v). rewrite Hps1. by right.
    - intros x Hx. apply Hpf; [right; by left | by apply (vo_foreign _ _ _ _ _ Hv1)].
    - eapply (edit_entries_ok _ _ m m' pn [p] rest (g p) _ (entry_of v)); try done.
      + apply (vo_map _ _ _ _ _ Hv).
      + apply (vo_entries _ _ _ _ _ Hv).
      + by rewrite Hg.
      + intros pn' H0' Hne'. rewrite Hent' by done. by rewrite decide_False.
      + by rewrite Epn.
      + by rewrite Epn, Hg.
      + by rewrite Hg. }
  split.
  - split; [done | exact Hun | |].
    + intros pn' H0' Hne'. rewrite Hent' by done. by rewrite decide_False.
    + intros pn' H0' Hne'. apply (same_reads own); [done | done | | done]. rewrite Hent' by done. by rewrite decide_False.
  - by rewrite Epn.
  - by rewrite Epn.
  - destruct (find_shared_elem _ _ _ Hp) as (Hpm & Hpg & _).
    destruct (present_record own v pn p Hv Hpn Hpr) as [_ ->]; [apply elem_of_map_phys; by exists m | done |].
    unfold user_read. rewrite Epn, Hfp, Hfb, Hbytes. cbn. apply lookup_insert_eq.
Qed.

End OwnPage.

Lemma own_page_data own v m t pn p d :
  vm_ok own v → m ∈ as_map v → mm_covers m pn → leaf_table (as_pages v) pn = Some t → 0 ≤ pn →
  entry_present (entry_of v pn) → find_shared pn (mm_mappings m) = Some p → pm_data p = Some d →
  own_page t pn m v = Ret (false, v) ∨ ∃ v', own_page t pn m v = Ret (true, v') ∧ owned own v pn v'.
Proof.
  intros Hv Hm Hc Hleaf Hpn Hpr Hp Hd. destruct (find_shared_elem _ _ _ Hp) as (Hpm & Hpg & _).
  assert (p ∈ map_phys (as_map v)) as Hpl by (apply elem_of_map_phys; by exists m).
  pose proof (ro_flat _ _ _ _ _ (vo_records _ _ _ _ _ Hv)) as Hfl.
  assert (pm_cow p = None) as Hpc.
  { pose proof (fo_record _ _ _ _ _ Hfl p Hpl) as Hr. unfold record_ok in Hr. rewrite Hd in Hr. by destruct (pm_cow p). }
  assert (backing p = d) as Hb by (unfold backing; by rewrite Hd).
  unfold own_page. rewrite Hp, Hd. destruct (mm_cow m); cbn [negb]; [| by left].
  destruct (copy_page_spec own v d Hv) as [-> | (phys & bytes & a' & -> & Ha & Hne & Hbytes)].
  { rewrite <- Hb. by apply (vo_frame _ _ _ _ _ Hv). }
  { cbn [mbind outcome_bind Z.eqb]. by left. }
  cbn [mbind outcome_bind]. rewrite (proj2 (Z.eqb_neq _ _) Hne). right.
  destruct (vm_ok_alloc own v phys a' bytes Hv Ha Hne) as (_ & Hph & _).
  destruct (copied_data_spec phys (entry_of v pn) (proj1 Hph)) as (Q1 & Q2 & Q3). rewrite <- Hb in Hbytes.
  destruct (own_page_written own v t pn phys a' bytes (copied_data_entry phys) Hv Hpn Hleaf Ha Hne
    (copied_data_u phys)) as (u' & Hup & Hu' & Hfr & Hent).
  unfold write_b3. rewrite Hup. cbn [mbind outcome_bind]. eexists. split; [done |].
  apply elem_of_Permutation in Hpl as [ps Hps].
  rewrite <- (with_frames_same u').
  eapply (own_page_done own v m pn p _ phys a' bytes (copied_data_entry phys)) with (u' := u'); try done.
  - by rewrite Hpc, Hpg.
  - by rewrite with_frames_same.
  - eapply flat_ok_drop; [eapply flat_ok_perm; [exact Hps | done] | done].
  - intros x _. rewrite with_frames_same. unfold page_frame. cbn. by rewrite Hfr.
Qed.

Lemma own_page_cow own v m t pn p c :
  vm_ok own v → m ∈ as_map v → mm_covers m pn → leaf_table (as_pages v) pn = Some t → 0 ≤ pn →
  entry_present (entry_of v pn) → find_shared pn (mm_mappings m) = Some p → pm_data p = None → pm_cow p = Some c →
  own_page t pn m v = Ret (false, v) ∨ ∃ v', own_page t pn m v = Ret (true, v') ∧ owned own v pn v'.
Proof.
  intros Hv Hm Hc Hleaf Hpn Hpr Hp Hd Hpc. destruct (find_shared_elem _ _ _ Hp) as (Hpm & Hpg & _).
  assert (p ∈ map_phys (as_map v)) as Hpl by (apply elem_of_map_phys; by exists m).
  pose proof (ro_flat _ _ _ _ _ (vo_records _ _ _ _ _ Hv)) as Hfl.
  assert (backing p = c) as Hb by (unfold backing; by rewrite Hd, Hpc).
  unfold own_page. rewrite Hp, Hd, Hpc.
  destruct (copy_page_spec own v c Hv) as [-> | (phys & bytes & a' & -> & Ha & Hne & Hbytes)].
  { rewrite <- Hb. by apply (vo_frame _ _ _ _ _ Hv). }
  { cbn [mbind outcome_bind Z.eqb]. by left. }
  cbn [mbind outcome_bind]. rewrite (proj2 (Z.eqb_neq _ _) Hne). right.
  destruct (vm_ok_alloc own v phys a' bytes Hv Ha Hne) as (Hv1 & Hph & _ & Hnb & _).
  destruct (copied_cow_spec phys (entry_of v pn) (proj1 Hph)) as (Q1 & Q2 & Q3). rewrite <- Hb in Hbytes.
  destruct (own_page_written own v t pn phys a' bytes (copied_cow_entry phys) Hv Hpn Hleaf Ha Hne
    (copied_cow_u phys)) as (u' & Hup & Hu' & Hfr & Hent).
  unfold write_b3. rewrite Hup. cbn [mbind outcome_bind]. set (v1 := set_mem _ _) in *.
  apply elem_of_Permutation in Hpl as [ps Hps].
  destruct (cow_frame_apart own v1 p c ps Hv1 Hps Hpc) as (n & Hn & Hn0 & Hcf & Hap).
  assert (∀ mem x, page_frame own (as_pages v1) mem x → page_frame own u' mem x) as Hsame
    by (intros mem x; unfold page_frame; cbn; by rewrite Hfr).
  destruct (Hsame _ _ Hcf) as (C1 & C2 & C3 & _).
  destruct (drop_cow_spec own (set_pages u' v1) c n Hu' Hn Hn0 C1 C2 C3) as (a'' & cows' & -> & Hu'' & Hkeep & Hc1 & Hc2).
  cbn [mbind outcome_bind]. eexists. split; [done |].
  eapply (own_page_done own v m pn p _ phys a' bytes (copied_cow_entry phys)) with (u' := u'); try done.
  - by rewrite Hd, Hpg.
  - unfold entry_present in *. by rewrite Q1.
  - eapply flat_ok_drop_cow; [eapply flat_ok_perm; [exact Hps | done] | done.. ].
  - intros x Hx Hxf. apply Hkeep; [by apply Hsame |]. intros E1. destruct Hx as [-> | Hx]; [| by apply Hap].
    intros <-. apply (Hnb p); [rewrite Hps; left | done].
Qed.

Lemma own_page_ok own v m t pn :
  vm_ok own v → m ∈ as_map v → mm_covers m pn → leaf_table (as_pages v) pn = Some t → 0 ≤ pn →
  entry_present (entry_of v pn) →
  own_page t pn m v = Ret (false, v) ∨ ∃ v', own_page t pn m v = Ret (true, v') ∧ owned own v pn v'.
Proof.
  intros Hv Hm Hc Hleaf Hpn Hpr. destruct (find_shared pn (mm_mappings m)) as [p |] eqn:Hp.
  2: { left. unfold own_page. by rewrite Hp. }
  destruct (pm_data p) as [d |] eqn:Hd; [by eapply own_page_data |].
  destruct (pm_cow p) as [c |] eqn:Hpc; [by eapply own_page_cow |].
  destruct (find_shared_elem _ _ _ Hp) as (_ & _ & Hsh). unfold is_shared in Hsh. by rewrite Hd, Hpc in Hsh.
Qed.

End Faults.
