(* ===== verification/ProcFaultTheorems.v ===== *)
(** What the page faults do: the page that a process gets, copy on write, and the
    user memory that the kernel may write after resolve_write. *)
From S2P Require Import Prelude BitField PageEntry VPageAlloc PhysPageMap PPageAlloc Frames ProcMem ProcPages ProcPagesTheorems ProcVm ProcFault ProcVmInv ProcVmExamples ProcFaultInv.

Local Open Scope Z_scope.

Section Theorems.
Context {A : Type} `{FrameAllocatorLaws A}.
Context (others : Z → Prop) (other_refs : Z → nat) (cached : Z → Prop).
Implicit Types (v : address_space A) (own : places).
Abbreviation vm_ok := (vm_ok others other_refs cached).
Abbreviation page_changed := (page_changed others other_refs cached).
Abbreviation flat_ok := (flat_ok others other_refs cached).
Abbreviation foreign := (foreign others cached).
Abbreviation untouched := (untouched others cached).

(** An address above user memory is taken for one below, or for none. *)
Lemma fault_place_high own v addr :
  vm_ok own v → 2 ^ 44 ≤ addr < 2 ^ 64 →
  fault_place addr v = Ret None ∨
  fault_place addr v = fault_place (addr mod 2 ^ 44) v ∧ fault_page addr = fault_page (addr mod 2 ^ 44).
Proof.
  intros Hv Ha. pose proof (Z.mod_pos_bound addr (2 ^ 44) ltac:(lia)) as Hm.
  assert (fault_page addr = fault_page (addr mod 2 ^ 44)) as Epg.
  { unfold fault_page, wrap. rewrite !Z.shiftr_div_pow2 by lia. change (2 ^ 44) with (2 ^ 12 * 2 ^ 32).
    rewrite Z.rem_mul_r, (Z.mul_comm (2 ^ 12)), Z.div_add by lia.
    rewrite (Z.div_small (addr mod 2 ^ 12)), Z.add_0_l by (apply Z.mod_pos_bound; lia). by rewrite Z.mod_mod by lia. }
  unfold fault_place, outside. change highRelocationOffset with (2 ^ 43).
  rewrite (proj2 (Z.ltb_ge addr (2 ^ 43))) by lia. cbn [andb]. rewrite Epg. set (pn := fault_page (addr mod 2 ^ 44)).
  assert (pn = addr mod 2 ^ 44 / 4096) as Epn.
  { subst pn. unfold fault_page. rewrite Z.shiftr_div_pow2 by lia. apply wrap_id. unfold is_u.
    split; [apply Z.div_pos | apply Z.div_lt_upper_bound]; lia. }
  pose proof (Z.div_mod (addr mod 2 ^ 44) 4096 ltac:(lia)). pose proof (Z.mod_pos_bound (addr mod 2 ^ 44) 4096 ltac:(lia)).
  destruct (find_mapping pn (as_map v)) as [m |] eqn:Em; [| by left]. unfold page_table_of.
  change highRelocationOffset with (2 ^ 43). rewrite (proj2 (Z.ltb_ge addr (2 ^ 43))) by lia.
  destruct (Z.ltb_spec (addr mod 2 ^ 44) (2 ^ 43)) as [Hlo | Hhi]; [left | by right].
  assert (0 ≤ pn / 2 ^ 27 < 16) as Hr by (split; [apply Z.div_pos | apply Z.div_lt_upper_bound]; lia).
  change (9 + 9 + 9) with 27. rewrite Z.shiftr_div_pow2, (wrap_id 16) by (unfold is_u; lia).
  destruct (find_root _ _) as [r |] eqn:Er; [| done]. apply find_root_spec in Er as [Hin Hra].
  destruct (ro_high _ _ _ (pg_roots _ _ (vo_pages _ _ _ _ _ Hv)) r Hin) as [_ Hb].
  rewrite Hra in Hb. change PMLT4_USERSPACE_HIGH_START with 16 in Hb. lia.
Qed.

Lemma fault_place_low own v addr :
  vm_ok own v → 0 ≤ addr < 2 ^ 44 →
  fault_place addr v = Ret None ∨
  ∃ m t, fault_place addr v = Ret (Some (m, t)) ∧ outside addr = false ∧
    find_mapping (fault_page addr) (as_map v) = Some m ∧ m ∈ as_map v ∧ mm_covers m (fault_page addr) ∧
    leaf_table (as_pages v) (fault_page addr) = Some t ∧ 0 ≤ fault_page addr ∧
    read_entry (as_pages v) t (Z.land (fault_page addr) 511) = Ret (entry_of v (fault_page addr)).
Proof.
  intros Hv Ha. unfold fault_place. destruct (outside addr) eqn:Ho; [by left |].
  destruct (find_mapping _ _) as [m |] eqn:Hm; [| by left].
  pose proof (vo_pages _ _ _ _ _ Hv) as Hu.
  rewrite (page_table_of_spec own (as_pages v) addr Hu Ha Ho). cbn [mbind outcome_bind].
  destruct (leaf_table _ _) as [t |] eqn:Hl; [| by left]. right. exists m, t.
  pose proof Hm as Hm'. apply find_mapping_spec in Hm' as [Hin Hc]; [| apply (vo_map _ _ _ _ _ Hv)].
  destruct (fault_page_ok addr Ha Ho) as (_ & [Hp _] & _).
  split_and!; try done; [lia |]. by eapply read_leaf_entry.
Qed.

Lemma fault_place_spec own v addr :
  vm_ok own v → is_u 64 addr →
  fault_place addr v = Ret None ∨
  ∃ m t, fault_place addr v = Ret (Some (m, t)) ∧
    find_mapping (fault_page addr) (as_map v) = Some m ∧ m ∈ as_map v ∧ mm_covers m (fault_page addr) ∧
    leaf_table (as_pages v) (fault_page addr) = Some t ∧ 0 ≤ fault_page addr ∧
    read_entry (as_pages v) t (Z.land (fault_page addr) 511) = Ret (entry_of v (fault_page addr)).
Proof.
  intros Hv [Ha Hb]. destruct (Z.lt_ge_cases addr (2 ^ 44)) as [Hlt | Hge].
  - destruct (fault_place_low own v addr Hv ltac:(lia)) as [| (m & t & E & _ & H1)]; [by left | right; by exists m, t].
  - destruct (fault_place_high own v addr Hv ltac:(lia)) as [| [-> ->]]; [by left |].
    destruct (fault_place_low own v (addr mod 2 ^ 44) Hv) as [| (m & t & E & _ & H1)];
      [apply Z.mod_pos_bound; lia | by left | right; by exists m, t].
Qed.

(** ** Pages that are not present *)

(** The state after the entry of [pn] was written. *)
Lemma shown own v l' u' pn e' :
  vm_ok own v → vm_ok own (set_pages u' (set_map l' v)) → 0 ≤ pn →
  (∀ pn', 0 ≤ pn' → user_entry u' pn' = if decide (pn' = pn) then e' else entry_of v pn') → entry_present e' →
  let v' := set_pages u' (set_map l' v) in
  page_changed own v pn v' ∧ entry_of v' pn = e' ∧ user_read v' pn = as_mem v !! below_addr e'.
Proof.
  intros Hv Hv' Hpn Hent Hpr v'.
  assert (entry_of v' pn = e') as Epn by (unfold entry_of, v'; cbn; rewrite Hent by done; by rewrite decide_True).
  assert (∀ pn', 0 ≤ pn' → pn' ≠ pn → entry_of v' pn' = entry_of v pn') as Hsame.
  { intros pn' H0' Hne. unfold entry_of. cbn. rewrite Hent by done. by rewrite decide_False. }
  split_and!; [split; try done | done |].
  - intros pn' H0' Hne. apply (same_reads others other_refs cached own); try done. by apply Hsame.
  - unfold user_read. by rewrite Epn, Hpr.
Qed.

Definition is_private (p : PhysMapping) : bool := match pm_data p with None => true | Some _ => false end.

(** A page may be writeable at once only if its record is not shared. *)
Lemma show_writeable own v m pn r phys :
  vm_ok own v → m ∈ as_map v → mm_covers m pn → (∀ q, q ∈ mm_mappings m → pm_page q = pn → q = r) →
  is_frame phys → pm_cow r = None → (pm_data r ≠ None → mm_image m ≠ None) →
  entry_writeable (present_entry phys (is_private r) (mm_cow m) (entry_of v pn)) → is_shared r = false.
Proof.
  intros Hv Hm Hc Honly Hf Hrc Himg Hw. unfold is_shared. rewrite Hrc.
  destruct (present_entry_spec phys (is_private r) (mm_cow m) (entry_of v pn) Hf) as (_ & _ & Q3).
  destruct (Q3 Hw) as [Hpr | Hw']; [unfold is_private in Hpr; by destruct (pm_data r) |].
  destruct (pm_data r) eqn:Hd; [| done]. exfalso.
  apply (eo_file _ _ (vo_entries _ _ _ _ _ Hv) m pn); try done; [by apply Himg |].
  intros q Hq Hqg. rewrite (Honly q Hq Hqg). unfold is_shared. by rewrite Hd.
Qed.

(** show_page with record [r], which is in the map or comes to it. *)
Lemma show_page_ok own v m pn t r (pre : bool) l' m' old rest :
  vm_ok own v → m ∈ as_map v → mm_covers m pn → leaf_table (as_pages v) pn = Some t → 0 ≤ pn →
  l' = (if pre then as_map v else update_mapping pn (push_page r) (as_map v)) →
  r = PhysMap (pm_data r) None (backing r) pn →
  edit (as_map v) l' m m' pn old rest r → flat_ok (map_phys l') (as_cows v) →
  (pm_data r ≠ None → mm_image m ≠ None) → page_frame own (as_pages v) (as_mem v) (backing r) →
  (∀ q, q ∈ mm_mappings m → pm_page q = pn → q = r) →
  (∀ p, p ∈ map_phys l' → p ∈ map_phys (as_map v) ∨ p = r) →
  ∃ v', show_page t pn m pre (backing r) (pm_data r) v = Ret (true, v') ∧
    page_changed own v pn v' ∧ entry_present (entry_of v' pn) ∧ user_read v' pn = as_mem v !! backing r.
Proof.
  intros Hv Hm Hc Hleaf Hpn El' Er He Hfl Himg Hpf Honly Hin.
  assert (pm_cow r = None) as Hrc by (by rewrite Er).
  destruct (present_entry_spec (backing r) (is_private r) (mm_cow m) (entry_of v pn) (proj1 Hpf)) as (Q1 & Q2 & _).
  destruct (show_record _ _ _ own v l' m m' pn old rest r t (present_entry (backing r) (is_private r) (mm_cow m)) Hv He)
    as (u' & Hup & Hv' & _ & Hent); try done.
  { apply present_entry_u. }
  { by eapply show_writeable; [| | | | apply Hpf | |]. }
  destruct (shown own v l' u' pn _ Hv Hv' Hpn Hent Q1) as (Hpc & Epn & Hrd).
  eexists. split_and!; [| exact Hpc | by rewrite Epn | by rewrite Hrd, Q2].
  unfold show_page, write_b3. rewrite Er in El'.
  assert (mm_image m = None → pm_data r = None) as Hi.
  { intros E. destruct (pm_data r) eqn:Ed; [| done]. by destruct Himg. }
  assert ((match pm_data r with None => true | Some _ => false end) = is_private r) as -> by done.
  destruct pre; cbn [as_pages set_map].
  - rewrite Hup. cbn [mbind outcome_bind]. rewrite El'. destruct (mm_image m), (pm_data r); try done.
    by specialize (Hi eq_refl).
  - rewrite Hup. cbn [mbind outcome_bind]. rewrite El'. destruct (mm_image m), (pm_data r); try done.
    by specialize (Hi eq_refl).
Qed.

(** A record that is there already. *)
Lemma show_existing own v m t pn p :
  vm_ok own v → m ∈ as_map v → mm_covers m pn → leaf_table (as_pages v) pn = Some t → 0 ≤ pn →
  ¬ entry_present (entry_of v pn) → p ∈ mm_mappings m → pm_page p = pn →
  pm_phys_page p ≠ 0 ∧ ∃ v', show_page t pn m true (pm_phys_page p) (pm_data p) v = Ret (true, v') ∧
    page_changed own v pn v' ∧ entry_present (entry_of v' pn) ∧ user_read v' pn = as_mem v !! backing p.
Proof.
  intros Hv Hm Hc Hleaf Hpn Hnp Hp Hpg. pose proof Hv as [V1 V2 [Hfl Himg] V4 V5 V6].
  assert (p ∈ map_phys (as_map v)) as Hpl by (apply elem_of_map_phys; by exists m).
  assert (pm_cow p = None) as Hpc.
  { destruct (pm_cow p) eqn:E; [| done]. destruct Hnp. rewrite <- Hpg. apply (eo_cow _ _ V6); [done | by rewrite E]. }
  assert (pm_phys_page p = backing p) as Hph.
  { pose proof (fo_record _ _ _ _ _ Hfl p Hpl) as Hr. unfold record_ok in Hr. unfold backing.
    rewrite Hpc in Hr |- *. by destruct (pm_data p). }
  rewrite Hph. split; [apply frame_not_0, (V4 p Hpl) |].
  assert (∃ rest, mm_mappings m ≡ₚ p :: rest) as [rest Hrest] by (by apply elem_of_Permutation in Hp).
  assert (∃ l1 l2, as_map v = l1 ++ m :: l2) as (l1 & l2 & El) by (by apply list_elem_of_split).
  assert (edit (as_map v) (as_map v) m m pn [p] rest p) as He.
  { split; try done; [by exists l1, l2 |]. by intros q ->%list_elem_of_singleton. }
  apply (show_page_ok own v m pn t p true (as_map v) m [p] rest); try done.
  - destruct p. cbn in *. congruence.
  - intros Hd. by eapply Himg.
  - by apply V4.
  - intros q Hq Hqg. eapply (edit_other _ _ _ _ _ _ _ _ _ _ _ _ _ He Hfl); [| done].
    apply elem_of_map_phys. by exists m.
  - intros q Hq. by left.
Qed.

(** A new record. *)
Lemma edit_push v m pn r :
  map_ok (as_map v) → m ∈ as_map v → mm_covers m pn → pm_page r = pn →
  edit (as_map v) (update_mapping pn (push_page r) (as_map v)) m (push_page r m) pn [] (mm_mappings m) r.
Proof.
  intros Hl Hm Hc Hr. destruct (update_mapping_split (as_map v) pn m (push_page r) Hl Hm Hc) as (l1 & l2 & E1 & E2).
  split; try done.
  - by exists l1, l2.
  - cbn. by rewrite Permutation_app_comm.
  - by intros p ?%elem_of_nil.
Qed.

Lemma show_new own v m t pn phys data :
  vm_ok own v → m ∈ as_map v → mm_covers m pn → leaf_table (as_pages v) pn = Some t → 0 ≤ pn →
  find_page pn (mm_mappings m) = None → page_frame own (as_pages v) (as_mem v) phys →
  (match data with
   | Some d => d = phys ∧ cached d ∧ mm_image m ≠ None
   | None => ¬ foreign phys ∧ ∀ q, q ∈ map_phys (as_map v) → backing q ≠ phys
   end) →
  ∃ v', show_page t pn m false phys data v = Ret (true, v') ∧
    page_changed own v pn v' ∧ entry_present (entry_of v' pn) ∧ user_read v' pn = as_mem v !! phys.
Proof.
  intros Hv Hm Hc Hleaf Hpn Hnone Hpf Hdata. pose proof Hv as [V1 V2 [Hfl Himg] V4 V5 V6].
  set (r := PhysMap data None phys pn).
  assert (backing r = phys) as Hb by (unfold backing; cbn; destruct data; [by destruct Hdata |]; done).
  assert (r = PhysMap (pm_data r) None (backing r) pn) as Er by (by rewrite Hb).
  pose proof (edit_push v m pn r V2 Hm Hc eq_refl) as He.
  destruct (edit_phys _ _ _ _ _ _ _ _ He) as (ps & Hps & Hps' & _). cbn [app] in Hps.
  assert (∀ q, q ∈ map_phys (as_map v) → pm_page q ≠ pn) as Hfresh.
  { intros q (x & Hx & Hq)%elem_of_map_phys Hqg. pose proof (record_covered _ _ _ V2 Hx Hq) as Hxc. rewrite Hqg in Hxc.
    assert (x = m) as -> by (by eapply map_ok_unique). by apply (find_page_none _ _ Hnone q). }
  rewrite <- Hb. eapply (show_page_ok own v m pn t r false _ _ _ _ Hv Hm Hc Hleaf Hpn eq_refl Er He); try done.
  - eapply flat_ok_perm; [symmetry; exact Hps' |]. apply flat_ok_add; try done.
    + by eapply flat_ok_perm.
    + intros (q & E & Hq)%list_elem_of_fmap. apply (Hfresh q); [by rewrite Hps | done].
    + unfold record_ok, r. cbn. destruct data; [by destruct Hdata | done].
    + intros d E. cbn in E. subst data. apply Hdata.
    + intros Hsh. rewrite Hb. unfold is_shared, r in Hsh. cbn in Hsh. destruct data; [done |].
      destruct Hdata as [? Hd]. split; [done |]. intros q Hq. apply Hd. by rewrite Hps.
  - cbn. destruct data; [intros _; apply Hdata | done].
  - by rewrite Hb.
  - intros q Hq Hqg. by destruct (find_page_none _ _ Hnone q Hq).
  - intros q Hq. rewrite Hps' in Hq. apply elem_of_cons in Hq as [-> | Hq]; [by right | left]. by rewrite Hps.
Qed.

Lemma page_changed_alloc own v phys a' bytes pn v' :
  vm_ok own v → alloc_frame (up_frames (as_pages v)) = Ret (phys, a') → phys ≠ 0 →
  page_changed own (set_mem (<[phys := bytes]> (as_mem v)) (set_pages (with_frames a' (as_pages v)) v)) pn v' →
  page_changed own v pn v'.
Proof.
  intros Hv Ha Hne [P1 P2 P3 P4].
  destruct (vm_ok_alloc others other_refs cached own v phys a' bytes Hv Ha Hne) as (_ & _ & _ & _ & Hun & Hnu).
  split; [done | | done |].
  - intros f Hf. rewrite P2 by done. by apply Hun.
  - intros pn' H0' Hne'. rewrite P4 by done. apply (same_reads others other_refs cached own); try done.
    intros f (_ & Hf & _ & _). cbn. apply lookup_insert_ne. by intros <-.
Qed.

(** What a fault makes of page [pn] of mapping [m]. *)
Definition resolved v (m : MemMapping) (pn : Z) v' : Prop :=
  entry_present (entry_of v' pn) ∧
  if decide (bf_get pe_present (entry_of v pn) = 1)
  then entry_writeable (entry_of v' pn) ∧ user_read v' pn = user_read v pn
  else user_read v' pn =
    match find_page pn (mm_mappings m) with Some p => as_mem v !! backing p | None => Some zero_page end.

(** A page that is in no record is cleared memory. *)
Lemma clear_page_ok own v m t pn :
  vm_ok own v → m ∈ as_map v → mm_covers m pn → leaf_table (as_pages v) pn = Some t → 0 ≤ pn →
  find_page pn (mm_mappings m) = None →
  let r := '(phys, w) ← clear_page v;
           if phys =? 0 then Ret (false, w) else show_page t pn m false phys None w in
  r = Ret (false, v) ∨
  ∃ v', r = Ret (true, v') ∧ page_changed own v pn v' ∧ entry_present (entry_of v' pn) ∧
    user_read v' pn = Some zero_page.
Proof.
  intros Hv Hm Hc Hleaf Hpn Hnone r. subst r. unfold clear_page.
  destruct (alloc_frame_law _ (pg_frames _ _ (vo_pages _ _ _ _ _ Hv))) as (phys & a & Ha & _ & Hcase).
  rewrite Ha. cbn [mbind outcome_bind]. destruct Hcase as [[-> ->] | (Hf & _ & _)].
  { left. cbn [Z.eqb]. rewrite with_frames_same. by destruct v. }
  pose proof (frame_not_0 _ Hf) as Hne. rewrite (proj2 (Z.eqb_neq _ _) Hne). right.
  destruct (vm_ok_alloc others other_refs cached own v phys a zero_page Hv Ha Hne) as (Hv1 & Hpf & Hnf & Hnb & _).
  cbn [as_mem set_pages]. set (v1 := set_mem _ _) in *.
  destruct (show_new own v1 m t pn phys None Hv1 Hm Hc Hleaf Hpn Hnone Hpf) as (v' & E & Hpc & Hpr & Hrd); [done |].
  exists v'. split_and!; [done | by eapply page_changed_alloc | done |].
  rewrite Hrd. cbn. apply lookup_insert_eq.
Qed.

Lemma sync_resolve_spec own v (addr : Z) :
  vm_ok own v → is_u 64 addr →
  sync_resolve_page addr v = Ret (false, v) ∨
  ∃ v' m, sync_resolve_page addr v = Ret (true, v') ∧ page_changed own v (fault_page addr) v' ∧
    find_mapping (fault_page addr) (as_map v) = Some m ∧ mm_read m = true ∧ resolved v m (fault_page addr) v'.
Proof.
  intros Hv Ha. unfold sync_resolve_page.
  destruct (fault_place_spec own v addr Hv Ha) as [-> | (m & t & -> & Hfm & Hm & Hc & Hleaf & Hpn & Hrd)];
    cbn [mbind outcome_bind]; [by left |].
  set (pn := fault_page addr) in *. destruct (mm_read m) eqn:Hread; cbn [negb]; [| by left].
  rewrite Hrd. cbn [mbind outcome_bind]. unfold resolved, bf_flag.
  destruct (Z.eqb_spec (bf_get pe_present (entry_of v pn)) 0) as [Hz | Hnz]; cbn [negb].
  - unfold known_page. destruct (find_page pn (mm_mappings m)) as [p |] eqn:Hfp.
    + destruct (find_page_spec _ _ _ Hfp) as [Hp Hpg].
      destruct (show_existing own v m t pn p Hv Hm Hc Hleaf Hpn) as (Hne & v' & E & Hpc & Hpr & Hu); try done.
      { unfold entry_present. by rewrite Hz. }
      rewrite (proj2 (Z.eqb_neq _ _) Hne). right. exists v', m. rewrite decide_False, Hfp by (by rewrite Hz).
      by split_and!.
    + cbn [Z.eqb]. destruct (mm_image m); [by left |].
      destruct (clear_page_ok own v m t pn Hv Hm Hc Hleaf Hpn Hfp) as [-> | (v' & -> & Hpc & Hpr & Hu)]; [by left |].
      right. exists v', m. rewrite decide_False, Hfp by (by rewrite Hz). by split_and!.
  - assert (bf_get pe_present (entry_of v pn) = 1) as Hpr.
    { destruct (get_is_u pe_present (entry_of v pn) eq_refl) as [? Hb]. change (2 ^ bf_bits pe_present) with 2 in Hb. lia. }
    destruct (own_page_ok others other_refs cached own v m t pn Hv Hm Hc Hleaf Hpn Hpr)
      as [-> | (v' & -> & [O1 O2 O3 O4])]; [by left |].
    right. exists v', m. rewrite decide_True by done. by split_and!.
Qed.


(** ** Pages of a file *)

(** GetPage returns pages of the page cache, with their content. *)
Definition cache_ok (GetPage : Z → Z → option (Z * list Z)) v : Prop :=
  ∀ image n phys bytes, GetPage image n = Some (phys, bytes) → cached phys ∧ as_mem v !! phys = Some bytes.

Lemma set_mem_same v phys bytes : as_mem v !! phys = Some bytes → set_mem (<[phys := bytes]> (as_mem v)) v = v.
Proof. intros E. unfold set_mem. rewrite insert_id by done. by destruct v. Qed.

(** What is loaded is the page of the file, or a copy that is cut. *)
Lemma load_page_ok GetPage own v image n load :
  vm_ok own v → cache_ok GetPage v →
  load_page GetPage image n load v = Ret (None, v) ∨
  ∃ phys data w bytes d, load_page GetPage image n load v = Ret (Some (phys, data), w) ∧
    GetPage image n = Some (d, bytes) ∧ vm_ok own w ∧ page_frame own (as_pages w) (as_mem w) phys ∧
    as_map w = as_map v ∧ up_low (as_pages w) = up_low (as_pages v) ∧ up_high (as_pages w) = up_high (as_pages v) ∧
    up_tables (as_pages w) = up_tables (as_pages v) ∧
    (∀ pn v', page_changed own w pn v' → page_changed own v pn v') ∧
    as_mem w !! phys = Some (if load =? 0 then bytes else cut_page load bytes) ∧
    match data with
    | Some d => d = phys ∧ cached d
    | None => ¬ foreign phys ∧ ∀ q, q ∈ map_phys (as_map w) → backing q ≠ phys
    end.
Proof.
  intros Hv Hcache. unfold load_page. destruct (GetPage image n) as [[d bytes] |] eqn:Hg; [| by left].
  destruct (Hcache _ _ _ _ Hg) as [Hd Hb]. rewrite (set_mem_same v d bytes Hb).
  assert (page_frame own (as_pages v) (as_mem v) d) as Hdf by (apply (vo_foreign _ _ _ _ _ Hv); by right).
  destruct (load =? 0) eqn:Hl.
  - right. exists d, (Some d), v, bytes, d. rewrite (proj2 (Z.eqb_neq _ _) (frame_not_0 _ (proj1 Hdf))).
    by split_and!.
  - destruct (alloc_frame_law _ (pg_frames _ _ (vo_pages _ _ _ _ _ Hv))) as (phys & a & Ha & _ & Hcase).
    rewrite Ha. cbn [mbind outcome_bind]. destruct Hcase as [[-> ->] | (Hf & _ & _)].
    { left. cbn [Z.eqb]. rewrite with_frames_same. by destruct v. }
    pose proof (frame_not_0 _ Hf) as Hne. rewrite (proj2 (Z.eqb_neq _ _) Hne). right. cbn [as_mem set_pages].
    destruct (vm_ok_alloc others other_refs cached own v phys a (cut_page load bytes) Hv Ha Hne)
      as (Hv1 & Hpf & Hnf & Hnb & _).
    eexists phys, None, _, bytes, d. split_and!; try done.
    + intros pn v'. by apply page_changed_alloc.
    + cbn. apply lookup_insert_eq.
Qed.

(** resolve_page as one step, for a page that is not present and has no record:
    it reads the page of the file that the mapping gives for it (its image, from
    image_skip_pages on), which the page cache has in memory.  If it returns
    true the page shows the content of the file, cut off behind [load] bytes for
    the last page of a segment, and nothing else has changed: not the other
    pages, other processes or the page cache.  If it returns false nothing has
    changed.  The code gives up the lock while it reads the file; what other
    threads do to the address space meanwhile is not covered. *)
Theorem resolve_page_correct (GetPage : Z → Z → option (Z * list Z)) own v (addr : Z) :
  vm_ok own v → cache_ok GetPage v → is_u 64 addr →
  resolve_page GetPage addr v = Ret (false, v) ∨
  ∃ v' m image d bytes, resolve_page GetPage addr v = Ret (true, v') ∧
    page_changed own v (fault_page addr) v' ∧ entry_present (entry_of v' (fault_page addr)) ∧
    find_mapping (fault_page addr) (as_map v) = Some m ∧ mm_read m = true ∧ mm_image m = Some image ∧
    GetPage image (u32 (mm_image_skip_pages m + u32 (fault_page addr - mm_pagenum m))) = Some (d, bytes) ∧
    user_read v' (fault_page addr) = Some (if mm_load m =? 0 then bytes else cut_page (mm_load m) bytes).
Proof.
  intros Hv Hcache Ha. unfold resolve_page.
  destruct (fault_place_spec own v addr Hv Ha) as [-> | (m & t & -> & Hfm & Hm & Hc & Hleaf & Hpn & Hrd)];
    cbn [mbind outcome_bind]; [by left |].
  set (pn := fault_page addr) in *. destruct (mm_read m) eqn:Hread; cbn [negb]; [| by left].
  rewrite Hrd. cbn [mbind outcome_bind]. destruct (bf_flag pe_present (entry_of v pn)) eqn:Hpf; [by left |].
  unfold known_page. destruct (find_page pn (mm_mappings m)) as [p |] eqn:Hfp.
  { destruct (find_page_spec _ _ _ Hfp) as [Hp Hpg].
    destruct (show_existing own v m t pn p Hv Hm Hc Hleaf Hpn) as (Hne & _); try done.
    { intros Hpr. unfold bf_flag in Hpf. by rewrite Hpr in Hpf. }
    cbn [fst]. rewrite (proj2 (Z.eqb_neq _ _) Hne). by left. }
  cbn [fst Z.eqb negb]. destruct (mm_image m) as [image |] eqn:Hi; [| by left].
  destruct (load_page_ok GetPage own v image (u32 (mm_image_skip_pages m + u32 (pn - mm_pagenum m))) (mm_load m) Hv Hcache)
    as [-> | (phys & data & w & bytes & d & -> & Hg & Hw & Hph & Em & E1 & E2 & E3 & Hpc & Hmem & Hdata)];
    cbn [mbind outcome_bind]; [by left |].
  assert (leaf_table (as_pages w) pn = Some t) as Hleaf'.
  { rewrite <- Hleaf. unfold leaf_table, user_root. by rewrite E1, E2, E3. }
  rewrite <- Em in Hm.
  destruct (show_new own w m t pn phys data Hw Hm Hc Hleaf' Hpn Hfp Hph) as (v' & -> & Hpc' & Hpr & Hu).
  { destruct data as [d' |]; [| done]. destruct Hdata as [? ?]. split_and!; [done | done | by rewrite Hi]. }
  right. exists v', m, image, d, bytes. rewrite Hu, Hmem. split_and!; try done. by apply Hpc.
Qed.

(** ** Writing to user memory *)

Lemma resolve_write_page_spec own v addr :
  vm_ok own v → 0 ≤ addr < 2 ^ 44 →
  resolve_write_page addr v = Ret (RW_ERROR, v) ∨
  ∃ r v', resolve_write_page addr v = Ret (r, v') ∧ r ≠ RW_ERROR ∧ page_changed own v (fault_page addr) v' ∧
    entry_present (entry_of v' (fault_page addr)) ∧ entry_writeable (entry_of v' (fault_page addr)) ∧
    user_read v' (fault_page addr) = user_read v (fault_page addr).
Proof.
  intros Hv Ha. unfold resolve_write_page.
  destruct (outside addr) eqn:Ho; [by left |]. destruct (find_mapping _ _) as [m |] eqn:Hfm; [| by left].
  destruct (negb (mm_cow m) && _); [by left |].
  pose proof (vo_pages _ _ _ _ _ Hv) as Hu.
  rewrite (page_table_of_spec own (as_pages v) addr Hu Ha Ho). cbn [mbind outcome_bind].
  destruct (leaf_table _ _) as [t |] eqn:Hleaf; [| by left].
  apply find_mapping_spec in Hfm as [Hm Hc]; [| apply (vo_map _ _ _ _ _ Hv)].
  destruct (fault_page_ok addr Ha Ho) as (_ & [[Hpn _] _] & _).
  pose proof (read_leaf_entry own (as_pages v) _ t Hu Hleaf) as Hrd. fold (entry_of v (fault_page addr)) in Hrd.
  set (pn := fault_page addr) in *. rewrite Hrd. cbn [mbind outcome_bind]. unfold bf_flag.
  destruct (get_is_u pe_present (entry_of v pn) eq_refl) as [? Hb]. change (2 ^ bf_bits pe_present) with 2 in Hb.
  destruct (get_is_u pe_writeable (entry_of v pn) eq_refl) as [? Hb']. change (2 ^ bf_bits pe_writeable) with 2 in Hb'.
  destruct (Z.eqb_spec (bf_get pe_present (entry_of v pn)) 0); cbn [negb]; [by left |].
  assert (entry_present (entry_of v pn)) as Hpr by (unfold entry_present; lia).
  destruct (Z.eqb_spec (bf_get pe_writeable (entry_of v pn)) 0); cbn [negb].
  - destruct (own_page_ok others other_refs cached own v m t pn Hv Hm Hc Hleaf Hpn Hpr)
      as [-> | (v' & -> & [O1 O2 O3 O4])]; cbn [mbind outcome_bind]; [by left |].
    right. by exists MADE_WRITEABLE, v'.
  - right. exists WAS_WRITEABLE, v. split_and!; [done | done | by split | done | | done].
    unfold entry_writeable. lia.
Qed.

(** The pages read as before and those that could be written still can. *)
Record space_same own v v' : Prop := {
  ss_ok : vm_ok own v';
  ss_untouched : untouched v v';
  ss_reads : ∀ pn, 0 ≤ pn → user_read v' pn = user_read v pn;
  ss_writes : ∀ pn, 0 ≤ pn → entry_present (entry_of v pn) → entry_writeable (entry_of v pn) →
    entry_present (entry_of v' pn) ∧ entry_writeable (entry_of v' pn)
}.

Lemma space_same_refl own v : vm_ok own v → space_same own v v.
Proof. by split. Qed.

Lemma space_same_trans own v v1 v2 : space_same own v v1 → space_same own v1 v2 → space_same own v v2.
Proof.
  intros [A1 A2 A3 A4] [B1 B2 B3 B4]. split; [done | | |].
  - intros f Hf. rewrite B2 by done. by apply A2.
  - intros pn Hpn. rewrite B3 by done. by apply A3.
  - intros pn Hpn H1 H2. destruct (A4 pn Hpn H1 H2). by apply B4.
Qed.

Lemma page_changed_space own v pn v' :
  page_changed own v pn v' → user_read v' pn = user_read v pn →
  entry_present (entry_of v' pn) → entry_writeable (entry_of v' pn) → space_same own v v'.
Proof.
  intros [P1 P2 P3 P4] Hr Hp Hw. split; [done | done | |].
  - intros pn' Hpn. destruct (decide (pn' = pn)) as [-> |]; [done | by apply P4].
  - intros pn' Hpn H1 H2. destruct (decide (pn' = pn)) as [-> |]; [done |]. by rewrite P3.
Qed.

(** The process may write to the bytes from [lo] to [hi]. *)
Definition writeable_range v (lo hi : Z) : Prop :=
  ∀ a, lo ≤ a < hi → entry_present (entry_of v (a / 4096)) ∧ entry_writeable (entry_of v (a / 4096)).

Lemma fault_page_div addr : 0 ≤ addr < 2 ^ 44 → fault_page addr = addr / 4096.
Proof.
  intros Ha. unfold fault_page. rewrite Z.shiftr_div_pow2 by lia. change (2 ^ 12) with 4096.
  apply wrap_id. unfold is_u. split; [apply Z.div_pos | apply Z.div_lt_upper_bound]; lia.
Qed.

Definition page_align (a : Z) : Z := 4096 * (a / 4096).

Lemma land_align a : Z.land a (Z.lnot 4095) = page_align a.
Proof.
  unfold page_align. change 4095 with (Z.ones 12). rewrite <- Z.ldiff_land, Z.ldiff_ones_r by lia.
  rewrite Z.shiftr_div_pow2, Z.shiftl_mul_pow2 by lia. change (2 ^ 12) with 4096. lia.
Qed.

Lemma resolve_write_loop_ok own fuel addr stop v :
  vm_ok own v → 0 ≤ addr → page_align addr < stop ≤ 2 ^ 44 → stop - page_align addr ≤ 4096 * Z.of_nat fuel →
  ∃ b v', resolve_write_loop fuel addr stop v = Ret (b, v') ∧ space_same own v v' ∧
    (b = true → writeable_range v' (page_align addr) stop).
Proof.
  revert addr v. induction fuel as [| fuel IH]; intros addr v Hv Ha Hs Hf; [lia |].
  assert (addr < 2 ^ 44) as Hlt.
  { unfold page_align in Hs. pose proof (Z.div_mod addr 4096). pose proof (Z.mod_pos_bound addr 4096). lia. }
  assert (space_same own v v) as Hrefl by done.
  cbn [resolve_write_loop].
  destruct (resolve_write_page_spec own v addr Hv ltac:(lia)) as [-> | (r & v1 & -> & Hr & Hpc & Hp & Hw & Hrd)];
    cbn [mbind outcome_bind]; [by exists false, v |].
  pose proof (page_changed_space own v _ v1 Hpc Hrd Hp Hw) as Hss.
  rewrite fault_page_div in Hp, Hw by lia. rewrite wrap_id by (unfold is_u; lia). rewrite land_align.
  assert (page_align (addr + 4096) = page_align addr + 4096) as Eal.
  { unfold page_align. replace (addr + 4096) with (addr + 1 * 4096) by lia. rewrite Z.div_add by lia. lia. }
  assert (∀ v', space_same own v1 v' → writeable_range v' (page_align addr) (page_align addr + 4096)) as Hfirst.
  { intros v' Hv' a Hab. assert (a / 4096 = addr / 4096) as ->.
    { unfold page_align in Hab. symmetry. apply (Z.div_unique_pos _ _ _ (a - 4096 * (addr / 4096))); lia. }
    apply (ss_writes _ _ _ Hv'); [apply Z.div_pos; lia | done | done]. }
  rewrite Eal. destruct r; [done | |].
  all: destruct (Z.leb_spec stop (page_align addr + 4096)).
  1, 3: exists true, v1; split_and!; [done | done |]; intros _ a Hab; apply (Hfirst v1); [apply space_same_refl, Hss | lia].
  all: destruct (IH (addr + 4096) v1 (ss_ok _ _ _ Hss)) as (b & v' & -> & Hss' & Hb); [lia | lia | lia |].
  all: exists b, v'; split_and!; [done | by eapply space_same_trans |].
  all: intros -> a Hab; destruct (decide (a < page_align addr + 4096)); [apply (Hfirst v' Hss'); lia |].
  all: apply Hb; [done | lia].
Qed.

(** C28: resolve_write of a range below 2^44, the addresses that have a page
    number of their own, always returns.  If it returns true the process may
    write to every byte of the range, so the kernel may do so for it; in any
    case what the process reads has not changed anywhere, nor has the memory of
    other processes or the page cache, and what could be written still can.
    The lock is given up between the pages; what other threads do to the
    address space meanwhile is not covered. *)
Theorem resolve_write_correct own v (addr len : Z) :
  vm_ok own v → 0 ≤ addr → 0 ≤ len → addr + len ≤ 2 ^ 44 →
  ∃ b v', resolve_write addr len v = Ret (b, v') ∧ space_same own v v' ∧
    (b = true → writeable_range v' addr (addr + len)).
Proof.
  intros Hv Ha Hl Hs. unfold resolve_write. rewrite wrap_id by (unfold is_u; lia).
  destruct (Z.eqb_spec addr (addr + len)).
  { exists true, v. split_and!; [done | done |]. intros _ a Hab. lia. }
  pose proof (Z.div_mod addr 4096). pose proof (Z.mod_pos_bound addr 4096).
  pose proof (Z.div_mod len 4096). pose proof (Z.mod_pos_bound len 4096).
  assert (0 ≤ len / 4096) by (apply Z.div_pos; lia).
  destruct (resolve_write_loop_ok own (Z.to_nat (len / 4096 + 2)) addr (addr + len) v Hv Ha)
    as (b & v' & E & Hss & Hb); [unfold page_align; lia.. |].
  exists b, v'. split_and!; [done | done |]. intros -> a Hab. apply Hb; [done |]. unfold page_align. lia.
Qed.

(** a range that wraps around is accepted after a look at its first page:
    resolve_write compares with the end modulo 2^64. *)
Theorem resolve_write_wraps v (addr len : Z) :
  0 ≤ addr < 2 ^ 44 → is_u 64 len → 2 ^ 64 ≤ addr + len →
  resolve_write addr len v =
    ('(r, v') ← resolve_write_page addr v; Ret (match r with RW_ERROR => false | _ => true end, v')).
Proof.
  intros Ha [Hl1 Hl2] Hs. unfold resolve_write.
  assert (u64 (addr + len) = addr + len - 2 ^ 64) as ->.
  { unfold wrap. symmetry. apply (Z.mod_unique_pos _ _ 1); lia. }
  destruct (Z.eqb_spec addr (addr + len - 2 ^ 64)); [lia |].
  destruct (Z.to_nat (len / 4096 + 2)) as [| fuel] eqn:Ef.
  { assert (0 ≤ len / 4096) by (apply Z.div_pos; lia). lia. }
  cbn [resolve_write_loop]. destruct (resolve_write_page addr v) as [[r v'] | | |]; [| done..].
  cbn [mbind outcome_bind]. destruct r; [done | |].
  all: rewrite (wrap_id 64 (addr + 4096)), land_align by (unfold is_u; lia).
  all: unfold page_align; pose proof (Z.div_mod (addr + 4096) 4096); pose proof (Z.mod_pos_bound (addr + 4096) 4096).
  all: by rewrite (proj2 (Z.leb_le _ _)) by lia.
Qed.

End Theorems.

(** ** Examples *)

Lemma succeeds_false {R} (r : outcome (bool * R)) x : succeeds r = true → r ≠ Ret (false, x).
Proof. intros Hs ->. done. Qed.


Definition read_file (image n : Z) : option (Z * list Z) :=
  if (image =? 9) && (n =? 3) then Some (cache_page, file_bytes) else None.

(** The first access to a page of a file. *)
Lemma resolve_page_correct_witness :
  ∃ v', resolve_page read_file (2 ^ 43) file_space = Ret (true, v') ∧
    user_read v' (2 ^ 31) = Some (cut_page 100 file_bytes).
Proof.
  destruct file_space_ok as [own Hv].
  destruct (resolve_page_correct nobody no_refs is_cache_page read_file own file_space (2 ^ 43) Hv)
    as [E | (v' & m & image & d & bytes & E & _ & _ & Hf & _ & Hi & Hg & Hr)].
  - intros image n phys bytes. unfold read_file. destruct (_ && _); [| done]. intros [= <- <-].
    split; [done | by vm_compute].
  - unfold is_u; lia.
  - exfalso. revert E. apply succeeds_false. by vm_compute.
  - exists v'. split; [exact E |]. clear E Hv. change (fault_page (2 ^ 43)) with (2 ^ 31) in *.
    assert (mm_load <$> find_mapping (2 ^ 31) (as_map file_space) = Some 100) as Hm by (by vm_compute).
    rewrite Hf in Hm. cbn in Hm. apply (inj Some) in Hm. rewrite Hr, Hm. cbn [Z.eqb].
    unfold read_file in Hg. destruct (_ && _); [| done]. apply (inj Some) in Hg. by injection Hg as _ <-.
Defined.

Definition touched_space := space_after (sync_resolve_page (2 ^ 43) anon_space).

Lemma touched_space_ok : ∃ own, vm_ok nobody no_refs is_cache_page own touched_space.
Proof.
  destruct anon_space_ok as [own Hv]. unfold touched_space.
  destruct (sync_resolve_spec nobody no_refs is_cache_page own anon_space (2 ^ 43) Hv ltac:(unfold is_u; lia))
    as [-> | (v' & m & -> & Hpc & _)]; [by exists own | exists own; apply Hpc].
Qed.

(** Bytes of a page that is there. *)
Lemma resolve_write_correct_witness :
  ∃ v', resolve_write (2 ^ 43 + 10) 100 touched_space = Ret (true, v') ∧
    writeable_range v' (2 ^ 43 + 10) (2 ^ 43 + 110).
Proof.
  destruct touched_space_ok as [own Hv].
  destruct (resolve_write_correct nobody no_refs is_cache_page own touched_space (2 ^ 43 + 10) 100 Hv)
    as (b & v' & E & _ & Hw); [lia.. |].
  assert (b = true) as ->.
  { assert (succeeds (resolve_write (2 ^ 43 + 10) 100 touched_space) = true) as Hs by (by vm_compute).
    rewrite E in Hs. exact Hs. }
  exists v'. split; [exact E | by apply Hw].
Defined.

(** A buffer at the end of the 64-bit addresses. *)
Lemma resolve_write_wraps_witness :
  succeeds (resolve_write (2 ^ 43) (2 ^ 64 - 1) touched_space) = true.
Proof.
  rewrite (resolve_write_wraps touched_space (2 ^ 43) (2 ^ 64 - 1)); [by vm_compute | lia | unfold is_u; lia | lia].
Defined.
