(* ===== verification/ProcProtect.v ===== *)
(** mprotect (Process::Protect): the mappings are split at the ends of the
    range, every page keeps its records and its place in the file, and the
    entries of the pages of the range get the protection. *)
From S2P Require Import Prelude BitField PageEntry VPageAlloc PhysPageMap PPageAlloc Signals Frames ProcMem ProcPages ProcPagesTheorems ProcVm ProcFault ProcVmInv ProcVmExamples ProcFaultInv.

Local Open Scope Z_scope.

Lemma filter_split {X} (P : X → Prop) `{∀ x, Decision (P x)} (l : list X) :
  l ≡ₚ filter P l ++ filter (fun x => ¬ P x) l.
Proof.
  induction l as [| x l IH]; [done |]. destruct (decide (P x)) as [HP | HP].
  - rewrite filter_cons_True, (filter_cons_False (fun x => ¬ P x)) by tauto. cbn. by rewrite <- IH.
  - rewrite filter_cons_False, (filter_cons_True (fun x => ¬ P x)) by done.
    rewrite <- Permutation_middle. by rewrite <- IH.
Qed.

(** * Pieces of a mapping *)

(** [x] has the pages of [m] in its range, with their records and their place in
    the file. *)
Record piece_of (m x : MemMapping) : Prop := {
  pi_ok : mapping_ok x;
  pi_image : mm_image x = mm_image m;
  pi_binary : mm_binary_mapping x = mm_binary_mapping m;
  pi_start : mm_pagenum m ≤ mm_pagenum x;
  pi_end : mm_pagenum x + mm_pages x ≤ mm_pagenum m + mm_pages m;
  pi_entries : ∀ p, mm_covers x p → page_entries x p = page_entries m p;
  pi_file : ∀ p, mm_covers x p → mm_image m ≠ None → file_page x p = file_page m p
}.

Lemma piece_refl m : mapping_ok m → piece_of m m.
Proof. intros. by split. Qed.

Lemma piece_trans m x y : piece_of m x → piece_of x y → piece_of m y.
Proof.
  intros [P1 P2 P3 P4 P5 P6 P7] [Q1 Q2 Q3 Q4 Q5 Q6 Q7]. split; try done; try congruence; try lia.
  - intros p Hp. rewrite Q6 by done. apply P6. unfold mm_covers in *. lia.
  - intros p Hp Hi. rewrite Q7 by (done || congruence). apply P7; [| done]. unfold mm_covers in *. lia.
Qed.

(** A range of [m] with the records in it. *)
Lemma piece_intro m x (Q : Z → Prop) `{∀ q, Decision (Q q)} :
  mapping_ok m → mm_image x = mm_image m → mm_binary_mapping x = mm_binary_mapping m →
  mm_pagenum m ≤ mm_pagenum x → 1 ≤ mm_pages x → mm_pagenum x + mm_pages x ≤ mm_pagenum m + mm_pages m →
  (mm_image m ≠ None → u32 (mm_image_skip_pages x) = u32 (mm_image_skip_pages m + (mm_pagenum x - mm_pagenum m))) →
  mm_mappings x = filter (fun e => Q (pm_page e)) (mm_mappings m) →
  (∀ q, mm_covers m q → Q q ↔ mm_covers x q) → piece_of m x.
Proof.
  intros [M1 M2 M3 M4] Hi Hb Hs Hn He Hskip Hmap HQ. split; try done.
  - split; [lia | lia | lia |]. rewrite Hmap. rewrite Forall_forall in M4. apply Forall_forall.
    intros e [H1 H2]%list_elem_of_filter. apply HQ; [by apply M4 | done].
  - intros p Hp. unfold page_entries. rewrite Hmap. apply filter_entries. intros e ->.
    apply HQ; [unfold mm_covers in *; lia | done].
  - intros p Hp Himg. unfold file_page. unfold mm_covers in Hp. specialize (Hskip Himg).
    rewrite (wrap_id 32 (p - mm_pagenum x)), (wrap_id 32 (p - mm_pagenum m)) by (unfold is_u; lia).
    unfold wrap in *. rewrite <- Z.add_mod_idemp_l, Hskip, Z.add_mod_idemp_l by lia. f_equal. lia.
Qed.

Definition same_access (m x : MemMapping) : Prop := mm_read x = mm_read m ∧ mm_cow x = mm_cow m ∧ mm_load x = mm_load m.

(** A mapping without its front. *)
Lemma split_front_spec s m :
  mapping_ok m → mm_pagenum m ≤ s < mm_pagenum m + mm_pages m →
  let '(front, mid) := split_front s m in
  piece_of m mid ∧ same_access m mid ∧ mm_pagenum mid = s ∧
  mm_pagenum mid + mm_pages mid = mm_pagenum m + mm_pages m ∧
  mm_mappings m ≡ₚ (option_list front ≫= mm_mappings) ++ mm_mappings mid ∧
  match front with
  | None => s = mm_pagenum m
  | Some x => piece_of m x ∧ same_access m x ∧ mm_pagenum x = mm_pagenum m ∧ mm_pagenum x + mm_pages x = s
  end.
Proof.
  intros Hm Hs. pose proof Hm as [M1 M2 M3 _]. unfold split_front. destruct (Z.ltb_spec (mm_pagenum m) s).
  2: { split_and!; try lia; done. }
  rewrite !(wrap_id 32 (s - _)), (wrap_id 32 (mm_pages m - _)) by (unfold is_u; lia).
  unfold entries_in, entries_out. rewrite (wrap_id 32 (mm_pagenum m + _)) by (unfold is_u; lia).
  replace (mm_pagenum m + (s - mm_pagenum m)) with s by lia.
  set (P := fun q => mm_pagenum m ≤ q ∧ q < s).
  split_and!; cbn; try done; try lia.
  - eapply (piece_intro m _ (fun q => ¬ P q)); cbn; try done; try lia.
    + intros Hi. destruct (mm_image m); [| done]. by rewrite wrap_wrap.
    + intros q Hq. unfold mm_covers, P in *. cbn in *. lia.
  - rewrite app_nil_r. apply filter_split.
  - eapply (piece_intro m _ P); cbn; try done; try lia.
    + intros _. f_equal. lia.
    + intros q Hq. unfold mm_covers, P in *. cbn in *. lia.
Qed.

(** A mapping without its back, which becomes readable. *)
Lemma split_back_spec e m :
  mapping_ok m → mm_pagenum m < e ≤ mm_pagenum m + mm_pages m →
  let '(mid, back) := split_back e m in
  piece_of m mid ∧ same_access m mid ∧ mm_pagenum mid = mm_pagenum m ∧ mm_pagenum mid + mm_pages mid = e ∧
  mm_mappings m ≡ₚ mm_mappings mid ++ (option_list back ≫= mm_mappings) ∧
  match back with
  | None => e = mm_pagenum m + mm_pages m
  | Some x => piece_of m x ∧ mm_read x = true ∧ mm_cow x = mm_cow m ∧ mm_pagenum x = e ∧
      mm_pagenum x + mm_pages x = mm_pagenum m + mm_pages m
  end.
Proof.
  intros Hm He. pose proof Hm as [M1 M2 M3 M4]. unfold split_back. rewrite mm_end_ok by done.
  destruct (Z.ltb_spec e (mm_pagenum m + mm_pages m)).
  2: { split_and!; try lia; try done. by rewrite app_nil_r. }
  rewrite !(wrap_id 32 (e - _)), (wrap_id 32 (mm_pages m - _)) by (unfold is_u; lia).
  replace (mm_pagenum m + (e - mm_pagenum m)) with e by lia. rewrite !(wrap_id 32 e) by (unfold is_u; lia).
  unfold entries_in, entries_out. rewrite (wrap_id 32 (e + _)) by (unfold is_u; lia).
  set (stop := e + (mm_pages m - (e - mm_pagenum m))). assert (stop = mm_pagenum m + mm_pages m) as Es by lia.
  set (P := fun q => e ≤ q ∧ q < stop).
  split_and!; cbn; try done; try lia.
  - eapply (piece_intro m _ (fun q => ¬ P q)); cbn; try done; try lia.
    + intros _. f_equal. lia.
    + intros q Hq. unfold mm_covers, P in *. cbn in *. lia.
  - rewrite app_nil_r, Permutation_app_comm. apply filter_split.
  - eapply (piece_intro m _ P); cbn; try done; try lia.
    + intros _. by rewrite wrap_wrap.
Qed.

Lemma prot_range_spec pagenum pages m :
  mapping_ok m → 0 ≤ pagenum → 1 ≤ pages → pagenum + pages < 2 ^ 32 →
  match prot_range pagenum pages m with
  | None => ∀ p, mm_covers m p → ¬ in_range pagenum (pagenum + pages) p
  | Some (s, e) => mm_pagenum m ≤ s ∧ s < e ∧ e ≤ mm_pagenum m + mm_pages m ∧
      ∀ p, mm_covers m p → in_range pagenum (pagenum + pages) p ↔ s ≤ p < e
  end.
Proof.
  intros Hm H1 H2 H3. pose proof Hm as [M1 M2 M3 _]. unfold prot_range. rewrite mm_end_ok by done.
  rewrite (wrap_id 32 (pagenum + pages)) by (unfold is_u; lia). unfold mm_covers, in_range.
  set (ol_start := if _ <? pagenum then _ else _). set (ol_end := if _ <? _ + _ then _ else _).
  assert (ol_start = Z.max (mm_pagenum m) pagenum) as -> by (unfold ol_start; destruct (Z.ltb_spec (mm_pagenum m) pagenum); lia).
  assert (ol_end = Z.min (pagenum + pages) (mm_pagenum m + mm_pages m)) as ->.
  { unfold ol_end. destruct (Z.ltb_spec (pagenum + pages) (mm_pagenum m + mm_pages m)); lia. }
  destruct (Z.leb_spec (Z.min (pagenum + pages) (mm_pagenum m + mm_pages m)) (Z.max (mm_pagenum m) pagenum)).
  - lia.
  - split_and!; lia.
Qed.

(** * The parts of a mapping *)

Lemma find_page_head page ps : find_page page ps = head (filter (fun e => pm_page e = page) ps).
Proof.
  induction ps as [| p ps IH]; [done |]. cbn [find_page]. destruct (Z.eqb_spec (pm_page p) page).
  - by rewrite filter_cons_True.
  - by rewrite filter_cons_False.
Qed.

Lemma piece_find_page m x p : piece_of m x → mm_covers x p → find_page p (mm_mappings x) = find_page p (mm_mappings m).
Proof. intros Hp Hc. rewrite !find_page_head. pose proof (pi_entries m x Hp p Hc) as E. unfold page_entries in E. by rewrite E. Qed.

Definition valid_prot (prot : Z) : Prop := prot = Z.lor PROT_READ PROT_WRITE ∨ prot = PROT_READ ∨ prot = PROT_NONE.

Lemma elem_of_mapping_range m p : mapping_ok m → p ∈ mapping_range m ↔ mm_covers m p.
Proof. intros Hm. unfold mapping_range. rewrite mm_end_ok, elem_of_seqZ by done. unfold mm_covers. lia. Qed.

(** The pages whose entries change. *)
Definition protect_pages (prot : Z) (m : MemMapping) : list Z :=
  if prot =? Z.lor PROT_READ PROT_WRITE then filter (fun p => writes_now (mm_mappings m) p = true) (mapping_range m)
  else mapping_range m.

Definition protect_piece (prot : Z) (m : MemMapping) : MemMapping :=
  set_access (negb (prot =? PROT_NONE))
    (if prot =? Z.lor PROT_READ PROT_WRITE then existsb (shares_page (mm_mappings m)) (mapping_range m) else false) m.

Definition protect_parts (pagenum pages prot : Z) (m : MemMapping) : list MemMapping :=
  match prot_range pagenum pages m with
  | None => [m]
  | Some (s, e) =>
      let '(front, m) := split_front s m in
      let '(m, back) := split_back e m in
      protect_piece prot m :: option_list front ++ option_list back
  end.

Lemma piece_access m x read cow : piece_of m x → piece_of m (set_access read cow x).
Proof. intros [[P1 P2 P3 P4] ? ? ? ? ? ?]. split; try done; split; done. Qed.

(** The access to a page after mprotect.  The part behind the range is readable
    whatever it was. *)
Definition part_access (pagenum pages prot : Z) (m x : MemMapping) (p : Z) : Prop :=
  if decide (in_range pagenum (pagenum + pages) p)
  then mm_read x = negb (prot =? PROT_NONE) ∧ (prot ≠ Z.lor PROT_READ PROT_WRITE → mm_cow x = false) ∧
    (prot = Z.lor PROT_READ PROT_WRITE → shares_page (mm_mappings m) p = true → mm_cow x = true)
  else mm_cow x = mm_cow m ∧
    mm_read x = mm_read m || bool_decide (pagenum + pages ≤ p ∧ mm_pagenum m < pagenum + pages).

Record parts_ok (pagenum pages prot : Z) (m : MemMapping) (xs : list MemMapping) : Prop := {
  pa_piece : ∀ x, x ∈ xs → piece_of m x;
  pa_apart : ForallOrdPairs apart xs;
  pa_records : mm_mappings m ≡ₚ xs ≫= mm_mappings;
  pa_cover : ∀ p, mm_covers m p → ∃ x, x ∈ xs ∧ mm_covers x p ∧ part_access pagenum pages prot m x p
}.

Section Parts.
Context (pagenum pages prot : Z).
Hypothesis Hstart : 0 ≤ pagenum.
Hypothesis Hpages : 1 ≤ pages.
Hypothesis Hend : pagenum + pages < 2 ^ 32.
Abbreviation parts := (protect_parts pagenum pages prot).

(** A mapping outside of the range. *)
Lemma parts_outside m :
  mapping_ok m → (∀ p, mm_covers m p → ¬ in_range pagenum (pagenum + pages) p) → parts_ok pagenum pages prot m [m].
Proof.
  intros Hm Hr. pose proof Hm as [M1 M2 M3 _]. split.
  - intros x ->%list_elem_of_singleton. by apply piece_refl.
  - repeat constructor.
  - cbn. by rewrite app_nil_r.
  - intros p Hp. exists m. split_and!; [left | apply Hp.. |]. unfold part_access. rewrite decide_False by auto.
    split; [done |]. rewrite bool_decide_false, orb_false_r; [done |]. intros [H1 H2].
    destruct (Hr (Z.max (mm_pagenum m) pagenum)); unfold mm_covers, in_range in *; lia.
Qed.

Lemma protect_parts_ok m : mapping_ok m → parts_ok pagenum pages prot m (parts m).
Proof.
  intros Hm. pose proof (prot_range_spec pagenum pages m Hm Hstart Hpages Hend) as Hr. unfold protect_parts.
  pose proof Hm as [M1 M2 M3 _].
  destruct (prot_range pagenum pages m) as [[s e] |].
  2: { by apply parts_outside. }
  destruct Hr as (R1 & R2 & R3 & R4).
  pose proof (split_front_spec s m Hm ltac:(lia)) as Hf. destruct (split_front s m) as [front m1].
  destruct Hf as (F1 & (F2 & F2' & _) & F3 & F4 & F5 & F6).
  pose proof (split_back_spec e m1 (pi_ok _ _ F1) ltac:(lia)) as Hb. destruct (split_back e m1) as [m2 back].
  destruct Hb as (B1 & _ & B3 & B4 & B5 & B6).
  assert (piece_of m (protect_piece prot m2)) as Hmid by (apply piece_access; by eapply piece_trans).
  split.
  - intros x [-> | [Hx | Hx]%elem_of_app]%elem_of_cons; [done | |].
    + destruct front; [apply list_elem_of_singleton in Hx as -> | by apply elem_of_nil in Hx]. apply F6.
    + destruct back; [apply list_elem_of_singleton in Hx as -> | by apply elem_of_nil in Hx].
      eapply piece_trans; [exact F1 | apply B6].
  - destruct front as [x |], back as [y |]; cbn; repeat (apply FOP_cons || apply Forall_cons_2 || apply Forall_nil_2 || apply FOP_nil);
      unfold apart; cbn; try (destruct F6 as (_ & _ & ? & ?)); try (destruct B6 as (_ & _ & _ & ? & ?)); lia.
  - cbn [mbind list_bind]. rewrite bind_app. rewrite F5, B5. cbn.
    rewrite !app_assoc. apply Permutation_app_tail. apply Permutation_app_comm.
  - intros p Hp. pose proof (R4 p Hp) as Hin. unfold part_access. unfold mm_covers in Hp |- *.
    destruct (decide (in_range pagenum (pagenum + pages) p)) as [Hi | Hi].
    + exists (protect_piece prot m2). split_and!; [left | cbn; apply Hin in Hi; lia.. | done | |].
      * intros Hne. cbn. by rewrite (proj2 (Z.eqb_neq _ _) Hne).
      * intros -> Hsh. cbn. apply existsb_exists. exists p. assert (mm_covers m2 p) as Hc by (apply Hin in Hi; unfold mm_covers; lia).
        split; [apply list_elem_of_In, elem_of_mapping_range; [apply (pi_ok _ _ B1) | done] |].
        revert Hsh. unfold shares_page. by rewrite (piece_find_page m m2 p (piece_trans _ _ _ F1 B1) Hc).
    + assert (p < s ∨ e ≤ p) as [Hlt | Hge] by (destruct (decide (s ≤ p < e)) as [Hse | Hse]; [by apply Hin in Hse | lia]).
      * destruct front as [x |]; [| lia]. destruct F6 as (_ & (A1 & A2 & _) & A3 & A4). exists x.
        split_and!; [right; cbn; left | lia | lia | done |].
        rewrite bool_decide_false, orb_false_r; [done |].
        destruct (R4 s ltac:(unfold mm_covers; lia)) as [_ Hs]. specialize (Hs ltac:(lia)). unfold in_range in *. lia.
      * destruct back as [y |]; [| lia]. destruct B6 as (_ & A1 & A2 & A3 & A4). exists y.
        split_and!; [right; apply elem_of_app; right; left | lia | lia | congruence |].
        rewrite bool_decide_true, orb_true_r; [done |].
        destruct (R4 s ltac:(unfold mm_covers; lia)) as [_ Hs]. specialize (Hs ltac:(lia)). unfold in_range in *. lia.
Qed.

(** The parts of all mappings are a map again, with the same records. *)
Lemma parts_map_ok l : map_ok l → map_ok (l ≫= parts).
Proof.
  intros [Hall Hp]. rewrite Forall_forall in Hall. split.
  - apply Forall_forall. intros x (m & Hx & Hm)%list_elem_of_bind.
    apply (pi_ok m x). by apply (pa_piece _ _ _ _ _ (protect_parts_ok m (Hall m Hm))).
  - assert (Forall mapping_ok l) as Hall' by (by apply Forall_forall). clear Hall.
    induction Hp as [| m l Hm Hp IH]; [constructor |]. apply Forall_cons in Hall' as [Hmo Hall].
    cbn. apply pairs_app. split_and!; [by apply (protect_parts_ok m) | by apply IH |].
    apply Forall_forall. intros x Hx. apply Forall_forall. intros y (m' & Hy & Hm')%list_elem_of_bind.
    rewrite Forall_forall in Hm, Hall. pose proof (Hm m' Hm') as Ha.
    destruct (pa_piece _ _ _ _ _ (protect_parts_ok m Hmo) x Hx) as [_ _ _ X1 X2 _ _].
    destruct (pa_piece _ _ _ _ _ (protect_parts_ok m' (Hall m' Hm')) y Hy) as [_ _ _ Y1 Y2 _ _].
    unfold apart in *. lia.
Qed.

Lemma parts_phys l : Forall mapping_ok l → map_phys (l ≫= parts) ≡ₚ map_phys l.
Proof.
  induction 1 as [| m l Hm _ IH]; [done |]. cbn [mbind list_bind]. rewrite map_phys_app, IH.
  unfold map_phys at 1. rewrite <- (pa_records _ _ _ _ _ (protect_parts_ok m Hm)). done.
Qed.

(** The mapping of a page is a part of the one before. *)
Lemma parts_find l l' p :
  map_ok l → l' ≡ₚ l ≫= parts →
  match find_mapping p l with
  | None => find_mapping p l' = None
  | Some m => ∃ x, find_mapping p l' = Some x ∧ piece_of m x ∧ part_access pagenum pages prot m x p
  end.
Proof.
  intros Hl Hp. pose proof Hl as [Hall _]. rewrite Forall_forall in Hall.
  assert (map_ok l') as Hl'.
  { destruct (parts_map_ok l Hl) as [H1 H2]. split; [by rewrite Hp | eapply pairs_perm; [apply _ | by symmetry | done]]. }
  destruct (find_mapping p l) as [m |] eqn:E.
  - apply find_mapping_spec in E as [Hm Hc]; [| done]. pose proof (protect_parts_ok m (Hall m Hm)) as Hparts.
    destruct (pa_cover _ _ _ _ _ Hparts p Hc) as (x & Hx & Hxc & Ha). exists x. split_and!; [| | done].
    + apply find_mapping_spec; [done |]. split; [| done]. rewrite Hp. apply list_elem_of_bind. by exists m.
    + by apply (pa_piece _ _ _ _ _ Hparts).
  - rewrite find_mapping_none in E |- * by done. intros x Hx Hc. rewrite Hp in Hx.
    apply list_elem_of_bind in Hx as (m & Hx & Hm).
    destruct (pa_piece _ _ _ _ _ (protect_parts_ok m (Hall m Hm)) x Hx) as [_ _ _ X1 X2 _ _].
    apply (E m Hm). unfold mm_covers in *. lia.
Qed.

End Parts.

(** * The entries *)

Lemma prot_entry_u prot : preserves_u64 (prot_entry prot).
Proof.
  intros e [He _]. unfold prot_entry. destruct (_ =? Z.lor _ _); [| destruct (_ =? PROT_READ)];
    repeat apply set_is_u; repeat match goal with |- 0 ≤ bf_set ?f ?x ?v => apply (set_is_u f x v) end; done.
Qed.

Lemma prot_entry_spec prot e :
  valid_prot prot →
  bf_get pe_present (prot_entry prot e) = (if prot =? PROT_NONE then 0 else bf_get pe_present e) ∧
  bf_get pe_writeable (prot_entry prot e) = (if prot =? Z.lor PROT_READ PROT_WRITE then 1 else 0) ∧
  below_addr (prot_entry prot e) = below_addr e.
Proof.
  intros [-> | [-> | ->]]; unfold prot_entry, below_addr, PROT_READ, PROT_WRITE, PROT_NONE;
    change (Z.lor 1 2) with 3; cbn [Z.eqb Pos.eqb]; split_and!; by fields.
Qed.

Section Loop.
Context {A : Type} `{FrameAllocatorLaws A}.
Context (pagenum pages prot : Z).
Hypothesis Hstart : 0 ≤ pagenum.
Hypothesis Hpages : 1 ≤ pages.
Hypothesis Hend : pagenum + pages < 2 ^ 32.
Hypothesis Hprot : valid_prot prot.
Implicit Types (u : user_pages A) (own : places).
Abbreviation parts := (protect_parts pagenum pages prot).

Lemma protect_mapping_valid m u :
  protect_mapping prot m u =
  u ← change_each (prot_entry prot) (protect_pages prot m) u; Ret (Some (protect_piece prot m), u).
Proof. by destruct Hprot as [-> | [-> | ->]]. Qed.

(** The pages of [m] whose entries are written. *)
Definition touches (m : MemMapping) (pn : Z) : Prop :=
  in_range pagenum (pagenum + pages) pn ∧ mm_covers m pn ∧
  (prot = Z.lor PROT_READ PROT_WRITE → writes_now (mm_mappings m) pn = true).

(** What one page's entry becomes. *)
Definition entry_protected (t : Prop) (e e' : Z) : Prop := 
  (¬ t ∧ e' = e) ∨ (t ∧ (e' = prot_entry prot e ∨ e = 0 ∧ e' = 0)).

Lemma protect_pages_elem m x s e pn :
  mapping_ok m → piece_of m x → mm_pagenum x = s → mm_pagenum x + mm_pages x = e →
  (∀ p, mm_covers m p → in_range pagenum (pagenum + pages) p ↔ s ≤ p < e) →
  pn ∈ protect_pages prot x ↔ touches m pn.
Proof.
  intros Hm Hx Hs He Hin. pose proof (pi_ok m x Hx) as Hxo. pose proof (pi_start m x Hx). pose proof (pi_end m x Hx).
  pose proof (elem_of_mapping_range x pn Hxo) as Hr.
  assert (mm_covers x pn ↔ mm_covers m pn ∧ in_range pagenum (pagenum + pages) pn) as Hc.
  { split; [intros Hc | intros [Hc Hi]].
    - assert (mm_covers m pn) as Hc' by (unfold mm_covers in *; lia). split; [done |]. apply Hin; [done |].
      unfold mm_covers in Hc. lia.
    - apply Hin in Hi; [| done]. unfold mm_covers. lia. }
  assert (mm_covers x pn → writes_now (mm_mappings x) pn = writes_now (mm_mappings m) pn) as Hw.
  { intros Hcx. unfold writes_now. by rewrite (piece_find_page m x). }
  unfold protect_pages, touches. destruct (Z.eqb_spec prot (Z.lor PROT_READ PROT_WRITE)) as [E | E].
  - rewrite list_elem_of_filter, Hr. split.
    + intros [W Hcx]. pose proof (proj1 Hc Hcx) as [? ?]. rewrite Hw in W by done. done.
    + intros (? & ? & W). assert (mm_covers x pn) as Hcx by (by apply Hc). split; [| done]. rewrite Hw by done. by apply W.
  - rewrite Hr, Hc. split; [intros [? ?]; by split_and! | by intros (? & ? & _)].
Qed.

(** The entries of one mapping. *)
Lemma protect_entries own u x :
  pages_ok own u → mapping_ok x →
  (change_each (prot_entry prot) (protect_pages prot x) u = Panicked ∧
   ∃ pn, pn ∈ protect_pages prot x ∧ user_root u pn = None) ∨
  ∃ u' own', change_each (prot_entry prot) (protect_pages prot x) u = Ret u' ∧ pages_ok own' u' ∧
    grows own u own' u' ∧
    ∀ pn, 0 ≤ pn → entry_protected (pn ∈ protect_pages prot x) (user_entry u pn) (user_entry u' pn).
Proof.
  intros Hu Hx. pose proof Hx as [X1 X2 X3 _].
  assert (∀ p, p ∈ protect_pages prot x → p ∈ mapping_range x) as Hsub.
  { intros p. unfold protect_pages. destruct (_ =? _); [| done]. by intros [_ ?]%list_elem_of_filter. }
  destruct (change_each_spec own u (protect_pages prot x) (prot_entry prot) Hu) as [[-> Hn] | (u' & own' & -> & Hu' & Hg & Hc)];
    [| | apply prot_entry_u | by left |].
  - apply Forall_forall. intros p Hp%Hsub. unfold mapping_range in Hp. rewrite mm_end_ok, elem_of_seqZ in Hp by done.
    unfold page_number. lia.
  - unfold protect_pages. destruct (_ =? _); [apply NoDup_filter |]; apply NoDup_seqZ.
  - right. exists u', own'. split_and!; try done. intros pn Hpn. destruct (Hc pn Hpn) as [Hout Hin].
    unfold entry_protected. destruct (decide (pn ∈ protect_pages prot x)) as [Hi | Hi]; [right | left]; auto.
Qed.

Lemma entry_protected_iff (t t' : Prop) e e' : (t ↔ t') → entry_protected t e e' → entry_protected t' e e'.
Proof. intros Hi [[? ?] | [? ?]]; [left | right]; split; tauto. Qed.

(** The middle part of a mapping. *)
Lemma parts_middle own u m s e :
  mapping_ok m → pages_ok own u → prot_range pagenum pages m = Some (s, e) →
  let '(front, m1) := split_front s m in
  let '(m2, back) := split_back e m1 in
  parts m = protect_piece prot m2 :: option_list front ++ option_list back ∧
  (protect_mapping prot m2 u = Panicked ∧ (∃ pn, touches m pn ∧ user_root u pn = None) ∨
   ∃ u' own', protect_mapping prot m2 u = Ret (Some (protect_piece prot m2), u') ∧ pages_ok own' u' ∧
     grows own u own' u' ∧ ∀ pn, 0 ≤ pn → entry_protected (touches m pn) (user_entry u pn) (user_entry u' pn)).
Proof.
  intros Hm Hu Hpr. pose proof (prot_range_spec pagenum pages m Hm Hstart Hpages Hend) as Hr.
  unfold protect_parts. rewrite Hpr in Hr |- *. destruct Hr as (R1 & R2 & R3 & R4).
  pose proof (split_front_spec s m Hm ltac:(lia)) as Hf. destruct (split_front s m) as [front m1].
  destruct Hf as (F1 & _ & F3 & F4 & _).
  pose proof (split_back_spec e m1 (pi_ok _ _ F1) ltac:(lia)) as Hb. destruct (split_back e m1) as [m2 back].
  destruct Hb as (B1 & _ & B3 & B4 & _). split; [done |]. rewrite protect_mapping_valid.
  assert (∀ pn, pn ∈ protect_pages prot m2 ↔ touches m pn) as Hpp.
  { intros pn. apply (protect_pages_elem m m2 s e); [done | by eapply piece_trans | congruence | done | done]. }
  destruct (protect_entries own u m2 Hu (pi_ok _ _ B1)) as [(-> & pn & Hpn & Hn) | (u' & own' & -> & Hu' & Hg & He)];
    [left; split; [done | exists pn; split; [by apply Hpp | done]] | right].
  exists u', own'. split_and!; try done. intros pn Hpn.
  eapply entry_protected_iff; [apply Hpp | by apply He].
Qed.

Lemma protect_loop_ok own u l :
  pages_ok own u → map_ok l →
  (protect_loop pagenum pages prot l u = Panicked ∧
   ∃ m pn, m ∈ l ∧ touches m pn ∧ user_root u pn = None) ∨
  ∃ l' new u' own', protect_loop pagenum pages prot l u = Ret (l', new, true, u') ∧ pages_ok own' u' ∧
    grows own u own' u' ∧ l' ++ new ≡ₚ l ≫= parts ∧
    ∀ pn, 0 ≤ pn → entry_protected (∃ m, m ∈ l ∧ touches m pn) (user_entry u pn) (user_entry u' pn).
Proof.
  revert own u. induction l as [| m l IH]; intros own u Hu [Hall Hap].
  { right. exists [], [], u, own. split_and!; try done; [by apply grows_same |]. intros pn _. left.
    split; [| done]. by intros (m & ?%elem_of_nil & _). }
  apply Forall_cons in Hall as [Hm Hall]. inversion Hap as [| ? ? Hmap Hap']; subst. rewrite Forall_forall in Hmap.
  assert (∀ m' pn, m' ∈ l → touches m pn → touches m' pn → False) as Hone.
  { intros m' pn Hm' (_ & C1 & _) (_ & C2 & _). destruct (Hmap m' Hm'); unfold mm_covers in *; lia. }
  cbn [protect_loop]. destruct (prot_range pagenum pages m) as [[s e] |] eqn:Hpr.
  - pose proof (parts_middle own u m s e Hm Hu Hpr) as Hmid. destruct (split_front s m) as [front m1].
    destruct (split_back e m1) as [m2 back].
    destruct Hmid as (Hparts & [(-> & pn & Ht & Hn) | (u1 & own1 & -> & Hu1 & Hg1 & He1)]).
    { left. split; [done |]. exists m, pn. split; [left | done]. }
    cbn [mbind outcome_bind].
    destruct (IH own1 u1 Hu1 (conj Hall Hap'))
      as [(-> & x & pn & Hx & Ht & Hn) | (l' & new & u2 & own2 & -> & Hu2 & Hg2 & Hp & He2)].
    { left. split; [done |]. exists x, pn. split_and!; [by right | done | by eapply root_grows]. }
    right. eexists _, _, u2, own2. split_and!; [done | done | by eapply grows_trans | |].
    + rewrite bind_cons, Hparts. cbn [app]. apply Permutation_cons; [done |].
      rewrite <- Hp. apply Permutation_app_swap_app.
    + intros pn Hpn. destruct (He1 pn Hpn) as [[N1 E1] | [T1 E1]], (He2 pn Hpn) as [[N2 E2] | [(m' & Hm' & T2) E2]].
      * left. split; [| congruence]. intros (x & [-> | Hx]%elem_of_cons & T); [done |]. apply N2. by exists x.
      * right. rewrite E1 in E2. split; [| done]. exists m'. split; [by right | done].
      * right. rewrite E2. split; [| done]. exists m. split; [left | done].
      * by destruct (Hone m' pn).
  - pose proof (prot_range_spec pagenum pages m Hm Hstart Hpages Hend) as Hr. rewrite Hpr in Hr.
    destruct (IH own u Hu (conj Hall Hap'))
      as [(-> & x & pn & Hx & Ht & Hn) | (l' & new & u2 & own2 & -> & Hu2 & Hg2 & Hp & He2)].
    { left. split; [done |]. exists x, pn. split_and!; [by right | done | done]. }
    right. exists (m :: l'), new, u2, own2. split_and!; try done.
    + rewrite bind_cons. unfold protect_parts at 1. rewrite Hpr. cbn [app].
      by apply Permutation_cons.
    + intros pn Hpn. eapply entry_protected_iff; [| by apply He2]. split.
      * intros (x & Hx & T). exists x. split; [by right | done].
      * intros (x & [-> | Hx]%elem_of_cons & T); [| by exists x]. destruct T as (Hi & Hc & _). by destruct (Hr pn Hc).
Qed.

End Loop.

(** * The pages of the range that are mapped *)

#[export] Instance mm_covers_dec m p : Decision (mm_covers m p).
Proof. unfold mm_covers. apply _. Defined.

Definition mapped (l : list MemMapping) (p : Z) : Prop := Exists (fun m => mm_covers m p) l.
#[export] Instance mapped_dec l p : Decision (mapped l p).
Proof. unfold mapped. apply _. Defined.

Lemma filter_or_length {X} (P Q R : X → Prop) `{∀ x, Decision (P x), ∀ x, Decision (Q x), ∀ x, Decision (R x)} (l : list X) :
  (∀ x, R x ↔ P x ∨ Q x) → (∀ x, P x → Q x → False) →
  length (filter R l) = (length (filter P l) + length (filter Q l))%nat.
Proof.
  intros HR Hno. induction l as [| x l IH]; [done |]. rewrite !filter_cons.
  destruct (decide (P x)) as [HP | HP], (decide (Q x)) as [HQ | HQ].
  - by destruct (Hno x HP HQ).
  - rewrite decide_True by (apply HR; by left). cbn. lia.
  - rewrite decide_True by (apply HR; by right). cbn. lia.
  - rewrite decide_False by (by rewrite HR; intros [|]). done.
Qed.

Lemma filter_agree {X} (P Q : X → Prop) `{∀ x, Decision (P x), ∀ x, Decision (Q x)} (l : list X) :
  (∀ x, x ∈ l → P x ↔ Q x) → filter P l = filter Q l.
Proof.
  intros HPQ. induction l as [| x l IH]; [done |]. rewrite !filter_cons, IH by (intros y Hy; apply HPQ; by right).
  pose proof (HPQ x ltac:(left)). destruct (decide (P x)), (decide (Q x)); tauto || done.
Qed.

Lemma filter_range_length a n s e :
  a ≤ s → s ≤ e → e ≤ a + n → Z.of_nat (length (filter (fun p => s ≤ p < e) (seqZ a n))) = e - s.
Proof.
  intros H1 H2 H3. assert (filter (fun p => s ≤ p < e) (seqZ a n) ≡ₚ seqZ s (e - s)) as ->.
  { apply NoDup_Permutation; [apply NoDup_filter, NoDup_seqZ | apply NoDup_seqZ |].
    intros p. rewrite list_elem_of_filter, !elem_of_seqZ. lia. }
  rewrite length_seqZ. lia.
Qed.

Section Covered.
Context (pagenum pages : Z).
Hypothesis Hstart : 0 ≤ pagenum.
Hypothesis Hpages : 1 ≤ pages.
Hypothesis Hend : pagenum + pages < 2 ^ 32.

Definition mapped_pages (l : list MemMapping) : Z :=
  Z.of_nat (length (filter (mapped l) (seqZ pagenum pages))).

Lemma mapped_pages_bound l : 0 ≤ mapped_pages l ≤ pages.
Proof.
  unfold mapped_pages. pose proof (length_filter (mapped l) (seqZ pagenum pages)) as Hl.
  rewrite length_seqZ in Hl. lia.
Qed.

Lemma mapped_pages_cons m l :
  mapping_ok m → Forall (apart m) l →
  mapped_pages (m :: l) =
  match prot_range pagenum pages m with Some (s, e) => e - s | None => 0 end + mapped_pages l.
Proof.
  intros Hm Hap. unfold mapped_pages. rewrite (filter_or_length (mm_covers m) (mapped l) (mapped (m :: l))).
  2: { intros p. unfold mapped. by rewrite Exists_cons. }
  2: { intros p Hc (m' & Hm' & Hc')%Exists_exists. rewrite Forall_forall in Hap.
       destruct (Hap m' Hm'); unfold mm_covers in *; lia. }
  rewrite Nat2Z.inj_add. f_equal. pose proof (prot_range_spec pagenum pages m Hm Hstart Hpages Hend) as Hr.
  destruct (prot_range pagenum pages m) as [[s e] |].
  - destruct Hr as (R1 & R2 & R3 & R4).
    pose proof (proj2 (R4 s ltac:(unfold mm_covers; lia)) ltac:(lia)) as Hs.
    pose proof (proj2 (R4 (e - 1) ltac:(unfold mm_covers; lia)) ltac:(lia)) as He. unfold in_range in Hs, He.
    rewrite <- (filter_range_length pagenum pages s e) by lia. f_equal. f_equal. apply filter_agree.
    intros p Hp%elem_of_seqZ. split; intros Hc.
    + apply R4; [done |]. unfold in_range. lia.
    + unfold mm_covers. lia.
  - assert (filter (mm_covers m) (seqZ pagenum pages) = []) as ->; [| done].
    apply elem_of_nil_inv. intros p [Hc Hp%elem_of_seqZ]%list_elem_of_filter. apply (Hr p Hc). unfold in_range. lia.
Qed.

Lemma covered_spec l : map_ok l → covered pagenum pages l = mapped_pages l.
Proof.
  intros Hl. unfold covered. rewrite <- (Z.add_0_l (mapped_pages l)). pose proof (mapped_pages_bound l) as Hb.
  enough (∀ n, 0 ≤ n ∧ n + mapped_pages l < 2 ^ 32 → foldl (fun n m => match prot_range pagenum pages m with
    | Some (s, e) => u32 (n + u32 (e - s)) | None => n end) n l = n + mapped_pages l) as Hfold by (apply Hfold; lia).
  clear Hb. revert Hl.
  induction l as [| m l IH]; intros [Hall Hap] n Hb; cbn [foldl].
  { unfold mapped_pages. rewrite (filter_agree _ (fun _ => False)); [| by intros x _; split; [intros ?%Exists_nil |]].
    assert (filter (fun _ : Z => False) (seqZ pagenum pages) = []) as ->; [| cbn; lia].
    apply elem_of_nil_inv. by intros p [? _]%list_elem_of_filter. }
  apply Forall_cons in Hall as [Hm Hall]. inversion Hap; subst. rewrite mapped_pages_cons in Hb |- * by done.
  pose proof (prot_range_spec pagenum pages m Hm Hstart Hpages Hend) as Hr. pose proof (mapped_pages_bound l) as Hl.
  pose proof Hm as [M1 M2 M3 _]. destruct (prot_range pagenum pages m) as [[s e] |].
  - destruct Hr as (R1 & R2 & R3 & _). rewrite (wrap_id 32 (e - s)), (wrap_id 32 (n + _)) by (unfold is_u; lia). rewrite IH; [lia | done | lia].
  - rewrite IH; [lia | done | lia].
Qed.

(** Whether all pages of the range are mapped. *)
Lemma covered_all l : map_ok l → covered pagenum pages l <? pages = false ↔ ∀ p, in_range pagenum (pagenum + pages) p → mapped l p.
Proof.
  intros Hl. rewrite covered_spec by done. unfold mapped_pages.
  pose proof (Permutation_length (filter_split (mapped l) (seqZ pagenum pages))) as Hlen.
  rewrite length_app, length_seqZ in Hlen. rewrite Z.ltb_ge. split.
  - intros Hle p Hp. destruct (decide (mapped l p)) as [| Hn]; [done |]. exfalso.
    assert (p ∈ filter (fun x => ¬ mapped l x) (seqZ pagenum pages)) as Hin.
    { apply list_elem_of_filter. rewrite elem_of_seqZ. unfold in_range in Hp. split; [done | lia]. }
    destruct (filter (fun x => ¬ mapped l x) _); [by apply elem_of_nil in Hin | cbn in Hlen; lia].
  - intros Hall. assert (filter (fun x => ¬ mapped l x) (seqZ pagenum pages) = []) as E; [| rewrite E in Hlen; cbn in Hlen; lia].
    apply elem_of_nil_inv. intros p [Hn Hp%elem_of_seqZ]%list_elem_of_filter. apply Hn, Hall. unfold in_range. lia.
Qed.

End Covered.

(** * The invariant *)

Section Protect.
Context {A : Type} `{FrameAllocatorLaws A}.
Context (others : Z → Prop) (other_refs : Z → nat) (cached : Z → Prop).
Context (pagenum pages prot : Z).
Hypothesis Hstart : 0 ≤ pagenum.
Hypothesis Hpages : 1 ≤ pages.
Hypothesis Hend : pagenum + pages < 2 ^ 32.
Hypothesis Hprot : valid_prot prot.
Implicit Types (v : address_space A) (own : places).
Abbreviation vm_ok := (vm_ok others other_refs cached).
Abbreviation records_ok := (records_ok others other_refs cached).
Abbreviation parts := (protect_parts pagenum pages prot).

(** What the code takes for granted: a page that is not to be accessed is not
    one that is shared by fork, and the pages of a file that are to be written
    are in memory. *)
Definition protect_safe (l : list MemMapping) : Prop :=
  (prot = PROT_NONE → ∀ p, p ∈ map_phys l → in_range pagenum (pagenum + pages) (pm_page p) → pm_cow p = None) ∧
  (prot = Z.lor PROT_READ PROT_WRITE → ∀ m pn, m ∈ l → mm_image m ≠ None → mm_covers m pn →
     in_range pagenum (pagenum + pages) pn → find_page pn (mm_mappings m) ≠ None).

Lemma parts_records l l' cows : map_ok l → l' ≡ₚ l ≫= parts → records_ok l cows → records_ok l' cows.
Proof.
  intros Hl Hp [Hfl Himg]. pose proof Hl as [Hall _]. split.
  - eapply flat_ok_perm; [| done]. rewrite <- (parts_phys pagenum pages prot Hstart Hpages Hend l Hall).
    unfold map_phys. by rewrite Hp.
  - intros x p Hx Hpx Hd. rewrite Hp in Hx. apply list_elem_of_bind in Hx as (m & Hx & Hm).
    rewrite Forall_forall in Hall. pose proof (protect_parts_ok pagenum pages prot Hstart Hpages Hend m (Hall m Hm)) as Hparts.
    rewrite (pi_image m x (pa_piece _ _ _ _ _ Hparts x Hx)). eapply (Himg m p); [done | | done].
    rewrite (pa_records _ _ _ _ _ Hparts). apply list_elem_of_bind. by exists x.
Qed.

Lemma record_unique (ps : list PhysMapping) p q :
  NoDup (pm_page <$> ps) → p ∈ ps → q ∈ ps → pm_page p = pm_page q → p = q.
Proof.
  intros Hnd [k Hk]%elem_of_Permutation Hq E. rewrite Hk in Hnd, Hq. apply NoDup_cons in Hnd as [Hnd _].
  apply elem_of_cons in Hq as [-> | Hq]; [done |]. destruct Hnd. rewrite E. by apply list_elem_of_fmap_2.
Qed.

(** A page that is touched with write access is nobody else's. *)
Lemma touched_private l cows m pn p :
  records_ok l cows → m ∈ l → touches pagenum pages prot m pn → prot = Z.lor PROT_READ PROT_WRITE →
  p ∈ mm_mappings m → pm_page p = pn → is_shared p = false.
Proof.
  intros [Hfl _] Hm (_ & _ & Hw) E Hp Hpg. specialize (Hw E). unfold writes_now in Hw.
  destruct (find_page pn (mm_mappings m)) as [q |] eqn:Hq.
  - apply find_page_spec in Hq as [Hq Hqg]. apply andb_true_iff in Hw as [Hw _]. apply negb_true_iff in Hw.
    assert (p = q) as ->; [| done].
    apply (record_unique (map_phys l)); [apply Hfl | | | congruence]; apply elem_of_map_phys; by exists m.
  - by destruct (find_page_none _ _ Hq p Hp).
Qed.

Lemma entry_zero : ¬ entry_present 0.
Proof. done. Qed.

(** The entry of a page afterwards: present only if it was, with the same page
    behind, and writeable only if it was or if it was asked for. *)
Lemma entry_protected_spec t e e' :
  entry_protected prot t e e' →
  (entry_present e' → entry_present e ∧ below_addr e' = below_addr e) ∧
  (entry_present e → prot ≠ PROT_NONE ∨ ¬ t → entry_present e') ∧
  (entry_writeable e' → entry_writeable e ∧ ¬ t ∨ prot = Z.lor PROT_READ PROT_WRITE ∧ t).
Proof.
  intros [[Hn ->] | [Ht [-> | [-> ->]]]]; [by auto | | by split_and!].
  destruct (prot_entry_spec prot e Hprot) as (P1 & P2 & P3). unfold entry_present, entry_writeable. rewrite P1, P2, P3.
  split_and!.
  - destruct (_ =? _); [done |]. done.
  - intros He [Hne | ?]; [| done]. by rewrite (proj2 (Z.eqb_neq _ _) Hne).
  - destruct (Z.eqb_spec prot (Z.lor PROT_READ PROT_WRITE)); [by right | done].
Qed.

Lemma protect_entries_ok l l' cows (ent ent' : Z → Z) :
  map_ok l → l' ≡ₚ l ≫= parts → records_ok l cows → entries_ok l ent → protect_safe l →
  (∀ pn, 0 ≤ pn → entry_protected prot (∃ m, m ∈ l ∧ touches pagenum pages prot m pn) (ent pn) (ent' pn)) →
  entries_ok l' ent'.
Proof.
  intros Hl Hp Hr [E1 E2 E3] [Hsn Hsw] Hent. pose proof Hl as [Hall _].
  assert (map_phys l' ≡ₚ map_phys l) as Hph.
  { rewrite <- (parts_phys pagenum pages prot Hstart Hpages Hend l Hall). unfold map_phys. by rewrite Hp. }
  rewrite Forall_forall in Hall.
  assert (∀ m pn, m ∈ l → mm_covers m pn → 0 ≤ pn) as Hpos.
  { intros m pn Hm Hc. destruct (Hall m Hm) as [M1 _ _ _]. unfold mm_covers in Hc. lia. }
  split.
  - intros pn Hpn Hpr. destruct (entry_protected_spec _ _ _ (Hent pn Hpn)) as (S1 & _ & S3).
    destruct (S1 Hpr) as [Hpr' Eb]. destruct (E1 pn Hpn Hpr') as (p & Hpl & Hpg & Hb & Hw). exists p.
    split_and!; [by rewrite Hph | done | congruence |]. intros Hwr.
    destruct (S3 Hwr) as [[? _] | [Erw (m & Hm & Ht)]]; [by apply Hw |].
    apply elem_of_map_phys in Hpl as (m' & Hm' & Hpm). assert (m = m') as <-.
    { apply (map_ok_unique l m m' pn Hl Hm Hm'); [apply Ht |]. rewrite <- Hpg. by apply (record_covered l). }
    by apply (touched_private l cows m pn p Hr Hm Ht Erw Hpm).
  - intros p Hpl Hc. rewrite Hph in Hpl. pose proof Hpl as (m & Hm & Hpm)%elem_of_map_phys.
    pose proof (Hpos m _ Hm (record_covered l m p Hl Hm Hpm)) as Hpn.
    destruct (entry_protected_spec _ _ _ (Hent _ Hpn)) as (_ & S2 & _). apply S2; [by apply E2 |].
    destruct (decide (prot = PROT_NONE)) as [En |]; [right | by left].
    intros (m' & _ & Hin & _). by apply Hc, Hsn.
  - intros x pn Hx Himg Hc Hsh Hwr. rewrite Hp in Hx. apply list_elem_of_bind in Hx as (m & Hx & Hm).
    pose proof (pa_piece _ _ _ _ _ (protect_parts_ok pagenum pages prot Hstart Hpages Hend m (Hall m Hm)) x Hx) as Hpi.
    assert (mm_covers m pn) as Hcm by (destruct Hpi; unfold mm_covers in *; lia). rewrite (pi_image m x Hpi) in Himg.
    assert (∀ p, p ∈ mm_mappings m → pm_page p = pn → is_shared p = true) as Hsh'.
    { intros p Hpm Hpg. apply Hsh; [| done]. pose proof (pi_entries m x Hpi pn Hc) as E. unfold page_entries in E.
      assert (p ∈ filter (fun e => pm_page e = pn) (mm_mappings m)) as Hf by (by apply list_elem_of_filter).
      rewrite <- E in Hf. by apply list_elem_of_filter in Hf as [_ ?]. }
    destruct (entry_protected_spec _ _ _ (Hent pn (Hpos m pn Hm Hcm))) as (_ & _ & S3).
    destruct (S3 Hwr) as [[Hw _] | [Erw (m' & Hm' & Ht)]]; [by apply (E3 m pn) |].
    assert (m' = m) as -> by (apply (map_ok_unique l m' m pn Hl Hm' Hm); [apply Ht | done]).
    destruct (find_page pn (mm_mappings m)) as [p |] eqn:Hf; [| by apply (Hsw Erw m pn Hm Himg Hcm (proj1 Ht))].
    apply find_page_spec in Hf as [Hpm Hpg]. pose proof (touched_private l cows m pn p Hr Hm Ht Erw Hpm Hpg) as Hn.
    by rewrite Hsh' in Hn.
Qed.

(** The entry of page [pn] and the mapping [x] that has it afterwards. *)
Record page_protected v v' (m x : MemMapping) (pn : Z) : Prop := {
  pp_piece : piece_of m x;
  pp_access : part_access pagenum pages prot m x pn;
  pp_outside : ¬ in_range pagenum (pagenum + pages) pn → entry_of v' pn = entry_of v pn;
  pp_present : in_range pagenum (pagenum + pages) pn →
    (entry_present (entry_of v' pn) ↔ entry_present (entry_of v pn) ∧ prot ≠ PROT_NONE);
  pp_readonly : in_range pagenum (pagenum + pages) pn → prot ≠ Z.lor PROT_READ PROT_WRITE →
    ¬ entry_writeable (entry_of v' pn);
  pp_writeable : in_range pagenum (pagenum + pages) pn → prot = Z.lor PROT_READ PROT_WRITE →
    entry_present (entry_of v pn) → entry_writeable (entry_of v' pn) ∨ mm_cow x = true;
  pp_read : entry_present (entry_of v' pn) → user_read v' pn = user_read v pn
}.

Lemma page_protected_intro own v l' u' m x pn :
  vm_ok own v → let v' := set_pages u' (set_map l' v) in
  m ∈ as_map v → mm_covers m pn → 0 ≤ pn → piece_of m x → part_access pagenum pages prot m x pn →
  entry_protected prot (∃ m, m ∈ as_map v ∧ touches pagenum pages prot m pn) (entry_of v pn) (entry_of v' pn) →
  page_protected v v' m x pn.
Proof.
  intros [V1 V2 V3 V4 V5 V6] v' Hm Hc Hpn Hpi Hacc He. 
  destruct (entry_protected_spec _ _ _ He) as (S1 & S2 & S3).
  assert (∀ m', m' ∈ as_map v → touches pagenum pages prot m' pn → m' = m) as Honly.
  { intros m' Hm' T. apply (map_ok_unique (as_map v) m' m pn V2 Hm' Hm); [apply T | done]. }
  assert (prot ≠ Z.lor PROT_READ PROT_WRITE → in_range pagenum (pagenum + pages) pn → touches pagenum pages prot m pn) as Htm
    by (intros; by split_and!).
  split; [done | done | | | | |].
  - intros Hout. destruct He as [[_ E] | [(m' & _ & Hin & _) _]]; done.
  - intros Hin. split.
    + intros Hp. split; [by apply S1 |]. intros ->. destruct He as [[Hn _] | [_ [E | [_ E]]]].
      * apply Hn. exists m. split; [done |]. by apply Htm.
      * rewrite E in Hp. destruct (prot_entry_spec PROT_NONE (entry_of v pn) Hprot) as (P1 & _).
        unfold entry_present in Hp. by rewrite P1 in Hp.
      * by rewrite E in Hp.
    + intros [Hp Hne]. apply S2; [done | by left].
  - intros Hin Hne Hw. destruct (S3 Hw) as [[_ Hn] | [? _]]; [| done]. apply Hn. exists m. split; [done | by apply Htm].
  - intros Hin Erw Hp. unfold part_access in Hacc. rewrite decide_True in Hacc by done.
    destruct Hacc as (_ & _ & Hcow). destruct (shares_page (mm_mappings m) pn) eqn:Hsh; [right; by apply Hcow | left].
    destruct (eo_present _ _ V6 pn Hpn Hp) as (p & (m' & Hm' & Hpm)%elem_of_map_phys & Hpg & Hb & _).
    assert (m' = m) as ->.
    { apply (map_ok_unique (as_map v) m' m pn V2 Hm' Hm); [| done]. rewrite <- Hpg. by apply (record_covered (as_map v)). }
    destruct He as [[Hn _] | [_ [E | [E _]]]].
    + destruct Hn. exists m. split; [done |]. split; [done |]. split; [done |]. intros _.
      unfold writes_now, shares_page in *. destruct (find_page pn (mm_mappings m)) as [q |] eqn:Hq; [| done].
      rewrite Hsh. cbn. apply find_page_spec in Hq as [Hq _]. apply negb_true_iff, Z.eqb_neq.
      assert (q ∈ map_phys (as_map v)) as Hql by (apply elem_of_map_phys; by exists m).
      destruct (V4 q Hql) as (Hf & _). unfold backing in Hf. unfold is_shared in Hsh.
      destruct (pm_data q), (pm_cow q); try done. by apply frame_not_0.
    + rewrite E. destruct (prot_entry_spec prot (entry_of v pn) Hprot) as (_ & P2 & _). unfold entry_writeable.
      by rewrite P2, Erw.
    + by rewrite E in Hp.
  - intros Hp. destruct (S1 Hp) as [Hp' Eb]. unfold user_read. rewrite Eb, Hp, Hp'. done.
Qed.

Lemma mapped_find l p : map_ok l → mapped l p ↔ find_mapping p l ≠ None.
Proof.
  intros Hl. unfold mapped. rewrite Exists_exists. split.
  - intros (m & Hm & Hc). rewrite (proj2 (find_mapping_spec p l m Hl)); done.
  - destruct (find_mapping p l) as [m |] eqn:E; [| done]. intros _. exists m. by apply find_mapping_spec.
Qed.

Lemma unmapped_page l :
  ¬ (∀ p, in_range pagenum (pagenum + pages) p → mapped l p) → ∃ p, in_range pagenum (pagenum + pages) p ∧ ¬ mapped l p.
Proof.
  intros Hn. destruct (filter (fun p => ¬ mapped l p) (seqZ pagenum pages)) as [| p ps] eqn:E.
  - destruct Hn. intros p Hp. destruct (decide (mapped l p)) as [| Hnm]; [done |].
    assert (p ∈ filter (fun p => ¬ mapped l p) (seqZ pagenum pages)) as Hin.
    { apply list_elem_of_filter. split; [done |]. apply elem_of_seqZ. unfold in_range in Hp. lia. }
    rewrite E in Hin. by apply elem_of_nil in Hin.
  - exists p. assert (p ∈ filter (fun p => ¬ mapped l p) (seqZ pagenum pages)) as Hin by (rewrite E; left).
    apply list_elem_of_filter in Hin as [Hnm Hp%elem_of_seqZ]. by split.
Qed.


End Protect.

(** * Examples *)

Definition returns {R} (r : outcome (Z * R)) (n : Z) : bool := match r with Ret (x, _) => x =? n | _ => false end.

Lemma returns_spec {R} (r : outcome (Z * R)) n : returns r n = true → r ≠ Panicked ∧ ∀ x y, r = Ret (x, y) → x = n.
Proof. destruct r as [[x y] | | |]; try done. intros E%Z.eqb_eq. split; [done |]. by intros ? ? [= -> ->]. Qed.


Definition none_space := space_after (Protect (2 ^ 31) 4 PROT_NONE anon_space).
Definition reopened_space := space_after (Protect (2 ^ 31) 1 PROT_READ none_space).

(** mprotect of the first of four pages that must not be accessed opens the
    three behind it as well: an access to the second page, which was refused,
    then gets memory.  The part behind the range is made by MemMapping::Create,
    which sets read. *)
Theorem protect_opens_pages_behind :
  returns (Protect (2 ^ 31) 4 PROT_NONE anon_space) 0 = true ∧
  returns (Protect (2 ^ 31) 1 PROT_READ none_space) 0 = true ∧
  sync_resolve_page (2 ^ 43 + 4096) none_space = Ret (false, none_space) ∧
  succeeds (sync_resolve_page (2 ^ 43 + 4096) reopened_space) = true.
Proof. split_and!; by vm_compute. Qed.
