(* ===== verification/ProcFork.v ===== *)
(** fork (Process::Clone, Process::WriteProtectCow): parent and child show the
    memory of before, share it until one of them writes, and count who uses it. *)
From S2P Require Import Prelude BitField PageEntry VPageAlloc PhysPageMap PPageAlloc Frames ProcMem ProcPages ProcPagesTheorems ProcVm ProcFault ProcVmInv ProcVmExamples ProcFaultInv ProcFaultTheorems ProcProtect.

Local Open Scope Z_scope.

(** * Entries *)

Section Entries.
Context {A : Type} `{FrameAllocatorLaws A}.
Implicit Types (u : user_pages A) (own : places).

Lemma get_Pageentry_any own u pn :
  pages_ok own u → page_number pn →
  get_Pageentry pn u = Ret (if leaf_table u pn then Some (user_entry u pn) else None).
Proof.
  intros Hu Hp. destruct (decide (user_page pn)) as [Hus | Hus]; [by eapply get_Pageentry_spec |].
  pose proof (not_user_page pn Hp Hus). assert (leaf_table u pn = None) as ->.
  { unfold leaf_table, user_root. rewrite low_page_spec by lia. rewrite (proj2 (Z.ltb_lt _ _)) by lia.
    destruct (find_root _ _) as [r |] eqn:E; [| done]. apply find_root_spec in E as [Hin Ha].
    destruct (ro_low _ _ _ (pg_roots _ _ Hu) r Hin) as [_ Hr]. rewrite Ha in Hr.
    assert (3 ≤ Z.shiftr pn 18) by (rewrite Z.shiftr_div_pow2 by lia; apply Z.div_le_lower_bound; lia). lia. }
  unfold get_Pageentry. fold (low_page pn). rewrite low_page_spec by lia. rewrite (proj2 (Z.ltb_lt _ _)) by lia.
  assert (3 ≤ Z.shiftr pn 18) by (rewrite Z.shiftr_div_pow2 by lia; apply Z.div_le_lower_bound; lia).
  by rewrite (proj2 (Z.leb_le _ _)).
Qed.

Definition read_only (e : Z) : Z := bf_set pe_writeable 0 e.

Lemma read_only_u : preserves_u64 read_only.
Proof. intros e [He _]. by apply set_is_u. Qed.

Lemma read_only_spec e :
  bf_get pe_present (read_only e) = bf_get pe_present e ∧ bf_get pe_writeable (read_only e) = 0 ∧
  below_addr (read_only e) = below_addr e.
Proof. unfold read_only, below_addr. split_and!; by fields. Qed.

(** The entries of the pages in [ps] become read only. *)
Definition made_read_only (ps : list Z) u u' : Prop :=
  ∀ pn, 0 ≤ pn → user_entry u' pn = if decide (pn ∈ ps) then read_only (user_entry u pn) else user_entry u pn.

Lemma write_protect_spec own u pn :
  pages_ok own u → page_number pn →
  (write_protect pn u = Panicked ∧ user_root u pn = None) ∨
  ∃ u' own', write_protect pn u = Ret (bf_flag pe_writeable (user_entry u pn), u') ∧
    pages_ok own' u' ∧ grows own u own' u' ∧ made_read_only [pn] u u'.
Proof.
  intros Hu Hp. unfold write_protect. rewrite (get_Pageentry_any own) by done. cbn [mbind outcome_bind].
  change (bf_set pe_writeable 0) with (fun e => read_only e). change (fun e => read_only e) with read_only.
  destruct (Pageentry_any own u pn read_only Hu Hp read_only_u)
    as [(-> & Hn & _) | (b & u' & own' & -> & Hu' & Hg & Hb & He)]; [by left | right].
  cbn [mbind outcome_bind]. exists u', own'. split_and!; [| done | done |].
  - destruct (leaf_table u pn) eqn:E; [done |]. by rewrite (leaf_none u pn E).
  - intros pn' Hpn'. rewrite He by done. destruct (decide (pn' ∈ [pn])) as [->%list_elem_of_singleton | Hne].
    + rewrite bool_decide_true, andb_true_r by done. destruct b; [done |]. by rewrite (Hb eq_refl).
    + rewrite bool_decide_false, andb_false_r; [done |]. intros ->. apply Hne. left.
Qed.

Lemma user_entry_u64 own u pn : pages_ok own u → is_u 64 (user_entry u pn).
Proof.
  intros Hu. unfold user_entry, entry_at. destruct (user_root u pn) as [r |] eqn:Hr; [| by unfold is_u].
  pose proof (user_root_own _ _ _ _ Hu Hr) as Ho. destruct (walk _ _ _) as [t |] eqn:Hw; [| by unfold is_u].
  pose proof (walk_own _ _ (pg_tree _ _ Hu) _ _ _ _ _ Ho eq_refl (page_path_ok pn) Hw) as Ht.
  destruct (tr_table _ _ (pg_tree _ _ Hu) _ _ Ht) as (_ & l & Hl & [_ Hall]). rewrite Hl. cbn.
  destruct (l !! _) as [e |] eqn:He; [by eapply Forall_lookup_1 | by unfold is_u].
Qed.

(** A copy of the entries of [parent], where there is memory for the tables. *)
Definition copied_entries (parent : user_pages A) (ps : list Z) u u' : Prop :=
  ∀ pn, 0 ≤ pn → user_entry u' pn = user_entry u pn ∨ pn ∈ ps ∧ user_entry u' pn = user_entry parent pn.

(** While the entries are copied there is no frame left for a table. *)
Definition copy_stuck (parent : user_pages A) (ps : list Z) u : Prop :=
  ∃ ps1 u1, ps1 `prefix_of` ps ∧ copy_entries parent ps1 u = Ret u1 ∧ no_frame u1.

Lemma copy_stuck_cons pown parent p ps u u1 :
  pages_ok pown parent → page_number p →
  match leaf_table parent p with
  | Some _ => ∃ b, Pageentry p (fun _ => user_entry parent p) u = Ret (b, u1)
  | None => u1 = u
  end → copy_stuck parent ps u1 → copy_stuck parent (p :: ps) u.
Proof.
  intros Hpa Hp E (ps1 & u2 & Hpre & Hc & Hno). exists (p :: ps1), u2. split; [by apply prefix_cons |]. split; [| done].
  cbn [copy_entries]. rewrite (get_Pageentry_any pown) by done. cbn [mbind outcome_bind].
  destruct (leaf_table parent p); [| by subst u1]. destruct E as [b ->]. done.
Qed.

Lemma Pageentry_no_frame own u pn f u' :
  pages_ok own u → user_page pn → preserves_u64 f → Pageentry pn f u = Ret (false, u') → no_frame u'.
Proof.
  intros Hu Hus Hf E.
  assert (pageentry_done own u pn f (Pageentry pn f u)) as [(E' & _) | (b & u1 & own1 & E' & _ & _ & Hb & _)].
  { destruct (low_page pn) eqn:?; [by apply Pageentry_low | by apply Pageentry_high]. }
  - congruence.
  - rewrite E in E'. injection E' as <- <-. by apply Hb.
Qed.

Lemma copy_entries_spec pown parent own u ps :
  pages_ok pown parent → pages_ok own u → Forall page_number ps →
  (copy_entries parent ps u = Panicked ∧ copy_stuck parent ps u) ∨
  ∃ u' own', copy_entries parent ps u = Ret u' ∧ pages_ok own' u' ∧ grows own u own' u' ∧
    copied_entries parent ps u u' ∧
    (copy_stuck parent ps u ∨
     ∀ pn, pn ∈ ps → user_page pn → leaf_table parent pn ≠ None → user_entry u' pn = user_entry parent pn).
Proof.
  intros Hpa. revert own u. induction ps as [| p ps IH]; intros own u Hu Hw.
  { right. exists u, own. split_and!; [done | done | by apply grows_same | |]; [intros pn _; by left |].
    right. by intros pn ?%elem_of_nil. }
  apply Forall_cons in Hw as [Hp Hw]. pose proof (fun u1 => copy_stuck_cons pown parent p ps u u1 Hpa Hp) as Hst.
  cbn [copy_entries]. rewrite (get_Pageentry_any pown) by done.
  cbn [mbind outcome_bind]. destruct (leaf_table parent p) as [t |] eqn:Hl; [| specialize (Hst u eq_refl)].
  - assert (preserves_u64 (fun _ => user_entry parent p)) as Hpu by (intros e _; by eapply user_entry_u64).
    destruct (Pageentry_any own u p (fun _ => user_entry parent p) Hu Hp Hpu)
      as [(-> & _ & Hno) | (b & u1 & own1 & E & Hu1 & Hg1 & Hb & He)].
    { left. split; [done |]. exists [], u. split_and!; [apply prefix_nil | done | done]. }
    specialize (Hst u1 (ex_intro _ b E)). rewrite E. cbn [mbind outcome_bind].
    destruct (IH own1 u1 Hu1 Hw) as [[-> Ho] | (u2 & own2 & -> & Hu2 & Hg2 & Hc & Hd)]; [left; split; [done | by apply Hst] | right].
    exists u2, own2. split_and!; [done | done | by eapply grows_trans | |].
    + intros pn Hpn. destruct (Hc pn Hpn) as [E' | [Hin E']]; [| right; split; [by right | done]].
      rewrite E', He by done. destruct b; cbn [andb]; [| by left].
      destruct (bool_decide_reflect (pn = p)) as [-> |]; [right; split; [left | done] | by left].
    + destruct Hd as [Hd | Hd]; [left; by apply Hst |]. destruct b.
      2: { destruct (decide (user_page p)) as [Hus | Hus].
           - left. apply Hst. exists [], u1. split_and!; [apply prefix_nil | done |].
             by apply (Pageentry_no_frame own u p (fun _ => user_entry parent p)).
           - right. intros pn [-> | Hin]%elem_of_cons Hus' Hlf; [done | by apply Hd]. }
      right. intros pn [-> | Hin]%elem_of_cons Hus Hlf; [| by apply Hd].
      destruct Hp as [Hp0 _]. destruct (Hc p Hp0) as [-> | [Hin ->]]; [| done].
      rewrite He by done. by rewrite bool_decide_true.
  - destruct (IH own u Hu Hw) as [[-> Ho] | (u2 & own2 & -> & Hu2 & Hg2 & Hc & Hd)]; [left; split; [done | by apply Hst] | right].
    exists u2, own2. split_and!; try done.
    + intros pn Hpn. destruct (Hc pn Hpn) as [E | [Hin E]]; [by left | right; split; [by right | done]].
    + destruct Hd as [Hd | Hd]; [left; by apply Hst | right]. intros pn [-> | Hin]%elem_of_cons Hus Hlf; [done | by apply Hd].
Qed.

End Entries.

(** * Records *)

(** A page of the process becomes one that is shared by fork. *)
Definition fork_record (p : PhysMapping) : PhysMapping :=
  if negb (pm_phys_page p =? 0) && negb (is_shared p)
  then PhysMap (pm_data p) (Some (pm_phys_page p)) 0 (pm_page p) else p.

(** The counts of the shared pages, with the record of the child. *)
Definition fork_count (c : gmap Z nat) (p : PhysMapping) : gmap Z nat :=
  if negb (pm_phys_page p =? 0) && negb (is_shared p) then <[pm_phys_page p := 2%nat]> c
  else match pm_cow p with Some x => <[x := S (default 0%nat (c !! x))]> c | None => c end.

Definition fork_mapping (m : MemMapping) : MemMapping := with_mappings m (fork_record <$> mm_mappings m).

Lemma share_page_spec was p c :
  was || is_shared p = true → share_page was p c = (fork_record p, Some (fork_record p), fork_count c p).
Proof.
  intros E. unfold share_page. rewrite E. unfold fork_record, fork_count.
  destruct (negb (pm_phys_page p =? 0) && negb (is_shared p)); [| done]. cbn [pm_cow].
  by rewrite lookup_insert_eq, insert_insert_eq.
Qed.

Lemma made_read_only_app {A} `{FrameAllocatorLaws A} (u u1 u2 : user_pages A) ps qs :
  made_read_only ps u u1 → made_read_only qs u1 u2 → (∀ p, p ∈ ps → p ∉ qs) → made_read_only (ps ++ qs) u u2.
Proof.
  intros H1 H2 Hno pn Hpn. rewrite H2, H1 by done.
  destruct (decide (pn ∈ qs)) as [Hq | Hq], (decide (pn ∈ ps)) as [Hp | Hp].
  - by destruct (Hno pn Hp).
  - rewrite decide_True; [done |]. apply elem_of_app. by right.
  - rewrite decide_True; [done |]. apply elem_of_app. by left.
  - rewrite decide_False; [done |]. by intros [? | ?]%elem_of_app.
Qed.

Section Shared.
Context {A : Type} `{FrameAllocatorLaws A}.
Implicit Types (u : user_pages A) (own : places).

(** Every page of the process alone can be written. *)
Definition all_writeable (ps : list PhysMapping) u : Prop :=
  ∀ p, p ∈ ps → is_shared p = false → bf_flag pe_writeable (user_entry u (pm_page p)) = true.

Lemma share_pages_spec own u c ps :
  pages_ok own u → Forall (fun p => page_number (pm_page p)) ps → NoDup (pm_page <$> ps) → all_writeable ps u →
  (share_pages ps u c = Panicked ∧ ∃ p, p ∈ ps ∧ user_root u (pm_page p) = None) ∨
  ∃ u' own', share_pages ps u c = Ret (fork_record <$> ps, fork_record <$> ps, u', foldl fork_count c ps) ∧
    pages_ok own' u' ∧ grows own u own' u' ∧ made_read_only (pm_page <$> ps) u u'.
Proof.
  revert own u c. induction ps as [| p ps IH]; intros own u c Hu Hpn Hnd Hw.
  { right. exists u, own. split_and!; [done | done | by apply grows_same |]. intros pn _. done. }
  apply Forall_cons in Hpn as [Hp Hpn]. cbn in Hnd. apply NoDup_cons in Hnd as [Hnp Hnd]. cbn [share_pages].
  destruct (write_protect_spec own u (pm_page p) Hu Hp) as [[-> Hn] | (u1 & own1 & -> & Hu1 & Hg1 & He1)].
  { left. split; [done |]. exists p. split; [left | done]. }
  cbn [mbind outcome_bind]. rewrite share_page_spec.
  2: { destruct (is_shared p) eqn:E; [by rewrite orb_true_r | rewrite orb_false_r; by apply Hw; [left |]]. }
  assert (∀ q, q ∈ ps → 0 ≤ pm_page q ∧ pm_page q ∉ [pm_page p]) as Hq.
  { intros q Hq. rewrite Forall_forall in Hpn. split; [apply (Hpn q Hq) |]. intros E%list_elem_of_singleton.
    apply Hnp. rewrite <- E. by apply list_elem_of_fmap_2. }
  destruct (IH own1 u1 (fork_count c p) Hu1 Hpn Hnd) as [(-> & q & Hqp & Hn) | (u2 & own2 & -> & Hu2 & Hg2 & He2)].
  - intros q Hqp Hsh. destruct (Hq q Hqp). rewrite He1, decide_False by done. apply Hw; [by right | done].
  - left. split; [done |]. exists q. split; [by right | by eapply root_grows].
  - right. exists u2, own2. split_and!; [done | done | by eapply grows_trans |].
    apply (made_read_only_app u u1 u2 [pm_page p]); [done | done |]. by intros x ->%list_elem_of_singleton.
Qed.

Lemma WriteProtectCow_spec own u c l :
  pages_ok own u → Forall (fun p => page_number (pm_page p)) (map_phys l) → NoDup (pm_page <$> map_phys l) →
  all_writeable (map_phys l) u →
  (WriteProtectCow l u c = Panicked ∧ ∃ p, p ∈ map_phys l ∧ user_root u (pm_page p) = None) ∨
  ∃ u' own', WriteProtectCow l u c =
      Ret (fork_mapping <$> l, fork_mapping <$> l, u', foldl fork_count c (map_phys l)) ∧
    pages_ok own' u' ∧ grows own u own' u' ∧ made_read_only (pm_page <$> map_phys l) u u'.
Proof.
  revert own u c. induction l as [| m l IH]; intros own u c Hu Hpn Hnd Hw.
  { right. exists u, own. split_and!; [done | done | by apply grows_same |]. intros pn _. done. }
  change (map_phys (m :: l)) with (mm_mappings m ++ map_phys l) in *. rewrite fmap_app in Hnd |- *.
  apply Forall_app in Hpn as [Hpm Hpl]. apply NoDup_app in Hnd as (Hnm & Hno & Hnl). cbn [WriteProtectCow].
  destruct (share_pages_spec own u c (mm_mappings m) Hu Hpm Hnm) as [(-> & q & Hq & Hn) | (u1 & own1 & -> & Hu1 & Hg1 & He1)].
  { intros p Hp. apply Hw. apply elem_of_app. by left. }
  { left. split; [done |]. exists q. split; [apply elem_of_app; by left | done]. }
  cbn [mbind outcome_bind].
  destruct (IH own1 u1 (foldl fork_count c (mm_mappings m)) Hu1 Hpl Hnl) as [(-> & q & Hq & Hn) | (u2 & own2 & -> & Hu2 & Hg2 & He2)].
  - intros p Hp Hsh. rewrite Forall_forall in Hpl. rewrite He1 by apply (Hpl p Hp). rewrite decide_False.
    + apply Hw; [apply elem_of_app; by right | done].
    + intros Hin. apply (Hno _ Hin). by apply list_elem_of_fmap_2.
  - left. split; [done |]. exists q. split; [apply elem_of_app; by right | by eapply root_grows].
  - right. exists u2, own2. rewrite foldl_app. split_and!; [done | done | by eapply grows_trans |].
    by apply (made_read_only_app u u1 u2).
Qed.

End Shared.

(** * The counts *)

Lemma fork_count_shared (ps : list PhysMapping) c x :
  (∀ p, p ∈ ps → is_shared p = false → pm_phys_page p ≠ x) →
  foldl fork_count c ps !! x =
    if decide (cow_refs x ps = 0%nat) then c !! x else Some (default 0 (c !! x) + cow_refs x ps)%nat.
Proof.
  revert c. induction ps as [| p ps IH]; intros c Hp; [done |]. cbn [foldl].
  rewrite IH by (intros q Hq; apply Hp; by right). rewrite cow_refs_cons. unfold fork_count.
  destruct (negb (pm_phys_page p =? 0) && negb (is_shared p)) eqn:E.
  - apply andb_true_iff in E as [_ Hsh%negb_true_iff]. rewrite lookup_insert_ne by (apply Hp; [left | done]).
    rewrite (decide_False (P := pm_cow p = Some x)); [done |]. unfold is_shared in Hsh. destruct (pm_data p), (pm_cow p); done.
  - destruct (pm_cow p) as [y |]; [| by rewrite (decide_False (P := None = Some x))].
    destruct (decide (y = x)) as [-> | Hne].
    + rewrite lookup_insert_eq, (decide_True (P := Some x = Some x)) by done. cbn [default].
      rewrite (decide_False (P := (1 + cow_refs x ps)%nat = 0%nat)) by lia.
      case_decide as E'; [rewrite E' |]; f_equal; cbn; lia.
    + rewrite lookup_insert_ne, (decide_False (P := Some y = Some x)) by congruence. done.
Qed.

Lemma cow_refs_zero x ps : (∀ p, p ∈ ps → pm_cow p ≠ Some x) → cow_refs x ps = 0%nat.
Proof.
  intros Hp. unfold cow_refs. assert (filter (fun p => pm_cow p = Some x) ps = []) as ->; [| done].
  apply elem_of_nil_inv. intros p [E Hin]%list_elem_of_filter. by apply (Hp p).
Qed.

Lemma fork_record_page p : pm_page (fork_record p) = pm_page p.
Proof. unfold fork_record. by destruct (_ && _). Qed.

Lemma fork_record_data p : pm_data (fork_record p) = pm_data p.
Proof. unfold fork_record. by destruct (_ && _). Qed.

Lemma fork_record_backing p : backing (fork_record p) = backing p.
Proof.
  unfold fork_record, is_shared. destruct (negb (pm_phys_page p =? 0)), p as [[d |] [x |] ph pg]; done.
Qed.

Lemma fork_record_shared p : is_shared p = true → fork_record p = p.
Proof. intros E. unfold fork_record. by rewrite E, andb_false_r. Qed.

Lemma fork_record_private p :
  is_shared p = false → pm_phys_page p ≠ 0 → fork_record p = PhysMap None (Some (pm_phys_page p)) 0 (pm_page p).
Proof.
  intros E Hne. unfold fork_record. rewrite E, (proj2 (Z.eqb_neq _ _) Hne). cbn. f_equal.
  unfold is_shared in E. by destruct (pm_data p).
Qed.

Section Counts.
Context (others : Z → Prop) (other_refs : Z → nat) (cached : Z → Prop).
Context (ps : list PhysMapping) (cows : gmap Z nat).
Hypothesis Hflat : flat_ok others other_refs cached ps cows.
Hypothesis Hrefs : ∀ c, other_refs c ≠ 0%nat → others c.
Hypothesis Hphys : ∀ p, p ∈ ps → is_shared p = false → pm_phys_page p ≠ 0.

(** What the other of the two processes holds. *)
Definition fork_others (f : Z) : Prop := others f ∨ ∃ p, p ∈ ps ∧ pm_cow (fork_record p) = Some f.
Definition fork_refs (c : Z) : nat := (other_refs c + cow_refs c (fork_record <$> ps))%nat.

Lemma fork_record_cow p x : p ∈ ps → pm_cow (fork_record p) = Some x → pm_data p = None ∧ backing p = x.
Proof.
  intros Hp Hx. pose proof (fo_record _ _ _ _ _ Hflat p Hp) as Hr. unfold record_ok in Hr. rewrite <- fork_record_backing.
  unfold backing. rewrite Hx, fork_record_data. destruct (pm_data p) eqn:E; [| done].
  rewrite fork_record_shared in Hx by (unfold is_shared; by rewrite E). by rewrite Hx in Hr.
Qed.

(** The count of a page that was the process' own. *)
Lemma fork_count_private p :
  p ∈ ps → is_shared p = false →
  foldl fork_count cows ps !! pm_phys_page p = Some 2%nat ∧ fork_refs (pm_phys_page p) = 1%nat.
Proof.
  intros Hp Hsh. pose proof Hflat as [F1 F2 F3 F4 F5 F6]. pose proof (Hphys p Hp Hsh) as Hne.
  assert (backing p = pm_phys_page p) as Hb by (unfold backing, is_shared in *; by destruct (pm_data p), (pm_cow p)).
  assert (∀ q, q ∈ ps → backing q = pm_phys_page p → q = p) as Hone.
  { intros q Hq E. symmetry. apply F4; [done | done | done | congruence]. }
  apply list_elem_of_split in Hp as (l1 & l2 & E).
  assert (p ∉ l1 ∧ p ∉ l2) as [Hn1 Hn2].
  { apply NoDup_fmap_1 in F1. rewrite E in F1. apply NoDup_app in F1 as (_ & Hd & F1). apply NoDup_cons in F1 as [Hn _].
    split; [| done]. intros Hin. apply (Hd p Hin). left. }
  assert (∀ q, q ∈ l1 ∨ q ∈ l2 → q ∈ ps ∧ q ≠ p) as Hrest.
  { intros q Hq. rewrite E. split; [destruct Hq; apply elem_of_app; [by left | right; by right] |].
    intros ->. by destruct Hq. }
  split.
  - rewrite E, foldl_app. cbn [foldl]. rewrite fork_count_shared.
    + rewrite cow_refs_zero, decide_True; [| done |].
      2: { intros q Hq Hc. destruct (Hrest q (or_intror Hq)) as [Hqp Hnq]. apply Hnq, Hone; [done |].
           pose proof (F2 q Hqp) as Hr. unfold record_ok, backing in *. rewrite Hc in Hr |- *. by destruct (pm_data q). }
      unfold fork_count. rewrite Hsh, (proj2 (Z.eqb_neq _ _) Hne). apply lookup_insert_eq.
    + intros q Hq Hqs Hqp. destruct (Hrest q (or_intror Hq)) as [Hqps Hnq]. apply Hnq, Hone; [done |].
      unfold backing, is_shared in *. by destruct (pm_data q), (pm_cow q).
  - unfold fork_refs. assert (other_refs (pm_phys_page p) = 0%nat) as ->.
    { destruct (decide (other_refs (pm_phys_page p) = 0%nat)) as [| Hn]; [done |]. exfalso.
      apply (F5 p); [rewrite E; apply elem_of_app; right; left | done |]. left. rewrite Hb. by apply Hrefs. }
    rewrite E, fmap_app. cbn [fmap list_fmap]. rewrite <- Permutation_middle, cow_refs_cons, decide_True.
    2: { by rewrite fork_record_private. }
    rewrite cow_refs_zero; [done |]. intros q' Hq' Hc. rewrite <- fmap_app in Hq'.
    apply list_elem_of_fmap in Hq' as (q & -> & Hq%elem_of_app). destruct (Hrest q Hq) as [Hqp Hnq].
    apply Hnq, Hone; [done |]. by apply fork_record_cow.
Qed.

Lemma fork_count_cow p x :
  p ∈ ps → pm_cow p = Some x →
  foldl fork_count cows ps !! x = Some (cow_refs x (fork_record <$> ps) + fork_refs x)%nat.
Proof.
  intros Hp Hx. pose proof Hflat as [F1 F2 F3 F4 F5 F6]. destruct (F6 p x Hp Hx) as (En & _ & _).
  assert (backing p = x) as Hb.
  { pose proof (F2 p Hp) as Hr. unfold record_ok, backing in *. rewrite Hx in Hr |- *. by destruct (pm_data p). }
  assert (∀ q, q ∈ ps → is_shared q = false → pm_phys_page q ≠ x) as Hno.
  { intros q Hq Hsh E. assert (q = p) as ->.
    { apply F4; [done | done | done |]. rewrite Hb. unfold backing, is_shared in *. by destruct (pm_data q), (pm_cow q). }
    unfold is_shared in Hsh. rewrite Hx in Hsh. by destruct (pm_data p). }
  assert (cow_refs x (fork_record <$> ps) = cow_refs x ps) as Ec.
  { clear -Hno Hphys. induction ps as [| q qs IH]; [done |]. cbn [fmap list_fmap]. rewrite !cow_refs_cons.
    rewrite IH by (intros r Hr; (apply Hphys || apply Hno); by right). f_equal.
    destruct (is_shared q) eqn:Hsh; [by rewrite fork_record_shared |].
    rewrite fork_record_private; [| done | apply Hphys; [left | done]]. cbn [pm_cow].
    rewrite !decide_False; [done | | ].
    - unfold is_shared in Hsh. by destruct (pm_data q), (pm_cow q).
    - intros [= E]. by apply (Hno q); [left | |]. }
  rewrite fork_count_shared by done. unfold fork_refs. rewrite Ec, En.
  rewrite decide_False by (by eapply cow_refs_elem). cbn. f_equal. lia.
Qed.

(** The records of either process, which count the other one. *)
Lemma fork_flat_ok : flat_ok fork_others fork_refs cached (fork_record <$> ps) (foldl fork_count cows ps).
Proof.
  pose proof Hflat as [F1 F2 F3 F4 F5 F6].
  assert (∀ p, p ∈ ps → is_shared (fork_record p) = true) as Hall.
  { intros p Hp. destruct (is_shared p) eqn:Hsh; [by rewrite fork_record_shared |].
    by rewrite fork_record_private by auto. }
  split.
  - rewrite <- list_fmap_compose. erewrite list_fmap_ext; [exact F1 |]. intros i p _. apply fork_record_page.
  - intros p' (p & -> & Hp)%list_elem_of_fmap. destruct (is_shared p) eqn:Hsh; [rewrite fork_record_shared by done; by apply F2 |].
    by rewrite fork_record_private by auto.
  - intros p' d (p & -> & Hp)%list_elem_of_fmap. rewrite fork_record_data. by apply F3.
  - intros p' q (p & -> & Hp)%list_elem_of_fmap _ Hsh. by rewrite Hall in Hsh.
  - intros p' (p & -> & Hp)%list_elem_of_fmap Hsh. by rewrite Hall in Hsh.
  - intros p' x Hp' Hx. pose proof Hp' as (p & -> & Hp)%list_elem_of_fmap. pose proof (cow_refs_elem x _ _ Hp' Hx) as Hpos.
    destruct (is_shared p) eqn:Hsh.
    + rewrite fork_record_shared in Hx by done. split_and!; [by apply (fork_count_cow p) | by eapply F6 | unfold fork_refs; lia].
    + rewrite fork_record_private in Hx by auto. cbn in Hx. apply (inj Some) in Hx as <-.
      destruct (fork_count_private p Hp Hsh) as [E1 E2]. split_and!; [| | lia].
      * rewrite E1, E2. f_equal. unfold fork_refs in E2. lia.
      * intros Hc. apply (F5 p Hp Hsh). right. unfold backing, is_shared in *. by destruct (pm_data p), (pm_cow p).
Qed.

End Counts.

(** * Clone *)

Lemma fork_map_phys l : map_phys (fork_mapping <$> l) = fork_record <$> map_phys l.
Proof.
  unfold map_phys. induction l as [| m l IH]; [done |]. cbn [fmap list_fmap]. rewrite !bind_cons, fmap_app, <- IH. done.
Qed.

Lemma fork_map_ok l : map_ok l → map_ok (fork_mapping <$> l).
Proof.
  intros [Hall Hap]. split.
  - apply Forall_fmap. eapply Forall_impl; [exact Hall |]. intros m [M1 M2 M3 M4]. split; cbn; try done.
    apply Forall_fmap. eapply Forall_impl; [exact M4 |]. intros p Hp. cbn. by rewrite fork_record_page.
  - induction Hap as [| m l Hm _ IH]; [constructor |]. apply Forall_cons in Hall as [_ Hall]. cbn [fmap list_fmap].
    constructor; [| by apply IH]. apply Forall_fmap. eapply Forall_impl; [exact Hm |]. done.
Qed.

Lemma record_pages l : map_ok l → Forall (fun p => page_number (pm_page p)) (map_phys l).
Proof.
  intros Hl. apply Forall_forall. intros p (m & Hm & Hp)%elem_of_map_phys.
  pose proof (record_covered _ _ _ Hl Hm Hp) as Hc. destruct Hl as [Hall _]. rewrite Forall_forall in Hall.
  destruct (Hall m Hm). unfold mm_covers in Hc. unfold page_number. lia.
Qed.

Section Fork.
Context {A : Type} `{FrameAllocatorLaws A}.
Context (others : Z → Prop) (other_refs : Z → nat) (cached : Z → Prop).
Implicit Types (v : address_space A) (own : places) (u : user_pages A).
Abbreviation vm_ok := (vm_ok others other_refs cached).

(** What the code takes for granted: the process can write to its own pages. *)
Definition fork_safe v : Prop :=
  ∀ p, p ∈ map_phys (as_map v) → is_shared p = false →
    entry_present (entry_of v (pm_page p)) ∧ entry_writeable (entry_of v (pm_page p)).

Lemma fork_image l cows m p :
  records_ok others other_refs cached l cows → m ∈ fork_mapping <$> l → p ∈ mm_mappings m → pm_data p ≠ None →
  mm_image m ≠ None.
Proof.
  intros [_ Himg] (m0 & -> & Hm0)%list_elem_of_fmap Hp. cbn in Hp. apply list_elem_of_fmap in Hp as (p0 & -> & Hp0).
  rewrite fork_record_data. by apply (Himg m0 p0).
Qed.

(** The entries of the parent. *)
Lemma fork_entries_parent own v u' :
  vm_ok own v → fork_safe v → made_read_only (pm_page <$> map_phys (as_map v)) (as_pages v) u' →
  entries_ok (fork_mapping <$> as_map v) (user_entry u').
Proof.
  intros [V1 V2 V3 V4 V5 [E1 E2 E3]] Hsafe He.
  assert (∀ p, p ∈ map_phys (as_map v) → 0 ≤ pm_page p) as Hpos.
  { intros p (m & Hm & Hp)%elem_of_map_phys. pose proof (record_covered _ _ _ V2 Hm Hp) as Hc.
    destruct V2 as [Hall _]. rewrite Forall_forall in Hall. destruct (Hall m Hm). unfold mm_covers in Hc. lia. }
  assert (∀ pn, 0 ≤ pn → bf_get pe_present (user_entry u' pn) = bf_get pe_present (entry_of v pn) ∧
    below_addr (user_entry u' pn) = below_addr (entry_of v pn)) as Hsame.
  { intros pn Hpn. rewrite He by done. destruct (read_only_spec (entry_of v pn)) as (R1 & _ & R3). by case_decide. }
  assert (∀ pn, 0 ≤ pn → entry_writeable (user_entry u' pn) →
    entry_writeable (entry_of v pn) ∧ ∀ p, p ∈ map_phys (as_map v) → pm_page p ≠ pn) as Hwr.
  { intros pn Hpn Hw. unfold entry_writeable in Hw. rewrite He in Hw by done. case_decide as Hin.
    - destruct (read_only_spec (entry_of v pn)) as (_ & R2 & _). unfold entry_of in R2. by rewrite R2 in Hw.
    - split; [done |]. intros p Hp <-. apply Hin. by apply list_elem_of_fmap_2. }
  split; rewrite ?fork_map_phys.
  - intros pn Hpn Hpr. destruct (Hsame pn Hpn) as [Ep Eb]. unfold entry_present in Hpr. rewrite Ep in Hpr.
    destruct (E1 pn Hpn Hpr) as (p & Hp & Hpg & Hb & _). exists (fork_record p).
    rewrite fork_record_page, fork_record_backing. split_and!; [by apply list_elem_of_fmap_2 | done | congruence |].
    intros Hw. destruct (Hwr pn Hpn Hw) as [_ Hno]. by destruct (Hno p Hp).
  - intros p' (p & -> & Hp)%list_elem_of_fmap Hc. rewrite fork_record_page. unfold entry_present.
    rewrite (proj1 (Hsame _ (Hpos p Hp))). destruct (is_shared p) eqn:Hsh; [| by apply Hsafe].
    rewrite fork_record_shared in Hc by done. by apply E2.
  - intros m' pn (m & -> & Hm)%list_elem_of_fmap Himg Hc Hsh Hw.
    assert (0 ≤ pn) as Hpn.
    { destruct V2 as [Hall _]. rewrite Forall_forall in Hall. destruct (Hall m Hm). unfold mm_covers in Hc. cbn in Hc. lia. }
    destruct (Hwr pn Hpn Hw) as [Hw' Hno]. apply (E3 m pn Hm Himg Hc); [| done]. intros p Hp Hpg.
    destruct (Hno p); [| done]. apply elem_of_map_phys. by exists m.
Qed.

(** Those of the child are the same or missing. *)
Lemma fork_entries_child l (ent ent' : Z → Z) :
  map_ok l → entries_ok l ent → (∀ pn, 0 ≤ pn → ent' pn = 0 ∨ ent' pn = ent pn) →
  (∀ pn, 0 ≤ pn → entry_present (ent pn) → ent' pn ≠ 0) → entries_ok l ent'.
Proof.
  intros Hl [E1 E2 E3] He Hmem. pose proof Hl as [Hall _]. rewrite Forall_forall in Hall. split.
  - intros pn Hpn Hpr. destruct (He pn Hpn) as [E | E]; rewrite E in Hpr |- *; [done | by apply E1].
  - intros p Hp Hc. pose proof Hp as (m & Hm & Hpm)%elem_of_map_phys. pose proof (record_covered _ _ _ Hl Hm Hpm) as Hcov.
    assert (0 ≤ pm_page p) as Hpn by (destruct (Hall m Hm); unfold mm_covers in Hcov; lia).
    pose proof (E2 p Hp Hc) as Hpr. destruct (He _ Hpn) as [E | E]; [| by rewrite E]. by destruct (Hmem _ Hpn Hpr).
  - intros m pn Hm Himg Hc Hsh Hw. assert (0 ≤ pn) as Hpn by (destruct (Hall m Hm); unfold mm_covers in Hc; lia).
    destruct (He pn Hpn) as [E | E]; rewrite E in Hw; [done | by apply (E3 m pn)].
Qed.

(** A process with the records of the fork. *)
Lemma fork_vm_ok own own' v u' :
  vm_ok own v → (∀ c, other_refs c ≠ 0%nat → others c) → fork_safe v →
  let ps := map_phys (as_map v) in
  pages_ok own' u' → (∀ f, page_frame own (as_pages v) (as_mem v) f → page_frame own' u' (as_mem v) f) →
  entries_ok (fork_mapping <$> as_map v) (user_entry u') →
  ProcVmInv.vm_ok (fork_others others ps) (fork_refs other_refs ps) cached own'
    (AddressSpace (fork_mapping <$> as_map v) u' (as_mem v) (foldl fork_count (as_cows v) ps) (as_brk v)).
Proof.
  intros [V1 V2 V3 V4 V5 V6] Hrefs Hsafe ps Hu' Hpf He.
  assert (∀ p, p ∈ ps → is_shared p = false → pm_phys_page p ≠ 0) as Hphys.
  { intros p Hp Hsh. destruct (V4 p Hp) as [Hf _]. unfold backing, is_shared in *.
    destruct (pm_data p), (pm_cow p); try done. by apply frame_not_0. }
  split; cbn [as_map as_pages as_mem as_cows]; rewrite ?fork_map_phys; try done.
  - by apply fork_map_ok.
  - split; [rewrite fork_map_phys; apply fork_flat_ok; [apply V3 | done | done] |].
    intros m p Hm Hp Hd. by eapply fork_image.
  - intros p' (p & -> & Hp)%list_elem_of_fmap. rewrite fork_record_backing. by apply Hpf, V4.
  - intros f [[Ho | (p & Hp & Hc)] | Hc]; [apply Hpf, V5; by left | | apply Hpf, V5; by right].
    destruct (fork_record_cow others other_refs cached ps (as_cows v) (ro_flat _ _ _ _ _ V3) p f Hp Hc) as [_ <-].
    by apply Hpf, V4.
Qed.

(** The new tables are not at the frames in use. *)
Lemma page_frame_new (own own' : places) u u0 u' mem f :
  grows ∅ u0 own' u' → up_frames u0 = up_frames u → page_frame own u mem f → page_frame own' u' mem f.
Proof.
  intros [_ G2 G3 _ _] E (Hf & Hus & _ & Hm). rewrite E in G2, G3. split_and!; [done | auto | | done].
  destruct (own' !! f) as [x |] eqn:Ex; [| done]. by destruct (G3 f x Ex (lookup_empty f)).
Qed.

Lemma pages_ok_frames own u a' :
  pages_ok own u → frames_ok a' → (∀ q, is_frame q → frame_used (up_frames u) q → frame_used a' q) →
  pages_ok own (with_frames a' u).
Proof.
  intros [P1 P2 P3 P4] Ha Hus. split; cbn; try done. intros t x Ht. apply Hus; [by apply (tr_table _ _ P2 _ _ Ht) | by eapply P3].
Qed.

Lemma no_tables_ok (a : A) : frames_ok a → pages_ok ∅ (UserPages [] [] ∅ a).
Proof. intros Ha. split; [done | by split | done | by split; cbn; [intros r ?%elem_of_nil.. | constructor | constructor]]. Qed.

Lemma no_tables_entry (a : A) pn : user_entry (UserPages [] [] ∅ a) pn = 0.
Proof. unfold user_entry, user_root. by destruct (low_page pn). Qed.

Lemma read_only_reads v v' ps pn :
  made_read_only ps (as_pages v) (as_pages v') → as_mem v' = as_mem v → 0 ≤ pn → user_read v' pn = user_read v pn.
Proof.
  intros He Em Hpn. unfold user_read, entry_of. rewrite (He pn Hpn), Em.
  destruct (read_only_spec (user_entry (as_pages v) pn)) as (R1 & _ & R3). case_decide; [by rewrite R1, R3 | done].
Qed.

(** In the course of Clone there is no frame left for a table of the child. *)
Definition clone_stuck v : Prop :=
  ∃ l cl u c, WriteProtectCow (as_map v) (as_pages v) (as_cows v) = Ret (l, cl, u, c) ∧
    copy_stuck u (cl ≫= fun m => wrap 32 <$> seqZ (mm_pagenum m) (mm_pages m)) (UserPages [] [] ∅ (up_frames u)).

(** Every page that is present is among those that are copied. *)
Lemma clone_covers l (ent : Z → Z) pn :
  map_ok l → entries_ok l ent → 0 ≤ pn → entry_present (ent pn) →
  pn ∈ l ≫= fun m => wrap 32 <$> seqZ (mm_pagenum m) (mm_pages m).
Proof.
  intros Hl [E1 _ _] Hpn Hpr. destruct (E1 pn Hpn Hpr) as (p & (m & Hm & Hp)%elem_of_map_phys & <- & _).
  pose proof (record_covered _ _ _ Hl Hm Hp) as Hc. destruct Hl as [Hall _]. rewrite Forall_forall in Hall.
  destruct (Hall m Hm). unfold mm_covers in Hc. apply list_elem_of_bind. exists m. split; [| done].
  apply list_elem_of_fmap. exists (pm_page p). rewrite wrap_id by (unfold is_u; lia). split; [done |].
  apply elem_of_seqZ. lia.
Qed.

(** Without a lack of frames every entry that is present is copied. *)
Lemma clone_complete l pages own u (uc : user_pages A) :
  pages_ok own u → entries_ok l (user_entry u) → map_ok l →
  pages = (l ≫= fun m => wrap 32 <$> seqZ (mm_pagenum m) (mm_pages m)) →
  (∀ pn, pn ∈ pages → user_page pn → leaf_table u pn ≠ None → user_entry uc pn = user_entry u pn) →
  ∀ pn, 0 ≤ pn → entry_present (user_entry u pn) → user_entry uc pn = user_entry u pn.
Proof.
  intros Hu He Hl -> Hall pn Hpn Hpr. pose proof (clone_covers l _ pn Hl He Hpn Hpr) as Hin.
  assert (page_number pn) as Hp.
  { apply list_elem_of_bind in Hin as (m & Hin & _). apply list_elem_of_fmap in Hin as (x & -> & _).
    unfold page_number. by apply wrap_range. }
  apply Hall; [done | |].
  - destruct (decide (user_page pn)) as [| Hn]; [done |]. by rewrite (user_entry_outside own u pn Hu Hp Hn) in Hpr.
  - intros Hlf. by rewrite (leaf_none u pn Hlf) in Hpr.
Qed.

(** The pages that are shared cannot be written. *)
Lemma shared_read_only (v : address_space A) u p :
  map_ok (as_map v) → made_read_only (pm_page <$> map_phys (as_map v)) (as_pages v) u → p ∈ map_phys (as_map v) →
  0 ≤ pm_page p ∧ ¬ entry_writeable (user_entry u (pm_page p)).
Proof.
  intros V2 He Hp. pose proof (proj1 (Forall_forall _ _) (record_pages _ V2) p Hp) as [Hpn _]. split; [done |]. intros Hw.
  unfold entry_writeable in Hw. rewrite He, decide_True in Hw by (done || by apply list_elem_of_fmap_2).
  by rewrite (proj1 (proj2 (read_only_spec _))) in Hw.
Qed.

(** A child whose entries are copied where they are present reads the same. *)
Lemma copied_reads (parent child : address_space A) pn :
  as_mem child = as_mem parent → entry_of child pn = 0 ∨ entry_of child pn = entry_of parent pn →
  (entry_present (entry_of parent pn) → entry_of child pn = entry_of parent pn) → user_read child pn = user_read parent pn.
Proof.
  intros Em Hc Hpr. unfold user_read. rewrite Em. destruct Hc as [E | ->]; [| done].
  destruct (Z.eqb_spec (bf_get pe_present (entry_of parent pn)) 1) as [Hp | Hp]; [| by rewrite E].
  by rewrite (Hpr Hp), (proj2 (Z.eqb_eq _ _) Hp).
Qed.


End Fork.

(** * Examples *)

Definition forked (v : address_space (ppage_state (M := simple_physpagemap_managed))) := 
  match Clone v with Ret p => p | _ => (v, v) end.


(** The page has been written by the process. *)
Definition written_space : address_space (ppage_state (M := simple_physpagemap_managed)) :=
  set_mem (<[ below_addr (entry_of touched_space (2 ^ 31)) := file_bytes ]> (as_mem touched_space)) touched_space.

Definition protected (prot : Z) (v : address_space (ppage_state (M := simple_physpagemap_managed))) :=
  space_after (Protect (2 ^ 31) 1 prot v).

(** mprotect does not hold for pages that fork shares.  After
    mprotect(PROT_READ) a write to a page is refused; if the process has
    forked before, the write fault gives it a writeable copy instead. *)
Theorem fork_defeats_read_only :
  succeeds (sync_resolve_page (2 ^ 43) (protected PROT_READ written_space)) = false ∧
  let v := protected PROT_READ (fst (forked written_space)) in
  find_mapping (2 ^ 31) (as_map v) ≠ None ∧ bf_get pe_writeable (entry_of v (2 ^ 31)) = 0 ∧
  succeeds (sync_resolve_page (2 ^ 43) v) = true ∧
  bf_get pe_writeable (entry_of (space_after (sync_resolve_page (2 ^ 43) v)) (2 ^ 31)) = 1.
Proof. split_and!; by vm_compute. Qed.

(** a page that fork shares is lost by mprotect(PROT_NONE) and
    mprotect(PROT_READ): the next access finds its record with phys_page 0,
    and gets a new page of zeroes. *)
Theorem fork_loses_page :
  user_read (fst (forked written_space)) (2 ^ 31) = Some file_bytes ∧
  let v := protected PROT_READ (protected PROT_NONE (fst (forked written_space))) in
  succeeds (sync_resolve_page (2 ^ 43) v) = true ∧
  user_read (space_after (sync_resolve_page (2 ^ 43) v)) (2 ^ 31) = Some zero_page.
Proof. split_and!; by vm_compute. Qed.

(** a page of the process that is read only at the time of the fork is mapped in
    the child without a record: the page stays the parent's own, and is not counted, so
    that the parent writes to it under the eyes of the child. *)
Theorem fork_shares_read_only :
  let parent := fst (forked (protected PROT_READ written_space)) in
  let child := snd (forked (protected PROT_READ written_space)) in
  map_phys (as_map child) = [] ∧ as_cows parent = ∅ ∧
  user_read child (2 ^ 31) = Some file_bytes ∧
  let w := protected (Z.lor PROT_READ PROT_WRITE) parent in
  bf_get pe_writeable (entry_of w (2 ^ 31)) = 1 ∧
  below_addr (entry_of w (2 ^ 31)) = below_addr (entry_of child (2 ^ 31)).
Proof. split_and!; by vm_compute. Qed.
